(* ===== verification/_CoqProject ===== *)
-Q . S2P
Prelude.v
Wire.v
Text.v
Protocol.v
Threads.v
RelayProtocol.v
RelayProtocolSpec.v
Crypto.v
Archive.v
Prekey.v
Envelope.v
Utf8Label.v
Attachment.v
AttachmentProps.v
AttachmentNames.v
MessageRecord.v
RecordPayloads.v
IdentityBundle.v
Keyring.v
KeyStore.v
KeyStoreProps.v
KeyStoreContacts.v
Sharing.v
SharingProps.v
Sql.v
PrekeyVault.v
HistoryTables.v
HistoryStore.v
HistoryRecords.v
HistoryQueues.v
HistoryInv.v
HistoryProps.v
HistoryGroups.v
HistoryArchives.v
RelayClient.v
Engine.v
EngineAccount.v
EngineDeletions.v
EngineReceive.v
EngineArchives.v
EngineOutbox.v
EngineRestore.v
EngineSend.v
EngineAttachments.v
EngineViews.v
EnginePump.v
EngineExamples.v
EngineInv.v
EngineAuth.v
EngineLawful.v
EngineInbox.v
EngineSync.v
RelayStore.v
RelayStoreInv.v
RelayArchive.v
RelayReach.v
RelayStoreProps.v
RelayState.v
RelayService.v
RelayConcurrent.v
RelaySession.v
RelayAdmin.v
RelayTransfers.v
RelayLink.v
RelaySignIn.v
TransferServer.v
TransferServerInv.v
TransferServerProps.v
TransferEngine.v
TransferServerRuns.v
TransferRestore.v
TransferNames.v
TransferEngineProps.v
TransferLink.v
ServerMain.v
ServerMainProps.v
Window.v
WindowProps.v
