(* ===== verification/Prelude.v ===== *)
(** * PQ File Transfer: a verification development

    The program is a post-quantum file transfer and chat suite in C++. A relay
    server (src/server) stores ciphertext it cannot read: files on their way from
    one person to another, envelopes queued for mailboxes, one-time prekeys,
    attachments, keyrings and chat archives. A client
    (src/client) keeps a person's keys, signs records, seals them in envelopes for
    one recipient each, and keeps an encrypted local history. Both speak the
    framed messages of src/protocol.

    ** Files

    Shared:
    - [Prelude] (this file): bytes, machine-width integers, sorting, lists,
      automation.
    - [Wire], [Protocol]: src/protocol/protocol.cpp and messages.h. Writers and
      bounds-checked readers, protocol v2 headers and chunks, framing and the
      socket loops. [Wire] has the reader specifications every codec uses.
    - [RelayProtocol], [RelayProtocolSpec]: relay_protocol.cpp. The 29 relay
      messages and the inputs that are signed or hashed.
    - [Sql]: the SQL statements (sqlite_helpers.h) as functions on tables, with
      what each does to keys and look-ups.

    Relay:
    - [RelayStore]: relay_store.cpp, the database and every method;
      [RelayStoreInv], [RelayArchive], [RelayReach] its invariants over reachable
      states, [RelayStoreProps] what the methods do.
    - [RelayState], [RelayService]: relay_service.cpp, the session of a
      connection as a state monad over the store, the files and the socket;
      [RelayConcurrent] the threads of all connections as a step relation;
      [RelaySession], [RelayAdmin], [RelayTransfers] what sessions, the rate
      limiter, removals, uploads and downloads do.

    Server:
    - [Threads]: programs of atomic steps, running them, interleaving them, and a
      rule for what holds at every step; used by the relay's sessions and the server.
    - [TransferServer]: server/main.cpp, the transfers of protocol v2: the table, the
      space, the handlers of a connection, the cleanup, restoring at the start;
      [TransferServerInv] and [TransferServerProps] its invariant over every
      interleaving, [TransferServerRuns] an upload and a download that succeed,
      [TransferRestore] what a restart finds.
    - [ServerMain]: the rest of server/main.cpp, options, the operator's tools and
      the order of the start; [ServerMainProps] what they do.

    Client:
    - [Crypto]: crypto_engine.cpp. The algorithms are the class [Primitives], what
      is documented of them the class [PrimitiveLaws], with the instance [toy].
    - [Archive]: archive.cpp. Sealed, chained archive entries.
    - [Prekey], [PrekeyVault]: prekey.cpp and prekey_vault.cpp.
    - [Envelope]: envelope.cpp. Sealing and opening.
    - [Utf8Label], [MessageRecord], [RecordPayloads]: message_record.cpp.
    - [IdentityBundle], [Keyring]: identity_bundle.cpp and keyring.cpp.
    - [HistoryTables], [HistoryStore], [HistoryRecords], [HistoryQueues]:
      history_store.cpp, the tables and every method; [HistoryInv] the methods as
      one step function and the invariant, [HistoryProps], [HistoryGroups],
      [HistoryArchives] what the methods do.
    - [Text]: what the parsers use of std::string.
    - [Attachment]: attachment.cpp, the sender's and the receiver's side of a file
      in chunks; [AttachmentProps] what is saved, [AttachmentNames] under which name.
    - [KeyStore]: key_store.cpp over a disk that answers every step, and may stop
      the process at any; [KeyStoreProps] the user's keys, [KeyStoreContacts] the
      contacts.
    - [Sharing], [SharingProps]: sharing.cpp. base64url, addresses, cards, links.
    - [TransferEngine]: transfer_engine.cpp, sending and receiving a file over protocol
      v2; [TransferNames] under which name it is saved, [TransferEngineProps] what a
      download leaves, whatever comes.
    - [Window]: main_window.cpp with key_dialogs.cpp and keychain.cpp, what the window
      decides about keys, contacts and transfers, on what the user does with each
      dialog; [WindowProps] what it lets happen.
    - [RelayClient]: relay_client.cpp, a connection to a relay and every request made
      on it.
    - messaging_engine.cpp, which joins the key store, the history and the vault:
      [Engine] its state, its monad and shared pieces, [EngineAccount] the mailbox,
      cards and the pool of prekeys, [EngineDeletions] deletion by agreement,
      [EngineReceive] what arrives, [EngineArchives] the archives of chats,
      [EngineOutbox] what is sent, [EngineRestore] the keyring and restoring,
      [EngineSend] what the user writes, [EngineAttachments] files, [EngineViews]
      what is shown, [EnginePump] the rounds of the background thread.
      [EngineExamples] are two engines that write to one another. [EngineInv] is a
      program logic for what an operation does to the history, [EngineAuth] and
      [EngineLawful] apply it to every operation, [EngineInbox] draws the
      conclusions, [EngineSync] is about catching up on an archive.

    Both ends together: [RelayLink] (files and keyrings) and [RelaySignIn] run the
    methods of [RelayClient] against the sessions of [RelayService]; [TransferLink]
    runs [TransferEngine] against [TransferServer].

    ** How the code is modelled

    A pure function is a function. A reader takes the buffer and an offset and
    returns an optional value and the new offset, as the C++ takes [size_t& off].
    A function that throws returns [exc]; a store method that throws returns
    [None] or [Throw] and the caller keeps the database it had, since the
    transaction is rolled back. A method that holds its object's mutex is one
    atomic step. Random bytes, the clock, and what the network and the file system
    answer are arguments; the engine, which asks many questions, reads the answers
    from a [World] by the number of the question. Names are the source's, with a prefix where two files
    use the same one; the comment on a definition names the lines it translates.

    ** What the theorems show

    Formats: every decoder accepts exactly what the encoder writes for a valid
    value, so nothing is accepted in two ways and nothing trails
    ([relay_codecs_exact], [payload_formats_exact], [keyring_format_exact],
    [parse_record_exact], [prekey_format_exact], [inner_format_exact],
    [valid_label_exact]), and what is signed determines what was meant
    ([signing_inputs_separate]).

    Relay: the store's invariant holds in every reachable state, under any
    interleaving of connections ([relay_store_invariant],
    [running_relay_keeps_store]); who may do what ([sign_in_proves_key],
    [anonymous_only], [deletion_needs_everyone]); deposits, prekeys, tokens,
    archives, transfers do what they promise on every branch.

    Server: in every state that any interleaving of connections, failures and cleanup
    can reach, the space is accounted for, what is in the table is whole on disk, and
    a transfer is given to one download at a time ([transfers_kept]); a restart keeps
    what is whole ([restart_restores]). The operator removes one member or nobody
    ([remove_by_prefix_exact]), the printed invite works
    ([printed_invite_registers]), options are within their types
    ([parsed_options_ok]), dates are those of the calendar ([format_time_calendar]).

    Both ends: what the one end sends is what the other end takes. A file arrives
    ([transfer_arrives], [file_over_the_wire]), a keyring too
    ([keyring_over_the_wire]), an owner gets in ([sign_in_over_the_wire]), and a
    client that has pinned a relay is not deceived by another
    ([connect_pins_relay]). A received file is one that a known person signed
    ([download_saves_only_signed]), under a harmless name ([received_name_safe]);
    a failed download leaves nothing ([failed_download_leaves_nothing]).

    Client: forward secrecy from the vault to the envelope
    ([vault_forward_secrecy]); the vault as a refinement of a map ([vault_refines_map]); an archive's
    head commits to its content, as far back as nothing was deleted: a tombstone's
    hash is taken as given, so what it replaced and what comes before it is not bound
    ([chain_binds_content]); the history's invariant, monotone message states and
    round trips. A file is saved only if the bytes received for it are those the
    sender signed, and it is exactly those bytes unless the disk lost some as it was
    closed or refused to cut the file of an earlier attempt, neither of which the
    code checks ([download_saves_only_verified], [attachment_roundtrip]); its name is
    harmless, in terms that do not mention the code's own tests
    ([sanitize_filename_safe]). The private keys survive any interruption of what is
    done with one passphrase, and are never made over
    ([keys_survive_interruption], [initialize_never_replaces]); a verified contact's
    key never goes back ([import_never_rolls_back]). However the window is used,
    nobody takes the protection off the keys who does not know the passphrase
    ([protection_needs_passphrase]), a remembered passphrase opens them
    ([remembered_passphrase_opens]), contacts change only when a fingerprint was
    confirmed or a known person signed ([contacts_only_confirmed]), and transfers go
    where the user said ([transfers_as_chosen]). What is pasted into a chat is
    read back ([links_roundtrip], [contact_cards_roundtrip]).

    Engine: whatever it is made to do and whatever relays and other people send,
    the messages shown as another person's carry that person's signature for this
    chat ([inbox_authentic]), what others can make it keep is bounded
    ([pending_bounded]), and nothing is erased in a chat unless its user asked for or
    agreed to that ([nothing_erased_unasked]). Catching up on an archive ends, with
    the content of a verified chain ([catch_up_ends]).

    ** Bounds and fuel

    Loops over a counted list are structural in the count. The socket loops take
    the list of what the system calls return, and the theorems about them ask for
    enough of it; [push_pending] and the removal of a mailbox tree recurse on fuel
    that the theorems prove sufficient (the number of rows). The UTF-8
    decoders use the length of the text, since every round moves on by a byte. A
    thread reads its connection with as much fuel as there are messages to come.
    [archive_catch_up] has fuel for its pages, one more than there are entries to
    come being enough ([catch_up_ends]); when it runs out the engine counts as
    stopped.

    ** Not modelled

    The algorithms of liboqs and OpenSSL and SQLite itself (parameters, or the
    effect of the statements); Qt (a normal form of texts, trimming and the jobs of the
    keychain are parameters); the Chats tab (chat_widget.cpp), which is layout and
    dialogs around the engine, and the layout, texts and worker thread of the window;
    portability headers, generated code, tests and tools; the schema upgrades of an old relay database; failures
    of memory allocation; waiting, and the threads of the engine, which runs one
    operation at a time. Of the server's main: the usage and warning texts, log lines,
    opening the listening socket, and the default folder on Windows. In the transfer
    engine an address is resolved and dialled by an argument, [Network]. *)

From Stdlib Require Import ZArith Lia Permutation Sorted.
From Stdlib Require Strings.Byte Strings.String.
From stdpp Require Import base list gmap strings.

#[global] Open Scope Z_scope.

(** ** Bytes, sizes and machine-width integers

    [std::vector<uint8_t>] and [std::string] are lists of bytes; a [size_t],
    [uint32_t], [uint64_t] or [int64_t] is a [Z] kept in its range by explicit
    casts. *)

Abbreviation byte := Byte.byte.
Abbreviation bytes := (list Byte.byte).

#[global] Instance byte_eq_dec : EqDecision byte := Byte.byte_eq_dec.

#[global] Program Instance byte_countable : Countable byte :=
  inj_countable Byte.to_nat Byte.of_nat _.
Next Obligation. intros b. apply Byte.of_to_nat. Qed.

Definition Z_of_byte (b : byte) : Z := Z.of_N (Byte.to_N b).

(** [static_cast<uint8_t>(z)]. *)
Definition byte_of_Z (z : Z) : byte :=
  default Byte.x00 (Byte.of_N (Z.to_N (z mod 256))).

(** [v.size()]. *)
Definition size {A} (l : list A) : Z := Z.of_nat (length l).

(** The casts of the sources: truncation to an unsigned width, and the
    two's-complement reading of a 64-bit value. *)
Definition u32 (z : Z) : Z := z mod 2 ^ 32.
Definition u64 (z : Z) : Z := z mod 2 ^ 64.
Definition i64 (z : Z) : Z := (z + 2 ^ 63) mod 2 ^ 64 - 2 ^ 63.

Definition in_u32 (z : Z) : Prop := 0 <= z < 2 ^ 32.
Definition in_u64 (z : Z) : Prop := 0 <= z < 2 ^ 64.
Definition in_i64 (z : Z) : Prop := - 2 ^ 63 <= z < 2 ^ 63.

(** The bytes of a C++ string literal. *)
Definition str (s : string) : bytes := String.list_byte_of_string s.

(** [v.begin() + off] and the first [n] elements, with a [Z] index. *)
Definition zdrop {A} (off : Z) (l : list A) : list A := drop (Z.to_nat off) l.
Definition ztake {A} (n : Z) (l : list A) : list A := take (Z.to_nat n) l.

(** Sum of a column. *)
Definition sum_by {A} (f : A -> Z) (l : list A) : Z := foldr (fun x acc => f x + acc) 0 l.

(** [memcmp] order, which is what SQLite uses for blobs and C++ for
    [std::vector<uint8_t>] and [std::lexicographical_compare]. *)
Fixpoint bytes_compare (a b : bytes) : comparison :=
  match a, b with
  | [], [] => Eq
  | [], _ => Lt
  | _, [] => Gt
  | x :: a', y :: b' =>
      match Z.compare (Z_of_byte x) (Z_of_byte y) with
      | Eq => bytes_compare a' b'
      | c => c
      end
  end.

Definition bytes_ltb (a b : bytes) : bool :=
  match bytes_compare a b with Lt => true | _ => false end.
Definition bytes_leb (a b : bytes) : bool :=
  match bytes_compare a b with Gt => false | _ => true end.

(** A stable insertion sort, used for [ORDER BY] and [std::sort]. *)
Fixpoint insert_by {A} (leb : A -> A -> bool) (x : A) (l : list A) : list A :=
  match l with
  | [] => [x]
  | y :: l' => if leb x y then x :: l else y :: insert_by leb x l'
  end.
Definition sort_by {A} (leb : A -> A -> bool) (l : list A) : list A :=
  foldr (insert_by leb) [] l.

Arguments size : simpl never.
Arguments zdrop : simpl never.
Arguments ztake : simpl never.
Arguments u32 : simpl never.
Arguments u64 : simpl never.
Arguments i64 : simpl never.

(** [if (!o) return std::nullopt;] followed by a use of [*o]. *)
Declare Scope wire_scope.
Delimit Scope wire_scope with wire.
Notation "'let?' x := o 'in' k" :=
  (match o with Some x => k | None => None end)
  (at level 10, x pattern, o at level 100, k at level 200) : wire_scope.
#[global] Open Scope wire_scope.

(** ** Automation *)

Create HintDb wire.
Create Rewrite HintDb size.

(** Arithmetic with [/] and [mod] by constants. *)
Ltac Zlia := Z.to_euclidean_division_equations; lia.

(** Split a conjunction of hypotheses and the booleans the sources test. *)
Ltac bool_prop :=
  repeat match goal with
  | H : andb _ _ = true |- _ => apply andb_prop in H; destruct H
  | H : orb _ _ = false |- _ => apply orb_false_elim in H; destruct H
  | H : negb _ = true |- _ => apply negb_true_iff in H
  | H : negb _ = false |- _ => apply negb_false_iff in H
  | H : bool_decide _ = true |- _ => apply bool_decide_eq_true in H
  | H : bool_decide _ = false |- _ => apply bool_decide_eq_false in H
  | H : (_ <? _) = true |- _ => apply Z.ltb_lt in H
  | H : (_ <? _) = false |- _ => apply Z.ltb_ge in H
  | H : (_ <=? _) = true |- _ => apply Z.leb_le in H
  | H : (_ <=? _) = false |- _ => apply Z.leb_gt in H
  | H : (_ =? _) = true |- _ => apply Z.eqb_eq in H
  | H : (_ =? _) = false |- _ => apply Z.eqb_neq in H
  end.

(** ** Lemmas on sizes and slices *)

Lemma size_nil {A} : size (@nil A) = 0.
Proof. reflexivity. Qed.
Lemma size_cons {A} (x : A) l : size (x :: l) = 1 + size l.
Proof. unfold size. simpl length. lia. Qed.
Lemma size_app {A} (l k : list A) : size (l ++ k) = size l + size k.
Proof. unfold size. rewrite length_app. lia. Qed.
Lemma size_nonneg {A} (l : list A) : 0 <= size l.
Proof. unfold size. lia. Qed.
Lemma size_zero_iff {A} (l : list A) : size l = 0 <-> l = [].
Proof. unfold size. destruct l; simpl; split; intros; try done; lia. Qed.
Lemma size_map {A B} (f : A -> B) l : size (map f l) = size l.
Proof. unfold size. by rewrite length_map. Qed.

#[export] Hint Rewrite @size_nil @size_cons @size_app @size_map : size.
#[export] Hint Resolve size_nonneg : wire.

Lemma zdrop_0 {A} (l : list A) : zdrop 0 l = l.
Proof. reflexivity. Qed.

Lemma zdrop_app {A} (l k : list A) : zdrop (size l) (l ++ k) = k.
Proof. unfold zdrop, size. rewrite Nat2Z.id. apply drop_app_length. Qed.

Lemma ztake_app {A} (l k : list A) : ztake (size l) (l ++ k) = l.
Proof. unfold ztake, size. rewrite Nat2Z.id. apply take_app_length. Qed.

Lemma ztake_all {A} (l : list A) : ztake (size l) l = l.
Proof. unfold ztake, size. rewrite Nat2Z.id. apply take_ge. lia. Qed.

Lemma zdrop_app_le {A} (l k : list A) n : 0 <= n <= size l -> zdrop n (l ++ k) = zdrop n l ++ k.
Proof. unfold zdrop, size. intros. apply drop_app_le. lia. Qed.

Lemma ztake_app_le {A} (l k : list A) n : 0 <= n <= size l -> ztake n (l ++ k) = ztake n l.
Proof. unfold ztake, size. intros. apply take_app_le. lia. Qed.

Lemma zdrop_zdrop {A} (l : list A) n m :
  0 <= n -> 0 <= m -> zdrop n (zdrop m l) = zdrop (m + n) l.
Proof. intros. unfold zdrop. rewrite drop_drop. f_equal. lia. Qed.

Lemma ztake_zdrop {A} (l : list A) n : ztake n l ++ zdrop n l = l.
Proof. apply take_drop. Qed.

Lemma size_ztake {A} (l : list A) n : 0 <= n <= size l -> size (ztake n l) = n.
Proof. unfold ztake, size. rewrite length_take. lia. Qed.

Lemma size_zdrop {A} (l : list A) n : 0 <= n <= size l -> size (zdrop n l) = size l - n.
Proof. unfold zdrop, size. rewrite length_drop. lia. Qed.

(** ** Data in pieces of [c] bytes *)

Definition piece {A} (c i : Z) (b : list A) : list A := ztake c (zdrop (i * c) b).

Lemma ztake_piece {A} (c i : Z) (b : list A) :
  0 <= c -> 0 <= i -> ztake (i * c) b ++ piece c i b = ztake ((i + 1) * c) b.
Proof.
  intros. unfold piece, ztake, zdrop. rewrite take_take_drop. f_equal. nia.
Qed.

Lemma size_piece {A} (c i : Z) (b : list A) :
  0 <= c -> 0 <= i * c <= size b -> size (piece c i b) = Z.min c (size b - i * c).
Proof. intros. unfold piece, ztake, zdrop, size in *. rewrite length_take, length_drop. lia. Qed.

Lemma ztake_ge {A} (n : Z) (l : list A) : size l <= n -> ztake n l = l.
Proof. unfold size, ztake. intros. apply take_ge. lia. Qed.

Lemma ztake_min {A} (a : Z) (l : list A) : ztake (Z.min a (size l)) l = ztake a l.
Proof.
  destruct (Z.min_spec a (size l)) as [[_ ->]|[? ->]]; [done|]. by rewrite !ztake_ge.
Qed.

(** ** Lemmas on bytes *)

Lemma Z_of_byte_range b : 0 <= Z_of_byte b < 256.
Proof.
  unfold Z_of_byte. pose proof (Byte.to_N_bounded b). lia.
Qed.

Lemma byte_of_Z_of_byte b : byte_of_Z (Z_of_byte b) = b.
Proof.
  unfold byte_of_Z. rewrite Z.mod_small by apply Z_of_byte_range.
  unfold Z_of_byte. by rewrite N2Z.id, Byte.of_to_N.
Qed.

Lemma Z_of_byte_of_Z z : Z_of_byte (byte_of_Z z) = z mod 256.
Proof.
  unfold byte_of_Z, Z_of_byte.
  pose proof (Z.mod_pos_bound z 256 ltac:(lia)).
  destruct (Byte.of_N (Z.to_N (z mod 256))) as [b|] eqn:E; simpl.
  - apply Byte.to_of_N in E. rewrite E, Z2N.id; lia.
  - apply Byte.of_N_None_iff in E. lia.
Qed.

Lemma Z_of_byte_inj a b : Z_of_byte a = Z_of_byte b -> a = b.
Proof. intros H. rewrite <- (byte_of_Z_of_byte a), <- (byte_of_Z_of_byte b). by f_equal. Qed.

Lemma u32_small z : in_u32 z -> u32 z = z.
Proof. apply Z.mod_small. Qed.
Lemma u64_small z : in_u64 z -> u64 z = z.
Proof. apply Z.mod_small. Qed.
Lemma i64_small z : in_i64 z -> i64 z = z.
Proof. unfold i64, in_i64. intros. rewrite Z.mod_small; lia. Qed.

Lemma lor_shiftl_add a b n : 0 <= n -> 0 <= b < 2 ^ n -> Z.lor (Z.shiftl a n) b = a * 2 ^ n + b.
Proof.
  intros Hn Hb. rewrite <- Z.shiftl_mul_pow2 by done. symmetry. apply Z.add_nocarry_lor.
  apply Z.bits_inj'. intros i Hi. rewrite Z.land_spec, Z.bits_0.
  destruct (decide (i < n)).
  - by rewrite Z.shiftl_spec_low.
  - rewrite andb_comm. destruct (decide (b = 0)) as [->|]; [by rewrite Z.bits_0|].
    rewrite Z.bits_above_log2; [done|lia|].
    apply Z.log2_lt_pow2; [lia|]. pose proof (Z.pow_le_mono_r 2 n i). lia.
Qed.

Lemma lor_add_low x y n :
  0 <= n -> 0 <= y < 2 ^ n -> x mod 2 ^ n = 0 -> Z.lor x y = x + y.
Proof.
  intros Hn Hy Hx. pose proof (Z.div_mod x (2 ^ n) ltac:(lia)) as E.
  rewrite Hx, Z.add_0_r, Z.mul_comm in E.
  rewrite E at 1. rewrite <- Z.shiftl_mul_pow2, lor_shiftl_add by done. lia.
Qed.

(** ** Lemmas on the order of bytes and on sorting *)

Lemma bytes_compare_refl a : bytes_compare a a = Eq.
Proof. induction a; simpl; [done|]. by rewrite Z.compare_refl. Qed.

Lemma bytes_compare_eq a b : bytes_compare a b = Eq -> a = b.
Proof.
  revert b; induction a as [|x a IH]; intros [|y b]; simpl; try done.
  destruct (Z.compare_spec (Z_of_byte x) (Z_of_byte y)) as [E|E|E]; intros H; try done.
  f_equal; [by apply Z_of_byte_inj | by apply IH].
Qed.

Lemma bytes_compare_antisym a b : bytes_compare b a = CompOpp (bytes_compare a b).
Proof.
  revert b; induction a as [|x a IH]; intros [|y b]; simpl; try done.
  rewrite (Z.compare_antisym (Z_of_byte x)). destruct (_ ?= _); simpl; auto.
Qed.

Lemma bytes_compare_lt_trans a b c :
  bytes_compare a b = Lt -> bytes_compare b c = Lt -> bytes_compare a c = Lt.
Proof.
  revert b c; induction a as [|x a IH]; intros [|y b] [|z c]; simpl; try done.
  destruct (Z.compare_spec (Z_of_byte x) (Z_of_byte y)),
    (Z.compare_spec (Z_of_byte y) (Z_of_byte z)),
    (Z.compare_spec (Z_of_byte x) (Z_of_byte z)); intros; try done; try lia; eauto.
Qed.

Lemma bytes_leb_total a b : bytes_leb a b = true \/ bytes_leb b a = true.
Proof.
  unfold bytes_leb. rewrite (bytes_compare_antisym a b).
  destruct (bytes_compare a b); auto.
Qed.

Lemma bytes_leb_antisym a b : bytes_leb a b = true -> bytes_leb b a = true -> a = b.
Proof.
  unfold bytes_leb. rewrite (bytes_compare_antisym a b).
  destruct (bytes_compare a b) eqn:E; simpl; intros; try done. by apply bytes_compare_eq.
Qed.

Lemma bytes_leb_trans a b c :
  bytes_leb a b = true -> bytes_leb b c = true -> bytes_leb a c = true.
Proof.
  unfold bytes_leb. intros H1 H2.
  destruct (bytes_compare a b) eqn:E1; try done.
  - apply bytes_compare_eq in E1. by subst.
  - destruct (bytes_compare b c) eqn:E2; try done.
    + apply bytes_compare_eq in E2. subst. by rewrite E1.
    + by rewrite (bytes_compare_lt_trans _ _ _ E1 E2).
Qed.

Section sorting.
Context {A : Type} (leb : A -> A -> bool).

Lemma insert_by_perm x l : insert_by leb x l ≡ₚ x :: l.
Proof.
  induction l as [|y l IH]; simpl; [done|].
  case_match; [done|]. rewrite IH. apply Permutation_swap.
Qed.

Lemma sort_by_perm l : sort_by leb l ≡ₚ l.
Proof. induction l as [|x l IH]; simpl; [done|]. by rewrite insert_by_perm, IH. Qed.

Lemma insert_by_sorted (Htot : forall x y, leb x y = true \/ leb y x = true) x l :
  Sorted (fun a b => leb a b = true) l ->
  Sorted (fun a b => leb a b = true) (insert_by leb x l).
Proof.
  induction 1 as [|y l Hs IH Hhd]; simpl; [repeat constructor|].
  destruct (leb x y) eqn:E; [repeat constructor; done|].
  destruct (Htot x y) as [?|Hyx]; [congruence|].
  constructor; [done|]. destruct l as [|z l]; simpl; [by constructor|].
  destruct (leb x z); constructor; [done|]. by inversion Hhd.
Qed.

Lemma sort_by_sorted (Htot : forall x y, leb x y = true \/ leb y x = true) l :
  Sorted (fun a b => leb a b = true) (sort_by leb l).
Proof. induction l; simpl; [constructor|]. by apply insert_by_sorted. Qed.
End sorting.

#[global] Instance size_perm {A} : Proper (Permutation ==> eq) (@size A).
Proof. intros l k Hp. unfold size. by rewrite Hp. Qed.

(** Two sorted lists with the same elements are equal. *)
Lemma sorted_perm_unique {A} (R : A -> A -> Prop) l k :
  Transitive R -> AntiSymm eq R ->
  Sorted R l -> Sorted R k -> l ≡ₚ k -> l = k.
Proof.
  intros Ht Ha Hl Hk. apply Sorted_StronglySorted in Hl; [|done].
  apply Sorted_StronglySorted in Hk; [|done].
  revert k Hk. induction Hl as [|x l Hl IH Hx]; intros k Hk Hp.
  - symmetry. by apply Permutation_nil.
  - destruct Hk as [|y k Hk Hy]; [by apply Permutation_sym, Permutation_nil in Hp|].
    assert (x = y) as ->.
    { assert (Hxin : x ∈ y :: k) by (rewrite <- Hp; left).
      assert (Hyin : y ∈ x :: l) by (rewrite Hp; left).
      apply elem_of_cons in Hxin as [->|Hxin]; [done|].
      apply elem_of_cons in Hyin as [->|Hyin]; [done|].
      apply (anti_symm R).
      - eapply Forall_forall in Hx; [exact Hx|done].
      - eapply Forall_forall in Hy; [exact Hy|done]. }
    f_equal. apply IH; [done|]. by apply Permutation_cons_inv in Hp.
Qed.

(** ** Sums *)

Lemma sum_by_app {A} (f : A -> Z) l k : sum_by f (l ++ k) = sum_by f l + sum_by f k.
Proof. induction l as [|x l IH]; simpl; [lia|]. rewrite IH. lia. Qed.

Lemma sum_by_nonneg {A} (f : A -> Z) l : (forall x, x ∈ l -> 0 <= f x) -> 0 <= sum_by f l.
Proof.
  induction l as [|x l IH]; simpl; intros H; [lia|].
  pose proof (H x ltac:(left)). assert (0 <= sum_by f l) by (apply IH; intros; apply H; by right). lia.
Qed.

Lemma sum_by_filter_le {A} (f : A -> Z) (P : A -> Prop) `{!forall x, Decision (P x)} l :
  (forall x, x ∈ l -> 0 <= f x) -> sum_by f (filter P l) <= sum_by f l.
Proof.
  induction l as [|x l IH]; intros Hpos; [done|]. rewrite filter_cons. simpl.
  pose proof (Hpos x ltac:(left)).
  assert (sum_by f (filter P l) <= sum_by f l) by (apply IH; intros; apply Hpos; by right).
  case_decide; simpl; lia.
Qed.

(** ** Sublists of sorted lists *)

Lemma StronglySorted_sublist {A} (R : A -> A -> Prop) l k : sublist l k -> StronglySorted R k -> StronglySorted R l.
Proof.
  induction 1 as [|x l k Hs IH|x l k Hs IH]; intros Hk; [constructor| |].
  - inversion Hk as [|? ? Hk' Hx]; subst. constructor; [by apply IH|].
    apply Forall_forall. intros y Hy. eapply Forall_forall; [exact Hx|]. by eapply elem_of_sublist.
  - inversion Hk; subst. by apply IH.
Qed.

Lemma StronglySorted_snoc {A} (R : A -> A -> Prop) l x :
  StronglySorted R l -> Forall (fun y => R y x) l -> StronglySorted R (l ++ [x]).
Proof.
  induction 1 as [|y l Hl IH Hy]; simpl; intros Hx; [repeat constructor|].
  apply Forall_cons in Hx as [? ?]. constructor; [by apply IH|]. apply Forall_app. by repeat constructor.
Qed.

Lemma Forall_sublist {A} (P : A -> Prop) l k : sublist l k -> Forall P k -> Forall P l.
Proof. intros Hs Hk. apply Forall_forall. intros x Hx. eapply Forall_forall; [exact Hk|]. by eapply elem_of_sublist. Qed.

(** ** Filters that keep nothing, or everything *)

Lemma filter_none {A} (P : A -> Prop) `{HP : !forall x, Decision (P x)} l : Forall (fun x => ~ P x) l -> filter P l = [].
Proof. induction 1 as [|x l Hx _ IH]; [done|]. by rewrite filter_cons_False. Qed.

Lemma filter_all {A} (P : A -> Prop) `{HP : !forall x, Decision (P x)} l : Forall P l -> filter P l = l.
Proof. induction 1 as [|x l Hx _ IH]; [done|]. rewrite filter_cons_True by done. by rewrite IH. Qed.
