(* ===== verification/Wire.v ===== *)
(** * The wire layer: protocol/protocol.cpp, protocol/protocol.h, protocol/messages.h

    Big-endian integers, length-prefixed blobs and bounds-checked reads at an
    offset, and the specification of the readers. (The protocol-v2 formats and
    the framing are in [Protocol].) The readers keep the
    sources' shape: they take the buffer and the current offset and return an
    optional value with the new offset, which moves even when a later check
    fails. *)

From Stdlib Require Import ZArith Lia.
From stdpp Require Import base list strings.
From S2P Require Import Prelude.
#[local] Open Scope Z_scope.

(** ** Writers *)

(** The four bytes of a [uint32_t], most significant first. *)
Definition be32 (v : Z) : bytes :=
  [byte_of_Z (Z.shiftr v 24); byte_of_Z (Z.shiftr v 16); byte_of_Z (Z.shiftr v 8); byte_of_Z v].

(** src/protocol/protocol.cpp 9-14 write_u32 *)
Definition write_u32 (buf : bytes) (val : Z) : bytes := buf ++ be32 val.

(** src/protocol/protocol.cpp 16-19 write_u64 *)
Definition write_u64 (buf : bytes) (val : Z) : bytes :=
  let buf := write_u32 buf (u32 (Z.shiftr val 32)) in
  write_u32 buf (u32 (Z.land val 0xFFFFFFFF)).

(** src/protocol/protocol.cpp 21-23 write_bytes *)
Definition write_bytes (buf data : bytes) : bytes := buf ++ data.

(** src/protocol/protocol.cpp 25-28 write_blob *)
Definition write_blob (buf blob : bytes) : bytes :=
  let buf := write_u32 buf (u32 (size blob)) in
  write_bytes buf blob.

(** src/protocol/protocol.cpp 30-33 write_string *)
Definition write_string (buf s : bytes) : bytes :=
  let buf := write_u32 buf (u32 (size s)) in
  write_bytes buf s.

(** ** Readers *)

(** src/protocol/protocol.cpp 38-40 has_bytes *)
Definition has_bytes (len offset count : Z) : bool :=
  (offset <=? len) && (count <=? len - offset).

(** [data[i]]; the readers only use it where [has_bytes] holds. *)
Definition byte_at (data : bytes) (i : Z) : Z := Z_of_byte (nth (Z.to_nat i) data Byte.x00).

(** src/protocol/protocol.cpp 42-49 read_u32 *)
Definition read_u32 (data : bytes) (offset : Z) : option Z * Z :=
  if negb (has_bytes (size data) offset 4) then (None, offset)
  else
    let p i := byte_at data (offset + i) in
    let val := Z.lor (Z.lor (Z.lor (Z.shiftl (p 0) 24) (Z.shiftl (p 1) 16)) (Z.shiftl (p 2) 8)) (p 3) in
    (Some val, offset + 4).

(** src/protocol/protocol.cpp 51-57 read_u64 *)
Definition read_u64 (data : bytes) (offset : Z) : option Z * Z :=
  let '(high, offset) := read_u32 data offset in
  match high with
  | None => (None, offset)
  | Some high =>
      let '(low, offset) := read_u32 data offset in
      match low with
      | None => (None, offset)
      | Some low => (Some (Z.lor (Z.shiftl high 32) low), offset)
      end
  end.

(** src/protocol/protocol.cpp 59-64 read_bytes *)
Definition read_bytes (data : bytes) (offset count : Z) : option bytes * Z :=
  if negb (has_bytes (size data) offset count) then (None, offset)
  else (Some (ztake count (zdrop offset data)), offset + count).

(** src/protocol/protocol.cpp 66-70 read_blob *)
Definition read_blob (data : bytes) (offset max_len : Z) : option bytes * Z :=
  let '(blob_len, offset) := read_u32 data offset in
  match blob_len with
  | None => (None, offset)
  | Some blob_len =>
      if max_len <? blob_len then (None, offset)
      else read_bytes data offset blob_len
  end.

(** src/protocol/protocol.cpp 72-76 read_string *)
Definition read_string (data : bytes) (offset max_len : Z) : option bytes * Z :=
  let '(b, offset) := read_blob data offset max_len in
  match b with
  | None => (None, offset)
  | Some b => (Some b, offset)
  end.

(** A read loop, [for (i = 0; i < n; i++)], whose body reads one element (and
    may look at those already read), stopping at the first failure. *)
Fixpoint read_loop {A} (body : bytes -> Z -> list A -> option A * Z)
    (n : nat) (data : bytes) (offset : Z) (acc : list A) : option (list A) * Z :=
  match n with
  | O => (Some acc, offset)
  | S n =>
      let '(x, offset) := body data offset acc in
      match x with
      | None => (None, offset)
      | Some x => read_loop body n data offset (acc ++ [x])
      end
  end.

(** ** Specification of the readers

    [at_off data off rest]: [off] is inside the buffer and [rest] is what is
    left to read there. Every reader is specified by what it consumes of
    [rest]; both directions of every codec proof are chains of these. *)

Definition at_off (data : bytes) (off : Z) (rest : bytes) : Prop :=
  0 <= off /\ off + size rest = size data /\ zdrop off data = rest.

(** The bytes a value is written as. *)
Definition be64 (v : Z) : bytes := be32 (u32 (Z.shiftr v 32)) ++ be32 (u32 (Z.land v 0xFFFFFFFF)).
Definition blob (b : bytes) : bytes := be32 (u32 (size b)) ++ b.

Lemma write_u32_eq buf v : write_u32 buf v = buf ++ be32 v.
Proof. reflexivity. Qed.
Lemma write_u64_eq buf v : write_u64 buf v = buf ++ be64 v.
Proof. unfold write_u64, be64, write_u32. by rewrite app_assoc. Qed.
Lemma write_bytes_eq buf b : write_bytes buf b = buf ++ b.
Proof. reflexivity. Qed.
Lemma write_blob_eq buf b : write_blob buf b = buf ++ blob b.
Proof. unfold write_blob, blob, write_u32, write_bytes. by rewrite app_assoc. Qed.
Lemma write_string_eq buf b : write_string buf b = buf ++ blob b.
Proof. apply write_blob_eq. Qed.

Lemma size_be32 v : size (be32 v) = 4.
Proof. reflexivity. Qed.
Lemma size_be64 v : size (be64 v) = 8.
Proof. reflexivity. Qed.
Lemma size_blob b : size (blob b) = 4 + size b.
Proof. unfold blob. by rewrite size_app, size_be32. Qed.

#[export] Hint Rewrite size_be32 size_be64 size_blob : size.

Lemma at_off_0 data : at_off data 0 data.
Proof. split_and!; [lia|lia|apply zdrop_0]. Qed.

Lemma at_off_app data off w rest :
  at_off data off (w ++ rest) -> at_off data (off + size w) rest.
Proof.
  intros (H0 & Hs & Hd). autorewrite with size in Hs.
  pose proof (size_nonneg w). split_and!; [lia|lia|].
  rewrite <- zdrop_zdrop by lia. rewrite Hd. apply zdrop_app.
Qed.

Lemma at_off_end data off : at_off data off [] -> off = size data.
Proof. intros (_ & H & _). rewrite size_nil in H. lia. Qed.

Lemma at_off_end_inv data off rest : at_off data off rest -> off = size data -> rest = [].
Proof. intros (_ & H & _) ->. apply size_zero_iff. pose proof (size_nonneg rest). lia. Qed.

(** What is left at an offset, split after its first [n] bytes. *)
Lemma at_off_split data off rest n :
  at_off data off rest -> 0 <= n <= size rest ->
  rest = ztake n rest ++ zdrop n rest /\ at_off data (off + n) (zdrop n rest).
Proof.
  intros Hat Hn. split; [by rewrite ztake_zdrop|].
  rewrite <- (ztake_zdrop rest n) in Hat. apply at_off_app in Hat.
  by rewrite size_ztake in Hat.
Qed.

Lemma has_bytes_at data off rest n :
  at_off data off rest -> has_bytes (size data) off n = (n <=? size rest).
Proof.
  intros (H0 & Hs & _). unfold has_bytes.
  pose proof (size_nonneg rest).
  destruct (n <=? size rest) eqn:E; bool_prop.
  - rewrite andb_true_iff, !Z.leb_le. lia.
  - rewrite andb_false_iff, !Z.leb_gt. lia.
Qed.

Lemma byte_at_at data off rest i x :
  at_off data off rest -> 0 <= i -> rest !! Z.to_nat i = Some x -> byte_at data (off + i) = Z_of_byte x.
Proof.
  intros (H0 & _ & Hd) Hi Hx. unfold byte_at. f_equal.
  rewrite <- Hd in Hx. unfold zdrop in Hx. rewrite lookup_drop in Hx.
  replace (Z.to_nat (off + i)) with (Z.to_nat off + Z.to_nat i)%nat by lia.
  by apply nth_lookup_Some.
Qed.

(** ** Integers *)

Definition u32_of_bytes (a b c d : byte) : Z :=
  Z_of_byte a * 2 ^ 24 + Z_of_byte b * 2 ^ 16 + Z_of_byte c * 2 ^ 8 + Z_of_byte d.

Lemma be32_of_bytes a b c d : be32 (u32_of_bytes a b c d) = [a; b; c; d].
Proof.
  pose proof (Z_of_byte_range a). pose proof (Z_of_byte_range b).
  pose proof (Z_of_byte_range c). pose proof (Z_of_byte_range d).
  unfold be32, u32_of_bytes. rewrite !Z.shiftr_div_pow2 by lia.
  repeat f_equal; apply Z_of_byte_inj; rewrite Z_of_byte_of_Z; Zlia.
Qed.

Lemma u32_of_be32 v :
  u32_of_bytes (byte_of_Z (Z.shiftr v 24)) (byte_of_Z (Z.shiftr v 16)) (byte_of_Z (Z.shiftr v 8)) (byte_of_Z v)
  = u32 v.
Proof.
  unfold u32_of_bytes, u32. rewrite !Z_of_byte_of_Z, !Z.shiftr_div_pow2 by lia. Zlia.
Qed.

Lemma u32_of_bytes_range a b c d : in_u32 (u32_of_bytes a b c d).
Proof.
  pose proof (Z_of_byte_range a). pose proof (Z_of_byte_range b).
  pose proof (Z_of_byte_range c). pose proof (Z_of_byte_range d).
  unfold in_u32, u32_of_bytes. lia.
Qed.

Lemma or_bytes_eq a b c d :
  Z.lor (Z.lor (Z.lor (Z.shiftl (Z_of_byte a) 24) (Z.shiftl (Z_of_byte b) 16)) (Z.shiftl (Z_of_byte c) 8)) (Z_of_byte d)
  = u32_of_bytes a b c d.
Proof.
  pose proof (Z_of_byte_range a). pose proof (Z_of_byte_range b).
  pose proof (Z_of_byte_range c). pose proof (Z_of_byte_range d).
  rewrite !Z.shiftl_mul_pow2 by lia. unfold u32_of_bytes.
  rewrite (lor_add_low _ (Z_of_byte b * _) 24), (lor_add_low _ (Z_of_byte c * _) 16),
    (lor_add_low _ (Z_of_byte d) 8); lia || Zlia.
Qed.

Lemma byte4 (l : bytes) : 4 <= size l -> exists a b c d l', l = a :: b :: c :: d :: l'.
Proof.
  unfold size. destruct l as [|a [|b [|c [|d l]]]]; simpl; intros; try lia. eauto 6.
Qed.

(** [read_u32] returns exactly the value whose four bytes come next. *)
Lemma read_u32_at data off rest v off' :
  at_off data off rest ->
  read_u32 data off = (Some v, off') <->
  in_u32 v /\ off' = off + 4 /\ exists rest', rest = be32 v ++ rest' /\ at_off data off' rest'.
Proof.
  intros Hat. unfold read_u32. rewrite (has_bytes_at _ _ _ _ Hat).
  destruct (4 <=? size rest) eqn:E; bool_prop; cbn [negb].
  - destruct (byte4 _ E) as (a & b & c & d & l & ->).
    rewrite (byte_at_at _ _ _ 0 a Hat), (byte_at_at _ _ _ 1 b Hat), (byte_at_at _ _ _ 2 c Hat),
      (byte_at_at _ _ _ 3 d Hat) by done.
    rewrite or_bytes_eq. split.
    + intros [= <- <-]. split; [apply u32_of_bytes_range|]. split; [done|]. exists l.
      rewrite be32_of_bytes. split; [done|]. by apply (at_off_app _ _ [a; b; c; d]).
    + intros (Hv & -> & rest' & Heq & _). injection Heq as -> -> -> -> ->.
      by rewrite u32_of_be32, u32_small.
  - split; [done|]. intros (_ & _ & rest' & -> & _). autorewrite with size in E.
    pose proof (size_nonneg rest'). lia.
Qed.

Lemma read_u32_bounds data off rest r off' :
  at_off data off rest -> read_u32 data off = (r, off') ->
  exists rest', at_off data off' rest'.
Proof.
  intros Hat. destruct r as [v|].
  - rewrite read_u32_at by done. intros (_ & _ & rest' & _ & H). eauto.
  - unfold read_u32. destruct (negb _); intros [=]; subst; eauto.
Qed.

Lemma be32_length v : length (be32 v) = 4%nat.
Proof. reflexivity. Qed.

#[global] Opaque be32.

Lemma read_u32_fwd data off v rest :
  at_off data off (be32 v ++ rest) -> in_u32 v -> read_u32 data off = (Some v, off + 4).
Proof.
  intros Hat Hv. apply (read_u32_at _ _ _ _ _ Hat). split_and!; [done|done|].
  exists rest. split; [done|]. by apply (at_off_app _ _ (be32 v)).
Qed.

Lemma land_ones_32 v : Z.land v 0xFFFFFFFF = v mod 2 ^ 32.
Proof. change 0xFFFFFFFF with (Z.ones 32). by apply Z.land_ones. Qed.

Lemma be64_split h l : in_u32 h -> in_u32 l -> be64 (h * 2 ^ 32 + l) = be32 h ++ be32 l.
Proof.
  unfold in_u32, be64. intros Hh Hl. rewrite land_ones_32, Z.shiftr_div_pow2 by lia.
  unfold u32. do 2 f_equal; Zlia.
Qed.

Lemma be64_parts v : in_u64 v ->
  exists h l, in_u32 h /\ in_u32 l /\ v = h * 2 ^ 32 + l /\ be64 v = be32 h ++ be32 l.
Proof.
  unfold in_u64. intros Hv. exists (v / 2 ^ 32), (v mod 2 ^ 32).
  assert (in_u32 (v / 2 ^ 32) /\ in_u32 (v mod 2 ^ 32)) as [? ?] by (unfold in_u32; Zlia).
  split_and!; [done|done|Zlia|].
  rewrite <- be64_split by done. f_equal. Zlia.
Qed.

(** [read_u64] returns exactly the value whose eight bytes come next. *)
Lemma read_u64_at data off rest v off' :
  at_off data off rest ->
  read_u64 data off = (Some v, off') <->
  in_u64 v /\ off' = off + 8 /\ exists rest', rest = be64 v ++ rest' /\ at_off data off' rest'.
Proof.
  intros Hat. unfold read_u64. split.
  - destruct (read_u32 data off) as [[h|] o1] eqn:E1; [|done].
    destruct (proj1 (read_u32_at _ _ _ _ _ Hat) E1) as (Hh & -> & r1 & -> & Hat1).
    destruct (read_u32 data (off + 4)) as [[l|] o2] eqn:E2; [|done].
    destruct (proj1 (read_u32_at _ _ _ _ _ Hat1) E2) as (Hl & -> & r2 & -> & Hat2).
    intros [= <- <-]. unfold in_u32 in Hh, Hl. rewrite lor_shiftl_add by lia.
    split; [unfold in_u64; lia|]. split; [lia|]. exists r2.
    rewrite be64_split by done. by rewrite <- app_assoc.
  - intros (Hv & -> & r & -> & Hat').
    destruct (be64_parts v Hv) as (h & l & Hh & Hl & -> & E). rewrite E, <- app_assoc in Hat.
    rewrite (read_u32_fwd _ _ _ _ Hat Hh). apply (at_off_app _ _ (be32 h)) in Hat.
    rewrite size_be32 in Hat. rewrite (read_u32_fwd _ _ _ _ Hat Hl).
    unfold in_u32 in Hh, Hl. rewrite lor_shiftl_add by lia. f_equal. lia.
Qed.

Lemma read_u64_fwd data off v rest :
  at_off data off (be64 v ++ rest) -> in_u64 v -> read_u64 data off = (Some v, off + 8).
Proof.
  intros Hat Hv. apply (read_u64_at _ _ _ _ _ Hat). split_and!; [done|done|].
  exists rest. split; [done|]. by apply (at_off_app _ _ (be64 v)).
Qed.

(** ** Blobs *)

Lemma read_bytes_at data off rest n b off' :
  at_off data off rest -> 0 <= n ->
  read_bytes data off n = (Some b, off') <->
  size b = n /\ off' = off + n /\ exists rest', rest = b ++ rest' /\ at_off data off' rest'.
Proof.
  intros Hat Hn. unfold read_bytes. rewrite (has_bytes_at _ _ _ _ Hat).
  destruct (n <=? size rest) eqn:E; bool_prop; cbn [negb].
  - destruct Hat as (H0 & Hs & Hd) eqn:HatE; clear HatE. rewrite Hd. split.
    + intros [= <- <-]. rewrite size_ztake by lia. split_and!; [done|done|].
      exists (zdrop n rest). apply at_off_split; [by split_and!|lia].
    + intros (<- & -> & rest' & -> & _). by rewrite ztake_app.
  - split; [done|]. intros (<- & _ & rest' & -> & _). autorewrite with size in E.
    pose proof (size_nonneg rest'). lia.
Qed.

(** [read_blob] returns exactly the blob that comes next, if it is not longer
    than the limit. *)
Lemma read_blob_at data off rest max b off' :
  at_off data off rest ->
  read_blob data off max = (Some b, off') <->
  size b <= max /\ in_u32 (size b) /\ off' = off + (4 + size b) /\
  exists rest', rest = blob b ++ rest' /\ at_off data off' rest'.
Proof.
  intros Hat. unfold read_blob, blob. split.
  - destruct (read_u32 data off) as [[n|] o1] eqn:E1; [|done].
    destruct (proj1 (read_u32_at _ _ _ _ _ Hat) E1) as (Hn & -> & r1 & -> & Hat1).
    destruct (max <? n) eqn:E2; [done|]; bool_prop. unfold in_u32 in Hn.
    rewrite read_bytes_at by (done || lia). intros (<- & -> & r2 & -> & Hat2).
    split_and!; [done|done|lia|]. exists r2. rewrite u32_small by done. by rewrite <- app_assoc.
  - intros (Hmax & Hb & -> & r & -> & Hat').
    rewrite <- app_assoc in Hat. rewrite (u32_small _ Hb) in Hat.
    rewrite (read_u32_fwd _ _ _ _ Hat Hb). apply (at_off_app _ _ (be32 _)) in Hat.
    rewrite size_be32 in Hat. rewrite (proj2 (Z.ltb_ge _ _) Hmax).
    apply (read_bytes_at _ _ _ _ _ _ Hat); [apply Hb|].
    split_and!; [done|lia|]. by exists r.
Qed.

Lemma read_blob_fwd data off b rest max :
  at_off data off (blob b ++ rest) -> size b <= max -> in_u32 (size b) ->
  read_blob data off max = (Some b, off + (4 + size b)).
Proof.
  intros Hat Hmax Hb. apply (read_blob_at _ _ _ _ _ _ Hat). split_and!; [done..|].
  exists rest. split; [done|]. apply at_off_app in Hat. by rewrite size_blob in Hat.
Qed.

Lemma read_string_blob data off max : read_string data off max = read_blob data off max.
Proof. unfold read_string. by destruct (read_blob data off max) as [[?|] ?]. Qed.

#[global] Opaque be64 blob.

(** ** Read loops

    A loop body that appends one element to those already read. [Inv] is what
    holds of the elements read so far, [w] the bytes one element is written as. *)

Class LoopReader {A} (body : bytes -> Z -> list A -> option A * Z)
    (Inv : list A -> Prop) (w : A -> bytes) : Prop := {
  loop_nil : Inv [];
  loop_prefix l k : Inv (l ++ k) -> Inv l;
  loop_body data off rest acc x off' :
    Inv acc -> at_off data off rest ->
    body data off acc = (Some x, off') <->
    Inv (acc ++ [x]) /\ exists rest', rest = w x ++ rest' /\ at_off data off' rest'
}.

Lemma at_off_unique data o1 o2 rest : at_off data o1 rest -> at_off data o2 rest -> o1 = o2.
Proof. intros (_ & H1 & _) (_ & H2 & _). lia. Qed.

Section read_loop.
Context {A : Type} {body : bytes -> Z -> list A -> option A * Z} {Inv : list A -> Prop} {w : A -> bytes}.
Context {HL : LoopReader body Inv w}.

(** The loop succeeds exactly when the elements follow one another in the
    buffer and together satisfy the invariant. *)
Lemma read_loop_at n data off rest acc l off' :
  Inv acc -> at_off data off rest ->
  read_loop body n data off acc = (Some l, off') <->
  exists xs, l = acc ++ xs /\ length xs = n /\ Inv l /\
    exists rest', rest = concat (map w xs) ++ rest' /\ at_off data off' rest'.
Proof.
  revert off rest acc. induction n as [|n IH]; intros off rest acc Hacc Hat; simpl.
  - split.
    + intros [= <- <-]. exists []. rewrite app_nil_r. split_and!; [done..|]. by exists rest.
    + intros (xs & -> & Hlen & _ & rest' & -> & Hat'). destruct xs; [|done].
      rewrite app_nil_r. f_equal. by eapply at_off_unique.
  - destruct (body data off acc) as [[x|] o] eqn:E; cycle 1.
    { split; [done|]. intros (xs & -> & Hlen & Hinv & rest' & -> & _).
      destruct xs as [|x xs]; [done|]. simpl in Hat. rewrite <- app_assoc in Hat.
      pose proof (proj2 (loop_body _ _ _ acc x (off + size (w x)) Hacc Hat)) as Hb.
      rewrite E in Hb. discriminate Hb. split.
      - apply (loop_prefix _ xs). by rewrite <- app_assoc.
      - eexists. split; [done|]. by apply at_off_app. }
    destruct (proj1 (loop_body _ _ _ _ _ _ Hacc Hat) E) as (Hinv & rest1 & -> & Hat1).
    rewrite (IH _ _ _ Hinv Hat1). split.
    + intros (xs & -> & Hlen & Hi & rest' & -> & Hat'). exists (x :: xs). simpl.
      split_and!; [by rewrite <- app_assoc|by f_equal|done|]. exists rest'. by rewrite <- app_assoc.
    + intros (xs & -> & Hlen & Hi & rest' & Heq & Hat').
      destruct xs as [|y ys]; [done|]. simpl in Heq. rewrite <- app_assoc in Heq.
      pose proof Hat as Hat2. rewrite Heq in Hat2.
      assert (body data off acc = (Some y, off + size (w y))) as E2.
      { apply (loop_body _ _ _ _ _ _ Hacc Hat2). split.
        - apply (loop_prefix _ ys). by rewrite <- app_assoc.
        - eexists. split; [done|]. by apply at_off_app. }
      rewrite E in E2. injection E2 as -> ->. apply app_inv_head in Heq as ->.
      exists ys. rewrite <- app_assoc. simpl in Hlen. split_and!; [done|lia|done|]. eauto.
Qed.

Lemma read_loop_inv n data off rest l off' :
  at_off data off rest -> read_loop body n data off [] = (Some l, off') ->
  length l = n /\ Inv l /\ exists rest', rest = concat (map w l) ++ rest' /\ at_off data off' rest'.
Proof.
  intros Hat H. apply (read_loop_at _ _ _ _ _ _ _ (loop_nil (LoopReader := HL)) Hat) in H.
  destruct H as (xs & -> & Hlen & Hi & H). done.
Qed.

Lemma read_loop_fwd n data off rest l :
  at_off data off (concat (map w l) ++ rest) -> length l = n -> Inv l ->
  read_loop body n data off [] = (Some l, off + size (concat (map w l))).
Proof.
  intros Hat Hlen Hi. apply (read_loop_at _ _ _ _ _ _ _ (loop_nil (LoopReader := HL)) Hat).
  exists l. split_and!; [done..|]. eexists. split; [done|]. by apply at_off_app.
Qed.
End read_loop.

(** ** Injectivity of what is written *)

Lemma be32_inj a b x y : in_u32 a -> in_u32 b -> be32 a ++ x = be32 b ++ y -> a = b /\ x = y.
Proof.
  intros Ha Hb E. pose proof (at_off_0 (be32 a ++ x)) as Hat.
  pose proof (read_u32_fwd _ _ _ _ Hat Ha) as H1. rewrite E in Hat, H1.
  rewrite (read_u32_fwd _ _ _ _ Hat Hb) in H1. injection H1 as ->. by apply app_inv_head in E.
Qed.

Lemma be64_inj a b x y : in_u64 a -> in_u64 b -> be64 a ++ x = be64 b ++ y -> a = b /\ x = y.
Proof.
  intros Ha Hb E. pose proof (at_off_0 (be64 a ++ x)) as Hat.
  pose proof (read_u64_fwd _ _ _ _ Hat Ha) as H1. rewrite E in Hat, H1.
  rewrite (read_u64_fwd _ _ _ _ Hat Hb) in H1. injection H1 as ->. by apply app_inv_head in E.
Qed.

Lemma blob_inj a b x y :
  in_u32 (size a) -> in_u32 (size b) -> blob a ++ x = blob b ++ y -> a = b /\ x = y.
Proof.
  intros Ha Hb E. pose proof (at_off_0 (blob a ++ x)) as Hat.
  assert (size a <= size a + size b /\ size b <= size a + size b) as [H1 H2]
    by (pose proof (size_nonneg a); pose proof (size_nonneg b); lia).
  pose proof (read_blob_fwd _ _ _ _ _ Hat H1 Ha) as Hr. rewrite E in Hat, Hr.
  rewrite (read_blob_fwd _ _ _ _ _ Hat H2 Hb) in Hr. injection Hr as -> _. by apply app_inv_head in E.
Qed.

Lemma blobs_inj l k x y :
  Forall (fun b => in_u32 (size b)) l -> Forall (fun b => in_u32 (size b)) k -> length l = length k ->
  concat (map blob l) ++ x = concat (map blob k) ++ y -> l = k /\ x = y.
Proof.
  intros Hl. revert k. induction Hl as [|b l Hb _ IH]; intros [|c k] Hk Hlen E; try done.
  apply Forall_cons in Hk as [Hc Hk]. simpl in E. rewrite <- !app_assoc in E.
  apply blob_inj in E as [-> E]; [|done..]. apply IH in E as [-> ->]; [done..|by injection Hlen].
Qed.

(** [for (const auto& x : l) write_blob(b, x)]. *)
Lemma fold_write_blob l b : foldl write_blob b l = b ++ concat (map blob l).
Proof.
  revert b. induction l as [|x l IH]; intros b; simpl; [by rewrite app_nil_r|].
  by rewrite IH, write_blob_eq, <- app_assoc.
Qed.

(** A loop over structures, whose body writes [w x]. *)
Lemma fold_write {A} (f : bytes -> A -> bytes) (w : A -> bytes) l b :
  (forall b x, f b x = b ++ w x) -> foldl f b l = b ++ concat (map w l).
Proof.
  intros Hf. revert b. induction l as [|x l IH]; intros b; simpl; [by rewrite app_nil_r|].
  by rewrite IH, Hf, <- app_assoc.
Qed.

Definition is_empty (b : bytes) : bool := match b with [] => true | _ => false end.

Lemma is_empty_false b : is_empty b = false <-> 0 < size b.
Proof. unfold size. destruct b; simpl; split; intros; done || lia. Qed.
Lemma is_empty_true b : is_empty b = true <-> b = [].
Proof. by destruct b. Qed.

(** ** Proof automation for codecs

    [decode_inv H] takes a successful decoding apart: the reads, the tests and
    the bytes each read consumed. [decode_fwd] runs a decoder on a buffer whose
    contents are known. *)

(** A blob of exactly [n] bytes, or of at most [max]. *)
Lemma size_in_u32 (b : bytes) n : size b <= n -> n < 2 ^ 32 -> in_u32 (size b).
Proof. unfold in_u32. pose proof (size_nonneg b). lia. Qed.

Ltac open_decode H :=
  cbv beta zeta in H;
  match type of H with
  | (match ?r with pair _ _ => _ end) = _ => destruct r as [? ?] eqn:?
  | (match ?o with Some _ => _ | None => _ end) = Some _ => destruct o eqn:?; [|discriminate H]
  | (if ?b then _ else _) = Some _ => destruct b eqn:?; try discriminate H; [idtac]
  | Some _ = Some _ => injection H as H
  end.

Ltac read_inv_step :=
  match goal with
  | H : read_string _ _ _ = _ |- _ => rewrite read_string_blob in H
  | Hat : at_off ?d ?o ?r, H : read_u32 ?d ?o = (Some ?v, ?o') |- _ =>
      apply (proj1 (read_u32_at _ _ _ _ _ Hat)) in H; clear Hat;
      destruct H as (? & ? & ? & ? & Hat)
  | Hat : at_off ?d ?o ?r, H : read_u64 ?d ?o = (Some ?v, ?o') |- _ =>
      apply (proj1 (read_u64_at _ _ _ _ _ Hat)) in H; clear Hat;
      destruct H as (? & ? & ? & ? & Hat)
  | Hat : at_off ?d ?o ?r, H : read_loop ?body ?n ?d ?o [] = (Some ?l, ?o') |- _ =>
      apply (read_loop_inv _ _ _ _ _ _ Hat) in H; clear Hat;
      destruct H as (? & ? & ? & ? & Hat)
  | Hat : at_off ?d ?o ?r, H : read_blob ?d ?o ?m = (Some ?b, ?o') |- _ =>
      apply (proj1 (read_blob_at _ _ _ _ _ _ Hat)) in H; clear Hat;
      destruct H as (? & ? & ? & ? & ? & Hat)
  end.

Ltac read_fwd_step :=
  match goal with
  | Hat : at_off ?d ?o _ |- context [read_string ?d ?o ?m] => rewrite (read_string_blob d o m)
  | Hat : at_off ?d ?o (be32 ?v ++ ?r) |- context [read_u32 ?d ?o] =>
      rewrite (read_u32_fwd _ _ _ _ Hat); [apply (at_off_app _ _ (be32 v)) in Hat; rewrite size_be32 in Hat|]
  | Hat : at_off ?d ?o (be64 ?v ++ ?r) |- context [read_u64 ?d ?o] =>
      rewrite (read_u64_fwd _ _ _ _ Hat); [apply (at_off_app _ _ (be64 v)) in Hat; rewrite size_be64 in Hat|]
  | Hat : at_off ?d ?o (concat (map ?w ?l) ++ ?r) |- context [read_loop ?body ?n ?d ?o []] =>
      rewrite (read_loop_fwd (body := body) n _ _ _ l Hat); [apply (at_off_app _ _ (concat (map w l))) in Hat| |]
  | Hat : at_off ?d ?o (blob ?b ++ ?r) |- context [read_blob ?d ?o ?m] =>
      rewrite (read_blob_fwd _ _ _ _ m Hat); [apply (at_off_app _ _ (blob b)) in Hat; rewrite size_blob in Hat| |]
  end.

Lemma app_nil_tail (l : bytes) : l = l ++ [].
Proof. by rewrite app_nil_r. Qed.

(** Bring an encoder's output to the form [w1 ++ w2 ++ ... ++ []]. *)
Ltac encode_norm :=
  rewrite ?write_u64_eq, ?write_blob_eq, ?write_string_eq, ?write_u32_eq, ?write_bytes_eq, ?app_nil_l;
  rewrite <- ?app_assoc.

Ltac wire_side :=
  solve [ done | assumption | lia
        | eapply size_in_u32; [eassumption || (apply Z.eq_le_incl; eassumption) || lia | vm_compute; reflexivity]
        | unfold in_u32, in_u64 in *; lia ].

(** [H : decode data = Some m]: extract what was read, what was tested, and
    [data] as the concatenation of the pieces read. *)
Ltac decode_inv data H :=
  let Hat := fresh "Hat" in
  pose proof (at_off_0 data) as Hat;
  repeat (open_decode H; bool_prop; subst);
  repeat (read_inv_step; subst);
  try match goal with
  | Hat : at_off ?d (size ?d) ?r |- _ => apply at_off_end_inv in Hat; [subst|reflexivity]
  | Hat : at_off ?d ?o ?r, E : ?o = size ?d |- _ =>
      apply (at_off_end_inv _ _ _ Hat) in E; clear Hat; subst
  end.

(** Run the reads of a decoder on a buffer with known contents. *)
Ltac decode_fwd :=
  cbv beta iota zeta;
  repeat (read_fwd_step; try wire_side; cbv beta iota zeta).

Lemma at_off_0_app data w : data = w -> at_off data 0 (w ++ []).
Proof. intros ->. rewrite app_nil_r. apply at_off_0. Qed.

(** Start running a decoder on [data], given [Hd : data = encode m]. *)
Ltac encode_at Hd :=
  apply at_off_0_app in Hd;
  rewrite ?write_u64_eq, ?write_blob_eq, ?write_string_eq, ?write_u32_eq, ?write_bytes_eq, ?app_nil_l in Hd;
  rewrite <- ?app_assoc in Hd; cbn beta iota in Hd.

Lemma at_off_end_eqb data off : at_off data off [] -> (off =? size data) = true.
Proof. intros H. apply Z.eqb_eq. by apply at_off_end. Qed.

Ltac decode_end :=
  match goal with
  | Hat : at_off ?d ?o [] |- context [?o =? size ?d] => rewrite (at_off_end_eqb _ _ Hat); cbn [negb]
  end.

(** ** Reading one byte *)

Lemma byte_at_cons data off b rest : at_off data off (b :: rest) -> byte_at data off = Z_of_byte b.
Proof. intros Hat. by rewrite <- (byte_at_at _ _ _ 0 b Hat), Z.add_0_r. Qed.

(** [data[off++]] with something left to read. *)
Lemma byte_at_inv data off rest :
  at_off data off rest -> off < size data ->
  exists b rest', rest = b :: rest' /\ byte_at data off = Z_of_byte b /\ at_off data (off + 1) rest'.
Proof.
  intros Hat Hlt. destruct rest as [|b rest']; [apply at_off_end in Hat; lia|].
  exists b, rest'. split_and!; [done|by eapply byte_at_cons|by apply (at_off_app _ _ [b])].
Qed.

Lemma at_off_cons_lt data off b rest : at_off data off (b :: rest) -> (size data <=? off) = false.
Proof. intros (_ & H & _). rewrite size_cons in H. pose proof (size_nonneg rest). apply Z.leb_gt. lia. Qed.

(** Nothing is left when the offset is the end of the buffer. *)
Ltac read_end :=
  match goal with
  | Hat : at_off ?d (size ?d) ?r |- _ => apply at_off_end_inv in Hat; [subst|reflexivity]
  end.
