(* ===== verification/Text.v ===== *)
(** * Text: what the sources use of [std::string]

    Decimal numbers, searching, trimming and character classes of the C locale,
    on byte strings, with the lemmas the parsers need. *)

From Stdlib Require Import ZArith Lia.
From stdpp Require Import base list strings.
From S2P Require Import Prelude.
#[local] Open Scope Z_scope.

(** A character literal. *)
Definition chr (z : Z) : byte := byte_of_Z z.

(** [s.find(c)], [s.rfind(c)]. *)
Fixpoint find_char (c : byte) (s : bytes) : option Z :=
  match s with
  | [] => None
  | x :: s => if decide (x = c) then Some 0 else Z.succ <$> find_char c s
  end.
Fixpoint rfind_char (c : byte) (s : bytes) : option Z :=
  match s with
  | [] => None
  | x :: s =>
      match rfind_char c s with
      | Some i => Some (i + 1)
      | None => if decide (x = c) then Some 0 else None
      end
  end.

(** [std::isspace], [std::isdigit], [std::toupper] in the C locale. *)
Definition is_space (b : byte) : bool := let c := Z_of_byte b in ((9 <=? c) && (c <=? 13)) || (c =? 32).
Definition is_digit (b : byte) : bool := let c := Z_of_byte b in (48 <=? c) && (c <=? 57).
Definition is_upper (b : byte) : bool := let c := Z_of_byte b in (65 <=? c) && (c <=? 90).
Definition is_lower (b : byte) : bool := let c := Z_of_byte b in (97 <=? c) && (c <=? 122).
Definition is_alnum (b : byte) : bool := is_digit b || is_upper b || is_lower b.
Definition is_xdigit (b : byte) : bool :=
  let c := Z_of_byte b in is_digit b || ((65 <=? c) && (c <=? 70)) || ((97 <=? c) && (c <=? 102)).
Definition to_upper (b : byte) : byte := if is_lower b then byte_of_Z (Z_of_byte b - 32) else b.
Definition to_lower (b : byte) : byte := if is_upper b then byte_of_Z (Z_of_byte b + 32) else b.

(** Dropping characters from the front and from the back. *)
Fixpoint drop_front (P : byte -> bool) (s : bytes) : bytes :=
  match s with
  | [] => []
  | c :: s' => if P c then drop_front P s' else s
  end.
Definition drop_back (P : byte -> bool) (s : bytes) : bytes := reverse (drop_front P (reverse s)).

(** [std::to_string] of a number that is not negative; twenty digits hold 64 bits. *)
Fixpoint digits (fuel : nat) (n : Z) (acc : bytes) : bytes :=
  match fuel with
  | O => acc
  | S fuel =>
      let acc := chr (48 + n mod 10) :: acc in
      if n <? 10 then acc else digits fuel (n / 10) acc
  end.
Definition to_string (n : Z) : bytes := digits 20 n [].

(** [std::stoul] of a string of digits. *)
Definition stoul (s : bytes) : Z := foldl (fun v c => v * 10 + (Z_of_byte c - 48)) 0 s.

(** ** Lemmas *)

Lemma drop_front_id P s : match s with [] => True | c :: _ => P c = false end -> drop_front P s = s.
Proof. destruct s; simpl; [done|]. by intros ->. Qed.

Lemma drop_front_suffix P s : exists a, s = a ++ drop_front P s /\ Forall (fun c => P c = true) a.
Proof.
  induction s as [|c s (a & E & Ha)]; simpl; [by exists []|]. destruct (P c) eqn:Ec.
  - exists (c :: a). split; [by rewrite E at 1|by constructor].
  - by exists [].
Qed.

Lemma drop_front_head P s c s' : drop_front P s = c :: s' -> P c = false.
Proof. induction s as [|x s IH]; simpl; [done|]. destruct (P x) eqn:E; [done|]. by intros [= <- _]. Qed.

Lemma drop_back_id P s : match last s with None => True | Some c => P c = false end -> drop_back P s = s.
Proof.
  intros H. unfold drop_back. rewrite drop_front_id; [by rewrite reverse_involutive|].
  rewrite <- head_reverse in H. by destruct (reverse s).
Qed.

Lemma drop_back_prefix P s : exists a, s = drop_back P s ++ a /\ Forall (fun c => P c = true) a.
Proof.
  destruct (drop_front_suffix P (reverse s)) as (a & E & Ha). exists (reverse a). unfold drop_back. split.
  - rewrite <- reverse_app, <- E. by rewrite reverse_involutive.
  - by apply Forall_reverse.
Qed.

Lemma find_char_app c a b : c ∉ a -> find_char c (a ++ c :: b) = Some (size a).
Proof.
  induction a as [|x a IH]; intros Hn; simpl; [by rewrite decide_True|]. apply not_elem_of_cons in Hn as [Hx Hn].
  rewrite decide_False by congruence. rewrite IH by done. simpl. rewrite size_cons. f_equal. lia.
Qed.

Lemma find_char_None c s : find_char c s = None <-> c ∉ s.
Proof.
  induction s as [|x s IH]; simpl; [split; [by intros _ ?%not_elem_of_nil|done]|]. rewrite not_elem_of_cons. case_decide.
  - split; [done|]. intros [? _]. congruence.
  - rewrite fmap_None, IH. naive_solver.
Qed.

(** The digits of a number have its value, are digits, and do not start with a
    zero unless it is the whole. *)
Lemma digit_char d : 0 <= d < 10 -> is_digit (chr (48 + d)) = true /\ Z_of_byte (chr (48 + d)) - 48 = d.
Proof.
  intros Hd. unfold is_digit, chr. rewrite Z_of_byte_of_Z, Z.mod_small by lia. split; [|lia].
  by rewrite (proj2 (Z.leb_le _ _)), (proj2 (Z.leb_le _ _)) by lia.
Qed.

Lemma digits_app fuel n acc : digits fuel n acc = digits fuel n [] ++ acc.
Proof.
  revert n acc. induction fuel as [|fuel IH]; intros n acc; [done|]. cbn [digits].
  destruct (n <? 10); [done|]. rewrite (IH _ (_ :: acc)), (IH _ [_]), <- app_assoc. done.
Qed.

Lemma digits_spec fuel n :
  0 <= n < 10 ^ Z.of_nat fuel -> (0 < fuel)%nat ->
  stoul (digits fuel n []) = n /\ Forall (fun c => is_digit c = true) (digits fuel n []) /\ digits fuel n [] <> [] /\
  size (digits fuel n []) <= Z.of_nat fuel.
Proof.
  revert n. induction fuel as [|fuel IH]; intros n Hn Hf; [lia|]. cbn [digits].
  assert (0 <= n mod 10 < 10) as Hm by (apply Z.mod_pos_bound; lia). destruct (digit_char _ Hm) as [Hd Hv].
  destruct (n <? 10) eqn:E; bool_prop.
  - rewrite Z.mod_small in * by lia. unfold stoul. cbn [foldl]. split_and!; [lia|by repeat constructor|done|].
    change (size [_]) with 1. lia.
  - assert (0 <= n / 10 < 10 ^ Z.of_nat fuel) as Hq.
    { rewrite Nat2Z.inj_succ, Z.pow_succ_r in Hn by lia. split; [apply Z.div_pos; lia|]. apply Z.div_lt_upper_bound; lia. }
    assert (0 < fuel)%nat as Hf'. { destruct fuel; [|lia]. simpl in Hq. change (10 ^ 0) with 1 in Hq. assert (1 <= n / 10) by (apply Z.div_le_lower_bound; lia). lia. }
    destruct (IH _ Hq Hf') as (Hs & Hall & Hne & Hsz). rewrite digits_app. split_and!.
    + unfold stoul in *. rewrite foldl_app, Hs. cbn [foldl]. rewrite Hv. pose proof (Z.div_mod n 10). lia.
    + apply Forall_app. split; [done|by repeat constructor].
    + by destruct (digits fuel (n / 10) []).
    + rewrite size_app. change (size [_]) with 1. lia.
Qed.

Lemma to_string_spec n :
  0 <= n < 10 ^ 20 ->
  stoul (to_string n) = n /\ Forall (fun c => is_digit c = true) (to_string n) /\ to_string n <> [].
Proof. intros Hn. destruct (digits_spec 20 n) as (? & ? & ? & _); [done|lia|]. done. Qed.

Lemma to_string_inj a b : 0 <= a < 10 ^ 20 -> 0 <= b < 10 ^ 20 -> to_string a = to_string b -> a = b.
Proof.
  intros Ha Hb E. destruct (to_string_spec a Ha) as [<- _], (to_string_spec b Hb) as [<- _]. by rewrite E.
Qed.
