(* ===== verification/Protocol.v ===== *)
(** * Protocol v2 formats and message framing: protocol/messages.h, protocol/protocol.cpp

    The constants and structures of messages.h, the file header, the sealed
    metadata, the chunk format, the hex helpers and the exchange of framed
    messages over a socket. *)

From Stdlib Require Import ZArith Lia.
From stdpp Require Import base list strings.
From S2P Require Import Prelude Wire.
#[local] Open Scope Z_scope.
#[local] Open Scope wire_scope.

(** ** Constants (src/protocol/messages.h) and structures *)

Definition PROTOCOL_MAGIC : Z := 0x50514654.
Definition PROTOCOL_VERSION : Z := 2.
Definition DEFAULT_CHUNK_SIZE : Z := 64 * 1024.
Definition MIN_CHUNK_SIZE : Z := 4 * 1024.
Definition MAX_CHUNK_SIZE : Z := 1024 * 1024.
Definition AEAD_TAG_SIZE : Z := 16.
Definition NONCE_SIZE : Z := 12.
Definition MAX_FILE_SIZE : Z := 16 * 1024 * 1024 * 1024.
Definition MAX_KEM_CIPHERTEXT_SIZE : Z := 4096.
Definition MAX_SEALED_METADATA_SIZE : Z := 16 * 1024.
Definition MAX_FILENAME_BYTES : Z := 255.
Definition MAX_FINGERPRINT_CHARS : Z := 128.
Definition MAX_SIGNATURE_SIZE : Z := 8192.
Definition MAX_HEADER_MESSAGE : Z := 64 * 1024.
Definition MAX_CONTROL_MESSAGE : Z := 4 * 1024.
Definition MAX_CHUNK_MESSAGE : Z := MAX_CHUNK_SIZE + AEAD_TAG_SIZE + 64.
Definition TRANSFER_ID_BYTES : Z := 16.
Definition TRANSFER_ID_HEX_LEN : Z := TRANSFER_ID_BYTES * 2.

(** An [enum class : uint8_t] may hold any byte; the values without a name are
    [UNNAMED]. src/protocol/messages.h 41-123 MessageType *)
Inductive MessageType : Set :=
  | UPLOAD_REQUEST | UPLOAD_CHUNK | UPLOAD_DONE | DOWNLOAD_REQUEST | DOWNLOAD_CHUNK | DOWNLOAD_DONE
  | DOWNLOAD_HEADER
  | RELAY_HELLO | RELAY_HELLO_REPLY | RELAY_REGISTER | RELAY_REGISTER_OK | RELAY_AUTH | RELAY_AUTH_OK
  | RELAY_DEPOSIT | RELAY_DEPOSIT_OK | RELAY_COLLECT | RELAY_ENVELOPE | RELAY_COLLECT_END
  | RELAY_ACK | RELAY_ACK_OK | RELAY_TOKEN_ADD | RELAY_TOKEN_REVOKE | RELAY_TOKEN_OK
  | RELAY_INVITE_CREATE | RELAY_INVITE_OK | RELAY_INVITE_LIST | RELAY_INVITE_LIST_OK
  | RELAY_INVITE_CANCEL | RELAY_INVITE_CANCEL_OK
  | ARCHIVE_CREATE | ARCHIVE_CREATE_OK | ARCHIVE_JOIN | ARCHIVE_JOIN_OK | ARCHIVE_AUTH | ARCHIVE_AUTH_OK
  | ARCHIVE_APPEND | ARCHIVE_APPEND_OK | ARCHIVE_STALE | ARCHIVE_FETCH | ARCHIVE_ENTRY | ARCHIVE_FETCH_END
  | PREKEY_PUT | PREKEY_PUT_OK | PREKEY_TAKE | PREKEY_DATA | PREKEY_STATUS | PREKEY_STATUS_OK
  | FILE_UPLOAD_BEGIN | FILE_UPLOAD_OK | FILE_CHUNK | FILE_CHUNK_OK | FILE_DOWNLOAD | FILE_INFO | FILE_DATA
  | FILE_DOWNLOAD_END | FILE_REDEEM | FILE_REDEEM_OK | FILE_CANCEL | FILE_CANCEL_OK | FILE_STATUS | FILE_STATUS_OK
  | ARCHIVE_DELETE | ARCHIVE_DELETE_OK
  | KEYRING_PUT | KEYRING_PUT_OK | KEYRING_GET | KEYRING_DATA
  | RELAY_PING | RELAY_PONG | ERROR_MSG | ACK
  | UNNAMED (b : byte).

#[global] Instance MessageType_eq_dec : EqDecision MessageType.
Proof. solve_decision. Defined.

(** The enumerators with their values, in the order of the source. *)
(** The values of the enumerators: src/protocol/messages.h 41-123 MessageType *)
Definition message_codes : list (MessageType * Z) :=
  [ (UPLOAD_REQUEST, 0x01); (UPLOAD_CHUNK, 0x02); (UPLOAD_DONE, 0x03); (DOWNLOAD_REQUEST, 0x04);
    (DOWNLOAD_CHUNK, 0x05); (DOWNLOAD_DONE, 0x06); (DOWNLOAD_HEADER, 0x09);
    (RELAY_HELLO, 0x20); (RELAY_HELLO_REPLY, 0x21); (RELAY_REGISTER, 0x22); (RELAY_REGISTER_OK, 0x23);
    (RELAY_AUTH, 0x24); (RELAY_AUTH_OK, 0x25); (RELAY_DEPOSIT, 0x26); (RELAY_DEPOSIT_OK, 0x27);
    (RELAY_COLLECT, 0x28); (RELAY_ENVELOPE, 0x29); (RELAY_COLLECT_END, 0x2A); (RELAY_ACK, 0x2B);
    (RELAY_ACK_OK, 0x2C); (RELAY_TOKEN_ADD, 0x2D); (RELAY_TOKEN_REVOKE, 0x2E); (RELAY_TOKEN_OK, 0x2F);
    (RELAY_INVITE_CREATE, 0x32); (RELAY_INVITE_OK, 0x33); (RELAY_INVITE_LIST, 0x34);
    (RELAY_INVITE_LIST_OK, 0x35); (RELAY_INVITE_CANCEL, 0x36); (RELAY_INVITE_CANCEL_OK, 0x37);
    (ARCHIVE_CREATE, 0x40); (ARCHIVE_CREATE_OK, 0x41); (ARCHIVE_JOIN, 0x42); (ARCHIVE_JOIN_OK, 0x43);
    (ARCHIVE_AUTH, 0x44); (ARCHIVE_AUTH_OK, 0x45); (ARCHIVE_APPEND, 0x46); (ARCHIVE_APPEND_OK, 0x47);
    (ARCHIVE_STALE, 0x48); (ARCHIVE_FETCH, 0x49); (ARCHIVE_ENTRY, 0x4A); (ARCHIVE_FETCH_END, 0x4B);
    (PREKEY_PUT, 0x70); (PREKEY_PUT_OK, 0x71); (PREKEY_TAKE, 0x72); (PREKEY_DATA, 0x73);
    (PREKEY_STATUS, 0x74); (PREKEY_STATUS_OK, 0x75);
    (FILE_UPLOAD_BEGIN, 0x60); (FILE_UPLOAD_OK, 0x61); (FILE_CHUNK, 0x62); (FILE_CHUNK_OK, 0x63);
    (FILE_DOWNLOAD, 0x64); (FILE_INFO, 0x65); (FILE_DATA, 0x66); (FILE_DOWNLOAD_END, 0x67);
    (FILE_REDEEM, 0x68); (FILE_REDEEM_OK, 0x69); (FILE_CANCEL, 0x6A); (FILE_CANCEL_OK, 0x6B);
    (FILE_STATUS, 0x6C); (FILE_STATUS_OK, 0x6D); (ARCHIVE_DELETE, 0x50); (ARCHIVE_DELETE_OK, 0x51);
    (KEYRING_PUT, 0x4C); (KEYRING_PUT_OK, 0x4D); (KEYRING_GET, 0x4E); (KEYRING_DATA, 0x4F);
    (RELAY_PING, 0x30); (RELAY_PONG, 0x31); (ERROR_MSG, 0xFE); (ACK, 0xFF) ].

(** [static_cast<uint8_t>(type)]. *)
Definition message_byte (t : MessageType) : byte :=
  match t with
  | UNNAMED b => b
  | _ => default Byte.x00 (byte_of_Z ∘ snd <$> List.find (fun p => bool_decide (p.1 = t)) message_codes)
  end.

(** [static_cast<MessageType>(byte)]. *)
Definition message_type (b : byte) : MessageType :=
  default (UNNAMED b) (fst <$> List.find (fun p => Z_of_byte b =? p.2) message_codes).

Definition all_bytes : list byte := map (fun n => byte_of_Z (Z.of_nat n)) (seq 0 256).

Lemma all_bytes_complete b : b ∈ all_bytes.
Proof.
  unfold all_bytes. apply list_elem_of_fmap. exists (Z.to_nat (Z_of_byte b)).
  pose proof (Z_of_byte_range b). rewrite Z2Nat.id by lia.
  split; [by rewrite byte_of_Z_of_byte|]. apply elem_of_seq. lia.
Qed.

(** Every byte on the wire is one message type: the two casts are inverse on bytes. *)
Lemma message_byte_type b : message_byte (message_type b) = b.
Proof.
  assert (H : Forall (fun b => message_byte (message_type b) = b) all_bytes).
  { apply (bool_decide_unpack _). vm_compute. exact I. }
  eapply Forall_forall in H; [exact H|]. apply all_bytes_complete.
Qed.

(** src/protocol/messages.h 127-134 FileHeader *)
Record FileHeader := mkFileHeader {
  FileHeader_file_size : Z;
  FileHeader_chunk_size : Z;
  FileHeader_total_chunks : Z;
  FileHeader_kem_ciphertext : bytes;
  FileHeader_nonce : bytes;
  FileHeader_sealed_metadata : bytes;
}.

(** src/protocol/messages.h 137-141 FileMetadata *)
Record FileMetadata := mkFileMetadata {
  FileMetadata_filename : bytes;
  FileMetadata_sender_fingerprint : bytes;
  FileMetadata_signature : bytes;
}.

(** src/protocol/messages.h 143-146 FileChunk *)
Record FileChunk := mkFileChunk {
  FileChunk_chunk_index : Z;
  FileChunk_data : bytes;
}.

(** src/protocol/messages.h 150-154 expected_total_chunks *)
Definition expected_total_chunks (file_size chunk_size : Z) : Z :=
  if chunk_size =? 0 then 0
  else if file_size =? 0 then 1
  else u32 (u64 (u64 (file_size + chunk_size) - 1) / chunk_size).

(** ** File header *)

(** src/protocol/protocol.cpp 80-88 write_public_fields *)
Definition write_public_fields (buf : bytes) (h : FileHeader) : bytes :=
  let buf := write_u32 buf PROTOCOL_MAGIC in
  let buf := write_u32 buf PROTOCOL_VERSION in
  let buf := write_u64 buf h.(FileHeader_file_size) in
  let buf := write_u32 buf h.(FileHeader_chunk_size) in
  let buf := write_u32 buf h.(FileHeader_total_chunks) in
  let buf := write_blob buf h.(FileHeader_kem_ciphertext) in
  write_blob buf h.(FileHeader_nonce).

(** src/protocol/protocol.cpp 90-94 serialize_header_public_fields *)
Definition serialize_header_public_fields (header : FileHeader) : bytes :=
  write_public_fields [] header.

(** src/protocol/protocol.cpp 96-101 serialize_file_header *)
Definition serialize_file_header (header : FileHeader) : bytes :=
  let buf := write_public_fields [] header in
  write_blob buf header.(FileHeader_sealed_metadata).

(** src/protocol/protocol.cpp 103-134 deserialize_file_header *)
Definition deserialize_file_header (data : bytes) : option FileHeader :=
  let '(magic, offset) := read_u32 data 0 in
  let? magic := magic in
  if negb (magic =? PROTOCOL_MAGIC) then None else
  let '(version, offset) := read_u32 data offset in
  let? version := version in
  if negb (version =? PROTOCOL_VERSION) then None else
  let '(file_size, offset) := read_u64 data offset in
  let '(chunk_size, offset) := read_u32 data offset in
  let '(total_chunks, offset) := read_u32 data offset in
  let? file_size := file_size in
  let? chunk_size := chunk_size in
  let? total_chunks := total_chunks in
  let '(kem_ct, offset) := read_blob data offset MAX_KEM_CIPHERTEXT_SIZE in
  let? kem_ct := kem_ct in
  let '(nonce, offset) := read_blob data offset NONCE_SIZE in
  let? nonce := nonce in
  let '(sealed, offset) := read_blob data offset MAX_SEALED_METADATA_SIZE in
  let? sealed := sealed in
  if negb (offset =? size data) then None else
  Some (mkFileHeader file_size chunk_size total_chunks kem_ct nonce sealed).

(** src/protocol/protocol.cpp 136-150 validate_file_header *)
Definition validate_file_header (h : FileHeader) : string :=
  if (h.(FileHeader_chunk_size) <? MIN_CHUNK_SIZE) || (MAX_CHUNK_SIZE <? h.(FileHeader_chunk_size)) then
    "Invalid chunk size"
  else if MAX_FILE_SIZE <? h.(FileHeader_file_size) then
    "File is larger than the 16 GiB limit"
  else if negb (h.(FileHeader_total_chunks) =? expected_total_chunks h.(FileHeader_file_size) h.(FileHeader_chunk_size)) then
    "Chunk count does not match file size"
  else if negb (size h.(FileHeader_nonce) =? NONCE_SIZE) then
    "Invalid nonce"
  else if size h.(FileHeader_kem_ciphertext) =? 0 then
    "Missing key encapsulation"
  else if size h.(FileHeader_sealed_metadata) <? AEAD_TAG_SIZE then
    "Missing encrypted metadata"
  else "".

(** src/protocol/protocol.cpp 152-156 expected_chunk_plaintext_size *)
Definition expected_chunk_plaintext_size (h : FileHeader) (index : Z) : Z :=
  let start := u64 (index * h.(FileHeader_chunk_size)) in
  if h.(FileHeader_file_size) <=? start then 0
  else Z.min h.(FileHeader_chunk_size) (h.(FileHeader_file_size) - start).

(** ** Sealed metadata and chunks *)

(** src/protocol/protocol.cpp 160-166 serialize_file_metadata *)
Definition serialize_file_metadata (meta : FileMetadata) : bytes :=
  let buf := write_string [] meta.(FileMetadata_filename) in
  let buf := write_string buf meta.(FileMetadata_sender_fingerprint) in
  write_blob buf meta.(FileMetadata_signature).

(** src/protocol/protocol.cpp 168-186 deserialize_file_metadata *)
Definition deserialize_file_metadata (data : bytes) : option FileMetadata :=
  let '(filename, offset) := read_string data 0 MAX_FILENAME_BYTES in
  let? filename := filename in
  let '(fp, offset) := read_string data offset MAX_FINGERPRINT_CHARS in
  let? fp := fp in
  let '(sig, offset) := read_blob data offset MAX_SIGNATURE_SIZE in
  let? sig := sig in
  if negb (offset =? size data) then None else
  Some (mkFileMetadata filename fp sig).

(** src/protocol/protocol.cpp 190-196 serialize_file_chunk *)
Definition serialize_file_chunk (chunk : FileChunk) : bytes :=
  let buf := write_u32 [] chunk.(FileChunk_chunk_index) in
  write_blob buf chunk.(FileChunk_data).

(** src/protocol/protocol.cpp 198-212 deserialize_file_chunk *)
Definition deserialize_file_chunk (data : bytes) : option FileChunk :=
  let '(index, offset) := read_u32 data 0 in
  let? index := index in
  let '(b, offset) := read_blob data offset (MAX_CHUNK_SIZE + AEAD_TAG_SIZE) in
  let? b := b in
  if negb (offset =? size data) then None else
  Some (mkFileChunk index b).

(** ** Hex helpers *)

Definition hex_digits : bytes := str "0123456789abcdef".

Definition hex_digit (n : Z) : byte := nth (Z.to_nat n) hex_digits Byte.x00.

(** src/protocol/protocol.cpp 216-225 bytes_to_hex *)
Fixpoint bytes_to_hex (data : bytes) : bytes :=
  match data with
  | [] => []
  | b :: data =>
      hex_digit (Z.shiftr (Z_of_byte b) 4) :: hex_digit (Z.land (Z_of_byte b) 0x0F) :: bytes_to_hex data
  end.

(** src/protocol/protocol.cpp 229-234 nibble *)
Definition nibble (c : byte) : Z :=
  let c := Z_of_byte c in
  if (48 <=? c) && (c <=? 57) then c - 48
  else if (97 <=? c) && (c <=? 102) then c - 97 + 10
  else if (65 <=? c) && (c <=? 70) then c - 65 + 10
  else -1.

Fixpoint hex_pairs (hex : bytes) : option bytes :=
  match hex with
  | hi :: lo :: hex =>
      let hi := nibble hi in
      let lo := nibble lo in
      if (hi <? 0) || (lo <? 0) then None
      else let? out := hex_pairs hex in Some (byte_of_Z (hi * 16 + lo) :: out)
  | _ => Some []
  end.

(** src/protocol/protocol.cpp 227-243 hex_to_bytes *)
Definition hex_to_bytes (hex : bytes) : option bytes :=
  if negb (size hex mod 2 =? 0) then None else hex_pairs hex.

(** src/protocol/protocol.cpp 245-250 is_lower_hex *)
Definition is_lower_hex (s : bytes) (expected_len : Z) : bool :=
  if negb (size s =? expected_len) then false
  else forallb (fun c =>
    let c := Z_of_byte c in
    ((48 <=? c) && (c <=? 57)) || ((97 <=? c) && (c <=? 102))) s.

(** ** The formats are inverse to their parsers *)

Definition wf_FileHeader (h : FileHeader) : Prop :=
  in_u64 h.(FileHeader_file_size) /\ in_u32 h.(FileHeader_chunk_size) /\ in_u32 h.(FileHeader_total_chunks) /\
  size h.(FileHeader_kem_ciphertext) <= MAX_KEM_CIPHERTEXT_SIZE /\
  size h.(FileHeader_nonce) <= NONCE_SIZE /\
  size h.(FileHeader_sealed_metadata) <= MAX_SEALED_METADATA_SIZE.

(** The parser accepts exactly the serializer's output: what it returns
    serializes back to the input, and every header within the limits survives
    the round trip. *)
Lemma deserialize_file_header_spec data h :
  deserialize_file_header data = Some h <-> wf_FileHeader h /\ data = serialize_file_header h.
Proof.
  unfold deserialize_file_header, wf_FileHeader, serialize_file_header, write_public_fields. split.
  - intros H. decode_inv data H. simpl. split; [by split_and!|]. encode_norm. by rewrite app_nil_r.
  - intros [(?&?&?&?&?&?) Hd]. destruct h; simpl in *. encode_at Hd. decode_fwd. by decode_end.
Qed.

Definition wf_FileMetadata (m : FileMetadata) : Prop :=
  size m.(FileMetadata_filename) <= MAX_FILENAME_BYTES /\
  size m.(FileMetadata_sender_fingerprint) <= MAX_FINGERPRINT_CHARS /\
  size m.(FileMetadata_signature) <= MAX_SIGNATURE_SIZE.

Lemma deserialize_file_metadata_spec data m :
  deserialize_file_metadata data = Some m <-> wf_FileMetadata m /\ data = serialize_file_metadata m.
Proof.
  unfold deserialize_file_metadata, wf_FileMetadata, serialize_file_metadata. split.
  - intros H. decode_inv data H. simpl.
    split; [by split_and!|]. encode_norm. by rewrite app_nil_r.
  - intros [(?&?&?) Hd]. destruct m; simpl in *. encode_at Hd. decode_fwd. by decode_end.
Qed.

Definition wf_FileChunk (c : FileChunk) : Prop :=
  in_u32 c.(FileChunk_chunk_index) /\ size c.(FileChunk_data) <= MAX_CHUNK_SIZE + AEAD_TAG_SIZE.

Lemma deserialize_file_chunk_spec data c :
  deserialize_file_chunk data = Some c <-> wf_FileChunk c /\ data = serialize_file_chunk c.
Proof.
  unfold deserialize_file_chunk, wf_FileChunk, serialize_file_chunk. split.
  - intros H. decode_inv data H. simpl. split; [by split_and!|]. encode_norm. by rewrite app_nil_r.
  - intros [(?&?) Hd]. destruct c; simpl in *. encode_at Hd. decode_fwd. by decode_end.
Qed.

(** ** Hex *)

Lemma hex_byte b :
  nibble (hex_digit (Z.shiftr (Z_of_byte b) 4)) = Z_of_byte b / 16 /\
  nibble (hex_digit (Z.land (Z_of_byte b) 0x0F)) = Z_of_byte b mod 16.
Proof.
  assert (H : Forall (fun b => nibble (hex_digit (Z.shiftr (Z_of_byte b) 4)) = Z_of_byte b / 16 /\
    nibble (hex_digit (Z.land (Z_of_byte b) 0x0F)) = Z_of_byte b mod 16) all_bytes).
  { apply (bool_decide_unpack _). vm_compute. exact I. }
  eapply Forall_forall in H; [exact H|]. apply all_bytes_complete.
Qed.

Lemma size_bytes_to_hex b : size (bytes_to_hex b) = 2 * size b.
Proof. induction b as [|x b IH]; [done|]. simpl. rewrite !size_cons, IH. lia. Qed.

Lemma hex_pairs_of_hex b : hex_pairs (bytes_to_hex b) = Some b.
Proof.
  induction b as [|x b IH]; [done|]. cbn [bytes_to_hex hex_pairs]. destruct (hex_byte x) as [-> ->].
  pose proof (Z_of_byte_range x). rewrite IH.
  rewrite (proj2 (Z.ltb_ge _ _)), (proj2 (Z.ltb_ge (_ mod _) _)) by Zlia. simpl.
  do 2 f_equal. rewrite <- (byte_of_Z_of_byte x) at 3. f_equal. Zlia.
Qed.

(** Decoding the hex form of a byte string gives it back. *)
Lemma hex_to_bytes_of_hex b : hex_to_bytes (bytes_to_hex b) = Some b.
Proof.
  unfold hex_to_bytes. rewrite size_bytes_to_hex.
  replace ((2 * size b) mod 2) with 0 by Zlia. apply hex_pairs_of_hex.
Qed.

Lemma bytes_to_hex_inj a b : bytes_to_hex a = bytes_to_hex b -> a = b.
Proof. intros H. pose proof (hex_to_bytes_of_hex a) as E. rewrite H, hex_to_bytes_of_hex in E. congruence. Qed.

Lemma bytes_to_hex_lower b : is_lower_hex (bytes_to_hex b) (2 * size b) = true.
Proof.
  unfold is_lower_hex. rewrite size_bytes_to_hex, Z.eqb_refl. cbn [negb].
  assert (H : Forall (fun x => forallb (fun c => let c := Z_of_byte c in
      ((48 <=? c) && (c <=? 57)) || ((97 <=? c) && (c <=? 102))) (bytes_to_hex [x]) = true) all_bytes).
  { apply (bool_decide_unpack _). vm_compute. exact I. }
  induction b as [|x b IH]; [done|].
  change (bytes_to_hex (x :: b)) with (bytes_to_hex [x] ++ bytes_to_hex b).
  rewrite forallb_app, IH, andb_true_r. eapply Forall_forall in H; [exact H|]. apply all_bytes_complete.
Qed.

(** ** Chunk arithmetic *)

Lemma validate_file_header_ok h :
  validate_file_header h = "" ->
  MIN_CHUNK_SIZE <= h.(FileHeader_chunk_size) <= MAX_CHUNK_SIZE /\
  h.(FileHeader_file_size) <= MAX_FILE_SIZE /\
  h.(FileHeader_total_chunks) = expected_total_chunks h.(FileHeader_file_size) h.(FileHeader_chunk_size) /\
  size h.(FileHeader_nonce) = NONCE_SIZE /\
  0 < size h.(FileHeader_kem_ciphertext) /\
  AEAD_TAG_SIZE <= size h.(FileHeader_sealed_metadata).
Proof.
  unfold validate_file_header. pose proof (size_nonneg h.(FileHeader_kem_ciphertext)).
  repeat case_match; intros; try done; bool_prop; lia.
Qed.

(** The sum over the first [k] chunks, in the order they are sent. *)
Definition chunk_sizes (h : FileHeader) (k : nat) : Z :=
  sum_by (fun i => expected_chunk_plaintext_size h (Z.of_nat i)) (seq 0 k).

Lemma chunk_sizes_prefix h k :
  0 < h.(FileHeader_chunk_size) <= MAX_CHUNK_SIZE -> 0 <= h.(FileHeader_file_size) -> Z.of_nat k < 2 ^ 32 ->
  chunk_sizes h k = Z.min h.(FileHeader_file_size) (Z.of_nat k * h.(FileHeader_chunk_size)).
Proof.
  intros Hc Hf. unfold MAX_CHUNK_SIZE in Hc. unfold chunk_sizes. induction k as [|k IH]; intros Hk; [simpl; lia|].
  rewrite seq_S, sum_by_app, IH by lia. simpl. unfold expected_chunk_plaintext_size.
  rewrite u64_small by (unfold in_u64; nia).
  destruct (_ <=? _) eqn:E; bool_prop; nia.
Qed.

Lemma expected_total_chunks_cover f c :
  MIN_CHUNK_SIZE <= c <= MAX_CHUNK_SIZE -> 0 <= f <= MAX_FILE_SIZE ->
  let n := expected_total_chunks f c in 1 <= n < 2 ^ 32 /\ f <= n * c /\ (n - 1) * c <= f.
Proof.
  unfold MIN_CHUNK_SIZE, MAX_CHUNK_SIZE, MAX_FILE_SIZE. intros Hc Hf. unfold expected_total_chunks.
  rewrite (proj2 (Z.eqb_neq c 0)) by lia.
  destruct (f =? 0) eqn:E; bool_prop; [simpl; lia|].
  rewrite (u64_small (f + c)) by (unfold in_u64; lia). rewrite u64_small by (unfold in_u64; lia).
  assert (Hq : (f + c - 1) / c * c <= f + c - 1 < (f + c - 1) / c * c + c).
  { pose proof (Z.div_mod (f + c - 1) c ltac:(lia)). pose proof (Z.mod_pos_bound (f + c - 1) c ltac:(lia)). lia. }
  assert (1 <= (f + c - 1) / c < 2 ^ 32) by nia.
  rewrite u32_small by (unfold in_u32; lia). cbv zeta. lia.
Qed.

(** A header that passes validation splits its file exactly: the expected
    plaintext sizes of its chunks add up to the file size, every chunk is at most
    one chunk size, and only the last can be short. *)
Theorem valid_header_chunks_cover_file h :
  0 <= h.(FileHeader_file_size) -> validate_file_header h = "" ->
  chunk_sizes h (Z.to_nat h.(FileHeader_total_chunks)) = h.(FileHeader_file_size) /\
  (forall i, 0 <= i -> i + 1 < h.(FileHeader_total_chunks) ->
     expected_chunk_plaintext_size h i = h.(FileHeader_chunk_size)) /\
  (forall i, 0 <= i < h.(FileHeader_total_chunks) ->
     0 <= expected_chunk_plaintext_size h i <= h.(FileHeader_chunk_size)).
Proof.
  intros Hf Hv. destruct (validate_file_header_ok h Hv) as (Hc & Hmax & Hn & _).
  pose proof (expected_total_chunks_cover _ _ Hc (conj Hf Hmax)) as Hcov. cbv zeta in Hcov.
  rewrite <- Hn in Hcov. unfold MIN_CHUNK_SIZE, MAX_CHUNK_SIZE in Hc. split_and!.
  - rewrite chunk_sizes_prefix by (unfold MAX_CHUNK_SIZE; lia). lia.
  - intros i Hi Hlt. unfold expected_chunk_plaintext_size. rewrite u64_small by (unfold in_u64; nia).
    destruct (_ <=? _) eqn:E; bool_prop; nia.
  - intros i Hi. unfold expected_chunk_plaintext_size. rewrite u64_small by (unfold in_u64; nia).
    destruct (_ <=? _) eqn:E; bool_prop; lia.
Qed.

Definition sample_header : FileHeader :=
  mkFileHeader 10000 4096 3 [Byte.x01] (repeat Byte.x02 12) (repeat Byte.x03 16).

Lemma valid_header_chunks_cover_file_witness :
  validate_file_header sample_header = "" /\ chunk_sizes sample_header 3 = 10000.
Proof.
  split; [vm_compute; reflexivity|].
  apply (valid_header_chunks_cover_file sample_header); [vm_compute; discriminate|vm_compute; reflexivity].
Defined.

(** ** Framing and socket I/O

    [::send] and [::recv] are the operating system's: what they do on each call
    is the script of the connection. A call may move any positive number of the
    bytes asked for, be interrupted by a signal, or fail. *)

Inductive io_event :=
  | IoMove (n : positive)   (* up to n bytes are moved by this call *)
  | IoInterrupted           (* -1 with EINTR *)
  | IoFailed.               (* an error, or a timeout *)

(** One direction of a connection: the script of the calls to come, and for
    reading the bytes the peer will have sent before it closes. *)
Record conn := mkConn { conn_script : list io_event; conn_in : bytes; conn_out : bytes }.

Definition MAX_PIECE : Z := 2 ^ 20.

(** src/protocol/protocol.cpp 273-284 send_exact *)
Fixpoint send_exact_loop (script : list io_event) (data out : bytes) : bool * list io_event * bytes :=
  if size data =? 0 then (true, script, out) else
  match script with
  | [] => (false, [], out)
  | IoInterrupted :: script => send_exact_loop script data out
  | IoFailed :: script => (false, script, out)
  | IoMove n :: script =>
      let piece := Z.min (size data) MAX_PIECE in
      let sent := Z.min (Zpos n) piece in
      send_exact_loop script (zdrop sent data) (out ++ ztake sent data)
  end.

Definition send_exact (c : conn) (data : bytes) : bool * conn :=
  let '(ok, script, out) := send_exact_loop c.(conn_script) data c.(conn_out) in
  (ok, mkConn script c.(conn_in) out).

(** src/protocol/protocol.cpp 286-297 recv_exact *)
Fixpoint recv_exact_loop (script : list io_event) (input buffer : bytes) (len : Z)
    : option bytes * list io_event * bytes :=
  if len <=? size buffer then (Some buffer, script, input) else
  match script with
  | [] => (None, [], input)
  | IoInterrupted :: script => recv_exact_loop script input buffer len
  | IoFailed :: script => (None, script, input)
  | IoMove n :: script =>
      let piece := Z.min (len - size buffer) MAX_PIECE in
      let got := Z.min (Z.min (Zpos n) piece) (size input) in
      if got <=? 0 then (None, script, input)   (* 0: orderly shutdown by the peer *)
      else recv_exact_loop script (zdrop got input) (buffer ++ ztake got input) len
  end.

Definition recv_exact (c : conn) (len : Z) : option bytes * conn :=
  let '(r, script, input) := recv_exact_loop c.(conn_script) c.(conn_in) [] len in
  (r, mkConn script input c.(conn_out)).

(** src/protocol/protocol.h 54-57 WireMessage *)
Record WireMessage := mkWireMessage { WireMessage_type : MessageType; WireMessage_payload : bytes }.

(** src/protocol/protocol.cpp 254-261 serialize_wire_message *)
Definition serialize_wire_message (type : MessageType) (payload : bytes) : bytes :=
  let buf := write_u32 [] (u32 (size payload)) in
  let buf := buf ++ [message_byte type] in
  write_bytes buf payload.

(** src/protocol/protocol.cpp 299-307 send_message *)
Definition send_message (c : conn) (type : MessageType) (payload : bytes) : bool * conn :=
  if 0xFFFFFFFF <? size payload then (false, c) else
  let prefix := write_u32 [] (u32 (size payload)) in
  let prefix := prefix ++ [message_byte type] in
  let '(ok, c) := send_exact c prefix in
  if negb ok then (false, c)
  else if size payload =? 0 then (true, c)
  else send_exact c payload.

(** src/protocol/protocol.cpp 309-311 send_text_message *)
Definition send_text_message (c : conn) (type : MessageType) (text : bytes) : bool * conn :=
  send_message c type text.

(** src/protocol/protocol.cpp 313-326 recv_message *)
Definition recv_message (c : conn) (max_payload : Z) : option WireMessage * conn :=
  let '(prefix, c) := recv_exact c 5 in
  match prefix with
  | None => (None, c)
  | Some prefix =>
      let '(payload_len, _) := read_u32 prefix 0 in
      match payload_len with
      | None => (None, c)
      | Some payload_len =>
          if max_payload <? payload_len then (None, c) else
          let type := message_type (nth 4 prefix Byte.x00) in
          if 0 <? payload_len then
            let '(payload, c) := recv_exact c payload_len in
            match payload with
            | None => (None, c)
            | Some payload => (Some (mkWireMessage type payload), c)
            end
          else (Some (mkWireMessage type []), c)
      end
  end.

(** *** The I/O loops *)

(** [live script n]: no call of the script fails, and at least [n] of them move data. *)
Fixpoint live (script : list io_event) (n : Z) : Prop :=
  match script with
  | [] => n <= 0
  | IoMove _ :: script => live script (n - 1)
  | IoInterrupted :: script => live script n
  | IoFailed :: _ => False
  end.

Lemma live_weaken script n m : live script n -> m <= n -> live script m.
Proof.
  revert n m. induction script as [|[k| |] script IH]; simpl; intros n m H Hle; [lia| | |done]; eapply IH; eauto; lia.
Qed.

(** What [send_exact] has put on the wire, whatever the system did. *)
Lemma send_exact_loop_out script data out ok script' out' :
  send_exact_loop script data out = (ok, script', out') ->
  exists sent, out' = out ++ sent /\ sent `prefix_of` data /\ (ok = true -> sent = data).
Proof.
  revert data out. induction script as [|[n| |] script IH]; intros data out; simpl;
    destruct (size data =? 0) eqn:E; bool_prop; intros H; simplify_eq;
    try (apply size_zero_iff in E; subst; exists []; rewrite app_nil_r; split_and!; [done|apply prefix_nil|done]);
    try (exists []; rewrite app_nil_r; split_and!; [done|apply prefix_nil|done]).
  - set (k := Z.min _ _) in H. apply IH in H as (sent & -> & [rest Hpre] & Hok).
    exists (ztake k data ++ sent). rewrite app_assoc. split_and!; [done| |].
    + exists rest. rewrite <- app_assoc, <- Hpre. symmetry. apply ztake_zdrop.
    + intros ->. by rewrite Hok, ztake_zdrop.
  - eauto.
Qed.

Lemma send_exact_loop_live script data out k :
  live script (size data + k) -> 0 <= k ->
  exists script', send_exact_loop script data out = (true, script', out ++ data) /\ live script' k.
Proof.
  revert data out. induction script as [|[n| |] script IH]; intros data out Hl Hk; simpl in *; [| | |done].
  - pose proof (size_nonneg data). assert (size data = 0) as E by lia.
    apply size_zero_iff in E as ->. rewrite app_nil_r. eexists. split; [done|]. simpl. lia.
  - destruct (size data =? 0) eqn:E; bool_prop.
    + apply size_zero_iff in E as ->. rewrite app_nil_r. rewrite size_nil in Hl. eexists. split; [done|].
      simpl. done.
    + pose proof (size_nonneg data). set (j := Z.min _ _).
      assert (1 <= j <= size data) by (unfold j, MAX_PIECE; lia).
      destruct (IH (zdrop j data) (out ++ ztake j data)) as (s' & -> & Hl'); [|done|].
      { rewrite size_zdrop by lia. eapply live_weaken; [exact Hl|lia]. }
      exists s'. by rewrite <- app_assoc, ztake_zdrop.
  - destruct (size data =? 0) eqn:E; bool_prop.
    + apply size_zero_iff in E as ->. rewrite app_nil_r. rewrite size_nil in Hl. eexists. split; [done|]. done.
    + by apply IH.
Qed.

Lemma recv_exact_loop_sound script input buffer len b script' input' :
  size buffer <= len -> recv_exact_loop script input buffer len = (Some b, script', input') ->
  size b = len /\ buffer ++ input = b ++ input'.
Proof.
  revert input buffer. induction script as [|[n| |] script IH]; intros input buffer Hb; simpl;
    destruct (len <=? size buffer) eqn:E; bool_prop; intros H; simplify_eq; try (split; [lia|done]); [|eauto].
  set (k := Z.min _ _) in H. destruct (k <=? 0) eqn:Ek; [done|]; bool_prop.
  assert (k <= size input /\ k <= len - size buffer) as [??] by (unfold k, MAX_PIECE; lia).
  apply IH in H; [|rewrite size_app, size_ztake; lia].
  by rewrite <- app_assoc, ztake_zdrop in H.
Qed.

Lemma recv_exact_loop_live script b rest buffer len k :
  size buffer <= len -> size buffer + size b = len ->
  live script (size b + k) -> 0 <= k ->
  exists script', recv_exact_loop script (b ++ rest) buffer len = (Some (buffer ++ b), script', rest) /\ live script' k.
Proof.
  revert b buffer. induction script as [|[n| |] script IH]; intros b buffer Hb Hs Hl Hk; simpl in *; [| | |done].
  - pose proof (size_nonneg b). assert (size b = 0) as E by lia. apply size_zero_iff in E as ->.
    rewrite size_nil in Hs. rewrite (proj2 (Z.leb_le _ _)) by lia. rewrite app_nil_r. eexists. split; [done|]. simpl. lia.
  - destruct (len <=? size buffer) eqn:E; bool_prop.
    + assert (size b = 0) as E' by (pose proof (size_nonneg b); lia). apply size_zero_iff in E' as ->.
      rewrite app_nil_r. rewrite size_nil in Hl. eexists. split; [done|]. done.
    + rewrite size_app. pose proof (size_nonneg rest).
      set (j := Z.min _ _). assert (1 <= j <= size b) by (unfold j, MAX_PIECE; lia).
      rewrite (proj2 (Z.leb_gt _ _)) by lia.
      rewrite zdrop_app_le, ztake_app_le by lia.
      destruct (IH (zdrop j b) (buffer ++ ztake j b)) as (s' & -> & Hl').
      { rewrite size_app, size_ztake; lia. } { rewrite size_app, size_zdrop, size_ztake; lia. }
      { rewrite size_zdrop by lia. eapply live_weaken; [exact Hl|lia]. } { done. }
      exists s'. by rewrite <- app_assoc, ztake_zdrop.
  - destruct (len <=? size buffer) eqn:E; bool_prop.
    + assert (size b = 0) as E' by (pose proof (size_nonneg b); lia). apply size_zero_iff in E' as ->.
      rewrite app_nil_r. rewrite size_nil in Hl. eexists. split; [done|]. done.
    + by apply IH.
Qed.

Lemma recv_exact_live c b rest k :
  conn_in c = b ++ rest -> live (conn_script c) (size b + k) -> 0 <= k ->
  exists c', recv_exact c (size b) = (Some b, c') /\ conn_in c' = rest /\ live (conn_script c') k /\ conn_out c' = conn_out c.
Proof.
  intros Hin Hl Hk. unfold recv_exact. rewrite Hin.
  destruct (recv_exact_loop_live (conn_script c) b rest [] (size b) k) as (s' & -> & Hl');
    [apply size_nonneg|done|done|done|].
  eexists. by split_and!.
Qed.

Lemma send_exact_live c data k :
  live (conn_script c) (size data + k) -> 0 <= k ->
  exists c', send_exact c data = (true, c') /\ conn_out c' = conn_out c ++ data /\ live (conn_script c') k.
Proof.
  intros Hl Hk. unfold send_exact.
  destruct (send_exact_loop_live (conn_script c) data (conn_out c) k) as (s' & -> & Hl'); [done|done|].
  eexists. by split_and!.
Qed.

(** *** Messages *)

Definition frame_prefix (t : MessageType) (p : bytes) : bytes := be32 (u32 (size p)) ++ [message_byte t].

Lemma serialize_wire_message_eq t p : serialize_wire_message t p = frame_prefix t p ++ p.
Proof. reflexivity. Qed.

Lemma size_frame_prefix t p : size (frame_prefix t p) = 5.
Proof. unfold frame_prefix. autorewrite with size. lia. Qed.

Lemma frame_prefix_type t p : nth 4 (frame_prefix t p) Byte.x00 = message_byte t.
Proof. unfold frame_prefix. rewrite app_nth2; [|rewrite be32_length; lia]. by rewrite be32_length. Qed.

Lemma read_frame_prefix t p : in_u32 (size p) -> read_u32 (frame_prefix t p) 0 = (Some (size p), 4).
Proof.
  intros H. apply (read_u32_fwd _ 0 _ [message_byte t]); [|done].
  unfold frame_prefix. rewrite u32_small by done. apply at_off_0.
Qed.

(** A frame's five-byte prefix is determined by the bytes read. *)
Lemma frame_prefix_of_bytes l n :
  size l = 5 -> read_u32 l 0 = (Some n, 4) -> l = be32 n ++ [nth 4 l Byte.x00] /\ in_u32 n.
Proof.
  intros Hs H. apply (proj1 (read_u32_at _ _ _ _ _ (at_off_0 l))) in H as (Hn & _ & rest & -> & _).
  split; [|done]. rewrite size_app, size_be32 in Hs.
  destruct rest as [|x [|y r]]; autorewrite with size in Hs; [lia| |pose proof (size_nonneg r); lia].
  by rewrite app_nth2, be32_length by (rewrite be32_length; lia).
Qed.

Lemma recv_exact_sound c n b c' :
  0 <= n -> recv_exact c n = (Some b, c') -> size b = n /\ conn_in c = b ++ conn_in c' /\ conn_out c' = conn_out c.
Proof.
  intros Hn. unfold recv_exact. destruct (recv_exact_loop _ _ _ _) as [[r s] i] eqn:E. intros [= -> <-].
  apply recv_exact_loop_sound in E as [? ?]; [|done]. done.
Qed.

Lemma read_u32_off l n o : read_u32 l 0 = (Some n, o) -> o = 4.
Proof. unfold read_u32. destruct (negb _); [done|]. by intros [=]. Qed.

(** C21: Framing. If the system keeps moving bytes, a message that fits is sent
    whole and the peer receives exactly it, however the two systems split or
    interrupt the transfer, and nothing of the next message is consumed. *)
Theorem message_roundtrip cs cr t p rest max_payload :
  message_type (message_byte t) = t -> size p <= max_payload -> max_payload < 2 ^ 32 ->
  live (conn_script cs) (5 + size p) -> conn_out cs = [] ->
  live (conn_script cr) (5 + size p) -> conn_in cr = serialize_wire_message t p ++ rest ->
  (exists cs', send_message cs t p = (true, cs') /\ conn_out cs' = serialize_wire_message t p) /\
  (exists cr', recv_message cr max_payload = (Some (mkWireMessage t p), cr') /\ conn_in cr' = rest).
Proof.
  intros Ht Hp Hmax Hls Hout Hlr Hin.
  assert (Hu : in_u32 (size p)) by (pose proof (size_nonneg p); unfold in_u32; lia). split.
  - unfold send_message. rewrite (proj2 (Z.ltb_ge _ _)) by (unfold in_u32 in Hu; lia).
    destruct (send_exact_live cs (frame_prefix t p) (size p)) as (c1 & E1 & Ho1 & Hl1);
      [by rewrite size_frame_prefix|apply size_nonneg|].
    change (write_u32 [] (u32 (size p)) ++ [message_byte t]) with (frame_prefix t p). rewrite E1. cbn [negb].
    rewrite serialize_wire_message_eq. rewrite Hout in Ho1. simpl in Ho1.
    destruct (size p =? 0) eqn:E; bool_prop.
    + apply size_zero_iff in E. exists c1. rewrite E, app_nil_r in *. done.
    + destruct (send_exact_live c1 p 0) as (c2 & -> & Ho2 & _); [by rewrite Z.add_0_r|done|].
      exists c2. by rewrite Ho2, Ho1.
  - unfold recv_message. rewrite serialize_wire_message_eq, <- app_assoc in Hin.
    destruct (recv_exact_live cr (frame_prefix t p) (p ++ rest) (size p)) as (c1 & E1 & Hi1 & Hl1 & _);
      [done|by rewrite size_frame_prefix|apply size_nonneg|].
    rewrite size_frame_prefix in E1. rewrite E1, (read_frame_prefix t p Hu).
    rewrite (proj2 (Z.ltb_ge _ _)) by lia. rewrite frame_prefix_type, Ht.
    destruct (0 <? size p) eqn:E; bool_prop.
    + destruct (recv_exact_live c1 p rest 0) as (c2 & -> & Hi2 & _); [done|by rewrite Z.add_0_r|done|]. eauto.
    + assert (size p = 0) as E0 by (pose proof (size_nonneg p); lia). apply size_zero_iff in E0 as ->. eauto.
Qed.

Definition sample_script : list io_event :=
  [IoMove 2; IoInterrupted; IoMove 1; IoMove 9; IoMove 1; IoMove 1; IoInterrupted; IoMove 1; IoMove 3].
Definition sample_in : bytes := serialize_wire_message RELAY_PING [Byte.x07; Byte.x08] ++ [Byte.xff].

Lemma message_roundtrip_witness :
  exists cr', recv_message (mkConn sample_script sample_in []) 16 =
    (Some (mkWireMessage RELAY_PING [Byte.x07; Byte.x08]), cr') /\ conn_in cr' = [Byte.xff].
Proof.
  apply (message_roundtrip (mkConn sample_script [] []) (mkConn sample_script sample_in [])
           RELAY_PING [Byte.x07; Byte.x08] [Byte.xff] 16); vm_compute; try reflexivity; discriminate.
Defined.

(** A received message never exceeds the limit the caller gave, and the
    bytes consumed are exactly the frame of the message returned. *)
Theorem recv_message_sound c max_payload m c' :
  recv_message c max_payload = (Some m, c') ->
  size (WireMessage_payload m) <= max_payload /\
  conn_in c = serialize_wire_message (WireMessage_type m) (WireMessage_payload m) ++ conn_in c'.
Proof.
  unfold recv_message. destruct (recv_exact c 5) as [[pre|] c1] eqn:E1; [|done].
  apply recv_exact_sound in E1 as (Hpre & Hin & _); [|lia].
  destruct (read_u32 pre 0) as [[n|] o] eqn:E2; [|done]. pose proof (read_u32_off _ _ _ E2) as ->.
  destruct (frame_prefix_of_bytes _ _ Hpre E2) as [Hl Hn].
  destruct (max_payload <? n) eqn:E3; [done|]; bool_prop. unfold in_u32 in Hn.
  assert (Hser : forall p, size p = n -> serialize_wire_message (message_type (nth 4 pre Byte.x00)) p = pre ++ p).
  { intros p <-. rewrite serialize_wire_message_eq. unfold frame_prefix.
    rewrite u32_small, message_byte_type by (unfold in_u32; lia). by rewrite Hl at 2. }
  destruct (0 <? n) eqn:E4; bool_prop.
  - destruct (recv_exact c1 n) as [[p|] c2] eqn:E5; [|done]. intros [= <- <-]. simpl.
    apply recv_exact_sound in E5 as (Hp & Hin2 & _); [|lia].
    rewrite Hser by done. split; [lia|]. by rewrite Hin, Hin2, app_assoc.
  - intros [= <- <-]. simpl. rewrite Hser by (rewrite size_nil; lia). rewrite app_nil_r, size_nil. by split; [lia|].
Qed.

Lemma recv_message_sound_witness :
  exists m c', recv_message (mkConn sample_script sample_in []) 16 = (Some m, c') /\
  size (WireMessage_payload m) <= 16.
Proof.
  do 2 eexists. split; [vm_compute; reflexivity|].
  apply (recv_message_sound (mkConn sample_script sample_in []) 16 (mkWireMessage RELAY_PING [Byte.x07; Byte.x08])
    (mkConn [IoInterrupted; IoMove 1; IoMove 3] [Byte.xff] [])). vm_compute. reflexivity.
Defined.
