(* ===== verification/Threads.v ===== *)
(** * Programs made of actions, and many of them at once

    A program is a tree of actions on a state that is shared, of type [V], and on the
    program's own, of type [S]; an action is what happens while a mutex is held, or one
    call of the operating system. [run] runs a program alone. A [System] is the shared
    state with the threads that are running, and a step is one action of one thread. A
    thread that ends or throws goes on to its guards.

    [System_invariant] is the rule for proving invariants of all interleavings: every
    action of every thread keeps the invariant, and leaves alone what the other threads
    rely on ([good]). *)

From Stdlib Require Import Lia.
From stdpp Require Import base list relations.

Section threads.
Context {V S : Type}.

Definition action (R : Type) : Type := V -> S -> option (R * V * S).

Inductive prog (A : Type) : Type :=
  | Done (a : A)
  | Act (R : Type) (f : action R) (k : R -> prog A).
Arguments Done {A} a.
Arguments Act {A R} f k.

Fixpoint bind {A B} (p : prog A) (k : A -> prog B) : prog B :=
  match p with
  | Done a => k a
  | Act f c => Act f (fun r => bind (c r) k)
  end.

Definition act {R} (f : action R) : prog R := Act f Done.

(** The value, or [None] for an exception. *)
Fixpoint run {A} (p : prog A) (v : V) (s : S) : option A * V * S :=
  match p with
  | Done a => (Some a, v, s)
  | Act f k =>
      match f v s with
      | None => (None, v, s)
      | Some (r, v, s) => run (k r) v s
      end
  end.

Lemma run_bind {A B} (p : prog A) (k : A -> prog B) v s :
  run (bind p k) v s = match run p v s with
                       | (Some a, v, s) => run (k a) v s
                       | (None, v, s) => (None, v, s)
                       end.
Proof.
  revert v s. induction p as [a|R f c IH]; intros v s; simpl; [done|].
  destruct (f v s) as [[[r v'] s']|]; [apply IH|done].
Qed.

(** Every action of a program satisfies [G], whatever the values it got before. *)
Fixpoint acts (G : forall R, action R -> Prop) {A} (p : prog A) : Prop :=
  match p with
  | Done _ => True
  | @Act _ R f k => G R f /\ forall r, acts G (k r)
  end.

Lemma acts_bind (G : forall R, action R -> Prop) {A B} (p : prog A) (k : A -> prog B) :
  acts G p -> (forall a, acts G (k a)) -> acts G (bind p k).
Proof.
  intros Hp Hk. induction p as [a|R f c IH]; simpl; [apply Hk|]. destruct Hp as [Hf Hc].
  split; [done|]. intros r. apply IH, Hc.
Qed.

Record thread := mkThread { th_prog : prog unit; th_state : S; th_guards : prog unit }.
Definition System : Type := V * list thread.

Variable starts : V -> thread -> V -> Prop.

(** One action of one thread; a thread that starts, that throws, or that ends. An
    exception may come in the place of any action. *)
Inductive system_step : System -> System -> Prop :=
  | sys_start v ts t v' : starts v t v' -> system_step (v, ts) (v', ts ++ [t])
  | sys_act v ts i R (f : action R) k s g r v' s' :
      ts !! i = Some (mkThread (Act f k) s g) -> f v s = Some (r, v', s') ->
      system_step (v, ts) (v', <[i := mkThread (k r) s' g]> ts)
  | sys_throw v ts i R (f : action R) k s g :
      ts !! i = Some (mkThread (Act f k) s g) -> system_step (v, ts) (v, <[i := mkThread g s (Done tt)]> ts)
  | sys_end v ts i a s g :
      ts !! i = Some (mkThread (Done a) s g) -> system_step (v, ts) (v, <[i := mkThread g s (Done tt)]> ts).

(** A thread that nobody interrupts. *)
Lemma run_reaches (p : prog unit) v s g v' s' ts :
  run p v s = (Some tt, v', s') -> rtc system_step (v, ts ++ [mkThread p s g]) (v', ts ++ [mkThread (Done tt) s' g]).
Proof.
  revert v s. induction p as [a|R f k IH]; intros v s; cbn [run]; [intros [= -> -> ->]; apply rtc_refl|].
  destruct (f v s) as [[[r v1] s1]|] eqn:E; [|done]. intros H. eapply rtc_l; [|by apply (IH r)].
  eapply (sys_act v _ (length ts)) in E; [|by rewrite list_lookup_middle].
  by rewrite insert_app_r_alt, Nat.sub_diag in E by done.
Qed.

(** ** The rule *)

(** The invariant of the shared state with what the threads have, in any order; and
    what a thread's own knowledge depends on. *)
Variable Inv : V -> list S -> Prop.
Variable stable : S -> V -> V -> Prop.

Hypothesis Inv_perm : forall v ss ss', ss ≡ₚ ss' -> Inv v ss -> Inv v ss'.
Hypothesis stable_refl : forall s v, stable s v v.
Hypothesis stable_trans : forall s v1 v2 v3, stable s v1 v2 -> stable s v2 v3 -> stable s v1 v3.

(** A program all of whose actions, whenever they come and whoever else is there, keep
    the invariant and what the others know. *)
Fixpoint good {A} (post : A -> V -> S -> Prop) (p : prog A) (v : V) (s : S) : Prop :=
  match p with
  | Done a => post a v s
  | Act f k =>
      forall v1 others, stable s v v1 -> Inv v1 (s :: others) ->
      match f v1 s with
      | None => True
      | Some (r, v2, s2) => Inv v2 (s2 :: others) /\ (forall t, t ∈ others -> stable t v1 v2) /\ good post (k r) v2 s2
      end
  end.

Lemma good_bind {A B} (mid : A -> V -> S -> Prop) (post : B -> V -> S -> Prop) (p : prog A) (k : A -> prog B) v s :
  good mid p v s -> (forall a v s, mid a v s -> good post (k a) v s) -> good post (bind p k) v s.
Proof.
  intros Hp Hk. revert v s Hp. induction p as [a|R f c IH]; intros v s Hp; [by apply Hk|].
  intros v1 others Hst HI. specialize (Hp v1 others Hst HI). destruct (f v1 s) as [[[r v2] s2]|]; [|done].
  destruct Hp as (HI2 & Hothers & Hp). split_and!; [done..|]. by apply IH.
Qed.

(** Alone, among threads that stand still. *)
Lemma good_run {A} (post : A -> V -> S -> Prop) (p : prog A) v s a v' s' others :
  good post p v s -> Inv v (s :: others) -> run p v s = (Some a, v', s') -> Inv v' (s' :: others) /\ post a v' s'.
Proof.
  revert v s. induction p as [b|R f c IH]; intros v s Hp HI; cbn [run]; [by intros [= -> -> ->]|].
  specialize (Hp v others (stable_refl s v) HI). destruct (f v s) as [[[r v2] s2]|]; [|done].
  destruct Hp as (HI2 & _ & Hp). by apply IH.
Qed.

Definition anything {A} : A -> V -> S -> Prop := fun _ _ _ => True.

Lemma good_anything {A} (post : A -> V -> S -> Prop) (p : prog A) v s : good post p v s -> good anything p v s.
Proof.
  revert v s. induction p as [a|R f c IH]; intros v s Hp; [done|].
  intros v1 others Hst HI. specialize (Hp v1 others Hst HI). destruct (f v1 s) as [[[r v2] s2]|]; [|done].
  destruct Hp as (HI2 & Hothers & Hp). split_and!; [done..|]. by apply IH.
Qed.

Lemma good_stable (p : prog unit) v v' s : good anything p v s -> stable s v v' -> good anything p v' s.
Proof. destruct p as [a|R f k]; [done|]. intros H Hs v1 others Hst. apply H. by eapply stable_trans. Qed.

(** A thread whose program is good, and whose guards are whatever has happened. *)
Definition thread_good (v : V) (t : thread) : Prop :=
  good anything t.(th_prog) v t.(th_state) /\ forall v s, good anything t.(th_guards) v s.

Definition states (ts : list thread) : list S := map th_state ts.
Definition System_ok (x : System) : Prop := Inv x.1 (states x.2) /\ Forall (thread_good x.1) x.2.

Hypothesis start_ok : forall v ts t v', System_ok (v, ts) -> starts v t v' ->
  Inv v' (states (ts ++ [t])) /\ thread_good v' t /\ forall u, u ∈ ts -> stable u.(th_state) v v'.

Lemma delete_of_insert {A} (l : list A) i x : delete i (<[i := x]> l) = delete i l.
Proof. revert i. induction l as [|y l IH]; intros [|i]; [done..|]. simpl. f_equal. apply IH. Qed.

(** One thread, and the others. *)
Lemma split_threads (ts : list thread) i t :
  ts !! i = Some t -> exists others, states ts ≡ₚ t.(th_state) :: others /\
    (forall u, states (<[i := u]> ts) ≡ₚ u.(th_state) :: others) /\
    forall j u, ts !! j = Some u -> i <> j -> u.(th_state) ∈ others.
Proof.
  intros Hi. exists (states (delete i ts)). unfold states. split_and!.
  - apply (Permutation_map th_state (delete_Permutation ts i t Hi)).
  - intros u. assert (<[i := u]> ts !! i = Some u) as Hu by (apply list_lookup_insert_eq; by eapply lookup_lt_Some).
    pose proof (Permutation_map th_state (delete_Permutation _ i u Hu)) as H. by rewrite delete_of_insert in H.
  - intros j u Hj Hne. apply list_elem_of_fmap_2. apply list_elem_of_lookup.
    destruct (decide (j < i)) as [Hlt|Hge]; [exists j; by rewrite list_lookup_delete_lt|].
    exists (pred j). destruct j as [|j]; [lia|]. simpl. by rewrite list_lookup_delete_ge by lia.
Qed.

Lemma guards_next v ts i t :
  System_ok (v, ts) -> ts !! i = Some t -> System_ok (v, <[i := mkThread t.(th_guards) t.(th_state) (Done tt)]> ts).
Proof.
  intros [HI Hts] Hi. cbn [fst snd] in *. destruct (split_threads ts i t Hi) as (others & Hp & Hins & _).
  split; cbn [fst snd]; [eapply Inv_perm; [symmetry; apply Hins|]; by eapply Inv_perm|].
  apply Forall_insert; [done|]. split; [|done]. by apply (Forall_lookup_1 _ _ _ _ Hts Hi).
Qed.

Lemma system_step_ok x y : System_ok x -> system_step x y -> System_ok y.
Proof.
  intros Hok Hstep. pose proof Hok as [HI Hts]. destruct Hstep as [v ts t v' Ht|v ts i R f k s g r v' s' Hi Hf|v ts i R f k s g Hi|v ts i a s g Hi]; cbn [fst snd] in *.
  - destruct (start_ok v ts t v' Hok Ht) as (HI' & Ht' & Hst). split; cbn [fst snd]; [done|].
    apply Forall_app. split; [|by apply Forall_singleton]. apply Forall_forall. intros u Hu.
    pose proof (proj1 (Forall_forall _ _) Hts u Hu) as [Hp Hg]. split; [|done]. eapply good_stable; [done|by apply Hst].
  - pose proof (Forall_lookup_1 _ _ _ _ Hts Hi) as [Hp Hg]. destruct (split_threads ts i _ Hi) as (others & Hperm & Hins & Hoth).
    cbn [th_prog th_state th_guards good] in *. specialize (Hp v others (stable_refl _ v) ltac:(by eapply Inv_perm)). rewrite Hf in Hp. destruct Hp as (HI' & Hst & Hp).
    split; cbn [fst snd]; [eapply Inv_perm; [symmetry; apply Hins|done]|]. apply Forall_lookup_2. intros j t Hj.
    destruct (decide (i = j)) as [<-|Hne].
    + rewrite list_lookup_insert_eq in Hj by (by eapply lookup_lt_Some). injection Hj as <-. done.
    + rewrite list_lookup_insert_ne in Hj by done. pose proof (Forall_lookup_1 _ _ _ _ Hts Hj) as [Hp' Hg'].
      split; [|done]. eapply good_stable; [done|]. apply Hst. by eapply Hoth.
  - by apply (guards_next v ts i (mkThread (Act f k) s g)).
  - by apply (guards_next v ts i (mkThread (Done a) s g)).
Qed.

Lemma System_invariant x y : System_ok x -> rtc system_step x y -> System_ok y.
Proof. intros Hok H. induction H as [|x y z Hs _ IH]; [done|]. apply IH. by eapply system_step_ok. Qed.
End threads.

#[global] Arguments prog V S A : clear implicits.
#[global] Arguments Done {V S A} a.
#[global] Arguments Act {V S A R} f k.
#[global] Arguments thread V S : clear implicits.
#[global] Arguments System V S : clear implicits.

Declare Scope prog_scope.
Delimit Scope prog_scope with prog.
Notation "'let*' x := p 'in' k" := (bind p (fun x => k))
  (at level 10, x pattern, p at level 100, k at level 200) : prog_scope.
