(* ===== verification/RelayProtocol.v ===== *)
(** * Relay messages: protocol/relay_protocol.h and relay_protocol.cpp

    The messages a relay and its clients exchange (protocol v3), one record per
    struct, with [encode] and [decode_*] written as the sources write them, and
    the byte strings that are signed and hashed. The proofs about them are in
    [RelayProtocolSpec]. [FileChunk] of the namespace [relay] is called
    [RelayFileChunk] here, since messages.h has a [FileChunk] of its own. *)

From Stdlib Require Import ZArith Lia.
From stdpp Require Import base list strings.
From S2P Require Import Prelude Wire.
#[local] Open Scope Z_scope.

(** Constants (src/protocol/relay_protocol.h). *)
Definition WIRE_VERSION : Z := 3.
Definition NONCE_BYTES : Z := 32.
Definition MAILBOX_ID_BYTES : Z := 16.
Definition SEND_TOKEN_BYTES : Z := 32.
Definition HASH_BYTES : Z := 32.
Definition INVITE_BYTES : Z := 16.
Definition ENVELOPE_ID_BYTES : Z := 16.
Definition MAX_ENVELOPE_BYTES : Z := 64 * 1024 + 4096.
Definition MIN_TTL_SECONDS : Z := 1.
Definition MAX_TTL_SECONDS : Z := 30 * 24 * 3600.
Definition MAX_ACK_IDS : Z := 256.
Definition MAX_KEY_BLOB : Z := 8192.
Definition MAX_MESSAGE_PAYLOAD : Z := MAX_ENVELOPE_BYTES + 1024.
Definition MAX_INVITE_STATUS_ENTRIES : Z := 4096.
Definition ARCHIVE_ID_BYTES : Z := 16.
Definition JOIN_TOKEN_BYTES : Z := 32.
Definition MAX_ARCHIVE_MEMBERS : Z := 16.
Definition MAX_ARCHIVE_ENTRY_BYTES : Z := 64 * 1024.
Definition MAX_FETCH_ENTRIES : Z := 256.
Definition MAX_DELETE_ENTRIES : Z := 64.
Definition DELETE_SCOPE_CHAT : Z := 1.
Definition DELETE_SCOPE_ENTRIES : Z := 2.
Definition KEYRING_CHUNK_BYTES : Z := 48 * 1024.
Definition MAX_KEYRING_BYTES : Z := 16 * 1024 * 1024.
Definition FILE_ID_BYTES : Z := 16.
Definition FILE_TOKEN_BYTES : Z := 32.
Definition MAX_FILE_TOKENS : Z := 16.
Definition MAX_FILE_CHUNK_BYTES : Z := 64 * 1024.
Definition MIN_FILE_CHUNK_BYTES : Z := 4096.
Definition MAX_FILE_BYTES : Z := 16 * 1024 * 1024 * 1024.
Definition FILE_ACK_WINDOW : Z := 64.
Definition PREKEY_ID_BYTES : Z := 16.
Definition PREKEY_GENERATION_BYTES : Z := 16.
Definition MAX_PREKEY_BYTES : Z := 8192.
Definition MAX_PREKEYS_PER_PUT : Z := 12.

(** src/protocol/relay_protocol.cpp 10-14 fixed_blob *)
Definition fixed_blob (inp : bytes) (off sz : Z) : option bytes * Z :=
  let '(b, off) := read_blob inp off sz in
  match b with
  | None => (None, off)
  | Some b => if negb (size b =? sz) then (None, off) else (Some b, off)
  end.

(** src/protocol/relay_protocol.cpp 16-16 at_end *)
Definition at_end (inp : bytes) (off : Z) : bool := off =? size inp.

(** src/protocol/relay_protocol.cpp 18-18 HELLO_LABEL *)
Definition HELLO_LABEL : bytes := str "pq-suite v3 relay hello".
(** src/protocol/relay_protocol.cpp 19-19 REGISTER_LABEL *)
Definition REGISTER_LABEL : bytes := str "pq-suite v3 relay register".
(** src/protocol/relay_protocol.cpp 20-20 AUTH_LABEL *)
Definition AUTH_LABEL : bytes := str "pq-suite v3 relay auth".
(** src/protocol/relay_protocol.cpp 21-21 ARCHIVE_JOIN_LABEL *)
Definition ARCHIVE_JOIN_LABEL : bytes := str "pq-suite v3 archive join".
(** src/protocol/relay_protocol.cpp 22-22 ARCHIVE_AUTH_LABEL *)
Definition ARCHIVE_AUTH_LABEL : bytes := str "pq-suite v3 archive auth".
(** src/protocol/relay_protocol.cpp 23-23 ARCHIVE_GENESIS_LABEL *)
Definition ARCHIVE_GENESIS_LABEL : bytes := str "pq-suite v3 archive genesis".
(** src/protocol/relay_protocol.cpp 24-24 ARCHIVE_ENTRY_LABEL *)
Definition ARCHIVE_ENTRY_LABEL : bytes := str "pq-suite v3 archive entry".
(** src/protocol/relay_protocol.cpp 25-25 ARCHIVE_DELETE_LABEL *)
Definition ARCHIVE_DELETE_LABEL : bytes := str "pq-suite v3 archive delete".

(** src/protocol/relay_protocol.h 35-38 Hello *)
Record Hello := mkHello {
  Hello_version : Z;
  Hello_client_nonce : bytes;
}.

(** src/protocol/relay_protocol.cpp 31-36 encode *)
Definition encode_Hello (m : Hello) : bytes :=
  let b := write_u32 [] m.(Hello_version) in
  write_blob b m.(Hello_client_nonce).

(** src/protocol/relay_protocol.cpp 271-280 decode_hello *)
Definition decode_hello (inp : bytes) : option Hello :=
  let '(version, off) := read_u32 inp 0 in
  let '(nonce, off) := fixed_blob inp off NONCE_BYTES in
  let? version := version in
  let? nonce := nonce in
  if negb (at_end inp off) then None else
  Some (mkHello version nonce).

(** src/protocol/relay_protocol.h 40-44 HelloReply *)
Record HelloReply := mkHelloReply {
  HelloReply_relay_public_key : bytes;
  HelloReply_signature : bytes;
  HelloReply_auth_challenge : bytes;
}.

(** src/protocol/relay_protocol.cpp 38-44 encode *)
Definition encode_HelloReply (m : HelloReply) : bytes :=
  let b := write_blob [] m.(HelloReply_relay_public_key) in
  let b := write_blob b m.(HelloReply_signature) in
  write_blob b m.(HelloReply_auth_challenge).

(** src/protocol/relay_protocol.cpp 282-293 decode_hello_reply *)
Definition decode_hello_reply (inp : bytes) : option HelloReply :=
  let '(key, off) := read_blob inp 0 MAX_KEY_BLOB in
  let '(sig, off) := read_blob inp off MAX_KEY_BLOB in
  let '(challenge, off) := fixed_blob inp off NONCE_BYTES in
  let? key := key in
  let? sig := sig in
  let? challenge := challenge in
  if negb (at_end inp off) then None else
  Some (mkHelloReply key sig challenge).

(** src/protocol/relay_protocol.h 46-52 Register *)
Record Register := mkRegister {
  Register_invite : bytes;
  Register_mailbox_id : bytes;
  Register_access_public_key : bytes;
  Register_send_token_hash : bytes;
  Register_signature : bytes;
}.

(** src/protocol/relay_protocol.cpp 46-54 encode *)
Definition encode_Register (m : Register) : bytes :=
  let b := write_blob [] m.(Register_invite) in
  let b := write_blob b m.(Register_mailbox_id) in
  let b := write_blob b m.(Register_access_public_key) in
  let b := write_blob b m.(Register_send_token_hash) in
  write_blob b m.(Register_signature).

(** src/protocol/relay_protocol.cpp 295-310 decode_register *)
Definition decode_register (inp : bytes) : option Register :=
  let '(invite, off) := fixed_blob inp 0 INVITE_BYTES in
  let '(mailbox, off) := fixed_blob inp off MAILBOX_ID_BYTES in
  let '(key, off) := read_blob inp off MAX_KEY_BLOB in
  let '(token_hash, off) := fixed_blob inp off HASH_BYTES in
  let '(sig, off) := read_blob inp off MAX_KEY_BLOB in
  let? invite := invite in
  let? mailbox := mailbox in
  let? key := key in
  let? token_hash := token_hash in
  let? sig := sig in
  if negb (at_end inp off) then None else
  Some (mkRegister invite mailbox key token_hash sig).

(** src/protocol/relay_protocol.h 54-57 Auth *)
Record Auth := mkAuth {
  Auth_mailbox_id : bytes;
  Auth_signature : bytes;
}.

(** src/protocol/relay_protocol.cpp 56-61 encode *)
Definition encode_Auth (m : Auth) : bytes :=
  let b := write_blob [] m.(Auth_mailbox_id) in
  write_blob b m.(Auth_signature).

(** src/protocol/relay_protocol.cpp 312-321 decode_auth *)
Definition decode_auth (inp : bytes) : option Auth :=
  let '(mailbox, off) := fixed_blob inp 0 MAILBOX_ID_BYTES in
  let '(sig, off) := read_blob inp off MAX_KEY_BLOB in
  let? mailbox := mailbox in
  let? sig := sig in
  if negb (at_end inp off) then None else
  Some (mkAuth mailbox sig).

(** src/protocol/relay_protocol.h 59-64 Deposit *)
Record Deposit := mkDeposit {
  Deposit_mailbox_id : bytes;
  Deposit_send_token : bytes;
  Deposit_envelope : bytes;
  Deposit_ttl_seconds : Z;
}.

(** src/protocol/relay_protocol.cpp 63-70 encode *)
Definition encode_Deposit (m : Deposit) : bytes :=
  let b := write_blob [] m.(Deposit_mailbox_id) in
  let b := write_blob b m.(Deposit_send_token) in
  let b := write_u32 b m.(Deposit_ttl_seconds) in
  write_blob b m.(Deposit_envelope).

(** src/protocol/relay_protocol.cpp 323-336 decode_deposit *)
Definition decode_deposit (inp : bytes) : option Deposit :=
  let '(mailbox, off) := fixed_blob inp 0 MAILBOX_ID_BYTES in
  let '(token, off) := fixed_blob inp off SEND_TOKEN_BYTES in
  let '(ttl, off) := read_u32 inp off in
  let '(envelope, off) := read_blob inp off MAX_ENVELOPE_BYTES in
  let? mailbox := mailbox in
  let? token := token in
  let? ttl := ttl in
  let? envelope := envelope in
  if negb (at_end inp off) then None else
  Some (mkDeposit mailbox token envelope ttl).

(** src/protocol/relay_protocol.h 66-73 StoredEnvelope *)
Record StoredEnvelope := mkStoredEnvelope {
  StoredEnvelope_id : bytes;
  StoredEnvelope_deposited_at : Z;
  StoredEnvelope_token_hash : bytes;
  StoredEnvelope_envelope : bytes;
}.

(** src/protocol/relay_protocol.cpp 72-79 encode *)
Definition encode_StoredEnvelope (m : StoredEnvelope) : bytes :=
  let b := write_blob [] m.(StoredEnvelope_id) in
  let b := write_u64 b m.(StoredEnvelope_deposited_at) in
  let b := write_blob b m.(StoredEnvelope_token_hash) in
  write_blob b m.(StoredEnvelope_envelope).

(** src/protocol/relay_protocol.cpp 338-351 decode_stored_envelope *)
Definition decode_stored_envelope (inp : bytes) : option StoredEnvelope :=
  let '(id, off) := fixed_blob inp 0 ENVELOPE_ID_BYTES in
  let '(deposited, off) := read_u64 inp off in
  let '(token_hash, off) := fixed_blob inp off HASH_BYTES in
  let '(envelope, off) := read_blob inp off MAX_ENVELOPE_BYTES in
  let? id := id in
  let? deposited := deposited in
  let? token_hash := token_hash in
  let? envelope := envelope in
  if negb (at_end inp off) then None else
  Some (mkStoredEnvelope id deposited token_hash envelope).

(** src/protocol/relay_protocol.h 79-81 HashOp *)
Record HashOp := mkHashOp {
  HashOp_token_hash : bytes;
}.

(** src/protocol/relay_protocol.cpp 263-267 encode *)
Definition encode_HashOp (m : HashOp) : bytes :=
  write_blob [] m.(HashOp_token_hash).

(** src/protocol/relay_protocol.cpp 629-634 decode_hash_op *)
Definition decode_hash_op (inp : bytes) : option HashOp :=
  let '(hash, off) := fixed_blob inp 0 HASH_BYTES in
  let? hash := hash in
  if negb (at_end inp off) then None else
  Some (mkHashOp hash).

(** src/protocol/relay_protocol.h 119-124 ArchiveJoin *)
Record ArchiveJoin := mkArchiveJoin {
  ArchiveJoin_archive_id : bytes;
  ArchiveJoin_join_token : bytes;
  ArchiveJoin_public_key : bytes;
  ArchiveJoin_signature : bytes;
}.

(** src/protocol/relay_protocol.cpp 112-119 encode *)
Definition encode_ArchiveJoin (m : ArchiveJoin) : bytes :=
  let b := write_blob [] m.(ArchiveJoin_archive_id) in
  let b := write_blob b m.(ArchiveJoin_join_token) in
  let b := write_blob b m.(ArchiveJoin_public_key) in
  write_blob b m.(ArchiveJoin_signature).

(** src/protocol/relay_protocol.cpp 409-417 decode_archive_join *)
Definition decode_archive_join (inp : bytes) : option ArchiveJoin :=
  let '(id, off) := fixed_blob inp 0 ARCHIVE_ID_BYTES in
  let '(token, off) := fixed_blob inp off JOIN_TOKEN_BYTES in
  let '(key, off) := read_blob inp off MAX_KEY_BLOB in
  let '(sig, off) := read_blob inp off MAX_KEY_BLOB in
  let? id := id in
  let? token := token in
  let? key := key in
  let? sig := sig in
  if negb (at_end inp off) then None else
  Some (mkArchiveJoin id token key sig).

(** src/protocol/relay_protocol.h 125-129 ArchiveAuth *)
Record ArchiveAuth := mkArchiveAuth {
  ArchiveAuth_archive_id : bytes;
  ArchiveAuth_key_hash : bytes;
  ArchiveAuth_signature : bytes;
}.

(** src/protocol/relay_protocol.cpp 120-126 encode *)
Definition encode_ArchiveAuth (m : ArchiveAuth) : bytes :=
  let b := write_blob [] m.(ArchiveAuth_archive_id) in
  let b := write_blob b m.(ArchiveAuth_key_hash) in
  write_blob b m.(ArchiveAuth_signature).

(** src/protocol/relay_protocol.cpp 418-425 decode_archive_auth *)
Definition decode_archive_auth (inp : bytes) : option ArchiveAuth :=
  let '(id, off) := fixed_blob inp 0 ARCHIVE_ID_BYTES in
  let '(key_hash, off) := fixed_blob inp off HASH_BYTES in
  let '(sig, off) := read_blob inp off MAX_KEY_BLOB in
  let? id := id in
  let? key_hash := key_hash in
  let? sig := sig in
  if negb (at_end inp off) then None else
  Some (mkArchiveAuth id key_hash sig).

(** src/protocol/relay_protocol.h 130-134 ArchiveAppend *)
Record ArchiveAppend := mkArchiveAppend {
  ArchiveAppend_expected_number : Z;
  ArchiveAppend_expected_hash : bytes;
  ArchiveAppend_ciphertext : bytes;
}.

(** src/protocol/relay_protocol.cpp 127-133 encode *)
Definition encode_ArchiveAppend (m : ArchiveAppend) : bytes :=
  let b := write_u64 [] m.(ArchiveAppend_expected_number) in
  let b := write_blob b m.(ArchiveAppend_expected_hash) in
  write_blob b m.(ArchiveAppend_ciphertext).

(** src/protocol/relay_protocol.cpp 426-433 decode_archive_append *)
Definition decode_archive_append (inp : bytes) : option ArchiveAppend :=
  let '(number, off) := read_u64 inp 0 in
  let '(hash, off) := fixed_blob inp off HASH_BYTES in
  let '(ct, off) := read_blob inp off MAX_ARCHIVE_ENTRY_BYTES in
  let? number := number in
  let? hash := hash in
  let? ct := ct in
  if is_empty ct then None else
  if negb (at_end inp off) then None else
  Some (mkArchiveAppend number hash ct).

(** src/protocol/relay_protocol.h 135-138 ArchiveHead *)
Record ArchiveHead := mkArchiveHead {
  ArchiveHead_number : Z;
  ArchiveHead_hash : bytes;
}.

(** src/protocol/relay_protocol.cpp 134-139 encode *)
Definition encode_ArchiveHead (m : ArchiveHead) : bytes :=
  let b := write_u64 [] m.(ArchiveHead_number) in
  write_blob b m.(ArchiveHead_hash).

(** src/protocol/relay_protocol.cpp 434-440 decode_archive_head *)
Definition decode_archive_head (inp : bytes) : option ArchiveHead :=
  let '(number, off) := read_u64 inp 0 in
  let '(hash, off) := fixed_blob inp off HASH_BYTES in
  let? number := number in
  let? hash := hash in
  if negb (at_end inp off) then None else
  Some (mkArchiveHead number hash).

(** src/protocol/relay_protocol.h 139-142 ArchiveFetch *)
Record ArchiveFetch := mkArchiveFetch {
  ArchiveFetch_from_number : Z;
  ArchiveFetch_limit : Z;
}.

(** src/protocol/relay_protocol.cpp 140-145 encode *)
Definition encode_ArchiveFetch (m : ArchiveFetch) : bytes :=
  let b := write_u64 [] m.(ArchiveFetch_from_number) in
  write_u32 b m.(ArchiveFetch_limit).

(** src/protocol/relay_protocol.cpp 441-447 decode_archive_fetch *)
Definition decode_archive_fetch (inp : bytes) : option ArchiveFetch :=
  let '(from, off) := read_u64 inp 0 in
  let '(limit, off) := read_u32 inp off in
  let? from := from in
  let? limit := limit in
  if (from <? 1) || (limit <? 1) || (MAX_FETCH_ENTRIES <? limit) then None else
  if negb (at_end inp off) then None else
  Some (mkArchiveFetch from limit).

(** src/protocol/relay_protocol.h 143-148 ArchiveEntry *)
Record ArchiveEntry := mkArchiveEntry {
  ArchiveEntry_number : Z;
  ArchiveEntry_hash : bytes;
  ArchiveEntry_ciphertext : bytes;
  ArchiveEntry_tombstone : bool;
}.

(** src/protocol/relay_protocol.cpp 146-153 encode *)
Definition encode_ArchiveEntry (m : ArchiveEntry) : bytes :=
  let b := write_u64 [] m.(ArchiveEntry_number) in
  let b := write_blob b m.(ArchiveEntry_hash) in
  let b := write_blob b m.(ArchiveEntry_ciphertext) in
  write_u32 b (if m.(ArchiveEntry_tombstone) then 1 else 0).

(** src/protocol/relay_protocol.cpp 448-457 decode_archive_entry *)
Definition decode_archive_entry (inp : bytes) : option ArchiveEntry :=
  let '(number, off) := read_u64 inp 0 in
  let '(hash, off) := fixed_blob inp off HASH_BYTES in
  let '(ct, off) := read_blob inp off MAX_ARCHIVE_ENTRY_BYTES in
  let '(tombstone, off) := read_u32 inp off in
  let? number := number in
  let? hash := hash in
  let? ct := ct in
  let? tombstone := tombstone in
  if 1 <? tombstone then None else
  if negb (Bool.eqb (is_empty ct) (tombstone =? 1)) then None else
  if negb (at_end inp off) then None else
  Some (mkArchiveEntry number hash ct (tombstone =? 1)).

(** src/protocol/relay_protocol.h 260-263 PrekeyTake *)
Record PrekeyTake := mkPrekeyTake {
  PrekeyTake_mailbox_id : bytes;
  PrekeyTake_send_token : bytes;
}.

(** src/protocol/relay_protocol.cpp 191-196 encode *)
Definition encode_PrekeyTake (m : PrekeyTake) : bytes :=
  let b := write_blob [] m.(PrekeyTake_mailbox_id) in
  write_blob b m.(PrekeyTake_send_token).

(** src/protocol/relay_protocol.cpp 529-535 decode_prekey_take *)
Definition decode_prekey_take (inp : bytes) : option PrekeyTake :=
  let '(mailbox, off) := fixed_blob inp 0 MAILBOX_ID_BYTES in
  let '(token, off) := fixed_blob inp off SEND_TOKEN_BYTES in
  let? mailbox := mailbox in
  let? token := token in
  if negb (at_end inp off) then None else
  Some (mkPrekeyTake mailbox token).

(** src/protocol/relay_protocol.h 264-267 PrekeyData *)
Record PrekeyData := mkPrekeyData {
  PrekeyData_last_resort : bool;
  PrekeyData_blob : bytes;
}.

(** src/protocol/relay_protocol.cpp 197-202 encode *)
Definition encode_PrekeyData (m : PrekeyData) : bytes :=
  let b := write_u32 [] (if m.(PrekeyData_last_resort) then 1 else 0) in
  write_blob b m.(PrekeyData_blob).

(** src/protocol/relay_protocol.cpp 536-542 decode_prekey_data *)
Definition decode_prekey_data (inp : bytes) : option PrekeyData :=
  let '(flag, off) := read_u32 inp 0 in
  let '(key_blob, off) := read_blob inp off MAX_PREKEY_BYTES in
  let? flag := flag in
  let? key_blob := key_blob in
  if 1 <? flag then None else
  if is_empty key_blob then None else
  if negb (at_end inp off) then None else
  Some (mkPrekeyData (flag =? 1) key_blob).

(** src/protocol/relay_protocol.h 268-272 PrekeyStatus *)
Record PrekeyStatus := mkPrekeyStatus {
  PrekeyStatus_one_time : Z;
  PrekeyStatus_last_resort : bool;
  PrekeyStatus_generation : bytes;
}.

(** src/protocol/relay_protocol.cpp 203-209 encode *)
Definition encode_PrekeyStatus (m : PrekeyStatus) : bytes :=
  let b := write_u32 [] m.(PrekeyStatus_one_time) in
  let b := write_u32 b (if m.(PrekeyStatus_last_resort) then 1 else 0) in
  write_blob b m.(PrekeyStatus_generation).

(** src/protocol/relay_protocol.cpp 543-550 decode_prekey_status *)
Definition decode_prekey_status (inp : bytes) : option PrekeyStatus :=
  let '(one_time, off) := read_u32 inp 0 in
  let '(flag, off) := read_u32 inp off in
  let '(generation, off) := read_blob inp off PREKEY_GENERATION_BYTES in
  let? one_time := one_time in
  let? flag := flag in
  let? generation := generation in
  if 1 <? flag then None else
  if negb (is_empty generation) && negb (size generation =? PREKEY_GENERATION_BYTES) then None else
  if negb (at_end inp off) then None else
  Some (mkPrekeyStatus one_time (flag =? 1) generation).

(** src/protocol/relay_protocol.h 208-211 FileChunk *)
Record RelayFileChunk := mkRelayFileChunk {
  RelayFileChunk_index : Z;
  RelayFileChunk_data : bytes;
}.

(** src/protocol/relay_protocol.cpp 222-227 encode *)
Definition encode_RelayFileChunk (m : RelayFileChunk) : bytes :=
  let b := write_u32 [] m.(RelayFileChunk_index) in
  write_blob b m.(RelayFileChunk_data).

(** src/protocol/relay_protocol.cpp 581-587 decode_file_chunk *)
Definition decode_file_chunk (inp : bytes) : option RelayFileChunk :=
  let '(index, off) := read_u32 inp 0 in
  let '(data, off) := read_blob inp off MAX_FILE_CHUNK_BYTES in
  let? index := index in
  let? data := data in
  if is_empty data then None else
  if negb (at_end inp off) then None else
  Some (mkRelayFileChunk index data).

(** src/protocol/relay_protocol.h 212-216 FileDownload *)
Record FileDownload := mkFileDownload {
  FileDownload_file_id : bytes;
  FileDownload_token : bytes;
  FileDownload_from_chunk : Z;
}.

(** src/protocol/relay_protocol.cpp 228-234 encode *)
Definition encode_FileDownload (m : FileDownload) : bytes :=
  let b := write_blob [] m.(FileDownload_file_id) in
  let b := write_blob b m.(FileDownload_token) in
  write_u32 b m.(FileDownload_from_chunk).

(** src/protocol/relay_protocol.cpp 588-595 decode_file_download *)
Definition decode_file_download (inp : bytes) : option FileDownload :=
  let '(id, off) := fixed_blob inp 0 FILE_ID_BYTES in
  let '(token, off) := fixed_blob inp off FILE_TOKEN_BYTES in
  let '(from, off) := read_u32 inp off in
  let? id := id in
  let? token := token in
  let? from := from in
  if negb (at_end inp off) then None else
  Some (mkFileDownload id token from).

(** src/protocol/relay_protocol.h 217-222 FileInfo *)
Record FileInfo := mkFileInfo {
  FileInfo_total_size : Z;
  FileInfo_chunk_size : Z;
  FileInfo_chunk_count : Z;
  FileInfo_expires_at : Z;
}.

(** src/protocol/relay_protocol.cpp 235-242 encode *)
Definition encode_FileInfo (m : FileInfo) : bytes :=
  let b := write_u64 [] m.(FileInfo_total_size) in
  let b := write_u32 b m.(FileInfo_chunk_size) in
  let b := write_u32 b m.(FileInfo_chunk_count) in
  write_u64 b m.(FileInfo_expires_at).

(** src/protocol/relay_protocol.cpp 596-605 decode_file_info *)
Definition decode_file_info (inp : bytes) : option FileInfo :=
  let '(total, off) := read_u64 inp 0 in
  let '(chunk_size, off) := read_u32 inp off in
  let '(count, off) := read_u32 inp off in
  let '(expires, off) := read_u64 inp off in
  let? total := total in
  let? chunk_size := chunk_size in
  let? count := count in
  let? expires := expires in
  if negb (at_end inp off) then None else
  if (total <? 1) || (MAX_FILE_BYTES <? total) || (chunk_size <? 1) || (MAX_FILE_CHUNK_BYTES <? chunk_size) then None else
  if negb (count =? u64 (u64 (total + chunk_size) - 1) / chunk_size) then None else
  Some (mkFileInfo total chunk_size count expires).

(** src/protocol/relay_protocol.h 223-226 FileRedeem *)
Record FileRedeem := mkFileRedeem {
  FileRedeem_file_id : bytes;
  FileRedeem_token : bytes;
}.

(** src/protocol/relay_protocol.cpp 243-248 encode *)
Definition encode_FileRedeem (m : FileRedeem) : bytes :=
  let b := write_blob [] m.(FileRedeem_file_id) in
  write_blob b m.(FileRedeem_token).

(** src/protocol/relay_protocol.cpp 606-612 decode_file_redeem *)
Definition decode_file_redeem (inp : bytes) : option FileRedeem :=
  let '(id, off) := fixed_blob inp 0 FILE_ID_BYTES in
  let '(token, off) := fixed_blob inp off FILE_TOKEN_BYTES in
  let? id := id in
  let? token := token in
  if negb (at_end inp off) then None else
  Some (mkFileRedeem id token).

(** src/protocol/relay_protocol.h 227-229 FileRef *)
Record FileRef := mkFileRef {
  FileRef_file_id : bytes;
}.

(** src/protocol/relay_protocol.cpp 249-253 encode *)
Definition encode_FileRef (m : FileRef) : bytes :=
  write_blob [] m.(FileRef_file_id).

(** src/protocol/relay_protocol.cpp 613-618 decode_file_ref *)
Definition decode_file_ref (inp : bytes) : option FileRef :=
  let '(id, off) := fixed_blob inp 0 FILE_ID_BYTES in
  let? id := id in
  if negb (at_end inp off) then None else
  Some (mkFileRef id).

(** src/protocol/relay_protocol.h 230-235 FileStatus *)
Record FileStatus := mkFileStatus {
  FileStatus_tokens_total : Z;
  FileStatus_tokens_redeemed : Z;
  FileStatus_expires_at : Z;
  FileStatus_ready : bool;
}.

(** src/protocol/relay_protocol.cpp 254-261 encode *)
Definition encode_FileStatus (m : FileStatus) : bytes :=
  let b := write_u32 [] m.(FileStatus_tokens_total) in
  let b := write_u32 b m.(FileStatus_tokens_redeemed) in
  let b := write_u64 b m.(FileStatus_expires_at) in
  write_u32 b (if m.(FileStatus_ready) then 1 else 0).

(** src/protocol/relay_protocol.cpp 619-627 decode_file_status *)
Definition decode_file_status (inp : bytes) : option FileStatus :=
  let '(total, off) := read_u32 inp 0 in
  let '(redeemed, off) := read_u32 inp off in
  let '(expires, off) := read_u64 inp off in
  let '(ready, off) := read_u32 inp off in
  let? total := total in
  let? redeemed := redeemed in
  let? expires := expires in
  let? ready := ready in
  if 1 <? ready then None else
  if total <? redeemed then None else
  if MAX_FILE_TOKENS <? total then None else
  if negb (at_end inp off) then None else
  Some (mkFileStatus total redeemed expires (ready =? 1)).

(** src/protocol/relay_protocol.h 75-77 IdList *)
Record IdList := mkIdList { IdList_ids : list bytes }.

(** src/protocol/relay_protocol.cpp 81-86 encode *)
Definition encode_IdList (m : IdList) : bytes :=
  let b := write_u32 [] (u32 (size m.(IdList_ids))) in
  foldl write_blob b m.(IdList_ids).

(** The body of the loops that read fixed-size blobs one after another. *)
Definition read_fixed (n : Z) (inp : bytes) (off : Z) (acc : list bytes) : option bytes * Z :=
  fixed_blob inp off n.

(** src/protocol/relay_protocol.cpp 353-365 decode_id_list *)
Definition decode_id_list (inp : bytes) : option IdList :=
  let '(count, off) := read_u32 inp 0 in
  let? count := count in
  if MAX_ACK_IDS <? count then None else
  let '(ids, off) := read_loop (read_fixed ENVELOPE_ID_BYTES) (Z.to_nat count) inp off [] in
  let? ids := ids in
  if negb (at_end inp off) then None else
  Some (mkIdList ids).

(** src/protocol/relay_protocol.h 88-91 InviteStatus::Unused *)
Record Unused := mkUnused { Unused_hash : bytes; Unused_expires_at : Z }.

(** src/protocol/relay_protocol.h 92-95 InviteStatus::Joined *)
Record Joined := mkJoined { Joined_mailbox_id : bytes; Joined_joined_at : Z }.

(** src/protocol/relay_protocol.h 85-98 InviteStatus *)
Record InviteStatus := mkInviteStatus {
  InviteStatus_max_unused : Z;
  InviteStatus_max_total : Z;
  InviteStatus_unused : list Unused;
  InviteStatus_joined : list Joined;
}.

(** src/protocol/relay_protocol.cpp 88-103 encode *)
Definition encode_InviteStatus (m : InviteStatus) : bytes :=
  let b := write_u32 [] m.(InviteStatus_max_unused) in
  let b := write_u32 b m.(InviteStatus_max_total) in
  let b := write_u32 b (u32 (size m.(InviteStatus_unused))) in
  let b := foldl (fun b u => write_u64 (write_blob b u.(Unused_hash)) u.(Unused_expires_at)) b
             m.(InviteStatus_unused) in
  let b := write_u32 b (u32 (size m.(InviteStatus_joined))) in
  foldl (fun b j => write_u64 (write_blob b j.(Joined_mailbox_id)) j.(Joined_joined_at)) b
    m.(InviteStatus_joined).

(** src/protocol/relay_protocol.cpp 376-381 decode_invite_status *)
Definition read_unused (inp : bytes) (off : Z) (acc : list Unused) : option Unused * Z :=
  let '(hash, off) := fixed_blob inp off HASH_BYTES in
  let '(expires, off) := read_u64 inp off in
  match hash, expires with
  | Some hash, Some expires => (Some (mkUnused hash expires), off)
  | _, _ => (None, off)
  end.

(** src/protocol/relay_protocol.cpp 384-389 decode_invite_status *)
Definition read_joined (inp : bytes) (off : Z) (acc : list Joined) : option Joined * Z :=
  let '(id, off) := fixed_blob inp off MAILBOX_ID_BYTES in
  let '(joined_at, off) := read_u64 inp off in
  match id, joined_at with
  | Some id, Some joined_at => (Some (mkJoined id joined_at), off)
  | _, _ => (None, off)
  end.

(** src/protocol/relay_protocol.cpp 367-392 decode_invite_status *)
Definition decode_invite_status (inp : bytes) : option InviteStatus :=
  let '(max_unused, off) := read_u32 inp 0 in
  let '(max_total, off) := read_u32 inp off in
  let '(unused, off) := read_u32 inp off in
  let? max_unused := max_unused in
  let? max_total := max_total in
  let? unused := unused in
  if MAX_INVITE_STATUS_ENTRIES <? unused then None else
  let '(us, off) := read_loop read_unused (Z.to_nat unused) inp off [] in
  let? us := us in
  let '(joined, off) := read_u32 inp off in
  let? joined := joined in
  if MAX_INVITE_STATUS_ENTRIES <? joined then None else
  let '(js, off) := read_loop read_joined (Z.to_nat joined) inp off [] in
  let? js := js in
  if negb (at_end inp off) then None else
  Some (mkInviteStatus max_unused max_total us js).

(** src/protocol/relay_protocol.h 115-118 ArchiveCreate *)
Record ArchiveCreate := mkArchiveCreate {
  ArchiveCreate_archive_id : bytes;
  ArchiveCreate_join_token_hashes : list bytes;
}.

(** src/protocol/relay_protocol.cpp 105-111 encode *)
Definition encode_ArchiveCreate (m : ArchiveCreate) : bytes :=
  let b := write_blob [] m.(ArchiveCreate_archive_id) in
  let b := write_u32 b (u32 (size m.(ArchiveCreate_join_token_hashes))) in
  foldl write_blob b m.(ArchiveCreate_join_token_hashes).

(** src/protocol/relay_protocol.cpp 394-408 decode_archive_create *)
Definition decode_archive_create (inp : bytes) : option ArchiveCreate :=
  let '(id, off) := fixed_blob inp 0 ARCHIVE_ID_BYTES in
  let '(count, off) := read_u32 inp off in
  let? id := id in
  let? count := count in
  if (count <? 1) || (MAX_ARCHIVE_MEMBERS <? count) then None else
  let '(hashes, off) := read_loop (read_fixed HASH_BYTES) (Z.to_nat count) inp off [] in
  let? hashes := hashes in
  if negb (at_end inp off) then None else
  Some (mkArchiveCreate id hashes).

(** src/protocol/relay_protocol.h 157-160 ArchiveSignature *)
Record ArchiveSignature := mkArchiveSignature {
  ArchiveSignature_key_hash : bytes;
  ArchiveSignature_signature : bytes;
}.

(** src/protocol/relay_protocol.h 161-167 ArchiveDelete *)
Record ArchiveDelete := mkArchiveDelete {
  ArchiveDelete_scope : Z;
  ArchiveDelete_op_id : bytes;
  ArchiveDelete_expires_at : Z;
  ArchiveDelete_entry_hashes : list bytes;
  ArchiveDelete_signatures : list ArchiveSignature;
}.

(** src/protocol/relay_protocol.cpp 155-168 encode *)
Definition encode_ArchiveDelete (m : ArchiveDelete) : bytes :=
  let b := write_u32 [] m.(ArchiveDelete_scope) in
  let b := write_blob b m.(ArchiveDelete_op_id) in
  let b := write_u64 b m.(ArchiveDelete_expires_at) in
  let b := write_u32 b (u32 (size m.(ArchiveDelete_entry_hashes))) in
  let b := foldl write_blob b m.(ArchiveDelete_entry_hashes) in
  let b := write_u32 b (u32 (size m.(ArchiveDelete_signatures))) in
  foldl (fun b s => write_blob (write_blob b s.(ArchiveSignature_key_hash)) s.(ArchiveSignature_signature)) b
    m.(ArchiveDelete_signatures).

(** The body of the loops that read hashes which must all differ
    ([decode_archive_delete] and [decode_file_begin]). *)
Definition read_distinct_hash (inp : bytes) (off : Z) (acc : list bytes) : option bytes * Z :=
  let '(h, off) := fixed_blob inp off HASH_BYTES in
  match h with
  | Some h => if bool_decide (h ∈ acc) then (None, off) else (Some h, off)
  | None => (None, off)
  end.

(** src/protocol/relay_protocol.cpp 479-485 decode_archive_delete *)
Definition read_signature (inp : bytes) (off : Z) (acc : list ArchiveSignature) : option ArchiveSignature * Z :=
  let '(kh, off) := fixed_blob inp off HASH_BYTES in
  let '(sg, off) := read_blob inp off MAX_KEY_BLOB in
  match kh, sg with
  | Some kh, Some sg =>
      if is_empty sg then (None, off)
      else if bool_decide (kh ∈ map ArchiveSignature_key_hash acc) then (None, off)
      else (Some (mkArchiveSignature kh sg), off)
  | _, _ => (None, off)
  end.

(** src/protocol/relay_protocol.cpp 459-488 decode_archive_delete *)
Definition decode_archive_delete (inp : bytes) : option ArchiveDelete :=
  let '(scope, off) := read_u32 inp 0 in
  let '(op, off) := fixed_blob inp off 16 in
  let '(expires, off) := read_u64 inp off in
  let '(hashes, off) := read_u32 inp off in
  let? scope := scope in
  let? op := op in
  let? expires := expires in
  let? hashes := hashes in
  if negb (scope =? DELETE_SCOPE_CHAT) && negb (scope =? DELETE_SCOPE_ENTRIES) then None else
  if (if scope =? DELETE_SCOPE_CHAT then negb (hashes =? 0)
      else (hashes <? 1) || (MAX_DELETE_ENTRIES <? hashes)) then None else
  let '(entry_hashes, off) := read_loop read_distinct_hash (Z.to_nat hashes) inp off [] in
  let? entry_hashes := entry_hashes in
  let '(sigs, off) := read_u32 inp off in
  let? sigs := sigs in
  if (sigs <? 1) || (MAX_ARCHIVE_MEMBERS <? sigs) then None else
  let '(signatures, off) := read_loop read_signature (Z.to_nat sigs) inp off [] in
  let? signatures := signatures in
  if negb (at_end inp off) then None else
  Some (mkArchiveDelete scope op expires entry_hashes signatures).

(** src/protocol/relay_protocol.h 178-183 KeyringChunk *)
Record KeyringChunk := mkKeyringChunk {
  KeyringChunk_total_size : Z;
  KeyringChunk_index : Z;
  KeyringChunk_count : Z;
  KeyringChunk_data : bytes;
}.

(** src/protocol/relay_protocol.cpp 170-177 encode *)
Definition encode_KeyringChunk (m : KeyringChunk) : bytes :=
  let b := write_u32 [] m.(KeyringChunk_total_size) in
  let b := write_u32 b m.(KeyringChunk_index) in
  let b := write_u32 b m.(KeyringChunk_count) in
  write_blob b m.(KeyringChunk_data).

(** The checks of [decode_keyring_chunk]: the numbers of a chunk fit together.
    src/protocol/relay_protocol.cpp 498-504 decode_keyring_chunk *)
Definition keyring_chunk_ok (c : KeyringChunk) : bool :=
  if c.(KeyringChunk_total_size) =? 0 then
    (c.(KeyringChunk_index) =? 0) && (c.(KeyringChunk_count) =? 0) && is_empty c.(KeyringChunk_data)
  else if MAX_KEYRING_BYTES <? c.(KeyringChunk_total_size) then false
  else
    let expected_count :=
      u32 (u64 (u64 (c.(KeyringChunk_total_size) + KEYRING_CHUNK_BYTES) - 1) / KEYRING_CHUNK_BYTES) in
    if negb (c.(KeyringChunk_count) =? expected_count)
       || (c.(KeyringChunk_count) <=? c.(KeyringChunk_index)) then false
    else
      let expected_size :=
        if u32 (c.(KeyringChunk_index) + 1) <? c.(KeyringChunk_count) then KEYRING_CHUNK_BYTES
        else u64 (c.(KeyringChunk_total_size) - u64 (KEYRING_CHUNK_BYTES * u32 (c.(KeyringChunk_count) - 1))) in
      size c.(KeyringChunk_data) =? expected_size.

(** src/protocol/relay_protocol.cpp 490-505 decode_keyring_chunk *)
Definition decode_keyring_chunk (inp : bytes) : option KeyringChunk :=
  let '(total, off) := read_u32 inp 0 in
  let '(index, off) := read_u32 inp off in
  let '(count, off) := read_u32 inp off in
  let '(data, off) := read_blob inp off KEYRING_CHUNK_BYTES in
  let? total := total in
  let? index := index in
  let? count := count in
  let? data := data in
  if negb (at_end inp off) then None else
  let c := mkKeyringChunk total index count data in
  if keyring_chunk_ok c then Some c else None.

(** src/protocol/relay_protocol.h 250-254 PrekeyEntry *)
Record PrekeyEntry := mkPrekeyEntry {
  PrekeyEntry_id : bytes;
  PrekeyEntry_last_resort : bool;
  PrekeyEntry_blob : bytes;
}.

(** src/protocol/relay_protocol.h 255-259 PrekeyPut *)
Record PrekeyPut := mkPrekeyPut {
  PrekeyPut_replace : bool;
  PrekeyPut_generation : bytes;
  PrekeyPut_prekeys : list PrekeyEntry;
}.

(** src/protocol/relay_protocol.cpp 179-190 encode *)
Definition encode_PrekeyPut (m : PrekeyPut) : bytes :=
  let b := write_u32 [] (if m.(PrekeyPut_replace) then 1 else 0) in
  let b := write_blob b m.(PrekeyPut_generation) in
  let b := write_u32 b (u32 (size m.(PrekeyPut_prekeys))) in
  foldl (fun b p =>
    write_blob (write_u32 (write_blob b p.(PrekeyEntry_id)) (if p.(PrekeyEntry_last_resort) then 1 else 0))
      p.(PrekeyEntry_blob)) b m.(PrekeyPut_prekeys).

(** How many of the prekeys read so far are last-resort ones: the counter
    [last_resorts] of [decode_prekey_put]. *)
Definition last_resorts (l : list PrekeyEntry) : Z := size (filter (fun p => PrekeyEntry_last_resort p = true) l).

(** src/protocol/relay_protocol.cpp 517-525 decode_prekey_put *)
Definition read_prekey (inp : bytes) (off : Z) (acc : list PrekeyEntry) : option PrekeyEntry * Z :=
  let '(id, off) := fixed_blob inp off PREKEY_ID_BYTES in
  let '(flag, off) := read_u32 inp off in
  let '(key_blob, off) := read_blob inp off MAX_PREKEY_BYTES in
  match id, flag, key_blob with
  | Some id, Some flag, Some key_blob =>
      if (1 <? flag) || is_empty key_blob then (None, off)
      else if bool_decide (id ∈ map PrekeyEntry_id acc) then (None, off)
      else if (flag =? 1) && (1 <? last_resorts acc + 1) then (None, off)
      else (Some (mkPrekeyEntry id (flag =? 1) key_blob), off)
  | _, _, _ => (None, off)
  end.

(** src/protocol/relay_protocol.cpp 507-528 decode_prekey_put *)
Definition decode_prekey_put (inp : bytes) : option PrekeyPut :=
  let '(replace, off) := read_u32 inp 0 in
  let '(generation, off) := fixed_blob inp off PREKEY_GENERATION_BYTES in
  let '(count, off) := read_u32 inp off in
  let? replace := replace in
  if 1 <? replace then None else
  let? generation := generation in
  let? count := count in
  if MAX_PREKEYS_PER_PUT <? count then None else
  let '(prekeys, off) := read_loop read_prekey (Z.to_nat count) inp off [] in
  let? prekeys := prekeys in
  if negb (at_end inp off) then None else
  Some (mkPrekeyPut (replace =? 1) generation prekeys).

(** src/protocol/relay_protocol.h 200-207 FileBegin *)
Record FileBegin := mkFileBegin {
  FileBegin_file_id : bytes;
  FileBegin_total_size : Z;
  FileBegin_chunk_size : Z;
  FileBegin_chunk_count : Z;
  FileBegin_expires_at : Z;
  FileBegin_token_hashes : list bytes;
}.

(** src/protocol/relay_protocol.cpp 211-221 encode *)
Definition encode_FileBegin (m : FileBegin) : bytes :=
  let b := write_blob [] m.(FileBegin_file_id) in
  let b := write_u64 b m.(FileBegin_total_size) in
  let b := write_u32 b m.(FileBegin_chunk_size) in
  let b := write_u32 b m.(FileBegin_chunk_count) in
  let b := write_u64 b m.(FileBegin_expires_at) in
  let b := write_u32 b (u32 (size m.(FileBegin_token_hashes))) in
  foldl write_blob b m.(FileBegin_token_hashes).

(** src/protocol/relay_protocol.cpp 552-580 decode_file_begin *)
Definition decode_file_begin (inp : bytes) : option FileBegin :=
  let '(id, off) := fixed_blob inp 0 FILE_ID_BYTES in
  let '(total, off) := read_u64 inp off in
  let '(chunk_size, off) := read_u32 inp off in
  let '(count, off) := read_u32 inp off in
  let '(expires, off) := read_u64 inp off in
  let '(tokens, off) := read_u32 inp off in
  let? id := id in
  let? total := total in
  let? chunk_size := chunk_size in
  let? count := count in
  let? expires := expires in
  let? tokens := tokens in
  if (total <? 1) || (MAX_FILE_BYTES <? total) || (chunk_size <? 1) || (MAX_FILE_CHUNK_BYTES <? chunk_size)
  then None else
  let expected_count := u64 (u64 (total + chunk_size) - 1) / chunk_size in
  if negb (count =? expected_count) then None else
  if (chunk_size <? MIN_FILE_CHUNK_BYTES) && negb (count =? 1) then None else
  if (tokens <? 1) || (MAX_FILE_TOKENS <? tokens) then None else
  let '(hashes, off) := read_loop read_distinct_hash (Z.to_nat tokens) inp off [] in
  let? hashes := hashes in
  if negb (at_end inp off) then None else
  Some (mkFileBegin id total chunk_size count expires hashes).

(** ** What gets signed and hashed *)

(** src/protocol/relay_protocol.cpp 638-649 hello_signing_input *)
Definition hello_signing_input (client_nonce relay_id : bytes) (version : Z) (auth_challenge : bytes) : bytes :=
  let b := write_string [] HELLO_LABEL in
  let b := write_blob b relay_id in
  let b := write_u32 b version in
  let b := write_blob b client_nonce in
  write_blob b auth_challenge.

(** src/protocol/relay_protocol.cpp 651-662 register_signing_input *)
Definition register_signing_input (relay_id mailbox_id access_public_key send_token_hash : bytes) : bytes :=
  let b := write_string [] REGISTER_LABEL in
  let b := write_blob b relay_id in
  let b := write_blob b mailbox_id in
  let b := write_blob b access_public_key in
  write_blob b send_token_hash.

(** src/protocol/relay_protocol.cpp 664-673 archive_join_signing_input *)
Definition archive_join_signing_input (relay_id archive_id public_key join_token_hash : bytes) : bytes :=
  let b := write_string [] ARCHIVE_JOIN_LABEL in
  let b := write_blob b relay_id in
  let b := write_blob b archive_id in
  let b := write_blob b public_key in
  write_blob b join_token_hash.

(** src/protocol/relay_protocol.cpp 674-683 archive_auth_signing_input *)
Definition archive_auth_signing_input (auth_challenge relay_id archive_id key_hash : bytes) : bytes :=
  let b := write_string [] ARCHIVE_AUTH_LABEL in
  let b := write_blob b relay_id in
  let b := write_blob b archive_id in
  let b := write_blob b key_hash in
  write_blob b auth_challenge.

(** src/protocol/relay_protocol.cpp 684-697 archive_delete_signing_input *)
Definition archive_delete_signing_input (relay_id archive_id : bytes) (scope : Z) (op_id : bytes)
    (expires_at : Z) (entry_hashes : list bytes) : bytes :=
  let b := write_string [] ARCHIVE_DELETE_LABEL in
  let b := write_blob b relay_id in
  let b := write_blob b archive_id in
  let b := write_u32 b scope in
  let b := write_blob b op_id in
  let b := write_u64 b expires_at in
  let b := write_u32 b (u32 (size entry_hashes)) in
  foldl write_blob b entry_hashes.

(** src/protocol/relay_protocol.cpp 698-703 archive_genesis_input *)
Definition archive_genesis_input (archive_id : bytes) : bytes :=
  let b := write_string [] ARCHIVE_GENESIS_LABEL in
  write_blob b archive_id.

(** src/protocol/relay_protocol.cpp 704-713 archive_entry_hash_input *)
Definition archive_entry_hash_input (archive_id : bytes) (number : Z) (previous_hash ciphertext : bytes) : bytes :=
  let b := write_string [] ARCHIVE_ENTRY_LABEL in
  let b := write_blob b archive_id in
  let b := write_u64 b number in
  let b := write_blob b previous_hash in
  write_blob b ciphertext.

(** src/protocol/relay_protocol.cpp 714-723 auth_signing_input *)
Definition auth_signing_input (auth_challenge relay_id mailbox_id : bytes) : bytes :=
  let b := write_string [] AUTH_LABEL in
  let b := write_blob b relay_id in
  let b := write_blob b mailbox_id in
  write_blob b auth_challenge.
