(* ===== verification/RelayProtocolSpec.v ===== *)
(** * Specification of the relay messages

    For every message of [RelayProtocol] a well-formedness predicate [wf_X], the
    property every value has that the relay or a client can receive, and the
    theorem that [decode_x] accepts exactly the encodings of well-formed
    messages. The interface [Codec] gathers these, so that the components that
    exchange messages are proved against it. The inputs of signatures and hashes
    are shown to determine what they were made from. *)

From Stdlib Require Import ZArith Lia.
From stdpp Require Import base list strings.
From S2P Require Import Prelude Wire RelayProtocol.
#[local] Open Scope Z_scope.

(** ** Reading fixed-size blobs *)

Lemma fixed_blob_at data off rest n b off' :
  at_off data off rest ->
  fixed_blob data off n = (Some b, off') <->
  size b = n /\ in_u32 (size b) /\ off' = off + (4 + size b) /\
  exists rest', rest = blob b ++ rest' /\ at_off data off' rest'.
Proof.
  intros Hat. unfold fixed_blob. split.
  - destruct (read_blob data off n) as [[x|] o] eqn:E; [|done].
    destruct (negb (size x =? n)) eqn:En; [done|]. bool_prop. intros [= -> ->].
    apply (read_blob_at _ _ _ _ _ _ Hat) in E as (_ & ? & ? & ?). by split_and!.
  - intros (Hn & Hu & -> & rest' & -> & Hat').
    rewrite (read_blob_fwd _ _ _ _ n Hat) by (done || lia).
    by rewrite (proj2 (Z.eqb_eq _ _) Hn).
Qed.

Lemma fixed_blob_fwd data off b rest n :
  at_off data off (blob b ++ rest) -> size b = n -> in_u32 (size b) ->
  fixed_blob data off n = (Some b, off + (4 + size b)).
Proof.
  intros Hat Hn Hb. apply (fixed_blob_at _ _ _ _ _ _ Hat). split_and!; [done..|].
  exists rest. split; [done|]. apply at_off_app in Hat. by rewrite size_blob in Hat.
Qed.

(** Take a read at a known offset apart: fixed-size blobs and the other reads. *)
Ltac relay_inv_step :=
  first
  [ match goal with
    | Hat : at_off ?d ?o ?r, H : fixed_blob ?d ?o ?n = (Some ?b, ?o') |- _ =>
        apply (proj1 (fixed_blob_at _ _ _ _ _ _ Hat)) in H; clear Hat;
        destruct H as (? & ? & ? & ? & ? & Hat)
    end
  | read_inv_step ].

Ltac relay_fwd_step :=
  first
  [ match goal with
    | Hat : at_off ?d ?o (blob ?b ++ ?r) |- context [fixed_blob ?d ?o ?n] =>
        rewrite (fixed_blob_fwd _ _ _ _ n Hat);
        [apply (at_off_app _ _ (blob b)) in Hat; rewrite size_blob in Hat| |]
    end
  | read_fwd_step ].

Lemma size_is_u32 {A} (l : list A) n : size l <= n -> n < 2 ^ 32 -> in_u32 (size l).
Proof. unfold in_u32. pose proof (size_nonneg l). lia. Qed.

Lemma flag_of_u32 f : in_u32 f -> f <= 1 -> (if f =? 1 then 1 else 0) = f.
Proof. unfold in_u32. intros. destruct (f =? 1) eqn:E; bool_prop; lia. Qed.

Lemma flag_in_u32 (b : bool) : in_u32 (if b then 1 else 0).
Proof. unfold in_u32. destruct b; lia. Qed.

Lemma flag_eqb (b : bool) : ((if b then 1 else 0) =? 1) = b.
Proof. by destruct b. Qed.

Lemma flag_le (b : bool) : (1 <? (if b then 1 else 0)) = false.
Proof. by destruct b. Qed.

#[global] Hint Resolve flag_in_u32 : wire.

(** A blob that is either absent or of its one size. *)
Lemma empty_or_size b n :
  negb (is_empty b) && negb (size b =? n) = false <-> b = [] \/ size b = n.
Proof.
  rewrite andb_false_iff, !negb_false_iff, is_empty_true, Z.eqb_eq. done.
Qed.

(** Decide the tests of a decoder from the well-formedness in the context. *)
Ltac run_tests :=
  repeat match goal with
  | |- context [if ?c then _ else _] =>
      let E := fresh "E" in
      first
      [ assert (c = false) as E by (first
          [ done | by apply bool_decide_eq_false_2 | by apply empty_or_size | by apply negb_false_iff, Bool.eqb_true_iff
          | rewrite ?orb_false_iff, ?andb_false_iff, ?negb_false_iff, ?Z.ltb_ge, ?Z.leb_gt, ?Z.eqb_eq;
            first [done | lia | split_and!; (done || lia)] ]); rewrite E; clear E
      | assert (c = true) as E by (first
          [ done
          | rewrite ?orb_true_iff, ?andb_true_iff, ?negb_true_iff, ?Z.ltb_lt, ?Z.leb_le, ?Z.eqb_eq; done || lia ]);
        rewrite E; clear E ]
  end.

Ltac codec_side :=
  first
  [ done | assumption | lia | by auto with wire | by apply Bool.eqb_prop | by apply empty_or_size
  | eapply size_is_u32; [(apply Z.eq_le_incl; eassumption) || eassumption | vm_compute; reflexivity]
  | unfold in_u32, in_u64 in *; lia
  | split; [vm_compute; discriminate | vm_compute; reflexivity] ].

(** ** Read loops

    Each loop body reads one element and checks it against those before it;
    [LoopReader] then gives both directions for the whole loop. *)

Ltac open_body H :=
  cbv beta zeta in H;
  match type of H with
  | (match ?r with pair _ _ => _ end) = _ => destruct r as [? ?] eqn:?
  | (match ?o with Some _ => _ | None => _ end) = (Some _, _) => destruct o eqn:?; [|discriminate H]
  | (if ?b then _ else _) = (Some _, _) => destruct b eqn:?; try discriminate H; [idtac]
  | (Some _, _) = (Some _, _) => injection H as
  end.

Ltac body_inv H := repeat (open_body H; bool_prop; subst); subst; repeat (relay_inv_step; subst).

(** Run a loop body on the bytes of the element [x] it should read. *)
Ltac body_fwd Hat Hat' :=
  rewrite <- ?app_assoc in Hat; cbv beta iota zeta;
  repeat (relay_fwd_step; try codec_side; cbv beta iota zeta);
  rewrite ?flag_le, ?flag_eqb; run_tests;
  f_equal; apply (at_off_unique _ _ _ _ Hat Hat').

Lemma Forall_NoDup_snoc {A K} (P : A -> Prop) (key : A -> K) l x :
  (Forall P (l ++ [x]) /\ NoDup (map key (l ++ [x]))) <->
  (Forall P l /\ NoDup (map key l)) /\ P x /\ key x ∉ map key l.
Proof.
  rewrite map_app, Forall_app, Forall_singleton, NoDup_app. simpl. split.
  - intros [[? ?] (? & Hd & _)]. split_and!; [done..|]. intros Hin. apply (Hd _ Hin). left.
  - intros [[? ?] [? Hn]]. split_and!; [done..| |apply NoDup_singleton].
    intros y Hy Hy'. apply list_elem_of_singleton in Hy' as ->. done.
Qed.

Lemma Forall_NoDup_prefix {A K} (P : A -> Prop) (key : A -> K) l k :
  Forall P (l ++ k) /\ NoDup (map key (l ++ k)) -> Forall P l /\ NoDup (map key l).
Proof. rewrite map_app, Forall_app, NoDup_app. intros [[? _] [? _]]. done. Qed.

#[export] Instance read_fixed_loop n `{Hn : !TCEq (n <? 2 ^ 32) true} :
  LoopReader (read_fixed n) (Forall (fun b => size b = n)) blob.
Proof.
  rewrite TCEq_eq in Hn. bool_prop.
  constructor; [constructor|by intros l k [? _]%Forall_app|].
  intros data off rest acc x off' Hacc Hat. unfold read_fixed.
  rewrite (fixed_blob_at _ _ _ _ _ _ Hat), Forall_app, Forall_singleton. split.
  - intros (<- & ? & -> & H). done.
  - intros [[_ <-] (rest' & -> & Hat')]. split_and!; [done| | |by exists rest'].
    + unfold in_u32. pose proof (size_nonneg x). lia.
    + apply at_off_app in Hat. rewrite size_blob in Hat. apply (at_off_unique _ _ _ _ Hat' Hat).
Qed.

Definition distinct_hashes (l : list bytes) : Prop :=
  Forall (fun h => size h = HASH_BYTES) l /\ NoDup l.

Lemma distinct_hashes_snoc l x :
  distinct_hashes (l ++ [x]) <-> distinct_hashes l /\ size x = HASH_BYTES /\ x ∉ l.
Proof.
  pose proof (Forall_NoDup_snoc (fun h => size h = HASH_BYTES) (fun h : bytes => h) l x) as H.
  by rewrite !map_id in H.
Qed.

#[export] Instance read_distinct_hash_loop : LoopReader read_distinct_hash distinct_hashes blob.
Proof.
  constructor; [split; constructor| |].
  - intros l k [[? _]%Forall_app [? _]%NoDup_app]. done.
  - intros data off rest acc x off' Hacc Hat. unfold read_distinct_hash.
    rewrite distinct_hashes_snoc. split.
    + intros H. body_inv H. split_and!; eauto.
    + intros [(_ & Hx & Hnin) (rest' & -> & Hat')].
      body_fwd Hat Hat'.
Qed.

Definition wf_Unused (u : Unused) : Prop := size u.(Unused_hash) = HASH_BYTES /\ in_u64 u.(Unused_expires_at).
Definition put_unused (u : Unused) : bytes := blob u.(Unused_hash) ++ be64 u.(Unused_expires_at).

#[export] Instance read_unused_loop : LoopReader read_unused (Forall wf_Unused) put_unused.
Proof.
  constructor; [constructor|by intros l k [? _]%Forall_app|].
  intros data off rest acc x off' Hacc Hat. unfold read_unused, put_unused.
  rewrite Forall_app, Forall_singleton. split.
  - intros H. body_inv H. split; [done|]. eexists. by rewrite <- app_assoc.
  - intros [[_ [? ?]] (rest' & -> & Hat')]. destruct x; simpl in *. body_fwd Hat Hat'.
Qed.

Definition wf_Joined (j : Joined) : Prop := size j.(Joined_mailbox_id) = MAILBOX_ID_BYTES /\ in_u64 j.(Joined_joined_at).
Definition put_joined (j : Joined) : bytes := blob j.(Joined_mailbox_id) ++ be64 j.(Joined_joined_at).

#[export] Instance read_joined_loop : LoopReader read_joined (Forall wf_Joined) put_joined.
Proof.
  constructor; [constructor|by intros l k [? _]%Forall_app|].
  intros data off rest acc x off' Hacc Hat. unfold read_joined, put_joined.
  rewrite Forall_app, Forall_singleton. split.
  - intros H. body_inv H. split; [done|]. eexists. by rewrite <- app_assoc.
  - intros [[_ [? ?]] (rest' & -> & Hat')]. destruct x; simpl in *. body_fwd Hat Hat'.
Qed.

Definition wf_ArchiveSignature (s : ArchiveSignature) : Prop :=
  size s.(ArchiveSignature_key_hash) = HASH_BYTES /\
  size s.(ArchiveSignature_signature) <= MAX_KEY_BLOB /\
  is_empty s.(ArchiveSignature_signature) = false.
Definition put_signature (s : ArchiveSignature) : bytes :=
  blob s.(ArchiveSignature_key_hash) ++ blob s.(ArchiveSignature_signature).
Definition wf_signatures (l : list ArchiveSignature) : Prop :=
  Forall wf_ArchiveSignature l /\ NoDup (map ArchiveSignature_key_hash l).

#[export] Instance read_signature_loop : LoopReader read_signature wf_signatures put_signature.
Proof.
  constructor; [split; constructor|apply Forall_NoDup_prefix|].
  intros data off rest acc x off' Hacc Hat. unfold read_signature, put_signature, wf_signatures.
  rewrite Forall_NoDup_snoc. split.
  - intros H. body_inv H. split_and!; try done; try apply Hacc. eexists. by rewrite <- app_assoc.
  - intros [(_ & (? & ? & ?) & ?) (rest' & -> & Hat')]. destruct x; simpl in *. body_fwd Hat Hat'.
Qed.

Definition wf_PrekeyEntry (p : PrekeyEntry) : Prop :=
  size p.(PrekeyEntry_id) = PREKEY_ID_BYTES /\
  size p.(PrekeyEntry_blob) <= MAX_PREKEY_BYTES /\ is_empty p.(PrekeyEntry_blob) = false.
Definition put_prekey (p : PrekeyEntry) : bytes :=
  blob p.(PrekeyEntry_id) ++ be32 (if p.(PrekeyEntry_last_resort) then 1 else 0) ++ blob p.(PrekeyEntry_blob).
Definition wf_prekeys (l : list PrekeyEntry) : Prop :=
  (Forall wf_PrekeyEntry l /\ NoDup (map PrekeyEntry_id l)) /\ last_resorts l <= 1.

Lemma last_resorts_app l k : last_resorts (l ++ k) = last_resorts l + last_resorts k.
Proof. unfold last_resorts. by rewrite filter_app, size_app. Qed.

Lemma last_resorts_single p : last_resorts [p] = if PrekeyEntry_last_resort p then 1 else 0.
Proof. by destruct p as [? [] ?]. Qed.

#[export] Instance read_prekey_loop : LoopReader read_prekey wf_prekeys put_prekey.
Proof.
  constructor.
  - split; [split; constructor|]. by vm_compute.
  - intros l k [H Hl]. split; [by eapply Forall_NoDup_prefix|].
    rewrite last_resorts_app in Hl. assert (0 <= last_resorts k) by apply size_nonneg. lia.
  - intros data off rest acc x off' Hacc Hat. unfold read_prekey, put_prekey, wf_prekeys.
    rewrite Forall_NoDup_snoc, last_resorts_app, last_resorts_single. destruct Hacc as [Hacc Hl]. split.
    + intros H. body_inv H. simpl. rewrite !flag_of_u32 by done. split_and!; try done; try apply Hacc.
      * match goal with Hc : (?f =? 1) && _ = false |- _ => destruct (f =? 1) eqn:E end;
          bool_prop; simpl in *; bool_prop; unfold in_u32 in *; lia.
      * eexists. by rewrite <- !app_assoc.
    + intros [[(_ & (? & ? & ?) & ?) Hlr] (rest' & -> & Hat')]. destruct x as [? lr ?]; simpl in *.
      destruct lr; body_fwd Hat Hat'.
Qed.

Lemma count_is_size {A} (l : list A) z : in_u32 z -> length l = Z.to_nat z -> z = size l.
Proof. unfold in_u32, size. lia. Qed.
Lemma length_is_count {A} (l : list A) : length l = Z.to_nat (size l).
Proof. unfold size. lia. Qed.
#[global] Hint Resolve length_is_count : wire.

(** The counts the encoders write are the sizes of the lists. *)
Ltac counts_inv :=
  repeat match goal with
  | Hl : length ?l = Z.to_nat ?z, Hz : in_u32 ?z |- _ => apply (count_is_size l z Hz) in Hl; subst z
  end.

Ltac counts_fwd Hd :=
  repeat match type of Hd with
  | context [u32 (size ?l)] =>
      rewrite (u32_small (size l)) in Hd by
codec_side
  end.

Lemma fold_put_unused l b :
  foldl (fun b u => write_u64 (write_blob b u.(Unused_hash)) u.(Unused_expires_at)) b l
  = b ++ concat (map put_unused l).
Proof. apply fold_write. intros. unfold put_unused. by rewrite write_u64_eq, write_blob_eq, <- app_assoc. Qed.

Lemma fold_put_joined l b :
  foldl (fun b j => write_u64 (write_blob b j.(Joined_mailbox_id)) j.(Joined_joined_at)) b l
  = b ++ concat (map put_joined l).
Proof. apply fold_write. intros. unfold put_joined. by rewrite write_u64_eq, write_blob_eq, <- app_assoc. Qed.

Lemma fold_put_signature l b :
  foldl (fun b s => write_blob (write_blob b s.(ArchiveSignature_key_hash)) s.(ArchiveSignature_signature)) b l
  = b ++ concat (map put_signature l).
Proof. apply fold_write. intros. unfold put_signature. by rewrite !write_blob_eq, <- app_assoc. Qed.

Lemma fold_put_prekey l b :
  foldl (fun b p =>
    write_blob (write_u32 (write_blob b p.(PrekeyEntry_id)) (if p.(PrekeyEntry_last_resort) then 1 else 0))
      p.(PrekeyEntry_blob)) b l
  = b ++ concat (map put_prekey l).
Proof.
  apply fold_write. intros. unfold put_prekey.
  by rewrite write_blob_eq, write_u32_eq, write_blob_eq, <- !app_assoc.
Qed.

Ltac fold_writes := rewrite ?fold_write_blob, ?fold_put_unused, ?fold_put_joined, ?fold_put_signature, ?fold_put_prekey.
Ltac fold_writes_in H :=
  rewrite ?fold_write_blob, ?fold_put_unused, ?fold_put_joined, ?fold_put_signature, ?fold_put_prekey in H.

(** A decoder accepts exactly the encodings of well-formed messages: take the
    reads of a successful run apart, or run it on the encoding. *)
Ltac codec_inv inp :=
  let H := fresh "H" in
  intros H; pose proof (at_off_0 inp) as Hat;
  repeat (open_decode H; bool_prop; subst);
  repeat (relay_inv_step; subst);
  match goal with
  | Hat : at_off ?d (size ?d) ?r |- _ => apply at_off_end_inv in Hat; [subst|reflexivity]
  end;
  counts_inv; simpl;
  split; [split_and?; codec_side|];
  rewrite ?u32_small by assumption; fold_writes; encode_norm; rewrite ?flag_of_u32 by done; by rewrite app_nil_r.

Ltac codec_fwd Hd :=
  fold_writes_in Hd; encode_at Hd; counts_fwd Hd; cbv beta iota zeta;
  repeat (relay_fwd_step; try codec_side; cbv beta iota zeta; rewrite ?flag_le, ?flag_eqb; run_tests);
  decode_end; run_tests; done.

Ltac codec_spec inp m :=
  split;
  [ codec_inv inp
  | let Hd := fresh "Hd" in
    intros [? Hd]; destruct m; simpl in *; destruct_and?; codec_fwd Hd ].

(** ** Messages without lists *)

Definition wf_Hello (m : Hello) : Prop :=
  in_u32 m.(Hello_version) /\
  size m.(Hello_client_nonce) = NONCE_BYTES.

Definition wf_HelloReply (m : HelloReply) : Prop :=
  size m.(HelloReply_relay_public_key) <= MAX_KEY_BLOB /\
  size m.(HelloReply_signature) <= MAX_KEY_BLOB /\
  size m.(HelloReply_auth_challenge) = NONCE_BYTES.

Definition wf_Register (m : Register) : Prop :=
  size m.(Register_invite) = INVITE_BYTES /\
  size m.(Register_mailbox_id) = MAILBOX_ID_BYTES /\
  size m.(Register_access_public_key) <= MAX_KEY_BLOB /\
  size m.(Register_send_token_hash) = HASH_BYTES /\
  size m.(Register_signature) <= MAX_KEY_BLOB.

Definition wf_Auth (m : Auth) : Prop :=
  size m.(Auth_mailbox_id) = MAILBOX_ID_BYTES /\
  size m.(Auth_signature) <= MAX_KEY_BLOB.

Definition wf_Deposit (m : Deposit) : Prop :=
  size m.(Deposit_mailbox_id) = MAILBOX_ID_BYTES /\
  size m.(Deposit_send_token) = SEND_TOKEN_BYTES /\
  size m.(Deposit_envelope) <= MAX_ENVELOPE_BYTES /\
  in_u32 m.(Deposit_ttl_seconds).

Definition wf_StoredEnvelope (m : StoredEnvelope) : Prop :=
  size m.(StoredEnvelope_id) = ENVELOPE_ID_BYTES /\
  in_u64 m.(StoredEnvelope_deposited_at) /\
  size m.(StoredEnvelope_token_hash) = HASH_BYTES /\
  size m.(StoredEnvelope_envelope) <= MAX_ENVELOPE_BYTES.

Definition wf_HashOp (m : HashOp) : Prop :=
  size m.(HashOp_token_hash) = HASH_BYTES.

Definition wf_ArchiveJoin (m : ArchiveJoin) : Prop :=
  size m.(ArchiveJoin_archive_id) = ARCHIVE_ID_BYTES /\
  size m.(ArchiveJoin_join_token) = JOIN_TOKEN_BYTES /\
  size m.(ArchiveJoin_public_key) <= MAX_KEY_BLOB /\
  size m.(ArchiveJoin_signature) <= MAX_KEY_BLOB.

Definition wf_ArchiveAuth (m : ArchiveAuth) : Prop :=
  size m.(ArchiveAuth_archive_id) = ARCHIVE_ID_BYTES /\
  size m.(ArchiveAuth_key_hash) = HASH_BYTES /\
  size m.(ArchiveAuth_signature) <= MAX_KEY_BLOB.

Definition wf_ArchiveAppend (m : ArchiveAppend) : Prop :=
  in_u64 m.(ArchiveAppend_expected_number) /\
  size m.(ArchiveAppend_expected_hash) = HASH_BYTES /\
  size m.(ArchiveAppend_ciphertext) <= MAX_ARCHIVE_ENTRY_BYTES /\
  is_empty m.(ArchiveAppend_ciphertext) = false.

Definition wf_ArchiveHead (m : ArchiveHead) : Prop :=
  in_u64 m.(ArchiveHead_number) /\
  size m.(ArchiveHead_hash) = HASH_BYTES.

Definition wf_ArchiveFetch (m : ArchiveFetch) : Prop :=
  in_u64 m.(ArchiveFetch_from_number) /\
  in_u32 m.(ArchiveFetch_limit) /\
  1 <= m.(ArchiveFetch_from_number) /\
  1 <= m.(ArchiveFetch_limit) <= MAX_FETCH_ENTRIES.

Definition wf_ArchiveEntry (m : ArchiveEntry) : Prop :=
  in_u64 m.(ArchiveEntry_number) /\
  size m.(ArchiveEntry_hash) = HASH_BYTES /\
  size m.(ArchiveEntry_ciphertext) <= MAX_ARCHIVE_ENTRY_BYTES /\
  is_empty m.(ArchiveEntry_ciphertext) = m.(ArchiveEntry_tombstone).

Definition wf_PrekeyTake (m : PrekeyTake) : Prop :=
  size m.(PrekeyTake_mailbox_id) = MAILBOX_ID_BYTES /\
  size m.(PrekeyTake_send_token) = SEND_TOKEN_BYTES.

Definition wf_PrekeyData (m : PrekeyData) : Prop :=
  size m.(PrekeyData_blob) <= MAX_PREKEY_BYTES /\
  is_empty m.(PrekeyData_blob) = false.

Definition wf_PrekeyStatus (m : PrekeyStatus) : Prop :=
  in_u32 m.(PrekeyStatus_one_time) /\
  size m.(PrekeyStatus_generation) <= PREKEY_GENERATION_BYTES /\
  (m.(PrekeyStatus_generation) = [] \/ size m.(PrekeyStatus_generation) = PREKEY_GENERATION_BYTES).

Definition wf_RelayFileChunk (m : RelayFileChunk) : Prop :=
  in_u32 m.(RelayFileChunk_index) /\
  size m.(RelayFileChunk_data) <= MAX_FILE_CHUNK_BYTES /\
  is_empty m.(RelayFileChunk_data) = false.

Definition wf_FileDownload (m : FileDownload) : Prop :=
  size m.(FileDownload_file_id) = FILE_ID_BYTES /\
  size m.(FileDownload_token) = FILE_TOKEN_BYTES /\
  in_u32 m.(FileDownload_from_chunk).

Definition wf_FileInfo (m : FileInfo) : Prop :=
  in_u64 m.(FileInfo_total_size) /\
  in_u32 m.(FileInfo_chunk_size) /\
  in_u32 m.(FileInfo_chunk_count) /\
  in_u64 m.(FileInfo_expires_at) /\
  1 <= m.(FileInfo_total_size) <= MAX_FILE_BYTES /\
  1 <= m.(FileInfo_chunk_size) <= MAX_FILE_CHUNK_BYTES /\
  m.(FileInfo_chunk_count) = u64 (u64 (m.(FileInfo_total_size) + m.(FileInfo_chunk_size)) - 1) / m.(FileInfo_chunk_size).

Definition wf_FileRedeem (m : FileRedeem) : Prop :=
  size m.(FileRedeem_file_id) = FILE_ID_BYTES /\
  size m.(FileRedeem_token) = FILE_TOKEN_BYTES.

Definition wf_FileRef (m : FileRef) : Prop :=
  size m.(FileRef_file_id) = FILE_ID_BYTES.

Definition wf_FileStatus (m : FileStatus) : Prop :=
  in_u32 m.(FileStatus_tokens_total) /\
  in_u32 m.(FileStatus_tokens_redeemed) /\
  in_u64 m.(FileStatus_expires_at) /\
  m.(FileStatus_tokens_redeemed) <= m.(FileStatus_tokens_total) /\
  m.(FileStatus_tokens_total) <= MAX_FILE_TOKENS.

Lemma decode_hello_spec inp m :
  decode_hello inp = Some m <-> wf_Hello m /\ inp = encode_Hello m.
Proof. unfold decode_hello, wf_Hello, encode_Hello, at_end. codec_spec inp m. Qed.

Lemma decode_hello_reply_spec inp m :
  decode_hello_reply inp = Some m <-> wf_HelloReply m /\ inp = encode_HelloReply m.
Proof. unfold decode_hello_reply, wf_HelloReply, encode_HelloReply, at_end. codec_spec inp m. Qed.

Lemma decode_register_spec inp m :
  decode_register inp = Some m <-> wf_Register m /\ inp = encode_Register m.
Proof. unfold decode_register, wf_Register, encode_Register, at_end. codec_spec inp m. Qed.

Lemma decode_auth_spec inp m :
  decode_auth inp = Some m <-> wf_Auth m /\ inp = encode_Auth m.
Proof. unfold decode_auth, wf_Auth, encode_Auth, at_end. codec_spec inp m. Qed.

Lemma decode_deposit_spec inp m :
  decode_deposit inp = Some m <-> wf_Deposit m /\ inp = encode_Deposit m.
Proof. unfold decode_deposit, wf_Deposit, encode_Deposit, at_end. codec_spec inp m. Qed.

Lemma decode_stored_envelope_spec inp m :
  decode_stored_envelope inp = Some m <-> wf_StoredEnvelope m /\ inp = encode_StoredEnvelope m.
Proof. unfold decode_stored_envelope, wf_StoredEnvelope, encode_StoredEnvelope, at_end. codec_spec inp m. Qed.

Lemma decode_hash_op_spec inp m :
  decode_hash_op inp = Some m <-> wf_HashOp m /\ inp = encode_HashOp m.
Proof. unfold decode_hash_op, wf_HashOp, encode_HashOp, at_end. codec_spec inp m. Qed.

Lemma decode_archive_join_spec inp m :
  decode_archive_join inp = Some m <-> wf_ArchiveJoin m /\ inp = encode_ArchiveJoin m.
Proof. unfold decode_archive_join, wf_ArchiveJoin, encode_ArchiveJoin, at_end. codec_spec inp m. Qed.

Lemma decode_archive_auth_spec inp m :
  decode_archive_auth inp = Some m <-> wf_ArchiveAuth m /\ inp = encode_ArchiveAuth m.
Proof. unfold decode_archive_auth, wf_ArchiveAuth, encode_ArchiveAuth, at_end. codec_spec inp m. Qed.

Lemma decode_archive_append_spec inp m :
  decode_archive_append inp = Some m <-> wf_ArchiveAppend m /\ inp = encode_ArchiveAppend m.
Proof. unfold decode_archive_append, wf_ArchiveAppend, encode_ArchiveAppend, at_end. codec_spec inp m. Qed.

Lemma decode_archive_head_spec inp m :
  decode_archive_head inp = Some m <-> wf_ArchiveHead m /\ inp = encode_ArchiveHead m.
Proof. unfold decode_archive_head, wf_ArchiveHead, encode_ArchiveHead, at_end. codec_spec inp m. Qed.

Lemma decode_archive_fetch_spec inp m :
  decode_archive_fetch inp = Some m <-> wf_ArchiveFetch m /\ inp = encode_ArchiveFetch m.
Proof. unfold decode_archive_fetch, wf_ArchiveFetch, encode_ArchiveFetch, at_end. codec_spec inp m. Qed.

Lemma decode_archive_entry_spec inp m :
  decode_archive_entry inp = Some m <-> wf_ArchiveEntry m /\ inp = encode_ArchiveEntry m.
Proof. unfold decode_archive_entry, wf_ArchiveEntry, encode_ArchiveEntry, at_end. codec_spec inp m. Qed.

Lemma decode_prekey_take_spec inp m :
  decode_prekey_take inp = Some m <-> wf_PrekeyTake m /\ inp = encode_PrekeyTake m.
Proof. unfold decode_prekey_take, wf_PrekeyTake, encode_PrekeyTake, at_end. codec_spec inp m. Qed.

Lemma decode_prekey_data_spec inp m :
  decode_prekey_data inp = Some m <-> wf_PrekeyData m /\ inp = encode_PrekeyData m.
Proof. unfold decode_prekey_data, wf_PrekeyData, encode_PrekeyData, at_end. codec_spec inp m. Qed.

Lemma decode_prekey_status_spec inp m :
  decode_prekey_status inp = Some m <-> wf_PrekeyStatus m /\ inp = encode_PrekeyStatus m.
Proof. unfold decode_prekey_status, wf_PrekeyStatus, encode_PrekeyStatus, at_end. codec_spec inp m. Qed.

Lemma decode_file_chunk_spec inp m :
  decode_file_chunk inp = Some m <-> wf_RelayFileChunk m /\ inp = encode_RelayFileChunk m.
Proof. unfold decode_file_chunk, wf_RelayFileChunk, encode_RelayFileChunk, at_end. codec_spec inp m. Qed.

Lemma decode_file_download_spec inp m :
  decode_file_download inp = Some m <-> wf_FileDownload m /\ inp = encode_FileDownload m.
Proof. unfold decode_file_download, wf_FileDownload, encode_FileDownload, at_end. codec_spec inp m. Qed.

Lemma decode_file_info_spec inp m :
  decode_file_info inp = Some m <-> wf_FileInfo m /\ inp = encode_FileInfo m.
Proof. unfold decode_file_info, wf_FileInfo, encode_FileInfo, at_end. codec_spec inp m. Qed.

Lemma decode_file_redeem_spec inp m :
  decode_file_redeem inp = Some m <-> wf_FileRedeem m /\ inp = encode_FileRedeem m.
Proof. unfold decode_file_redeem, wf_FileRedeem, encode_FileRedeem, at_end. codec_spec inp m. Qed.

Lemma decode_file_ref_spec inp m :
  decode_file_ref inp = Some m <-> wf_FileRef m /\ inp = encode_FileRef m.
Proof. unfold decode_file_ref, wf_FileRef, encode_FileRef, at_end. codec_spec inp m. Qed.

Lemma decode_file_status_spec inp m :
  decode_file_status inp = Some m <-> wf_FileStatus m /\ inp = encode_FileStatus m.
Proof. unfold decode_file_status, wf_FileStatus, encode_FileStatus, at_end. codec_spec inp m. Qed.


(** ** Messages with lists *)

Definition wf_IdList (m : IdList) : Prop :=
  size m.(IdList_ids) <= MAX_ACK_IDS /\
  Forall (fun b => size b = ENVELOPE_ID_BYTES) m.(IdList_ids).

Lemma decode_id_list_spec inp m :
  decode_id_list inp = Some m <-> wf_IdList m /\ inp = encode_IdList m.
Proof. unfold decode_id_list, wf_IdList, encode_IdList, at_end. codec_spec inp m. Qed.

Definition wf_InviteStatus (m : InviteStatus) : Prop :=
  in_u32 m.(InviteStatus_max_unused) /\ in_u32 m.(InviteStatus_max_total) /\
  size m.(InviteStatus_unused) <= MAX_INVITE_STATUS_ENTRIES /\
  size m.(InviteStatus_joined) <= MAX_INVITE_STATUS_ENTRIES /\
  Forall wf_Unused m.(InviteStatus_unused) /\ Forall wf_Joined m.(InviteStatus_joined).

Lemma decode_invite_status_spec inp m :
  decode_invite_status inp = Some m <-> wf_InviteStatus m /\ inp = encode_InviteStatus m.
Proof. unfold decode_invite_status, wf_InviteStatus, encode_InviteStatus, at_end. codec_spec inp m. Qed.

Definition wf_ArchiveCreate (m : ArchiveCreate) : Prop :=
  size m.(ArchiveCreate_archive_id) = ARCHIVE_ID_BYTES /\
  1 <= size m.(ArchiveCreate_join_token_hashes) <= MAX_ARCHIVE_MEMBERS /\
  Forall (fun b => size b = HASH_BYTES) m.(ArchiveCreate_join_token_hashes).

Lemma decode_archive_create_spec inp m :
  decode_archive_create inp = Some m <-> wf_ArchiveCreate m /\ inp = encode_ArchiveCreate m.
Proof. unfold decode_archive_create, wf_ArchiveCreate, encode_ArchiveCreate, at_end. codec_spec inp m. Qed.

Definition wf_delete_scope (scope hashes : Z) : Prop :=
  (scope = DELETE_SCOPE_CHAT /\ hashes = 0) \/
  (scope = DELETE_SCOPE_ENTRIES /\ 1 <= hashes <= MAX_DELETE_ENTRIES).

Lemma delete_scope_ok scope hashes :
  negb (scope =? DELETE_SCOPE_CHAT) && negb (scope =? DELETE_SCOPE_ENTRIES) = false ->
  (if scope =? DELETE_SCOPE_CHAT then negb (hashes =? 0)
   else (hashes <? 1) || (MAX_DELETE_ENTRIES <? hashes)) = false ->
  wf_delete_scope scope hashes.
Proof.
  intros H1 H2. unfold wf_delete_scope. destruct (scope =? DELETE_SCOPE_CHAT) eqn:E; bool_prop; [by left|].
  simpl in H1. bool_prop. by right.
Qed.
#[global] Hint Resolve delete_scope_ok : wire.

Definition wf_ArchiveDelete (m : ArchiveDelete) : Prop :=
  wf_delete_scope m.(ArchiveDelete_scope) (size m.(ArchiveDelete_entry_hashes)) /\
  size m.(ArchiveDelete_op_id) = 16 /\
  in_u64 m.(ArchiveDelete_expires_at) /\
  distinct_hashes m.(ArchiveDelete_entry_hashes) /\
  1 <= size m.(ArchiveDelete_signatures) <= MAX_ARCHIVE_MEMBERS /\
  wf_signatures m.(ArchiveDelete_signatures).

Lemma decode_archive_delete_spec inp m :
  decode_archive_delete inp = Some m <-> wf_ArchiveDelete m /\ inp = encode_ArchiveDelete m.
Proof.
  unfold decode_archive_delete, wf_ArchiveDelete, encode_ArchiveDelete, at_end. split; [codec_inv inp|].
  intros [(Hs & ? & ? & ? & ? & ?) Hd]. destruct m; simpl in *.
  destruct Hs as [[-> ?]|[-> ?]]; destruct_and?; codec_fwd Hd.
Qed.

Definition wf_KeyringChunk (m : KeyringChunk) : Prop :=
  in_u32 m.(KeyringChunk_total_size) /\ in_u32 m.(KeyringChunk_index) /\ in_u32 m.(KeyringChunk_count) /\
  size m.(KeyringChunk_data) <= KEYRING_CHUNK_BYTES /\ keyring_chunk_ok m = true.

Lemma decode_keyring_chunk_spec inp m :
  decode_keyring_chunk inp = Some m <-> wf_KeyringChunk m /\ inp = encode_KeyringChunk m.
Proof. unfold decode_keyring_chunk, wf_KeyringChunk, encode_KeyringChunk, at_end. codec_spec inp m. Qed.

Definition wf_PrekeyPut (m : PrekeyPut) : Prop :=
  size m.(PrekeyPut_generation) = PREKEY_GENERATION_BYTES /\
  size m.(PrekeyPut_prekeys) <= MAX_PREKEYS_PER_PUT /\ wf_prekeys m.(PrekeyPut_prekeys).

Lemma decode_prekey_put_spec inp m :
  decode_prekey_put inp = Some m <-> wf_PrekeyPut m /\ inp = encode_PrekeyPut m.
Proof. unfold decode_prekey_put, wf_PrekeyPut, encode_PrekeyPut, at_end. codec_spec inp m. Qed.

(** The chunks a file of [total] bytes needs, and no tiny chunks but the one of
    a tiny file. *)
Definition wf_file_numbers (total chunk_size count : Z) : Prop :=
  1 <= total <= MAX_FILE_BYTES /\ 1 <= chunk_size <= MAX_FILE_CHUNK_BYTES /\
  count = (total + chunk_size - 1) / chunk_size /\ (MIN_FILE_CHUNK_BYTES <= chunk_size \/ count = 1).

Lemma file_count_ceil total chunk_size :
  1 <= total <= MAX_FILE_BYTES -> 1 <= chunk_size <= MAX_FILE_CHUNK_BYTES ->
  u64 (u64 (total + chunk_size) - 1) / chunk_size = (total + chunk_size - 1) / chunk_size.
Proof.
  unfold MAX_FILE_BYTES, MAX_FILE_CHUNK_BYTES. intros.
  rewrite (u64_small (total + chunk_size)), u64_small; [done|unfold in_u64; lia..].
Qed.

Definition wf_FileBegin (m : FileBegin) : Prop :=
  size m.(FileBegin_file_id) = FILE_ID_BYTES /\
  in_u64 m.(FileBegin_total_size) /\ in_u32 m.(FileBegin_chunk_size) /\ in_u32 m.(FileBegin_chunk_count) /\
  in_u64 m.(FileBegin_expires_at) /\
  wf_file_numbers m.(FileBegin_total_size) m.(FileBegin_chunk_size) m.(FileBegin_chunk_count) /\
  1 <= size m.(FileBegin_token_hashes) <= MAX_FILE_TOKENS /\
  distinct_hashes m.(FileBegin_token_hashes).

Lemma file_numbers_ok total chunk_size :
  1 <= total -> total <= MAX_FILE_BYTES -> 1 <= chunk_size -> chunk_size <= MAX_FILE_CHUNK_BYTES ->
  (chunk_size <? MIN_FILE_CHUNK_BYTES) && negb (u64 (u64 (total + chunk_size) - 1) / chunk_size =? 1) = false ->
  wf_file_numbers total chunk_size (u64 (u64 (total + chunk_size) - 1) / chunk_size).
Proof.
  intros ? ? ? ? H. rewrite file_count_ceil in * by done. split_and!; [done..|].
  apply andb_false_iff in H as [H|H]; bool_prop; [by left|by right].
Qed.
#[global] Hint Resolve file_numbers_ok : wire.

Lemma decode_file_begin_spec inp m :
  decode_file_begin inp = Some m <-> wf_FileBegin m /\ inp = encode_FileBegin m.
Proof.
  unfold decode_file_begin, wf_FileBegin, encode_FileBegin, at_end. split; [codec_inv inp|].
  intros [(? & ? & ? & ? & ? & (Ht & Hc & Hn & Hmin) & ? & ?) Hd]. destruct m; simpl in *.
  rewrite <- (file_count_ceil _ _ Ht Hc) in Hn. destruct_and?. codec_fwd Hd.
Qed.

(** ** The interface of a codec

    What one side of the wire promises to the other: a decoder accepts exactly
    the encodings of well-formed messages. *)

Class Codec (M : Type) := {
  encode : M -> bytes;
  decode : bytes -> option M;
  wf : M -> Prop;
  decode_spec inp m : decode inp = Some m <-> wf m /\ inp = encode m
}.

Section codec.
Context `{Codec M}.

Lemma decode_encode m : wf m -> decode (encode m) = Some m.
Proof. intros. by apply decode_spec. Qed.

Lemma decode_wf inp m : decode inp = Some m -> wf m.
Proof. intros Hd. by apply decode_spec in Hd as [? _]. Qed.

Lemma encode_inj m1 m2 : wf m1 -> wf m2 -> encode m1 = encode m2 -> m1 = m2.
Proof.
  intros Hm1 Hm2 He. apply decode_encode in Hm1, Hm2. rewrite He in Hm1. congruence.
Qed.

(** No two byte strings are accepted for the same message. *)
Lemma decode_canonical a b m : decode a = Some m -> decode b = Some m -> a = b.
Proof. by intros [_ ->]%decode_spec [_ ->]%decode_spec. Qed.
End codec.

#[export] Instance Hello_codec : Codec Hello := {| decode_spec := decode_hello_spec |}.
#[export] Instance HelloReply_codec : Codec HelloReply := {| decode_spec := decode_hello_reply_spec |}.
#[export] Instance Register_codec : Codec Register := {| decode_spec := decode_register_spec |}.
#[export] Instance Auth_codec : Codec Auth := {| decode_spec := decode_auth_spec |}.
#[export] Instance Deposit_codec : Codec Deposit := {| decode_spec := decode_deposit_spec |}.
#[export] Instance StoredEnvelope_codec : Codec StoredEnvelope := {| decode_spec := decode_stored_envelope_spec |}.
#[export] Instance HashOp_codec : Codec HashOp := {| decode_spec := decode_hash_op_spec |}.
#[export] Instance ArchiveJoin_codec : Codec ArchiveJoin := {| decode_spec := decode_archive_join_spec |}.
#[export] Instance ArchiveAuth_codec : Codec ArchiveAuth := {| decode_spec := decode_archive_auth_spec |}.
#[export] Instance ArchiveAppend_codec : Codec ArchiveAppend := {| decode_spec := decode_archive_append_spec |}.
#[export] Instance ArchiveHead_codec : Codec ArchiveHead := {| decode_spec := decode_archive_head_spec |}.
#[export] Instance ArchiveFetch_codec : Codec ArchiveFetch := {| decode_spec := decode_archive_fetch_spec |}.
#[export] Instance ArchiveEntry_codec : Codec ArchiveEntry := {| decode_spec := decode_archive_entry_spec |}.
#[export] Instance PrekeyTake_codec : Codec PrekeyTake := {| decode_spec := decode_prekey_take_spec |}.
#[export] Instance PrekeyData_codec : Codec PrekeyData := {| decode_spec := decode_prekey_data_spec |}.
#[export] Instance PrekeyStatus_codec : Codec PrekeyStatus := {| decode_spec := decode_prekey_status_spec |}.
#[export] Instance RelayFileChunk_codec : Codec RelayFileChunk := {| decode_spec := decode_file_chunk_spec |}.
#[export] Instance FileDownload_codec : Codec FileDownload := {| decode_spec := decode_file_download_spec |}.
#[export] Instance FileInfo_codec : Codec FileInfo := {| decode_spec := decode_file_info_spec |}.
#[export] Instance FileRedeem_codec : Codec FileRedeem := {| decode_spec := decode_file_redeem_spec |}.
#[export] Instance FileRef_codec : Codec FileRef := {| decode_spec := decode_file_ref_spec |}.
#[export] Instance FileStatus_codec : Codec FileStatus := {| decode_spec := decode_file_status_spec |}.
#[export] Instance IdList_codec : Codec IdList := {| decode_spec := decode_id_list_spec |}.
#[export] Instance InviteStatus_codec : Codec InviteStatus := {| decode_spec := decode_invite_status_spec |}.
#[export] Instance ArchiveCreate_codec : Codec ArchiveCreate := {| decode_spec := decode_archive_create_spec |}.
#[export] Instance ArchiveDelete_codec : Codec ArchiveDelete := {| decode_spec := decode_archive_delete_spec |}.
#[export] Instance KeyringChunk_codec : Codec KeyringChunk := {| decode_spec := decode_keyring_chunk_spec |}.
#[export] Instance PrekeyPut_codec : Codec PrekeyPut := {| decode_spec := decode_prekey_put_spec |}.
#[export] Instance FileBegin_codec : Codec FileBegin := {| decode_spec := decode_file_begin_spec |}.

(** Every message of the relay protocol, with its kind: which decoder the
    receiver uses is known from the message type it arrived under. *)
Inductive payload :=
  | P_Hello (m : Hello)
  | P_HelloReply (m : HelloReply)
  | P_Register (m : Register)
  | P_Auth (m : Auth)
  | P_Deposit (m : Deposit)
  | P_StoredEnvelope (m : StoredEnvelope)
  | P_HashOp (m : HashOp)
  | P_ArchiveJoin (m : ArchiveJoin)
  | P_ArchiveAuth (m : ArchiveAuth)
  | P_ArchiveAppend (m : ArchiveAppend)
  | P_ArchiveHead (m : ArchiveHead)
  | P_ArchiveFetch (m : ArchiveFetch)
  | P_ArchiveEntry (m : ArchiveEntry)
  | P_PrekeyTake (m : PrekeyTake)
  | P_PrekeyData (m : PrekeyData)
  | P_PrekeyStatus (m : PrekeyStatus)
  | P_RelayFileChunk (m : RelayFileChunk)
  | P_FileDownload (m : FileDownload)
  | P_FileInfo (m : FileInfo)
  | P_FileRedeem (m : FileRedeem)
  | P_FileRef (m : FileRef)
  | P_FileStatus (m : FileStatus)
  | P_IdList (m : IdList)
  | P_InviteStatus (m : InviteStatus)
  | P_ArchiveCreate (m : ArchiveCreate)
  | P_ArchiveDelete (m : ArchiveDelete)
  | P_KeyringChunk (m : KeyringChunk)
  | P_PrekeyPut (m : PrekeyPut)
  | P_FileBegin (m : FileBegin).

Inductive payload_kind :=
  K_Hello | K_HelloReply | K_Register | K_Auth | K_Deposit | K_StoredEnvelope | K_HashOp | K_ArchiveJoin | K_ArchiveAuth | K_ArchiveAppend | K_ArchiveHead | K_ArchiveFetch | K_ArchiveEntry | K_PrekeyTake | K_PrekeyData | K_PrekeyStatus | K_RelayFileChunk | K_FileDownload | K_FileInfo | K_FileRedeem | K_FileRef | K_FileStatus | K_IdList | K_InviteStatus | K_ArchiveCreate | K_ArchiveDelete | K_KeyringChunk | K_PrekeyPut | K_FileBegin.

Definition kind_of (p : payload) : payload_kind :=
  match p with
  | P_Hello _ => K_Hello
  | P_HelloReply _ => K_HelloReply
  | P_Register _ => K_Register
  | P_Auth _ => K_Auth
  | P_Deposit _ => K_Deposit
  | P_StoredEnvelope _ => K_StoredEnvelope
  | P_HashOp _ => K_HashOp
  | P_ArchiveJoin _ => K_ArchiveJoin
  | P_ArchiveAuth _ => K_ArchiveAuth
  | P_ArchiveAppend _ => K_ArchiveAppend
  | P_ArchiveHead _ => K_ArchiveHead
  | P_ArchiveFetch _ => K_ArchiveFetch
  | P_ArchiveEntry _ => K_ArchiveEntry
  | P_PrekeyTake _ => K_PrekeyTake
  | P_PrekeyData _ => K_PrekeyData
  | P_PrekeyStatus _ => K_PrekeyStatus
  | P_RelayFileChunk _ => K_RelayFileChunk
  | P_FileDownload _ => K_FileDownload
  | P_FileInfo _ => K_FileInfo
  | P_FileRedeem _ => K_FileRedeem
  | P_FileRef _ => K_FileRef
  | P_FileStatus _ => K_FileStatus
  | P_IdList _ => K_IdList
  | P_InviteStatus _ => K_InviteStatus
  | P_ArchiveCreate _ => K_ArchiveCreate
  | P_ArchiveDelete _ => K_ArchiveDelete
  | P_KeyringChunk _ => K_KeyringChunk
  | P_PrekeyPut _ => K_PrekeyPut
  | P_FileBegin _ => K_FileBegin
  end.

Definition encode_payload (p : payload) : bytes :=
  match p with
  | P_Hello m => encode m
  | P_HelloReply m => encode m
  | P_Register m => encode m
  | P_Auth m => encode m
  | P_Deposit m => encode m
  | P_StoredEnvelope m => encode m
  | P_HashOp m => encode m
  | P_ArchiveJoin m => encode m
  | P_ArchiveAuth m => encode m
  | P_ArchiveAppend m => encode m
  | P_ArchiveHead m => encode m
  | P_ArchiveFetch m => encode m
  | P_ArchiveEntry m => encode m
  | P_PrekeyTake m => encode m
  | P_PrekeyData m => encode m
  | P_PrekeyStatus m => encode m
  | P_RelayFileChunk m => encode m
  | P_FileDownload m => encode m
  | P_FileInfo m => encode m
  | P_FileRedeem m => encode m
  | P_FileRef m => encode m
  | P_FileStatus m => encode m
  | P_IdList m => encode m
  | P_InviteStatus m => encode m
  | P_ArchiveCreate m => encode m
  | P_ArchiveDelete m => encode m
  | P_KeyringChunk m => encode m
  | P_PrekeyPut m => encode m
  | P_FileBegin m => encode m
  end.

Definition wf_payload (p : payload) : Prop :=
  match p with
  | P_Hello m => wf m
  | P_HelloReply m => wf m
  | P_Register m => wf m
  | P_Auth m => wf m
  | P_Deposit m => wf m
  | P_StoredEnvelope m => wf m
  | P_HashOp m => wf m
  | P_ArchiveJoin m => wf m
  | P_ArchiveAuth m => wf m
  | P_ArchiveAppend m => wf m
  | P_ArchiveHead m => wf m
  | P_ArchiveFetch m => wf m
  | P_ArchiveEntry m => wf m
  | P_PrekeyTake m => wf m
  | P_PrekeyData m => wf m
  | P_PrekeyStatus m => wf m
  | P_RelayFileChunk m => wf m
  | P_FileDownload m => wf m
  | P_FileInfo m => wf m
  | P_FileRedeem m => wf m
  | P_FileRef m => wf m
  | P_FileStatus m => wf m
  | P_IdList m => wf m
  | P_InviteStatus m => wf m
  | P_ArchiveCreate m => wf m
  | P_ArchiveDelete m => wf m
  | P_KeyringChunk m => wf m
  | P_PrekeyPut m => wf m
  | P_FileBegin m => wf m
  end.

Definition decode_payload (k : payload_kind) (inp : bytes) : option payload :=
  match k with
  | K_Hello => option_map P_Hello (decode inp)
  | K_HelloReply => option_map P_HelloReply (decode inp)
  | K_Register => option_map P_Register (decode inp)
  | K_Auth => option_map P_Auth (decode inp)
  | K_Deposit => option_map P_Deposit (decode inp)
  | K_StoredEnvelope => option_map P_StoredEnvelope (decode inp)
  | K_HashOp => option_map P_HashOp (decode inp)
  | K_ArchiveJoin => option_map P_ArchiveJoin (decode inp)
  | K_ArchiveAuth => option_map P_ArchiveAuth (decode inp)
  | K_ArchiveAppend => option_map P_ArchiveAppend (decode inp)
  | K_ArchiveHead => option_map P_ArchiveHead (decode inp)
  | K_ArchiveFetch => option_map P_ArchiveFetch (decode inp)
  | K_ArchiveEntry => option_map P_ArchiveEntry (decode inp)
  | K_PrekeyTake => option_map P_PrekeyTake (decode inp)
  | K_PrekeyData => option_map P_PrekeyData (decode inp)
  | K_PrekeyStatus => option_map P_PrekeyStatus (decode inp)
  | K_RelayFileChunk => option_map P_RelayFileChunk (decode inp)
  | K_FileDownload => option_map P_FileDownload (decode inp)
  | K_FileInfo => option_map P_FileInfo (decode inp)
  | K_FileRedeem => option_map P_FileRedeem (decode inp)
  | K_FileRef => option_map P_FileRef (decode inp)
  | K_FileStatus => option_map P_FileStatus (decode inp)
  | K_IdList => option_map P_IdList (decode inp)
  | K_InviteStatus => option_map P_InviteStatus (decode inp)
  | K_ArchiveCreate => option_map P_ArchiveCreate (decode inp)
  | K_ArchiveDelete => option_map P_ArchiveDelete (decode inp)
  | K_KeyringChunk => option_map P_KeyringChunk (decode inp)
  | K_PrekeyPut => option_map P_PrekeyPut (decode inp)
  | K_FileBegin => option_map P_FileBegin (decode inp)
  end.

Lemma option_map_decode `{Codec M} (P : M -> payload) inp p :
  option_map P (decode inp) = Some p <-> exists m, p = P m /\ wf m /\ inp = encode m.
Proof.
  split.
  - destruct (decode inp) as [m|] eqn:E; [|done]. intros [= <-]. exists m. by apply decode_spec in E.
  - intros (m & -> & Hm). by rewrite (proj2 (decode_spec _ _) Hm).
Qed.

(** C19: every decoder of the relay protocol accepts exactly the encodings of
    well-formed messages of its kind: what an encoder writes for a well-formed
    message is read back as that message, and whatever is accepted is
    well-formed (lengths, counts, flags, distinct hashes, chunk arithmetic) and
    is byte for byte what the encoder writes for it, so no trailing or
    alternative bytes are accepted. *)
Theorem relay_codecs_exact k inp p :
  decode_payload k inp = Some p <-> kind_of p = k /\ wf_payload p /\ inp = encode_payload p.
Proof.
  destruct k; cbn [decode_payload]; (etransitivity; [apply option_map_decode|]);
    (split; [intros (m & -> & Hm); done|]); destruct p; simpl; intros (Hk & Hw); try discriminate Hk; eauto.
Qed.

(** ** Signing inputs and hash inputs

    What is signed, or hashed into an archive's chain, as the value it was made
    from. *)

Inductive signed :=
  | Signed_hello (client_nonce relay_id : bytes) (version : Z) (auth_challenge : bytes)
  | Signed_register (relay_id mailbox_id access_public_key send_token_hash : bytes)
  | Signed_auth (auth_challenge relay_id mailbox_id : bytes)
  | Signed_archive_join (relay_id archive_id public_key join_token_hash : bytes)
  | Signed_archive_auth (auth_challenge relay_id archive_id key_hash : bytes)
  | Signed_archive_delete (relay_id archive_id : bytes) (scope : Z) (op_id : bytes) (expires_at : Z)
      (entry_hashes : list bytes)
  | Hashed_genesis (archive_id : bytes)
  | Hashed_entry (archive_id : bytes) (number : Z) (previous_hash ciphertext : bytes).

Definition signing_input (s : signed) : bytes :=
  match s with
  | Signed_hello n r v c => hello_signing_input n r v c
  | Signed_register r m k h => register_signing_input r m k h
  | Signed_auth c r m => auth_signing_input c r m
  | Signed_archive_join r a k h => archive_join_signing_input r a k h
  | Signed_archive_auth c r a k => archive_auth_signing_input c r a k
  | Signed_archive_delete r a s o e hs => archive_delete_signing_input r a s o e hs
  | Hashed_genesis a => archive_genesis_input a
  | Hashed_entry a n p c => archive_entry_hash_input a n p c
  end.

(** The values the types of the sources allow: integers of their width, and
    byte strings whose length fits the length prefix. *)
Definition blob_ok (b : bytes) : Prop := in_u32 (size b).
Definition signed_ok (s : signed) : Prop :=
  match s with
  | Signed_hello n r v c => blob_ok n /\ blob_ok r /\ in_u32 v /\ blob_ok c
  | Signed_register r m k h => blob_ok r /\ blob_ok m /\ blob_ok k /\ blob_ok h
  | Signed_auth c r m => blob_ok c /\ blob_ok r /\ blob_ok m
  | Signed_archive_join r a k h => blob_ok r /\ blob_ok a /\ blob_ok k /\ blob_ok h
  | Signed_archive_auth c r a k => blob_ok c /\ blob_ok r /\ blob_ok a /\ blob_ok k
  | Signed_archive_delete r a s o e hs =>
      blob_ok r /\ blob_ok a /\ in_u32 s /\ blob_ok o /\ in_u64 e /\ in_u32 (size hs) /\ Forall blob_ok hs
  | Hashed_genesis a => blob_ok a
  | Hashed_entry a n p c => blob_ok a /\ in_u64 n /\ blob_ok p /\ blob_ok c
  end.

(** The label of a signing input and the rest of it. *)
Definition signed_label (s : signed) : bytes :=
  match s with
  | Signed_hello _ _ _ _ => HELLO_LABEL
  | Signed_register _ _ _ _ => REGISTER_LABEL
  | Signed_auth _ _ _ => AUTH_LABEL
  | Signed_archive_join _ _ _ _ => ARCHIVE_JOIN_LABEL
  | Signed_archive_auth _ _ _ _ => ARCHIVE_AUTH_LABEL
  | Signed_archive_delete _ _ _ _ _ _ => ARCHIVE_DELETE_LABEL
  | Hashed_genesis _ => ARCHIVE_GENESIS_LABEL
  | Hashed_entry _ _ _ _ => ARCHIVE_ENTRY_LABEL
  end.

Definition signed_body (s : signed) : bytes :=
  match s with
  | Signed_hello n r v c => blob r ++ be32 v ++ blob n ++ blob c
  | Signed_register r m k h => blob r ++ blob m ++ blob k ++ blob h
  | Signed_auth c r m => blob r ++ blob m ++ blob c
  | Signed_archive_join r a k h => blob r ++ blob a ++ blob k ++ blob h
  | Signed_archive_auth c r a k => blob r ++ blob a ++ blob k ++ blob c
  | Signed_archive_delete r a s o e hs =>
      blob r ++ blob a ++ be32 s ++ blob o ++ be64 e ++ be32 (u32 (size hs)) ++ concat (map blob hs)
  | Hashed_genesis a => blob a
  | Hashed_entry a n p c => blob a ++ be64 n ++ blob p ++ blob c
  end.

Lemma signing_input_eq s : signing_input s = blob (signed_label s) ++ signed_body s.
Proof.
  destruct s; cbn [signing_input signed_label signed_body];
    unfold hello_signing_input, register_signing_input, auth_signing_input, archive_join_signing_input,
      archive_auth_signing_input, archive_delete_signing_input, archive_genesis_input, archive_entry_hash_input;
    cbv zeta; rewrite ?fold_write_blob; encode_norm; done.
Qed.

Lemma signed_label_u32 s : in_u32 (size (signed_label s)).
Proof. destruct s; split; vm_compute; congruence. Qed.

(** Peel equal prefixes off an equality of encodings. *)
Ltac peel E :=
  repeat match type of E with
  | blob ?a = blob ?b => rewrite (app_nil_tail (blob a)), (app_nil_tail (blob b)) in E
  | concat (map blob ?a) = concat (map blob ?b) =>
      rewrite (app_nil_tail (concat (map blob a))), (app_nil_tail (concat (map blob b))) in E
  | blob _ ++ _ = blob _ ++ _ => apply blob_inj in E as [? E]; [|assumption..]
  | be32 _ ++ _ = be32 _ ++ _ => apply be32_inj in E as [? E]; [|assumption..]
  | be64 _ ++ _ = be64 _ ++ _ => apply be64_inj in E as [? E]; [|assumption..]
  | concat _ ++ _ = concat _ ++ _ => apply blobs_inj in E as [? E]; [|assumption || (unfold size in *; lia)..]
  end; subst.

Lemma signed_body_inj s t :
  signed_ok s -> signed_ok t -> signed_label s = signed_label t -> signed_body s = signed_body t -> s = t.
Proof.
  destruct s, t; intros Hs Ht Hl; try (vm_compute in Hl; discriminate Hl);
    clear Hl; cbn [signed_ok signed_body] in *; unfold blob_ok in *; intros E; destruct_and?;
    rewrite ?u32_small in E by assumption; peel E; done.
Qed.

(** C20: what is signed determines what was meant: two signing inputs (or chain
    hash inputs) that are equal byte strings were made for the same purpose,
    the same relay and the same fields, so a signature made for one purpose,
    relay, mailbox, archive or order verifies for no other. *)
Theorem signing_inputs_separate s t :
  signed_ok s -> signed_ok t -> signing_input s = signing_input t -> s = t.
Proof.
  intros Hs Ht E. rewrite !signing_input_eq in E.
  apply blob_inj in E as [Hl E]; [by apply signed_body_inj|apply signed_label_u32..].
Qed.

(** The input of a mailbox login is that of no other login. *)
Lemma signing_inputs_separate_witness :
  let s := Signed_auth [Byte.x01] [Byte.x02] [Byte.x03] in
  signing_input s = signing_input s /\ s = Signed_auth [Byte.x01] [Byte.x02] [Byte.x03].
Proof.
  split; [reflexivity|].
  apply (signing_inputs_separate (Signed_auth [Byte.x01] [Byte.x02] [Byte.x03])
           (Signed_auth [Byte.x01] [Byte.x02] [Byte.x03])); [| |reflexivity];
    repeat split; vm_compute; congruence.
Defined.
