(* ===== verification/Crypto.v ===== *)
(** * CryptoEngine: client/crypto_engine.h and crypto_engine.cpp

    The wrappers around liboqs and OpenSSL: which inputs they refuse, how keys
    are derived and split, the format of passphrase-protected keys, fingerprints.
    The algorithms themselves (ML-KEM-768, ML-DSA-65, AES-256-GCM, HKDF, scrypt,
    SHA-256, X25519, the random generator) are the operations of the class
    [Primitives]; what the code relies on of them is the class [PrimitiveLaws],
    and [toy] is a concrete instance. Random bytes are arguments. A failure
    reported by a library (no memory, no entropy) is not modelled. *)

From Stdlib Require Import ZArith Lia.
From stdpp Require Import base list strings.
From S2P Require Import Prelude Wire Protocol.
#[local] Open Scope Z_scope.

(** ** Exceptions *)

(** A C++ call returns or throws [std::runtime_error]. *)
Inductive exc (A : Type) :=
  | Ret (a : A)
  | Throw (what : string).
Arguments Ret {A} a.
Arguments Throw {A} what.

Lemma Ret_inj {A} (a b : A) : Ret a = Ret b -> a = b.
Proof. congruence. Qed.

Definition exc_bind {A B} (e : exc A) (k : A -> exc B) : exc B :=
  match e with Ret a => k a | Throw w => Throw w end.
Notation "'let!' x := e 'in' k" := (exc_bind e (fun x => k))
  (at level 10, x pattern, e at level 100, k at level 200) : wire_scope.

(** [try { return f(); } catch (const std::exception&) { return std::nullopt; }]. *)
Definition catch {A} (e : exc (option A)) : option A :=
  match e with Ret o => o | Throw _ => None end.

(** ** The libraries *)

Class Primitives := {
  prim_sha256 : bytes -> bytes;
  prim_gcm_seal : bytes -> bytes -> bytes -> bytes -> bytes;
  prim_gcm_open : bytes -> bytes -> bytes -> bytes -> option bytes;
  prim_hkdf : bytes -> bytes -> bytes -> Z -> bytes;
  prim_scrypt : bytes -> bytes -> Z -> Z -> Z -> bytes;
  kem_public_key_size : Z;
  kem_secret_key_size : Z;
  kem_ciphertext_size : Z;
  prim_kem_keypair : bytes -> bytes * bytes;
  prim_kem_encaps : bytes -> bytes -> bytes * bytes;
  prim_kem_decaps : bytes -> bytes -> bytes;
  sig_public_key_size : Z;
  sig_secret_key_size : Z;
  sig_signature_size : Z;
  prim_sig_keypair : bytes -> bytes * bytes;
  prim_sign : bytes -> bytes -> bytes -> bytes;
  prim_sig_verify : bytes -> bytes -> bytes -> bool;
  prim_x25519_public : bytes -> bytes;
  prim_x25519 : bytes -> bytes -> option bytes;
}.

(** What is documented of them: output sizes (those of ML-KEM-768 and ML-DSA-65
    as upper bounds), that opening undoes sealing and
    accepts nothing else (the tag is a function of the key, the nonce, the
    associated data and the ciphertext), that decapsulation and verification
    undo encapsulation and signing, and that X25519 commutes. *)
Class PrimitiveLaws `{Primitives} : Prop := {
  sha256_size d : size (prim_sha256 d) = 32;
  gcm_seal_size k n p a : size (prim_gcm_seal k n p a) = size p + 16;
  gcm_open_seal k n p a : prim_gcm_open k n (prim_gcm_seal k n p a) a = Some p;
  gcm_open_only k n c p a : prim_gcm_open k n c a = Some p -> c = prim_gcm_seal k n p a;
  hkdf_size i s l n : 0 <= n -> size (prim_hkdf i s l n) = n;
  scrypt_size p s n r q : size (prim_scrypt p s n r q) = 32;
  kem_correct seed rand :
    let '(pk, sk) := prim_kem_keypair seed in
    let '(ct, ss) := prim_kem_encaps rand pk in prim_kem_decaps ct sk = ss;
  kem_sizes seed rand pk :
    size (prim_kem_keypair seed).1 = kem_public_key_size /\
    size (prim_kem_keypair seed).2 = kem_secret_key_size /\
    size (prim_kem_encaps rand pk).1 = kem_ciphertext_size;
  kem_sizes_pos : 0 < kem_public_key_size < 2 ^ 32 /\ 0 < kem_ciphertext_size < 2 ^ 32;
  kem_shared_size rand pk : size (prim_kem_encaps rand pk).2 = 32;
  algorithm_sizes :
    kem_public_key_size <= 1184 /\ kem_secret_key_size <= 2400 /\ kem_ciphertext_size <= 1088 /\
    sig_signature_size <= 3309;
  sig_public_size_bound : sig_public_key_size <= 1952;
  secret_sizes : 0 < kem_secret_key_size /\ 0 < sig_secret_key_size <= 4032;
  sig_correct seed rand m :
    let '(pk, sk) := prim_sig_keypair seed in prim_sig_verify m (prim_sign rand m sk) pk = true;
  sig_sizes seed rand m sk :
    size (prim_sig_keypair seed).1 = sig_public_key_size /\
    size (prim_sig_keypair seed).2 = sig_secret_key_size /\
    0 < size (prim_sign rand m sk) <= sig_signature_size;
  x25519_public_size sk : size (prim_x25519_public sk) = 32;
  x25519_commutes a b : prim_x25519 a (prim_x25519_public b) = prim_x25519 b (prim_x25519_public a);
}.

(** ** The wrappers *)

Section engine.
Context `{P : Primitives}.

(** Constants (src/client/crypto_engine.h). *)
Definition AES_KEY_SIZE : Z := 32.
Definition DEFAULT_SCRYPT_LOG2_N : Z := 17.
Definition MIN_SCRYPT_LOG2_N : Z := 10.
Definition MAX_SCRYPT_LOG2_N : Z := 18.

Definition INT_MAX : Z := 2 ^ 31 - 1.

(** src/client/crypto_engine.cpp 22-22 HKDF_INFO *)
Definition HKDF_INFO : bytes := str "pq-file-transfer v2 session keys".

(** src/client/crypto_engine.cpp 44-47 require_size *)
Definition require_size (v : bytes) (expected : Z) (what : string) : exc unit :=
  if negb (size v =? expected) then Throw (what +:+ " has the wrong size") else Ret tt.

(** src/client/crypto_engine.cpp 55-60 check_aead_inputs *)
Definition check_aead_inputs (key nonce : bytes) (data_len aad_len : Z) : exc unit :=
  if negb (size key =? AES_KEY_SIZE) then Throw "AES key has the wrong size" else
  if negb (size nonce =? 12) then Throw "AES-GCM nonce has the wrong size" else
  if (INT_MAX <? data_len) || (INT_MAX <? aad_len) then Throw "AES-GCM input too large" else
  Ret tt.

(** src/client/crypto_engine.cpp 75-81 generate_kem_keypair *)
Definition generate_kem_keypair (seed : bytes) : bytes * bytes := prim_kem_keypair seed.

(** src/client/crypto_engine.cpp 83-89 generate_sig_keypair *)
Definition generate_sig_keypair (seed : bytes) : bytes * bytes := prim_sig_keypair seed.

(** src/client/crypto_engine.cpp 91-99 encapsulate *)
Definition encapsulate (rand public_key : bytes) : exc (bytes * bytes) :=
  let! _ := require_size public_key kem_public_key_size "Recipient's ML-KEM public key" in
  Ret (prim_kem_encaps rand public_key).

(** src/client/crypto_engine.cpp 101-111 decapsulate *)
Definition decapsulate (ciphertext private_key : bytes) : exc bytes :=
  let! _ := require_size ciphertext kem_ciphertext_size "ML-KEM ciphertext" in
  let! _ := require_size private_key kem_secret_key_size "ML-KEM private key" in
  Ret (prim_kem_decaps ciphertext private_key).

(** src/client/crypto_engine.h 32-42 SessionKeys *)
Record SessionKeys := mkSessionKeys { data_key : bytes; metadata_key : bytes }.

(** src/client/crypto_engine.cpp 113-140 derive_session_keys *)
Definition derive_session_keys (shared_secret salt : bytes) : exc SessionKeys :=
  if is_empty shared_secret || is_empty salt then Throw "Invalid key derivation input" else
  let okm := prim_hkdf shared_secret salt HKDF_INFO (2 * AES_KEY_SIZE) in
  Ret (mkSessionKeys (ztake AES_KEY_SIZE okm) (zdrop AES_KEY_SIZE okm)).

(** src/client/crypto_engine.cpp 142-161 hkdf_sha256 *)
Definition hkdf_sha256 (ikm salt info : bytes) (length : Z) : exc bytes :=
  if is_empty ikm || (length =? 0) || (255 * 32 <? length) then Throw "Invalid key derivation input" else
  Ret (prim_hkdf ikm salt info length).

(** src/client/crypto_engine.cpp 163-196 encrypt *)
Definition encrypt (key nonce plaintext aad : bytes) : exc bytes :=
  let! _ := check_aead_inputs key nonce (size plaintext) (size aad) in
  Ret (prim_gcm_seal key nonce plaintext aad).

(** src/client/crypto_engine.cpp 198-238 decrypt *)
Definition decrypt (key nonce ciphertext aad : bytes) : exc (option bytes) :=
  if size ciphertext <? 16 then Ret None else
  let ct_len := size ciphertext - 16 in
  let! _ := check_aead_inputs key nonce ct_len (size aad) in
  Ret (prim_gcm_open key nonce ciphertext aad).

(** src/client/crypto_engine.cpp 240-252 sign *)
Definition sign (rand message private_key : bytes) : exc bytes :=
  let! _ := require_size private_key sig_secret_key_size "ML-DSA private key" in
  Ret (prim_sign rand message private_key).

(** src/client/crypto_engine.cpp 254-262 verify *)
Definition verify (message signature public_key : bytes) : bool :=
  if negb (size public_key =? sig_public_key_size) then false else
  if is_empty signature || (sig_signature_size <? size signature) then false else
  prim_sig_verify message signature public_key.

(** src/client/crypto_engine.cpp 264-270 sha256 *)
Definition sha256 (data : bytes) : bytes := prim_sha256 data.

(** ** Passphrase protection of secret keys *)

(** src/client/crypto_engine.cpp 288-288 PROTECTED_MAGIC *)
Definition PROTECTED_MAGIC : bytes := str "PQKE".
(** src/client/crypto_engine.cpp 289-289 PROTECTED_VERSION *)
Definition PROTECTED_VERSION : Z := 1.
(** src/client/crypto_engine.cpp 290-290 KDF_SCRYPT *)
Definition KDF_SCRYPT : Z := 1.
(** src/client/crypto_engine.cpp 291-291 SCRYPT_R *)
Definition SCRYPT_R : Z := 8.
(** src/client/crypto_engine.cpp 292-292 SCRYPT_P *)
Definition SCRYPT_P : Z := 1.
(** src/client/crypto_engine.cpp 293-293 PROTECTED_SALT_SIZE *)
Definition PROTECTED_SALT_SIZE : Z := 16.
(** src/client/crypto_engine.cpp 294-294 PROTECTED_NONCE_SIZE *)
Definition PROTECTED_NONCE_SIZE : Z := 12.
(** src/client/crypto_engine.cpp 295-295 PROTECTED_HEADER_SIZE *)
Definition PROTECTED_HEADER_SIZE : Z := 4 + 1 + 1 + 1 + 1 + 1 + PROTECTED_SALT_SIZE + PROTECTED_NONCE_SIZE.

(** src/client/crypto_engine.cpp 297-307 scrypt_key *)
Definition scrypt_key (passphrase salt : bytes) (log2_n r p : Z) : bytes :=
  let n := Z.shiftl 1 log2_n in
  prim_scrypt passphrase salt n r p.

(** src/client/crypto_engine.cpp 309-313 protected_aad *)
Definition protected_aad (header label : bytes) : bytes := ztake PROTECTED_HEADER_SIZE header ++ label.

(** src/client/crypto_engine.cpp 317-320 is_protected_blob *)
Definition is_protected_blob (data : bytes) : bool :=
  (4 <=? size data) && bool_decide (ztake 4 data = PROTECTED_MAGIC).

(** src/client/crypto_engine.cpp 322-346 protect_secret *)
Definition protect_secret (salt nonce secret passphrase label : bytes) (scrypt_log2_n : Z) : exc bytes :=
  if is_empty passphrase then Throw "The passphrase is empty" else
  if (scrypt_log2_n <? MIN_SCRYPT_LOG2_N) || (MAX_SCRYPT_LOG2_N <? scrypt_log2_n)
  then Throw "Key derivation cost is out of range" else
  let blob := PROTECTED_MAGIC in
  let blob := blob ++ [byte_of_Z PROTECTED_VERSION] in
  let blob := blob ++ [byte_of_Z KDF_SCRYPT] in
  let blob := blob ++ [byte_of_Z scrypt_log2_n] in
  let blob := blob ++ [byte_of_Z SCRYPT_R] in
  let blob := blob ++ [byte_of_Z SCRYPT_P] in
  let blob := blob ++ salt in
  let blob := blob ++ nonce in
  let key := scrypt_key passphrase salt scrypt_log2_n SCRYPT_R SCRYPT_P in
  let! ciphertext := encrypt key nonce secret (protected_aad blob label) in
  Ret (blob ++ ciphertext).

(** src/client/crypto_engine.cpp 348-370 unprotect_secret *)
Definition unprotect_secret (blob passphrase label : bytes) : exc (option bytes) :=
  if negb (is_protected_blob blob) || (size blob <? PROTECTED_HEADER_SIZE + 16)
  then Throw "The protected key file is damaged" else
  let h i := byte_at blob i in
  if negb (h 4 =? PROTECTED_VERSION) || negb (h 5 =? KDF_SCRYPT)
  then Throw "The protected key file was made by an incompatible version" else
  let log2_n := h 6 in
  let r := h 7 in
  let p := h 8 in
  if (log2_n <? MIN_SCRYPT_LOG2_N) || (MAX_SCRYPT_LOG2_N <? log2_n)
     || negb (r =? SCRYPT_R) || negb (p =? SCRYPT_P)
  then Throw "The protected key file uses unsupported key derivation settings" else
  if is_empty passphrase then Ret None else
  let salt := ztake PROTECTED_SALT_SIZE (zdrop 9 blob) in
  let nonce := ztake PROTECTED_NONCE_SIZE (zdrop (9 + PROTECTED_SALT_SIZE) blob) in
  let ciphertext := zdrop PROTECTED_HEADER_SIZE blob in
  let key := scrypt_key passphrase salt log2_n r p in
  decrypt key nonce ciphertext (protected_aad blob label).

(** ** Fingerprints *)

(** src/client/crypto_engine.cpp 372-381 fingerprint *)
Definition fingerprint (pub_dsa : bytes) : bytes := bytes_to_hex (sha256 pub_dsa).

(** src/client/crypto_engine.cpp 383-390 format_fingerprint *)
Fixpoint format_from (i : Z) (fp : bytes) : bytes :=
  match fp with
  | [] => []
  | c :: fp =>
      (if (0 <? i) && (i mod 4 =? 0)
       then [if i mod 32 =? 0 then Byte.x0a else Byte.x20] else [])
      ++ c :: format_from (i + 1) fp
  end.
(** src/client/crypto_engine.cpp 383-390 format_fingerprint *)
Definition format_fingerprint (fp : bytes) : bytes := format_from 0 fp.

(** ** X25519 *)

(** src/client/crypto_engine.cpp 392-403 generate_x25519 *)
Definition generate_x25519 (private_key : bytes) : bytes * bytes :=
  (prim_x25519_public private_key, private_key).

(** src/client/crypto_engine.cpp 405-421 x25519_shared *)
Definition x25519_shared (private_key peer_public_key : bytes) : exc bytes :=
  if negb (size private_key =? 32) || negb (size peer_public_key =? 32)
  then Throw "An X25519 key has the wrong size" else
  match prim_x25519 private_key peer_public_key with
  | None => Throw "X25519 failed"
  | Some out =>
      let any := foldl (fun acc b => Z.lor acc (Z_of_byte b)) 0 out in
      if any =? 0 then Throw "X25519 produced no secret: the public key is not valid" else Ret out
  end.
End engine.

(** ** An instance

    Functions with the documented behaviour, not the algorithms. Sealing appends
    sixteen zeros; a key pair is the same string twice; a signature is the key and
    the start of the message. *)

Definition toy_pad (n : nat) (b : bytes) : bytes := take n (b ++ replicate n Byte.x01).

Definition toy_open (c : bytes) : option bytes :=
  let n := (length c - 16)%nat in
  if decide (drop n c = replicate 16 Byte.x00) then Some (take n c) else None.

#[export] Instance toy : Primitives := {|
  prim_sha256 d := toy_pad 32 d;
  prim_gcm_seal k n p a := p ++ replicate 16 Byte.x00;
  prim_gcm_open k n c a := toy_open c;
  prim_hkdf i s l n := toy_pad (Z.to_nat n) i;
  prim_scrypt p s n r q := toy_pad 32 p;
  kem_public_key_size := 8;
  kem_secret_key_size := 8;
  kem_ciphertext_size := 8;
  prim_kem_keypair seed := (toy_pad 8 seed, toy_pad 8 seed);
  prim_kem_encaps rand pk := (toy_pad 8 rand, toy_pad 32 (toy_pad 8 rand));
  prim_kem_decaps ct sk := toy_pad 32 ct;
  sig_public_key_size := 8;
  sig_secret_key_size := 8;
  sig_signature_size := 40;
  prim_sig_keypair seed := (toy_pad 8 seed, toy_pad 8 seed);
  prim_sign rand m sk := toy_pad 8 sk ++ toy_pad 32 m;
  prim_sig_verify m sg pk := bool_decide (sg = toy_pad 8 pk ++ toy_pad 32 m);
  prim_x25519_public sk := toy_pad 32 sk;
  prim_x25519 a b := Some (replicate 32 Byte.x01);
|}.

Lemma size_toy_pad n b : size (toy_pad n b) = Z.of_nat n.
Proof. unfold toy_pad, size. rewrite length_take, length_app, length_replicate. lia. Qed.

Lemma toy_pad_idem n b : toy_pad n (toy_pad n b) = toy_pad n b.
Proof.
  unfold toy_pad at 1. rewrite take_app_le; [|pose proof (size_toy_pad n b); unfold size in *; lia].
  apply take_ge. pose proof (size_toy_pad n b). unfold size in *. lia.
Qed.

#[local] Arguments replicate : simpl never.

#[export] Instance toy_laws : PrimitiveLaws.
Proof.
  constructor; simpl; intros; rewrite ?size_app, ?size_toy_pad; try (unfold size; simpl; lia); try done.
  - unfold toy_open. rewrite length_app, length_replicate.
    replace (length p + 16 - 16)%nat with (length p) by lia.
    by rewrite drop_app_length, take_app_length, decide_True.
  - unfold toy_open in *. case_decide as Hd; [|done]. simplify_eq. rewrite <- Hd. by rewrite take_drop.
  - by rewrite bool_decide_eq_true, toy_pad_idem.
Qed.

(** ** Protected keys *)

Section protected.
Context `{PrimitiveLaws}.

(** The fixed part of a protected key: magic, version, KDF and its cost. *)
Definition protected_prefix (log2_n : Z) : bytes :=
  PROTECTED_MAGIC ++ [byte_of_Z PROTECTED_VERSION; byte_of_Z KDF_SCRYPT; byte_of_Z log2_n;
                      byte_of_Z SCRYPT_R; byte_of_Z SCRYPT_P].

Lemma protected_header_size n salt nonce :
  size salt = 16 -> size nonce = 12 -> size (protected_prefix n ++ salt ++ nonce) = PROTECTED_HEADER_SIZE.
Proof. intros Hs Hn. rewrite !size_app, Hs, Hn. reflexivity. Qed.

Lemma encrypt_ret key nonce p a c : encrypt key nonce p a = Ret c -> c = prim_gcm_seal key nonce p a.
Proof. unfold encrypt, check_aead_inputs. repeat case_match; simpl; congruence. Qed.

Lemma encrypt_ok key nonce p a :
  size key = 32 -> size nonce = 12 -> size p <= INT_MAX -> size a <= INT_MAX ->
  encrypt key nonce p a = Ret (prim_gcm_seal key nonce p a).
Proof.
  intros Hk Hn Hp Ha. unfold encrypt, check_aead_inputs. rewrite Hk, Hn.
  by rewrite !(proj2 (Z.ltb_ge _ _)) by done.
Qed.

Lemma decrypt_ret key nonce c a r : decrypt key nonce c a = Ret (Some r) -> prim_gcm_open key nonce c a = Some r.
Proof. unfold decrypt, check_aead_inputs. repeat case_match; simpl; congruence. Qed.

Lemma decrypt_ok key nonce c a :
  size key = 32 -> size nonce = 12 -> 16 <= size c <= INT_MAX -> size a <= INT_MAX ->
  decrypt key nonce c a = Ret (prim_gcm_open key nonce c a).
Proof.
  intros Hk Hn Hc Ha. unfold decrypt, check_aead_inputs. rewrite Hk, Hn.
  by rewrite !(proj2 (Z.ltb_ge _ _)) by lia.
Qed.

(** A random nonce and then the ciphertext: sealed, and opened again. *)
Lemma nonce_sealed key nonce p a :
  size key = 32 -> size nonce = 12 -> size p + 16 <= INT_MAX -> size a <= INT_MAX ->
  let ct := prim_gcm_seal key nonce p a in
  encrypt key nonce p a = Ret ct /\ size (nonce ++ ct) = size p + 28 /\
  decrypt key (ztake 12 (nonce ++ ct)) (zdrop 12 (nonce ++ ct)) a = Ret (Some p).
Proof.
  intros Hk Hn Hp Ha. pose proof (size_nonneg p). simpl. split_and!.
  - apply encrypt_ok; lia || done.
  - rewrite size_app, gcm_seal_size, Hn. lia.
  - rewrite <- Hn, ztake_app, zdrop_app. rewrite decrypt_ok by (rewrite ?gcm_seal_size; done || lia).
    by rewrite gcm_open_seal.
Qed.

Lemma protect_secret_eq salt nonce secret passphrase label n :
  size salt = 16 -> size nonce = 12 ->
  protect_secret salt nonce secret passphrase label n =
  if is_empty passphrase then Throw "The passphrase is empty" else
  if (n <? MIN_SCRYPT_LOG2_N) || (MAX_SCRYPT_LOG2_N <? n) then Throw "Key derivation cost is out of range" else
  let h := protected_prefix n ++ salt ++ nonce in
  let! c := encrypt (scrypt_key passphrase salt n SCRYPT_R SCRYPT_P) nonce secret (h ++ label) in Ret (h ++ c).
Proof.
  intros Hsalt Hnonce. unfold protect_secret. do 2 (case_match; [done|]). cbv zeta.
  match goal with |- context [protected_aad ?b label] => replace b with (protected_prefix n ++ salt ++ nonce) end.
  2: { unfold protected_prefix. by rewrite <- !app_assoc. }
  unfold protected_aad. by rewrite <- (protected_header_size n salt nonce), ztake_all.
Qed.

Lemma byte9 (l : bytes) : 9 <= size l ->
  exists b0 b1 b2 b3 b4 b5 b6 b7 b8 r, l = [b0; b1; b2; b3; b4; b5; b6; b7; b8] ++ r.
Proof.
  unfold size. intros Hl.
  destruct l as [|b0 [|b1 [|b2 [|b3 [|b4 [|b5 [|b6 [|b7 [|b8 l]]]]]]]]]; simpl in Hl; try lia. by repeat eexists.
Qed.

Lemma byte_of_Z_eq b z : Z_of_byte b = z -> b = byte_of_Z z.
Proof. intros <-. by rewrite byte_of_Z_of_byte. Qed.

(** The layout of a file that passes the checks of [unprotect_secret]. *)
Lemma protected_layout blob :
  is_protected_blob blob = true -> PROTECTED_HEADER_SIZE + 16 <= size blob ->
  byte_at blob 4 = PROTECTED_VERSION -> byte_at blob 5 = KDF_SCRYPT ->
  byte_at blob 7 = SCRYPT_R -> byte_at blob 8 = SCRYPT_P ->
  exists salt nonce ct, size salt = 16 /\ size nonce = 12 /\
    blob = protected_prefix (byte_at blob 6) ++ salt ++ nonce ++ ct.
Proof.
  unfold is_protected_blob. intros Hm Hs. change (PROTECTED_HEADER_SIZE + 16) with 53 in Hs. bool_prop.
  destruct (byte9 blob) as (b0&b1&b2&b3&b4&b5&b6&b7&b8&r&->); [lia|].
  unfold byte_at. simpl. intros H4%byte_of_Z_eq H5%byte_of_Z_eq H7%byte_of_Z_eq H8%byte_of_Z_eq.
  change (ztake 4 ([b0;b1;b2;b3;b4;b5;b6;b7;b8] ++ r)) with [b0;b1;b2;b3] in *.
  match goal with Hm : [b0;b1;b2;b3] = PROTECTED_MAGIC |- _ => injection Hm as -> -> -> -> end.
  rewrite size_app in Hs. change (size [_;_;_;_;_;_;_;_;_]) with 9 in Hs.
  exists (ztake 16 r), (ztake 12 (zdrop 16 r)), (zdrop 12 (zdrop 16 r)).
  rewrite (ztake_zdrop (zdrop 16 r)), (ztake_zdrop r).
  rewrite !size_ztake by (rewrite ?size_zdrop; lia).
  split_and!; [done..|]. unfold protected_prefix. by rewrite byte_of_Z_of_byte, H4, H5, H7, H8.
Qed.

Lemma protected_blob_size blob n salt nonce ct :
  size salt = 16 -> size nonce = 12 -> blob = protected_prefix n ++ salt ++ nonce ++ ct ->
  size blob = 37 + size ct.
Proof.
  intros Hs Hn ->. rewrite !size_app, Hs, Hn. change (size (protected_prefix _)) with 9. lia.
Qed.

(** The header of a protected key reads back. *)
Lemma protected_header n r :
  MIN_SCRYPT_LOG2_N <= n <= MAX_SCRYPT_LOG2_N ->
  is_protected_blob (protected_prefix n ++ r) = true /\
  byte_at (protected_prefix n ++ r) 4 = PROTECTED_VERSION /\ byte_at (protected_prefix n ++ r) 5 = KDF_SCRYPT /\
  byte_at (protected_prefix n ++ r) 6 = n /\
  byte_at (protected_prefix n ++ r) 7 = SCRYPT_R /\ byte_at (protected_prefix n ++ r) 8 = SCRYPT_P.
Proof.
  intros Hn. split_and!; try reflexivity.
  - unfold is_protected_blob. rewrite size_app, (proj2 (Z.leb_le _ _)); [by apply bool_decide_eq_true|].
    pose proof (size_nonneg r). change (size (protected_prefix n)) with 9. lia.
  - change (Z_of_byte (byte_of_Z n) = n). rewrite Z_of_byte_of_Z. apply Z.mod_small.
    unfold MIN_SCRYPT_LOG2_N, MAX_SCRYPT_LOG2_N in Hn. lia.
Qed.

Lemma slice {A} (a b c : list A) n m : size a = n -> size b = m -> ztake m (zdrop n (a ++ b ++ c)) = b.
Proof. intros <- <-. by rewrite zdrop_app, ztake_app. Qed.

(** What [unprotect_secret] does with a file of that layout. *)
Lemma unprotect_layout n salt nonce ct passphrase label :
  MIN_SCRYPT_LOG2_N <= n <= MAX_SCRYPT_LOG2_N -> size salt = 16 -> size nonce = 12 -> 16 <= size ct ->
  size ct <= INT_MAX -> size label <= INT_MAX - PROTECTED_HEADER_SIZE ->
  unprotect_secret (protected_prefix n ++ salt ++ nonce ++ ct) passphrase label =
  if is_empty passphrase then Ret None else
  Ret (prim_gcm_open (scrypt_key passphrase salt n SCRYPT_R SCRYPT_P) nonce ct
         ((protected_prefix n ++ salt ++ nonce) ++ label)).
Proof.
  intros Hn Hsalt Hnonce Hct Hmax Hl. unfold unprotect_secret.
  destruct (protected_header n (salt ++ nonce ++ ct) Hn) as (-> & -> & -> & -> & -> & ->).
  rewrite !Z.eqb_refl, !size_app, Hsalt, Hnonce. change (size (protected_prefix n)) with 9.
  rewrite !(proj2 (Z.ltb_ge _ _)) by (change (PROTECTED_HEADER_SIZE + 16) with 53; lia). cbn [negb orb]. cbv zeta.
  destruct (is_empty passphrase); [done|].
  rewrite (slice (protected_prefix n) salt) by done.
  rewrite (app_assoc _ salt), (slice (_ ++ salt) nonce) by (rewrite ?size_app, ?Hsalt; done).
  rewrite <- (app_assoc _ salt), (app_assoc salt nonce), (app_assoc _ (salt ++ nonce)).
  set (h := protected_prefix n ++ salt ++ nonce).
  assert (size h = PROTECTED_HEADER_SIZE) as Hh by (unfold h; rewrite !size_app, Hsalt, Hnonce; reflexivity).
  unfold decrypt, check_aead_inputs, protected_aad. rewrite <- Hh, zdrop_app, ztake_app.
  unfold scrypt_key at 1. rewrite scrypt_size, Hnonce, size_app, Hh, !(proj2 (Z.ltb_ge _ _)) by lia. done.
Qed.

(** What [protect_secret] writes is marked as protected, opens again, and is not
    much longer than the secret. *)
Lemma protect_layout salt nonce secret passphrase label n blob :
  size salt = 16 -> size nonce = 12 -> protect_secret salt nonce secret passphrase label n = Ret blob ->
  is_protected_blob blob = true /\ size blob = size secret + 53.
Proof.
  intros Hsalt Hnonce Hp. rewrite protect_secret_eq in Hp by done. destruct (is_empty passphrase); [done|].
  destruct (_ || _); [done|]. cbv zeta in Hp. destruct (encrypt _ _ _ _) as [c|] eqn:Ec; [|done].
  apply encrypt_ret in Ec. apply Ret_inj in Hp as <-. pose proof (size_nonneg secret). split.
  - unfold is_protected_blob, protected_prefix. rewrite <- !app_assoc. apply andb_true_intro. split.
    + rewrite size_app. change (size PROTECTED_MAGIC) with 4. set (r := _ ++ _). pose proof (size_nonneg r). apply Z.leb_le. lia.
    + by rewrite (ztake_app PROTECTED_MAGIC), bool_decide_true.
  - rewrite size_app, protected_header_size, Ec, gcm_seal_size by done. unfold PROTECTED_HEADER_SIZE, PROTECTED_SALT_SIZE, PROTECTED_NONCE_SIZE. lia.
Qed.

Lemma protect_total salt nonce secret passphrase label n :
  size salt = 16 -> size nonce = 12 -> passphrase <> [] -> MIN_SCRYPT_LOG2_N <= n <= MAX_SCRYPT_LOG2_N ->
  size secret <= INT_MAX -> size label <= INT_MAX - PROTECTED_HEADER_SIZE ->
  exists blob, protect_secret salt nonce secret passphrase label n = Ret blob.
Proof.
  intros Hsalt Hnonce Hp Hn Hs Hl. rewrite protect_secret_eq by done. destruct passphrase; [done|]. cbn [is_empty].
  rewrite !(proj2 (Z.ltb_ge _ _)) by lia. cbn [orb]. cbv zeta.
  rewrite encrypt_ok; [by eexists|apply scrypt_size|done|done|]. rewrite size_app, protected_header_size by done. lia.
Qed.

Lemma unprotect_protect salt nonce secret passphrase label n blob :
  size salt = 16 -> size nonce = 12 -> size blob <= INT_MAX -> size label <= INT_MAX - PROTECTED_HEADER_SIZE ->
  protect_secret salt nonce secret passphrase label n = Ret blob ->
  unprotect_secret blob passphrase label = Ret (Some secret).
Proof.
  intros Hsalt Hnonce Hb Hl Hp. rewrite protect_secret_eq in Hp by done.
  destruct (is_empty passphrase) eqn:He; [done|]. destruct (_ || _) eqn:Hn; [done|]. bool_prop.
  cbv zeta in Hp.
  destruct (encrypt _ _ _ _) as [c|] eqn:Ec; [|done]. apply encrypt_ret in Ec. apply Ret_inj in Hp as <-.
  pose proof (f_equal size Ec) as Hcs. rewrite gcm_seal_size in Hcs. pose proof (size_nonneg secret).
  rewrite size_app, protected_header_size in Hb by done. assert (0 <= PROTECTED_HEADER_SIZE) by done.
  rewrite <- !app_assoc, unprotect_layout, He by (done || lia). by rewrite Ec, gcm_open_seal.
Qed.

(** A protected key opens to a secret exactly when it is a protection of
    that secret under the same passphrase and label: what [protect_secret]
    writes, [unprotect_secret] returns, and a file that opens (an altered one, or
    one made for another label, included) is one that [protect_secret] would have
    written for that secret, passphrase and label, with the salt, nonce and cost
    the file carries. *)
Theorem unprotect_exact blob secret passphrase label :
  size blob <= INT_MAX -> size label <= INT_MAX - PROTECTED_HEADER_SIZE ->
  unprotect_secret blob passphrase label = Ret (Some secret) <->
  exists salt nonce n, size salt = 16 /\ size nonce = 12 /\ 0 <= n < 256 /\
    protect_secret salt nonce secret passphrase label n = Ret blob.
Proof.
  intros Hb Hl. split.
  - intros Hu. pose proof Hu as Hu'. unfold unprotect_secret in Hu'.
    repeat match type of Hu' with (if ?b then _ else _) = Ret (Some _) => destruct b eqn:?; try discriminate Hu' end.
    bool_prop. destruct (protected_layout blob) as (salt & nonce & ct & Hsalt & Hnonce & E); [done..|].
    pose proof (protected_blob_size _ _ _ _ _ Hsalt Hnonce E) as Hsz.
    rewrite E, unprotect_layout in Hu by (done || (change (PROTECTED_HEADER_SIZE + 16) with 53 in *; lia)).
    rewrite Heqb2 in Hu. apply Ret_inj, gcm_open_only in Hu.
    pose proof (f_equal size Hu) as Hcs. rewrite gcm_seal_size in Hcs.
    exists salt, nonce, (byte_at blob 6). split_and!; [done..|apply Z_of_byte_range|apply Z_of_byte_range|].
    rewrite protect_secret_eq, Heqb2, !(proj2 (Z.ltb_ge _ _)) by done. cbn [orb]. cbv zeta.
    rewrite encrypt_ok; [|apply scrypt_size|done|lia|rewrite size_app, protected_header_size by done; lia].
    unfold exc_bind. rewrite <- Hu. by rewrite <- !app_assoc, <- E.
  - intros (salt & nonce & n & Hsalt & Hnonce & _ & Hp). by apply (unprotect_protect salt nonce secret passphrase label n).
Qed.
End protected.

(** With the instance of this file: a key protected and opened again. *)
Lemma unprotect_exact_witness :
  exists blob, size blob <= INT_MAX /\
    unprotect_secret blob (str "pass") (str "private_kem") = Ret (Some (str "secret")).
Proof.
  set (salt := replicate 16 Byte.x07). set (nonce := replicate 12 Byte.x09).
  destruct (protect_secret salt nonce (str "secret") (str "pass") (str "private_kem") 12) as [blob|] eqn:E;
    [|vm_compute in E; discriminate E].
  exists blob. vm_compute in E. injection E as <-. split; [vm_compute; discriminate|].
  apply (unprotect_exact (H := toy)); [vm_compute; discriminate..|].
  exists salt, nonce, 12. split_and!; [vm_compute; congruence..|]. vm_compute. reflexivity.
Defined.

(** ** Fingerprints *)

Lemma format_from_strip i fp :
  Forall (fun c => c <> Byte.x0a /\ c <> Byte.x20) fp ->
  filter (fun c => c <> Byte.x0a /\ c <> Byte.x20) (format_from i fp) = fp.
Proof.
  intros H. revert i. induction H as [|c fp [H1 H2] _ IH]; intros i; [done|]. cbn [format_from].
  rewrite filter_app, (filter_cons _ c), decide_True by done. rewrite IH.
  destruct ((0 <? i) && _); [|done]. by destruct (i mod 32 =? 0).
Qed.
