(* ===== verification/Archive.v ===== *)
(** * Chat archives, the client's half: client/archive.h and archive.cpp

    How an entry is encrypted, and how a copy of an archive's hash chain is
    checked. The relay keeps the chain ([RelayStore.append_entry]); that what it
    keeps always passes [verify_chain] is proved in [RelayArchive]. *)

From Stdlib Require Import ZArith Lia.
From stdpp Require Import base list strings.
From S2P Require Import Prelude Wire RelayProtocol RelayProtocolSpec Crypto.
#[local] Open Scope Z_scope.

Section archive.
Context `{P : Primitives}.

(** src/client/archive.h 15-15 KEY_BYTES *)
Definition KEY_BYTES : Z := 32.
(** src/client/archive.h 16-16 NONCE_BYTES *)
Definition ENTRY_NONCE_BYTES : Z := 12.
(** src/client/archive.h 17-17 TAG_BYTES *)
Definition TAG_BYTES : Z := 16.
(** src/client/archive.h 19-19 MAX_RECORD_BYTES *)
Definition MAX_RECORD_BYTES : Z := MAX_ARCHIVE_ENTRY_BYTES - ENTRY_NONCE_BYTES - TAG_BYTES.

(** src/client/archive.cpp 12-12 ENTRY_AAD_LABEL *)
Definition ENTRY_AAD_LABEL : bytes := str "pq-suite v3 archive entry content".

(** src/client/archive.cpp 14-20 entry_aad *)
Definition entry_aad (archive_id : bytes) (number : Z) : bytes :=
  let b := write_string [] ENTRY_AAD_LABEL in
  let b := write_blob b archive_id in
  write_u64 b number.

(** src/client/archive.cpp 24-24 genesis_hash *)
Definition genesis_hash (archive_id : bytes) : bytes := sha256 (archive_genesis_input archive_id).

(** src/client/archive.cpp 26-28 entry_hash *)
Definition entry_hash (archive_id : bytes) (number : Z) (previous_hash blob : bytes) : bytes :=
  sha256 (archive_entry_hash_input archive_id number previous_hash blob).

(** The nonce is what [random_bytes] returned.
    src/client/archive.cpp 30-38 seal_entry *)
Definition seal_entry (nonce archive_key archive_id : bytes) (number : Z) (record : bytes) : exc bytes :=
  if negb (size archive_key =? KEY_BYTES) then Throw "The archive key has the wrong size" else
  if is_empty record || (MAX_RECORD_BYTES <? size record)
  then Throw "That record does not fit in an archive entry" else
  let! ciphertext := encrypt archive_key nonce record (entry_aad archive_id number) in
  Ret (nonce ++ ciphertext).

(** src/client/archive.cpp 40-48 open_entry *)
Definition open_entry (archive_key archive_id : bytes) (number : Z) (blob : bytes) : option bytes :=
  if negb (size archive_key =? KEY_BYTES) || (size blob <? ENTRY_NONCE_BYTES + TAG_BYTES + 1) then None else
  let nonce := ztake ENTRY_NONCE_BYTES blob in
  let ciphertext := zdrop ENTRY_NONCE_BYTES blob in
  catch (decrypt archive_key nonce ciphertext (entry_aad archive_id number)).

(** src/client/archive.h 35-38 Head *)
Record Head := mkHead { Head_number : Z; Head_hash : bytes }.

(** src/client/archive.cpp 50-61 verify_chain *)
Fixpoint verify_chain (archive_id : bytes) (head : Head) (entries : list ArchiveEntry) : option Head :=
  match entries with
  | [] => Some head
  | e :: entries =>
      if negb (e.(ArchiveEntry_number) =? u64 (head.(Head_number) + 1)) then None else
      if negb e.(ArchiveEntry_tombstone)
         && negb (bool_decide (e.(ArchiveEntry_hash) =
               entry_hash archive_id e.(ArchiveEntry_number) head.(Head_hash) e.(ArchiveEntry_ciphertext)))
      then None else
      verify_chain archive_id (mkHead e.(ArchiveEntry_number) e.(ArchiveEntry_hash)) entries
  end.

(** ** The chain *)

(** Checking a list in two parts. *)
Lemma verify_chain_app id h l k :
  verify_chain id h (l ++ k) = let? h' := verify_chain id h l in verify_chain id h' k.
Proof. revert h. induction l as [|e l IH]; intros h; simpl; [done|]. do 2 (case_match; [done|]). apply IH. Qed.

(** An entry replaced by its tombstone: same number and hash, no content. *)
Definition tombstone_of (e : ArchiveEntry) : ArchiveEntry :=
  mkArchiveEntry e.(ArchiveEntry_number) e.(ArchiveEntry_hash) [] true.

(** A chain with some entries replaced by tombstones still leads to its head. *)
Lemma verify_chain_redact id h l l' h' :
  Forall2 (fun e e' => e' = e \/ e' = tombstone_of e) l l' ->
  verify_chain id h l = Some h' -> verify_chain id h l' = Some h'.
Proof.
  intros Hf. revert h. induction Hf as [|e e' l l' He _ IH]; intros h; simpl; [done|].
  destruct (negb (_ =? _)) eqn:E1; [done|]. destruct (negb _ && _) eqn:E2; [done|]. intros H.
  destruct He as [->| ->]; simpl; rewrite E1; [rewrite E2|]; by apply IH.
Qed.

Lemma verify_chain_snoc id h l e h' :
  verify_chain id h (l ++ [e]) = Some h' <->
  exists hm, verify_chain id h l = Some hm /\ e.(ArchiveEntry_number) = u64 (hm.(Head_number) + 1) /\
    (e.(ArchiveEntry_tombstone) = false ->
     e.(ArchiveEntry_hash) = entry_hash id e.(ArchiveEntry_number) hm.(Head_hash) e.(ArchiveEntry_ciphertext)) /\
    h' = mkHead e.(ArchiveEntry_number) e.(ArchiveEntry_hash).
Proof.
  rewrite verify_chain_app. split.
  - destruct (verify_chain id h l) as [hm|]; [|done]. simpl.
    destruct (negb (_ =? _)) eqn:E1; [done|]. destruct (negb _ && _) eqn:E2; [done|]. bool_prop.
    intros [= <-]. exists hm. split_and!; [done..| |done]. intros Ht. rewrite Ht in E2. simpl in E2. by bool_prop.
  - intros (hm & -> & Hn & Hh & ->). simpl. rewrite (proj2 (Z.eqb_eq _ _) Hn). simpl.
    destruct (ArchiveEntry_tombstone e); simpl; [done|]. by rewrite bool_decide_eq_true_2 by auto.
Qed.

(** A chain's head is its start plus its length. *)
Lemma verify_chain_number id h l h' :
  verify_chain id h l = Some h' -> 0 <= h.(Head_number) -> h.(Head_number) + size l < 2 ^ 64 ->
  h'.(Head_number) = h.(Head_number) + size l.
Proof.
  revert h'. induction l as [|e l IH] using rev_ind; intros h' Hv Hh Hb.
  - injection Hv as <-. rewrite size_nil. lia.
  - apply verify_chain_snoc in Hv as (hm & Hv & Hn & _ & ->). rewrite size_app, size_cons, size_nil in Hb |- *.
    apply IH in Hv; [|lia..]. pose proof (size_nonneg l). simpl. rewrite Hn, u64_small; [lia|]. unfold in_u64. lia.
Qed.

(** What is hashed along a chain. *)
Fixpoint chain_inputs (id : bytes) (h : Head) (l : list ArchiveEntry) : list bytes :=
  match l with
  | [] => []
  | e :: l => archive_entry_hash_input id e.(ArchiveEntry_number) h.(Head_hash) e.(ArchiveEntry_ciphertext)
              :: chain_inputs id (mkHead e.(ArchiveEntry_number) e.(ArchiveEntry_hash)) l
  end.

Lemma entry_hash_input_inj id n p c n' p' c' :
  blob_ok id -> in_u64 n -> blob_ok p -> blob_ok c -> in_u64 n' -> blob_ok p' -> blob_ok c' ->
  archive_entry_hash_input id n p c = archive_entry_hash_input id n' p' c' -> n = n' /\ p = p' /\ c = c'.
Proof.
  intros ? ? ? ? ? ? ? E.
  assert (signed_body (Hashed_entry id n p c) = signed_body (Hashed_entry id n' p' c')) as Eb.
  { change (signing_input (Hashed_entry id n p c) = signing_input (Hashed_entry id n' p' c')) in E.
    rewrite !signing_input_eq in E. by apply app_inv_head in E. }
  apply signed_body_inj in Eb; [by simplify_eq|done..].
Qed.

Lemma chain_inputs_snoc id h l e hm :
  verify_chain id h l = Some hm ->
  chain_inputs id h (l ++ [e]) =
  chain_inputs id h l
    ++ [archive_entry_hash_input id e.(ArchiveEntry_number) hm.(Head_hash) e.(ArchiveEntry_ciphertext)].
Proof.
  revert h. induction l as [|x l IH]; intros h; simpl; [by intros [= <-]|].
  do 2 (case_match; [done|]). intros Hv. by rewrite (IH _ Hv).
Qed.

Definition head_ok (h : Head) : Prop := 0 <= h.(Head_number) /\ blob_ok h.(Head_hash).

Lemma verify_chain_head_ok id h l h' :
  verify_chain id h l = Some h' -> head_ok h -> Forall wf_ArchiveEntry l -> head_ok h'.
Proof.
  revert h. induction l as [|e l IH]; intros h; simpl; [by intros [= <-]|].
  do 2 (case_match; [done|]). intros Hv _ [(Hn & Hh & _) Hl]%Forall_cons. apply (IH _ Hv); [|done].
  split; simpl; [apply Hn|]. unfold blob_ok. by rewrite Hh.
Qed.

(** Two chains that agree up to the end or back to a deletion: the same entries; or
    the same entries after two of the same number and hash, at least one of them a
    tombstone and neither of those after them one. *)
Definition agree_since_deletion (l1 l2 : list ArchiveEntry) : Prop :=
  l1 = l2 \/
  exists p1 e1 p2 e2 s,
    l1 = p1 ++ e1 :: s /\ l2 = p2 ++ e2 :: s /\ size p1 = size p2 /\
    e1.(ArchiveEntry_number) = e2.(ArchiveEntry_number) /\ e1.(ArchiveEntry_hash) = e2.(ArchiveEntry_hash) /\
    (e1.(ArchiveEntry_tombstone) = true \/ e2.(ArchiveEntry_tombstone) = true) /\
    Forall (fun e => e.(ArchiveEntry_tombstone) = false) s.

Lemma agree_snoc l1 l2 e :
  e.(ArchiveEntry_tombstone) = false -> agree_since_deletion l1 l2 -> agree_since_deletion (l1 ++ [e]) (l2 ++ [e]).
Proof.
  intros He [->|(p1 & e1 & p2 & e2 & s & -> & -> & Hp & Hn & Hh & Ht & Hs)]; [by left|].
  right. exists p1, e1, p2, e2, (s ++ [e]). rewrite <- !app_assoc. split_and!; [done..|]. apply Forall_app. by repeat constructor.
Qed.

(** Without tombstones nothing is left open. *)
Lemma agree_no_tombstone l1 l2 :
  Forall (fun e => ArchiveEntry_tombstone e = false) l1 -> Forall (fun e => ArchiveEntry_tombstone e = false) l2 ->
  agree_since_deletion l1 l2 -> l1 = l2.
Proof.
  intros H1 H2 [->|(p1 & e1 & p2 & e2 & s & -> & -> & _ & _ & _ & Ht & _)]; [done|].
  apply Forall_app in H1 as [_ [? _]%Forall_cons], H2 as [_ [? _]%Forall_cons]. destruct Ht; congruence.
Qed.

(** Two chains to the same head agree, or two inputs along them collide. *)
Lemma chain_agrees id h l1 l2 h' :
  blob_ok id -> head_ok h ->
  h.(Head_number) + size l1 < 2 ^ 64 -> h.(Head_number) + size l2 < 2 ^ 64 ->
  Forall wf_ArchiveEntry l1 -> Forall wf_ArchiveEntry l2 ->
  verify_chain id h l1 = Some h' -> verify_chain id h l2 = Some h' ->
  agree_since_deletion l1 l2 \/
  exists x y, x ∈ chain_inputs id h l1 /\ y ∈ chain_inputs id h l2 /\ x <> y /\ sha256 x = sha256 y.
Proof.
  intros Hid Hh. revert l2 h'.
  induction l1 as [|e1 l1 IH] using rev_ind; intros l2 h' Hb1 Hb2 Hw1 Hw2 Hv1 Hv2;
    (pose proof (verify_chain_number _ _ _ _ Hv1 (proj1 Hh) Hb1) as Hn1;
     pose proof (verify_chain_number _ _ _ _ Hv2 (proj1 Hh) Hb2) as Hn2).
  { left. left. symmetry. apply size_zero_iff. rewrite size_nil in Hn1. lia. }
  destruct l2 as [|e2 l2 _] using rev_ind.
  { left. left. apply size_zero_iff. rewrite size_nil in Hn2. lia. }
  apply Forall_app in Hw1 as [Hw1 [We1 _]%Forall_cons], Hw2 as [Hw2 [We2 _]%Forall_cons].
  apply verify_chain_snoc in Hv1 as (m1 & Hv1 & Hx1 & Hh1 & ->), Hv2 as (m2 & Hv2 & Hx2 & Hh2 & [= Hn Hhash]).
  rewrite !size_app, !size_cons, !size_nil in *.
  destruct (ArchiveEntry_tombstone e1 || ArchiveEntry_tombstone e2) eqn:Et.
  { left. right. exists l1, e1, l2, e2, []. apply orb_true_iff in Et. simpl in *. by split_and!; try done; try lia. }
  apply orb_false_iff in Et as [Te1 Te2]. specialize (Hh1 Te1). specialize (Hh2 Te2).
  rewrite (chain_inputs_snoc _ _ _ _ _ Hv1), (chain_inputs_snoc _ _ _ _ _ Hv2).
  pose proof (verify_chain_head_ok _ _ _ _ Hv1 Hh Hw1) as [_ Hm1].
  pose proof (verify_chain_head_ok _ _ _ _ Hv2 Hh Hw2) as [_ Hm2].
  destruct (decide (archive_entry_hash_input id (ArchiveEntry_number e1) (Head_hash m1) (ArchiveEntry_ciphertext e1)
    = archive_entry_hash_input id (ArchiveEntry_number e2) (Head_hash m2) (ArchiveEntry_ciphertext e2))) as [E|E].
  - destruct We1 as (Hu1 & Hs1 & Hc1 & _), We2 as (Hu2 & Hs2 & Hc2 & _).
    apply entry_hash_input_inj in E as (_ & Ep & Ec); [|done..|by eapply size_is_u32|done|done|by eapply size_is_u32].
    assert (m1 = m2) as ->.
    { pose proof (verify_chain_number _ _ _ _ Hv1 (proj1 Hh) ltac:(lia)) as Hk1.
      pose proof (verify_chain_number _ _ _ _ Hv2 (proj1 Hh) ltac:(lia)) as Hk2.
      destruct m1, m2; simpl in *. f_equal; [lia|done]. }
    destruct (IH l2 m2) as [Ha|(x & y & Hx & Hy & ? & ?)]; [lia|lia|done..| |].
    + left. replace e2 with e1 by (destruct e1, e2; simpl in *; congruence). by apply agree_snoc.
    + right. exists x, y. split_and!; [apply elem_of_app; by left..|done|done].
  - right. eexists _, _. split_and!; [apply elem_of_app; right; left|apply elem_of_app; right; left|done|].
    unfold entry_hash in *. congruence.
Qed.

(** C17: an archive's head commits to what was not deleted. Of two chains of entries,
    as received (well formed, numbers below 2^64), that carry on from the same point
    and lead to the same head, and unless two different byte strings hashed along
    them have the same SHA-256: they have the same length; if neither has a
    tombstone they are the same entries; and in any case they have the same entries,
    content included, after the last tombstone in either, where both have the same
    number and hash. A tombstone's hash is taken as given, so nothing is said of
    what it replaced or of what comes before it. *)
Theorem chain_binds_content id h l1 l2 h' :
  blob_ok id -> head_ok h ->
  h.(Head_number) + size l1 < 2 ^ 64 -> h.(Head_number) + size l2 < 2 ^ 64 ->
  Forall wf_ArchiveEntry l1 -> Forall wf_ArchiveEntry l2 ->
  verify_chain id h l1 = Some h' -> verify_chain id h l2 = Some h' ->
  size l1 = size l2 /\
  ((Forall (fun e => ArchiveEntry_tombstone e = false) l1 -> Forall (fun e => ArchiveEntry_tombstone e = false) l2 -> l1 = l2) /\
   agree_since_deletion l1 l2 \/
   exists x y, x ∈ chain_inputs id h l1 /\ y ∈ chain_inputs id h l2 /\ x <> y /\ sha256 x = sha256 y).
Proof.
  intros Hid Hh Hb1 Hb2 Hw1 Hw2 Hv1 Hv2. split.
  - apply verify_chain_number in Hv1, Hv2; [lia|apply Hh|done|apply Hh|done].
  - destruct (chain_agrees id h l1 l2 h' Hid Hh Hb1 Hb2 Hw1 Hw2 Hv1 Hv2) as [Ha|Hc]; [left|by right].
    split; [|done]. intros H1 H2. by apply agree_no_tombstone.
Qed.

(** ** Entries *)

Context `{!PrimitiveLaws}.

Lemma entry_aad_size id n : size (entry_aad id n) = 49 + size id.
Proof.
  unfold entry_aad. rewrite write_u64_eq, write_blob_eq, write_string_eq, !size_app, size_be64, !size_blob.
  change (size ENTRY_AAD_LABEL) with 33. rewrite size_nil. lia.
Qed.

(** An archive entry opens to a record exactly when it is a sealing of that
    record for this archive and number under this key: sealing then opening gives
    the record back, and whatever opens is a sealing made with the nonce it
    carries. *)
Theorem open_entry_exact key id n blob record :
  size id = ARCHIVE_ID_BYTES -> size blob <= MAX_ARCHIVE_ENTRY_BYTES ->
  open_entry key id n blob = Some record <->
  exists nonce, size nonce = ENTRY_NONCE_BYTES /\ seal_entry nonce key id n record = Ret blob.
Proof.
  intros Hid Hb. pose proof (entry_aad_size id n) as Ha. rewrite Hid in Ha.
  assert (MAX_RECORD_BYTES + 28 = MAX_ARCHIVE_ENTRY_BYTES) as Hmax by done.
  assert (MAX_ARCHIVE_ENTRY_BYTES <= INT_MAX) as Hint by done.
  unfold open_entry, seal_entry. split.
  - destruct (_ || _) eqn:Ec; [done|]. bool_prop.
    change (ENTRY_NONCE_BYTES + TAG_BYTES + 1) with 29 in *. intros Ho.
    exists (ztake ENTRY_NONCE_BYTES blob). rewrite size_ztake by (unfold ENTRY_NONCE_BYTES; lia). split; [done|].
    unfold catch in Ho. destruct (decrypt _ _ _ _) as [r|] eqn:Ed; [subst r|done].
    apply decrypt_ret in Ed. apply gcm_open_only in Ed. pose proof (f_equal size Ed) as Hs.
    rewrite gcm_seal_size, size_zdrop in Hs by (unfold ENTRY_NONCE_BYTES; lia). unfold ENTRY_NONCE_BYTES in Hs.
    rewrite (proj2 (Z.eqb_eq _ _)) by done. cbn [negb].
    rewrite (proj2 (is_empty_false record)), (proj2 (Z.ltb_ge _ _)) by lia. cbn [orb].
    rewrite encrypt_ok; [|done|rewrite size_ztake; unfold ENTRY_NONCE_BYTES; lia|lia|rewrite Ha; done].
    cbn [exc_bind]. by rewrite <- Ed, ztake_zdrop.
  - intros (nonce & Hn & Ho). destruct (negb _) eqn:Ek; [done|]. destruct (_ || _) eqn:Er; [done|]. bool_prop.
    destruct (encrypt _ _ _ _) as [c|] eqn:Ee; [|done]. apply encrypt_ret in Ee. injection Ho as <-.
    pose proof (f_equal size Ee) as Hs. rewrite gcm_seal_size in Hs.
    match goal with Hne : is_empty record = false |- _ => apply is_empty_false in Hne end.
    rewrite size_app, Hn, (proj2 (Z.ltb_ge _ _)); cycle 1.
    { change (ENTRY_NONCE_BYTES + TAG_BYTES + 1) with 29. unfold ENTRY_NONCE_BYTES. lia. }
    cbn [negb orb]. rewrite <- Hn, ztake_app, zdrop_app.
    rewrite size_app in Hb. pose proof (size_nonneg nonce).
    rewrite decrypt_ok; [|done|done|lia|rewrite Ha; done]. simpl. by rewrite Ee, gcm_open_seal.
Qed.
End archive.

(** A record sealed and opened. *)
Lemma open_entry_exact_witness :
  let key := replicate 32 Byte.x01 in
  let id := replicate 16 Byte.x02 in
  let nonce := replicate 12 Byte.x03 in
  seal_entry nonce key id 7 (str "hello") = Ret (nonce ++ str "hello" ++ replicate 16 Byte.x00) /\
  open_entry key id 7 (nonce ++ str "hello" ++ replicate 16 Byte.x00) = Some (str "hello").
Proof.
  intros key id nonce. split; [vm_compute; reflexivity|].
  apply open_entry_exact; [reflexivity|vm_compute; discriminate|].
  exists nonce. split; vm_compute; reflexivity.
Defined.

(** Two chains to the same head: the first entry was deleted in one of them. *)
Definition chain_archive : bytes := replicate 16 Byte.x01.
Definition chain_entry (n : Z) (previous blob : bytes) : ArchiveEntry :=
  mkArchiveEntry n (entry_hash chain_archive n previous blob) blob false.
Definition chain_first : ArchiveEntry := chain_entry 1 (genesis_hash chain_archive) [Byte.x05].
Definition chain_second : ArchiveEntry := chain_entry 2 chain_first.(ArchiveEntry_hash) [Byte.x06].

Lemma chain_binds_content_witness :
  let h := mkHead 0 (genesis_hash chain_archive) in
  let l1 := [chain_first; chain_second] in
  let l2 := [tombstone_of chain_first; chain_second] in
  l1 <> l2 /\
  (agree_since_deletion l1 l2 \/
   exists x y, x ∈ chain_inputs chain_archive h l1 /\ y ∈ chain_inputs chain_archive h l2 /\ x <> y /\ sha256 x = sha256 y).
Proof.
  intros h l1 l2. split; [vm_compute; discriminate|].
  destruct (chain_binds_content chain_archive h l1 l2 (mkHead 2 chain_second.(ArchiveEntry_hash))) as [_ [[_ Ha]|Hc]];
    [repeat constructor; vm_compute; congruence.. |by left|by right].
Defined.

(** A tombstone holds nothing before it in place: the entry it replaces, and every
    entry before that, can be any other. *)
Example tombstone_unbinds :
  let h := mkHead 0 (genesis_hash chain_archive) in
  let other := chain_entry 1 (genesis_hash chain_archive) [Byte.x07] in
  let deleted := tombstone_of chain_second in
  other <> chain_first /\
  verify_chain chain_archive h [chain_first; deleted] = verify_chain chain_archive h [other; deleted] /\
  verify_chain chain_archive h [chain_first; deleted] <> None.
Proof. split_and!; vm_compute; [discriminate|reflexivity|discriminate]. Qed.
