(* ===== verification/Prekey.v ===== *)
(** * One-time prekeys: client/prekey.h and prekey.cpp

    The public half a relay hands out, signed by its owner, and the private half
    that stays on the device: their formats, how they are made and how a sender
    checks one. Random bytes are arguments of [prekey_generate]. *)

From Stdlib Require Import ZArith Lia.
From stdpp Require Import base list strings.
From S2P Require Import Prelude Wire RelayProtocol RelayProtocolSpec Crypto.
#[local] Open Scope Z_scope.
#[local] Open Scope wire_scope.

(** src/client/prekey.h 16-16 ID_BYTES *)
Definition PREKEY_ID_SIZE : Z := 16.
(** src/client/prekey.h 17-17 X25519_BYTES *)
Definition X25519_BYTES : Z := 32.
(** src/client/prekey.h 18-18 MAX_SIGNATURE_BYTES *)
Definition MAX_SIGNATURE_BYTES : Z := 8192.

(** src/client/prekey.h 21-28 Prekey *)
Record Prekey := mkPrekey {
  Prekey_id : bytes;
  Prekey_kem_public : bytes;
  Prekey_x25519_public : bytes;
  Prekey_last_resort : bool;
  Prekey_created_at : Z;
  Prekey_signature : bytes;
}.

(** src/client/prekey.h 31-34 Secret *)
Record Secret := mkSecret { Secret_kem_private : bytes; Secret_x25519_private : bytes }.

(** src/client/prekey.cpp 12-12 SIGN_LABEL *)
Definition PREKEY_SIGN_LABEL : bytes := str "pq-suite v3 prekey".

(** src/client/prekey.cpp 14-23 signing_input *)
Definition prekey_signing_input (p : Prekey) : bytes :=
  let b := write_string [] PREKEY_SIGN_LABEL in
  let b := write_blob b p.(Prekey_id) in
  let b := write_blob b p.(Prekey_kem_public) in
  let b := write_blob b p.(Prekey_x25519_public) in
  let b := b ++ [byte_of_Z (if p.(Prekey_last_resort) then 1 else 0)] in
  write_u64 b p.(Prekey_created_at).

Section prekey.
Context `{P : Primitives}.

(** src/client/prekey.cpp 25-28 well_formed *)
Definition prekey_well_formed (p : Prekey) : bool :=
  (size p.(Prekey_id) =? PREKEY_ID_SIZE) && (size p.(Prekey_kem_public) =? kem_public_key_size)
  && (size p.(Prekey_x25519_public) =? X25519_BYTES) && negb (is_empty p.(Prekey_signature))
  && (size p.(Prekey_signature) <=? MAX_SIGNATURE_BYTES).

(** The random bytes are those of the two key pairs, the ID and the signature.
    src/client/prekey.cpp 32-45 generate *)
Definition prekey_generate (kem_seed x_private id rand : bytes) (identity_private_key : bytes)
    (last_resort : bool) (now : Z) : exc (Prekey * Secret) :=
  let '(kem_public, kem_private) := generate_kem_keypair kem_seed in
  let '(x_public, x_private) := generate_x25519 x_private in
  let unsigned := mkPrekey id kem_public x_public last_resort now [] in
  let! signature := sign rand (prekey_signing_input unsigned) identity_private_key in
  Ret (mkPrekey id kem_public x_public last_resort now signature, mkSecret kem_private x_private).

(** src/client/prekey.cpp 47-54 verify *)
Definition prekey_verify (p : Prekey) (identity_public_key : bytes) : bool :=
  if negb (prekey_well_formed p) then false else
  verify (prekey_signing_input p) p.(Prekey_signature) identity_public_key.

(** src/client/prekey.cpp 56-61 encode *)
Definition encode_prekey (p : Prekey) : exc bytes :=
  if negb (prekey_well_formed p) then Throw "That prekey is not valid" else
  Ret (write_blob (prekey_signing_input p) p.(Prekey_signature)).

(** src/client/prekey.cpp 63-83 decode *)
Definition decode_prekey (data : bytes) : option Prekey :=
  let '(label, off) := read_string data 0 64 in
  let '(id, off) := read_blob data off PREKEY_ID_SIZE in
  let '(kem, off) := read_blob data off 4096 in
  let '(x, off) := read_blob data off X25519_BYTES in
  let? label := label in
  if negb (bool_decide (label = PREKEY_SIGN_LABEL)) then None else
  let? id := id in
  let? kem := kem in
  let? x := x in
  if size data <=? off then None else
  let flag := byte_at data off in
  let off := off + 1 in
  let '(created, off) := read_u64 data off in
  let '(sig, off) := read_blob data off MAX_SIGNATURE_BYTES in
  if 1 <? flag then None else
  let? created := created in
  let? sig := sig in
  if negb (off =? size data) then None else
  let p := mkPrekey id kem x (flag =? 1) created sig in
  if negb (prekey_well_formed p) then None else Some p.

(** src/client/prekey.cpp 85-91 encode_secret *)
Definition encode_secret (s : Secret) : exc bytes :=
  if negb (size s.(Secret_kem_private) =? kem_secret_key_size)
     || negb (size s.(Secret_x25519_private) =? X25519_BYTES)
  then Throw "That prekey secret is not valid" else
  Ret (write_blob (write_blob [] s.(Secret_kem_private)) s.(Secret_x25519_private)).

(** src/client/prekey.cpp 93-99 decode_secret *)
Definition decode_secret (data : bytes) : option Secret :=
  let '(kem, off) := read_blob data 0 8192 in
  let '(x, off) := read_blob data off X25519_BYTES in
  let? kem := kem in
  let? x := x in
  if negb (off =? size data) || negb (size kem =? kem_secret_key_size) || negb (size x =? X25519_BYTES)
  then None else Some (mkSecret kem x).
End prekey.

(** ** Flags *)

(** A flag byte is its boolean. *)
Lemma flag_byte b : Z_of_byte b <= 1 -> byte_of_Z (if Z_of_byte b =? 1 then 1 else 0) = b.
Proof.
  intros Hb. pose proof (Z_of_byte_range b). rewrite <- (byte_of_Z_of_byte b) at 2. f_equal.
  destruct (Z_of_byte b =? 1) eqn:E; bool_prop; lia.
Qed.

Lemma flag_byte_at (f : bool) : Z_of_byte (byte_of_Z (if f then 1 else 0)) = if f then 1 else 0.
Proof. by destruct f. Qed.

(** ** The formats *)

Section formats.
Context `{PrimitiveLaws}.

Lemma prekey_well_formed_spec p :
  prekey_well_formed p = true <->
  size p.(Prekey_id) = PREKEY_ID_SIZE /\ size p.(Prekey_kem_public) = kem_public_key_size /\
  size p.(Prekey_x25519_public) = X25519_BYTES /\ is_empty p.(Prekey_signature) = false /\
  size p.(Prekey_signature) <= MAX_SIGNATURE_BYTES.
Proof.
  unfold prekey_well_formed. rewrite !andb_true_iff, !Z.eqb_eq, negb_true_iff, Z.leb_le. tauto.
Qed.

(** What [encode_prekey] writes. *)
Lemma encode_prekey_eq p :
  write_blob (prekey_signing_input p) p.(Prekey_signature) =
  blob PREKEY_SIGN_LABEL ++ blob p.(Prekey_id) ++ blob p.(Prekey_kem_public) ++ blob p.(Prekey_x25519_public)
    ++ [byte_of_Z (if p.(Prekey_last_resort) then 1 else 0)] ++ be64 p.(Prekey_created_at) ++ blob p.(Prekey_signature).
Proof. unfold prekey_signing_input. encode_norm. done. Qed.

(** The sizes of a well-formed prekey, as the readers need them. *)
Lemma prekey_sizes p :
  prekey_well_formed p = true ->
  (in_u32 (size p.(Prekey_id)) /\ size p.(Prekey_id) <= PREKEY_ID_SIZE) /\
  (in_u32 (size p.(Prekey_kem_public)) /\ size p.(Prekey_kem_public) <= 4096) /\
  (in_u32 (size p.(Prekey_x25519_public)) /\ size p.(Prekey_x25519_public) <= X25519_BYTES) /\
  in_u32 (size p.(Prekey_signature)) /\ size p.(Prekey_signature) <= MAX_SIGNATURE_BYTES.
Proof.
  intros (Hi & Hk & Hx & Hs & Hm)%prekey_well_formed_spec.
  destruct algorithm_sizes as (? & _). destruct kem_sizes_pos as [? _].
  pose proof (size_nonneg p.(Prekey_signature)).
  unfold in_u32, PREKEY_ID_SIZE, X25519_BYTES, MAX_SIGNATURE_BYTES in *. lia.
Qed.

Lemma sign_label_ok : in_u32 (size PREKEY_SIGN_LABEL) /\ size PREKEY_SIGN_LABEL <= 64.
Proof. split; [split|]; vm_compute; congruence. Qed.

Lemma decode_prekey_fwd p :
  prekey_well_formed p = true -> in_u64 p.(Prekey_created_at) ->
  decode_prekey (write_blob (prekey_signing_input p) p.(Prekey_signature)) = Some p.
Proof.
  intros Hwf Hc. pose proof (prekey_sizes p Hwf) as ([? ?] & [? ?] & [? ?] & ? & ?).
  destruct sign_label_ok. rewrite encode_prekey_eq.
  match goal with |- decode_prekey ?d = _ => remember d as data eqn:Hd end. apply at_off_0_app in Hd.
  rewrite <- !app_assoc in Hd. unfold decode_prekey.
  repeat (read_fwd_step; try assumption; cbv beta iota zeta).
  rewrite bool_decide_eq_true_2 by reflexivity. cbn [negb app] in *.
  rewrite (at_off_cons_lt _ _ _ _ Hd).
  rewrite (byte_at_cons _ _ _ _ Hd), flag_byte_at.
  apply (at_off_app _ _ [_]) in Hd. change (size [_]) with 1 in Hd.
  repeat (read_fwd_step; try assumption; cbv beta iota zeta).
  rewrite flag_le, flag_eqb. cbv beta iota. decode_end. destruct p. simpl in *. by rewrite Hwf.
Qed.

(** Whatever decodes is well formed and is what [encode_prekey] writes for it. *)
Lemma decode_prekey_inv data p :
  decode_prekey data = Some p ->
  prekey_well_formed p = true /\ in_u64 p.(Prekey_created_at) /\
  data = write_blob (prekey_signing_input p) p.(Prekey_signature).
Proof.
  intros Hdec. unfold decode_prekey in Hdec. pose proof (at_off_0 data) as Hat.
  repeat (open_decode Hdec; bool_prop; subst). repeat (read_inv_step; subst).
  match goal with Hat : at_off _ ?o _, Hlt : ?o < _ |- _ =>
    destruct (byte_at_inv _ _ _ Hat Hlt) as (f & ? & -> & Ef & Hat'); clear Hat end.
  rewrite Ef in *. repeat (read_inv_step; subst).
  read_end.
  split_and!; [done..|]. rewrite encode_prekey_eq. simpl. rewrite flag_byte by done. by rewrite app_nil_r.
Qed.

Lemma decode_secret_spec s data :
  decode_secret data = Some s <-> encode_secret s = Ret data.
Proof.
  destruct algorithm_sizes as (_ & ? & _). unfold decode_secret, encode_secret. split.
  - intros Hdec. pose proof (at_off_0 data) as Hat.
    repeat (open_decode Hdec; bool_prop; subst). repeat (read_inv_step; subst).
    read_end.
    simpl. rewrite (proj2 (Z.eqb_eq _ _)), (proj2 (Z.eqb_eq _ _)) by done. simpl.
    encode_norm. by rewrite app_nil_r.
  - destruct (negb _ || negb _) eqn:E; [done|]. bool_prop. intros [= Hd]. symmetry in Hd.
    assert (in_u32 (size (Secret_kem_private s)) /\ in_u32 (size (Secret_x25519_private s))) as [? ?].
    { pose proof (size_nonneg (Secret_kem_private s)). unfold in_u32, X25519_BYTES in *. lia. }
    encode_at Hd. repeat (read_fwd_step; try assumption; try lia; cbv beta iota zeta). decode_end.
    destruct s; simpl in *. by run_tests.
Qed.

(** The format of prekeys and of their secrets. A prekey decodes from
    exactly the bytes [encode_prekey] makes for it, and every decoded one is well
    formed, with nothing left over in the buffer; the same holds of secrets. So
    what a relay hands out is either refused or is, byte for byte, the encoding
    of the one prekey it is read as. *)
Theorem prekey_format_exact :
  (forall data p, decode_prekey data = Some p <-> encode_prekey p = Ret data /\ in_u64 p.(Prekey_created_at)) /\
  (forall data s, decode_secret data = Some s <-> encode_secret s = Ret data).
Proof.
  split; [|intros; apply decode_secret_spec]. intros data p. unfold encode_prekey. split.
  - by intros (-> & ? & ->)%decode_prekey_inv.
  - destruct (prekey_well_formed p) eqn:E; [|by intros [? _]]. simpl. intros [[= <-] ?]. by apply decode_prekey_fwd.
Qed.

Lemma sign_verifies seed rand m :
  let '(pk, sk) := generate_sig_keypair seed in
  exists sg, sign rand m sk = Ret sg /\ 0 < size sg <= sig_signature_size /\ verify m sg pk = true.
Proof.
  unfold generate_sig_keypair, sign, verify, require_size. pose proof (sig_correct seed rand m) as Hc.
  destruct (prim_sig_keypair seed) as [pk sk] eqn:E. destruct (sig_sizes seed rand m sk) as (Hp & Hs & Hg).
  rewrite E in Hp, Hs. simpl in *. exists (prim_sign rand m sk). rewrite Hp, Hs, !Z.eqb_refl. simpl.
  split_and!; [done|lia..|]. rewrite (proj2 (is_empty_false _)) by lia. by rewrite (proj2 (Z.ltb_ge _ _)) by lia.
Qed.

(** A prekey made by its owner is one a sender accepts: [prekey_generate]
    with the owner's private key succeeds, the result verifies under the owner's
    public key, and both halves survive being stored and read back. *)
Theorem prekey_lifecycle seed kem_seed x id rand last_resort now :
  size id = PREKEY_ID_SIZE -> size x = X25519_BYTES -> in_u64 now ->
  let pk := (generate_sig_keypair seed).1 in
  let sk := (generate_sig_keypair seed).2 in
  exists p s data sdata,
    prekey_generate kem_seed x id rand sk last_resort now = Ret (p, s) /\
    p.(Prekey_id) = id /\ p.(Prekey_last_resort) = last_resort /\
    prekey_verify p pk = true /\
    encode_prekey p = Ret data /\ decode_prekey data = Some p /\
    encode_secret s = Ret sdata /\ decode_secret sdata = Some s.
Proof.
  intros Hid Hx Hnow.
  destruct (kem_sizes kem_seed [] []) as (Hk & Hks & _).
  pose proof (x25519_public_size x) as Hxp.
  destruct algorithm_sizes as (_ & _ & _ & Hsig).
  pose proof (sign_verifies seed rand (prekey_signing_input
    (mkPrekey id (prim_kem_keypair kem_seed).1 (prim_x25519_public x) last_resort now []))) as Hsv.
  destruct (generate_sig_keypair seed) as [pk sk]. simpl. destruct Hsv as (sg & Hsg & Hlen & Hv).
  unfold prekey_generate, generate_kem_keypair, generate_x25519.
  destruct (prim_kem_keypair kem_seed) as [kp kr]. simpl in *. rewrite Hsg. simpl.
  set (p := mkPrekey id kp (prim_x25519_public x) last_resort now sg).
  assert (prekey_well_formed p = true) as Hwf.
  { apply prekey_well_formed_spec. rewrite is_empty_false. simpl. unfold X25519_BYTES, MAX_SIGNATURE_BYTES in *. lia. }
  assert (encode_secret (mkSecret kr x) = Ret (write_blob (write_blob [] kr) x)) as Hes.
  { unfold encode_secret. simpl. by rewrite Hks, Hx, !Z.eqb_refl. }
  exists p, (mkSecret kr x), (write_blob (prekey_signing_input p) sg), (write_blob (write_blob [] kr) x).
  split_and!; [done..| | | |done|by apply decode_secret_spec].
  - unfold prekey_verify. by rewrite Hwf.
  - unfold encode_prekey. by rewrite Hwf.
  - by apply (decode_prekey_fwd p).
Qed.
End formats.

(** A one-time prekey made at time 7. *)
Lemma prekey_lifecycle_witness :
  let id := replicate 16 Byte.x05 in
  let x := replicate 32 Byte.x06 in
  size id = PREKEY_ID_SIZE /\ size x = X25519_BYTES /\
  exists p s data sdata,
    prekey_generate [Byte.x01] x id [] (generate_sig_keypair [Byte.x02]).2 false 7 = Ret (p, s) /\
    p.(Prekey_id) = id /\ p.(Prekey_last_resort) = false /\
    prekey_verify p (generate_sig_keypair [Byte.x02]).1 = true /\
    encode_prekey p = Ret data /\ decode_prekey data = Some p /\
    encode_secret s = Ret sdata /\ decode_secret sdata = Some s.
Proof.
  split; [reflexivity|]. split; [reflexivity|].
  apply (prekey_lifecycle [Byte.x02] [Byte.x01] (replicate 32 Byte.x06) (replicate 16 Byte.x05) [] false 7);
    [reflexivity|reflexivity|].
  split; vm_compute; congruence.
Defined.
