(* ===== verification/Envelope.v ===== *)
(** * Sealed envelopes: client/envelope.h and envelope.cpp

    What a sender seals to one recipient: the inner content with its three
    format versions, the padding to a few fixed sizes, the two kinds of header
    (long-term key only, and with a one-time prekey) and the key each is opened
    with. The recipient's prekeys are a function from an ID to the secret, as in
    the sources. Random bytes are arguments. *)

From Stdlib Require Import ZArith Lia.
From stdpp Require Import base list strings.
From S2P Require Import Prelude Wire RelayProtocol RelayProtocolSpec Crypto Prekey.
#[local] Open Scope Z_scope.

(** src/client/envelope.h 31-31 MAX_RECORDS_PER_ENVELOPE *)
Definition MAX_RECORDS_PER_ENVELOPE : Z := 16.
(** src/client/envelope.h 32-32 MAX_BUNDLE_BYTES *)
Definition MAX_BUNDLE_BYTES : Z := 16 * 1024.
(** src/client/envelope.h 33-33 MAX_INTRODUCED_PER_ENVELOPE *)
Definition MAX_INTRODUCED_PER_ENVELOPE : Z := 15.
(** src/client/envelope.h 38-38 MAX_GRANTS_PER_ENVELOPE *)
Definition MAX_GRANTS_PER_ENVELOPE : Z := 4.

(** src/client/envelope.h 39-43 AttachmentGrant *)
Record AttachmentGrant := mkGrant { Grant_file_id : bytes; Grant_key : bytes; Grant_token : bytes }.

(** src/client/envelope.h 45-54 Inner *)
Record Inner := mkInner {
  Inner_sender_bundle : bytes;
  Inner_records : list bytes;
  Inner_introduced : list bytes;
  Inner_grants : list AttachmentGrant;
}.

(** src/client/envelope.cpp 14-14 ENVELOPE_VERSION *)
Definition ENVELOPE_VERSION : Z := 1.
(** src/client/envelope.cpp 15-15 ENVELOPE_VERSION_2 *)
Definition ENVELOPE_VERSION_2 : Z := 2.
(** src/client/envelope.cpp 16-16 INNER_VERSION *)
Definition INNER_VERSION : Z := 3.
(** src/client/envelope.cpp 17-17 MIN_INNER_VERSION *)
Definition MIN_INNER_VERSION : Z := 1.
(** src/client/envelope.cpp 18-18 ENVELOPE_AAD_LABEL *)
Definition ENVELOPE_AAD_LABEL : bytes := str "pq-suite v3 envelope".
(** src/client/envelope.cpp 19-19 ENVELOPE_KEY_INFO *)
Definition ENVELOPE_KEY_INFO : bytes := str "pq-suite v3 envelope key".
(** src/client/envelope.cpp 20-20 ENVELOPE_KEY_INFO_2 *)
Definition ENVELOPE_KEY_INFO_2 : bytes := str "pq-suite v3 envelope key v2".
(** src/client/envelope.cpp 21-21 BUCKETS *)
Definition BUCKETS : list Z := [1024; 4096; 16384; 65536].

(** src/client/envelope.cpp 23-29 header_bytes *)
Definition header_bytes (kem_ciphertext nonce : bytes) : bytes :=
  let h := write_u32 [] ENVELOPE_VERSION in
  let h := write_blob h kem_ciphertext in
  write_blob h nonce.

(** src/client/envelope.cpp 31-36 aad_for *)
Definition aad_for (header : bytes) : bytes :=
  let a := write_string [] ENVELOPE_AAD_LABEL in
  write_bytes a header.

(** src/client/envelope.cpp 40-49 header_bytes_2 *)
Definition header_bytes_2 (kem_ciphertext prekey_id prekey_ciphertext ephemeral_public nonce : bytes) : bytes :=
  let h := write_u32 [] ENVELOPE_VERSION_2 in
  let h := write_blob h kem_ciphertext in
  let h := write_blob h prekey_id in
  let h := write_blob h prekey_ciphertext in
  let h := write_blob h ephemeral_public in
  write_blob h nonce.

(** ** The inner content *)

(** The check of the grants, each against those before it.
    src/client/envelope.cpp 73-78 encode_inner *)
Fixpoint check_grants (before grants : list AttachmentGrant) : exc unit :=
  match grants with
  | [] => Ret tt
  | g :: grants =>
      if negb (size g.(Grant_file_id) =? 16) || negb (size g.(Grant_key) =? 32) || negb (size g.(Grant_token) =? 32)
      then Throw "An attachment grant is not valid" else
      if bool_decide (g.(Grant_file_id) ∈ map Grant_file_id before)
      then Throw "Two attachment grants name the same file" else
      check_grants (before ++ [g]) grants
  end.

(** [for (const auto& g : inner.grants)] of [encode_inner]. *)
Definition write_grant (b : bytes) (g : AttachmentGrant) : bytes :=
  let b := write_blob b g.(Grant_file_id) in
  let b := write_blob b g.(Grant_key) in
  write_blob b g.(Grant_token).

Definition no_grants (l : list AttachmentGrant) : bool := match l with [] => true | _ => false end.

(** src/client/envelope.cpp 66-95 encode_inner *)
Definition encode_inner (inner : Inner) : exc bytes :=
  if MAX_BUNDLE_BYTES <? size inner.(Inner_sender_bundle) then Throw "The sender bundle is too large" else
  if MAX_INTRODUCED_PER_ENVELOPE <? size inner.(Inner_introduced)
  then Throw "Too many introduced bundles in one envelope" else
  if existsb (fun bundle => MAX_BUNDLE_BYTES <? size bundle) inner.(Inner_introduced)
  then Throw "An introduced bundle is too large" else
  if MAX_RECORDS_PER_ENVELOPE <? size inner.(Inner_records) then Throw "Too many records in one envelope" else
  if MAX_GRANTS_PER_ENVELOPE <? size inner.(Inner_grants)
  then Throw "Too many attachment grants in one envelope" else
  let! _ := check_grants [] inner.(Inner_grants) in
  let b := write_u32 [] (if no_grants inner.(Inner_grants) then 2 else 3) in
  let b := write_blob b inner.(Inner_sender_bundle) in
  let b := write_u32 b (u32 (size inner.(Inner_introduced))) in
  let b := foldl write_blob b inner.(Inner_introduced) in
  let b :=
    if no_grants inner.(Inner_grants) then b
    else foldl write_grant (write_u32 b (u32 (size inner.(Inner_grants)))) inner.(Inner_grants) in
  let b := write_u32 b (u32 (size inner.(Inner_records))) in
  Ret (foldl write_blob b inner.(Inner_records)).

(** The bodies of the loops of [decode_inner]. *)
Definition read_capped (max : Z) (b : bytes) (off : Z) (acc : list bytes) : option bytes * Z := read_blob b off max.

(** src/client/envelope.cpp 117-125 decode_inner *)
Definition read_grant (b : bytes) (off : Z) (acc : list AttachmentGrant) : option AttachmentGrant * Z :=
  let '(id, off) := read_blob b off 16 in
  let '(key, off) := read_blob b off 32 in
  let '(token, off) := read_blob b off 32 in
  match id with
  | None => (None, off)
  | Some id =>
      match key with
      | None => (None, off)
      | Some key =>
          match token with
          | None => (None, off)
          | Some token =>
              if negb (size id =? 16) || negb (size key =? 32) || negb (size token =? 32) then (None, off) else
              if bool_decide (id ∈ map Grant_file_id acc) then (None, off) else
              (Some (mkGrant id key token), off)
          end
      end
  end.

(** src/client/envelope.cpp 105-113 decode_inner *)
Definition read_introduced (version : Z) (b : bytes) (off : Z) : option (list bytes) * Z :=
  if 2 <=? version then
    let '(introduced, off) := read_u32 b off in
    match introduced with
    | None => (None, off)
    | Some n =>
        if MAX_INTRODUCED_PER_ENVELOPE <? n then (None, off)
        else read_loop (read_capped MAX_BUNDLE_BYTES) (Z.to_nat n) b off []
    end
  else (Some [], off).

(** src/client/envelope.cpp 114-126 decode_inner *)
Definition read_grants (version : Z) (b : bytes) (off : Z) : option (list AttachmentGrant) * Z :=
  if 3 <=? version then
    let '(grants, off) := read_u32 b off in
    match grants with
    | None => (None, off)
    | Some n =>
        if (n <? 1) || (MAX_GRANTS_PER_ENVELOPE <? n) then (None, off)
        else read_loop read_grant (Z.to_nat n) b off []
    end
  else (Some [], off).

(** src/client/envelope.cpp 97-136 decode_inner *)
Definition decode_inner (b : bytes) : option Inner :=
  let '(version, off) := read_u32 b 0 in
  let? version := version in
  if (version <? MIN_INNER_VERSION) || (INNER_VERSION <? version) then None else
  let '(bundle, off) := read_blob b off MAX_BUNDLE_BYTES in
  let? bundle := bundle in
  let '(introduced, off) := read_introduced version b off in
  let? introduced := introduced in
  let '(grants, off) := read_grants version b off in
  let? grants := grants in
  let '(count, off) := read_u32 b off in
  let? count := count in
  if MAX_RECORDS_PER_ENVELOPE <? count then None else
  let '(records, off) := read_loop (read_capped (64 * 1024)) (Z.to_nat count) b off [] in
  let? records := records in
  if negb (off =? size b) then None else
  Some (mkInner bundle records introduced grants).

(** ** Sealing and opening *)

Section envelope.
Context `{P : Primitives}.

(** src/client/envelope.cpp 51-58 derive_key_2 *)
Definition derive_key_2 (long_term prekey_secret x25519_secret header : bytes) : exc bytes :=
  let ikm := long_term in
  let ikm := ikm ++ prekey_secret in
  let ikm := ikm ++ x25519_secret in
  hkdf_sha256 ikm (sha256 header) ENVELOPE_KEY_INFO_2 32.

(** src/client/envelope.cpp 60-62 derive_key *)
Definition derive_key (shared_secret header : bytes) : exc bytes :=
  hkdf_sha256 shared_secret (sha256 header) ENVELOPE_KEY_INFO 32.

(** The loop over [BUCKETS]; 0 if nothing fits.
    src/client/envelope.cpp 141-143 seal_envelope *)
Fixpoint first_bucket (needed : Z) (buckets : list Z) : Z :=
  match buckets with
  | [] => 0
  | b :: buckets => if needed <=? b then b else first_bucket needed buckets
  end.

(** [plaintext.resize(bucket, 0)] after the length and the content. *)
Definition pad_to (bucket : Z) (encoded : bytes) : bytes :=
  let plaintext := write_u32 [] (u32 (size encoded)) in
  let plaintext := write_bytes plaintext encoded in
  ztake bucket plaintext ++ replicate (Z.to_nat (bucket - size plaintext)) Byte.x00.

(** The random bytes a sealing takes, in order: the encapsulation, the nonce,
    and with a prekey the second encapsulation and the X25519 key. *)
Record SealRandom := mkSealRandom {
  rand_kem : bytes; rand_nonce : bytes; rand_prekey : bytes; rand_ephemeral : bytes
}.

(** The header and the key, with a prekey or without.
    src/client/envelope.cpp 154-170 seal_envelope *)
Definition sealing_header (rnd : SealRandom) (encap_ciphertext encap_shared : bytes) (prekey : option Prekey)
    : exc (bytes * bytes) :=
  let nonce := rnd.(rand_nonce) in
  match prekey with
  | Some p =>
      if negb (size p.(Prekey_id) =? PREKEY_ID_SIZE) || negb (size p.(Prekey_kem_public) =? kem_public_key_size)
         || negb (size p.(Prekey_x25519_public) =? X25519_BYTES)
      then Throw "That prekey is not valid" else
      let! (one_time_ciphertext, one_time_shared) := encapsulate rnd.(rand_prekey) p.(Prekey_kem_public) in
      let '(ephemeral_public, ephemeral_private) := generate_x25519 rnd.(rand_ephemeral) in
      let! x := x25519_shared ephemeral_private p.(Prekey_x25519_public) in
      let header := header_bytes_2 encap_ciphertext p.(Prekey_id) one_time_ciphertext ephemeral_public nonce in
      let! key := derive_key_2 encap_shared one_time_shared x header in
      Ret (header, key)
  | None =>
      let header := header_bytes encap_ciphertext nonce in
      let! key := derive_key encap_shared header in
      Ret (header, key)
  end.

(** src/client/envelope.cpp 138-178 seal_envelope *)
Definition seal_envelope (rnd : SealRandom) (inner : Inner) (recipient_public_key : bytes)
    (prekey : option Prekey) : exc bytes :=
  let! encoded := encode_inner inner in
  let needed := 4 + size encoded in
  let bucket := first_bucket needed BUCKETS in
  if bucket =? 0 then Throw "That message is too large to send" else
  let plaintext := pad_to bucket encoded in
  let! (encap_ciphertext, encap_shared) := encapsulate rnd.(rand_kem) recipient_public_key in
  let nonce := rnd.(rand_nonce) in
  let! (header, key) := sealing_header rnd encap_ciphertext encap_shared prekey in
  let! ciphertext := encrypt key nonce plaintext (aad_for header) in
  let envelope := write_blob header ciphertext in
  if MAX_ENVELOPE_BYTES <? size envelope then Throw "That message is too large to send" else
  Ret envelope.

(** src/client/envelope.cpp 180-188 envelope_prekey_id *)
Definition envelope_prekey_id (envelope : bytes) : option bytes :=
  let '(version, off) := read_u32 envelope 0 in
  let? version := version in
  if negb (version =? ENVELOPE_VERSION_2) then None else
  let '(kem_ct, off) := read_blob envelope off 4096 in
  let '(id, off) := read_blob envelope off PREKEY_ID_SIZE in
  let? kem_ct := kem_ct in
  let? id := id in
  if negb (size id =? PREKEY_ID_SIZE) then None else Some id.

(** The part of a version 2 header between the two fixed parts.
    src/client/envelope.cpp 196-204 open_envelope *)
Definition read_prekey_part (version : Z) (envelope : bytes) (off : Z) : option (option (bytes * bytes * bytes)) * Z :=
  if version =? ENVELOPE_VERSION_2 then
    let '(prekey_id, off) := read_blob envelope off PREKEY_ID_SIZE in
    let '(prekey_ct, off) := read_blob envelope off 4096 in
    let '(ephemeral, off) := read_blob envelope off X25519_BYTES in
    (let? prekey_id := prekey_id in
     if negb (size prekey_id =? PREKEY_ID_SIZE) then None else
     let? prekey_ct := prekey_ct in
     if negb (size prekey_ct =? kem_ciphertext_size) then None else
     let? ephemeral := ephemeral in
     if negb (size ephemeral =? X25519_BYTES) then None else
     Some (Some (prekey_id, prekey_ct, ephemeral)), off)
  else (Some None, off).

(** The key of an envelope; nothing when the prekey's secret is gone or a call throws.
    src/client/envelope.cpp 211-232 open_envelope *)
Definition opening_key (kem_ct : bytes) (prekey_part : option (bytes * bytes * bytes)) (header my_private_key : bytes)
    (lookup : option (bytes -> option Secret)) : option bytes :=
  catch (
    let! shared := decapsulate kem_ct my_private_key in
    match prekey_part with
    | Some (prekey_id, prekey_ct, ephemeral) =>
        match (match lookup with Some f => f prekey_id | None => None end) with
        | None => Ret None
        | Some secret =>
            let! one_time := decapsulate prekey_ct secret.(Secret_kem_private) in
            let! x := x25519_shared secret.(Secret_x25519_private) ephemeral in
            let! key := derive_key_2 shared one_time x header in
            Ret (Some key)
        end
    | None => let! key := derive_key shared header in Ret (Some key)
    end).

(** The padding is removed and checked.
    src/client/envelope.cpp 243-250 open_envelope *)
Definition unpad (p : bytes) : option bytes :=
  if negb (bool_decide (size p ∈ BUCKETS)) then None else
  let '(length, po) := read_u32 p 0 in
  let? length := length in
  if size p - po <? length then None else
  if negb (forallb (fun b => Z_of_byte b =? 0) (zdrop (po + length) p)) then None else
  Some (ztake length (zdrop po p)).

(** The second component is what [*used_prekey_id] is set to, if it is.
    src/client/envelope.cpp 190-251 open_envelope *)
Definition open_envelope (envelope my_private_key : bytes) (lookup : option (bytes -> option Secret))
    : option Inner * option bytes :=
  match
    (let '(version, off) := read_u32 envelope 0 in
     let? version := version in
     if negb (version =? ENVELOPE_VERSION) && negb (version =? ENVELOPE_VERSION_2) then None else
     let '(kem_ct, off) := read_blob envelope off 4096 in
     let? kem_ct := kem_ct in
     if negb (size kem_ct =? kem_ciphertext_size) then None else
     let '(prekey_part, off) := read_prekey_part version envelope off in
     let? prekey_part := prekey_part in
     let '(nonce, off) := read_blob envelope off 12 in
     let? nonce := nonce in
     if negb (size nonce =? 12) then None else
     let header := ztake off envelope in
     let '(ciphertext, off) := read_blob envelope off MAX_ENVELOPE_BYTES in
     let? ciphertext := ciphertext in
     if negb (off =? size envelope) then None else
     let? key := opening_key kem_ct prekey_part header my_private_key lookup in
     let? plaintext := catch (decrypt key nonce ciphertext (aad_for header)) in
     Some (plaintext, prekey_part))
  with
  | None => (None, None)
  | Some (plaintext, prekey_part) =>
      (let? encoded := unpad plaintext in decode_inner encoded,
       match prekey_part with Some (prekey_id, _, _) => Some prekey_id | None => None end)
  end.
End envelope.

(** ** The inner format *)

Definition wf_grant (g : AttachmentGrant) : Prop :=
  size g.(Grant_file_id) = 16 /\ size g.(Grant_key) = 32 /\ size g.(Grant_token) = 32.
Definition wf_grants (l : list AttachmentGrant) : Prop := Forall wf_grant l /\ NoDup (map Grant_file_id l).
Definition put_grant (g : AttachmentGrant) : bytes := blob g.(Grant_file_id) ++ blob g.(Grant_key) ++ blob g.(Grant_token).

#[export] Instance read_capped_loop max `{Hmax : !TCEq (max <? 2 ^ 32) true} :
  LoopReader (read_capped max) (Forall (fun b => size b <= max)) blob.
Proof.
  rewrite TCEq_eq in Hmax. bool_prop.
  constructor; [constructor|by intros l k [? _]%Forall_app|].
  intros data off rest acc x off' Hacc Hat. unfold read_capped.
  rewrite (read_blob_at _ _ _ _ _ _ Hat), Forall_app, Forall_singleton. split.
  - intros (? & _ & -> & Hr). done.
  - intros [[_ Hx] (rest' & -> & Hat')]. split_and!; [done| | |by exists rest'].
    + unfold in_u32. pose proof (size_nonneg x). lia.
    + apply at_off_app in Hat. rewrite size_blob in Hat. apply (at_off_unique _ _ _ _ Hat' Hat).
Qed.

#[export] Instance read_grant_loop : LoopReader read_grant wf_grants put_grant.
Proof.
  constructor; [split; constructor|apply Forall_NoDup_prefix|].
  intros data off rest acc x off' Hacc Hat. unfold read_grant, put_grant, wf_grants.
  rewrite Forall_NoDup_snoc. split.
  - intros Hr. body_inv Hr. split_and!; try done; try apply Hacc. eexists. by rewrite <- !app_assoc.
  - intros [(_ & (? & ? & ?) & ?) (rest' & -> & Hat')]. destruct x; simpl in *. body_fwd Hat Hat'.
Qed.

(** The content with its version, 1, 2 or 3. *)
Definition inner_bytes (version : Z) (i : Inner) : bytes :=
  be32 version ++ blob i.(Inner_sender_bundle)
  ++ (if 2 <=? version then be32 (size i.(Inner_introduced)) ++ concat (map blob i.(Inner_introduced)) else [])
  ++ (if 3 <=? version then be32 (size i.(Inner_grants)) ++ concat (map put_grant i.(Inner_grants)) else [])
  ++ be32 (size i.(Inner_records)) ++ concat (map blob i.(Inner_records)).

(** Which parts a version can carry. *)
Definition version_fits (version : Z) (i : Inner) : Prop :=
  (version = 1 /\ i.(Inner_introduced) = [] /\ i.(Inner_grants) = []) \/
  (version = 2 /\ i.(Inner_grants) = []) \/ (version = 3 /\ i.(Inner_grants) <> []).

(** What [encode_inner] accepts. *)
Definition wf_inner (i : Inner) : Prop :=
  size i.(Inner_sender_bundle) <= MAX_BUNDLE_BYTES /\
  size i.(Inner_introduced) <= MAX_INTRODUCED_PER_ENVELOPE /\
  Forall (fun b => size b <= MAX_BUNDLE_BYTES) i.(Inner_introduced) /\
  size i.(Inner_records) <= MAX_RECORDS_PER_ENVELOPE /\
  size i.(Inner_grants) <= MAX_GRANTS_PER_ENVELOPE /\ wf_grants i.(Inner_grants).

Lemma check_grants_spec before l :
  wf_grants before -> check_grants before l = Ret tt <-> wf_grants (before ++ l).
Proof.
  revert before. induction l as [|g l IH]; intros before Hb; simpl; [by rewrite app_nil_r|].
  assert (wf_grants (before ++ [g]) <-> wf_grant g /\ Grant_file_id g ∉ map Grant_file_id before) as Hg.
  { unfold wf_grants. rewrite Forall_NoDup_snoc. unfold wf_grants in Hb. tauto. }
  replace (before ++ g :: l) with ((before ++ [g]) ++ l) by by rewrite <- app_assoc.
  destruct (_ || _) eqn:E; [split; [done|]; intros Hw%Forall_NoDup_prefix; exfalso|].
  { apply Hg in Hw as [(? & ? & ?) _]. revert E. rewrite !orb_true_iff, !negb_true_iff, !Z.eqb_neq. tauto. }
  bool_prop. case_bool_decide as Ed; [split; [done|]; intros Hw%Forall_NoDup_prefix; by apply Hg in Hw as [_ ?]|].
  apply IH. by apply Hg.
Qed.

Lemma check_grants_dec before l : check_grants before l = Ret tt \/ exists w, check_grants before l = Throw w.
Proof. revert before. induction l as [|g l IH]; intros before; simpl; [by left|]. repeat case_match; eauto. Qed.

Lemma existsb_too_large l max :
  existsb (fun b : bytes => max <? size b) l = false <-> Forall (fun b => size b <= max) l.
Proof.
  induction l as [|b l IH]; simpl; [split; [constructor|done]|].
  rewrite orb_false_iff, Z.ltb_ge, IH, Forall_cons. done.
Qed.

Lemma no_grants_spec l : no_grants l = true <-> l = [].
Proof. by destruct l. Qed.

Lemma fold_write_grant l b : foldl write_grant b l = b ++ concat (map put_grant l).
Proof. apply fold_write. intros. unfold write_grant, put_grant. encode_norm. done. Qed.

(** The version [encode_inner] writes. *)
Definition written_version (i : Inner) : Z := if no_grants i.(Inner_grants) then 2 else 3.

Lemma encode_inner_spec i b : encode_inner i = Ret b <-> wf_inner i /\ b = inner_bytes (written_version i) i.
Proof.
  assert (wf_inner i -> encode_inner i = Ret (inner_bytes (written_version i) i)) as Hfwd.
  { intros (H1 & H2 & H3 & H4 & H5 & H6). unfold encode_inner, MAX_GRANTS_PER_ENVELOPE, MAX_RECORDS_PER_ENVELOPE,
      MAX_INTRODUCED_PER_ENVELOPE in *.
    rewrite (proj2 (Z.ltb_ge _ _) H1), (proj2 (Z.ltb_ge _ _) H2), (proj2 (Z.ltb_ge _ _) H4), (proj2 (Z.ltb_ge _ _) H5).
    rewrite (proj2 (existsb_too_large _ _) H3), (proj2 (check_grants_spec [] _ (loop_nil (LoopReader := read_grant_loop))) H6).
    simpl. f_equal. unfold inner_bytes, written_version.
    rewrite !(u32_small (size _)) by (eapply size_is_u32; [eassumption|done]).
    destruct (no_grants (Inner_grants i)); simpl; rewrite ?fold_write_blob, ?fold_write_grant; encode_norm;
      by rewrite ?app_nil_l. }
  split; [|intros [Hw ->]; by apply Hfwd]. intros Hr.
  enough (wf_inner i) as Hw by (split; [done|]; specialize (Hfwd Hw); congruence).
  unfold encode_inner in Hr. repeat (case_match; [done|]). bool_prop.
  destruct (check_grants_dec [] (Inner_grants i)) as [Hg|[w Hg]]; rewrite Hg in Hr; [|done].
  apply check_grants_spec in Hg; [|apply (loop_nil (LoopReader := read_grant_loop))].
  repeat split; try done; try apply Hg. by apply existsb_too_large.
Qed.

(** A count and a loop, both directions. *)
Lemma counted_loop_at {A} {body} {Inv : list A -> Prop} {w} {HL : LoopReader body Inv w} n data off rest l off' :
  in_u32 n -> at_off data off (be32 n ++ rest) ->
  read_loop body (Z.to_nat n) data (off + 4) [] = (Some l, off') <->
  n = size l /\ Inv l /\ exists rest', rest = concat (map w l) ++ rest' /\ at_off data off' rest'.
Proof.
  intros Hn Hat. apply (at_off_app _ _ (be32 n)) in Hat. rewrite size_be32 in Hat.
  rewrite (read_loop_at _ _ _ _ _ _ _ (loop_nil (LoopReader := HL)) Hat). split.
  - intros (xs & -> & Hlen & Hi & Hr). split_and!; [by apply count_is_size|done..].
  - intros (-> & Hi & Hr). exists l. split_and!; [done|apply length_is_count|done..].
Qed.

Lemma read_introduced_at version data off rest l off' :
  at_off data off rest ->
  read_introduced version data off = (Some l, off') <->
  size l <= MAX_INTRODUCED_PER_ENVELOPE /\ Forall (fun b => size b <= MAX_BUNDLE_BYTES) l /\
  (version < 2 -> l = []) /\
  exists rest', rest = (if 2 <=? version then be32 (size l) ++ concat (map blob l) else []) ++ rest' /\
    at_off data off' rest'.
Proof.
  intros Hat. unfold read_introduced. destruct (2 <=? version) eqn:Ev; bool_prop; cycle 1.
  { split; [intros [= <- <-]; split_and!; [done..|]; by exists rest|].
    intros (_ & _ & Hl & rest' & -> & Hat'). rewrite Hl by lia. f_equal. apply (at_off_unique _ _ _ _ Hat Hat'). }
  split.
  - destruct (read_u32 data off) as [[n|] o] eqn:E; [|done].
    destruct (proj1 (read_u32_at _ _ _ _ _ Hat) E) as (Hn & -> & r & -> & _).
    destruct (_ <? n) eqn:En; [done|]. bool_prop.
    rewrite (counted_loop_at _ _ _ _ _ _ Hn Hat). intros (-> & Hi & rest' & -> & Hat').
    split_and!; [done..|lia|]. exists rest'. by rewrite <- app_assoc.
  - intros (Hl & Hf & _ & rest' & -> & Hat'). rewrite <- app_assoc in Hat.
    assert (in_u32 (size l)) as Hu by (eapply size_is_u32; [exact Hl|done]).
    rewrite (read_u32_fwd _ _ _ _ Hat Hu). rewrite (proj2 (Z.ltb_ge _ _) Hl).
    apply (counted_loop_at _ _ _ _ _ _ Hu Hat). eauto.
Qed.

Lemma read_grants_at version data off rest l off' :
  at_off data off rest ->
  read_grants version data off = (Some l, off') <->
  size l <= MAX_GRANTS_PER_ENVELOPE /\ wf_grants l /\ (version < 3 -> l = []) /\ (3 <= version -> l <> []) /\
  exists rest', rest = (if 3 <=? version then be32 (size l) ++ concat (map put_grant l) else []) ++ rest' /\
    at_off data off' rest'.
Proof.
  intros Hat. unfold read_grants. destruct (3 <=? version) eqn:Ev; bool_prop; cycle 1.
  { split; [intros [= <- <-]; split_and!; [done|apply loop_nil|done|lia|]; by exists rest|].
    intros (_ & _ & Hl & _ & rest' & -> & Hat'). rewrite Hl by lia. f_equal. apply (at_off_unique _ _ _ _ Hat Hat'). }
  split.
  - destruct (read_u32 data off) as [[n|] o] eqn:E; [|done].
    destruct (proj1 (read_u32_at _ _ _ _ _ Hat) E) as (Hn & -> & r & -> & _).
    destruct (_ || _) eqn:En; [done|]. bool_prop.
    rewrite (counted_loop_at _ _ _ _ _ _ Hn Hat). intros (-> & Hi & rest' & -> & Hat').
    split_and!; [done..|lia| |]; [by intros _ ->|]. exists rest'. by rewrite <- app_assoc.
  - intros (Hl & Hf & _ & Hne & rest' & -> & Hat'). rewrite <- app_assoc in Hat.
    assert (in_u32 (size l)) as Hu by (eapply size_is_u32; [exact Hl|done]).
    rewrite (read_u32_fwd _ _ _ _ Hat Hu). rewrite (proj2 (Z.ltb_ge _ _) Hl), (proj2 (Z.ltb_ge _ _)).
    + apply (counted_loop_at _ _ _ _ _ _ Hu Hat). eauto.
    + specialize (Hne Ev). unfold size. destruct l; simpl; [done|lia].
Qed.

(** The forward readings, at the offset that follows. *)
Lemma counted_loop_fwd {A} {body} {Inv : list A -> Prop} {w} {HL : LoopReader body Inv w} data off rest l :
  in_u32 (size l) -> Inv l -> at_off data off (be32 (size l) ++ concat (map w l) ++ rest) ->
  read_loop body (Z.to_nat (size l)) data (off + 4) [] = (Some l, off + 4 + size (concat (map w l))) /\
  at_off data (off + 4 + size (concat (map w l))) rest.
Proof.
  intros Hu Hi Hat. assert (at_off data (off + 4 + size (concat (map w l))) rest) as Hat'.
  { apply (at_off_app _ _ (be32 _)), (at_off_app _ _ (concat _)) in Hat. by rewrite size_be32 in Hat. }
  split; [|done]. apply (counted_loop_at _ _ _ _ _ _ Hu Hat). eauto.
Qed.

Lemma read_introduced_fwd version data off l rest :
  let w := if 2 <=? version then be32 (size l) ++ concat (map blob l) else [] in
  at_off data off (w ++ rest) -> size l <= MAX_INTRODUCED_PER_ENVELOPE ->
  Forall (fun b => size b <= MAX_BUNDLE_BYTES) l -> (version < 2 -> l = []) ->
  read_introduced version data off = (Some l, off + size w).
Proof.
  intros w Hat Hl Hf Hv. apply (read_introduced_at _ _ _ _ _ _ Hat). split_and!; [done..|].
  exists rest. split; [done|]. by apply at_off_app.
Qed.

Lemma read_grants_fwd version data off l rest :
  let w := if 3 <=? version then be32 (size l) ++ concat (map put_grant l) else [] in
  at_off data off (w ++ rest) -> size l <= MAX_GRANTS_PER_ENVELOPE -> wf_grants l ->
  (version < 3 -> l = []) -> (3 <= version -> l <> []) ->
  read_grants version data off = (Some l, off + size w).
Proof.
  intros w Hat Hl Hf Hv Hv'. apply (read_grants_at _ _ _ _ _ _ Hat). split_and!; [done..|].
  exists rest. split; [done|]. by apply at_off_app.
Qed.

(** What the reader of records accepts. *)
Definition records_fit (i : Inner) : Prop := Forall (fun r => size r <= 64 * 1024) i.(Inner_records).

Lemma decode_inner_inv b i :
  decode_inner b = Some i ->
  wf_inner i /\ records_fit i /\ exists v, version_fits v i /\ b = inner_bytes v i.
Proof.
  unfold decode_inner. intros Hd. pose proof (at_off_0 b) as Hat.
  open_decode Hd. open_decode Hd. open_decode Hd. bool_prop. read_inv_step. subst.
  open_decode Hd. open_decode Hd. read_inv_step. subst.
  open_decode Hd. open_decode Hd.
  match goal with E : read_introduced _ _ _ = _ |- _ =>
    apply (read_introduced_at _ _ _ _ _ _ Hat) in E as (Hi1 & Hi2 & Hi3 & r1 & -> & Hat1) end.
  open_decode Hd. open_decode Hd.
  match goal with E : read_grants _ _ _ = _ |- _ =>
    apply (read_grants_at _ _ _ _ _ _ Hat1) in E as (Hg1 & Hg2 & Hg3 & Hg4 & r2 & -> & Hat2) end.
  clear Hat Hat1. repeat (open_decode Hd; bool_prop; subst).
  repeat (read_inv_step; subst). read_end. counts_inv. unfold wf_inner, records_fit, inner_bytes. simpl.
  split_and!; try done. eexists. split; [|by rewrite ?app_nil_r].
  unfold version_fits, MIN_INNER_VERSION, INNER_VERSION in *. simpl.
  match goal with E1 : 1 <= ?v, E2 : ?v <= 3 |- _ =>
    assert (v = 1 \/ v = 2 \/ v = 3) as [-> | [-> | ->]] by lia end; [left|right; left|right; right];
    split_and!; try done; auto with lia.
Qed.

Lemma version_fits_range v i : version_fits v i -> 1 <= v <= 3.
Proof. unfold version_fits. lia. Qed.

Lemma decode_inner_fwd v i :
  wf_inner i -> records_fit i -> version_fits v i -> decode_inner (inner_bytes v i) = Some i.
Proof.
  intros (H1 & H2 & H3 & H4 & H5 & H6) H7 Hv. pose proof (version_fits_range _ _ Hv).
  remember (inner_bytes v i) as b eqn:Hat. apply at_off_0_app in Hat. unfold inner_bytes in Hat.
  rewrite <- !app_assoc in Hat. unfold decode_inner.
  assert (in_u32 v /\ in_u32 (size (Inner_sender_bundle i)) /\ in_u32 (size (Inner_records i))) as (? & ? & Hr).
  { unfold in_u32, MAX_BUNDLE_BYTES, MAX_RECORDS_PER_ENVELOPE in *.
    pose proof (size_nonneg (Inner_sender_bundle i)). pose proof (size_nonneg (Inner_records i)). lia. }
  repeat (read_fwd_step; try assumption; cbv beta iota zeta).
  unfold MIN_INNER_VERSION, INNER_VERSION. rewrite (proj2 (Z.ltb_ge v 1)), (proj2 (Z.ltb_ge 3 v)) by lia. simpl.
  rewrite (read_introduced_fwd _ _ _ _ _ Hat) by (done || (destruct Hv as [(? & ? & ?)|Hv]; [done|lia])).
  apply at_off_app in Hat.
  rewrite (read_grants_fwd _ _ _ _ _ Hat)
    by (done || (destruct Hv as [(? & ? & ?)|[[? ?]|[? ?]]]; done || lia)).
  apply at_off_app in Hat. rewrite (read_u32_fwd _ _ _ _ Hat Hr), (proj2 (Z.ltb_ge _ _) H4).
  apply (counted_loop_fwd (HL := read_capped_loop (64 * 1024)) _ _ _ _ Hr H7) in Hat as [-> Hat].
  rewrite (at_off_end_eqb _ _ Hat). by destruct i.
Qed.

Lemma written_version_fits i : version_fits (written_version i) i.
Proof. unfold written_version, version_fits. destruct (Inner_grants i); simpl; auto. Qed.

Lemma decode_inner_encoded i e : encode_inner i = Ret e -> records_fit i -> decode_inner e = Some i.
Proof. intros [Hw ->]%encode_inner_spec Hr. apply decode_inner_fwd; [done..|]. apply written_version_fits. Qed.

(** The content of an envelope. [encode_inner] succeeds exactly on contents
    within the limits, whose grants are well formed and name distinct files, and
    [decode_inner] accepts exactly those contents in the version that suits them:
    what was encoded decodes to itself (as long as no record passes 64 KiB), and
    whatever decodes is one of the at most two byte strings that mean it, the
    encoding itself or, when nothing was introduced or granted, the old version 1. *)
Theorem inner_format_exact b i :
  decode_inner b = Some i <->
  records_fit i /\
  (encode_inner i = Ret b \/
   (wf_inner i /\ i.(Inner_introduced) = [] /\ i.(Inner_grants) = [] /\ b = inner_bytes 1 i)).
Proof.
  split.
  - intros (Hw & Hr & v & Hv & ->)%decode_inner_inv. split; [done|].
    destruct Hv as [(-> & ? & ?)|Hv]; [by right|left]. apply encode_inner_spec. split; [done|]. f_equal.
    unfold written_version. destruct Hv as [[-> E]|[-> E]]; [by rewrite E|by destruct (Inner_grants i)].
  - intros [Hr [[Hw ->]%encode_inner_spec|(Hw & Hi & Hg & ->)]]; apply decode_inner_fwd; try done.
    + apply written_version_fits.
    + by left.
Qed.

(** ** Padding *)

Lemma first_bucket_0 needed l : Forall (fun b => b < needed) l -> first_bucket needed l = 0.
Proof. induction 1 as [|b l Hb _ IH]; simpl; [done|]. by rewrite (proj2 (Z.leb_gt _ _) Hb). Qed.

Lemma first_bucket_in needed l m : m ∈ l -> needed <= m ->
  first_bucket needed l ∈ l /\ needed <= first_bucket needed l.
Proof.
  induction 1 as [x l|x y l Hx IH]; simpl; intros Hle; destruct (needed <=? _) eqn:E; bool_prop; try lia.
  - split; [left|done].
  - split; [left|done].
  - specialize (IH Hle) as [? ?]. split; [by right|done].
Qed.

Lemma bucket_fits needed : needed <= 65536 ->
  first_bucket needed BUCKETS ∈ BUCKETS /\ needed <= first_bucket needed BUCKETS.
Proof. intros. apply first_bucket_in with 65536; [|done]. by repeat constructor. Qed.

Lemma in_buckets b : b ∈ BUCKETS -> 1024 <= b <= 65536.
Proof. unfold BUCKETS. rewrite !elem_of_cons, elem_of_nil. lia. Qed.

Lemma replicate_zeros n : forallb (fun b => Z_of_byte b =? 0) (replicate n Byte.x00) = true.
Proof. induction n; simpl; [done|]. by rewrite IHn. Qed.

Lemma size_replicate {A} n (x : A) : size (replicate n x) = Z.of_nat n.
Proof. unfold size. by rewrite length_replicate. Qed.

Lemma pad_to_eq bucket e :
  4 + size e <= bucket -> in_u32 (size e) ->
  pad_to bucket e = be32 (size e) ++ e ++ replicate (Z.to_nat (bucket - (4 + size e))) Byte.x00.
Proof.
  intros Hb Hu. unfold pad_to. unfold write_bytes, write_u32; rewrite u32_small by done; simpl.
  assert (size (be32 (size e) ++ e) = 4 + size e) as Hs by by rewrite size_app, size_be32.
  rewrite (ztake_ge _ (_ ++ _)) by lia. by rewrite Hs, <- app_assoc.
Qed.

(** A padded content has the size of its bucket and is recovered from it. *)
Lemma unpad_pad bucket e :
  bucket ∈ BUCKETS -> 4 + size e <= bucket ->
  size (pad_to bucket e) = bucket /\ unpad (pad_to bucket e) = Some e.
Proof.
  intros Hin Hb. pose proof (in_buckets _ Hin). pose proof (size_nonneg e).
  assert (in_u32 (size e)) as Hu by (unfold in_u32; lia).
  assert (size (pad_to bucket e) = bucket) as Hs.
  { rewrite pad_to_eq, !size_app, size_be32, size_replicate by done. lia. }
  split; [done|]. unfold unpad. rewrite Hs, bool_decide_eq_true_2 by done. cbn [negb]. revert Hs.
  rewrite pad_to_eq by done. set (z := replicate _ _). intros Hs.
  rewrite (read_u32_fwd _ 0 (size e) _ (at_off_0 _) Hu). rewrite (proj2 (Z.ltb_ge _ _)) by lia.
  pose proof (at_off_0 (be32 (size e) ++ e ++ z)) as Hat. apply (at_off_app _ _ (be32 _)) in Hat.
  rewrite size_be32 in Hat. destruct Hat as (_ & _ & Hd1). rewrite Hd1.
  rewrite <- zdrop_zdrop, Hd1, zdrop_app by lia. unfold z. rewrite replicate_zeros. simpl. by rewrite ztake_app.
Qed.

(** The records of a content that fits the largest bucket are short enough to be read. *)
Lemma size_concat_in (l : list bytes) b : b ∈ l -> size (blob b) <= size (concat (map blob l)).
Proof.
  induction 1 as [b l|b c l _ IH]; simpl; rewrite size_app; [pose proof (size_nonneg (concat (map blob l)))|
    pose proof (size_nonneg (blob c))]; lia.
Qed.

Lemma encode_inner_fits i e : encode_inner i = Ret e -> 4 + size e <= 65536 -> records_fit i.
Proof.
  intros [_ ->]%encode_inner_spec Hs. apply Forall_forall. intros r Hr.
  pose proof (size_concat_in _ _ Hr) as Hc. rewrite size_blob in Hc.
  unfold inner_bytes in Hs. rewrite !size_app, !size_be32 in Hs.
  repeat match type of Hs with context [size ?x] =>
    lazymatch goal with Hk : 0 <= size x |- _ => fail | _ => pose proof (size_nonneg x) end end. lia.
Qed.

(** ** Sealing and opening *)

Section sealing.
Context `{PrimitiveLaws}.

(** The two headers as lists of pieces. *)
Definition prekey_pieces (part : option (bytes * bytes * bytes)) : bytes :=
  match part with Some (id, ct, eph) => blob id ++ blob ct ++ blob eph | None => [] end.
Definition part_version (part : option (bytes * bytes * bytes)) : Z :=
  match part with Some _ => ENVELOPE_VERSION_2 | None => ENVELOPE_VERSION end.
Definition header_of (ct : bytes) (part : option (bytes * bytes * bytes)) (nonce : bytes) : bytes :=
  be32 (part_version part) ++ blob ct ++ prekey_pieces part ++ blob nonce.

Definition part_ok (part : option (bytes * bytes * bytes)) : Prop :=
  match part with
  | Some (id, ct, eph) => size id = PREKEY_ID_SIZE /\ size ct = kem_ciphertext_size /\ size eph = X25519_BYTES
  | None => True
  end.

Definition part_id (part : option (bytes * bytes * bytes)) : option bytes :=
  match part with Some (id, _, _) => Some id | None => None end.

Lemma part_version_u32 part : in_u32 (part_version part).
Proof. destruct part; split; vm_compute; congruence. Qed.

Lemma ciphertext_fits (ct : bytes) : size ct = kem_ciphertext_size -> size ct <= 4096 /\ in_u32 (size ct).
Proof. destruct algorithm_sizes as (_ & _ & ? & _). destruct kem_sizes_pos as [_ ?]. unfold in_u32. lia. Qed.

Lemma fixed_fits (b : bytes) n : size b = n -> 0 <= n < 2 ^ 32 -> size b <= n /\ in_u32 (size b).
Proof. unfold in_u32. lia. Qed.

Lemma read_prekey_part_fwd part data off rest :
  part_ok part -> at_off data off (prekey_pieces part ++ rest) ->
  read_prekey_part (part_version part) data off = (Some part, off + size (prekey_pieces part)).
Proof.
  unfold read_prekey_part. destruct part as [[[id ct] eph]|]; simpl; [|by rewrite size_nil, Z.add_0_r].
  intros (Hi & Hc & He) Hat. rewrite <- !app_assoc in Hat.
  destruct (ciphertext_fits ct Hc). destruct (fixed_fits id _ Hi), (fixed_fits eph _ He); try done.
  repeat (read_fwd_step; try assumption; cbv beta iota zeta).
  rewrite Hi, Hc, He, !Z.eqb_refl. simpl. rewrite !size_app, !size_blob, Hi, Hc, He. f_equal. lia.
Qed.

Lemma size_header ct part nonce :
  size (header_of ct part nonce) = 4 + (4 + size ct) + size (prekey_pieces part) + (4 + size nonce).
Proof. unfold header_of. rewrite !size_app, size_be32, !size_blob. lia. Qed.

(** An envelope with a given header and ciphertext is opened with the key of that header. *)
Lemma open_envelope_parts ct part nonce c sk lookup :
  size ct = kem_ciphertext_size -> part_ok part -> size nonce = 12 -> size c <= MAX_ENVELOPE_BYTES ->
  open_envelope (header_of ct part nonce ++ blob c) sk lookup =
  match (let? key := opening_key ct part (header_of ct part nonce) sk lookup in
         catch (decrypt key nonce c (aad_for (header_of ct part nonce)))) with
  | Some plaintext => (let? encoded := unpad plaintext in decode_inner encoded, part_id part)
  | None => (None, None)
  end.
Proof.
  intros Hct Hpart Hn Hc. unfold open_envelope.
  destruct (ciphertext_fits ct Hct). destruct (fixed_fits nonce _ Hn) as [? ?]; [done|].
  assert (in_u32 (size c)) as Huc by (eapply size_is_u32; [exact Hc|done]).
  pose proof (part_version_u32 part).
  remember (header_of ct part nonce ++ blob c) as env eqn:Henv. pose proof (at_off_0 env) as Hat.
  rewrite Henv in Hat at 2. unfold header_of at 1 in Hat. rewrite (app_nil_tail (blob c)), <- !app_assoc in Hat.
  repeat (read_fwd_step; try assumption; cbv beta iota zeta).
  assert (negb (part_version part =? ENVELOPE_VERSION) && negb (part_version part =? ENVELOPE_VERSION_2) = false) as ->
    by by destruct part.
  rewrite (proj2 (Z.eqb_eq _ _) Hct). cbn [negb].
  rewrite (read_prekey_part_fwd part _ _ _ Hpart Hat). apply (at_off_app _ _ (prekey_pieces part)) in Hat.
  repeat (read_fwd_step; try assumption; cbv beta iota zeta).
  rewrite (proj2 (Z.eqb_eq _ _) Hn). cbn [negb]. decode_end.
  match goal with |- context [ztake ?o env] => replace o with (size (header_of ct part nonce))
    by (rewrite size_header; lia) end.
  rewrite Henv. rewrite ztake_app.
  destruct (opening_key _ _ _ _ _); simpl; [|done]. destruct (catch _); simpl; [|done]. by destruct part as [[[? ?] ?]|].
Qed.

(** A prekey and the secret its owner keeps. *)
Definition prekey_pair (p : Prekey) (s : Secret) : Prop :=
  size p.(Prekey_id) = PREKEY_ID_SIZE /\
  (exists seed, (p.(Prekey_kem_public), s.(Secret_kem_private)) = generate_kem_keypair seed) /\
  size s.(Secret_x25519_private) = X25519_BYTES /\
  (p.(Prekey_x25519_public), s.(Secret_x25519_private)) = generate_x25519 s.(Secret_x25519_private).

Lemma prekey_generate_pair kem_seed x id rand sk last now p s :
  size id = PREKEY_ID_SIZE -> size x = X25519_BYTES ->
  prekey_generate kem_seed x id rand sk last now = Ret (p, s) -> prekey_pair p s.
Proof.
  intros Hid Hx. unfold prekey_generate, prekey_pair, generate_x25519.
  destruct (generate_kem_keypair kem_seed) as [kp kr] eqn:E. destruct (sign _ _ _); simpl; [|done].
  intros [= <- <-]. simpl. split_and!; [done|by exists kem_seed|done|done].
Qed.

Lemma encapsulate_pair rand seed pk sk :
  (pk, sk) = generate_kem_keypair seed ->
  exists ct ss, encapsulate rand pk = Ret (ct, ss) /\ decapsulate ct sk = Ret ss /\
    size ct = kem_ciphertext_size /\ size ss = 32 /\ size pk = kem_public_key_size.
Proof.
  unfold generate_kem_keypair, encapsulate, decapsulate, require_size. intros E.
  destruct (kem_sizes seed rand pk) as (Hp & Hs & Hc). pose proof (kem_correct seed rand) as Hk.
  pose proof (kem_shared_size rand pk) as Hss. rewrite <- E in Hp, Hs, Hk. simpl in *.
  rewrite Hp, Z.eqb_refl. simpl. destruct (prim_kem_encaps rand pk) as [ct ss]. simpl in *.
  exists ct, ss. rewrite Hc, Hs, !Z.eqb_refl. simpl. by rewrite Hk.
Qed.

Lemma x25519_pair eph p s :
  prekey_pair p s -> size eph = 32 ->
  x25519_shared s.(Secret_x25519_private) (prim_x25519_public eph) = x25519_shared eph p.(Prekey_x25519_public).
Proof.
  intros (_ & _ & Hx & [= Hp]) He. unfold x25519_shared. rewrite Hp, !x25519_public_size, Hx, He. simpl.
  by rewrite (x25519_commutes eph).
Qed.

Lemma hkdf_key ikm salt info : 0 < size ikm ->
  exists key, hkdf_sha256 ikm salt info 32 = Ret key /\ size key = 32.
Proof.
  intros Hi. unfold hkdf_sha256. rewrite (proj2 (is_empty_false _) Hi). simpl. eexists. split; [done|]. by apply hkdf_size.
Qed.

Lemma size_prekey_pieces part : part_ok part ->
  size (prekey_pieces part) = match part with Some _ => 12 + PREKEY_ID_SIZE + kem_ciphertext_size + X25519_BYTES | None => 0 end.
Proof. destruct part as [[[id ct] eph]|]; [|done]. simpl. intros (? & ? & ?). rewrite !size_app, !size_blob. lia. Qed.

Lemma header_bytes_eq ct nonce : header_bytes ct nonce = header_of ct None nonce.
Proof. unfold header_bytes, header_of. encode_norm. done. Qed.

Lemma header_bytes_2_eq ct id pct eph nonce :
  header_bytes_2 ct id pct eph nonce = header_of ct (Some (id, pct, eph)) nonce.
Proof. unfold header_bytes_2, header_of, prekey_pieces. encode_norm. done. Qed.

(** Encrypting the padded content under a header, and decrypting it again. *)
Lemma seal_content ct part nonce key plaintext :
  size ct = kem_ciphertext_size -> part_ok part -> size nonce = 12 -> size key = 32 -> size plaintext <= 65536 ->
  let header := header_of ct part nonce in
  exists c, encrypt key nonce plaintext (aad_for header) = Ret c /\ size c = size plaintext + 16 /\
    decrypt key nonce c (aad_for header) = Ret (Some plaintext) /\
    size (header ++ blob c) = size header + size plaintext + 20 /\ size (header ++ blob c) <= MAX_ENVELOPE_BYTES.
Proof.
  intros Hct Hpart Hn Hk Hp header.
  destruct algorithm_sizes as (_ & _ & ? & _). pose proof (size_prekey_pieces part Hpart) as Hpp.
  assert (size header <= 3000) as Hh.
  { unfold header. rewrite size_header. unfold PREKEY_ID_SIZE, X25519_BYTES in Hpp. destruct part; lia. }
  assert (size (aad_for header) <= 4000) as Ha.
  { unfold aad_for. rewrite write_bytes_eq, write_string_eq, app_nil_l, !size_app, size_blob.
    change (size ENVELOPE_AAD_LABEL) with 20. lia. }
  pose proof (gcm_seal_size key nonce plaintext (aad_for header)) as Hs. pose proof (size_nonneg plaintext).
  exists (prim_gcm_seal key nonce plaintext (aad_for header)).
  assert (65536 + 16 <= INT_MAX) by (vm_compute; congruence).
  rewrite encrypt_ok, decrypt_ok, gcm_open_seal by lia. rewrite size_app, size_blob.
  split_and!; [done..|lia|]. unfold MAX_ENVELOPE_BYTES. lia.
Qed.

(** What the sender needs of a prekey: the recipient can look its secret up, and
    the X25519 exchange gives a secret (it refuses a peer whose key yields zeros). *)
Definition prekey_usable (rnd : SealRandom) (lookup : bytes -> option Secret) (p : Prekey) : Prop :=
  exists s x, lookup p.(Prekey_id) = Some s /\ prekey_pair p s /\ size rnd.(rand_ephemeral) = 32 /\
    x25519_shared rnd.(rand_ephemeral) p.(Prekey_x25519_public) = Ret x.

(** The header and the key of a sealing, and the key it is opened with. *)
Lemma sealing_key rnd lookup ct ss rsk prekey :
  decapsulate ct rsk = Ret ss -> size ss = 32 ->
  match prekey with Some p => prekey_usable rnd lookup p | None => True end ->
  exists part key,
    sealing_header rnd ct ss prekey = Ret (header_of ct part rnd.(rand_nonce), key) /\
    size key = 32 /\ part_ok part /\ part_id part = option_map Prekey_id prekey /\
    opening_key ct part (header_of ct part rnd.(rand_nonce)) rsk (Some lookup) = Some key /\
    (prekey <> None -> forall other, match other with Some f => default None (f <$> part_id part) = None | None => True end ->
       opening_key ct part (header_of ct part rnd.(rand_nonce)) rsk other = None).
Proof.
  intros Hd Hss. unfold sealing_header. destruct prekey as [p|].
  - intros (s & x & Hl & Hpair & He & Hx). pose proof Hpair as (Hid & (seed & Hkem) & Hxs & Hxp).
    destruct (encapsulate_pair rnd.(rand_prekey) _ _ _ Hkem) as (oct & oss & Henc & Hdec & Hoct & Hoss & Hpk).
    assert (size (Prekey_x25519_public p) = X25519_BYTES) as Hxpub
      by (injection Hxp as ->; apply x25519_public_size).
    rewrite Hid, Hpk, Hxpub, !Z.eqb_refl. simpl. rewrite Henc. simpl. rewrite Hx. simpl.
    set (part := Some (Prekey_id p, oct, prim_x25519_public rnd.(rand_ephemeral))).
    rewrite header_bytes_2_eq. fold part. set (header := header_of ct part rnd.(rand_nonce)).
    assert (exists key, derive_key_2 ss oss x header = Ret key /\ size key = 32) as (key & Hk & Hks).
    { apply hkdf_key. rewrite !size_app. pose proof (size_nonneg x). lia. }
    exists part, key. rewrite Hk. simpl.
    split_and!; [done|done|done|done|apply x25519_public_size|done| |].
    + unfold opening_key, part. rewrite Hd. cbn [exc_bind]. rewrite Hl, Hdec. cbn [exc_bind].
      rewrite (x25519_pair _ _ _ Hpair He), Hx. cbn [exc_bind]. fold part header. by rewrite Hk.
    + intros _ other Ho. unfold opening_key. rewrite Hd. simpl. destruct other as [f|]; [|done]. simpl in Ho. by rewrite Ho.
  - intros _. rewrite header_bytes_eq. cbv zeta. set (header := header_of ct None rnd.(rand_nonce)).
    destruct (hkdf_key ss (sha256 header) ENVELOPE_KEY_INFO) as (key & Hk & Hks); [lia|].
    change (hkdf_sha256 ss (sha256 header) ENVELOPE_KEY_INFO 32) with (derive_key ss header) in Hk.
    exists None, key. rewrite Hk. simpl. split_and!; [done..| |done].
    unfold opening_key. rewrite Hd. simpl. fold header. by rewrite Hk.
Qed.

Lemma envelope_prekey_id_parts ct part nonce c :
  size ct = kem_ciphertext_size -> part_ok part ->
  envelope_prekey_id (header_of ct part nonce ++ blob c) = part_id part.
Proof.
  intros Hct Hpart. unfold envelope_prekey_id. destruct (ciphertext_fits ct Hct). pose proof (part_version_u32 part).
  remember (header_of ct part nonce ++ blob c) as env eqn:Hat. apply at_off_0_app in Hat.
  unfold header_of in Hat. rewrite <- !app_assoc in Hat.
  read_fwd_step; [|assumption]. destruct part as [[[id pct] eph]|]; [|done]. simpl in *. destruct Hpart as (Hi & _).
  destruct (fixed_fits id _ Hi) as [? ?]; [done|]. rewrite <- !app_assoc in Hat.
  repeat (read_fwd_step; try assumption; cbv beta iota zeta). by rewrite Hi.
Qed.

(** What is sealed opens, and only with its prekey. For a recipient's key
    pair, a content that encodes and fits the largest size, and either no prekey
    or one whose secret the recipient has: sealing succeeds; the recipient opens
    the envelope to exactly the content, and learns which prekey was used; the
    envelope names that prekey without being opened; its length depends only on
    the size class of the content and the kind of header, and the relay accepts
    it; and once the prekey's secret is gone the envelope no longer opens, even
    with the long-term private key. *)
Theorem sealed_envelope_opens rnd i e rseed prekey lookup :
  let rpk := (generate_kem_keypair rseed).1 in
  let rsk := (generate_kem_keypair rseed).2 in
  encode_inner i = Ret e -> 4 + size e <= 65536 -> size rnd.(rand_nonce) = 12 ->
  match prekey with Some p => prekey_usable rnd lookup p | None => True end ->
  exists env,
    seal_envelope rnd i rpk prekey = Ret env /\
    open_envelope env rsk (Some lookup) = (Some i, option_map Prekey_id prekey) /\
    envelope_prekey_id env = option_map Prekey_id prekey /\
    size env =
      44 + kem_ciphertext_size + first_bucket (4 + size e) BUCKETS
      + match prekey with Some _ => 12 + PREKEY_ID_SIZE + kem_ciphertext_size + X25519_BYTES | None => 0 end /\
    size env <= MAX_ENVELOPE_BYTES /\
    forall p, prekey = Some p ->
      open_envelope env rsk None = (None, None) /\
      forall later, later p.(Prekey_id) = None -> open_envelope env rsk (Some later) = (None, None).
Proof.
  destruct (generate_kem_keypair rseed) as [rpk rsk] eqn:Hr. cbv zeta. cbn [fst snd]. intros He Hfit Hn Hpre.
  destruct (encapsulate_pair rnd.(rand_kem) rseed rpk rsk (eq_sym Hr)) as (ct & ss & Henc & Hdec & Hct & Hss & _).
  destruct (sealing_key rnd lookup ct ss rsk prekey Hdec Hss Hpre) as (part & key & Hseal & Hk & Hpart & Hid & Hopen & Hgone).
  destruct (bucket_fits (4 + size e) Hfit) as [Hin Hb]. set (bucket := first_bucket (4 + size e) BUCKETS) in *.
  pose proof (in_buckets _ Hin). destruct (unpad_pad bucket e Hin Hb) as [Hsz Hun].
  destruct (seal_content ct part rnd.(rand_nonce) key (pad_to bucket e) Hct Hpart Hn Hk) as (c & Hc & Hcs & Hd & Hes & Hmax); [lia|].
  set (header := header_of ct part rnd.(rand_nonce)) in *.
  assert (size c <= MAX_ENVELOPE_BYTES) as Hcm by (unfold MAX_ENVELOPE_BYTES; lia).
  exists (header ++ blob c). split_and!.
  - unfold seal_envelope. rewrite He. cbn [exc_bind]. fold bucket. rewrite (proj2 (Z.eqb_neq bucket 0)) by lia.
    rewrite Henc. cbn [exc_bind]. rewrite Hseal. cbn [exc_bind]. fold header. rewrite Hc. cbn [exc_bind].
    by rewrite write_blob_eq, (proj2 (Z.ltb_ge _ _) Hmax).
  - unfold header. rewrite open_envelope_parts by done. fold header. rewrite Hopen, Hd. simpl. rewrite Hun, Hid.
    by rewrite (decode_inner_encoded _ _ He (encode_inner_fits _ _ He Hfit)).
  - unfold header. by rewrite envelope_prekey_id_parts.
  - rewrite Hes, Hsz. unfold header. rewrite size_header, size_prekey_pieces by done.
    destruct part as [[[? ?] ?]|], prekey; simpl in *; done || lia.
  - done.
  - intros p ->. unfold header. split; [|intros later Hl]; rewrite open_envelope_parts by done; fold header;
      rewrite Hgone; try done. by rewrite Hid.
Qed.
End sealing.

(** Two records and an attachment grant, sealed with a one-time prekey. *)
Definition ex_inner : Inner :=
  mkInner [] [[Byte.x01; Byte.x02]; [Byte.x03]] []
    [mkGrant (replicate 16 Byte.x0a) (replicate 32 Byte.x0b) (replicate 32 Byte.x0c)].
Definition ex_seal_random : SealRandom :=
  mkSealRandom [Byte.x21] (replicate 12 Byte.x22) [Byte.x23] (replicate 32 Byte.x24).
Definition ex_secret : Secret := mkSecret (generate_kem_keypair [Byte.x25]).2 (replicate 32 Byte.x26).
Definition ex_prekey : Prekey :=
  mkPrekey (replicate 16 Byte.x27) (generate_kem_keypair [Byte.x25]).1
    (generate_x25519 (replicate 32 Byte.x26)).1 false 7 [Byte.x01].
Definition ex_lookup (id : bytes) : option Secret :=
  if bool_decide (id = ex_prekey.(Prekey_id)) then Some ex_secret else None.
Definition ex_encoded : bytes := match encode_inner ex_inner with Ret e => e | Throw _ => [] end.

Lemma sealed_envelope_opens_witness :
  prekey_usable ex_seal_random ex_lookup ex_prekey /\
  exists env,
    seal_envelope ex_seal_random ex_inner (generate_kem_keypair [Byte.x28]).1 (Some ex_prekey) = Ret env /\
    open_envelope env (generate_kem_keypair [Byte.x28]).2 (Some ex_lookup) = (Some ex_inner, Some ex_prekey.(Prekey_id)) /\
    size env <= MAX_ENVELOPE_BYTES.
Proof.
  assert (prekey_usable ex_seal_random ex_lookup ex_prekey) as Hp.
  { exists ex_secret, (replicate 32 Byte.x01). split; [reflexivity|]. split; [|split; reflexivity].
    split; [reflexivity|]. split; [by exists [Byte.x25]|]. split; reflexivity. }
  split; [exact Hp|].
  destruct (sealed_envelope_opens ex_seal_random ex_inner ex_encoded [Byte.x28] (Some ex_prekey) ex_lookup)
    as (env & Hs & Ho & _ & _ & Hm & _); [reflexivity|vm_compute; congruence|reflexivity|exact Hp|].
  exists env. split; [exact Hs|]. split; [exact Ho|exact Hm].
Defined.
