(* ===== verification/Utf8Label.v ===== *)
(** * Labels: valid_label of client/message_record.cpp

    The check of names, titles and captions before they are shown, a UTF-8
    decoder written by hand, and its equivalence with a reference encoder. *)

From Stdlib Require Import ZArith Lia.
From stdpp Require Import base list strings.
From S2P Require Import Prelude Wire.
#[local] Open Scope Z_scope.

(** ** The code *)

(** The lead byte: the bits it contributes and the length it announces.
    src/client/message_record.cpp 68-72 valid_label *)
Definition lead_byte (c : Z) : option (Z * Z) :=
  if c <? 0x80 then Some (c, 1)
  else if Z.land c 0xE0 =? 0xC0 then Some (Z.land c 0x1F, 2)
  else if Z.land c 0xF0 =? 0xE0 then Some (Z.land c 0x0F, 3)
  else if Z.land c 0xF8 =? 0xF0 then Some (Z.land c 0x07, 4)
  else None.

(** [for (size_t k = 1; k < len; k++)], [n] rounds from position [i].
    src/client/message_record.cpp 74-78 valid_label *)
Fixpoint continuation (n : nat) (s : bytes) (i cp : Z) : option Z :=
  match n with
  | O => Some cp
  | S n =>
      let cc := byte_at s i in
      if negb (Z.land cc 0xC0 =? 0x80) then None else
      continuation n s (i + 1) (Z.lor (Z.shiftl cp 6) (Z.land cc 0x3F))
  end.

(** src/client/message_record.cpp 62-62 valid_label *)
Definition MIN_FOR_LENGTH (len : Z) : Z := nth (Z.to_nat len) [0; 0; 0x80; 0x800; 0x10000] 0.

(** One round of the loop: the length of the character at [i], if it is allowed.
    src/client/message_record.cpp 65-82 valid_label *)
Definition label_char (s : bytes) (i : Z) : option Z :=
  let c := byte_at s i in
  let? (cp, len) := lead_byte c in
  if size s <? i + len then None else
  let? cp := continuation (Z.to_nat (len - 1)) s (i + 1) cp in
  if (1 <? len) && (cp <? MIN_FOR_LENGTH len) then None else
  if (0x10FFFF <? cp) || ((0xD800 <=? cp) && (cp <=? 0xDFFF)) then None else
  if (cp <? 0x20) || ((0x7F <=? cp) && (cp <=? 0x9F)) then None else
  if ((0x202A <=? cp) && (cp <=? 0x202E)) || ((0x2066 <=? cp) && (cp <=? 0x2069)) then None else
  Some len.

(** [while (i < s.size())]; every round moves on by at least one byte, so as many
    rounds as there are bytes, and the test that ends the loop, are enough.
    src/client/message_record.cpp 61-86 valid_label *)
Fixpoint label_loop (fuel : nat) (s : bytes) (i : Z) : bool :=
  match fuel with
  | O => false
  | S fuel =>
      if i <? size s then
        match label_char s i with
        | None => false
        | Some len => label_loop fuel s (i + len)
        end
      else true
  end.
(** src/client/message_record.cpp 61-86 valid_label *)
Definition valid_label (s : bytes) : bool := label_loop (S (length s)) s 0.

(** ** The reference *)

(** UTF-8 of one code point (RFC 3629). *)
Definition utf8 (cp : Z) : bytes :=
  if cp <? 0x80 then [byte_of_Z cp]
  else if cp <? 0x800 then [byte_of_Z (192 + cp / 64); byte_of_Z (128 + cp mod 64)]
  else if cp <? 0x10000 then
    [byte_of_Z (224 + cp / 4096); byte_of_Z (128 + cp / 64 mod 64); byte_of_Z (128 + cp mod 64)]
  else
    [byte_of_Z (240 + cp / 262144); byte_of_Z (128 + cp / 4096 mod 64); byte_of_Z (128 + cp / 64 mod 64);
     byte_of_Z (128 + cp mod 64)].

(** Code points that may appear in a label: scalar values, except controls and
    the bidirectional embeddings, overrides and isolates. *)
Definition shown (cp : Z) : Prop :=
  0x20 <= cp <= 0x10FFFF /\ ~ (0xD800 <= cp <= 0xDFFF) /\ ~ (0x7F <= cp <= 0x9F) /\
  ~ (0x202A <= cp <= 0x202E) /\ ~ (0x2066 <= cp <= 0x2069).

(** ** Bits of a byte *)

Definition byte_values : list Z := map Z.of_nat (seq 0 256).

(** A decidable property of bytes is checked on all of them. *)
Lemma byte_cases (Q : Z -> Prop) `{forall c, Decision (Q c)} :
  forallb (fun c => bool_decide (Q c)) byte_values = true -> forall b, Q (Z_of_byte b).
Proof.
  intros Hf b. rewrite forallb_forall in Hf. apply (bool_decide_eq_true (Q (Z_of_byte b))), Hf.
  pose proof (Z_of_byte_range b).
  unfold byte_values. apply in_map_iff. exists (Z.to_nat (Z_of_byte b)). split; [lia|]. apply in_seq. lia.
Qed.

Definition lead_range (c : Z) : option (Z * Z) :=
  if c <? 128 then Some (c, 1) else if (192 <=? c) && (c <? 224) then Some (c - 192, 2)
  else if (224 <=? c) && (c <? 240) then Some (c - 224, 3)
  else if (240 <=? c) && (c <? 248) then Some (c - 240, 4) else None.

Lemma lead_byte_eq b : lead_byte (Z_of_byte b) = lead_range (Z_of_byte b).
Proof. revert b. apply (byte_cases (fun c => lead_byte c = lead_range c)). vm_compute. reflexivity. Qed.

Lemma continuation_test b :
  (Z.land (Z_of_byte b) 0xC0 =? 0x80) = (128 <=? Z_of_byte b) && (Z_of_byte b <? 192).
Proof.
  revert b. apply (byte_cases (fun c => (Z.land c 0xC0 =? 0x80) = (128 <=? c) && (c <? 192))). vm_compute. reflexivity.
Qed.

Lemma continuation_value b : 128 <= Z_of_byte b < 192 -> Z.land (Z_of_byte b) 0x3F = Z_of_byte b - 128.
Proof.
  revert b. apply (byte_cases (fun c => 128 <= c < 192 -> Z.land c 0x3F = c - 128)). vm_compute. reflexivity.
Qed.

Lemma add_bits cp x : 0 <= x < 64 -> Z.lor (Z.shiftl cp 6) x = cp * 64 + x.
Proof. intros. rewrite Z.shiftl_mul_pow2 by lia. by rewrite (lor_add_low _ _ 6) by (lia || Zlia). Qed.

(** One continuation byte. *)
Lemma continuation_cons n s i b rest cp :
  at_off s i (b :: rest) ->
  continuation (S n) s i cp =
  if (128 <=? Z_of_byte b) && (Z_of_byte b <? 192) then continuation n s (i + 1) (cp * 64 + (Z_of_byte b - 128)) else None.
Proof.
  intros Hat. cbn [continuation]. rewrite (byte_at_cons _ _ _ _ Hat).
  rewrite continuation_test. destruct (_ && _) eqn:E; [|done]. bool_prop. cbn [negb].
  by rewrite continuation_value, add_bits by lia.
Qed.

(** ** Characters *)

(** The value of a byte string of one to four bytes. *)
Definition cont (b : byte) : Prop := 128 <= Z_of_byte b < 192.

Lemma at_off_size s i rest : at_off s i rest -> i + size rest = size s.
Proof. by intros (_ & ? & _). Qed.

(** What is allowed, as the code tests it once a code point is decoded. *)
Definition allowed (cp len : Z) : bool :=
  negb ((1 <? len) && (cp <? MIN_FOR_LENGTH len))
  && negb ((0x10FFFF <? cp) || ((0xD800 <=? cp) && (cp <=? 0xDFFF)))
  && negb ((cp <? 0x20) || ((0x7F <=? cp) && (cp <=? 0x9F)))
  && negb (((0x202A <=? cp) && (cp <=? 0x202E)) || ((0x2066 <=? cp) && (cp <=? 0x2069))).

Lemma label_char_tests s i :
  label_char s i =
  let? (cp, len) := lead_byte (byte_at s i) in
  if size s <? i + len then None else
  let? cp := continuation (Z.to_nat (len - 1)) s (i + 1) cp in
  if allowed cp len then Some len else None.
Proof.
  unfold label_char, allowed. cbv zeta. destruct (lead_byte _) as [[cp len]|]; [|done].
  destruct (_ <? _); [done|]. destruct (continuation _ _ _ _) as [v|]; [|done].
  do 4 (destruct (_ : bool); [done|]). done.
Qed.

Lemma allowed_shown cp len : 1 <= len <= 4 ->
  allowed cp len = true <-> shown cp /\ (1 < len -> MIN_FOR_LENGTH len <= cp).
Proof.
  intros _. unfold allowed, shown.
  rewrite !andb_true_iff, !negb_true_iff, !orb_false_iff, !andb_false_iff, !Z.ltb_ge, !Z.leb_gt. lia.
Qed.

(** The number a lead byte and its continuation bytes stand for. *)
Fixpoint value_of (cp : Z) (l : bytes) : Z :=
  match l with [] => cp | b :: l => value_of (cp * 64 + (Z_of_byte b - 128)) l end.

Lemma continuation_at l s i rest cp :
  at_off s i (l ++ rest) ->
  continuation (length l) s i cp = if forallb (fun b => (128 <=? Z_of_byte b) && (Z_of_byte b <? 192)) l
                                   then Some (value_of cp l) else None.
Proof.
  revert i cp. induction l as [|b l IH]; intros i cp Hat; [done|]. cbn [length app forallb value_of] in *.
  rewrite (continuation_cons _ _ _ _ _ _ Hat). destruct (_ && _) eqn:E; [|done]. cbn [andb].
  rewrite IH; [done|]. by apply (at_off_app _ _ [b]).
Qed.

(** A lead byte [b], the bits [v] it contributes and the [n] bytes that follow. *)
Definition lead_ok (b : byte) (v : Z) (n : nat) : Prop := lead_range (Z_of_byte b) = Some (v, 1 + Z.of_nat n).

Lemma label_char_at s i b l rest v :
  at_off s i (b :: l ++ rest) -> lead_ok b v (length l) ->
  label_char s i =
  if forallb (fun b => (128 <=? Z_of_byte b) && (Z_of_byte b <? 192)) l && allowed (value_of v l) (1 + size l)
  then Some (1 + size l) else None.
Proof.
  intros Hat Hl. rewrite label_char_tests, (byte_at_cons _ _ _ _ Hat), lead_byte_eq, Hl.
  pose proof (at_off_size _ _ _ Hat) as Hs. rewrite size_cons, size_app in Hs. pose proof (size_nonneg rest).
  unfold size in *. rewrite (proj2 (Z.ltb_ge _ _)) by lia.
  replace (Z.to_nat (1 + Z.of_nat (length l) - 1)) with (length l) by lia.
  apply (at_off_app _ _ [b]) in Hat. rewrite (continuation_at l _ _ rest) by exact Hat.
  by destruct (forallb _ l).
Qed.

(** A character that is accepted has its bytes in the string. *)
Lemma label_char_bytes s i rest len :
  at_off s i rest -> label_char s i = Some len ->
  exists b l v rest', rest = b :: l ++ rest' /\ lead_ok b v (length l) /\ len = 1 + size l.
Proof.
  intros Hat Hc. rewrite label_char_tests in Hc. destruct rest as [|b rest].
  { apply at_off_end in Hat as ->. unfold byte_at in Hc. rewrite nth_overflow in Hc by (unfold size; lia).
    change (lead_byte (Z_of_byte Byte.x00)) with (Some (0, 1)) in Hc. cbv beta iota in Hc. by rewrite (proj2 (Z.ltb_lt _ _)) in Hc by lia. }
  rewrite (byte_at_cons _ _ _ _ Hat), lead_byte_eq in Hc. pose proof (at_off_size _ _ _ Hat) as Hs. rewrite size_cons in Hs.
  destruct (lead_range (Z_of_byte b)) as [[v n]|] eqn:El; [|done]. destruct (_ <? i + n) eqn:En; [done|]. bool_prop.
  assert (1 <= n <= 4) as Hn by (revert El; unfold lead_range; repeat case_match; intros [=]; lia).
  exists b, (ztake (n - 1) rest), v, (zdrop (n - 1) rest). rewrite ztake_zdrop.
  assert (size (ztake (n - 1) rest) = n - 1) as Ht by (apply size_ztake; lia).
  unfold lead_ok. split_and!; [done| |].
  - rewrite El. unfold size in Ht. do 2 f_equal. lia.
  - destruct (continuation _ _ _ _); [|done]. case_match; [|done]. injection Hc as <-. lia.
Qed.

Definition conts (l : bytes) : bool := forallb (fun b => (128 <=? Z_of_byte b) && (Z_of_byte b <? 192)) l.

(** The arithmetic of the four lengths. *)
Ltac label_arith :=
  first
  [ reflexivity
  | lazymatch goal with
    | |- (if _ then _ else _) = Some _ => repeat case_match; bool_prop; try (do 2 f_equal; Zlia); exfalso; Zlia
    | |- _ = true => rewrite !andb_true_iff, !Z.leb_le, !Z.ltb_lt; split_and!; done || Zlia
    | |- _ -> MIN_FOR_LENGTH _ <= _ => unfold MIN_FOR_LENGTH; simpl; lia
    | |- _ => Zlia
    end ].

Lemma utf8_bytes cp : shown cp ->
  exists b l v, utf8 cp = b :: l /\ lead_ok b v (length l) /\ conts l = true /\ value_of v l = cp /\
    (1 < 1 + size l -> MIN_FOR_LENGTH (1 + size l) <= cp).
Proof.
  unfold shown. intros Hs. unfold utf8. repeat case_match; bool_prop; do 2 eexists;
    [exists cp|exists (cp / 64)|exists (cp / 4096)|exists (cp / 262144)]; (split; [reflexivity|]);
    unfold lead_ok, lead_range, conts, value_of, size; cbn [length forallb];
    rewrite ?Z_of_byte_of_Z, ?(Z.mod_small _ 256) by Zlia; split_and!; label_arith.
Qed.

(** The bytes of an accepted character are the encoding of its value. *)
Lemma utf8_of_bytes b l v :
  lead_ok b v (length l) -> conts l = true -> allowed (value_of v l) (1 + size l) = true ->
  utf8 (value_of v l) = b :: l /\ shown (value_of v l).
Proof.
  unfold lead_ok, lead_range. intros Hl Hc Ha. pose proof (Z_of_byte_range b).
  assert (length l = 0 \/ length l = 1 \/ length l = 2 \/ length l = 3)%nat as Hlen
    by (revert Hl; repeat case_match; intros [=]; lia).
  apply allowed_shown in Ha as [Hs Hm]; [|unfold size; lia]. split; [|done].
  assert (forall x c, Z_of_byte c = x -> byte_of_Z x = c) as Hbyte by (intros ? ? <-; apply byte_of_Z_of_byte).
  unfold shown in Hs. unfold conts in Hc.
  destruct l as [|b1 [|b2 [|b3 [|]]]]; simpl in Hlen; try lia;
    unfold size, MIN_FOR_LENGTH in Hm; simpl in Hm, Hc, Hs; cbn [value_of] in *;
    revert Hl; cbn [length]; repeat case_match; bool_prop; intros [=]; try lia; subst v;
    unfold utf8; repeat case_match; bool_prop; try lia;
    repeat f_equal; apply Hbyte; Zlia.
Qed.

Lemma label_char_fwd s i cp rest :
  at_off s i (utf8 cp ++ rest) -> shown cp -> label_char s i = Some (size (utf8 cp)).
Proof.
  intros Hat Hs. destruct (utf8_bytes cp Hs) as (b & l & v & E & Hl & Hc & Hv & Hm). rewrite E in *.
  rewrite (label_char_at _ _ _ _ _ _ Hat Hl). fold (conts l). rewrite Hc, Hv, size_cons.
  assert (1 <= 1 + size l <= 4) as Hlen.
  { revert Hl. unfold lead_ok, lead_range, size. repeat case_match; intros [=]; lia. }
  by rewrite (proj2 (allowed_shown cp (1 + size l) Hlen)).
Qed.

Lemma label_char_inv s i rest len :
  at_off s i rest -> label_char s i = Some len ->
  exists cp rest', shown cp /\ rest = utf8 cp ++ rest' /\ len = size (utf8 cp).
Proof.
  intros Hat Hc. destruct (label_char_bytes _ _ _ _ Hat Hc) as (b & l & v & rest' & -> & Hl & ->).
  rewrite (label_char_at _ _ _ _ _ _ Hat Hl) in Hc. fold (conts l) in Hc.
  destruct (conts l) eqn:E1; [|done]. destruct (allowed _ _) eqn:E2; [|done].
  destruct (utf8_of_bytes b l v Hl E1 E2) as [Hu Hs]. exists (value_of v l), rest'. by rewrite Hu, size_cons.
Qed.

Lemma utf8_nonempty cp : 1 <= size (utf8 cp).
Proof. unfold utf8. repeat case_match; unfold size; simpl; lia. Qed.

(** The loop from [i], with enough rounds for what is left. *)
Lemma label_loop_spec fuel s i rest :
  at_off s i rest -> (length rest < fuel)%nat ->
  label_loop fuel s i = true <-> exists cps, Forall shown cps /\ rest = concat (map utf8 cps).
Proof.
  revert i rest. induction fuel as [|fuel IH]; intros i rest Hat Hf; [lia|]. cbn [label_loop].
  pose proof (at_off_size _ _ _ Hat) as Hs. destruct (i <? size s) eqn:Ei; bool_prop; cycle 1.
  { assert (rest = []) as -> by (apply size_zero_iff; pose proof (size_nonneg rest); lia).
    split; [|done]. intros _. by exists []. }
  destruct (label_char s i) as [len|] eqn:Ec.
  - destruct (label_char_inv _ _ _ _ Hat Ec) as (cp & rest' & Hcp & -> & ->).
    pose proof (utf8_nonempty cp). rewrite length_app in Hf.
    rewrite (IH _ rest' (at_off_app _ _ _ _ Hat)) by (unfold size in *; lia). split.
    + intros (cps & Hcps & ->). exists (cp :: cps). by rewrite Forall_cons.
    + intros ([|cp' cps] & Hcps & E); [destruct (utf8 cp); [unfold size in *; simpl in *; lia|done]|].
      apply Forall_cons in Hcps as [Hcp' Hcps]. simpl in E.
      pose proof Hat as Hat'. rewrite E in Hat'. pose proof (label_char_fwd _ _ _ _ Hat' Hcp') as E2.
      rewrite Ec in E2. injection E2 as E2. apply app_inj_1 in E as [_ ->]; [by exists cps|]. unfold size in E2. lia.
  - split; [done|]. intros ([|cp cps] & Hcps & ->); [unfold size in Hs, Ei; simpl in Hs; lia|].
    apply Forall_cons in Hcps as [Hcp _]. by rewrite (label_char_fwd _ _ _ _ Hat Hcp) in Ec.
Qed.

(** C37: [valid_label] is exact. It accepts a string exactly when the string is the
    UTF-8 encoding of a sequence of code points none of which is a surrogate, a
    control or a bidirectional embedding, override or isolate. In particular no
    overlong form and no truncated character passes, and every sequence of shown
    characters does. *)
Theorem valid_label_exact s :
  valid_label s = true <-> exists cps, Forall shown cps /\ s = concat (map utf8 cps).
Proof. apply label_loop_spec; [apply at_off_0|lia]. Qed.
