(* ===== verification/Attachment.v ===== *)
(** * Attachments, the client's half: client/attachment.h and attachment.cpp

    How a file is cut into chunks, sealed, put back together from what arrives
    (resuming an interrupted download), checked, and saved under a name made safe.
    A folder is a finite map from names to contents. What the file system answers
    (a folder that is missing, a write that fails, bytes lost when the file is
    closed) are arguments. [Sha256] is the list of bytes hashed so far. A write is
    in the file at once; what an interruption leaves of the file is any content. *)

From Stdlib Require Import ZArith Lia.
From stdpp Require Import base list strings gmap.
From S2P Require Import Prelude Wire Text Protocol RelayProtocol RelayProtocolSpec Crypto Utf8Label.
#[local] Open Scope Z_scope.
#[local] Open Scope wire_scope.

(** src/client/attachment.h 22-22 KEY_BYTES *)
Definition ATT_KEY_BYTES : Z := 32.
(** src/client/attachment.h 23-23 TAG_BYTES *)
Definition TAG_BYTES : Z := 16.
(** src/client/attachment.h 26-26 CHUNK_PLAINTEXT_BYTES *)
Definition CHUNK_PLAINTEXT_BYTES : Z := 48 * 1024.
(** src/client/attachment.h 28-28 MAX_PLAINTEXT_BYTES *)
Definition MAX_PLAINTEXT_BYTES : Z := 15 * 1024 * 1024 * 1024.

(** src/client/attachment.h 30-34 Plan *)
Record Plan := mkPlan { chunk_count : Z; chunk_size : Z; ciphertext_size : Z }.

(** src/client/attachment.cpp 93-100 plan_for *)
Definition plan_for (plaintext_size : Z) : exc Plan :=
  if MAX_PLAINTEXT_BYTES <? plaintext_size then Throw "That file is too large to send" else
  let count := if plaintext_size =? 0 then 1
               else u32 (u64 (plaintext_size + CHUNK_PLAINTEXT_BYTES - 1) / CHUNK_PLAINTEXT_BYTES) in
  Ret (mkPlan count (u32 (CHUNK_PLAINTEXT_BYTES + TAG_BYTES)) (u64 (plaintext_size + count * TAG_BYTES))).

(** src/client/attachment.cpp 17-17 CHUNK_AAD_LABEL *)
Definition CHUNK_AAD_LABEL : bytes := str "pq-suite v3 attachment chunk".

(** src/client/attachment.cpp 19-26 chunk_aad *)
Definition chunk_aad (file_id : bytes) (index count : Z) : bytes :=
  let b := write_string [] CHUNK_AAD_LABEL in
  let b := write_blob b file_id in
  let b := write_u32 b index in
  write_u32 b count.

(** [n[11 - i] = index >> (8 * i)] for [i] from 0 to 3.
    src/client/attachment.cpp 28-32 chunk_nonce *)
Definition chunk_nonce (index : Z) : bytes :=
  foldl (fun n i => <[ (11 - i)%nat := byte_of_Z (Z.shiftr index (8 * Z.of_nat i)) ]> n) (replicate 12 Byte.x00) (seq 0 4).

(** src/client/attachment.cpp 34-36 plain_size_of_chunk *)
Definition plain_size_of_chunk (plan : Plan) (sz index : Z) : Z :=
  if u32 (index + 1) <? plan.(chunk_count) then CHUNK_PLAINTEXT_BYTES
  else u64 (sz - CHUNK_PLAINTEXT_BYTES * u32 (plan.(chunk_count) - 1)).

(** ** Names *)

(** src/client/attachment.cpp 39-63 decode_utf8 *)
Definition utf8_char (s : bytes) (i : Z) : option (Z * Z) :=
  let c := byte_at s i in
  let? (cp, len) := lead_byte c in
  if size s <? i + len then None else
  let? cp := continuation (Z.to_nat (len - 1)) s (i + 1) cp in
  if (1 <? len) && (cp <? MIN_FOR_LENGTH len) then None else
  if (0x10FFFF <? cp) || ((0xD800 <=? cp) && (cp <=? 0xDFFF)) then None else
  Some (cp, len).

(** [while (i < s.size())]; every round moves on, so the length is fuel enough.
    src/client/attachment.cpp 39-63 decode_utf8 *)
Fixpoint decode_utf8 (fuel : nat) (s : bytes) (i : Z) : option (list Z) :=
  match fuel with
  | O => None
  | S fuel =>
      if i <? size s then
        let? (cp, len) := utf8_char s i in
        let? cps := decode_utf8 fuel s (i + len) in
        Some (cp :: cps)
      else Some []
  end.

(** src/client/attachment.cpp 65-70 append_utf8 *)
Definition append_utf8 (out : bytes) (cp : Z) : bytes :=
  if cp <? 0x80 then out ++ [byte_of_Z cp]
  else if cp <? 0x800 then
    out ++ [byte_of_Z (Z.lor 0xC0 (Z.shiftr cp 6)); byte_of_Z (Z.lor 0x80 (Z.land cp 0x3F))]
  else if cp <? 0x10000 then
    out ++ [byte_of_Z (Z.lor 0xE0 (Z.shiftr cp 12)); byte_of_Z (Z.lor 0x80 (Z.land (Z.shiftr cp 6) 0x3F));
            byte_of_Z (Z.lor 0x80 (Z.land cp 0x3F))]
  else
    out ++ [byte_of_Z (Z.lor 0xF0 (Z.shiftr cp 18)); byte_of_Z (Z.lor 0x80 (Z.land (Z.shiftr cp 12) 0x3F));
            byte_of_Z (Z.lor 0x80 (Z.land (Z.shiftr cp 6) 0x3F)); byte_of_Z (Z.lor 0x80 (Z.land cp 0x3F))].

(** The forbidden characters are slash, backslash, colon, star, question mark,
    quote, less, greater and bar.
    src/client/attachment.cpp 72-80 unsafe_in_name *)
Definition unsafe_in_name (cp : Z) : bool :=
  (cp <? 0x20) || ((0x7F <=? cp) && (cp <=? 0x9F))
  || ((0x202A <=? cp) && (cp <=? 0x202E)) || ((0x2066 <=? cp) && (cp <=? 0x2069))
  || (cp =? 0x200E) || (cp =? 0x200F) || (cp =? 0x061C) || (cp =? 0xFEFF)
  || bool_decide (cp ∈ [47; 92; 58; 42; 63; 34; 60; 62; 124]).

(** src/client/attachment.cpp 82-89 reserved_windows_name *)
Definition reserved_windows_name (name : bytes) : bool :=
  let base := match find_char (chr 46) name with Some i => ztake i name | None => name end in
  let base := drop_back (fun c => bool_decide (c = chr 32)) base in
  let upper := map to_upper base in
  bool_decide (upper ∈ [str "CON"; str "PRN"; str "AUX"; str "NUL"])
  || ((size upper =? 4) && bool_decide (ztake 3 upper ∈ [str "COM"; str "LPT"])
      && (49 <=? byte_at upper 3) && (byte_at upper 3 <=? 57)).

Definition space_or_dot (c : byte) : bool := bool_decide (c = chr 32) || bool_decide (c = chr 46).

(** [while (keep > 0 && (out[keep] & 0xC0) == 0x80) keep--].
    src/client/attachment.cpp 310-332 sanitize_filename *)
Fixpoint cut_at (keep : nat) (out : bytes) : Z :=
  match keep with
  | O => 0
  | S k => if Z.land (byte_at out (Z.of_nat keep)) 0xC0 =? 0x80 then cut_at k out else Z.of_nat keep
  end.

(** A name of more than 200 bytes is cut, keeping a short extension.
    src/client/attachment.cpp 310-332 sanitize_filename *)
Definition shorten (out : bytes) : bytes :=
  if size out <=? 200 then out else
  let ext := match rfind_char (chr 46) out with
             | Some dot => if (0 <? dot) && (size out - dot <=? 20) then zdrop dot out else []
             | None => []
             end in
  let keep := cut_at (Z.to_nat (200 - size ext)) out in
  ztake keep out ++ ext.

(** src/client/attachment.cpp 310-332 sanitize_filename *)
Definition sanitize_filename (name : bytes) : bytes :=
  match decode_utf8 (S (length name)) name 0 with
  | None => str "attachment"
  | Some cps =>
      let out := foldl (fun out cp => append_utf8 out (if unsafe_in_name cp then 95 else cp)) [] cps in
      let out := drop_back space_or_dot (drop_front space_or_dot out) in
      if is_empty out then str "attachment" else
      let out := shorten out in
      if reserved_windows_name out then chr 95 :: out else out
  end.

(** The names and contents in a folder. *)
Abbreviation Folder := (gmap bytes bytes).

(** The name, then the name with 2, 3, ... up to 9999.
    src/client/attachment.cpp 334-352 unique_path *)
Definition numbered (name : bytes) (n : nat) : bytes :=
  let '(stem, ext) :=
    match rfind_char (chr 46) name with
    | Some dot => if 0 <? dot then (ztake dot name, zdrop dot name) else (name, [])
    | None => (name, [])
    end in
  stem ++ str " (" ++ to_string (Z.of_nat n) ++ str ")" ++ ext.

(** src/client/attachment.cpp 334-352 unique_path *)
Definition unique_path (directory : Folder) (name : bytes) : option bytes :=
  let taken p := match directory !! p with Some _ => true | None => false end in
  if negb (taken name) then Some name else
  numbered name <$> head (filter (fun n => taken (numbered name n) = false) (seq 2 9998)).

Section attachment.
Context `{P : Primitives}.

(** src/client/attachment.cpp 102-107 seal_chunk *)
Definition seal_chunk (key file_id : bytes) (index count : Z) (plaintext : bytes) : exc bytes :=
  if negb (size key =? ATT_KEY_BYTES) then Throw "The file key has the wrong size" else
  if negb (size file_id =? FILE_ID_BYTES) || (CHUNK_PLAINTEXT_BYTES <? size plaintext) || (count =? 0) || (count <=? index)
  then Throw "That chunk is not valid" else
  encrypt key (chunk_nonce index) plaintext (chunk_aad file_id index count).

(** src/client/attachment.cpp 109-118 open_chunk *)
Definition open_chunk (key file_id : bytes) (index count : Z) (sealed : bytes) : option bytes :=
  if negb (size key =? ATT_KEY_BYTES) || negb (size file_id =? FILE_ID_BYTES) || (count =? 0) || (count <=? index)
     || (size sealed <? TAG_BYTES) || (CHUNK_PLAINTEXT_BYTES + TAG_BYTES <? size sealed)
  then None else
  catch (decrypt key (chunk_nonce index) sealed (chunk_aad file_id index count)).

(** A call that returns true, or false with a reason. *)
Inductive outcome :=
  | Done
  | Failed (error : string).

(** The file, or nothing if it cannot be opened; [bad] when reading it fails.
    src/client/attachment.cpp 134-160 fingerprint_file *)
Definition fingerprint_file (file : option bytes) (bad : bool) : string + (Z * bytes) :=
  match file with
  | None => inl "That file could not be opened"
  | Some content =>
      if MAX_PLAINTEXT_BYTES <? size content then inl "That file is too large to send" else
      if bad then inl "That file could not be read" else
      inr (size content, sha256 content)
  end.

(** src/client/attachment.h 69-81 Encryptor *)
Record Encryptor := mkEncryptor { en_key : bytes; en_file_id : bytes; en_size : Z; en_plan : Plan }.

(** The file is what is there when the chunk is read.
    src/client/attachment.cpp 165-191 chunk *)
Definition encryptor_chunk (e : Encryptor) (file : option bytes) (index : Z) : string + bytes :=
  match file with
  | None => inl "That file could not be opened"
  | Some content =>
      if e.(en_plan).(chunk_count) <=? index then inl "That chunk is past the end of the file" else
      let want := plain_size_of_chunk e.(en_plan) e.(en_size) index in
      let plain := ztake want (zdrop (index * CHUNK_PLAINTEXT_BYTES) content) in
      if negb (size plain =? want) then inl "The file changed while it was being sent" else
      match seal_chunk e.(en_key) e.(en_file_id) index e.(en_plan).(chunk_count) plain with
      | Ret sealed => inr sealed
      | Throw what => inl what
      end
  end.

(** An output stream: whether it is open, and whether an operation has failed. *)
Record Stream := mkStream { st_open : bool; st_ok : bool }.
Definition stream_close (s : Stream) : Stream := mkStream false (s.(st_open) && s.(st_ok)).

(** src/client/attachment.h 86-113 Decryptor *)
Record Decryptor := mkDecryptor {
  de_name : bytes;
  de_key : bytes;
  de_file_id : bytes;
  de_expected_hash : bytes;
  de_size : Z;
  de_plan : Plan;
  de_next : Z;
  de_written : Z;
  de_out : Stream;
  de_hash : option bytes;
}.

Definition with_progress (d : Decryptor) (next written : Z) (out : Stream) (hash : option bytes) : Decryptor :=
  mkDecryptor d.(de_name) d.(de_key) d.(de_file_id) d.(de_expected_hash) d.(de_size) d.(de_plan) next written out hash.

(** src/client/attachment.cpp 193-196 Decryptor *)
Definition new_decryptor (name key file_id : bytes) (plaintext_size : Z) (hash : bytes) : exc Decryptor :=
  let! plan := plan_for plaintext_size in
  Ret (mkDecryptor name key file_id hash plaintext_size plan 0 0 (mkStream false true) None).

(** The temporary file.
    src/client/attachment.cpp 193-196 Decryptor *)
Definition part_name (d : Decryptor) : bytes := str ".pqft-" ++ ztake 16 (bytes_to_hex d.(de_file_id)) ++ str ".part".

(** What the file system answers to [begin]. *)
Record BeginAnswers := mkBeginAnswers {
  ba_is_directory : bool;
  ba_size_known : bool;
  ba_resized : bool;
  ba_read_back : bool;
  ba_opened : bool;
}.

(** src/client/attachment.cpp 200-244 begin *)
Definition decryptor_begin (ans : BeginAnswers) (d : Decryptor) (dir : Folder) (resume : bool) : outcome * Decryptor * Folder :=
  if negb ans.(ba_is_directory) then (Failed "The folder to save in doesn't exist", d, dir) else
  let part := part_name d in
  let opened := mkStream ans.(ba_opened) ans.(ba_opened) in
  let '(d, dir) :=
    match (if resume then dir !! part else None) with
    | Some content =>
        let have := if ans.(ba_size_known) then size content else 0 in
        let keep := if d.(de_size) <=? have then d.(de_size) else have - have mod CHUNK_PLAINTEXT_BYTES in
        let '(keep, hash, content) :=
          if 0 <? keep then
            let content := if ans.(ba_resized) then ztake keep content else content in
            if ans.(ba_read_back) && (keep <=? size content) then (keep, ztake keep content, content) else (0, [], content)
          else (keep, [], content) in
        let content := if (keep =? 0) && ans.(ba_resized) then [] else content in
        let next := if (d.(de_size) <=? keep) && (0 <? d.(de_size)) then d.(de_plan).(chunk_count)
                    else u32 (keep / CHUNK_PLAINTEXT_BYTES) in
        (with_progress d next keep opened (Some hash), <[part := content]> dir)
    | None => (with_progress d 0 0 opened (Some []), if ans.(ba_opened) then <[part := []]> dir else dir)
    end in
  if negb ans.(ba_opened) then (Failed "The file could not be saved here", d, dir) else (Done, d, dir).

(** [wrote]: the write succeeded, or how many of the bytes reached the file.
    src/client/attachment.cpp 246-273 accept *)
Definition decryptor_accept (wrote : option Z) (d : Decryptor) (dir : Folder) (index : Z) (sealed : bytes)
    : outcome * Decryptor * Folder :=
  match d.(de_hash) with
  | None => (Failed "The download was not started", d, dir)
  | Some hashed =>
      if negb d.(de_out).(st_ok) then (Failed "The download was not started", d, dir) else
      if negb (index =? d.(de_next)) || (d.(de_plan).(chunk_count) <=? index) then (Failed "A chunk arrived out of order", d, dir) else
      match open_chunk d.(de_key) d.(de_file_id) index d.(de_plan).(chunk_count) sealed with
      | None => (Failed "A chunk of the file could not be opened: it is damaged, or not from this file", d, dir)
      | Some plain =>
          if negb (size plain =? plain_size_of_chunk d.(de_plan) d.(de_size) index)
          then (Failed "A chunk of the file is the wrong size", d, dir) else
          let before := default [] (dir !! part_name d) in
          let full := "The file could not be saved here (is the disk full?)" in
          if negb d.(de_out).(st_open)
          then (Failed full, with_progress d d.(de_next) d.(de_written) (mkStream false false) (Some hashed), dir) else
          match wrote with
          | Some n =>
              (Failed full, with_progress d d.(de_next) d.(de_written) (mkStream true false) (Some hashed),
               <[part_name d := before ++ ztake n plain]> dir)
          | None =>
              (Done, with_progress d (u32 (d.(de_next) + 1)) (u64 (d.(de_written) + size plain)) d.(de_out) (Some (hashed ++ plain)),
               <[part_name d := before ++ plain]> dir)
          end
      end
  end.

(** src/client/attachment.cpp 302-308 abort *)
Definition decryptor_abort (d : Decryptor) (dir : Folder) : Decryptor * Folder :=
  (with_progress d 0 0 (stream_close d.(de_out)) d.(de_hash), delete (part_name d) dir).

(** [lost]: how many of the last bytes did not reach the file when it was closed,
    which is not checked; [renamed]: whether the file could be renamed.
    src/client/attachment.cpp 275-300 finish *)
Definition decryptor_finish (lost : Z) (renamed : bool) (d : Decryptor) (dir : Folder)
    : (string + bytes) * Decryptor * Folder :=
  match d.(de_hash) with
  | None => (inl "The file is not complete", d, dir)
  | Some hashed =>
      if negb d.(de_out).(st_ok) || negb (d.(de_next) =? d.(de_plan).(chunk_count)) || negb (d.(de_written) =? d.(de_size))
      then (inl "The file is not complete", d, dir) else
      let part := part_name d in
      let content := default [] (dir !! part) in
      let content := ztake (size content - lost) content in
      let dir := <[part := content]> dir in
      let d := with_progress d d.(de_next) d.(de_written) (stream_close d.(de_out)) d.(de_hash) in
      if negb (bool_decide (sha256 hashed = d.(de_expected_hash))) then
        let '(d, dir) := decryptor_abort d dir in
        (inl "The file does not match the fingerprint the sender signed: it was altered, so it was not saved", d, dir)
      else
        match unique_path dir (sanitize_filename d.(de_name)) with
        | None => (inl "No free file name was found in that folder", d, dir)
        | Some target =>
            if negb renamed then (inl "The file could not be saved", d, dir) else
            (inr target, d, <[target := content]> (delete part dir))
        end
  end.
End attachment.
