(* ===== verification/AttachmentProps.v ===== *)
(** * What attachments promise

    A file that is sealed, fetched (perhaps with interruptions) and opened is
    saved whole; nothing is saved unless it has the size and fingerprint the
    sender signed; names chosen by others are safe. *)

From Stdlib Require Import ZArith Lia.
From stdpp Require Import base list strings gmap.
From S2P Require Import Prelude Wire Text Protocol RelayProtocol RelayProtocolSpec Crypto Utf8Label Attachment.
#[local] Open Scope Z_scope.
#[local] Open Scope wire_scope.

(** ** The plan *)

(** The number of chunks. *)
Definition chunks_of (sz : Z) : Z := if sz =? 0 then 1 else (sz + CHUNK_PLAINTEXT_BYTES - 1) / CHUNK_PLAINTEXT_BYTES.

Lemma chunks_of_bounds sz :
  0 <= sz <= MAX_PLAINTEXT_BYTES ->
  1 <= chunks_of sz < 2 ^ 32 - 1 /\ (chunks_of sz - 1) * CHUNK_PLAINTEXT_BYTES <= sz <= chunks_of sz * CHUNK_PLAINTEXT_BYTES /\
  (0 < sz -> (chunks_of sz - 1) * CHUNK_PLAINTEXT_BYTES < sz).
Proof.
  unfold chunks_of, CHUNK_PLAINTEXT_BYTES, MAX_PLAINTEXT_BYTES. intros Hs.
  destruct (sz =? 0) eqn:E; bool_prop; [lia|]. Zlia.
Qed.

Lemma plan_for_eq sz :
  0 <= sz <= MAX_PLAINTEXT_BYTES ->
  plan_for sz = Ret (mkPlan (chunks_of sz) (CHUNK_PLAINTEXT_BYTES + TAG_BYTES) (sz + chunks_of sz * TAG_BYTES)).
Proof.
  intros Hs. destruct (chunks_of_bounds sz Hs) as (Hn & _). unfold plan_for.
  rewrite (proj2 (Z.ltb_ge _ _)) by lia. unfold chunks_of in *. destruct (sz =? 0) eqn:E.
  - rewrite !u64_small, !u32_small; [done|unfold in_u32, in_u64, CHUNK_PLAINTEXT_BYTES, TAG_BYTES, MAX_PLAINTEXT_BYTES in *; lia..].
  - rewrite (u64_small (sz + _ - 1)) by (unfold in_u64, CHUNK_PLAINTEXT_BYTES, MAX_PLAINTEXT_BYTES in *; lia).
    rewrite (u32_small (_ / _)) by (split; lia).
    rewrite u64_small, u32_small; [done|unfold in_u32, in_u64, CHUNK_PLAINTEXT_BYTES, TAG_BYTES, MAX_PLAINTEXT_BYTES in *; lia..].
Qed.

(** A plan made by [plan_for]. *)
Definition plan_ok (plan : Plan) (sz : Z) : Prop := 0 <= sz <= MAX_PLAINTEXT_BYTES /\ plan.(chunk_count) = chunks_of sz.

Lemma plan_for_ok sz plan : 0 <= sz -> plan_for sz = Ret plan -> plan_ok plan sz.
Proof.
  intros Hs Hp. destruct (Z.le_gt_cases sz MAX_PLAINTEXT_BYTES) as [Hm|Hm].
  - rewrite plan_for_eq in Hp by lia. injection Hp as <-. split; [lia|done].
  - unfold plan_for in Hp. by rewrite (proj2 (Z.ltb_lt _ _)) in Hp by lia.
Qed.

Lemma plain_size_eq plan sz i :
  plan_ok plan sz -> 0 <= i < chunks_of sz ->
  plain_size_of_chunk plan sz i = Z.min CHUNK_PLAINTEXT_BYTES (sz - i * CHUNK_PLAINTEXT_BYTES).
Proof.
  intros [Hs Hc] Hi. destruct (chunks_of_bounds sz Hs) as (Hn & Hb & _). unfold plain_size_of_chunk. rewrite Hc.
  rewrite (u32_small (i + 1)), (u32_small (chunks_of sz - 1)) by (split; lia).
  destruct (i + 1 <? chunks_of sz) eqn:E; bool_prop.
  - unfold CHUNK_PLAINTEXT_BYTES in *. nia.
  - assert (i = chunks_of sz - 1) as -> by lia.
    rewrite u64_small; [unfold CHUNK_PLAINTEXT_BYTES in *; lia|unfold in_u64, MAX_PLAINTEXT_BYTES, CHUNK_PLAINTEXT_BYTES in *; lia].
Qed.

(** The chunk of a file of that size. *)
Lemma chunk_piece plan (content : bytes) i :
  plan_ok plan (size content) -> 0 <= i < chunks_of (size content) ->
  let want := plain_size_of_chunk plan (size content) i in
  ztake want (zdrop (i * CHUNK_PLAINTEXT_BYTES) content) = piece CHUNK_PLAINTEXT_BYTES i content /\
  size (piece CHUNK_PLAINTEXT_BYTES i content) = want.
Proof.
  intros Hp Hi. cbv zeta. destruct (chunks_of_bounds _ (proj1 Hp)) as (Hn & Hb & _). rewrite (plain_size_eq _ _ _ Hp Hi).
  assert (0 <= i * CHUNK_PLAINTEXT_BYTES <= size content) as Ho by (unfold CHUNK_PLAINTEXT_BYTES in *; nia).
  assert (size (zdrop (i * CHUNK_PLAINTEXT_BYTES) content) = size content - i * CHUNK_PLAINTEXT_BYTES) as Hd by by apply size_zdrop.
  split.
  - unfold piece. rewrite <- Hd. apply ztake_min.
  - apply size_piece; [done|exact Ho].
Qed.

(** ** Chunks *)

Lemma chunk_nonce_size index : size (chunk_nonce index) = 12.
Proof. reflexivity. Qed.

Section chunks.
Context `{PrimitiveLaws}.

Lemma chunk_aad_size file_id index count : size file_id = FILE_ID_BYTES -> size (chunk_aad file_id index count) = 60.
Proof.
  intros Hf. unfold chunk_aad. encode_norm. rewrite !size_app, !size_blob, !size_be32, Hf. reflexivity.
Qed.

(** A chunk is sealed, and opens in its place. *)
Lemma seal_open_chunk key file_id index count plain :
  size key = 32 -> size file_id = 16 -> 0 <= index < count -> size plain <= CHUNK_PLAINTEXT_BYTES ->
  exists sealed, seal_chunk key file_id index count plain = Ret sealed /\ open_chunk key file_id index count sealed = Some plain.
Proof.
  intros Hk Hf Hi Hp. pose proof (size_nonneg plain). unfold seal_chunk, open_chunk. rewrite Hk, Hf.
  rewrite (proj2 (Z.ltb_ge _ _) Hp), (proj2 (Z.eqb_neq count 0)), (proj2 (Z.leb_gt count index)) by lia.
  change (32 =? ATT_KEY_BYTES) with true. change (16 =? FILE_ID_BYTES) with true. cbn [negb orb].
  pose proof (chunk_aad_size file_id index count Hf) as Ha.
  rewrite encrypt_ok by (done || (unfold INT_MAX, CHUNK_PLAINTEXT_BYTES in *; lia)).
  eexists. split; [reflexivity|]. rewrite gcm_seal_size.
  rewrite (proj2 (Z.ltb_ge _ _)), (proj2 (Z.ltb_ge _ _)) by (unfold TAG_BYTES; lia). cbn [orb].
  rewrite decrypt_ok by (rewrite ?gcm_seal_size; done || (unfold INT_MAX, CHUNK_PLAINTEXT_BYTES in *; lia)).
  simpl. by rewrite gcm_open_seal.
Qed.

(** What opens is no longer than a chunk. *)
Lemma open_chunk_size key file_id index count sealed plain :
  open_chunk key file_id index count sealed = Some plain -> size plain <= CHUNK_PLAINTEXT_BYTES.
Proof.
  unfold open_chunk. destruct (negb _ || negb _ || _ || _ || _ || _) eqn:E; [done|].
  apply orb_false_iff in E as [_ E]. bool_prop. destruct (decrypt _ _ _ _) as [[p|]|] eqn:Ed; simpl; [|done..]. intros [= ->].
  apply decrypt_ret, gcm_open_only in Ed. rewrite Ed, gcm_seal_size in E. unfold TAG_BYTES in E. lia.
Qed.

(** ** Only what was verified is saved *)

(** The state of a download, as long as the stream is open and has not failed: the
    counters agree with what is hashed, and the temporary file holds exactly that if
    [exact], that is if nothing stale was left in it. *)
Definition consistent (exact : Prop) (d : Decryptor) (dir : Folder) : Prop :=
  plan_ok d.(de_plan) d.(de_size) /\ 0 <= d.(de_next) <= chunks_of d.(de_size) /\
  (d.(de_out).(st_ok) = true -> d.(de_out).(st_open) = true ->
   exists hashed file, d.(de_hash) = Some hashed /\ dir !! part_name d = Some file /\ (exact -> file = hashed) /\
     d.(de_written) = size hashed /\ size hashed <= d.(de_next) * CHUNK_PLAINTEXT_BYTES).

(** [begin] leaves nothing in the temporary file that it does not hash: there was
    no earlier attempt to carry on with, or its file could be cut to size. *)
Definition nothing_stale (ans : BeginAnswers) (resume : bool) (d : Decryptor) (dir : Folder) : Prop :=
  ans.(ba_resized) = true \/ (if resume then dir !! part_name d else None) = None.

(** Nothing but the temporary file has changed. *)
Definition same_elsewhere (part : bytes) (dir dir' : Folder) : Prop := forall n, n <> part -> dir' !! n = dir !! n.

Lemma same_insert part c dir : same_elsewhere part dir (<[part := c]> dir).
Proof. intros n Hn. by rewrite lookup_insert_ne. Qed.

Lemma same_elsewhere_trans part a b c : same_elsewhere part a b -> same_elsewhere part b c -> same_elsewhere part a c.
Proof. intros H1 H2 n Hn. by rewrite H2, H1. Qed.

Lemma delete_same_elsewhere part a b : same_elsewhere part a b -> delete part b = delete part a.
Proof.
  intros Hs. apply map_eq. intros n. destruct (decide (n = part)) as [->|Hn]; [by rewrite !lookup_delete_eq|].
  by rewrite !lookup_delete_ne, Hs.
Qed.

Lemma with_progress_part d a b c e : part_name (with_progress d a b c e) = part_name d.
Proof. done. Qed.

Lemma keep_bounds have sz : 0 <= have < sz ->
  let keep := have - have mod CHUNK_PLAINTEXT_BYTES in
  0 <= keep <= have /\ keep / CHUNK_PLAINTEXT_BYTES * CHUNK_PLAINTEXT_BYTES = keep.
Proof. unfold CHUNK_PLAINTEXT_BYTES. intros. cbv zeta. Zlia. Qed.

(** What [begin] keeps of an earlier attempt. *)
Definition kept_size (sz have : Z) : Z := if sz <=? have then sz else have - have mod CHUNK_PLAINTEXT_BYTES.

Lemma kept_size_bounds sz have :
  0 <= sz <= MAX_PLAINTEXT_BYTES -> 0 <= have ->
  let next := if (sz <=? kept_size sz have) && (0 <? sz) then chunks_of sz else u32 (kept_size sz have / CHUNK_PLAINTEXT_BYTES) in
  0 <= kept_size sz have <= sz /\ kept_size sz have <= have /\ 0 <= next <= chunks_of sz /\
  kept_size sz have = Z.min sz (next * CHUNK_PLAINTEXT_BYTES).
Proof.
  intros Hs Hh. cbv zeta. destruct (chunks_of_bounds sz Hs) as (Hn & Hb & Hb'). unfold kept_size.
  destruct (sz <=? have) eqn:E; bool_prop.
  - rewrite Z.leb_refl. simpl. destruct (0 <? sz) eqn:E0; bool_prop; [lia|]. assert (sz = 0) as -> by lia.
    change (u32 (0 / CHUNK_PLAINTEXT_BYTES)) with 0. lia.
  - destruct (keep_bounds have sz) as [Hk Hd]; [lia|]. rewrite (proj2 (Z.leb_gt _ _)) by lia. simpl.
    set (k := have - have mod CHUNK_PLAINTEXT_BYTES) in *.
    assert (0 <= k / CHUNK_PLAINTEXT_BYTES <= chunks_of sz) by (unfold CHUNK_PLAINTEXT_BYTES in *; nia).
    rewrite u32_small by (split; lia). rewrite Hd. lia.
Qed.

(** The same download: only the progress differs. *)
Definition same_job (d d' : Decryptor) : Prop := exists n w o h, d' = with_progress d n w o h.

Lemma same_job_refl d : same_job d d.
Proof. exists d.(de_next), d.(de_written), d.(de_out), d.(de_hash). by destruct d. Qed.
Lemma same_job_trans a b c : same_job a b -> same_job b c -> same_job a c.
Proof. intros (n & w & o & h & ->) (n' & w' & o' & h' & ->). by exists n', w', o', h'. Qed.

(** The state [begin] leaves: the bytes kept of an earlier attempt are hashed. *)
Lemma begin_spec ans d dir resume d' dir' :
  plan_ok d.(de_plan) d.(de_size) ->
  decryptor_begin ans d dir resume = (Done, d', dir') ->
  exists hashed file next,
    d' = with_progress d next (size hashed) (mkStream true true) (Some hashed) /\
    dir' = <[part_name d := file]> dir /\ (nothing_stale ans resume d dir -> file = hashed) /\ 0 <= next <= chunks_of d.(de_size) /\
    size hashed = Z.min d.(de_size) (next * CHUNK_PLAINTEXT_BYTES) /\
    match (if resume then dir !! part_name d else None) with
    | Some content => hashed = ztake (size hashed) content
    | None => hashed = []
    end.
Proof.
  intros Hp. pose proof (proj1 Hp). destruct (chunks_of_bounds _ (proj1 Hp)) as (Hn & Hb & _).
  unfold decryptor_begin, nothing_stale. rewrite (proj2 Hp).
  destruct (ba_is_directory ans); simpl; [|done]. destruct (if resume then dir !! part_name d else None) as [content|] eqn:Ec.
  - set (have := if ba_size_known ans then size content else 0).
    assert (0 <= have <= size content) as Hh by (unfold have; pose proof (size_nonneg content); destruct (ba_size_known ans); lia).
    fold (kept_size (de_size d) have). destruct (kept_size_bounds _ have (proj1 Hp)) as (Hk & Hkh & Hnx & Hke); [lia|].
    set (keep := kept_size (de_size d) have) in *.
    assert (size (ztake keep content) = keep) as Hsz by (apply size_ztake; lia).
    set (file := if ba_resized ans then ztake keep content else content).
    assert (ztake keep file = ztake keep content) as Hfile by (unfold file; destruct (ba_resized ans); [by rewrite (ztake_ge keep (ztake keep content)) by lia|done]).
    assert (ba_resized ans = true -> file = ztake keep content) as Hexact by (by unfold file; intros ->).
    clearbody file. destruct (0 <? keep) eqn:E0; bool_prop.
    + destruct (ba_read_back ans && (keep <=? size file)) eqn:Er; rewrite ?Hfile.
      * rewrite (proj2 (Z.eqb_neq keep 0)) by lia. simpl.
        destruct (ba_opened ans); simpl; [|done]. intros [= <- <-]. eexists (ztake keep content), file, _. rewrite Hsz.
        split_and!; first [done|lia|by intros [Hr|?]; [apply Hexact|]].
      * change (0 =? 0) with true. cbn [andb]. destruct (ba_opened ans); simpl; [|done]. intros [= <- <-]. eexists [], _, 0.
        change (size (@nil byte)) with 0. split_and!; try done; try lia; [|by intros [->|?]].
        f_equal. destruct (de_size d <=? 0) eqn:Ez; [|done]. bool_prop. by rewrite (proj2 (Z.ltb_ge _ _)) by lia.
    + assert (keep = 0) as Ek by lia. clearbody keep. subst keep. change (0 =? 0) with true. cbn [andb].
      destruct (ba_opened ans); simpl; [|done]. intros [= <- <-]. exists []. do 2 eexists.
      split; [reflexivity|]. change (size (@nil byte)) with 0. split_and!; first [done|lia|by intros [->|?]].
  - destruct (ba_opened ans); simpl; [|done]. intros [= <- <-]. exists [], [], 0. change (size (@nil byte)) with 0. split_and!; first [done|lia].
Qed.

Lemma begin_consistent ans d dir resume d' dir' :
  plan_ok d.(de_plan) d.(de_size) -> decryptor_begin ans d dir resume = (Done, d', dir') ->
  consistent (nothing_stale ans resume d dir) d' dir' /\ same_job d d' /\ same_elsewhere (part_name d) dir dir'.
Proof.
  intros Hp E. destruct (begin_spec _ _ _ _ _ _ Hp E) as (h & f & n & -> & -> & Hf & Hn & Hs & _). split_and!.
  - split; [done|]. split; [done|]. intros _ _. exists h, f. simpl. rewrite lookup_insert_eq. split_and!; [done..|]. simpl. lia.
  - by exists n, (size h), (mkStream true true), (Some h).
  - apply same_insert.
Qed.

Lemma accept_consistent exact wrote d dir index sealed o d' dir' :
  consistent exact d dir -> decryptor_accept wrote d dir index sealed = (o, d', dir') ->
  consistent exact d' dir' /\ same_job d d' /\ same_elsewhere (part_name d) dir dir'.
Proof.
  intros (Hp & Hn & Hc). pose proof (chunks_of_bounds _ (proj1 Hp)) as (Hcn & Hcb & _).
  assert (consistent exact d dir /\ same_job d d /\ same_elsewhere (part_name d) dir dir) as Hsame
    by (split_and!; [done..|apply same_job_refl|done]).
  unfold decryptor_accept. destruct (de_hash d) as [hashed|] eqn:Eh; [|by intros [= _ <- <-]].
  destruct (st_ok (de_out d)) eqn:Eok; simpl; [|by intros [= _ <- <-]].
  destruct (negb (index =? de_next d) || _) eqn:Ei; [by intros [= _ <- <-]|]. bool_prop.
  destruct (open_chunk _ _ _ _ _) as [plain|] eqn:Eo; [|by intros [= _ <- <-]].
  destruct (size plain =? _) eqn:Es; simpl; [|by intros [= _ <- <-]]. bool_prop. apply open_chunk_size in Eo.
  destruct (st_open (de_out d)) eqn:Eop; simpl.
  - destruct (Hc eq_refl eq_refl) as (h & file & [= <-] & Hdir & Hex & Hw & Hsz). rewrite Hdir. simpl. destruct wrote as [k|]; intros [= _ <- <-].
    + split_and!; [by split; [|split]| |apply same_insert]. by eexists _, _, _, _.
    + destruct Hp as [Hs Hcc]. rewrite Hcc in *. pose proof (size_nonneg hashed). pose proof (size_nonneg plain).
      rewrite u32_small by (split; lia). rewrite u64_small by (unfold in_u64, CHUNK_PLAINTEXT_BYTES in *; nia).
      split_and!; [|by eexists _, _, _, _|apply same_insert]. split; [done|]. split; [simpl; lia|]. intros _ _.
      exists (hashed ++ plain), (file ++ plain). simpl. rewrite lookup_insert_eq, size_app.
      split_and!; [done..|by intros Hx; rewrite (Hex Hx)|lia|lia].
  - intros [= _ <- <-]. split_and!; [by split; [|split]| |done]. by eexists _, _, _, _.
Qed.

(** Any chunks, in any order, with any failures of the file system. *)
Definition receive (d : Decryptor) (dir : Folder) (l : list (option Z * Z * bytes)) : Decryptor * Folder :=
  foldl (fun '(d, dir) '(wrote, index, sealed) => let '(_, d, dir) := decryptor_accept wrote d dir index sealed in (d, dir)) (d, dir) l.

Lemma receive_consistent exact l d dir :
  consistent exact d dir ->
  let '(d', dir') := receive d dir l in consistent exact d' dir' /\ same_job d d' /\ same_elsewhere (part_name d) dir dir'.
Proof.
  revert d dir. induction l as [|[[wrote index] sealed] l IH]; intros d dir Hc.
  - split_and!; [done..|apply same_job_refl|done].
  - unfold receive. cbn [foldl]. destruct (decryptor_accept wrote d dir index sealed) as [[o d1] dir1] eqn:E.
    destruct (accept_consistent _ _ _ _ _ _ _ _ _ Hc E) as (Hc1 & Hj1 & He1). specialize (IH d1 dir1 Hc1).
    fold (receive d1 dir1 l). destruct (receive d1 dir1 l) as [d2 dir2]. destruct IH as (Hc2 & Hj2 & He2).
    split_and!; [done|by eapply same_job_trans|]. destruct Hj1 as (? & ? & ? & ? & ->). intros n Hne. rewrite He2 by done. by apply He1.
Qed.

(** The stream stays open: only [finish] and [abort] close it. *)
Lemma receive_open l d dir :
  d.(de_out).(st_open) = true -> (receive d dir l).1.(de_out).(st_open) = true.
Proof.
  revert d dir. induction l as [|[[wrote index] sealed] l IH]; intros d dir Ho; [done|].
  unfold receive. cbn [foldl]. destruct (decryptor_accept wrote d dir index sealed) as [[o d1] dir1] eqn:E.
  apply (IH d1 dir1). revert E. unfold decryptor_accept. rewrite Ho. cbn [negb].
  destruct (de_hash d) as [hashed|]; [|by intros [= _ <- _]].
  destruct (negb _); [by intros [= _ <- _]|]. destruct (_ || _); [by intros [= _ <- _]|].
  destruct (open_chunk _ _ _ _ _) as [plain|]; [|by intros [= _ <- _]].
  destruct (negb _); [by intros [= _ <- _]|]. by destruct wrote; intros [= _ <- _].
Qed.

Lemma unique_path_free dir name target : unique_path dir name = Some target -> dir !! target = None.
Proof.
  unfold unique_path. generalize (seq 2 9998). intros ns. destruct (dir !! name) as [c|] eqn:E; simpl; [|by intros [= <-]].
  destruct (filter _ ns) as [|n l] eqn:Ef; [done|]. simpl. intros [= <-].
  assert (n ∈ n :: l) as Hn by left. rewrite <- Ef in Hn. apply list_elem_of_filter in Hn as [Hn _]. by destruct (dir !! numbered name n).
Qed.

(** Only which names are taken matters. *)
Lemma unique_path_dom dir dir' name :
  (forall p, is_Some (dir !! p) <-> is_Some (dir' !! p)) -> unique_path dir name = unique_path dir' name.
Proof.
  intros Hd. unfold unique_path. generalize (seq 2 9998). intros ns.
  assert (forall p, match dir !! p with Some _ => true | None => false end = match dir' !! p with Some _ => true | None => false end) as Ht.
  { intros p. destruct (Hd p) as [H1 H2].
    destruct (dir !! p), (dir' !! p); [done| | |done]; [destruct H1|destruct H2]; by eauto. }
  rewrite Ht. destruct (negb _); [done|]. f_equal. f_equal. apply list_filter_iff. intros n. by rewrite Ht.
Qed.

(** What [finish] does to a consistent download whose stream is open: the
    fingerprint it checks is that of the bytes hashed, and the file it saves is the
    temporary one without what was lost when it was closed. *)
Lemma finish_spec exact lost renamed d dir r d' dir' :
  consistent exact d dir -> d.(de_out).(st_open) = true -> decryptor_finish lost renamed d dir = (r, d', dir') ->
  match r with
  | inr target => exists content file,
      dir !! part_name d = Some file /\ (exact -> file = content) /\
      size content = d.(de_size) /\ sha256 content = d.(de_expected_hash) /\
      target <> part_name d /\ dir !! target = None /\
      dir' = <[target := ztake (size file - lost) file]> (delete (part_name d) dir)
  | inl _ => same_elsewhere (part_name d) dir dir'
  end.
Proof.
  intros (Hp & Hn & Hc) Ho. unfold decryptor_finish. destruct (de_hash d) as [hashed|] eqn:Eh; [|by intros [= <- <- <-]].
  destruct (st_ok (de_out d)) eqn:Eok; simpl; [|by intros [= <- <- <-]].
  destruct (negb (de_next d =? _) || negb (de_written d =? _)) eqn:Ez; [by intros [= <- <- <-]|]. bool_prop.
  destruct (Hc eq_refl Ho) as (h & file & [= <-] & Hdir & Hex & Hw & Hsz). rewrite Hdir. simpl.
  set (kept := ztake (size file - lost) file). case_bool_decide as Esha; simpl.
  - destruct (unique_path _ _) as [target|] eqn:Eu; [|intros [= <- <- <-]; apply same_insert]. apply unique_path_free in Eu.
    destruct renamed; simpl; intros [= <- <- <-]; [|apply same_insert].
    destruct (decide (target = part_name d)) as [->|Hne]; [by rewrite lookup_insert_eq in Eu|].
    rewrite lookup_insert_ne in Eu by done. exists hashed, file. rewrite delete_insert_eq. split_and!; [done..|lia|done|done|done|done].
  - intros [= <- <- <-]. intros n Hne. by rewrite lookup_delete_ne, lookup_insert_ne.
Qed.

(** C26: Whatever chunks arrive, damaged, repeated, out of order or forged, and
    whatever the disk answers, a download that ends by saving a file has received,
    and kept from earlier attempts, bytes [content] of the announced size whose
    fingerprint is the one the sender signed, and has saved under a name that was
    free, removing its temporary file and changing nothing else. The file saved is
    exactly those bytes when the disk lost nothing as the file was closed and
    nothing stale was left in the temporary file by an earlier attempt (it could be
    cut to size, or there was none); the code checks neither, and when [lost] bytes
    did not reach the disk the file is the content without them. A download that
    fails has changed nothing but its own temporary file. *)
Theorem download_saves_only_verified name key file_id sz hash d ans dir resume d1 dir1 arrived lost renamed :
  0 <= sz -> new_decryptor name key file_id sz hash = Ret d ->
  decryptor_begin ans d dir resume = (Done, d1, dir1) ->
  let '(d2, dir2) := receive d1 dir1 arrived in
  let '(r, d3, dir3) := decryptor_finish lost renamed d2 dir2 in
  match r with
  | inr target => exists content saved,
      size content = sz /\ sha256 content = hash /\ target <> part_name d /\ dir !! target = None /\
      dir3 !! target = Some saved /\ dir3 !! part_name d = None /\
      (forall n, n <> target -> n <> part_name d -> dir3 !! n = dir !! n) /\
      (nothing_stale ans resume d dir ->
       saved = ztake (sz - lost) content /\ (lost <= 0 -> saved = content))
  | inl _ => same_elsewhere (part_name d) dir dir3
  end.
Proof.
  intros Hs Hd Hb. unfold new_decryptor in Hd. destruct (plan_for sz) as [plan|] eqn:Ep; [|done]. injection Hd as <-.
  set (d := mkDecryptor _ _ _ _ _ _ _ _ _ _) in *. apply plan_for_ok in Ep; [|done].
  destruct (begin_consistent _ d _ _ _ _ Ep Hb) as (Hc1 & Hj1 & He1).
  assert (d1.(de_out).(st_open) = true) as Ho1 by (destruct (begin_spec _ d _ _ _ _ Ep Hb) as (? & ? & ? & -> & _); done).
  pose proof (receive_consistent _ arrived _ _ Hc1) as Hrc. pose proof (receive_open arrived _ dir1 Ho1) as Ho2.
  destruct (receive d1 dir1 arrived) as [d2 dir2]. destruct Hrc as (Hc2 & Hj2 & He2). simpl in Ho2.
  destruct (decryptor_finish lost renamed d2 dir2) as [[r d3] dir3] eqn:Ef. eapply finish_spec in Ef; [|done..].
  destruct (same_job_trans _ _ _ Hj1 Hj2) as (n2 & w2 & o2 & h2 & ->). destruct Hj1 as (n1 & w1 & o1 & h1 & ->).
  rewrite !with_progress_part in *. destruct r as [e|target].
  - intros n Hn. by rewrite Ef, He2, He1.
  - destruct Ef as (content & file & Hpart & Hex & Hsz & Hsha & Hne & Hfree & ->). simpl in Hsz.
    exists content, (ztake (size file - lost) file). split_and!; [done..| | | | |].
    + by rewrite <- He1, <- He2.
    + apply lookup_insert_eq.
    + by rewrite lookup_insert_ne, lookup_delete_eq.
    + intros n H1 H2. by rewrite lookup_insert_ne, lookup_delete_ne, He2, He1.
    + intros Hst. rewrite (Hex Hst), Hsz. split; [done|]. intros Hl. apply ztake_ge. lia.
Qed.

(** ** Nothing is lost *)

(** The download has the first chunks of [content]. *)
Definition holds (content : bytes) (d : Decryptor) (dir : Folder) : Prop :=
  let h := ztake (d.(de_next) * CHUNK_PLAINTEXT_BYTES) content in
  0 <= d.(de_next) <= chunks_of (size content) /\ d.(de_out) = mkStream true true /\ d.(de_hash) = Some h /\
  dir !! part_name d = Some h /\ d.(de_written) = size h.

(** The sender and the receiver of one file. *)
Definition sends (content : bytes) (e : Encryptor) (d : Decryptor) : Prop :=
  size d.(de_key) = 32 /\ size d.(de_file_id) = 16 /\ d.(de_size) = size content /\ d.(de_expected_hash) = sha256 content /\
  plan_ok d.(de_plan) (size content) /\ e = mkEncryptor d.(de_key) d.(de_file_id) d.(de_size) d.(de_plan).

(** Each chunk of the file can be sealed, *)
Lemma chunk_sealed content e d i :
  sends content e d -> 0 <= i < chunks_of (size content) ->
  exists sealed, encryptor_chunk e (Some content) i = inr sealed /\
    open_chunk d.(de_key) d.(de_file_id) i (chunks_of (size content)) sealed = Some (piece CHUNK_PLAINTEXT_BYTES i content).
Proof.
  intros (Hk & Hf & Hs & Hh & Hp & ->) Hi. destruct (chunk_piece _ content i Hp Hi) as [Hpc Hps]. cbv zeta in *.
  set (pl := piece CHUNK_PLAINTEXT_BYTES i content) in *.
  destruct (seal_open_chunk d.(de_key) d.(de_file_id) i (chunks_of (size content)) pl Hk Hf) as (sealed & Hseal & Hopen); [lia| |].
  { rewrite Hps, plain_size_eq by (done || lia). lia. }
  exists sealed. split; [|done]. unfold encryptor_chunk. simpl. rewrite Hs, (proj2 Hp).
  rewrite (proj2 (Z.leb_gt _ _)) by lia. rewrite Hpc, Hps, Z.eqb_refl. simpl. by rewrite Hseal.
Qed.

Lemma chunks_sealed content e d :
  sends content e d ->
  exists sealed : Z -> bytes, forall i, 0 <= i < chunks_of (size content) -> encryptor_chunk e (Some content) i = inr (sealed i).
Proof.
  intros Hs. exists (fun i => match encryptor_chunk e (Some content) i with inr c => c | inl _ => [] end).
  intros i Hi. by destruct (chunk_sealed content e d i Hs Hi) as (c & -> & _).
Qed.

(** and is accepted in its turn. *)
Lemma accept_next content e d dir :
  sends content e d -> holds content d dir -> d.(de_next) < chunks_of (size content) ->
  exists sealed d' dir',
    encryptor_chunk e (Some content) d.(de_next) = inr sealed /\
    decryptor_accept None d dir d.(de_next) sealed = (Done, d', dir') /\
    holds content d' dir' /\ d'.(de_next) = d.(de_next) + 1 /\ same_job d d' /\ same_elsewhere (part_name d) dir dir'.
Proof.
  intros Hsend (Hn & Hout & Hhash & Hdir & Hw) Hlt.
  destruct (chunk_sealed _ _ _ (de_next d) Hsend) as (sealed & Hseal & Hopen); [lia|].
  destruct Hsend as (Hk & Hf & Hs & Hh & Hp & ->). destruct (chunks_of_bounds _ (proj1 Hp)) as (Hcn & Hcb & _).
  destruct (chunk_piece _ content (de_next d) Hp) as [_ Hps]; [lia|]. cbv zeta in *.
  exists sealed. eexists _, _. split; [exact Hseal|]. unfold decryptor_accept. simpl. rewrite Hs, Hhash, Hout, (proj2 Hp). simpl.
  rewrite (proj2 (Z.leb_gt _ _)) by lia. rewrite Z.eqb_refl. simpl.
  rewrite Hopen, Hps, Z.eqb_refl. simpl. rewrite Hdir. simpl.
  rewrite u32_small by (split; lia). rewrite ztake_piece by (unfold CHUNK_PLAINTEXT_BYTES in *; lia).
  split; [done|].
  split_and!; [| |by eexists _, _, _, _|apply same_insert]; [|done].
  unfold holds. simpl. rewrite lookup_insert_eq. split_and!; [lia..|done|done|done|].
  rewrite Hw, <- Hps, <- size_app, ztake_piece by (unfold CHUNK_PLAINTEXT_BYTES in *; lia). apply u64_small.
  set (h := ztake _ _). pose proof (size_nonneg h).
  assert (size h <= size content) by (unfold h, size, ztake; rewrite length_take; lia).
  destruct Hp as [Hp _]. unfold in_u64, MAX_PLAINTEXT_BYTES in *. lia.
Qed.

Lemma sends_job content e d d' : sends content e d -> same_job d d' -> sends content e d'.
Proof. by intros Hs (? & ? & ? & ? & ->). Qed.

(** The rest of the file, one chunk after another. *)
Lemma receive_rest content e n d dir :
  sends content e d -> holds content d dir -> d.(de_next) + Z.of_nat n = chunks_of (size content) ->
  forall sealed : Z -> bytes,
  (forall i, d.(de_next) <= i < chunks_of (size content) -> encryptor_chunk e (Some content) i = inr (sealed i)) ->
  let '(d', dir') := receive d dir (map (fun i => (None, i, sealed i)) (seqZ d.(de_next) (Z.of_nat n))) in
  holds content d' dir' /\ d'.(de_next) = chunks_of (size content) /\ same_job d d' /\ same_elsewhere (part_name d) dir dir'.
Proof.
  revert d dir. induction n as [|n IH]; intros d dir Hs Hh Hn sealed Hsealed.
  - rewrite seqZ_nil by lia. simpl. split_and!; [done|lia|apply same_job_refl|done].
  - destruct (accept_next content e d dir Hs Hh) as (c & d1 & dir1 & Hc & Ha & Hh1 & Hn1 & Hj1 & He1); [lia|].
    rewrite seqZ_cons by lia. unfold receive. cbn [map foldl].
    rewrite Hsealed in Hc by lia. injection Hc as ->. rewrite Ha. fold (receive d1 dir1).
    replace (Z.succ (de_next d)) with (de_next d1) by lia. replace (Z.pred (Z.of_nat (S n))) with (Z.of_nat n) by lia.
    specialize (IH d1 dir1 (sends_job _ _ _ _ Hs Hj1) Hh1 ltac:(lia) sealed ltac:(intros i Hi; apply Hsealed; lia)).
    unfold receive in IH. destruct (foldl _ _ _) as [d2 dir2]. destruct IH as (Hh2 & Hn2 & Hj2 & He2).
    split_and!; [done..|by eapply same_job_trans|]. destruct Hj1 as (? & ? & ? & ? & ->). intros m Hm. by rewrite He2, He1.
Qed.

(** The beginning of a file that is there already. *)
Lemma begin_holds content d dir :
  plan_ok d.(de_plan) d.(de_size) -> d.(de_size) = size content ->
  (forall c, dir !! part_name d = Some c -> exists k, c = ztake k content) ->
  exists d' dir', decryptor_begin (mkBeginAnswers true true true true true) d dir true = (Done, d', dir') /\
    holds content d' dir' /\ same_job d d' /\ same_elsewhere (part_name d) dir dir'.
Proof.
  intros Hp Hs Hpre. destruct (decryptor_begin (mkBeginAnswers true true true true true) d dir true) as [[o d'] dir'] eqn:E.
  assert (o = Done) as ->.
  { revert E. unfold decryptor_begin. simpl. destruct (dir !! part_name d); [|by intros [= <- _ _]].
    repeat case_match; by intros [= <- _ _]. }
  destruct (begin_spec (mkBeginAnswers true true true true true) _ _ _ _ _ Hp E) as (h & f & next & -> & -> & Hf & Hn & Hsz & Hd).
  rewrite (Hf (or_introl eq_refl)) in *. clear f Hf. rewrite Hs in *.
  exists (with_progress d next (size h) (mkStream true true) (Some h)), (<[part_name d := h]> dir).
  assert (h = ztake (next * CHUNK_PLAINTEXT_BYTES) content) as Hh.
  { rewrite <- ztake_min, Z.min_comm, <- Hsz. destruct (dir !! part_name d) as [c|] eqn:Ec; [|by rewrite Hd].
    destruct (Hpre c eq_refl) as [k ->]. rewrite Hd at 1. unfold ztake. rewrite take_take. f_equal.
    assert (size h <= size (ztake k content)) by (rewrite Hd at 1; unfold size, ztake; rewrite length_take; lia).
    unfold ztake, size in *. rewrite length_take in *. lia. }
  split; [done|]. unfold holds. simpl. rewrite lookup_insert_eq, <- Hh. split_and!; [lia|lia|done..| |apply same_insert].
  by eexists _, _, _, _.
Qed.

(** C27: A file that is sent arrives. Every chunk of a file of the announced size
    can be sealed; and a receiver who has nothing yet, or any beginning of the file
    left by an interrupted attempt, and who is given the chunks it still asks for,
    in order, saves exactly the sender's bytes under the first free name, removes
    the temporary file and changes nothing else. *)
Theorem attachment_roundtrip (name content key file_id target : bytes) (dir : Folder) (d : Decryptor) :
  size content <= MAX_PLAINTEXT_BYTES -> size key = 32 -> size file_id = 16 ->
  new_decryptor name key file_id (size content) (sha256 content) = Ret d ->
  (forall c, dir !! part_name d = Some c -> exists k, c = ztake k content) ->
  unique_path (<[part_name d := []]> dir) (sanitize_filename name) = Some target ->
  let e := mkEncryptor key file_id (size content) d.(de_plan) in
  let count := d.(de_plan).(chunk_count) in
  exists d1 dir1 sealed,
    decryptor_begin (mkBeginAnswers true true true true true) d dir true = (Done, d1, dir1) /\
    (forall i, 0 <= i < count -> encryptor_chunk e (Some content) i = inr (sealed i)) /\
    let '(d2, dir2) := receive d1 dir1 (map (fun i => (None, i, sealed i)) (seqZ d1.(de_next) (count - d1.(de_next)))) in
    let '(r, _, dir3) := decryptor_finish 0 true d2 dir2 in
    r = inr target /\ dir3 = <[target := content]> (delete (part_name d) dir).
Proof.
  intros Hm Hk Hf Hd Hpre Hu. cbv zeta. unfold new_decryptor in Hd.
  destruct (plan_for (size content)) as [plan|] eqn:Ep; [|done]. injection Hd as <-.
  apply plan_for_ok in Ep; [|apply size_nonneg]. cbn [de_plan]. rewrite (proj2 Ep).
  set (d := mkDecryptor _ _ _ _ _ _ _ _ _ _) in *. set (e := mkEncryptor _ _ _ _).
  assert (sends content e d) as Hs by (split_and!; done || apply Ep).
  destruct (begin_holds content d dir Ep eq_refl Hpre) as (d1 & dir1 & Hb & Hh1 & Hj1 & He1).
  destruct (chunks_sealed content e d Hs) as [sealed Hsealed].
  exists d1, dir1, sealed. split; [done|]. split; [done|].
  pose proof (receive_rest content e (Z.to_nat (chunks_of (size content) - de_next d1)) d1 dir1) as Hr.
  destruct Hh1 as (Hn1 & Hh1). rewrite Z2Nat.id in Hr by lia.
  specialize (Hr (sends_job _ _ _ _ Hs Hj1) (conj Hn1 Hh1) ltac:(lia) sealed ltac:(intros i Hi; apply Hsealed; lia)).
  destruct (receive _ _ _) as [d2 dir2]. destruct Hr as ((Hn2 & Hout & Hhash & Hdir & Hw) & Hlast & Hj2 & He2).
  destruct (same_job_trans _ _ _ Hj1 Hj2) as (n2 & w2 & o2 & h2 & ->). destruct Hj1 as (n1 & w1 & o1 & h1 & ->).
  rewrite !with_progress_part in *. simpl in Hlast, Hout, Hhash, Hw. subst.
  assert (ztake (chunks_of (size content) * CHUNK_PLAINTEXT_BYTES) content = content) as Ht.
  { apply ztake_ge. destruct (chunks_of_bounds _ (proj1 Ep)) as (_ & Hcb & _). lia. }
  simpl in *. rewrite Ht in *. unfold decryptor_finish. simpl. rewrite (proj2 Ep), !Z.eqb_refl. simpl.
  rewrite !with_progress_part, Hdir. simpl. rewrite Z.sub_0_r, ztake_all, bool_decide_true by done.
  rewrite insert_id by done. rewrite (unique_path_dom _ (<[part_name d := []]> dir)), Hu.
  - simpl. split; [done|]. f_equal. by apply delete_same_elsewhere, (same_elsewhere_trans _ _ dir1).
  - intros q. destruct (decide (q = part_name d)) as [->|Hq].
    + rewrite Hdir, lookup_insert_eq. split; by eauto.
    + by rewrite lookup_insert_ne, He2, He1.
Qed.
End chunks.

(** ** The promises at work *)

Section examples.
#[local] Existing Instance toy.
#[local] Existing Instance toy_laws.

Definition example_key : bytes := replicate 32 Byte.x07.
Definition example_id : bytes := replicate 16 Byte.x02.
Definition example_download (content : bytes) : Decryptor :=
  mkDecryptor (str "a.txt") example_key example_id (sha256 content) (size content) (mkPlan 1 (CHUNK_PLAINTEXT_BYTES + TAG_BYTES) (size content + TAG_BYTES))
    0 0 (mkStream false true) None.

Lemma download_saves_only_verified_witness :
  let d := example_download (str "hello") in
  exists content saved, size content = 5 /\ sha256 content = sha256 (str "hello") /\ str "a.txt" <> part_name d /\ saved = content.
Proof.
  set (d := example_download (str "hello")). pose (ok := mkBeginAnswers true true true true true).
  destruct (seal_chunk example_key example_id 0 1 (str "hello")) as [sealed|] eqn:Es; [|discriminate].
  pose proof (download_saves_only_verified (str "a.txt") example_key example_id 5 (sha256 (str "hello")) d ok
    ∅ false _ _ [(None, 0, sealed)] 0 true ltac:(lia) eq_refl eq_refl) as Hw.
  assert (sealed = default [] (match seal_chunk example_key example_id 0 1 (str "hello") with Ret s => Some s | _ => None end)) as -> by by rewrite Es.
  clear Es. vm_compute in Hw. destruct Hw as (content & saved & Hsz & Hsha & Hne & _ & _ & _ & _ & Heq).
  exists content, saved. split; [exact Hsz|]. split; [exact Hsha|]. split; [exact Hne|].
  destruct Heq as [_ Heq]; [by left|]. apply Heq. discriminate.
Defined.

(** What the code does not check. A file that loses its last bytes at close is
    saved without them, *)
Example bytes_lost_at_close :
  let d := example_download (str "hello") in
  let '(_, d1, dir1) := decryptor_begin (mkBeginAnswers true true true true true) d {[ part_name d := str "hello" ]} true in
  let '(r, _, dir2) := decryptor_finish 2 true d1 dir1 in
  r = inr (str "a.txt") /\ dir2 !! str "a.txt" = Some (str "hel").
Proof. split; vm_compute; reflexivity. Qed.

(** and the file of an earlier attempt that could not be cut to size is saved with
    what it had too much. *)
Example stale_bytes_saved :
  let d := example_download (str "hello") in
  let '(_, d1, dir1) := decryptor_begin (mkBeginAnswers true true false true true) d {[ part_name d := str "hello, again" ]} true in
  let '(r, _, dir2) := decryptor_finish 0 true d1 dir1 in
  r = inr (str "a.txt") /\ dir2 !! str "a.txt" = Some (str "hello, again").
Proof. split; vm_compute; reflexivity. Qed.

(** An attempt that stopped after three bytes is taken up again. *)
Lemma attachment_roundtrip_witness :
  let d := example_download (str "hello") in
  exists d1 dir1, decryptor_begin (mkBeginAnswers true true true true true) d {[ part_name d := str "hel" ]} true = (Done, d1, dir1).
Proof.
  set (d := example_download (str "hello")). cbv zeta.
  destruct (attachment_roundtrip (str "a.txt") (str "hello") example_key example_id (str "a.txt") {[ part_name d := str "hel" ]} d)
    as (d1 & dir1 & sealed & Hb & _).
  - vm_compute. discriminate.
  - reflexivity.
  - reflexivity.
  - reflexivity.
  - intros c Hc. rewrite lookup_singleton_eq in Hc. injection Hc as <-. by exists 3.
  - by vm_compute.
  - by exists d1, dir1.
Defined.
End examples.
