(* ===== verification/AttachmentNames.v ===== *)
(** * The names of saved attachments

    A name chosen by someone else is made safe by [sanitize_filename]: what it
    returns, byte by byte and character by character, and where it falls short of
    what the header of the file says. *)

From Stdlib Require Import ZArith Lia.
From stdpp Require Import base list strings gmap.
From S2P Require Import Prelude Wire Text Utf8Label Attachment.
#[local] Open Scope Z_scope.

(** ** Text as a sequence of characters *)

Definition scalar (cp : Z) : Prop := 0 <= cp <= 0x10FFFF /\ ~ (0xD800 <= cp <= 0xDFFF).
Definition text (cps : list Z) : bytes := concat (map utf8 cps).

(** What a saved name may consist of, said without the code: no C0 or C1 control,
    none of the separators and other characters Windows forbids (slash, backslash,
    colon, star, question mark, quote, less, greater, bar), none of the marks,
    embeddings, overrides and isolates that change the direction of text, and no
    byte order mark. *)
Definition is_control (cp : Z) : Prop := 0 <= cp <= 31 \/ 127 <= cp <= 159.
Definition forbidden_chars : list Z := [47; 92; 58; 42; 63; 34; 60; 62; 124].
Definition changes_direction (cp : Z) : Prop :=
  cp = 0x061C \/ cp = 0x200E \/ cp = 0x200F \/ 0x202A <= cp <= 0x202E \/ 0x2066 <= cp <= 0x2069.
Definition safe_char (cp : Z) : Prop :=
  scalar cp /\ ~ is_control cp /\ cp ∉ forbidden_chars /\ ~ changes_direction cp /\ cp <> 0xFEFF.

(** The code's test is that one. *)
Lemma unsafe_in_name_spec cp : scalar cp -> unsafe_in_name cp = false <-> safe_char cp.
Proof.
  intros Hs. unfold safe_char, is_control, changes_direction, unsafe_in_name, forbidden_chars.
  rewrite !orb_false_iff, !andb_false_iff, !Z.leb_gt, !Z.ltb_ge, !Z.eqb_neq, bool_decide_eq_false.
  pose proof (proj1 Hs). split.
  - intros Hu. destruct_and!. split_and!; [done|lia|done|lia|done].
  - intros (_ & H1 & H2 & H3 & H4). split_and!; done || lia.
Qed.

(** The names of Windows's devices, and the file names that mean one: the part
    before the first dot is such a name, in any case, perhaps with spaces after it. *)
Definition device_names : list bytes :=
  map str ["CON"; "PRN"; "AUX"; "NUL";
           "COM1"; "COM2"; "COM3"; "COM4"; "COM5"; "COM6"; "COM7"; "COM8"; "COM9";
           "LPT1"; "LPT2"; "LPT3"; "LPT4"; "LPT5"; "LPT6"; "LPT7"; "LPT8"; "LPT9"]%string.
Definition windows_device (name : bytes) : Prop :=
  exists device spaces rest,
    name = device ++ spaces ++ rest /\ map to_upper device ∈ device_names /\
    Forall (fun c => c = chr 32) spaces /\ (rest = [] \/ exists extension, rest = chr 46 :: extension).

Lemma device_with_digit (pre : bytes) d :
  pre = str "COM" \/ pre = str "LPT" -> d ∈ str "123456789" -> pre ++ [d] ∈ device_names.
Proof.
  intros Hpre Hd. change (str "123456789") with (map chr (seqZ 49 9)) in Hd.
  apply list_elem_of_fmap in Hd as (x & -> & Hx%elem_of_seqZ).
  assert (x = 49 \/ x = 50 \/ x = 51 \/ x = 52 \/ x = 53 \/ x = 54 \/ x = 55 \/ x = 56 \/ x = 57) as Hc by lia.
  apply (bool_decide_eq_true_1 _).
  destruct Hpre as [-> | ->]; repeat (destruct Hc as [-> | Hc]); subst; vm_compute; reflexivity.
Qed.

Lemma device_name_test upper :
  upper ∈ device_names <->
  bool_decide (upper ∈ [str "CON"; str "PRN"; str "AUX"; str "NUL"])
  || ((size upper =? 4) && bool_decide (ztake 3 upper ∈ [str "COM"; str "LPT"])
      && (49 <=? byte_at upper 3) && (byte_at upper 3 <=? 57)) = true.
Proof.
  split.
  - assert (forallb (fun u => bool_decide (u ∈ [str "CON"; str "PRN"; str "AUX"; str "NUL"])
      || ((size u =? 4) && bool_decide (ztake 3 u ∈ [str "COM"; str "LPT"])
          && (49 <=? byte_at u 3) && (byte_at u 3 <=? 57))) device_names = true) as Hall by (vm_compute; reflexivity).
    rewrite forallb_forall in Hall. intros Hu. by apply Hall, list_elem_of_In.
  - intros [Hu|Hu]%orb_true_iff; bool_prop.
    + rewrite !elem_of_cons in Hu. apply (bool_decide_eq_true_1 _).
      destruct Hu as [->|[->|[->|[->|[]%not_elem_of_nil]]]]; vm_compute; reflexivity.
    + destruct upper as [|a [|b [|c [|d [|]]]]]; try discriminate; cycle 1.
      { unfold size in *. simpl in *. lia. }
      match goal with Hp : ztake 3 _ ∈ _ |- _ => change (ztake 3 [a; b; c; d]) with [a; b; c] in Hp; rename Hp into Hpre end.
      assert (d ∈ map chr (seqZ 49 9)) as Hd.
      { apply list_elem_of_fmap. exists (Z_of_byte d). split; [symmetry; apply byte_of_Z_of_byte|].
        apply elem_of_seqZ. change (byte_at [a; b; c; d] 3) with (Z_of_byte d) in *. lia. }
      change (map chr (seqZ 49 9)) with (str "123456789") in Hd.
      rewrite !elem_of_cons in Hpre. apply (device_with_digit [a; b; c] d); [|done].
      destruct Hpre as [E|[E|[]%not_elem_of_nil]]; [by left|by right].
Qed.

(** Trimming and searching a name in three parts. *)
Lemma drop_back_trim Q (a sp : bytes) :
  match last a with None => True | Some c => Q c = false end -> Forall (fun c => Q c = true) sp ->
  drop_back Q (a ++ sp) = a.
Proof.
  intros Ha Hsp. rewrite <- (drop_back_id Q a Ha) at 2. unfold drop_back. rewrite reverse_app. f_equal.
  apply Forall_reverse in Hsp. induction Hsp as [|c l Hc _ IH]; [done|]. simpl. by rewrite Hc.
Qed.

(** The parts of a device's file name: no dot before the rest, no space at the end
    of the device's name. *)
Lemma device_parts d :
  map to_upper d ∈ device_names -> chr 46 ∉ d /\ match last d with None => True | Some c => c <> chr 32 end.
Proof.
  intros Hd.
  assert (forallb (fun u => bool_decide (chr 46 ∉ u) && bool_decide (last u <> Some (chr 32))) device_names = true) as Hall by (vm_compute; reflexivity).
  rewrite forallb_forall in Hall. specialize (Hall _ (proj1 (list_elem_of_In _ _) Hd)). bool_prop. split.
  - intros Hdot. match goal with H : chr 46 ∉ _ |- _ => apply H end.
    apply list_elem_of_fmap. exists (chr 46). by split; [vm_compute|].
  - destruct (last d) as [c|] eqn:E; [|done]. intros ->. match goal with H : last _ <> _ |- _ => apply H end.
    change (map to_upper d) with (to_upper <$> d). by rewrite fmap_last, E.
Qed.

(** The code's test is the one of the file names that mean a device. *)
Lemma reserved_windows_name_spec name : reserved_windows_name name = true <-> windows_device name.
Proof.
  unfold reserved_windows_name. cbv zeta. rewrite <- device_name_test. unfold windows_device.
  set (space := fun c => bool_decide (c = chr 32)). split.
  - assert (exists base rest, name = base ++ rest /\ (rest = [] \/ exists e, rest = chr 46 :: e) /\
      match find_char (chr 46) name with Some i => ztake i name | None => name end = base) as (base & rest & -> & Hrest & ->).
    { destruct (find_char (chr 46) name) as [i|] eqn:Ei.
      - assert (chr 46 ∈ name) as Hin.
        { destruct (decide (chr 46 ∈ name)) as [|Hno]; [done|]. apply find_char_None in Hno. congruence. }
        apply list_elem_of_split_l in Hin as (a & b & -> & Ha). rewrite find_char_app in Ei by done. injection Ei as <-.
        rewrite ztake_app. exists a, (chr 46 :: b). split_and!; [done|right; by eexists|done].
      - exists name, []. rewrite app_nil_r. split_and!; [done|by left|done]. }
    intros Hd. destruct (drop_back_prefix space base) as (sp & E & Hsp). exists (drop_back space base), sp, rest.
    rewrite app_assoc, <- E. split_and!; [done..| |done]. eapply Forall_impl; [exact Hsp|].
    intros c Hc. by apply bool_decide_eq_true in Hc.
  - intros (d & sp & rest & -> & Hd & Hsp & Hrest). destruct (device_parts d Hd) as [Hdot Hlast].
    assert (chr 46 ∉ d ++ sp) as Hn.
    { rewrite elem_of_app. intros [?|Hin]; [done|]. rewrite Forall_forall in Hsp. by apply Hsp in Hin. }
    assert (match find_char (chr 46) (d ++ sp ++ rest) with Some i => ztake i (d ++ sp ++ rest) | None => d ++ sp ++ rest end = d ++ sp) as ->.
    { rewrite app_assoc. destruct Hrest as [->|[e ->]].
      - rewrite app_nil_r. by rewrite (proj2 (find_char_None _ _)).
      - by rewrite find_char_app, ztake_app. }
    rewrite drop_back_trim; [done| |].
    + destruct (last d); [|done]. unfold space. by rewrite bool_decide_eq_false_2.
    + eapply Forall_impl; [exact Hsp|]. intros c ->. by vm_compute.
Qed.

Lemma text_app a b : text (a ++ b) = text a ++ text b.
Proof. unfold text. by rewrite map_app, concat_app. Qed.

Lemma bits_low cp n m : 0 <= n -> m = Z.ones n -> Z.land cp m = cp mod 2 ^ n.
Proof. intros ? ->. by apply Z.land_ones. Qed.

Lemma append_utf8_eq out cp : scalar cp -> append_utf8 out cp = out ++ utf8 cp.
Proof.
  intros [Hc _]. unfold append_utf8, utf8.
  repeat rewrite (bits_low _ 6 0x3F) by done. rewrite !Z.shiftr_div_pow2 by lia.
  change (2 ^ 6) with 64. change (2 ^ 12) with 4096. change (2 ^ 18) with 262144.
  assert (forall x, 0 <= x < 64 -> Z.lor 0x80 x = 128 + x) as Hl by (intros; apply (lor_add_low 0x80 _ 6); lia || Zlia).
  repeat case_match; bool_prop; [done|..];
    rewrite !Hl by Zlia; do 2 f_equal; f_equal.
  - apply (lor_add_low 0xC0 _ 6); lia || Zlia.
  - apply (lor_add_low 0xE0 _ 5); lia || Zlia.
  - apply (lor_add_low 0xF0 _ 4); lia || Zlia.
Qed.

Lemma continuation_nonneg n s i cp v : 0 <= cp -> continuation n s i cp = Some v -> 0 <= v.
Proof.
  revert i cp. induction n as [|n IH]; intros i cp Hc; simpl; [by intros [= <-]|].
  destruct (negb _); [done|]. apply IH. apply Z.lor_nonneg. rewrite Z.shiftl_nonneg, Z.land_nonneg. lia.
Qed.

Lemma utf8_char_scalar s i cp len : utf8_char s i = Some (cp, len) -> scalar cp.
Proof.
  unfold utf8_char. destruct (lead_byte (byte_at s i)) as [[v n]|] eqn:El; [|done].
  assert (0 <= v) as Hv.
  { revert El. unfold lead_byte. pose proof (Z_of_byte_range (nth (Z.to_nat i) s Byte.x00)). fold (byte_at s i) in *.
    repeat case_match; intros [= <- _]; try apply Z.land_nonneg; lia. }
  destruct (_ <? _); [done|]. destruct (continuation _ _ _ _) as [w|] eqn:Ec; [|done]. apply continuation_nonneg in Ec; [|done].
  destruct (_ && _); [done|]. destruct (_ || _) eqn:E; [done|]. intros [= <- _]. unfold scalar. bool_prop. lia.
Qed.

Lemma decode_scalar fuel s i cps : decode_utf8 fuel s i = Some cps -> Forall scalar cps.
Proof.
  revert i cps. induction fuel as [|fuel IH]; intros i cps; [done|]. cbn [decode_utf8]. destruct (i <? size s); [|by intros [= <-]].
  destruct (utf8_char s i) as [[cp len]|] eqn:Ec; [|done]. destruct (decode_utf8 fuel s (i + len)) as [l|] eqn:El; [|done].
  intros [= <-]. constructor; [by eapply utf8_char_scalar|by eapply IH].
Qed.

Definition safe_of (cp : Z) : Z := if unsafe_in_name cp then 95 else cp.

Lemma safe_of_safe cp : scalar cp -> safe_char (safe_of cp).
Proof.
  intros Hs. unfold safe_of. destruct (unsafe_in_name cp) eqn:E; [|by apply unsafe_in_name_spec].
  apply unsafe_in_name_spec; [unfold scalar; lia|by vm_compute].
Qed.

Lemma text_of_decoded out cps :
  Forall scalar cps ->
  foldl (fun out cp => append_utf8 out (if unsafe_in_name cp then 95 else cp)) out cps = out ++ text (map safe_of cps).
Proof.
  revert out. induction cps as [|cp cps IH]; intros out Hs; simpl; [by rewrite app_nil_r|].
  apply Forall_cons in Hs as [Hc Hs]. fold (safe_of cp). rewrite IH by done.
  rewrite append_utf8_eq by apply (safe_of_safe cp Hc). by rewrite <- app_assoc.
Qed.

(** ** Cutting text *)

(** The bytes of a character: one that begins it, and others that do not. *)
Lemma utf8_shape cp : scalar cp ->
  exists b l, utf8 cp = b :: l /\ ~ cont b /\ Forall cont l /\ (length l <= 3)%nat /\ (Z_of_byte b < 128 -> l = [] /\ Z_of_byte b = cp).
Proof.
  intros [Hs _]. unfold utf8, cont. repeat case_match; bool_prop; do 2 eexists; (split; [reflexivity|]);
    rewrite !Forall_cons || rewrite Forall_nil; rewrite !Z_of_byte_of_Z; simpl;
    split_and!; try done; try lia; try (intros _; split; [done|]); try Zlia; intros; exfalso; Zlia.
Qed.

(** A piece of text that ends where a character begins is text. *)
Lemma text_split cps a b :
  Forall scalar cps -> text cps = a ++ b -> match b with [] => True | x :: _ => ~ cont x end ->
  exists cs ds, cps = cs ++ ds /\ a = text cs /\ b = text ds.
Proof.
  revert a. induction cps as [|cp cps IH]; intros a Hs E Hb.
  { symmetry in E. apply app_nil in E as [-> ->]. by exists [], []. }
  apply Forall_cons in Hs as [Hc Hs]. destruct a as [|x a].
  { exists [], (cp :: cps). by rewrite E. }
  destruct (utf8_shape cp Hc) as (y & l & Hu & _ & Hl & _).
  change (text (cp :: cps)) with (utf8 cp ++ text cps) in E. rewrite Hu in E. injection E as <- E.
  apply app_eq_inv in E as [(k & -> & Ek)|(k & -> & Ek)].
  - destruct k as [|z k].
    + exists [cp], cps. unfold text at 1. simpl. rewrite Hu, app_nil_r in *. simpl in Ek. by rewrite app_nil_r, Ek.
    + apply Forall_app in Hl as [_ Hl]. inversion Hl. subst b. done.
  - destruct (IH k Hs Ek Hb) as (cs & ds & -> & -> & ->). exists (cp :: cs), ds.
    change (text (cp :: cs)) with (utf8 cp ++ text cs). by rewrite Hu.
Qed.

Lemma space_or_dot_ascii b : space_or_dot b = true -> Z_of_byte b = 32 \/ Z_of_byte b = 46.
Proof. unfold space_or_dot. intros Hb. apply orb_true_iff in Hb as [Hb|Hb]; apply bool_decide_eq_true in Hb; subst; by vm_compute; auto. Qed.

Lemma text_drop_front cps :
  Forall safe_char cps -> exists ds, drop_front space_or_dot (text cps) = text ds /\ Forall safe_char ds.
Proof.
  induction cps as [|cp cps IH]; intros Hs; [by exists []|]. pose proof Hs as [[Hc _] Hs']%Forall_cons.
  destruct (utf8_shape cp Hc) as (b & l & Hu & _ & _ & _ & Hone).
  change (text (cp :: cps)) with (utf8 cp ++ text cps). rewrite Hu. simpl. destruct (space_or_dot b) eqn:Eb.
  - destruct Hone as [-> _]; [apply space_or_dot_ascii in Eb; lia|]. by apply IH.
  - exists (cp :: cps). split; [|done]. change (text (cp :: cps)) with (utf8 cp ++ text cps). by rewrite Hu.
Qed.

Lemma scalars cps : Forall safe_char cps -> Forall scalar cps.
Proof. intros H. eapply Forall_impl; [exact H|]. by intros ? []. Qed.

Lemma text_drop_back cps :
  Forall safe_char cps -> exists cs, drop_back space_or_dot (text cps) = text cs /\ Forall safe_char cs.
Proof.
  intros Hs. destruct (drop_back_prefix space_or_dot (text cps)) as (a & E & Ha).
  destruct (text_split cps _ a (scalars _ Hs) E) as (cs & ds & -> & -> & _).
  { destruct a as [|x a]; [done|]. apply Forall_cons in Ha as [Ha _]. apply space_or_dot_ascii in Ha. unfold cont. lia. }
  exists cs. split; [done|]. by apply Forall_app in Hs as [? _].
Qed.

(** Where a long name is cut. *)
Lemma cut_at_spec keep out :
  0 <= cut_at keep out <= Z.of_nat keep /\
  (cut_at keep out <> 0 -> (Z.land (byte_at out (cut_at keep out)) 0xC0 =? 0x80) = false) /\
  (forall j, 0 <= j <= Z.of_nat keep -> (Z.land (byte_at out j) 0xC0 =? 0x80) = false -> j <= cut_at keep out).
Proof.
  induction keep as [|keep IH]; cbn [cut_at]; [split_and!; lia|].
  destruct (Z.land (byte_at out (Z.of_nat (S keep))) 0xC0 =? 0x80) eqn:E.
  - destruct IH as (H1 & H2 & H3). split_and!; [lia|lia|done|]. intros j Hj Hb.
    destruct (decide (j = Z.of_nat (S keep))) as [->|]; [congruence|]. apply H3; [lia|done].
  - split_and!; [lia|lia|done|lia].
Qed.

Lemma byte_at_app (a b : bytes) : byte_at (a ++ b) (size a) = match b with [] => 0 | x :: _ => Z_of_byte x end.
Proof.
  unfold byte_at, size. rewrite Nat2Z.id, app_nth2, Nat.sub_diag by lia. by destruct b.
Qed.

Lemma not_cont_test b : (Z.land (Z_of_byte b) 0xC0 =? 0x80) = false <-> ~ cont b.
Proof. rewrite continuation_test, andb_false_iff, Z.leb_gt, Z.ltb_ge. unfold cont. lia. Qed.

(** A cut at [k] where a character begins. *)
Lemma text_ztake cps k :
  Forall safe_char cps -> 0 <= k < size (text cps) -> (Z.land (byte_at (text cps) k) 0xC0 =? 0x80) = false ->
  exists cs ds, cps = cs ++ ds /\ ztake k (text cps) = text cs /\ zdrop k (text cps) = text ds.
Proof.
  intros Hs Hk Hb. apply (text_split cps _ _ (scalars _ Hs)); [by rewrite ztake_zdrop|].
  rewrite <- (ztake_zdrop (text cps) k) in Hb. rewrite <- (size_ztake (text cps) k) in Hb at 3 by lia. rewrite byte_at_app in Hb.
  destruct (zdrop k (text cps)) as [|x r]; [done|]. by apply not_cont_test.
Qed.

Lemma rfind_char_Some c s i : rfind_char c s = Some i -> 0 <= i < size s /\ byte_at s i = Z_of_byte c.
Proof.
  revert i. induction s as [|x s IH]; intros i; simpl; [done|]. rewrite size_cons. pose proof (size_nonneg s).
  destruct (rfind_char c s) as [j|] eqn:E.
  - intros [= <-]. destruct (IH j eq_refl) as [Hj Hb]. split; [lia|]. unfold byte_at in *.
    replace (Z.to_nat (j + 1)) with (S (Z.to_nat j)) by lia. done.
  - case_decide as Hx; [|done]. intros [= <-]. subst x. split; [lia|done].
Qed.

(** A shortened name is made of characters of the name, begins with its first one,
    and has at most 200 bytes. *)
Lemma shorten_spec c cps :
  Forall safe_char (c :: cps) ->
  exists cs, shorten (text (c :: cps)) = text (c :: cs) /\ Forall safe_char (c :: cs) /\ size (shorten (text (c :: cps))) <= 200.
Proof.
  intros Hs. unfold shorten. destruct (size (text (c :: cps)) <=? 200) eqn:E; bool_prop; [by exists cps|].
  set (out := text (c :: cps)) in *.
  set (ext := match rfind_char (chr 46) out with Some dot => _ | None => _ end).
  assert (exists ds, ext = text ds /\ Forall safe_char ds /\ size ext <= 20) as (ds & Hext & Hds & Hes).
  { unfold ext. destruct (rfind_char (chr 46) out) as [dot|] eqn:Ed; [|by exists []].
    apply rfind_char_Some in Ed as [Hd Hb]. destruct ((0 <? dot) && (size out - dot <=? 20)) eqn:Ec; [|by exists []]. bool_prop.
    destruct (text_ztake (c :: cps) dot Hs) as (cs & ds & Hcps & _ & Hdrop); [done|fold out; rewrite Hb; reflexivity|].
    exists ds. rewrite Hcps in Hs. apply Forall_app in Hs as [_ Hs]. split_and!; [done..|]. rewrite size_zdrop; lia. }
  clearbody ext. pose proof (size_nonneg ext). destruct (cut_at_spec (Z.to_nat (200 - size ext)) out) as (Hk & Hkb & Hkmax).
  set (k := cut_at _ out) in *. pose proof Hs as [[Hc _] Hs']%Forall_cons.
  destruct (utf8_shape c Hc) as (b & l & Hu & Hnb & _ & Hl3 & _).
  assert (size (utf8 c) <= k) as Hfirst.
  { assert (size (utf8 c) <= 4) as H4 by (rewrite Hu; unfold size; simpl; lia). apply Hkmax.
    - pose proof (size_nonneg (utf8 c)). lia.
    - unfold out. change (text (c :: cps)) with (utf8 c ++ text cps). rewrite byte_at_app.
      destruct cps as [|c' cps]; [done|]. apply Forall_cons in Hs' as [[Hc' _] _].
      destruct (utf8_shape c' Hc') as (b' & l' & Hu' & Hnb' & _). unfold text. simpl. rewrite Hu'. simpl. by apply not_cont_test. }
  pose proof (utf8_nonempty c). destruct (text_ztake (c :: cps) k Hs) as (cs & ds' & Hcps & Htake & _); [fold out; lia|apply Hkb; lia|].
  fold out in Htake. rewrite Htake, Hext. destruct cs as [|c0 cs].
  { exfalso. assert (size (ztake k out) = k) as Hz by (apply size_ztake; lia). rewrite Htake in Hz. unfold text, size in Hz. simpl in Hz. lia. }
  injection Hcps as <- ->. exists (cs ++ ds). rewrite <- text_app. split; [done|]. split.
  - rewrite app_comm_cons. rewrite app_comm_cons in Hs. apply Forall_app in Hs as [Hs _]. by apply Forall_app.
  - rewrite text_app, size_app, <- Htake, <- Hext, size_ztake by lia. lia.
Qed.

(** A name that begins with an underscore is not one of Windows's. *)
Lemma drop_back_head P c s : P c = false -> exists s', drop_back P (c :: s) = c :: s'.
Proof.
  intros Hc. destruct (drop_back_prefix P (c :: s)) as (a & E & Ha). destruct (drop_back P (c :: s)) as [|x r].
  - simpl in E. subst a. apply Forall_cons in Ha as [Ha _]. congruence.
  - injection E as <- _. by exists r.
Qed.

Lemma underscore_not_reserved s : reserved_windows_name (chr 95 :: s) = false.
Proof.
  unfold reserved_windows_name.
  assert (exists t, match find_char (chr 46) (chr 95 :: s) with Some i => ztake i (chr 95 :: s) | None => chr 95 :: s end = chr 95 :: t) as [t ->].
  { cbn [find_char]. rewrite decide_False by done. destruct (find_char (chr 46) s) as [i|] eqn:E; simpl; [|by exists s].
    assert (0 <= i) as Hi. { clear -E. revert i E. induction s as [|x s IH]; intros i; simpl; [done|]. case_decide; [by intros [= <-]|].
      destruct (find_char (chr 46) s) as [j|]; [|done]. intros [= <-]. specialize (IH j eq_refl). lia. }
    exists (ztake i s). unfold ztake. by replace (Z.to_nat (Z.succ i)) with (S (Z.to_nat i)) by lia. }
  destruct (drop_back_head (fun c => bool_decide (c = chr 32)) (chr 95) t) as [u ->]; [by vm_compute|]. cbn [map].
  change (to_upper (chr 95)) with (chr 95). rewrite bool_decide_false by (rewrite !elem_of_cons, elem_of_nil; naive_solver).
  rewrite bool_decide_false; [by rewrite andb_false_r|].
  unfold ztake. simpl. rewrite !elem_of_cons, elem_of_nil. naive_solver.
Qed.

Lemma text_cons c cps : scalar c -> exists b l, text (c :: cps) = b :: l /\ (Z_of_byte b < 128 -> Z_of_byte b = c) /\ (c < 128 -> b = chr c).
Proof.
  intros Hc. destruct (utf8_shape c Hc) as (b & l & Hu & _ & _ & _ & Hone). exists b, (l ++ text cps).
  split; [unfold text; simpl; by rewrite Hu|]. split; [naive_solver|]. intros Hlt.
  unfold utf8 in Hu. rewrite (proj2 (Z.ltb_lt _ _)) in Hu by lia. by injection Hu as <- _.
Qed.

(** Whatever the name, what comes out is safe. *)
Lemma sanitized_safe name :
  exists c cps, sanitize_filename name = text (c :: cps) /\ Forall safe_char (c :: cps) /\ c <> 32 /\ c <> 46 /\
    ~ windows_device (sanitize_filename name) /\ size (sanitize_filename name) <= 201.
Proof.
  assert (exists c cps, str "attachment" = text (c :: cps) /\ Forall safe_char (c :: cps) /\ c <> 32 /\ c <> 46 /\
    ~ windows_device (str "attachment") /\ size (str "attachment") <= 201) as Hatt.
  { exists 97, [116; 116; 97; 99; 104; 109; 101; 110; 116]. split; [by vm_compute|]. split.
    - repeat (apply Forall_cons_2; [apply unsafe_in_name_spec; [unfold scalar; lia|by vm_compute]|]). apply Forall_nil_2.
    - rewrite <- reserved_windows_name_spec. by vm_compute. }
  unfold sanitize_filename. destruct (decode_utf8 _ name 0) as [cps|] eqn:Ed; [|exact Hatt]. apply decode_scalar in Ed.
  rewrite text_of_decoded, app_nil_l by done.
  assert (Forall safe_char (map safe_of cps)) as Hs by (apply Forall_map; eapply Forall_impl; [exact Ed|apply safe_of_safe]).
  destruct (text_drop_front _ Hs) as (ds & Hfront & Hds). rewrite Hfront.
  destruct (text_drop_back _ Hds) as (es & Hback & Hes). destruct (drop_back_prefix space_or_dot (text ds)) as (a & Ea & _).
  rewrite Hback in *. destruct es as [|c es]; [exact Hatt|]. pose proof Hes as [[Hc _] _]%Forall_cons.
  destruct (text_cons c es Hc) as (b & l & Eb & Hb & Hcb). rewrite Eb. cbn [is_empty]. rewrite <- Eb.
  assert (space_or_dot b = false) as Hhead. { rewrite Ea, Eb in Hfront. by apply drop_front_head in Hfront. }
  assert (c <> 32 /\ c <> 46) as [H32 H46] by (split; intros ->; rewrite Hcb in Hhead by lia; done).
  destruct (shorten_spec c es Hes) as (gs & -> & Hgs & Hsz). destruct (reserved_windows_name (text (c :: gs))) eqn:Er.
  - exists 95, (c :: gs). split; [done|].
    split; [constructor; [apply unsafe_in_name_spec; [unfold scalar; lia|by vm_compute]|done]|].
    rewrite <- reserved_windows_name_spec, underscore_not_reserved, size_cons. split_and!; try done; lia.
  - exists c, gs. rewrite <- reserved_windows_name_spec, Er. split_and!; try done; lia.
Qed.

(** ** A good name is kept *)

Lemma safe_shown cp : safe_char cp -> shown cp.
Proof. unfold safe_char, scalar, is_control, changes_direction, shown. intros (? & ? & _ & ? & _). lia. Qed.

(** The decoder reads back what the reference encoder writes. *)
Lemma utf8_char_fwd s i cp rest :
  at_off s i (utf8 cp ++ rest) -> shown cp -> utf8_char s i = Some (cp, size (utf8 cp)).
Proof.
  intros Hat Hs. destruct (utf8_bytes cp Hs) as (b & l & v & E & Hl & Hc & Hv & Hm). rewrite E in *. unfold utf8_char.
  rewrite (byte_at_cons _ _ _ _ Hat), lead_byte_eq, Hl. pose proof (at_off_size _ _ _ Hat) as Hsz.
  rewrite <- app_comm_cons, size_cons, size_app in Hsz. pose proof (size_nonneg rest). rewrite size_cons.
  unfold size in *. rewrite (proj2 (Z.ltb_ge _ _)) by lia.
  replace (Z.to_nat (1 + Z.of_nat (length l) - 1)) with (length l) by lia.
  apply (at_off_app _ _ [b]) in Hat. rewrite (continuation_at l _ _ rest) by exact Hat. fold (conts l). rewrite Hc, Hv.
  assert ((1 <? 1 + Z.of_nat (length l)) && (cp <? MIN_FOR_LENGTH (1 + Z.of_nat (length l))) = false) as ->.
  { destruct (1 <? _) eqn:E1; [|done]. bool_prop. simpl. apply Z.ltb_ge. by apply Hm. }
  destruct Hs as (? & ? & _). rewrite (proj2 (Z.ltb_ge _ _)) by lia. simpl.
  assert ((55296 <=? cp) && (cp <=? 57343) = false) as -> by (apply andb_false_iff; rewrite !Z.leb_gt; lia). done.
Qed.

Lemma decode_text fuel s i cps :
  at_off s i (text cps) -> Forall shown cps -> (length (text cps) < fuel)%nat -> decode_utf8 fuel s i = Some cps.
Proof.
  revert s i cps. induction fuel as [|fuel IH]; intros s i cps Hat Hs Hf; [lia|]. cbn [decode_utf8].
  pose proof (at_off_size _ _ _ Hat) as Hsz. destruct cps as [|cp cps].
  - change (size (text [])) with 0 in Hsz. by rewrite (proj2 (Z.ltb_ge _ _)) by lia.
  - change (text (cp :: cps)) with (utf8 cp ++ text cps) in *. apply Forall_cons in Hs as [Hcp Hcps].
    pose proof (utf8_nonempty cp). pose proof (size_nonneg (text cps)). rewrite size_app in Hsz. rewrite length_app in Hf.
    rewrite (proj2 (Z.ltb_lt _ _)) by lia. rewrite (utf8_char_fwd _ _ _ _ Hat Hcp), (IH s _ cps); [done| |done|].
    + by apply at_off_app in Hat.
    + unfold size in *. lia.
Qed.

Lemma safe_of_id cps : Forall safe_char cps -> map safe_of cps = cps.
Proof.
  induction 1 as [|cp cps Hc _ IH]; [done|]. cbn [map]. rewrite IH. unfold safe_of.
  by rewrite (proj2 (unsafe_in_name_spec cp (proj1 Hc))).
Qed.

(** The last byte of text is a space or dot only if the last character is one. *)
Lemma text_last cps e :
  scalar e -> e <> 32 -> e <> 46 -> match last (text (cps ++ [e])) with None => True | Some b => space_or_dot b = false end.
Proof.
  intros He H32 H46. destruct (utf8_shape e He) as (b & l & Hu & _ & Hl & _ & Hone).
  rewrite text_app. unfold text at 2. simpl. rewrite app_nil_r, Hu.
  assert (forall x, space_or_dot x = true -> ~ cont x /\ x <> b) as Hx.
  { intros x Hx%space_or_dot_ascii. split; [unfold cont; lia|]. intros ->. destruct Hone as [_ Hv]; lia. }
  destruct l as [|y l] using rev_ind.
  - rewrite last_snoc. destruct (space_or_dot b) eqn:E; [|done]. by apply Hx in E as [_ ?].
  - rewrite app_comm_cons, app_assoc, last_snoc. apply Forall_app in Hl as [_ [Hy _]%Forall_cons].
    destruct (space_or_dot y) eqn:E; [|done]. by apply Hx in E as [? _].
Qed.

(** A name that is already as it should be. *)
Definition good_name (name : bytes) : Prop :=
  exists c cps e, name = text (c :: cps) /\ Forall safe_char (c :: cps) /\ c <> 32 /\ c <> 46 /\
    last (c :: cps) = Some e /\ e <> 32 /\ e <> 46 /\ size name <= 200 /\ ~ windows_device name.

Lemma good_name_kept name : good_name name -> sanitize_filename name = name.
Proof.
  intros (c & cps & e & -> & Hs & H32 & H46 & He & He32 & He46 & Hsz & Hd). unfold sanitize_filename.
  rewrite (decode_text _ _ 0 (c :: cps)); [|apply at_off_0|by eapply Forall_impl; [exact Hs|apply safe_shown]|lia].
  rewrite text_of_decoded, app_nil_l, safe_of_id by (done || by apply scalars).
  pose proof Hs as [[Hc _] _]%Forall_cons. destruct (text_cons c cps Hc) as (b & l & Eb & Hb & _).
  rewrite (drop_front_id _ (text (c :: cps))); cycle 1.
  { rewrite Eb. destruct (space_or_dot b) eqn:E; [|done]. apply space_or_dot_ascii in E. lia. }
  rewrite drop_back_id; cycle 1.
  { apply last_Some in He as [l' He]. rewrite He in *. apply text_last; [|done..]. apply Forall_app in Hs as [_ [[? _] _]%Forall_cons]. done. }
  rewrite Eb. cbn [is_empty]. rewrite <- Eb. unfold shorten. rewrite (proj2 (Z.leb_le _ _)) by done.
  destruct (reserved_windows_name _) eqn:Er; [|done]. by apply reserved_windows_name_spec in Er.
Qed.

(** C38: A name chosen by someone else is made safe. Whatever bytes it has,
    [sanitize_filename] returns a sequence of at least one UTF-8 character, none of
    them a control, a slash, backslash or other character Windows forbids, a mark,
    embedding, override or isolate that changes the direction of text or a byte order
    mark; the name does not begin with a space or a dot, is not the name of a Windows
    device (one of 22 names, in any case, before a dot and with spaces after it), and
    has at most 201 bytes. A name that is already as it should be is kept. *)
Theorem sanitize_filename_safe name :
  (exists c cps, sanitize_filename name = text (c :: cps) /\ Forall safe_char (c :: cps) /\ c <> 32 /\ c <> 46 /\
    ~ windows_device (sanitize_filename name) /\ size (sanitize_filename name) <= 201) /\
  (good_name name -> sanitize_filename name = name).
Proof.
  split; [|apply good_name_kept]. apply sanitized_safe.
Qed.

(** Names that are kept, and names that are not. *)
Lemma sanitize_filename_safe_witness :
  sanitize_filename (str "a.b") = str "a.b" /\
  sanitize_filename (str "../aux .txt") = str "_aux .txt" /\ sanitize_filename (str "..") = str "attachment" /\
  sanitize_filename (str "aux .txt") = str "_aux .txt" /\ sanitize_filename (str " a:b\c ") = str "a_b_c".
Proof.
  split; [|by vm_compute]. apply (proj2 (sanitize_filename_safe (str "a.b"))).
  exists 97, [46; 98], 98. split; [reflexivity|]. split.
  { repeat (apply Forall_cons_2; [apply unsafe_in_name_spec; [unfold scalar; lia|reflexivity]|]). apply Forall_nil_2. }
  split_and!; [lia|lia|reflexivity|lia|lia|by vm_compute|].
  intros Hd. apply reserved_windows_name_spec in Hd. discriminate Hd.
Defined.

(** The name is not always as the comment in attachment.h has it: a long name that
    is cut can end in a space, *)
Example cut_name_ends_in_space :
  let name := replicate 199 (chr 97) ++ str " " ++ replicate 10 (chr 97) in
  last (sanitize_filename name) = Some (chr 32).
Proof. vm_compute. reflexivity. Qed.

(** and the underscore before a device name comes on top of the 200 bytes. *)
Example reserved_name_of_201_bytes : size (sanitize_filename (str "con." ++ replicate 200 (chr 97))) = 201.
Proof. vm_compute. reflexivity. Qed.
