(* ===== verification/MessageRecord.v ===== *)
(** * Signed message records: client/message_record.h and message_record.cpp

    The unit of a conversation: what a well-formed record is, how it is signed,
    parsed and verified, and how a conversation and its members are named. The
    payloads of the record types are in [RecordPayloads]. [HASH_BYTES] is that of
    [RelayProtocol] (both are 32). *)

From Stdlib Require Import ZArith Lia.
From stdpp Require Import base list strings.
From S2P Require Import Prelude Wire Protocol RelayProtocol RelayProtocolSpec Crypto Prekey Envelope Utf8Label.
#[local] Open Scope Z_scope.

(** src/client/message_record.h 27-27 ID_BYTES *)
Definition ID_BYTES : Z := 16.
(** src/client/message_record.h 29-29 MAX_TEXT_BYTES *)
Definition MAX_TEXT_BYTES : Z := 32 * 1024.
(** src/client/message_record.h 30-30 MAX_RECORD_BYTES *)
Definition MAX_SIGNED_RECORD_BYTES : Z := 40 * 1024.
(** src/client/message_record.h 31-31 MAX_SEEN *)
Definition MAX_SEEN : Z := 15.
(** src/client/message_record.h 32-32 MAX_GROUP_MEMBERS *)
Definition MAX_GROUP_MEMBERS : Z := 16.
(** src/client/message_record.h 33-33 MAX_TITLE_BYTES *)
Definition MAX_TITLE_BYTES : Z := 64.
(** src/client/message_record.h 34-34 MAX_CONVERSATION_PAYLOAD *)
Definition MAX_CONVERSATION_PAYLOAD : Z := 1024.
(** src/client/message_record.h 35-35 MAX_FORWARD_ENVELOPE_BYTES *)
Definition MAX_FORWARD_ENVELOPE_BYTES : Z := 8 * 1024.
(** src/client/message_record.h 150-150 MAX_RELAY_ADDRESS_BYTES *)
Definition MAX_RELAY_ADDRESS_BYTES : Z := 255.
(** src/client/message_record.h 151-151 MAX_ARCHIVE_GRANT_PAYLOAD *)
Definition MAX_ARCHIVE_GRANT_PAYLOAD : Z := 512.
(** src/client/message_record.h 190-190 MAX_ATTACHMENT_PAYLOAD *)
Definition MAX_ATTACHMENT_PAYLOAD : Z := 2048.
(** src/client/message_record.h 216-216 MAX_DELETE_REQUEST_PAYLOAD *)
Definition MAX_DELETE_REQUEST_PAYLOAD : Z := 4096.
(** src/client/message_record.h 217-217 MAX_DELETE_ACCEPT_PAYLOAD *)
Definition MAX_DELETE_ACCEPT_PAYLOAD : Z := 8192 + 256.

(** src/client/message_record.cpp 13-13 RECORD_MAGIC *)
Definition RECORD_MAGIC : Z := 0x50514D52.
(** src/client/message_record.cpp 14-14 RECORD_VERSION *)
Definition RECORD_VERSION : Z := 2.
(** src/client/message_record.cpp 15-15 MIN_RECORD_VERSION *)
Definition MIN_RECORD_VERSION : Z := 1.
(** src/client/message_record.cpp 17-17 SIGNATURE_LABEL *)
Definition SIGNATURE_LABEL : bytes := str "pq-suite v3 message".
(** src/client/message_record.cpp 18-18 CONVERSATION_LABEL *)
Definition CONVERSATION_LABEL : bytes := str "pq-suite v3 one-to-one conversation".
(** src/client/message_record.cpp 19-19 RECIPIENTS_LABEL *)
Definition RECIPIENTS_LABEL : bytes := str "pq-suite v3 recipients".
(** src/client/message_record.cpp 20-20 MAX_RECEIPT_IDS *)
Definition MAX_RECEIPT_IDS : Z := 256.

(** src/client/message_record.h 37-48 RecordType *)
Inductive RecordType :=
  | RT_Text | RT_Receipt | RT_TokenGrant | RT_Conversation | RT_Forward | RT_ArchiveGrant | RT_Checkpoint
  | RT_DeleteRequest | RT_DeleteAccept | RT_Attachment.

#[global] Instance RecordType_eq_dec : EqDecision RecordType.
Proof. solve_decision. Defined.

(** [static_cast<uint32_t>(type)]. *)
Definition type_code (t : RecordType) : Z :=
  match t with
  | RT_Text => 1 | RT_Receipt => 2 | RT_TokenGrant => 3 | RT_Conversation => 4 | RT_Forward => 5
  | RT_ArchiveGrant => 6 | RT_Checkpoint => 7 | RT_DeleteRequest => 8 | RT_DeleteAccept => 9 | RT_Attachment => 10
  end.

(** [static_cast<RecordType>(code)], for a code already known to be in range. *)
Definition type_of_code (z : Z) : RecordType :=
  match z with
  | 1 => RT_Text | 2 => RT_Receipt | 3 => RT_TokenGrant | 4 => RT_Conversation | 5 => RT_Forward
  | 6 => RT_ArchiveGrant | 7 => RT_Checkpoint | 8 => RT_DeleteRequest | 9 => RT_DeleteAccept | _ => RT_Attachment
  end.

(** src/client/message_record.h 52-66 Record *)
Record MessageRecord := mkMessageRecord {
  mr_conversation_id : bytes;
  mr_message_id : bytes;
  mr_sender : bytes;
  mr_recipients_hash : bytes;
  mr_sent_at : Z;
  mr_type : RecordType;
  mr_payload : bytes;
  mr_own_prev : bytes;
  mr_seen : list bytes;
}.

(** src/client/message_record.h 68-74 SignedRecord *)
Record SignedRecord := mkSignedRecord {
  sr_record : MessageRecord;
  sr_raw : bytes;
  sr_entry_hash : bytes;
  sr_body : bytes;
  sr_signature : bytes;
}.

(** src/client/message_record.cpp 22-27 signing_input *)
Definition record_signing_input (body : bytes) : bytes :=
  let inp := write_string [] SIGNATURE_LABEL in
  write_bytes inp body.

(** src/client/message_record.cpp 29-29 empty_or *)
Definition empty_or (b : bytes) (sz : Z) : bool := is_empty b || (size b =? sz).

(** [for i: size check; for j < i: equality check], as both [well_formed] and
    [valid_info] write it. *)
Fixpoint distinct_sized (n : Z) (before l : list bytes) : bool :=
  match l with
  | [] => true
  | x :: l =>
      if negb (size x =? n) then false else
      if bool_decide (x ∈ before) then false else
      distinct_sized n (before ++ [x]) l
  end.

Definition no_items {A} (l : list A) : bool := match l with [] => true | _ => false end.

(** The [switch] of [well_formed].
    src/client/message_record.cpp 41-55 well_formed *)
Definition payload_ok (r : MessageRecord) : bool :=
  let n := size r.(mr_payload) in
  let first := is_empty r.(mr_own_prev) && no_items r.(mr_seen) in
  match r.(mr_type) with
  | RT_Text => n <=? MAX_TEXT_BYTES
  | RT_Attachment => n <=? MAX_ATTACHMENT_PAYLOAD
  | RT_Receipt => n <=? 1 + 4 + MAX_RECEIPT_IDS * (4 + ID_BYTES)
  | RT_TokenGrant => n =? 32
  | RT_Conversation => (n <=? MAX_CONVERSATION_PAYLOAD) && first
  | RT_Forward => (n <=? 4 + HASH_BYTES + 4 + MAX_FORWARD_ENVELOPE_BYTES) && first
  | RT_ArchiveGrant => (n <=? MAX_ARCHIVE_GRANT_PAYLOAD) && first
  | RT_Checkpoint => (n <=? 8 + 4 + HASH_BYTES) && first
  | RT_DeleteRequest => (n <=? MAX_DELETE_REQUEST_PAYLOAD) && first
  | RT_DeleteAccept => (n <=? MAX_DELETE_ACCEPT_PAYLOAD) && first
  end.

(** src/client/message_record.cpp 31-56 well_formed *)
Definition well_formed (r : MessageRecord) : bool :=
  if negb (size r.(mr_conversation_id) =? ID_BYTES) || negb (size r.(mr_message_id) =? ID_BYTES) then false else
  if negb (size r.(mr_sender) =? HASH_BYTES) || negb (size r.(mr_recipients_hash) =? HASH_BYTES) then false else
  if negb (empty_or r.(mr_own_prev) HASH_BYTES) then false else
  if MAX_SEEN <? size r.(mr_seen) then false else
  if negb (distinct_sized HASH_BYTES [] r.(mr_seen)) then false else
  payload_ok r.

(** The body [sign_record] writes.
    src/client/message_record.cpp 127-139 sign_record *)
Definition record_body (r : MessageRecord) : bytes :=
  let body := write_u32 [] RECORD_MAGIC in
  let body := write_u32 body RECORD_VERSION in
  let body := write_blob body r.(mr_conversation_id) in
  let body := write_blob body r.(mr_message_id) in
  let body := write_blob body r.(mr_sender) in
  let body := write_blob body r.(mr_recipients_hash) in
  let body := write_u64 body r.(mr_sent_at) in
  let body := write_u32 body (type_code r.(mr_type)) in
  let body := write_blob body r.(mr_payload) in
  let body := write_blob body r.(mr_own_prev) in
  let body := write_u32 body (u32 (size r.(mr_seen))) in
  foldl write_blob body r.(mr_seen).

(** The hashes a record has seen, in the two formats.
    src/client/message_record.cpp 173-187 parse_record *)
Definition read_seen (version : Z) (bd : bytes) (b : Z) : option (list bytes) * Z :=
  if version =? 1 then
    let '(one, b) := read_blob bd b HASH_BYTES in
    (let? one := one in Some (if is_empty one then [] else [one]), b)
  else
    let '(count, b) := read_u32 bd b in
    match count with
    | None => (None, b)
    | Some count =>
        if MAX_SEEN <? count then (None, b) else
        read_loop (read_capped HASH_BYTES) (Z.to_nat count) bd b []
    end.

(** src/client/message_record.cpp 155-201 parse_record *)
Definition parse_body (bd : bytes) : option MessageRecord :=
  let '(magic, b) := read_u32 bd 0 in
  let '(version, b) := read_u32 bd b in
  let? magic := magic in
  if negb (magic =? RECORD_MAGIC) then None else
  let? version := version in
  if (version <? MIN_RECORD_VERSION) || (RECORD_VERSION <? version) then None else
  let '(conv, b) := read_blob bd b ID_BYTES in
  let '(msg, b) := read_blob bd b ID_BYTES in
  let '(sender, b) := read_blob bd b HASH_BYTES in
  let '(rh, b) := read_blob bd b HASH_BYTES in
  let '(sent, b) := read_u64 bd b in
  let '(type, b) := read_u32 bd b in
  let '(payload, b) := read_blob bd b (MAX_TEXT_BYTES + 1) in
  let '(prev, b) := read_blob bd b HASH_BYTES in
  let? conv := conv in
  let? msg := msg in
  let? sender := sender in
  let? rh := rh in
  let? sent := sent in
  let? type := type in
  let? payload := payload in
  let? prev := prev in
  let '(seen, b) := read_seen version bd b in
  let? seen := seen in
  if negb (b =? size bd) then None else
  let newest_type := if version =? 1 then 3 else 10 in
  if (type <? 1) || (newest_type <? type) then None else
  let r := mkMessageRecord conv msg sender rh sent (type_of_code type) payload prev seen in
  if negb (well_formed r) then None else Some r.

(** [std::lexicographical_compare]: the smaller of the two comes first.
    src/client/message_record.cpp 104-105 conversation_id_for *)
Definition low_high (a b : bytes) : bytes * bytes := if bytes_ltb a b then (a, b) else (b, a).

(** What is hashed to name a one-to-one conversation.
    src/client/message_record.cpp 104-109 conversation_id_for *)
Definition conversation_input (a b : bytes) : bytes :=
  let '(low, high) := low_high a b in
  let inp := write_string [] CONVERSATION_LABEL in
  let inp := write_blob inp low in
  write_blob inp high.

(** What is hashed to bind a record to its recipients.
    src/client/message_record.cpp 116-121 recipients_hash_for *)
Definition recipients_input (fingerprints : list bytes) : bytes :=
  let sorted := sort_by bytes_leb fingerprints in
  let inp := write_string [] RECIPIENTS_LABEL in
  let inp := write_u32 inp (u32 (size sorted)) in
  foldl write_blob inp sorted.

Section record.
Context `{P : Primitives}.

(** src/client/message_record.cpp 103-113 conversation_id_for *)
Definition conversation_id_for (a b : bytes) : bytes := ztake ID_BYTES (sha256 (conversation_input a b)).

(** src/client/message_record.cpp 115-123 recipients_hash_for *)
Definition recipients_hash_for (fingerprints : list bytes) : bytes := sha256 (recipients_input fingerprints).

(** src/client/message_record.cpp 125-146 sign_record *)
Definition sign_record (rand : bytes) (r : MessageRecord) (signing_private_key : bytes) : exc bytes :=
  if negb (well_formed r) then Throw "The message record is malformed or too large" else
  let body := record_body r in
  let! signature := sign rand (record_signing_input body) signing_private_key in
  let raw := write_blob [] body in
  Ret (write_blob raw signature).

(** src/client/message_record.cpp 148-209 parse_record *)
Definition parse_record (raw : bytes) : option SignedRecord :=
  if MAX_SIGNED_RECORD_BYTES <? size raw then None else
  let '(body, off) := read_blob raw 0 MAX_SIGNED_RECORD_BYTES in
  let '(signature, off) := read_blob raw off 8192 in
  let? body := body in
  let? signature := signature in
  if negb (off =? size raw) then None else
  let? r := parse_body body in
  Some (mkSignedRecord r raw (sha256 raw) body signature).

(** src/client/message_record.cpp 211-215 verify_record *)
Definition verify_record (sr : SignedRecord) (signing_public_key : bytes) : bool :=
  if negb (bool_decide (fingerprint signing_public_key = bytes_to_hex sr.(sr_record).(mr_sender))) then false else
  verify (record_signing_input sr.(sr_body)) sr.(sr_signature) signing_public_key.
End record.

(** ** Well-formed records *)

(** [if (b) return false;] *)
Lemma guard_true (b c : bool) : (if b then false else c) = true <-> b = false /\ c = true.
Proof. destruct b; split; try done; by intros []. Qed.

Lemma distinct_sized_spec n before l :
  Forall (fun b => size b = n) before /\ NoDup before ->
  distinct_sized n before l = true <-> Forall (fun b => size b = n) (before ++ l) /\ NoDup (before ++ l).
Proof.
  revert before. induction l as [|x l IH]; intros before Hb; simpl; [by rewrite app_nil_r|].
  assert ((Forall (fun b => size b = n) (before ++ [x]) /\ NoDup (before ++ [x])) <-> size x = n /\ x ∉ before) as Hx.
  { pose proof (Forall_NoDup_snoc (fun b => size b = n) (fun b : bytes => b) before x) as Hs.
    rewrite !map_id in Hs. tauto. }
  replace (before ++ x :: l) with ((before ++ [x]) ++ l) by by rewrite <- app_assoc.
  assert (Forall (fun b => size b = n) ((before ++ [x]) ++ l) /\ NoDup ((before ++ [x]) ++ l) ->
          size x = n /\ x ∉ before) as Hpre.
  { intros [Hf Hd]. apply Hx. apply Forall_app in Hf as [? _]. by apply NoDup_app in Hd as [? _]. }
  destruct (size x =? n) eqn:E; bool_prop; simpl; [|split; [done|]; intros Hw; by apply Hpre in Hw as [? _]].
  case_bool_decide; [split; [done|]; intros Hw; by apply Hpre in Hw as [_ ?]|]. apply IH. by apply Hx.
Qed.

Lemma distinct_sized_nil n l :
  distinct_sized n [] l = true <-> Forall (fun b => size b = n) l /\ NoDup l.
Proof. apply (distinct_sized_spec n []). split; constructor. Qed.

Lemma well_formed_spec r :
  well_formed r = true <->
  (size r.(mr_conversation_id) = ID_BYTES /\ size r.(mr_message_id) = ID_BYTES /\
   size r.(mr_sender) = HASH_BYTES /\ size r.(mr_recipients_hash) = HASH_BYTES) /\
  (r.(mr_own_prev) = [] \/ size r.(mr_own_prev) = HASH_BYTES) /\
  (size r.(mr_seen) <= MAX_SEEN /\ distinct_hashes r.(mr_seen)) /\ payload_ok r = true.
Proof.
  unfold well_formed, empty_or, distinct_hashes. rewrite <- distinct_sized_nil, <- is_empty_true.
  rewrite !guard_true, !orb_false_iff, !negb_false_iff, !orb_true_iff, !Z.eqb_eq, !Z.ltb_ge. tauto.
Qed.

Lemma payload_ok_size r : payload_ok r = true -> size r.(mr_payload) <= MAX_TEXT_BYTES.
Proof.
  unfold payload_ok, MAX_TEXT_BYTES, MAX_ATTACHMENT_PAYLOAD, MAX_RECEIPT_IDS, ID_BYTES, MAX_CONVERSATION_PAYLOAD,
    HASH_BYTES, MAX_FORWARD_ENVELOPE_BYTES, MAX_ARCHIVE_GRANT_PAYLOAD, MAX_DELETE_REQUEST_PAYLOAD,
    MAX_DELETE_ACCEPT_PAYLOAD.
  destruct (mr_type r); rewrite ?andb_true_iff, ?Z.leb_le, ?Z.eqb_eq; lia.
Qed.

Lemma type_of_code_of t : type_of_code (type_code t) = t.
Proof. by destruct t. Qed.

Lemma type_code_of_code z : 1 <= z <= 10 -> type_code (type_of_code z) = z.
Proof.
  intros Hz. assert (z = 1 \/ z = 2 \/ z = 3 \/ z = 4 \/ z = 5 \/ z = 6 \/ z = 7 \/ z = 8 \/ z = 9 \/ z = 10) by lia.
  destruct_or?; by subst.
Qed.

Lemma type_code_range t : 1 <= type_code t <= 10.
Proof. destruct t; simpl; lia. Qed.

(** ** The body *)

(** The hashes a record has seen, as version 1 and as version 2 write them. *)
Definition seen_one (l : list bytes) : bytes := match l with [h] => h | _ => [] end.
Definition seen_bytes (version : Z) (l : list bytes) : bytes :=
  if version =? 1 then blob (seen_one l) else be32 (size l) ++ concat (map blob l).

Definition body_bytes (version : Z) (r : MessageRecord) : bytes :=
  be32 RECORD_MAGIC ++ be32 version ++ blob r.(mr_conversation_id) ++ blob r.(mr_message_id) ++ blob r.(mr_sender)
  ++ blob r.(mr_recipients_hash) ++ be64 r.(mr_sent_at) ++ be32 (type_code r.(mr_type)) ++ blob r.(mr_payload)
  ++ blob r.(mr_own_prev) ++ seen_bytes version r.(mr_seen).

(** Which records version 1 could hold. *)
Definition body_version (version : Z) (r : MessageRecord) : Prop :=
  version = 2 \/ (version = 1 /\ type_code r.(mr_type) <= 3 /\ size r.(mr_seen) <= 1).

Lemma record_body_eq r : well_formed r = true -> record_body r = body_bytes 2 r.
Proof.
  intros (_ & _ & [Hs _] & _)%well_formed_spec. unfold record_body, body_bytes, seen_bytes. simpl.
  rewrite fold_write_blob, u32_small by (eapply size_is_u32; [exact Hs|done]). encode_norm. done.
Qed.

Lemma read_seen_inv version data off rest l off' :
  1 <= version <= 2 -> at_off data off rest -> read_seen version data off = (Some l, off') ->
  (version = 1 -> size l <= 1) /\
  exists rest', rest = seen_bytes version l ++ rest' /\ at_off data off' rest'.
Proof.
  intros Hv Hat. unfold read_seen, seen_bytes. destruct (version =? 1) eqn:Ev; bool_prop.
  - intros Hr. destruct (read_blob data off HASH_BYTES) as [[one|] o] eqn:E; [|done].
    injection Hr as <- <-. apply (read_blob_at _ _ _ _ _ _ Hat) in E as (_ & _ & _ & rest' & -> & Hat').
    destruct one; simpl; (split; [done|]); by exists rest'.
  - intros Hr. split; [lia|]. destruct (read_u32 data off) as [[n|] o] eqn:E; [|done].
    destruct (proj1 (read_u32_at _ _ _ _ _ Hat) E) as (Hn & -> & r & -> & _).
    destruct (_ <? n) eqn:En; [done|].
    apply (counted_loop_at _ _ _ _ _ _ Hn Hat) in Hr as (-> & _ & rest' & -> & Hat').
    exists rest'. by rewrite <- app_assoc.
Qed.

Lemma read_seen_fwd version data off l rest :
  version = 2 \/ version = 1 /\ size l <= 1 -> size l <= MAX_SEEN -> Forall (fun h => size h = HASH_BYTES) l ->
  at_off data off (seen_bytes version l ++ rest) ->
  exists off', read_seen version data off = (Some l, off') /\ at_off data off' rest.
Proof.
  intros Hv Hl Hf Hat. unfold read_seen, seen_bytes in *. destruct Hv as [->|[-> Hle]]; simpl in *.
  - rewrite <- app_assoc in Hat. assert (in_u32 (size l)) as Hu by (eapply size_is_u32; [exact Hl|done]).
    rewrite (read_u32_fwd _ _ _ _ Hat Hu), (proj2 (Z.ltb_ge _ _) Hl).
    apply (counted_loop_fwd (HL := read_capped_loop HASH_BYTES)) in Hat as [-> Hat]; [by eexists|done|].
    eapply Forall_impl; [exact Hf|]. by intros ? ->.
  - destruct l as [|h [|]]; [| |unfold size in Hle; simpl in Hle; lia]; simpl in *.
    + read_fwd_step; [by eexists|done|done].
    + rewrite Forall_singleton in Hf. destruct (fixed_fits h _ Hf) as [? ?]; [done|].
      read_fwd_step; try assumption. destruct h; [done|]. by eexists.
Qed.

Lemma parse_body_inv bd r :
  parse_body bd = Some r ->
  well_formed r = true /\ in_u64 r.(mr_sent_at) /\ exists v, body_version v r /\ bd = body_bytes v r.
Proof.
  intros Hd. unfold parse_body in Hd. pose proof (at_off_0 bd) as Hat.
  repeat (open_decode Hd; bool_prop; subst). repeat (read_inv_step; subst).
  unfold MIN_RECORD_VERSION, RECORD_VERSION in *.
  match goal with E : read_seen ?v _ _ = _, Ht : ?t <= (if _ then _ else _), Hm : 1 <= ?t |- _ =>
    apply (read_seen_inv v _ _ _ _ _ ltac:(lia) Hat) in E as (Hone & ? & -> & Hat');
    assert (t <= 10) by (destruct (v =? 1); lia); split_and!; [done..|]; exists v
  end.
  read_end. unfold body_version, body_bytes. simpl. rewrite type_code_of_code by done. split; [|by rewrite app_nil_r].
  match goal with Hv : 1 <= ?v |- ?v = 2 \/ _ =>
    destruct (v =? 1) eqn:Ev; bool_prop; [right; split_and!; [done|lia|auto]|left; lia] end.
Qed.

Lemma empty_or_fits (b : bytes) n : b = [] \/ size b = n -> 0 <= n < 2 ^ 32 -> size b <= n /\ in_u32 (size b).
Proof. unfold in_u32. intros [->|<-] ?; [change (size (A:=byte) []) with 0|]; lia. Qed.

Lemma parse_body_fwd v r :
  well_formed r = true -> in_u64 r.(mr_sent_at) -> body_version v r -> parse_body (body_bytes v r) = Some r.
Proof.
  intros Hwf Ht Hv. pose proof (proj1 (well_formed_spec r) Hwf) as ((Hc & Hm & Hs & Hr) & Hp & [Hl [Hf _]] & Hpay).
  apply payload_ok_size in Hpay.
  destruct (fixed_fits _ _ Hc) as [? ?]; [done|]. destruct (fixed_fits _ _ Hm) as [? ?]; [done|].
  destruct (fixed_fits _ _ Hs) as [? ?]; [done|]. destruct (fixed_fits _ _ Hr) as [? ?]; [done|].
  destruct (empty_or_fits _ _ Hp) as [? ?]; [done|].
  assert (size (mr_payload r) <= MAX_TEXT_BYTES + 1) by lia.
  assert (in_u32 (size (mr_payload r))) by (eapply size_is_u32; [exact Hpay|done]).
  assert (in_u32 (type_code (mr_type r)) /\ in_u32 RECORD_MAGIC /\ in_u32 v) as (? & ? & ?).
  { pose proof (type_code_range (mr_type r)). unfold in_u32, RECORD_MAGIC, body_version in *. lia. }
  remember (body_bytes v r) as bd eqn:Hat. apply at_off_0_app in Hat. unfold body_bytes in Hat.
  rewrite <- !app_assoc in Hat. unfold parse_body.
  repeat (read_fwd_step; try assumption; cbv beta iota zeta).
  assert (v = 2 \/ v = 1 /\ size (mr_seen r) <= 1) as Hv' by (unfold body_version in Hv; tauto).
  destruct (read_seen_fwd v _ _ _ _ Hv' Hl Hf Hat) as (off' & -> & Hend).
  unfold MIN_RECORD_VERSION, RECORD_VERSION. rewrite Z.eqb_refl. cbn [negb].
  rewrite (proj2 (Z.ltb_ge v 1)), (proj2 (Z.ltb_ge 2 v)) by lia. cbn [orb].
  rewrite (at_off_end_eqb _ _ Hend). cbn [negb]. rewrite type_of_code_of.
  pose proof (type_code_range (mr_type r)). rewrite (proj2 (Z.ltb_ge _ 1)) by lia. cbn [orb].
  rewrite (proj2 (Z.ltb_ge (if v =? 1 then 3 else 10) _)); [by destruct r; simpl in *; rewrite Hwf|].
  destruct Hv as [->|(-> & ? & _)]; simpl; lia.
Qed.

(** ** Signing, parsing and verifying *)

Section signing.
Context `{PrimitiveLaws}.

(** A record and the key it is signed with: the sender is the key's fingerprint. *)
Lemma verify_record_spec sr pk :
  verify_record sr pk = true <->
  sr.(sr_record).(mr_sender) = sha256 pk /\ verify (record_signing_input sr.(sr_body)) sr.(sr_signature) pk = true.
Proof.
  unfold verify_record, fingerprint. case_bool_decide as E; simpl.
  - apply bytes_to_hex_inj in E. split; [done|by intros []].
  - split; [done|]. intros [E2 _]. by rewrite E2 in E.
Qed.

Lemma body_size r : well_formed r = true -> size (body_bytes 2 r) <= 33600.
Proof.
  intros ((Hc & Hm & Hs & Hr) & Hp & [Hl [Hf _]] & Hpay%payload_ok_size)%well_formed_spec.
  unfold body_bytes, seen_bytes. simpl. rewrite !size_app, !size_be32, !size_be64, !size_blob, Hc, Hm, Hs, Hr.
  destruct (empty_or_fits _ _ Hp) as [? _]; [done|].
  assert (size (concat (map blob (mr_seen r))) = 36 * size (mr_seen r)) as ->.
  { clear -Hf. induction Hf as [|h l Hh _ IH]; simpl; [done|]. rewrite size_app, size_blob, size_cons, IH, Hh.
    unfold HASH_BYTES. lia. }
  unfold ID_BYTES, HASH_BYTES, MAX_TEXT_BYTES, MAX_SEEN in *. lia.
Qed.

(** A record's round trip and what its signature covers. A well-formed record
    whose sender is the fingerprint of the signing key is signed into bytes that
    parse back to exactly that record, with the hash of those bytes as its entry
    hash, and that verify under the key; a malformed one is refused. *)
Theorem signed_record_roundtrip seed rand r :
  let pk := (generate_sig_keypair seed).1 in
  let sk := (generate_sig_keypair seed).2 in
  r.(mr_sender) = sha256 pk -> in_u64 r.(mr_sent_at) ->
  if well_formed r then
    exists raw sr, sign_record rand r sk = Ret raw /\ parse_record raw = Some sr /\
      sr.(sr_record) = r /\ sr.(sr_raw) = raw /\ sr.(sr_entry_hash) = sha256 raw /\ verify_record sr pk = true
  else exists what, sign_record rand r sk = Throw what.
Proof.
  cbv zeta. intros Hsend Ht. unfold sign_record. destruct (well_formed r) eqn:Hwf; [|by eexists]. cbn [negb].
  rewrite record_body_eq by done. pose proof (body_size r Hwf) as Hb.
  pose proof (sign_verifies seed rand (record_signing_input (body_bytes 2 r))) as Hsv.
  destruct (generate_sig_keypair seed) as [pk sk]. cbn [fst snd] in *. destruct Hsv as (sg & -> & Hlen & Hv). cbn [exc_bind].
  destruct algorithm_sizes as (_ & _ & _ & Hsig).
  set (body := body_bytes 2 r) in *. eexists _, (mkSignedRecord r _ _ body sg). split; [reflexivity|].
  split_and!; [|done..|by apply verify_record_spec].
  encode_norm. remember (blob body ++ blob sg) as raw eqn:Hraw.
  assert (size raw <= MAX_SIGNED_RECORD_BYTES) as Hs.
  { rewrite Hraw, size_app, !size_blob. unfold MAX_SIGNED_RECORD_BYTES. lia. }
  assert (size body <= MAX_SIGNED_RECORD_BYTES /\ size sg <= 8192 /\ in_u32 (size body) /\ in_u32 (size sg)) as (? & ? & ? & ?).
  { pose proof (size_nonneg body). unfold in_u32, MAX_SIGNED_RECORD_BYTES. lia. }
  unfold parse_record. rewrite (proj2 (Z.ltb_ge _ _) Hs). apply at_off_0_app in Hraw. rewrite <- app_assoc in Hraw.
  repeat (read_fwd_step; try assumption; cbv beta iota zeta). decode_end.
  unfold body. rewrite parse_body_fwd; [done..|by left].
Qed.

(** Parsing is exact. A byte string parses exactly when it is at most 40 KiB
    and is a body and a signature, the body being the version 2 or (for the first
    three types, with at most one hash seen) the version 1 form of a well-formed
    record; the result holds those very bytes and their hash. So the signed body
    determines every field of the record, and there is nothing in an accepted
    message that the signature does not cover, the signature itself apart. *)
Theorem parse_record_exact raw sr :
  parse_record raw = Some sr <->
  size raw <= MAX_SIGNED_RECORD_BYTES /\ raw = blob sr.(sr_body) ++ blob sr.(sr_signature) /\
  size sr.(sr_signature) <= 8192 /\ sr.(sr_raw) = raw /\ sr.(sr_entry_hash) = sha256 raw /\
  well_formed sr.(sr_record) = true /\ in_u64 sr.(sr_record).(mr_sent_at) /\
  exists v, body_version v sr.(sr_record) /\ sr.(sr_body) = body_bytes v sr.(sr_record).
Proof.
  unfold parse_record. split.
  - intros Hd. pose proof (at_off_0 raw) as Hat. destruct (_ <? size raw) eqn:Hs; [done|]. bool_prop.
    repeat (open_decode Hd; bool_prop; subst).
    match goal with E : parse_body _ = _ |- _ => apply parse_body_inv in E as (? & ? & ?) end.
    repeat (read_inv_step; subst). read_end. rewrite app_nil_r in *. by split_and!.
  - intros (Hs & Hraw & Hsg & Hr & Hh & Hwf & Ht & v & Hv & Hb). destruct sr as [r raw' h body sg]. simpl in *. subst raw' h.
    rewrite (proj2 (Z.ltb_ge _ _) Hs).
    assert (size body <= MAX_SIGNED_RECORD_BYTES) as Hbs.
    { rewrite Hraw, size_app, !size_blob in Hs. pose proof (size_nonneg sg). lia. }
    assert (in_u32 (size body) /\ in_u32 (size sg)) as (? & ?).
    { split; (eapply size_is_u32; [eassumption|done]). }
    pose proof Hraw as Hat. apply at_off_0_app in Hat. rewrite <- app_assoc in Hat.
    repeat (read_fwd_step; try assumption; cbv beta iota zeta). decode_end.
    by rewrite Hb, parse_body_fwd.
Qed.
End signing.

(** An empty text message. *)
Definition ex_record : MessageRecord :=
  mkMessageRecord (replicate 16 Byte.x01) (replicate 16 Byte.x02) (sha256 (generate_sig_keypair [Byte.x03]).1)
    (replicate 32 Byte.x04) 99 RT_Text [Byte.x68; Byte.x69] [] [replicate 32 Byte.x05].

Lemma signed_record_roundtrip_witness :
  well_formed ex_record = true /\
  exists raw sr, sign_record [] ex_record (generate_sig_keypair [Byte.x03]).2 = Ret raw /\ parse_record raw = Some sr /\
    sr.(sr_record) = ex_record /\ sr.(sr_raw) = raw /\ sr.(sr_entry_hash) = sha256 raw /\
    verify_record sr (generate_sig_keypair [Byte.x03]).1 = true.
Proof.
  split; [reflexivity|].
  apply (signed_record_roundtrip [Byte.x03] [] ex_record); [reflexivity|]. split; vm_compute; congruence.
Defined.

(** ** Names of conversations and recipients *)

Lemma sort_leb_unique l k : l ≡ₚ k -> sort_by bytes_leb l = sort_by bytes_leb k.
Proof.
  intros Hp. apply (sorted_perm_unique (fun a b => bytes_leb a b = true)).
  - intros a b c. apply bytes_leb_trans.
  - intros a b. apply bytes_leb_antisym.
  - apply sort_by_sorted, bytes_leb_total.
  - apply sort_by_sorted, bytes_leb_total.
  - by rewrite !sort_by_perm.
Qed.

Lemma bytes_ltb_or a b : bytes_ltb a b = false -> bytes_ltb b a = false -> a = b.
Proof.
  unfold bytes_ltb. rewrite (bytes_compare_antisym a b). destruct (bytes_compare a b) eqn:E; simpl; try done.
  intros _ _. by apply bytes_compare_eq.
Qed.

Lemma bytes_ltb_asym a b : bytes_ltb a b = true -> bytes_ltb b a = false.
Proof. unfold bytes_ltb. rewrite (bytes_compare_antisym a b). by destruct (bytes_compare a b). Qed.

Lemma low_high_comm a b : low_high a b = low_high b a.
Proof.
  unfold low_high. destruct (bytes_ltb a b) eqn:E1, (bytes_ltb b a) eqn:E2; try done.
  - apply bytes_ltb_asym in E1. congruence.
  - by rewrite (bytes_ltb_or _ _ E1 E2).
Qed.

Lemma low_high_inj a b c d : low_high a b = low_high c d -> (a = c /\ b = d) \/ (a = d /\ b = c).
Proof. unfold low_high. repeat case_match; intros [=]; subst; auto. Qed.

Lemma conversation_input_comm a b : conversation_input a b = conversation_input b a.
Proof. unfold conversation_input. by rewrite low_high_comm. Qed.

Lemma conversation_input_inj a b c d :
  size a = HASH_BYTES -> size b = HASH_BYTES -> size c = HASH_BYTES -> size d = HASH_BYTES ->
  conversation_input a b = conversation_input c d -> (a = c /\ b = d) \/ (a = d /\ b = c).
Proof.
  intros Ha Hb Hc Hd E. apply low_high_inj. unfold conversation_input in E.
  assert (forall x : bytes, size x = HASH_BYTES -> in_u32 (size x)) as Hu by (intros x ->; done).
  destruct (low_high a b) as [lo hi] eqn:E1, (low_high c d) as [lo' hi'] eqn:E2.
  assert (in_u32 (size lo) /\ in_u32 (size hi) /\ in_u32 (size lo') /\ in_u32 (size hi')) as (? & ? & ? & ?).
  { unfold low_high in E1, E2. revert E1 E2. repeat case_match; intros [=] [=]; subst; auto. }
  rewrite !write_blob_eq, <- !app_assoc in E. do 2 apply app_inv_head in E. peel E. done.
Qed.

Lemma recipients_input_perm l k : l ≡ₚ k -> recipients_input l = recipients_input k.
Proof. intros Hp. unfold recipients_input. by rewrite (sort_leb_unique _ _ Hp). Qed.

Lemma sorted_fingerprints l :
  Forall (fun f => size f = HASH_BYTES) l -> size l < 2 ^ 32 ->
  Forall (fun f => in_u32 (size f)) (sort_by bytes_leb l) /\ in_u32 (size (sort_by bytes_leb l)).
Proof.
  intros Hx Hs. rewrite sort_by_perm. split; [eapply Forall_impl; [exact Hx|]; by intros ? ->|].
  unfold in_u32. pose proof (size_nonneg l). lia.
Qed.

Lemma recipients_input_inj l k :
  Forall (fun f => size f = HASH_BYTES) l -> Forall (fun f => size f = HASH_BYTES) k ->
  size l < 2 ^ 32 -> size k < 2 ^ 32 -> recipients_input l = recipients_input k -> l ≡ₚ k.
Proof.
  intros Hl Hk Hsl Hsk. unfold recipients_input.
  destruct (sorted_fingerprints l Hl Hsl) as [Hfl Hul], (sorted_fingerprints k Hk Hsk) as [Hfk Huk].
  rewrite !fold_write_blob, !write_u32_eq, !u32_small, <- !app_assoc by done.
  intros E. apply app_inv_head in E. apply be32_inj in E as [Hn E]; [|done..].
  rewrite (app_nil_tail (concat _)), (app_nil_tail (concat (map blob (sort_by bytes_leb k)))) in E.
  apply blobs_inj in E as [E _]; [|done..|unfold size in Hn; lia].
  by rewrite <- (sort_by_perm bytes_leb l), E, sort_by_perm.
Qed.

(** The names a chat is bound to. Both members of a one-to-one chat compute the
    same conversation ID, whoever asks, and what is hashed for it differs for any
    other pair; the recipients hash does not depend on the order in which the
    members are listed, and what is hashed differs for any other collection of
    members. So, the hash aside, a record can be moved neither to another chat nor
    to other people. *)
Theorem names_bind_members :
  (forall `{PrimitiveLaws} a b, conversation_id_for a b = conversation_id_for b a /\
     size (conversation_id_for a b) = ID_BYTES) /\
  (forall a b c d, size a = HASH_BYTES -> size b = HASH_BYTES -> size c = HASH_BYTES -> size d = HASH_BYTES ->
     conversation_input a b = conversation_input c d <-> (a = c /\ b = d) \/ (a = d /\ b = c)) /\
  (forall l k, Forall (fun f => size f = HASH_BYTES) l -> Forall (fun f => size f = HASH_BYTES) k ->
     size l < 2 ^ 32 -> size k < 2 ^ 32 -> recipients_input l = recipients_input k <-> l ≡ₚ k) /\
  (forall `{Primitives} l k, l ≡ₚ k -> recipients_hash_for l = recipients_hash_for k).
Proof.
  split_and!.
  - intros ? ? a b. unfold conversation_id_for. rewrite conversation_input_comm. split; [done|].
    apply size_ztake. unfold sha256. by rewrite sha256_size.
  - intros a b c d Ha Hb Hc Hd. split; [by apply conversation_input_inj|].
    intros [[-> ->]|[-> ->]]; [done|apply conversation_input_comm].
  - intros l k Hl Hk Hsl Hsk. split; [by apply recipients_input_inj|apply recipients_input_perm].
  - intros ? l k Hp. unfold recipients_hash_for. by rewrite (recipients_input_perm _ _ Hp).
Qed.
