(* ===== verification/RecordPayloads.v ===== *)
(** * Payloads of message records: client/message_record.h and message_record.cpp

    The contents of the control records: creating a group, forwarding through its
    creator, archive grants, checkpoints, attachments, deletion requests and
    acceptances, receipts. *)

From Stdlib Require Import ZArith Lia.
From stdpp Require Import base list strings.
From S2P Require Import Prelude Wire Protocol RelayProtocol RelayProtocolSpec Crypto Prekey Envelope Utf8Label MessageRecord.
#[local] Open Scope Z_scope.

(** src/client/message_record.cpp 16-16 CONVERSATION_PAYLOAD_VERSION *)
Definition CONVERSATION_PAYLOAD_VERSION : Z := 1.
(** src/client/message_record.h 188-188 MAX_ATTACHMENT_NAME_BYTES *)
Definition MAX_ATTACHMENT_NAME_BYTES : Z := 255.
(** src/client/message_record.h 189-189 MAX_ATTACHMENT_CAPTION_BYTES *)
Definition MAX_ATTACHMENT_CAPTION_BYTES : Z := 1024.
(** src/client/message_record.h 191-191 MAX_ATTACHMENT_FILE_BYTES *)
Definition MAX_ATTACHMENT_FILE_BYTES : Z := 15 * 1024 * 1024 * 1024.

(** ** Creating a group *)

(** [ConversationMode::Saved]; the field holds whatever number was read.
    src/client/message_record.h 101-101 ConversationMode *)
Definition MODE_SAVED : Z := 1.

(** src/client/message_record.h 103-110 ConversationInfo *)
Record ConversationInfo := mkConversationInfo {
  ci_title : bytes;
  ci_mode : Z;
  ci_timer_seconds : Z;
  ci_previous_id : bytes;
  ci_members : list bytes;
}.

(** src/client/message_record.cpp 88-99 valid_info *)
Definition valid_info (c : ConversationInfo) : bool :=
  if (MAX_TITLE_BYTES <? size c.(ci_title)) || negb (valid_label c.(ci_title)) then false else
  if negb (c.(ci_mode) =? MODE_SAVED) || negb (c.(ci_timer_seconds) =? 0) then false else
  if negb (is_empty c.(ci_previous_id)) && negb (size c.(ci_previous_id) =? ID_BYTES) then false else
  if (size c.(ci_members) <? 2) || (MAX_GROUP_MEMBERS <? size c.(ci_members)) then false else
  distinct_sized HASH_BYTES [] c.(ci_members).

(** src/client/message_record.cpp 217-228 conversation_payload *)
Definition conversation_payload (info : ConversationInfo) : exc bytes :=
  if negb (valid_info info) then Throw "The group's details are not valid" else
  let p := write_u32 [] CONVERSATION_PAYLOAD_VERSION in
  let p := write_blob p info.(ci_title) in
  let p := write_u32 p (u32 info.(ci_mode)) in
  let p := write_u64 p info.(ci_timer_seconds) in
  let p := write_blob p info.(ci_previous_id) in
  let p := write_u32 p (u32 (size info.(ci_members))) in
  Ret (foldl write_blob p info.(ci_members)).

(** src/client/message_record.cpp 230-254 parse_conversation_payload *)
Definition parse_conversation_payload (payload : bytes) : option ConversationInfo :=
  if MAX_CONVERSATION_PAYLOAD <? size payload then None else
  let '(version, off) := read_u32 payload 0 in
  let '(title, off) := read_blob payload off MAX_TITLE_BYTES in
  let '(mode, off) := read_u32 payload off in
  let '(timer, off) := read_u64 payload off in
  let '(previous, off) := read_blob payload off ID_BYTES in
  let '(count, off) := read_u32 payload off in
  let? version := version in
  if negb (version =? CONVERSATION_PAYLOAD_VERSION) then None else
  let? title := title in
  let? mode := mode in
  let? timer := timer in
  let? previous := previous in
  let? count := count in
  if (count <? 2) || (MAX_GROUP_MEMBERS <? count) then None else
  let '(members, off) := read_loop (read_capped HASH_BYTES) (Z.to_nat count) payload off [] in
  let? members := members in
  let info := mkConversationInfo title mode timer previous members in
  if negb (off =? size payload) || negb (valid_info info) then None else Some info.

(** src/client/message_record.cpp 256-265 conversation_from_record *)
Definition conversation_from_record `{Primitives} (sr : SignedRecord) : option ConversationInfo :=
  let r := sr.(sr_record) in
  if negb (bool_decide (r.(mr_type) = RT_Conversation)) then None else
  let? info := parse_conversation_payload r.(mr_payload) in
  if negb (bool_decide (r.(mr_sender) ∈ info.(ci_members))) then None else
  if negb (bool_decide (r.(mr_recipients_hash) = recipients_hash_for info.(ci_members))) then None else
  Some info.

(** ** Forwarding through a group's creator *)

(** src/client/message_record.h 133-136 ForwardInfo *)
Record ForwardInfo := mkForwardInfo { fi_target : bytes; fi_envelope : bytes }.

(** src/client/message_record.cpp 267-274 forward_payload *)
Definition forward_payload (target sealed_envelope : bytes) : exc bytes :=
  if negb (size target =? HASH_BYTES) || is_empty sealed_envelope
     || (MAX_FORWARD_ENVELOPE_BYTES <? size sealed_envelope)
  then Throw "The forwarded envelope is not valid" else
  Ret (write_blob (write_blob [] target) sealed_envelope).

(** src/client/message_record.cpp 276-283 parse_forward_payload *)
Definition parse_forward_payload (payload : bytes) : option ForwardInfo :=
  let '(target, off) := read_blob payload 0 HASH_BYTES in
  let '(envelope, off) := read_blob payload off MAX_FORWARD_ENVELOPE_BYTES in
  let? target := target in
  let? envelope := envelope in
  if negb (off =? size payload) then None else
  if negb (size target =? HASH_BYTES) || is_empty envelope then None else
  Some (mkForwardInfo target envelope).

(** ** Archive grants *)

(** src/client/message_record.h 153-158 ArchiveGrantInfo *)
Record ArchiveGrantInfo := mkArchiveGrantInfo {
  ag_relay_address : bytes;
  ag_relay_id : bytes;
  ag_archive_key : bytes;
  ag_join_token : bytes;
}.

(** src/client/message_record.cpp 286-290 visible_ascii *)
Definition visible_ascii (s : bytes) : bool :=
  forallb (fun c => negb ((Z_of_byte c <? 0x21) || (0x7E <? Z_of_byte c))) s.

(** src/client/message_record.cpp 293-303 archive_grant_payload *)
Definition archive_grant_payload (info : ArchiveGrantInfo) : exc bytes :=
  if is_empty info.(ag_relay_address) || (MAX_RELAY_ADDRESS_BYTES <? size info.(ag_relay_address))
     || negb (visible_ascii info.(ag_relay_address)) || negb (size info.(ag_relay_id) =? HASH_BYTES)
     || negb (size info.(ag_archive_key) =? 32) || negb (size info.(ag_join_token) =? 32)
  then Throw "The archive grant is not valid" else
  let p := write_blob [] info.(ag_relay_address) in
  let p := write_blob p info.(ag_relay_id) in
  let p := write_blob p info.(ag_archive_key) in
  Ret (write_blob p info.(ag_join_token)).

(** src/client/message_record.cpp 305-322 parse_archive_grant_payload *)
Definition parse_archive_grant_payload (payload : bytes) : option ArchiveGrantInfo :=
  if MAX_ARCHIVE_GRANT_PAYLOAD <? size payload then None else
  let '(address, off) := read_blob payload 0 MAX_RELAY_ADDRESS_BYTES in
  let '(relay_id, off) := read_blob payload off HASH_BYTES in
  let '(key, off) := read_blob payload off 32 in
  let '(token, off) := read_blob payload off 32 in
  let? address := address in
  let? relay_id := relay_id in
  let? key := key in
  let? token := token in
  if negb (off =? size payload) then None else
  if is_empty address || negb (visible_ascii address) || negb (size relay_id =? HASH_BYTES)
     || negb (size key =? 32) || negb (size token =? 32) then None else
  Some (mkArchiveGrantInfo address relay_id key token).

(** ** Attachments *)

(** src/client/message_record.h 193-202 AttachmentInfo *)
Record AttachmentInfo := mkAttachmentInfo {
  at_file_id : bytes;
  at_name : bytes;
  at_size : Z;
  at_sha256 : bytes;
  at_expires_at : Z;
  at_relay_address : bytes;
  at_relay_id : bytes;
  at_caption : bytes;
}.

(** src/client/message_record.cpp 324-333 valid_attachment *)
Definition valid_attachment (a : AttachmentInfo) : bool :=
  if negb (size a.(at_file_id) =? 16) || negb (size a.(at_sha256) =? HASH_BYTES)
     || negb (size a.(at_relay_id) =? HASH_BYTES) then false else
  if is_empty a.(at_name) || (MAX_ATTACHMENT_NAME_BYTES <? size a.(at_name)) || negb (valid_label a.(at_name))
  then false else
  if (MAX_ATTACHMENT_CAPTION_BYTES <? size a.(at_caption)) || negb (valid_label a.(at_caption)) then false else
  if MAX_ATTACHMENT_FILE_BYTES <? a.(at_size) then false else
  if is_empty a.(at_relay_address) || (MAX_RELAY_ADDRESS_BYTES <? size a.(at_relay_address)) then false else
  visible_ascii a.(at_relay_address).

(** src/client/message_record.cpp 335-347 attachment_payload *)
Definition attachment_payload (a : AttachmentInfo) : exc bytes :=
  if negb (valid_attachment a) then Throw "The attachment details are not valid" else
  let p := write_blob [] a.(at_file_id) in
  let p := write_blob p a.(at_name) in
  let p := write_u64 p a.(at_size) in
  let p := write_blob p a.(at_sha256) in
  let p := write_u64 p a.(at_expires_at) in
  let p := write_blob p a.(at_relay_address) in
  let p := write_blob p a.(at_relay_id) in
  Ret (write_blob p a.(at_caption)).

(** src/client/message_record.cpp 349-372 parse_attachment_payload *)
Definition parse_attachment_payload (payload : bytes) : option AttachmentInfo :=
  if MAX_ATTACHMENT_PAYLOAD <? size payload then None else
  let '(id, off) := read_blob payload 0 16 in
  let '(name, off) := read_blob payload off MAX_ATTACHMENT_NAME_BYTES in
  let '(sz, off) := read_u64 payload off in
  let '(hash, off) := read_blob payload off HASH_BYTES in
  let '(expires, off) := read_u64 payload off in
  let '(address, off) := read_blob payload off MAX_RELAY_ADDRESS_BYTES in
  let '(relay_id, off) := read_blob payload off HASH_BYTES in
  let '(caption, off) := read_blob payload off MAX_ATTACHMENT_CAPTION_BYTES in
  let? id := id in
  let? name := name in
  let? sz := sz in
  let? hash := hash in
  let? expires := expires in
  let? address := address in
  let? relay_id := relay_id in
  let? caption := caption in
  if negb (off =? size payload) then None else
  let a := mkAttachmentInfo id name sz hash expires address relay_id caption in
  if negb (valid_attachment a) then None else Some a.

(** ** Deleting by agreement *)

(** src/client/message_record.h 220-225 DeleteRequestInfo *)
Record DeleteRequestInfo := mkDeleteRequestInfo {
  dr_scope : Z;
  dr_op_id : bytes;
  dr_expires_at : Z;
  dr_entries : list bytes;
}.

(** [for (const auto& h : info.entries)] with its check.
    src/client/message_record.cpp 383-386 delete_request_payload *)
Fixpoint write_entries (p : bytes) (entries : list bytes) : exc bytes :=
  match entries with
  | [] => Ret p
  | h :: entries =>
      if negb (size h =? HASH_BYTES) then Throw "The deletion request is not valid" else
      write_entries (write_blob p h) entries
  end.

(** src/client/message_record.cpp 374-388 delete_request_payload *)
Definition delete_request_payload (info : DeleteRequestInfo) : exc bytes :=
  let chat := info.(dr_scope) =? 1 in
  if (negb (info.(dr_scope) =? 1) && negb (info.(dr_scope) =? 2)) || negb (size info.(dr_op_id) =? 16)
     || (if chat then negb (no_items info.(dr_entries))
         else no_items info.(dr_entries) || (64 <? size info.(dr_entries)))
  then Throw "The deletion request is not valid" else
  let p := write_u32 [] info.(dr_scope) in
  let p := write_blob p info.(dr_op_id) in
  let p := write_u64 p info.(dr_expires_at) in
  let p := write_u32 p (u32 (size info.(dr_entries))) in
  write_entries p info.(dr_entries).

(** src/client/message_record.cpp 390-411 parse_delete_request_payload *)
Definition parse_delete_request_payload (payload : bytes) : option DeleteRequestInfo :=
  if MAX_DELETE_REQUEST_PAYLOAD <? size payload then None else
  let '(scope, off) := read_u32 payload 0 in
  let '(op, off) := read_blob payload off 16 in
  let '(expires, off) := read_u64 payload off in
  let '(n, off) := read_u32 payload off in
  let? scope := scope in
  let? op := op in
  if negb (size op =? 16) then None else
  let? expires := expires in
  let? n := n in
  if negb (scope =? 1) && negb (scope =? 2) then None else
  if (if scope =? 1 then negb (n =? 0) else (n <? 1) || (64 <? n)) then None else
  let '(entries, off) := read_loop read_distinct_hash (Z.to_nat n) payload off [] in
  let? entries := entries in
  if negb (off =? size payload) then None else
  Some (mkDeleteRequestInfo scope op expires entries).

(** src/client/message_record.h 229-233 DeleteAcceptInfo *)
Record DeleteAcceptInfo := mkDeleteAcceptInfo { da_op_id : bytes; da_key_hash : bytes; da_signature : bytes }.

(** src/client/message_record.cpp 413-421 delete_accept_payload *)
Definition delete_accept_payload (info : DeleteAcceptInfo) : exc bytes :=
  if negb (size info.(da_op_id) =? 16) || negb (size info.(da_key_hash) =? HASH_BYTES)
     || is_empty info.(da_signature) || (8192 <? size info.(da_signature))
  then Throw "The deletion acceptance is not valid" else
  let p := write_blob [] info.(da_op_id) in
  let p := write_blob p info.(da_key_hash) in
  Ret (write_blob p info.(da_signature)).

(** src/client/message_record.cpp 423-431 parse_delete_accept_payload *)
Definition parse_delete_accept_payload (payload : bytes) : option DeleteAcceptInfo :=
  if MAX_DELETE_ACCEPT_PAYLOAD <? size payload then None else
  let '(op, off) := read_blob payload 0 16 in
  let '(kh, off) := read_blob payload off HASH_BYTES in
  let '(sig, off) := read_blob payload off 8192 in
  let? op := op in
  if negb (size op =? 16) then None else
  let? kh := kh in
  if negb (size kh =? HASH_BYTES) then None else
  let? sig := sig in
  if is_empty sig || negb (off =? size payload) then None else
  Some (mkDeleteAcceptInfo op kh sig).

(** ** Checkpoints *)

(** src/client/message_record.h 171-174 CheckpointInfo *)
Record CheckpointInfo := mkCheckpointInfo { cp_number : Z; cp_hash : bytes }.

(** src/client/message_record.cpp 433-439 checkpoint_payload *)
Definition checkpoint_payload (number : Z) (hash : bytes) : exc bytes :=
  if (number =? 0) || negb (size hash =? HASH_BYTES) then Throw "The checkpoint is not valid" else
  Ret (write_blob (write_u64 [] number) hash).

(** src/client/message_record.cpp 441-447 parse_checkpoint_payload *)
Definition parse_checkpoint_payload (payload : bytes) : option CheckpointInfo :=
  let '(number, off) := read_u64 payload 0 in
  let '(hash, off) := read_blob payload off HASH_BYTES in
  let? number := number in
  let? hash := hash in
  if (number =? 0) || negb (size hash =? HASH_BYTES) || negb (off =? size payload) then None else
  Some (mkCheckpointInfo number hash).

(** ** Receipts *)

(** src/client/message_record.h 50-50 ReceiptKind *)
Inductive ReceiptKind := Delivered | ReadReceipt.

(** [static_cast<uint8_t>(kind)]. *)
Definition receipt_code (k : ReceiptKind) : Z := match k with Delivered => 1 | ReadReceipt => 2 end.

(** src/client/message_record.h 239-242 ReceiptInfo *)
Record ReceiptInfo := mkReceiptInfo { ri_kind : ReceiptKind; ri_message_ids : list bytes }.

(** src/client/message_record.cpp 449-456 receipt_payload *)
Definition receipt_payload (kind : ReceiptKind) (message_ids : list bytes) : exc bytes :=
  if MAX_RECEIPT_IDS <? size message_ids then Throw "Too many messages in one receipt" else
  let p := [byte_of_Z (receipt_code kind)] in
  let p := write_u32 p (u32 (size message_ids)) in
  Ret (foldl write_blob p message_ids).

(** src/client/message_record.cpp 458-474 parse_receipt_payload *)
Definition parse_receipt_payload (payload : bytes) : option ReceiptInfo :=
  if is_empty payload then None else
  let first := byte_at payload 0 in
  if negb (first =? 1) && negb (first =? 2) then None else
  let kind := if first =? 1 then Delivered else ReadReceipt in
  let off := 1 in
  let '(count, off) := read_u32 payload off in
  let? count := count in
  if MAX_RECEIPT_IDS <? count then None else
  let '(ids, off) := read_loop (read_fixed ID_BYTES) (Z.to_nat count) payload off [] in
  let? ids := ids in
  if negb (off =? size payload) then None else
  Some (mkReceiptInfo kind ids).

(** ** The formats are exact *)

(** A decoder that accepts exactly what an encoder that can throw makes. The
    encoder is [if guard then Throw _ else Ret bytes]. *)
Ltac payload_inv payload :=
  let Hd := fresh "Hd" in
  intros Hd; pose proof (at_off_0 payload) as Hat;
  repeat (open_decode Hd; bool_prop; subst); repeat (relay_inv_step; subst); read_end; counts_inv; simpl.

(** Run a parser on a buffer given as a concatenation of pieces. *)
Ltac payload_fwd :=
  cbv beta iota zeta;
  repeat (relay_fwd_step; try assumption; try (by auto with wire); cbv beta iota zeta); try decode_end.

(** Sizes in the form the readers ask for. *)
Ltac fits :=
  repeat match goal with
  | Hs : size ?b = ?n |- _ =>
      lazymatch goal with _ : in_u32 (size b) |- _ => fail
      | _ => destruct (fixed_fits b n Hs ltac:(done)) as [? ?] end
  | Hs : size ?b <= ?n |- _ =>
      lazymatch goal with _ : in_u32 (size b) |- _ => fail
      | _ => assert (in_u32 (size b)) by (eapply size_is_u32; [exact Hs|done]) end
  end.

Lemma forward_payload_spec p f :
  parse_forward_payload p = Some f <-> forward_payload f.(fi_target) f.(fi_envelope) = Ret p.
Proof.
  unfold parse_forward_payload, forward_payload. split.
  - payload_inv p. run_tests. encode_norm. by rewrite app_nil_r.
  - destruct (_ || _) eqn:E; [done|]. bool_prop. intros [= Hd]. symmetry in Hd. destruct f; simpl in *. fits.
    encode_at Hd. payload_fwd. by run_tests.
Qed.

Lemma archive_grant_payload_spec p g :
  parse_archive_grant_payload p = Some g <-> archive_grant_payload g = Ret p.
Proof.
  unfold parse_archive_grant_payload, archive_grant_payload. split.
  - payload_inv p. run_tests. encode_norm. by rewrite app_nil_r.
  - destruct (_ || _) eqn:E; [done|]. bool_prop. intros [= Hd]. symmetry in Hd. destruct g; simpl in *. fits.
    assert (size p <= MAX_ARCHIVE_GRANT_PAYLOAD) as Hp.
    { rewrite Hd. encode_norm. rewrite !size_app, !size_blob.
      unfold MAX_ARCHIVE_GRANT_PAYLOAD, MAX_RELAY_ADDRESS_BYTES, HASH_BYTES in *. lia. }
    rewrite (proj2 (Z.ltb_ge _ _) Hp). encode_at Hd. payload_fwd. by run_tests.
Qed.

Lemma delete_accept_payload_spec p d :
  parse_delete_accept_payload p = Some d <-> delete_accept_payload d = Ret p.
Proof.
  unfold parse_delete_accept_payload, delete_accept_payload. split.
  - payload_inv p. run_tests. encode_norm. by rewrite app_nil_r.
  - destruct (_ || _) eqn:E; [done|]. bool_prop. intros [= Hd]. symmetry in Hd. destruct d; simpl in *. fits.
    assert (size p <= MAX_DELETE_ACCEPT_PAYLOAD) as Hp.
    { rewrite Hd. encode_norm. rewrite !size_app, !size_blob.
      unfold MAX_DELETE_ACCEPT_PAYLOAD, HASH_BYTES in *. lia. }
    rewrite (proj2 (Z.ltb_ge _ _) Hp). encode_at Hd. payload_fwd. by run_tests.
Qed.

Lemma checkpoint_payload_spec p c :
  parse_checkpoint_payload p = Some c <-> checkpoint_payload c.(cp_number) c.(cp_hash) = Ret p /\ in_u64 c.(cp_number).
Proof.
  unfold parse_checkpoint_payload, checkpoint_payload. split.
  - payload_inv p. run_tests. encode_norm. by rewrite app_nil_r.
  - destruct (_ || _) eqn:E; [by intros [? _]|]. bool_prop. intros [[= Hd] ?]. symmetry in Hd. destruct c; simpl in *. fits.
    encode_at Hd. payload_fwd. by run_tests.
Qed.

Lemma valid_attachment_sizes a :
  valid_attachment a = true ->
  size a.(at_file_id) = 16 /\ size a.(at_name) <= MAX_ATTACHMENT_NAME_BYTES /\ size a.(at_sha256) = HASH_BYTES /\
  size a.(at_relay_address) <= MAX_RELAY_ADDRESS_BYTES /\ size a.(at_relay_id) = HASH_BYTES /\
  size a.(at_caption) <= MAX_ATTACHMENT_CAPTION_BYTES.
Proof.
  unfold valid_attachment. rewrite !guard_true, !orb_false_iff, !negb_false_iff, !Z.eqb_eq, !Z.ltb_ge. tauto.
Qed.

Lemma attachment_payload_spec p a :
  parse_attachment_payload p = Some a <->
  attachment_payload a = Ret p /\ in_u64 a.(at_size) /\ in_u64 a.(at_expires_at).
Proof.
  unfold parse_attachment_payload, attachment_payload. split.
  - payload_inv p. match goal with E : valid_attachment _ = true |- _ => rewrite E end. simpl.
    split; [|done]. encode_norm. by rewrite app_nil_r.
  - destruct (valid_attachment a) eqn:E; [|by intros [? _]]. simpl. intros ([= Hd] & ? & ?). symmetry in Hd.
    pose proof (valid_attachment_sizes a E) as (? & ? & ? & ? & ? & ?). fits.
    assert (size p <= MAX_ATTACHMENT_PAYLOAD) as Hp.
    { rewrite Hd. encode_norm. rewrite !size_app, !size_blob, !size_be64.
      unfold MAX_ATTACHMENT_PAYLOAD, MAX_RELAY_ADDRESS_BYTES, MAX_ATTACHMENT_NAME_BYTES, MAX_ATTACHMENT_CAPTION_BYTES,
        HASH_BYTES in *. lia. }
    rewrite (proj2 (Z.ltb_ge _ _) Hp). encode_at Hd. payload_fwd. destruct a; simpl in *. by rewrite E.
Qed.

Lemma valid_info_spec c :
  valid_info c = true <->
  size c.(ci_title) <= MAX_TITLE_BYTES /\ valid_label c.(ci_title) = true /\
  c.(ci_mode) = MODE_SAVED /\ c.(ci_timer_seconds) = 0 /\
  (c.(ci_previous_id) = [] \/ size c.(ci_previous_id) = ID_BYTES) /\
  2 <= size c.(ci_members) <= MAX_GROUP_MEMBERS /\ distinct_hashes c.(ci_members).
Proof.
  unfold valid_info, distinct_hashes. rewrite <- distinct_sized_nil, <- empty_or_size.
  rewrite !guard_true, !orb_false_iff, !negb_false_iff, !Z.eqb_eq, !Z.ltb_ge. tauto.
Qed.

Lemma hashes_size l : Forall (fun h => size h = HASH_BYTES) l -> size (concat (map blob l)) = 36 * size l.
Proof.
  induction 1 as [|h l Hh _ IH]; simpl; [done|]. rewrite size_app, size_blob, size_cons, IH, Hh. unfold HASH_BYTES. lia.
Qed.

Lemma conversation_payload_spec p c :
  parse_conversation_payload p = Some c <-> conversation_payload c = Ret p.
Proof.
  unfold parse_conversation_payload, conversation_payload. split.
  - payload_inv p. match goal with E : valid_info _ = true |- _ => rewrite E end. simpl.
    rewrite !(u32_small _) by assumption. rewrite fold_write_blob. encode_norm. by rewrite app_nil_r.
  - destruct (valid_info c) eqn:E; [|done]. simpl. intros [= Hd]. symmetry in Hd.
    pose proof (proj1 (valid_info_spec c) E) as (Ht & _ & Hm & Hz & Hp & [Hl1 Hl2] & Hf & _).
    destruct (empty_or_fits _ _ Hp) as [? ?]; [done|]. fits. rewrite fold_write_blob in Hd.
    assert (size p <= MAX_CONVERSATION_PAYLOAD) as Hsz.
    { rewrite Hd. encode_norm. rewrite !size_app, !size_blob, !size_be64, !size_be32, hashes_size by done.
      unfold MAX_CONVERSATION_PAYLOAD, MAX_TITLE_BYTES, ID_BYTES, MAX_GROUP_MEMBERS in *. lia. }
    rewrite (proj2 (Z.ltb_ge _ _) Hsz). encode_at Hd.
    assert (in_u32 (ci_mode c) /\ in_u32 CONVERSATION_PAYLOAD_VERSION /\ in_u64 (ci_timer_seconds c)) as (? & ? & ?).
    { rewrite Hm, Hz. done. }
    rewrite !(u32_small _) in Hd by assumption.
    assert (Forall (fun h => size h <= HASH_BYTES) (ci_members c)) by (eapply Forall_impl; [exact Hf|]; by intros ? ->).
    payload_fwd. run_tests. simpl. payload_fwd. by destruct c.
Qed.

Lemma write_entries_spec p l q :
  write_entries p l = Ret q <-> Forall (fun h => size h = HASH_BYTES) l /\ q = p ++ concat (map blob l).
Proof.
  revert p. induction l as [|h l IH]; intros p; simpl.
  - rewrite app_nil_r. split; [by intros [= <-]|by intros [_ ->]].
  - destruct (size h =? HASH_BYTES) eqn:E; bool_prop; simpl.
    + rewrite IH, write_blob_eq, <- app_assoc, Forall_cons. tauto.
    + split; [done|]. by intros [[? _]%Forall_cons _].
Qed.

Lemma no_items_spec {A} (l : list A) : no_items l = true <-> size l = 0.
Proof. destruct l; unfold size; simpl; split; done || lia. Qed.
Lemma no_items_false {A} (l : list A) : no_items l = false <-> 1 <= size l.
Proof. destruct l; unfold size; simpl; split; done || lia. Qed.

(** The scope decides how many entries a request names. *)
Definition request_count_ok (scope n : Z) : Prop := (scope = 1 /\ n = 0) \/ (scope = 2 /\ 1 <= n <= 64).

Lemma delete_request_payload_ret p d :
  delete_request_payload d = Ret p <->
  request_count_ok d.(dr_scope) (size d.(dr_entries)) /\ size d.(dr_op_id) = 16 /\
  Forall (fun h => size h = HASH_BYTES) d.(dr_entries) /\
  p = be32 d.(dr_scope) ++ blob d.(dr_op_id) ++ be64 d.(dr_expires_at) ++ be32 (size d.(dr_entries))
      ++ concat (map blob d.(dr_entries)).
Proof.
  unfold delete_request_payload, request_count_ok. set (n := size (dr_entries d)).
  destruct (_ || _ || _) eqn:E.
  - split; [done|]. intros (Hc & Ho & _). exfalso. revert E.
    rewrite !orb_true_iff, andb_true_iff, !negb_true_iff, !Z.eqb_neq.
    destruct Hc as [[-> Hn]|[-> Hn]]; simpl.
    + rewrite negb_true_iff, no_items_false. fold n. lia.
    + rewrite orb_true_iff, no_items_spec, Z.ltb_lt. fold n. lia.
  - rewrite write_entries_spec. encode_norm. bool_prop.
    assert ((dr_scope d = 1 /\ n = 0) \/ (dr_scope d = 2 /\ 1 <= n <= 64)) as Hc.
    { match goal with E1 : _ && _ = false |- _ => rewrite andb_false_iff, !negb_false_iff, !Z.eqb_eq in E1; destruct E1 as [Es|Es] end;
        rewrite Es in *; simpl in *; bool_prop.
      - left. split; [done|]. by apply no_items_spec.
      - right. split; [done|]. split; [by apply no_items_false|done]. }
    rewrite (u32_small n) by (unfold in_u32; lia). tauto.
Qed.

Lemma delete_request_payload_spec p d :
  parse_delete_request_payload p = Some d <->
  delete_request_payload d = Ret p /\ in_u64 d.(dr_expires_at) /\ NoDup d.(dr_entries).
Proof.
  rewrite delete_request_payload_ret. unfold parse_delete_request_payload, request_count_ok. split.
  - payload_inv p. match goal with Hh : distinct_hashes _ |- _ => destruct Hh as [? ?] end.
    split; [|done]. split_and!; [|done|done|by rewrite app_nil_r].
    destruct (z3 =? 1) eqn:E1; bool_prop; [by left|right]. simpl in *. bool_prop. lia.
  - intros ((Hc & Ho & Hf & Hd) & Ht & Hn). set (n := size (dr_entries d)) in *.
    assert (in_u32 n /\ in_u32 (dr_scope d) /\ n <= 64) as (? & ? & ?) by (unfold in_u32; lia). fits.
    assert (size p <= MAX_DELETE_REQUEST_PAYLOAD) as Hsz.
    { rewrite Hd, !size_app, !size_blob, !size_be64, !size_be32, hashes_size by done. fold n.
      unfold MAX_DELETE_REQUEST_PAYLOAD. lia. }
    rewrite (proj2 (Z.ltb_ge _ _) Hsz). apply at_off_0_app in Hd. rewrite <- !app_assoc in Hd.
    assert (distinct_hashes (dr_entries d)) by done.
    payload_fwd. rewrite (proj2 (Z.eqb_eq _ _) Ho). cbn [negb].
    destruct Hc as [[Es En]|[Es En]]; rewrite Es in *; cbn [negb andb Z.eqb Pos.eqb].
    + rewrite (proj2 (Z.eqb_eq _ _) En). cbn [negb]. payload_fwd. destruct d; simpl in *. by subst.
    + rewrite (proj2 (Z.ltb_ge n 1)), (proj2 (Z.ltb_ge 64 n)) by lia. cbn [orb]. payload_fwd. destruct d; simpl in *. by subst.
Qed.

Lemma receipt_payload_spec p r :
  parse_receipt_payload p = Some r <->
  receipt_payload r.(ri_kind) r.(ri_message_ids) = Ret p /\ Forall (fun i => size i = ID_BYTES) r.(ri_message_ids).
Proof.
  unfold parse_receipt_payload, receipt_payload. split.
  - intros Hd. pose proof (at_off_0 p) as Hat. destruct p as [|b p]; [done|]. cbn [is_empty] in Hd.
    rewrite (byte_at_cons _ _ _ _ Hat) in Hd. apply (at_off_app _ _ [b]) in Hat. change (0 + size [b]) with 1 in Hat.
    repeat (open_decode Hd; bool_prop; subst). repeat (relay_inv_step; subst). read_end. counts_inv. simpl.
    split; [|done]. run_tests. rewrite u32_small by assumption. rewrite fold_write_blob. encode_norm. rewrite app_nil_r.
    do 2 f_equal. rewrite <- (byte_of_Z_of_byte b) at 2. f_equal.
    rewrite andb_false_iff, !negb_false_iff, !Z.eqb_eq in Heqb0. by destruct Heqb0 as [->| ->].
  - destruct (_ <? _) eqn:E; [by intros [? _]|]. bool_prop. intros [[= Hd] Hf]. symmetry in Hd. destruct r as [k l]. simpl in *.
    fits. rewrite fold_write_blob, write_u32_eq, u32_small, <- app_assoc in Hd by done.
    apply at_off_0_app in Hd. rewrite <- !app_assoc in Hd. cbn [app] in Hd.
    assert (is_empty p = false) as -> by (destruct Hd as (_ & _ & Hz); rewrite zdrop_0 in Hz; by rewrite Hz).
    rewrite (byte_at_cons _ _ _ _ Hd). apply (at_off_app _ _ [_]) in Hd. change (0 + size [_]) with 1 in Hd.
    destruct k; cbn [receipt_code].
    + change (Z_of_byte (byte_of_Z 1)) with 1. cbn [Z.eqb Pos.eqb negb andb]. payload_fwd. run_tests. payload_fwd. done.
    + change (Z_of_byte (byte_of_Z 2)) with 2. cbn [Z.eqb Pos.eqb negb andb]. payload_fwd. run_tests. payload_fwd. done.
Qed.

(** The contents of control records. Every parser accepts exactly the bytes the
    matching writer makes (so what is written is read back, and a payload has one
    meaning), for numbers that fit their width; a deletion request must also name
    distinct entries and a receipt 16-byte message IDs, which their writers do not
    check. *)
Theorem payload_formats_exact p :
  (forall c, parse_conversation_payload p = Some c <-> conversation_payload c = Ret p) /\
  (forall f, parse_forward_payload p = Some f <-> forward_payload f.(fi_target) f.(fi_envelope) = Ret p) /\
  (forall g, parse_archive_grant_payload p = Some g <-> archive_grant_payload g = Ret p) /\
  (forall a, parse_attachment_payload p = Some a <->
     attachment_payload a = Ret p /\ in_u64 a.(at_size) /\ in_u64 a.(at_expires_at)) /\
  (forall d, parse_delete_request_payload p = Some d <->
     delete_request_payload d = Ret p /\ in_u64 d.(dr_expires_at) /\ NoDup d.(dr_entries)) /\
  (forall d, parse_delete_accept_payload p = Some d <-> delete_accept_payload d = Ret p) /\
  (forall c, parse_checkpoint_payload p = Some c <->
     checkpoint_payload c.(cp_number) c.(cp_hash) = Ret p /\ in_u64 c.(cp_number)) /\
  (forall r, parse_receipt_payload p = Some r <->
     receipt_payload r.(ri_kind) r.(ri_message_ids) = Ret p /\
     Forall (fun i => size i = ID_BYTES) r.(ri_message_ids)).
Proof.
  split_and!; intros.
  - apply conversation_payload_spec.
  - apply forward_payload_spec.
  - apply archive_grant_payload_spec.
  - apply attachment_payload_spec.
  - apply delete_request_payload_spec.
  - apply delete_accept_payload_spec.
  - apply checkpoint_payload_spec.
  - apply receipt_payload_spec.
Qed.

(** A group's creation record is accepted only for a valid description whose members
    include the sender and are exactly the people the record is bound to. *)
Lemma conversation_from_record_spec `{Primitives} sr info :
  conversation_from_record sr = Some info <->
  sr.(sr_record).(mr_type) = RT_Conversation /\ conversation_payload info = Ret sr.(sr_record).(mr_payload) /\
  sr.(sr_record).(mr_sender) ∈ info.(ci_members) /\
  sr.(sr_record).(mr_recipients_hash) = recipients_hash_for info.(ci_members).
Proof.
  unfold conversation_from_record. rewrite <- conversation_payload_spec.
  repeat case_bool_decide; simpl; [|split; [done|naive_solver]].
  destruct (parse_conversation_payload _) as [i|]; [|split; [done|naive_solver]].
  repeat case_bool_decide; simpl; naive_solver.
Qed.

