(* ===== verification/IdentityBundle.v ===== *)
(** * Identity bundles: client/identity_bundle.h and identity_bundle.cpp

    The public half of an identity, signed by its own signing key: how one is
    made, and how one is read and checked. [parse_identity_bundle] returns the
    bundle or the reason it puts into [*error]. *)

From Stdlib Require Import ZArith Lia.
From stdpp Require Import base list strings.
From S2P Require Import Prelude Wire Protocol RelayProtocol RelayProtocolSpec Crypto Prekey Envelope MessageRecord.
#[local] Open Scope Z_scope.

(** src/client/identity_bundle.h 30-30 FIELD_SIGNING_KEY *)
Definition FIELD_SIGNING_KEY : Z := 1.
(** src/client/identity_bundle.h 31-31 FIELD_ENCRYPTION_KEY *)
Definition FIELD_ENCRYPTION_KEY : Z := 2.
(** src/client/identity_bundle.h 32-32 FIELD_DISPLAY_NAME *)
Definition FIELD_DISPLAY_NAME : Z := 3.
(** src/client/identity_bundle.h 33-33 FIELD_RELAY_ID *)
Definition FIELD_RELAY_ID : Z := 5.
(** src/client/identity_bundle.h 34-34 FIELD_MAILBOX_ID *)
Definition FIELD_MAILBOX_ID : Z := 6.
(** src/client/identity_bundle.h 35-35 FIELD_RELAY_HINT *)
Definition FIELD_RELAY_HINT : Z := 16.
(** src/client/identity_bundle.h 37-37 MAX_DISPLAY_NAME_BYTES *)
Definition MAX_DISPLAY_NAME_BYTES : Z := 64.
(** src/client/identity_bundle.h 38-38 MAX_RELAY_HINT_BYTES *)
Definition MAX_RELAY_HINT_BYTES : Z := 255.
(** src/client/identity_bundle.cpp 11-11 BUNDLE_MAGIC *)
Definition BUNDLE_MAGIC : Z := 0x50514942.
(** src/client/identity_bundle.cpp 12-12 BUNDLE_VERSION *)
Definition BUNDLE_VERSION : Z := 1.
(** src/client/identity_bundle.cpp 13-13 SIGNATURE_LABEL *)
Definition BUNDLE_SIGNATURE_LABEL : bytes := str "pq-suite v3 identity bundle".
(** src/client/identity_bundle.cpp 14-14 MAX_BODY_BYTES *)
Definition MAX_BODY_BYTES : Z := 16 * 1024.
(** src/client/identity_bundle.cpp 15-15 MAX_FIELDS *)
Definition MAX_FIELDS : Z := 32.

(** src/client/identity_bundle.h 28-54 IdentityBundle *)
Record IdentityBundle := mkIdentityBundle {
  ib_issued_at : Z;
  ib_signing_key : bytes;
  ib_encryption_key : bytes;
  ib_display_name : bytes;
  ib_relay_hint : bytes;
  ib_relay_id : bytes;
  ib_mailbox_id : bytes;
  ib_raw : bytes;
}.

(** src/client/identity_bundle.h 50-50 has_mailbox *)
Definition has_mailbox (b : IdentityBundle) : bool :=
  negb (is_empty b.(ib_relay_hint)) && negb (is_empty b.(ib_relay_id)) && negb (is_empty b.(ib_mailbox_id)).

(** src/client/identity_bundle.h 57-61 BundleAddress *)
Record BundleAddress := mkBundleAddress { ba_relay_hint : bytes; ba_relay_id : bytes; ba_mailbox_id : bytes }.

(** src/client/identity_bundle.cpp 17-22 signing_input *)
Definition bundle_signing_input (body : bytes) : bytes :=
  let inp := write_string [] BUNDLE_SIGNATURE_LABEL in
  write_bytes inp body.

(** src/client/identity_bundle.cpp 24-27 write_field *)
Definition write_field (body : bytes) (type : Z) (value : bytes) : bytes :=
  let body := write_u32 body type in
  write_blob body value.

(** src/client/identity_bundle.cpp 50-50 create_identity_bundle *)
Definition any_mailbox (a : BundleAddress) : bool := negb (is_empty a.(ba_relay_id)) || negb (is_empty a.(ba_mailbox_id)).

(** src/client/identity_bundle.cpp 54-67 create_identity_bundle *)
Definition bundle_body (signing_public encryption_public display_name : bytes) (address : BundleAddress)
    (issued_at : Z) : bytes :=
  let count := 2 + (if is_empty display_name then 0 else 1) + (if is_empty address.(ba_relay_hint) then 0 else 1)
               + (if any_mailbox address then 2 else 0) in
  let body := write_u32 [] BUNDLE_MAGIC in
  let body := write_u32 body BUNDLE_VERSION in
  let body := write_u64 body issued_at in
  let body := write_u32 body count in
  let body := write_field body FIELD_SIGNING_KEY signing_public in
  let body := write_field body FIELD_ENCRYPTION_KEY encryption_public in
  let body := if negb (is_empty display_name) then write_field body FIELD_DISPLAY_NAME display_name else body in
  let body :=
    if any_mailbox address then
      let body := write_field body FIELD_RELAY_ID address.(ba_relay_id) in
      write_field body FIELD_MAILBOX_ID address.(ba_mailbox_id)
    else body in
  if negb (is_empty address.(ba_relay_hint)) then write_field body FIELD_RELAY_HINT address.(ba_relay_hint) else body.

(** What has been read so far, and which known fields were seen.
    src/client/identity_bundle.cpp 108-111 parse_identity_bundle *)
Record FieldState := mkFieldState {
  fs_bundle : IdentityBundle;
  have_signing : bool;
  have_encryption : bool;
  have_name : bool;
  have_hint : bool;
  have_relay_id : bool;
  have_mailbox : bool;
}.

Definition malformed {A} : exc A := Throw "The identity bundle is malformed".

(** The [switch] on a field's type.
    src/client/identity_bundle.cpp 119-154 parse_identity_bundle *)
Definition apply_field (st : FieldState) (type : Z) (value : bytes) : exc FieldState :=
  let '(mkFieldState (mkIdentityBundle t sk ek dn rh ri mb raw) hs he hn hh hr hm) := st in
  if type =? FIELD_SIGNING_KEY then
    if hs then malformed else Ret (mkFieldState (mkIdentityBundle t value ek dn rh ri mb raw) true he hn hh hr hm)
  else if type =? FIELD_ENCRYPTION_KEY then
    if he then malformed else Ret (mkFieldState (mkIdentityBundle t sk value dn rh ri mb raw) hs true hn hh hr hm)
  else if type =? FIELD_DISPLAY_NAME then
    if hn || (MAX_DISPLAY_NAME_BYTES <? size value) then malformed
    else Ret (mkFieldState (mkIdentityBundle t sk ek value rh ri mb raw) hs he true hh hr hm)
  else if type =? FIELD_RELAY_HINT then
    if hh || (MAX_RELAY_HINT_BYTES <? size value) then malformed
    else Ret (mkFieldState (mkIdentityBundle t sk ek dn value ri mb raw) hs he hn true hr hm)
  else if type =? FIELD_RELAY_ID then
    if hr || negb (size value =? 32) then malformed
    else Ret (mkFieldState (mkIdentityBundle t sk ek dn rh value mb raw) hs he hn hh true hm)
  else if type =? FIELD_MAILBOX_ID then
    if hm || negb (size value =? 16) then malformed
    else Ret (mkFieldState (mkIdentityBundle t sk ek dn rh ri value raw) hs he hn hh hr true)
  else Ret st.

(** The loop over the fields, at offset [b].
    src/client/identity_bundle.cpp 113-155 parse_identity_bundle *)
Fixpoint read_fields (n : nat) (body : bytes) (b : Z) (st : FieldState) : exc (FieldState * Z) :=
  match n with
  | O => Ret (st, b)
  | S n =>
      let '(type, b) := read_u32 body b in
      match type with
      | None => malformed
      | Some type =>
          let '(value, b) := read_blob body b MAX_BODY_BYTES in
          match value with
          | None => malformed
          | Some value => let! st := apply_field st type value in read_fields n body b st
          end
      end
  end.

Section bundle.
Context `{P : Primitives}.

(** src/client/identity_bundle.cpp 37-75 create_identity_bundle *)
Definition create_identity_bundle (rand signing_public encryption_public display_name : bytes)
    (address : BundleAddress) (issued_at : Z) (signing_private : bytes) : exc bytes :=
  if negb (size signing_public =? sig_public_key_size) || negb (size encryption_public =? kem_public_key_size)
  then Throw "The identity keys have the wrong size" else
  if MAX_DISPLAY_NAME_BYTES <? size display_name then Throw "The display name is too long" else
  if MAX_RELAY_HINT_BYTES <? size address.(ba_relay_hint) then Throw "The relay address is too long" else
  if any_mailbox address
     && (is_empty address.(ba_relay_hint) || negb (size address.(ba_relay_id) =? 32)
         || negb (size address.(ba_mailbox_id) =? 16))
  then Throw "A mailbox address needs the relay address, the 32-byte relay ID and the 16-byte mailbox ID" else
  let body := bundle_body signing_public encryption_public display_name address issued_at in
  let! signature := sign rand (bundle_signing_input body) signing_private in
  let raw := write_blob [] body in
  Ret (write_blob raw signature).

(** src/client/identity_bundle.cpp 77-86 create_identity_bundle *)
Definition create_identity_bundle_hint (rand signing_public encryption_public display_name relay_hint : bytes)
    (issued_at : Z) (signing_private : bytes) : exc bytes :=
  create_identity_bundle rand signing_public encryption_public display_name (mkBundleAddress relay_hint [] [])
    issued_at signing_private.

(** src/client/identity_bundle.cpp 88-169 parse_identity_bundle *)
Definition parse_identity_bundle (raw : bytes) : exc IdentityBundle :=
  let '(body, off) := read_blob raw 0 MAX_BODY_BYTES in
  let '(signature, off) := read_blob raw off 8192 in
  match body, signature with
  | Some body, Some signature =>
      if negb (off =? size raw) then malformed else
      let '(magic, b) := read_u32 body 0 in
      let '(version, b) := read_u32 body b in
      let '(issued, b) := read_u64 body b in
      let '(count, b) := read_u32 body b in
      if negb (bool_decide (magic = Some BUNDLE_MAGIC)) then Throw "That is not an identity bundle" else
      if negb (bool_decide (version = Some BUNDLE_VERSION))
      then Throw "The identity bundle is from an incompatible version" else
      match issued, count with
      | Some issued, Some count =>
          if MAX_FIELDS <? count then malformed else
          let start := mkFieldState (mkIdentityBundle issued [] [] [] [] [] [] []) false false false false false false in
          let! (st, b) := read_fields (Z.to_nat count) body b start in
          if negb (b =? size body) then malformed else
          if negb st.(have_signing) || negb st.(have_encryption) then Throw "The identity bundle is missing a key" else
          let bundle := st.(fs_bundle) in
          if (st.(have_relay_id) || st.(have_mailbox)) && negb (has_mailbox bundle)
          then Throw "The identity bundle has an incomplete mailbox address" else
          if negb (size bundle.(ib_signing_key) =? sig_public_key_size)
             || negb (size bundle.(ib_encryption_key) =? kem_public_key_size)
          then Throw "The keys in this bundle are not ML-DSA-65 / ML-KEM-768 public keys" else
          if negb (verify (bundle_signing_input body) signature bundle.(ib_signing_key))
          then Throw "The signature on this identity bundle is not valid. It may have been altered." else
          Ret (mkIdentityBundle bundle.(ib_issued_at) bundle.(ib_signing_key) bundle.(ib_encryption_key)
                 bundle.(ib_display_name) bundle.(ib_relay_hint) bundle.(ib_relay_id) bundle.(ib_mailbox_id) raw)
      | _, _ => malformed
      end
  | _, _ => malformed
  end.

(** src/client/identity_bundle.cpp 35-35 fingerprint *)
Definition bundle_fingerprint (b : IdentityBundle) : bytes := fingerprint b.(ib_signing_key).
End bundle.

(** ** The fields of a body *)

Definition field_ok (f : Z * bytes) : Prop := in_u32 f.1 /\ size f.2 <= MAX_BODY_BYTES.
Definition put_field (f : Z * bytes) : bytes := be32 f.1 ++ blob f.2.

Fixpoint apply_fields (st : FieldState) (fs : list (Z * bytes)) : exc FieldState :=
  match fs with
  | [] => Ret st
  | f :: fs => let! st := apply_field st f.1 f.2 in apply_fields st fs
  end.

(** Reading the fields is reading their bytes and applying them one by one. *)
Lemma read_fields_fwd fs body b rest st st' :
  Forall field_ok fs -> apply_fields st fs = Ret st' -> at_off body b (concat (map put_field fs) ++ rest) ->
  read_fields (length fs) body b st = Ret (st', b + size (concat (map put_field fs))).
Proof.
  intros Hf. revert b st. induction Hf as [|[t v] fs [Ht Hv] _ IH]; intros b st; simpl in *.
  - intros [= <-] _. by rewrite Z.add_0_r.
  - intros Ha Hat. unfold put_field in Hat at 1. simpl in Hat. rewrite <- !app_assoc in Hat.
    assert (in_u32 (size v)) by (eapply size_is_u32; [exact Hv|done]).
    repeat (read_fwd_step; try assumption; cbv beta iota zeta).
    destruct (apply_field st t v) as [st1|w]; [|done]. simpl in *. rewrite (IH _ _ Ha Hat).
    do 2 f_equal. rewrite size_app. unfold put_field. simpl. rewrite size_app, size_be32, size_blob. lia.
Qed.

Lemma read_fields_inv n body b rest st st' b' :
  at_off body b rest -> read_fields n body b st = Ret (st', b') ->
  exists fs, length fs = n /\ Forall field_ok fs /\ apply_fields st fs = Ret st' /\
    exists rest', rest = concat (map put_field fs) ++ rest' /\ at_off body b' rest'.
Proof.
  revert b rest st. induction n as [|n IH]; intros b rest st Hat; simpl.
  - intros [= <- <-]. exists []. split_and!; [done..|]. by exists rest.
  - destruct (read_u32 body b) as [[t|] b1] eqn:E1; [|done].
    apply (read_u32_at _ _ _ _ _ Hat) in E1 as (Ht & -> & r1 & -> & Hat1).
    destruct (read_blob body (b + 4) MAX_BODY_BYTES) as [[v|] b2] eqn:E2; [|done].
    apply (read_blob_at _ _ _ _ _ _ Hat1) in E2 as (Hv & _ & _ & r2 & -> & Hat2).
    destruct (apply_field st t v) as [st1|w] eqn:Ea; [|done]. simpl. intros Hr.
    destruct (IH _ _ _ Hat2 Hr) as (fs & Hlen & Hf & Hap & rest' & -> & Hat').
    exists ((t, v) :: fs). simpl. rewrite Ea. split_and!; [by f_equal|by constructor|done|].
    exists rest'. unfold put_field at 2. simpl. by rewrite <- !app_assoc.
Qed.

(** The values a body gives a type. *)
Definition values (t : Z) (fs : list (Z * bytes)) : list bytes := map snd (filter (fun f => f.1 = t) fs).

Lemma values_snoc t fs t' v : values t (fs ++ [(t', v)]) = values t fs ++ (if decide (t' = t) then [v] else []).
Proof.
  unfold values. rewrite filter_app, map_app. f_equal. rewrite filter_cons. simpl. by case_decide.
Qed.

(** A known field that occurred at most once, and its value. *)
Definition single (t : Z) (fs : list (Z * bytes)) (have : bool) (v : bytes) : Prop :=
  values t fs = if have then [v] else [].

(** The state of the loop after the fields [fs]. *)
Definition fields_inv (issued : Z) (fs : list (Z * bytes)) (st : FieldState) : Prop :=
  let b := st.(fs_bundle) in
  b.(ib_issued_at) = issued /\ b.(ib_raw) = [] /\
  single FIELD_SIGNING_KEY fs st.(have_signing) b.(ib_signing_key) /\
  single FIELD_ENCRYPTION_KEY fs st.(have_encryption) b.(ib_encryption_key) /\
  single FIELD_DISPLAY_NAME fs st.(have_name) b.(ib_display_name) /\
  single FIELD_RELAY_HINT fs st.(have_hint) b.(ib_relay_hint) /\
  single FIELD_RELAY_ID fs st.(have_relay_id) b.(ib_relay_id) /\
  single FIELD_MAILBOX_ID fs st.(have_mailbox) b.(ib_mailbox_id) /\
  (st.(have_name) = false -> b.(ib_display_name) = []) /\ (st.(have_hint) = false -> b.(ib_relay_hint) = []) /\
  (st.(have_relay_id) = false -> b.(ib_relay_id) = []) /\ (st.(have_mailbox) = false -> b.(ib_mailbox_id) = []) /\
  size b.(ib_display_name) <= MAX_DISPLAY_NAME_BYTES /\ size b.(ib_relay_hint) <= MAX_RELAY_HINT_BYTES /\
  (st.(have_relay_id) = true -> size b.(ib_relay_id) = 32) /\ (st.(have_mailbox) = true -> size b.(ib_mailbox_id) = 16).

Lemma single_other t fs have v t' w : t' <> t -> single t fs have v -> single t (fs ++ [(t', w)]) have v.
Proof. intros Hne Hs. unfold single. rewrite values_snoc, decide_False by done. by rewrite app_nil_r. Qed.

Lemma single_new t fs v0 v : single t fs false v0 -> single t (fs ++ [(t, v)]) true v.
Proof. unfold single. intros Hs. by rewrite values_snoc, Hs, decide_True. Qed.

Lemma apply_field_inv issued fs st t v st' :
  fields_inv issued fs st -> apply_field st t v = Ret st' -> fields_inv issued (fs ++ [(t, v)]) st'.
Proof.
  destruct st as [[ti sk ek dn rh ri mb raw] hs he hn hh hr hm]. unfold fields_inv. simpl.
  intros (E1 & E2 & H1 & H2 & H3 & H4 & H5 & H6 & Hrest) Ha.
  repeat match type of Ha with
  | (if ?c then _ else _) = _ => destruct c eqn:?; [|]
  end; try discriminate Ha; injection Ha as <-; bool_prop; subst; simpl;
  (split_and!; try done; try tauto; try (by apply single_other); try (by eapply single_new); try lia).
Qed.

Lemma apply_fields_inv issued fs gs st st' :
  fields_inv issued fs st -> apply_fields st gs = Ret st' -> fields_inv issued (fs ++ gs) st'.
Proof.
  revert fs st. induction gs as [|[t v] gs IH]; intros fs st Hi; simpl; [by intros [= <-]; rewrite app_nil_r|].
  destruct (apply_field st t v) as [st1|w] eqn:E; [|done]. simpl. intros Ha.
  replace (fs ++ (t, v) :: gs) with ((fs ++ [(t, v)]) ++ gs) by by rewrite <- app_assoc.
  apply (IH _ st1); [|done]. by eapply apply_field_inv.
Qed.

(** ** What a bundle means *)

Definition bundle_header (issued : Z) (fs : list (Z * bytes)) : bytes :=
  be32 BUNDLE_MAGIC ++ be32 BUNDLE_VERSION ++ be64 issued ++ be32 (size fs) ++ concat (map put_field fs).

Definition start_state (issued : Z) : FieldState :=
  mkFieldState (mkIdentityBundle issued [] [] [] [] [] [] []) false false false false false false.

Lemma start_inv issued : fields_inv issued [] (start_state issued).
Proof. unfold fields_inv, single. simpl. by split_and!. Qed.

(** The fields [create_identity_bundle] writes. *)
Definition bundle_fields (sp ep name : bytes) (a : BundleAddress) : list (Z * bytes) :=
  [(FIELD_SIGNING_KEY, sp); (FIELD_ENCRYPTION_KEY, ep)]
  ++ (if is_empty name then [] else [(FIELD_DISPLAY_NAME, name)])
  ++ (if any_mailbox a then [(FIELD_RELAY_ID, a.(ba_relay_id)); (FIELD_MAILBOX_ID, a.(ba_mailbox_id))] else [])
  ++ (if is_empty a.(ba_relay_hint) then [] else [(FIELD_RELAY_HINT, a.(ba_relay_hint))]).

Lemma write_field_eq body t v : write_field body t v = body ++ put_field (t, v).
Proof. unfold write_field, put_field. simpl. by rewrite write_blob_eq, write_u32_eq, <- app_assoc. Qed.

Lemma bundle_body_eq sp ep name a issued :
  bundle_body sp ep name a issued = bundle_header issued (bundle_fields sp ep name a).
Proof.
  unfold bundle_body, bundle_header, bundle_fields.
  destruct (is_empty name), (any_mailbox a), (is_empty (ba_relay_hint a)); cbn [negb app map concat];
    rewrite !write_field_eq; encode_norm; by rewrite ?app_nil_r.
Qed.

Section meaning.
Context `{PrimitiveLaws}.

(** The two readers of the envelope of a bundle: body and signature. *)
Lemma parse_identity_bundle_fwd body sg issued fs st :
  size body <= MAX_BODY_BYTES -> size sg <= 8192 -> in_u64 issued -> size fs <= MAX_FIELDS ->
  Forall field_ok fs -> body = bundle_header issued fs -> apply_fields (start_state issued) fs = Ret st ->
  let b := st.(fs_bundle) in
  let raw := blob body ++ blob sg in
  st.(have_signing) = true -> st.(have_encryption) = true ->
  (st.(have_relay_id) || st.(have_mailbox) = true -> has_mailbox b = true) ->
  size b.(ib_signing_key) = sig_public_key_size -> size b.(ib_encryption_key) = kem_public_key_size ->
  verify (bundle_signing_input body) sg b.(ib_signing_key) = true ->
  parse_identity_bundle raw =
  Ret (mkIdentityBundle b.(ib_issued_at) b.(ib_signing_key) b.(ib_encryption_key) b.(ib_display_name)
         b.(ib_relay_hint) b.(ib_relay_id) b.(ib_mailbox_id) raw).
Proof.
  intros Hb Hs Hi Hn Hf Hbody Ha b raw Hhs Hhe Hm Hsk Hek Hv. unfold parse_identity_bundle.
  assert (in_u32 (size body) /\ in_u32 (size sg) /\ in_u32 (size fs)) as (? & ? & ?).
  { split_and!; (eapply size_is_u32; [eassumption|done]). }
  assert (in_u32 BUNDLE_MAGIC /\ in_u32 BUNDLE_VERSION) as [? ?] by done.
  remember raw as raw' eqn:Hraw. unfold raw in Hraw. pose proof Hraw as Hat. apply at_off_0_app in Hat.
  rewrite <- app_assoc in Hat. repeat (read_fwd_step; try assumption; cbv beta iota zeta). decode_end.
  pose proof Hbody as Hat2. apply at_off_0_app in Hat2. unfold bundle_header in Hat2. rewrite <- !app_assoc in Hat2.
  repeat (read_fwd_step; try assumption; cbv beta iota zeta).
  rewrite !bool_decide_eq_true_2 by done. cbn [negb]. rewrite (proj2 (Z.ltb_ge _ _) Hn).
  fold (start_state issued). replace (Z.to_nat (size fs)) with (length fs) by apply length_is_count.
  rewrite (read_fields_fwd fs _ _ [] _ st Hf Ha Hat2). cbn [exc_bind].
  apply (at_off_app _ _ (concat _)) in Hat2. rewrite (at_off_end_eqb _ _ Hat2). cbn [negb].
  rewrite Hhs, Hhe. cbn [negb orb]. fold b. rewrite Hsk, Hek, !Z.eqb_refl, Hv. cbn [negb orb].
  destruct (have_relay_id st || have_mailbox st); [rewrite Hm by done|]; done.
Qed.

Lemma parse_identity_bundle_inv raw b :
  parse_identity_bundle raw = Ret b ->
  exists body sg issued fs st,
    raw = blob body ++ blob sg /\ body = bundle_header issued fs /\ in_u64 issued /\ Forall field_ok fs /\
    size fs <= MAX_FIELDS /\ fields_inv issued fs st /\ st.(have_signing) = true /\ st.(have_encryption) = true /\
    (st.(have_relay_id) || st.(have_mailbox) = true -> has_mailbox st.(fs_bundle) = true) /\
    verify (bundle_signing_input body) sg b.(ib_signing_key) = true /\
    b = mkIdentityBundle issued st.(fs_bundle).(ib_signing_key) st.(fs_bundle).(ib_encryption_key)
          st.(fs_bundle).(ib_display_name) st.(fs_bundle).(ib_relay_hint) st.(fs_bundle).(ib_relay_id)
          st.(fs_bundle).(ib_mailbox_id) raw.
Proof.
  unfold parse_identity_bundle. intros Hd. pose proof (at_off_0 raw) as Hat.
  destruct (read_blob raw 0 MAX_BODY_BYTES) as [[body|] o1] eqn:E1; [|by repeat case_match].
  destruct (read_blob raw o1 8192) as [[sg|] o2] eqn:E2; [|done].
  destruct (negb (o2 =? size raw)) eqn:E3; [done|]. bool_prop. subst o2. repeat (read_inv_step; subst). read_end.
  pose proof (at_off_0 body) as Hatb.
  destruct (read_u32 body 0) as [m b1] eqn:E4. destruct (read_u32 body b1) as [v b2] eqn:E5.
  destruct (read_u64 body b2) as [iss b3] eqn:E6. destruct (read_u32 body b3) as [c b4] eqn:E7.
  do 2 (case_bool_decide; [|done]; cbn [negb] in Hd). subst m v.
  destruct iss as [issued|]; [|done]. destruct c as [count|]; [|done].
  destruct (MAX_FIELDS <? count) eqn:Ec; [done|]. bool_prop. repeat (read_inv_step; subst).
  fold (start_state issued) in Hd.
  destruct (read_fields _ _ _ _) as [[st b5]|w] eqn:Er; [|done]. cbn [exc_bind] in Hd.
  destruct (read_fields_inv _ _ _ _ _ _ _ Hatb Er) as (fs & Hlen & Hf & Hap & r & -> & Hat').
  destruct (negb (b5 =? _)) eqn:E8; [done|]. bool_prop. subst b5. apply at_off_end_inv in Hat' as ->; [|done].
  destruct (negb _ || negb _) eqn:E9; [done|]. bool_prop.
  destruct (_ && negb (has_mailbox _)) eqn:E10; [done|].
  destruct (negb (_ =? sig_public_key_size) || _) eqn:E11; [done|]. destruct (negb (verify _ _ _)) eqn:E12; [done|]. bool_prop.
  injection Hd as <-. apply (count_is_size fs) in Hlen; [subst count|done].
  pose proof (apply_fields_inv issued [] fs _ _ (start_inv issued) Hap) as Hinv. simpl in Hinv.
  rewrite !app_nil_r in *. eexists _, sg, issued, fs, st. split_and!; try done.
  - intros Hany. rewrite Hany in E10. simpl in E10. by bool_prop.
  - simpl. by destruct Hinv as (-> & _).
Qed.

(** What [create_identity_bundle] accepts, the key sizes apart. *)
Definition address_ok (a : BundleAddress) : Prop :=
  size a.(ba_relay_hint) <= MAX_RELAY_HINT_BYTES /\
  ((a.(ba_relay_id) = [] /\ a.(ba_mailbox_id) = []) \/
   (a.(ba_relay_hint) <> [] /\ size a.(ba_relay_id) = 32 /\ size a.(ba_mailbox_id) = 16)).

Lemma any_mailbox_cases a : address_ok a ->
  (any_mailbox a = false /\ a.(ba_relay_id) = [] /\ a.(ba_mailbox_id) = []) \/
  (any_mailbox a = true /\ is_empty a.(ba_relay_hint) = false /\ size a.(ba_relay_id) = 32 /\ size a.(ba_mailbox_id) = 16).
Proof.
  unfold any_mailbox. intros [_ [[-> ->]|(Hh & Hr & Hm)]]; [left; by split_and!|right].
  split_and!; try done; [by destruct (ba_relay_id a)|by destruct (ba_relay_hint a)].
Qed.

(** Applying the written fields fills in a bundle. *)
Lemma bundle_fields_apply sp ep name a issued :
  size name <= MAX_DISPLAY_NAME_BYTES -> address_ok a ->
  exists st, apply_fields (start_state issued) (bundle_fields sp ep name a) = Ret st /\
    st.(fs_bundle) = mkIdentityBundle issued sp ep name a.(ba_relay_hint) a.(ba_relay_id) a.(ba_mailbox_id) [] /\
    st.(have_signing) = true /\ st.(have_encryption) = true /\
    (st.(have_relay_id) || st.(have_mailbox) = true -> has_mailbox st.(fs_bundle) = true).
Proof.
  intros Hn Ha. pose proof Ha as [Hh _]. unfold bundle_fields.
  assert (name = [] \/ is_empty name = false) as Hname by (destruct name; auto).
  assert (ba_relay_hint a = [] \/ is_empty (ba_relay_hint a) = false) as Hhint by (destruct (ba_relay_hint a); auto).
  destruct (any_mailbox_cases a Ha) as [(-> & -> & ->)|(-> & Hne & Hr & Hm)];
    destruct Hname as [->|En], Hhint as [Eh|Eh]; try congruence; rewrite ?En, ?Eh; cbn [is_empty app apply_fields fst snd];
    unfold apply_field, start_state; cbn [Z.eqb Pos.eqb FIELD_SIGNING_KEY FIELD_ENCRYPTION_KEY FIELD_DISPLAY_NAME
      FIELD_RELAY_HINT FIELD_RELAY_ID FIELD_MAILBOX_ID orb exc_bind];
    rewrite ?(proj2 (Z.ltb_ge _ _) Hn), ?(proj2 (Z.ltb_ge _ _) Hh), ?Hr, ?Hm; cbn [Z.eqb Pos.eqb negb orb exc_bind];
    try (rewrite Eh in Hne; discriminate Hne).
  all: eexists; split; [reflexivity|]; split_and!; try done.
  all: intros _; unfold has_mailbox; simpl; rewrite Hne; simpl.
  all: rewrite !(proj2 (is_empty_false _)) by lia; done.
Qed.

Lemma size_put_field t v : size (put_field (t, v)) = 8 + size v.
Proof. unfold put_field. simpl. rewrite size_app, size_be32, size_blob. lia. Qed.

(** The written body is small and its fields are well formed. *)
Lemma bundle_fields_ok sp ep name a issued :
  size sp = sig_public_key_size -> size ep = kem_public_key_size ->
  size name <= MAX_DISPLAY_NAME_BYTES -> address_ok a ->
  let fs := bundle_fields sp ep name a in
  Forall field_ok fs /\ size fs <= MAX_FIELDS /\ size (bundle_header issued fs) <= MAX_BODY_BYTES.
Proof.
  intros Hsp Hep Hn Ha fs. destruct algorithm_sizes as (Hk & _). pose proof sig_public_size_bound as Hp.
  pose proof Ha as [Hh _].
  assert (size a.(ba_relay_id) <= 32 /\ size a.(ba_mailbox_id) <= 16) as [Hr Hm].
  { destruct (any_mailbox_cases a Ha) as [(_ & -> & ->)|(_ & _ & -> & ->)]; done. }
  unfold MAX_DISPLAY_NAME_BYTES, MAX_RELAY_HINT_BYTES in *. split_and!.
  - unfold fs, bundle_fields, field_ok. rewrite !Forall_app.
    split_and!; repeat case_match; repeat constructor; simpl; unfold MAX_BODY_BYTES; try done; lia.
  - unfold fs, bundle_fields. repeat case_match; vm_compute; congruence.
  - unfold bundle_header. rewrite !size_app, !size_be32, size_be64. unfold fs, bundle_fields.
    repeat case_match; cbn [app map concat]; rewrite ?size_app, ?size_put_field, ?size_nil; unfold MAX_BODY_BYTES; lia.
Qed.

(** A bundle reads back as it was made. With the owner's keys, a name and an
    address within the limits, [create_identity_bundle] succeeds and
    [parse_identity_bundle] accepts the bytes, verifies them, and returns exactly
    the keys, the name and the address that were put in. *)
Theorem identity_bundle_roundtrip seed rand ep name a issued :
  let sp := (generate_sig_keypair seed).1 in
  let sk := (generate_sig_keypair seed).2 in
  size ep = kem_public_key_size -> size name <= MAX_DISPLAY_NAME_BYTES -> address_ok a -> in_u64 issued ->
  exists raw, create_identity_bundle rand sp ep name a issued sk = Ret raw /\
    parse_identity_bundle raw =
    Ret (mkIdentityBundle issued sp ep name a.(ba_relay_hint) a.(ba_relay_id) a.(ba_mailbox_id) raw).
Proof.
  cbv zeta. intros Hep Hn Ha Hi.
  pose proof (sign_verifies seed rand (bundle_signing_input
    (bundle_body (generate_sig_keypair seed).1 ep name a issued))) as Hsv.
  destruct (sig_sizes seed rand [] []) as (Hsp & _). unfold generate_sig_keypair in *.
  destruct (prim_sig_keypair seed) as [sp sk]. cbn [fst snd] in *. destruct Hsv as (sg & Hsg & Hlen & Hv).
  destruct algorithm_sizes as (_ & _ & _ & Hsig).
  destruct (bundle_fields_ok sp ep name a issued Hsp Hep Hn Ha) as (Hf & Hfs & Hb).
  destruct (bundle_fields_apply sp ep name a issued Hn Ha) as (st & Hap & Hst & Hhs & Hhe & Hm).
  rewrite bundle_body_eq in *. set (body := bundle_header issued (bundle_fields sp ep name a)) in *.
  exists (blob body ++ blob sg). split.
  - unfold create_identity_bundle. rewrite bundle_body_eq. fold body. rewrite Hsg. pose proof Ha as [Hh _].
    rewrite Hsp, Hep, !Z.eqb_refl, (proj2 (Z.ltb_ge _ _) Hn), (proj2 (Z.ltb_ge _ _) Hh). cbn [negb orb exc_bind].
    destruct (any_mailbox_cases a Ha) as [(-> & _)|(-> & -> & -> & ->)]; cbn [negb orb andb Z.eqb Pos.eqb];
      by rewrite !write_blob_eq.
  - erewrite (parse_identity_bundle_fwd body sg issued _ st); try done; try lia; try (rewrite Hst; done).
Qed.

(** A bundle that is accepted binds what it says to its signing key: the signature
    verifies, under the signing key inside, over the exact body; each known field
    occurs at most once in that body and the bundle's values are those very
    fields, so no two readers can pick different ones; a mailbox address is there
    whole or not at all. *)
Lemma identity_bundle_binds raw b :
  parse_identity_bundle raw = Ret b ->
  exists body sg fs,
    raw = blob body ++ blob sg /\ b.(ib_raw) = raw /\ body = bundle_header b.(ib_issued_at) fs /\
    verify (bundle_signing_input body) sg b.(ib_signing_key) = true /\
    values FIELD_SIGNING_KEY fs = [b.(ib_signing_key)] /\ values FIELD_ENCRYPTION_KEY fs = [b.(ib_encryption_key)] /\
    (values FIELD_DISPLAY_NAME fs = [b.(ib_display_name)] \/ values FIELD_DISPLAY_NAME fs = [] /\ b.(ib_display_name) = []) /\
    (values FIELD_RELAY_HINT fs = [b.(ib_relay_hint)] \/ values FIELD_RELAY_HINT fs = [] /\ b.(ib_relay_hint) = []) /\
    (has_mailbox b = true /\ values FIELD_RELAY_ID fs = [b.(ib_relay_id)] /\ values FIELD_MAILBOX_ID fs = [b.(ib_mailbox_id)] \/
     values FIELD_RELAY_ID fs = [] /\ values FIELD_MAILBOX_ID fs = [] /\ b.(ib_relay_id) = [] /\ b.(ib_mailbox_id) = []).
Proof.
  intros (body & sg & issued & fs & st & Hraw & Hbody & _ & _ & _ & Hinv & Hhs & Hhe & Hm & Hv & ->)%parse_identity_bundle_inv.
  destruct st as [[ti sk ek dn rh ri mb rw] hs he hn hh hr hm].
  unfold fields_inv, single in Hinv. simpl in *. subst hs he.
  destruct Hinv as (_ & _ & H1 & H2 & H3 & H4 & H5 & H6 & Hn & Hh & Hr & Hb & _).
  exists body, sg, fs. split_and!; try done.
  - destruct hn; auto.
  - destruct hh; auto.
  - destruct (hr || hm) eqn:E.
    + left. specialize (Hm eq_refl). unfold has_mailbox in *. simpl in *. split; [done|]. bool_prop.
      destruct hr, hm; try done; exfalso.
      * specialize (Hb eq_refl). by subst mb.
      * specialize (Hr eq_refl). by subst ri.
    + right. apply orb_false_iff in E as [-> ->]. auto.
Qed.
End meaning.

(** An identity with a name and a mailbox. *)
Lemma identity_bundle_roundtrip_witness :
  let a := mkBundleAddress (str "relay:7000") (replicate 32 Byte.x01) (replicate 16 Byte.x02) in
  address_ok a /\
  exists raw, create_identity_bundle [] (generate_sig_keypair [Byte.x03]).1 (replicate 8 Byte.x04) (str "Ada") a 5
                (generate_sig_keypair [Byte.x03]).2 = Ret raw /\
    parse_identity_bundle raw =
    Ret (mkIdentityBundle 5 (generate_sig_keypair [Byte.x03]).1 (replicate 8 Byte.x04) (str "Ada") (str "relay:7000")
           (replicate 32 Byte.x01) (replicate 16 Byte.x02) raw).
Proof.
  assert (address_ok (mkBundleAddress (str "relay:7000") (replicate 32 Byte.x01) (replicate 16 Byte.x02))) as Ha.
  { split; [vm_compute; congruence|]. right. split; [vm_compute; congruence|]. split; reflexivity. }
  split; [exact Ha|].
  apply (identity_bundle_roundtrip [Byte.x03] [] (replicate 8 Byte.x04) (str "Ada")
    (mkBundleAddress (str "relay:7000") (replicate 32 Byte.x01) (replicate 16 Byte.x02)) 5);
    [reflexivity|vm_compute; congruence|exact Ha|split; vm_compute; congruence].
Defined.
