(* ===== verification/Keyring.v ===== *)
(** * The keyring: client/keyring.h and keyring.cpp

    What a reinstalled app needs to find and open its chats' archives: the format
    of the contents and their sealing for the owner's mailbox. The relay's slot
    for it is in [RelayService], its client in [RelayClient]. The [Reader] of
    the sources is a state, an offset and a flag, threaded through the reads. *)

From Stdlib Require Import ZArith Lia.
From stdpp Require Import base list strings.
From S2P Require Import Prelude Wire RelayProtocol RelayProtocolSpec Crypto Prekey Envelope.
#[local] Open Scope Z_scope.

(** src/client/keyring.h 16-16 VERSION *)
Definition KEYRING_VERSION : Z := 1.
(** src/client/keyring.cpp 12-12 KEYRING_MAGIC_LABEL *)
Definition KEYRING_MAGIC_LABEL : bytes := str "pq-suite v3 keyring".
(** src/client/keyring.cpp 13-13 KEYRING_AAD_LABEL *)
Definition KEYRING_AAD_LABEL : bytes := str "pq-suite v3 archive keyring seal".
(** src/client/keyring.cpp 15-15 MAX_ARCHIVES *)
Definition MAX_ARCHIVES : Z := 4096.
(** src/client/keyring.cpp 16-16 MAX_ENTRIES *)
Definition MAX_ENTRIES : Z := 100000.
(** src/client/keyring.cpp 17-17 MAX_TEXT *)
Definition MAX_TEXT : Z := 4096.
(** src/client/keyring.cpp 18-18 MAX_BUNDLE *)
Definition MAX_BUNDLE : Z := 16 * 1024.
(** src/client/keyring.cpp 19-19 MAX_KEY_BLOB *)
Definition MAX_KEYRING_KEY_BLOB : Z := 8192.

(** src/client/keyring.h 18-27 ArchiveItem *)
Record ArchiveItem := mkArchiveItem {
  ai_conversation_id : bytes;
  ai_relay_address : bytes;
  ai_relay_id : bytes;
  ai_role : Z;
  ai_state : Z;
  ai_archive_key : bytes;
  ai_chat_public_key : bytes;
  ai_chat_private_key : bytes;
  ai_join_token : bytes;
}.
(** src/client/keyring.h 28-32 MemberToken *)
Record MemberToken := mkMemberToken { mt_conversation_id : bytes; mt_member_fp : bytes; mt_token : bytes }.
(** src/client/keyring.h 33-39 Introduced *)
Record Introduced := mkIntroduced {
  in_fp : bytes; in_bundle : bytes; in_issued_at : Z; in_introduced_by : bytes; in_first_seen : Z
}.
(** src/client/keyring.h 40-46 IssuedToken *)
Record IssuedToken := mkIssuedToken {
  it_hash : bytes; it_label : bytes; it_created_at : Z; it_bound_fp : bytes; it_revoked : bool
}.
(** src/client/keyring.h 47-51 Receipts *)
Record Receipts := mkReceipts { rc_conversation_id : bytes; rc_delivery : bool; rc_read : bool }.

(** src/client/keyring.h 53-64 Contents *)
Record Contents := mkContents {
  kc_archives : list ArchiveItem;
  kc_verified : list bytes;
  kc_member_tokens : list MemberToken;
  kc_introduced : list Introduced;
  kc_issued_tokens : list IssuedToken;
  kc_receipts : list Receipts;
}.

(** ** Writing *)

(** src/client/keyring.cpp 21-24 put_text *)
Definition put_text (b s : bytes) : exc bytes :=
  if MAX_TEXT <? size s then Throw "A keyring entry is too long" else Ret (write_blob b s).

(** [for (const auto& x : l)] with a body that can throw. *)
Fixpoint write_each {A} (f : bytes -> A -> exc bytes) (b : bytes) (l : list A) : exc bytes :=
  match l with
  | [] => Ret b
  | x :: l => let! b := f b x in write_each f b l
  end.

(** src/client/keyring.cpp 33-43 serialize *)
Definition write_archive (b : bytes) (a : ArchiveItem) : exc bytes :=
  let b := write_blob b a.(ai_conversation_id) in
  let! b := put_text b a.(ai_relay_address) in
  let b := write_blob b a.(ai_relay_id) in
  let b := write_u32 b (u32 a.(ai_role)) in
  let b := write_u32 b (u32 a.(ai_state)) in
  let b := write_blob b a.(ai_archive_key) in
  let b := write_blob b a.(ai_chat_public_key) in
  let b := write_blob b a.(ai_chat_private_key) in
  Ret (write_blob b a.(ai_join_token)).

(** src/client/keyring.cpp 47-51 serialize *)
Definition write_member_token (b : bytes) (t : MemberToken) : exc bytes :=
  let b := write_blob b t.(mt_conversation_id) in
  let! b := put_text b t.(mt_member_fp) in
  Ret (write_blob b t.(mt_token)).

(** src/client/keyring.cpp 53-59 serialize *)
Definition write_introduced (b : bytes) (i : Introduced) : exc bytes :=
  let! b := put_text b i.(in_fp) in
  let b := write_blob b i.(in_bundle) in
  let b := write_u64 b (u64 i.(in_issued_at)) in
  let! b := put_text b i.(in_introduced_by) in
  Ret (write_u64 b (u64 i.(in_first_seen))).

(** src/client/keyring.cpp 61-67 serialize *)
Definition write_issued_token (b : bytes) (t : IssuedToken) : exc bytes :=
  let b := write_blob b t.(it_hash) in
  let! b := put_text b t.(it_label) in
  let b := write_u64 b (u64 t.(it_created_at)) in
  let! b := put_text b t.(it_bound_fp) in
  Ret (write_u32 b (if t.(it_revoked) then 1 else 0)).

(** src/client/keyring.cpp 69-72 serialize *)
Definition write_receipts (b : bytes) (r : Receipts) : exc bytes :=
  let b := write_blob b r.(rc_conversation_id) in
  Ret (write_u32 b (Z.lor (if r.(rc_delivery) then 1 else 0) (if r.(rc_read) then 2 else 0))).

(** src/client/keyring.cpp 28-74 serialize *)
Definition serialize (c : Contents) : exc bytes :=
  let b := write_string [] KEYRING_MAGIC_LABEL in
  let b := write_u32 b KEYRING_VERSION in
  let b := write_u32 b (u32 (size c.(kc_archives))) in
  let! b := write_each write_archive b c.(kc_archives) in
  let b := write_u32 b (u32 (size c.(kc_verified))) in
  let! b := write_each put_text b c.(kc_verified) in
  let b := write_u32 b (u32 (size c.(kc_member_tokens))) in
  let! b := write_each write_member_token b c.(kc_member_tokens) in
  let b := write_u32 b (u32 (size c.(kc_introduced))) in
  let! b := write_each write_introduced b c.(kc_introduced) in
  let b := write_u32 b (u32 (size c.(kc_issued_tokens))) in
  let! b := write_each write_issued_token b c.(kc_issued_tokens) in
  let b := write_u32 b (u32 (size c.(kc_receipts))) in
  write_each write_receipts b c.(kc_receipts).

(** ** Reading *)

(** src/client/keyring.cpp 79-83 Reader *)
Record Reader := mkReader { rd_off : Z; rd_ok : bool }.

(** A read from [d] in a state of the reader. *)
Definition rd (A : Type) : Type := bytes -> Reader -> A * Reader.
Definition rd_ret {A} (x : A) : rd A := fun _ st => (x, st).
Definition rd_bind {A B} (m : rd A) (k : A -> rd B) : rd B :=
  fun d st => let '(x, st) := m d st in k x d st.
#[local] Notation "'let$' x := m 'in' k" := (rd_bind m (fun x => k))
  (at level 10, x pattern, m at level 100, k at level 200).

(** [r.ok = false] when [bad]. *)
Definition rd_fail_if (bad : bool) : rd unit :=
  fun _ st => (tt, if bad then mkReader st.(rd_off) false else st).

(** src/client/keyring.cpp 85-85 u32 *)
Definition rd_u32 : rd Z := fun d st =>
  let '(v, off) := read_u32 d st.(rd_off) in
  match v with None => (0, mkReader off false) | Some v => (v, mkReader off st.(rd_ok)) end.

(** src/client/keyring.cpp 86-86 u64 *)
Definition rd_u64 : rd Z := fun d st =>
  let '(v, off) := read_u64 d st.(rd_off) in
  match v with None => (0, mkReader off false) | Some v => (v, mkReader off st.(rd_ok)) end.

(** src/client/keyring.cpp 87-92 blob *)
Definition rd_blob (max exact : Z) (allow_empty : bool) : rd bytes := fun d st =>
  let '(v, off) := read_blob d st.(rd_off) max in
  match v with
  | None => ([], mkReader off false)
  | Some v =>
      if negb (exact =? 0) && negb ((size v =? exact) || (allow_empty && is_empty v))
      then ([], mkReader off false) else (v, mkReader off st.(rd_ok))
  end.

(** src/client/keyring.cpp 93-96 text *)
Definition rd_text (max : Z) : rd bytes := rd_blob max 0 false.

(** [static_cast<size_t>(n) * 4] does not wrap for a 32-bit [n].
    src/client/keyring.cpp 98-102 count *)
Definition rd_count (max : Z) : rd Z := fun d st =>
  let '(n, st) := rd_u32 d st in
  let ok := if (max <? n) || (size d - Z.min st.(rd_off) (size d) <? n * 4) then false else st.(rd_ok) in
  (if ok then n else 0, mkReader st.(rd_off) ok).

(** [for (uint32_t i = 0; i < n && r.ok; i++)], the results pushed back. *)
Fixpoint rd_loop {A} (body : rd A) (n : nat) (acc : list A) : rd (list A) := fun d st =>
  match n with
  | O => (acc, st)
  | S n =>
      if st.(rd_ok) then
        let '(x, st) := body d st in rd_loop body n (acc ++ [x]) d st
      else (acc, st)
  end.

(** src/client/keyring.cpp 115-127 parse *)
Definition read_archive : rd ArchiveItem :=
  let$ conversation_id := rd_blob 32 16 false in
  let$ relay_address := rd_text 255 in
  let$ relay_id := rd_blob 32 32 false in
  let$ role := rd_u32 in
  let$ state := rd_u32 in
  let$ archive_key := rd_blob 32 32 false in
  let$ chat_public_key := rd_blob MAX_KEYRING_KEY_BLOB 0 false in
  let$ chat_private_key := rd_blob MAX_KEYRING_KEY_BLOB 0 false in
  let$ join_token := rd_blob 32 32 true in
  let$ _ := rd_fail_if (is_empty relay_address || is_empty chat_public_key || is_empty chat_private_key
                        || (negb (role =? 1) && negb (role =? 2)) || (2 <? state)) in
  rd_ret (mkArchiveItem conversation_id relay_address relay_id role state archive_key chat_public_key
            chat_private_key join_token).

(** src/client/keyring.cpp 132-137 parse *)
Definition read_member_token : rd MemberToken :=
  let$ conversation_id := rd_blob 32 16 false in
  let$ member_fp := rd_text 64 in
  let$ token := rd_blob 32 32 false in
  rd_ret (mkMemberToken conversation_id member_fp token).

(** src/client/keyring.cpp 140-148 parse *)
Definition read_introduced_item : rd Introduced :=
  let$ fp := rd_text 64 in
  let$ bundle := rd_blob MAX_BUNDLE 0 false in
  let$ issued_at := rd_u64 in
  let$ introduced_by := rd_text 64 in
  let$ first_seen := rd_u64 in
  let$ _ := rd_fail_if (is_empty bundle) in
  rd_ret (mkIntroduced fp bundle (i64 issued_at) introduced_by (i64 first_seen)).

(** src/client/keyring.cpp 151-160 parse *)
Definition read_issued_token : rd IssuedToken :=
  let$ hash := rd_blob 32 32 false in
  let$ label := rd_text MAX_TEXT in
  let$ created_at := rd_u64 in
  let$ bound_fp := rd_text 64 in
  let$ revoked := rd_u32 in
  let$ _ := rd_fail_if (1 <? revoked) in
  rd_ret (mkIssuedToken hash label (i64 created_at) bound_fp (revoked =? 1)).

(** src/client/keyring.cpp 163-170 parse *)
Definition read_receipts : rd Receipts :=
  let$ conversation_id := rd_blob 32 16 false in
  let$ flags := rd_u32 in
  let$ _ := rd_fail_if (3 <? flags) in
  rd_ret (mkReceipts conversation_id (negb (Z.land flags 1 =? 0)) (negb (Z.land flags 2 =? 0))).

(** [n = r.count(max); for (...) v.push_back(...)]. *)
Definition rd_list {A} (max : Z) (body : rd A) : rd (list A) :=
  let$ n := rd_count max in rd_loop body (Z.to_nat n) [].

(** src/client/keyring.cpp 112-171 parse *)
Definition read_contents : rd Contents :=
  let$ archives := rd_list MAX_ARCHIVES read_archive in
  let$ verified := rd_list MAX_ENTRIES (rd_text 64) in
  let$ member_tokens := rd_list MAX_ENTRIES read_member_token in
  let$ introduced := rd_list MAX_ENTRIES read_introduced_item in
  let$ issued_tokens := rd_list MAX_ENTRIES read_issued_token in
  let$ receipts := rd_list MAX_ENTRIES read_receipts in
  rd_ret (mkContents archives verified member_tokens introduced issued_tokens receipts).

(** src/client/keyring.cpp 107-174 parse *)
Definition parse_keyring (data : bytes) : option Contents :=
  let '(label, off) := read_string data 0 64 in
  let? label := label in
  if negb (bool_decide (label = KEYRING_MAGIC_LABEL)) then None else
  let '(version, st) := rd_u32 data (mkReader off true) in
  if negb (version =? KEYRING_VERSION) || negb st.(rd_ok) then None else
  let '(c, st) := read_contents data st in
  if negb st.(rd_ok) || negb (st.(rd_off) =? size data) then None else Some c.

(** ** Sealing *)

(** src/client/keyring.cpp 178-180 seal *)
Definition keyring_aad (mailbox_id : bytes) : bytes :=
  let aad := write_string [] KEYRING_AAD_LABEL in
  write_blob aad mailbox_id.

(** src/client/keyring.cpp 176-184 seal *)
Definition seal_keyring `{Primitives} (nonce key mailbox_id plaintext : bytes) : exc bytes :=
  let! ct := encrypt key nonce plaintext (keyring_aad mailbox_id) in
  Ret (nonce ++ ct).

(** src/client/keyring.cpp 186-197 open *)
Definition open_keyring `{Primitives} (key mailbox_id sealed : bytes) : option bytes :=
  if negb (size key =? 32) || (size sealed <? 12 + 16) then None else
  let nonce := ztake 12 sealed in
  let ct := zdrop 12 sealed in
  catch (decrypt key nonce ct (keyring_aad mailbox_id)).

(** ** Specification of the reader

    [Reads m R]: from a state that has not failed, [m] succeeds exactly when what
    is left to read starts with bytes [bs] that [R] relates to its result (and to
    what follows them); a reader that has failed stays failed. *)

Class Reads {A} (m : rd A) (R : A -> bytes -> bytes -> Prop) : Prop := {
  reads_failed d st x st' : m d st = (x, st') -> rd_ok st = false -> rd_ok st' = false;
  reads_at d off rest x off' :
    at_off d off rest ->
    m d (mkReader off true) = (x, mkReader off' true) <->
    exists bs rest', R x bs rest' /\ rest = bs ++ rest' /\ at_off d off' rest'
}.

#[export] Instance reads_ret {A} (x : A) : Reads (rd_ret x) (fun y bs _ => y = x /\ bs = []).
Proof.
  split; [by intros d st y st' [= _ <-]|]. intros d off rest y off' Hat. unfold rd_ret. split.
  - intros [= <- <-]. by exists [], rest.
  - intros (? & rest' & [-> ->] & -> & Hat'). do 2 f_equal. apply (at_off_unique _ _ _ _ Hat Hat').
Qed.

#[export] Instance reads_fail_if b : Reads (rd_fail_if b) (fun _ bs _ => b = false /\ bs = []).
Proof.
  split; [by intros d st y st' [= _ <-]; destruct b|]. intros d off rest y off' Hat. unfold rd_fail_if. split.
  - destruct b; intros [=]; subst. by exists [], rest.
  - intros (? & rest' & [-> ->] & -> & Hat'). destruct y. do 2 f_equal. apply (at_off_unique _ _ _ _ Hat Hat').
Qed.

#[export] Instance reads_bind {A B} (m : rd A) (k : A -> rd B) R1 R2 :
  Reads m R1 -> (forall a, Reads (k a) (R2 a)) ->
  Reads (rd_bind m k) (fun y bs rest => exists a b1 b2, bs = b1 ++ b2 /\ R1 a b1 (b2 ++ rest) /\ R2 a y b2 rest).
Proof.
  intros Hm Hk. unfold rd_bind. split.
  { intros d st y st'. destruct (m d st) as [a st1] eqn:E. intros Hr Hok.
    apply (reads_failed _ _ _ _ Hr). by apply (reads_failed _ _ _ _ E). }
  intros d off rest y off' Hat. split.
  - destruct (m d (mkReader off true)) as [a [o1 ok1]] eqn:E. intros Hr.
    destruct ok1; [|apply reads_failed in Hr; done].
    apply (reads_at (R := R1) _ _ _ _ _ Hat) in E as (b1 & r1 & H1 & -> & Hat1).
    apply (reads_at (R := R2 a) _ _ _ _ _ Hat1) in Hr as (b2 & r2 & H2 & -> & Hat2).
    exists (b1 ++ b2), r2. rewrite <- app_assoc. split; [|done]. by exists a, b1, b2.
  - intros (bs & rest' & (a & b1 & b2 & -> & H1 & H2) & -> & Hat'). rewrite <- app_assoc in Hat.
    rewrite (proj2 (reads_at (R := R1) _ _ _ a (off + size b1) Hat)).
    + apply (reads_at (R := R2 a) _ _ (b2 ++ rest')); [by apply at_off_app|]. by exists b2, rest'.
    + exists b1, (b2 ++ rest'). split_and!; [done..|by apply at_off_app].
Qed.

(** A reader described by which values it accepts and how each is written. *)
Definition written {A} (Ok : A -> Prop) (w : A -> bytes) (x : A) (bs _ : bytes) : Prop := Ok x /\ bs = w x.

Lemma reads_iff {A} (m : rd A) R R' :
  (forall x bs rest, R x bs rest <-> R' x bs rest) -> Reads m R -> Reads m R'.
Proof.
  intros HR [Hf Ha]. split; [done|]. intros d off rest x off' Hat. rewrite (Ha _ _ _ _ _ Hat).
  split; intros (bs & rest' & Hx & Hr); exists bs, rest'; (split; [by apply HR|done]).
Qed.

(** The same for the two kinds of step the item readers are made of. *)
#[export] Instance reads_bind_written {A B} (m : rd A) (k : A -> rd B) Ok w R2 :
  Reads m (written Ok w) -> (forall a, Reads (k a) (R2 a)) ->
  Reads (rd_bind m k) (fun y bs rest => exists a b2, Ok a /\ bs = w a ++ b2 /\ R2 a y b2 rest) | 0.
Proof.
  intros Hm Hk. eapply reads_iff; [|by apply reads_bind]. intros y bs rest. unfold written. split.
  - intros (a & b1 & b2 & -> & [? ->] & ?). by exists a, b2.
  - intros (a & b2 & ? & -> & ?). by exists a, (w a), b2.
Qed.

#[export] Instance reads_bind_fail_if {B} b (k : unit -> rd B) R2 :
  Reads (k tt) R2 -> Reads (rd_bind (rd_fail_if b) k) (fun y bs rest => b = false /\ R2 y bs rest) | 0.
Proof.
  intros Hk. eapply reads_iff; [|apply (reads_bind _ _ _ (fun _ => R2) (reads_fail_if b)); by intros []]. intros y bs rest. split.
  - intros ([] & b1 & b2 & -> & [-> ->] & ?). done.
  - intros [-> ?]. by exists tt, [], bs.
Qed.

#[export] Instance reads_u32 : Reads rd_u32 (written in_u32 be32).
Proof.
  unfold rd_u32, written. split.
  { intros d st x st'. destruct (read_u32 _ _) as [[v|] o]; by intros [= _ <-]. }
  intros d off rest x off' Hat. simpl. split.
  - destruct (read_u32 d off) as [[v|] o] eqn:E; intros [=]; subst.
    apply (read_u32_at _ _ _ _ _ Hat) in E as (? & _ & rest' & -> & ?). by eexists _, rest'.
  - intros (bs & rest' & [Hx ->] & -> & Hat'). rewrite (read_u32_fwd _ _ _ _ Hat Hx).
    do 2 f_equal. apply (at_off_app _ _ (be32 x)) in Hat. apply (at_off_unique _ _ _ _ Hat Hat').
Qed.

#[export] Instance reads_u64 : Reads rd_u64 (written in_u64 be64).
Proof.
  unfold rd_u64, written. split.
  { intros d st x st'. destruct (read_u64 _ _) as [[v|] o]; by intros [= _ <-]. }
  intros d off rest x off' Hat. simpl. split.
  - destruct (read_u64 d off) as [[v|] o] eqn:E; intros [=]; subst.
    apply (read_u64_at _ _ _ _ _ Hat) in E as (? & _ & rest' & -> & ?). by eexists _, rest'.
  - intros (bs & rest' & [Hx ->] & -> & Hat'). rewrite (read_u64_fwd _ _ _ _ Hat Hx).
    do 2 f_equal. apply (at_off_app _ _ (be64 x)) in Hat. apply (at_off_unique _ _ _ _ Hat Hat').
Qed.

(** What [r.blob(max, exact, allow_empty)] accepts. *)
Definition blob_fits (max exact : Z) (allow_empty : bool) (b : bytes) : Prop :=
  size b <= max /\ in_u32 (size b) /\
  (exact = 0 \/ size b = exact \/ (allow_empty = true /\ b = [])).

Lemma exact_test exact allow_empty b :
  negb (exact =? 0) && negb ((size b =? exact) || (allow_empty && is_empty b)) = false <->
  exact = 0 \/ size b = exact \/ (allow_empty = true /\ b = []).
Proof.
  rewrite andb_false_iff, !negb_false_iff, orb_true_iff, andb_true_iff, !Z.eqb_eq, is_empty_true. tauto.
Qed.

#[export] Instance reads_blob max exact allow_empty :
  Reads (rd_blob max exact allow_empty) (written (blob_fits max exact allow_empty) blob).
Proof.
  unfold rd_blob, written, blob_fits. split.
  { intros d st x st'. destruct (read_blob _ _ _) as [[v|] o]; [destruct (_ && _)|]; by intros [= _ <-]. }
  intros d off rest x off' Hat. simpl. split.
  - destruct (read_blob d off max) as [[v|] o] eqn:E; [|done].
    destruct (_ && _) eqn:Et; [done|]. intros [=]; subst.
    apply exact_test in Et. apply (read_blob_at _ _ _ _ _ _ Hat) in E as (? & ? & _ & rest' & -> & ?). by eexists _, rest'.
  - intros (bs & rest' & [(Hm & Hu & Hx) ->] & -> & Hat').
    rewrite (read_blob_fwd _ _ _ _ _ Hat Hm Hu), (proj2 (exact_test _ _ _) Hx).
    do 2 f_equal. apply (at_off_app _ _ (blob x)) in Hat. rewrite size_blob in Hat. apply (at_off_unique _ _ _ _ Hat Hat').
Qed.

#[export] Instance reads_text max : Reads (rd_text max) (written (blob_fits max 0 false) blob).
Proof. apply reads_blob. Qed.

#[export] Instance reads_count max :
  Reads (rd_count max) (fun n bs rest => in_u32 n /\ n <= max /\ n * 4 <= size rest /\ bs = be32 n).
Proof.
  unfold rd_count. split.
  { intros d st x st'. destruct (rd_u32 d st) as [n st1] eqn:E. intros [= _ <-] Hok. simpl.
    apply (reads_failed (m := rd_u32)) in E; [|done]. rewrite E. by destruct (_ || _). }
  intros d off rest x off' Hat. split.
  - destruct (rd_u32 d (mkReader off true)) as [n [o ok]] eqn:E. simpl.
    destruct (_ || _) eqn:Et; [done|]. destruct ok; [|done]. intros [=]; subst.
    apply (reads_at (m := rd_u32) _ _ _ _ _ Hat) in E as (bs & rest' & [Hu ->] & -> & Hat').
    bool_prop. pose proof Hat' as (? & Hs & _). pose proof (size_nonneg rest').
    exists (be32 x), rest'. split_and!; [done|done|lia|done|done|done].
  - intros (bs & rest' & (Hu & Hm & Hn & ->) & -> & Hat').
    rewrite (proj2 (reads_at (m := rd_u32) _ _ _ x off' Hat)) by (by exists (be32 x), rest').
    cbn [rd_ok rd_off]. pose proof Hat' as (? & Hs & _). pose proof (size_nonneg rest').
    rewrite (proj2 (Z.ltb_ge max x)), (proj2 (Z.ltb_ge _ (x * 4))) by lia. done.
Qed.

Section lists.
Context {A : Type} {body : rd A} {Ok : A -> Prop} {w : A -> bytes}.
Context {HR : Reads body (written Ok w)}.

Lemma rd_loop_failed n acc d st l st' : rd_loop body n acc d st = (l, st') -> rd_ok st = false -> rd_ok st' = false.
Proof. destruct n; simpl; [by intros [= _ <-]|]. intros Hr Hok. rewrite Hok in Hr. by injection Hr as _ <-. Qed.

Lemma rd_loop_at n acc d off rest l off' :
  at_off d off rest ->
  rd_loop body n acc d (mkReader off true) = (l, mkReader off' true) <->
  exists xs, l = acc ++ xs /\ length xs = n /\ Forall Ok xs /\
    exists rest', rest = concat (map w xs) ++ rest' /\ at_off d off' rest'.
Proof.
  revert acc off rest. induction n as [|n IH]; intros acc off rest Hat; simpl.
  - split.
    + intros [= <- <-]. exists []. rewrite app_nil_r. split_and!; [done..|]. by exists rest.
    + intros (xs & -> & Hl & _ & rest' & -> & Hat'). destruct xs; [|done]. rewrite app_nil_r. do 2 f_equal.
      apply (at_off_unique _ _ _ _ Hat Hat').
  - split.
    + destruct (body d (mkReader off true)) as [x [o ok]] eqn:E. intros Hr.
      destruct ok; [|apply rd_loop_failed in Hr; done].
      apply (reads_at (m := body) _ _ _ _ _ Hat) in E as (bs & r1 & [Hx ->] & -> & Hat1).
      apply (IH _ _ _ Hat1) in Hr as (xs & -> & Hl & Hf & rest' & -> & Hat').
      exists (x :: xs). simpl. rewrite <- app_assoc. split_and!; [done|by f_equal|by constructor|]. exists rest'. by rewrite <- app_assoc.
    + intros ([|x xs] & -> & Hl & Hf & rest' & -> & Hat'); [done|]. apply Forall_cons in Hf as [Hx Hf].
      simpl in Hat. rewrite <- app_assoc in Hat. pose proof (at_off_app _ _ _ _ Hat) as Hat1.
      rewrite (proj2 (reads_at (m := body) _ _ _ x _ Hat)) by (exists (w x), (concat (map w xs) ++ rest'); unfold written; by split_and!).
      apply (IH _ _ _ Hat1). exists xs. rewrite <- app_assoc. split_and!; [done|by injection Hl|done|]. by exists rest'.
Qed.

Lemma size_concat_ge xs : (forall x, Ok x -> 4 <= size (w x)) -> Forall Ok xs -> size xs * 4 <= size (concat (map w xs)).
Proof.
  intros Hw. induction 1 as [|x xs Hx _ IH]; simpl; [done|]. specialize (Hw x Hx). rewrite size_cons, size_app. lia.
Qed.

(** A counted list: as many elements as the count says, each at least four bytes. *)
Lemma reads_list max :
  max < 2 ^ 32 -> (forall x, Ok x -> 4 <= size (w x)) ->
  Reads (rd_list max body) (written (fun l => size l <= max /\ Forall Ok l) (fun l => be32 (size l) ++ concat (map w l))).
Proof.
  intros Hmax Hw. unfold rd_list, rd_bind, written. split.
  { intros d st l st'. destruct (rd_count max d st) as [n st1] eqn:E. intros Hr Hok.
    apply (rd_loop_failed _ _ _ _ _ _ Hr). by apply (reads_failed (m := rd_count max) _ _ _ _ E). }
  intros d off rest l off' Hat. split.
  - destruct (rd_count max d (mkReader off true)) as [n [o ok]] eqn:E. intros Hr.
    destruct ok; [|apply rd_loop_failed in Hr; done].
    apply (reads_at (m := rd_count max) _ _ _ _ _ Hat) in E as (bs & r1 & (Hu & Hn & _ & ->) & -> & Hat1).
    apply (rd_loop_at _ _ _ _ _ _ _ Hat1) in Hr as (xs & -> & Hl & Hf & rest' & -> & Hat').
    apply (count_is_size xs n Hu) in Hl as ->. eexists _, rest'. rewrite <- app_assoc. by split_and!.
  - intros (bs & rest' & ((Hl & Hf) & ->) & -> & Hat'). rewrite <- app_assoc in Hat.
    assert (in_u32 (size l)) as Hu by (unfold in_u32; pose proof (size_nonneg l); lia).
    pose proof (at_off_app _ _ (be32 (size l)) _ Hat) as Hat1.
    rewrite (proj2 (reads_at (m := rd_count max) _ _ _ (size l) (off + size (be32 (size l))) Hat)); cycle 1.
    { eexists _, _. split_and!; [done|done| |reflexivity|reflexivity|exact Hat1].
      pose proof (size_concat_ge l Hw Hf). rewrite size_app. pose proof (size_nonneg rest'). lia. }
    apply (rd_loop_at _ _ _ _ _ _ _ Hat1). exists l. split_and!; [done|apply length_is_count|done|]. by exists rest'.
Qed.
End lists.

(** ** Items *)

(** The sizes and values the parser accepts of an archive, and what is written. *)
Definition archive_ok (a : ArchiveItem) : Prop :=
  size a.(ai_conversation_id) = 16 /\
  (0 < size a.(ai_relay_address) <= 255) /\ size a.(ai_relay_id) = 32 /\
  (a.(ai_role) = 1 \/ a.(ai_role) = 2) /\ 0 <= a.(ai_state) <= 2 /\ size a.(ai_archive_key) = 32 /\
  (0 < size a.(ai_chat_public_key) <= MAX_KEYRING_KEY_BLOB) /\ (0 < size a.(ai_chat_private_key) <= MAX_KEYRING_KEY_BLOB) /\
  (a.(ai_join_token) = [] \/ size a.(ai_join_token) = 32).
Definition put_archive (a : ArchiveItem) : bytes :=
  blob a.(ai_conversation_id) ++ blob a.(ai_relay_address) ++ blob a.(ai_relay_id) ++ be32 a.(ai_role) ++ be32 a.(ai_state)
  ++ blob a.(ai_archive_key) ++ blob a.(ai_chat_public_key) ++ blob a.(ai_chat_private_key) ++ blob a.(ai_join_token).

Definition member_token_ok (t : MemberToken) : Prop :=
  size t.(mt_conversation_id) = 16 /\ size t.(mt_member_fp) <= 64 /\ size t.(mt_token) = 32.
Definition put_member_token (t : MemberToken) : bytes :=
  blob t.(mt_conversation_id) ++ blob t.(mt_member_fp) ++ blob t.(mt_token).

Definition introduced_ok (i : Introduced) : Prop :=
  size i.(in_fp) <= 64 /\ (0 < size i.(in_bundle) <= MAX_BUNDLE) /\ in_i64 i.(in_issued_at) /\
  size i.(in_introduced_by) <= 64 /\ in_i64 i.(in_first_seen).
Definition put_introduced (i : Introduced) : bytes :=
  blob i.(in_fp) ++ blob i.(in_bundle) ++ be64 (u64 i.(in_issued_at)) ++ blob i.(in_introduced_by) ++ be64 (u64 i.(in_first_seen)).

Definition issued_token_ok (t : IssuedToken) : Prop :=
  size t.(it_hash) = 32 /\ size t.(it_label) <= MAX_TEXT /\ in_i64 t.(it_created_at) /\ size t.(it_bound_fp) <= 64.
Definition put_issued_token (t : IssuedToken) : bytes :=
  blob t.(it_hash) ++ blob t.(it_label) ++ be64 (u64 t.(it_created_at)) ++ blob t.(it_bound_fp)
  ++ be32 (if t.(it_revoked) then 1 else 0).

Definition receipts_ok (r : Receipts) : Prop := size r.(rc_conversation_id) = 16.
Definition receipt_flags (r : Receipts) : Z := Z.lor (if r.(rc_delivery) then 1 else 0) (if r.(rc_read) then 2 else 0).
Definition put_receipts (r : Receipts) : bytes := blob r.(rc_conversation_id) ++ be32 (receipt_flags r).

Lemma i64_u64 z : in_i64 z -> i64 (u64 z) = z.
Proof. unfold in_i64, i64, u64. intros. Zlia. Qed.
Lemma u64_i64 z : in_u64 z -> u64 (i64 z) = z.
Proof. unfold in_u64, i64, u64. intros. Zlia. Qed.
Lemma i64_range z : in_i64 (i64 z).
Proof. unfold in_i64, i64. Zlia. Qed.
Lemma u64_range z : in_u64 (u64 z).
Proof. unfold in_u64, u64. Zlia. Qed.

Lemma blob_fits_exact max n b : 0 < n <= max -> max < 2 ^ 32 -> blob_fits max n false b <-> size b = n.
Proof. unfold blob_fits, in_u32. intros. split; [intros (_ & _ & [?|[?|[? _]]]); done || lia|]. intros <-. split_and!; lia || auto. Qed.

Lemma blob_fits_max max b : max < 2 ^ 32 -> blob_fits max 0 false b <-> size b <= max.
Proof. unfold blob_fits, in_u32. intros. pose proof (size_nonneg b). split; [tauto|]. intros. split_and!; lia || auto. Qed.

Lemma blob_fits_optional max n b : 0 < n <= max -> max < 2 ^ 32 -> blob_fits max n true b <-> b = [] \/ size b = n.
Proof.
  unfold blob_fits, in_u32. intros. split; [intros (_ & _ & [?|[?|[_ ?]]]); auto; lia|].
  intros [->|<-]; [change (size (A:=byte) []) with 0|]; split_and!; lia || auto.
Qed.

(** Take the relation of an item reader apart, and put it together again. *)
Ltac item_inv :=
  repeat match goal with
  | Hx : exists _, _ |- _ => destruct Hx as [? Hx]
  | Hx : _ /\ _ |- _ => destruct Hx as [? ?]
  end; subst;
  repeat match goal with
  | Hx : blob_fits _ 0 false _ |- _ => apply blob_fits_max in Hx; [|done]
  | Hx : blob_fits _ _ false _ |- _ => apply blob_fits_exact in Hx; [|done..]
  | Hx : blob_fits _ _ true _ |- _ => apply blob_fits_optional in Hx; [|done..]
  end; bool_prop.
Ltac item_side :=
  first
  [ done | by apply blob_fits_max | by apply blob_fits_exact | by apply blob_fits_optional
  | apply blob_fits_max; [done|lia] | apply u64_range | unfold in_u32; lia ].
Ltac item_step v := exists v; eexists; split; [item_side|]; split; [reflexivity|].

#[export] Instance reads_member_token : Reads read_member_token (written member_token_ok put_member_token).
Proof.
  eapply reads_iff; [|apply _]. cbv beta. unfold written, member_token_ok, put_member_token. intros x bs rest. split.
  - intros Hx. item_inv. simpl. by rewrite app_nil_r.
  - intros [(H1 & H2 & H3) ->]. destruct x as [c f t]; simpl in *. rewrite (app_nil_tail (blob t)).
    item_step c. item_step f. item_step t. done.
Qed.

#[export] Instance reads_introduced_item : Reads read_introduced_item (written introduced_ok put_introduced).
Proof.
  eapply reads_iff; [|apply _]. cbv beta. unfold written, introduced_ok, put_introduced. intros x bs rest. split.
  - intros Hx. item_inv. simpl. rewrite !u64_i64, app_nil_r by done.
    match goal with Hx : is_empty _ = false |- _ => apply is_empty_false in Hx end.
    split_and!; try done; apply i64_range.
  - intros [(H1 & [H2 H3] & H4 & H5 & H6) ->]. destruct x as [f b t o s]; simpl in *. rewrite (app_nil_tail (be64 (u64 s))).
    item_step f. item_step b. item_step (u64 t). item_step o. item_step (u64 s).
    rewrite !i64_u64 by done. split; [by apply is_empty_false|done].
Qed.

#[export] Instance reads_issued_token : Reads read_issued_token (written issued_token_ok put_issued_token).
Proof.
  eapply reads_iff; [|apply _]. cbv beta. unfold written, issued_token_ok, put_issued_token. intros x bs rest. split.
  - intros Hx. item_inv. simpl. rewrite !u64_i64, app_nil_r, flag_of_u32 by done. split_and!; try done; apply i64_range.
  - intros [(H1 & H2 & H3 & H4) ->]. destruct x as [h l t b r]; simpl in *.
    rewrite (app_nil_tail (be32 _)).
    item_step h. item_step l. item_step (u64 t). item_step b. exists (if r then 1 else 0). eexists.
    split; [apply flag_in_u32|]. split; [reflexivity|]. rewrite i64_u64, flag_le, flag_eqb by done. done.
Qed.

Lemma receipt_flags_cases f : in_u32 f -> f <= 3 ->
  Z.lor (if negb (Z.land f 1 =? 0) then 1 else 0) (if negb (Z.land f 2 =? 0) then 2 else 0) = f.
Proof. unfold in_u32. intros H1 H2. assert (f = 0 \/ f = 1 \/ f = 2 \/ f = 3) by lia. destruct_or?; by subst. Qed.

#[export] Instance reads_receipts : Reads read_receipts (written receipts_ok put_receipts).
Proof.
  eapply reads_iff; [|apply _]. cbv beta. unfold written, receipts_ok, put_receipts, receipt_flags. intros x bs rest. split.
  - intros Hx. item_inv. simpl. by rewrite receipt_flags_cases, app_nil_r by done.
  - intros [H1 ->]. destruct x as [c d r]; simpl in *. rewrite (app_nil_tail (be32 _)).
    item_step c. eexists _, _. split; [|split; [reflexivity|]]; destruct d, r; done.
Qed.

#[export] Instance reads_archive : Reads read_archive (written archive_ok put_archive).
Proof.
  eapply reads_iff; [|apply _]. cbv beta. unfold written, archive_ok, put_archive. intros x bs rest. split.
  - intros Hx. item_inv. simpl. rewrite app_nil_r.
    repeat match goal with Hx : is_empty _ = false |- _ => apply is_empty_false in Hx end.
    unfold in_u32 in *. split; [|done]. split_and!; try done; try lia.
  - intros [(H1 & [H2 H2'] & H3 & H4 & H5 & H6 & [H7 H7'] & [H8 H8'] & H9) ->].
    destruct x as [c a i r t k p q j]; simpl in *. rewrite (app_nil_tail (blob j)).
    item_step c. item_step a. item_step i. item_step r. item_step t. item_step k. item_step p. item_step q. item_step j.
    rewrite !orb_false_iff, !is_empty_false, Z.ltb_ge, andb_false_iff, !negb_false_iff, !Z.eqb_eq. by split_and!; try lia.
Qed.

(** ** The whole format *)

Definition contents_ok (c : Contents) : Prop :=
  (size c.(kc_archives) <= MAX_ARCHIVES /\ Forall archive_ok c.(kc_archives)) /\
  (size c.(kc_verified) <= MAX_ENTRIES /\ Forall (fun f => size f <= 64) c.(kc_verified)) /\
  (size c.(kc_member_tokens) <= MAX_ENTRIES /\ Forall member_token_ok c.(kc_member_tokens)) /\
  (size c.(kc_introduced) <= MAX_ENTRIES /\ Forall introduced_ok c.(kc_introduced)) /\
  (size c.(kc_issued_tokens) <= MAX_ENTRIES /\ Forall issued_token_ok c.(kc_issued_tokens)) /\
  (size c.(kc_receipts) <= MAX_ENTRIES /\ Forall receipts_ok c.(kc_receipts)).

Definition put_list {A} (w : A -> bytes) (l : list A) : bytes := be32 (size l) ++ concat (map w l).

Definition contents_bytes (c : Contents) : bytes :=
  put_list put_archive c.(kc_archives) ++ put_list blob c.(kc_verified)
  ++ put_list put_member_token c.(kc_member_tokens) ++ put_list put_introduced c.(kc_introduced)
  ++ put_list put_issued_token c.(kc_issued_tokens) ++ put_list put_receipts c.(kc_receipts).

Ltac at_least_4 := intros ? _; rewrite !size_app, ?size_blob, ?size_be32, ?size_be64;
  repeat match goal with |- context [size ?x] => lazymatch goal with _ : 0 <= size x |- _ => fail | _ => pose proof (size_nonneg x) end end; lia.

#[export] Instance reads_contents : Reads read_contents (written contents_ok contents_bytes).
Proof.
  pose proof (reads_list (body := read_archive) MAX_ARCHIVES ltac:(done) ltac:(unfold put_archive; at_least_4)) as R1.
  assert (Reads (rd_text 64) (written (fun f => size f <= 64) blob)) as R2'.
  { eapply reads_iff; [|apply reads_text]. intros x bs rest. unfold written. by rewrite blob_fits_max. }
  pose proof (reads_list (body := rd_text 64) (HR := R2') MAX_ENTRIES ltac:(done)
    ltac:(intros x _; rewrite size_blob; pose proof (size_nonneg x); lia)) as R2.
  pose proof (reads_list (body := read_member_token) MAX_ENTRIES ltac:(done) ltac:(unfold put_member_token; at_least_4)) as R3.
  pose proof (reads_list (body := read_introduced_item) MAX_ENTRIES ltac:(done) ltac:(unfold put_introduced; at_least_4)) as R4.
  pose proof (reads_list (body := read_issued_token) MAX_ENTRIES ltac:(done) ltac:(unfold put_issued_token; at_least_4)) as R5.
  pose proof (reads_list (body := read_receipts) MAX_ENTRIES ltac:(done) ltac:(unfold put_receipts; at_least_4)) as R6.
  eapply reads_iff; [|apply _]. cbv beta. unfold written, contents_ok, contents_bytes. intros x bs rest. split.
  - intros Hx. item_inv. simpl. rewrite app_nil_r. by split_and!.
  - intros [(H1 & H2 & H3 & H4 & H5 & H6) ->]. destruct x as [a v m i t r]; simpl in *.
    rewrite (app_nil_tail (put_list put_receipts r)).
    item_step a. item_step v. item_step m. item_step i. item_step t. item_step r. done.
Qed.

Lemma write_each_spec {A} (f : bytes -> A -> exc bytes) (Ok : A -> Prop) (w : A -> bytes) b l :
  (forall b x, Ok x -> f b x = Ret (b ++ w x)) -> Forall Ok l -> write_each f b l = Ret (b ++ concat (map w l)).
Proof.
  intros Hf Hl. revert b. induction Hl as [|x l Hx _ IH]; intros b; simpl; [by rewrite app_nil_r|].
  rewrite Hf by done. simpl. by rewrite IH, <- app_assoc.
Qed.

Lemma put_text_ok b s : size s <= MAX_TEXT -> put_text b s = Ret (b ++ blob s).
Proof. intros Hs. unfold put_text. by rewrite (proj2 (Z.ltb_ge _ _) Hs), write_blob_eq. Qed.

(** Every item the parser accepts is one the writer writes, as specified. *)
Lemma write_items_ok :
  (forall b a, archive_ok a -> write_archive b a = Ret (b ++ put_archive a)) /\
  (forall b t, member_token_ok t -> write_member_token b t = Ret (b ++ put_member_token t)) /\
  (forall b i, introduced_ok i -> write_introduced b i = Ret (b ++ put_introduced i)) /\
  (forall b t, issued_token_ok t -> write_issued_token b t = Ret (b ++ put_issued_token t)) /\
  (forall b r, receipts_ok r -> write_receipts b r = Ret (b ++ put_receipts r)).
Proof.
  unfold archive_ok, member_token_ok, introduced_ok, issued_token_ok, MAX_TEXT.
  split_and!; intros b x Hx.
  - unfold write_archive, put_archive. rewrite put_text_ok by (unfold MAX_TEXT; lia). cbn [exc_bind].
    rewrite !(u32_small _) by (unfold in_u32; lia). f_equal. encode_norm. done.
  - unfold write_member_token, put_member_token. rewrite put_text_ok by (unfold MAX_TEXT; lia). cbn [exc_bind].
    f_equal. encode_norm. done.
  - unfold write_introduced, put_introduced. rewrite put_text_ok by (unfold MAX_TEXT; lia). cbn [exc_bind].
    rewrite put_text_ok by (unfold MAX_TEXT; lia). cbn [exc_bind]. f_equal. encode_norm. done.
  - unfold write_issued_token, put_issued_token. rewrite put_text_ok by (unfold MAX_TEXT; lia). cbn [exc_bind].
    rewrite put_text_ok by (unfold MAX_TEXT; lia). cbn [exc_bind]. f_equal. encode_norm. done.
  - unfold write_receipts, put_receipts. f_equal. encode_norm. done.
Qed.

Definition keyring_bytes (c : Contents) : bytes :=
  blob KEYRING_MAGIC_LABEL ++ be32 KEYRING_VERSION ++ contents_bytes c.

Lemma serialize_ok c : contents_ok c -> serialize c = Ret (keyring_bytes c).
Proof.
  intros ([Na Ha] & [Nv Hv] & [Nm Hm] & [Ni Hi] & [Nt Ht] & [Nr Hr]).
  destruct write_items_ok as (W1 & W2 & W3 & W4 & W5). unfold serialize.
  rewrite !(u32_small _) by (eapply size_is_u32; [eassumption|done]).
  rewrite (write_each_spec _ _ _ _ _ W1 Ha). cbn [exc_bind].
  rewrite (write_each_spec put_text (fun f => size f <= 64) blob) by
    (done || (intros; apply put_text_ok; unfold MAX_TEXT; lia)). cbn [exc_bind].
  rewrite (write_each_spec _ _ _ _ _ W2 Hm). cbn [exc_bind]. rewrite (write_each_spec _ _ _ _ _ W3 Hi). cbn [exc_bind].
  rewrite (write_each_spec _ _ _ _ _ W4 Ht). cbn [exc_bind]. rewrite (write_each_spec _ _ _ _ _ W5 Hr).
  f_equal. unfold keyring_bytes, contents_bytes, put_list. encode_norm. done.
Qed.

Lemma parse_keyring_spec data c : parse_keyring data = Some c <-> contents_ok c /\ data = keyring_bytes c.
Proof.
  assert (in_u32 (size KEYRING_MAGIC_LABEL) /\ size KEYRING_MAGIC_LABEL <= 64) as [Hl1 Hl2] by (split; [split|]; vm_compute; congruence).
  assert (in_u32 KEYRING_VERSION) as Hver by done.
  unfold parse_keyring, keyring_bytes. split.
  - intros Hd. pose proof (at_off_0 data) as Hat.
    open_decode Hd. open_decode Hd. open_decode Hd. bool_prop. subst. read_inv_step. read_inv_step. subst.
    destruct (rd_u32 _ _) as [v [o1 ok1]] eqn:E1. simpl in Hd. destruct (_ || _) eqn:Et; [done|]. bool_prop. subst.
    apply (reads_at (m := rd_u32) _ _ _ _ _ Hat) in E1 as (bs & r1 & [_ ->] & -> & Hat1).
    destruct (read_contents _ _) as [c' [o2 ok2]] eqn:E2. simpl in Hd. destruct (_ || _) eqn:Et; [done|]. bool_prop.
    subst. injection Hd as <-.
    apply (reads_at (m := read_contents) _ _ _ _ _ Hat1) in E2 as (bs & r2 & [Hc ->] & -> & Hat2).
    apply at_off_end_inv in Hat2 as ->; [|done]. by rewrite app_nil_r.
  - intros [Hc Hd]. pose proof Hd as Hat. apply at_off_0_app in Hat. rewrite <- !app_assoc in Hat.
    read_fwd_step. read_fwd_step; [|done..]. cbv beta iota zeta. rewrite bool_decide_eq_true_2 by done. cbn [negb].
    pose proof (at_off_app _ _ (be32 _) _ Hat) as Hat1.
    rewrite (proj2 (reads_at (m := rd_u32) _ _ _ KEYRING_VERSION _ Hat)) by
      (eexists _, _; split; [by split|split; [reflexivity|exact Hat1]]).
    cbn [rd_ok negb orb Z.eqb Pos.eqb KEYRING_VERSION].
    pose proof (at_off_app _ _ (contents_bytes c) _ Hat1) as Hat2.
    rewrite (proj2 (reads_at (m := read_contents) _ _ _ c _ Hat1)) by
      (eexists _, _; split; [by split|split; [reflexivity|exact Hat2]]).
    cbn [rd_ok rd_off negb orb]. by rewrite (at_off_end_eqb _ _ Hat2).
Qed.

(** The keyring's format is exact. The parser accepts exactly the bytes the
    writer makes of contents within the limits; so what a reinstalled app restores
    is what was saved, and the same contents always give the same bytes. *)
Theorem keyring_format_exact data c :
  parse_keyring data = Some c <-> contents_ok c /\ serialize c = Ret data.
Proof.
  rewrite parse_keyring_spec. split.
  - intros [Hc ->]. split; [done|by apply serialize_ok].
  - intros [Hc Hs]. split; [done|]. rewrite (serialize_ok _ Hc) in Hs. by injection Hs.
Qed.

(** Sealed and opened again, a keyring is what it was. *)
Lemma keyring_seal_open `{PrimitiveLaws} nonce key mailbox plaintext :
  size key = 32 -> size nonce = 12 -> size mailbox = 16 -> size plaintext + 16 <= INT_MAX ->
  exists sealed, seal_keyring nonce key mailbox plaintext = Ret sealed /\
    size sealed = size plaintext + 28 /\ open_keyring key mailbox sealed = Some plaintext.
Proof.
  intros Hk Hn Hm Hp. unfold seal_keyring, open_keyring.
  assert (size (keyring_aad mailbox) <= INT_MAX) as Ha.
  { unfold keyring_aad. encode_norm. rewrite size_app, !size_blob, Hm. vm_compute. congruence. }
  destruct (nonce_sealed key nonce plaintext (keyring_aad mailbox) Hk Hn Hp Ha) as (He & Hs & Hd).
  rewrite He. cbn [exc_bind]. eexists. split; [reflexivity|]. split; [done|].
  pose proof (size_nonneg plaintext). rewrite Hs, Hk, (proj2 (Z.ltb_ge _ _)) by lia. cbn [Z.eqb Pos.eqb negb orb].
  by rewrite Hd.
Qed.
