(* ===== verification/KeyStore.v ===== *)
(** * The key store: client/key_store.h and key_store.cpp

    This user's key files, their protection by a passphrase, and the folder of
    contacts. The disk is three folders; what the file system answers, including
    that the process is stopped in the middle, is an input of every operation that
    writes. Reading a file that is there succeeds. File permissions, and the paths
    the messages carry, are left out. *)

From Stdlib Require Import ZArith Lia.
From stdpp Require Import base list strings gmap.
From S2P Require Import Prelude Wire Text Protocol Crypto MessageRecord IdentityBundle Attachment.
#[local] Open Scope Z_scope.

(** ** Operations on a disk that can fail *)

(** What the file system answers to a step: it is done; it is refused; it failed in
    the middle; or the process is stopped, before the step or with that many bytes
    of a new file written. *)
Inductive answer :=
  | Fine
  | Refused
  | Broken
  | Killed (wrote : option Z).

(** How an operation ends. *)
Inductive result (A : Type) :=
  | Returned (a : A)
  | Threw (what : string)
  | Stopped.
Arguments Returned {A} a.
Arguments Threw {A} what.
Arguments Stopped {A}.

(** The disk and the memory of the process.
    src/client/key_store.h 189-206 app_dir_ *)
Record KeyStore := mkKeyStore {
  ks_app : Folder;
  ks_keys : Folder;
  ks_contacts : gmap bytes Folder;
  cache_kem : bytes;
  cache_dsa : bytes;
  kdf_log2_n : Z;
}.

(** An operation, with the answers it gets; when they run out all goes well. *)
Definition M (A : Type) : Type := list answer -> KeyStore -> result A * list answer * KeyStore.

Definition ret {A} (a : A) : M A := fun w ks => (Returned a, w, ks).
Definition throw {A} (what : string) : M A := fun w ks => (Threw what, w, ks).
Definition mbind {A B} (m : M A) (k : A -> M B) : M B :=
  fun w ks =>
    match m w ks with
    | (Returned a, w, ks) => k a w ks
    | (Threw what, w, ks) => (Threw what, w, ks)
    | (Stopped, w, ks) => (Stopped, w, ks)
    end.
Definition get : M KeyStore := fun w ks => (Returned ks, w, ks).
Definition modify (f : KeyStore -> KeyStore) : M unit := fun w ks => (Returned tt, w, f ks).
Definition of_exc {A} (e : exc A) : M A := match e with Ret a => ret a | Throw what => throw what end.

Declare Scope store_scope.
Delimit Scope store_scope with store.
Notation "'do' x <- m ; k" := (mbind m (fun x => k)) (at level 100, x pattern, m at next level, k at level 200, right associativity) : store_scope.
#[local] Open Scope store_scope.

(** Ask the file system. *)
Definition ask : M answer :=
  fun w ks => match w with [] => (Returned Fine, [], ks) | a :: w => (Returned a, w, ks) end.
Definition stop {A} : M A := fun w ks => (Stopped, w, ks).

(** Which folder a file is in. *)
Inductive place :=
  | App
  | Keys
  | Contact_ (name : bytes).

Definition folder (p : place) (ks : KeyStore) : option Folder :=
  match p with
  | App => Some ks.(ks_app)
  | Keys => Some ks.(ks_keys)
  | Contact_ name => ks.(ks_contacts) !! name
  end.

Definition in_folder (p : place) (f : Folder -> Folder) (ks : KeyStore) : KeyStore :=
  match p with
  | App => mkKeyStore (f ks.(ks_app)) ks.(ks_keys) ks.(ks_contacts) ks.(cache_kem) ks.(cache_dsa) ks.(kdf_log2_n)
  | Keys => mkKeyStore ks.(ks_app) (f ks.(ks_keys)) ks.(ks_contacts) ks.(cache_kem) ks.(cache_dsa) ks.(kdf_log2_n)
  | Contact_ name =>
      mkKeyStore ks.(ks_app) ks.(ks_keys) (alter f name ks.(ks_contacts)) ks.(cache_kem) ks.(cache_dsa) ks.(kdf_log2_n)
  end.

(** ** Files *)

(** src/client/key_store.cpp 17-17 MAX_KEY_FILE_SIZE *)
Definition MAX_KEY_FILE_SIZE : Z := 64 * 1024.

(** src/client/key_store.cpp 19-29 read_file_bytes *)
Definition read_file_bytes (file : option bytes) : bytes :=
  match file with
  | None => []
  | Some data => if (size data =? 0) || (MAX_KEY_FILE_SIZE <? size data) then [] else data
  end.

Definition file_in (p : place) (name : bytes) (ks : KeyStore) : option bytes :=
  match folder p ks with Some f => f !! name | None => None end.

(** A temporary file beside the real one, and then a rename.
    src/client/key_store.cpp 40-61 write_file_atomic *)
Definition write_file_atomic (p : place) (name data : bytes) : M unit :=
  let tmp := name ++ str ".tmp" in
  do a <- ask;
  match a with
  | Refused => throw "Cannot write the file"
  | Broken => do _ <- modify (in_folder p (delete tmp)); throw "Cannot write the file"
  | Killed None => stop
  | Killed (Some k) => do _ <- modify (in_folder p <[tmp := ztake k data]>); stop
  | Fine =>
      do _ <- modify (in_folder p <[tmp := data]>);
      do a <- ask;
      match a with
      | Fine => modify (in_folder p (fun f => <[name := data]> (delete tmp f)))
      | Killed _ => stop
      | _ => do _ <- modify (in_folder p (delete tmp)); throw "Cannot write the file"
      end
  end.

(** [fs::create_directories] and the check of its error code. *)
Definition create_directories (make : KeyStore -> KeyStore) (what : string) : M unit :=
  do a <- ask;
  match a with
  | Fine => modify make
  | Killed _ => stop
  | _ => throw what
  end.

(** ** The user's keys *)

Definition PUBLIC_KEM : bytes := str "public_kem".
Definition PRIVATE_KEM : bytes := str "private_kem".
Definition PUBLIC_DSA : bytes := str "public_dsa".
Definition PRIVATE_DSA : bytes := str "private_dsa".

Definition exists_in (f : Folder) (name : bytes) : bool := match f !! name with Some _ => true | None => false end.

(** src/client/key_store.cpp 89-94 keys_exist *)
Definition keys_exist (ks : KeyStore) : bool :=
  forallb (exists_in ks.(ks_keys)) [PUBLIC_KEM; PRIVATE_KEM; PUBLIC_DSA; PRIVATE_DSA].

(** src/client/key_store.cpp 161-161 load_public_kem *)
Definition load_public_kem (ks : KeyStore) : bytes := read_file_bytes (ks.(ks_keys) !! PUBLIC_KEM).
(** src/client/key_store.cpp 163-163 load_public_dsa *)
Definition load_public_dsa (ks : KeyStore) : bytes := read_file_bytes (ks.(ks_keys) !! PUBLIC_DSA).

(** src/client/key_store.cpp 178-183 load_private *)
Definition load_private (ks : KeyStore) (path cache : bytes) : bytes :=
  let raw := read_file_bytes (ks.(ks_keys) !! path) in
  if is_empty raw || negb (is_protected_blob raw) then raw else cache.

(** src/client/key_store.cpp 162-162 load_private_kem *)
Definition load_private_kem (ks : KeyStore) : bytes := load_private ks PRIVATE_KEM ks.(cache_kem).
(** src/client/key_store.cpp 164-164 load_private_dsa *)
Definition load_private_dsa (ks : KeyStore) : bytes := load_private ks PRIVATE_DSA ks.(cache_dsa).

(** src/client/key_store.h 77-77 MIN_PASSPHRASE_BYTES *)
Definition MIN_PASSPHRASE_BYTES : Z := 8.
(** src/client/key_store.cpp 173-175 is_acceptable_passphrase *)
Definition is_acceptable_passphrase (passphrase : bytes) : bool := MIN_PASSPHRASE_BYTES <=? size passphrase.

(** src/client/key_store.cpp 169-169 KEM_LABEL *)
Definition KEM_LABEL : bytes := str "private_kem".
(** src/client/key_store.cpp 170-170 DSA_LABEL *)
Definition DSA_LABEL : bytes := str "private_dsa".

(** src/client/key_store.cpp 185-188 private_keys_protected *)
Definition private_keys_protected (ks : KeyStore) : bool :=
  is_protected_blob (read_file_bytes (ks.(ks_keys) !! PRIVATE_KEM)) || is_protected_blob (read_file_bytes (ks.(ks_keys) !! PRIVATE_DSA)).

(** src/client/key_store.cpp 190-195 private_keys_locked *)
Definition private_keys_locked (ks : KeyStore) : bool :=
  let kem_protected := is_protected_blob (read_file_bytes (ks.(ks_keys) !! PRIVATE_KEM)) in
  let dsa_protected := is_protected_blob (read_file_bytes (ks.(ks_keys) !! PRIVATE_DSA)) in
  (kem_protected && is_empty ks.(cache_kem)) || (dsa_protected && is_empty ks.(cache_dsa)).

(** src/client/key_store.cpp 197-203 set_cache *)
Definition set_cache (kem dsa : bytes) (ks : KeyStore) : KeyStore :=
  mkKeyStore ks.(ks_app) ks.(ks_keys) ks.(ks_contacts) kem dsa ks.(kdf_log2_n).

(** src/client/key_store.cpp 205-209 lock *)
Definition lock (ks : KeyStore) : KeyStore := set_cache [] [] ks.

(** src/client/key_store.h 100-100 set_kdf_cost *)
Definition set_kdf_cost (log2_n : Z) (ks : KeyStore) : KeyStore :=
  mkKeyStore ks.(ks_app) ks.(ks_keys) ks.(ks_contacts) ks.(cache_kem) ks.(cache_dsa) log2_n.

Section store.
Context `{P : Primitives}.

(** One key: the bytes, and whether they were protected; nothing for a wrong
    passphrase.
    src/client/key_store.cpp 218-231 read_private_keys *)
Definition read_private_item (ks : KeyStore) (passphrase path label : bytes) (expected : Z) : exc (option (bytes * bool)) :=
  let raw := read_file_bytes (ks.(ks_keys) !! path) in
  if is_empty raw then Throw "Cannot read the private key" else
  let! item :=
    if is_protected_blob raw then
      let! plain := unprotect_secret raw passphrase label in
      Ret (match plain with Some p => Some (p, true) | None => None end)
    else Ret (Some (raw, false)) in
  match item with
  | None => Ret None
  | Some (out, prot) =>
      if negb (size out =? expected) then Throw "The private key is corrupt or from an incompatible version" else
      Ret (Some (out, prot))
  end.

(** Both keys, whether one is protected and whether one is not.
    src/client/key_store.cpp 212-234 read_private_keys *)
Definition read_private_keys (ks : KeyStore) (passphrase : bytes) : exc (option (bytes * bytes * bool * bool)) :=
  let! k := read_private_item ks passphrase PRIVATE_KEM KEM_LABEL kem_secret_key_size in
  match k with
  | None => Ret None
  | Some (kem, kp) =>
      let! d := read_private_item ks passphrase PRIVATE_DSA DSA_LABEL sig_secret_key_size in
      match d with
      | None => Ret None
      | Some (dsa, dp) => Ret (Some (kem, dsa, kp || dp, negb kp || negb dp))
      end
  end.

(** The salts and nonces [protect_secret] draws. *)
Record Salts := mkSalts { salt_kem : bytes; nonce_kem : bytes; salt_dsa : bytes; nonce_dsa : bytes }.

(** src/client/key_store.cpp 236-242 write_protected *)
Definition write_protected (r : Salts) (kem dsa passphrase : bytes) : M unit :=
  do ks <- get;
  do kem_blob <- of_exc (protect_secret r.(salt_kem) r.(nonce_kem) kem passphrase KEM_LABEL ks.(kdf_log2_n));
  do dsa_blob <- of_exc (protect_secret r.(salt_dsa) r.(nonce_dsa) dsa passphrase DSA_LABEL ks.(kdf_log2_n));
  do _ <- write_file_atomic Keys PRIVATE_KEM kem_blob;
  write_file_atomic Keys PRIVATE_DSA dsa_blob.

(** src/client/key_store.cpp 244-258 unlock *)
Definition unlock (r : Salts) (passphrase : bytes) : M bool :=
  if is_empty passphrase then ret false else
  do ks <- get;
  do keys <- of_exc (read_private_keys ks passphrase);
  match keys with
  | None => ret false
  | Some (kem, dsa, any_protected, any_plain) =>
      do _ <- modify (set_cache kem dsa);
      if any_protected && any_plain then do _ <- write_protected r kem dsa passphrase; ret true else ret true
  end.

(** src/client/key_store.cpp 260-269 verify_passphrase *)
Definition verify_passphrase (ks : KeyStore) (passphrase : bytes) : exc bool :=
  if is_empty passphrase then Ret false else
  let! keys := read_private_keys ks passphrase in
  Ret (match keys with Some (_, _, any_protected, _) => any_protected | None => false end).

(** src/client/key_store.cpp 271-286 set_passphrase *)
Definition set_passphrase (r : Salts) (passphrase : bytes) : M unit :=
  if negb (is_acceptable_passphrase passphrase) then throw "The passphrase is too short (use at least 8 characters)" else
  do ks <- get;
  let kem := load_private_kem ks in
  let dsa := load_private_dsa ks in
  if negb (size kem =? kem_secret_key_size) || negb (size dsa =? sig_secret_key_size)
  then throw "Your keys are locked. Unlock them first" else
  do _ <- write_protected r kem dsa passphrase;
  modify (set_cache kem dsa).

(** src/client/key_store.cpp 288-301 remove_passphrase *)
Definition remove_passphrase : M unit :=
  do ks <- get;
  let kem := load_private_kem ks in
  let dsa := load_private_dsa ks in
  if negb (size kem =? kem_secret_key_size) || negb (size dsa =? sig_secret_key_size)
  then throw "Your keys are locked. Unlock them first" else
  do _ <- write_file_atomic Keys PRIVATE_KEM kem;
  do _ <- write_file_atomic Keys PRIVATE_DSA dsa;
  modify lock.

(** [private_ok].
    src/client/key_store.cpp 113-116 initialize_keys *)
Definition private_ok (ks : KeyStore) (path : bytes) (expected : Z) : bool :=
  let raw := read_file_bytes (ks.(ks_keys) !! path) in
  negb (is_empty raw) && (is_protected_blob raw || (size raw =? expected)).

(** [kem_seed], [sig_seed]: the randomness of the new key pairs.
    src/client/key_store.cpp 96-159 initialize_keys *)
Definition initialize_keys (kem_seed sig_seed : bytes) (r : Salts) (passphrase : bytes) : M unit :=
  do _ <- create_directories id "Cannot create the folder";
  do _ <- create_directories id "Cannot create the folder";
  do ks <- get;
  let present := size (filter (fun f => exists_in ks.(ks_keys) f = true) [PUBLIC_KEM; PRIVATE_KEM; PUBLIC_DSA; PRIVATE_DSA]) in
  if present =? 4 then
    if negb (size (load_public_kem ks) =? kem_public_key_size) || negb (size (load_public_dsa ks) =? sig_public_key_size)
       || negb (private_ok ks PRIVATE_KEM kem_secret_key_size) || negb (private_ok ks PRIVATE_DSA sig_secret_key_size)
    then throw "Key files are corrupt or from an incompatible version" else ret tt
  else
  if negb (present =? 0) then throw "Some key files are missing. Not generating new keys over a partial set" else
  if negb (is_empty passphrase) && negb (is_acceptable_passphrase passphrase)
  then throw "The passphrase is too short (use at least 8 characters)" else
  let kem := generate_kem_keypair kem_seed in
  let sig := generate_sig_keypair sig_seed in
  do _ <- write_file_atomic Keys PUBLIC_KEM kem.1;
  do _ <- write_file_atomic Keys PUBLIC_DSA sig.1;
  if is_empty passphrase then
    do _ <- write_file_atomic Keys PRIVATE_KEM kem.2;
    write_file_atomic Keys PRIVATE_DSA sig.2
  else
    do _ <- write_protected r kem.2 sig.2 passphrase;
    modify (set_cache kem.2 sig.2).

(** src/client/key_store.cpp 303-305 own_fingerprint *)
Definition own_fingerprint (ks : KeyStore) : bytes := fingerprint (load_public_dsa ks).

(** ** Contacts *)

(** src/client/key_store.h 25-47 Contact *)
Record Contact := mkContact {
  co_name : bytes;
  co_pub_kem : bytes;
  co_pub_dsa : bytes;
  co_fingerprint : bytes;
  kem_verified : bool;
  bundle_issued_at : Z;
  co_relay_address : bytes;
  co_relay_id : bytes;
  co_mailbox_id : bytes;
  co_send_token : bytes;
}.

(** src/client/key_store.h 43-46 can_message *)
Definition can_message (c : Contact) : bool :=
  c.(kem_verified) && negb (is_empty c.(co_relay_address)) && (size c.(co_relay_id) =? 32) && (size c.(co_mailbox_id) =? 16)
  && (size c.(co_send_token) =? 32).

(** src/client/key_store.cpp 307-315 self_contact *)
Definition self_contact (ks : KeyStore) : Contact :=
  mkContact (str "yourself") (load_public_kem ks) (load_public_dsa ks) (fingerprint (load_public_dsa ks)) true 0 [] [] [] [].

Definition contact_char (c : byte) : bool := is_alnum c || bool_decide (c ∈ map chr [32; 45; 95; 46]).
Definition dot_or_space (c : byte) : bool := bool_decide (c = chr 46) || bool_decide (c = chr 32).

(** src/client/key_store.cpp 317-338 is_valid_contact_name *)
Definition is_valid_contact_name (name : bytes) : bool :=
  if is_empty name || (64 <? size name) then false else
  if negb (forallb contact_char name) then false else
  if match head name with Some c => dot_or_space c | None => false end
     || match last name with Some c => dot_or_space c | None => false end then false else
  let lower := map to_lower name in
  if bool_decide (lower = str "self") then false else
  let base := match find_char (chr 46) lower with Some i => ztake i lower | None => lower end in
  negb (bool_decide (base ∈ map str
    ["con"; "prn"; "aux"; "nul"; "com1"; "com2"; "com3"; "com4"; "com5"; "com6"; "com7"; "com8"; "com9";
     "lpt1"; "lpt2"; "lpt3"; "lpt4"; "lpt5"; "lpt6"; "lpt7"; "lpt8"; "lpt9"])).

(** The folder of a contact, on a system whose file names are bytes.
    src/client/key_store.cpp 343-352 contact_dir *)
Definition contact_dir (name : bytes) : option place :=
  if is_empty name || bool_decide (name = str ".") || bool_decide (name = str "..")
     || existsb (fun c => bool_decide (c ∈ map chr [47; 92; 58; 0])) name
  then None else Some (Contact_ name).

Definition make_contact_folder (name : bytes) (ks : KeyStore) : KeyStore :=
  match ks.(ks_contacts) !! name with
  | Some _ => ks
  | None => mkKeyStore ks.(ks_app) ks.(ks_keys) (<[name := ∅]> ks.(ks_contacts)) ks.(cache_kem) ks.(cache_dsa) ks.(kdf_log2_n)
  end.

Definition PUB_KEM : bytes := str "pub_kem".
Definition PUB_DSA : bytes := str "pub_dsa".
Definition BUNDLE : bytes := str "bundle".
Definition SEND_TOKEN : bytes := str "send_token".

(** [fs::remove] with an error code nobody looks at. *)
Definition remove_quietly (p : place) (name : bytes) : M unit :=
  do a <- ask;
  match a with
  | Fine => modify (in_folder p (delete name))
  | Killed _ => stop
  | _ => ret tt
  end.

(** src/client/key_store.cpp 354-373 save_contact *)
Definition save_contact (name pub_kem pub_dsa : bytes) : M unit :=
  if negb (is_valid_contact_name name) then throw "Invalid contact name. Use 1-64 letters, digits, spaces, '-', '_' or '.'" else
  if negb (size pub_kem =? kem_public_key_size) || negb (size pub_dsa =? sig_public_key_size)
  then throw "These files are not ML-KEM-768 / ML-DSA-65 public keys" else
  do _ <- create_directories (make_contact_folder name) "Cannot create contact folder";
  do _ <- remove_quietly (Contact_ name) BUNDLE;
  do _ <- write_file_atomic (Contact_ name) PUB_KEM pub_kem;
  write_file_atomic (Contact_ name) PUB_DSA pub_dsa.

(** src/client/key_store.cpp 375-392 save_contact_bundle *)
Definition save_contact_bundle (name : bytes) (bundle : IdentityBundle) : M unit :=
  if negb (is_valid_contact_name name) then throw "Invalid contact name. Use 1-64 letters, digits, spaces, '-', '_' or '.'" else
  if is_empty bundle.(ib_raw) || negb (size bundle.(ib_signing_key) =? sig_public_key_size)
     || negb (size bundle.(ib_encryption_key) =? kem_public_key_size)
  then throw "This is not a valid identity bundle" else
  do _ <- create_directories (make_contact_folder name) "Cannot create contact folder";
  do _ <- write_file_atomic (Contact_ name) PUB_KEM bundle.(ib_encryption_key);
  do _ <- write_file_atomic (Contact_ name) PUB_DSA bundle.(ib_signing_key);
  write_file_atomic (Contact_ name) BUNDLE bundle.(ib_raw).

(** [now]: the clock.
    src/client/key_store.cpp 400-410 make_own_bundle *)
Definition make_own_bundle (rand : bytes) (now : Z) (ks : KeyStore) (display_name : bytes) (address : BundleAddress) : exc bytes :=
  let signing_private := load_private_dsa ks in
  if negb (size signing_private =? sig_secret_key_size) then Throw "Your keys are locked. Unlock them first" else
  create_identity_bundle rand (load_public_dsa ks) (load_public_kem ks) display_name address (u64 now) signing_private.

(** src/client/key_store.cpp 394-398 make_own_bundle *)
Definition make_own_bundle_hint (rand : bytes) (now : Z) (ks : KeyStore) (display_name relay_hint : bytes) : exc bytes :=
  make_own_bundle rand now ks display_name (mkBundleAddress relay_hint [] []).

(** [parse_identity_bundle] without asking for the reason. *)
Definition parsed (raw : bytes) : option IdentityBundle :=
  match parse_identity_bundle raw with Ret b => Some b | Throw _ => None end.

(** The bundle of a contact, if it names exactly these keys. *)
Definition matching_bundle (raw pub_kem pub_dsa : bytes) : option IdentityBundle :=
  let? b := parsed raw in
  if bool_decide (b.(ib_signing_key) = pub_dsa) && bool_decide (b.(ib_encryption_key) = pub_kem) then Some b else None.

(** src/client/key_store.cpp 443-453 load_contact_bundle_raw *)
Definition load_contact_bundle_raw (ks : KeyStore) (name : bytes) : option bytes :=
  let? dir := contact_dir name in
  let pub_kem := read_file_bytes (file_in dir PUB_KEM ks) in
  let pub_dsa := read_file_bytes (file_in dir PUB_DSA ks) in
  let raw := read_file_bytes (file_in dir BUNDLE ks) in
  if is_empty raw then None else
  let? _ := matching_bundle raw pub_kem pub_dsa in
  Some raw.

(** src/client/key_store.cpp 455-485 load_contact *)
Definition load_contact (ks : KeyStore) (name : bytes) : option Contact :=
  let? dir := contact_dir name in
  let pub_kem := read_file_bytes (file_in dir PUB_KEM ks) in
  let pub_dsa := read_file_bytes (file_in dir PUB_DSA ks) in
  if negb (size pub_kem =? kem_public_key_size) || negb (size pub_dsa =? sig_public_key_size) then None else
  let raw_bundle := read_file_bytes (file_in dir BUNDLE ks) in
  let bundle := if is_empty raw_bundle then None else matching_bundle raw_bundle pub_kem pub_dsa in
  let token := read_file_bytes (file_in dir SEND_TOKEN ks) in
  let token := if size token =? 32 then token else [] in
  let '(verified, issued, address, relay, mailbox) :=
    match bundle with
    | Some b =>
        if has_mailbox b then (true, b.(ib_issued_at), b.(ib_relay_hint), b.(ib_relay_id), b.(ib_mailbox_id))
        else (true, b.(ib_issued_at), [], [], [])
    | None => (false, 0, [], [], [])
    end in
  Some (mkContact name pub_kem pub_dsa (fingerprint pub_dsa) verified issued address relay mailbox token).

(** src/client/key_store.cpp 487-491 contact_exists *)
Definition contact_exists (ks : KeyStore) (name : bytes) : bool :=
  match contact_dir name with
  | Some dir => match folder dir ks with Some _ => true | None => false end
  | None => false
  end.

(** src/client/key_store.cpp 493-502 list_contacts *)
Definition list_contacts (ks : KeyStore) : list bytes := sort_by bytes_leb (map fst (map_to_list ks.(ks_contacts))).

(** src/client/key_store.cpp 504-510 find_contact_by_fingerprint *)
Definition find_contact_by_fingerprint (ks : KeyStore) (fp : bytes) : option Contact :=
  head (filter (fun c => c.(co_fingerprint) = fp) (omap (load_contact ks) (list_contacts ks))).

(** [remains]: the files that are left when removing the folder fails half way.
    src/client/key_store.cpp 512-518 delete_contact *)
Definition delete_contact (remains : bytes -> bool) (name : bytes) : M unit :=
  match contact_dir name with
  | None => ret tt
  | Some dir =>
      let some_files (f : Folder) : Folder := filter (fun '(n, _) => remains n = true) f in
      do a <- ask;
      match a with
      | Fine => modify (fun ks => mkKeyStore ks.(ks_app) ks.(ks_keys) (delete name ks.(ks_contacts)) ks.(cache_kem) ks.(cache_dsa) ks.(kdf_log2_n))
      | Killed _ => do _ <- modify (in_folder dir some_files); stop
      | Broken => do _ <- modify (in_folder dir some_files); throw "Cannot delete contact"
      | Refused => throw "Cannot delete contact"
      end
  end.

(** src/client/key_store.cpp 520-526 save_contact_token *)
Definition save_contact_token (name send_token : bytes) : M unit :=
  if negb (size send_token =? 32) then throw "A send token is 32 bytes" else
  do ks <- get;
  match contact_dir name with
  | Some dir =>
      match folder dir ks with
      | Some _ => write_file_atomic dir SEND_TOKEN send_token
      | None => throw "No such contact"
      end
  | None => throw "No such contact"
  end.

(** src/client/key_store.h 155-160 BundleImportResult *)
Inductive BundleImportResult := UnknownIdentity | Updated | Unchanged | Stale.

(** src/client/key_store.h 161-166 BundleImport *)
Record BundleImport := mkBundleImport {
  bi_result : BundleImportResult;
  bi_contact_name : bytes;
  encryption_key_changed : bool;
  was_unverified : bool;
}.

(** src/client/key_store.cpp 412-441 import_bundle_for_known_identity *)
Definition import_bundle_for_known_identity (bundle : IdentityBundle) (send_token : bytes) : M BundleImport :=
  do ks <- get;
  match find_contact_by_fingerprint ks (bundle_fingerprint bundle) with
  | None => ret (mkBundleImport UnknownIdentity [] false false)
  | Some existing =>
      let result r changed := mkBundleImport r existing.(co_name) changed (negb existing.(kem_verified)) in
      let same_key := bool_decide (bundle.(ib_encryption_key) = existing.(co_pub_kem)) in
      if existing.(kem_verified) && (bundle.(ib_issued_at) <=? existing.(bundle_issued_at)) then
        if same_key && (bundle.(ib_issued_at) =? existing.(bundle_issued_at)) && (size send_token =? 32)
           && negb (bool_decide (send_token = existing.(co_send_token)))
        then do _ <- save_contact_token existing.(co_name) send_token; ret (result Updated false)
        else ret (result (if same_key then Unchanged else Stale) false)
      else
        do _ <- save_contact_bundle existing.(co_name) bundle;
        do _ <- (if size send_token =? 32 then save_contact_token existing.(co_name) send_token else ret tt);
        ret (result Updated (negb same_key))
  end.

(** ** Local secrets *)

(** src/client/key_store.cpp 534-534 derive_local_key *)
Definition LOCAL_SALT : bytes := str "pq-suite v3 local keys".

(** src/client/key_store.cpp 530-536 derive_local_key *)
Definition derive_local_key (ks : KeyStore) (label : bytes) : exc bytes :=
  let kem_private := load_private_kem ks in
  if negb (size kem_private =? kem_secret_key_size) then Ret [] else
  hkdf_sha256 kem_private LOCAL_SALT label 32.

(** src/client/key_store.cpp 539-539 ACCESS_WRAP_LABEL *)
Definition ACCESS_WRAP_LABEL : bytes := str "access key wrap".
(** src/client/key_store.cpp 540-540 ACCESS_WRAP_AAD *)
Definition ACCESS_WRAP_AAD : bytes := str "pq-suite v3 mailbox access key".

Definition PUBLIC_ACCESS : bytes := str "public_access".
Definition PRIVATE_ACCESS : bytes := str "private_access.enc".

(** src/client/key_store.cpp 543-546 has_access_key *)
Definition has_access_key (ks : KeyStore) : bool := exists_in ks.(ks_keys) PUBLIC_ACCESS && exists_in ks.(ks_keys) PRIVATE_ACCESS.

(** src/client/key_store.cpp 548-565 create_access_key *)
Definition create_access_key (seed nonce : bytes) : M unit :=
  do ks <- get;
  if has_access_key ks then throw "This mailbox already has an access key" else
  do wrap_key <- of_exc (derive_local_key ks ACCESS_WRAP_LABEL);
  if is_empty wrap_key then throw "Your keys are locked. Unlock them first" else
  let pair := generate_sig_keypair seed in
  do sealed <- of_exc (encrypt wrap_key nonce pair.2 ACCESS_WRAP_AAD);
  do _ <- write_file_atomic Keys PRIVATE_ACCESS (nonce ++ sealed);
  write_file_atomic Keys PUBLIC_ACCESS pair.1.

(** src/client/key_store.cpp 567-567 load_access_public *)
Definition load_access_public (ks : KeyStore) : bytes := read_file_bytes (ks.(ks_keys) !! PUBLIC_ACCESS).

(** src/client/key_store.cpp 569-580 load_access_private *)
Definition load_access_private (ks : KeyStore) : exc bytes :=
  let blob := read_file_bytes (ks.(ks_keys) !! PRIVATE_ACCESS) in
  if size blob <=? 12 + 16 then Ret [] else
  let! wrap_key := derive_local_key ks ACCESS_WRAP_LABEL in
  if is_empty wrap_key then Ret [] else
  let! plain := decrypt wrap_key (ztake 12 blob) (zdrop 12 blob) ACCESS_WRAP_AAD in
  match plain with
  | None => Ret []
  | Some plain => if negb (size plain =? sig_secret_key_size) then Ret [] else Ret plain
  end.

(** src/client/key_store.h 139-144 MailboxConfig *)
Record MailboxConfig := mkMailboxConfig { mc_host : bytes; mc_port : Z; mc_relay_id : bytes; mc_mailbox_id : bytes }.

Definition MAILBOX_CFG : bytes := str "mailbox.cfg".

(** src/client/key_store.cpp 582-599 load_mailbox_config *)
Definition load_mailbox_config (ks : KeyStore) : option MailboxConfig :=
  let raw := read_file_bytes (ks.(ks_app) !! MAILBOX_CFG) in
  if is_empty raw then None else
  let '(host, off) := read_string raw 0 255 in
  let '(port, off) := read_u32 raw off in
  let '(relay_id, off) := read_blob raw off 32 in
  let '(mailbox_id, off) := read_blob raw off 16 in
  let? host := host in
  let? port := port in
  if (port =? 0) || (65535 <? port) then None else
  let? relay_id := relay_id in
  if negb (size relay_id =? 32) then None else
  let? mailbox_id := mailbox_id in
  if negb (size mailbox_id =? 16) || negb (off =? size raw) then None else
  Some (mkMailboxConfig host port relay_id mailbox_id).

(** src/client/key_store.cpp 601-608 save_mailbox_config *)
Definition save_mailbox_config (config : MailboxConfig) : M unit :=
  let raw := write_string [] config.(mc_host) in
  let raw := write_u32 raw config.(mc_port) in
  let raw := write_blob raw config.(mc_relay_id) in
  let raw := write_blob raw config.(mc_mailbox_id) in
  write_file_atomic App MAILBOX_CFG raw.

(** The folder [dir] is one outside the store; what is written there is the result.
    src/client/key_store.cpp 610-620 export_public_keys *)
Definition export_public_keys (ks : KeyStore) (dir : Folder) (written : bool * bool) : exc (bytes * bytes) * Folder :=
  let kem := load_public_kem ks in
  let dsa := load_public_dsa ks in
  let kem_path := str "pq_public_kem.key" in
  let dsa_path := str "pq_public_dsa.key" in
  if is_empty kem || is_empty dsa then (Throw "Your public keys could not be read", dir) else
  if negb written.1 then (Throw "Cannot write the file", dir) else
  let dir := <[kem_path := kem]> dir in
  if negb written.2 then (Throw "Cannot write the file", dir) else
  (Ret (kem_path, dsa_path), <[dsa_path := dsa]> dir).
End store.
