(* ===== verification/KeyStoreProps.v ===== *)
(** * What the key store promises

    Keys are never replaced by accident and survive an interrupted change; a
    contact's verified key never goes back; what is saved is loaded again. *)

From Stdlib Require Import ZArith Lia.
From stdpp Require Import base list strings gmap.
From S2P Require Import Prelude Wire Text Protocol RelayProtocolSpec Crypto MessageRecord IdentityBundle Attachment KeyStore.
#[local] Open Scope Z_scope.
#[local] Open Scope store_scope.

(** ** Writing a file *)

Definition tmp_of (name : bytes) : bytes := name ++ str ".tmp".

Lemma tmp_ne name : tmp_of name <> name.
Proof. intros E. apply (f_equal size) in E. unfold tmp_of in E. rewrite size_app in E. change (size (str ".tmp")) with 4 in E. lia. Qed.

(** A change of one folder: only a file and its temporary file. *)
Definition touches (name : bytes) (g : Folder -> Folder) : Prop :=
  forall f n, n <> name -> n <> tmp_of name -> g f !! n = f !! n.

(** A write either happens or, whatever goes wrong and wherever the process stops,
    the file is as it was. *)
Lemma write_spec p name data w ks r w' ks' :
  write_file_atomic p name data w ks = (r, w', ks') ->
  exists g, ks' = in_folder p g ks /\ touches name g /\
    match r with Returned _ => forall f, g f !! name = Some data | _ => forall f, g f !! name = f !! name end.
Proof.
  assert (forall q g h (k : KeyStore), in_folder q g (in_folder q h k) = in_folder q (fun f => g (h f)) k) as Hcomp.
  { intros [| |n] g h k; simpl; [done..|]. f_equal. by rewrite alter_alter_eq. }
  assert (forall (k : KeyStore), k = in_folder p id k) as Hid.
  { intros []. destruct p; simpl; [done..|]. f_equal. by rewrite alter_id by done. }
  pose proof (tmp_ne name) as Hne. unfold write_file_atomic, mbind, ask, modify, throw, stop. fold (tmp_of name).
  destruct w as [|a w]; [|destruct a as [| | |[k|]]]; try (destruct w as [|a' w]; [|destruct a' as [| | |k']]);
    intros [= <- <- <-]; rewrite ?Hcomp;
    first [exists id; split; [by apply Hid|by split; [intros f n _ _|]]
          |eexists; split; [reflexivity|]; split; [intros f n H1 H2; simpl|intros f; simpl];
           rewrite ?lookup_insert_eq, ?lookup_insert_ne, ?lookup_delete_ne, ?lookup_insert_ne by done; done].
Qed.

(** In the folder of the keys. *)
Lemma write_keys name data w ks r w' ks' :
  write_file_atomic Keys name data w ks = (r, w', ks') ->
  (forall n, n <> name -> n <> tmp_of name -> ks'.(ks_keys) !! n = ks.(ks_keys) !! n) /\
  ks'.(ks_keys) !! name = match r with Returned _ => Some data | _ => ks.(ks_keys) !! name end /\
  ks'.(ks_contacts) = ks.(ks_contacts) /\ ks'.(ks_app) = ks.(ks_app) /\
  ks'.(cache_kem) = ks.(cache_kem) /\ ks'.(cache_dsa) = ks.(cache_dsa) /\ ks'.(kdf_log2_n) = ks.(kdf_log2_n).
Proof.
  intros (g & -> & Ht & Hr)%write_spec. simpl. split; [intros n H1 H2; by apply Ht|]. split; [|done].
  destruct r; simpl; by rewrite Hr.
Qed.

Lemma write_fine p name data ks :
  exists ks', write_file_atomic p name data [] ks = (Returned tt, [], ks').
Proof. eexists. reflexivity. Qed.

(** ** The private keys and their passphrase *)

Section keys.
Context `{PrimitiveLaws}.

Definition salts_ok (r : Salts) : Prop :=
  size r.(salt_kem) = 16 /\ size r.(nonce_kem) = 12 /\ size r.(salt_dsa) = 16 /\ size r.(nonce_dsa) = 12.

(** A key file: the key itself, or the key protected by the passphrase. *)
Definition key_file (passphrase label secret : bytes) (prot : bool) (file : option bytes) : Prop :=
  if prot then exists salt nonce n blob, file = Some blob /\ size salt = 16 /\ size nonce = 12 /\
    protect_secret salt nonce secret passphrase label n = Ret blob
  else file = Some secret.

(** A key: of the right size, and not one that looks like a protected file. *)
Definition key_ok (secret : bytes) (expected : Z) : Prop :=
  size secret = expected /\ 0 < expected <= 4032 /\ is_protected_blob secret = false.

Lemma key_not_empty secret expected : key_ok secret expected -> is_empty secret = false.
Proof. intros (Hs & He & _). destruct secret; [unfold size in Hs; simpl in Hs; lia|done]. Qed.

Lemma key_file_read passphrase label secret expected prot file :
  key_ok secret expected -> key_file passphrase label secret prot file ->
  exists raw, read_file_bytes file = raw /\ is_empty raw = false /\ is_protected_blob raw = prot /\
    (prot = false -> raw = secret) /\ (prot = true -> size label <= 100 -> unprotect_secret raw passphrase label = Ret (Some secret)).
Proof.
  intros Hk Hf. pose proof (key_not_empty _ _ Hk) as Hne. destruct Hk as (Hs & He & Hp). unfold key_file in Hf. destruct prot.
  - destruct Hf as (salt & nonce & n & blob & -> & Hsalt & Hnonce & Hpr).
    destruct (protect_layout _ _ _ _ _ _ _ Hsalt Hnonce Hpr) as [Hb Hsz]. exists blob. unfold read_file_bytes, MAX_KEY_FILE_SIZE.
    rewrite (proj2 (Z.eqb_neq _ _)), (proj2 (Z.ltb_ge _ _)) by lia. split; [done|]. split; [|split; [done|split; [done|]]].
    + destruct blob; [unfold size in Hsz; simpl in Hsz; lia|done].
    + intros _ Hl. apply (unprotect_protect salt nonce secret passphrase label n); try done; unfold INT_MAX in *; [lia|].
      unfold PROTECTED_HEADER_SIZE, PROTECTED_SALT_SIZE, PROTECTED_NONCE_SIZE. lia.
  - subst file. exists secret. unfold read_file_bytes, MAX_KEY_FILE_SIZE.
    rewrite (proj2 (Z.eqb_neq _ _)), (proj2 (Z.ltb_ge _ _)) by lia. by split_and!.
Qed.

Lemma read_item_spec ks passphrase path label secret expected prot :
  key_ok secret expected -> size label <= 100 -> key_file passphrase label secret prot (ks.(ks_keys) !! path) ->
  read_private_item ks passphrase path label expected = Ret (Some (secret, prot)).
Proof.
  intros Hk Hl Hf. destruct (key_file_read _ _ _ _ _ _ Hk Hf) as (raw & E & Hne & Hb & Hplain & Hsealed).
  unfold read_private_item. rewrite E, Hne, Hb. destruct Hk as (Hs & _). destruct prot.
  - rewrite (Hsealed eq_refl Hl). cbn [exc_bind]. by rewrite Hs, Z.eqb_refl.
  - rewrite (Hplain eq_refl). cbn [exc_bind]. by rewrite Hs, Z.eqb_refl.
Qed.

Lemma load_private_spec ks passphrase path label secret expected prot cache :
  key_ok secret expected -> key_file passphrase label secret prot (ks.(ks_keys) !! path) ->
  load_private ks path cache = if prot then cache else secret.
Proof.
  intros Hk Hf. destruct (key_file_read _ _ _ _ _ _ Hk Hf) as (raw & E & Hne & Hb & Hplain & _).
  unfold load_private. rewrite E, Hne, Hb. destruct prot; [done|]. simpl. by apply Hplain.
Qed.

(** The user's two keys, in a store of which each file is protected by this
    passphrase or not at all, and which remembers the keys or nothing. *)
Section identity.
Context (kem dsa passphrase : bytes).
Hypothesis Hkem : key_ok kem kem_secret_key_size.
Hypothesis Hdsa : key_ok dsa sig_secret_key_size.
Hypothesis Hpass : is_acceptable_passphrase passphrase = true.

Definition files (a b : bool) (ks : KeyStore) : Prop :=
  key_file passphrase KEM_LABEL kem a (ks.(ks_keys) !! PRIVATE_KEM) /\ key_file passphrase DSA_LABEL dsa b (ks.(ks_keys) !! PRIVATE_DSA).

Definition keeps (ks : KeyStore) : Prop :=
  (exists a b, files a b ks) /\ (ks.(cache_kem) = [] \/ ks.(cache_kem) = kem) /\ (ks.(cache_dsa) = [] \/ ks.(cache_dsa) = dsa) /\
  MIN_SCRYPT_LOG2_N <= ks.(kdf_log2_n) <= MAX_SCRYPT_LOG2_N.

Lemma pass_not_empty : passphrase <> [].
Proof. intros ->. done. Qed.
Lemma pass_is_empty : is_empty passphrase = false.
Proof. pose proof pass_not_empty. by destruct passphrase. Qed.

Lemma protect_key r secret expected label n :
  key_ok secret expected -> size r.1 = 16 -> size r.2 = 12 -> MIN_SCRYPT_LOG2_N <= n <= MAX_SCRYPT_LOG2_N -> size label <= 100 ->
  exists blob, protect_secret r.1 r.2 secret passphrase label n = Ret blob /\ key_file passphrase label secret true (Some blob).
Proof.
  intros (Hs & He & _) Hr1 Hr2 Hn Hl.
  destruct (protect_total r.1 r.2 secret passphrase label n Hr1 Hr2 pass_not_empty Hn) as [blob Hb].
  - unfold INT_MAX. lia.
  - unfold INT_MAX, PROTECTED_HEADER_SIZE, PROTECTED_SALT_SIZE, PROTECTED_NONCE_SIZE. lia.
  - exists blob. split; [done|]. by exists r.1, r.2, n, blob.
Qed.

(** A key file is replaced by another form of the same key, or not at all. *)
Lemma write_key_file (kemp : bool) data w ks res w' ks' prot :
  key_file passphrase (if kemp then KEM_LABEL else DSA_LABEL) (if kemp then kem else dsa) prot (Some data) ->
  write_file_atomic Keys (if kemp then PRIVATE_KEM else PRIVATE_DSA) data w ks = (res, w', ks') -> keeps ks ->
  keeps ks' /\ ks'.(cache_kem) = ks.(cache_kem) /\ ks'.(cache_dsa) = ks.(cache_dsa) /\
  (forall a b, files a b ks -> match res with
    | Returned _ => if kemp then files prot b ks' else files a prot ks'
    | _ => files a b ks' end).
Proof.
  intros Hd Hw ((a0 & b0 & Hf0) & Hck & Hcd & Hn). destruct (write_keys _ _ _ _ _ _ _ Hw) as (Hother & Hname & _ & _ & Ek & Ed & En).
  assert (forall a b, files a b ks -> match res with
    | Returned _ => if kemp then files prot b ks' else files a prot ks' | _ => files a b ks' end) as Hfiles.
  { intros a b [Hfk Hfd]. destruct kemp.
    - assert (ks'.(ks_keys) !! PRIVATE_DSA = ks.(ks_keys) !! PRIVATE_DSA) as E by (apply Hother; done).
      unfold files. rewrite E, Hname. by destruct res.
    - assert (ks'.(ks_keys) !! PRIVATE_KEM = ks.(ks_keys) !! PRIVATE_KEM) as E by (apply Hother; done).
      unfold files. rewrite E, Hname. by destruct res. }
  split_and!; [|done..]. unfold keeps. rewrite Ek, Ed, En. split; [|done]. specialize (Hfiles a0 b0 Hf0).
  destruct res; [destruct kemp|..]; by eexists _, _.
Qed.

Lemma write_protected_spec r w ks res w' ks' :
  salts_ok r -> keeps ks -> write_protected r kem dsa passphrase w ks = (res, w', ks') ->
  keeps ks' /\ ks'.(cache_kem) = ks.(cache_kem) /\ ks'.(cache_dsa) = ks.(cache_dsa) /\
  match res with Returned _ => files true true ks' | _ => True end.
Proof.
  intros (Hs1 & Hs2 & Hs3 & Hs4) Hk. pose proof Hk as ((a & b & Hf) & _ & _ & Hn).
  destruct (protect_key (salt_kem r, nonce_kem r) _ _ KEM_LABEL _ Hkem Hs1 Hs2 Hn) as (kb & Hkb & Hkf); [vm_compute; congruence|].
  destruct (protect_key (salt_dsa r, nonce_dsa r) _ _ DSA_LABEL _ Hdsa Hs3 Hs4 Hn) as (db & Hdb & Hdf); [vm_compute; congruence|].
  simpl in Hkb, Hdb. unfold write_protected, mbind at 1, get, of_exc. rewrite Hkb, Hdb. unfold mbind, ret.
  destruct (write_file_atomic Keys PRIVATE_KEM kb w ks) as [[r1 w1] ks1] eqn:E1.
  destruct (write_key_file true _ _ _ _ _ _ true Hkf E1 Hk) as (Hk1 & Ek1 & Ed1 & Hf1). specialize (Hf1 a b Hf).
  destruct r1 as [[]|what|]; [|by intros [= <- <- <-]..]. intros E2.
  destruct (write_key_file false _ _ _ _ _ _ true Hdf E2 Hk1) as (Hk2 & Ek2 & Ed2 & Hf2). specialize (Hf2 true b Hf1).
  split_and!; [done|congruence..|]. by destruct res.
Qed.

Lemma write_protected_fine r ks :
  salts_ok r -> keeps ks -> exists ks', write_protected r kem dsa passphrase [] ks = (Returned tt, [], ks').
Proof.
  intros (Hs1 & Hs2 & Hs3 & Hs4) (_ & _ & _ & Hn).
  destruct (protect_key (salt_kem r, nonce_kem r) _ _ KEM_LABEL _ Hkem Hs1 Hs2 Hn) as (kb & Hkb & _); [vm_compute; congruence|].
  destruct (protect_key (salt_dsa r, nonce_dsa r) _ _ DSA_LABEL _ Hdsa Hs3 Hs4 Hn) as (db & Hdb & _); [vm_compute; congruence|].
  simpl in Hkb, Hdb. unfold write_protected, mbind at 1, get, of_exc. rewrite Hkb, Hdb. by eexists.
Qed.

Lemma set_cache_keeps k d ks : (k = [] \/ k = kem) -> (d = [] \/ d = dsa) -> keeps ks -> keeps (set_cache k d ks).
Proof. intros Hk Hd ((a & b & Hf) & _ & _ & Hn). split; [by exists a, b|]. by simpl. Qed.

(** What is loaded is the key, unless it is protected and locked. *)
Lemma loaded_key path label secret expected cache ks a :
  key_ok secret expected -> key_file passphrase label secret a (ks.(ks_keys) !! path) -> (cache = [] \/ cache = secret) ->
  size (load_private ks path cache) = expected -> load_private ks path cache = secret.
Proof.
  intros Hk Hf Hc Hs. rewrite (load_private_spec _ _ _ _ _ _ _ _ Hk Hf) in *. destruct a; [|done].
  destruct Hc as [-> | ->]; [|done]. destruct Hk as (_ & ? & _). unfold size in Hs. simpl in Hs. lia.
Qed.

(** Both keys can be read with the passphrase. *)
Lemma read_keys_spec ks a b :
  files a b ks -> read_private_keys ks passphrase = Ret (Some (kem, dsa, a || b, negb a || negb b)).
Proof.
  intros [Hfk Hfd]. unfold read_private_keys.
  rewrite (read_item_spec _ _ _ _ _ _ _ Hkem) by (exact Hfk || (vm_compute; congruence)). cbn [exc_bind].
  rewrite (read_item_spec _ _ _ _ _ _ _ Hdsa) by (exact Hfd || (vm_compute; congruence)). done.
Qed.

(** What can be done with the keys under this passphrase, by the user or by chance. *)
Inductive key_op :=
  | Protect (r : Salts)
  | Unprotect
  | Unlock (r : Salts)
  | Lock.

Definition op_ok (o : key_op) : Prop := match o with Protect r | Unlock r => salts_ok r | _ => True end.

Definition run_op (o : key_op) (w : list answer) (ks : KeyStore) : KeyStore :=
  match o with
  | Protect r => (set_passphrase r passphrase w ks).2
  | Unprotect => (remove_passphrase w ks).2
  | Unlock r => (unlock r passphrase w ks).2
  | Lock => lock ks
  end.

(** The process is started again: what it remembered is gone. *)
Definition restarted (ks : KeyStore) : KeyStore := lock ks.

Lemma set_passphrase_keeps r w ks : salts_ok r -> keeps ks -> keeps (set_passphrase r passphrase w ks).2.
Proof.
  intros Hr Hk. pose proof Hk as ((a & b & Hfk & Hfd) & Hck & Hcd & _). unfold set_passphrase. rewrite Hpass. cbn [negb].
  unfold mbind at 1, get. destruct (negb _ || negb _) eqn:Es; [done|]. bool_prop.
  apply (loaded_key _ _ _ _ _ _ _ Hkem Hfk Hck) in H1. apply (loaded_key _ _ _ _ _ _ _ Hdsa Hfd Hcd) in H2.
  unfold load_private_kem, load_private_dsa. rewrite H1, H2. unfold mbind.
  destruct (write_protected r kem dsa passphrase w ks) as [[res w1] ks1] eqn:E.
  destruct (write_protected_spec _ _ _ _ _ _ Hr Hk E) as (Hk1 & _). destruct res; simpl; [|done..]. apply set_cache_keeps; auto.
Qed.

Lemma remove_passphrase_keeps w ks : keeps ks -> keeps (remove_passphrase w ks).2.
Proof.
  intros Hk. pose proof Hk as ((a & b & Hfk & Hfd) & Hck & Hcd & _). unfold remove_passphrase.
  unfold mbind at 1, get. destruct (negb _ || negb _) eqn:Es; [done|]. bool_prop.
  apply (loaded_key _ _ _ _ _ _ _ Hkem Hfk Hck) in H1. apply (loaded_key _ _ _ _ _ _ _ Hdsa Hfd Hcd) in H2.
  unfold load_private_kem, load_private_dsa. rewrite H1, H2. unfold mbind at 1.
  destruct (write_file_atomic Keys PRIVATE_KEM kem w ks) as [[r1 w1] ks1] eqn:E1.
  destruct (write_key_file true _ _ _ _ _ _ false eq_refl E1 Hk) as (Hk1 & _). destruct r1 as [[]|what|]; [|done..].
  unfold mbind. destruct (write_file_atomic Keys PRIVATE_DSA dsa w1 ks1) as [[r2 w2] ks2] eqn:E2.
  destruct (write_key_file false _ _ _ _ _ _ false eq_refl E2 Hk1) as (Hk2 & _). destruct r2 as [[]|what|]; [|done..].
  simpl. apply set_cache_keeps; auto.
Qed.

Lemma unlock_keeps r w ks : salts_ok r -> keeps ks -> keeps (unlock r passphrase w ks).2.
Proof.
  intros Hr Hk. pose proof Hk as ((a & b & Hf) & _). unfold unlock. destruct (is_empty passphrase); [done|].
  unfold mbind at 1, get, of_exc. rewrite (read_keys_spec ks a b Hf). unfold mbind, ret, modify.
  assert (keeps (set_cache kem dsa ks)) as Hk1 by (apply set_cache_keeps; auto).
  destruct ((a || b) && _); [|done]. destruct (write_protected _ _ _ _ _ _) as [[res w1] ks1] eqn:E.
  destruct (write_protected_spec _ _ _ _ _ _ Hr Hk1 E) as (Hk2 & _). by destruct res.
Qed.

Lemma run_op_keeps o w ks : op_ok o -> keeps ks -> keeps (run_op o w ks).
Proof.
  destruct o; simpl; intros Ho Hk; [by apply set_passphrase_keeps|by apply remove_passphrase_keeps|by apply unlock_keeps|].
  apply set_cache_keeps; auto.
Qed.

(** Unlocking, when nothing goes wrong. *)
Lemma unlock_fine r ks :
  salts_ok r -> keeps ks ->
  exists ks' c, unlock r passphrase [] ks = (Returned true, [], ks') /\ files c c ks' /\ ks'.(cache_kem) = kem /\ ks'.(cache_dsa) = dsa.
Proof.
  intros Hr Hk. pose proof Hk as ((a & b & Hf) & _). unfold unlock. rewrite pass_is_empty.
  unfold mbind at 1, get, of_exc. rewrite (read_keys_spec ks a b Hf). unfold mbind, ret, modify.
  assert (keeps (set_cache kem dsa ks)) as Hk1 by (apply set_cache_keeps; auto).
  destruct ((a || b) && _) eqn:Eab.
  - destruct (write_protected_fine r _ Hr Hk1) as [ks2 E]. rewrite E. exists ks2, true.
    destruct (write_protected_spec _ _ _ _ _ _ Hr Hk1 E) as (Hk2 & Ek & Ed & Hff). by rewrite Ek, Ed.
  - exists (set_cache kem dsa ks), a. split; [done|]. split; [|done]. assert (a = b) as <- by (by destruct a, b). done.
Qed.
End identity.

(** C28: The private keys are never lost. The key files are in the clear or
    protected by a passphrase. Whatever sequence of protecting, removing the
    protection, unlocking and locking is tried, whichever steps the file system
    refuses and wherever the process is stopped, after the next start the same
    passphrase unlocks the store, both keys are the ones that were there before, and
    either both files are protected or both are in the clear. *)
Theorem keys_survive_interruption kem dsa passphrase ks (steps : list (key_op * list answer)) r :
  key_ok kem kem_secret_key_size -> key_ok dsa sig_secret_key_size -> is_acceptable_passphrase passphrase = true ->
  keeps kem dsa passphrase ks -> Forall (fun s => op_ok s.1) steps -> salts_ok r ->
  let ks' := foldl (fun ks '(o, w) => run_op passphrase o w ks) ks steps in
  exists ks2, unlock r passphrase [] (restarted ks') = (Returned true, [], ks2) /\
    load_private_kem ks2 = kem /\ load_private_dsa ks2 = dsa /\
    is_protected_blob (read_file_bytes (ks2.(ks_keys) !! PRIVATE_KEM)) = is_protected_blob (read_file_bytes (ks2.(ks_keys) !! PRIVATE_DSA)).
Proof.
  intros Hk Hd Hp Hkeeps Hsteps Hr. cbv zeta.
  assert (keeps kem dsa passphrase (restarted (foldl (fun ks '(o, w) => run_op passphrase o w ks) ks steps))) as Hend.
  { apply set_cache_keeps; [auto..|]. revert ks Hkeeps. induction Hsteps as [|[o w] steps Ho Hs IH]; intros ks Hkeeps; simpl; [done|].
    by apply IH, run_op_keeps. }
  destruct (unlock_fine kem dsa passphrase Hk Hd Hp r _ Hr Hend) as (ks2 & c & Hu & [Hfk Hfd] & Ek & Ed).
  exists ks2. split; [done|]. unfold load_private_kem, load_private_dsa.
  rewrite (load_private_spec _ _ _ _ _ _ _ _ Hk Hfk), (load_private_spec _ _ _ _ _ _ _ _ Hd Hfd), Ek, Ed.
  destruct (key_file_read _ _ _ _ _ _ Hk Hfk) as (raw & -> & _ & -> & _).
  destruct (key_file_read _ _ _ _ _ _ Hd Hfd) as (raw' & -> & _ & -> & _). by destruct c.
Qed.
(** ** The first start *)

Lemma create_directories_id w ks what res w' ks' : create_directories id what w ks = (res, w', ks') -> ks' = ks.
Proof. unfold create_directories, mbind, ask. destruct w as [|[]]; by intros [= _ _ <-]. Qed.

Definition key_names : list bytes := [PUBLIC_KEM; PRIVATE_KEM; PUBLIC_DSA; PRIVATE_DSA].

Lemma none_present ks :
  size (filter (fun f => exists_in ks.(ks_keys) f = true) key_names) = 0 -> forall n, n ∈ key_names -> ks.(ks_keys) !! n = None.
Proof.
  rewrite size_zero_iff. intros E n Hn. destruct (ks.(ks_keys) !! n) as [c|] eqn:El; [|done].
  assert (n ∈ filter (fun f => exists_in ks.(ks_keys) f = true) key_names) as Hf
    by (apply list_elem_of_filter; unfold exists_in; by rewrite El).
  rewrite E in Hf. by apply not_elem_of_nil in Hf.
Qed.

Lemma all_present ks :
  size (filter (fun f => exists_in ks.(ks_keys) f = true) key_names) = 4 -> keys_exist ks = true.
Proof.
  unfold keys_exist, key_names. rewrite !filter_cons, filter_nil. cbn [forallb].
  destruct (exists_in _ PUBLIC_KEM), (exists_in _ PRIVATE_KEM), (exists_in _ PUBLIC_DSA), (exists_in _ PRIVATE_DSA);
    repeat case_decide; try done; vm_compute; congruence.
Qed.

(** Four new files. *)
Definition files_made (passphrase : bytes) (kem sig : bytes * bytes) (ks : KeyStore) : Prop :=
  let prot := negb (is_empty passphrase) in
  ks.(ks_keys) !! PUBLIC_KEM = Some kem.1 /\ ks.(ks_keys) !! PUBLIC_DSA = Some sig.1 /\
  key_file passphrase KEM_LABEL kem.2 prot (ks.(ks_keys) !! PRIVATE_KEM) /\ key_file passphrase DSA_LABEL sig.2 prot (ks.(ks_keys) !! PRIVATE_DSA) /\
  (prot = true -> ks.(cache_kem) = kem.2 /\ ks.(cache_dsa) = sig.2).

(** One write of a sequence that succeeded. *)
Lemma write_then {A} name data (k : unit -> M A) a w ks w' ks' :
  mbind (write_file_atomic Keys name data) k w ks = (Returned a, w', ks') ->
  exists w1 ks1, write_file_atomic Keys name data w ks = (Returned tt, w1, ks1) /\ k tt w1 ks1 = (Returned a, w', ks').
Proof. unfold mbind. destruct (write_file_atomic _ _ _ _ _) as [[[[]| |] w1] ks1]; [|done..]. intros ?. by exists w1, ks1. Qed.

(** A file another write does not touch. *)
Lemma write_other name data w ks w' ks' n :
  write_file_atomic Keys name data w ks = (Returned tt, w', ks') -> n <> name -> n <> tmp_of name ->
  ks'.(ks_keys) !! n = ks.(ks_keys) !! n.
Proof. intros (Ho & _)%write_keys. apply Ho. Qed.
Lemma write_this name data w ks w' ks' :
  write_file_atomic Keys name data w ks = (Returned tt, w', ks') -> ks'.(ks_keys) !! name = Some data /\ ks'.(kdf_log2_n) = ks.(kdf_log2_n).
Proof. by intros (_ & Hn & _ & _ & _ & _ & Hl)%write_keys. Qed.

Lemma write_four dk dd kp dp w0 w1 w2 w3 w4 ks0 ks1 ks2 ks3 ks4 :
  write_file_atomic Keys PUBLIC_KEM dk w0 ks0 = (Returned tt, w1, ks1) ->
  write_file_atomic Keys PUBLIC_DSA dd w1 ks1 = (Returned tt, w2, ks2) ->
  write_file_atomic Keys PRIVATE_KEM kp w2 ks2 = (Returned tt, w3, ks3) ->
  write_file_atomic Keys PRIVATE_DSA dp w3 ks3 = (Returned tt, w4, ks4) ->
  ks4.(ks_keys) !! PUBLIC_KEM = Some dk /\ ks4.(ks_keys) !! PUBLIC_DSA = Some dd /\
  ks4.(ks_keys) !! PRIVATE_KEM = Some kp /\ ks4.(ks_keys) !! PRIVATE_DSA = Some dp.
Proof.
  intros E1 E2 E3 E4. rewrite (write_other _ _ _ _ _ _ PUBLIC_KEM E4), (write_other _ _ _ _ _ _ PUBLIC_DSA E4),
    (write_other _ _ _ _ _ _ PRIVATE_KEM E4), (write_other _ _ _ _ _ _ PUBLIC_KEM E3), (write_other _ _ _ _ _ _ PUBLIC_DSA E3),
    (write_other _ _ _ _ _ _ PUBLIC_KEM E2) by done.
  split_and!; by eapply write_this.
Qed.

Lemma initialize_writes passphrase kem sig r w ks w' ks' :
  salts_ok r -> MIN_SCRYPT_LOG2_N <= ks.(kdf_log2_n) <= MAX_SCRYPT_LOG2_N ->
  key_ok kem.2 kem_secret_key_size -> key_ok sig.2 sig_secret_key_size ->
  negb (is_empty passphrase) && negb (is_acceptable_passphrase passphrase) = false ->
  (do _ <- write_file_atomic Keys PUBLIC_KEM kem.1;
   do _ <- write_file_atomic Keys PUBLIC_DSA sig.1;
   if is_empty passphrase then do _ <- write_file_atomic Keys PRIVATE_KEM kem.2; write_file_atomic Keys PRIVATE_DSA sig.2
   else do _ <- write_protected r kem.2 sig.2 passphrase; modify (set_cache kem.2 sig.2)) w ks = (Returned tt, w', ks') ->
  files_made passphrase kem sig ks'.
Proof.
  intros (Hs1 & Hs2 & Hs3 & Hs4) Hn Hk Hd Hp. intros (w1 & ks1 & E1 & (w2 & ks2 & E2 & E)%write_then)%write_then.
  unfold files_made. destruct (is_empty passphrase) eqn:Ee; cbn [negb].
  - apply write_then in E as (w3 & ks3 & E3 & E4). destruct (write_four _ _ _ _ _ _ _ _ _ _ _ _ _ _ E1 E2 E3 E4) as (-> & -> & -> & ->).
    split_and!; done.
  - cbn [negb andb] in Hp. apply negb_false_iff in Hp.
    pose proof (proj2 (write_this _ _ _ _ _ _ E1)) as Hl1. pose proof (proj2 (write_this _ _ _ _ _ _ E2)) as Hl2. rewrite <- Hl1, <- Hl2 in Hn.
    destruct (protect_key passphrase Hp (salt_kem r, nonce_kem r) _ _ KEM_LABEL _ Hk Hs1 Hs2 Hn) as (kb & Hkb & Hkf); [vm_compute; congruence|].
    destruct (protect_key passphrase Hp (salt_dsa r, nonce_dsa r) _ _ DSA_LABEL _ Hd Hs3 Hs4 Hn) as (db & Hdb & Hdf); [vm_compute; congruence|].
    simpl in Hkb, Hdb. revert E. unfold mbind at 1. unfold write_protected at 1. unfold mbind at 1, get, of_exc. rewrite Hkb, Hdb.
    unfold mbind at 1 2, ret. destruct (mbind _ _ _ _) as [[[[]| |] w4] ks4] eqn:E4; [|done..]. intros [= <- <-].
    apply write_then in E4 as (w3 & ks3 & E3 & E4). destruct (write_four _ _ _ _ _ _ _ _ _ _ _ _ _ _ E1 E2 E3 E4) as (H1 & H2 & H3 & H4).
    simpl. rewrite H1, H2, H3, H4. split_and!; done.
Qed.

Lemma read_small data : size data <= 4096 -> read_file_bytes (Some data) = data.
Proof.
  intros Hs. unfold read_file_bytes, MAX_KEY_FILE_SIZE. destruct (size data =? 0) eqn:E; bool_prop; simpl.
  - by apply size_zero_iff in E.
  - by rewrite (proj2 (Z.ltb_ge _ _)) by lia.
Qed.

Lemma files_made_loaded passphrase kem_seed sig_seed ks :
  let kem := generate_kem_keypair kem_seed in let sig := generate_sig_keypair sig_seed in
  key_ok kem.2 kem_secret_key_size -> key_ok sig.2 sig_secret_key_size ->
  files_made passphrase kem sig ks ->
  keys_exist ks = true /\ load_public_kem ks = kem.1 /\ load_public_dsa ks = sig.1 /\
  load_private_kem ks = kem.2 /\ load_private_dsa ks = sig.2 /\ private_keys_protected ks = negb (is_empty passphrase).
Proof.
  cbv zeta. set (kem := generate_kem_keypair kem_seed). set (sig := generate_sig_keypair sig_seed).
  intros Hk Hd (Epk & Epd & Hfk & Hfd & Hc).
  assert (size kem.1 <= 4096 /\ size sig.1 <= 4096) as [Hsk Hsd].
  { unfold kem, sig, generate_kem_keypair, generate_sig_keypair.
    destruct (kem_sizes kem_seed [] []) as (-> & _). destruct (sig_sizes sig_seed [] [] []) as (-> & _).
    destruct algorithm_sizes as (? & _). pose proof sig_public_size_bound. lia. }
  unfold load_public_kem, load_public_dsa. rewrite Epk, Epd, !read_small by done.
  unfold load_private_kem, load_private_dsa. rewrite (load_private_spec _ _ _ _ _ _ _ _ Hk Hfk), (load_private_spec _ _ _ _ _ _ _ _ Hd Hfd).
  unfold private_keys_protected, keys_exist, exists_in. cbn [forallb]. rewrite Epk, Epd.
  destruct (key_file_read _ _ _ _ _ _ Hk Hfk) as (rk & E1 & Hne1 & Hb1 & _). destruct (key_file_read _ _ _ _ _ _ Hd Hfd) as (rd & E2 & Hne2 & Hb2 & _).
  rewrite E1, E2, Hb1, Hb2. destruct (ks_keys ks !! PRIVATE_KEM); [|simpl in E1; by subst rk].
  destruct (ks_keys ks !! PRIVATE_DSA); [|simpl in E2; by subst rd].
  destruct (negb (is_empty passphrase)); [destruct (Hc eq_refl) as [-> ->]|]; by split_and!.
Qed.

(** Keys are never made over others. Whatever goes wrong while the store is
    opened, a key file that was there is not changed; and when it succeeds, all four
    files are there: the old ones, or, if there was none of them, new ones whose
    private halves are protected by the passphrase if one was given, and can be used
    at once. *)
Theorem initialize_never_replaces kem_seed sig_seed r passphrase w ks res w' ks' :
  salts_ok r -> MIN_SCRYPT_LOG2_N <= ks.(kdf_log2_n) <= MAX_SCRYPT_LOG2_N ->
  key_ok (generate_kem_keypair kem_seed).2 kem_secret_key_size -> key_ok (generate_sig_keypair sig_seed).2 sig_secret_key_size ->
  initialize_keys kem_seed sig_seed r passphrase w ks = (res, w', ks') ->
  (forall n, n ∈ key_names -> is_Some (ks.(ks_keys) !! n) -> ks'.(ks_keys) !! n = ks.(ks_keys) !! n) /\
  (res = Returned tt -> keys_exist ks' = true /\
    (ks' = ks \/
     (forall n, n ∈ key_names -> ks.(ks_keys) !! n = None) /\
     load_public_kem ks' = (generate_kem_keypair kem_seed).1 /\ load_public_dsa ks' = (generate_sig_keypair sig_seed).1 /\
     load_private_kem ks' = (generate_kem_keypair kem_seed).2 /\ load_private_dsa ks' = (generate_sig_keypair sig_seed).2 /\
     private_keys_protected ks' = negb (is_empty passphrase))).
Proof.
  intros Hr Hn Hk Hd. unfold initialize_keys. unfold mbind at 1.
  destruct (create_directories _ _ w ks) as [[r1 w1] ks1] eqn:E1. apply create_directories_id in E1 as ->.
  destruct r1; [|by intros [= <- <- <-]..]. unfold mbind at 1.
  destruct (create_directories _ _ w1 ks) as [[r2 w2] ks2] eqn:E2. apply create_directories_id in E2 as ->.
  destruct r2; [|by intros [= <- <- <-]..]. unfold mbind at 1, get. fold key_names.
  destruct (_ =? 4) eqn:E4; bool_prop.
  { destruct (_ || _); intros [= <- <- <-]; split; try done. intros _. split; [by apply all_present|by left]. }
  destruct (_ =? 0) eqn:E0; cbn [negb]; [|by intros [= <- <- <-]]. bool_prop. pose proof (none_present ks E0) as Hnone.
  destruct (negb (is_empty passphrase) && _) eqn:Ep; [by intros [= <- <- <-]|].
  intros Hrun. split; [intros n Hn' [c Hc]; by rewrite Hnone in Hc|]. intros ->.
  apply initialize_writes in Hrun; [|done..]. apply files_made_loaded in Hrun as (? & ?); [|done..]. split; [done|]. by right.
Qed.
End keys.

(** An instance in which a key other than the one that sealed does not open. *)
Definition keyed_open (k c : bytes) : option bytes :=
  let n := (length c - 16)%nat in
  if decide (drop n c = toy_pad 16 k) then Some (take n c) else None.

Definition keyed : Primitives := {|
  prim_sha256 := @prim_sha256 toy;
  prim_gcm_seal k n p a := p ++ toy_pad 16 k;
  prim_gcm_open k n c a := keyed_open k c;
  prim_hkdf := @prim_hkdf toy;
  prim_scrypt := @prim_scrypt toy;
  kem_public_key_size := 8;
  kem_secret_key_size := 8;
  kem_ciphertext_size := 8;
  prim_kem_keypair := @prim_kem_keypair toy;
  prim_kem_encaps := @prim_kem_encaps toy;
  prim_kem_decaps := @prim_kem_decaps toy;
  sig_public_key_size := 8;
  sig_secret_key_size := 8;
  sig_signature_size := 40;
  prim_sig_keypair := @prim_sig_keypair toy;
  prim_sign := @prim_sign toy;
  prim_sig_verify := @prim_sig_verify toy;
  prim_x25519_public := @prim_x25519_public toy;
  prim_x25519 := @prim_x25519 toy;
|}.

Lemma keyed_laws : @PrimitiveLaws keyed.
Proof.
  constructor; try apply toy_laws.
  - intros. simpl. rewrite size_app, size_toy_pad. lia.
  - intros. simpl. unfold keyed_open. pose proof (size_toy_pad 16 k) as Hp. unfold size in Hp. rewrite length_app.
    replace (length p + length (toy_pad 16 k) - 16)%nat with (length p) by lia.
    by rewrite drop_app_length, take_app_length, decide_True.
  - intros k n c p a. simpl. unfold keyed_open. case_decide as Hd; [|done]. intros [= <-]. rewrite <- Hd. by rewrite take_drop.
Qed.

(** A store whose keys are protected by one passphrase, and unlocked. *)
Definition example_salts : Salts := mkSalts (replicate 16 Byte.x01) (replicate 12 Byte.x02) (replicate 16 Byte.x03) (replicate 12 Byte.x04).
Definition example_store : KeyStore :=
  mkKeyStore ∅ (<[PRIVATE_KEM := str "kem key!"]> {[ PRIVATE_DSA := str "dsa key!" ]}) ∅ [] [] 12.

(** Changing the passphrase is not safe in that way: when the process stops between
    the two files, each is protected by another passphrase, and neither unlocks the
    store any more. *)
Example interrupted_change_locks_out :
  let ks := (@set_passphrase keyed example_salts (str "old passphrase") [] example_store).2 in
  let ks' := (@set_passphrase keyed example_salts (str "new passphrase") [Fine; Fine; Killed None] ks).2 in
  (@unlock keyed example_salts (str "old passphrase") [] (restarted ks)).1.1 = Returned true /\
  (@unlock keyed example_salts (str "old passphrase") [] (restarted ks')).1.1 = Returned false /\
  (@unlock keyed example_salts (str "new passphrase") [] (restarted ks')).1.1 = Returned false.
Proof. vm_compute. done. Qed.

(** Protecting is interrupted, and the store unlocks. *)
Lemma keys_survive_interruption_witness :
  let ks' := (@run_op keyed (str "old passphrase") (Protect example_salts) [Fine; Fine; Killed None] example_store) in
  exists ks2, @unlock keyed example_salts (str "old passphrase") [] (restarted ks') = (Returned true, [], ks2) /\
    load_private_kem ks2 = str "kem key!" /\ load_private_dsa ks2 = str "dsa key!".
Proof.
  assert (salts_ok example_salts) as Hr by (split_and!; reflexivity).
  destruct (@keys_survive_interruption keyed keyed_laws (str "kem key!") (str "dsa key!") (str "old passphrase") example_store
    [(Protect example_salts, [Fine; Fine; Killed None])] example_salts) as (ks2 & Hu & Hk & Hd & _).
  - split_and!; [reflexivity|vm_compute; congruence..|by vm_compute].
  - split_and!; [reflexivity|vm_compute; congruence..|by vm_compute].
  - by vm_compute.
  - split; [exists false, false; split; by vm_compute|]. split_and!; [by left|by left|vm_compute; congruence..].
  - by constructor.
  - exact Hr.
  - exists ks2. split; [exact Hu|]. by split.
Defined.

Lemma initialize_never_replaces_witness :
  let run := @initialize_keys keyed [Byte.x01] [Byte.x02] example_salts (str "old passphrase") [] (mkKeyStore ∅ ∅ ∅ [] [] 12) in
  run = (Returned tt, [], run.2) /\ keys_exist run.2 = true.
Proof.
  set (run := initialize_keys _ _ _ _ _ _). cbv zeta.
  assert (run = (Returned tt, [], run.2)) as E by (vm_compute; reflexivity). split; [exact E|].
  refine (proj1 (proj2 (@initialize_never_replaces keyed keyed_laws [Byte.x01] [Byte.x02] example_salts (str "old passphrase") []
    (mkKeyStore ∅ ∅ ∅ [] [] 12) (Returned tt) [] run.2 _ _ _ _ E) eq_refl)).
  - by split_and!.
  - split; vm_compute; congruence.
  - split_and!; [reflexivity|vm_compute; congruence..|by vm_compute].
  - split_and!; [reflexivity|vm_compute; congruence..|by vm_compute].
Defined.
