(* ===== verification/KeyStoreContacts.v ===== *)
(** * Contacts in the key store

    A contact's folder through every interruption of a change, the rule that a
    verified encryption key never goes back, and the files beside the keys. *)

From Stdlib Require Import ZArith Lia.
From stdpp Require Import base list strings gmap.
From S2P Require Import Prelude Wire Text Protocol RelayProtocolSpec Crypto MessageRecord IdentityBundle Attachment KeyStore KeyStoreProps.
#[local] Open Scope Z_scope.
#[local] Open Scope store_scope.

(** ** The folder of a contact *)

(** What matters of it: the two keys, the bundle and the send token. *)
Record View := mkView { v_kem : option bytes; v_dsa : option bytes; v_bundle : option bytes; v_token : option bytes }.
Definition view (f : Folder) : View := mkView (f !! PUB_KEM) (f !! PUB_DSA) (f !! BUNDLE) (f !! SEND_TOKEN).

(** What else there is does not change. *)
Definition same_others (name : bytes) (ks ks' : KeyStore) : Prop :=
  (forall n, n <> name -> ks'.(ks_contacts) !! n = ks.(ks_contacts) !! n) /\ ks'.(ks_keys) = ks.(ks_keys) /\ ks'.(ks_app) = ks.(ks_app) /\
  ks'.(cache_kem) = ks.(cache_kem) /\ ks'.(cache_dsa) = ks.(cache_dsa).

Lemma same_others_refl name ks : same_others name ks ks.
Proof. done. Qed.
Lemma same_others_trans name a b c : same_others name a b -> same_others name b c -> same_others name a c.
Proof.
  intros (Ha & ? & ? & ? & ?) (Hb & ? & ? & ? & ?). split; [intros n Hn; by rewrite Hb, Ha|]. split_and!; congruence.
Qed.
#[local] Hint Resolve same_others_refl : core.

(** The contact has this view. *)
Definition has_view (name : bytes) (v : View) (ks : KeyStore) : Prop := exists f, ks.(ks_contacts) !! name = Some f /\ view f = v.

Definition set_view (file data : bytes) (v : View) : View :=
  if decide (file = PUB_KEM) then mkView (Some data) v.(v_dsa) v.(v_bundle) v.(v_token)
  else if decide (file = PUB_DSA) then mkView v.(v_kem) (Some data) v.(v_bundle) v.(v_token)
  else if decide (file = BUNDLE) then mkView v.(v_kem) v.(v_dsa) (Some data) v.(v_token)
  else mkView v.(v_kem) v.(v_dsa) v.(v_bundle) (Some data).

Lemma write_contact name file data w ks r w' ks' v :
  file ∈ [PUB_KEM; PUB_DSA; BUNDLE; SEND_TOKEN] -> has_view name v ks ->
  write_file_atomic (Contact_ name) file data w ks = (r, w', ks') ->
  same_others name ks ks' /\ has_view name (match r with Returned _ => set_view file data v | _ => v end) ks'.
Proof.
  intros Hfile (f & Hf & Hv) (g & -> & Ht & Hr)%write_spec. split.
  - split; [|done]. intros n Hn. simpl. by rewrite lookup_alter_ne.
  - exists (g f). simpl. rewrite lookup_alter_eq, Hf. split; [done|]. subst v.
    rewrite !elem_of_cons, elem_of_nil in Hfile. unfold view, set_view.
    destruct Hfile as [-> | [-> | [-> | [-> | []]]]];
      try (rewrite (Ht f PUB_KEM) by done); try (rewrite (Ht f PUB_DSA) by done); try (rewrite (Ht f BUNDLE) by done);
      try (rewrite (Ht f SEND_TOKEN) by done); destruct r; rewrite Hr; repeat first [rewrite decide_True by done|rewrite decide_False by done]; done.
Qed.

Lemma make_folder_view name w ks r w' ks' what :
  create_directories (make_contact_folder name) what w ks = (r, w', ks') ->
  same_others name ks ks' /\ (ks' = ks \/ ks.(ks_contacts) !! name = None) /\
  match r with Returned _ => has_view name (view (default ∅ (ks.(ks_contacts) !! name))) ks' | _ => ks' = ks end.
Proof.
  unfold create_directories, mbind, ask, modify, make_contact_folder.
  destruct w as [|[]]; intros [= <- <- <-]; try (split_and!; by auto);
    (destruct (ks_contacts ks !! name) as [f|] eqn:E; [split_and!; [done|by left|by exists f]|]);
    (split_and!; [|by right|exists ∅; simpl; by rewrite lookup_insert_eq]);
    (split; [|done]); intros n Hn; simpl; by rewrite lookup_insert_ne.
Qed.

Lemma valid_name_dir name : is_valid_contact_name name = true -> contact_dir name = Some (Contact_ name).
Proof.
  unfold is_valid_contact_name, contact_dir. destruct (is_empty name) eqn:E1; [done|]. destruct (64 <? size name); [done|].
  destruct (forallb contact_char name) eqn:Ec; [|done]. cbn [negb orb].
  destruct (_ || _) eqn:Eh; [done|]. intros _. rewrite bool_decide_false, bool_decide_false.
  2, 3: intros ->; by vm_compute in Eh.
  cbn [orb]. destruct (existsb _ name) eqn:Ex; [|done]. exfalso. apply existsb_exists in Ex as (c & Hin & Hc).
  rewrite forallb_forall in Ec. specialize (Ec c Hin). apply bool_decide_eq_true in Hc. simpl in Hc.
  rewrite !elem_of_cons, elem_of_nil in Hc. destruct Hc as [-> | [-> | [-> | [-> | []]]]]; by vm_compute in Ec.
Qed.

Section contacts.
Context `{PrimitiveLaws}.

Lemma parsed_sizes raw b :
  parse_identity_bundle raw = Ret b ->
  b.(ib_raw) = raw /\ 8 <= size raw <= 24584 /\ size b.(ib_signing_key) = sig_public_key_size /\ size b.(ib_encryption_key) = kem_public_key_size.
Proof.
  unfold parse_identity_bundle. intros Hd. pose proof (at_off_0 raw) as Hat.
  destruct (read_blob raw 0 MAX_BODY_BYTES) as [[body|] o1] eqn:E1; [|by repeat case_match].
  destruct (read_blob raw o1 8192) as [[sg|] o2] eqn:E2; [|done].
  destruct (negb (o2 =? size raw)) eqn:E3; [done|]. bool_prop. subst o2. repeat (read_inv_step; subst). read_end.
  assert (8 <= size (blob body ++ blob sg) <= 24584) as Hs.
  { rewrite size_app, !size_blob. pose proof (size_nonneg body). pose proof (size_nonneg sg). unfold MAX_BODY_BYTES in *. lia. }
  destruct (read_u32 body 0) as [m b1]. destruct (read_u32 body b1) as [v b2].
  destruct (read_u64 body b2) as [iss b3]. destruct (read_u32 body b3) as [c b4].
  do 2 (case_bool_decide; [|done]; cbn [negb] in Hd). destruct iss as [issued|]; [|done]. destruct c as [count|]; [|done].
  destruct (MAX_FIELDS <? count); [done|]. destruct (read_fields _ _ _ _) as [[st b5]|w]; [|done]. cbn [exc_bind] in Hd.
  destruct (negb (b5 =? _)); [done|]. destruct (negb _ || negb _); [done|]. destruct (_ && negb (has_mailbox _)); [done|].
  destruct (negb (_ =? sig_public_key_size) || _) eqn:E11; [done|]. destruct (negb (verify _ _ _)); [done|]. bool_prop.
  injection Hd as <-. simpl. rewrite !app_nil_r in *. split_and!; try done; lia.
Qed.

(** What is loaded is a matter of the view. *)
Definition load_view (name : bytes) (v : View) : option Contact :=
  let pub_kem := read_file_bytes v.(v_kem) in
  let pub_dsa := read_file_bytes v.(v_dsa) in
  if negb (size pub_kem =? kem_public_key_size) || negb (size pub_dsa =? sig_public_key_size) then None else
  let raw_bundle := read_file_bytes v.(v_bundle) in
  let bundle := if is_empty raw_bundle then None else matching_bundle raw_bundle pub_kem pub_dsa in
  let token := read_file_bytes v.(v_token) in
  let token := if size token =? 32 then token else [] in
  let '(verified, issued, address, relay, mailbox) :=
    match bundle with
    | Some b =>
        if has_mailbox b then (true, b.(ib_issued_at), b.(ib_relay_hint), b.(ib_relay_id), b.(ib_mailbox_id))
        else (true, b.(ib_issued_at), [], [], [])
    | None => (false, 0, [], [], [])
    end in
  Some (mkContact name pub_kem pub_dsa (fingerprint pub_dsa) verified issued address relay mailbox token).

Lemma load_contact_view name v ks :
  contact_dir name = Some (Contact_ name) -> has_view name v ks -> load_contact ks name = load_view name v.
Proof. intros Hd (f & Hf & <-). unfold load_contact. rewrite Hd. unfold file_in. simpl. by rewrite Hf. Qed.

(** The parts of a contact that is loaded. *)
Lemma load_view_inv name v c :
  load_view name v = Some c ->
  c.(co_name) = name /\ read_file_bytes v.(v_kem) = c.(co_pub_kem) /\ read_file_bytes v.(v_dsa) = c.(co_pub_dsa) /\
  c.(co_fingerprint) = fingerprint c.(co_pub_dsa) /\ size c.(co_pub_kem) = kem_public_key_size /\ size c.(co_pub_dsa) = sig_public_key_size /\
  match (if is_empty (read_file_bytes v.(v_bundle)) then None else matching_bundle (read_file_bytes v.(v_bundle)) c.(co_pub_kem) c.(co_pub_dsa)) with
  | Some b => c.(kem_verified) = true /\ c.(bundle_issued_at) = b.(ib_issued_at)
  | None => c.(kem_verified) = false
  end.
Proof.
  unfold load_view. destruct (negb _ || negb _) eqn:E; [done|]. bool_prop.
  destruct (if is_empty _ then None else _) as [b|] eqn:Eb; [destruct (has_mailbox b)|]; intros [= <-]; simpl; rewrite Eb; by split_and!.
Qed.

(** The keys of a size that is read back. *)
Lemma read_key data n : size data = n -> n <= 4096 -> read_file_bytes (Some data) = data.
Proof. intros <-. apply read_small. Qed.

Lemma key_sizes : kem_public_key_size <= 4096 /\ sig_public_key_size <= 4096.
Proof. destruct algorithm_sizes as (? & _). pose proof sig_public_size_bound. lia. Qed.

(** A bundle beside the keys it names. *)
Definition contact_of (name : bytes) (b : IdentityBundle) (token : bytes) : Contact :=
  let m := has_mailbox b in
  mkContact name b.(ib_encryption_key) b.(ib_signing_key) (bundle_fingerprint b) true b.(ib_issued_at)
    (if m then b.(ib_relay_hint) else []) (if m then b.(ib_relay_id) else []) (if m then b.(ib_mailbox_id) else []) token.

Lemma read_bundle raw b : parse_identity_bundle raw = Ret b -> read_file_bytes (Some raw) = raw /\ is_empty raw = false.
Proof.
  intros (_ & Hs & _)%parsed_sizes. unfold read_file_bytes, MAX_KEY_FILE_SIZE.
  rewrite (proj2 (Z.eqb_neq _ _)), (proj2 (Z.ltb_ge _ _)) by lia. split; [done|]. destruct raw; [unfold size in Hs; simpl in Hs; lia|done].
Qed.

Definition token_of (file : option bytes) : bytes := let t := read_file_bytes file in if size t =? 32 then t else [].

Lemma load_view_bundle name raw b token :
  parse_identity_bundle raw = Ret b ->
  load_view name (mkView (Some b.(ib_encryption_key)) (Some b.(ib_signing_key)) (Some raw) token) = Some (contact_of name b (token_of token)).
Proof.
  intros Hp. destruct (parsed_sizes _ _ Hp) as (_ & _ & Hd & Hk). destruct key_sizes. destruct (read_bundle _ _ Hp) as [Hr He].
  unfold load_view. cbn [v_kem v_dsa v_bundle v_token]. rewrite !(read_small (ib_encryption_key b)), !(read_small (ib_signing_key b)) by lia. rewrite Hd, Hk, !Z.eqb_refl.
  cbn [negb orb]. rewrite Hr, He. unfold matching_bundle, parsed. rewrite Hp, !bool_decide_true by done. simpl.
  unfold contact_of. by destruct (has_mailbox b).
Qed.

Definition old_view (name : bytes) (ks : KeyStore) : View := view (default ∅ (ks.(ks_contacts) !! name)).

(** The stages of saving a bundle. *)
Definition stages (b : IdentityBundle) (v : View) : list View :=
  [v; mkView (Some b.(ib_encryption_key)) v.(v_dsa) v.(v_bundle) v.(v_token);
   mkView (Some b.(ib_encryption_key)) (Some b.(ib_signing_key)) v.(v_bundle) v.(v_token)].
Definition saved (b : IdentityBundle) (v : View) : View :=
  mkView (Some b.(ib_encryption_key)) (Some b.(ib_signing_key)) (Some b.(ib_raw)) v.(v_token).

Lemma save_bundle_spec name raw b w ks r w' ks' :
  is_valid_contact_name name = true -> parse_identity_bundle raw = Ret b ->
  save_contact_bundle name b w ks = (r, w', ks') ->
  same_others name ks ks' /\
  match r with
  | Returned _ => has_view name (saved b (old_view name ks)) ks'
  | _ => ks' = ks \/ exists v', v' ∈ stages b (old_view name ks) /\ has_view name v' ks'
  end.
Proof.
  intros Hn Hp. destruct (parsed_sizes _ _ Hp) as (Hraw & Hsz & Hd & Hk). destruct (read_bundle _ _ Hp) as [_ Hne].
  unfold save_contact_bundle. rewrite Hn, Hraw, Hne, Hd, Hk, !Z.eqb_refl. cbn [negb orb]. unfold mbind at 1.
  destruct (create_directories _ _ w ks) as [[r1 w1] ks1] eqn:E1. apply make_folder_view in E1 as (Ho1 & _ & Hv1).
  fold (old_view name ks) in Hv1. set (v := old_view name ks) in *.
  destruct r1 as [[]|what|]; [|intros [= <- <- <-]; subst ks1; by auto..]. unfold mbind at 1.
  destruct (write_file_atomic _ PUB_KEM _ w1 ks1) as [[r2 w2] ks2] eqn:E2. apply write_contact with (v := v) in E2 as [Ho2 Hv2]; [|set_solver|done].
  pose proof (same_others_trans _ _ _ _ Ho1 Ho2) as Ho12.
  destruct r2 as [[]|what|]; [|intros [= <- <- <-]; split; [done|]; right; exists v; split; [left|done]..]. unfold mbind at 1.
  destruct (write_file_atomic _ PUB_DSA _ w2 ks2) as [[r3 w3] ks3] eqn:E3. eapply write_contact in E3 as [Ho3 Hv3]; [|set_solver|exact Hv2].
  pose proof (same_others_trans _ _ _ _ Ho12 Ho3) as Ho13.
  destruct r3 as [[]|what|]; [|intros [= <- <- <-]; split; [done|]; right; eexists; split; [right; left|exact Hv3]..].
  intros E4. eapply write_contact in E4 as [Ho4 Hv4]; [|set_solver|exact Hv3].
  split; [by eapply same_others_trans|]. destruct r; [unfold saved; rewrite Hraw; exact Hv4|right; eexists; (split; [right; right; left|exact Hv4])..].
Qed.

(** What is saved of a person is what is loaded. A contact saved from a signed
    bundle has exactly the bundle's keys, address and date, is marked verified, keeps
    the send token that was there, gives back the bundle itself, and is found by its
    fingerprint under some name; the other contacts and the user's keys are
    untouched. *)
Theorem saved_contact_loads name raw b w ks w' ks' :
  is_valid_contact_name name = true -> parse_identity_bundle raw = Ret b ->
  save_contact_bundle name b w ks = (Returned tt, w', ks') ->
  load_contact ks' name = Some (contact_of name b (token_of (file_in (Contact_ name) SEND_TOKEN ks))) /\
  load_contact_bundle_raw ks' name = Some raw /\ name ∈ list_contacts ks' /\
  is_Some (find_contact_by_fingerprint ks' (bundle_fingerprint b)) /\ same_others name ks ks'.
Proof.
  intros Hn Hp E. pose proof (save_bundle_spec _ _ _ _ _ _ _ _ Hn Hp E) as [Ho Hv]. simpl in Hv.
  pose proof (valid_name_dir _ Hn) as Hd. destruct (parsed_sizes _ _ Hp) as (Hraw & _ & Hsd & Hsk). destruct (read_bundle _ _ Hp) as [Hr He].
  assert (load_contact ks' name = Some (contact_of name b (token_of (file_in (Contact_ name) SEND_TOKEN ks)))) as Hl.
  { rewrite (load_contact_view _ _ _ Hd Hv). unfold saved. rewrite Hraw, load_view_bundle by done. do 2 f_equal. unfold old_view, file_in, folder.
    by destruct (ks_contacts ks !! name). }
  assert (name ∈ list_contacts ks') as Hin.
  { destruct Hv as (f & Hf & _). unfold list_contacts. rewrite sort_by_perm. apply list_elem_of_fmap.
    exists (name, f). split; [done|]. by apply elem_of_map_to_list. }
  split_and!; [done| |done| |done].
  - destruct Hv as (f & Hf & Hvf). unfold load_contact_bundle_raw. rewrite Hd. unfold file_in. simpl. rewrite Hf.
    injection Hvf as -> -> -> _. destruct key_sizes. rewrite Hraw, (read_small (ib_encryption_key b)), (read_small (ib_signing_key b)), Hr, He by lia. unfold matching_bundle, parsed. by rewrite Hp, !bool_decide_true.
  - unfold find_contact_by_fingerprint. destruct (filter _ _) as [|c l] eqn:Ef; [|by exists c]. exfalso.
    assert (contact_of name b (token_of (file_in (Contact_ name) SEND_TOKEN ks)) ∈ @nil Contact) as Hnil; [|by apply not_elem_of_nil in Hnil].
    rewrite <- Ef. apply list_elem_of_filter. split; [done|]. apply list_elem_of_omap. eauto.
Qed.

(** ** A verified key does not go back *)

Definition with_token (c : Contact) (token : bytes) : Contact :=
  mkContact c.(co_name) c.(co_pub_kem) c.(co_pub_dsa) c.(co_fingerprint) c.(kem_verified) c.(bundle_issued_at)
    c.(co_relay_address) c.(co_relay_id) c.(co_mailbox_id) token.

Lemma load_view_token name k d b t t' :
  load_view name (mkView k d b t') = (fun c => with_token c (token_of t')) <$> load_view name (mkView k d b t).
Proof.
  unfold load_view. cbn [v_kem v_dsa v_bundle v_token]. destruct (_ || _); [done|].
  destruct (if is_empty _ then None else _) as [x|]; [destruct (has_mailbox x)|]; done.
Qed.

(** The contact a fingerprint leads to. *)
Lemma found_contact ks fp c :
  find_contact_by_fingerprint ks fp = Some c ->
  exists v, c.(co_fingerprint) = fp /\ contact_dir c.(co_name) = Some (Contact_ c.(co_name)) /\ has_view c.(co_name) v ks /\
    load_view c.(co_name) v = Some c /\ v = old_view c.(co_name) ks.
Proof.
  unfold find_contact_by_fingerprint. destruct (filter _ _) as [|c0 l] eqn:Ef; [done|]. simpl. intros [= ->].
  assert (c ∈ c :: l) as Hin by left. rewrite <- Ef in Hin. apply list_elem_of_filter in Hin as [Hfp (name & _ & Hl)%list_elem_of_omap].
  assert (contact_dir name = Some (Contact_ name)) as Hd.
  { unfold load_contact in Hl. destruct (contact_dir name) as [p|] eqn:Ed; [|done]. rewrite <- Ed. unfold contact_dir in *. by destruct (_ || _). }
  destruct (ks_contacts ks !! name) as [f|] eqn:Ek.
  - assert (has_view name (view f) ks) as Hv by (by exists f).
    rewrite (load_contact_view _ _ _ Hd Hv) in Hl. destruct (load_view_inv _ _ _ Hl) as (<- & _). exists (view f). unfold old_view. by rewrite Ek.
  - exfalso. unfold load_contact in Hl. rewrite Hd in Hl. unfold file_in, folder in Hl. rewrite Ek in Hl.
    destruct kem_sizes_pos as [Hpos _]. change (size (read_file_bytes None)) with 0 in Hl.
    by rewrite (proj2 (Z.eqb_neq 0 kem_public_key_size)) in Hl by lia.
Qed.

(** The same person: with the key there was, or with the newer bundle's. *)
Definition no_older (c : Contact) (b : IdentityBundle) (c' : Contact) : Prop :=
  c'.(co_fingerprint) = c.(co_fingerprint) /\
  (c'.(kem_verified) = true -> c.(bundle_issued_at) <= c'.(bundle_issued_at) /\
    (c'.(co_pub_kem) = c.(co_pub_kem) \/
     c'.(co_pub_kem) = b.(ib_encryption_key) /\ c.(bundle_issued_at) < b.(ib_issued_at) /\ c'.(bundle_issued_at) = b.(ib_issued_at))).

Lemma no_older_refl c b : no_older c b c.
Proof. split; [done|]. intros _. split; [lia|by left]. Qed.

Lemma no_older_token c b c' t : no_older c b c' -> no_older c b (with_token c' t).
Proof. done. Qed.

(** While the bundle is being saved, the old bundle does not vouch for the new keys. *)
Lemma stages_no_older name v c raw b v' :
  load_view name v = Some c -> c.(kem_verified) = true -> parse_identity_bundle raw = Ret b ->
  bundle_fingerprint b = c.(co_fingerprint) -> v' ∈ stages b v ->
  exists c', load_view name v' = Some c' /\ no_older c b c'.
Proof.
  intros Hl Hver Hp Hfp Hv'. destruct (load_view_inv _ _ _ Hl) as (_ & Ek & Ed & Efp & Hsk & Hsd & Hb).
  destruct (if is_empty _ then None else _) as [b0|] eqn:E0; [|congruence]. destruct Hb as [_ Hiss].
  destruct (is_empty _) eqn:Ene in E0; [done|]. unfold matching_bundle in E0.
  destruct (parsed (read_file_bytes (v_bundle v))) as [b1|] eqn:Epar; [|done]. destruct (_ && _) eqn:Em in E0; [|done]. injection E0 as ->. bool_prop.
  destruct (parsed_sizes _ _ Hp) as (_ & _ & Hbd & Hbk). destruct key_sizes.
  assert (forall dsa, size (read_file_bytes dsa) = sig_public_key_size -> fingerprint (read_file_bytes dsa) = c.(co_fingerprint) ->
    exists c', load_view name (mkView (Some b.(ib_encryption_key)) dsa v.(v_bundle) v.(v_token)) = Some c' /\ no_older c b c') as Hmid.
  { intros dsa Hs Hf. unfold load_view. cbn [v_kem v_dsa v_bundle v_token].
    rewrite (read_small (ib_encryption_key b)), Hbk, Hs, !Z.eqb_refl by lia. cbn [negb orb]. rewrite Ene. unfold matching_bundle. rewrite Epar.
    destruct (_ && _) eqn:Em.
    - bool_prop. destruct (has_mailbox b0); (eexists; split; [reflexivity|]); (split; [done|]); intros _; simpl; (split; [lia|left]); congruence.
    - eexists. split; [reflexivity|]. split; [done|]. intros Hfalse. done. }
  unfold stages in Hv'. rewrite !elem_of_cons, elem_of_nil in Hv'. destruct Hv' as [-> | [-> | [-> | []]]].
  - exists c. split; [done|apply no_older_refl].
  - apply Hmid; [by rewrite Ed|by rewrite Ed].
  - apply Hmid; rewrite read_small by lia; done.
Qed.

Lemma saved_no_older name v c raw b :
  parse_identity_bundle raw = Ret b -> bundle_fingerprint b = c.(co_fingerprint) -> c.(bundle_issued_at) < b.(ib_issued_at) ->
  exists c', load_view name (saved b v) = Some c' /\ no_older c b c' /\ c'.(kem_verified) = true.
Proof.
  intros Hp Hfp Hlt. destruct (parsed_sizes _ _ Hp) as (Hraw & _). unfold saved. rewrite Hraw, load_view_bundle by done.
  eexists. split; [done|]. split; [|done]. split; [done|]. intros _. simpl. split; [lia|by right].
Qed.

Lemma save_token_spec name token w ks r w' ks' v :
  contact_dir name = Some (Contact_ name) -> size token = 32 -> has_view name v ks ->
  save_contact_token name token w ks = (r, w', ks') ->
  same_others name ks ks' /\
  has_view name (match r with Returned _ => mkView v.(v_kem) v.(v_dsa) v.(v_bundle) (Some token) | _ => v end) ks'.
Proof.
  intros Hd Hs Hv. unfold save_contact_token. rewrite Hs, Z.eqb_refl. cbn [negb]. unfold mbind, get. rewrite Hd. pose proof Hv as (f & Hf & _). simpl. rewrite Hf.
  intros E. apply write_contact with (v := v) in E as [Ho Hv']; [|set_solver|done]. by destruct r.
Qed.

(** What an import tells the caller. *)
Definition import_answer (c : Contact) (b : IdentityBundle) (c' : Contact) (i : BundleImport) : Prop :=
  i.(bi_contact_name) = c.(co_name) /\ c'.(kem_verified) = true /\
  match i.(bi_result) with
  | UnknownIdentity => False
  | Updated => c'.(co_pub_kem) = b.(ib_encryption_key) /\ c'.(bundle_issued_at) = b.(ib_issued_at)
  | Unchanged => c' = c /\ b.(ib_encryption_key) = c.(co_pub_kem)
  | Stale => c' = c /\ b.(ib_encryption_key) <> c.(co_pub_kem) /\ b.(ib_issued_at) <= c.(bundle_issued_at)
  end.

Section import.
Context (b : IdentityBundle) (raw : bytes) (ks : KeyStore) (c : Contact) (v : View).
Hypothesis Hparse : parse_identity_bundle raw = Ret b.
Hypothesis Hfp : c.(co_fingerprint) = bundle_fingerprint b.
Hypothesis Hdir : contact_dir c.(co_name) = Some (Contact_ c.(co_name)).
Hypothesis Hview : has_view c.(co_name) v ks.
Hypothesis Hload : load_view c.(co_name) v = Some c.
Hypothesis Hold : v = old_view c.(co_name) ks.
Hypothesis Hver : c.(kem_verified) = true.

(** The state after an import. *)
Definition import_ok (r : result BundleImport) (ks' : KeyStore) : Prop :=
  same_others c.(co_name) ks ks' /\ exists c', load_contact ks' c.(co_name) = Some c' /\ no_older c b c' /\
    (forall i, r = Returned i -> import_answer c b c' i).

Lemma import_unchanged r : (forall i, r = Returned i -> import_answer c b c i) -> import_ok r ks.
Proof.
  intros Hr. split; [done|]. exists c. split; [by rewrite (load_contact_view _ _ _ Hdir Hview)|]. split; [apply no_older_refl|done].
Qed.

(** With a token, and nothing else. *)
Lemma import_token token i w r w' ks' :
  size token = 32 -> import_answer c b (with_token c token) i ->
  mbind (save_contact_token c.(co_name) token) (fun _ => ret i) w ks = (r, w', ks') -> import_ok r ks'.
Proof.
  intros Hs Hi. unfold mbind. destruct (save_contact_token _ _ w ks) as [[r1 w1] ks1] eqn:E.
  destruct (save_token_spec _ _ _ _ _ _ _ _ Hdir Hs Hview E) as [Ho Hv].
  assert (forall t, load_view c.(co_name) (mkView v.(v_kem) v.(v_dsa) v.(v_bundle) t) = Some (with_token c (token_of t))) as Ht.
  { intros t. rewrite (load_view_token _ _ _ _ v.(v_token)). destruct v. simpl in *. by rewrite Hload. }
  destruct r1 as [[]|what|]; intros [= <- <- <-]; (split; [done|]).
  - exists (with_token c token). split; [rewrite (load_contact_view _ _ _ Hdir Hv), Ht|].
    + unfold token_of. rewrite read_small by lia. by rewrite Hs, Z.eqb_refl.
    + split; [apply no_older_token, no_older_refl|]. by intros ? [= <-].
  - exists c. split; [by rewrite (load_contact_view _ _ _ Hdir Hv)|]. split; [apply no_older_refl|done].
  - exists c. split; [by rewrite (load_contact_view _ _ _ Hdir Hv)|]. split; [apply no_older_refl|done].
Qed.

(** With a newer bundle, and perhaps a token. *)
Lemma import_newer token changed w r w' ks' :
  c.(bundle_issued_at) < b.(ib_issued_at) ->
  (do _ <- save_contact_bundle c.(co_name) b;
   do _ <- (if size token =? 32 then save_contact_token c.(co_name) token else ret tt);
   ret (mkBundleImport Updated c.(co_name) changed false)) w ks = (r, w', ks') -> import_ok r ks'.
Proof.
  intros Hlt. unfold mbind at 1. destruct (save_contact_bundle _ b w ks) as [[r1 w1] ks1] eqn:E1.
  destruct (is_valid_contact_name c.(co_name)) eqn:Hn.
  2: { unfold save_contact_bundle in E1. rewrite Hn in E1. injection E1 as <- <- <-. intros [= <- <- <-]. by apply import_unchanged. }
  destruct (save_bundle_spec _ _ _ _ _ _ _ _ Hn Hparse E1) as [Ho1 Hv1]. rewrite <- Hold in Hv1.
  assert (forall (r : result BundleImport) , (forall i, r <> Returned i) ->
    (ks1 = ks \/ exists v', v' ∈ stages b v /\ has_view c.(co_name) v' ks1) -> import_ok r ks1) as Hfail.
  { intros r0 Hr [-> | (v' & Hin & Hv')]; [apply import_unchanged; intros i Hi; by destruct (Hr i)|].
    destruct (stages_no_older _ _ _ _ _ _ Hload Hver Hparse (eq_sym Hfp) Hin) as (c' & Hc' & Hno). split; [done|].
    exists c'. split; [by rewrite (load_contact_view _ _ _ Hdir Hv')|]. split; [done|]. intros i Hi; by destruct (Hr i). }
  destruct r1 as [[]|what|]; [|intros [= <- <- <-]; by apply Hfail..].
  assert (exists c', load_view c.(co_name) (saved b v) = Some c' /\ no_older c b c' /\
    forall t, import_answer c b (with_token c' t) (mkBundleImport Updated c.(co_name) changed false)) as (c' & Hc' & Hno & Hans).
  { destruct (parsed_sizes _ _ Hparse) as (Hraw & _). unfold saved. rewrite Hraw, load_view_bundle by done.
    eexists. split; [done|]. split; [|done]. split; [by rewrite Hfp|]. intros _. simpl. split; [lia|by right]. }
  assert (forall t, load_view c.(co_name) (mkView (saved b v).(v_kem) (saved b v).(v_dsa) (saved b v).(v_bundle) t) = Some (with_token c' (token_of t))) as Ht.
  { intros t. rewrite (load_view_token _ _ _ _ (saved b v).(v_token)). unfold saved in *. cbn [v_kem v_dsa v_bundle v_token]. by rewrite Hc'. }
  unfold mbind. destruct (size token =? 32) eqn:Es; bool_prop.
  - destruct (save_contact_token _ _ w1 ks1) as [[r2 w2] ks2] eqn:E2. destruct (save_token_spec _ _ _ _ _ _ _ _ Hdir Es Hv1 E2) as [Ho2 Hv2].
    pose proof (same_others_trans _ _ _ _ Ho1 Ho2) as Ho.
    destruct r2 as [[]|what|]; intros [= <- <- <-]; (split; [done|]);
      [exists (with_token c' (token_of (Some token)))|exists c'..]; rewrite (load_contact_view _ _ _ Hdir Hv2), ?Ht, ?Hc';
      (split; [done|]); (split; [done|]); try done. by intros ? [= <-].
  - intros [= <- <- <-]. split; [done|]. exists c'. rewrite (load_contact_view _ _ _ Hdir Hv1). split; [done|]. split; [done|].
    intros ? [= <-]. apply (Hans c'.(co_send_token)).
Qed.
End import.

(** The whole of an import for a contact that is verified. *)
Lemma import_verified b raw token w ks c r w' ks' :
  parse_identity_bundle raw = Ret b -> find_contact_by_fingerprint ks (bundle_fingerprint b) = Some c -> c.(kem_verified) = true ->
  import_bundle_for_known_identity b token w ks = (r, w', ks') -> import_ok b ks c r ks'.
Proof.
  intros Hp Hfind Hver. destruct (found_contact _ _ _ Hfind) as (v & Hfp & Hd & Hv & Hl & Hold).
  unfold import_bundle_for_known_identity. unfold mbind at 1, get. rewrite Hfind, Hver. cbn [negb andb].
  destruct (ib_issued_at b <=? bundle_issued_at c) eqn:Ei; bool_prop.
  - destruct (_ && _) eqn:Es.
    + bool_prop. intros E. eapply import_token; [exact Hd|exact Hv|exact Hl|done|exact H3| |exact E]. split; [done|]. split; [done|].
      simpl. split; congruence.
    + intros [= <- <- <-]. apply (import_unchanged b ks c v Hd Hv Hl). intros ? [= <-].
      split; [done|]. split; [done|]. simpl. case_bool_decide; by split_and!.
  - intros E. by apply (import_newer b raw ks c v Hp Hfp Hd Hv Hl Hold Hver) in E.
Qed.

(** C29: The encryption key of a verified contact never goes back. When a bundle
    arrives for someone whose key is verified, then, whichever step of saving it
    fails and wherever the process stops, the contact is still there under the same
    fingerprint, and if it reads as verified its date has not gone back and its key is
    the old one or that of a strictly newer bundle. A bundle that is not newer changes
    nothing but, at most, the send token, and the caller is told which it was; the
    other contacts and the user's keys are not touched. *)
Theorem import_never_rolls_back b raw token w ks c r w' ks' :
  parse_identity_bundle raw = Ret b -> find_contact_by_fingerprint ks (bundle_fingerprint b) = Some c -> c.(kem_verified) = true ->
  import_bundle_for_known_identity b token w ks = (r, w', ks') ->
  same_others c.(co_name) ks ks' /\ exists c', load_contact ks' c.(co_name) = Some c' /\ no_older c b c' /\
    (forall i, r = Returned i -> import_answer c b c' i).
Proof. intros Hp Hfind Hver E. by destruct (import_verified _ _ _ _ _ _ _ _ _ Hp Hfind Hver E). Qed.

(** ** The mailbox *)

Lemma derive_local_key_unlocked ks label :
  size (load_private_kem ks) = kem_secret_key_size -> exists k, derive_local_key ks label = Ret k /\ size k = 32.
Proof.
  intros Hs. destruct secret_sizes as [Hpos _]. unfold derive_local_key, hkdf_sha256. rewrite Hs, Z.eqb_refl. cbn [negb].
  destruct (load_private_kem ks) as [|x l]; [unfold size in Hs; simpl in Hs; lia|]. simpl. eexists. split; [done|]. by apply hkdf_size.
Qed.

Lemma load_private_kem_other ks ks' :
  ks'.(ks_keys) !! PRIVATE_KEM = ks.(ks_keys) !! PRIVATE_KEM -> ks'.(cache_kem) = ks.(cache_kem) -> load_private_kem ks' = load_private_kem ks.
Proof. intros E1 E2. unfold load_private_kem, load_private. by rewrite E1, E2. Qed.

(** The mailbox's access key is made whole or not at all: when it was made, both
    halves are loaded again as long as the store is unlocked; when making it failed or
    was interrupted, there is no access key, so that it can be made again. *)
Lemma access_key_whole seed nonce w ks r w' ks' :
  size nonce = 12 -> ks.(ks_keys) !! PUBLIC_ACCESS = None ->
  create_access_key seed nonce w ks = (r, w', ks') ->
  match r with
  | Returned _ => has_access_key ks' = true /\ load_access_public ks' = (generate_sig_keypair seed).1 /\
      load_access_private ks' = Ret (generate_sig_keypair seed).2
  | _ => has_access_key ks' = false
  end.
Proof.
  intros Hn Hnone. destruct (sig_sizes seed [] [] []) as (Hpk & Hsk & _). destruct secret_sizes as [_ Hpos]. pose proof sig_public_size_bound.
  assert (has_access_key ks = false) as Hno by (unfold has_access_key, exists_in; by rewrite Hnone).
  unfold create_access_key. unfold mbind at 1, get. rewrite Hno.
  destruct (derive_local_key ks ACCESS_WRAP_LABEL) as [k|what] eqn:Ek; [|by intros [= <- <- <-]]. unfold of_exc at 1, mbind at 1, ret.
  destruct (is_empty k) eqn:Ee; [by intros [= <- <- <-]|].
  assert (size (load_private_kem ks) = kem_secret_key_size) as Hun.
  { unfold derive_local_key in Ek. destruct (negb _) eqn:E; [injection Ek as <-; done|]. by bool_prop. }
  destruct (derive_local_key_unlocked ks ACCESS_WRAP_LABEL Hun) as (k' & Ek' & Hk). rewrite Ek in Ek'. injection Ek' as <-.
  unfold generate_sig_keypair in *. set (pk := (prim_sig_keypair seed).1) in *. set (sk := (prim_sig_keypair seed).2) in *.
  destruct (nonce_sealed k nonce sk ACCESS_WRAP_AAD Hk Hn) as (Henc & Hsz & Hdec); [unfold INT_MAX; lia|vm_compute; congruence|].
  rewrite Henc. cbn [of_exc]. set (blob := nonce ++ prim_gcm_seal k nonce sk ACCESS_WRAP_AAD) in *. unfold mbind at 1, ret. unfold mbind. fold blob.
  destruct (write_file_atomic Keys PRIVATE_ACCESS blob w ks) as [[r1 w1] ks1] eqn:E1. apply write_keys in E1 as (Ho1 & Hf1 & _ & _ & Hc1 & _).
  assert (ks1.(ks_keys) !! PUBLIC_ACCESS = None) as Hnone1 by (by rewrite Ho1).
  assert (forall k0, k0.(ks_keys) !! PUBLIC_ACCESS = None -> has_access_key k0 = false) as Hfalse
    by (intros k0 E; unfold has_access_key, exists_in; by rewrite E).
  destruct r1 as [[]|what|]; [|intros [= <- <- <-]; by apply Hfalse..].
  intros E2. apply write_keys in E2 as (Ho2 & Hf2 & _ & _ & Hc2 & _). destruct r as [u|what|]; [|by apply Hfalse; rewrite Hf2..].
  assert (ks'.(ks_keys) !! PRIVATE_ACCESS = Some blob) as Hpriv by (by rewrite Ho2).
  assert (load_private_kem ks' = load_private_kem ks) as Hsame.
  { apply load_private_kem_other; [by rewrite Ho2, Ho1|congruence]. }
  split_and!.
  - unfold has_access_key, exists_in. by rewrite Hf2, Hpriv.
  - unfold load_access_public. rewrite Hf2. apply read_small. lia.
  - unfold load_access_private. rewrite Hpriv.
    assert (read_file_bytes (Some blob) = blob) as ->.
    { unfold read_file_bytes, MAX_KEY_FILE_SIZE. rewrite (proj2 (Z.eqb_neq _ _)), (proj2 (Z.ltb_ge _ _)) by lia. done. }
    rewrite (proj2 (Z.leb_gt _ _)) by lia.
    assert (derive_local_key ks' ACCESS_WRAP_LABEL = Ret k) as -> by (unfold derive_local_key in *; by rewrite Hsame).
    cbn [exc_bind]. rewrite Ee, Hdec. cbn [exc_bind]. by rewrite Hsk, Z.eqb_refl.
Qed.

Definition config_ok (m : MailboxConfig) : Prop :=
  size m.(mc_host) <= 255 /\ 1 <= m.(mc_port) <= 65535 /\ size m.(mc_relay_id) = 32 /\ size m.(mc_mailbox_id) = 16.

(** The mailbox's address is saved whole or stays what it was. *)
Lemma mailbox_config_whole m w ks r w' ks' :
  config_ok m -> save_mailbox_config m w ks = (r, w', ks') ->
  load_mailbox_config ks' = match r with Returned _ => Some m | _ => load_mailbox_config ks end.
Proof.
  intros (Hh & Hp & Hr & Hm). unfold save_mailbox_config. intros (g & -> & _ & Hg)%write_spec. unfold load_mailbox_config. simpl.
  destruct r; rewrite Hg; [|done..]. encode_norm. set (raw := blob _ ++ _).
  assert (size raw = size m.(mc_host) + 64) as Hsz.
  { unfold raw. rewrite !size_app, !size_blob, size_be32. lia. }
  pose proof (size_nonneg m.(mc_host)). unfold read_file_bytes, MAX_KEY_FILE_SIZE.
  rewrite (proj2 (Z.eqb_neq _ _)), (proj2 (Z.ltb_ge _ _)) by lia. cbn [orb].
  destruct (is_empty raw) eqn:Ee; [destruct raw; [unfold size in Hsz; simpl in Hsz; lia|done]|]. clear Ee.
  assert (raw = blob m.(mc_host) ++ be32 m.(mc_port) ++ blob m.(mc_relay_id) ++ blob m.(mc_mailbox_id)) as Hd by reflexivity. clearbody raw.
  encode_at Hd. decode_fwd. rewrite (proj2 (Z.eqb_neq _ _)), (proj2 (Z.ltb_ge _ _)) by lia. decode_end. rewrite Hr, Hm. by destruct m.
Qed.
End contacts.

(** ** The promises at work *)

Section examples.
#[local] Existing Instance toy.
#[local] Existing Instance toy_laws.

(** A bundle of the person with this seed, with this key, made at this time. *)
Definition example_raw (seed key : byte) (issued : Z) : bytes :=
  match create_identity_bundle [] (generate_sig_keypair [seed]).1 (replicate 8 key) (str "Ada")
    (mkBundleAddress (str "relay:7000") (replicate 32 Byte.x01) (replicate 16 Byte.x02)) issued (generate_sig_keypair [seed]).2 with
  | Ret raw => raw
  | Throw _ => []
  end.
Definition example_bundle (seed key : byte) (issued : Z) : IdentityBundle :=
  default (mkIdentityBundle 0 [] [] [] [] [] [] []) (parsed (example_raw seed key issued)).
Definition example_contacts : KeyStore :=
  (save_contact_bundle (str "Ada") (example_bundle Byte.x03 Byte.x04 5) [] (mkKeyStore ∅ ∅ ∅ [] [] 12)).2.

Lemma saved_contact_loads_witness :
  is_Some (find_contact_by_fingerprint example_contacts (bundle_fingerprint (example_bundle Byte.x03 Byte.x04 5))).
Proof.
  refine (proj1 (proj2 (proj2 (proj2 (saved_contact_loads (str "Ada") (example_raw Byte.x03 Byte.x04 5) (example_bundle Byte.x03 Byte.x04 5) []
    (mkKeyStore ∅ ∅ ∅ [] [] 12) [] example_contacts _ _ _))))); vm_compute; reflexivity.
Defined.

(** A newer bundle is imported, and the process stops after the first key. *)
Lemma import_never_rolls_back_witness :
  let run := import_bundle_for_known_identity (example_bundle Byte.x03 Byte.x09 7) [] [Fine; Fine; Fine; Killed None] example_contacts in
  exists c', load_contact run.2 (str "Ada") = Some c' /\ c'.(kem_verified) = false.
Proof.
  set (run := import_bundle_for_known_identity _ _ _ _). cbv zeta.
  assert (run = (run.1.1, run.1.2, run.2)) as E by (by destruct run as [[? ?] ?]).
  set (c := default (mkContact [] [] [] [] false 0 [] [] [] []) (load_contact example_contacts (str "Ada"))).
  destruct (@import_never_rolls_back toy toy_laws (example_bundle Byte.x03 Byte.x09 7) (example_raw Byte.x03 Byte.x09 7) [] [Fine; Fine; Fine; Killed None]
    example_contacts c _ _ _ ltac:(vm_compute; reflexivity) ltac:(vm_compute; reflexivity) ltac:(vm_compute; reflexivity) E) as (_ & c' & Hl & _).
  replace (co_name c) with (str "Ada") in Hl by (vm_compute; reflexivity).
  exists c'. split; [exact Hl|].
  assert (match load_contact run.2 (str "Ada") with Some x => kem_verified x | None => true end = false) as Hk by (vm_compute; reflexivity).
  rewrite Hl in Hk. exact Hk.
Defined.

(** A contact of the same name is replaced by another person, and the send token the
    first one issued is kept and would be used for the second. *)
Example replaced_contact_keeps_token :
  let ks := (save_contact_token (str "Ada") (replicate 32 Byte.x07) [] example_contacts).2 in
  let ks' := (save_contact_bundle (str "Ada") (example_bundle Byte.x05 Byte.x06 5) [] ks).2 in
  match load_contact ks' (str "Ada") with
  | Some c => c.(co_pub_dsa) = (generate_sig_keypair [Byte.x05]).1 /\ can_message c = true /\ c.(co_send_token) = replicate 32 Byte.x07
  | None => False
  end.
Proof. vm_compute. done. Qed.
End examples.
