(* ===== verification/Sharing.v ===== *)
(** * Text that is pasted into a chat: client/sharing.h and sharing.cpp

    Relay addresses, contact cards of the three versions, share links and relay
    invites. Where the code reports an error through a pointer, the reason is on the
    left of the result. *)

From Stdlib Require Import ZArith Lia.
From stdpp Require Import base list strings gmap.
From S2P Require Import Prelude Wire Text Protocol Crypto MessageRecord IdentityBundle KeyStore.
#[local] Open Scope Z_scope.

(** ** base64url *)

(** src/client/sharing.cpp 25-25 B64_ALPHABET *)
Definition B64_ALPHABET : bytes := str "ABCDEFGHIJKLMNOPQRSTUVWXYZabcdefghijklmnopqrstuvwxyz0123456789-_".

(** src/client/sharing.cpp 27-34 b64_value *)
Definition b64_value (b : byte) : Z :=
  let c := Z_of_byte b in
  if (65 <=? c) && (c <=? 90) then c - 65
  else if (97 <=? c) && (c <=? 122) then c - 97 + 26
  else if (48 <=? c) && (c <=? 57) then c - 48 + 52
  else if c =? 45 then 62
  else if c =? 95 then 63
  else -1.

Definition b64_char (v : Z) : byte := nth (Z.to_nat v) B64_ALPHABET Byte.x00.

(** src/client/sharing.cpp 36-59 b64_encode *)
Fixpoint b64_encode (inp : bytes) : bytes :=
  let z := Z_of_byte in
  let six v n := b64_char (Z.land (Z.shiftr v n) 63) in
  match inp with
  | a :: b :: c :: rest =>
      let v := Z.lor (Z.lor (Z.shiftl (z a) 16) (Z.shiftl (z b) 8)) (z c) in
      six v 18 :: six v 12 :: six v 6 :: b64_char (Z.land v 63) :: b64_encode rest
  | [a] =>
      let v := Z.shiftl (z a) 16 in
      [six v 18; six v 12]
  | [a; b] =>
      let v := Z.lor (Z.shiftl (z a) 16) (Z.shiftl (z b) 8) in
      [six v 18; six v 12; six v 6]
  | [] => []
  end.

(** The loop over the characters.
    src/client/sharing.cpp 65-77 b64_decode *)
Fixpoint b64_loop (inp : bytes) (acc bits : Z) (out : bytes) : option (Z * Z * bytes) :=
  match inp with
  | [] => Some (acc, bits, out)
  | c :: inp =>
      let v := b64_value c in
      if v <? 0 then None else
      let acc := Z.lor (u32 (Z.shiftl acc 6)) v in
      let bits := bits + 6 in
      if 8 <=? bits then
        let bits := bits - 8 in
        b64_loop inp acc bits (out ++ [byte_of_Z (Z.land (Z.shiftr acc bits) 0xFF)])
      else b64_loop inp acc bits out
  end.

(** src/client/sharing.cpp 61-79 b64_decode *)
Definition b64_decode (inp : bytes) : option bytes :=
  if size inp mod 4 =? 1 then None else
  let? (acc, bits, out) := b64_loop inp 0 0 [] in
  if (0 <? bits) && negb (Z.land acc (Z.shiftl 1 bits - 1) =? 0) then None else Some out.

(** ** Small helpers *)

(** src/client/sharing.cpp 83-88 trim *)
Definition trim (s : bytes) : bytes := drop_back is_space (drop_front is_space s).

(** src/client/sharing.cpp 90-94 ascii_lower *)
Definition ascii_lower (s : bytes) : bytes := map to_lower s.

(** src/client/sharing.cpp 96-107 is_valid_host *)
Definition is_valid_host (host : bytes) : bool :=
  if is_empty host || (253 <? size host) then false else
  match find_char (chr 58) host with
  | Some _ => forallb (fun c => is_xdigit c || bool_decide (c = chr 58) || bool_decide (c = chr 46)) host
  | None =>
      if match head host with Some c => bool_decide (c = chr 45) || bool_decide (c = chr 46) | None => false end then false else
      forallb (fun c => is_alnum c || bool_decide (c ∈ map chr [46; 45; 95])) host
  end.

(** ** Server addresses *)

(** src/client/sharing.h 14-14 DEFAULT_RELAY_PORT *)
Definition DEFAULT_RELAY_PORT : Z := 9000.

(** src/client/sharing.h 18-21 ServerAddress *)
Record ServerAddress := mkServerAddress { sa_host : bytes; sa_port : Z }.

(** The host, and the text of the port if there is one.
    src/client/sharing.cpp 114-137 parse_server_address *)
Definition split_address (s : bytes) : option (bytes * option bytes) :=
  match s with
  | c :: _ =>
      if bool_decide (c = chr 91) then
        let? endpos := find_char (chr 93) s in
        let host := ztake (endpos - 1) (zdrop 1 s) in
        match zdrop (endpos + 1) s with
        | [] => Some (host, None)
        | r :: port => if bool_decide (r = chr 58) then Some (host, Some port) else None
        end
      else if size (filter (fun x => x = chr 58) s) =? 1 then
        let? colon := find_char (chr 58) s in
        Some (ztake colon s, Some (zdrop (colon + 1) s))
      else Some (s, None)
  | [] => Some (s, None)
  end.

(** src/client/sharing.cpp 113-150 parse_server_address *)
Definition parse_server_address (text : bytes) : option ServerAddress :=
  let s := trim text in
  let? (host, port_text) := split_address s in
  if negb (is_valid_host host) then None else
  match port_text with
  | None => Some (mkServerAddress host DEFAULT_RELAY_PORT)
  | Some port_text =>
      if is_empty port_text || (5 <? size port_text) then None else
      if negb (forallb is_digit port_text) then None else
      let value := stoul port_text in
      if (value =? 0) || (65535 <? value) then None else
      Some (mkServerAddress host value)
  end.

(** src/client/sharing.cpp 152-157 format_server_address *)
Definition format_server_address (addr : ServerAddress) : bytes :=
  let v6 := match find_char (chr 58) addr.(sa_host) with Some _ => true | None => false end in
  let out := if v6 then str "[" ++ addr.(sa_host) ++ str "]" else addr.(sa_host) in
  if negb (addr.(sa_port) =? DEFAULT_RELAY_PORT) then out ++ str ":" ++ to_string addr.(sa_port) else out.

(** src/client/sharing.cpp 159-161 same_server *)
Definition same_server (a b : ServerAddress) : bool :=
  (a.(sa_port) =? b.(sa_port)) && bool_decide (ascii_lower a.(sa_host) = ascii_lower b.(sa_host)).

(** ** Contact names *)

(** The loop over the characters: anything else becomes an underscore, and a run of
    them one.
    src/client/sharing.cpp 166-172 sanitize_contact_name *)
Definition clean_name (raw : bytes) : bytes :=
  foldl (fun out c => if contact_char c then out ++ [c]
                      else if bool_decide (last out = Some (chr 95)) then out else out ++ [chr 95]) [] raw.

(** [strip]. *)
Definition strip (s : bytes) : bytes := drop_back dot_or_space (drop_front dot_or_space s).

(** src/client/sharing.cpp 165-181 sanitize_contact_name *)
Definition sanitize_contact_name (raw : bytes) : bytes :=
  let out := strip (clean_name raw) in
  let out := strip (ztake 64 out) in
  if is_valid_contact_name out then out else str "contact".

(** ** Contact cards *)

(** src/client/sharing.cpp 13-13 CARD_PREFIX *)
Definition CARD_PREFIX : bytes := str "pqft-contact-1:".
(** src/client/sharing.cpp 14-14 CARD2_PREFIX *)
Definition CARD2_PREFIX : bytes := str "pqft-contact-2:".
(** src/client/sharing.cpp 15-15 CARD3_PREFIX *)
Definition CARD3_PREFIX : bytes := str "pqft-contact-3:".
(** src/client/sharing.cpp 16-16 LINK_PREFIX *)
Definition LINK_PREFIX : bytes := str "pqft://".
(** src/client/sharing.cpp 17-17 CARD_MAGIC *)
Definition CARD_MAGIC : Z := 0x50514343.
(** src/client/sharing.cpp 18-18 CARD_VERSION *)
Definition CARD_VERSION : Z := 1.
(** src/client/sharing.cpp 19-19 MAX_CARD_NAME_BYTES *)
Definition MAX_CARD_NAME_BYTES : Z := 64.
(** src/client/sharing.cpp 20-20 MAX_CARD_SERVER_BYTES *)
Definition MAX_CARD_SERVER_BYTES : Z := 255.
(** src/client/sharing.cpp 21-21 CARD_CHECKSUM_BYTES *)
Definition CARD_CHECKSUM_BYTES : Z := 4.

(** [s.find(pat)] for a string that is not empty. *)
Fixpoint find_sub (pat s : bytes) : option Z :=
  if bool_decide (take (length pat) s = pat) then Some 0 else
  match s with
  | [] => None
  | _ :: s => Z.succ <$> find_sub pat s
  end.

(** src/client/sharing.h 39-44 ContactCard *)
Record ContactCard := mkContactCard { cc_name : bytes; cc_pub_kem : bytes; cc_pub_dsa : bytes; cc_server : bytes }.

(** src/client/sharing.h 72-79 ImportedCard *)
Record ImportedCard := mkImportedCard {
  ic_name : bytes;
  ic_pub_kem : bytes;
  ic_pub_dsa : bytes;
  ic_server : bytes;
  ic_bundle : option IdentityBundle;
  ic_send_token : bytes;
}.

(** src/client/sharing.cpp 198-201 looks_like_contact_card *)
Definition looks_like_contact_card (text : bytes) : bool :=
  let has p := match find_sub p text with Some _ => true | None => false end in
  has CARD_PREFIX || has CARD2_PREFIX || has CARD3_PREFIX.

(** The text without white space.
    src/client/sharing.cpp 227-229 decode_any_contact_card *)
Definition compact (text : bytes) : bytes := filter (fun c => is_space c = false) text.

(** The characters after the prefix, up to the first that is not base64url.
    src/client/sharing.cpp 233-235 decode_any_contact_card *)
Fixpoint b64_run (s : bytes) : bytes :=
  match s with
  | c :: s => if 0 <=? b64_value c then c :: b64_run s else []
  | [] => []
  end.

Definition damaged : string := "The contact card is damaged or incomplete. Paste only the card, exactly as it was sent.".
Definition bad_server : string := "The contact card contains an invalid relay server address.".

Section cards.
Context `{P : Primitives}.

(** The checksum is the beginning of the SHA-256.
    src/client/sharing.cpp 193-194 encode_contact_card *)
Definition with_checksum (buf : bytes) : bytes := buf ++ ztake CARD_CHECKSUM_BYTES (sha256 buf).

(** src/client/sharing.cpp 185-196 encode_contact_card *)
Definition encode_contact_card (card : ContactCard) : bytes :=
  let buf := write_u32 [] CARD_MAGIC in
  let buf := write_u32 buf CARD_VERSION in
  let buf := write_string buf card.(cc_name) in
  let buf := write_blob buf card.(cc_pub_kem) in
  let buf := write_blob buf card.(cc_pub_dsa) in
  let buf := write_string buf card.(cc_server) in
  CARD_PREFIX ++ b64_encode (with_checksum buf).

(** src/client/sharing.cpp 205-210 encode_contact_card_v2 *)
Definition encode_contact_card_v2 (bundle_raw : bytes) : bytes := CARD2_PREFIX ++ b64_encode (with_checksum bundle_raw).

(** src/client/sharing.cpp 212-219 encode_contact_card_v3 *)
Definition encode_contact_card_v3 (bundle_raw send_token : bytes) : bytes :=
  let buf := write_blob [] bundle_raw in
  let buf := write_blob buf send_token in
  CARD3_PREFIX ++ b64_encode (with_checksum buf).

(** From the position of the prefix to the payload whose checksum is right.
    src/client/sharing.cpp 233-243 decode_any_contact_card *)
Definition checked_payload (text : bytes) (start : Z) (prefix : bytes) : option bytes :=
  let? raw := b64_decode (b64_run (zdrop (start + size prefix) text)) in
  if size raw <=? CARD_CHECKSUM_BYTES then None else
  let payload_len := size raw - CARD_CHECKSUM_BYTES in
  let payload := ztake payload_len raw in
  if bool_decide (ztake CARD_CHECKSUM_BYTES (sha256 payload) = zdrop payload_len raw) then Some payload else None.

(** src/client/sharing.cpp 309-361 decode_contact_card *)
Definition decode_contact_card (text : bytes) : string + ContactCard :=
  let text := compact text in
  match find_sub CARD_PREFIX text with
  | None => inl "That doesn't look like a contact card."
  | Some start =>
      match checked_payload text start CARD_PREFIX with
      | None => inl damaged
      | Some payload =>
          let '(magic, off) := read_u32 payload 0 in
          if negb (bool_decide (magic = Some CARD_MAGIC)) then inl "That doesn't look like a contact card." else
          let '(version, off) := read_u32 payload off in
          if negb (bool_decide (version = Some CARD_VERSION))
          then inl "This contact card was made by an incompatible version of the app." else
          let '(name, off) := read_string payload off MAX_CARD_NAME_BYTES in
          let '(kem, off) := read_blob payload off MAX_KEM_CIPHERTEXT_SIZE in
          let '(dsa, off) := read_blob payload off MAX_SIGNATURE_SIZE in
          let '(server, off) := read_string payload off MAX_CARD_SERVER_BYTES in
          match name, kem, dsa, server with
          | Some name, Some kem, Some dsa, Some server =>
              if negb (off =? size payload) then inl damaged else
              if negb (size kem =? kem_public_key_size) || negb (size dsa =? sig_public_key_size)
              then inl "The keys in this card are not ML-KEM-768 / ML-DSA-65 public keys." else
              if negb (is_empty server) && negb (match parse_server_address server with Some _ => true | None => false end)
              then inl bad_server else
              inr (mkContactCard name kem dsa server)
          | _, _, _, _ => inl damaged
          end
      end
  end.

(** What a card with a bundle yields.
    src/client/sharing.cpp 250-263 decode_any_contact_card *)
Definition card_of_bundle (bundle_raw token : bytes) : string + ImportedCard :=
  match parse_identity_bundle bundle_raw with
  | Throw bundle_error => inl bundle_error
  | Ret bundle =>
      if negb (is_empty bundle.(ib_relay_hint)) && negb (match parse_server_address bundle.(ib_relay_hint) with Some _ => true | None => false end)
      then inl bad_server else
      inr (mkImportedCard bundle.(ib_display_name) bundle.(ib_encryption_key) bundle.(ib_signing_key) bundle.(ib_relay_hint) (Some bundle) token)
  end.

(** src/client/sharing.cpp 221-307 decode_any_contact_card *)
Definition decode_any_contact_card (text : bytes) : string + ImportedCard :=
  let c := compact text in
  match find_sub CARD3_PREFIX c with
  | Some start3 =>
      match checked_payload c start3 CARD3_PREFIX with
      | None => inl damaged
      | Some payload =>
          let '(bundle_raw, off) := read_blob payload 0 (16 * 1024) in
          let '(token, off) := read_blob payload off 64 in
          match bundle_raw, token with
          | Some bundle_raw, Some token =>
              if negb (off =? size payload) || (negb (is_empty token) && negb (size token =? 32)) then inl damaged else
              card_of_bundle bundle_raw token
          | _, _ => inl damaged
          end
      end
  | None =>
      match find_sub CARD2_PREFIX c with
      | None =>
          match decode_contact_card text with
          | inl e => inl e
          | inr v1 => inr (mkImportedCard v1.(cc_name) v1.(cc_pub_kem) v1.(cc_pub_dsa) v1.(cc_server) None [])
          end
      | Some start =>
          match checked_payload c start CARD2_PREFIX with
          | None => inl damaged
          | Some bundle_raw => card_of_bundle bundle_raw []
          end
      end
  end.
End cards.

(** ** Share links *)

(** src/client/sharing.h 93-96 ShareLink *)
Record ShareLink := mkShareLink { sl_server : ServerAddress; sl_transfer_id : bytes }.

(** src/client/sharing.cpp 365-367 build_share_link *)
Definition build_share_link (server : ServerAddress) (transfer_id : bytes) : bytes :=
  LINK_PREFIX ++ format_server_address server ++ str "/" ++ transfer_id.

(** The quotes and brackets before a link, and those and the punctuation after it. *)
Definition wrap_front (c : byte) : bool := bool_decide (c ∈ map chr [60; 34; 39]).
Definition wrap_back (c : byte) : bool := bool_decide (c ∈ map chr [62; 34; 39; 46; 44]).

(** src/client/sharing.cpp 369-391 parse_share_link *)
Definition parse_share_link (text : bytes) : option ShareLink :=
  let s := trim text in
  let s := drop_front wrap_front s in
  let s := drop_back (fun c => wrap_back c || bool_decide (c = chr 47)) s in
  let prefix_len := size LINK_PREFIX in
  if (size s <=? prefix_len) || negb (bool_decide (ascii_lower (ztake prefix_len s) = LINK_PREFIX)) then None else
  let rest := zdrop prefix_len s in
  let? slash := find_char (chr 47) rest in
  let? server := parse_server_address (ztake slash rest) in
  let id := ascii_lower (zdrop (slash + 1) rest) in
  if negb (is_lower_hex id TRANSFER_ID_HEX_LEN) then None else
  Some (mkShareLink server id).

(** ** Relay invites *)

(** src/client/sharing.h 107-111 RelayInvite *)
Record RelayInvite := mkRelayInvite { ri_server : ServerAddress; ri_relay_id : bytes; ri_invite : bytes }.

(** src/client/sharing.cpp 405-405 parse_relay_invite *)
Definition INVITE_PREFIX : bytes := str "pqft-relay://".

(** src/client/sharing.cpp 395-398 build_relay_invite *)
Definition build_relay_invite (invite : RelayInvite) : bytes :=
  INVITE_PREFIX ++ format_server_address invite.(ri_server) ++ str "/" ++ bytes_to_hex invite.(ri_relay_id) ++ str "/"
  ++ bytes_to_hex invite.(ri_invite).

(** src/client/sharing.cpp 400-423 parse_relay_invite *)
Definition parse_relay_invite (text : bytes) : option RelayInvite :=
  let s := trim text in
  let s := drop_front wrap_front s in
  let s := drop_back wrap_back s in
  let prefix_len := size INVITE_PREFIX in
  if (size s <=? prefix_len) || negb (bool_decide (ascii_lower (ztake prefix_len s) = INVITE_PREFIX)) then None else
  let rest := zdrop prefix_len s in
  let? first := find_char (chr 47) rest in
  let? second := find_char (chr 47) (zdrop (first + 1) rest) in
  let server := parse_server_address (ztake first rest) in
  let relay_id := hex_to_bytes (ztake second (zdrop (first + 1) rest)) in
  let code := filter (fun c => c <> chr 45 /\ is_space c = false) (zdrop (first + 1 + second + 1) rest) in
  let invite := hex_to_bytes code in
  let? server := server in
  let? relay_id := relay_id in
  if negb (size relay_id =? 32) then None else
  let? invite := invite in
  if negb (size invite =? 16) then None else
  Some (mkRelayInvite server relay_id invite).
