(* ===== verification/SharingProps.v ===== *)
(** * What pasted text promises

    base64url is exact, and addresses, links, invites and cards that are written by
    the program are read back as they were. *)

From Stdlib Require Import ZArith Lia.
From stdpp Require Import base list strings gmap.
From S2P Require Import Prelude Wire Text Protocol RelayProtocolSpec Utf8Label Crypto MessageRecord IdentityBundle KeyStore KeyStoreContacts Sharing.
#[local] Open Scope Z_scope.

(** ** base64url *)

Lemma b64_value_char v : 0 <= v < 64 -> b64_value (b64_char v) = v.
Proof.
  intros Hv. assert (forall n, (n < 64)%nat -> b64_value (b64_char (Z.of_nat n)) = Z.of_nat n) as Hn.
  { intros n Hn. do 64 (destruct n as [|n]; [reflexivity|]). lia. }
  rewrite <- (Z2Nat.id v) by lia. apply Hn. lia.
Qed.

Lemma b64_char_value c : 0 <= b64_value c -> b64_char (b64_value c) = c /\ b64_value c < 64.
Proof.
  pose (f := fun z => 0 <= b64_value (byte_of_Z z) -> b64_char (b64_value (byte_of_Z z)) = byte_of_Z z /\ b64_value (byte_of_Z z) < 64).
  assert (f (Z_of_byte c)) as Hf.
  { revert c. apply (byte_cases f). vm_compute. reflexivity. }
  unfold f in Hf. by rewrite byte_of_Z_of_byte in Hf.
Qed.

(** The loop of [b64_decode] on the bits that are left over only. *)
Fixpoint b64_rest (inp : bytes) (low bits : Z) (out : bytes) : option (Z * Z * bytes) :=
  match inp with
  | [] => Some (low, bits, out)
  | c :: inp =>
      let v := b64_value c in
      if v <? 0 then None else
      if bits =? 0 then b64_rest inp v 6 out
      else b64_rest inp ((low * 64 + v) mod 2 ^ (bits - 2)) (bits - 2) (out ++ [byte_of_Z ((low * 64 + v) / 2 ^ (bits - 2))])
  end.

Lemma b64_acc acc v : 0 <= v < 64 -> Z.lor (u32 (Z.shiftl acc 6)) v = (acc * 64) mod 2 ^ 32 + v.
Proof.
  intros Hv. rewrite Z.shiftl_mul_pow2 by lia. unfold u32. change (2 ^ 6) with 64.
  apply (lor_add_low _ _ 6); [lia|lia|]. change (2 ^ 6) with 64. Zlia.
Qed.

Lemma b64_step acc v bits :
  0 <= v < 64 -> bits ∈ [2; 4; 6] ->
  let acc' := (acc * 64) mod 2 ^ 32 + v in let m := acc mod 2 ^ bits * 64 + v in
  Z.land (Z.shiftr acc' (bits - 2)) 0xFF = m / 2 ^ (bits - 2) /\ acc' mod 2 ^ (bits - 2) = m mod 2 ^ (bits - 2).
Proof.
  intros Hv Hb. cbv zeta. rewrite !elem_of_cons, elem_of_nil in Hb. change 0xFF with (Z.ones 8).
  rewrite Z.land_ones, Z.shiftr_div_pow2 by lia.
  destruct Hb as [-> | [-> | [-> | []]]]; cbn [Z.sub Z.add Z.opp Z.pos_sub Pos.pred_double]; simpl Z.pow; split; Zlia.
Qed.

Lemma b64_loop_rest inp acc bits out :
  bits ∈ [0; 2; 4; 6] ->
  match b64_loop inp acc bits out with
  | Some (acc', bits', out') => b64_rest inp (acc mod 2 ^ bits) bits out = Some (acc' mod 2 ^ bits', bits', out') /\ bits' ∈ [0; 2; 4; 6]
  | None => b64_rest inp (acc mod 2 ^ bits) bits out = None
  end.
Proof.
  revert acc bits out. induction inp as [|c inp IH]; intros acc bits out Hb; cbn [b64_loop b64_rest]; [done|].
  destruct (b64_value c <? 0) eqn:E; [done|]. bool_prop. destruct (b64_char_value c E) as [_ Hlt]. rewrite b64_acc by lia.
  destruct (bits =? 0) eqn:E0; bool_prop.
  - subst bits. change (8 <=? 0 + 6) with false. cbv iota. specialize (IH ((acc * 64) mod 2 ^ 32 + b64_value c) 6 out). cbn [Z.add] in *.
    replace (((acc * 64) mod 2 ^ 32 + b64_value c) mod 2 ^ 6) with (b64_value c) in IH; [apply IH; set_solver|].
    change (2 ^ 6) with 64. Zlia.
  - assert (bits ∈ [2; 4; 6]) as Hb' by (rewrite !elem_of_cons, elem_of_nil in *; lia).
    destruct (b64_step acc (b64_value c) bits) as [Hbyte Hlow]; [lia|done|].
    replace (8 <=? bits + 6) with true by (rewrite !elem_of_cons, elem_of_nil in Hb'; symmetry; apply Z.leb_le; lia).
    replace (bits + 6 - 8) with (bits - 2) by lia. rewrite Hbyte, <- Hlow. apply IH. rewrite !elem_of_cons, elem_of_nil in *. lia.
Qed.

(** What is left over is zero. *)
Lemma b64_decode_rest inp :
  b64_decode inp = if size inp mod 4 =? 1 then None else
    let? (low, bits, out) := b64_rest inp 0 0 [] in if (0 <? bits) && negb (low =? 0) then None else Some out.
Proof.
  unfold b64_decode. destruct (_ =? 1); [done|]. pose proof (b64_loop_rest inp 0 0 []) as Hl. change (0 mod 2 ^ 0) with 0 in Hl.
  destruct (b64_loop inp 0 0 []) as [[[acc bits] out]|].
  - destruct Hl as [-> Hb]; [set_solver|]. rewrite Z.shiftl_1_l, Z.sub_1_r, <- Z.ones_equiv, Z.land_ones; [done|].
    rewrite !elem_of_cons, elem_of_nil in Hb. lia.
  - by rewrite Hl by set_solver.
Qed.

(** Four characters are three bytes. *)
Lemma b64_rest_group v1 v2 v3 v4 inp out :
  0 <= v1 < 64 -> 0 <= v2 < 64 -> 0 <= v3 < 64 -> 0 <= v4 < 64 ->
  b64_rest (b64_char v1 :: b64_char v2 :: b64_char v3 :: b64_char v4 :: inp) 0 0 out =
  b64_rest inp 0 0 (out ++ [byte_of_Z (v1 * 4 + v2 / 16); byte_of_Z (v2 mod 16 * 16 + v3 / 4); byte_of_Z (v3 mod 4 * 64 + v4)]).
Proof.
  intros. cbn [b64_rest]. rewrite !b64_value_char by lia. rewrite !(proj2 (Z.ltb_ge _ _)) by lia. cbn [Z.eqb Z.sub Z.add Z.opp Z.pos_sub Pos.pred_double Pos.eqb].
  rewrite <- !app_assoc. change (2 ^ 4) with 16. change (2 ^ 2) with 4. change (2 ^ 0) with 1. cbn [app].
  f_equal; [Zlia|]. f_equal. f_equal; [f_equal; Zlia|]. f_equal; [f_equal; Zlia|]. f_equal. f_equal. Zlia.
Qed.

Lemma b64_encode_group a b c rest :
  b64_encode (a :: b :: c :: rest) =
  b64_char (Z_of_byte a / 4) :: b64_char (Z_of_byte a mod 4 * 16 + Z_of_byte b / 16) ::
  b64_char (Z_of_byte b mod 16 * 4 + Z_of_byte c / 64) :: b64_char (Z_of_byte c mod 64) :: b64_encode rest.
Proof.
  cbn [b64_encode]. pose proof (Z_of_byte_range a). pose proof (Z_of_byte_range b). pose proof (Z_of_byte_range c).
  rewrite !Z.shiftl_mul_pow2 by lia. rewrite (lor_add_low _ (Z_of_byte b * 2 ^ 8) 16) by (lia || Zlia).
  rewrite (lor_add_low _ (Z_of_byte c) 8) by (lia || Zlia).
  change 63 with (Z.ones 6). rewrite !Z.land_ones, !Z.shiftr_div_pow2 by lia.
  repeat (f_equal; [f_equal; Zlia|]). f_equal. f_equal. Zlia.
Qed.

Lemma b64_encode_two a b :
  b64_encode [a; b] = [b64_char (Z_of_byte a / 4); b64_char (Z_of_byte a mod 4 * 16 + Z_of_byte b / 16); b64_char (Z_of_byte b mod 16 * 4)].
Proof.
  cbn [b64_encode]. pose proof (Z_of_byte_range a). pose proof (Z_of_byte_range b).
  rewrite !Z.shiftl_mul_pow2 by lia. rewrite (lor_add_low _ (Z_of_byte b * 2 ^ 8) 16) by (lia || Zlia).
  change 63 with (Z.ones 6). rewrite !Z.land_ones, !Z.shiftr_div_pow2 by lia.
  repeat (f_equal; [f_equal; Zlia|]). f_equal. f_equal. Zlia.
Qed.

Lemma b64_encode_one a : b64_encode [a] = [b64_char (Z_of_byte a / 4); b64_char (Z_of_byte a mod 4 * 16)].
Proof.
  cbn [b64_encode]. pose proof (Z_of_byte_range a). rewrite !Z.shiftl_mul_pow2 by lia.
  change 63 with (Z.ones 6). rewrite !Z.land_ones, !Z.shiftr_div_pow2 by lia.
  repeat (f_equal; [f_equal; Zlia|]). f_equal. f_equal. Zlia.
Qed.

Lemma byte_is b z : z = Z_of_byte b -> byte_of_Z z = b.
Proof. intros ->. apply byte_of_Z_of_byte. Qed.

(** Two and three characters at the end. *)
Lemma b64_rest_two v1 v2 out :
  0 <= v1 < 64 -> 0 <= v2 < 64 ->
  b64_rest [b64_char v1; b64_char v2] 0 0 out = Some (v2 mod 16, 4, out ++ [byte_of_Z (v1 * 4 + v2 / 16)]).
Proof.
  intros. cbn [b64_rest]. rewrite !b64_value_char by lia. rewrite !(proj2 (Z.ltb_ge _ _)) by lia. cbn [Z.eqb Z.sub Z.add Z.opp Z.pos_sub Pos.pred_double Pos.eqb].
  change (2 ^ 4) with 16. do 2 f_equal; [f_equal; Zlia|]. do 3 f_equal. Zlia.
Qed.

Lemma b64_rest_three v1 v2 v3 out :
  0 <= v1 < 64 -> 0 <= v2 < 64 -> 0 <= v3 < 64 ->
  b64_rest [b64_char v1; b64_char v2; b64_char v3] 0 0 out =
  Some (v3 mod 4, 2, out ++ [byte_of_Z (v1 * 4 + v2 / 16); byte_of_Z (v2 mod 16 * 16 + v3 / 4)]).
Proof.
  intros. cbn [b64_rest]. rewrite !b64_value_char by lia. rewrite !(proj2 (Z.ltb_ge _ _)) by lia. cbn [Z.eqb Z.sub Z.add Z.opp Z.pos_sub Pos.pred_double Pos.eqb].
  rewrite <- app_assoc. change (2 ^ 4) with 16. change (2 ^ 2) with 4. cbn [app]. do 2 f_equal; [f_equal; Zlia|].
  f_equal. f_equal; [f_equal; Zlia|]. do 2 f_equal. Zlia.
Qed.

(** Three bytes at a time. *)
Lemma bytes_ind3 (Q : bytes -> Prop) :
  Q [] -> (forall a, Q [a]) -> (forall a b, Q [a; b]) -> (forall a b c l, Q l -> Q (a :: b :: c :: l)) -> forall l, Q l.
Proof.
  intros H0 H1 H2 H3. fix IH 1. intros [|a [|b [|c l]]]; [exact H0|apply H1|apply H2|]. apply H3, IH.
Qed.

Lemma b64_rest_encode x out :
  exists bits, b64_rest (b64_encode x) 0 0 out = Some (0, bits, out ++ x) /\ size (b64_encode x) mod 4 <> 1.
Proof.
  revert out. induction x as [|a|a b|a b c l IH] using bytes_ind3; intros out.
  - exists 0. simpl. by rewrite app_nil_r.
  - exists 4. rewrite b64_encode_one. pose proof (Z_of_byte_range a). rewrite b64_rest_two by Zlia. split; [|vm_compute; congruence].
    rewrite (byte_is a) by Zlia. do 3 f_equal. Zlia.
  - exists 2. rewrite b64_encode_two. pose proof (Z_of_byte_range a). pose proof (Z_of_byte_range b).
    rewrite b64_rest_three by Zlia. split; [|vm_compute; congruence]. rewrite (byte_is a), (byte_is b) by Zlia. do 3 f_equal. Zlia.
  - rewrite b64_encode_group. pose proof (Z_of_byte_range a). pose proof (Z_of_byte_range b). pose proof (Z_of_byte_range c).
    destruct (IH (out ++ [a; b; c])) as (bits & E & Hs). exists bits.
    rewrite b64_rest_group by Zlia. rewrite (byte_is a), (byte_is b), (byte_is c) by Zlia. rewrite E, <- app_assoc. split; [done|].
    rewrite !size_cons. Zlia.
Qed.

Lemma b64_rest_inv n inp out low bits x :
  (length inp < n)%nat -> size inp mod 4 <> 1 -> b64_rest inp 0 0 out = Some (low, bits, x) -> (0 < bits -> low = 0) ->
  exists y, x = out ++ y /\ inp = b64_encode y.
Proof.
  revert inp out. induction n as [|n IH]; intros inp out Hn Hs E Hz; [lia|].
  assert (forall c, c ∈ inp -> exists v, 0 <= v < 64 /\ c = b64_char v) as Hall.
  { assert (forall low0 bits0 out0, b64_rest inp low0 bits0 out0 = Some (low, bits, x) -> forall c, c ∈ inp -> 0 <= b64_value c) as Hv.
    { clear. induction inp as [|d inp IH]; intros low0 bits0 out0 E c Hc; [by apply not_elem_of_nil in Hc|]. cbn [b64_rest] in E.
      destruct (b64_value d <? 0) eqn:Ed; [done|]. bool_prop. apply elem_of_cons in Hc as [-> | Hc]; [done|]. by destruct (bits0 =? 0); eapply IH. }
    intros c Hc. specialize (Hv _ _ _ E c Hc). destruct (b64_char_value c Hv) as [Hc1 Hc2]. exists (b64_value c). split; [lia|done]. }
  destruct inp as [|c1 [|c2 [|c3 [|c4 inp]]]].
  - cbn [b64_rest] in E. injection E as <- <- <-. exists []. by rewrite app_nil_r.
  - by vm_compute in Hs.
  - destruct (Hall c1 ltac:(set_solver)) as (v1 & H1 & ->). destruct (Hall c2 ltac:(set_solver)) as (v2 & H2 & ->).
    rewrite b64_rest_two in E by lia. injection E as <- <- <-. eexists. split; [done|]. rewrite b64_encode_one, Z_of_byte_of_Z.
    f_equal; [|f_equal]; f_equal; Zlia.
  - destruct (Hall c1 ltac:(set_solver)) as (v1 & H1 & ->). destruct (Hall c2 ltac:(set_solver)) as (v2 & H2 & ->).
    destruct (Hall c3 ltac:(set_solver)) as (v3 & H3 & ->).
    rewrite b64_rest_three in E by lia. injection E as <- <- <-. eexists. split; [done|]. rewrite b64_encode_two, !Z_of_byte_of_Z.
    f_equal; [|f_equal; [|f_equal]]; f_equal; Zlia.
  - destruct (Hall c1 ltac:(set_solver)) as (v1 & H1 & ->). destruct (Hall c2 ltac:(set_solver)) as (v2 & H2 & ->).
    destruct (Hall c3 ltac:(set_solver)) as (v3 & H3 & ->). destruct (Hall c4 ltac:(set_solver)) as (v4 & H4 & ->).
    rewrite b64_rest_group in E by lia. apply IH in E as (y & -> & ->); [|simpl in Hn; lia|rewrite !size_cons in Hs; Zlia|done].
    eexists. rewrite <- app_assoc. split; [done|]. cbn [app]. rewrite b64_encode_group, !Z_of_byte_of_Z.
    f_equal; [|f_equal; [|f_equal; [|f_equal]]]; f_equal; Zlia.
Qed.

(** The decoder accepts exactly what the encoder writes. *)
Lemma b64_exact s x : b64_decode s = Some x <-> s = b64_encode x.
Proof.
  rewrite b64_decode_rest. split.
  - destruct (size s mod 4 =? 1) eqn:Es; [done|]. bool_prop. destruct (b64_rest s 0 0 []) as [[[low bits] out]|] eqn:E; [|done].
    destruct (_ && _) eqn:Ez; [done|]. intros [= ->].
    eapply (b64_rest_inv (S (length s))) in E as (y & -> & ->); [done|lia|done|]. intros Hb.
    rewrite (proj2 (Z.ltb_lt _ _) Hb) in Ez. simpl in Ez. by bool_prop.
  - intros ->. destruct (b64_rest_encode x []) as (bits & E & Hs). rewrite E, (proj2 (Z.eqb_neq _ _) Hs). by rewrite andb_false_r.
Qed.

(** ** Addresses *)

Lemma digits_fuel k fuel n acc :
  0 <= n < 10 ^ Z.of_nat k -> (0 < k <= fuel)%nat -> digits fuel n acc = digits k n acc.
Proof.
  revert fuel n acc. induction k as [|k IH]; intros fuel n acc Hn Hf; [lia|]. destruct fuel as [|fuel]; [lia|]. cbn [digits].
  destruct (n <? 10) eqn:E; [done|]. bool_prop.
  assert (0 <= n / 10 < 10 ^ Z.of_nat k) as Hq.
  { rewrite Nat2Z.inj_succ, Z.pow_succ_r in Hn by lia. split; [apply Z.div_pos; lia|]. apply Z.div_lt_upper_bound; lia. }
  apply IH; [done|]. destruct k; [|lia]. change (10 ^ Z.of_nat 0) with 1 in Hq. assert (1 <= n / 10) by (apply Z.div_le_lower_bound; lia). lia.
Qed.

Lemma port_text n : 1 <= n <= 65535 ->
  stoul (to_string n) = n /\ forallb is_digit (to_string n) = true /\ is_empty (to_string n) = false /\ size (to_string n) <= 5.
Proof.
  intros Hn. destruct (to_string_spec n ltac:(lia)) as (Hs & Hd & Hne).
  assert (size (to_string n) <= 5) as H5.
  { unfold to_string. rewrite (digits_fuel 5) by (lia || done). destruct (digits_spec 5 n) as (_ & _ & _ & ?); [simpl; lia|lia|done]. }
  split_and!; [done| |by destruct (to_string n)|done].
  apply forallb_forall. intros c Hc. rewrite Forall_forall in Hd. apply Hd. by apply list_elem_of_In.
Qed.

Definition addr_ok (a : ServerAddress) : Prop := is_valid_host a.(sa_host) = true /\ 1 <= a.(sa_port) <= 65535.

(** The characters of an address are no spaces, quotes, brackets, slashes or colons
    beyond those that belong there. *)
Definition address_char (c : byte) : bool := is_alnum c || bool_decide (c ∈ map chr [46; 45; 95; 58; 91; 93]).

Lemma address_char_props c : address_char c = true -> is_space c = false /\ c <> chr 47 /\ wrap_front c = false.
Proof. destruct c; vm_compute; intros Hc; try discriminate Hc; by split_and!. Qed.

(** A check of every byte. *)
Lemma digit_char_props c : is_digit c = true -> c <> chr 58 /\ c <> chr 93 /\ address_char c = true.
Proof. destruct c; vm_compute; intros Hc; try discriminate Hc; by split_and!. Qed.
Lemma host6_char_props c : is_xdigit c || bool_decide (c = chr 58) || bool_decide (c = chr 46) = true -> c <> chr 91 /\ c <> chr 93 /\ address_char c = true.
Proof. destruct c; vm_compute; intros Hc; try discriminate Hc; by split_and!. Qed.
Lemma host4_char_props c : is_alnum c || bool_decide (c ∈ map chr [46; 45; 95]) = true -> c <> chr 91 /\ c <> chr 93 /\ address_char c = true.
Proof. destruct c; vm_compute; intros Hc; try discriminate Hc; by split_and!. Qed.

Lemma forallb_elem (Q : byte -> bool) s : forallb Q s = true <-> forall c, c ∈ s -> Q c = true.
Proof. rewrite forallb_forall. split; intros Hf c Hc; apply Hf; by apply list_elem_of_In. Qed.

Lemma host_chars host : is_valid_host host = true -> forall c, c ∈ host -> c <> chr 91 /\ c <> chr 93 /\ address_char c = true.
Proof.
  unfold is_valid_host. destruct (_ || _); [done|]. destruct (find_char (chr 58) host).
  - rewrite forallb_elem. intros Hf c Hc. by apply host6_char_props, Hf.
  - destruct (match head host with Some _ => _ | None => _ end); [done|]. rewrite forallb_elem. intros Hf c Hc. by apply host4_char_props, Hf.
Qed.

Lemma trim_id s : (forall c, c ∈ s -> is_space c = false) -> trim s = s.
Proof.
  intros Hs. unfold trim. rewrite drop_front_id by (destruct s; [done|]; apply Hs; left).
  apply drop_back_id. destruct (last s) eqn:E; [|done]. apply Hs. by apply last_Some_elem_of.
Qed.

(** Every character of a formatted address. *)
Lemma format_chars a c : addr_ok a -> c ∈ format_server_address a -> address_char c = true.
Proof.
  intros [Hh Hp] Hc. destruct (port_text _ Hp) as (_ & Hd & _). rewrite forallb_elem in Hd.
  assert (forall x, x ∈ sa_host a -> address_char x = true) as Hhost by (intros x Hx; by apply (host_chars _ Hh)).
  assert (forall x, x ∈ to_string (sa_port a) -> address_char x = true) as Hport by (intros x Hx; by apply digit_char_props, Hd).
  assert (address_char (chr 58) = true /\ address_char (chr 91) = true /\ address_char (chr 93) = true) as (H1 & H2 & H3) by (by vm_compute).
  unfold format_server_address in Hc. change (str ":") with [chr 58] in Hc. change (str "[") with [chr 91] in Hc. change (str "]") with [chr 93] in Hc.
  destruct (find_char _ _), (negb _); rewrite ?elem_of_app, ?list_elem_of_singleton in Hc; naive_solver.
Qed.

Lemma count_none (c : byte) (s : bytes) : c ∉ s -> filter (fun x => x = c) s = [].
Proof.
  induction s as [|x s IH]; intros Hn; [done|]. apply not_elem_of_cons in Hn as [? ?]. rewrite filter_cons_False by congruence. by apply IH.
Qed.

Lemma ztake_size_app {A} (a b : list A) n : n = size a -> ztake n (a ++ b) = a.
Proof. intros ->. apply ztake_app. Qed.
Lemma zdrop_size_app {A} (a b : list A) n : n = size a -> zdrop n (a ++ b) = b.
Proof. intros ->. apply zdrop_app. Qed.

Lemma split_format a :
  addr_ok a -> split_address (format_server_address a) =
  Some (a.(sa_host), if sa_port a =? DEFAULT_RELAY_PORT then None else Some (to_string a.(sa_port))).
Proof.
  intros [Hh Hp]. pose proof (host_chars _ Hh) as Hc. destruct (port_text _ Hp) as (_ & Hd & _). rewrite forallb_elem in Hd.
  unfold format_server_address. change (str ":") with [chr 58]. change (str "[") with [chr 91]. change (str "]") with [chr 93].
  destruct (find_char (chr 58) (sa_host a)) as [i|] eqn:Ef.
  - assert (chr 93 ∉ chr 91 :: sa_host a) as Hn by (rewrite not_elem_of_cons; split; [done|]; intros Hin; destruct (Hc _ Hin) as (_ & Hx & _); by apply Hx).
    assert (forall rest, split_address (([chr 91] ++ sa_host a ++ [chr 93]) ++ rest) =
      match rest with [] => Some (sa_host a, None) | r :: port => if bool_decide (r = chr 58) then Some (sa_host a, Some port) else None end) as Hs.
    { intros rest. replace (([chr 91] ++ sa_host a ++ [chr 93]) ++ rest) with ((chr 91 :: sa_host a) ++ chr 93 :: rest) by (rewrite <- !app_assoc; reflexivity).
      unfold split_address. cbn [app]. rewrite bool_decide_true by done.
      change (chr 91 :: sa_host a ++ chr 93 :: rest) with ((chr 91 :: sa_host a) ++ chr 93 :: rest).
      rewrite find_char_app by done. replace (size (chr 91 :: sa_host a) - 1) with (size (sa_host a)) by (rewrite size_cons; lia).
      change (zdrop 1 ((chr 91 :: sa_host a) ++ chr 93 :: rest)) with (sa_host a ++ chr 93 :: rest). rewrite ztake_app.
      replace ((chr 91 :: sa_host a) ++ chr 93 :: rest) with (((chr 91 :: sa_host a) ++ [chr 93]) ++ rest) by (rewrite <- app_assoc; reflexivity).
      by rewrite zdrop_size_app by (rewrite size_app; done). }
    destruct (sa_port a =? DEFAULT_RELAY_PORT); cbn [negb]; [specialize (Hs [])|specialize (Hs ([chr 58] ++ to_string (sa_port a)))].
    + by rewrite app_nil_r in Hs.
    + rewrite Hs. reflexivity.
  - apply find_char_None in Ef.
    assert (sa_host a <> []) as Hne by (intros E; rewrite E in Hh; done).
    destruct (sa_host a) as [|h t] eqn:Eh; [done|]. assert (h <> chr 91) as Hh91 by (apply Hc; left).
    destruct (sa_port a =? DEFAULT_RELAY_PORT); cbn [negb]; unfold split_address; cbn [app]; rewrite bool_decide_false by done.
    + by rewrite count_none.
    + change (h :: t ++ chr 58 :: to_string (sa_port a)) with ((h :: t) ++ chr 58 :: to_string (sa_port a)).
      rewrite filter_app, count_none, filter_cons_True by done. rewrite (count_none _ (to_string _)).
      2: { intros Hin. by destruct (digit_char_props _ (Hd _ Hin)). }
      simpl app. change (size [chr 58] =? 1) with true. cbv iota.
      change (h :: t ++ chr 58 :: to_string (sa_port a)) with ((h :: t) ++ chr 58 :: to_string (sa_port a)).
      rewrite find_char_app, ztake_app by done.
      replace ((h :: t) ++ chr 58 :: to_string (sa_port a)) with (((h :: t) ++ [chr 58]) ++ to_string (sa_port a)) by (rewrite <- app_assoc; reflexivity).
      by rewrite zdrop_size_app by (rewrite size_app; done).
Qed.

(** An address is read back as it was written. *)
Lemma address_roundtrip a : addr_ok a -> parse_server_address (format_server_address a) = Some a.
Proof.
  intros Ha. pose proof Ha as [Hh Hp]. destruct (port_text _ Hp) as (Hv & Hd & He & Hs). unfold parse_server_address.
  rewrite trim_id by (intros c Hc; by apply address_char_props, (format_chars a)). rewrite split_format by done. rewrite Hh. cbn [negb].
  destruct (sa_port a =? DEFAULT_RELAY_PORT) eqn:E; bool_prop; [rewrite <- E; by destruct a|].
  rewrite He, Hd, Hv, (proj2 (Z.ltb_ge _ _)) by lia. cbn [orb negb]. rewrite (proj2 (Z.eqb_neq _ _)), (proj2 (Z.ltb_ge _ _)) by lia. by destruct a.
Qed.

(** What is read is an address that can be written. *)
Lemma parsed_address_ok text a : parse_server_address text = Some a -> addr_ok a.
Proof.
  unfold parse_server_address. destruct (split_address _) as [[host port]|]; [|done]. destruct (is_valid_host host) eqn:Hh; [|done]. cbn [negb].
  destruct port as [port|].
  - destruct (_ || _); [done|]. destruct (negb _) eqn:Ed; [done|]. bool_prop. destruct (_ || _) eqn:Ev; [done|]. bool_prop.
    intros [= <-]. split; [done|]. simpl. assert (0 <= stoul port); [|lia].
    unfold stoul. assert (forall v, 0 <= v -> 0 <= foldl (fun v c => v * 10 + (Z_of_byte c - 48)) v port) as Hpos; [|by apply Hpos].
    clear -Ed. induction port as [|c port IH]; intros v Hv; simpl; [done|]. simpl in Ed. bool_prop. apply IH; [done|].
    unfold is_digit in *. bool_prop. lia.
  - intros [= <-]. split; [done|]. simpl. unfold DEFAULT_RELAY_PORT. lia.
Qed.

(** ** Links and invites *)

Abbreviation all_are Q s := (forall c : byte, c ∈ s -> Q c = true).

Lemma drop_front_all Q a s : all_are Q a -> drop_front Q (a ++ s) = drop_front Q s.
Proof. induction a as [|c a IH]; intros Ha; simpl; [done|]. rewrite Ha by left. apply IH. intros x Hx. apply Ha. by right. Qed.

Lemma drop_back_all Q s a : all_are Q a -> drop_back Q (s ++ a) = drop_back Q s.
Proof. intros Ha. unfold drop_back. rewrite reverse_app, drop_front_all; [done|]. intros c Hc. apply Ha. by apply elem_of_reverse. Qed.

(** Text that begins and ends with characters a test does not match. *)
Lemma drop_front_first Q c s : Q c = false -> drop_front Q (c :: s) = c :: s.
Proof. intros Hc. simpl. by rewrite Hc. Qed.
Lemma drop_back_last Q s c : Q c = false -> drop_back Q (s ++ [c]) = s ++ [c].
Proof. intros Hc. apply drop_back_id. by rewrite last_snoc. Qed.

(** A link in a message: white space, quotes and punctuation around it. *)
Definition wrapped (wb : byte -> bool) (link text : bytes) : Prop :=
  exists ws1 w1 w2 ws2, text = ws1 ++ w1 ++ link ++ w2 ++ ws2 /\
    all_are is_space ws1 /\ all_are wrap_front w1 /\ all_are wb w2 /\ all_are is_space ws2.

Lemma unwrap wb link text first mid last_ :
  link = first :: mid ++ [last_] -> is_space first = false -> wrap_front first = false -> is_space last_ = false -> wb last_ = false ->
  (forall c, wb c = true -> is_space c = false) -> wrapped wb link text ->
  drop_back wb (drop_front wrap_front (trim text)) = link.
Proof.
  intros -> Hs1 Hw1 Hs2 Hw2 Hwb (ws1 & w1 & w2 & ws2 & -> & Ha & Hb & Hc & Hd).
  assert (forall c, wrap_front c = true -> is_space c = false) as Hwf.
  { intros c Hx. unfold wrap_front in Hx. bool_prop. simpl in Hx. rewrite !elem_of_cons, elem_of_nil in Hx. by destruct Hx as [-> | [-> | [-> | []]]]. }
  set (link := first :: mid ++ [last_]) in *.
  assert (trim (ws1 ++ w1 ++ link ++ w2 ++ ws2) = w1 ++ link ++ w2) as ->.
  { unfold trim. rewrite drop_front_all by done.
    assert (drop_front is_space (w1 ++ link ++ w2 ++ ws2) = w1 ++ link ++ w2 ++ ws2) as ->.
    { destruct w1 as [|c w1]; [by apply drop_front_first|]. apply drop_front_first, Hwf, Hb. left. }
    replace (w1 ++ link ++ w2 ++ ws2) with ((w1 ++ link ++ w2) ++ ws2) by (by rewrite <- !app_assoc). rewrite drop_back_all by done.
    apply drop_back_id. destruct w2 as [|c w2] using rev_ind.
    - rewrite app_nil_r. unfold link. rewrite app_comm_cons, app_assoc, last_snoc. done.
    - rewrite !app_assoc, last_snoc. apply Hwb, Hc. set_solver. }
  rewrite drop_front_all by done. unfold link at 1. rewrite <- app_comm_cons, drop_front_first by done. rewrite app_comm_cons.
  rewrite drop_back_all by done. rewrite app_comm_cons. by apply drop_back_last.
Qed.

Lemma lower_hex_char c : let z := Z_of_byte c in ((48 <=? z) && (z <=? 57)) || ((97 <=? z) && (z <=? 102)) = true ->
  to_lower c = c /\ is_space c = false /\ wrap_back c || bool_decide (c = chr 47) = false /\ c <> chr 47 /\ c <> chr 45.
Proof. destruct c; vm_compute; intros Hc; try discriminate Hc; by split_and!. Qed.

Lemma lower_hex_chars s n c : is_lower_hex s n = true -> c ∈ s ->
  to_lower c = c /\ is_space c = false /\ wrap_back c || bool_decide (c = chr 47) = false /\ c <> chr 47 /\ c <> chr 45.
Proof.
  unfold is_lower_hex. destruct (negb _); [done|]. intros Hf Hc. rewrite forallb_elem in Hf. by apply lower_hex_char, Hf.
Qed.

Lemma lower_hex_snoc s n : is_lower_hex s n = true -> 0 < n -> exists t c, s = t ++ [c] /\ c ∈ s.
Proof.
  intros Hs Hn. unfold is_lower_hex in Hs. destruct (negb _) eqn:E; [done|]. bool_prop.
  destruct s as [|c s] using rev_ind; [unfold size in E; simpl in E; lia|]. exists s, c. split; [done|set_solver].
Qed.

Lemma ascii_lower_hex s n : is_lower_hex s n = true -> ascii_lower s = s.
Proof.
  intros Hs. unfold ascii_lower. rewrite <- (map_id s) at 2. apply map_ext_in. intros c Hc. apply (lower_hex_chars s n); [done|].
  by apply list_elem_of_In.
Qed.

Lemma slash_format a : addr_ok a -> chr 47 ∉ format_server_address a.
Proof. intros Ha Hin. apply (format_chars _ _ Ha) in Hin. by vm_compute in Hin. Qed.

Lemma after_slash {A} (a : list A) x b : zdrop (size a + 1) (a ++ x :: b) = b.
Proof. replace (a ++ x :: b) with ((a ++ [x]) ++ b) by (by rewrite <- app_assoc). apply zdrop_size_app. rewrite size_app. done. Qed.

Lemma share_link_back a id :
  addr_ok a -> is_lower_hex id TRANSFER_ID_HEX_LEN = true ->
  forall text, wrapped (fun c => wrap_back c || bool_decide (c = chr 47)) (build_share_link a id) text ->
  parse_share_link text = Some (mkShareLink a id).
Proof.
  intros Ha Hid text Hw. destruct (lower_hex_snoc _ _ Hid) as (t & c & -> & Hin); [by vm_compute|].
  destruct (lower_hex_chars _ _ _ Hid Hin) as (_ & Hsp & Hwr & _). unfold parse_share_link.
  rewrite (unwrap (fun c => wrap_back c || bool_decide (c = chr 47)) (build_share_link a (t ++ [c])) text (chr 112)
    (str "qft://" ++ format_server_address a ++ str "/" ++ t) c); [|unfold build_share_link; by rewrite <- !app_assoc|done..| |done].
  2: { intros x Hx. destruct x; by vm_compute in Hx. }
  set (id := t ++ [c]) in *. unfold build_share_link. rewrite zdrop_app, ztake_app.
  rewrite bool_decide_true by (by vm_compute). rewrite (proj2 (Z.leb_gt _ _)).
  2: { rewrite !size_app. pose proof (size_nonneg (format_server_address a)). pose proof (size_nonneg id). change (size (str "/")) with 1. lia. }
  cbn [orb negb]. change (str "/" ++ id) with (chr 47 :: id). rewrite find_char_app by (by apply slash_format).
  by rewrite ztake_app, address_roundtrip, after_slash, (ascii_lower_hex _ _ Hid), Hid.
Qed.

Lemma relay_invite_back i :
  addr_ok i.(ri_server) -> size i.(ri_relay_id) = 32 -> size i.(ri_invite) = 16 ->
  forall text, wrapped wrap_back (build_relay_invite i) text -> parse_relay_invite text = Some i.
Proof.
  intros Ha Hr Hi text Hw. pose proof (bytes_to_hex_lower i.(ri_relay_id)) as Hrh. pose proof (bytes_to_hex_lower i.(ri_invite)) as Hih.
  set (rid := bytes_to_hex i.(ri_relay_id)) in *. destruct (lower_hex_snoc _ _ Hih) as (t & c & Et & Hin); [lia|].
  destruct (lower_hex_chars _ _ _ Hih Hin) as (_ & Hsp & Hwr & _). apply orb_false_iff in Hwr as [Hwr _]. unfold parse_relay_invite.
  rewrite (unwrap wrap_back (build_relay_invite i) text (chr 112)
    (str "qft-relay://" ++ format_server_address i.(ri_server) ++ str "/" ++ rid ++ str "/" ++ t) c); [|unfold build_relay_invite; rewrite Et; by rewrite <- !app_assoc|done..| |done].
  2: { intros x Hx. destruct x; by vm_compute in Hx. }
  unfold build_relay_invite. fold rid. rewrite zdrop_app, ztake_app.
  rewrite bool_decide_true by (by vm_compute). rewrite (proj2 (Z.leb_gt _ _)).
  2: { rewrite !size_app. pose proof (size_nonneg (format_server_address i.(ri_server))). pose proof (size_nonneg rid).
       pose proof (size_nonneg (bytes_to_hex i.(ri_invite))). change (size (str "/")) with 1. lia. }
  cbn [orb negb]. set (code := bytes_to_hex i.(ri_invite)) in *. change (str "/" ++ rid ++ str "/" ++ code) with (chr 47 :: rid ++ chr 47 :: code).
  rewrite find_char_app by (by apply slash_format). rewrite after_slash, ztake_app, find_char_app.
  2: { intros Hin'. destruct (lower_hex_chars _ _ _ Hrh Hin') as (_ & _ & _ & Hx & _). by apply Hx. }
  rewrite ztake_app, address_roundtrip by done.
  replace (zdrop (size (format_server_address (ri_server i)) + 1 + size rid + 1) (format_server_address (ri_server i) ++ chr 47 :: rid ++ chr 47 :: code)) with code.
  2: { replace (format_server_address (ri_server i) ++ chr 47 :: rid ++ chr 47 :: code) with ((format_server_address (ri_server i) ++ chr 47 :: rid) ++ chr 47 :: code)
         by (by rewrite <- app_assoc).
       replace (size (format_server_address (ri_server i)) + 1 + size rid + 1) with (size (format_server_address (ri_server i) ++ chr 47 :: rid) + 1)
         by (rewrite size_app, size_cons; lia). by rewrite after_slash. }
  assert (filter (fun c => c <> chr 45 /\ is_space c = false) code = code) as ->.
  { apply filter_all, Forall_forall. intros x Hx. destruct (lower_hex_chars _ _ _ Hih Hx) as (_ & H1 & _ & _ & H2). done. }
  unfold rid, code. rewrite !hex_to_bytes_of_hex, Hr, Hi. by destruct i.
Qed.

(** Links and invites work. A share link and a relay invite the program writes
    for an address it accepts are read back exactly, also when a chat program has put
    white space, quotes, angle brackets or punctuation around them. *)
Theorem links_roundtrip a :
  addr_ok a ->
  (forall id text, is_lower_hex id TRANSFER_ID_HEX_LEN = true ->
    wrapped (fun c => wrap_back c || bool_decide (c = chr 47)) (build_share_link a id) text ->
    parse_share_link text = Some (mkShareLink a id)) /\
  (forall relay_id invite text, size relay_id = 32 -> size invite = 16 ->
    wrapped wrap_back (build_relay_invite (mkRelayInvite a relay_id invite)) text ->
    parse_relay_invite text = Some (mkRelayInvite a relay_id invite)).
Proof.
  intros Ha. split.
  - intros id text Hid. by apply share_link_back.
  - intros relay_id invite text Hr Hi. by apply relay_invite_back.
Qed.

(** ** Contact cards *)

Lemma find_sub_here pat s : find_sub pat (pat ++ s) = Some 0.
Proof. destruct (pat ++ s) as [|x l] eqn:E; cbn [find_sub]; rewrite <- E, take_app_length, bool_decide_true by done; done. Qed.

Lemma find_sub_Some pat s i : find_sub pat s = Some i -> exists a b, s = a ++ pat ++ b.
Proof.
  revert i. induction s as [|x s IH]; intros i; cbn [find_sub]; case_bool_decide as Ht.
  - intros _. exists [], (drop (length pat) []). rewrite <- Ht at 1. simpl. by rewrite take_drop.
  - done.
  - intros _. exists [], (drop (length pat) (x :: s)). rewrite <- Ht at 1. simpl. by rewrite take_drop.
  - destruct (find_sub pat s) as [j|]; [|done]. intros _. destruct (IH j eq_refl) as (a & b & ->). by exists (x :: a), b.
Qed.

(** Text with one colon has no other prefix in it. *)
Lemma find_sub_other p q body :
  chr 58 ∉ p -> chr 58 ∉ q -> chr 58 ∉ body -> length p = length q -> p <> q ->
  find_sub (p ++ [chr 58]) ((q ++ [chr 58]) ++ body) = None.
Proof.
  intros Hp Hq Hb Hl Hne. destruct (find_sub _ _) as [i|] eqn:E; [|done]. exfalso. apply find_sub_Some in E as (a & b & E).
  rewrite <- !app_assoc in E. cbn [app] in E.
  assert (chr 58 ∉ a) as Ha.
  { intros Hin. assert (size (filter (fun x => x = chr 58) (q ++ chr 58 :: body)) = 1) as H1.
    { by rewrite filter_app, (count_none _ q), filter_cons_True, (count_none _ body) by done. }
    rewrite E, !filter_app, (filter_cons_True _ (chr 58) b), !size_app, size_cons in H1 by done.
    pose proof (size_nonneg (filter (fun x => x = chr 58) p)). pose proof (size_nonneg (filter (fun x => x = chr 58) b)).
    assert (filter (fun x => x = chr 58) a = []) as Hf.
    { apply size_zero_iff. pose proof (size_nonneg (filter (fun x => x = chr 58) a)). lia. }
    assert (chr 58 ∈ filter (fun x => x = chr 58) a) as Hin' by (by apply list_elem_of_filter). rewrite Hf in Hin'. by apply not_elem_of_nil in Hin'. }
  rewrite app_assoc in E. assert (chr 58 ∉ a ++ p) as Hap by (rewrite elem_of_app; naive_solver).
  assert (forall (x y u v : bytes), chr 58 ∉ x -> chr 58 ∉ y -> x ++ chr 58 :: u = y ++ chr 58 :: v -> x = y) as Hsplit.
  { clear. induction x as [|c x IH]; intros [|d y] u v Hx Hy E; cbn [app] in E; [done|injection E as E1 E2..].
    - subst d. by apply not_elem_of_cons in Hy as [? _].
    - subst c. by apply not_elem_of_cons in Hx as [? _].
    - subst d. f_equal. apply not_elem_of_cons in Hx as [_ Hx]. apply not_elem_of_cons in Hy as [_ Hy]. by eapply IH. }
  apply Hsplit in E; [|done..]. pose proof (f_equal length E) as El. rewrite length_app in El. destruct a; [by apply Hne|simpl in El; lia].
Qed.

Lemma b64_char_props v : 0 <= v < 64 -> 0 <= b64_value (b64_char v) /\ is_space (b64_char v) = false /\ b64_char v <> chr 58.
Proof.
  intros Hv. assert (forall n, (n < 64)%nat -> 0 <= b64_value (b64_char (Z.of_nat n)) /\ is_space (b64_char (Z.of_nat n)) = false /\ b64_char (Z.of_nat n) <> chr 58) as Hn.
  { intros n Hn. do 64 (destruct n as [|n]; [vm_compute; split_and!; congruence|]). lia. }
  rewrite <- (Z2Nat.id v) by lia. apply Hn. lia.
Qed.

Lemma b64_encode_chars x c : c ∈ b64_encode x -> 0 <= b64_value c /\ is_space c = false /\ c <> chr 58.
Proof.
  induction x as [|a|a b|a b d l IH] using bytes_ind3;
    [by intros ?%not_elem_of_nil|rewrite b64_encode_one|rewrite b64_encode_two|rewrite b64_encode_group];
    pose proof (Z_of_byte_range a); try pose proof (Z_of_byte_range b); try pose proof (Z_of_byte_range d);
    rewrite !elem_of_cons, ?elem_of_nil; intros Hc; repeat destruct Hc as [-> | Hc]; try done; try (apply b64_char_props; Zlia). by apply IH.
Qed.

Lemma b64_run_id s : (forall c, c ∈ s -> 0 <= b64_value c) -> b64_run s = s.
Proof.
  induction s as [|c s IH]; intros Hs; [done|]. cbn [b64_run]. rewrite (proj2 (Z.leb_le _ _)) by (apply Hs; left).
  f_equal. apply IH. intros x Hx. apply Hs. by right.
Qed.

Section cards.
Context `{PrimitiveLaws}.

(** The payload of a card is found again. *)
Lemma checked_payload_back prefix payload :
  payload <> [] -> checked_payload (prefix ++ b64_encode (with_checksum payload)) 0 prefix = Some payload.
Proof.
  intros Hne. unfold checked_payload. rewrite Z.add_0_l, zdrop_app. rewrite b64_run_id by (intros c Hc; by apply (b64_encode_chars _ _ Hc)).
  rewrite (proj2 (b64_exact _ (with_checksum payload)) eq_refl). unfold with_checksum.
  assert (size (ztake CARD_CHECKSUM_BYTES (sha256 payload)) = CARD_CHECKSUM_BYTES) as Hs.
  { apply size_ztake. unfold sha256. rewrite sha256_size. by vm_compute. }
  rewrite size_app, Hs. assert (0 < size payload) by (destruct payload; [done|]; rewrite size_cons; pose proof (size_nonneg payload); lia).
  rewrite (proj2 (Z.leb_gt _ _)) by lia. replace (size payload + CARD_CHECKSUM_BYTES - CARD_CHECKSUM_BYTES) with (size payload) by lia.
  by rewrite ztake_app, zdrop_app, bool_decide_true.
Qed.

(** A card as it arrives: perhaps wrapped over several lines. *)
Lemma compact_card q body text :
  compact text = q ++ [chr 58] ++ body -> chr 58 ∉ q -> chr 58 ∉ body ->
  forall p, chr 58 ∉ p -> length p = length q -> p <> q -> find_sub (p ++ [chr 58]) (compact text) = None.
Proof. intros -> Hq Hb p Hp Hl Hne. rewrite app_assoc. by apply find_sub_other. Qed.

Definition PREFIX (n : Z) : bytes := str "pqft-contact-" ++ [chr (48 + n)].

Lemma card_body_no_colon x : chr 58 ∉ b64_encode x.
Proof. intros Hin. destruct (b64_encode_chars _ _ Hin) as (_ & _ & Hx). by apply Hx. Qed.

(** A relay the bundle suggests is one that can be parsed. *)
Definition hint_ok (hint : bytes) : Prop := hint = [] \/ exists a, parse_server_address hint = Some a.

Lemma card_of_bundle_ok raw b token :
  parse_identity_bundle raw = Ret b -> hint_ok b.(ib_relay_hint) ->
  card_of_bundle raw token = inr (mkImportedCard b.(ib_display_name) b.(ib_encryption_key) b.(ib_signing_key) b.(ib_relay_hint) (Some b) token).
Proof.
  intros Hp Hh. unfold card_of_bundle. rewrite Hp. destruct Hh as [-> | [a ->]]; [done|]. by destruct (is_empty _).
Qed.

(** C36: Contact cards are read back. A card of version 3 or 2 made from a signed
    bundle, or one of version 1 with keys of the right sizes, pasted with any white
    space and line breaks in it, yields exactly the bundle and its fields, the send
    token that was put in (none for the older versions), and, for version 1, the same
    keys without a bundle that vouches for them. *)
Theorem contact_cards_roundtrip text :
  (forall raw b token, compact text = encode_contact_card_v3 raw token -> parse_identity_bundle raw = Ret b -> hint_ok b.(ib_relay_hint) ->
    size raw <= 16 * 1024 -> (token = [] \/ size token = 32) ->
    decode_any_contact_card text =
    inr (mkImportedCard b.(ib_display_name) b.(ib_encryption_key) b.(ib_signing_key) b.(ib_relay_hint) (Some b) token)) /\
  (forall raw b, compact text = encode_contact_card_v2 raw -> parse_identity_bundle raw = Ret b -> hint_ok b.(ib_relay_hint) ->
    decode_any_contact_card text =
    inr (mkImportedCard b.(ib_display_name) b.(ib_encryption_key) b.(ib_signing_key) b.(ib_relay_hint) (Some b) [])) /\
  (forall name kem dsa server, compact text = encode_contact_card (mkContactCard name kem dsa server) ->
    size name <= MAX_CARD_NAME_BYTES -> size kem = kem_public_key_size -> size dsa = sig_public_key_size ->
    size server <= MAX_CARD_SERVER_BYTES -> hint_ok server ->
    decode_any_contact_card text = inr (mkImportedCard name kem dsa server None [])).
Proof.
  change CARD3_PREFIX with (PREFIX 3 ++ [chr 58]). split_and!.
  - intros raw b token Ht Hp Hh Hs Htok. unfold decode_any_contact_card. rewrite Ht. unfold encode_contact_card_v3.
    rewrite find_sub_here. encode_norm. cbv zeta. set (payload := blob raw ++ blob token). rewrite checked_payload_back.
    2: { intros E. apply (f_equal size) in E. unfold payload in E. rewrite size_app, !size_blob in E. pose proof (size_nonneg raw). pose proof (size_nonneg token). change (size (@nil byte)) with 0 in E. lia. }
    assert (payload = blob raw ++ blob token) as Hd by reflexivity. clearbody payload.
    assert (size token <= 32) by (destruct Htok as [-> | ->]; [by vm_compute|lia]).
    encode_at Hd. decode_fwd. decode_end. destruct Htok as [-> | Htok]; [|rewrite Htok, Z.eqb_refl, andb_false_r]; by apply card_of_bundle_ok.
  - intros raw b Ht Hp Hh. unfold decode_any_contact_card.
    change CARD3_PREFIX with (PREFIX 3 ++ [chr 58]). rewrite (compact_card (PREFIX 2) (b64_encode (with_checksum raw)) text);
      [|exact Ht|set_solver|apply card_body_no_colon|set_solver|done|done].
    rewrite Ht. unfold encode_contact_card_v2. rewrite find_sub_here, checked_payload_back; [by apply card_of_bundle_ok|].
    intros ->. destruct (parsed_sizes _ _ Hp) as (_ & Hx & _). change (size (@nil byte)) with 0 in Hx. lia.
  - intros name kem dsa server Ht Hn Hk Hds Hsv Hh. destruct key_sizes as [? ?]. unfold decode_any_contact_card. unfold encode_contact_card in Ht. cbv zeta in Ht.
    set (payload := write_string _ _) in Ht. assert (payload = write_string (write_blob (write_blob (write_string (write_u32 (write_u32 [] CARD_MAGIC) CARD_VERSION) name) kem) dsa) server) as Hd by reflexivity. clearbody payload.
    change CARD3_PREFIX with (PREFIX 3 ++ [chr 58]). change CARD2_PREFIX with (PREFIX 2 ++ [chr 58]).
    rewrite !(compact_card (PREFIX 1) (b64_encode (with_checksum payload)) text);
      [|exact Ht|set_solver|apply card_body_no_colon|set_solver|done|done|exact Ht|set_solver|apply card_body_no_colon|set_solver|done|done].
    unfold decode_contact_card. rewrite Ht, find_sub_here, checked_payload_back.
    2: { intros E. rewrite E in Hd. apply (f_equal size) in Hd. revert Hd. encode_norm. rewrite size_app, size_be32. change (size (@nil byte)) with 0.
         set (r := be32 _ ++ _). pose proof (size_nonneg r). lia. }
    unfold MAX_CARD_NAME_BYTES, MAX_CARD_SERVER_BYTES in *. encode_at Hd.
    assert (size kem <= MAX_KEM_CIPHERTEXT_SIZE) by (unfold MAX_KEM_CIPHERTEXT_SIZE; lia).
    assert (size dsa <= MAX_SIGNATURE_SIZE) by (unfold MAX_SIGNATURE_SIZE; lia).
    decode_fwd. rewrite !bool_decide_true by done. cbn [negb]. decode_fwd. decode_end. rewrite Hk, Hds, !Z.eqb_refl. cbn [negb orb].
    destruct Hh as [-> | [a ->]]; [done|]. by destruct (is_empty server).
Qed.
End cards.

(** ** The promises at work *)

Lemma links_roundtrip_witness :
  let a := mkServerAddress (str "fe80::1") 7000 in
  parse_share_link (str " <pqft://[fe80::1]:7000/00112233445566778899aabbccddeeff>. ") =
  Some (mkShareLink a (str "00112233445566778899aabbccddeeff")).
Proof.
  refine (proj1 (links_roundtrip (mkServerAddress (str "fe80::1") 7000) _) (str "00112233445566778899aabbccddeeff") _ _ _).
  - split; [reflexivity|simpl; lia].
  - reflexivity.
  - exists (str " "), (str "<"), (str ">."), (str " ").
    split; [reflexivity|]. split_and!; apply forallb_elem; reflexivity.
Defined.

Section examples.
#[local] Existing Instance toy.
#[local] Existing Instance toy_laws.

(** A card of version 1, broken over two lines. *)
Lemma contact_cards_roundtrip_witness :
  let card := encode_contact_card (mkContactCard (str "Ada") (replicate 8 Byte.x04) (replicate 8 Byte.x05) (str "relay:7000")) in
  decode_any_contact_card (ztake 30 card ++ [chr 13; chr 10] ++ zdrop 30 card) =
  inr (mkImportedCard (str "Ada") (replicate 8 Byte.x04) (replicate 8 Byte.x05) (str "relay:7000") None []).
Proof.
  set (card := encode_contact_card _). cbv zeta.
  refine (proj2 (proj2 (contact_cards_roundtrip (ztake 30 card ++ [chr 13; chr 10] ++ zdrop 30 card)))
    (str "Ada") (replicate 8 Byte.x04) (replicate 8 Byte.x05) (str "relay:7000") _ _ _ _ _ _).
  - vm_compute. reflexivity.
  - vm_compute. discriminate.
  - reflexivity.
  - reflexivity.
  - vm_compute. discriminate.
  - right. exists (mkServerAddress (str "relay") 7000). vm_compute. reflexivity.
Defined.
End examples.
