(* ===== verification/Sql.v ===== *)
(** * Tables: the SQL the relay's store is written in (protocol/sqlite_helpers.h)

    A table is the list of its rows in rowid order; a statement is a function of
    the tables it names. A statement that breaks a constraint (a primary key, a
    [UNIQUE] column, a foreign key) or overflows a [SUM] fails: [Stmt::step]
    throws and the open [Transaction] is rolled back, which the operations model
    by returning [None] and leaving the database as it was. The lemmas say what
    each kind of statement does to the constraints. *)

From Stdlib Require Import ZArith Lia.
From stdpp Require Import base list strings.
From S2P Require Import Prelude.
#[local] Open Scope Z_scope.

(** ** Statements *)

(** [SELECT ... WHERE P]: the first row, whether there is one, how many. *)
Definition select_first {A} (P : A -> Prop) `{!forall x, Decision (P x)} (t : list A) : option A :=
  head (filter P t).
Definition exists_row {A} (P : A -> Prop) `{!forall x, Decision (P x)} (t : list A) : bool :=
  match filter P t with [] => false | _ => true end.
Definition count_rows {A} (P : A -> Prop) `{!forall x, Decision (P x)} (t : list A) : Z :=
  size (filter P t).

(** [DELETE FROM t WHERE P]; [sqlite3_changes] is [count_rows P t]. *)
Definition delete_rows {A} (P : A -> Prop) `{!forall x, Decision (P x)} (t : list A) : list A :=
  filter (fun x => ~ P x) t.

(** [UPDATE t SET f WHERE P]. *)
Definition update_rows {A} (P : A -> Prop) `{!forall x, Decision (P x)} (f : A -> A) (t : list A) : list A :=
  map (fun x => if decide (P x) then f x else x) t.

(** [INSERT INTO t] where [key] is unique: refused if the key is there. *)
Definition insert_row {A K} `{!EqDecision K} (key : A -> K) (x : A) (t : list A) : option (list A) :=
  if decide (key x ∈ map key t) then None else Some (t ++ [x]).

(** [INSERT OR IGNORE]: nothing happens if the key is there. *)
Definition insert_or_ignore {A K} `{!EqDecision K} (key : A -> K) (x : A) (t : list A) : list A :=
  if decide (key x ∈ map key t) then t else t ++ [x].

(** [INSERT OR REPLACE]: the row with the same key is deleted first. *)
Definition insert_or_replace {A K} `{!EqDecision K} (key : A -> K) (x : A) (t : list A) : list A :=
  delete_rows (fun y => key y = key x) t ++ [x].

(** [INSERT ... ON CONFLICT(key) DO UPDATE SET f]. *)
Definition upsert_row {A K} `{!EqDecision K} (key : A -> K) (x : A) (f : A -> A) (t : list A) : list A :=
  if decide (key x ∈ map key t) then update_rows (fun y => key y = key x) f t else t ++ [x].

(** [REFERENCES parent(key)]: an insertion is refused if the parent is not there. *)
Definition references {A K} `{!EqDecision K} (key : A -> K) (k : K) (parent : list A) : bool :=
  bool_decide (k ∈ map key parent).

(** [COALESCE(SUM(e), 0)]: fails on a 64-bit overflow. *)
Definition sql_sum {A} (f : A -> Z) (t : list A) : option Z :=
  let s := sum_by f t in
  if (- 2 ^ 63 <=? s) && (s <? 2 ^ 63) then Some s else None.

(** [LIMIT n], bound as a signed 64-bit integer: a negative limit is none. *)
Definition sql_limit {A} (n : Z) (t : list A) : list A :=
  if i64 n <? 0 then t else ztake (i64 n) t.

(** A nullable BLOB column. src/protocol/sqlite_helpers.h 64-70 Stmt::column_blob *)
Definition column_blob (b : option bytes) : bytes := default [] b.

(** ** Lemmas *)

Section tables.
Context {A : Type}.
Implicit Types (t : list A).

Lemma elem_of_delete_rows (P : A -> Prop) `{HP0 : !forall x, Decision (P x)} x t :
  x ∈ delete_rows P t <-> ~ P x /\ x ∈ t.
Proof. unfold delete_rows. by rewrite list_elem_of_filter. Qed.

Lemma delete_rows_sublist (P : A -> Prop) `{HP0 : !forall x, Decision (P x)} t :
  sublist (delete_rows P t) t.
Proof. apply sublist_filter. Qed.

Lemma filter_sublist (P : A -> Prop) `{HP0 : !forall x, Decision (P x)} t1 t2 :
  sublist t1 t2 -> sublist (filter P t1) (filter P t2).
Proof.
  induction 1 as [|x t1 t2 _ IH|x t1 t2 _ IH]; [constructor|rewrite !filter_cons|rewrite filter_cons];
    case_decide; [by constructor|done|by constructor|done].
Qed.

Lemma exists_row_true (P : A -> Prop) `{HP0 : !forall x, Decision (P x)} t :
  exists_row P t = true <-> exists x, x ∈ t /\ P x.
Proof.
  unfold exists_row. destruct (filter P t) as [|x l] eqn:E.
  - split; [done|]. intros (x & Hx & HP).
    assert (x ∈ filter P t) as H by by apply list_elem_of_filter. rewrite E in H. by apply not_elem_of_nil in H.
  - split; [|done]. intros _. exists x.
    assert (x ∈ filter P t) as H by (rewrite E; left). apply list_elem_of_filter in H. naive_solver.
Qed.

Lemma exists_row_false (P : A -> Prop) `{HP0 : !forall x, Decision (P x)} t :
  exists_row P t = false <-> forall x, x ∈ t -> ~ P x.
Proof.
  rewrite <- not_true_iff_false, exists_row_true. naive_solver.
Qed.

Lemma select_first_Some (P : A -> Prop) `{HP0 : !forall x, Decision (P x)} t x :
  select_first P t = Some x -> x ∈ t /\ P x.
Proof.
  unfold select_first. intros H. assert (x ∈ filter P t) as Hx.
  { destruct (filter P t); simplify_eq/=. left. }
  apply list_elem_of_filter in Hx. naive_solver.
Qed.

Lemma select_first_None (P : A -> Prop) `{HP0 : !forall x, Decision (P x)} t :
  select_first P t = None <-> forall x, x ∈ t -> ~ P x.
Proof.
  unfold select_first. split.
  - intros H x Hx HP. destruct (filter P t) eqn:E; [|done].
    assert (x ∈ filter P t) as Hin by by apply list_elem_of_filter. rewrite E in Hin. by apply not_elem_of_nil in Hin.
  - intros H. destruct (filter P t) as [|x l] eqn:E; [done|].
    assert (x ∈ filter P t) as Hin by (rewrite E; left). apply list_elem_of_filter in Hin as [HP Hx]. by destruct (H x).
Qed.

Context {K : Type} `{!EqDecision K} (key : A -> K).

(** The rows of a table have distinct keys. *)
Definition unique t : Prop := NoDup (map key t).

Lemma unique_nil : unique [].
Proof. constructor. Qed.

Lemma unique_sublist t1 t2 : sublist t1 t2 -> unique t2 -> unique t1.
Proof. intros Hs Hu. unfold unique. eapply sublist_NoDup; [exact Hu|]. by apply fmap_sublist. Qed.

Lemma unique_delete (P : A -> Prop) `{HP0 : !forall x, Decision (P x)} t : unique t -> unique (delete_rows P t).
Proof. apply unique_sublist, delete_rows_sublist. Qed.

Lemma unique_snoc t x : unique (t ++ [x]) <-> unique t /\ key x ∉ map key t.
Proof.
  unfold unique. rewrite map_app, NoDup_app. simpl. split.
  - intros (? & Hd & _). split; [done|]. intros Hin. apply (Hd _ Hin). left.
  - intros [? Hn]. split_and!; [done| |apply NoDup_singleton].
    intros y Hy Hy'. apply list_elem_of_singleton in Hy' as ->. done.
Qed.

Lemma insert_row_Some x t t' : insert_row key x t = Some t' <-> key x ∉ map key t /\ t' = t ++ [x].
Proof. unfold insert_row. case_decide; naive_solver. Qed.

Lemma unique_insert x t t' : insert_row key x t = Some t' -> unique t -> unique t'.
Proof. rewrite insert_row_Some. intros [? ->] ?. by apply unique_snoc. Qed.

Lemma unique_insert_or_ignore x t : unique t -> unique (insert_or_ignore key x t).
Proof. unfold insert_or_ignore. case_decide; [done|]. intros ?. by apply unique_snoc. Qed.

Lemma update_rows_keys (P : A -> Prop) `{HP0 : !forall x, Decision (P x)} f t :
  (forall x, P x -> key (f x) = key x) -> map key (update_rows P f t) = map key t.
Proof.
  intros Hf. unfold update_rows. rewrite map_map. apply map_ext. intros x. case_decide; auto.
Qed.

Lemma unique_update (P : A -> Prop) `{HP0 : !forall x, Decision (P x)} f t :
  (forall x, P x -> key (f x) = key x) -> unique t -> unique (update_rows P f t).
Proof. intros. unfold unique. by rewrite update_rows_keys. Qed.

Lemma unique_upsert x f t :
  (forall y, key y = key x -> key (f y) = key y) -> unique t -> unique (upsert_row key x f t).
Proof.
  intros Hf Hu. unfold upsert_row. case_decide; [by apply unique_update|by apply unique_snoc].
Qed.

Lemma unique_insert_or_replace x t : unique t -> unique (insert_or_replace key x t).
Proof.
  intros Hu. apply unique_snoc. split; [by apply unique_delete|].
  intros Hin. apply list_elem_of_In, in_map_iff in Hin as (y & Hk & Hy).
  apply list_elem_of_In, elem_of_delete_rows in Hy as [? _]. done.
Qed.

Lemma unique_key_inj t x y : unique t -> x ∈ t -> y ∈ t -> key x = key y -> x = y.
Proof.
  unfold unique. intros Hu Hx Hy E. induction t as [|z t IH]; [by apply not_elem_of_nil in Hx|].
  simpl in Hu. apply NoDup_cons in Hu as [Hn Hu].
  apply elem_of_cons in Hx as [->|Hx], Hy as [->|Hy]; [done| | |by apply IH].
  - destruct Hn. rewrite E. by apply list_elem_of_fmap_2.
  - destruct Hn. rewrite <- E. by apply list_elem_of_fmap_2.
Qed.

Lemma select_first_unique t x :
  unique t -> x ∈ t -> select_first (fun y => key y = key x) t = Some x.
Proof.
  intros Hu Hx. destruct (select_first _ t) as [y|] eqn:E.
  - apply select_first_Some in E as [Hy Hk]. f_equal. by apply (unique_key_inj t).
  - rewrite select_first_None in E. by destruct (E x Hx).
Qed.

Lemma references_true k t : references key k t = true <-> k ∈ map key t.
Proof. apply bool_decide_eq_true. Qed.
(** Looking a row up by its key after each kind of statement. *)
Abbreviation row_of k t := (select_first (fun y => key y = k) t).

Lemma row_of_Some t k x : unique t -> row_of k t = Some x <-> x ∈ t /\ key x = k.
Proof.
  intros Hu. split; [apply select_first_Some|]. intros [Hx <-]. by apply select_first_unique.
Qed.

Lemma row_of_cons x t k : row_of k (x :: t) = if decide (key x = k) then Some x else row_of k t.
Proof. unfold select_first. rewrite filter_cons. by case_decide. Qed.

Lemma row_of_update (P : A -> Prop) `{HP0 : !forall x, Decision (P x)} f t k :
  (forall x, P x -> key (f x) = key x) ->
  row_of k (update_rows P f t) = (fun x => if decide (P x) then f x else x) <$> row_of k t.
Proof.
  intros Hf. induction t as [|x t IH]; [done|]. cbn [update_rows map]. fold (update_rows P f t).
  rewrite !row_of_cons, IH.
  assert (key (if decide (P x) then f x else x) = key x) as -> by (case_decide; auto). by case_decide.
Qed.

Lemma row_of_not_in t k : k ∉ map key t -> row_of k t = None.
Proof.
  intros Hn. apply select_first_None. intros x Hx <-. apply Hn. by apply list_elem_of_fmap_2.
Qed.

Lemma row_of_delete (P : A -> Prop) `{HP0 : !forall x, Decision (P x)} t k :
  unique t -> row_of k (delete_rows P t) = (x ← row_of k t; if decide (P x) then None else Some x).
Proof.
  induction t as [|x t IH]; [done|]. intros Hu. unfold unique in Hu. simpl in Hu. apply NoDup_cons in Hu as [Hn Hu].
  unfold delete_rows. rewrite filter_cons. fold (delete_rows P t). specialize (IH Hu). rewrite row_of_cons.
  destruct (decide (~ P x)) as [Hp|Hp].
  - rewrite row_of_cons. case_decide as Ek; simpl; [by rewrite decide_False|done].
  - rewrite IH. case_decide as Ek; simpl; [|done]. subst. rewrite row_of_not_in by done. simpl.
    rewrite decide_True; [done|]. destruct (decide (P x)); [done|]. by destruct Hp.
Qed.

Lemma row_of_snoc t x k : row_of k (t ++ [x]) = match row_of k t with Some y => Some y | None => if decide (key x = k) then Some x else None end.
Proof.
  induction t as [|y t IH]; [apply row_of_cons|]. cbn [app]. rewrite !row_of_cons. rewrite IH. by destruct (decide (key y = k)).
Qed.

Lemma row_of_replace t x k :
  row_of k (insert_or_replace key x t) = if decide (key x = k) then Some x else row_of k t.
Proof.
  unfold insert_or_replace. rewrite row_of_snoc. case_decide as Ek.
  - destruct (row_of k (delete_rows _ t)) as [y|] eqn:E; [|done].
    apply select_first_Some in E as [[Hy _]%elem_of_delete_rows Hk]. congruence.
  - assert (row_of k (delete_rows (fun y => key y = key x) t) = row_of k t) as ->; [|by destruct (row_of k t)].
    induction t as [|y t IH]; [done|]. unfold delete_rows in *. rewrite filter_cons.
    destruct (decide (~ key y = key x)) as [Hy|Hy]; rewrite !row_of_cons; [by rewrite IH|].
    rewrite decide_False; [done|]. intros E. apply Hy. intros E'. by destruct Ek; rewrite <- E'.
Qed.
End tables.

Lemma sql_sum_Some {A} (f : A -> Z) t s : sql_sum f t = Some s <-> s = sum_by f t /\ in_i64 (sum_by f t).
Proof.
  unfold sql_sum, in_i64. destruct ((_ <=? _) && _) eqn:E.
  - bool_prop. naive_solver.
  - split; [done|]. intros [_ [? ?]]. apply andb_false_iff in E as [E|E]; bool_prop; lia.
Qed.
