(* ===== verification/PrekeyVault.v ===== *)
(** * The prekey vault: client/prekey_vault.h and prekey_vault.cpp

    Where a device keeps the private halves of its prekeys. The database is one
    table and one [meta] value; each secret is sealed under the vault's key, with
    its ID as associated data. Random nonces are arguments. [vault_step] runs an
    operation; the abstract vault is a finite map from IDs to secrets, and the
    refinement says that the database with its sealed rows behaves as that map.
    With [Envelope] this gives forward secrecy. *)

From Stdlib Require Import ZArith Lia.
From stdpp Require Import base list strings gmap.
From S2P Require Import Prelude Wire RelayProtocol RelayProtocolSpec Crypto Prekey Envelope Sql.
#[local] Open Scope Z_scope.
#[local] Open Scope wire_scope.

(** src/client/prekey_vault.cpp 11-11 AAD_LABEL *)
Definition VAULT_AAD_LABEL : bytes := str "pq-suite v3 prekey vault".

(** A row of the table [prekeys]; its columns are those of the schema.
    src/client/prekey_vault.cpp 62-63 open_or_recreate *)
Record VaultRow := mkVaultRow {
  vr_id : bytes;
  vr_sealed : bytes;
  vr_public_blob : option bytes;
  vr_last_resort : bool;
  vr_created_at : Z;
  vr_uploaded : bool;
  vr_retired_at : option Z;
}.

(** The vault: its key, the [meta] row, whether a [BEGIN] is still open, the table.
    src/client/prekey_vault.h 54-56 PrekeyVault *)
Record Vault := mkVault {
  vault_key : bytes;
  vault_generation : option bytes;
  vault_in_transaction : bool;
  vault_rows : list VaultRow;
}.

Definition with_rows (v : Vault) (rows : list VaultRow) : Vault :=
  mkVault v.(vault_key) v.(vault_generation) v.(vault_in_transaction) rows.

(** src/client/prekey_vault.h 39-44 Counts *)
Record VaultCounts := mkVaultCounts { one_time : Z; last_resort : Z; retired : Z; pending : Z }.

(** What is in the file: nothing usable, or a generation and the rows. A file
    that is not a database is started afresh.
    src/client/prekey_vault.cpp 36-39 PrekeyVault, and 55-77 open_or_recreate *)
Definition open_vault (file : option (option bytes * list VaultRow)) (key : bytes) : exc Vault :=
  if negb (size key =? 32) then Throw "Prekey store: the key is not valid" else
  match file with
  | Some (generation, rows) => Ret (mkVault key generation false rows)
  | None => Ret (mkVault key None false [])
  end.

(** The rows [WHERE P] are overwritten and then deleted. The first component is
    the table between the two statements, the last one [sqlite3_changes].
    src/client/prekey_vault.cpp 108-119 secure_erase_where *)
Definition secure_erase_where (P : VaultRow -> Prop) `{!forall r, Decision (P r)} (rows : list VaultRow)
    : list VaultRow * list VaultRow * Z :=
  let overwritten := update_rows P (fun r =>
    mkVaultRow r.(vr_id) (replicate (length r.(vr_sealed)) Byte.x00) None r.(vr_last_resort) r.(vr_created_at)
      r.(vr_uploaded) r.(vr_retired_at)) rows in
  (overwritten, delete_rows P overwritten, count_rows P overwritten).

(** src/client/prekey_vault.cpp 102-106 generation *)
Definition vault_generation_of (v : Vault) : bytes := default [] v.(vault_generation).

(** An empty generation binds NULL, which the column refuses; the transaction is
    then left open.
    src/client/prekey_vault.cpp 121-127 start_generation *)
Definition start_generation (v : Vault) (generation : bytes) : Vault * exc unit :=
  if v.(vault_in_transaction) then (v, Throw "Prekey store: cannot start a transaction within a transaction") else
  let '(_, rows, _) := secure_erase_where (fun _ => True) v.(vault_rows) in
  if is_empty generation
  then (mkVault v.(vault_key) v.(vault_generation) true rows, Throw "Prekey store: a query failed")
  else (mkVault v.(vault_key) (Some generation) false rows, Ret tt).

(** [id = ?] and [id != ?] in a statement. An ID is bound by the address of its
    first byte; an empty one has none, which binds NULL, and a comparison with NULL
    is not true: then neither holds of any row.
    src/client/prekey_vault.cpp 19-19 blob *)
Definition id_is (id : bytes) (r : VaultRow) : Prop := id <> [] /\ r.(vr_id) = id.
(** src/client/prekey_vault.cpp 19-19 blob *)
Definition id_is_not (id : bytes) (r : VaultRow) : Prop := id <> [] /\ r.(vr_id) <> id.
#[export] Instance id_is_dec id r : Decision (id_is id r).
Proof. unfold id_is. apply _. Defined.
#[export] Instance id_is_not_dec id r : Decision (id_is_not id r).
Proof. unfold id_is_not. apply _. Defined.

(** src/client/prekey_vault.cpp 146-149 mark_uploaded *)
Definition mark_uploaded (v : Vault) (id : bytes) : Vault :=
  with_rows v (update_rows (id_is id)
    (fun r => mkVaultRow r.(vr_id) r.(vr_sealed) None r.(vr_last_resort) r.(vr_created_at) true r.(vr_retired_at))
    v.(vault_rows)).

(** src/client/prekey_vault.cpp 163-167 erase *)
Definition vault_erase (v : Vault) (id : bytes) : Vault * bool :=
  let '(_, rows, changes) := secure_erase_where (id_is id) v.(vault_rows) in
  (with_rows v rows, 0 <? changes).

(** src/client/prekey_vault.cpp 169-173 erase_one_time *)
Definition erase_one_time (v : Vault) (id : bytes) : Vault * bool :=
  let '(_, rows, changes) :=
    secure_erase_where (fun r => id_is id r /\ r.(vr_last_resort) = false) v.(vault_rows) in
  (with_rows v rows, 0 <? changes).

(** [COALESCE(MAX(created_at), -1)].
    src/client/prekey_vault.cpp 175-180 current_last_resort_created *)
Definition current_last_resort_created (v : Vault) : option Z :=
  let found := filter (fun r => r.(vr_last_resort) = true /\ r.(vr_retired_at) = None /\ r.(vr_uploaded) = true)
                 v.(vault_rows) in
  let newest := match map vr_created_at found with [] => -1 | c :: cs => foldr Z.max c cs end in
  if newest <? 0 then None else Some newest.

(** src/client/prekey_vault.cpp 182-185 retire_last_resort_except *)
Definition retire_last_resort_except (v : Vault) (keep_id : bytes) (now : Z) : Vault :=
  with_rows v (update_rows
    (fun r => r.(vr_last_resort) = true /\ r.(vr_retired_at) = None /\ id_is_not keep_id r)
    (fun r => mkVaultRow r.(vr_id) r.(vr_sealed) r.(vr_public_blob) r.(vr_last_resort) r.(vr_created_at)
                r.(vr_uploaded) (Some now))
    v.(vault_rows)).

(** The condition of [forget_old]; a comparison with NULL is not true. *)
Definition is_old (retired_before unused_before : Z) (last_resort uploaded : bool) (created : Z) (retired : option Z) : bool :=
  (last_resort && match retired with Some t => t <? retired_before | None => false end)
  || (negb last_resort && uploaded && (created <? unused_before)).

(** src/client/prekey_vault.cpp 187-194 forget_old *)
Definition forget_old (v : Vault) (retired_before unused_before : Z) : Vault * exc Z :=
  if v.(vault_in_transaction) then (v, Throw "Prekey store: cannot start a transaction within a transaction") else
  let '(_, rows, gone) := secure_erase_where
    (fun r => is_old retired_before unused_before r.(vr_last_resort) r.(vr_uploaded) r.(vr_created_at) r.(vr_retired_at) = true)
    v.(vault_rows) in
  (with_rows v rows, Ret gone).

(** src/client/prekey_vault.cpp 196-208 counts *)
Definition vault_counts (v : Vault) : VaultCounts :=
  let rows := v.(vault_rows) in
  mkVaultCounts (count_rows (fun r => r.(vr_last_resort) = false) rows)
    (count_rows (fun r => r.(vr_last_resort) = true /\ r.(vr_retired_at) = None) rows)
    (count_rows (fun r => r.(vr_retired_at) <> None) rows)
    (count_rows (fun r => r.(vr_uploaded) = false) rows).

(** ** The abstract vault *)

Record Entry := mkEntry {
  e_secret : Secret;
  e_last_resort : bool;
  e_created_at : Z;
  e_uploaded : bool;
  e_retired_at : option Z;
}.

Abbreviation AVault := (gmap bytes Entry).

Definition entry_uploaded (e : Entry) : Entry :=
  mkEntry e.(e_secret) e.(e_last_resort) e.(e_created_at) true e.(e_retired_at).
Definition entry_retired (now : Z) (e : Entry) : Entry :=
  if e.(e_last_resort) && match e.(e_retired_at) with None => true | Some _ => false end
  then mkEntry e.(e_secret) e.(e_last_resort) e.(e_created_at) e.(e_uploaded) (Some now) else e.
Definition entry_old (a b : Z) (e : Entry) : bool :=
  is_old a b e.(e_last_resort) e.(e_uploaded) e.(e_created_at) e.(e_retired_at).

Section vault.
Context `{P : Primitives}.

(** src/client/prekey_vault.cpp 79-82 seal *)
Definition vault_aad (id : bytes) : bytes := write_blob (write_string [] VAULT_AAD_LABEL) id.

(** src/client/prekey_vault.cpp 79-88 seal *)
Definition vault_seal (nonce : bytes) (v : Vault) (plain id : bytes) : exc bytes :=
  let! ct := encrypt v.(vault_key) nonce plain (vault_aad id) in
  Ret (nonce ++ ct).

(** src/client/prekey_vault.cpp 90-100 unseal *)
Definition vault_unseal (key sealed id : bytes) : option bytes :=
  if size sealed <? 12 + 16 then None else
  catch (decrypt key (ztake 12 sealed) (zdrop 12 sealed) (vault_aad id)).

(** src/client/prekey_vault.cpp 129-135 add *)
Definition vault_add (nonce : bytes) (v : Vault) (g : Prekey * Secret) (now : Z) : exc Vault :=
  let '(p, s) := g in
  let! secret := encode_secret s in
  let! sealed := vault_seal nonce v secret p.(Prekey_id) in
  let! public_blob := encode_prekey p in
  Ret (with_rows v (insert_or_replace vr_id
    (mkVaultRow p.(Prekey_id) sealed (Some public_blob) p.(Prekey_last_resort) now false None) v.(vault_rows))).

(** [ORDER BY last_resort, created_at, rowid]. *)
Definition upload_order (a b : VaultRow) : bool :=
  match a.(vr_last_resort), b.(vr_last_resort) with
  | false, true => true
  | true, false => false
  | _, _ => a.(vr_created_at) <=? b.(vr_created_at)
  end.

(** src/client/prekey_vault.cpp 137-144 not_uploaded *)
Definition not_uploaded (v : Vault) : list Prekey :=
  omap (fun r => let? public_blob := r.(vr_public_blob) in decode_prekey public_blob)
    (sort_by upload_order (filter (fun r => r.(vr_uploaded) = false /\ r.(vr_public_blob) <> None) v.(vault_rows))).

(** src/client/prekey_vault.cpp 151-161 find *)
Definition vault_find (v : Vault) (id : bytes) : option Secret :=
  let? row := select_first (id_is id) v.(vault_rows) in
  let? plain := vault_unseal v.(vault_key) row.(vr_sealed) id in
  decode_secret plain.

(** ** Operations as steps *)

(** The public operations that change the vault. *)
Inductive vault_op :=
  | StartGeneration (generation : bytes)
  | Add (nonce : bytes) (p : Prekey) (s : Secret) (now : Z)
  | MarkUploaded (id : bytes)
  | Erase (id : bytes)
  | EraseOneTime (id : bytes)
  | RetireLastResortExcept (keep_id : bytes) (now : Z)
  | ForgetOld (retired_before unused_before : Z).

(** The vault afterwards, whether the call returned or threw. *)
Definition vault_step (v : Vault) (op : vault_op) : Vault :=
  match op with
  | StartGeneration g => (start_generation v g).1
  | Add nonce p s now => match vault_add nonce v (p, s) now with Ret v' => v' | Throw _ => v end
  | MarkUploaded id => mark_uploaded v id
  | Erase id => (vault_erase v id).1
  | EraseOneTime id => (erase_one_time v id).1
  | RetireLastResortExcept keep now => retire_last_resort_except v keep now
  | ForgetOld a b => (forget_old v a b).1
  end.

Definition vault_run : Vault -> list vault_op -> Vault := foldl vault_step.

(** A pair [add] accepts: it encodes, and a nonce has twelve bytes. *)
Definition addable (nonce : bytes) (p : Prekey) (s : Secret) : bool :=
  (size nonce =? 12) && prekey_well_formed p && (size s.(Secret_kem_private) =? kem_secret_key_size)
  && (size s.(Secret_x25519_private) =? X25519_BYTES).

(** [busy]: a transaction was left open. *)
Definition abs_step (busy : bool) (m : AVault) (op : vault_op) : AVault :=
  match op with
  | StartGeneration g => if busy then m else ∅
  | Add nonce p s now =>
      if addable nonce p s
      then <[p.(Prekey_id) := mkEntry s p.(Prekey_last_resort) now false None]> m else m
  | MarkUploaded id => alter entry_uploaded id m
  | Erase id => delete id m
  | EraseOneTime id => if bool_decide (e_last_resort <$> m !! id = Some true) then m else delete id m
  | RetireLastResortExcept keep now =>
      if is_empty keep then m else
      map_imap (fun id e => Some (if decide (id = keep) then e else entry_retired now e)) m
  | ForgetOld a b => if busy then m else filter (fun '(_, e) => entry_old a b e = false) m
  end.
End vault.

(** ** Erasing *)

(** A row as the first statement of [secure_erase_where] leaves it. *)
Definition zeroed (r : VaultRow) : VaultRow :=
  mkVaultRow r.(vr_id) (replicate (length r.(vr_sealed)) Byte.x00) None r.(vr_last_resort) r.(vr_created_at)
    r.(vr_uploaded) r.(vr_retired_at).

(** Overwriting first changes neither which rows go nor their number, when the
    condition does not read the two columns that are overwritten. *)
Lemma secure_erase_eq (Q : VaultRow -> Prop) `{HQ : !forall r, Decision (Q r)} rows :
  (forall r, Q (zeroed r) <-> Q r) ->
  secure_erase_where Q rows = (update_rows Q zeroed rows, delete_rows Q rows, count_rows Q rows).
Proof.
  intros Hz. unfold secure_erase_where. fold zeroed. f_equal; [f_equal|].
  - unfold delete_rows. induction rows as [|r rows IH]; [done|]. cbn [update_rows map]. fold (update_rows Q zeroed rows).
    rewrite !filter_cons, <- IH. destruct (decide (Q r)) as [Hr|Hr].
    + rewrite !decide_False; [done|intros H; by apply H|intros H; apply H; by apply Hz].
    + by rewrite !decide_True.
  - unfold count_rows. induction rows as [|r rows IH]; [done|]. cbn [update_rows map]. fold (update_rows Q zeroed rows).
    rewrite !filter_cons. destruct (decide (Q r)) as [Hr|Hr].
    + rewrite decide_True by by apply Hz. rewrite !size_cons. by rewrite IH.
    + by rewrite decide_False.
Qed.

(** ** Refinement *)

Section refinement.
Context `{PrimitiveLaws}.

(** What a row says, read with the vault's key. *)
Definition view_row (key : bytes) (r : VaultRow) : option Entry :=
  let? plain := vault_unseal key r.(vr_sealed) r.(vr_id) in
  let? s := decode_secret plain in
  Some (mkEntry s r.(vr_last_resort) r.(vr_created_at) r.(vr_uploaded) r.(vr_retired_at)).

Abbreviation row_with id rows := (select_first (fun r => vr_id r = id) rows).

(** Every row has an ID. *)
Definition ids_given (rows : list VaultRow) : Prop := Forall (fun r => r.(vr_id) <> []) rows.

(** The database [v] stands for the map [m]. *)
Definition vault_abs (v : Vault) (m : AVault) : Prop :=
  size v.(vault_key) = 32 /\ unique vr_id v.(vault_rows) /\ ids_given v.(vault_rows) /\
  forall id, m !! id = row_with id v.(vault_rows) ≫= view_row v.(vault_key).

Lemma row_with_id id rows : id <> [] -> select_first (id_is id) rows = row_with id rows.
Proof. intros Hid. unfold select_first. f_equal. apply list_filter_iff. unfold id_is. naive_solver. Qed.

Lemma row_without_id id rows : id = [] -> ids_given rows -> row_with id rows = None.
Proof. intros -> Hi. apply select_first_None. by apply Forall_forall. Qed.

Lemma vault_find_abs v m id : vault_abs v m -> vault_find v id = e_secret <$> m !! id.
Proof.
  intros (_ & Hu & Hi & Hm). rewrite Hm. unfold vault_find, view_row. destruct (decide (id = [])) as [Hid|Hid].
  { rewrite (row_without_id _ _ Hid Hi). by rewrite (proj2 (select_first_None _ _)) by by intros r _ []. }
  rewrite row_with_id by done. destruct (select_first _ _) as [r|] eqn:E; [|done].
  apply select_first_Some in E as [_ <-]. simpl. destruct (vault_unseal _ _ _) as [plain|]; simpl; [|done].
  by destruct (decode_secret plain).
Qed.

(** What was sealed for an ID is read back under that ID. *)
Lemma vault_seal_unseal nonce v plain id :
  size v.(vault_key) = 32 -> size nonce = 12 -> size plain <= 2 ^ 20 -> size id <= 64 ->
  exists sealed, vault_seal nonce v plain id = Ret sealed /\ vault_unseal v.(vault_key) sealed id = Some plain.
Proof.
  intros Hk Hn Hp Hi. unfold vault_seal, vault_unseal.
  assert (size (vault_aad id) <= INT_MAX) as Ha.
  { unfold vault_aad. encode_norm. rewrite size_app, !size_blob. change (size VAULT_AAD_LABEL) with 24. unfold INT_MAX. lia. }
  destruct (nonce_sealed (vault_key v) nonce plain (vault_aad id) Hk Hn) as (He & Hs & Hd); [unfold INT_MAX; lia|done|].
  rewrite He. simpl. eexists. split; [done|]. pose proof (size_nonneg plain).
  rewrite (proj2 (Z.ltb_ge _ _)) by lia. by rewrite Hd.
Qed.

(** [add]: it succeeds exactly on an addable pair, and the row reads as the pair. *)
Lemma vault_add_spec nonce v p s now :
  size v.(vault_key) = 32 ->
  if addable nonce p s then
    exists row, vault_add nonce v (p, s) now = Ret (with_rows v (insert_or_replace vr_id row v.(vault_rows))) /\
      row.(vr_id) = p.(Prekey_id) /\
      view_row v.(vault_key) row = Some (mkEntry s p.(Prekey_last_resort) now false None)
  else exists w, vault_add nonce v (p, s) now = Throw w.
Proof.
  intros Hk. unfold addable. destruct ((size nonce =? 12) && _ && _ && _) eqn:E; unfold vault_add.
  - apply andb_true_iff in E as [[[Hn Hp]%andb_true_iff Hks]%andb_true_iff Hx]. bool_prop.
    destruct (encode_secret s) as [secret|] eqn:Es; [|unfold encode_secret in Es; by rewrite Hks, Hx, !Z.eqb_refl in Es].
    assert (decode_secret secret = Some s) as Hdec by by apply decode_secret_spec.
    pose proof (prekey_sizes p Hp) as [[_ Hid] _]. unfold PREKEY_ID_SIZE in Hid.
    assert (size secret <= 2 ^ 20) as Hsz.
    { unfold encode_secret in Es. rewrite Hks, Hx, !Z.eqb_refl in Es. simpl in Es. injection Es as <-. encode_norm.
      rewrite size_app, !size_blob, Hks, Hx. destruct algorithm_sizes as (_ & ? & _). unfold X25519_BYTES. lia. }
    cbn [exc_bind]. destruct (vault_seal_unseal nonce v secret (Prekey_id p) Hk Hn Hsz) as (sealed & -> & Hun); [lia|].
    unfold encode_prekey. rewrite Hp. simpl. eexists. split; [reflexivity|]. split; [done|].
    unfold view_row. simpl. rewrite Hun. simpl. by rewrite Hdec.
  - destruct (encode_secret s) as [secret|] eqn:Es; [|by eexists].
    assert (size s.(Secret_kem_private) = kem_secret_key_size /\ size s.(Secret_x25519_private) = X25519_BYTES) as [Hks Hx].
    { unfold encode_secret in Es. destruct (negb _ || negb _) eqn:E'; [done|]. by bool_prop. }
    rewrite Hks, Hx, !Z.eqb_refl, !andb_true_r in E. simpl.
    destruct (size nonce =? 12) eqn:En; simpl in E.
    + destruct (vault_seal _ _ _ _); simpl; [|by eexists]. unfold encode_prekey. rewrite E. by eexists.
    + unfold vault_seal, encrypt, check_aead_inputs. rewrite Hk, En. by eexists.
Qed.

Lemma vault_abs_key v m rows : vault_abs v m -> size (with_rows v rows).(vault_key) = 32.
Proof. by intros (? & _). Qed.

(** Statements that change columns other than the ID and the sealed secret. *)
Lemma vault_abs_update (v : Vault) (m : AVault) (Q : VaultRow -> Prop) `{HQ : !forall r, Decision (Q r)} (f : VaultRow -> VaultRow) (g : bytes -> Entry -> Entry) (m' : AVault) :
  vault_abs v m -> (forall r, (f r).(vr_id) = r.(vr_id) /\ (f r).(vr_sealed) = r.(vr_sealed)) ->
  (forall id, m' !! id = g id <$> m !! id) ->
  (forall r e, r.(vr_id) <> [] -> view_row v.(vault_key) r = Some e ->
     view_row v.(vault_key) (if decide (Q r) then f r else r) = Some (g r.(vr_id) e)) ->
  vault_abs (with_rows v (update_rows Q f v.(vault_rows))) m'.
Proof.
  intros (Hk & Hu & Hi & Hm) Hf Hg Hv. split_and!; [done|by apply unique_update; naive_solver| |].
  { apply Forall_map. eapply Forall_impl; [exact Hi|]. intros r Hr. simpl. case_decide; [by rewrite (proj1 (Hf r))|done]. }
  intros id. rewrite Hg, Hm. simpl. rewrite row_of_update by naive_solver.
  destruct (select_first _ _) as [r|] eqn:E; [|done]. apply select_first_Some in E as [Hin <-]. simpl.
  pose proof (proj1 (Forall_forall _ _) Hi r Hin) as Hid. simpl in Hid.
  destruct (view_row (vault_key v) r) as [e|] eqn:Er; simpl; [by rewrite (Hv r e Hid Er)|].
  case_decide; [|done]. unfold view_row in *. destruct (Hf r) as [-> ->].
  destruct (vault_unseal _ _ _); simpl in *; [|done]. by destruct (decode_secret _).
Qed.

(** Statements that erase rows. *)
Lemma vault_abs_erase (v : Vault) (m : AVault) (Q : VaultRow -> Prop) `{HQ : !forall r, Decision (Q r)} (q : bytes -> Entry -> bool) (m' : AVault) :
  vault_abs v m ->
  (forall id, m' !! id = (e ← m !! id; if q id e then None else Some e)) ->
  (forall r e, r.(vr_id) <> [] -> view_row v.(vault_key) r = Some e -> Q r <-> q r.(vr_id) e = true) ->
  vault_abs (with_rows v (delete_rows Q v.(vault_rows))) m'.
Proof.
  intros (Hk & Hu & Hi & Hm) Hg Hv. split_and!; [done|by apply unique_delete| |].
  { eapply Forall_sublist; [|exact Hi]. apply delete_rows_sublist. }
  intros id. rewrite Hg, Hm. simpl. rewrite row_of_delete by done.
  destruct (select_first _ _) as [r|] eqn:E; [|done]. apply select_first_Some in E as [Hin <-]. simpl.
  pose proof (proj1 (Forall_forall _ _) Hi r Hin) as Hid. simpl in Hid.
  destruct (view_row (vault_key v) r) as [e|] eqn:Er; simpl.
  - specialize (Hv r e Hid Er). case_decide as Hq.
    + by rewrite (proj1 Hv Hq).
    + simpl. destruct (q (vr_id r) e); [by destruct Hq; apply Hv|done].
  - case_decide; simpl; [done|by rewrite Er].
Qed.

Lemma view_row_columns key r e :
  view_row key r = Some e ->
  e.(e_last_resort) = r.(vr_last_resort) /\ e.(e_created_at) = r.(vr_created_at) /\
  e.(e_uploaded) = r.(vr_uploaded) /\ e.(e_retired_at) = r.(vr_retired_at).
Proof.
  unfold view_row. destruct (vault_unseal _ _ _); simpl; [|done]. destruct (decode_secret _); simpl; [|done]. by intros [= <-].
Qed.

(** The row [add] writes; its ID has sixteen bytes. *)
Lemma vault_add_row nonce v p s now v' :
  vault_add nonce v (p, s) now = Ret v' ->
  exists row, v' = with_rows v (insert_or_replace vr_id row v.(vault_rows)) /\
    row.(vr_id) = p.(Prekey_id) /\ row.(vr_last_resort) = p.(Prekey_last_resort) /\ p.(Prekey_id) <> [].
Proof.
  unfold vault_add. intros E. destruct (encode_secret s); [|done]. simpl in E.
  destruct (vault_seal _ _ _ _); [|done]. simpl in E. unfold encode_prekey in E.
  destruct (prekey_well_formed p) eqn:Hp; simpl in E; [|done].
  unfold prekey_well_formed in Hp. rewrite !andb_true_iff, Z.eqb_eq in Hp. destruct Hp as [[[[Hp _] _] _] _].
  injection E as <-. eexists. split; [done|]. split_and!; [done..|]. intros Hn. rewrite Hn in Hp. discriminate Hp.
Qed.

Lemma ids_given_replace row rows : row.(vr_id) <> [] -> ids_given rows -> ids_given (insert_or_replace vr_id row rows).
Proof.
  intros Hr Hi. apply Forall_app. split; [|by repeat constructor]. eapply Forall_sublist; [|exact Hi]. apply delete_rows_sublist.
Qed.

(** One step of the database is one step of the map. *)
Lemma vault_step_abs v m op :
  vault_abs v m -> vault_abs (vault_step v op) (abs_step v.(vault_in_transaction) m op).
Proof.
  intros Ha. pose proof Ha as (Hk & Hu & Hids & Hm). destruct op as [g|nonce p s now|id|id|id|keep now|a b];
    cbn [vault_step abs_step].
  - unfold start_generation. destruct (vault_in_transaction v); [done|].
    rewrite secure_erase_eq by done.
    assert (delete_rows (fun _ : VaultRow => True) (vault_rows v) = []) as ->.
    { apply list_nil_subseteq. intros r Hr. apply elem_of_delete_rows in Hr as [[] _]. done. }
    destruct (is_empty g); (split_and!; [done|apply unique_nil|by constructor|done]).
  - pose proof (vault_add_spec nonce v p s now Hk) as Hs. destruct (addable nonce p s).
    + destruct Hs as (row & E & Hid & Hv). rewrite E.
      pose proof (vault_add_row _ _ _ _ _ _ E) as (_ & _ & _ & _ & Hgiven).
      split_and!; [done|by apply unique_insert_or_replace|by apply ids_given_replace; [rewrite Hid|]|].
      intros id. simpl. rewrite row_of_replace, Hid. destruct (decide (Prekey_id p = id)) as [<-|Hne].
      * by rewrite lookup_insert_eq.
      * by rewrite lookup_insert_ne.
    + by destruct Hs as [w ->].
  - eapply (vault_abs_update v m _ _ (fun i e => if decide (i = id) then entry_uploaded e else e)); [done|done| |].
    + intros i. case_decide as E; [subst; by rewrite lookup_alter_eq|]. rewrite lookup_alter_ne by done.
      by destruct (m !! i).
    + intros r e Hid Hr. unfold id_is. case_decide as E1; case_decide as E2; [|naive_solver..|done]. unfold view_row in *. simpl.
      destruct (vault_unseal _ _ _); simpl in *; [|done]. destruct (decode_secret _); simpl in *; [|done]. by simplify_eq.
  - unfold vault_erase. rewrite secure_erase_eq by done.
    eapply (vault_abs_erase v m _ (fun i _ => bool_decide (i = id))); [done| |].
    + intros i. destruct (decide (i = id)) as [->|Hi].
      * rewrite lookup_delete_eq, bool_decide_eq_true_2 by done. by destruct (m !! id).
      * rewrite lookup_delete_ne, bool_decide_eq_false_2 by done. by destruct (m !! i).
    + intros r e Hid _. rewrite bool_decide_eq_true. unfold id_is. naive_solver.
  - unfold erase_one_time. rewrite secure_erase_eq by done.
    eapply (vault_abs_erase v m _ (fun i e => bool_decide (i = id) && negb e.(e_last_resort))); [done| |].
    + intros i. destruct (decide (i = id)) as [->|Hi].
      * rewrite (bool_decide_eq_true_2 (id = id)) by done. destruct (m !! id) as [e|] eqn:E; simpl.
        -- destruct (e_last_resort e) eqn:El; simpl.
           ++ done.
           ++ by rewrite lookup_delete_eq.
        -- by rewrite lookup_delete_eq.
      * rewrite (bool_decide_eq_false_2 (i = id)) by done. case_bool_decide; rewrite ?lookup_delete_ne by done; by destruct (m !! i).
    + intros r e Hid (-> & _)%view_row_columns. rewrite andb_true_iff, bool_decide_eq_true, negb_true_iff. unfold id_is. naive_solver.
  - destruct (is_empty keep) eqn:Hk0.
    { apply is_empty_true in Hk0 as ->. eapply (vault_abs_update v m _ _ (fun _ e => e)); [done|done|intros i; by destruct (m !! i)|].
      intros r e _ Hr. by rewrite decide_False by by intros (_ & _ & [? _]). }
    apply is_empty_false in Hk0. assert (keep <> []) as Hkeep by by intros ->.
    eapply (vault_abs_update v m _ _ (fun i e => if decide (i = keep) then e else entry_retired now e)); [done|done| |].
    + intros i. rewrite map_lookup_imap. by destruct (m !! i).
    + intros r e _ Hr. pose proof (view_row_columns _ _ _ Hr) as (E1 & _ & _ & E2). unfold entry_retired, id_is_not. rewrite E1, E2.
      case_decide as Hq; [destruct Hq as (-> & -> & _ & Hne); rewrite decide_False by done|];
        [|case_decide as Hid; [done|]; destruct (vr_last_resort r) eqn:El, (vr_retired_at r) eqn:Er; simpl; try done; by destruct Hq].
      unfold view_row in *. simpl.
      destruct (vault_unseal _ _ _); simpl in *; [|done]. destruct (decode_secret _); simpl in *; [|done]. by simplify_eq.
  - unfold forget_old. destruct (vault_in_transaction v); [done|]. rewrite secure_erase_eq by done.
    eapply (vault_abs_erase v m _ (fun _ e => entry_old a b e)); [done| |].
    + intros i. rewrite map_lookup_filter. destruct (m !! i) as [e|]; simpl; [|done].
      destruct (entry_old a b e); by rewrite ?option_guard_True, ?option_guard_False by done.
    + intros r e _ (E1 & E2 & E3 & E4)%view_row_columns. unfold entry_old. by rewrite E1, E2, E3, E4.
Qed.

(** C31: the vault is a map. A fresh vault stands for the empty map; every
    operation on the database (with its sealing, overwriting and deleting, and
    whether it returns or throws) is one step of the abstract map; and [find]
    answers exactly what the map holds. An empty ID, which the code binds as NULL,
    names no prekey: nothing is found, changed or erased under it, and retiring all
    last-resort prekeys but that one retires none. *)
Theorem vault_refines_map key v m op :
  size key = 32 ->
  (exists v0, open_vault None key = Ret v0 /\ vault_abs v0 ∅) /\
  (vault_abs v m ->
     vault_abs (vault_step v op) (abs_step v.(vault_in_transaction) m op) /\
     forall id, vault_find v id = e_secret <$> m !! id).
Proof.
  intros Hk. split.
  - unfold open_vault. rewrite Hk. simpl. eexists. split; [done|]. split_and!; [done|apply unique_nil|by constructor|done].
  - intros Ha. split; [by apply vault_step_abs|]. intros id. by apply vault_find_abs.
Qed.

(** ** Forward secrecy *)

(** An operation that does not put a prekey with this ID in the vault. *)
Definition not_adding (id : bytes) (op : vault_op) : bool :=
  match op with Add _ p _ _ => negb (bool_decide (p.(Prekey_id) = id)) | _ => true end.

(** No row of the table has this ID. *)
Definition no_row (id : bytes) (v : Vault) : Prop := forall r, r ∈ v.(vault_rows) -> r.(vr_id) <> id.

Lemma no_row_sublist id v rows : sublist rows v.(vault_rows) -> no_row id v -> no_row id (with_rows v rows).
Proof. intros Hs Hn r Hr. apply Hn. by eapply elem_of_sublist. Qed.

Lemma no_row_update (Q : VaultRow -> Prop) `{HQ : !forall r, Decision (Q r)} (f : VaultRow -> VaultRow) id v :
  (forall r, (f r).(vr_id) = r.(vr_id)) -> no_row id v -> no_row id (with_rows v (update_rows Q f v.(vault_rows))).
Proof.
  intros Hf Hn r Hr. simpl in Hr. apply list_elem_of_fmap in Hr as (x & -> & Hx). specialize (Hn x Hx).
  case_decide; [by rewrite Hf|done].
Qed.

(** A row that is gone stays gone, whatever is done but adding it again. *)
Lemma no_row_step id v op : not_adding id op = true -> no_row id v -> no_row id (vault_step v op).
Proof.
  intros Ho Hn. destruct op as [g|nonce p s now|i|i|i|keep now|a b]; cbn [vault_step].
  - unfold start_generation. destruct (vault_in_transaction v); [done|]. rewrite secure_erase_eq by done.
    destruct (is_empty g); intros r Hr; simpl in Hr; by apply elem_of_delete_rows in Hr as [[] _].
  - destruct (vault_add nonce v (p, s) now) as [v'|] eqn:E; [|done].
    apply vault_add_row in E as (row & -> & Hid & _). intros r [Hr|Hr]%elem_of_app.
    + apply elem_of_delete_rows in Hr as [_ Hr]. by apply Hn.
    + apply list_elem_of_singleton in Hr as ->. rewrite Hid. simpl in Ho. by apply negb_true_iff, bool_decide_eq_false in Ho.
  - by apply no_row_update.
  - unfold vault_erase. rewrite secure_erase_eq by done. apply no_row_sublist; [apply delete_rows_sublist|done].
  - unfold erase_one_time. rewrite secure_erase_eq by done. apply no_row_sublist; [apply delete_rows_sublist|done].
  - by apply no_row_update.
  - unfold forget_old. destruct (vault_in_transaction v); [done|]. rewrite secure_erase_eq by done.
    apply no_row_sublist; [apply delete_rows_sublist|done].
Qed.

Lemma no_row_run id ops v :
  Forall (fun op => not_adding id op = true) ops -> no_row id v -> no_row id (vault_run v ops).
Proof.
  intros Ho. revert v. induction Ho as [|op ops Hop _ IH]; intros v Hn; [done|]. apply IH. by apply no_row_step.
Qed.

Lemma no_row_find id v : no_row id v -> vault_find v id = None.
Proof. intros Hn. unfold vault_find. by rewrite (proj2 (select_first_None _ _)) by by intros r Hr [_ ?]; apply (Hn r). Qed.

(** Erasing a one-time prekey: its row was overwritten with zeros and is gone. *)
Lemma erase_one_time_erases nonce v v1 p s now :
  vault_add nonce v (p, s) now = Ret v1 -> p.(Prekey_last_resort) = false -> no_row p.(Prekey_id) (erase_one_time v1 p.(Prekey_id)).1.
Proof.
  intros E Hl. unfold erase_one_time. rewrite secure_erase_eq by done. intros r Hr. simpl in Hr.
  apply elem_of_delete_rows in Hr as [Hq Hr]. intros Hid. apply Hq.
  apply vault_add_row in E as (row & -> & Hrow & Hlast & Hne). split; [by split|]. apply elem_of_app in Hr as [Hr|Hr].
  - apply elem_of_delete_rows in Hr as [? _]. congruence.
  - apply list_elem_of_singleton in Hr as ->. congruence.
Qed.

(** C3: forward secrecy, from the vault to the envelope. A sender seals to a
    one-time prekey that is in the recipient's vault: the recipient opens the
    envelope with the vault, to exactly what was sealed. Once the prekey has been
    erased, and whatever the vault does later short of being given the same ID
    again, no row of the table has its ID, [find] has no secret for it, and the
    envelope does not open, although the long-term private key is the same. *)
Theorem vault_forward_secrecy nonce v v1 p s now rnd x i e rseed :
  size v.(vault_key) = 32 -> unique vr_id v.(vault_rows) ->
  vault_add nonce v (p, s) now = Ret v1 -> p.(Prekey_last_resort) = false -> prekey_pair p s ->
  size rnd.(rand_ephemeral) = 32 -> x25519_shared rnd.(rand_ephemeral) p.(Prekey_x25519_public) = Ret x ->
  encode_inner i = Ret e -> 4 + size e <= 65536 -> size rnd.(rand_nonce) = 12 ->
  let rpk := (generate_kem_keypair rseed).1 in
  let rsk := (generate_kem_keypair rseed).2 in
  exists env,
    seal_envelope rnd i rpk (Some p) = Ret env /\
    open_envelope env rsk (Some (vault_find v1)) = (Some i, Some p.(Prekey_id)) /\
    forall ops, Forall (fun op => not_adding p.(Prekey_id) op = true) ops ->
      let v2 := vault_run (vault_step v1 (EraseOneTime p.(Prekey_id))) ops in
      no_row p.(Prekey_id) v2 /\ vault_find v2 p.(Prekey_id) = None /\
      open_envelope env rsk (Some (vault_find v2)) = (None, None).
Proof.
  intros Hk Hu Hadd Hl Hpair He Hx Henc Hfit Hn. cbv zeta.
  assert (vault_find v1 p.(Prekey_id) = Some s) as Hfind.
  { pose proof (vault_add_spec nonce v p s now Hk) as Hs. destruct (addable nonce p s); [|by destruct Hs as [w Hs]; rewrite Hs in Hadd].
    destruct Hs as (row & E & Hid & Hv). pose proof Hadd as Hadd'. rewrite E in Hadd. injection Hadd as <-. unfold vault_find. simpl.
    rewrite row_with_id by by apply vault_add_row in E as (? & _ & _ & _ & ?).
    rewrite row_of_replace, decide_True by done. simpl. rewrite <- Hid. unfold view_row in Hv.
    destruct (vault_unseal _ _ _); simpl in *; [|done]. destruct (decode_secret _); simpl in *; [|done]. by simplify_eq. }
  destruct (sealed_envelope_opens rnd i e rseed (Some p) (vault_find v1)) as (env & Hs & Ho & _ & _ & _ & Hgone);
    [done..|by exists s, x|].
  exists env. split_and!; [done|done|]. intros ops Hops.
  assert (no_row p.(Prekey_id) (vault_run (vault_step v1 (EraseOneTime p.(Prekey_id))) ops)) as Hno.
  { apply no_row_run; [done|]. by eapply erase_one_time_erases. }
  split_and!; [done|by apply no_row_find|]. by apply (Hgone p), no_row_find.
Qed.
End refinement.

(** A vault with one one-time prekey in it. *)
Definition ex_vault : Vault := mkVault (replicate 32 Byte.x31) (Some [Byte.x01]) false [].
Definition ex_vault_full : Vault := vault_step ex_vault (Add (replicate 12 Byte.x32) ex_prekey ex_secret 9).

Lemma vault_refines_map_witness :
  vault_abs ex_vault ∅ /\
  vault_abs ex_vault_full {[ ex_prekey.(Prekey_id) := mkEntry ex_secret false 9 false None ]} /\
  vault_find ex_vault ex_prekey.(Prekey_id) = None.
Proof.
  assert (vault_abs ex_vault ∅) as H0 by (split_and!; [reflexivity|apply unique_nil|by constructor|done]).
  destruct (vault_refines_map (replicate 32 Byte.x31) ex_vault ∅
    (Add (replicate 12 Byte.x32) ex_prekey ex_secret 9)) as [_ Hs]; [reflexivity|].
  destruct (Hs H0) as [H1 Hf]. split; [exact H0|]. split; [exact H1|]. apply Hf.
Defined.

Lemma vault_forward_secrecy_witness :
  vault_find ex_vault_full ex_prekey.(Prekey_id) = Some ex_secret /\
  exists env,
    open_envelope env (generate_kem_keypair [Byte.x28]).2 (Some (vault_find ex_vault_full))
      = (Some ex_inner, Some ex_prekey.(Prekey_id)) /\
    let v2 := vault_run (vault_step ex_vault_full (EraseOneTime ex_prekey.(Prekey_id))) [ForgetOld 0 0] in
    open_envelope env (generate_kem_keypair [Byte.x28]).2 (Some (vault_find v2)) = (None, None).
Proof.
  split; [vm_compute; reflexivity|].
  destruct (vault_forward_secrecy (replicate 12 Byte.x32) ex_vault ex_vault_full ex_prekey ex_secret 9
    ex_seal_random (replicate 32 Byte.x01) ex_inner ex_encoded [Byte.x28])
    as (env & _ & Ho & Hgone); try reflexivity.
  - apply unique_nil.
  - split; [reflexivity|]. split; [by exists [Byte.x25]|]. split; reflexivity.
  - vm_compute. congruence.
  - exists env. split; [exact Ho|]. apply Hgone. repeat constructor.
Defined.
