(* ===== verification/HistoryTables.v ===== *)
(** * The tables of the client's message history (client/history_store.cpp)

    One record per table of the schema, the database as a record of tables, and
    what is sealed in it: [seal]/[unseal] with a random nonce and the row's
    identity as associated data, and the packing of record lists. Fingerprints
    and other TEXT columns are byte strings. The operations are in
    [HistoryStore]. *)

From Stdlib Require Import ZArith Lia.
From stdpp Require Import base list strings.
From S2P Require Import Prelude Wire RelayProtocol RelayProtocolSpec Crypto Envelope Sql.
#[local] Open Scope Z_scope.
#[local] Open Scope wire_scope.

(** ** Tables *)

(** A direct conversation has kind 1 and its contact; a group kind 2 and no contact.
    src/client/history_store.cpp 57-67 conversations *)
Record ConvRow := mkConvRow {
  cv_id : bytes;
  cv_kind : Z;
  cv_contact_fp : bytes;
  cv_title : bytes;
  cv_creator_fp : bytes;
  cv_mode : Z;
  cv_timer_seconds : Z;
  cv_previous_id : bytes;
  cv_state : Z;
  cv_created_at : Z;
  cv_last_activity : Z;
  cv_send_delivery : bool;
  cv_send_read : bool;
}.

(** src/client/history_store.cpp 74-77 conversation_members *)
Record MemberRow := mkMemberRow {
  mem_conv_id : bytes;
  mem_fp : bytes;
  mem_idx : Z;
}.
Definition mem_key (r : MemberRow) : bytes * bytes := (r.(mem_conv_id), r.(mem_fp)).

(** An empty [sealed] marks a message erased by agreement.
    src/client/history_store.cpp 78-85 messages *)
Record MessageRow := mkMessageRow {
  ms_row : Z;
  ms_conv_id : bytes;
  ms_msg_id : bytes;
  ms_outgoing : bool;
  ms_sent_at : Z;
  ms_received_at : Z;
  ms_status : Z;
  ms_gap : bool;
  ms_entry_hash : bytes;
  ms_sealed : bytes;
}.
Definition ms_key (r : MessageRow) : bytes * bytes := (r.(ms_conv_id), r.(ms_msg_id)).

(** src/client/history_store.cpp 87-91 deliveries *)
Record DeliveryRow := mkDeliveryRow {
  dl_conv_id : bytes;
  dl_msg_id : bytes;
  dl_member_fp : bytes;
  dl_status : Z;
}.
Definition dl_key (r : DeliveryRow) : bytes * bytes * bytes := (r.(dl_conv_id), r.(dl_msg_id), r.(dl_member_fp)).

(** src/client/history_store.cpp 92-95 outbox *)
Record OutboxRow := mkOutboxRow {
  ob_id : Z;
  ob_contact_fp : bytes;
  ob_kind : Z;
  ob_msg_id : bytes;
  ob_sealed : bytes;
  ob_due_at : Z;
  ob_attempts : Z;
  ob_created_at : Z;
}.

(** src/client/history_store.cpp 96-98 requests *)
Record RequestRow := mkRequestRow {
  rq_id : Z;
  rq_sender_fp : bytes;
  rq_bundle : bytes;
  rq_received_at : Z;
  rq_sealed : bytes;
}.

(** src/client/history_store.cpp 99-101 issued_tokens *)
Record IssuedRow := mkIssuedRow {
  it_hash : bytes;
  it_label : bytes;
  it_created_at : Z;
  it_bound_fp : bytes;
  it_revoked : bool;
}.

(** src/client/history_store.cpp 102-103 contact_state *)
Record ContactStateRow := mkContactStateRow {
  cs_contact_fp : bytes;
  cs_bundle_sent : bool;
}.

(** src/client/history_store.cpp 105-106 group_invites *)
Record InviteRow := mkInviteRow {
  gi_conv_id : bytes;
  gi_creator_fp : bytes;
  gi_received_at : Z;
  gi_sealed : bytes;
}.

(** src/client/history_store.cpp 107-109 introduced_members *)
Record IntroducedRow := mkIntroducedRow {
  im_fp : bytes;
  im_bundle : bytes;
  im_issued_at : Z;
  im_introduced_by : bytes;
  im_first_seen : Z;
}.

(** src/client/history_store.cpp 111-113 member_tokens *)
Record MemberTokenRow := mkMemberTokenRow {
  mt_conv_id : bytes;
  mt_fp : bytes;
  mt_sealed : bytes;
  mt_received_at : Z;
}.
Definition mt_key (r : MemberTokenRow) : bytes * bytes := (r.(mt_conv_id), r.(mt_fp)).

(** src/client/history_store.cpp 115-116 verified_people *)
Record VerifiedRow := mkVerifiedRow {
  vp_fp : bytes;
  vp_verified_at : Z;
}.

(** src/client/history_store.cpp 118-125 archives *)
Record HArchiveRow := mkHArchiveRow {
  ha_conv_id : bytes;
  ha_relay_address : bytes;
  ha_relay_id : bytes;
  ha_role : Z;
  ha_state : Z;
  ha_archive_key : bytes;
  ha_chat_public : bytes;
  ha_chat_private : bytes;
  ha_join_token : bytes;
  ha_head_number : Z;
  ha_head_hash : bytes;
  ha_created_at : Z;
  ha_note : bytes;
  ha_checkpoint_at : Z;
  ha_activity : Z;
  ha_checkpoint_seen : Z;
  ha_warning : bytes;
}.

(** src/client/history_store.cpp 127-127 peer_prekeys *)
Record PeerPrekeyRow := mkPeerPrekeyRow {
  pp_fp : bytes;
  pp_since : Z;
}.

(** src/client/history_store.cpp 129-134 attachments *)
Record AttachmentRow := mkAttachmentRow {
  at_file_id : bytes;
  at_conv_id : bytes;
  at_message_id : bytes;
  at_outgoing : bool;
  at_name : bytes;
  at_size : Z;
  at_sha256 : bytes;
  at_expires_at : Z;
  at_relay_address : bytes;
  at_relay_id : bytes;
  at_state : Z;
  at_secrets : bytes;
  at_path : bytes;
  at_note : bytes;
  at_recipients : Z;
  at_redeemed : Z;
  at_created_at : Z;
}.

(** src/client/history_store.cpp 136-138 deletions *)
Record DeletionRow := mkDeletionRow {
  dn_op_id : bytes;
  dn_conv_id : bytes;
  dn_scope : Z;
  dn_expires_at : Z;
  dn_requester_fp : bytes;
  dn_entries : bytes;
  dn_state : Z;
  dn_created_at : Z;
}.

(** src/client/history_store.cpp 139-141 deletion_accepts *)
Record DeletionAcceptRow := mkDeletionAcceptRow {
  da_op_id : bytes;
  da_key_hash : bytes;
  da_signature : bytes;
  da_member_fp : bytes;
}.
Definition da_key (r : DeletionAcceptRow) : bytes * bytes := (r.(da_op_id), r.(da_key_hash)).

(** src/client/history_store.cpp 142-144 archive_messages *)
Record ArchiveMessageRow := mkArchiveMessageRow {
  am_conv_id : bytes;
  am_msg_id : bytes;
  am_number : Z;
}.
Definition am_key (r : ArchiveMessageRow) : bytes * bytes := (r.(am_conv_id), r.(am_msg_id)).

(** src/client/history_store.cpp 145-147 archive_redacted *)
Record ArchiveRedactedRow := mkArchiveRedactedRow {
  arx_conv_id : bytes;
  arx_number : Z;
}.
Definition arx_key (r : ArchiveRedactedRow) : bytes * Z := (r.(arx_conv_id), r.(arx_number)).

(** src/client/history_store.cpp 149-151 archive_chain *)
Record ArchiveChainRow := mkArchiveChainRow {
  ac_conv_id : bytes;
  ac_number : Z;
  ac_hash : bytes;
}.
Definition ac_key (r : ArchiveChainRow) : bytes * Z := (r.(ac_conv_id), r.(ac_number)).

(** The database and the key its rows are sealed under. The three counters are the
    [AUTOINCREMENT] sequences of [messages], [outbox] and [requests].
    src/client/history_store.h 368-370 HistoryStore *)
Record History := mkHistory {
  h_key : bytes;
  h_conversations : list ConvRow;
  h_conversation_members : list MemberRow;
  h_messages : list MessageRow;
  h_deliveries : list DeliveryRow;
  h_outbox : list OutboxRow;
  h_requests : list RequestRow;
  h_issued_tokens : list IssuedRow;
  h_contact_state : list ContactStateRow;
  h_group_invites : list InviteRow;
  h_introduced_members : list IntroducedRow;
  h_member_tokens : list MemberTokenRow;
  h_verified_people : list VerifiedRow;
  h_archives : list HArchiveRow;
  h_peer_prekeys : list PeerPrekeyRow;
  h_attachments : list AttachmentRow;
  h_deletions : list DeletionRow;
  h_deletion_accepts : list DeletionAcceptRow;
  h_archive_messages : list ArchiveMessageRow;
  h_archive_redacted : list ArchiveRedactedRow;
  h_archive_chain : list ArchiveChainRow;
  h_messages_seq : Z;
  h_outbox_seq : Z;
  h_requests_seq : Z;
}.

Definition set_key (v : bytes) (db : History) : History :=
  mkHistory v db.(h_conversations) db.(h_conversation_members) db.(h_messages) db.(h_deliveries) db.(h_outbox) db.(h_requests) db.(h_issued_tokens) db.(h_contact_state) db.(h_group_invites) db.(h_introduced_members) db.(h_member_tokens) db.(h_verified_people) db.(h_archives) db.(h_peer_prekeys) db.(h_attachments) db.(h_deletions) db.(h_deletion_accepts) db.(h_archive_messages) db.(h_archive_redacted) db.(h_archive_chain) db.(h_messages_seq) db.(h_outbox_seq) db.(h_requests_seq).
Definition set_conversations (v : list ConvRow) (db : History) : History :=
  mkHistory db.(h_key) v db.(h_conversation_members) db.(h_messages) db.(h_deliveries) db.(h_outbox) db.(h_requests) db.(h_issued_tokens) db.(h_contact_state) db.(h_group_invites) db.(h_introduced_members) db.(h_member_tokens) db.(h_verified_people) db.(h_archives) db.(h_peer_prekeys) db.(h_attachments) db.(h_deletions) db.(h_deletion_accepts) db.(h_archive_messages) db.(h_archive_redacted) db.(h_archive_chain) db.(h_messages_seq) db.(h_outbox_seq) db.(h_requests_seq).
Definition set_conversation_members (v : list MemberRow) (db : History) : History :=
  mkHistory db.(h_key) db.(h_conversations) v db.(h_messages) db.(h_deliveries) db.(h_outbox) db.(h_requests) db.(h_issued_tokens) db.(h_contact_state) db.(h_group_invites) db.(h_introduced_members) db.(h_member_tokens) db.(h_verified_people) db.(h_archives) db.(h_peer_prekeys) db.(h_attachments) db.(h_deletions) db.(h_deletion_accepts) db.(h_archive_messages) db.(h_archive_redacted) db.(h_archive_chain) db.(h_messages_seq) db.(h_outbox_seq) db.(h_requests_seq).
Definition set_messages (v : list MessageRow) (db : History) : History :=
  mkHistory db.(h_key) db.(h_conversations) db.(h_conversation_members) v db.(h_deliveries) db.(h_outbox) db.(h_requests) db.(h_issued_tokens) db.(h_contact_state) db.(h_group_invites) db.(h_introduced_members) db.(h_member_tokens) db.(h_verified_people) db.(h_archives) db.(h_peer_prekeys) db.(h_attachments) db.(h_deletions) db.(h_deletion_accepts) db.(h_archive_messages) db.(h_archive_redacted) db.(h_archive_chain) db.(h_messages_seq) db.(h_outbox_seq) db.(h_requests_seq).
Definition set_deliveries (v : list DeliveryRow) (db : History) : History :=
  mkHistory db.(h_key) db.(h_conversations) db.(h_conversation_members) db.(h_messages) v db.(h_outbox) db.(h_requests) db.(h_issued_tokens) db.(h_contact_state) db.(h_group_invites) db.(h_introduced_members) db.(h_member_tokens) db.(h_verified_people) db.(h_archives) db.(h_peer_prekeys) db.(h_attachments) db.(h_deletions) db.(h_deletion_accepts) db.(h_archive_messages) db.(h_archive_redacted) db.(h_archive_chain) db.(h_messages_seq) db.(h_outbox_seq) db.(h_requests_seq).
Definition set_outbox (v : list OutboxRow) (db : History) : History :=
  mkHistory db.(h_key) db.(h_conversations) db.(h_conversation_members) db.(h_messages) db.(h_deliveries) v db.(h_requests) db.(h_issued_tokens) db.(h_contact_state) db.(h_group_invites) db.(h_introduced_members) db.(h_member_tokens) db.(h_verified_people) db.(h_archives) db.(h_peer_prekeys) db.(h_attachments) db.(h_deletions) db.(h_deletion_accepts) db.(h_archive_messages) db.(h_archive_redacted) db.(h_archive_chain) db.(h_messages_seq) db.(h_outbox_seq) db.(h_requests_seq).
Definition set_requests (v : list RequestRow) (db : History) : History :=
  mkHistory db.(h_key) db.(h_conversations) db.(h_conversation_members) db.(h_messages) db.(h_deliveries) db.(h_outbox) v db.(h_issued_tokens) db.(h_contact_state) db.(h_group_invites) db.(h_introduced_members) db.(h_member_tokens) db.(h_verified_people) db.(h_archives) db.(h_peer_prekeys) db.(h_attachments) db.(h_deletions) db.(h_deletion_accepts) db.(h_archive_messages) db.(h_archive_redacted) db.(h_archive_chain) db.(h_messages_seq) db.(h_outbox_seq) db.(h_requests_seq).
Definition set_issued_tokens (v : list IssuedRow) (db : History) : History :=
  mkHistory db.(h_key) db.(h_conversations) db.(h_conversation_members) db.(h_messages) db.(h_deliveries) db.(h_outbox) db.(h_requests) v db.(h_contact_state) db.(h_group_invites) db.(h_introduced_members) db.(h_member_tokens) db.(h_verified_people) db.(h_archives) db.(h_peer_prekeys) db.(h_attachments) db.(h_deletions) db.(h_deletion_accepts) db.(h_archive_messages) db.(h_archive_redacted) db.(h_archive_chain) db.(h_messages_seq) db.(h_outbox_seq) db.(h_requests_seq).
Definition set_contact_state (v : list ContactStateRow) (db : History) : History :=
  mkHistory db.(h_key) db.(h_conversations) db.(h_conversation_members) db.(h_messages) db.(h_deliveries) db.(h_outbox) db.(h_requests) db.(h_issued_tokens) v db.(h_group_invites) db.(h_introduced_members) db.(h_member_tokens) db.(h_verified_people) db.(h_archives) db.(h_peer_prekeys) db.(h_attachments) db.(h_deletions) db.(h_deletion_accepts) db.(h_archive_messages) db.(h_archive_redacted) db.(h_archive_chain) db.(h_messages_seq) db.(h_outbox_seq) db.(h_requests_seq).
Definition set_group_invites (v : list InviteRow) (db : History) : History :=
  mkHistory db.(h_key) db.(h_conversations) db.(h_conversation_members) db.(h_messages) db.(h_deliveries) db.(h_outbox) db.(h_requests) db.(h_issued_tokens) db.(h_contact_state) v db.(h_introduced_members) db.(h_member_tokens) db.(h_verified_people) db.(h_archives) db.(h_peer_prekeys) db.(h_attachments) db.(h_deletions) db.(h_deletion_accepts) db.(h_archive_messages) db.(h_archive_redacted) db.(h_archive_chain) db.(h_messages_seq) db.(h_outbox_seq) db.(h_requests_seq).
Definition set_introduced_members (v : list IntroducedRow) (db : History) : History :=
  mkHistory db.(h_key) db.(h_conversations) db.(h_conversation_members) db.(h_messages) db.(h_deliveries) db.(h_outbox) db.(h_requests) db.(h_issued_tokens) db.(h_contact_state) db.(h_group_invites) v db.(h_member_tokens) db.(h_verified_people) db.(h_archives) db.(h_peer_prekeys) db.(h_attachments) db.(h_deletions) db.(h_deletion_accepts) db.(h_archive_messages) db.(h_archive_redacted) db.(h_archive_chain) db.(h_messages_seq) db.(h_outbox_seq) db.(h_requests_seq).
Definition set_member_tokens (v : list MemberTokenRow) (db : History) : History :=
  mkHistory db.(h_key) db.(h_conversations) db.(h_conversation_members) db.(h_messages) db.(h_deliveries) db.(h_outbox) db.(h_requests) db.(h_issued_tokens) db.(h_contact_state) db.(h_group_invites) db.(h_introduced_members) v db.(h_verified_people) db.(h_archives) db.(h_peer_prekeys) db.(h_attachments) db.(h_deletions) db.(h_deletion_accepts) db.(h_archive_messages) db.(h_archive_redacted) db.(h_archive_chain) db.(h_messages_seq) db.(h_outbox_seq) db.(h_requests_seq).
Definition set_verified_people (v : list VerifiedRow) (db : History) : History :=
  mkHistory db.(h_key) db.(h_conversations) db.(h_conversation_members) db.(h_messages) db.(h_deliveries) db.(h_outbox) db.(h_requests) db.(h_issued_tokens) db.(h_contact_state) db.(h_group_invites) db.(h_introduced_members) db.(h_member_tokens) v db.(h_archives) db.(h_peer_prekeys) db.(h_attachments) db.(h_deletions) db.(h_deletion_accepts) db.(h_archive_messages) db.(h_archive_redacted) db.(h_archive_chain) db.(h_messages_seq) db.(h_outbox_seq) db.(h_requests_seq).
Definition set_archives (v : list HArchiveRow) (db : History) : History :=
  mkHistory db.(h_key) db.(h_conversations) db.(h_conversation_members) db.(h_messages) db.(h_deliveries) db.(h_outbox) db.(h_requests) db.(h_issued_tokens) db.(h_contact_state) db.(h_group_invites) db.(h_introduced_members) db.(h_member_tokens) db.(h_verified_people) v db.(h_peer_prekeys) db.(h_attachments) db.(h_deletions) db.(h_deletion_accepts) db.(h_archive_messages) db.(h_archive_redacted) db.(h_archive_chain) db.(h_messages_seq) db.(h_outbox_seq) db.(h_requests_seq).
Definition set_peer_prekeys (v : list PeerPrekeyRow) (db : History) : History :=
  mkHistory db.(h_key) db.(h_conversations) db.(h_conversation_members) db.(h_messages) db.(h_deliveries) db.(h_outbox) db.(h_requests) db.(h_issued_tokens) db.(h_contact_state) db.(h_group_invites) db.(h_introduced_members) db.(h_member_tokens) db.(h_verified_people) db.(h_archives) v db.(h_attachments) db.(h_deletions) db.(h_deletion_accepts) db.(h_archive_messages) db.(h_archive_redacted) db.(h_archive_chain) db.(h_messages_seq) db.(h_outbox_seq) db.(h_requests_seq).
Definition set_attachments (v : list AttachmentRow) (db : History) : History :=
  mkHistory db.(h_key) db.(h_conversations) db.(h_conversation_members) db.(h_messages) db.(h_deliveries) db.(h_outbox) db.(h_requests) db.(h_issued_tokens) db.(h_contact_state) db.(h_group_invites) db.(h_introduced_members) db.(h_member_tokens) db.(h_verified_people) db.(h_archives) db.(h_peer_prekeys) v db.(h_deletions) db.(h_deletion_accepts) db.(h_archive_messages) db.(h_archive_redacted) db.(h_archive_chain) db.(h_messages_seq) db.(h_outbox_seq) db.(h_requests_seq).
Definition set_deletions (v : list DeletionRow) (db : History) : History :=
  mkHistory db.(h_key) db.(h_conversations) db.(h_conversation_members) db.(h_messages) db.(h_deliveries) db.(h_outbox) db.(h_requests) db.(h_issued_tokens) db.(h_contact_state) db.(h_group_invites) db.(h_introduced_members) db.(h_member_tokens) db.(h_verified_people) db.(h_archives) db.(h_peer_prekeys) db.(h_attachments) v db.(h_deletion_accepts) db.(h_archive_messages) db.(h_archive_redacted) db.(h_archive_chain) db.(h_messages_seq) db.(h_outbox_seq) db.(h_requests_seq).
Definition set_deletion_accepts (v : list DeletionAcceptRow) (db : History) : History :=
  mkHistory db.(h_key) db.(h_conversations) db.(h_conversation_members) db.(h_messages) db.(h_deliveries) db.(h_outbox) db.(h_requests) db.(h_issued_tokens) db.(h_contact_state) db.(h_group_invites) db.(h_introduced_members) db.(h_member_tokens) db.(h_verified_people) db.(h_archives) db.(h_peer_prekeys) db.(h_attachments) db.(h_deletions) v db.(h_archive_messages) db.(h_archive_redacted) db.(h_archive_chain) db.(h_messages_seq) db.(h_outbox_seq) db.(h_requests_seq).
Definition set_archive_messages (v : list ArchiveMessageRow) (db : History) : History :=
  mkHistory db.(h_key) db.(h_conversations) db.(h_conversation_members) db.(h_messages) db.(h_deliveries) db.(h_outbox) db.(h_requests) db.(h_issued_tokens) db.(h_contact_state) db.(h_group_invites) db.(h_introduced_members) db.(h_member_tokens) db.(h_verified_people) db.(h_archives) db.(h_peer_prekeys) db.(h_attachments) db.(h_deletions) db.(h_deletion_accepts) v db.(h_archive_redacted) db.(h_archive_chain) db.(h_messages_seq) db.(h_outbox_seq) db.(h_requests_seq).
Definition set_archive_redacted (v : list ArchiveRedactedRow) (db : History) : History :=
  mkHistory db.(h_key) db.(h_conversations) db.(h_conversation_members) db.(h_messages) db.(h_deliveries) db.(h_outbox) db.(h_requests) db.(h_issued_tokens) db.(h_contact_state) db.(h_group_invites) db.(h_introduced_members) db.(h_member_tokens) db.(h_verified_people) db.(h_archives) db.(h_peer_prekeys) db.(h_attachments) db.(h_deletions) db.(h_deletion_accepts) db.(h_archive_messages) v db.(h_archive_chain) db.(h_messages_seq) db.(h_outbox_seq) db.(h_requests_seq).
Definition set_archive_chain (v : list ArchiveChainRow) (db : History) : History :=
  mkHistory db.(h_key) db.(h_conversations) db.(h_conversation_members) db.(h_messages) db.(h_deliveries) db.(h_outbox) db.(h_requests) db.(h_issued_tokens) db.(h_contact_state) db.(h_group_invites) db.(h_introduced_members) db.(h_member_tokens) db.(h_verified_people) db.(h_archives) db.(h_peer_prekeys) db.(h_attachments) db.(h_deletions) db.(h_deletion_accepts) db.(h_archive_messages) db.(h_archive_redacted) v db.(h_messages_seq) db.(h_outbox_seq) db.(h_requests_seq).
Definition set_messages_seq (v : Z) (db : History) : History :=
  mkHistory db.(h_key) db.(h_conversations) db.(h_conversation_members) db.(h_messages) db.(h_deliveries) db.(h_outbox) db.(h_requests) db.(h_issued_tokens) db.(h_contact_state) db.(h_group_invites) db.(h_introduced_members) db.(h_member_tokens) db.(h_verified_people) db.(h_archives) db.(h_peer_prekeys) db.(h_attachments) db.(h_deletions) db.(h_deletion_accepts) db.(h_archive_messages) db.(h_archive_redacted) db.(h_archive_chain) v db.(h_outbox_seq) db.(h_requests_seq).
Definition set_outbox_seq (v : Z) (db : History) : History :=
  mkHistory db.(h_key) db.(h_conversations) db.(h_conversation_members) db.(h_messages) db.(h_deliveries) db.(h_outbox) db.(h_requests) db.(h_issued_tokens) db.(h_contact_state) db.(h_group_invites) db.(h_introduced_members) db.(h_member_tokens) db.(h_verified_people) db.(h_archives) db.(h_peer_prekeys) db.(h_attachments) db.(h_deletions) db.(h_deletion_accepts) db.(h_archive_messages) db.(h_archive_redacted) db.(h_archive_chain) db.(h_messages_seq) v db.(h_requests_seq).
Definition set_requests_seq (v : Z) (db : History) : History :=
  mkHistory db.(h_key) db.(h_conversations) db.(h_conversation_members) db.(h_messages) db.(h_deliveries) db.(h_outbox) db.(h_requests) db.(h_issued_tokens) db.(h_contact_state) db.(h_group_invites) db.(h_introduced_members) db.(h_member_tokens) db.(h_verified_people) db.(h_archives) db.(h_peer_prekeys) db.(h_attachments) db.(h_deletions) db.(h_deletion_accepts) db.(h_archive_messages) db.(h_archive_redacted) db.(h_archive_chain) db.(h_messages_seq) db.(h_outbox_seq) v.

(** [UPDATE ... SET column]: a row with one column changed. *)
Definition cv_with_state (v : Z) (r : ConvRow) : ConvRow :=
  mkConvRow r.(cv_id) r.(cv_kind) r.(cv_contact_fp) r.(cv_title) r.(cv_creator_fp) r.(cv_mode) r.(cv_timer_seconds) r.(cv_previous_id) v r.(cv_created_at) r.(cv_last_activity) r.(cv_send_delivery) r.(cv_send_read).
Definition cv_with_last_activity (v : Z) (r : ConvRow) : ConvRow :=
  mkConvRow r.(cv_id) r.(cv_kind) r.(cv_contact_fp) r.(cv_title) r.(cv_creator_fp) r.(cv_mode) r.(cv_timer_seconds) r.(cv_previous_id) r.(cv_state) r.(cv_created_at) v r.(cv_send_delivery) r.(cv_send_read).
Definition cv_with_send_delivery (v : bool) (r : ConvRow) : ConvRow :=
  mkConvRow r.(cv_id) r.(cv_kind) r.(cv_contact_fp) r.(cv_title) r.(cv_creator_fp) r.(cv_mode) r.(cv_timer_seconds) r.(cv_previous_id) r.(cv_state) r.(cv_created_at) r.(cv_last_activity) v r.(cv_send_read).
Definition cv_with_send_read (v : bool) (r : ConvRow) : ConvRow :=
  mkConvRow r.(cv_id) r.(cv_kind) r.(cv_contact_fp) r.(cv_title) r.(cv_creator_fp) r.(cv_mode) r.(cv_timer_seconds) r.(cv_previous_id) r.(cv_state) r.(cv_created_at) r.(cv_last_activity) r.(cv_send_delivery) v.
Definition ms_with_status (v : Z) (r : MessageRow) : MessageRow :=
  mkMessageRow r.(ms_row) r.(ms_conv_id) r.(ms_msg_id) r.(ms_outgoing) r.(ms_sent_at) r.(ms_received_at) v r.(ms_gap) r.(ms_entry_hash) r.(ms_sealed).
Definition ms_with_sealed (v : bytes) (r : MessageRow) : MessageRow :=
  mkMessageRow r.(ms_row) r.(ms_conv_id) r.(ms_msg_id) r.(ms_outgoing) r.(ms_sent_at) r.(ms_received_at) r.(ms_status) r.(ms_gap) r.(ms_entry_hash) v.
Definition dl_with_status (v : Z) (r : DeliveryRow) : DeliveryRow :=
  mkDeliveryRow r.(dl_conv_id) r.(dl_msg_id) r.(dl_member_fp) v.
Definition ob_with_sealed (v : bytes) (r : OutboxRow) : OutboxRow :=
  mkOutboxRow r.(ob_id) r.(ob_contact_fp) r.(ob_kind) r.(ob_msg_id) v r.(ob_due_at) r.(ob_attempts) r.(ob_created_at).
Definition ob_with_due_at (v : Z) (r : OutboxRow) : OutboxRow :=
  mkOutboxRow r.(ob_id) r.(ob_contact_fp) r.(ob_kind) r.(ob_msg_id) r.(ob_sealed) v r.(ob_attempts) r.(ob_created_at).
Definition ob_with_attempts (v : Z) (r : OutboxRow) : OutboxRow :=
  mkOutboxRow r.(ob_id) r.(ob_contact_fp) r.(ob_kind) r.(ob_msg_id) r.(ob_sealed) r.(ob_due_at) v r.(ob_created_at).
Definition it_with_bound_fp (v : bytes) (r : IssuedRow) : IssuedRow :=
  mkIssuedRow r.(it_hash) r.(it_label) r.(it_created_at) v r.(it_revoked).
Definition it_with_revoked (v : bool) (r : IssuedRow) : IssuedRow :=
  mkIssuedRow r.(it_hash) r.(it_label) r.(it_created_at) r.(it_bound_fp) v.
Definition cs_with_bundle_sent (v : bool) (r : ContactStateRow) : ContactStateRow :=
  mkContactStateRow r.(cs_contact_fp) v.
Definition gi_with_sealed (v : bytes) (r : InviteRow) : InviteRow :=
  mkInviteRow r.(gi_conv_id) r.(gi_creator_fp) r.(gi_received_at) v.
Definition im_with_bundle (v : bytes) (r : IntroducedRow) : IntroducedRow :=
  mkIntroducedRow r.(im_fp) v r.(im_issued_at) r.(im_introduced_by) r.(im_first_seen).
Definition im_with_issued_at (v : Z) (r : IntroducedRow) : IntroducedRow :=
  mkIntroducedRow r.(im_fp) r.(im_bundle) v r.(im_introduced_by) r.(im_first_seen).
Definition ha_with_state (v : Z) (r : HArchiveRow) : HArchiveRow :=
  mkHArchiveRow r.(ha_conv_id) r.(ha_relay_address) r.(ha_relay_id) r.(ha_role) v r.(ha_archive_key) r.(ha_chat_public) r.(ha_chat_private) r.(ha_join_token) r.(ha_head_number) r.(ha_head_hash) r.(ha_created_at) r.(ha_note) r.(ha_checkpoint_at) r.(ha_activity) r.(ha_checkpoint_seen) r.(ha_warning).
Definition ha_with_join_token (v : bytes) (r : HArchiveRow) : HArchiveRow :=
  mkHArchiveRow r.(ha_conv_id) r.(ha_relay_address) r.(ha_relay_id) r.(ha_role) r.(ha_state) r.(ha_archive_key) r.(ha_chat_public) r.(ha_chat_private) v r.(ha_head_number) r.(ha_head_hash) r.(ha_created_at) r.(ha_note) r.(ha_checkpoint_at) r.(ha_activity) r.(ha_checkpoint_seen) r.(ha_warning).
Definition ha_with_note (v : bytes) (r : HArchiveRow) : HArchiveRow :=
  mkHArchiveRow r.(ha_conv_id) r.(ha_relay_address) r.(ha_relay_id) r.(ha_role) r.(ha_state) r.(ha_archive_key) r.(ha_chat_public) r.(ha_chat_private) r.(ha_join_token) r.(ha_head_number) r.(ha_head_hash) r.(ha_created_at) v r.(ha_checkpoint_at) r.(ha_activity) r.(ha_checkpoint_seen) r.(ha_warning).
Definition ha_with_activity (v : Z) (r : HArchiveRow) : HArchiveRow :=
  mkHArchiveRow r.(ha_conv_id) r.(ha_relay_address) r.(ha_relay_id) r.(ha_role) r.(ha_state) r.(ha_archive_key) r.(ha_chat_public) r.(ha_chat_private) r.(ha_join_token) r.(ha_head_number) r.(ha_head_hash) r.(ha_created_at) r.(ha_note) r.(ha_checkpoint_at) v r.(ha_checkpoint_seen) r.(ha_warning).
Definition ha_with_checkpoint_at (v : Z) (r : HArchiveRow) : HArchiveRow :=
  mkHArchiveRow r.(ha_conv_id) r.(ha_relay_address) r.(ha_relay_id) r.(ha_role) r.(ha_state) r.(ha_archive_key) r.(ha_chat_public) r.(ha_chat_private) r.(ha_join_token) r.(ha_head_number) r.(ha_head_hash) r.(ha_created_at) r.(ha_note) v r.(ha_activity) r.(ha_checkpoint_seen) r.(ha_warning).
Definition ha_with_checkpoint_seen (v : Z) (r : HArchiveRow) : HArchiveRow :=
  mkHArchiveRow r.(ha_conv_id) r.(ha_relay_address) r.(ha_relay_id) r.(ha_role) r.(ha_state) r.(ha_archive_key) r.(ha_chat_public) r.(ha_chat_private) r.(ha_join_token) r.(ha_head_number) r.(ha_head_hash) r.(ha_created_at) r.(ha_note) r.(ha_checkpoint_at) r.(ha_activity) v r.(ha_warning).
Definition ha_with_warning (v : bytes) (r : HArchiveRow) : HArchiveRow :=
  mkHArchiveRow r.(ha_conv_id) r.(ha_relay_address) r.(ha_relay_id) r.(ha_role) r.(ha_state) r.(ha_archive_key) r.(ha_chat_public) r.(ha_chat_private) r.(ha_join_token) r.(ha_head_number) r.(ha_head_hash) r.(ha_created_at) r.(ha_note) r.(ha_checkpoint_at) r.(ha_activity) r.(ha_checkpoint_seen) v.
Definition ha_with_head_number (v : Z) (r : HArchiveRow) : HArchiveRow :=
  mkHArchiveRow r.(ha_conv_id) r.(ha_relay_address) r.(ha_relay_id) r.(ha_role) r.(ha_state) r.(ha_archive_key) r.(ha_chat_public) r.(ha_chat_private) r.(ha_join_token) v r.(ha_head_hash) r.(ha_created_at) r.(ha_note) r.(ha_checkpoint_at) r.(ha_activity) r.(ha_checkpoint_seen) r.(ha_warning).
Definition ha_with_head_hash (v : bytes) (r : HArchiveRow) : HArchiveRow :=
  mkHArchiveRow r.(ha_conv_id) r.(ha_relay_address) r.(ha_relay_id) r.(ha_role) r.(ha_state) r.(ha_archive_key) r.(ha_chat_public) r.(ha_chat_private) r.(ha_join_token) r.(ha_head_number) v r.(ha_created_at) r.(ha_note) r.(ha_checkpoint_at) r.(ha_activity) r.(ha_checkpoint_seen) r.(ha_warning).
Definition at_with_state (v : Z) (r : AttachmentRow) : AttachmentRow :=
  mkAttachmentRow r.(at_file_id) r.(at_conv_id) r.(at_message_id) r.(at_outgoing) r.(at_name) r.(at_size) r.(at_sha256) r.(at_expires_at) r.(at_relay_address) r.(at_relay_id) v r.(at_secrets) r.(at_path) r.(at_note) r.(at_recipients) r.(at_redeemed) r.(at_created_at).
Definition at_with_note (v : bytes) (r : AttachmentRow) : AttachmentRow :=
  mkAttachmentRow r.(at_file_id) r.(at_conv_id) r.(at_message_id) r.(at_outgoing) r.(at_name) r.(at_size) r.(at_sha256) r.(at_expires_at) r.(at_relay_address) r.(at_relay_id) r.(at_state) r.(at_secrets) r.(at_path) v r.(at_recipients) r.(at_redeemed) r.(at_created_at).
Definition at_with_path (v : bytes) (r : AttachmentRow) : AttachmentRow :=
  mkAttachmentRow r.(at_file_id) r.(at_conv_id) r.(at_message_id) r.(at_outgoing) r.(at_name) r.(at_size) r.(at_sha256) r.(at_expires_at) r.(at_relay_address) r.(at_relay_id) r.(at_state) r.(at_secrets) v r.(at_note) r.(at_recipients) r.(at_redeemed) r.(at_created_at).
Definition at_with_redeemed (v : Z) (r : AttachmentRow) : AttachmentRow :=
  mkAttachmentRow r.(at_file_id) r.(at_conv_id) r.(at_message_id) r.(at_outgoing) r.(at_name) r.(at_size) r.(at_sha256) r.(at_expires_at) r.(at_relay_address) r.(at_relay_id) r.(at_state) r.(at_secrets) r.(at_path) r.(at_note) r.(at_recipients) v r.(at_created_at).
Definition at_with_secrets (v : bytes) (r : AttachmentRow) : AttachmentRow :=
  mkAttachmentRow r.(at_file_id) r.(at_conv_id) r.(at_message_id) r.(at_outgoing) r.(at_name) r.(at_size) r.(at_sha256) r.(at_expires_at) r.(at_relay_address) r.(at_relay_id) r.(at_state) v r.(at_path) r.(at_note) r.(at_recipients) r.(at_redeemed) r.(at_created_at).
Definition dn_with_state (v : Z) (r : DeletionRow) : DeletionRow :=
  mkDeletionRow r.(dn_op_id) r.(dn_conv_id) r.(dn_scope) r.(dn_expires_at) r.(dn_requester_fp) r.(dn_entries) v r.(dn_created_at).

(** ** Sealed columns *)

(** src/client/history_store.cpp 20-26 aad_of *)
Definition aad_of (label a b : bytes) : bytes :=
  write_blob (write_blob (write_string [] label) a) b.

(** src/client/history_store.cpp 28-33 pack *)
Definition pack (l : list bytes) : bytes :=
  foldl write_blob (write_u32 [] (u32 (size l))) l.

(** src/client/history_store.cpp 35-47 unpack *)
Definition unpack (data : bytes) : option (list bytes) :=
  let '(count, off) := read_u32 data 0 in
  let? count := count in
  if 4096 <? count then None else
  let '(l, off) := read_loop (read_capped (2 ^ 20)) (Z.to_nat count) data off [] in
  let? l := l in
  if negb (off =? size data) then None else Some l.

(** src/client/history_store.cpp 156-161 is_member_fp *)
Definition is_member_fp (fp : bytes) : bool :=
  (size fp =? 64)
  && forallb (fun b => let c := Z_of_byte b in ((48 <=? c) && (c <=? 57)) || ((97 <=? c) && (c <=? 102))) fp.

Section sealing.
Context `{P : Primitives}.

(** src/client/history_store.cpp 271-277 seal *)
Definition hs_seal (nonce key plaintext aad : bytes) : exc bytes :=
  let! ct := encrypt key nonce plaintext aad in
  Ret (nonce ++ ct).

(** src/client/history_store.cpp 279-287 unseal *)
Definition hs_unseal (key sealed aad : bytes) : option bytes :=
  if size sealed <? 12 + 16 then None else
  catch (decrypt key (ztake 12 sealed) (zdrop 12 sealed) aad).
End sealing.

(** ** Lemmas *)

Lemma pack_eq l : pack l = be32 (u32 (size l)) ++ concat (map blob l).
Proof. unfold pack. by rewrite fold_write_blob. Qed.

(** A list of at most 4096 records of at most 1 MiB each. *)
Definition packable (l : list bytes) : Prop := size l <= 4096 /\ Forall (fun b => size b <= 2 ^ 20) l.

(** The packing is exact: a packed list is unpacked, and nothing else is. *)
Lemma unpack_spec data l : unpack data = Some l <-> packable l /\ data = pack l.
Proof.
  unfold unpack, packable. split.
  - intros H. pose proof (at_off_0 data) as Hat. open_decode H. open_decode H.
    destruct (read_loop _ _ _ _ _) as [ol offl] eqn:Hl. repeat (open_decode H; bool_prop; subst).
    apply (read_u32_at _ _ _ _ _ Hat) in Heqp as (Hn & -> & rest & Hrest & _).
    rewrite Hrest in Hat at 2. apply (counted_loop_at _ _ _ _ _ _ Hn Hat) in Hl as (-> & Hf & rest' & -> & Hend).
    read_end. split; [done|]. rewrite pack_eq, u32_small by done. by rewrite app_nil_r.
  - intros [[Hs Hf] ->]. rewrite pack_eq. assert (in_u32 (size l)) as Hu by (pose proof (size_nonneg l); split; lia).
    rewrite u32_small by done. remember (be32 (size l) ++ concat (map blob l)) as data eqn:Hd.
    apply at_off_0_app in Hd. rewrite <- app_assoc in Hd.
    destruct (counted_loop_fwd data 0 [] l Hu Hf Hd) as [Hl Hend].
    rewrite (read_u32_fwd _ _ _ _ Hd Hu). rewrite (proj2 (Z.ltb_ge _ _)) by done.
    change (0 + 4) with 4 in *. rewrite Hl. by rewrite (at_off_end_eqb _ _ Hend).
Qed.

Section sealed.
Context `{PrimitiveLaws}.

(** What was sealed for a row is read back for that row. *)
Lemma hs_unseal_seal nonce key plain aad :
  size key = 32 -> size nonce = 12 -> size plain + 16 <= INT_MAX -> size aad <= INT_MAX ->
  exists sealed, hs_seal nonce key plain aad = Ret sealed /\ hs_unseal key sealed aad = Some plain /\ 28 <= size sealed.
Proof.
  intros Hk Hn Hp Ha. unfold hs_seal, hs_unseal.
  destruct (nonce_sealed key nonce plain aad Hk Hn Hp Ha) as (He & Hs & Hd). rewrite He. simpl.
  eexists. split; [done|]. pose proof (size_nonneg plain). rewrite (proj2 (Z.ltb_ge _ _)) by lia. rewrite Hd. split; [done|lia].
Qed.

(** A row copied to another place does not open there: what opens was sealed
    with the associated data it is opened with. *)
Lemma hs_unseal_only key sealed aad plain :
  hs_unseal key sealed aad = Some plain -> zdrop 12 sealed = prim_gcm_seal key (ztake 12 sealed) plain aad.
Proof.
  unfold hs_unseal. destruct (size sealed <? _); [done|]. destruct (decrypt _ _ _ _) as [[p|]|] eqn:E; simpl; [|done..].
  intros [= ->]. apply decrypt_ret in E. by apply gcm_open_only.
Qed.
End sealed.

Lemma size_aad label a b : size (aad_of label a b) = 12 + size label + size a + size b.
Proof. unfold aad_of. encode_norm. rewrite !size_app, !size_blob. lia. Qed.

(** The associated data names the row: label and identity can be read off it. *)
Lemma aad_of_inj label label' a b a' b' :
  size label < 2 ^ 32 -> size label' < 2 ^ 32 -> size a < 2 ^ 32 -> size a' < 2 ^ 32 -> size b < 2 ^ 32 -> size b' < 2 ^ 32 ->
  aad_of label a b = aad_of label' a' b' -> label = label' /\ a = a' /\ b = b'.
Proof.
  intros. pose proof (size_nonneg label). pose proof (size_nonneg label'). pose proof (size_nonneg a).
  pose proof (size_nonneg a'). pose proof (size_nonneg b). pose proof (size_nonneg b').
  revert select (aad_of _ _ _ = _). unfold aad_of. encode_norm. intros E.
  apply blob_inj in E as [-> E]; [|split; lia..]. apply blob_inj in E as [-> E]; [|split; lia..].
  rewrite <- (app_nil_r (blob b)), <- (app_nil_r (blob b')) in E.
  apply blob_inj in E as [-> _]; [done|split; lia..].
Qed.
