(* ===== verification/HistoryStore.v ===== *)
(** * The client's message history: client/history_store.h and history_store.cpp

    The methods of [HistoryStore] as functions of the database. Each holds the
    store's mutex for its whole body, so it is one atomic step. [Throw] is a
    thrown [std::runtime_error]; an open transaction is then rolled back and the
    caller keeps the database it had. Statements that cannot fail return the
    database only. Random nonces are arguments. Rows that compare equal in an
    [ORDER BY] come in rowid order. *)

From Stdlib Require Import ZArith Lia.
From stdpp Require Import base list strings.
From S2P Require Import Prelude Wire RelayProtocol RelayProtocolSpec Crypto Envelope Sql HistoryTables.
#[local] Open Scope Z_scope.
#[local] Open Scope wire_scope.

(** src/client/history_store.h 38-38 Kind *)
Definition Direct : Z := 1.
Definition Group : Z := 2.
(** src/client/history_store.h 40-40 State *)
Definition Active : Z := 0.
Definition SettingUp : Z := 1.
(** src/client/history_store.h 41-41 Mode *)
Definition Saved : Z := 1.
(** src/client/history_store.h 42-42 MAX_OTHER_MEMBERS *)
Definition MAX_OTHER_MEMBERS : Z := 15.
(** src/client/history_store.h 43-43 MAX_TITLE_BYTES *)
Definition MAX_TITLE_BYTES : Z := 64.
(** src/client/history_store.h 127-127 MAX_HELD_RECORDS *)
Definition MAX_HELD_RECORDS : Z := 200.

(** src/client/history_store.h 45-60 Conversation *)
Record Conversation := mkConversation {
  Conv_id : bytes;
  Conv_contact_fp : bytes;
  Conv_created_at : Z;
  Conv_last_activity : Z;
  Conv_send_delivery_receipts : bool;
  Conv_send_read_receipts : bool;
  Conv_kind : Z;
  Conv_state : Z;
  Conv_title : bytes;
  Conv_creator_fp : bytes;
  Conv_mode : Z;
  Conv_timer_seconds : Z;
  Conv_previous_id : bytes;
  Conv_members : list bytes;
}.

(** src/client/history_store.h 81-93 Message *)
Record Message := mkMessage {
  Msg_row : Z;
  Msg_conversation_id : bytes;
  Msg_message_id : bytes;
  Msg_outgoing : bool;
  Msg_sent_at : Z;
  Msg_received_at : Z;
  Msg_status : Z;
  Msg_gap : bool;
  Msg_entry_hash : bytes;
  Msg_record : bytes;
  Msg_deleted : bool;
}.

(** The next key of an [AUTOINCREMENT] table; there is none after the largest. *)
Definition next_rowid (seq : Z) : exc Z :=
  if seq <? 2 ^ 63 - 1 then Ret (seq + 1) else Throw "database: step".

(** ** Opening *)

(** src/client/history_store.cpp 53-53 SCHEMA_VERSION *)
Definition SCHEMA_VERSION : Z := 10.

(** A database file without tables, and one of version 1: its conversations had
    a contact, two times and the receipt settings. *)
Definition empty_history (key : bytes) : History :=
  mkHistory key [] [] [] [] [] [] [] [] [] [] [] [] [] [] [] [] [] [] [] [] 0 0 0.
Record ConvRowV1 := mkConvRowV1 {
  v1_id : bytes;
  v1_contact_fp : bytes;
  v1_created_at : Z;
  v1_last_activity : Z;
  v1_send_delivery : bool;
  v1_send_read : bool;
}.

(** The tables of version 1, and the rest of the database. The upgrade first
    copies the file; rebuilding the table keeps its rows, and the contact of each
    becomes its one member. Creating the unique index fails if two conversations
    have the same contact. The check of the foreign keys comes after the commit.
    src/client/history_store.cpp 227-264 migrate_v1_to_v2 *)
Definition migrate_v1_to_v2 (convs : list ConvRowV1) (rest : History) : exc History :=
  let rows := map (fun c => mkConvRow c.(v1_id) Direct c.(v1_contact_fp) [] [] Saved 0 [] Active c.(v1_created_at)
                              c.(v1_last_activity) c.(v1_send_delivery) c.(v1_send_read)) convs in
  if negb (bool_decide (NoDup (map cv_contact_fp rows))) then Throw "database: UNIQUE constraint failed" else
  let db := set_conversations rows rest in
  let db := set_conversation_members (map (fun c => mkMemberRow c.(cv_id) c.(cv_contact_fp) 0) rows) db in
  if forallb (fun m => references cv_id m.(ms_conv_id) db.(h_conversations)) db.(h_messages)
  then Ret db
  else Throw "The message history failed its integrity check after upgrading".

(** What is in the file: nothing yet; conversations of version 1; a database of
    the given version, in which the tables that are still to be added are empty
    and the columns that are still to be added have their default. *)
Inductive HistoryFile :=
  | NewFile
  | FileV1 (convs : list ConvRowV1) (rest : History)
  | FileV2 (version : Z) (db : History).
(** src/client/history_store.cpp 165-222 HistoryStore *)
Definition open_history (file : HistoryFile) (key : bytes) : exc History :=
  if negb (size key =? 32) then Throw "The history key must be 32 bytes" else
  match file with
  | NewFile => Ret (empty_history key)
  | FileV1 convs rest => migrate_v1_to_v2 convs (set_key key rest)
  | FileV2 version db =>
      if SCHEMA_VERSION <? version then Throw "This message history was made by a newer version of the app" else
      Ret (set_key key db)
  end.

(** ** Conversations *)

(** [ORDER BY number, text], and [ORDER BY number DESC]. *)
Definition asc_then {A} (num : A -> Z) (key : A -> bytes) (x y : A) : bool :=
  (num x <? num y) || ((num x =? num y) && bytes_leb (key x) (key y)).
Definition asc {A} (num : A -> Z) (x y : A) : bool := num x <=? num y.
Definition desc {A} (num : A -> Z) (x y : A) : bool := num y <=? num x.

(** src/client/history_store.cpp 291-297 load_members *)
Definition load_members (db : History) (conversation_id : bytes) : list bytes :=
  map mem_fp (sort_by (asc_then mem_idx mem_fp)
    (filter (fun m => m.(mem_conv_id) = conversation_id) db.(h_conversation_members))).

(** src/client/history_store.cpp 299-316 read_conversation *)
Definition read_conversation (db : History) (c : ConvRow) : Conversation :=
  mkConversation c.(cv_id) c.(cv_contact_fp) c.(cv_created_at) c.(cv_last_activity) c.(cv_send_delivery) c.(cv_send_read)
    c.(cv_kind) c.(cv_state) c.(cv_title) c.(cv_creator_fp) c.(cv_mode) c.(cv_timer_seconds) c.(cv_previous_id)
    (load_members db c.(cv_id)).

Definition direct_with (contact_fp : bytes) (c : ConvRow) : Prop := c.(cv_kind) = Direct /\ c.(cv_contact_fp) = contact_fp.
#[export] Instance direct_with_dec contact_fp c : Decision (direct_with contact_fp c).
Proof. unfold direct_with. apply _. Defined.

(** src/client/history_store.cpp 347-353 conversation *)
Definition hs_conversation (db : History) (id : bytes) : option Conversation :=
  read_conversation db <$> select_first (fun c => c.(cv_id) = id) db.(h_conversations).

(** src/client/history_store.cpp 339-345 conversation_for *)
Definition conversation_for (db : History) (contact_fp : bytes) : option Conversation :=
  read_conversation db <$> select_first (direct_with contact_fp) db.(h_conversations).

(** [INSERT OR IGNORE] under the primary key and the index of direct conversations. *)
Definition insert_direct (c : ConvRow) (t : list ConvRow) : list ConvRow :=
  if decide (c.(cv_id) ∈ map cv_id t) then t
  else if exists_row (direct_with c.(cv_contact_fp)) t then t
  else t ++ [c].

(** src/client/history_store.cpp 318-337 ensure_conversation *)
Definition ensure_conversation (db : History) (id contact_fp : bytes) (now : Z) : exc (Conversation * History) :=
  let db := set_conversations
    (insert_direct (mkConvRow id Direct contact_fp [] [] Saved 0 [] Active now now true true) db.(h_conversations)) db in
  match select_first (direct_with contact_fp) db.(h_conversations) with
  | None => Throw "database: conversation missing after insert"
  | Some found =>
      let found_id := found.(cv_id) in
      let db := set_conversation_members
        (insert_or_ignore mem_key (mkMemberRow found_id contact_fp 0) db.(h_conversation_members)) db in
      match hs_conversation db found_id with
      | None => Throw "database: conversation missing after insert"
      | Some c => Ret (c, db)
      end
  end.

(** The loop over the members: [i] from zero, [j < i].
    src/client/history_store.cpp 355-389 create_group *)
Fixpoint check_members (seen members : list bytes) : exc unit :=
  match members with
  | [] => Ret tt
  | m :: members =>
      if negb (is_member_fp m) then Throw "A group member is not a valid fingerprint" else
      if bool_decide (m ∈ seen) then Throw "A group member is listed twice" else
      check_members (seen ++ [m]) members
  end.

(** The loop of insertions; a member that is there already is a broken key. *)
Fixpoint insert_members (id : bytes) (i : Z) (members : list bytes) (t : list MemberRow) : exc (list MemberRow) :=
  match members with
  | [] => Ret t
  | m :: members =>
      match insert_row mem_key (mkMemberRow id m i) t with
      | None => Throw "database: step"
      | Some t => insert_members id (i + 1) members t
      end
  end.

(** src/client/history_store.cpp 355-389 create_group *)
Definition create_group (db : History) (id title creator_fp : bytes) (mode timer_seconds : Z) (previous_id : bytes)
    (members : list bytes) (state now : Z) : exc (Conversation * History) :=
  if is_empty id then Throw "A group needs a conversation ID" else
  if negb (mode =? Saved) then Throw "Only Saved chats are supported so far" else
  if negb (state =? Active) && negb (state =? SettingUp) then Throw "Unknown conversation state" else
  if MAX_TITLE_BYTES <? size title then Throw "The group name is too long" else
  if negb (is_empty creator_fp) && negb (is_member_fp creator_fp)
  then Throw "The group creator is not a valid fingerprint" else
  if (size members =? 0) || (MAX_OTHER_MEMBERS <? size members) then Throw "A group needs between 2 and 16 people" else
  let! _ := check_members [] members in
  match hs_conversation db id with
  | Some c => Ret (c, db)
  | None =>
      match insert_row cv_id
              (mkConvRow id Group [] title creator_fp mode timer_seconds previous_id state now now true true)
              db.(h_conversations) with
      | None => Throw "database: step"
      | Some convs =>
          let! mems := insert_members id 0 members db.(h_conversation_members) in
          let db := set_conversation_members mems (set_conversations convs db) in
          match hs_conversation db id with
          | None => Throw "database: group missing after insert"
          | Some c => Ret (c, db)
          end
      end
  end.

(** src/client/history_store.cpp 391-395 set_conversation_state *)
Definition set_conversation_state (db : History) (id : bytes) (state : Z) : exc History :=
  if negb (state =? Active) && negb (state =? SettingUp) then Throw "Unknown conversation state" else
  Ret (set_conversations (update_rows (fun c => c.(cv_id) = id) (cv_with_state state) db.(h_conversations)) db).

(** src/client/history_store.cpp 397-403 conversations *)
Definition hs_conversations (db : History) : list Conversation :=
  map (read_conversation db) (sort_by (desc cv_last_activity) db.(h_conversations)).

(** src/client/history_store.cpp 405-409 set_receipt_settings *)
Definition set_receipt_settings (db : History) (conversation_id : bytes) (delivery read : bool) : History :=
  set_conversations (update_rows (fun c => c.(cv_id) = conversation_id)
    (fun c => cv_with_send_read read (cv_with_send_delivery delivery c)) db.(h_conversations)) db.

(** ** Messages *)

Abbreviation in_conv conv id := (fun m => ms_key m = (conv, id)).

Section store.
Context `{P : Primitives}.

Definition MESSAGE_AAD : bytes := str "pq-suite v3 history message".

(** src/client/history_store.cpp 413-429 add_message *)
Definition add_message (nonce : bytes) (db : History) (m : Message) : exc (bool * History) :=
  let conv := m.(Msg_conversation_id) in
  let id := m.(Msg_message_id) in
  if exists_row (in_conv conv id) db.(h_messages) then Ret (false, db) else
  let! sealed := hs_seal nonce db.(h_key) m.(Msg_record) (aad_of MESSAGE_AAD conv id) in
  let! row := next_rowid db.(h_messages_seq) in
  if negb (references cv_id conv db.(h_conversations)) then Throw "database: step" else
  match insert_row ms_key (mkMessageRow row conv id m.(Msg_outgoing) m.(Msg_sent_at) m.(Msg_received_at) m.(Msg_status)
                             m.(Msg_gap) m.(Msg_entry_hash) sealed) db.(h_messages) with
  | None => Throw "database: step"
  | Some t =>
      let latest := Z.max m.(Msg_sent_at) m.(Msg_received_at) in
      Ret (true,
        set_conversations (update_rows (fun c => c.(cv_id) = conv)
          (fun c => cv_with_last_activity (Z.max c.(cv_last_activity) latest) c) db.(h_conversations))
        (set_messages_seq row (set_messages t db)))
  end.

(** src/client/history_store.cpp 432-452 read_message *)
Definition read_message (db : History) (r : MessageRow) : option Message :=
  let out deleted record :=
    mkMessage r.(ms_row) r.(ms_conv_id) r.(ms_msg_id) r.(ms_outgoing) r.(ms_sent_at) r.(ms_received_at) r.(ms_status)
      r.(ms_gap) r.(ms_entry_hash) record deleted in
  if is_empty r.(ms_sealed) then Some (out true []) else
  let? plain := hs_unseal db.(h_key) r.(ms_sealed) (aad_of MESSAGE_AAD r.(ms_conv_id) r.(ms_msg_id)) in
  Some (out false plain).

(** src/client/history_store.cpp 454-467 messages *)
Definition hs_messages (db : History) (conversation_id : bytes) (limit : Z) : list Message :=
  reverse (omap (read_message db)
    (sql_limit limit (sort_by (desc ms_row) (filter (fun m => m.(ms_conv_id) = conversation_id) db.(h_messages))))).

(** src/client/history_store.cpp 469-479 find_message *)
Definition find_message (db : History) (conversation_id message_id : bytes) : option Message :=
  let? row := select_first (in_conv conversation_id message_id) db.(h_messages) in
  read_message db row.

(** src/client/history_store.cpp 848-858 first_message *)
Definition first_message (db : History) (conversation_id : bytes) : option Message :=
  let? row := head (sort_by (asc ms_row) (filter (fun m => m.(ms_conv_id) = conversation_id) db.(h_messages))) in
  read_message db row.
End store.

(** [UPDATE messages SET status = ? WHERE ... outgoing = 1 AND status < ?]. *)
Definition below (conv id : bytes) (status : Z) (m : MessageRow) : Prop :=
  ms_key m = (conv, id) /\ m.(ms_outgoing) = true /\ m.(ms_status) < status.
#[export] Instance below_dec conv id status m : Decision (below conv id status m).
Proof. unfold below. apply _. Defined.

(** src/client/history_store.cpp 481-487 raise_status *)
Definition raise_status (db : History) (conversation_id message_id : bytes) (status : Z) : bool * History :=
  let Q := below conversation_id message_id status in
  (0 <? count_rows Q db.(h_messages), set_messages (update_rows Q (ms_with_status status) db.(h_messages)) db).

(** src/client/history_store.cpp 489-494 has_entry *)
Definition has_entry (db : History) (conversation_id entry_hash : bytes) : bool :=
  exists_row (fun m => m.(ms_conv_id) = conversation_id /\ m.(ms_entry_hash) = entry_hash) db.(h_messages).

(** src/client/history_store.cpp 496-502 last_entry_hash *)
Definition last_entry_hash (db : History) (conversation_id : bytes) (outgoing : bool) : option bytes :=
  ms_entry_hash <$> head (sort_by (desc ms_row)
    (filter (fun m => m.(ms_conv_id) = conversation_id /\ m.(ms_outgoing) = outgoing) db.(h_messages))).

Definition unread (conv : bytes) (m : MessageRow) : Prop :=
  m.(ms_conv_id) = conv /\ m.(ms_outgoing) = false /\ m.(ms_status) = 0.
#[export] Instance unread_dec conv m : Decision (unread conv m).
Proof. unfold unread. apply _. Defined.

(** src/client/history_store.cpp 504-509 unread_count *)
Definition unread_count (db : History) (conversation_id : bytes) : Z :=
  count_rows (unread conversation_id) db.(h_messages).

(** src/client/history_store.cpp 511-523 mark_all_read *)
Definition mark_all_read (db : History) (conversation_id : bytes) : list bytes * History :=
  (map ms_msg_id (sort_by (asc ms_row) (filter (unread conversation_id) db.(h_messages))),
   set_messages (update_rows (unread conversation_id) (ms_with_status 1) db.(h_messages)) db).

(** The state of one member for a message: [COALESCE(d.status, 0)] of the outer join.
    src/client/history_store.cpp 545-547 raise_delivery *)
Definition delivery_of (db : History) (conv id fp : bytes) : Z :=
  match select_first (fun d => dl_key d = (conv, id, fp)) db.(h_deliveries) with
  | Some d => d.(dl_status)
  | None => 0
  end.

(** [MIN(...)] over the members; zero when there are none.
    src/client/history_store.cpp 543-550 raise_delivery *)
Definition lowest_delivery (db : History) (conv id : bytes) : Z :=
  match map (fun m => delivery_of db conv id m.(mem_fp))
          (filter (fun m => m.(mem_conv_id) = conv) db.(h_conversation_members)) with
  | [] => 0
  | s :: l => foldr Z.min s l
  end.

(** src/client/history_store.cpp 525-556 raise_delivery *)
Definition raise_delivery (db : History) (conversation_id message_id member_fp : bytes) (status : Z) : bool * History :=
  if negb (exists_row (fun m => ms_key m = (conversation_id, message_id) /\ m.(ms_outgoing) = true) db.(h_messages))
  then (false, db) else
  if negb (exists_row (fun m => mem_key m = (conversation_id, member_fp)) db.(h_conversation_members))
  then (false, db) else
  let row := mkDeliveryRow conversation_id message_id member_fp status in
  let '(changed, db) :=
    match select_first (fun d => dl_key d = dl_key row) db.(h_deliveries) with
    | None => (true, set_deliveries (db.(h_deliveries) ++ [row]) db)
    | Some d =>
        if d.(dl_status) <? status
        then (true, set_deliveries (update_rows (fun d => dl_key d = dl_key row) (dl_with_status status) db.(h_deliveries)) db)
        else (false, db)
    end in
  let lowest := lowest_delivery db conversation_id message_id in
  let '(raised, db) := raise_status db conversation_id message_id lowest in
  (changed || raised, db).

(** src/client/history_store.cpp 558-572 deliveries *)
Definition hs_deliveries (db : History) (conversation_id message_id : bytes) : list (bytes * Z) :=
  map (fun m => (m.(mem_fp), delivery_of db conversation_id message_id m.(mem_fp)))
    (sort_by (asc_then mem_idx mem_fp)
      (filter (fun m => m.(mem_conv_id) = conversation_id) db.(h_conversation_members))).

(** src/client/history_store.cpp 574-580 conversation_of_outgoing *)
Definition conversation_of_outgoing (db : History) (message_id : bytes) : option bytes :=
  ms_conv_id <$> select_first (fun m => m.(ms_msg_id) = message_id /\ m.(ms_outgoing) = true) db.(h_messages).

(** src/client/history_store.cpp 1108-1112 erase_message *)
Definition erase_message (db : History) (conversation_id message_id : bytes) : bool * History :=
  let Q := fun m => ms_key m = (conversation_id, message_id) /\ is_empty m.(ms_sealed) = false in
  (0 <? count_rows Q db.(h_messages), set_messages (update_rows Q (ms_with_sealed []) db.(h_messages)) db).

(** src/client/history_store.cpp 1114-1120 erase_conversation_messages *)
Definition erase_conversation_messages (db : History) (conversation_id : bytes) : History :=
  set_deliveries (delete_rows (fun d => d.(dl_conv_id) = conversation_id) db.(h_deliveries))
    (set_messages (delete_rows (fun m => m.(ms_conv_id) = conversation_id) db.(h_messages)) db).
