(* ===== verification/HistoryRecords.v ===== *)
(** * The rest of the message history: client/history_store.cpp from line 582

    Pending group invitations, introduced members, chat archives, attachments,
    deletions, verified people, member tokens, the outbox, message requests and
    issued tokens, in the style of [HistoryStore]. *)

From Stdlib Require Import ZArith Lia.
From stdpp Require Import base list strings.
From S2P Require Import Prelude Wire RelayProtocol RelayProtocolSpec Crypto Envelope Sql HistoryTables HistoryStore.
#[local] Open Scope Z_scope.
#[local] Open Scope wire_scope.

(** Whether [INSERT OR IGNORE] adds the row: [sqlite3_changes(db_) > 0]. *)
Definition added {A K} `{!EqDecision K} (key : A -> K) (x : A) (t : list A) : bool :=
  negb (bool_decide (key x ∈ map key t)).

Section records.
Context `{P : Primitives}.

(** ** Pending group invitations *)

(** src/client/history_store.cpp 584-584 GROUP_INVITE_AAD *)
Definition GROUP_INVITE_AAD : bytes := str "pq-suite v3 history group invite".

(** src/client/history_store.h 128-133 GroupInvite *)
Record GroupInvite := mkGroupInvite {
  Invite_conversation_id : bytes;
  Invite_creator_fp : bytes;
  Invite_received_at : Z;
  Invite_records : list bytes;
}.

(** src/client/history_store.cpp 586-596 open_invite *)
Definition open_invite (db : History) (r : InviteRow) : option GroupInvite :=
  let? plain := hs_unseal db.(h_key) r.(gi_sealed) (aad_of GROUP_INVITE_AAD r.(gi_conv_id) []) in
  let? records := unpack plain in
  match records with
  | [] => None
  | _ => Some (mkGroupInvite r.(gi_conv_id) r.(gi_creator_fp) r.(gi_received_at) records)
  end.

(** src/client/history_store.cpp 598-604 add_group_invite *)
Definition add_group_invite (nonce : bytes) (db : History) (conversation_id creator_fp creation_record : bytes) (now : Z)
    : exc (bool * History) :=
  let! sealed := hs_seal nonce db.(h_key) (pack [creation_record]) (aad_of GROUP_INVITE_AAD conversation_id []) in
  let row := mkInviteRow conversation_id creator_fp now sealed in
  Ret (added gi_conv_id row db.(h_group_invites), set_group_invites (insert_or_ignore gi_conv_id row db.(h_group_invites)) db).

(** src/client/history_store.cpp 606-612 group_invite *)
Definition group_invite (db : History) (conversation_id : bytes) : option GroupInvite :=
  let? row := select_first (fun r => r.(gi_conv_id) = conversation_id) db.(h_group_invites) in
  open_invite db row.

(** src/client/history_store.cpp 614-621 group_invites *)
Definition hs_group_invites (db : History) : list GroupInvite :=
  omap (open_invite db) (sort_by (asc gi_received_at) db.(h_group_invites)).

(** src/client/history_store.cpp 623-627 group_invite_count *)
Definition group_invite_count (db : History) : Z := size db.(h_group_invites).

(** src/client/history_store.cpp 629-649 hold_for_invite *)
Definition hold_for_invite (nonce : bytes) (db : History) (conversation_id record : bytes) : exc (bool * History) :=
  match select_first (fun r => r.(gi_conv_id) = conversation_id) db.(h_group_invites) with
  | None => Ret (false, db)
  | Some row =>
      match (let? plain := hs_unseal db.(h_key) row.(gi_sealed) (aad_of GROUP_INVITE_AAD conversation_id []) in unpack plain) with
      | None | Some [] => Ret (false, db)
      | Some records =>
          if bool_decide (record ∈ records) then Ret (true, db) else
          if 1 + MAX_HELD_RECORDS <=? size records then Ret (false, db) else
          let! sealed := hs_seal nonce db.(h_key) (pack (records ++ [record])) (aad_of GROUP_INVITE_AAD conversation_id []) in
          Ret (true, set_group_invites
            (update_rows (fun r => r.(gi_conv_id) = conversation_id) (gi_with_sealed sealed) db.(h_group_invites)) db)
      end
  end.

(** src/client/history_store.cpp 651-654 delete_group_invite *)
Definition delete_group_invite (db : History) (conversation_id : bytes) : History :=
  set_group_invites (delete_rows (fun r => r.(gi_conv_id) = conversation_id) db.(h_group_invites)) db.

(** ** Introduced members *)

(** src/client/history_store.cpp 658-664 save_introduced *)
Definition save_introduced (db : History) (fp bundle : bytes) (issued_at : Z) (introduced_by : bytes) (now : Z) : History :=
  let row := mkIntroducedRow fp bundle issued_at introduced_by now in
  set_introduced_members (upsert_row im_fp row
    (fun r => if r.(im_issued_at) <? issued_at then im_with_issued_at issued_at (im_with_bundle bundle r) else r)
    db.(h_introduced_members)) db.

(** The row is what is returned.
    src/client/history_store.cpp 666-682 introduced *)
Definition introduced (db : History) (fp : bytes) : option IntroducedRow :=
  select_first (fun r => r.(im_fp) = fp) db.(h_introduced_members).

(** src/client/history_store.cpp 684-690 introduced_members *)
Definition introduced_members (db : History) : list IntroducedRow :=
  sort_by (asc_then im_first_seen im_fp) db.(h_introduced_members).

(** src/client/history_store.cpp 692-703 delete_introduced_except *)
Definition delete_introduced_except (db : History) (keep : list bytes) : History :=
  let doomed := filter (fun fp => fp ∉ keep) (map im_fp db.(h_introduced_members)) in
  set_introduced_members
    (foldl (fun t fp => delete_rows (fun r => r.(im_fp) = fp) t) db.(h_introduced_members) doomed) db.

(** ** Chat archives *)

(** src/client/history_store.cpp 707-709 archive_secret_aad *)
Definition archive_secret_aad (conversation_id : bytes) (what : string) : bytes :=
  aad_of (str "pq-suite v3 history archive secret") conversation_id (str what).

(** src/client/history_store.h 164-164 ArchiveState *)
Definition ArchiveGranted : Z := 0.
Definition ArchiveJoined : Z := 1.
Definition ArchiveFailed : Z := 2.

(** src/client/history_store.h 165-182 Archive *)
Record HArchive := mkHArchive {
  HA_conversation_id : bytes;
  HA_relay_address : bytes;
  HA_relay_id : bytes;
  HA_role : Z;
  HA_state : Z;
  HA_archive_key : bytes;
  HA_chat_public_key : bytes;
  HA_chat_private_key : bytes;
  HA_join_token : bytes;
  HA_head_number : Z;
  HA_head_hash : bytes;
  HA_created_at : Z;
  HA_note : bytes;
  HA_checkpoint_at : Z;
  HA_activity : Z;
  HA_checkpoint_seen : Z;
  HA_warning : bytes;
}.

(** The three nonces are those of the key, the chat key and the join token.
    src/client/history_store.cpp 711-722 add_archive *)
Definition hs_add_archive (n1 n2 n3 : bytes) (db : History) (a : HArchive) : exc (bool * History) :=
  let conv := a.(HA_conversation_id) in
  let! key := hs_seal n1 db.(h_key) a.(HA_archive_key) (archive_secret_aad conv "key") in
  let! chat := hs_seal n2 db.(h_key) a.(HA_chat_private_key) (archive_secret_aad conv "chat") in
  let! token := if is_empty a.(HA_join_token) then Ret []
                else hs_seal n3 db.(h_key) a.(HA_join_token) (archive_secret_aad conv "token") in
  let row := mkHArchiveRow conv a.(HA_relay_address) a.(HA_relay_id) a.(HA_role) a.(HA_state) key a.(HA_chat_public_key)
               chat token (i64 a.(HA_head_number)) a.(HA_head_hash) a.(HA_created_at) a.(HA_note) 0 0 0 [] in
  Ret (added ha_conv_id row db.(h_archives), set_archives (insert_or_ignore ha_conv_id row db.(h_archives)) db).

(** src/client/history_store.cpp 724-752 read_archive *)
Definition read_archive (db : History) (r : HArchiveRow) : option HArchive :=
  let conv := r.(ha_conv_id) in
  let? key := hs_unseal db.(h_key) r.(ha_archive_key) (archive_secret_aad conv "key") in
  let? priv := hs_unseal db.(h_key) r.(ha_chat_private) (archive_secret_aad conv "chat") in
  let? token := if is_empty r.(ha_join_token) then Some []
                else hs_unseal db.(h_key) r.(ha_join_token) (archive_secret_aad conv "token") in
  Some (mkHArchive conv r.(ha_relay_address) r.(ha_relay_id) r.(ha_role) r.(ha_state) key r.(ha_chat_public) priv token
    (u64 r.(ha_head_number)) r.(ha_head_hash) r.(ha_created_at) r.(ha_note) r.(ha_checkpoint_at) (u64 r.(ha_activity))
    (u64 r.(ha_checkpoint_seen)) r.(ha_warning)).

(** src/client/history_store.cpp 758-764 archive *)
Definition hs_archive (db : History) (conversation_id : bytes) : option HArchive :=
  let? row := select_first (fun r => r.(ha_conv_id) = conversation_id) db.(h_archives) in
  read_archive db row.

(** src/client/history_store.cpp 766-773 archives *)
Definition hs_archives (db : History) : list HArchive :=
  omap (read_archive db) (sort_by (asc ha_created_at) db.(h_archives)).

(** src/client/history_store.cpp 775-783 archives_in_state *)
Definition archives_in_state (db : History) (state : Z) : list HArchive :=
  omap (read_archive db) (sort_by (asc ha_created_at) (filter (fun r => r.(ha_state) = state) db.(h_archives))).

(** src/client/history_store.cpp 795-802 archive_ids *)
Definition archive_ids (db : History) (state : Z) : list bytes :=
  map ha_conv_id (sort_by (asc ha_created_at) (filter (fun r => r.(ha_state) = state) db.(h_archives))).

(** src/client/history_store.cpp 804-809 has_archive *)
Definition has_archive (db : History) (conversation_id : bytes) : bool :=
  exists_row (fun r => r.(ha_conv_id) = conversation_id) db.(h_archives).

(** [UPDATE archives SET f WHERE conv_id = ? AND P]. *)
Definition update_archive (db : History) (conv : bytes) (Q : HArchiveRow -> bool) (f : HArchiveRow -> HArchiveRow) : History :=
  set_archives (update_rows (fun r => r.(ha_conv_id) = conv /\ Q r = true) f db.(h_archives)) db.

(** src/client/history_store.cpp 785-788 set_archive_joined *)
Definition set_archive_joined (db : History) (conversation_id : bytes) : History :=
  update_archive db conversation_id (fun _ => true)
    (fun r => ha_with_note [] (ha_with_join_token [] (ha_with_state ArchiveJoined r))).

(** src/client/history_store.cpp 790-793 set_archive_failed *)
Definition set_archive_failed (db : History) (conversation_id note : bytes) : History :=
  update_archive db conversation_id (fun _ => true)
    (fun r => ha_with_note note (ha_with_join_token [] (ha_with_state ArchiveFailed r))).

(** A sum past 63 bits, which SQLite turns into a floating-point number, is not
    modelled.
    src/client/history_store.cpp 811-814 add_archive_activity *)
Definition add_archive_activity (db : History) (conversation_id : bytes) (entries : Z) : History :=
  update_archive db conversation_id (fun _ => true) (fun r => ha_with_activity (r.(ha_activity) + i64 entries) r).

(** src/client/history_store.cpp 816-819 note_checkpoint_posted *)
Definition note_checkpoint_posted (db : History) (conversation_id : bytes) (now : Z) : History :=
  update_archive db conversation_id (fun _ => true) (fun r => ha_with_checkpoint_at now (ha_with_activity 0 r)).

(** src/client/history_store.cpp 821-825 note_checkpoint_seen *)
Definition note_checkpoint_seen (db : History) (conversation_id : bytes) (number : Z) : History :=
  update_archive db conversation_id (fun r => r.(ha_checkpoint_seen) <? i64 number) (ha_with_checkpoint_seen (i64 number)).

(** src/client/history_store.cpp 827-830 set_archive_warning *)
Definition set_archive_warning (db : History) (conversation_id warning : bytes) : History :=
  update_archive db conversation_id (fun _ => true) (ha_with_warning warning).

(** src/client/history_store.cpp 860-864 set_archive_head *)
Definition set_archive_head (db : History) (conversation_id : bytes) (number : Z) (hash : bytes) : History :=
  update_archive db conversation_id (fun r => r.(ha_head_number) <? i64 number)
    (fun r => ha_with_head_hash hash (ha_with_head_number (i64 number) r)).

(** src/client/history_store.cpp 832-838 save_archive_hashes *)
Definition save_archive_hashes (db : History) (conversation_id : bytes) (hashes : list (Z * bytes)) : History :=
  set_archive_chain
    (foldl (fun t '(number, hash) => insert_or_ignore ac_key (mkArchiveChainRow conversation_id (i64 number) hash) t)
       db.(h_archive_chain) hashes) db.

(** src/client/history_store.cpp 840-846 archive_hash *)
Definition archive_hash (db : History) (conversation_id : bytes) (number : Z) : option bytes :=
  ac_hash <$> select_first (fun r => ac_key r = (conversation_id, i64 number)) db.(h_archive_chain).

(** ** Prekeys *)

(** src/client/history_store.cpp 868-871 note_peer_prekeys *)
Definition note_peer_prekeys (db : History) (fingerprint : bytes) (now : Z) : History :=
  set_peer_prekeys (insert_or_ignore pp_fp (mkPeerPrekeyRow fingerprint now) db.(h_peer_prekeys)) db.

(** src/client/history_store.cpp 873-878 peer_had_prekeys *)
Definition peer_had_prekeys (db : History) (fingerprint : bytes) : bool :=
  exists_row (fun r => r.(pp_fp) = fingerprint) db.(h_peer_prekeys).
End records.
