(* ===== verification/HistoryQueues.v ===== *)
(** * Attachments, deletions, tokens and queues of the message history

    The rest of client/history_store.cpp: what the device knows of attachments
    and deletions by agreement, verified people, member tokens, the outbox,
    message requests, issued tokens and first-contact state. *)

From Stdlib Require Import ZArith Lia.
From stdpp Require Import base list strings.
From S2P Require Import Prelude Wire RelayProtocol RelayProtocolSpec Crypto Envelope Sql HistoryTables HistoryStore HistoryRecords.
#[local] Open Scope Z_scope.
#[local] Open Scope wire_scope.

(** ** Attachments *)

(** src/client/history_store.h 211-220 AttachmentState *)
Definition AttachUploading : Z := 0.
Definition AttachAvailable : Z := 1.
Definition AttachTransferred : Z := 2.
Definition AttachExpired : Z := 3.
Definition AttachWithdrawn : Z := 4.
Definition AttachUnavailable : Z := 5.
Definition AttachFailed : Z := 6.
Definition AttachDownloading : Z := 7.

(** src/client/history_store.h 221-241 Attachment *)
Record Attachment := mkAttachment {
  Att_file_id : bytes;
  Att_conversation_id : bytes;
  Att_message_id : bytes;
  Att_outgoing : bool;
  Att_name : bytes;
  Att_size : Z;
  Att_sha256 : bytes;
  Att_expires_at : Z;
  Att_relay_address : bytes;
  Att_relay_id : bytes;
  Att_state : Z;
  Att_key : bytes;
  Att_token : bytes;
  Att_recipient_tokens : list (bytes * bytes);
  Att_path : bytes;
  Att_note : bytes;
  Att_recipients : Z;
  Att_redeemed : Z;
  Att_created_at : Z;
}.

(** src/client/history_store.cpp 882-882 attachment_secrets_aad *)
Definition attachment_secrets_aad (file_id : bytes) : bytes := aad_of (str "pq-suite v3 history attachment secrets") file_id [].

(** src/client/history_store.cpp 888-894 add_attachment *)
Definition attachment_secrets (key token : bytes) (tokens : list (bytes * bytes)) : bytes :=
  let secrets := write_blob [] key in
  let secrets := write_blob secrets token in
  let secrets := write_u32 secrets (u32 (size tokens)) in
  foldl (fun secrets '(fp, token) => write_blob (write_string secrets fp) token) secrets tokens.

(** The loop stops at the first token that cannot be read.
    src/client/history_store.cpp 931-936 read_attachment *)
Fixpoint read_tokens (n : nat) (data : bytes) (off : Z) : list (bytes * bytes) :=
  match n with
  | O => []
  | S n =>
      let '(fp, off) := read_string data off 128 in
      let '(t, off) := read_blob data off 64 in
      match fp, t with
      | Some fp, Some t => (fp, t) :: read_tokens n data off
      | _, _ => []
      end
  end.

(** src/client/history_store.cpp 924-937 read_attachment *)
Definition read_secrets (plain : bytes) : option (bytes * bytes * list (bytes * bytes)) :=
  let '(key, off) := read_blob plain 0 64 in
  let '(token, off) := read_blob plain off 64 in
  let '(n, off) := read_u32 plain off in
  let? key := key in
  let? token := token in
  let? n := n in
  Some (key, token, read_tokens (Z.to_nat (Z.min n 64)) plain off).

Section queues.
Context `{P : Primitives}.

(** src/client/history_store.cpp 884-903 add_attachment *)
Definition add_attachment (nonce : bytes) (db : History) (a : Attachment) : exc (bool * History) :=
  let! secrets :=
    if negb (is_empty a.(Att_key)) || negb (is_empty a.(Att_token)) || negb (size a.(Att_recipient_tokens) =? 0)
    then hs_seal nonce db.(h_key) (attachment_secrets a.(Att_key) a.(Att_token) a.(Att_recipient_tokens))
           (attachment_secrets_aad a.(Att_file_id))
    else Ret [] in
  let row := mkAttachmentRow a.(Att_file_id) a.(Att_conversation_id) a.(Att_message_id) a.(Att_outgoing) a.(Att_name)
               (i64 a.(Att_size)) a.(Att_sha256) a.(Att_expires_at) a.(Att_relay_address) a.(Att_relay_id) a.(Att_state)
               secrets a.(Att_path) a.(Att_note) a.(Att_recipients) a.(Att_redeemed) a.(Att_created_at) in
  Ret (added at_file_id row db.(h_attachments), set_attachments (insert_or_ignore at_file_id row db.(h_attachments)) db).

(** src/client/history_store.cpp 908-946 read_attachment *)
Definition read_attachment (db : History) (r : AttachmentRow) : Attachment :=
  let '(key, token, tokens) :=
    default ([], [], [])
      (if is_empty r.(at_secrets) then None else
       let? plain := hs_unseal db.(h_key) r.(at_secrets) (attachment_secrets_aad r.(at_file_id)) in
       read_secrets plain) in
  mkAttachment r.(at_file_id) r.(at_conv_id) r.(at_message_id) r.(at_outgoing) r.(at_name) (u64 r.(at_size)) r.(at_sha256)
    r.(at_expires_at) r.(at_relay_address) r.(at_relay_id) r.(at_state) key token tokens r.(at_path) r.(at_note)
    (u32 r.(at_recipients)) (u32 r.(at_redeemed)) r.(at_created_at).

(** src/client/history_store.cpp 948-954 attachment *)
Definition hs_attachment (db : History) (file_id : bytes) : option Attachment :=
  read_attachment db <$> select_first (fun r => r.(at_file_id) = file_id) db.(h_attachments).

(** src/client/history_store.cpp 956-963 attachments_in_state *)
Definition attachments_in_state (db : History) (state : Z) : list Attachment :=
  map (read_attachment db) (sort_by (asc at_created_at) (filter (fun r => r.(at_state) = state) db.(h_attachments))).

(** [UPDATE attachments SET f WHERE file_id = ?]. *)
Definition update_attachment (db : History) (file_id : bytes) (f : AttachmentRow -> AttachmentRow) : History :=
  set_attachments (update_rows (fun r => r.(at_file_id) = file_id) f db.(h_attachments)) db.

(** src/client/history_store.cpp 965-968 set_attachment_state *)
Definition set_attachment_state (db : History) (file_id : bytes) (state : Z) (note : bytes) : History :=
  update_attachment db file_id (fun r => at_with_note note (at_with_state state r)).

(** src/client/history_store.cpp 970-973 set_attachment_path *)
Definition set_attachment_path (db : History) (file_id path : bytes) : History :=
  update_attachment db file_id (at_with_path path).

(** src/client/history_store.cpp 975-978 set_attachment_redeemed *)
Definition set_attachment_redeemed (db : History) (file_id : bytes) (redeemed : Z) : History :=
  update_attachment db file_id (at_with_redeemed redeemed).

(** src/client/history_store.cpp 980-988 grant_attachment *)
Definition grant_attachment (nonce : bytes) (db : History) (file_id key token : bytes) (state : Z) (note : bytes) : exc History :=
  let! sealed := hs_seal nonce db.(h_key) (attachment_secrets key token []) (attachment_secrets_aad file_id) in
  Ret (set_attachments
    (update_rows (fun r => r.(at_file_id) = file_id /\ r.(at_outgoing) = false /\ is_empty r.(at_secrets) = true)
       (fun r => at_with_note note (at_with_state state (at_with_secrets sealed r))) db.(h_attachments)) db).

(** src/client/history_store.cpp 990-993 drop_attachment_secrets *)
Definition drop_attachment_secrets (db : History) (file_id : bytes) : History :=
  update_attachment db file_id (at_with_secrets []).

(** src/client/history_store.cpp 995-998 reset_downloading *)
Definition reset_downloading (db : History) : History :=
  set_attachments (update_rows (fun r => r.(at_state) = AttachDownloading) (at_with_state AttachAvailable) db.(h_attachments)) db.

(** ** Deleting by agreement *)

(** src/client/history_store.h 254-254 DeletionState *)
Definition DeletionPending : Z := 0.
Definition DeletionAccepted : Z := 1.
Definition DeletionDeclined : Z := 2.
Definition DeletionDone : Z := 3.
Definition DeletionExpired : Z := 4.

(** src/client/history_store.h 255-264 Deletion *)
Record Deletion := mkDeletion {
  Del_op_id : bytes;
  Del_conversation_id : bytes;
  Del_scope : Z;
  Del_expires_at : Z;
  Del_requester_fp : bytes;
  Del_entries : list bytes;
  Del_state : Z;
  Del_created_at : Z;
}.

(** src/client/history_store.cpp 1002-1010 add_deletion *)
Definition hs_add_deletion (db : History) (d : Deletion) : bool * History :=
  let row := mkDeletionRow d.(Del_op_id) d.(Del_conversation_id) d.(Del_scope) d.(Del_expires_at) d.(Del_requester_fp)
               (pack d.(Del_entries)) d.(Del_state) d.(Del_created_at) in
  (added dn_op_id row db.(h_deletions), set_deletions (insert_or_ignore dn_op_id row db.(h_deletions)) db).

(** The loop goes on past an entry that cannot be read.
    src/client/history_store.cpp 1019-1023 read_deletion *)
Fixpoint read_entries (n : nat) (data : bytes) (off : Z) : list bytes :=
  match n with
  | O => []
  | S n =>
      let '(h, off) := read_blob data off 64 in
      match h with Some h => h :: read_entries n data off | None => read_entries n data off end
  end.

(** src/client/history_store.cpp 1012-1027 read_deletion *)
Definition read_deletion (r : DeletionRow) : Deletion :=
  let '(n, off) := read_u32 r.(dn_entries) 0 in
  let entries := match n with Some n => read_entries (Z.to_nat n) r.(dn_entries) off | None => [] end in
  mkDeletion r.(dn_op_id) r.(dn_conv_id) r.(dn_scope) r.(dn_expires_at) r.(dn_requester_fp) entries r.(dn_state) r.(dn_created_at).

(** src/client/history_store.cpp 1031-1037 deletion *)
Definition hs_deletion (db : History) (op_id : bytes) : option Deletion :=
  read_deletion <$> select_first (fun r => r.(dn_op_id) = op_id) db.(h_deletions).

(** [ORDER BY created_at DESC, rowid DESC].
    src/client/history_store.cpp 1039-1045 deletions *)
Definition hs_deletions (db : History) : list Deletion :=
  map read_deletion (reverse (sort_by (asc dn_created_at) db.(h_deletions))).

(** src/client/history_store.cpp 1047-1050 set_deletion_state *)
Definition set_deletion_state (db : History) (op_id : bytes) (state : Z) : History :=
  set_deletions (update_rows (fun r => r.(dn_op_id) = op_id) (dn_with_state state) db.(h_deletions)) db.

(** src/client/history_store.cpp 1052-1055 add_deletion_accept *)
Definition add_deletion_accept (db : History) (op_id key_hash signature member_fp : bytes) : History :=
  set_deletion_accepts
    (insert_or_ignore da_key (mkDeletionAcceptRow op_id key_hash signature member_fp) db.(h_deletion_accepts)) db.

(** src/client/history_store.cpp 1057-1064 deletion_accepts *)
Definition hs_deletion_accepts (db : History) (op_id : bytes) : list (bytes * bytes * bytes) :=
  map (fun r => (r.(da_key_hash), r.(da_signature), r.(da_member_fp)))
    (filter (fun r => r.(da_op_id) = op_id) db.(h_deletion_accepts)).

(** src/client/history_store.cpp 1066-1069 save_archive_message *)
Definition save_archive_message (db : History) (conversation_id message_id : bytes) (number : Z) : History :=
  set_archive_messages
    (insert_or_ignore am_key (mkArchiveMessageRow conversation_id message_id (i64 number)) db.(h_archive_messages)) db.

(** src/client/history_store.cpp 1071-1077 archive_message_number *)
Definition archive_message_number (db : History) (conversation_id message_id : bytes) : option Z :=
  (fun r => u64 r.(am_number)) <$>
    select_first (fun r => am_key r = (conversation_id, message_id)) db.(h_archive_messages).

(** src/client/history_store.cpp 1079-1086 archive_messages_at *)
Definition archive_messages_at (db : History) (conversation_id : bytes) (number : Z) : list bytes :=
  map am_msg_id (filter (fun r => r.(am_conv_id) = conversation_id /\ r.(am_number) = i64 number) db.(h_archive_messages)).

(** src/client/history_store.cpp 1088-1094 archive_number_of *)
Definition archive_number_of (db : History) (conversation_id entry_hash : bytes) : option Z :=
  (fun r => u64 r.(ac_number)) <$>
    select_first (fun r => r.(ac_conv_id) = conversation_id /\ r.(ac_hash) = entry_hash) db.(h_archive_chain).

(** src/client/history_store.cpp 1096-1099 mark_archive_redacted *)
Definition mark_archive_redacted (db : History) (conversation_id : bytes) (number : Z) : History :=
  set_archive_redacted
    (insert_or_ignore arx_key (mkArchiveRedactedRow conversation_id (i64 number)) db.(h_archive_redacted)) db.

(** src/client/history_store.cpp 1101-1106 archive_redacted *)
Definition hs_archive_redacted (db : History) (conversation_id : bytes) (number : Z) : bool :=
  exists_row (fun r => arx_key r = (conversation_id, i64 number)) db.(h_archive_redacted).

(** src/client/history_store.cpp 1122-1129 remove_archive *)
Definition hs_remove_archive (db : History) (conversation_id : bytes) : History :=
  set_archive_redacted (delete_rows (fun r => r.(arx_conv_id) = conversation_id) db.(h_archive_redacted))
  (set_archive_messages (delete_rows (fun r => r.(am_conv_id) = conversation_id) db.(h_archive_messages))
  (set_archive_chain (delete_rows (fun r => r.(ac_conv_id) = conversation_id) db.(h_archive_chain))
  (set_archives (delete_rows (fun r => r.(ha_conv_id) = conversation_id) db.(h_archives)) db))).

(** ** Verified people *)

(** src/client/history_store.cpp 1133-1137 set_verified *)
Definition set_verified (db : History) (fp : bytes) (verified : bool) (now : Z) : History :=
  if verified then set_verified_people (insert_or_ignore vp_fp (mkVerifiedRow fp now) db.(h_verified_people)) db
  else set_verified_people (delete_rows (fun r => r.(vp_fp) = fp) db.(h_verified_people)) db.

(** src/client/history_store.cpp 1139-1144 is_verified *)
Definition is_verified (db : History) (fp : bytes) : bool :=
  exists_row (fun r => r.(vp_fp) = fp) db.(h_verified_people).

(** src/client/history_store.cpp 1146-1152 verified_people *)
Definition verified_people (db : History) : list bytes :=
  map vp_fp (sort_by (asc_then vp_verified_at vp_fp) db.(h_verified_people)).

(** ** Member tokens *)

(** src/client/history_store.cpp 1156-1158 member_token_aad *)
Definition member_token_aad (conversation_id member_fp : bytes) : bytes :=
  aad_of (str "pq-suite v3 history member token") conversation_id member_fp.

(** src/client/history_store.cpp 1160-1164 save_member_token *)
Definition save_member_token (nonce : bytes) (db : History) (conversation_id member_fp token : bytes) (now : Z) : exc History :=
  let! sealed := hs_seal nonce db.(h_key) token (member_token_aad conversation_id member_fp) in
  Ret (set_member_tokens
    (insert_or_replace mt_key (mkMemberTokenRow conversation_id member_fp sealed now) db.(h_member_tokens)) db).

(** src/client/history_store.cpp 1166-1180 all_member_tokens *)
Definition all_member_tokens (db : History) : list (bytes * bytes * bytes) :=
  omap (fun r => let? token := hs_unseal db.(h_key) r.(mt_sealed) (member_token_aad r.(mt_conv_id) r.(mt_fp)) in
                 Some (r.(mt_conv_id), r.(mt_fp), token))
    (sort_by (fun a b => bytes_ltb a.(mt_conv_id) b.(mt_conv_id)
                         || (bool_decide (a.(mt_conv_id) = b.(mt_conv_id)) && bytes_leb a.(mt_fp) b.(mt_fp)))
       db.(h_member_tokens)).

(** src/client/history_store.cpp 1182-1188 member_token *)
Definition member_token (db : History) (conversation_id member_fp : bytes) : option bytes :=
  let? row := select_first (fun r => mt_key r = (conversation_id, member_fp)) db.(h_member_tokens) in
  hs_unseal db.(h_key) row.(mt_sealed) (member_token_aad conversation_id member_fp).

(** ** Outbox *)

Definition outbox_aad (message_id : bytes) (kind : Z) : bytes :=
  aad_of (str "pq-suite v3 history outbox") message_id [byte_of_Z kind].

(** src/client/history_store.h 313-321 OutboxItem *)
Record OutboxItem := mkOutboxItem {
  Item_id : Z;
  Item_contact_fp : bytes;
  Item_kind : Z;
  Item_message_id : bytes;
  Item_records : list bytes;
  Item_due_at : Z;
  Item_attempts : Z;
}.

(** src/client/history_store.cpp 1192-1199 enqueue *)
Definition hs_enqueue (nonce : bytes) (db : History) (contact_fp : bytes) (kind : Z) (message_id : bytes)
    (records : list bytes) (due_at now : Z) : exc (Z * History) :=
  let! sealed := hs_seal nonce db.(h_key) (pack records) (outbox_aad message_id kind) in
  let! id := next_rowid db.(h_outbox_seq) in
  Ret (id, set_outbox_seq id (set_outbox (db.(h_outbox) ++ [mkOutboxRow id contact_fp kind message_id sealed due_at 0 now]) db)).

(** src/client/history_store.cpp 1207-1218 due_items *)
Definition read_item (db : History) (r : OutboxRow) : option OutboxItem :=
  let? plain := hs_unseal db.(h_key) r.(ob_sealed) (outbox_aad r.(ob_msg_id) r.(ob_kind)) in
  let? records := unpack plain in
  Some (mkOutboxItem r.(ob_id) r.(ob_contact_fp) r.(ob_kind) r.(ob_msg_id) records r.(ob_due_at) r.(ob_attempts)).

(** src/client/history_store.cpp 1201-1221 due_items *)
Definition due_items (db : History) (now limit : Z) : list OutboxItem :=
  omap (read_item db) (sql_limit limit (sort_by (asc ob_id) (filter (fun r => r.(ob_due_at) <= now) db.(h_outbox)))).

(** src/client/history_store.cpp 1223-1236 update_outbox_records *)
Definition update_outbox_records (nonce : bytes) (db : History) (id : Z) (records : list bytes) : exc History :=
  match select_first (fun r => r.(ob_id) = id) db.(h_outbox) with
  | None => Ret db
  | Some row =>
      let! sealed := hs_seal nonce db.(h_key) (pack records) (outbox_aad row.(ob_msg_id) row.(ob_kind)) in
      Ret (set_outbox (update_rows (fun r => r.(ob_id) = id) (ob_with_sealed sealed) db.(h_outbox)) db)
  end.

(** src/client/history_store.cpp 1238-1241 outbox_failed *)
Definition outbox_failed (db : History) (id next_due : Z) : History :=
  set_outbox (update_rows (fun r => r.(ob_id) = id)
    (fun r => ob_with_due_at next_due (ob_with_attempts (r.(ob_attempts) + 1) r)) db.(h_outbox)) db.

(** src/client/history_store.cpp 1243-1246 outbox_done *)
Definition outbox_done (db : History) (id : Z) : History :=
  set_outbox (delete_rows (fun r => r.(ob_id) = id) db.(h_outbox)) db.

(** src/client/history_store.cpp 1248-1252 outbox_size *)
Definition outbox_size (db : History) : Z := size db.(h_outbox).

(** ** Requests *)

Definition request_aad (sender_fp : bytes) : bytes := aad_of (str "pq-suite v3 history request") sender_fp [].

(** src/client/history_store.h 331-337 Request *)
Record Request := mkRequest {
  Req_id : Z;
  Req_sender_fp : bytes;
  Req_bundle : bytes;
  Req_received_at : Z;
  Req_records : list bytes;
}.

(** src/client/history_store.cpp 1256-1261 add_request *)
Definition add_request (nonce : bytes) (db : History) (sender_fp bundle : bytes) (records : list bytes) (now : Z) : exc History :=
  let! sealed := hs_seal nonce db.(h_key) (pack records) (request_aad sender_fp) in
  let! id := next_rowid db.(h_requests_seq) in
  Ret (set_requests_seq id (set_requests (db.(h_requests) ++ [mkRequestRow id sender_fp bundle now sealed]) db)).

(** src/client/history_store.cpp 1263-1280 requests *)
Definition hs_requests (db : History) : list Request :=
  omap (fun r => let? plain := hs_unseal db.(h_key) r.(rq_sealed) (request_aad r.(rq_sender_fp)) in
                 let? records := unpack plain in
                 Some (mkRequest r.(rq_id) r.(rq_sender_fp) r.(rq_bundle) r.(rq_received_at) records))
    (sort_by (asc rq_id) db.(h_requests)).

(** src/client/history_store.cpp 1282-1286 request_count *)
Definition request_count (db : History) : Z := size db.(h_requests).

(** src/client/history_store.cpp 1288-1291 delete_requests *)
Definition delete_requests (db : History) (sender_fp : bytes) : History :=
  set_requests (delete_rows (fun r => r.(rq_sender_fp) = sender_fp) db.(h_requests)) db.

(** ** Issued tokens and first contact *)

(** src/client/history_store.cpp 1295-1299 add_issued_token *)
Definition add_issued_token (db : History) (hash label bound_fp : bytes) (now : Z) : History :=
  set_issued_tokens (insert_or_replace it_hash (mkIssuedRow hash label now bound_fp false) db.(h_issued_tokens)) db.

(** The row is what is returned.
    src/client/history_store.cpp 1301-1317 find_issued_token *)
Definition find_issued_token (db : History) (hash : bytes) : option IssuedRow :=
  select_first (fun r => r.(it_hash) = hash) db.(h_issued_tokens).

(** src/client/history_store.cpp 1319-1325 issued_tokens *)
Definition issued_tokens (db : History) : list IssuedRow :=
  reverse (sort_by (asc it_created_at) db.(h_issued_tokens)).

(** src/client/history_store.cpp 1327-1330 bind_issued_token *)
Definition bind_issued_token (db : History) (hash fp : bytes) : History :=
  set_issued_tokens (update_rows (fun r => r.(it_hash) = hash /\ r.(it_bound_fp) = []) (it_with_bound_fp fp) db.(h_issued_tokens)) db.

(** src/client/history_store.cpp 1332-1335 mark_token_revoked *)
Definition mark_token_revoked (db : History) (hash : bytes) : History :=
  set_issued_tokens (update_rows (fun r => r.(it_hash) = hash) (it_with_revoked true) db.(h_issued_tokens)) db.

(** src/client/history_store.cpp 1339-1344 bundle_sent *)
Definition hs_bundle_sent (db : History) (contact_fp : bytes) : bool :=
  match select_first (fun r => r.(cs_contact_fp) = contact_fp) db.(h_contact_state) with
  | Some r => r.(cs_bundle_sent)
  | None => false
  end.

(** src/client/history_store.cpp 1346-1350 set_bundle_sent *)
Definition set_bundle_sent (db : History) (contact_fp : bytes) : History :=
  set_contact_state (upsert_row cs_contact_fp (mkContactStateRow contact_fp true) (cs_with_bundle_sent true) db.(h_contact_state)) db.
End queues.
