(* ===== verification/HistoryInv.v ===== *)
(** * The message history as a state machine, and its invariant

    [hist_op] has one constructor per method of [HistoryStore] that changes the
    database, [hist_step] runs it (a method that throws leaves the database as it
    was), and [history_ok] is what the schema promises and the code keeps: keys,
    foreign keys, one direct conversation per contact, and sequence numbers that
    grow. *)

From Stdlib Require Import ZArith Lia Sorted.
From stdpp Require Import base list strings.
From S2P Require Import Prelude Wire RelayProtocol RelayProtocolSpec Crypto Envelope Sql HistoryTables HistoryStore HistoryRecords HistoryQueues.
#[local] Open Scope Z_scope.
#[local] Open Scope wire_scope.

Inductive hist_op :=
  | EnsureConversation (id contact_fp : bytes) (now : Z)
  | CreateGroup (id title creator_fp : bytes) (mode timer_seconds : Z) (previous_id : bytes) (members : list bytes) (state now : Z)
  | SetConversationState (id : bytes) (state : Z)
  | SetReceiptSettings (id : bytes) (delivery read : bool)
  | AddMessage (nonce : bytes) (m : Message)
  | RaiseStatus (conv id : bytes) (status : Z)
  | MarkAllRead (conv : bytes)
  | RaiseDelivery (conv id fp : bytes) (status : Z)
  | EraseMessage (conv id : bytes)
  | EraseConversationMessages (conv : bytes)
  | AddGroupInvite (nonce conv creator_fp record : bytes) (now : Z)
  | HoldForInvite (nonce conv record : bytes)
  | DeleteGroupInvite (conv : bytes)
  | SaveIntroduced (fp bundle : bytes) (issued_at : Z) (introduced_by : bytes) (now : Z)
  | DeleteIntroducedExcept (keep : list bytes)
  | AddArchive (n1 n2 n3 : bytes) (a : HArchive)
  | SetArchiveJoined (conv : bytes)
  | SetArchiveFailed (conv note : bytes)
  | AddArchiveActivity (conv : bytes) (entries : Z)
  | NoteCheckpointPosted (conv : bytes) (now : Z)
  | NoteCheckpointSeen (conv : bytes) (number : Z)
  | SetArchiveWarning (conv warning : bytes)
  | SetArchiveHead (conv : bytes) (number : Z) (hash : bytes)
  | SaveArchiveHashes (conv : bytes) (hashes : list (Z * bytes))
  | NotePeerPrekeys (fp : bytes) (now : Z)
  | AddAttachment (nonce : bytes) (a : Attachment)
  | SetAttachmentState (file_id : bytes) (state : Z) (note : bytes)
  | SetAttachmentPath (file_id path : bytes)
  | SetAttachmentRedeemed (file_id : bytes) (redeemed : Z)
  | GrantAttachment (nonce file_id key token : bytes) (state : Z) (note : bytes)
  | DropAttachmentSecrets (file_id : bytes)
  | ResetDownloading
  | AddDeletion (d : Deletion)
  | SetDeletionState (op_id : bytes) (state : Z)
  | AddDeletionAccept (op_id key_hash signature member_fp : bytes)
  | SaveArchiveMessage (conv id : bytes) (number : Z)
  | MarkArchiveRedacted (conv : bytes) (number : Z)
  | RemoveArchive (conv : bytes)
  | SetVerified (fp : bytes) (verified : bool) (now : Z)
  | SaveMemberToken (nonce conv fp token : bytes) (now : Z)
  | Enqueue (nonce contact_fp : bytes) (kind : Z) (id : bytes) (records : list bytes) (due_at now : Z)
  | UpdateOutboxRecords (nonce : bytes) (id : Z) (records : list bytes)
  | OutboxFailed (id next_due : Z)
  | OutboxDone (id : Z)
  | AddRequest (nonce sender_fp bundle : bytes) (records : list bytes) (now : Z)
  | DeleteRequests (sender_fp : bytes)
  | AddIssuedToken (hash label bound_fp : bytes) (now : Z)
  | BindIssuedToken (hash fp : bytes)
  | MarkTokenRevoked (hash : bytes)
  | SetBundleSent (contact_fp : bytes).

(** The database after a call that returned, or threw. *)
Definition kept {A} (db : History) (f : A -> History) (e : exc A) : History :=
  match e with Ret a => f a | Throw _ => db end.

Definition hist_step `{P : Primitives} (db : History) (op : hist_op) : History :=
  match op with
  | EnsureConversation id fp now => kept db snd (ensure_conversation db id fp now)
  | CreateGroup id title creator mode timer prev members state now =>
      kept db snd (create_group db id title creator mode timer prev members state now)
  | SetConversationState id state => kept db (fun d => d) (set_conversation_state db id state)
  | SetReceiptSettings id d r => set_receipt_settings db id d r
  | AddMessage nonce m => kept db snd (add_message nonce db m)
  | RaiseStatus conv id status => (raise_status db conv id status).2
  | MarkAllRead conv => (mark_all_read db conv).2
  | RaiseDelivery conv id fp status => (raise_delivery db conv id fp status).2
  | EraseMessage conv id => (erase_message db conv id).2
  | EraseConversationMessages conv => erase_conversation_messages db conv
  | AddGroupInvite nonce conv creator record now => kept db snd (add_group_invite nonce db conv creator record now)
  | HoldForInvite nonce conv record => kept db snd (hold_for_invite nonce db conv record)
  | DeleteGroupInvite conv => delete_group_invite db conv
  | SaveIntroduced fp bundle issued by_ now => save_introduced db fp bundle issued by_ now
  | DeleteIntroducedExcept keep => delete_introduced_except db keep
  | AddArchive n1 n2 n3 a => kept db snd (hs_add_archive n1 n2 n3 db a)
  | SetArchiveJoined conv => set_archive_joined db conv
  | SetArchiveFailed conv note => set_archive_failed db conv note
  | AddArchiveActivity conv n => add_archive_activity db conv n
  | NoteCheckpointPosted conv now => note_checkpoint_posted db conv now
  | NoteCheckpointSeen conv n => note_checkpoint_seen db conv n
  | SetArchiveWarning conv w => set_archive_warning db conv w
  | SetArchiveHead conv n h => set_archive_head db conv n h
  | SaveArchiveHashes conv hs => save_archive_hashes db conv hs
  | NotePeerPrekeys fp now => note_peer_prekeys db fp now
  | AddAttachment nonce a => kept db snd (add_attachment nonce db a)
  | SetAttachmentState f s n => set_attachment_state db f s n
  | SetAttachmentPath f p => set_attachment_path db f p
  | SetAttachmentRedeemed f n => set_attachment_redeemed db f n
  | GrantAttachment nonce f k t s n => kept db (fun d => d) (grant_attachment nonce db f k t s n)
  | DropAttachmentSecrets f => drop_attachment_secrets db f
  | ResetDownloading => reset_downloading db
  | AddDeletion d => (hs_add_deletion db d).2
  | SetDeletionState op s => set_deletion_state db op s
  | AddDeletionAccept op k s m => add_deletion_accept db op k s m
  | SaveArchiveMessage conv id n => save_archive_message db conv id n
  | MarkArchiveRedacted conv n => mark_archive_redacted db conv n
  | RemoveArchive conv => hs_remove_archive db conv
  | SetVerified fp v now => set_verified db fp v now
  | SaveMemberToken nonce conv fp token now => kept db (fun d => d) (save_member_token nonce db conv fp token now)
  | Enqueue nonce fp kind id records due now => kept db snd (hs_enqueue nonce db fp kind id records due now)
  | UpdateOutboxRecords nonce id records => kept db (fun d => d) (update_outbox_records nonce db id records)
  | OutboxFailed id due => outbox_failed db id due
  | OutboxDone id => outbox_done db id
  | AddRequest nonce fp bundle records now => kept db (fun d => d) (add_request nonce db fp bundle records now)
  | DeleteRequests fp => delete_requests db fp
  | AddIssuedToken h l b now => add_issued_token db h l b now
  | BindIssuedToken h fp => bind_issued_token db h fp
  | MarkTokenRevoked h => mark_token_revoked db h
  | SetBundleSent fp => set_bundle_sent db fp
  end.

Definition hist_run `{P : Primitives} : History -> list hist_op -> History := foldl hist_step.

(** ** The invariant *)

(** Numbers handed out by a sequence: in increasing order, none above it. *)
Definition sequenced (ids : list Z) (seq : Z) : Prop :=
  StronglySorted Z.lt ids /\ Forall (fun i => 0 < i <= seq) ids /\ 0 <= seq < 2 ^ 63.

(** At most one direct conversation per contact: the partial unique index. *)
Definition one_direct (convs : list ConvRow) : Prop :=
  NoDup (map cv_contact_fp (filter (fun c => c.(cv_kind) = Direct) convs)).

Record conversations_ok (convs : list ConvRow) (mems : list MemberRow) : Prop := {
  ok_conv_ids : unique cv_id convs;
  ok_direct : one_direct convs;
  ok_member_keys : unique mem_key mems;
  ok_member_refs : forall m, m ∈ mems -> m.(mem_conv_id) ∈ map cv_id convs;
}.

Record messages_ok (conv_ids : list bytes) (msgs : list MessageRow) (seq : Z) (dels : list DeliveryRow) : Prop := {
  ok_message_keys : unique ms_key msgs;
  ok_message_rows : sequenced (map ms_row msgs) seq;
  ok_message_refs : forall m, m ∈ msgs -> m.(ms_conv_id) ∈ conv_ids;
  ok_delivery_keys : unique dl_key dels;
  ok_delivery_refs : forall d, d ∈ dels -> (d.(dl_conv_id), d.(dl_msg_id)) ∈ map ms_key msgs;
}.

Record history_ok (db : History) : Prop := {
  ok_conversations : conversations_ok db.(h_conversations) db.(h_conversation_members);
  ok_messages : messages_ok (map cv_id db.(h_conversations)) db.(h_messages) db.(h_messages_seq) db.(h_deliveries);
  ok_outbox : sequenced (map ob_id db.(h_outbox)) db.(h_outbox_seq);
  ok_requests : sequenced (map rq_id db.(h_requests)) db.(h_requests_seq);
  ok_issued : unique it_hash db.(h_issued_tokens);
  ok_contact_state : unique cs_contact_fp db.(h_contact_state);
  ok_invites : unique gi_conv_id db.(h_group_invites);
  ok_introduced : unique im_fp db.(h_introduced_members);
  ok_member_tokens : unique mt_key db.(h_member_tokens);
  ok_verified : unique vp_fp db.(h_verified_people);
  ok_archives : unique ha_conv_id db.(h_archives);
  ok_peer_prekeys : unique pp_fp db.(h_peer_prekeys);
  ok_attachments : unique at_file_id db.(h_attachments);
  ok_deletions : unique dn_op_id db.(h_deletions);
  ok_accepts : unique da_key db.(h_deletion_accepts);
  ok_archive_messages : unique am_key db.(h_archive_messages);
  ok_redacted : unique arx_key db.(h_archive_redacted);
  ok_chain : unique ac_key db.(h_archive_chain);
}.

(** The tables an operation does not touch, and those it touches with a
    statement that keeps a key. *)
Create HintDb hist.
#[export] Hint Resolve unique_delete unique_insert_or_ignore unique_insert_or_replace : hist.
#[export] Hint Extern 2 (unique _ (update_rows _ _ _)) => (apply unique_update; [by intros|]) : hist.
#[export] Hint Extern 2 (unique _ (upsert_row _ _ _ _)) => (apply unique_upsert; [by intros; repeat case_match|]) : hist.
Ltac keeps_tables Hok := destruct Hok; constructor; simpl; eauto with hist.

(** ** Sequences *)

Lemma sequenced_nil : sequenced [] 0.
Proof. split_and!; [by constructor|by constructor|lia..]. Qed.

Lemma sequenced_sublist ids ids' seq : sublist ids' ids -> sequenced ids seq -> sequenced ids' seq.
Proof.
  intros Hs (H1 & H2 & H3). split_and!; [|by eapply Forall_sublist|lia..]. by eapply StronglySorted_sublist.
Qed.

Lemma sequenced_next ids seq i : sequenced ids seq -> next_rowid seq = Ret i -> sequenced (ids ++ [i]) i.
Proof.
  unfold next_rowid. intros (H1 & H2 & H3). destruct (seq <? _) eqn:E; [|done]. bool_prop. intros [= <-]. split_and!.
  - apply StronglySorted_snoc; [done|]. eapply Forall_impl; [exact H2|]. simpl. lia.
  - apply Forall_app. split; [|repeat constructor; lia]. eapply Forall_impl; [exact H2|]. simpl. lia.
  - lia.
  - lia.
Qed.

Lemma sequenced_delete {A} (key : A -> Z) (Q : A -> Prop) `{HQ : !forall x, Decision (Q x)} t seq :
  sequenced (map key t) seq -> sequenced (map key (delete_rows Q t)) seq.
Proof. apply sequenced_sublist. apply fmap_sublist, delete_rows_sublist. Qed.

Lemma sequenced_update {A} (key : A -> Z) (Q : A -> Prop) `{HQ : !forall x, Decision (Q x)} f t seq :
  (forall x, Q x -> key (f x) = key x) -> sequenced (map key t) seq -> sequenced (map key (update_rows Q f t)) seq.
Proof. intros Hf. by rewrite update_rows_keys. Qed.
#[export] Hint Resolve sequenced_delete : hist.
#[export] Hint Extern 2 (sequenced (map _ (update_rows _ _ _)) _) => (apply sequenced_update; [by intros|]) : hist.

(** ** Conversations *)

Lemma one_direct_snoc convs c :
  one_direct convs -> (c.(cv_kind) = Direct -> exists_row (direct_with c.(cv_contact_fp)) convs = false) ->
  one_direct (convs ++ [c]).
Proof.
  intros Hd Hc. unfold one_direct. rewrite filter_app. simpl. destruct (decide (cv_kind c = Direct)) as [Hk|Hk].
  - rewrite filter_cons_True by done. rewrite filter_nil, map_app. simpl. apply NoDup_app. split_and!; [done| |apply NoDup_singleton].
    intros fp Hin Hfp. apply list_elem_of_singleton in Hfp as ->. apply list_elem_of_fmap in Hin as (d & Hfp & Hin).
    specialize (Hc Hk).
    rewrite exists_row_false in Hc. apply list_elem_of_filter in Hin as [? Hin]. by apply (Hc d Hin).
  - rewrite filter_cons_False, filter_nil, app_nil_r by done. done.
Qed.

Lemma insert_direct_cases c t :
  (insert_direct c t = t) \/
  (insert_direct c t = t ++ [c] /\ c.(cv_id) ∉ map cv_id t /\ exists_row (direct_with c.(cv_contact_fp)) t = false).
Proof. unfold insert_direct. case_decide; [by left|]. destruct (exists_row _ t) eqn:E; [by left|by right]. Qed.

Lemma conversations_snoc convs mems c :
  conversations_ok convs mems -> c.(cv_id) ∉ map cv_id convs ->
  (c.(cv_kind) = Direct -> exists_row (direct_with c.(cv_contact_fp)) convs = false) ->
  conversations_ok (convs ++ [c]) mems.
Proof.
  intros [H1 H2 H3 H4] Hn Hd. constructor; [by apply unique_snoc|by apply one_direct_snoc|done|].
  intros m Hm. rewrite map_app. apply elem_of_app. left. by apply H4.
Qed.

Lemma members_snoc convs mems m :
  conversations_ok convs mems -> mem_key m ∉ map mem_key mems -> m.(mem_conv_id) ∈ map cv_id convs ->
  conversations_ok convs (mems ++ [m]).
Proof.
  intros [H1 H2 H3 H4] Hn Hr. constructor; [done|done|by apply unique_snoc|].
  intros m' [Hm| ->%list_elem_of_singleton]%elem_of_app; [by apply H4|done].
Qed.

(** Statements that change neither the ID, the kind nor the contact. *)
Lemma conversations_update convs mems (Q : ConvRow -> Prop) `{HQ : !forall c, Decision (Q c)} (f : ConvRow -> ConvRow) :
  (forall c, (f c).(cv_id) = c.(cv_id) /\ (f c).(cv_kind) = c.(cv_kind) /\ (f c).(cv_contact_fp) = c.(cv_contact_fp)) ->
  conversations_ok convs mems -> conversations_ok (update_rows Q f convs) mems.
Proof.
  intros Hf [H1 H2 H3 H4]. assert (forall c, cv_id (f c) = cv_id c) as Hid by apply Hf.
  constructor; [by apply unique_update; intros| |done|].
  - unfold one_direct in *. revert H2. clear H1 H4.
    assert (map cv_contact_fp (filter (fun c => cv_kind c = Direct) (update_rows Q f convs))
            = map cv_contact_fp (filter (fun c => cv_kind c = Direct) convs)) as ->; [|done].
    induction convs as [|c convs IH]; [done|]. cbn [update_rows map]. fold (update_rows Q f convs).
    destruct (Hf c) as (_ & Hk & Hc). rewrite !filter_cons.
    assert (cv_kind (if decide (Q c) then f c else c) = cv_kind c) as -> by by case_decide.
    case_decide; [|done]. simpl. rewrite IH. f_equal. by case_decide.
  - intros m Hm. rewrite update_rows_keys by by intros. by apply H4.
Qed.

Lemma insert_members_ok convs id members i mems mems' :
  id ∈ map cv_id convs -> conversations_ok convs mems ->
  insert_members id i members mems = Ret mems' -> conversations_ok convs mems'.
Proof.
  intros Hid. revert i mems. induction members as [|m members IH]; simpl; intros i mems Hok; [by intros [= <-]|].
  destruct (insert_row _ _ _) as [t|] eqn:E; [|done]. apply insert_row_Some in E as [Hn ->]. intros H.
  eapply IH; [|exact H]. by apply members_snoc.
Qed.

Lemma messages_more ids ids' msgs seq dels :
  (forall i, i ∈ ids -> i ∈ ids') -> messages_ok ids msgs seq dels -> messages_ok ids' msgs seq dels.
Proof. intros Hi [? ? ? ? ?]. constructor; auto. Qed.

Lemma ensure_conversation_ok db id fp now c db' :
  history_ok db -> ensure_conversation db id fp now = Ret (c, db') -> history_ok db'.
Proof.
  intros Hok. unfold ensure_conversation.
  set (row := mkConvRow id Direct fp _ _ _ _ _ _ _ _ _ _). set (db1 := set_conversations _ db).
  assert (history_ok db1) as Hok1.
  { destruct (insert_direct_cases row (h_conversations db)) as [E|(E & Hn & Hd)]; subst db1; rewrite E.
    - by destruct db.
    - destruct Hok. constructor; simpl; try done.
      + by apply conversations_snoc.
      + eapply messages_more; [|done]. intros i. rewrite map_app, elem_of_app. by left. }
  clearbody db1. clear Hok. destruct (select_first _ _) as [found|] eqn:Ef; [|done].
  apply select_first_Some in Ef as [Hin _]. destruct (hs_conversation _ _); [|done]. intros [= _ <-].
  destruct Hok1. constructor; simpl; try done. unfold insert_or_ignore. case_decide; [done|].
  apply members_snoc; [done..|]. simpl. by apply list_elem_of_fmap_2.
Qed.

Lemma create_group_ok db id title creator mode timer prev members state now c db' :
  history_ok db -> create_group db id title creator mode timer prev members state now = Ret (c, db') -> history_ok db'.
Proof.
  intros Hok. unfold create_group. do 6 (case_match; [done|]). destruct (check_members _ _); [|done]. simpl.
  destruct (hs_conversation db id); [by intros [= _ <-]|]. destruct (insert_row _ _ _) as [convs|] eqn:E; [|done].
  apply insert_row_Some in E as [Hn ->]. destruct (insert_members _ _ _ _) as [mems|] eqn:Em; [|done]. simpl.
  destruct (hs_conversation _ _); [|done]. intros [= _ <-]. destruct Hok. constructor; simpl; try done.
  - eapply insert_members_ok; [| |exact Em]; [rewrite map_app; apply elem_of_app; right; by left|].
    by apply conversations_snoc.
  - eapply messages_more; [|done]. intros i. rewrite map_app, elem_of_app. by left.
Qed.

(** A statement on conversations that keeps what the invariant reads. *)
Lemma update_conversations_ok db (Q : ConvRow -> Prop) `{HQ : !forall c, Decision (Q c)} (f : ConvRow -> ConvRow) :
  (forall c, (f c).(cv_id) = c.(cv_id) /\ (f c).(cv_kind) = c.(cv_kind) /\ (f c).(cv_contact_fp) = c.(cv_contact_fp)) ->
  history_ok db -> history_ok (set_conversations (update_rows Q f db.(h_conversations)) db).
Proof.
  intros Hf Hok. destruct Hok. constructor; simpl; try done.
  - by apply conversations_update.
  - rewrite update_rows_keys by (intros c _; apply Hf). done.
Qed.

(** ** Messages *)

Lemma messages_update ids msgs seq dels (Q : MessageRow -> Prop) `{HQ : !forall c, Decision (Q c)} (f : MessageRow -> MessageRow) :
  (forall m, ms_key (f m) = ms_key m /\ (f m).(ms_row) = m.(ms_row)) ->
  messages_ok ids msgs seq dels -> messages_ok ids (update_rows Q f msgs) seq dels.
Proof.
  intros Hf [H1 H2 H3 H4 H5]. assert (map ms_key (update_rows Q f msgs) = map ms_key msgs) as Hk
    by (apply update_rows_keys; intros m _; apply Hf).
  constructor; [unfold unique; by rewrite Hk| | |done|by intros; rewrite Hk; apply H5].
  - apply sequenced_update; [intros m _; apply Hf|done].
  - intros m Hm. apply list_elem_of_fmap in Hm as (m0 & -> & Hm0). specialize (H3 m0 Hm0).
    destruct (Hf m0) as [Hk0 _]. unfold ms_key in Hk0. injection Hk0 as Hc _. case_decide; [by rewrite Hc|done].
Qed.

Lemma messages_snoc ids msgs seq dels m :
  messages_ok ids msgs seq dels -> next_rowid seq = Ret m.(ms_row) -> ms_key m ∉ map ms_key msgs ->
  m.(ms_conv_id) ∈ ids -> messages_ok ids (msgs ++ [m]) m.(ms_row) dels.
Proof.
  intros [H1 H2 H3 H4 H5] Hr Hn Hc. constructor; [by apply unique_snoc| | |done|].
  - rewrite map_app. by eapply sequenced_next.
  - intros m' [?| ->%list_elem_of_singleton]%elem_of_app; [by apply H3|done].
  - intros d Hd. rewrite map_app. apply elem_of_app. left. by apply H5.
Qed.

Lemma add_message_ok `{P : Primitives} nonce db m b db' :
  history_ok db -> add_message nonce db m = Ret (b, db') -> history_ok db'.
Proof.
  intros Hok. unfold add_message. destruct (exists_row _ _); [by intros [= _ <-]|].
  destruct (hs_seal _ _ _ _) as [sealed|]; [|done]. simpl. destruct (next_rowid _) as [row|] eqn:Er; [|done]. simpl.
  destruct (references _ _ _) eqn:Eref; [|done]. simpl. destruct (insert_row _ _ _) as [t|] eqn:Ei; [|done].
  intros [= _ <-]. apply insert_row_Some in Ei as [Hn ->]. apply references_true in Eref.
  apply (update_conversations_ok (set_messages_seq row (set_messages _ db))); [done|].
  destruct Hok. constructor; simpl; try done.
  match goal with |- messages_ok _ (_ ++ [?x]) _ _ => by apply (messages_snoc _ _ _ _ x ok_messages0) end.
Qed.

Lemma update_messages_ok db (Q : MessageRow -> Prop) `{HQ : !forall c, Decision (Q c)} (f : MessageRow -> MessageRow) :
  (forall m, ms_key (f m) = ms_key m /\ (f m).(ms_row) = m.(ms_row)) ->
  history_ok db -> history_ok (set_messages (update_rows Q f db.(h_messages)) db).
Proof. intros Hf Hok. destruct Hok. constructor; simpl; try done. by apply messages_update. Qed.

Lemma erase_conversation_messages_ok db conv : history_ok db -> history_ok (erase_conversation_messages db conv).
Proof.
  intros Hok. destruct Hok as [? [H1 H2 H3 H4 H5]]. constructor; simpl; try done. constructor; eauto with hist.
  - intros m [_ Hm]%elem_of_delete_rows. by apply H3.
  - intros d [Hd Hin]%elem_of_delete_rows. specialize (H5 d Hin).
    apply list_elem_of_fmap in H5 as (m & Hm & Hin'). rewrite Hm. apply list_elem_of_fmap_2.
    apply elem_of_delete_rows. split; [|done]. unfold ms_key in Hm. injection Hm as Hc _. by rewrite <- Hc.
Qed.

Lemma raise_status_ok db conv id status : history_ok db -> history_ok (raise_status db conv id status).2.
Proof. intros Hok. by apply update_messages_ok. Qed.

Lemma raise_delivery_ok db conv id fp status : history_ok db -> history_ok (raise_delivery db conv id fp status).2.
Proof.
  intros Hok. unfold raise_delivery. destruct (exists_row _ (h_messages db)) eqn:Em; [|done]. cbn [negb].
  destruct (exists_row _ (h_conversation_members db)) eqn:Ee; [|done]. cbn [negb].
  set (row := mkDeliveryRow conv id fp status).
  apply exists_row_true in Em as (m & Hm & Hk & _).
  match goal with |- history_ok (let '(_, _) := ?e in _).2 => assert (history_ok e.2) as Hd; [|destruct e as [ch db1]] end.
  { destruct (select_first _ _) as [d|] eqn:Es; [destruct (dl_status d <? status); [|done]|];
      destruct Hok as [? [H1 H2 H3 H4 H5]]; constructor; simpl; try done; constructor; eauto with hist.
    - intros d' Hd'. apply list_elem_of_fmap in Hd' as (d0 & -> & Hd0). specialize (H5 d0 Hd0). by case_decide.
    - apply unique_snoc. split; [done|]. intros Hin. apply list_elem_of_fmap in Hin as (d & Hd & Hin).
      rewrite select_first_None in Es. by apply (Es d Hin).
    - intros d [Hd| ->%list_elem_of_singleton]%elem_of_app; [by apply H5|]. simpl. rewrite <- Hk. by apply list_elem_of_fmap_2. }
  simpl in Hd. pose proof (raise_status_ok db1 conv id (lowest_delivery db1 conv id) Hd) as Hr.
  by destruct (raise_status _ _ _ _).
Qed.

(** ** Every operation *)

Lemma foldl_unique {A K B} `{!EqDecision K} (key : A -> K) (f : list A -> B -> list A) l t :
  (forall t x, unique key t -> unique key (f t x)) -> unique key t -> unique key (foldl f t l).
Proof. intros Hf. revert t. induction l as [|x l IH]; simpl; intros t Ht; [done|]. apply IH. by apply Hf. Qed.

Lemma kept_ok {A} db (f : A -> History) (e : exc A) :
  history_ok db -> (forall a, e = Ret a -> history_ok (f a)) -> history_ok (kept db f e).
Proof. intros Hok He. destruct e; simpl; [by apply He|done]. Qed.

(** The operations that seal something first: the database changes only if that succeeds. *)
Ltac sealed_step Hok :=
  apply kept_ok; [exact Hok|]; intros ? Heq; revert Heq;
  repeat match goal with
  | |- context [exc_bind ?e _] => destruct e eqn:?; cbn [exc_bind]; try done
  end;
  intros [= <-]; keeps_tables Hok.

Lemma hist_step_ok `{P : Primitives} db op : history_ok db -> history_ok (hist_step db op).
Proof.
  intros Hok. destruct op; cbn [hist_step];
    try (keeps_tables Hok; fail); try (by apply update_conversations_ok); try (by apply update_messages_ok).
  - apply kept_ok; [done|]. intros [c db'] E. by eapply ensure_conversation_ok.
  - apply kept_ok; [done|]. intros [c db'] E. by eapply create_group_ok.
  - apply kept_ok; [done|]. unfold set_conversation_state. intros db'. case_match; [done|]. intros [= <-].
    by apply update_conversations_ok.
  - apply kept_ok; [done|]. intros [b db'] E. by eapply add_message_ok.
  - by apply raise_delivery_ok.
  - by apply erase_conversation_messages_ok.
  - unfold add_group_invite. sealed_step Hok.
  - unfold hold_for_invite. destruct (select_first _ _) as [row|]; [|done].
    destruct (let? plain := _ in unpack plain) as [[|r0 records]|]; [done| |done].
    case_match; [done|]. case_match; [done|]. sealed_step Hok.
  - unfold delete_introduced_except. destruct Hok. constructor; simpl; try done. apply foldl_unique; eauto with hist.
  - unfold hs_add_archive. sealed_step Hok.
  - unfold save_archive_hashes. destruct Hok. constructor; simpl; try done.
    apply foldl_unique; [|done]. intros t [n h]. eauto with hist.
  - unfold add_attachment. sealed_step Hok.
  - unfold grant_attachment. sealed_step Hok.
  - unfold set_verified. destruct verified; keeps_tables Hok.
  - unfold save_member_token. sealed_step Hok.
  - unfold hs_enqueue. sealed_step Hok. rewrite map_app. by eapply sequenced_next.
  - unfold update_outbox_records. destruct (select_first _ _) as [row|]; [|done]. sealed_step Hok.
  - unfold add_request. sealed_step Hok. rewrite map_app. by eapply sequenced_next.
Qed.

Lemma empty_history_ok key : history_ok (empty_history key).
Proof.
  constructor; simpl; try apply unique_nil; try apply sequenced_nil.
  - constructor; try apply unique_nil. by intros m ?%elem_of_nil.
  - constructor; try apply unique_nil; try apply sequenced_nil; by intros m ?%elem_of_nil.
Qed.

Lemma hist_run_ok `{P : Primitives} ops db : history_ok db -> history_ok (hist_run db ops).
Proof. revert db. induction ops as [|op ops IH]; intros db Hok; [done|]. apply IH. by apply hist_step_ok. Qed.
