(* ===== verification/HistoryProps.v ===== *)
(** * What the message history promises

    Messages only advance; a member's delivery state and a message's overall
    status; what is added is found again; groups and direct conversations;
    invitations and the records held with them; archive heads; the upgrade from
    version 1. *)

From Stdlib Require Import ZArith Lia Sorted.
From stdpp Require Import base list strings.
From S2P Require Import Prelude Wire RelayProtocol RelayProtocolSpec Crypto Envelope Sql HistoryTables HistoryStore HistoryRecords HistoryQueues HistoryInv.
#[local] Open Scope Z_scope.
#[local] Open Scope wire_scope.

(** ** Messages only advance *)

(** The same message later: its identity is unchanged, its status not lower, and
    its content is what it was or has been erased. *)
Definition advanced (m m' : MessageRow) : Prop :=
  m'.(ms_row) = m.(ms_row) /\ ms_key m' = ms_key m /\ m'.(ms_outgoing) = m.(ms_outgoing) /\
  m'.(ms_sent_at) = m.(ms_sent_at) /\ m'.(ms_received_at) = m.(ms_received_at) /\ m'.(ms_gap) = m.(ms_gap) /\
  m'.(ms_entry_hash) = m.(ms_entry_hash) /\ m.(ms_status) <= m'.(ms_status) /\
  (m'.(ms_sealed) = m.(ms_sealed) \/ m'.(ms_sealed) = []).

#[export] Instance advanced_preorder : PreOrder advanced.
Proof.
  split.
  - intros m. unfold advanced. split_and!; auto. lia.
  - intros a b c (?&?&?&?&?&?&?&?&Hs) (?&?&?&?&?&?&?&?&Hs'). unfold advanced. split_and!; try congruence; try lia.
    destruct Hs' as [->| ->]; auto.
Qed.

(** Every message of [db'] that is not newer than [db] is a later form of one of
    [db]: nothing reappears, and row numbers are not used twice. *)
Definition messages_advance (db db' : History) : Prop :=
  db.(h_messages_seq) <= db'.(h_messages_seq) /\
  forall m', m' ∈ db'.(h_messages) -> m'.(ms_row) <= db.(h_messages_seq) ->
    exists m, m ∈ db.(h_messages) /\ advanced m m'.

#[export] Instance messages_advance_preorder : PreOrder messages_advance.
Proof.
  split.
  - intros db. split; [lia|]. intros m' Hm _. by exists m'.
  - intros a b c [Hs1 H1] [Hs2 H2]. split; [lia|]. intros m'' Hm Hr.
    destruct (H2 m'' Hm) as (m' & Hm' & Ha'); [lia|]. destruct (H1 m' Hm') as (m & Hm0 & Ha).
    { destruct Ha' as (E & _). lia. }
    exists m. split; [done|]. by etrans.
Qed.

Lemma advance_same db db' :
  db'.(h_messages) = db.(h_messages) -> db'.(h_messages_seq) = db.(h_messages_seq) -> messages_advance db db'.
Proof. intros E1 E2. split; [lia|]. rewrite E1. intros m Hm _. by exists m. Qed.

Lemma advance_update db (Q : MessageRow -> Prop) `{HQ : !forall m, Decision (Q m)} (f : MessageRow -> MessageRow) :
  (forall m, Q m -> advanced m (f m)) ->
  messages_advance db (set_messages (update_rows Q f db.(h_messages)) db).
Proof.
  intros Hf. split; [done|]. simpl. intros m' Hm _. apply list_elem_of_fmap in Hm as (m & -> & Hm).
  exists m. split; [done|]. case_decide; [by apply Hf|done].
Qed.

Lemma raise_status_advances db conv id status : messages_advance db (raise_status db conv id status).2.
Proof.
  apply advance_update. intros m (_ & _ & ?). unfold advanced. simpl. split_and!; auto. lia.
Qed.

Lemma raise_delivery_advances db conv id fp status : messages_advance db (raise_delivery db conv id fp status).2.
Proof.
  unfold raise_delivery. destruct (exists_row _ (h_messages db)); [|done]. cbn [negb].
  destruct (exists_row _ (h_conversation_members db)); [|done]. cbn [negb].
  match goal with |- messages_advance _ (let '(_, _) := ?e in _).2 =>
    assert (messages_advance db e.2) as Hd; [|destruct e as [ch db1]] end.
  { destruct (select_first _ _); [case_match|]; by apply advance_same. }
  pose proof (raise_status_advances db1 conv id (lowest_delivery db1 conv id)) as Hr.
  destruct (raise_status _ _ _ _). by etrans.
Qed.

Lemma add_message_advances `{P : Primitives} nonce db m b db' :
  add_message nonce db m = Ret (b, db') -> messages_advance db db'.
Proof.
  unfold add_message. destruct (exists_row _ _); [by intros [= _ <-]|].
  destruct (hs_seal _ _ _ _) as [sealed|]; [|done]. simpl. destruct (next_rowid _) as [row|] eqn:Er; [|done]. simpl.
  destruct (references _ _ _); [|done]. simpl. destruct (insert_row _ _ _) as [t|] eqn:Ei; [|done].
  intros [= _ <-]. apply insert_row_Some in Ei as [_ ->].
  assert (row = h_messages_seq db + 1) as ->. { unfold next_rowid in Er. by destruct (_ <? _); simplify_eq. }
  split; simpl; [lia|]. intros m' [Hm| ->%list_elem_of_singleton]%elem_of_app; [by exists m'|simpl; lia].
Qed.

Lemma kept_advances {A} db (f : A -> History) (e : exc A) :
  (forall a, e = Ret a -> messages_advance db (f a)) -> messages_advance db (kept db f e).
Proof. intros He. destruct e; simpl; [by apply He|done]. Qed.

Ltac same_messages :=
  apply kept_advances; intros ? Heq; revert Heq;
  repeat match goal with
  | |- context [exc_bind ?e _] => destruct e eqn:?; cbn [exc_bind]; try done
  end;
  intros [= <-]; by apply advance_same.

Lemma hist_step_advances `{P : Primitives} db op : messages_advance db (hist_step db op).
Proof.
  destruct op; cbn [hist_step]; try (by apply advance_same).
  - apply kept_advances. intros [c db'] E. unfold ensure_conversation in E. destruct (select_first _ _); [|done].
    destruct (hs_conversation _ _); [|done]. injection E as _ <-. by apply advance_same.
  - apply kept_advances. intros [c db'] E. unfold create_group in E. revert E. do 6 (case_match; [done|]).
    destruct (check_members _ _); [|done]. simpl. destruct (hs_conversation db id); [by intros [= _ <-]|].
    destruct (insert_row _ _ _); [|done]. destruct (insert_members _ _ _ _); [|done]. simpl.
    destruct (hs_conversation _ _); [|done]. intros [= _ <-]. by apply advance_same.
  - apply kept_advances. unfold set_conversation_state. intros db'. case_match; [done|]. intros [= <-]. by apply advance_same.
  - apply kept_advances. intros [b db'] E. by eapply add_message_advances.
  - apply raise_status_advances.
  - apply advance_update. intros m (_ & _ & ?). unfold advanced. simpl. split_and!; auto. lia.
  - apply raise_delivery_advances.
  - apply advance_update. intros m _. unfold advanced. simpl. split_and!; auto. lia.
  - split; [done|]. simpl. intros m' [_ Hm]%elem_of_delete_rows _. by exists m'.
  - unfold add_group_invite. same_messages.
  - unfold hold_for_invite. destruct (select_first _ _) as [row|]; [|done].
    destruct (let? plain := _ in unpack plain) as [[|r0 records]|]; [done| |done].
    case_match; [done|]. case_match; [done|]. same_messages.
  - unfold hs_add_archive. same_messages.
  - unfold add_attachment. same_messages.
  - unfold grant_attachment. same_messages.
  - unfold set_verified. destruct verified; by apply advance_same.
  - unfold save_member_token. same_messages.
  - unfold hs_enqueue. same_messages.
  - unfold update_outbox_records. destruct (select_first _ _) as [row|]; [|done]. same_messages.
  - unfold add_request. same_messages.
Qed.

(** C25: the history's invariant. A new history satisfies it and every operation
    keeps it: primary keys are unique in all twenty tables, members and messages
    belong to conversations that exist and delivery rows to messages that exist,
    no contact has two direct conversations, and row numbers grow with their
    sequence. *)
Theorem history_invariant `{P : Primitives} :
  (forall key db0 ops, open_history NewFile key = Ret db0 -> history_ok (hist_run db0 ops)) /\
  (forall db op, history_ok db -> history_ok (hist_step db op)).
Proof.
  split; [|intros; by apply hist_step_ok]. intros key db0 ops. unfold open_history.
  destruct (negb _); [done|]. intros [= <-]. apply hist_run_ok, empty_history_ok.
Qed.


(** ** Deliveries *)

Lemma foldr_min_spec s l : (foldr Z.min s l = s \/ foldr Z.min s l ∈ l) /\ foldr Z.min s l <= s /\ Forall (fun x => foldr Z.min s l <= x) l.
Proof.
  induction l as [|x l (Ha & Hs & Hl)]; simpl; [split_and!; auto; lia|]. split_and!; [|lia|].
  - destruct (Z.min_spec x (foldr Z.min s l)) as [[_ ->]|[_ ->]]; [right; left|]. destruct Ha; [by left|right; by right].
  - constructor; [lia|]. eapply Forall_impl; [exact Hl|]. simpl. lia.
Qed.

(** The overall status is the lowest over the members. *)
Lemma lowest_delivery_spec db conv id fp :
  (conv, fp) ∈ map mem_key db.(h_conversation_members) ->
  lowest_delivery db conv id <= delivery_of db conv id fp /\
  exists fp', (conv, fp') ∈ map mem_key db.(h_conversation_members) /\ lowest_delivery db conv id = delivery_of db conv id fp'.
Proof.
  intros Hin. unfold lowest_delivery. set (ms := filter _ _).
  assert (forall f, (conv, f) ∈ map mem_key (h_conversation_members db) <-> exists m, m ∈ ms /\ mem_fp m = f) as Hms.
  { intros f. unfold ms. rewrite list_elem_of_fmap. split.
    - intros (m & Hk & Hm). unfold mem_key in Hk. injection Hk as -> ->. exists m. split; [|done]. by apply list_elem_of_filter.
    - intros (m & [Hc Hm]%list_elem_of_filter & <-). exists m. split; [|done]. unfold mem_key. by rewrite Hc. }
  clearbody ms. destruct (proj1 (Hms fp) Hin) as (m0 & Hm0 & <-). clear Hin. destruct ms as [|m1 ms']; [by apply not_elem_of_nil in Hm0|]. simpl.
  set (l := map _ ms'). set (s := delivery_of _ _ _ (mem_fp m1)). destruct (foldr_min_spec s l) as (Ha & Hs & Hl). split.
  - apply elem_of_cons in Hm0 as [->|Hm0]; [done|]. rewrite Forall_forall in Hl. apply Hl. unfold l. by apply (list_elem_of_fmap_2 (fun m => delivery_of db conv id (mem_fp m))).
  - destruct Ha as [Ha|Ha].
    + exists (mem_fp m1). split; [|done]. apply Hms. exists m1. split; [left|done].
    + unfold l in Ha at 2. apply list_elem_of_fmap in Ha as (m & E & Hm). exists (mem_fp m). split; [|done].
      apply Hms. exists m. split; [by right|done].
Qed.

(** The delivery rows after [raise_delivery], before the message is raised. *)
Definition raised_deliveries (db : History) (conv id fp : bytes) (status : Z) : bool * History :=
  let row := mkDeliveryRow conv id fp status in
  match select_first (fun d => dl_key d = dl_key row) db.(h_deliveries) with
  | None => (true, set_deliveries (db.(h_deliveries) ++ [row]) db)
  | Some d =>
      if d.(dl_status) <? status
      then (true, set_deliveries (update_rows (fun d => dl_key d = dl_key row) (dl_with_status status) db.(h_deliveries)) db)
      else (false, db)
  end.

Lemma raised_deliveries_spec db conv id fp status k :
  0 <= status ->
  let db1 := (raised_deliveries db conv id fp status).2 in
  db1.(h_messages) = db.(h_messages) /\ db1.(h_conversation_members) = db.(h_conversation_members) /\
  ((raised_deliveries db conv id fp status).1 = false -> db1 = db) /\
  delivery_of db1 k.1.1 k.1.2 k.2 =
    (if decide (k = (conv, id, fp)) then Z.max (delivery_of db conv id fp) status else delivery_of db k.1.1 k.1.2 k.2).
Proof.
  intros Hs. destruct k as [[c i] f]. unfold raised_deliveries, delivery_of. cbn [fst snd].
  change (dl_key (mkDeliveryRow conv id fp status)) with (conv, id, fp).
  destruct (select_first (fun d => dl_key d = (conv, id, fp)) _) as [d|] eqn:E;
    [destruct (dl_status d <? status) eqn:Ed; bool_prop|]; cbn [fst snd];
    (split_and!; [done..|]); destruct (decide ((c, i, f) = (conv, id, fp))) as [Hk|Hk]; try injection Hk as -> -> ->; simpl.
  - rewrite row_of_update, E by done. simpl. apply select_first_Some in E as [_ Ek]. rewrite decide_True by exact Ek.
    simpl. lia.
  - rewrite row_of_update by done. destruct (select_first (fun y => dl_key y = (c, i, f)) _) as [d'|] eqn:E'; simpl; [|done].
    apply select_first_Some in E' as [_ Hd']. rewrite decide_False; [done|]. by rewrite Hd'.
  - rewrite E. lia.
  - done.
  - rewrite row_of_snoc, E. simpl. rewrite decide_True by done. simpl. lia.
  - rewrite row_of_snoc. destruct (select_first (fun y => dl_key y = (c, i, f)) _); [done|].
    rewrite decide_False; [done|]. intros Hk'. by rewrite <- Hk' in Hk.
Qed.

Lemma raise_delivery_eq db conv id fp status :
  raise_delivery db conv id fp status =
  if exists_row (fun m => ms_key m = (conv, id) /\ m.(ms_outgoing) = true) db.(h_messages)
     && exists_row (fun m => mem_key m = (conv, fp)) db.(h_conversation_members)
  then
    let '(changed, db1) := raised_deliveries db conv id fp status in
    let '(raised, db2) := raise_status db1 conv id (lowest_delivery db1 conv id) in
    (changed || raised, db2)
  else (false, db).
Proof.
  unfold raise_delivery. destruct (exists_row _ (h_messages db)); [|done].
  by destruct (exists_row _ (h_conversation_members db)).
Qed.

Lemma update_rows_none {A} (Q : A -> Prop) `{HQ : !forall x, Decision (Q x)} f t :
  count_rows Q t <= 0 -> update_rows Q f t = t.
Proof.
  unfold count_rows. induction t as [|x t IH]; [done|]. rewrite filter_cons. cbn [update_rows map]. fold (update_rows Q f t).
  case_decide; [rewrite size_cons; pose proof (size_nonneg (filter Q t)); lia|]. intros ?. by rewrite IH.
Qed.

(** Delivery of a message. A report about a message that is not one of
    ours, or from someone who is not a member, changes nothing. Otherwise that
    member's state becomes the higher of what it was and what is reported, no
    other member's state and no other message changes, and the message's overall
    status becomes the higher of what it was and the lowest state over all
    members, so it is never raised above what is true for everyone. The call
    returns false only if nothing changed. *)
Theorem raise_delivery_exact db conv id fp status :
  history_ok db -> 0 <= status ->
  let r := raise_delivery db conv id fp status in
  let ours := exists m, m ∈ db.(h_messages) /\ ms_key m = (conv, id) /\ m.(ms_outgoing) = true in
  let member := (conv, fp) ∈ map mem_key db.(h_conversation_members) in
  (~ (ours /\ member) -> r = (false, db)) /\
  (r.1 = false -> r.2 = db) /\
  (ours -> member ->
     (forall c i f, delivery_of r.2 c i f =
        if decide ((c, i, f) = (conv, id, fp)) then Z.max (delivery_of db conv id fp) status else delivery_of db c i f) /\
     (forall m, m ∈ db.(h_messages) -> exists m', m' ∈ r.2.(h_messages) /\ advanced m m' /\ m'.(ms_sealed) = m.(ms_sealed) /\
        m'.(ms_status) = if decide (ms_key m = (conv, id)) then Z.max m.(ms_status) (lowest_delivery r.2 conv id) else m.(ms_status)) /\
     forall f, (conv, f) ∈ map mem_key r.2.(h_conversation_members) -> lowest_delivery r.2 conv id <= delivery_of r.2 conv id f).
Proof.
  intros Hok Hs. cbv zeta. rewrite raise_delivery_eq.
  pose proof (fun k => raised_deliveries_spec db conv id fp status k Hs) as Hd.
  destruct (exists_row _ (h_messages db)) eqn:Em; [destruct (exists_row _ (h_conversation_members db)) eqn:Ee|]; simpl.
  - destruct (raised_deliveries db conv id fp status) as [ch db1]. cbn [fst snd] in Hd.
    destruct (Hd (conv, id, fp)) as (E1 & E2 & E3 & _). cbn [raise_status fst snd]. split_and!.
    + intros Hn. destruct Hn. split.
      * apply exists_row_true in Em as (m & ? & ? & ?). eauto.
      * apply exists_row_true in Ee as (m & Hm & <-). by apply list_elem_of_fmap_2.
    + intros [-> Hc]%orb_false_iff. bool_prop. rewrite E3 in * by done. rewrite update_rows_none by lia. by destruct db.
    + intros (m0 & Hm0 & Hk0 & Ho0) Hmem. split_and!.
      * intros c i f. destruct (Hd (c, i, f)) as (_ & _ & _ & E). exact E.
      * intros m Hm. set (low := lowest_delivery _ _ _). rewrite E1 in *.
        exists (if decide (below conv id low m) then ms_with_status low m else m). split_and!.
        -- simpl. apply list_elem_of_fmap. by exists m.
        -- case_decide as Hb; [|done]. destruct Hb as (_ & _ & ?). unfold advanced. simpl. split_and!; auto. lia.
        -- by case_decide.
        -- change (lowest_delivery (set_messages _ db1) conv id) with low.
           assert (ms_key m = (conv, id) -> ms_outgoing m = true) as Ho.
           { intros Hk. rewrite <- Ho0. f_equal. eapply unique_key_inj; [apply Hok|done|done|]. by rewrite Hk, Hk0. }
           destruct (decide (ms_key m = (conv, id))) as [Hk|Hk].
           ++ specialize (Ho Hk). case_decide as Hb; simpl; [destruct Hb as (_ & _ & ?); lia|].
              destruct (Z.lt_ge_cases (ms_status m) low); [by destruct Hb|lia].
           ++ rewrite decide_False; [done|]. by intros (? & _).
      * intros f Hf. by apply lowest_delivery_spec.
  - split_and!; [done|done|]. intros _ Hm. apply list_elem_of_fmap in Hm as (m & Hk & Hm).
    rewrite exists_row_false in Ee. by destruct (Ee m Hm).
  - split_and!; [done|done|]. intros (m & Hm & Hk & Ho). rewrite exists_row_false in Em. by destruct (Em m Hm).
Qed.

(** ** A group of three and one message of ours *)

Definition ex_fp (b : byte) : bytes := replicate 64 b.
Definition ex_conv : bytes := replicate 16 Byte.x07.
Definition ex_message : Message :=
  mkMessage 0 ex_conv (replicate 16 Byte.x08) true 100 100 1 false (replicate 32 Byte.x09) [Byte.x01; Byte.x02] false.
Definition ex_group : hist_op :=
  CreateGroup ex_conv (str "team") (ex_fp Byte.x61) Saved 0 [] [ex_fp Byte.x62; ex_fp Byte.x63] Active 50.
Definition ex_history : History :=
  hist_run (empty_history (replicate 32 Byte.x05)) [ex_group; AddMessage (replicate 12 Byte.x06) ex_message].

Lemma ex_history_ok : history_ok ex_history.
Proof. apply hist_run_ok, empty_history_ok. Qed.

(** It is sent to all; one member has read it, the other has only got it. *)
Lemma history_invariant_witness :
  history_ok (hist_run (empty_history (replicate 32 Byte.x05)) [ex_group]).
Proof.
  apply (proj1 history_invariant (replicate 32 Byte.x05)). reflexivity.
Defined.

Lemma raise_delivery_exact_witness :
  let id := replicate 16 Byte.x08 in
  let db1 := (raise_delivery ex_history ex_conv id (ex_fp Byte.x62) 3).2 in
  let db2 := (raise_delivery db1 ex_conv id (ex_fp Byte.x63) 2).2 in
  history_ok db1 /\ map ms_status db1.(h_messages) = [1] /\ map ms_status db2.(h_messages) = [2] /\
  lowest_delivery db2 ex_conv id <= delivery_of db2 ex_conv id (ex_fp Byte.x63).
Proof.
  assert (history_ok (raise_delivery ex_history ex_conv (replicate 16 Byte.x08) (ex_fp Byte.x62) 3).2) as H1
    by apply raise_delivery_ok, ex_history_ok.
  cbv zeta. split; [exact H1|]. split; [vm_compute; reflexivity|]. split; [vm_compute; reflexivity|].
  destruct (raise_delivery_exact _ ex_conv (replicate 16 Byte.x08) (ex_fp Byte.x63) 2 H1) as (_ & _ & Hr); [lia|].
  destruct Hr as (_ & _ & Hlow).
  - eexists. split; [vm_compute; left|]. split; vm_compute; reflexivity.
  - vm_compute. right. left.
  - apply Hlow. vm_compute. right. left.
Defined.
