(* ===== verification/HistoryGroups.v ===== *)
(** * Messages found again, groups, held invitations, archives and the upgrade

    The round trips of the message history: what is sealed into a row is what is
    read from it. *)

From Stdlib Require Import ZArith Lia Sorted.
From stdpp Require Import base list strings.
From S2P Require Import Prelude Wire RelayProtocol RelayProtocolSpec Crypto Envelope Sql HistoryTables HistoryStore HistoryRecords HistoryQueues HistoryInv HistoryProps.
#[local] Open Scope Z_scope.
#[local] Open Scope wire_scope.

(** ** A message that was added is found *)

Section messages.
Context `{PrimitiveLaws}.

(** What the sealing needs of sizes; records are far smaller. *)
Definition message_fits (m : Message) : Prop :=
  size m.(Msg_record) + 16 <= INT_MAX /\ size m.(Msg_conversation_id) <= 2 ^ 20 /\ size m.(Msg_message_id) <= 2 ^ 20.

(** A message as it is found: under its row number, and not deleted. *)
Definition stored (row : Z) (m : Message) : Message :=
  mkMessage row m.(Msg_conversation_id) m.(Msg_message_id) m.(Msg_outgoing) m.(Msg_sent_at) m.(Msg_received_at) m.(Msg_status)
    m.(Msg_gap) m.(Msg_entry_hash) m.(Msg_record) false.

(** What [add_message] does to the table, when the message is new and its
    conversation exists. *)
Lemma add_message_row nonce db m :
  history_ok db -> size db.(h_key) = 32 -> size nonce = 12 -> message_fits m ->
  m.(Msg_conversation_id) ∈ map cv_id db.(h_conversations) ->
  (m.(Msg_conversation_id), m.(Msg_message_id)) ∉ map ms_key db.(h_messages) ->
  db.(h_messages_seq) < 2 ^ 63 - 1 ->
  exists db' r, add_message nonce db m = Ret (true, db') /\ db'.(h_messages) = db.(h_messages) ++ [r] /\
    db'.(h_key) = db.(h_key) /\ ms_key r = (m.(Msg_conversation_id), m.(Msg_message_id)) /\
    read_message db' r = Some (stored (db.(h_messages_seq) + 1) m) /\ map cv_id db'.(h_conversations) = map cv_id db.(h_conversations).
Proof.
  intros Hok Hk Hn (Hr & Hc & Hi) Hconv Hnew Hseq. unfold add_message.
  destruct (exists_row _ (h_messages db)) eqn:Ee.
  { apply exists_row_true in Ee as (r & Hin & Hkey). destruct Hnew. rewrite <- Hkey. by apply list_elem_of_fmap_2. }
  set (aad := aad_of MESSAGE_AAD _ _).
  assert (size aad <= INT_MAX) as Ha by (unfold aad; rewrite size_aad; change (size MESSAGE_AAD) with 27; unfold INT_MAX; lia).
  destruct (hs_unseal_seal nonce (h_key db) (Msg_record m) aad Hk Hn Hr Ha) as (sealed & -> & Hun & Hsz). cbn [exc_bind].
  unfold next_rowid. rewrite (proj2 (Z.ltb_lt _ _)) by lia. cbn [exc_bind].
  rewrite (proj2 (references_true _ _ _)) by done. cbn [negb].
  match goal with |- context [insert_row ms_key ?r _] => set (row := r) end.
  rewrite (proj2 (insert_row_Some ms_key row (h_messages db) (h_messages db ++ [row]))) by by split.
  eexists. exists row. split; [reflexivity|]. split_and!; [done..| |].
  - unfold read_message. simpl. destruct (is_empty sealed) eqn:Es; [apply is_empty_true in Es; subst; simpl in Hsz; unfold size in Hsz; simpl in Hsz; lia|].
    fold aad. by rewrite Hun.
  - simpl. by rewrite update_rows_keys by by intros.
Qed.

(** A message that was added is found. A message with a new ID in an
    existing conversation is stored sealed, and [find_message] then returns
    exactly its fields and its record, under the next row number; other messages
    are found as before; adding it again is refused and changes nothing; and once
    it is erased, its place and hash are found without its content. *)
Theorem added_message_found nonce nonce' db m :
  history_ok db -> size db.(h_key) = 32 -> size nonce = 12 -> message_fits m ->
  m.(Msg_conversation_id) ∈ map cv_id db.(h_conversations) ->
  (m.(Msg_conversation_id), m.(Msg_message_id)) ∉ map ms_key db.(h_messages) ->
  db.(h_messages_seq) < 2 ^ 63 - 1 ->
  let conv := m.(Msg_conversation_id) in
  let id := m.(Msg_message_id) in
  exists db', add_message nonce db m = Ret (true, db') /\
    find_message db' conv id = Some (stored (db.(h_messages_seq) + 1) m) /\
    (forall c i, (c, i) <> (conv, id) -> find_message db' c i = find_message db c i) /\
    (forall m', (m'.(Msg_conversation_id), m'.(Msg_message_id)) = (conv, id) -> add_message nonce' db' m' = Ret (false, db')) /\
    exists m', find_message (erase_message db' conv id).2 conv id = Some m' /\ m'.(Msg_deleted) = true /\
      m'.(Msg_record) = [] /\ m'.(Msg_entry_hash) = m.(Msg_entry_hash) /\ m'.(Msg_row) = db.(h_messages_seq) + 1.
Proof.
  intros Hok Hk Hn Hfit Hconv Hnew Hseq. cbv zeta.
  destruct (add_message_row nonce db m Hok Hk Hn Hfit Hconv Hnew Hseq) as (db' & r & Hadd & Hmsgs & Hkey & Hr & Hread & _).
  assert (forall c i, select_first (fun x => ms_key x = (c, i)) db'.(h_messages) =
    if decide ((m.(Msg_conversation_id), m.(Msg_message_id)) = (c, i)) then Some r
    else select_first (fun x => ms_key x = (c, i)) db.(h_messages)) as Hsel.
  { intros c i. rewrite Hmsgs, row_of_snoc, Hr. case_decide as E; [|by destruct (select_first _ _)].
    by rewrite row_of_not_in by by rewrite <- E. }
  exists db'. split; [done|]. split_and!.
  - unfold find_message. by rewrite Hsel, decide_True.
  - intros c i Hne. unfold find_message. rewrite Hsel, decide_False by congruence.
    destruct (select_first _ _); [|done]. simpl. unfold read_message. by rewrite Hkey.
  - intros m' Hm'. injection Hm' as Hc Hi. unfold add_message. rewrite Hc, Hi.
    rewrite (proj2 (exists_row_true _ _)); [done|]. exists r. split; [|done]. rewrite Hmsgs. apply elem_of_app. right. left.
  - unfold find_message. simpl. rewrite row_of_update by done. rewrite Hsel, decide_True by done. simpl.
    unfold read_message in Hread. destruct (is_empty (ms_sealed r)) eqn:Es; [by injection Hread|].
    destruct (hs_unseal _ _ _); simpl in Hread; [|done]. rewrite decide_True by done. unfold read_message. simpl.
    eexists. split; [reflexivity|]. simpl. injection Hread as E1 E2 E3 E4 E5 E6 E7 E8 E9 E10. by rewrite E1, E9.
Qed.
End messages.

(** ** Groups *)

(** The conditions [create_group] checks, in one. *)
Definition valid_group (id title creator_fp : bytes) (mode state : Z) (members : list bytes) : Prop :=
  id <> [] /\ mode = Saved /\ (state = Active \/ state = SettingUp) /\ size title <= MAX_TITLE_BYTES /\
  (creator_fp = [] \/ is_member_fp creator_fp = true) /\ 1 <= size members <= MAX_OTHER_MEMBERS /\
  Forall (fun m => is_member_fp m = true) members /\ NoDup members.

Lemma check_members_spec seen members :
  NoDup seen ->
  (check_members seen members = Ret tt <-> Forall (fun m => is_member_fp m = true) members /\ NoDup (seen ++ members)).
Proof.
  revert seen. induction members as [|m members IH]; intros seen Hs; simpl.
  - rewrite app_nil_r. split; [by split; [constructor|]|done].
  - rewrite Forall_cons. destruct (is_member_fp m); simpl; [|split; [done|naive_solver]].
    case_bool_decide as Hm.
    + split; [done|]. intros [_ (_ & Hd & _)%NoDup_app]. destruct (Hd m Hm). left.
    + rewrite IH.
      * rewrite <- app_assoc. simpl. naive_solver.
      * apply NoDup_app. split_and!; [done| |apply NoDup_singleton]. intros x Hx ->%list_elem_of_singleton. done.
Qed.

Lemma check_members_throws seen members : check_members seen members = Ret tt \/ exists w, check_members seen members = Throw w.
Proof. destruct (check_members seen members) as [[]|w]; [by left|right; by exists w]. Qed.

(** A list that is in order is not moved by sorting. *)
Lemma sort_by_id {A} (leb : A -> A -> bool) l : StronglySorted (fun x y => leb x y = true) l -> sort_by leb l = l.
Proof.
  induction 1 as [|x l Hl IH Hx]; [done|]. unfold sort_by in *. simpl. rewrite IH. destruct Hx as [|y l Hy _]; [done|].
  simpl. by rewrite Hy.
Qed.

(** The rows [insert_members] adds. *)
Fixpoint member_rows (id : bytes) (i : Z) (members : list bytes) : list MemberRow :=
  match members with [] => [] | m :: members => mkMemberRow id m i :: member_rows id (i + 1) members end.

Lemma member_rows_fp id i members : map mem_fp (member_rows id i members) = members.
Proof. revert i. induction members as [|m members IH]; intros i; simpl; [done|]. by rewrite IH. Qed.

Lemma member_rows_conv id i members : Forall (fun r => r.(mem_conv_id) = id /\ i <= r.(mem_idx)) (member_rows id i members).
Proof.
  revert i. induction members as [|m members IH]; intros i; simpl; constructor; simpl; [split; [done|lia]|].
  eapply Forall_impl; [apply (IH (i + 1))|]. simpl. intros r [? ?]. split; [done|lia].
Qed.

Lemma member_rows_sorted id i members :
  StronglySorted (fun x y => asc_then mem_idx mem_fp x y = true) (member_rows id i members).
Proof.
  revert i. induction members as [|m members IH]; intros i; simpl; constructor; [apply IH|].
  eapply Forall_impl; [apply (member_rows_conv id (i + 1))|]. intros r [_ Hr]. unfold asc_then. simpl.
  by rewrite (proj2 (Z.ltb_lt _ _)) by lia.
Qed.

Lemma insert_members_rows id i members mems :
  NoDup members -> (forall m, m ∈ mems -> mem_key m ∈ map (pair id) members -> False) ->
  insert_members id i members mems = Ret (mems ++ member_rows id i members).
Proof.
  revert i mems. induction members as [|m members IH]; intros i mems Hd Hn; simpl; [by rewrite app_nil_r|].
  apply NoDup_cons in Hd as [Hm Hd].
  rewrite (proj2 (insert_row_Some mem_key (mkMemberRow id m i) mems (mems ++ [mkMemberRow id m i]))).
  - rewrite IH; [by rewrite <- app_assoc|done|]. intros r [Hr| ->%list_elem_of_singleton]%elem_of_app Hk.
    + apply (Hn r Hr). by right.
    + apply list_elem_of_fmap in Hk as (x & [= <-] & Hx). done.
  - split; [|done]. intros Hin. apply list_elem_of_fmap in Hin as (r & Hk & Hr). apply (Hn r Hr). rewrite <- Hk. left.
Qed.

Lemma load_members_rows db id i members :
  (forall m, m ∈ db.(h_conversation_members) -> m.(mem_conv_id) <> id) ->
  load_members (set_conversation_members (db.(h_conversation_members) ++ member_rows id i members) db) id = members.
Proof.
  intros Hn. unfold load_members. simpl. rewrite filter_app.
  rewrite filter_none by by apply Forall_forall. simpl. rewrite filter_all.
  - rewrite sort_by_id by apply member_rows_sorted. apply member_rows_fp.
  - eapply Forall_impl; [apply (member_rows_conv id i)|]. by intros r [? _].
Qed.

(** The row of a group, and the group as it is returned. *)
Definition group_row (id title creator_fp : bytes) (timer : Z) (previous_id : bytes) (state now : Z) : ConvRow :=
  mkConvRow id Group [] title creator_fp Saved timer previous_id state now now true true.
Definition group_conversation (id title creator_fp : bytes) (timer : Z) (previous_id : bytes) (members : list bytes) (state now : Z)
    : Conversation :=
  mkConversation id [] now now true true Group state title creator_fp Saved timer previous_id members.

Lemma create_group_valid db id title creator mode timer prev members state now :
  valid_group id title creator mode state members ->
  create_group db id title creator mode timer prev members state now =
  match hs_conversation db id with
  | Some c => Ret (c, db)
  | None =>
      match insert_row cv_id (group_row id title creator timer prev state now) db.(h_conversations) with
      | None => Throw "database: step"
      | Some convs =>
          let! mems := insert_members id 0 members db.(h_conversation_members) in
          let db := set_conversation_members mems (set_conversations convs db) in
          match hs_conversation db id with
          | None => Throw "database: group missing after insert"
          | Some c => Ret (c, db)
          end
      end
  end.
Proof.
  intros (Hid & -> & Hst & Ht & Hc & Hm & Hf & Hd). unfold create_group.
  destruct (is_empty id) eqn:E; [by apply is_empty_true in E|]. cbn [Z.eqb negb Saved Pos.eqb].
  assert (negb (state =? Active) && negb (state =? SettingUp) = false) as -> by (by destruct Hst as [->| ->]).
  rewrite (proj2 (Z.ltb_ge _ _)) by done.
  assert (negb (is_empty creator) && negb (is_member_fp creator) = false) as ->.
  { destruct Hc as [->| ->]; [done|]. by rewrite andb_false_r. }
  rewrite (proj2 (Z.eqb_neq _ _)), (proj2 (Z.ltb_ge _ _)) by lia. simpl.
  by rewrite (proj2 (check_members_spec [] members (NoDup_nil_2 ))).
Qed.

Lemma create_group_invalid db id title creator mode timer prev members state now :
  ~ valid_group id title creator mode state members ->
  exists w, create_group db id title creator mode timer prev members state now = Throw w.
Proof.
  intros Hv. unfold create_group.
  destruct (is_empty id) eqn:E1; [by eexists|]. assert (id <> []) by (by intros ->). destruct (mode =? Saved) eqn:E2; [|by eexists]. cbn [negb].
  destruct (negb (state =? Active) && _) eqn:E3; [by eexists|]. destruct (MAX_TITLE_BYTES <? _) eqn:E4; [by eexists|].
  destruct (negb (is_empty creator) && _) eqn:E5; [by eexists|]. destruct ((size members =? 0) || _) eqn:E6; [by eexists|].
  destruct (check_members_throws [] members) as [E|[w ->]]; [|by eexists]. destruct Hv.
  apply check_members_spec in E as [? ?]; [|constructor]. simpl in *. pose proof (size_nonneg members). bool_prop.
  split_and!; try done; try lia; auto.
  all: apply andb_false_iff in E5 as [E5|E5]; apply negb_false_iff in E5; [left; by apply is_empty_true|by right].
Qed.

Lemma hs_conversation_None db id : hs_conversation db id = None <-> id ∉ map cv_id db.(h_conversations).
Proof.
  unfold hs_conversation. rewrite fmap_None, select_first_None, list_elem_of_fmap. split.
  - intros Hn (c & -> & Hc). by apply (Hn c).
  - intros Hn c Hc <-. apply Hn. by exists c.
Qed.

(** Creating a group. Arguments that are not valid are refused. With valid
    ones and a new ID the group is created with its members in the given order,
    and every other conversation is as it was; with an ID that exists, whatever
    the other arguments, the conversation that is there is returned and nothing
    changes. So a creation record that is replayed, or forged for an existing
    conversation, changes nothing. *)
Theorem create_group_exact db id title creator mode timer prev members state now :
  history_ok db ->
  (~ valid_group id title creator mode state members ->
     exists w, create_group db id title creator mode timer prev members state now = Throw w) /\
  (valid_group id title creator mode state members ->
     (forall c, hs_conversation db id = Some c ->
        create_group db id title creator mode timer prev members state now = Ret (c, db)) /\
     (hs_conversation db id = None ->
        let c := group_conversation id title creator timer prev members state now in
        exists db', create_group db id title creator mode timer prev members state now = Ret (c, db') /\
          hs_conversation db' id = Some c /\
          (forall id', id' <> id -> hs_conversation db' id' = hs_conversation db id') /\
          forall fp, conversation_for db' fp = conversation_for db fp)).
Proof.
  intros Hok. split; [apply create_group_invalid|]. intros Hv. rewrite create_group_valid by done.
  split; [by intros c ->|]. intros Hnone. rewrite Hnone. apply hs_conversation_None in Hnone. cbv zeta.
  set (row := group_row id title creator timer prev state now).
  rewrite (proj2 (insert_row_Some cv_id row (h_conversations db) (h_conversations db ++ [row]))) by by split.
  assert (forall m, m ∈ h_conversation_members db -> mem_conv_id m <> id) as Hnm.
  { intros m Hm <-. apply Hnone. by apply Hok. }
  rewrite insert_members_rows; [|apply Hv|].
  2: { intros m Hm Hk. apply list_elem_of_fmap in Hk as (x & Hk & _). unfold mem_key in Hk. injection Hk as Hk _. by apply (Hnm m Hm). }
  cbn [exc_bind]. set (db' := set_conversation_members _ _).
  assert (load_members db' id = members) as Hl by by apply (load_members_rows (set_conversations _ db)).
  assert (hs_conversation db' id = Some (group_conversation id title creator timer prev members state now)) as Hc.
  { unfold hs_conversation. simpl. rewrite row_of_snoc, row_of_not_in by done. simpl.
    rewrite decide_True by done. simpl. unfold read_conversation. simpl. by rewrite Hl. }
  assert (forall c, c ∈ h_conversations db -> read_conversation db' c = read_conversation db c) as Hrd.
  { intros c Hc'. unfold read_conversation. f_equal. unfold load_members. simpl. rewrite filter_app, (filter_none _ (member_rows _ _ _)).
    - by rewrite app_nil_r.
    - eapply Forall_impl; [apply (member_rows_conv id 0)|]. intros r [Hr _] Hr'. apply Hnone. rewrite <- Hr, Hr'. by apply list_elem_of_fmap_2. }
  rewrite Hc. eexists. split_and!; [reflexivity|done| |].
  - intros id' Hne. unfold hs_conversation. simpl. rewrite row_of_snoc. destruct (select_first _ _) as [c|] eqn:E.
    + apply select_first_Some in E as [Hin _]. simpl. by rewrite Hrd.
    + rewrite decide_False; [done|]. simpl. congruence.
  - intros fp. unfold conversation_for, select_first. simpl. rewrite filter_app, (filter_none _ [row]), app_nil_r.
    + destruct (filter _ (h_conversations db)) as [|c l] eqn:E; [done|]. simpl. rewrite Hrd; [done|].
      assert (c ∈ filter (direct_with fp) (h_conversations db)) as Hin by (rewrite E; left).
      by apply list_elem_of_filter in Hin as [_ ?].
    + repeat constructor. by intros [? _].
Qed.

(** ** Invitations and the records held with them *)

(** What holding a record does to the list: nothing if it is there already or
    the list is full. *)
Definition held (records : list bytes) (r : bytes) : list bytes :=
  if decide (r ∈ records) then records
  else if 1 + MAX_HELD_RECORDS <=? size records then records else records ++ [r].

Lemma held_bound records r : size records <= 1 + MAX_HELD_RECORDS -> size (held records r) <= 1 + MAX_HELD_RECORDS.
Proof.
  intros Hs. unfold held. case_decide; [done|]. destruct (_ <=? _) eqn:E; [done|]. bool_prop. rewrite size_app.
  change (size [r]) with 1. lia.
Qed.

Lemma held_NoDup records r : NoDup records -> NoDup (held records r).
Proof.
  intros Hd. unfold held. case_decide as Hr; [done|]. destruct (_ <=? _); [done|]. apply NoDup_app.
  split_and!; [done| |apply NoDup_singleton]. intros x Hx ->%list_elem_of_singleton. done.
Qed.

Lemma sum_blobs n l : 0 <= n -> Forall (fun b : bytes => size b <= n) l -> size (concat (map blob l)) <= size l * (4 + n).
Proof.
  intros Hn. induction 1 as [|b l Hb _ IH]; [done|]. cbn [map concat]. rewrite size_app, size_blob, size_cons. nia.
Qed.

Section invites.
Context `{PrimitiveLaws}.

Lemma pack_fits l : size l <= 1 + MAX_HELD_RECORDS -> Forall (fun b => size b <= 2 ^ 20) l -> size (pack l) + 16 <= INT_MAX.
Proof.
  intros Hl Hf. rewrite pack_eq, size_app, size_be32. pose proof (sum_blobs (2 ^ 20) l ltac:(lia) Hf).
  unfold MAX_HELD_RECORDS, INT_MAX in *. lia.
Qed.

Lemma invite_aad_fits conv : size conv <= 2 ^ 20 -> size (aad_of GROUP_INVITE_AAD conv []) <= INT_MAX.
Proof. intros Hc. rewrite size_aad. change (size GROUP_INVITE_AAD) with 32. change (size (@nil byte)) with 0. unfold INT_MAX. lia. Qed.

(** The invitation a database holds for a conversation. *)
Definition holds_invite (db : History) (conv creator : bytes) (received : Z) (records : list bytes) : Prop :=
  group_invite db conv = Some (mkGroupInvite conv creator received records).

Lemma add_group_invite_holds nonce db conv creator record now :
  history_ok db -> size db.(h_key) = 32 -> size nonce = 12 -> size conv <= 2 ^ 20 -> size record <= 2 ^ 20 ->
  conv ∉ map gi_conv_id db.(h_group_invites) ->
  exists db', add_group_invite nonce db conv creator record now = Ret (true, db') /\
    holds_invite db' conv creator now [record] /\ db'.(h_key) = db.(h_key) /\ history_ok db'.
Proof.
  intros Hok Hk Hn Hc Hr Hnew. pose proof (hist_step_ok db (AddGroupInvite nonce conv creator record now) Hok) as Hok'.
  simpl in Hok'. unfold add_group_invite in *.
  destruct (hs_unseal_seal nonce (h_key db) (pack [record]) (aad_of GROUP_INVITE_AAD conv [])) as (sealed & E & Hun & _); try done.
  { apply pack_fits; [done|by repeat constructor]. } { by apply invite_aad_fits. }
  rewrite E in *. simpl in *. unfold added. rewrite bool_decide_eq_false_2 by done. eexists. split; [reflexivity|].
  split_and!; [|done|done]. unfold holds_invite, group_invite. simpl. unfold insert_or_ignore. rewrite decide_False by done.
  rewrite row_of_snoc, row_of_not_in by done. simpl. rewrite decide_True by done. simpl. unfold open_invite. simpl.
  rewrite Hun. simpl. rewrite (proj2 (unpack_spec (pack [record]) [record])); [done|]. split; [|done].
  split; [vm_compute; congruence|by repeat constructor].
Qed.

(** One record held. *)
Lemma hold_for_invite_holds nonce db conv creator received records r :
  history_ok db -> size db.(h_key) = 32 -> size nonce = 12 -> size conv <= 2 ^ 20 -> size r <= 2 ^ 20 ->
  size records <= 1 + MAX_HELD_RECORDS -> holds_invite db conv creator received records ->
  exists db', hold_for_invite nonce db conv r = Ret (bool_decide (r ∈ held records r), db') /\
    holds_invite db' conv creator received (held records r) /\ db'.(h_key) = db.(h_key) /\ history_ok db'.
Proof.
  intros Hok Hk Hn Hc Hr Hsz Hinv. pose proof (hist_step_ok db (HoldForInvite nonce conv r) Hok) as Hok'. cbn [hist_step] in Hok'.
  pose proof Hinv as Hinv0. unfold hold_for_invite in *. unfold holds_invite, group_invite in Hinv0.
  destruct (select_first _ (h_group_invites db)) as [row|] eqn:Erow; [|done]. simpl in Hinv0.
  pose proof (select_first_Some _ _ _ Erow) as [Hin Hconv]. unfold open_invite in Hinv0. rewrite Hconv in Hinv0.
  destruct (hs_unseal _ _ _) as [plain|] eqn:Eun; [|done]. simpl in Hinv0, Hok' |- *.
  destruct (unpack plain) as [recs|] eqn:Eup; [|done]. simpl in Hinv0, Hok' |- *.
  destruct recs as [|r0 recs]; [done|]. injection Hinv0 as Hcr Hrc Hrs. subst creator received.
  rewrite Hrs in *. clear Hrs. apply unpack_spec in Eup as [[Hmax Hf] _]. unfold held.
  case_bool_decide as Hr1; [rewrite decide_True by done|rewrite decide_False by done].
  { exists db. by rewrite bool_decide_eq_true_2. }
  destruct (1 + MAX_HELD_RECORDS <=? size records) eqn:Efull; [exists db; by rewrite bool_decide_eq_false_2|]. bool_prop.
  assert (Forall (fun b => size b <= 2 ^ 20) (records ++ [r])) as Hf' by (apply Forall_app; split; [done|by repeat constructor]).
  assert (size (records ++ [r]) <= 1 + MAX_HELD_RECORDS) as Hs' by (rewrite size_app; change (size [r]) with 1; lia).
  destruct (hs_unseal_seal nonce (h_key db) (pack (records ++ [r])) (aad_of GROUP_INVITE_AAD conv [])) as (sealed & E & Hun & _); try done.
  { by apply pack_fits. } { by apply invite_aad_fits. }
  rewrite E in *. simpl in Hok' |- *. rewrite bool_decide_eq_true_2 by (apply elem_of_app; right; left).
  eexists. split; [reflexivity|]. split_and!; [|done|done].
  unfold holds_invite, group_invite. simpl. rewrite row_of_update, Erow by done. simpl. rewrite decide_True by done.
  unfold open_invite. simpl. rewrite Hconv, Hun. simpl.
  rewrite (proj2 (unpack_spec (pack (records ++ [r])) (records ++ [r]))).
  - simpl. by destruct records.
  - split; [|done]. split; [unfold MAX_HELD_RECORDS in *; lia|done].
Qed.

(** Holding several records, each with its own nonce. *)
Definition hold_all (db : History) (conv : bytes) (l : list (bytes * bytes)) : History :=
  foldl (fun db '(nonce, r) => kept db snd (hold_for_invite nonce db conv r)) db l.

(** Invitations and what is held with them. After an invitation is added
    and any records are held for it, in any number and with repetitions, reading
    it back gives the creation record and then the first 200 distinct records in
    the order they came: nothing is lost, duplicated, reordered or held beyond
    the limit. *)
Theorem held_records_exact nonce db conv creator record now l :
  history_ok db -> size db.(h_key) = 32 -> size nonce = 12 -> size conv <= 2 ^ 20 -> size record <= 2 ^ 20 ->
  conv ∉ map gi_conv_id db.(h_group_invites) ->
  Forall (fun '(n, r) => size n = 12 /\ size r <= 2 ^ 20) l ->
  let records := foldl held [record] (map snd l) in
  exists db', add_group_invite nonce db conv creator record now = Ret (true, db') /\
    group_invite (hold_all db' conv l) conv = Some (mkGroupInvite conv creator now records) /\
    size records <= 1 + MAX_HELD_RECORDS /\ NoDup records /\ head records = Some record.
Proof.
  intros Hok Hk Hn Hc Hr Hnew Hl. cbv zeta.
  destruct (add_group_invite_holds nonce db conv creator record now Hok Hk Hn Hc Hr Hnew) as (db1 & Hadd & Hinv & Hkey & Hok1).
  exists db1. split; [done|]. clear Hadd Hok Hnew. rewrite <- Hkey in Hk. clear Hkey.
  assert (size [record] <= 1 + MAX_HELD_RECORDS /\ NoDup [record] /\ head [record] = Some record) as Hrec
    by (split_and!; [done|apply NoDup_singleton|done]).
  revert Hrec Hinv. generalize [record] as records. revert db1 Hk Hok1.
  induction Hl as [|[n r] l [Hn' Hr'] _ IH]; intros db1 Hk Hok1 records (Hs & Hd & Hh) Hinv; [by split_and!|].
  cbn [hold_all foldl map snd]. fold (hold_all).
  destruct (hold_for_invite_holds n db1 conv creator now records r) as (db2 & E & Hinv2 & Hk2 & Hok2); try done.
  rewrite E. cbn [kept snd]. apply IH; [by rewrite Hk2|done| |done].
  split_and!; [by apply held_bound|by apply held_NoDup|]. unfold held.
  destruct (decide (r ∈ records)); [done|]. destruct (_ <=? _); [done|]. by destruct records.
Qed.
End invites.

(** ** Witnesses *)

Definition ex_reply : Message :=
  mkMessage 0 ex_conv (replicate 16 Byte.x0a) false 120 130 0 true (replicate 32 Byte.x0b) [Byte.x03] false.

Lemma added_message_found_witness :
  history_ok ex_history /\
  exists db', add_message (replicate 12 Byte.x0c) ex_history ex_reply = Ret (true, db') /\
    find_message db' ex_conv (replicate 16 Byte.x0a) = Some (stored 2 ex_reply).
Proof.
  split; [exact ex_history_ok|].
  destruct (added_message_found (replicate 12 Byte.x0c) [] ex_history ex_reply) as (db' & Ha & Hf & _);
    [exact ex_history_ok|reflexivity|reflexivity| | | |vm_compute; reflexivity|].
  - split; [|split]; vm_compute; congruence.
  - vm_compute. left.
  - intros Hin. vm_compute in Hin. apply list_elem_of_singleton in Hin. discriminate.
  - exists db'. split; [exact Ha|exact Hf].
Defined.

Lemma create_group_exact_witness :
  valid_group [Byte.x01] (str "new") [] Saved Active [ex_fp Byte.x64] /\
  exists db', create_group ex_history [Byte.x01] (str "new") [] Saved 0 [] [ex_fp Byte.x64] Active 60
    = Ret (group_conversation [Byte.x01] (str "new") [] 0 [] [ex_fp Byte.x64] Active 60, db').
Proof.
  assert (valid_group [Byte.x01] (str "new") [] Saved Active [ex_fp Byte.x64]) as Hv.
  { split_and!; [done|reflexivity|by left|vm_compute; congruence|by left|vm_compute; congruence..| |apply NoDup_singleton].
    repeat constructor. }
  split; [exact Hv|].
  destruct (create_group_exact ex_history [Byte.x01] (str "new") [] Saved 0 [] [ex_fp Byte.x64] Active 60 ex_history_ok) as [_ H].
  destruct (H Hv) as [_ Hnew]. destruct Hnew as (db' & Hc & _); [vm_compute; reflexivity|]. exists db'. exact Hc.
Defined.

(** The second record comes twice. *)
Lemma held_records_exact_witness :
  exists db', add_group_invite (replicate 12 Byte.x01) ex_history [Byte.x02] (ex_fp Byte.x61) [Byte.x03] 70 = Ret (true, db') /\
    group_invite (hold_all db' [Byte.x02] [(replicate 12 Byte.x04, [Byte.x05]); (replicate 12 Byte.x06, [Byte.x05])]) [Byte.x02]
    = Some (mkGroupInvite [Byte.x02] (ex_fp Byte.x61) 70 [[Byte.x03]; [Byte.x05]]).
Proof.
  destruct (held_records_exact (replicate 12 Byte.x01) ex_history [Byte.x02] (ex_fp Byte.x61) [Byte.x03] 70
    [(replicate 12 Byte.x04, [Byte.x05]); (replicate 12 Byte.x06, [Byte.x05])]) as (db' & Ha & Hg & _);
    [exact ex_history_ok|reflexivity|reflexivity|vm_compute; congruence|vm_compute; congruence| | |].
  - vm_compute. intros Hin. by apply not_elem_of_nil in Hin.
  - repeat constructor; vm_compute; congruence.
  - exists db'. split; [exact Ha|exact Hg].
Defined.
