(* ===== verification/HistoryArchives.v ===== *)
(** * Archive state on the device, and the upgrade from version 1

    What a device has checked of an archive only moves forward until the archive
    is removed; and a history of version 1 is carried over whole. *)

From Stdlib Require Import ZArith Lia Sorted.
From stdpp Require Import base list strings.
From S2P Require Import Prelude Wire RelayProtocol RelayProtocolSpec Crypto Envelope Sql HistoryTables HistoryStore HistoryRecords HistoryQueues HistoryInv HistoryProps HistoryGroups.
#[local] Open Scope Z_scope.
#[local] Open Scope wire_scope.

(** ** Archives only move forward *)

(** The same archive later: its keys and its place are unchanged, the checked
    head and the checkpoint are not lower, the hash of a head that has not moved
    is the same, and the join token is what it was or forgotten. *)
Definition archive_later (r r' : HArchiveRow) : Prop :=
  r'.(ha_conv_id) = r.(ha_conv_id) /\ r'.(ha_relay_address) = r.(ha_relay_address) /\ r'.(ha_relay_id) = r.(ha_relay_id) /\
  r'.(ha_role) = r.(ha_role) /\ r'.(ha_archive_key) = r.(ha_archive_key) /\ r'.(ha_chat_public) = r.(ha_chat_public) /\
  r'.(ha_chat_private) = r.(ha_chat_private) /\ r'.(ha_created_at) = r.(ha_created_at) /\
  (r'.(ha_join_token) = r.(ha_join_token) \/ r'.(ha_join_token) = []) /\
  r.(ha_checkpoint_seen) <= r'.(ha_checkpoint_seen) /\ r.(ha_head_number) <= r'.(ha_head_number) /\
  (r'.(ha_head_number) = r.(ha_head_number) -> r'.(ha_head_hash) = r.(ha_head_hash)).

#[export] Instance archive_later_preorder : PreOrder archive_later.
Proof.
  split.
  - intros r. unfold archive_later. split_and!; auto; lia.
  - intros a b c (?&?&?&?&?&?&?&?&Hj&?&?&Hh) (?&?&?&?&?&?&?&?&Hj'&?&?&Hh'). unfold archive_later.
    split_and!; try congruence; try lia.
    + destruct Hj' as [->| ->]; auto.
    + intros E. rewrite Hh', Hh by lia. done.
Qed.

Definition archive_forward (conv : bytes) (db db' : History) : Prop :=
  (forall r, r ∈ db.(h_archives) -> r.(ha_conv_id) = conv -> exists r', r' ∈ db'.(h_archives) /\ archive_later r r') /\
  (forall n h, archive_hash db conv n = Some h -> archive_hash db' conv n = Some h).

#[export] Instance archive_forward_preorder conv : PreOrder (archive_forward conv).
Proof.
  split.
  - intros db. split; [|done]. intros r Hr _. by exists r.
  - intros a b c [H1 H2] [H1' H2']. split; [|by auto]. intros r Hr Hc. destruct (H1 r Hr Hc) as (r' & Hr' & Hl).
    destruct (H1' r' Hr') as (r'' & Hr'' & Hl'); [destruct Hl; congruence|]. exists r''. split; [done|]. by etrans.
Qed.

Lemma forward_same conv db db' :
  db'.(h_archives) = db.(h_archives) -> db'.(h_archive_chain) = db.(h_archive_chain) -> archive_forward conv db db'.
Proof. intros E1 E2. unfold archive_forward, archive_hash. rewrite E1, E2. split; [|done]. intros r Hr _. by exists r. Qed.

Lemma update_archive_forward conv db c Q f :
  (forall r, Q r = true -> archive_later r (f r)) -> archive_forward conv db (update_archive db c Q f).
Proof.
  intros Hf. split; [|done]. intros r Hr _. exists (if decide (r.(ha_conv_id) = c /\ Q r = true) then f r else r).
  split; [apply list_elem_of_fmap; by exists r|]. case_decide as Hd; [apply Hf, Hd|done].
Qed.

Lemma elem_insert_or_ignore {A K} `{!EqDecision K} (key : A -> K) x y t : y ∈ t -> y ∈ insert_or_ignore key x t.
Proof. unfold insert_or_ignore. case_decide; [done|]. intros ?. apply elem_of_app. by left. Qed.

Lemma row_of_ignore {A K} `{!EqDecision K} (key : A -> K) x t k y :
  select_first (fun r => key r = k) t = Some y -> select_first (fun r => key r = k) (insert_or_ignore key x t) = Some y.
Proof. unfold insert_or_ignore. case_decide; [done|]. intros E. by rewrite row_of_snoc, E. Qed.

Lemma row_of_delete_other {A K} `{!EqDecision K} (key : A -> K) (Q : A -> Prop) `{HQ : !forall x, Decision (Q x)} t k :
  (forall x, key x = k -> ~ Q x) -> select_first (fun r => key r = k) (delete_rows Q t) = select_first (fun r => key r = k) t.
Proof.
  intros Hq. induction t as [|x t IH]; [done|]. unfold delete_rows in *. rewrite filter_cons, row_of_cons.
  destruct (decide (~ Q x)) as [Hx|Hx]; [by rewrite row_of_cons, IH|]. rewrite decide_False; [done|].
  intros E. apply Hx. by apply Hq.
Qed.

Lemma save_hashes_forward conv db c hs : archive_forward conv db (save_archive_hashes db c hs).
Proof.
  split; [intros r Hr _; by exists r|]. intros n h. unfold archive_hash. simpl.
  rewrite !fmap_Some. intros (y & Hy & ->). exists y. split; [|done]. revert Hy. generalize (h_archive_chain db).
  induction hs as [|[m g] hs IH]; intros t Hy; [done|]. simpl. apply IH. by apply row_of_ignore.
Qed.

Lemma remove_other_forward conv db c : c <> conv -> archive_forward conv db (hs_remove_archive db c).
Proof.
  intros Hne. split.
  - intros r Hr Hc. exists r. split; [|done]. apply elem_of_delete_rows. split; [congruence|done].
  - intros n h. unfold archive_hash. simpl. rewrite row_of_delete_other; [done|].
    intros x Hx Hc. unfold ac_key in Hx. congruence.
Qed.

Lemma kept_forward {A} conv db (f : A -> History) (e : exc A) :
  (forall a, e = Ret a -> archive_forward conv db (f a)) -> archive_forward conv db (kept db f e).
Proof. intros He. destruct e; simpl; [by apply He|done]. Qed.

Ltac same_archives :=
  apply kept_forward; intros ? Heq; revert Heq;
  repeat match goal with
  | |- context [exc_bind ?e _] => destruct e eqn:?; cbn [exc_bind]; try done
  end;
  intros [= <-].

Ltac later := intros; unfold archive_later; simpl in *; bool_prop; split_and!; auto; try lia.

Definition not_removing (conv : bytes) (op : hist_op) : bool :=
  match op with RemoveArchive c => negb (bool_decide (c = conv)) | _ => true end.

Lemma hist_step_forward `{P : Primitives} conv db op :
  not_removing conv op = true -> archive_forward conv db (hist_step db op).
Proof.
  intros Hop. destruct op; cbn [hist_step]; try (by apply forward_same); try (apply update_archive_forward; by later).
  - apply kept_forward. intros [c db'] E. unfold ensure_conversation in E. destruct (select_first _ _); [|done].
    destruct (hs_conversation _ _); [|done]. injection E as _ <-. by apply forward_same.
  - apply kept_forward. intros [c db'] E. unfold create_group in E. revert E. do 6 (case_match; [done|]).
    destruct (check_members _ _); [|done]. simpl. destruct (hs_conversation db id); [by intros [= _ <-]|].
    destruct (insert_row _ _ _); [|done]. destruct (insert_members _ _ _ _); [|done]. simpl.
    destruct (hs_conversation _ _); [|done]. intros [= _ <-]. by apply forward_same.
  - apply kept_forward. unfold set_conversation_state. intros db'. case_match; [done|]. intros [= <-]. by apply forward_same.
  - unfold add_message. destruct (exists_row _ _); [done|]. apply kept_forward. intros [b db'].
    destruct (hs_seal _ _ _ _); [|done]. simpl. destruct (next_rowid _); [|done]. simpl.
    destruct (references _ _ _); [|done]. simpl. destruct (insert_row _ _ _); [|done]. intros [= _ <-]. by apply forward_same.
  - unfold raise_delivery. destruct (negb _); [done|]. destruct (negb _); [done|].
    destruct (select_first _ _) as [d|]; [destruct (dl_status d <? status)|]; by apply forward_same.
  - unfold add_group_invite. same_archives. by apply forward_same.
  - unfold hold_for_invite. destruct (select_first _ _) as [row|]; [|done].
    destruct (let? plain := _ in unpack plain) as [[|r0 records]|]; [done| |done].
    case_match; [done|]. case_match; [done|]. same_archives. by apply forward_same.
  - unfold hs_add_archive. same_archives. split; [|done]. intros r Hr _. exists r. split; [|done]. by apply elem_insert_or_ignore.
  - apply save_hashes_forward.
  - unfold add_attachment. same_archives. by apply forward_same.
  - unfold grant_attachment. same_archives. by apply forward_same.
  - apply remove_other_forward. simpl in Hop. by apply negb_true_iff, bool_decide_eq_false in Hop.
  - unfold set_verified. destruct verified; by apply forward_same.
  - unfold save_member_token. same_archives. by apply forward_same.
  - unfold hs_enqueue. same_archives. by apply forward_same.
  - unfold update_outbox_records. destruct (select_first _ _) as [row|]; [|done]. same_archives. by apply forward_same.
  - unfold add_request. same_archives. by apply forward_same.
Qed.

(** The checked chain of an archive only moves forward. Until the archive is
    removed, whatever the history does: its keys stay, the head this device has
    checked never goes back and its hash never changes without the head moving on,
    the highest checkpoint seen never goes back, and the hash kept for an entry is
    never replaced by another. So a relay that shows a different chain later is
    compared with what was checked first. *)
Theorem archive_only_forward `{P : Primitives} conv db ops :
  Forall (fun op => not_removing conv op = true) ops -> archive_forward conv db (hist_run db ops).
Proof.
  intros Hops. revert db. induction Hops as [|op ops Hop _ IH]; intros db; [done|].
  etrans; [by apply hist_step_forward|apply IH].
Qed.

(** ** The upgrade from version 1 *)

(** The conversation a row of version 1 becomes. *)
Definition upgraded_row (c : ConvRowV1) : ConvRow :=
  mkConvRow c.(v1_id) Direct c.(v1_contact_fp) [] [] Saved 0 [] Active c.(v1_created_at) c.(v1_last_activity)
    c.(v1_send_delivery) c.(v1_send_read).
Definition upgraded (c : ConvRowV1) : Conversation :=
  mkConversation c.(v1_id) c.(v1_contact_fp) c.(v1_created_at) c.(v1_last_activity) c.(v1_send_delivery) c.(v1_send_read)
    Direct Active [] [] Saved 0 [] [c.(v1_contact_fp)].

Lemma upgraded_members convs c :
  unique v1_id convs -> c ∈ convs ->
  filter (fun m => m.(mem_conv_id) = c.(v1_id)) (map (fun r => mkMemberRow r.(cv_id) r.(cv_contact_fp) 0) (map upgraded_row convs))
  = [mkMemberRow c.(v1_id) c.(v1_contact_fp) 0].
Proof.
  rewrite map_map. induction convs as [|x convs IH]; intros Hu Hin; [by apply not_elem_of_nil in Hin|].
  unfold unique in Hu. simpl in Hu. apply NoDup_cons in Hu as [Hn Hu]. cbn [map]. rewrite filter_cons. simpl.
  apply elem_of_cons in Hin as [<-|Hin].
  - rewrite decide_True by done. f_equal. apply filter_none. apply Forall_forall. intros m Hm E.
    apply list_elem_of_fmap in Hm as (y & -> & Hy). simpl in E. apply Hn. rewrite <- E. by apply list_elem_of_fmap_2.
  - rewrite decide_False; [by apply IH|]. intros E. apply Hn. rewrite E. by apply list_elem_of_fmap_2.
Qed.

(** The upgrade from version 1 loses nothing. If its conversations have
    distinct IDs and contacts and its messages belong to them, opening the file
    succeeds; every conversation becomes a direct one with the same ID, contact,
    times and receipt settings and with the contact as its one member; messages,
    deliveries and queues are untouched; and the result satisfies what the new
    schema requires. Two conversations with one contact are refused. *)
Theorem upgrade_keeps_history convs rest key :
  size key = 32 -> unique v1_id convs ->
  messages_ok (map v1_id convs) rest.(h_messages) rest.(h_messages_seq) rest.(h_deliveries) ->
  (NoDup (map v1_contact_fp convs) ->
   exists db, open_history (FileV1 convs rest) key = Ret db /\
     conversations_ok db.(h_conversations) db.(h_conversation_members) /\
     messages_ok (map cv_id db.(h_conversations)) db.(h_messages) db.(h_messages_seq) db.(h_deliveries) /\
     (forall c, c ∈ convs -> hs_conversation db c.(v1_id) = Some (upgraded c) /\ conversation_for db c.(v1_contact_fp) = Some (upgraded c)) /\
     size db.(h_conversations) = size convs /\
     db.(h_messages) = rest.(h_messages) /\ db.(h_deliveries) = rest.(h_deliveries) /\ db.(h_outbox) = rest.(h_outbox) /\
     db.(h_requests) = rest.(h_requests) /\ db.(h_issued_tokens) = rest.(h_issued_tokens) /\ db.(h_contact_state) = rest.(h_contact_state)) /\
  (~ NoDup (map v1_contact_fp convs) -> exists w, open_history (FileV1 convs rest) key = Throw w).
Proof.
  intros Hk Hu Hm. unfold open_history. rewrite Hk. cbn [Z.eqb Pos.eqb negb]. unfold migrate_v1_to_v2. fold upgraded_row.
  assert (map cv_contact_fp (map upgraded_row convs) = map v1_contact_fp convs) as Ec by by rewrite map_map.
  assert (map cv_id (map upgraded_row convs) = map v1_id convs) as Ei by by rewrite map_map.
  rewrite Ec. split; [|by intros Hd; rewrite bool_decide_eq_false_2 by done; eexists].
  intros Hd. rewrite bool_decide_eq_true_2 by done. cbn [negb].
  match goal with |- context [forallb ?f ?l] => assert (forallb f l = true) as -> end.
  { apply forallb_forall. intros m Hin%list_elem_of_In. apply references_true. simpl. rewrite Ei. by apply Hm. }
  eexists. split; [reflexivity|]. simpl.
  assert (filter (fun c => cv_kind c = Direct) (map upgraded_row convs) = map upgraded_row convs) as Ef.
  { apply filter_all. apply Forall_forall. intros r Hr. by apply list_elem_of_fmap in Hr as (c & -> & _). }
  assert (unique cv_id (map upgraded_row convs)) as Hu' by (unfold unique; by rewrite Ei).
  split_and!; try done.
  - constructor; [done|unfold one_direct; by rewrite Ef, Ec| |].
    + unfold unique. rewrite !map_map. change (fun x => mem_key _) with (fun x : ConvRowV1 => (v1_id x, v1_contact_fp x)).
      apply (NoDup_fmap_1 fst). change (NoDup (map fst (map (fun x => (v1_id x, v1_contact_fp x)) convs))). by rewrite map_map.
    + intros m Hm'. apply list_elem_of_fmap in Hm' as (r & -> & Hr). simpl. by apply list_elem_of_fmap_2.
  - by rewrite Ei.
  - intros c Hc.
    assert (forall db, read_conversation (set_conversation_members (map (fun r => mkMemberRow (cv_id r) (cv_contact_fp r) 0)
      (map upgraded_row convs)) db) (upgraded_row c) = upgraded c) as Hread.
    { intros db. unfold read_conversation, load_members. simpl. by rewrite upgraded_members. }
    assert (upgraded_row c ∈ map upgraded_row convs) as Hr by by apply list_elem_of_fmap_2. split.
    + unfold hs_conversation. simpl.
      rewrite (select_first_unique cv_id _ (upgraded_row c) Hu' Hr : select_first (fun y => cv_id y = v1_id c) _ = _). simpl.
      by rewrite Hread.
    + unfold conversation_for. simpl. destruct (select_first _ _) as [r|] eqn:E.
      * apply select_first_Some in E as [Hin [_ Hfp]].
        assert (r = upgraded_row c) as ->; [|simpl; by rewrite Hread].
        apply list_elem_of_fmap in Hin as (c' & -> & Hc'). f_equal. simpl in Hfp.
        by apply (unique_key_inj v1_contact_fp convs).
      * rewrite select_first_None in E. by destruct (E _ Hr).
  - by rewrite size_map.
Qed.

(** ** Witnesses *)

(** An archive whose head moves to 5 and is then reported at 3. *)
Lemma archive_only_forward_witness :
  let a := mkHArchive ex_conv [] [] 1 ArchiveJoined [] [] [] [] 2 [Byte.x02] 10 [] 0 0 0 [] in
  let db := hist_run ex_history [AddArchive (replicate 12 Byte.x01) (replicate 12 Byte.x02) [] a] in
  archive_forward ex_conv db (hist_run db [SetArchiveHead ex_conv 5 [Byte.x05]; SetArchiveHead ex_conv 3 [Byte.x03]]) /\
  map ha_head_number (hist_run db [SetArchiveHead ex_conv 5 [Byte.x05]; SetArchiveHead ex_conv 3 [Byte.x03]]).(h_archives) = [5].
Proof.
  cbv zeta. split; [|vm_compute; reflexivity]. apply archive_only_forward. repeat constructor.
Defined.

Lemma upgrade_keeps_history_witness :
  let c := mkConvRowV1 [Byte.x01] (ex_fp Byte.x61) 5 9 true false in
  exists db, open_history (FileV1 [c] (empty_history [])) (replicate 32 Byte.x05) = Ret db /\
    conversation_for db (ex_fp Byte.x61) = Some (upgraded c).
Proof.
  cbv zeta.
  destruct (upgrade_keeps_history [mkConvRowV1 [Byte.x01] (ex_fp Byte.x61) 5 9 true false] (empty_history []) (replicate 32 Byte.x05))
    as [H _]; [reflexivity|apply NoDup_singleton| |].
  - constructor; simpl; try apply unique_nil; try apply sequenced_nil; by intros ? ?%elem_of_nil.
  - destruct H as (db & Ho & _ & _ & Hc & _); [apply NoDup_singleton|]. exists db. split; [exact Ho|].
    apply (Hc (mkConvRowV1 [Byte.x01] (ex_fp Byte.x61) 5 9 true false)). left.
Defined.
