(* ===== verification/RelayClient.v ===== *)
(** * One connection to a relay: client/relay_client.h and relay_client.cpp

    [RelayClient] keeps a socket, the relay's identity and challenge, events that
    arrived while it waited for something else, and the IDs of the envelopes
    delivered on this connection. Every method returns a value or an error text.
    The socket is the messages still to come on it (after them the connection is
    lost), how many more it takes before it fails, and what was sent; the bytes of
    one message are in [Protocol]. Addresses are resolved, and what connecting to
    them comes to, outside. *)

From Stdlib Require Import ZArith Lia.
From stdpp Require Import base list strings gmap.
From S2P Require Import Prelude Wire Text Protocol RelayProtocol RelayProtocolSpec Crypto.
#[local] Open Scope Z_scope.

(** src/client/relay_client.h 55-59 Event *)
Inductive Event :=
  | Envelope (e : StoredEnvelope)
  | CollectEnd
  | Timeout
  | Closed (text : bytes).

(** What a send to the relay's chain comes to; a failure is an error.
    src/client/relay_client.h 112-112 AppendOutcome *)
Inductive AppendOutcome :=
  | Appended (head : ArchiveHead)
  | Stale (head : ArchiveHead).

Module Client.

Record Socket := mkSocket {
  so_in : list (MessageType * bytes);
  so_takes : option nat;
  so_sent : list (MessageType * bytes);
}.

(** src/client/relay_client.h 136-140 RelayClient *)
Record RelayClient := mkRelayClient {
  rc_sock : option Socket;
  rc_relay_id : bytes;
  rc_challenge : bytes;
  rc_queue : list Event;
  rc_seen : gset bytes;
}.

Definition set_sock (sock : option Socket) (c : RelayClient) : RelayClient :=
  mkRelayClient sock c.(rc_relay_id) c.(rc_challenge) c.(rc_queue) c.(rc_seen).
Definition set_queue (queue : list Event) (seen : gset bytes) (c : RelayClient) : RelayClient :=
  mkRelayClient c.(rc_sock) c.(rc_relay_id) c.(rc_challenge) queue seen.

(** ** Methods *)

(** A method: it returns true with a result, or false with an error. *)
Definition C (A : Type) : Type := RelayClient -> (bytes + A) * RelayClient.

Definition cret {A} (a : A) : C A := fun c => (inr a, c).
Definition cfail {A} (error : bytes) : C A := fun c => (inl error, c).
Definition cbind {A B} (m : C A) (k : A -> C B) : C B :=
  fun c => match m c with (inr a, c) => k a c | (inl err, c) => (inl err, c) end.
Definition cexc {A} (x : exc A) : C A := match x with Ret a => cret a | Throw what => cfail (str what) end.

Declare Scope client_scope.
Delimit Scope client_scope with client.
Notation "'do' x <- m ; k" := (cbind m (fun x => k)) (at level 100, x pattern, m at next level, k at level 200, right associativity) : client_scope.
#[local] Open Scope client_scope.

(** src/client/relay_client.cpp 24-31 close *)
Definition close (c : RelayClient) : RelayClient := mkRelayClient None c.(rc_relay_id) c.(rc_challenge) [] ∅.

(** [{ error = ...; close(); return false; }]. *)
Definition hang_up {A} (error : string) : C A := fun c => (inl (str error), close c).

(** src/client/relay_client.h 33-33 connected *)
Definition connected (c : RelayClient) : bool := match c.(rc_sock) with Some _ => true | None => false end.

(** src/client/relay_client.cpp 11-18 clean *)
Definition clean (payload : bytes) : bytes :=
  let out := map (fun b => if (32 <=? Z_of_byte b) && negb (Z_of_byte b =? 127) then b else chr 32) (ztake 200 payload) in
  if is_empty out then str "unknown error" else out.

Definition relay_error (payload : bytes) : bytes := str "Relay: " ++ clean payload.

(** [recv_message(sock_, relay::MAX_MESSAGE_PAYLOAD)]. *)
Definition receive (c : RelayClient) : option (MessageType * bytes) * RelayClient :=
  match c.(rc_sock) with
  | Some s => match s.(so_in) with m :: rest => (Some m, set_sock (Some (mkSocket rest s.(so_takes) s.(so_sent))) c) | [] => (None, c) end
  | None => (None, c)
  end.

(** src/client/relay_client.cpp 105-116 send_request *)
Definition send_request (t : MessageType) (payload : bytes) : C unit := fun c =>
  match c.(rc_sock) with
  | None => (inl (str "Not connected to a relay"), c)
  | Some s =>
      match s.(so_takes) with
      | Some O => hang_up "Lost the connection to the relay" c
      | takes => (inr tt, set_sock (Some (mkSocket s.(so_in) (Nat.pred <$> takes) (s.(so_sent) ++ [(t, payload)]))) c)
      end
  end.

(** src/client/relay_client.cpp 118-126 queue_envelope *)
Definition queue_envelope (payload : bytes) (c : RelayClient) : RelayClient :=
  match decode_stored_envelope payload with
  | None => c
  | Some env =>
      if bool_decide (env.(StoredEnvelope_id) ∈ c.(rc_seen)) then c
      else set_queue (c.(rc_queue) ++ [Envelope env]) ({[env.(StoredEnvelope_id)]} ∪ c.(rc_seen)) c
  end.

(** [while (true)]: a round takes one of the messages to come.
    src/client/relay_client.cpp 128-162 read_reply_either *)
Fixpoint read_loop (fuel : nat) (first second : MessageType) (c : RelayClient) : (bytes + (MessageType * bytes)) * RelayClient :=
  match fuel with
  | O => hang_up "Lost the connection to the relay" c
  | S fuel =>
      match receive c with
      | (None, c) => hang_up "Lost the connection to the relay" c
      | (Some (t, payload), c) =>
          if bool_decide (t = first) || bool_decide (t = second) then (inr (t, payload), c) else
          match t with
          | ERROR_MSG => (inl (relay_error payload), c)
          | RELAY_ENVELOPE => read_loop fuel first second (queue_envelope payload c)
          | RELAY_COLLECT_END => read_loop fuel first second (set_queue (c.(rc_queue) ++ [CollectEnd]) c.(rc_seen) c)
          | RELAY_PONG => read_loop fuel first second c
          | _ => hang_up "The relay sent something unexpected" c
          end
      end
  end.

(** How many messages are still to come. *)
Definition to_come (c : RelayClient) : nat := match c.(rc_sock) with Some s => length s.(so_in) | None => O end.

(** src/client/relay_client.cpp 128-162 read_reply_either *)
Definition read_reply_either (first second : MessageType) : C (MessageType * bytes) := fun c => read_loop (S (to_come c)) first second c.

(** src/client/relay_client.cpp 163-165 read_reply *)
Definition read_reply (expected : MessageType) : C bytes :=
  do r <- read_reply_either expected expected; cret r.2.

(** [send_request(...) && read_reply(...)]. *)
Definition ask (t : MessageType) (payload : bytes) (expected : MessageType) : C bytes :=
  do _ <- send_request t payload; read_reply expected.

(** An answer that must decode, or the connection is closed. *)
Definition decoded {A} (a : option A) : C A := match a with Some a => cret a | None => hang_up "The relay sent an invalid answer" end.

Section client.
Context `{P : Primitives}.

(** What resolving the address and connecting to it comes to: an error text, or an
    open socket. *)
Abbreviation dialled := (bytes + Socket)%type.

(** What the answer to the hello must be.
    src/client/relay_client.cpp 33-103 connect *)
Definition check_hello (nonce expected_relay_id : bytes) (t : MessageType) (payload : bytes) : C unit := fun c =>
  if bool_decide (t = ERROR_MSG) then (inl (relay_error payload), close c) else
  match (if bool_decide (t = RELAY_HELLO_REPLY) then decode_hello_reply payload else None) with
  | None => hang_up "That is not a PQ File Transfer relay, or it speaks an incompatible version" c
  | Some reply =>
      if negb (size reply.(HelloReply_relay_public_key) =? sig_public_key_size)
      then hang_up "That is not a PQ File Transfer relay, or it speaks an incompatible version" c else
      let id := sha256 reply.(HelloReply_relay_public_key) in
      let c := mkRelayClient c.(rc_sock) id c.(rc_challenge) c.(rc_queue) c.(rc_seen) in
      if negb (is_empty expected_relay_id) && negb (bool_decide (id = expected_relay_id)) then
        (inl (str "This relay's identity does not match the one you pinned (expected " ++ ztake 16 (bytes_to_hex expected_relay_id)
              ++ str "..., got " ++ ztake 16 (bytes_to_hex id)
              ++ str "...). Someone may be impersonating it, or it was rebuilt without its key."), close c) else
      if negb (verify (hello_signing_input nonce id WIRE_VERSION reply.(HelloReply_auth_challenge)) reply.(HelloReply_signature)
                 reply.(HelloReply_relay_public_key))
      then hang_up "The relay failed to prove its identity. It may be impersonated, or an old answer is being replayed." c else
      (inr tt, mkRelayClient c.(rc_sock) id reply.(HelloReply_auth_challenge) c.(rc_queue) c.(rc_seen))
  end.

(** src/client/relay_client.cpp 33-103 connect *)
Definition connect (dial : dialled) (nonce expected_relay_id : bytes) : C unit := fun c =>
  let c := close c in
  match dial with
  | inl error => (inl error, c)
  | inr sock =>
      (do _ <- send_request RELAY_HELLO (encode_Hello (mkHello WIRE_VERSION nonce));
       fun c => match receive c with
                | (None, c) => hang_up "The relay did not answer" c
                | (Some (t, payload), c) => check_hello nonce expected_relay_id t payload c
                end) (set_sock (Some sock) c)
  end.

(** src/client/relay_client.cpp 167-184 register_mailbox *)
Definition register_mailbox (rand invite mailbox_id public_key private_key send_token : bytes) : C unit := fun c =>
  let hash := sha256 send_token in
  (do signature <- cexc (sign rand (register_signing_input c.(rc_relay_id) mailbox_id public_key hash) private_key);
   do _ <- ask RELAY_REGISTER (encode_Register (mkRegister invite mailbox_id public_key hash signature)) RELAY_REGISTER_OK;
   cret tt) c.

(** [if (!ok) close();]. *)
Definition or_close {A} (m : C A) : C A := fun c => match m c with (inl err, c) => (inl err, close c) | r => r end.

(** src/client/relay_client.cpp 186-201 authenticate *)
Definition authenticate (rand mailbox_id access_private_key : bytes) : C unit := fun c =>
  (do signature <- cexc (sign rand (auth_signing_input c.(rc_challenge) c.(rc_relay_id) mailbox_id) access_private_key);
   or_close (do _ <- ask RELAY_AUTH (encode_Auth (mkAuth mailbox_id signature)) RELAY_AUTH_OK; cret tt)) c.

(** src/client/relay_client.cpp 203-222 deposit *)
Definition deposit (mailbox_id send_token envelope : bytes) (ttl_seconds : Z) : C bytes :=
  if MAX_ENVELOPE_BYTES <? size envelope then cfail (str "That message is too large for the relay") else
  do reply <- ask RELAY_DEPOSIT (encode_Deposit (mkDeposit mailbox_id send_token envelope ttl_seconds)) RELAY_DEPOSIT_OK;
  cret (match decode_id_list reply with
        | Some ids => default [] (head ids.(IdList_ids))
        | None => []
        end).

(** src/client/relay_client.cpp 224-226 collect *)
Definition collect : C unit := send_request RELAY_COLLECT [].

Definition pop_event (c : RelayClient) : option (Event * RelayClient) :=
  match c.(rc_queue) with
  | e :: queue => Some (e, set_queue queue c.(rc_seen) c)
  | [] => None
  end.

(** [readable]: whether something can be read in time.
    src/client/relay_client.cpp 228-274 next_event *)
Definition next_event (readable : bool) (c : RelayClient) : Event * RelayClient :=
  match pop_event c with
  | Some r => r
  | None =>
      if negb (connected c) then (Closed (str "Not connected to a relay"), c) else
      if negb readable then (Timeout, c) else
      match receive c with
      | (None, c) => (Closed (str "Lost the connection to the relay"), close c)
      | (Some (RELAY_ENVELOPE, payload), c) =>
          let c := queue_envelope payload c in
          match pop_event c with Some r => r | None => (Timeout, c) end
      | (Some (RELAY_COLLECT_END, _), c) => (CollectEnd, c)
      | (Some (RELAY_PONG, _), c) => match pop_event c with Some r => r | None => (Timeout, c) end
      | (Some (ERROR_MSG, payload), c) => (Closed (relay_error payload), close c)
      | (Some _, c) => (Closed (str "The relay sent something unexpected"), close c)
      end
  end.

(** One round of the loop: at most [MAX_ACK_IDS] of the IDs.
    src/client/relay_client.cpp 276-292 acknowledge *)
Definition acknowledge_batch (ids : list bytes) : C Z :=
  do reply <- ask RELAY_ACK (encode_IdList (mkIdList ids)) RELAY_ACK_OK;
  fun c => (inr (default 0 (fst (read_u32 reply 0))), set_queue c.(rc_queue) (c.(rc_seen) ∖ list_to_set ids) c).

(** The loop runs once more when there are no IDs at all; there are at most as many
    rounds as IDs.
    src/client/relay_client.cpp 276-292 acknowledge *)
Fixpoint acknowledge_loop (fuel : nat) (ids : list bytes) (deleted : Z) : C Z :=
  match fuel, ids with
  | O, _ | _, [] => cret deleted
  | S fuel, _ => do n <- acknowledge_batch (ztake MAX_ACK_IDS ids); acknowledge_loop fuel (zdrop MAX_ACK_IDS ids) (u64 (deleted + n))
  end.

(** src/client/relay_client.cpp 276-292 acknowledge *)
Definition acknowledge (ids : list bytes) : C Z :=
  match ids with
  | [] => acknowledge_batch []
  | _ => acknowledge_loop (length ids) ids 0
  end.

(** src/client/relay_client.cpp 294-303 create_invite *)
Definition create_invite : C bytes :=
  do payload <- ask RELAY_INVITE_CREATE [] RELAY_INVITE_OK;
  if negb (size payload =? INVITE_BYTES) then cfail (str "The relay sent an invalid invite") else cret payload.

(** src/client/relay_client.cpp 305-315 list_invites *)
Definition list_invites : C InviteStatus :=
  do payload <- ask RELAY_INVITE_LIST [] RELAY_INVITE_LIST_OK;
  match decode_invite_status payload with
  | Some status => cret status
  | None => cfail (str "The relay sent an invalid answer")
  end.

(** src/client/relay_client.cpp 317-320 cancel_invite *)
Definition cancel_invite (invite_hash : bytes) : C unit :=
  do _ <- ask RELAY_INVITE_CANCEL (encode_HashOp (mkHashOp invite_hash)) RELAY_INVITE_CANCEL_OK; cret tt.

(** src/client/relay_client.cpp 322-329 put_prekeys *)
Definition put_prekeys (put : PrekeyPut) : C PrekeyStatus :=
  do payload <- ask PREKEY_PUT (encode_PrekeyPut put) PREKEY_PUT_OK; decoded (decode_prekey_status payload).

(** src/client/relay_client.cpp 331-338 prekey_status *)
Definition prekey_status : C PrekeyStatus :=
  do payload <- ask PREKEY_STATUS [] PREKEY_STATUS_OK; decoded (decode_prekey_status payload).

(** src/client/relay_client.cpp 340-347 take_prekey *)
Definition take_prekey (mailbox_id send_token : bytes) : C PrekeyData :=
  do payload <- ask PREKEY_TAKE (encode_PrekeyTake (mkPrekeyTake mailbox_id send_token)) PREKEY_DATA;
  decoded (decode_prekey_data payload).

(** The chunks from [i] on, [n] of them; the source says no with [None].
    src/client/relay_client.cpp 349-373 upload_file *)
Fixpoint upload_chunks (n : nat) (i count : Z) (source : Z -> option bytes) : C unit :=
  match n with
  | O => cret tt
  | S n =>
      match source i with
      | None => hang_up "The file could not be read"
      | Some chunk =>
          do _ <- send_request FILE_CHUNK (encode_RelayFileChunk (mkRelayFileChunk i chunk));
          do _ <- (if (u32 (i + 1) mod FILE_ACK_WINDOW =? 0) || (u32 (i + 1) =? count) then
                     do ack <- read_reply FILE_CHUNK_OK;
                     match fst (read_u32 ack 0) with
                     | Some stored => if stored =? u32 (i + 1) then cret tt else hang_up "The relay's answer doesn't match what was sent"
                     | None => hang_up "The relay's answer doesn't match what was sent"
                     end
                   else cret tt);
          upload_chunks n (u32 (i + 1)) count source
      end
  end.

(** src/client/relay_client.cpp 349-373 upload_file *)
Definition upload_file (begin_ : FileBegin) (source : Z -> option bytes) : C unit :=
  do _ <- ask FILE_UPLOAD_BEGIN (encode_FileBegin begin_) FILE_UPLOAD_OK;
  upload_chunks (Z.to_nat begin_.(FileBegin_chunk_count)) 0 begin_.(FileBegin_chunk_count) source.

(** Whether a chunk is the one expected, with the size it must have.
    src/client/relay_client.cpp 375-425 download_file *)
Definition chunk_fits (info : FileInfo) (expected : Z) (chunk : RelayFileChunk) : bool :=
  let index := chunk.(RelayFileChunk_index) in
  let offset := u64 (index * info.(FileInfo_chunk_size)) in
  let want := if u32 (index + 1) <? info.(FileInfo_chunk_count) then info.(FileInfo_chunk_size)
              else u64 (info.(FileInfo_total_size) - offset) in
  (index =? expected) && (size chunk.(RelayFileChunk_data) =? want) && (expected <? info.(FileInfo_chunk_count)).

(** The sink keeps a state of its own; it says no with [None].
    src/client/relay_client.cpp 375-425 download_file *)
Fixpoint download_loop {S} (fuel : nat) (info : FileInfo) (expected : Z) (sink : Z -> bytes -> S -> bool * S) (s : S) (c : RelayClient)
    : (bytes + unit) * S * RelayClient :=
  let stop error c := (inl (str error), s, close c) in
  match fuel with
  | O => stop "Lost the connection to the relay" c
  | Datatypes.S fuel =>
      match receive c with
      | (None, c) => stop "Lost the connection to the relay" c
      | (Some (FILE_DATA, payload), c) =>
          match decode_file_chunk payload with
          | None => stop "The relay sent a chunk that doesn't fit" c
          | Some chunk =>
              if negb (chunk_fits info expected chunk) then stop "The relay sent a chunk that doesn't fit" c else
              match sink chunk.(RelayFileChunk_index) chunk.(RelayFileChunk_data) s with
              | (false, s) => (inl (str "The download was stopped"), s, close c)
              | (true, s) => download_loop fuel info (u32 (expected + 1)) sink s c
              end
          end
      | (Some (FILE_DOWNLOAD_END, _), c) =>
          if negb (expected =? info.(FileInfo_chunk_count)) then stop "The relay stopped sending before the end of the file" c
          else (inr tt, s, c)
      | (Some (ERROR_MSG, payload), c) => (inl (relay_error payload), s, c)
      | (Some _, c) => stop "The relay sent something unexpected" c
      end
  end.

(** src/client/relay_client.cpp 375-425 download_file *)
Definition download_file {S} (file_id token : bytes) (from_chunk : Z) (sink : Z -> bytes -> S -> bool * S) (s : S) (c : RelayClient)
    : (bytes + FileInfo) * S * RelayClient :=
  let begun :=
    (do payload <- ask FILE_DOWNLOAD (encode_FileDownload (mkFileDownload file_id token from_chunk)) FILE_INFO;
     match decode_file_info payload with
     | Some info => if info.(FileInfo_chunk_count) <=? from_chunk then hang_up "The relay sent an invalid answer" else cret info
     | None => hang_up "The relay sent an invalid answer"
     end) c in
  match begun with
  | (inl err, c) => (inl err, s, c)
  | (inr info, c) =>
      let '(r, s, c) := download_loop (Datatypes.S (to_come c)) info from_chunk sink s c in
      (match r with inr _ => inr info | inl err => inl err end, s, c)
  end.

(** src/client/relay_client.cpp 427-429 redeem_file *)
Definition redeem_file (file_id token : bytes) : C unit :=
  do _ <- ask FILE_REDEEM (encode_FileRedeem (mkFileRedeem file_id token)) FILE_REDEEM_OK; cret tt.

(** src/client/relay_client.cpp 431-433 cancel_file *)
Definition cancel_file (file_id : bytes) : C unit :=
  do _ <- ask FILE_CANCEL (encode_FileRef (mkFileRef file_id)) FILE_CANCEL_OK; cret tt.

(** src/client/relay_client.cpp 435-446 file_status *)
Definition file_status (file_id : bytes) : C FileStatus :=
  do payload <- ask FILE_STATUS (encode_FileRef (mkFileRef file_id)) FILE_STATUS_OK; decoded (decode_file_status payload).

(** The chunks from [i] on, [n] of them.
    src/client/relay_client.cpp 448-461 put_keyring *)
Fixpoint put_keyring_chunks (n : nat) (i count : Z) (blob : bytes) : C unit :=
  match n with
  | O => cret tt
  | S n =>
      let piece := ztake KEYRING_CHUNK_BYTES (zdrop (i * KEYRING_CHUNK_BYTES) blob) in
      do _ <- ask KEYRING_PUT (encode_KeyringChunk (mkKeyringChunk (u32 (size blob)) i count piece)) KEYRING_PUT_OK;
      put_keyring_chunks n (i + 1) count blob
  end.

(** src/client/relay_client.cpp 448-461 put_keyring *)
Definition put_keyring (blob : bytes) : C unit :=
  if is_empty blob || (MAX_KEYRING_BYTES <? size blob) then cfail (str "That keyring is empty or too large") else
  let count := u32 ((size blob + KEYRING_CHUNK_BYTES - 1) / KEYRING_CHUNK_BYTES) in
  put_keyring_chunks (Z.to_nat count) 0 count blob.

(** The chunks from [next] on; a round takes at least one message.
    src/client/relay_client.cpp 463-496 get_keyring *)
Fixpoint get_keyring_loop (fuel : nat) (total count next : Z) (blob : bytes) : C (option bytes) :=
  match fuel with
  | O => hang_up "Lost the connection to the relay"
  | S fuel =>
      do payload <- read_reply KEYRING_DATA;
      match decode_keyring_chunk payload with
      | None => hang_up "The relay sent an invalid answer"
      | Some chunk =>
          if chunk.(KeyringChunk_count) =? 0 then
            if negb (next =? 0) then hang_up "The relay sent an invalid answer" else cret None
          else
          let '(total, count) := if next =? 0 then (chunk.(KeyringChunk_total_size), chunk.(KeyringChunk_count)) else (total, count) in
          if negb (chunk.(KeyringChunk_index) =? next) || negb (chunk.(KeyringChunk_total_size) =? total)
             || negb (chunk.(KeyringChunk_count) =? count)
          then hang_up "The relay sent the keyring out of order" else
          let blob := blob ++ chunk.(KeyringChunk_data) in
          if u32 (next + 1) =? count then cret (Some blob) else get_keyring_loop fuel total count (u32 (next + 1)) blob
      end
  end.

(** src/client/relay_client.cpp 463-496 get_keyring *)
Definition get_keyring : C (option bytes) :=
  do _ <- send_request KEYRING_GET []; fun c => get_keyring_loop (S (to_come c)) 0 0 0 [] c.

(** src/client/relay_client.cpp 498-501 create_archive *)
Definition create_archive (archive_id : bytes) (join_token_hashes : list bytes) : C unit :=
  do _ <- ask ARCHIVE_CREATE (encode_ArchiveCreate (mkArchiveCreate archive_id join_token_hashes)) ARCHIVE_CREATE_OK; cret tt.

(** src/client/relay_client.cpp 503-517 join_archive *)
Definition join_archive (rand archive_id join_token public_key private_key : bytes) : C unit := fun c =>
  (do signature <- cexc (sign rand (archive_join_signing_input c.(rc_relay_id) archive_id public_key (sha256 join_token)) private_key);
   do _ <- ask ARCHIVE_JOIN (encode_ArchiveJoin (mkArchiveJoin archive_id join_token public_key signature)) ARCHIVE_JOIN_OK;
   cret tt) c.

(** src/client/relay_client.cpp 519-532 authenticate_archive *)
Definition authenticate_archive (rand archive_id public_key private_key : bytes) : C unit := fun c =>
  let hash := sha256 public_key in
  (do signature <- cexc (sign rand (archive_auth_signing_input c.(rc_challenge) c.(rc_relay_id) archive_id hash) private_key);
   or_close (do _ <- ask ARCHIVE_AUTH (encode_ArchiveAuth (mkArchiveAuth archive_id hash signature)) ARCHIVE_AUTH_OK; cret tt)) c.

(** src/client/relay_client.cpp 534-549 append_entry *)
Definition append_entry (expected_number : Z) (expected_hash ciphertext : bytes) : C AppendOutcome :=
  do _ <- send_request ARCHIVE_APPEND (encode_ArchiveAppend (mkArchiveAppend expected_number expected_hash ciphertext));
  do (which, payload) <- read_reply_either ARCHIVE_APPEND_OK ARCHIVE_STALE;
  do head <- decoded (decode_archive_head payload);
  cret (if bool_decide (which = ARCHIVE_APPEND_OK) then Appended head else Stale head).

(** src/client/relay_client.cpp 551-553 delete_in_archive *)
Definition delete_in_archive (order : ArchiveDelete) : C unit :=
  do _ <- ask ARCHIVE_DELETE (encode_ArchiveDelete order) ARCHIVE_DELETE_OK; cret tt.

(** src/client/relay_client.cpp 555-592 fetch_entries *)
Fixpoint fetch_loop (fuel : nat) (limit : Z) (entries : list ArchiveEntry) (c : RelayClient)
    : (bytes + (list ArchiveEntry * ArchiveHead)) * RelayClient :=
  match fuel with
  | O => hang_up "Lost the connection to the relay" c
  | S fuel =>
      match receive c with
      | (None, c) => hang_up "Lost the connection to the relay" c
      | (Some (ARCHIVE_ENTRY, payload), c) =>
          match decode_archive_entry payload with
          | Some e => if limit <=? size entries then hang_up "The relay sent an invalid answer" c else fetch_loop fuel limit (entries ++ [e]) c
          | None => hang_up "The relay sent an invalid answer" c
          end
      | (Some (ARCHIVE_FETCH_END, payload), c) =>
          match decode_archive_head payload with
          | Some h => (inr (entries, h), c)
          | None => hang_up "The relay sent an invalid answer" c
          end
      | (Some (ERROR_MSG, payload), c) => (inl (relay_error payload), c)
      | (Some _, c) => hang_up "The relay sent something unexpected" c
      end
  end.

(** src/client/relay_client.cpp 555-592 fetch_entries *)
Definition fetch_entries (from_number limit : Z) : C (list ArchiveEntry * ArchiveHead) :=
  do _ <- send_request ARCHIVE_FETCH (encode_ArchiveFetch (mkArchiveFetch from_number limit));
  fun c => fetch_loop (S (to_come c)) limit [] c.

(** src/client/relay_client.cpp 594-597 add_token *)
Definition add_token (token_hash : bytes) : C unit :=
  do _ <- ask RELAY_TOKEN_ADD (encode_HashOp (mkHashOp token_hash)) RELAY_TOKEN_OK; cret tt.

(** src/client/relay_client.cpp 599-602 revoke_token *)
Definition revoke_token (token_hash : bytes) : C unit :=
  do _ <- ask RELAY_TOKEN_REVOKE (encode_HashOp (mkHashOp token_hash)) RELAY_TOKEN_OK; cret tt.

(** src/client/relay_client.cpp 604-606 ping *)
Definition ping : C unit := do _ <- ask RELAY_PING [] RELAY_PONG; cret tt.
End client.
End Client.
