(* ===== verification/Engine.v ===== *)
(** * The messaging engine: its state and shared pieces (client/messaging_engine.cpp)

    The engine joins the key store, the history and the prekey vault. An operation
    is a function on this state that returns, throws, or is stopped with the
    process. What it asks the outside world for is read from [World]: the clock,
    random bytes and what a call to a relay comes to; [e_step] counts the
    questions. One engine runs one operation at a time: the mutex of the sources
    only guards the notices, and waiting is left out.

    In this file: the monad, the state and its construction, notices, people
    ([resolve_peer]), issued tokens. *)

From Stdlib Require Import ZArith Lia.
From stdpp Require Import base list strings gmap.
From S2P Require Import Prelude Wire Text Protocol RelayProtocol Crypto Prekey Envelope Attachment MessageRecord RecordPayloads IdentityBundle KeyStore Sharing Sql PrekeyVault HistoryTables HistoryStore HistoryRecords HistoryQueues RelayClient.
#[local] Open Scope Z_scope.
#[local] Open Scope wire_scope.

(** ** The world and the state *)

(** The calls of [RelayClient] the engine makes, with what it hands over. Connecting
    and signing in are one call where the sources join them by [&&]. *)
Inductive RelayCall :=
  | Connect (host : bytes) (port : Z) (relay_id : bytes)
  | SignIn (host : bytes) (port : Z) (relay_id mailbox_id : bytes)
  | Register (invite mailbox_id public_key send_token : bytes)
  | AddToken (hash : bytes)
  | RevokeToken (hash : bytes)
  | TakePrekey (mailbox_id send_token : bytes)
  | Deposit (mailbox_id send_token envelope : bytes) (ttl : Z)
  | OpenArchive (host : bytes) (port : Z) (relay_id archive_id public_key : bytes)
  | DeleteInArchive (order : ArchiveDelete)
  | CreateArchive (archive_id : bytes) (hashes : list bytes)
  | JoinArchive (archive_id token public_key : bytes)
  | FetchEntries (from_number limit : Z)
  | AppendEntry (expected_number : Z) (expected_hash ciphertext : bytes)
  | CreateInvite
  | ListInvites
  | CancelInvite (hash : bytes)
  | PrekeysHeld
  | PutPrekeys (put : PrekeyPut)
  | PutKeyring (blob : bytes)
  | GetKeyring
  | UploadBegin (begin_ : FileBegin)
  | UploadChunk (index : Z) (chunk : bytes)
  | DownloadBegin (file_id token : bytes) (from_chunk : Z)
  | DownloadNext
  | RedeemFile (file_id token : bytes)
  | CancelFile (file_id : bytes)
  | AskFile (file_id : bytes)
  | Collect
  | Acknowledge (ids : list bytes)
  | Ping.

(** What a call hands back when it succeeds ([unit]: nothing). A download hands back
    its chunks one by one, and nothing at the end. *)
Definition reply (c : RelayCall) : Type :=
  match c with
  | TakePrekey _ _ => PrekeyData
  | FetchEntries _ _ => list ArchiveEntry * ArchiveHead
  | AppendEntry _ _ _ => AppendOutcome
  | CreateInvite => bytes
  | ListInvites => InviteStatus
  | PrekeysHeld | PutPrekeys _ => PrekeyStatus
  | GetKeyring => option bytes
  | DownloadBegin _ _ _ => FileInfo
  | DownloadNext => option RelayFileChunk
  | AskFile _ => FileStatus
  | _ => unit
  end.

(** What the [n]th question gets: the time, the steady clock (in nanoseconds), so
    many random bytes, what a call to a relay comes to (an error, or its reply),
    whether the connection in use is still open, the next event on the receiving
    connection, whether the engine is being stopped, and what the file system says
    of a path: whether it is a file, its size, its content (nothing if it cannot be
    opened), whether reading it fails, whether it is a folder, its absolute path,
    and how a download's file operations go. *)
Record World := mkWorld {
  w_clock : nat -> Z;
  w_steady : nat -> Z;
  w_random : nat -> Z -> bytes;
  w_relay : nat -> forall c : RelayCall, bytes + reply c;
  w_connected : nat -> bool;
  w_event : nat -> Event;
  w_stopping : nat -> bool;
  w_is_file : nat -> bytes -> bool;
  w_file_size : nat -> bytes -> option Z;
  w_file : nat -> bytes -> option bytes;
  w_bad_read : nat -> bool;
  w_directory : nat -> bytes -> bool;
  w_absolute : nat -> bytes -> bytes;
  w_begin : nat -> BeginAnswers;
  w_wrote : nat -> option Z;
  w_finish : nat -> Z * bool;
}.

(** src/client/messaging_engine.h 45-71 Options *)
Record Options := mkOptions {
  receipt_delay_max_seconds : Z;
  reconnect_min_seconds : Z;
  reconnect_max_seconds : Z;
  ping_seconds : Z;
  retry_base_seconds : Z;
  envelope_ttl_seconds : Z;
  archive_check_seconds : Z;
  archive_sync_seconds : Z;
  archive_checkpoint_every : Z;
  archive_checkpoint_max_age_seconds : Z;
  keyring_check_seconds : Z;
  max_attachment_bytes : Z;
  prekey_check_seconds : Z;
  prekey_pool_target : Z;
  prekey_low_water : Z;
  last_resort_rotate_seconds : Z;
  retired_last_resort_keep_seconds : Z;
  unused_prekey_keep_seconds : Z;
  attachment_status_fast_seconds : Z;
  attachment_status_slow_seconds : Z;
}.

(** The values in the header. *)
Definition default_options : Options :=
  mkOptions 5 2 60 60 5 (30 * 24 * 3600) 10 300 50 (24 * 3600) 60 (1024 * 1024 * 1024) 60 100 30 (7 * 86400) (14 * 86400) (45 * 86400) 4 60.

(** What does not change while the engine runs: the private keys, this user's
    fingerprint, the options.
    src/client/messaging_engine.h 530-534 MessagingEngine *)
Record Self := mkSelf {
  kem_private : bytes;
  dsa_private : bytes;
  my_fp : bytes;
  my_fp_hex : bytes;
  options : Options;
}.

(** src/client/messaging_engine.h 474-479 TransferJob *)
Inductive TransferKind := Upload | Download.
Record TransferJob := mkTransferJob { tj_kind : TransferKind; tj_file_id : bytes; tj_outbox_id : Z; tj_directory : bytes }.

(** The points in time at which something is looked at again.
    src/client/messaging_engine.h 472-515 MessagingEngine *)
Inductive Check := ArchiveCheck | DeletionCheck | AttachmentCheck | PrekeyCheck | KeyringCheck.
#[export] Instance Check_eq_dec : EqDecision Check.
Proof. solve_decision. Defined.

(** Per chat: when to try joining or making its archive again, when to catch up on it. *)
Record Timers := mkTimers {
  t_check : Check -> Z;
  t_join : gmap bytes Z;
  t_create : gmap bytes Z;
  t_sync : gmap bytes Z;
}.

(** The receiving connection as the engine sees it.
    src/client/messaging_engine.h 536-547 MessagingEngine *)
Record Link := mkLink {
  l_status : bytes;
  l_connected : bool;
  l_backoff : Z;
  l_next_attempt : Z;
  l_last_ping : Z;
}.

(** What the pump and the transfer thread keep between rounds; [b_folders] are the
    folders downloads are saved in.
    src/client/messaging_engine.h 492-512 MessagingEngine *)
Record Background := mkBackground {
  b_timers : Timers;
  b_link : Link;
  b_keyring_hash : bytes;
  b_relay_prekeys : PrekeyStatus;
  b_progress : gmap bytes (Z * Z);
  b_folders : gmap bytes Folder;
}.

(** [e_transfers] and [e_active] are the queue of the transfer thread;
    [e_calls] keeps the calls made to relays, in order.
    src/client/messaging_engine.h 529-549 MessagingEngine *)
Record Engine := mkEngine {
  e_keys : KeyStore;
  e_history : History;
  e_prekeys : Vault;
  e_answers : list answer;
  e_display_name : bytes;
  e_notices : list bytes;
  e_told : gset bytes;
  e_sync_now : gset bytes;
  e_attempts : gmap bytes Z;
  e_grants : list AttachmentGrant;
  e_last_prekey : bytes;
  e_revision : Z;
  e_step : nat;
  e_calls : list RelayCall;
  e_transfers : list TransferJob;
  e_active : gset bytes;
  e_back : Background;
}.

Definition set_keys (keys : KeyStore) (answers : list answer) (e : Engine) : Engine :=
  mkEngine keys e.(e_history) e.(e_prekeys) answers e.(e_display_name) e.(e_notices) e.(e_told) e.(e_sync_now) e.(e_attempts) e.(e_grants) e.(e_last_prekey) e.(e_revision) e.(e_step) e.(e_calls) e.(e_transfers) e.(e_active) e.(e_back).
Definition set_history (db : History) (e : Engine) : Engine :=
  mkEngine e.(e_keys) db e.(e_prekeys) e.(e_answers) e.(e_display_name) e.(e_notices) e.(e_told) e.(e_sync_now) e.(e_attempts) e.(e_grants) e.(e_last_prekey) e.(e_revision) e.(e_step) e.(e_calls) e.(e_transfers) e.(e_active) e.(e_back).
Definition set_prekeys (v : Vault) (e : Engine) : Engine :=
  mkEngine e.(e_keys) e.(e_history) v e.(e_answers) e.(e_display_name) e.(e_notices) e.(e_told) e.(e_sync_now) e.(e_attempts) e.(e_grants) e.(e_last_prekey) e.(e_revision) e.(e_step) e.(e_calls) e.(e_transfers) e.(e_active) e.(e_back).
Definition set_shown (display_name : bytes) (notices : list bytes) (told : gset bytes) (e : Engine) : Engine :=
  mkEngine e.(e_keys) e.(e_history) e.(e_prekeys) e.(e_answers) display_name notices told e.(e_sync_now) e.(e_attempts) e.(e_grants) e.(e_last_prekey) e.(e_revision) e.(e_step) e.(e_calls) e.(e_transfers) e.(e_active) e.(e_back).
Definition set_sync (sync_now : gset bytes) (attempts : gmap bytes Z) (e : Engine) : Engine :=
  mkEngine e.(e_keys) e.(e_history) e.(e_prekeys) e.(e_answers) e.(e_display_name) e.(e_notices) e.(e_told) sync_now attempts e.(e_grants) e.(e_last_prekey) e.(e_revision) e.(e_step) e.(e_calls) e.(e_transfers) e.(e_active) e.(e_back).
Definition set_envelope (grants : list AttachmentGrant) (last_prekey : bytes) (e : Engine) : Engine :=
  mkEngine e.(e_keys) e.(e_history) e.(e_prekeys) e.(e_answers) e.(e_display_name) e.(e_notices) e.(e_told) e.(e_sync_now) e.(e_attempts) grants last_prekey e.(e_revision) e.(e_step) e.(e_calls) e.(e_transfers) e.(e_active) e.(e_back).
Definition set_count (revision : Z) (step : nat) (calls : list RelayCall) (e : Engine) : Engine :=
  mkEngine e.(e_keys) e.(e_history) e.(e_prekeys) e.(e_answers) e.(e_display_name) e.(e_notices) e.(e_told) e.(e_sync_now) e.(e_attempts) e.(e_grants) e.(e_last_prekey) revision step calls e.(e_transfers) e.(e_active) e.(e_back).

Definition set_transfers (transfers : list TransferJob) (active : gset bytes) (e : Engine) : Engine :=
  mkEngine e.(e_keys) e.(e_history) e.(e_prekeys) e.(e_answers) e.(e_display_name) e.(e_notices) e.(e_told) e.(e_sync_now) e.(e_attempts) e.(e_grants) e.(e_last_prekey) e.(e_revision) e.(e_step) e.(e_calls) transfers active e.(e_back).
Definition set_back (b : Background) (e : Engine) : Engine :=
  mkEngine e.(e_keys) e.(e_history) e.(e_prekeys) e.(e_answers) e.(e_display_name) e.(e_notices) e.(e_told) e.(e_sync_now) e.(e_attempts) e.(e_grants) e.(e_last_prekey) e.(e_revision) e.(e_step) e.(e_calls) e.(e_transfers) e.(e_active) b.

Definition set_timers (t : Timers) (e : Engine) : Engine :=
  let b := e.(e_back) in set_back (mkBackground t b.(b_link) b.(b_keyring_hash) b.(b_relay_prekeys) b.(b_progress) b.(b_folders)) e.
Definition set_link (l : Link) (e : Engine) : Engine :=
  let b := e.(e_back) in set_back (mkBackground b.(b_timers) l b.(b_keyring_hash) b.(b_relay_prekeys) b.(b_progress) b.(b_folders)) e.
Definition set_keyring_hash (h : bytes) (e : Engine) : Engine :=
  let b := e.(e_back) in set_back (mkBackground b.(b_timers) b.(b_link) h b.(b_relay_prekeys) b.(b_progress) b.(b_folders)) e.
Definition set_relay_prekeys (s : PrekeyStatus) (e : Engine) : Engine :=
  let b := e.(e_back) in set_back (mkBackground b.(b_timers) b.(b_link) b.(b_keyring_hash) s b.(b_progress) b.(b_folders)) e.
Definition set_progress (p : gmap bytes (Z * Z)) (e : Engine) : Engine :=
  let b := e.(e_back) in set_back (mkBackground b.(b_timers) b.(b_link) b.(b_keyring_hash) b.(b_relay_prekeys) p b.(b_folders)) e.
Definition set_folders (f : gmap bytes Folder) (e : Engine) : Engine :=
  let b := e.(e_back) in set_back (mkBackground b.(b_timers) b.(b_link) b.(b_keyring_hash) b.(b_relay_prekeys) b.(b_progress) f) e.

(** ** Operations *)

Definition E (A : Type) : Type := Engine -> result A * Engine.

Definition eret {A} (a : A) : E A := fun e => (Returned a, e).
Definition ethrow {A} (what : string) : E A := fun e => (Threw what, e).
Definition ebind {A B} (m : E A) (k : A -> E B) : E B :=
  fun e =>
    match m e with
    | (Returned a, e) => k a e
    | (Threw what, e) => (Threw what, e)
    | (Stopped, e) => (Stopped, e)
    end.

Declare Scope engine_scope.
Delimit Scope engine_scope with engine.
Notation "'do' x <- m ; k" := (ebind m (fun x => k)) (at level 100, x pattern, m at next level, k at level 200, right associativity) : engine_scope.
#[local] Open Scope engine_scope.

(** Read the state. *)
Definition look {A} (f : Engine -> A) : E A := fun e => (Returned (f e), e).
Definition change (f : Engine -> Engine) : E unit := fun e => (Returned tt, f e).
Definition of_exc {A} (x : exc A) : E A := match x with Ret a => eret a | Throw what => ethrow what end.

(** A method of the history: when it throws, nothing is changed. *)
Definition hist {A} (f : History -> exc (A * History)) : E A :=
  fun e => match f e.(e_history) with Ret (a, db) => (Returned a, set_history db e) | Throw what => (Threw what, e) end.
Definition hist_try (f : History -> exc History) : E unit := hist (fun db => match f db with Ret db => Ret (tt, db) | Throw w => Throw w end).
Definition hist_do (f : History -> History) : E unit := hist (fun db => Ret (tt, f db)).

(** A method of the key store, with the disk's answers. *)
Definition on_keys {A} (m : M A) : E A :=
  fun e => let '(r, answers, keys) := m e.(e_answers) e.(e_keys) in (r, set_keys keys answers e).

(** [try { m } catch (const std::exception& ex) { h(ex.what()) }]. *)
Definition try_catch {A} (m : E A) (h : string -> E A) : E A :=
  fun e => match m e with (Threw what, e) => h what e | r => r end.

(** A scope guard: [f] is run when the scope is left. *)
Definition finally {A} (m : E A) (f : Engine -> Engine) : E A :=
  fun e => let '(r, e) := m e in (r, f e).

Definition when_ (b : bool) (m : E unit) : E unit := if b then m else eret tt.

(** [for (const auto& x : l) body(x)]. *)
Fixpoint for_each {A} (l : list A) (body : A -> E unit) : E unit :=
  match l with
  | [] => eret tt
  | x :: l => do _ <- body x; for_each l body
  end.

(** [for (...) changed |= body(x)]. *)
Fixpoint for_any {A} (l : list A) (body : A -> E bool) : E bool :=
  match l with
  | [] => eret false
  | x :: l => do b <- body x; do c <- for_any l body; eret (b || c)
  end.

(** The first [x] for which the body says so: a loop with an early return. *)
Fixpoint any_of {A} (l : list A) (body : A -> E bool) : E bool :=
  match l with
  | [] => eret false
  | x :: l => do b <- body x; if b then eret true else any_of l body
  end.

(** A method that returns false with a reason, or true (with what it hands back). *)
Definition fail {A} (error : bytes) : E (bytes + A) := eret (inl error).
Definition ok {A} (a : A) : E (bytes + A) := eret (inr a).
(** [catch (const std::exception& e) { error = e.what(); return false; }]. *)
Definition or_error {A} (m : E A) : E (bytes + A) := try_catch (do a <- m; ok a) (fun what => fail (str what)).

(** [if (!m(..., error)) return false;]. *)
Definition need_ {A B} (m : E (bytes + A)) (k : A -> E (bytes + B)) : E (bytes + B) :=
  do r <- m; match r with inl err => fail err | inr a => k a end.
Notation "'need' x <- m ; k" := (need_ m (fun x => k)) (at level 100, x pattern, m at next level, k at level 200, right associativity) : engine_scope.

(** The model's time is up: as if the process had been stopped. *)
Definition unfinished {A} : E A := fun e => (Stopped, e).

Section world.
Context (w : World).

Definition next_step : E nat := fun e => (Returned e.(e_step), set_count e.(e_revision) (S e.(e_step)) e.(e_calls) e).

(** src/client/messaging_engine.cpp 16-16 unix_now *)
Definition unix_now : E Z := do n <- next_step; eret (w.(w_clock) n).
Definition random_bytes (count : Z) : E bytes := do n <- next_step; eret (w.(w_random) n count).
Definition steady_now : E Z := do n <- next_step; eret (w.(w_steady) n).
Definition ask_world {A} (f : nat -> A) : E A := do n <- next_step; eret (f n).
Definition relay_call (c : RelayCall) : E (bytes + reply c) :=
  do n <- next_step;
  do _ <- change (fun e => set_count e.(e_revision) e.(e_step) (e.(e_calls) ++ [c]) e);
  eret (w.(w_relay) n c).

(** src/client/messaging_engine.h 414-414 bump *)
Definition bump : E unit := change (fun e => set_count (u64 (e.(e_revision) + 1)) e.(e_step) e.(e_calls) e).

(** src/client/messaging_engine.cpp 110-113 set_status *)
Definition set_status (text : bytes) : E unit :=
  change (fun e => let l := e.(e_back).(b_link) in
    set_link (mkLink text l.(l_connected) l.(l_backoff) l.(l_next_attempt) l.(l_last_ping)) e).

(** src/client/messaging_engine.cpp 104-108 notify *)
Definition notify (line : bytes) : E unit :=
  change (fun e =>
    let notices := e.(e_notices) ++ [line] in
    set_shown e.(e_display_name) (if 200 <? size notices then drop 1 notices else notices) e.(e_told) e).

(** [told_about_.insert(key).second]. *)
Definition tell_once (key : bytes) : E bool :=
  do known <- look (fun e => bool_decide (key ∈ e.(e_told)));
  do _ <- change (fun e => set_shown e.(e_display_name) e.(e_notices) ({[key]} ∪ e.(e_told)) e);
  eret (negb known).

(** src/client/messaging_engine.cpp 120-125 take_notices *)
Definition take_notices : E (list bytes) :=
  do out <- look e_notices;
  do _ <- change (fun e => set_shown e.(e_display_name) [] e.(e_told) e);
  eret out.

(** src/client/messaging_engine.cpp 127-130 set_display_name *)
Definition set_display_name (name : bytes) : E unit :=
  change (fun e => set_shown (ztake MAX_DISPLAY_NAME_BYTES name) e.(e_notices) e.(e_told) e).
End world.

(** ** Constants and small pieces *)

(** src/client/messaging_engine.cpp 18-18 MAX_PENDING_REQUESTS *)
Definition MAX_PENDING_REQUESTS : Z := 100.
(** src/client/messaging_engine.cpp 19-19 MAX_PENDING_GROUP_INVITES *)
Definition MAX_PENDING_GROUP_INVITES : Z := 50.
(** src/client/messaging_engine.cpp 22-22 INTRODUCED_PER_ENVELOPE *)
Definition INTRODUCED_PER_ENVELOPE : Z := 6.
(** src/client/messaging_engine.cpp 22-28 OUTBOX_KIND_MESSAGE *)
Definition OUTBOX_KIND_MESSAGE : Z := 0.
Definition OUTBOX_KIND_RECEIPT : Z := 1.
Definition OUTBOX_KIND_GRANTS : Z := 2.
Definition OUTBOX_KIND_RELAY : Z := 3.
Definition OUTBOX_KIND_ARCHIVE : Z := 4.
Definition OUTBOX_KIND_ATTACHMENT : Z := 5.
Definition OUTBOX_KIND_UPLOAD : Z := 6.
(** src/client/messaging_engine.cpp 47-47 FORWARDS_PER_ENVELOPE *)
Definition FORWARDS_PER_ENVELOPE : Z := 4.
(** src/client/history_store.h 80-80 Status *)
Definition StatusQueued : Z := 0.
Definition StatusSent : Z := 1.
Definition StatusDelivered : Z := 2.
Definition StatusRead : Z := 3.
(** src/client/history_store.h 163-163 ArchiveRole *)
Definition ArchiveCreator : Z := 1.
Definition ArchiveMember : Z := 2.

(** src/client/messaging_engine.cpp 31-37 encode_grant *)
Definition encode_grant (file_id key token : bytes) : bytes :=
  let b := write_blob [] file_id in
  let b := write_blob b key in
  write_blob b token.

(** src/client/messaging_engine.cpp 38-45 decode_grant *)
Definition decode_grant (b : bytes) : option AttachmentGrant :=
  let '(id, off) := read_blob b 0 16 in
  let '(key, off) := read_blob b off 32 in
  let '(token, off) := read_blob b off 32 in
  let? id := id in
  let? key := key in
  let? token := token in
  if negb (size id =? 16) || negb (size key =? 32) || negb (size token =? 32) || negb (off =? size b) then None else
  Some (mkGrant id key token).

(** src/client/messaging_engine.cpp 49-51 all_zero *)
Definition all_zero (b : bytes) : bool := forallb (fun x => Z_of_byte x =? 0) b.

(** src/client/messaging_engine.cpp 53-53 short_fp *)
Definition short_fp (fp : bytes) : bytes := ztake 16 fp.

(** [l] in pieces of [k]. *)
Fixpoint chunks {A} (n : nat) (k : Z) (l : list A) : list (list A) :=
  match n, l with
  | _, [] | O, _ => []
  | S n, _ => ztake k l :: chunks n k (zdrop k l)
  end.

(** A name between quotation marks. *)
Definition quoted (name : bytes) : bytes := [chr 34] ++ name ++ [chr 34].

(** The loop over the attempts.
    src/client/messaging_engine.cpp 59-59 retry_delay *)
Fixpoint double_delay (attempts : nat) (delay : Z) : Z :=
  match attempts with
  | O => delay
  | S n => if delay <? 600 then double_delay n (delay * 2) else delay
  end.

(** src/client/messaging_engine.cpp 57-61 retry_delay *)
Definition retry_delay (o : Options) (attempts : Z) : Z :=
  Z.min (double_delay (Z.to_nat attempts) (Z.max 1 o.(retry_base_seconds))) 600.

Section engine.
Context `{P : Primitives} (me : Self) (w : World).

Abbreviation unix_now := (unix_now w).
Abbreviation random_bytes := (random_bytes w).

(** A fresh nonce for what is sealed into the history. *)
Definition nonce : E bytes := random_bytes NONCE_SIZE.

(** [std::chrono::seconds(std::max(1, n))] after a time of the steady clock. *)
Definition later (now n : Z) : Z := now + Z.max 1 n * 1000000000.

(** src/client/messaging_engine.cpp 84-87 MessagingEngine *)
Definition first_background (o : Options) (steady : Z) : Background :=
  mkBackground
    (mkTimers (fun c => match c with
                        | ArchiveCheck => later steady o.(archive_check_seconds)
                        | KeyringCheck => later steady o.(keyring_check_seconds)
                        | DeletionCheck => later steady o.(archive_sync_seconds)
                        | AttachmentCheck => later steady o.(attachment_status_fast_seconds)
                        | PrekeyCheck => 0
                        end) ∅ ∅ ∅)
    (mkLink (str "Not connected") false 0 0 0) [] (mkPrekeyStatus 0 false []) ∅ ∅.

(** src/client/messaging_engine.cpp 63-97 MessagingEngine *)
Definition open_engine (keys : KeyStore) (history : HistoryFile) (prekeys : option (option bytes * list VaultRow))
    (opts : Options) (answers : list answer) (steady : Z) : exc (Self * Engine) :=
  if private_keys_locked keys then Throw "Your keys are locked. Unlock them first" else
  let kem := load_private_kem keys in
  let dsa := load_private_dsa keys in
  if negb (size kem =? kem_secret_key_size) || negb (size dsa =? sig_secret_key_size)
  then Throw "Your keys could not be loaded" else
  let! history_key := derive_local_key keys (str "history key") in
  if is_empty history_key then Throw "Your keys could not be loaded" else
  let! db := open_history history history_key in
  let! vault_key := derive_local_key keys (str "prekey vault key") in
  let! vault := open_vault prekeys vault_key in
  let fp_hex := own_fingerprint keys in
  match hex_to_bytes fp_hex with
  | Some fp =>
      if negb (size fp =? 32) then Throw "Your keys could not be loaded" else
      Ret (mkSelf kem dsa fp fp_hex opts,
           mkEngine keys (reset_downloading db) vault answers [] [] ∅ ∅ ∅ [] [] 0 0 [] [] ∅ (first_background opts steady))
  | None => Throw "Your keys could not be loaded"
  end.

(** src/client/messaging_engine.cpp 132-132 is_set_up *)
Definition is_set_up (e : Engine) : bool :=
  has_access_key e.(e_keys) && match load_mailbox_config e.(e_keys) with Some _ => true | None => false end.

(** src/client/messaging_engine.cpp 151-163 own_bundle_raw *)
Definition own_bundle_raw (rand : bytes) (now : Z) (e : Engine) : exc bytes :=
  let address :=
    match load_mailbox_config e.(e_keys) with
    | Some config => mkBundleAddress (format_server_address (mkServerAddress config.(mc_host) config.(mc_port)))
                       config.(mc_relay_id) config.(mc_mailbox_id)
    | None => mkBundleAddress [] [] []
    end in
  make_own_bundle rand now e.(e_keys) e.(e_display_name) address.

(** ** People we can verify and write to *)

(** src/client/messaging_engine.h 417-426 Peer *)
Record Peer := mkPeer {
  p_fp : bytes;
  p_name : bytes;
  p_pub_dsa : bytes;
  p_pub_kem : bytes;
  p_relay_address : bytes;
  p_relay_id : bytes;
  p_mailbox_id : bytes;
  p_send_token : bytes;
  p_is_contact : bool;
  keys_verified : bool;
  p_can_send : bool;
}.

(** src/client/messaging_engine.cpp 169-183 peer_from_contact *)
Definition peer_from_contact (c : Contact) : Peer :=
  mkPeer c.(co_fingerprint) c.(co_name) c.(co_pub_dsa) c.(co_pub_kem) c.(co_relay_address) c.(co_relay_id) c.(co_mailbox_id)
    c.(co_send_token) true c.(kem_verified) (can_message c).

Definition find_contact (e : Engine) (fp : bytes) : option Contact := find_contact_by_fingerprint e.(e_keys) fp.

(** Someone a group's creator introduced.
    src/client/messaging_engine.cpp 190-209 resolve_peer *)
Definition introduced_peer (e : Engine) (fp : bytes) : option Peer :=
  let? row := introduced e.(e_history) fp in
  let? bundle := parsed row.(im_bundle) in
  if negb (bool_decide (bundle_fingerprint bundle = fp)) then None else
  let '(address, relay, mailbox) :=
    if has_mailbox bundle then (bundle.(ib_relay_hint), bundle.(ib_relay_id), bundle.(ib_mailbox_id)) else ([], [], []) in
  Some (mkPeer fp (if is_empty bundle.(ib_display_name) then short_fp fp ++ str "..." else bundle.(ib_display_name))
          bundle.(ib_signing_key) bundle.(ib_encryption_key) address relay mailbox [] false true false).

(** src/client/messaging_engine.cpp 187-221 resolve_peer *)
Definition resolve_peer (e : Engine) (fp conversation_id : bytes) : option Peer :=
  let? found :=
    match find_contact e fp with
    | Some contact => Some (peer_from_contact contact)
    | None => introduced_peer e fp
    end in
  if negb found.(p_can_send) && negb (is_empty conversation_id) && found.(keys_verified)
     && negb (is_empty found.(p_relay_address)) && (size found.(p_relay_id) =? 32) && (size found.(p_mailbox_id) =? 16)
  then
    match member_token e.(e_history) conversation_id fp with
    | Some token =>
        if size token =? 32
        then Some (mkPeer found.(p_fp) found.(p_name) found.(p_pub_dsa) found.(p_pub_kem) found.(p_relay_address)
                     found.(p_relay_id) found.(p_mailbox_id) token found.(p_is_contact) found.(keys_verified) true)
        else Some found
    | None => Some found
    end
  else Some found.

(** src/client/messaging_engine.cpp 223-226 person_name *)
Definition person_name (e : Engine) (fp : bytes) : bytes :=
  match find_contact e fp with Some c => c.(co_name) | None => short_fp fp ++ str "..." end.

(** src/client/messaging_engine.h 211-216 Trust *)
Inductive Trust := TrustUnknown | TrustIntroduced | TrustContact | TrustVerified.
#[export] Instance Trust_eq_dec : EqDecision Trust.
Proof. solve_decision. Defined.

(** src/client/messaging_engine.h 217-225 GroupMember *)
Record GroupMember := mkGroupMember {
  gm_fp : bytes;
  gm_name : bytes;
  gm_is_contact : bool;
  gm_can_send : bool;
  gm_trust : Trust;
  gm_introduced_by : bytes;
  gm_label : bytes;
}.

(** src/client/messaging_engine.cpp 243-248 member_info *)
Definition trust_label (t : Trust) (introduced_by : bytes) : bytes :=
  match t with
  | TrustVerified => str "Verified by you"
  | TrustContact => str "Contact"
  | TrustIntroduced => str "Introduced by " ++ (if is_empty introduced_by then str "the group's creator" else introduced_by)
  | TrustUnknown => str "Unknown"
  end.

(** src/client/messaging_engine.cpp 228-250 member_info *)
Definition member_info (e : Engine) (fp conversation_id : bytes) : GroupMember :=
  let verified := is_verified e.(e_history) fp in
  match resolve_peer e fp conversation_id with
  | Some peer =>
      let by_ :=
        if peer.(p_is_contact) then [] else
        match introduced e.(e_history) fp with Some row => person_name e row.(im_introduced_by) | None => [] end in
      let trust := if verified then TrustVerified else if peer.(p_is_contact) then TrustContact else TrustIntroduced in
      mkGroupMember fp peer.(p_name) peer.(p_is_contact) peer.(p_can_send) trust by_ (trust_label trust by_)
  | None => mkGroupMember fp (short_fp fp ++ str "...") false false TrustUnknown [] (trust_label TrustUnknown [])
  end.

(** src/client/messaging_engine.cpp 252-257 set_verified *)
Definition engine_set_verified (fp : bytes) (verified : bool) : E bool :=
  do known <- look (fun e => match find_contact e fp, introduced e.(e_history) fp with None, None => false | _, _ => true end);
  if negb known then eret false else
  do now <- unix_now;
  do _ <- hist_do (fun db => set_verified db fp verified now);
  do _ <- bump;
  eret true.

(** src/client/messaging_engine.cpp 577-595 note_token_use *)
Definition note_token_use (token_hash sender_fp : bytes) : E unit :=
  if negb (size token_hash =? 32) || all_zero token_hash then eret tt else
  do token <- look (fun e => find_issued_token e.(e_history) token_hash);
  match token with
  | None => eret tt
  | Some token =>
      if is_empty token.(it_bound_fp) then hist_do (fun db => bind_issued_token db token_hash sender_fp) else
      if bool_decide (token.(it_bound_fp) = sender_fp) then eret tt else
      do first <- tell_once (str "forwarded:" ++ bytes_to_hex token_hash ++ str ":" ++ sender_fp);
      if negb first then eret tt else
      notify (str "The contact card you made for " ++ quoted token.(it_label) ++ str " was first used by one person ("
              ++ short_fp token.(it_bound_fp) ++ str "...) and has now been used by someone else (" ++ short_fp sender_fp
              ++ str "...). It may have been passed on. You can revoke it under Cards issued.")
  end.

(** ** Records we sign *)

(** A record of this user in a conversation, signed. *)
Definition sign_own (conversation_id message_id recipients_hash : bytes) (sent_at : Z) (t : RecordType) (payload own_prev : bytes)
    (seen : list bytes) : E bytes :=
  do rand <- random_bytes 32;
  of_exc (sign_record rand (mkMessageRecord conversation_id message_id me.(my_fp) recipients_hash sent_at t payload own_prev seen)
            me.(dsa_private)).

(** Queue something for a person, or for an archive. *)
Definition enqueue (contact_fp : bytes) (kind : Z) (message_id : bytes) (records : list bytes) (due_at now : Z) : E unit :=
  do n <- nonce;
  do _ <- hist (fun db => hs_enqueue n db contact_fp kind message_id records due_at now);
  eret tt.

(** A fresh sealing: the random bytes of an envelope. *)
Definition seal_random : E SealRandom :=
  do a <- random_bytes 32;
  do n <- random_bytes NONCE_SIZE;
  do b <- random_bytes 32;
  do c <- random_bytes X25519_BYTES;
  eret (mkSealRandom a n b c).

(** src/client/messaging_engine.cpp 2672-2680 queue_transfer *)
Definition queue_transfer (job : TransferJob) : E unit :=
  if is_empty job.(tj_file_id) then eret tt else
  let key := (match job.(tj_kind) with Upload => str "u:" | Download => str "d:" end) ++ bytes_to_hex job.(tj_file_id) in
  change (fun e => if bool_decide (key ∈ e.(e_active)) then e else set_transfers (e.(e_transfers) ++ [job]) ({[key]} ∪ e.(e_active)) e).

Definition store_message (m : Message) : E bool := do n <- nonce; hist (fun db => add_message n db m).

(** src/client/messaging_engine.cpp 1745-1749 queue_archive_entry *)
Definition queue_archive_entry (conversation_id record message_id : bytes) : E unit :=
  do have <- look (fun e => has_archive e.(e_history) conversation_id);
  if negb have then eret tt else
  do now <- unix_now;
  enqueue (bytes_to_hex conversation_id) OUTBOX_KIND_ARCHIVE message_id [record] now now.
End engine.
