(* ===== verification/EngineAccount.v ===== *)
(** * The messaging engine: the mailbox, cards, relay invites and prekeys

    Setting up a mailbox with a relay's invite, making and revoking contact cards
    (send tokens), inviting others to the relay, and keeping the relay's pool of
    one-time prekeys filled. *)

From Stdlib Require Import ZArith Lia.
From stdpp Require Import base list strings gmap numbers.
From S2P Require Import Prelude Wire Text Protocol RelayProtocol Crypto Prekey Envelope MessageRecord RecordPayloads IdentityBundle KeyStore Sharing Sql PrekeyVault HistoryTables HistoryStore HistoryRecords HistoryQueues RelayClient Engine.
#[local] Open Scope Z_scope.
#[local] Open Scope wire_scope.
#[local] Open Scope engine_scope.

Section engine.
Context `{P : Primitives} (me : Self) (w : World).

Abbreviation unix_now := (unix_now w).
Abbreviation random_bytes := (random_bytes w).
Abbreviation relay_call := (relay_call w).

(** A fresh connection to our relay, signed in to our mailbox.
    src/client/messaging_engine.cpp 135-149 connect_authenticated *)
Definition connect_authenticated : E (bytes + unit) :=
  do config <- look (fun e => load_mailbox_config e.(e_keys));
  do has_key <- look (fun e => has_access_key e.(e_keys));
  match config, has_key with
  | Some config, true =>
      do private <- look (fun e => load_access_private e.(e_keys));
      do access_private <- of_exc private;
      if is_empty access_private then fail (str "Your mailbox key could not be read (are your keys unlocked?)") else
      relay_call (SignIn config.(mc_host) config.(mc_port) config.(mc_relay_id) config.(mc_mailbox_id))
  | _, _ => fail (str "Messaging is not set up yet")
  end.

(** src/client/messaging_engine.cpp 263-296 setup *)
Definition setup (invite : RelayInvite) : E (bytes + unit) :=
  do done <- look is_set_up;
  if done : bool then fail (str "Messaging is already set up") else
  need _ <- relay_call (Connect invite.(ri_server).(sa_host) invite.(ri_server).(sa_port) invite.(ri_relay_id));
  do has_key <- look (fun e => has_access_key e.(e_keys));
  need _ <- (if has_key : bool then ok tt else
             or_error (do seed <- random_bytes 32; do n <- nonce w; on_keys (create_access_key seed n)));
  do public_key <- look (fun e => load_access_public e.(e_keys));
  do private <- look (fun e => load_access_private e.(e_keys));
  do private_key <- of_exc private;
  if is_empty public_key || is_empty private_key then fail (str "Your mailbox key could not be created") else
  do mailbox_id <- random_bytes MAILBOX_ID_BYTES;
  do first_token <- random_bytes SEND_TOKEN_BYTES;
  need _ <- relay_call (Register invite.(ri_invite) mailbox_id public_key first_token);
  do _ <- on_keys (save_mailbox_config (mkMailboxConfig invite.(ri_server).(sa_host) invite.(ri_server).(sa_port) invite.(ri_relay_id) mailbox_id));
  do _ <- set_status (str "Not connected");
  do _ <- bump;
  ok tt.

(** src/client/messaging_engine.cpp 298-313 create_relay_invite *)
Definition create_relay_invite : E (bytes + bytes) :=
  do config <- look (fun e => load_mailbox_config e.(e_keys));
  match config with
  | None => fail (str "Set up messaging first")
  | Some config =>
      need _ <- connect_authenticated;
      need code <- relay_call CreateInvite;
      ok (build_relay_invite (mkRelayInvite (mkServerAddress config.(mc_host) config.(mc_port)) config.(mc_relay_id) code))
  end.

(** src/client/messaging_engine.h 95-108 RelayInviteStatus *)
Record RelayInviteStatus := mkRelayInviteStatus {
  ris_max_unused : Z;
  ris_max_total : Z;
  ris_unused : list (bytes * Z);
  ris_joined : list (bytes * Z);
}.

(** src/client/messaging_engine.cpp 315-329 relay_invite_status *)
Definition relay_invite_status : E (bytes + RelayInviteStatus) :=
  do config <- look (fun e => load_mailbox_config e.(e_keys));
  match config with
  | None => fail (str "Set up messaging first")
  | Some _ =>
      need _ <- connect_authenticated;
      need raw <- relay_call ListInvites;
      ok (mkRelayInviteStatus raw.(InviteStatus_max_unused) raw.(InviteStatus_max_total)
            (map (fun u => (bytes_to_hex u.(Unused_hash), i64 u.(Unused_expires_at))) raw.(InviteStatus_unused))
            (map (fun j => (ztake 8 (bytes_to_hex j.(Joined_mailbox_id)), i64 j.(Joined_joined_at))) raw.(InviteStatus_joined)))
  end.

(** src/client/messaging_engine.cpp 331-339 cancel_relay_invite *)
Definition cancel_relay_invite (id : bytes) : E (bytes + unit) :=
  match hex_to_bytes id with
  | None => fail (str "That isn't an invite")
  | Some hash =>
      if negb (size hash =? HASH_BYTES) then fail (str "That isn't an invite") else
      need _ <- connect_authenticated;
      relay_call (CancelInvite hash)
  end.

(** src/client/messaging_engine.cpp 341-362 make_card *)
Definition make_card (label : bytes) : E (bytes + bytes) :=
  do config <- look (fun e => load_mailbox_config e.(e_keys));
  match config with
  | None => fail (str "Set up messaging first")
  | Some _ =>
      do token <- random_bytes SEND_TOKEN_BYTES;
      let hash := sha256 token in
      need _ <- connect_authenticated;
      need _ <- relay_call (AddToken hash);
      do now <- unix_now;
      do _ <- hist_do (fun db => add_issued_token db hash (if is_empty label then str "unnamed card" else label) [] now);
      need card <- or_error (do rand <- random_bytes 32;
                             do now <- unix_now;
                             do bundle <- look (own_bundle_raw rand now);
                             do bundle <- of_exc bundle;
                             eret (encode_contact_card_v3 bundle token));
      do _ <- bump;
      ok card
  end.

(** src/client/messaging_engine.cpp 370-376 revoke_token *)
Definition engine_revoke_token (hash : bytes) : E (bytes + unit) :=
  need _ <- connect_authenticated;
  need _ <- relay_call (RevokeToken hash);
  do _ <- hist_do (fun db => mark_token_revoked db hash);
  do _ <- bump;
  ok tt.

(** The tokens a person holds that still work, the newest first. *)
Definition live_tokens (e : Engine) (contact_fp : bytes) : list IssuedRow :=
  filter (fun t => t.(it_bound_fp) = contact_fp /\ t.(it_revoked) = false) (issued_tokens e.(e_history)).

(** One by one, until the relay refuses.
    src/client/messaging_engine.cpp 378-394 revoke_tokens_for *)
Fixpoint revoke_all (tokens : list IssuedRow) (revoked : Z) : E (bytes + Z) :=
  match tokens with
  | [] => ok revoked
  | t :: tokens =>
      need _ <- relay_call (RevokeToken t.(it_hash));
      do _ <- hist_do (fun db => mark_token_revoked db t.(it_hash));
      revoke_all tokens (revoked + 1)
  end.

(** An error is -1 with a reason.
    src/client/messaging_engine.cpp 378-394 revoke_tokens_for *)
Definition revoke_tokens_for (contact_fp : bytes) : E (bytes + Z) :=
  do mine <- look (fun e => live_tokens e contact_fp);
  match mine with
  | [] => ok 0
  | _ =>
      need _ <- connect_authenticated;
      need revoked <- revoke_all mine 0;
      do _ <- bump;
      ok revoked
  end.

(** ** Prekeys *)

(** Methods of the vault. *)
Definition vault_do (f : Vault -> Vault) : E unit := change (fun e => set_prekeys (f e.(e_prekeys)) e).
Definition vault_try (f : Vault -> exc Vault) : E unit :=
  fun e => match f e.(e_prekeys) with Ret v => (Returned tt, set_prekeys v e) | Throw what => (Threw what, e) end.
Definition vault_run {A} (f : Vault -> Vault * exc A) : E A :=
  fun e => let '(v, r) := f e.(e_prekeys) in (match r with Ret a => Returned a | Throw what => Threw what end, set_prekeys v e).

(** [prekeys_->add(prekey::generate(dsa_private_, last_resort, wall), wall)]. *)
Definition add_prekey (last_resort : bool) (wall : Z) : E unit :=
  do kem_seed <- random_bytes 64;
  do x_private <- random_bytes X25519_BYTES;
  do id <- random_bytes PREKEY_ID_SIZE;
  do rand <- random_bytes 32;
  do made <- of_exc (prekey_generate kem_seed x_private id rand me.(dsa_private) last_resort (u64 wall));
  do n <- nonce w;
  vault_try (fun v => vault_add n v made wall).

Definition add_prekeys (count wall : Z) : E unit := for_each (seqZ 0 count) (fun _ => add_prekey false wall).

(** A new set, in place of whatever there was.
    src/client/messaging_engine.cpp 2420-2468 maintain_prekeys *)
Definition replace_pool (old : bytes) (status : PrekeyStatus) (wall : Z) : E bytes :=
  let had_a_pool := negb (is_empty old) || negb (is_empty status.(PrekeyStatus_generation)) in
  do generation <- random_bytes PREKEY_GENERATION_BYTES;
  do _ <- vault_run (fun v => start_generation v generation);
  do _ <- add_prekeys me.(options).(prekey_pool_target) wall;
  do _ <- add_prekey true wall;
  do _ <- when_ had_a_pool (notify (str "This device's one-time keys on the relay were replaced (as after a restore). Any messages sent to the old ones while that happened can't be read."));
  eret generation.

(** Topping up, and the weekly last-resort prekey.
    src/client/messaging_engine.cpp 2420-2468 maintain_prekeys *)
Definition top_up_pool (status : PrekeyStatus) (wall : Z) : E unit :=
  do counts <- look (fun e => vault_counts e.(e_prekeys));
  do _ <- when_ ((status.(PrekeyStatus_one_time) <? me.(options).(prekey_low_water)) && (counts.(pending) =? 0))
            (add_prekeys (me.(options).(prekey_pool_target) - status.(PrekeyStatus_one_time)) wall);
  do last <- look (fun e => current_last_resort_created e.(e_prekeys));
  let need_last_resort := negb status.(PrekeyStatus_last_resort)
    || match last with Some last => me.(options).(last_resort_rotate_seconds) <=? wall - last | None => true end in
  do pending_last_resort <- look (fun e => existsb Prekey_last_resort (not_uploaded e.(e_prekeys)));
  when_ (need_last_resort && negb pending_last_resort) (add_prekey true wall).

(** The prekeys in one upload, encoded.
    src/client/messaging_engine.cpp 2420-2468 maintain_prekeys *)
Fixpoint prekey_entries (prekeys : list Prekey) : exc (list PrekeyEntry) :=
  match prekeys with
  | [] => Ret []
  | p :: prekeys =>
      let! blob := encode_prekey p in
      let! rest := prekey_entries prekeys in
      Ret (mkPrekeyEntry p.(Prekey_id) p.(Prekey_last_resort) blob :: rest)
  end.

(** One upload after another, until one fails.
    src/client/messaging_engine.cpp 2420-2468 maintain_prekeys *)
Fixpoint upload_prekeys (batches : list (list Prekey)) (replace : bool) (generation : bytes) (wall : Z) (status : PrekeyStatus) : E PrekeyStatus :=
  match batches with
  | [] => eret status
  | batch :: batches =>
      do entries <- of_exc (prekey_entries batch);
      do r <- relay_call (PutPrekeys (mkPrekeyPut replace generation entries));
      match r with
      | inl _ => eret status
      | inr status =>
          do _ <- for_each entries (fun p =>
            do _ <- vault_do (fun v => mark_uploaded v p.(PrekeyEntry_id));
            when_ p.(PrekeyEntry_last_resort) (vault_do (fun v => retire_last_resort_except v p.(PrekeyEntry_id) wall)));
          upload_prekeys batches false generation wall status
      end
  end.

(** Whether the time for a check has come; if so, when the next one is. *)
Definition due (c : Check) (seconds : Z) : E bool :=
  do now <- steady_now w;
  do next <- look (fun e => e.(e_back).(b_timers).(t_check) c);
  if now <? next then eret false else
  do _ <- change (fun e => let t := e.(e_back).(b_timers) in
    set_timers (mkTimers (fun c' => if bool_decide (c' = c) then later now seconds else t.(t_check) c') t.(t_join) t.(t_create) t.(t_sync)) e);
  eret true.

(** src/client/messaging_engine.cpp 2420-2468 maintain_prekeys *)
Definition maintain_prekeys : E unit :=
  do due <- due PrekeyCheck me.(options).(prekey_check_seconds);
  do config <- look (fun e => load_mailbox_config e.(e_keys));
  match due, config with
  | true, Some _ =>
      do r <- (need _ <- connect_authenticated; relay_call PrekeysHeld);
      match r with
      | inl _ => eret tt
      | inr status =>
          do wall <- unix_now;
          do generation <- look (fun e => vault_generation_of e.(e_prekeys));
          let replace := is_empty generation || negb (bool_decide (status.(PrekeyStatus_generation) = generation)) in
          do generation <- (if replace then replace_pool generation status wall
                            else do _ <- top_up_pool status wall; eret generation);
          do pending <- look (fun e => not_uploaded e.(e_prekeys));
          do status <- upload_prekeys (chunks (length pending) MAX_PREKEYS_PER_PUT pending) replace generation wall status;
          do _ <- vault_run (fun v => forget_old v (wall - me.(options).(retired_last_resort_keep_seconds))
                                        (wall - me.(options).(unused_prekey_keep_seconds)));
          change (set_relay_prekeys status)
      end
  | _, _ => eret tt
  end.

(** src/client/messaging_engine.h 369-375 PrekeyInfo *)
Record PrekeyInfo := mkPrekeyInfo {
  pi_local_one_time : Z;
  pi_local_last_resort : Z;
  pi_local_retired : Z;
  pi_pending_upload : Z;
  pi_generation : bytes;
  pi_relay_one_time : Z;
  pi_relay_last_resort : bool;
  pi_relay_matches : bool;
}.

(** src/client/messaging_engine.cpp 2470-2484 prekey_info *)
Definition prekey_info (e : Engine) : PrekeyInfo :=
  let c := vault_counts e.(e_prekeys) in
  let generation := vault_generation_of e.(e_prekeys) in
  let relay := e.(e_back).(b_relay_prekeys) in
  mkPrekeyInfo c.(one_time) c.(last_resort) c.(retired) c.(pending) (bytes_to_hex generation) relay.(PrekeyStatus_one_time)
    relay.(PrekeyStatus_last_resort) (negb (is_empty generation) && bool_decide (relay.(PrekeyStatus_generation) = generation)).
End engine.
