(* ===== verification/EngineDeletions.v ===== *)
(** * The messaging engine: chat archives and deletion by agreement

    Who makes a chat's archive ([archive_context]), grants to it, warnings and
    checkpoints, and requests to delete a chat or messages: asking, hearing of
    one, accepting, and the order sent to the relay once everyone has agreed. *)

From Stdlib Require Import ZArith Lia.
From stdpp Require Import base list strings gmap.
From S2P Require Import Prelude Wire Text Protocol RelayProtocol Crypto Prekey Envelope MessageRecord RecordPayloads IdentityBundle KeyStore Sharing Sql PrekeyVault HistoryTables HistoryStore HistoryRecords HistoryQueues Engine.
#[local] Open Scope Z_scope.
#[local] Open Scope wire_scope.
#[local] Open Scope engine_scope.

(** src/client/message_record.h 218-218 DELETE_REQUEST_LIFETIME_SECONDS *)
Definition DELETE_REQUEST_LIFETIME_SECONDS : Z := 7 * 24 * 3600.

(** [err.find(text) != std::string::npos]. *)
Definition mentions (err : bytes) (text : string) : bool := match find_sub (str text) err with Some _ => true | None => false end.

(** Everyone's fingerprint in bytes; nothing if one is not hexadecimal. *)
Fixpoint all_hex (fps : list bytes) : option (list bytes) :=
  match fps with
  | [] => Some []
  | fp :: fps => let? raw := hex_to_bytes fp in let? l := all_hex fps in Some (raw :: l)
  end.

Section engine.
Context `{P : Primitives} (me : Self) (w : World).

Abbreviation unix_now := (unix_now w).
Abbreviation random_bytes := (random_bytes w).
Abbreviation relay_call := (relay_call w).
Abbreviation enqueue := (enqueue w).
Abbreviation sign_own := (sign_own me w).
Abbreviation queue_archive_entry := (queue_archive_entry w).

(** src/client/messaging_engine.h 447-452 ArchiveContext *)
Record ArchiveContext := mkArchiveContext {
  ctx_others : list bytes;
  ctx_recipients_hash : bytes;
  ctx_maker_fp : bytes;
  ctx_direct : bool;
}.

(** src/client/messaging_engine.cpp 1457-1477 archive_context *)
Definition archive_context (e : Engine) (conversation_id : bytes) : option ArchiveContext :=
  let? conv := hs_conversation e.(e_history) conversation_id in
  let? everyone := all_hex conv.(Conv_members) in
  let hash := recipients_hash_for (me.(my_fp) :: everyone) in
  if conv.(Conv_kind) =? Direct then
    match conv.(Conv_members) with
    | [other] => Some (mkArchiveContext [other] hash (if bytes_ltb other me.(my_fp_hex) then other else me.(my_fp_hex)) true)
    | _ => None
    end
  else Some (mkArchiveContext conv.(Conv_members) hash conv.(Conv_creator_fp) false).

(** src/client/messaging_engine.cpp 1564-1584 receive_archive_grant *)
Definition receive_archive_grant (sender : Peer) (sr : SignedRecord) : E bool :=
  let id := sr.(sr_record).(mr_conversation_id) in
  do ctx <- look (fun e => archive_context e id);
  match ctx with
  | None => eret false
  | Some ctx =>
      if bool_decide (ctx.(ctx_maker_fp) = me.(my_fp_hex)) || negb (bool_decide (sender.(p_fp) = ctx.(ctx_maker_fp))) then eret false else
      do have <- look (fun e => hs_archive e.(e_history) id);
      match have with
      | Some _ => eret false
      | None =>
          match parse_archive_grant_payload sr.(sr_record).(mr_payload) with
          | None => eret false
          | Some info =>
              match parse_server_address info.(ag_relay_address) with
              | None => eret false
              | Some _ =>
                  do seed <- random_bytes 32;
                  let chat_key := generate_sig_keypair seed in
                  do now <- unix_now;
                  do n1 <- nonce w;
                  do n2 <- nonce w;
                  do n3 <- nonce w;
                  hist (fun db => hs_add_archive n1 n2 n3 db
                    (mkHArchive id info.(ag_relay_address) info.(ag_relay_id) ArchiveMember ArchiveGranted info.(ag_archive_key)
                       chat_key.1 chat_key.2 info.(ag_join_token) 0 [] now [] 0 0 0 []))
              end
          end
      end
  end.

(** src/client/messaging_engine.cpp 1735-1742 warn_archive *)
Definition warn_archive (conversation_id what : bytes) : E unit :=
  do a <- look (fun e => hs_archive e.(e_history) conversation_id);
  match a with
  | None => eret tt
  | Some a =>
      if negb (is_empty a.(HA_warning)) then eret tt else
      do _ <- hist_do (fun db => set_archive_warning db conversation_id what);
      do _ <- notify (str "Warning about a chat's archive: " ++ what);
      bump
  end.

(** src/client/messaging_engine.cpp 1810-1824 process_checkpoint *)
Definition process_checkpoint (conversation_id : bytes) (sr : SignedRecord) (sender_fp : bytes) : E bool :=
  do ctx <- look (fun e => archive_context e conversation_id);
  match ctx with
  | None => eret false
  | Some ctx =>
      if negb (bool_decide (sender_fp ∈ ctx.(ctx_others))) then eret false else
      if negb (bool_decide (sr.(sr_record).(mr_recipients_hash) = ctx.(ctx_recipients_hash))) then eret false else
      match parse_checkpoint_payload sr.(sr_record).(mr_payload) with
      | None => eret false
      | Some info =>
          do _ <- hist_do (fun db => note_checkpoint_seen db conversation_id info.(cp_number));
          do ours <- look (fun e => archive_hash e.(e_history) conversation_id info.(cp_number));
          match ours with
          | Some ours =>
              if negb (bool_decide (ours = info.(cp_hash))) then
                do _ <- warn_archive conversation_id
                  (str "A member's checkpoint contradicts the relay's copy of this chat at entry " ++ to_string info.(cp_number)
                   ++ str ": the relay may be showing different members different histories");
                eret true
              else eret false
          | None => eret false
          end
      end
  end.

(** src/client/messaging_engine.cpp 1620-1631 open_archive_session *)
Definition open_archive_session (a : HArchive) : E (bytes + unit) :=
  if negb (a.(HA_state) =? ArchiveJoined) then
    fail (if a.(HA_state) =? ArchiveFailed then str "This chat's archive could not be joined: " ++ a.(HA_note)
          else str "This device has not joined the chat's archive yet")
  else
  match parse_server_address a.(HA_relay_address) with
  | None => fail (str "The archive's relay address is not valid")
  | Some address =>
      do r <- relay_call (OpenArchive address.(sa_host) address.(sa_port) a.(HA_relay_id) a.(HA_conversation_id) a.(HA_chat_public_key));
      match r with inl err => fail err | inr _ => ok tt end
  end.

(** ** Deletion by agreement *)

(** src/client/messaging_engine.cpp 2140-2144 sign_deletion *)
Definition sign_deletion (rand : bytes) (a : HArchive) (d : Deletion) : exc bytes :=
  sign rand (archive_delete_signing_input a.(HA_relay_id) a.(HA_conversation_id) (u32 d.(Del_scope)) d.(Del_op_id)
               (u64 d.(Del_expires_at)) d.(Del_entries)) a.(HA_chat_private_key).

(** src/client/messaging_engine.cpp 2326-2341 apply_deletion_locally *)
Definition apply_deletion_locally (d : Deletion) : E unit :=
  let conv := d.(Del_conversation_id) in
  do _ <- (if d.(Del_scope) =? 1 then
             do _ <- hist_do (fun db => erase_conversation_messages db conv);
             hist_do (fun db => hs_remove_archive db conv)
           else
             for_each d.(Del_entries) (fun hash =>
               do number <- look (fun e => archive_number_of e.(e_history) conv hash);
               match number with
               | None => eret tt
               | Some number =>
                   do mids <- look (fun e => archive_messages_at e.(e_history) conv number);
                   do _ <- for_each mids (fun mid => hist_do (fun db => (erase_message db conv mid).2));
                   hist_do (fun db => mark_archive_redacted db conv number)
               end));
  do _ <- hist_do (fun db => set_deletion_state db d.(Del_op_id) DeletionDone);
  do _ <- notify (if d.(Del_scope) =? 1 then str "A chat was deleted, by agreement of everyone in it."
                  else str "Messages were deleted, by agreement of everyone in the chat.");
  bump.

(** The order: what was asked, and every signature held.
    src/client/messaging_engine.cpp 2355-2360 try_submit_deletion *)
Definition deletion_order (d : Deletion) (accepts : list (bytes * bytes * bytes)) : ArchiveDelete :=
  mkArchiveDelete (u32 d.(Del_scope)) d.(Del_op_id) (u64 d.(Del_expires_at)) d.(Del_entries)
    (map (fun a => mkArchiveSignature a.1.1 a.1.2) accepts).

(** src/client/messaging_engine.cpp 2345-2372 try_submit_deletion *)
Definition try_submit_deletion (op_id : bytes) : E unit :=
  do d <- look (fun e => hs_deletion e.(e_history) op_id);
  match d with
  | None => eret tt
  | Some d =>
      if negb (d.(Del_state) =? DeletionAccepted) then eret tt else
      do accepts <- look (fun e => hs_deletion_accepts e.(e_history) op_id);
      let key := bytes_to_hex op_id in
      do last <- look (fun e => e.(e_attempts) !! key);
      if (size accepts <? 2) || (match last with Some n => size accepts <=? n | None => false end) then eret tt else
      do _ <- change (fun e => set_sync e.(e_sync_now) (<[key := size accepts]> e.(e_attempts)) e);
      do a <- look (fun e => hs_archive e.(e_history) d.(Del_conversation_id));
      match a with
      | None => eret tt
      | Some a =>
          do opened <- open_archive_session a;
          match opened with
          | inl _ => eret tt
          | inr _ =>
              do r <- relay_call (DeleteInArchive (deletion_order d accepts));
              match r with
              | inr _ => apply_deletion_locally d
              | inl err =>
                  if mentions err "not valid" then notify (str "A signature on a deletion request didn't check out, so nothing was deleted.")
                  else if mentions err "expired" then hist_do (fun db => set_deletion_state db op_id DeletionExpired)
                  else eret tt
              end
          end
      end
  end.

(** A chat whose deletion is already being asked for.
    src/client/messaging_engine.cpp 2151-2155 start_deletion *)
Definition already_asked (conversation_id : bytes) (scope : Z) : E bool :=
  do all <- look (fun e => hs_deletions e.(e_history));
  any_of all (fun d =>
    if bool_decide (d.(Del_conversation_id) = conversation_id) && (scope =? 1) && (d.(Del_scope) =? 1)
       && ((d.(Del_state) =? DeletionPending) || (d.(Del_state) =? DeletionAccepted))
    then do now <- unix_now; eret (now <? d.(Del_expires_at))
    else eret false).

(** src/client/messaging_engine.cpp 2146-2197 start_deletion *)
Definition start_deletion (conversation_id : bytes) (scope : Z) (entries : list bytes) : E (bytes + unit) :=
  do ctx <- look (fun e => archive_context e conversation_id);
  do a <- look (fun e => hs_archive e.(e_history) conversation_id);
  match ctx, a with
  | Some ctx, Some a =>
      if negb (a.(HA_state) =? ArchiveJoined) then fail (str "This device has not joined the chat's archive yet") else
      do asked <- already_asked conversation_id scope;
      if asked then fail (str "There is already a request to delete this chat, waiting for answers") else
      do now <- unix_now;
      do op_id <- random_bytes 16;
      let d := mkDeletion op_id conversation_id scope (now + DELETE_REQUEST_LIFETIME_SECONDS) me.(my_fp_hex) entries DeletionAccepted now in
      do request_id <- random_bytes ID_BYTES;
      do accept_id <- random_bytes ID_BYTES;
      let key_hash := sha256 a.(HA_chat_public_key) in
      do made <- or_error (
        do rand <- random_bytes 32;
        do signature <- of_exc (sign_deletion rand a d);
        do payload <- of_exc (delete_request_payload (mkDeleteRequestInfo scope op_id (u64 d.(Del_expires_at)) entries));
        do request_raw <- sign_own conversation_id request_id ctx.(ctx_recipients_hash) (u64 now) RT_DeleteRequest payload [] [];
        do payload <- of_exc (delete_accept_payload (mkDeleteAcceptInfo op_id key_hash signature));
        do accept_raw <- sign_own conversation_id accept_id ctx.(ctx_recipients_hash) (u64 now) RT_DeleteAccept payload [] [];
        eret (signature, request_raw, accept_raw));
      match made with
      | inl err => fail err
      | inr (signature, request_raw, accept_raw) =>
          do fresh <- hist (fun db => Ret (hs_add_deletion db d));
          if negb fresh then fail (str "That request already exists") else
          do _ <- hist_do (fun db => add_deletion_accept db op_id key_hash signature me.(my_fp_hex));
          do _ <- queue_archive_entry conversation_id request_raw request_id;
          do _ <- queue_archive_entry conversation_id accept_raw accept_id;
          do _ <- for_each ctx.(ctx_others) (fun fp => enqueue fp OUTBOX_KIND_MESSAGE request_id [request_raw] now now);
          do _ <- bump;
          ok tt
      end
  | _, _ => fail (str "This chat has no archive, so there is nothing to ask everyone to delete")
  end.

(** src/client/messaging_engine.cpp 2199-2203 request_chat_deletion *)
Definition request_chat_deletion (conversation_id : bytes) : E (bytes + unit) :=
  match hex_to_bytes conversation_id with
  | None => fail (str "That chat isn't in your list")
  | Some id => start_deletion id DELETE_SCOPE_CHAT []
  end.

(** The archive entry of each message; nothing if one has none.
    src/client/messaging_engine.cpp 2209-2216 request_message_deletion *)
Fixpoint entries_of (e : Engine) (id : bytes) (message_ids entries : list bytes) : option (list bytes) :=
  match message_ids with
  | [] => Some entries
  | hex :: message_ids =>
      let? mid := hex_to_bytes hex in
      let? number := archive_message_number e.(e_history) id mid in
      let? hash := archive_hash e.(e_history) id number in
      entries_of e id message_ids (if bool_decide (hash ∈ entries) then entries else entries ++ [hash])
  end.

(** src/client/messaging_engine.cpp 2205-2218 request_message_deletion *)
Definition request_message_deletion (conversation_id : bytes) (message_ids : list bytes) : E (bytes + unit) :=
  match hex_to_bytes conversation_id with
  | None => fail (str "That chat isn't in your list")
  | Some id =>
      if (size message_ids =? 0) || (MAX_DELETE_ENTRIES <? size message_ids) then fail (str "Choose between 1 and 64 messages") else
      do entries <- look (fun e => entries_of e id message_ids []);
      match entries with
      | None => fail (str "A message you chose isn't in the chat's archive (it was sent before the archive was made), so it can't be deleted for everyone")
      | Some entries => start_deletion id DELETE_SCOPE_ENTRIES entries
      end
  end.

(** src/client/messaging_engine.cpp 2242-2264 receive_deletion_request *)
Definition receive_deletion_request (sender : Peer) (sr : SignedRecord) : E bool :=
  let id := sr.(sr_record).(mr_conversation_id) in
  do ctx <- look (fun e => archive_context e id);
  match ctx with
  | None => eret false
  | Some ctx =>
      if negb (bool_decide (sender.(p_fp) ∈ ctx.(ctx_others)))
         || negb (bool_decide (sr.(sr_record).(mr_recipients_hash) = ctx.(ctx_recipients_hash))) then eret false else
      do now <- unix_now;
      match parse_delete_request_payload sr.(sr_record).(mr_payload) with
      | None => eret false
      | Some info =>
          let expires := i64 info.(dr_expires_at) in
          if (expires <=? now) || (now + DELETE_REQUEST_LIFETIME_SECONDS + 3600 <? expires) then eret false else
          do have <- look (fun e => has_archive e.(e_history) id);
          if negb have then eret false else
          do fresh <- hist (fun db => Ret (hs_add_deletion db
            (mkDeletion info.(dr_op_id) id info.(dr_scope) expires sender.(p_fp) info.(dr_entries) DeletionPending now)));
          if negb fresh then eret false else
          do _ <- notify (sender.(p_name) ++ str " asked to delete "
                   ++ (if info.(dr_scope) =? 1 then str "a whole chat" else to_string (size info.(dr_entries)) ++ str " message(s)")
                   ++ str " for everyone. It only happens if you all agree.");
          eret true
      end
  end.

(** src/client/messaging_engine.cpp 2267-2277 receive_deletion_accept *)
Definition receive_deletion_accept (sender : Peer) (sr : SignedRecord) : E bool :=
  let id := sr.(sr_record).(mr_conversation_id) in
  do ctx <- look (fun e => archive_context e id);
  match ctx with
  | None => eret false
  | Some ctx =>
      if negb (bool_decide (sender.(p_fp) ∈ ctx.(ctx_others)))
         || negb (bool_decide (sr.(sr_record).(mr_recipients_hash) = ctx.(ctx_recipients_hash))) then eret false else
      match parse_delete_accept_payload sr.(sr_record).(mr_payload) with
      | None => eret false
      | Some info =>
          do d <- look (fun e => hs_deletion e.(e_history) info.(RecordPayloads.da_op_id));
          match d with
          | None => eret false
          | Some d =>
              if negb (bool_decide (d.(Del_conversation_id) = id)) || (d.(Del_state) =? DeletionDone) || (d.(Del_state) =? DeletionExpired)
              then eret false else
              do _ <- hist_do (fun db => add_deletion_accept db d.(Del_op_id) info.(RecordPayloads.da_key_hash) info.(RecordPayloads.da_signature) sender.(p_fp));
              do _ <- try_submit_deletion d.(Del_op_id);
              eret true
          end
      end
  end.

(** src/client/messaging_engine.cpp 2279-2314 accept_deletion *)
Definition accept_deletion (op_id : bytes) : E (bytes + unit) :=
  do d <- look (fun e => let? op := hex_to_bytes op_id in hs_deletion e.(e_history) op);
  match d with
  | None => fail (str "That request isn't known")
  | Some d =>
      if negb (d.(Del_state) =? DeletionPending) then fail (str "That request is no longer waiting for your answer") else
      do now0 <- unix_now;
      if d.(Del_expires_at) <=? now0 then fail (str "That request has expired") else
      let conv := d.(Del_conversation_id) in
      do a <- look (fun e => hs_archive e.(e_history) conv);
      do ctx <- look (fun e => archive_context e conv);
      match a, ctx with
      | Some a, Some ctx =>
          if negb (a.(HA_state) =? ArchiveJoined) then fail (str "This device has not joined the chat's archive, so it can't sign") else
          do now <- unix_now;
          do accept_id <- random_bytes ID_BYTES;
          let key_hash := sha256 a.(HA_chat_public_key) in
          do made <- or_error (
            do rand <- random_bytes 32;
            do signature <- of_exc (sign_deletion rand a d);
            do payload <- of_exc (delete_accept_payload (mkDeleteAcceptInfo d.(Del_op_id) key_hash signature));
            do accept_raw <- sign_own conv accept_id ctx.(ctx_recipients_hash) (u64 now) RT_DeleteAccept payload [] [];
            eret (signature, accept_raw));
          match made with
          | inl err => fail err
          | inr (signature, accept_raw) =>
              do _ <- hist_do (fun db => add_deletion_accept db d.(Del_op_id) key_hash signature me.(my_fp_hex));
              do _ <- hist_do (fun db => set_deletion_state db d.(Del_op_id) DeletionAccepted);
              do _ <- queue_archive_entry conv accept_raw accept_id;
              do _ <- enqueue d.(Del_requester_fp) OUTBOX_KIND_MESSAGE accept_id [accept_raw] now now;
              do _ <- bump;
              do _ <- try_submit_deletion d.(Del_op_id);
              ok tt
          end
      | _, _ => fail (str "This device has not joined the chat's archive, so it can't sign")
      end
  end.

(** src/client/messaging_engine.cpp 2316-2323 decline_deletion *)
Definition decline_deletion (op_id : bytes) : E bool :=
  do d <- look (fun e => let? op := hex_to_bytes op_id in hs_deletion e.(e_history) op);
  match d with
  | None => eret false
  | Some d =>
      if negb (d.(Del_state) =? DeletionPending) then eret false else
      do _ <- hist_do (fun db => set_deletion_state db d.(Del_op_id) DeletionDeclined);
      do _ <- bump;
      eret true
  end.
End engine.
