(* ===== verification/EngineReceive.v ===== *)
(** * The messaging engine: what arrives

    Receipts, records of a one-to-one chat ([handle_record]) and of a group
    ([handle_group_record]), invitations, envelopes ([process_envelope]) and records
    read back from an archive. Dereferencing an empty optional throws. *)

From Stdlib Require Import ZArith Lia.
From stdpp Require Import base list strings gmap.
From S2P Require Import Prelude Wire Text Protocol RelayProtocol Crypto Prekey Envelope MessageRecord RecordPayloads IdentityBundle KeyStore Sharing Sql PrekeyVault HistoryTables HistoryStore HistoryRecords HistoryQueues Engine EngineDeletions.
#[local] Open Scope Z_scope.
#[local] Open Scope wire_scope.
#[local] Open Scope engine_scope.

Section engine.
Context `{P : Primitives} (me : Self) (w : World).

Abbreviation unix_now := (unix_now w).
Abbreviation random_bytes := (random_bytes w).
Abbreviation enqueue := (enqueue w).
Abbreviation sign_own := (sign_own me w).
Abbreviation store_message := (store_message w).

(** ** Receipts *)

(** src/client/messaging_engine.cpp 545-562 enqueue_receipt_in *)
Definition send_receipt (conversation_id recipients_hash to_fp : bytes) (kind : ReceiptKind) (delayed : bool) (chunk : list bytes) : E unit :=
  do id <- random_bytes ID_BYTES;
  do sent_at <- unix_now;
  do payload <- of_exc (receipt_payload kind chunk);
  try_catch (
    do raw <- sign_own conversation_id id recipients_hash (u64 sent_at) RT_Receipt payload [] [];
    do due <- unix_now;
    let most := me.(options).(receipt_delay_max_seconds) in
    do due <- (if delayed && (0 <? most)
               then do rnd <- random_bytes 2; eret (due + (byte_at rnd 0 * 256 + byte_at rnd 1) mod (most + 1))
               else eret due);
    do now <- unix_now;
    enqueue to_fp OUTBOX_KIND_RECEIPT id [raw] due now)
  (fun _ => eret tt).

(** src/client/messaging_engine.cpp 536-564 enqueue_receipt_in *)
Definition enqueue_receipt_in (conversation_id recipients_hash to_fp : bytes) (kind : ReceiptKind) (ids : list bytes) (delayed : bool) : E unit :=
  do peer <- look (fun e => resolve_peer e to_fp conversation_id);
  match peer with
  | None => eret tt
  | Some peer =>
      if negb peer.(p_can_send) || no_items ids then eret tt else
      for_each (chunks (length ids) 256 ids) (send_receipt conversation_id recipients_hash to_fp kind delayed)
  end.

(** src/client/messaging_engine.cpp 529-533 enqueue_receipt *)
Definition enqueue_receipt (contact_fp : bytes) (kind : ReceiptKind) (ids : list bytes) (delayed : bool) : E unit :=
  match hex_to_bytes contact_fp with
  | None => eret tt
  | Some their_fp =>
      if negb (size their_fp =? 32) then eret tt else
      enqueue_receipt_in (conversation_id_for me.(my_fp) their_fp) (recipients_hash_for [me.(my_fp); their_fp]) contact_fp kind ids delayed
  end.

(** A receipt's status, raised for each message it names.
    src/client/messaging_engine.cpp 637-641 handle_record *)
Definition apply_receipt (conv_id from_fp payload : bytes) : E bool :=
  match parse_receipt_payload payload with
  | None => eret false
  | Some info =>
      let status := match info.(RecordPayloads.ri_kind) with ReadReceipt => StatusRead | Delivered => StatusDelivered end in
      for_any info.(ri_message_ids) (fun id => hist (fun db => Ret (raise_delivery db conv_id id from_fp status)))
  end.

(** ** Attachments *)

(** [named] and [theirs] are the same place.
    src/client/messaging_engine.cpp 2544-2546 note_incoming_attachment *)
Definition on_own_relay (e : Engine) (sr : SignedRecord) (info : AttachmentInfo) : bool :=
  match resolve_peer e (bytes_to_hex sr.(sr_record).(mr_sender)) sr.(sr_record).(mr_conversation_id) with
  | None => false
  | Some sender =>
      match parse_server_address info.(RecordPayloads.at_relay_address), parse_server_address sender.(p_relay_address) with
      | Some named, Some theirs =>
          bool_decide (named.(sa_host) = theirs.(sa_host)) && (named.(sa_port) =? theirs.(sa_port))
          && bool_decide (info.(RecordPayloads.at_relay_id) = sender.(p_relay_id))
      | _, _ => false
      end
  end.

(** The row for an attachment that arrives. The difference of the two times is
    taken in 64 bits, wrapping around.
    src/client/messaging_engine.cpp 2515-2550 note_incoming_attachment *)
Definition incoming_attachment (e : Engine) (sr : SignedRecord) (info : AttachmentInfo) (grants : list AttachmentGrant) (now : Z) : Attachment :=
  let outgoing := bool_decide (sr.(sr_record).(mr_sender) = me.(my_fp)) in
  let expires := i64 info.(RecordPayloads.at_expires_at) in
  let '(key, token, state) :=
    match last (filter (fun g => g.(Grant_file_id) = info.(RecordPayloads.at_file_id)) grants) with
    | Some g => (g.(Grant_key), g.(Grant_token), AttachAvailable)
    | None => ([], [], AttachUnavailable)
    end in
  let state := match parse_server_address info.(RecordPayloads.at_relay_address) with Some _ => state | None => AttachUnavailable end in
  let note := if (state =? AttachUnavailable) && negb outgoing && (i64 (now - i64 sr.(sr_record).(mr_sent_at)) <? 3600)
              then str "Waiting for the sender's upload to finish" else [] in
  let '(state, note) :=
    if (state =? AttachAvailable) && negb outgoing && negb (on_own_relay e sr info)
    then (AttachUnavailable, str "The file is on a relay that isn't the sender's own, so it will not be fetched") else (state, note) in
  let state := if (state =? AttachAvailable) && (expires <=? now) then AttachExpired else state in
  mkAttachment info.(RecordPayloads.at_file_id) sr.(sr_record).(mr_conversation_id) sr.(sr_record).(mr_message_id) outgoing info.(RecordPayloads.at_name)
    info.(RecordPayloads.at_size) info.(RecordPayloads.at_sha256) expires info.(RecordPayloads.at_relay_address) info.(RecordPayloads.at_relay_id) state key token [] [] note 0 0 now.

(** src/client/messaging_engine.cpp 2511-2556 note_incoming_attachment *)
Definition note_incoming_attachment (sr : SignedRecord) (grants : list AttachmentGrant) : E unit :=
  match parse_attachment_payload sr.(sr_record).(mr_payload) with
  | None => eret tt
  | Some info =>
      do now <- unix_now;
      do a <- look (fun e => incoming_attachment e sr info grants now);
      do n <- nonce w;
      do fresh <- hist (fun db => add_attachment n db a);
      if fresh then eret tt else
      do existing <- look (fun e => hs_attachment e.(e_history) a.(Att_file_id));
      match existing with
      | Some x =>
          if negb x.(Att_outgoing) && (x.(Att_state) =? AttachUnavailable) && is_empty x.(Att_key) && negb (a.(Att_state) =? AttachUnavailable)
          then do n <- nonce w; hist_try (fun db => grant_attachment n db a.(Att_file_id) a.(Att_key) a.(Att_token) a.(Att_state) a.(Att_note))
          else eret tt
      | None => eret tt
      end
  end.

(** ** Messages *)

(** The message a record becomes.
    src/client/messaging_engine.cpp 612-622 handle_record *)
Definition incoming_message (sr : SignedRecord) (now : Z) (gap : bool) : Message :=
  let r := sr.(sr_record) in
  mkMessage 0 r.(mr_conversation_id) r.(mr_message_id) false (i64 r.(mr_sent_at)) now 0 gap sr.(sr_entry_hash) sr.(sr_raw) false.

(** They pointed at an earlier message of theirs that we never saw. *)
Definition missing_before (e : Engine) (sr : SignedRecord) : bool :=
  let r := sr.(sr_record) in
  negb (is_empty r.(mr_own_prev)) && negb (has_entry e.(e_history) r.(mr_conversation_id) r.(mr_own_prev)).

(** What a text and an attachment share, in a one-to-one chat and in a group:
    false for a duplicate.
    src/client/messaging_engine.cpp 623-628 handle_record, and 1168-1173 handle_group_record *)
Definition receive_message (sr : SignedRecord) (now : Z) : E bool :=
  let attachment := bool_decide (sr.(sr_record).(mr_type) = RT_Attachment) in
  do gap <- look (fun e => missing_before e sr);
  do fresh <- store_message (incoming_message sr now gap);
  do grants <- look e_grants;
  if negb fresh then
    do _ <- when_ (attachment && negb (no_grants grants)) (note_incoming_attachment sr grants);
    eret false
  else
  do _ <- when_ gap (change (fun e => set_sync ({[bytes_to_hex sr.(sr_record).(mr_conversation_id)]} ∪ e.(e_sync_now)) e.(e_attempts) e));
  do _ <- when_ attachment (note_incoming_attachment sr grants);
  eret true.

Definition bad_attachment (sr : SignedRecord) : bool :=
  bool_decide (sr.(sr_record).(mr_type) = RT_Attachment)
  && match parse_attachment_payload sr.(sr_record).(mr_payload) with Some _ => false | None => true end.

(** Records of a group we belong to.
    src/client/messaging_engine.cpp 1138-1204 handle_group_record *)
Definition handle_member_record (sender : Peer) (sr : SignedRecord) (delayed_receipt : bool) (conv : Conversation) : E bool :=
  let r := sr.(sr_record) in
  let conv_id := r.(mr_conversation_id) in
  if negb (bool_decide (sender.(p_fp) ∈ conv.(Conv_members))) then eret false else
  match all_hex conv.(Conv_members) with
  | None => eret false
  | Some everyone =>
      if negb (bool_decide (r.(mr_recipients_hash) = recipients_hash_for (me.(my_fp) :: everyone))) then eret false else
      do now <- unix_now;
      match r.(mr_type) with
      | RT_Text | RT_Attachment =>
          if bad_attachment sr then eret false else
          do fresh <- receive_message sr now;
          if negb fresh then eret false else
          do _ <- when_ conv.(Conv_send_delivery_receipts)
                    (enqueue_receipt_in conv_id r.(mr_recipients_hash) sender.(p_fp) Delivered [r.(mr_message_id)] delayed_receipt);
          eret true
      | RT_Receipt => apply_receipt conv_id sender.(p_fp) r.(mr_payload)
      | RT_TokenGrant =>
          do n <- nonce w;
          do _ <- hist_try (fun db => save_member_token n db conv_id sender.(p_fp) r.(mr_payload) now);
          eret true
      | RT_Forward =>
          if negb (bool_decide (conv.(Conv_creator_fp) = me.(my_fp_hex))) then eret false else
          match parse_forward_payload r.(mr_payload) with
          | None => eret false
          | Some info =>
              let target := bytes_to_hex info.(fi_target) in
              if bool_decide (target = sender.(p_fp)) || negb (bool_decide (target ∈ conv.(Conv_members))) then eret false else
              do _ <- enqueue target OUTBOX_KIND_RELAY r.(mr_message_id) [info.(fi_envelope)] now now;
              eret true
          end
      | RT_ArchiveGrant => receive_archive_grant me w sender sr
      | RT_DeleteRequest => receive_deletion_request me w sender sr
      | RT_DeleteAccept => receive_deletion_accept me w sender sr
      | RT_Checkpoint | RT_Conversation => eret false
      end
  end.

(** Who an invitation names, from the creation record it keeps. *)
Definition invite_info (invite : GroupInvite) : option ConversationInfo :=
  let? raw := head invite.(Invite_records) in
  let? creation := parse_record raw in
  conversation_from_record creation.

(** Records of a group we are invited to.
    src/client/messaging_engine.cpp 1207-1219 handle_group_record *)
Definition hold_record (sender : Peer) (sr : SignedRecord) (invite : GroupInvite) : E bool :=
  let r := sr.(sr_record) in
  if negb (bool_decide (r.(mr_type) ∈ [RT_Text; RT_TokenGrant; RT_ArchiveGrant])) then eret false else
  match invite_info invite with
  | None => eret false
  | Some info =>
      if negb (bool_decide (default [] (hex_to_bytes sender.(p_fp)) ∈ info.(ci_members))) then eret false else
      if negb (bool_decide (r.(mr_recipients_hash) = recipients_hash_for info.(ci_members))) then eret false else
      do n <- nonce w;
      hist (fun db => hold_for_invite n db r.(mr_conversation_id) sr.(sr_raw))
  end.

(** src/client/messaging_engine.cpp 1134-1222 handle_group_record *)
Definition handle_group_record (sender : Peer) (sr : SignedRecord) (delayed_receipt : bool) : E bool :=
  let r := sr.(sr_record) in
  if bool_decide (r.(mr_sender) = me.(my_fp)) then eret false else
  do conv <- look (fun e => hs_conversation e.(e_history) r.(mr_conversation_id));
  do invite <- look (fun e => group_invite e.(e_history) r.(mr_conversation_id));
  let invited := match invite with Some invite => hold_record sender sr invite | None => eret false end in
  match conv with
  | Some conv => if conv.(Conv_kind) =? Group then handle_member_record sender sr delayed_receipt conv else invited
  | None => invited
  end.

(** src/client/messaging_engine.cpp 597-661 handle_record *)
Definition handle_record (contact : Contact) (sr : SignedRecord) (delayed_receipt : bool) : E bool :=
  let r := sr.(sr_record) in
  match hex_to_bytes contact.(co_fingerprint) with
  | None => eret false
  | Some their_fp =>
      if negb (size their_fp =? 32) || negb (bool_decide (r.(mr_sender) = their_fp)) then eret false else
      let conv_id := conversation_id_for me.(my_fp) their_fp in
      let peer := peer_from_contact contact in
      if negb (bool_decide (r.(mr_conversation_id) = conv_id)) then handle_group_record peer sr delayed_receipt else
      if negb (bool_decide (r.(mr_recipients_hash) = recipients_hash_for [me.(my_fp); their_fp])) then eret false else
      do now <- unix_now;
      match r.(mr_type) with
      | RT_Text | RT_Attachment =>
          if bad_attachment sr then eret false else
          do _ <- hist (fun db => ensure_conversation db conv_id contact.(co_fingerprint) now);
          do fresh <- receive_message sr now;
          if negb fresh then eret false else
          do conv <- look (fun e => conversation_for e.(e_history) contact.(co_fingerprint));
          do _ <- when_ (match conv with Some c => c.(Conv_send_delivery_receipts) | None => false end)
                    (enqueue_receipt contact.(co_fingerprint) Delivered [r.(mr_message_id)] delayed_receipt);
          eret true
      | RT_Receipt => apply_receipt conv_id contact.(co_fingerprint) r.(mr_payload)
      | RT_ArchiveGrant => receive_archive_grant me w peer sr
      | RT_DeleteRequest => receive_deletion_request me w peer sr
      | RT_DeleteAccept => receive_deletion_accept me w peer sr
      | RT_Checkpoint | RT_Conversation | RT_Forward => eret false
      | RT_TokenGrant =>
          if negb (size r.(mr_payload) =? 32) then eret false else
          try_catch (do _ <- on_keys (save_contact_token contact.(co_name) r.(mr_payload)); eret true) (fun _ => eret false)
      end
  end.

(** ** Invitations *)

(** What is known of the group already: it does not fit, it does, or nothing.
    src/client/messaging_engine.cpp 1241-1254 receive_group_invite *)
Definition invite_known (e : Engine) (creator : Contact) (sr : SignedRecord) (info : ConversationInfo) : option bool :=
  let id := sr.(sr_record).(mr_conversation_id) in
  match hs_conversation e.(e_history) id with
  | Some conv =>
      let others := sort_by bytes_leb (map bytes_to_hex (filter (fun m => m <> me.(my_fp)) info.(ci_members))) in
      let held := sort_by bytes_leb conv.(Conv_members) in
      if negb (conv.(Conv_kind) =? Group) || negb (bool_decide (conv.(Conv_creator_fp) = creator.(co_fingerprint)))
         || negb (bool_decide (held = others)) then None else Some true
  | None =>
      match group_invite e.(e_history) id with
      | Some pending => if negb (bool_decide (head pending.(Invite_records) = Some sr.(sr_raw))) then None else Some true
      | None => Some false
      end
  end.

(** One of the bundles an invitation brings; true if it is kept.
    src/client/messaging_engine.cpp 1266-1275 receive_group_invite *)
Definition save_introduction (creator : Contact) (creator_raw : bytes) (info : ConversationInfo) (now : Z) (raw : bytes) : E bool :=
  match parsed raw with
  | None => eret false
  | Some bundle =>
      let fp := bundle_fingerprint bundle in
      match hex_to_bytes fp with
      | None => eret false
      | Some fp_raw =>
          if bool_decide (fp_raw = me.(my_fp)) || bool_decide (fp_raw = creator_raw) then eret false else
          if negb (bool_decide (fp_raw ∈ info.(ci_members))) then eret false else
          do known <- look (fun e => find_contact e fp);
          match known with
          | Some _ => eret false
          | None =>
              do _ <- hist_do (fun db => save_introduced db fp raw (i64 bundle.(ib_issued_at)) creator.(co_fingerprint) now);
              eret true
          end
      end
  end.

(** An invitation not heard of before, if there is room for it.
    src/client/messaging_engine.cpp 1256-1259 receive_group_invite *)
Definition keep_invite (id creator_fp raw : bytes) (now : Z) : E bool :=
  do count <- look (fun e => group_invite_count e.(e_history));
  if MAX_PENDING_GROUP_INVITES <=? count then eret false else
  do n <- nonce w;
  hist (fun db => add_group_invite n db id creator_fp raw now).

(** src/client/messaging_engine.cpp 1226-1279 receive_group_invite *)
Definition receive_group_invite (creator : Contact) (sr : SignedRecord) (introduced_ : list bytes) : E bool :=
  let r := sr.(sr_record) in
  match conversation_from_record sr, hex_to_bytes creator.(co_fingerprint) with
  | Some info, Some creator_raw =>
      if negb (bool_decide (r.(mr_sender) = creator_raw)) then eret false else
      if negb (bool_decide (me.(my_fp) ∈ info.(ci_members))) then eret false else
      let id := r.(mr_conversation_id) in
      if bool_decide (id = conversation_id_for me.(my_fp) creator_raw) then eret false else
      do known <- look (fun e => invite_known e creator sr info);
      match known with
      | None => eret false
      | Some already_known =>
          do now <- unix_now;
          do accepted <- (if already_known then eret true else keep_invite id creator.(co_fingerprint) sr.(sr_raw) now);
          if negb accepted then eret false else
          do saved_any <- for_any introduced_ (save_introduction creator creator_raw info now);
          do _ <- when_ (negb already_known)
            (notify (creator.(co_name) ++ str " invited you to the group "
                     ++ (if is_empty info.(ci_title) then str "(no name)" else quoted info.(ci_title)) ++ str "."));
          do _ <- when_ (negb already_known || saved_any) bump;
          eret (negb already_known)
      end
  | _, _ => eret false
  end.

(** ** Envelopes *)

(** src/client/messaging_engine.cpp 667-671 only_group_grants *)
Definition only_group_grants (records : list SignedRecord) : bool :=
  match records with
  | [] => false
  | _ => forallb (fun sr => bool_decide (sr.(sr_record).(mr_type) = RT_TokenGrant)) records
  end.

(** A bundle that speaks for this sender. *)
Definition speaks_for (bundle : option IdentityBundle) (fp : bytes) : option IdentityBundle :=
  let? b := bundle in
  if bool_decide (bundle_fingerprint b = fp) then Some b else None.

(** A newer bundle from someone we already know; the contact as it then is.
    src/client/messaging_engine.cpp 707-713 process_envelope *)
Definition refresh_contact (contact : Contact) (bundle : option IdentityBundle) (sender_hex : bytes) : E Contact :=
  match speaks_for bundle sender_hex with
  | None => eret contact
  | Some b =>
      do imported <- on_keys (import_bundle_for_known_identity b []);
      match imported.(bi_result) with
      | Updated =>
          do found <- look (fun e => find_contact e sender_hex);
          match found with
          | None => ethrow "bad optional access"
          | Some contact =>
              do _ <- when_ imported.(encryption_key_changed) (notify (contact.(co_name) ++ str " is using a new encryption key."));
              eret contact
          end
      | _ => eret contact
      end
  end.

(** src/client/messaging_engine.cpp 705-724 process_envelope *)
Definition from_contact (contact : Contact) (bundle : option IdentityBundle) (sender : bytes) (records : list SignedRecord)
    (introduced_ : list bytes) (token_hash : bytes) : E bool :=
  let sender_hex := bytes_to_hex sender in
  do contact <- refresh_contact contact bundle sender_hex;
  do changed <- for_any records (fun sr =>
    if negb (bool_decide (sr.(sr_record).(mr_sender) = sender)) then eret false else
    if negb (verify_record sr contact.(co_pub_dsa)) then eret false else
    if bool_decide (sr.(sr_record).(mr_type) = RT_Conversation) then receive_group_invite contact sr introduced_
    else handle_record contact sr true);
  do _ <- when_ (negb (only_group_grants records)) (note_token_use token_hash sender_hex);
  do _ <- when_ changed bump;
  eret true.

(** Whether a record belongs to a group we are in or invited to.
    src/client/messaging_engine.cpp 729-733 process_envelope *)
Definition for_a_group (e : Engine) (records : list SignedRecord) : bool :=
  existsb (fun sr =>
    let id := sr.(sr_record).(mr_conversation_id) in
    match hs_conversation e.(e_history) id with Some conv => conv.(Conv_kind) =? Group | None => false end
    || match group_invite e.(e_history) id with Some _ => true | None => false end) records.

(** A newer bundle replaces the one we hold of someone introduced.
    src/client/messaging_engine.cpp 735-740 process_envelope *)
Definition refresh_member (member : Peer) (bundle : option IdentityBundle) (sender_hex : bytes) : E (option Peer) :=
  match speaks_for bundle sender_hex with
  | None => eret (Some member)
  | Some b =>
      do now <- unix_now;
      do _ <- hist_do (fun db => save_introduced db sender_hex b.(ib_raw) (i64 b.(ib_issued_at)) [] now);
      do found <- look (fun e => resolve_peer e sender_hex []);
      do _ <- match found with
              | Some m => when_ (negb (bool_decide (m.(p_pub_kem) = member.(p_pub_kem)))) (notify (m.(p_name) ++ str " is using a new encryption key."))
              | None => eret tt
              end;
      eret found
  end.

(** src/client/messaging_engine.cpp 734-753 process_envelope *)
Definition from_member (member : Peer) (bundle : option IdentityBundle) (sender : bytes) (records : list SignedRecord)
    (token_hash : bytes) : E bool :=
  let sender_hex := bytes_to_hex sender in
  do found <- refresh_member member bundle sender_hex;
  do changed <- match found with
    | None => eret false
    | Some member =>
        for_any records (fun sr =>
          if negb (bool_decide (sr.(sr_record).(mr_sender) = sender)) || bool_decide (sr.(sr_record).(mr_type) = RT_Conversation) then eret false else
          if negb (verify_record sr member.(p_pub_dsa)) then eret false else
          handle_group_record member sr true)
    end;
  do _ <- when_ (negb (only_group_grants records)) (note_token_use token_hash sender_hex);
  do _ <- when_ changed bump;
  eret true.

(** src/client/messaging_engine.cpp 759-775 process_envelope *)
Definition from_stranger (bundle : option IdentityBundle) (sender : bytes) (records : list SignedRecord)
    (introduced_ : list bytes) (token_hash : bytes) : E bool :=
  let sender_hex := bytes_to_hex sender in
  match speaks_for bundle sender_hex with
  | None => eret true
  | Some b =>
      let good := filter (fun sr => sr.(sr_record).(mr_sender) = sender /\ verify_record sr b.(ib_signing_key) = true) records in
      if no_items good then eret true else
      let has_invitation := existsb (fun sr => bool_decide (sr.(sr_record).(mr_type) = RT_Conversation)) good in
      let kept := map sr_raw good ++ (if has_invitation then introduced_ else []) in
      do count <- look (fun e => request_count e.(e_history));
      if MAX_PENDING_REQUESTS <=? count then eret true else
      do now <- unix_now;
      do n <- nonce w;
      do _ <- hist_try (fun db => add_request n db sender_hex b.(ib_raw) kept now);
      do _ <- note_token_use token_hash sender_hex;
      do _ <- notify (str "New message request from "
                      ++ (if is_empty b.(ib_display_name) then short_fp sender_hex ++ str "..." else b.(ib_display_name)) ++ str ".");
      do _ <- bump;
      eret true
  end.

(** Who the records come from decides what is done with them.
    src/client/messaging_engine.cpp 699-775 process_envelope *)
Definition process_inner (inner : Inner) (token_hash : bytes) : E bool :=
  let bundle := if is_empty inner.(Inner_sender_bundle) then None else parsed inner.(Inner_sender_bundle) in
  let records := omap parse_record inner.(Inner_records) in
  match records with
  | [] => eret true
  | first :: _ =>
      let sender := first.(sr_record).(mr_sender) in
      let sender_hex := bytes_to_hex sender in
      if bool_decide (sender = me.(my_fp)) then eret true else
      do contact <- look (fun e => find_contact e sender_hex);
      match contact with
      | Some contact => from_contact contact bundle sender records inner.(Inner_introduced) token_hash
      | None =>
          do member <- look (fun e => let? m := resolve_peer e sender_hex [] in if for_a_group e records then Some m else None);
          match member with
          | Some member => from_member member bundle sender records token_hash
          | None => from_stranger bundle sender records inner.(Inner_introduced) token_hash
          end
      end
  end.

(** src/client/messaging_engine.cpp 673-775 process_envelope *)
Definition process_envelope (envelope : StoredEnvelope) : E bool :=
  do _ <- change (fun e => set_envelope e.(e_grants) [] e);
  let blob := envelope.(StoredEnvelope_envelope) in
  do opened <- look (fun e => open_envelope blob me.(kem_private) (Some (vault_find e.(e_prekeys))));
  match opened.1 with
  | None =>
      do lost <- look (fun e => match envelope_prekey_id blob with
                                | Some id => match vault_find e.(e_prekeys) id with None => true | Some _ => false end
                                | None => false end);
      do first_time <- (if lost then tell_once (str "lost-prekey") else eret false);
      do _ <- when_ first_time (notify (str "A message could not be read: it was sealed to a one-time key this device no longer has (as after a restore)."));
      eret true
  | Some inner =>
      do _ <- change (fun e => set_envelope inner.(Inner_grants) (default [] opened.2) e);
      finally (process_inner inner envelope.(StoredEnvelope_token_hash)) (fun e => set_envelope [] e.(e_last_prekey) e)
  end.

(** ** Records read back from an archive *)

(** src/client/messaging_engine.h 309-312 ArchivedRecord *)
Record ArchivedRecord := mkArchivedRecord { ar_number : Z; ar_record : bytes }.

(** src/client/messaging_engine.cpp 1784-1804 handle_archived_records *)
Definition handle_archived_record (conversation_id : bytes) (kind : Z) (ar : ArchivedRecord) : E bool :=
  if is_empty ar.(ar_record) then eret false else
  match parse_record ar.(ar_record) with
  | None => eret false
  | Some sr =>
      let r := sr.(sr_record) in
      if negb (bool_decide (r.(mr_conversation_id) = conversation_id)) || bool_decide (r.(mr_sender) = me.(my_fp)) then eret false else
      let sender_hex := bytes_to_hex r.(mr_sender) in
      do peer <- look (fun e => resolve_peer e sender_hex conversation_id);
      match peer with
      | None => eret false
      | Some peer =>
          if negb (verify_record sr peer.(p_pub_dsa)) then eret false else
          match r.(mr_type) with
          | RT_Checkpoint => process_checkpoint me conversation_id sr sender_hex
          | RT_DeleteRequest => receive_deletion_request me w peer sr
          | RT_DeleteAccept => receive_deletion_accept me w peer sr
          | RT_Text | RT_Attachment =>
              if kind =? Direct then
                do contact <- look (fun e => find_contact e sender_hex);
                match contact with Some contact => handle_record contact sr true | None => eret false end
              else handle_group_record peer sr true
          | _ => eret false
          end
      end
  end.

(** src/client/messaging_engine.cpp 1780-1806 handle_archived_records *)
Definition handle_archived_records (conversation_id : bytes) (records : list ArchivedRecord) : E bool :=
  do conv <- look (fun e => hs_conversation e.(e_history) conversation_id);
  match conv with
  | None => eret false
  | Some conv => for_any records (handle_archived_record conversation_id conv.(Conv_kind))
  end.
End engine.
