(* ===== verification/EngineArchives.v ===== *)
(** * The messaging engine: chat archives

    Making and joining archives, catching up on one with its hash chain checked,
    adding an entry, checkpoints, and the rounds the pump makes over all of them.
    [archive_catch_up] reads pages until it is level with the relay; [fuel] bounds
    the pages ([catch_up_ends] in [EngineSync] says how many are enough). *)

From Stdlib Require Import ZArith Lia.
From stdpp Require Import base list strings gmap numbers.
From S2P Require Import Prelude Wire Text Protocol RelayProtocol Crypto Archive Prekey Envelope MessageRecord RecordPayloads IdentityBundle KeyStore Sharing Sql PrekeyVault HistoryTables HistoryStore HistoryRecords HistoryQueues RelayClient Engine EngineAccount EngineDeletions EngineReceive.
#[local] Open Scope Z_scope.
#[local] Open Scope wire_scope.
#[local] Open Scope engine_scope.

Section engine.
Context `{P : Primitives} (me : Self) (w : World).

Abbreviation unix_now := (unix_now w).
Abbreviation random_bytes := (random_bytes w).
Abbreviation relay_call := (relay_call w).
Abbreviation enqueue := (enqueue w).
Abbreviation sign_own := (sign_own me w).
Abbreviation archive_context := (archive_context me).

(** src/client/messaging_engine.cpp 1451-1455 direct_conversation_id *)
Definition direct_conversation_id (contact_fp : bytes) : option bytes :=
  let? their := hex_to_bytes contact_fp in
  if negb (size their =? 32) then None else
  Some (bytes_to_hex (conversation_id_for me.(my_fp) their)).

(** src/client/messaging_engine.h 294-304 ArchiveStatus *)
Record ArchiveStatus := mkArchiveStatus {
  as_exists : bool;
  as_joined : bool;
  as_failed : bool;
  as_note : bytes;
  as_is_creator : bool;
  as_entries : Z;
  as_checkpoint_seen : Z;
  as_warning : bytes;
  as_relay : bytes;
}.

(** src/client/messaging_engine.cpp 1479-1494 archive_status *)
Definition archive_status (e : Engine) (conversation_id : bytes) : ArchiveStatus :=
  match (let? id := hex_to_bytes conversation_id in hs_archive e.(e_history) id) with
  | None => mkArchiveStatus false false false [] false 0 0 [] []
  | Some a => mkArchiveStatus true (a.(HA_state) =? ArchiveJoined) (a.(HA_state) =? ArchiveFailed) a.(HA_note)
                (a.(HA_role) =? ArchiveCreator) a.(HA_head_number) a.(HA_checkpoint_seen) a.(HA_warning) a.(HA_relay_address)
  end.

(** Each other member's grant, sealed in their own envelope.
    src/client/messaging_engine.cpp 1496-1561 create_archive *)
Fixpoint queue_archive_grants (id hash address relay_id archive_key : bytes) (now : Z) (people : list (bytes * bytes)) : E (bytes + unit) :=
  match people with
  | [] => ok tt
  | (fp, token) :: people =>
      do message_id <- random_bytes ID_BYTES;
      need _ <- or_error (do payload <- of_exc (archive_grant_payload (mkArchiveGrantInfo address relay_id archive_key token));
                          do raw <- sign_own id message_id hash (u64 now) RT_ArchiveGrant payload [] [];
                          enqueue fp OUTBOX_KIND_MESSAGE message_id [raw] now now);
      queue_archive_grants id hash address relay_id archive_key now people
  end.

(** A group's creation record is the archive's first entry.
    src/client/messaging_engine.cpp 1496-1561 create_archive *)
Definition queue_creation_record (id : bytes) : E unit :=
  do conv <- look (fun e => hs_conversation e.(e_history) id);
  do first <- look (fun e => first_message e.(e_history) id);
  match conv, first with
  | Some conv, Some first =>
      match parse_record first.(Msg_record) with
      | Some sr =>
          when_ ((conv.(Conv_kind) =? Group) && bool_decide (sr.(sr_record).(mr_type) = RT_Conversation))
            (queue_archive_entry w id first.(Msg_record) first.(Msg_message_id))
      | None => eret tt
      end
  | _, _ => eret tt
  end.

(** Random tokens, one per person. *)
Fixpoint fresh_tokens (people : list bytes) : E (list (bytes * bytes)) :=
  match people with
  | [] => eret []
  | fp :: people => do token <- random_bytes JOIN_TOKEN_BYTES; do rest <- fresh_tokens people; eret ((fp, token) :: rest)
  end.

(** src/client/messaging_engine.cpp 1496-1561 create_archive *)
Definition engine_create_archive (conversation_id : bytes) : E (bytes + unit) :=
  do found <- look (fun e => let? id := hex_to_bytes conversation_id in let? ctx := archive_context e id in Some (id, ctx));
  match found with
  | None => fail (str "That conversation isn't in your list")
  | Some (id, ctx) =>
      if negb (bool_decide (ctx.(ctx_maker_fp) = me.(my_fp_hex)))
      then fail (str "Someone else makes this chat's archive; you will be given access") else
      do have <- look (fun e => hs_archive e.(e_history) id);
      do config <- look (fun e => load_mailbox_config e.(e_keys));
      match have, config with
      | Some _, _ => fail (str "This chat already has an archive")
      | None, None => fail (str "Set up messaging first")
      | None, Some config =>
          do archive_key <- random_bytes KEY_BYTES;
          do my_token <- random_bytes JOIN_TOKEN_BYTES;
          do people <- fresh_tokens ctx.(ctx_others);
          do seed <- random_bytes 32;
          let chat_key := generate_sig_keypair seed in
          need _ <- connect_authenticated w;
          need _ <- relay_call (CreateArchive id (sha256 my_token :: map (fun p => sha256 p.2) people));
          need _ <- relay_call (JoinArchive id my_token chat_key.1);
          do now <- unix_now;
          let address := format_server_address (mkServerAddress config.(mc_host) config.(mc_port)) in
          do n1 <- nonce w;
          do n2 <- nonce w;
          do n3 <- nonce w;
          do added <- hist (fun db => hs_add_archive n1 n2 n3 db
            (mkHArchive id address config.(mc_relay_id) ArchiveCreator ArchiveJoined archive_key chat_key.1 chat_key.2 [] 0 [] now [] 0 0 0 []));
          if negb added then fail (str "This chat already has an archive") else
          need _ <- queue_archive_grants id ctx.(ctx_recipients_hash) address config.(mc_relay_id) archive_key now people;
          do _ <- queue_creation_record id;
          do _ <- bump;
          ok tt
      end
  end.

(** ** Joining *)

(** When a retry is due: nothing noted, or the time has come. *)
Definition retry_due (now : Z) (times : gmap bytes Z) (key : bytes) : bool :=
  match times !! key with Some t => t <=? now | None => true end.

Definition set_join_retry (key : bytes) (at_ : option Z) : E unit :=
  change (fun e => let t := e.(e_back).(b_timers) in
    set_timers (mkTimers t.(t_check) (partial_alter (fun _ => at_) key t.(t_join)) t.(t_create) t.(t_sync)) e).
Definition set_create_retry (key : bytes) (at_ : option Z) : E unit :=
  change (fun e => let t := e.(e_back).(b_timers) in
    set_timers (mkTimers t.(t_check) t.(t_join) (partial_alter (fun _ => at_) key t.(t_create)) t.(t_sync)) e).
Definition set_next_sync (key : bytes) (at_ : Z) : E unit :=
  change (fun e => let t := e.(e_back).(b_timers) in
    set_timers (mkTimers t.(t_check) t.(t_join) t.(t_create) (<[key := at_]> t.(t_sync))) e).

(** [now + std::chrono::seconds(std::max(1, options_.retry_base_seconds) * k)]. *)
Definition retry_after (now k : Z) : Z := now + Z.max 1 me.(options).(retry_base_seconds) * k * 1000000000.

(** src/client/messaging_engine.cpp 1587-1618 join_pending_archives *)
Definition join_archive_of (now : Z) (a : HArchive) : E unit :=
  let id := a.(HA_conversation_id) in
  let key := bytes_to_hex id in
  do due <- look (fun e => retry_due now e.(e_back).(b_timers).(t_join) key);
  if negb due then eret tt else
  match parse_server_address a.(HA_relay_address) with
  | None => hist_do (fun db => set_archive_failed db id (str "The archive's relay address is not valid"))
  | Some address =>
      do r <- (need _ <- relay_call (Connect address.(sa_host) address.(sa_port) a.(HA_relay_id));
               relay_call (JoinArchive id a.(HA_join_token) a.(HA_chat_public_key)));
      match r with
      | inr _ =>
          do _ <- hist_do (fun db => set_archive_joined db id);
          do _ <- set_join_retry key None;
          bump
      | inl err =>
          if mentions err "closed" || mentions err "Unknown archive or join token" || mentions err "does not match" then
            do _ <- hist_do (fun db => set_archive_failed db id err);
            do _ <- notify (str "Could not join a chat's archive: " ++ err);
            bump
          else set_join_retry key (Some (retry_after now 3))
      end
  end.

(** src/client/messaging_engine.cpp 1587-1618 join_pending_archives *)
Definition join_pending_archives : E unit :=
  do now <- steady_now w;
  do granted <- look (fun e => archives_in_state e.(e_history) ArchiveGranted);
  for_each granted (join_archive_of now).

(** ** Catching up *)

(** What is kept of one entry: the record it holds, if it opens; whether it counts as
    activity.
    src/client/messaging_engine.cpp 1633-1678 archive_catch_up *)
Definition take_entry (a : HArchive) (entry : ArchiveEntry) : E (ArchivedRecord * bool) :=
  let conv := a.(HA_conversation_id) in
  let number := entry.(ArchiveEntry_number) in
  if entry.(ArchiveEntry_tombstone) then
    do _ <- hist_do (fun db => mark_archive_redacted db conv number);
    eret (mkArchivedRecord number [], false)
  else
    let record := default [] (open_entry a.(HA_archive_key) conv number entry.(ArchiveEntry_ciphertext)) in
    let parsed := if is_empty record then None else parse_record record in
    do _ <- match parsed with
            | Some sr =>
                when_ (bool_decide (sr.(sr_record).(mr_type) = RT_Text) || bool_decide (sr.(sr_record).(mr_type) = RT_Conversation))
                  (hist_do (fun db => save_archive_message db conv sr.(sr_record).(mr_message_id) number))
            | None => eret tt
            end;
    eret (mkArchivedRecord number record,
          match parsed with Some sr => negb (bool_decide (sr.(sr_record).(mr_type) = RT_Checkpoint)) | None => true end).

(** src/client/messaging_engine.cpp 1633-1678 archive_catch_up *)
Fixpoint take_entries (a : HArchive) (entries : list ArchiveEntry) : E (list ArchivedRecord * Z) :=
  match entries with
  | [] => eret ([], 0)
  | entry :: entries =>
      do (r, active) <- take_entry a entry;
      do (rest, activity) <- take_entries a entries;
      eret (r :: rest, if active : bool then activity + 1 else activity)
  end.

(** A page that continues the chain up to [next]: what it holds is noted, and the
    head moves on.
    src/client/messaging_engine.cpp 1633-1678 archive_catch_up *)
Definition take_page (a : HArchive) (entries : list ArchiveEntry) (next : Head) : E (list ArchivedRecord) :=
  let conv := a.(HA_conversation_id) in
  do (records, activity) <- take_entries a entries;
  do _ <- hist_do (fun db => save_archive_hashes db conv (map (fun x => (x.(ArchiveEntry_number), x.(ArchiveEntry_hash))) entries));
  do _ <- when_ (negb (activity =? 0)) (hist_do (fun db => add_archive_activity db conv activity));
  do _ <- hist_do (fun db => set_archive_head db conv next.(Head_number) next.(Head_hash));
  eret records.

Definition altered : bytes := str "The relay's copy of this chat doesn't match what it held before: it may have been altered".
Definition other_end : bytes := str "The relay reports a different end to this chat than the entries it sent add up to".

(** [head] and [fresh] are handed back whether it succeeds or not.
    src/client/messaging_engine.cpp 1633-1678 archive_catch_up *)
Fixpoint archive_catch_up (fuel : nat) (a : HArchive) (head : Head) (fresh : list ArchivedRecord)
    : E ((bytes + unit) * Head * list ArchivedRecord) :=
  match fuel with
  | O => unfinished
  | S fuel =>
      do r <- relay_call (FetchEntries (u64 (head.(Head_number) + 1)) 100);
      match r with
      | inl err => eret (inl err, head, fresh)
      | inr (entries, relay_head) =>
          match verify_chain a.(HA_conversation_id) head entries with
          | None => do _ <- warn_archive a.(HA_conversation_id) altered; eret (inl altered, head, fresh)
          | Some next =>
              do page <- take_page a entries next;
              let fresh := fresh ++ page in
              if (size entries =? 0) || (relay_head.(ArchiveHead_number) <=? next.(Head_number)) then
                if negb (relay_head.(ArchiveHead_number) =? next.(Head_number))
                   || negb (bool_decide (relay_head.(ArchiveHead_hash) = next.(Head_hash)))
                then do _ <- warn_archive a.(HA_conversation_id) other_end; eret (inl other_end, next, fresh)
                else eret (inr tt, next, fresh)
              else archive_catch_up fuel a next fresh
          end
      end
  end.

(** Where this device is: what it holds of the chain. *)
Definition archive_head (a : HArchive) : Head :=
  mkHead a.(HA_head_number) (if is_empty a.(HA_head_hash) then genesis_hash a.(HA_conversation_id) else a.(HA_head_hash)).

(** src/client/messaging_engine.cpp 1680-1689 archive_sync *)
Definition archive_sync (fuel : nat) (conversation_id : bytes) : E (bytes + list ArchivedRecord) :=
  do found <- look (fun e => let? id := hex_to_bytes conversation_id in hs_archive e.(e_history) id);
  match found with
  | None => fail (str "This chat has no archive")
  | Some a =>
      need _ <- open_archive_session w a;
      do (r, _, fresh) <- archive_catch_up fuel a (archive_head a) [];
      match r with inl err => fail err | inr _ => ok fresh end
  end.

(** An entry the relay says it stored: it must be the one made, on the head named.
    src/client/messaging_engine.cpp 1691-1731 archive_append *)
Definition appended (a : HArchive) (head : Head) (blob record : bytes) (new_head : ArchiveHead) : E (bytes + Z) :=
  let conv := a.(HA_conversation_id) in
  let number := new_head.(ArchiveHead_number) in
  if negb (number =? u64 (head.(Head_number) + 1))
     || negb (bool_decide (new_head.(ArchiveHead_hash) = entry_hash conv (u64 (head.(Head_number) + 1)) head.(Head_hash) blob))
  then fail (str "The relay's answer doesn't match the entry it stored") else
  do _ <- hist_do (fun db => save_archive_hashes db conv [(number, new_head.(ArchiveHead_hash))]);
  do _ <- match parse_record record with
          | Some own =>
              when_ (bool_decide (own.(sr_record).(mr_type) = RT_Text) || bool_decide (own.(sr_record).(mr_type) = RT_Conversation))
                (hist_do (fun db => save_archive_message db conv own.(sr_record).(mr_message_id) number))
          | None => eret tt
          end;
  do _ <- hist_do (fun db => set_archive_head db conv number new_head.(ArchiveHead_hash));
  do _ <- when_ (match parse_record record with
                 | Some own => negb (bool_decide (own.(sr_record).(mr_type) = RT_Checkpoint))
                 | None => true
                 end) (hist_do (fun db => add_archive_activity db conv 1));
  ok number.

(** Catch up and try, up to so many times: someone else may get in first.
    src/client/messaging_engine.cpp 1691-1731 archive_append *)
Fixpoint append_attempts (attempts fuel : nat) (a : HArchive) (head : Head) (others : list ArchivedRecord) (record : bytes)
    : E (bytes + (Z * list ArchivedRecord)) :=
  match attempts with
  | O => fail (str "This chat's archive is too busy right now; try again")
  | S attempts =>
      do (r, head, others) <- archive_catch_up fuel a head others;
      match r with
      | inl err => fail err
      | inr _ =>
          do n <- random_bytes ENTRY_NONCE_BYTES;
          match seal_entry n a.(HA_archive_key) a.(HA_conversation_id) (u64 (head.(Head_number) + 1)) record with
          | Throw what => fail (str what)
          | Ret blob =>
              do r <- relay_call (AppendEntry head.(Head_number) head.(Head_hash) blob);
              match r with
              | inl err => fail err
              | inr (Stale _) => append_attempts attempts fuel a head others record
              | inr (Appended new_head) => need number <- appended a head blob record new_head; ok (number, others)
              end
          end
      end
  end.

(** src/client/messaging_engine.cpp 1691-1731 archive_append *)
Definition archive_append (fuel : nat) (conversation_id record : bytes) : E (bytes + (Z * list ArchivedRecord)) :=
  do found <- look (fun e => let? id := hex_to_bytes conversation_id in hs_archive e.(e_history) id);
  match found with
  | None => fail (str "This chat has no archive")
  | Some a =>
      need _ <- open_archive_session w a;
      append_attempts 10 fuel a (archive_head a) [] record
  end.

(** src/client/messaging_engine.cpp 1751-1776 flush_archive_item *)
Definition flush_archive_item (fuel : nat) (item : OutboxItem) (now : Z) : E unit :=
  let finish := hist_do (fun db => outbox_done db item.(Item_id)) in
  match hex_to_bytes item.(Item_contact_fp), item.(Item_records) with
  | Some id, [record] =>
      do a <- look (fun e => hs_archive e.(e_history) id);
      match a with
      | None => finish
      | Some a =>
          if a.(HA_state) =? ArchiveFailed then finish else
          if negb (a.(HA_state) =? ArchiveJoined)
          then hist_do (fun db => outbox_failed db item.(Item_id) (now + Z.max 1 me.(options).(retry_base_seconds))) else
          do r <- archive_append fuel item.(Item_contact_fp) record;
          match r with
          | inl _ => hist_do (fun db => outbox_failed db item.(Item_id) (now + retry_delay me.(options) item.(Item_attempts)))
          | inr (_, others) =>
              do changed <- handle_archived_records me w id others;
              do _ <- when_ changed bump;
              finish
          end
      end
  | _, _ => finish
  end.

(** ** Checkpoints and rounds *)

(** src/client/messaging_engine.cpp 1827-1850 maybe_post_checkpoint *)
Definition maybe_post_checkpoint (conversation_id : bytes) : E unit :=
  do a <- look (fun e => hs_archive e.(e_history) conversation_id);
  match a with
  | None => eret tt
  | Some a =>
      if negb (a.(HA_state) =? ArchiveJoined) || (a.(HA_head_number) =? 0) || (a.(HA_activity) =? 0) then eret tt else
      do now <- unix_now;
      let enough := Z.max 1 me.(options).(archive_checkpoint_every) <=? a.(HA_activity) in
      let stale := me.(options).(archive_checkpoint_max_age_seconds) <=? now - Z.max a.(HA_checkpoint_at) a.(HA_created_at) in
      if negb enough && negb stale then eret tt else
      do ctx <- look (fun e => archive_context e conversation_id);
      match ctx with
      | None => eret tt
      | Some ctx =>
          do message_id <- random_bytes ID_BYTES;
          do posted <- or_error (do payload <- of_exc (checkpoint_payload a.(HA_head_number) a.(HA_head_hash));
                                 do raw <- sign_own conversation_id message_id ctx.(ctx_recipients_hash) (u64 now) RT_Checkpoint payload [] [];
                                 enqueue (bytes_to_hex conversation_id) OUTBOX_KIND_ARCHIVE message_id [raw] now now);
          match posted with
          | inl _ => eret tt
          | inr _ => hist_do (fun db => note_checkpoint_posted db conversation_id now)
          end
      end
  end.

(** Whether making a chat's archive is our job, and there is none yet.
    src/client/messaging_engine.cpp 1853-1881 ensure_archives *)
Definition wants_archive (e : Engine) (conv : Conversation) : bool :=
  let db := e.(e_history) in
  negb (has_archive db conv.(Conv_id))
  && negb (existsb (fun d => bool_decide (d.(Del_conversation_id) = conv.(Conv_id)) && (d.(Del_scope) =? 1)
                             && (d.(Del_state) =? DeletionDone)) (hs_deletions db))
  && (if conv.(Conv_kind) =? Direct
      then bytes_ltb me.(my_fp_hex) conv.(Conv_contact_fp) && match first_message db conv.(Conv_id) with Some _ => true | None => false end
      else bool_decide (conv.(Conv_creator_fp) = me.(my_fp_hex))).

(** src/client/messaging_engine.cpp 1853-1881 ensure_archives *)
Definition ensure_archive (now : Z) (conv : Conversation) : E unit :=
  do wanted <- look (fun e => wants_archive e conv);
  if negb wanted then eret tt else
  let hex := bytes_to_hex conv.(Conv_id) in
  do due <- look (fun e => retry_due now e.(e_back).(b_timers).(t_create) hex);
  if negb due then eret tt else
  do r <- engine_create_archive hex;
  match r with
  | inr _ => set_create_retry hex None
  | inl _ => set_create_retry hex (Some (retry_after now 6))
  end.

(** src/client/messaging_engine.cpp 1853-1881 ensure_archives *)
Definition ensure_archives : E unit :=
  do now <- steady_now w;
  do next <- look (fun e => e.(e_back).(b_timers).(t_check) ArchiveCheck);
  if now <? next then eret tt else
  do _ <- change (fun e => let t := e.(e_back).(b_timers) in
    set_timers (mkTimers (fun c => if bool_decide (c = ArchiveCheck) then later now me.(options).(archive_check_seconds) else t.(t_check) c)
                  t.(t_join) t.(t_create) t.(t_sync)) e);
  do convs <- look (fun e => hs_conversations e.(e_history));
  for_each convs (ensure_archive now).

(** src/client/messaging_engine.cpp 1884-1898 sync_archives *)
Definition sync_one_archive (fuel : nat) (now : Z) (id : bytes) : E unit :=
  let hex := bytes_to_hex id in
  do asked <- look (fun e => bool_decide (hex ∈ e.(e_sync_now)));
  do _ <- change (fun e => set_sync (e.(e_sync_now) ∖ {[hex]}) e.(e_attempts) e);
  do due <- look (fun e => retry_due now e.(e_back).(b_timers).(t_sync) hex);
  if negb asked && negb due then eret tt else
  do _ <- set_next_sync hex (later now me.(options).(archive_sync_seconds));
  do r <- archive_sync fuel hex;
  match r with
  | inl _ => eret tt
  | inr fresh =>
      do changed <- handle_archived_records me w id fresh;
      do _ <- when_ changed bump;
      maybe_post_checkpoint id
  end.

(** src/client/messaging_engine.cpp 1884-1898 sync_archives *)
Definition sync_archives (fuel : nat) : E unit :=
  do now <- steady_now w;
  do ids <- look (fun e => archive_ids e.(e_history) ArchiveJoined);
  for_each ids (sync_one_archive fuel now).

(** ** Deletions that others carried out *)

(** Whether the entries named are gone from the relay: each is known here, and
    already marked or a tombstone there.
    src/client/messaging_engine.cpp 2375-2413 check_deletions *)
Fixpoint all_redacted (conv : bytes) (entries : list bytes) : E bool :=
  match entries with
  | [] => eret true
  | hash :: entries =>
      do number <- look (fun e => archive_number_of e.(e_history) conv hash);
      do here <- match number with
                 | None => eret false
                 | Some number =>
                     do known <- look (fun e => hs_archive_redacted e.(e_history) conv number);
                     if known : bool then eret true else
                     do r <- relay_call (FetchEntries number 1);
                     match r with
                     | inr (got :: _, _) =>
                         if (got.(ArchiveEntry_number) =? number) && got.(ArchiveEntry_tombstone) && bool_decide (got.(ArchiveEntry_hash) = hash)
                         then do _ <- hist_do (fun db => mark_archive_redacted db conv number); eret true
                         else eret false
                     | _ => eret false
                     end
                 end;
      do rest <- all_redacted conv entries;
      eret (here && rest)
  end.

(** src/client/messaging_engine.cpp 2375-2413 check_deletions *)
Definition check_deletion (wall : Z) (d : Deletion) : E unit :=
  if negb (d.(Del_state) =? DeletionPending) && negb (d.(Del_state) =? DeletionAccepted) then eret tt else
  if d.(Del_expires_at) <=? wall then hist_do (fun db => set_deletion_state db d.(Del_op_id) DeletionExpired) else
  if negb (d.(Del_state) =? DeletionAccepted) then eret tt else
  do a <- look (fun e => hs_archive e.(e_history) d.(Del_conversation_id));
  match a with
  | None => eret tt
  | Some a =>
      do opened <- open_archive_session w a;
      match opened with
      | inl err => when_ ((d.(Del_scope) =? 1) && mentions err "Authentication failed") (apply_deletion_locally d)
      | inr _ =>
          do _ <- (if d.(Del_scope) =? 2 then
                     do all <- all_redacted d.(Del_conversation_id) d.(Del_entries);
                     when_ all (apply_deletion_locally d)
                   else eret tt);
          try_submit_deletion w d.(Del_op_id)
      end
  end.

(** src/client/messaging_engine.cpp 2375-2413 check_deletions *)
Definition check_deletions : E unit :=
  do due <- due w DeletionCheck me.(options).(archive_sync_seconds);
  if negb due then eret tt else
  do wall <- unix_now;
  do all <- look (fun e => hs_deletions e.(e_history));
  for_each all (check_deletion wall).
End engine.
