(* ===== verification/EngineOutbox.v ===== *)
(** * The messaging engine: sending what is queued

    [flush_outbox] takes the items that are due: entries for archives, files to
    upload, envelopes passed on for others, tokens for a group's members, and
    records sealed in an envelope for one person. Whatever goes wrong with an item,
    it is tried again later. *)

From Stdlib Require Import ZArith Lia.
From stdpp Require Import base list strings gmap numbers.
From S2P Require Import Prelude Wire Text Protocol RelayProtocol Crypto Prekey Envelope MessageRecord RecordPayloads IdentityBundle KeyStore Sharing Sql PrekeyVault HistoryTables HistoryStore HistoryRecords HistoryQueues RelayClient Engine EngineAccount EngineDeletions EngineReceive EngineArchives.
#[local] Open Scope Z_scope.
#[local] Open Scope wire_scope.
#[local] Open Scope engine_scope.

Section engine.
Context `{P : Primitives} (me : Self) (w : World).

Abbreviation unix_now := (unix_now w).
Abbreviation random_bytes := (random_bytes w).
Abbreviation relay_call := (relay_call w).
Abbreviation enqueue := (enqueue w).
Abbreviation sign_own := (sign_own me w).

(** ** Tokens for a group's members *)

(** The chat and the fingerprints in a job; nothing if it is malformed.
    src/client/messaging_engine.cpp 1392-1447 build_grant_forwards *)
Definition grant_job (data : bytes) : option (bytes * list bytes) :=
  if size data <? ID_BYTES + 4 then None else
  let '(count, off) := read_u32 data ID_BYTES in
  let? count := count in
  if (MAX_GROUP_MEMBERS <? count) || negb (size data =? off + count * 32) then None else
  Some (ztake ID_BYTES data, chunks (Z.to_nat count) 32 (zdrop off data)).

(** The token's name in the list of issued tokens. *)
Definition group_token_label (title name : bytes) : bytes :=
  str "group " ++ (if is_empty title then str "(no name)" else quoted title) ++ str ", for " ++ name.

(** A grant sealed for one member, in a record for the creator to pass on.
    src/client/messaging_engine.cpp 1392-1447 build_grant_forwards *)
Definition sealed_grant (conv_id recipients target_raw token pub_kem : bytes) (now : Z) : E bytes :=
  do grant_id <- random_bytes ID_BYTES;
  do grant <- sign_own conv_id grant_id recipients (u64 now) RT_TokenGrant token [] [];
  do rnd <- seal_random w;
  do sealed <- of_exc (seal_envelope rnd (mkInner [] [grant] [] []) pub_kem None);
  do forward_id <- random_bytes ID_BYTES;
  do payload <- of_exc (forward_payload target_raw sealed);
  sign_own conv_id forward_id recipients (u64 now) RT_Forward payload [] [].

(** The targets one by one; [None] if the relay cannot be reached.
    src/client/messaging_engine.cpp 1392-1447 build_grant_forwards *)
Fixpoint grant_each (conv_id title recipients : bytes) (now : Z) (targets forwards : list bytes) : E (option (list bytes)) :=
  match targets with
  | [] => eret (Some forwards)
  | target_raw :: targets =>
      let target_fp := bytes_to_hex target_raw in
      do target <- look (fun e => resolve_peer e target_fp []);
      match target with
      | None => grant_each conv_id title recipients now targets forwards
      | Some target =>
          if negb target.(keys_verified) || negb (size target.(p_pub_kem) =? kem_public_key_size)
          then grant_each conv_id title recipients now targets forwards else
          do token <- random_bytes SEND_TOKEN_BYTES;
          do r <- relay_call (AddToken (sha256 token));
          match r with
          | inl _ => eret None
          | inr _ =>
              do _ <- hist_do (fun db => add_issued_token db (sha256 token) (group_token_label title target.(p_name)) target_fp now);
              do made <- or_error (sealed_grant conv_id recipients target_raw token target.(p_pub_kem) now);
              grant_each conv_id title recipients now targets (match made with inr f => forwards ++ [f] | inl _ => forwards end)
          end
      end
  end.

(** [None]: try again later.
    src/client/messaging_engine.cpp 1392-1447 build_grant_forwards *)
Definition build_grant_forwards (records : list bytes) : E (option (list bytes)) :=
  match (let? data := head records in grant_job data) with
  | None => eret (Some [])
  | Some (conv_id, targets) =>
      do conv <- look (fun e => hs_conversation e.(e_history) conv_id);
      match conv with
      | None => eret (Some [])
      | Some conv =>
          if negb (conv.(Conv_kind) =? Group) then eret (Some []) else
          let recipients := recipients_hash_for (me.(my_fp) :: omap hex_to_bytes conv.(Conv_members)) in
          do now <- unix_now;
          grant_each conv_id conv.(Conv_title) recipients now targets []
      end
  end.

(** ** One item *)

(** What the item is about: a token given for one group only works for its items.
    src/client/messaging_engine.cpp 2992-3160 flush_outbox *)
Definition item_conversation (records : list bytes) : bytes :=
  match head (omap parse_record records) with
  | Some sr => sr.(sr_record).(mr_conversation_id)
  | None => []
  end.

Definition try_later (item : OutboxItem) (due_at : Z) : E unit := hist_do (fun db => outbox_failed db item.(Item_id) due_at).
Definition retry_item (item : OutboxItem) (now : Z) : E unit := try_later item (now + retry_delay me.(options) item.(Item_attempts)).
Definition finish_item (item : OutboxItem) : E unit := hist_do (fun db => outbox_done db item.(Item_id)).

(** An envelope someone sealed for another member, passed on as it is.
    src/client/messaging_engine.cpp 3016-3029 flush_outbox *)
Definition relay_item (item : OutboxItem) (peer : Peer) (now : Z) : E unit :=
  match item.(Item_records) with
  | [envelope] =>
      do sent <- match parse_server_address peer.(p_relay_address) with
                 | None => fail []
                 | Some address =>
                     need _ <- relay_call (Connect address.(sa_host) address.(sa_port) peer.(p_relay_id));
                     relay_call (Deposit peer.(p_mailbox_id) peer.(p_send_token) envelope me.(options).(envelope_ttl_seconds))
                 end;
      match sent with inl _ => retry_item item now | inr _ => finish_item item end
  | _ => finish_item item
  end.

(** A job to make tokens becomes records for the creator, once; the rest of them go
    in items of their own. [None]: nothing is sent now.
    src/client/messaging_engine.cpp 3031-3047 flush_outbox *)
Definition expand_grants (item : OutboxItem) (now : Z) : E (option (list bytes)) :=
  let records := item.(Item_records) in
  let is_job := (item.(Item_kind) =? OUTBOX_KIND_GRANTS)
                && match head records with Some r => match parse_record r with None => true | Some _ => false end | None => false end in
  if negb is_job then eret (Some records) else
  do forwards <- build_grant_forwards records;
  match forwards with
  | None => do _ <- try_later item (now + 15); eret None
  | Some [] => do _ <- finish_item item; eret None
  | Some forwards =>
      let first := ztake FORWARDS_PER_ENVELOPE forwards in
      do n <- nonce w;
      do _ <- hist_try (fun db => update_outbox_records n db item.(Item_id) first);
      do _ <- for_each (chunks (length forwards) FORWARDS_PER_ENVELOPE (zdrop FORWARDS_PER_ENVELOPE forwards)) (fun more =>
        do id <- random_bytes ID_BYTES;
        enqueue item.(Item_contact_fp) OUTBOX_KIND_GRANTS id more now now);
      eret (Some first)
  end.

Definition has_grant (records : list bytes) : bool :=
  existsb (fun sr => bool_decide (sr.(sr_record).(mr_type) = RT_TokenGrant)) (omap parse_record records).

(** The first message to someone carries a token for writing back. A contact's
    fingerprint is hexadecimal ([load_contact]).
    src/client/messaging_engine.cpp 3051-3077 flush_outbox *)
Definition add_first_grant (item : OutboxItem) (peer : Peer) (records : list bytes) (now : Z) : E (option (list bytes)) :=
  if has_grant records then eret (Some records) else
  do token <- random_bytes SEND_TOKEN_BYTES;
  do r <- relay_call (AddToken (sha256 token));
  match r with
  | inl _ => do _ <- try_later item (now + 15); eret None
  | inr _ =>
      do _ <- hist_do (fun db => add_issued_token db (sha256 token) (str "first message to " ++ peer.(p_name)) item.(Item_contact_fp) now);
      let their_fp := default [] (hex_to_bytes item.(Item_contact_fp)) in
      do id <- random_bytes ID_BYTES;
      do grant <- sign_own (conversation_id_for me.(my_fp) their_fp) id (recipients_hash_for [me.(my_fp); their_fp]) (u64 now)
                    RT_TokenGrant token [] [];
      let records := grant :: records in
      do n <- nonce w;
      do _ <- hist_try (fun db => update_outbox_records n db item.(Item_id) records);
      eret (Some records)
  end.

(** The queued items are signed records, an attachment's key and token, or bundles
    to introduce.
    src/client/messaging_engine.cpp 3079-3086 flush_outbox *)
Definition inner_of (kind : Z) (bundle : bytes) (records : list bytes) : Inner :=
  let other := filter (fun raw => match parse_record raw with Some _ => false | None => true end = true) records in
  mkInner bundle (filter (fun raw => match parse_record raw with Some _ => true | None => false end = true) records)
    (if kind =? OUTBOX_KIND_ATTACHMENT then [] else other)
    (if kind =? OUTBOX_KIND_ATTACHMENT then omap decode_grant other else []).

(** One of their one-time prekeys, if their relay has one that is theirs.
    src/client/messaging_engine.cpp 3096-3121 flush_outbox *)
Definition take_one_time (item : OutboxItem) (peer : Peer) (now : Z) : E (option Prekey) :=
  do r <- relay_call (TakePrekey peer.(p_mailbox_id) peer.(p_send_token));
  match r with
  | inr taken =>
      match decode_prekey taken.(PrekeyData_blob) with
      | Some p =>
          if prekey_verify p peer.(p_pub_dsa) then
            do _ <- hist_do (fun db => note_peer_prekeys db item.(Item_contact_fp) now);
            eret (Some p)
          else
            do first_time <- tell_once (str "bad-prekey:" ++ item.(Item_contact_fp));
            do _ <- when_ first_time (notify (peer.(p_name) ++ str "'s relay handed out a one-time key that isn't theirs, so messages to them are sent without forward secrecy."));
            eret None
      | None =>
          do first_time <- tell_once (str "bad-prekey:" ++ item.(Item_contact_fp));
          do _ <- when_ first_time (notify (peer.(p_name) ++ str "'s relay handed out a one-time key that isn't theirs, so messages to them are sent without forward secrecy."));
          eret None
      end
  | inl err =>
      do had <- look (fun e => peer_had_prekeys e.(e_history) item.(Item_contact_fp));
      if mentions err "has no prekeys" && had then
        do first_time <- tell_once (str "no-prekeys:" ++ item.(Item_contact_fp));
        do _ <- when_ first_time (notify (peer.(p_name) ++ str "'s relay says they have no one-time keys any more, so messages to them are sent without forward secrecy. Their relay may be misbehaving, or they may have just reinstalled."));
        eret None
      else eret None
  end.

(** Seal and deposit: an error, or it is on their relay.
    src/client/messaging_engine.cpp 3087-3127 flush_outbox *)
Definition deposit_item (item : OutboxItem) (peer : Peer) (records : list bytes) (first_message : bool) (now : Z) : E (bytes + unit) :=
  do bundle <- (if first_message then
                  do rand <- random_bytes 32;
                  do t <- unix_now;
                  do bundle <- look (own_bundle_raw rand t);
                  of_exc bundle
                else eret []);
  match parse_server_address peer.(p_relay_address) with
  | None => ethrow "Their relay address is not valid"
  | Some address =>
      need _ <- relay_call (Connect address.(sa_host) address.(sa_port) peer.(p_relay_id));
      do one_time <- take_one_time item peer now;
      do still <- ask_world (w_connected w);
      if negb still then fail [] else
      do rnd <- seal_random w;
      do envelope <- of_exc (seal_envelope rnd (inner_of item.(Item_kind) bundle records) peer.(p_pub_kem) one_time);
      (relay_call (Deposit peer.(p_mailbox_id) peer.(p_send_token) envelope me.(options).(envelope_ttl_seconds)) : E (bytes + unit))
  end.

Definition dead_token (item : OutboxItem) : bytes := str "dead-token:" ++ item.(Item_contact_fp).
Definition is_message (item : OutboxItem) : bool := (item.(Item_kind) =? OUTBOX_KIND_MESSAGE) || (item.(Item_kind) =? OUTBOX_KIND_ATTACHMENT).

(** It is on their relay.
    src/client/messaging_engine.cpp 3144-3154 flush_outbox *)
Definition item_sent (item : OutboxItem) (first_message : bool) : E unit :=
  do _ <- finish_item item;
  do _ <- when_ first_message (hist_do (fun db => set_bundle_sent db item.(Item_contact_fp)));
  do _ <- when_ (is_message item)
            (do conv <- look (fun e => conversation_of_outgoing e.(e_history) item.(Item_message_id));
             do _ <- match conv with
                     | Some conv => hist_do (fun db => (raise_delivery db conv item.(Item_message_id) item.(Item_contact_fp) StatusSent).2)
                     | None => eret tt
                     end;
             change (fun e => set_shown e.(e_display_name) e.(e_notices) (e.(e_told) ∖ {[dead_token item]}) e));
  bump.

(** An item for one person that is not merely passed on.
    src/client/messaging_engine.cpp 3031-3154 flush_outbox *)
Definition envelope_item (item : OutboxItem) (peer : Peer) (now : Z) : E unit :=
  do records <- expand_grants item now;
  match records with
  | None => eret tt
  | Some records =>
      do sent_before <- look (fun e => hs_bundle_sent e.(e_history) item.(Item_contact_fp));
      let first_message := is_message item && peer.(p_is_contact) && negb sent_before in
      do records <- (if first_message then add_first_grant item peer records now else eret (Some records));
      match records with
      | None => eret tt
      | Some records =>
          do r <- try_catch (deposit_item item peer records first_message now) (fun _ => fail []);
          match r with
          | inr _ => item_sent item first_message
          | inl err =>
              do _ <- (if mentions err "Unknown mailbox or token" then
                         do first_time <- tell_once (dead_token item);
                         when_ first_time (notify (peer.(p_name) ++ str "'s contact card no longer works, so your messages to them are waiting. Ask them for a new card."))
                       else eret tt);
              retry_item item now
          end
      end
  end.

(** src/client/messaging_engine.cpp 2992-3160 flush_outbox *)
Definition flush_item (fuel : nat) (now : Z) (item : OutboxItem) : E unit :=
  if item.(Item_kind) =? OUTBOX_KIND_ARCHIVE then flush_archive_item me w fuel item now else
  if item.(Item_kind) =? OUTBOX_KIND_UPLOAD then
    do _ <- try_later item (now + 30);
    queue_transfer (mkTransferJob Upload (default [] (hex_to_bytes item.(Item_contact_fp))) item.(Item_id) [])
  else
  do peer <- look (fun e => resolve_peer e item.(Item_contact_fp) (item_conversation item.(Item_records)));
  match peer with
  | None => retry_item item now
  | Some peer =>
      if negb peer.(p_can_send) then retry_item item now else
      if item.(Item_kind) =? OUTBOX_KIND_RELAY then relay_item item peer now else
      envelope_item item peer now
  end.

(** src/client/messaging_engine.cpp 2992-3160 flush_outbox *)
Definition flush_outbox (fuel : nat) : E unit :=
  do now <- unix_now;
  do items <- look (fun e => due_items e.(e_history) now 20);
  for_each items (fun item => try_catch (flush_item fuel now item) (fun _ => retry_item item now)).
End engine.
