(* ===== verification/EngineRestore.v ===== *)
(** * The messaging engine: the keyring and restoring from it

    What a reinstalled device needs is kept on the relay as a sealed keyring
    ([Keyring]); [restore_from_relay] opens it, takes its facts over, and reads every
    chat back from its archive, with each record checked as when it arrived. *)

From Stdlib Require Import ZArith Lia.
From stdpp Require Import base list strings gmap numbers.
From S2P Require Import Prelude Wire Text Protocol RelayProtocol Crypto Keyring Prekey Envelope MessageRecord RecordPayloads IdentityBundle KeyStore Sharing Sql PrekeyVault HistoryTables HistoryStore HistoryRecords HistoryQueues RelayClient Engine EngineAccount EngineDeletions EngineReceive EngineArchives.
#[local] Open Scope Z_scope.
#[local] Open Scope wire_scope.
#[local] Open Scope engine_scope.

Section engine.
Context `{P : Primitives} (me : Self) (w : World).

Abbreviation unix_now := (unix_now w).
Abbreviation random_bytes := (random_bytes w).
Abbreviation relay_call := (relay_call w).

(** ** Saving *)

(** src/client/messaging_engine.cpp 1902-1926 build_keyring *)
Definition build_keyring (db : History) : Contents :=
  mkContents
    (map (fun a => mkArchiveItem a.(HA_conversation_id) a.(HA_relay_address) a.(HA_relay_id) a.(HA_role) a.(HA_state) a.(HA_archive_key)
                     a.(HA_chat_public_key) a.(HA_chat_private_key) a.(HA_join_token)) (hs_archives db))
    (sort_by bytes_leb (verified_people db))
    (map (fun '(conv, fp, token) => mkMemberToken conv fp token) (all_member_tokens db))
    (map (fun m => mkIntroduced m.(im_fp) m.(im_bundle) m.(im_issued_at) m.(im_introduced_by) m.(im_first_seen)) (introduced_members db))
    (map (fun t => mkIssuedToken t.(it_hash) t.(it_label) t.(it_created_at) t.(it_bound_fp) t.(it_revoked)) (issued_tokens db))
    (sort_by (fun a b => bytes_leb a.(rc_conversation_id) b.(rc_conversation_id))
       (map (fun c => mkReceipts c.(Conv_id) c.(Conv_send_delivery_receipts) c.(Conv_send_read_receipts)) (hs_conversations db))).

(** src/client/keyring.h 61-63 empty *)
Definition contents_empty (c : Contents) : bool :=
  match c.(kc_archives), c.(kc_verified), c.(kc_member_tokens), c.(kc_introduced), c.(kc_issued_tokens), c.(kc_receipts) with
  | [], [], [], [], [], [] => true
  | _, _, _, _, _, _ => false
  end.

(** src/client/messaging_engine.cpp 1928-1936 store_keyring *)
Definition store_keyring (plaintext : bytes) : E (bytes + unit) :=
  do config <- look (fun e => load_mailbox_config e.(e_keys));
  match config with
  | None => fail (str "Set up messaging first")
  | Some config =>
      do key <- look (fun e => derive_local_key e.(e_keys) (str "archive keyring"));
      do key <- of_exc key;
      if negb (size key =? 32) then fail (str "Your keys could not be read (are they unlocked?)") else
      need _ <- connect_authenticated w;
      do n <- nonce w;
      do sealed <- of_exc (seal_keyring n key config.(mc_mailbox_id) plaintext);
      (relay_call (PutKeyring sealed) : E (bytes + unit))
  end.

(** src/client/messaging_engine.cpp 1938-1949 save_keyring *)
Definition save_keyring : E (bytes + unit) :=
  need plain <- or_error (do c <- look (fun e => build_keyring e.(e_history)); of_exc (serialize c));
  need _ <- store_keyring plain;
  do _ <- change (set_keyring_hash (sha256 plain));
  ok tt.

(** src/client/messaging_engine.cpp 1952-1968 maintain_keyring *)
Definition maintain_keyring : E unit :=
  do due <- due w KeyringCheck me.(options).(keyring_check_seconds);
  if negb due then eret tt else
  do contents <- look (fun e => build_keyring e.(e_history));
  if contents_empty contents then eret tt else
  match serialize contents with
  | Throw _ => eret tt
  | Ret plain =>
      let hash := sha256 plain in
      do uploaded <- look (fun e => e.(e_back).(b_keyring_hash));
      if bool_decide (hash = uploaded) then eret tt else
      do r <- store_keyring plain;
      match r with inr _ => change (set_keyring_hash hash) | inl _ => eret tt end
  end.

(** ** Restoring *)

(** src/client/messaging_engine.h 385-392 RestoreReport *)
Record RestoreReport := mkRestoreReport {
  rr_found : bool;
  rr_archives : Z;
  rr_chats_restored : Z;
  rr_chats_skipped : Z;
  rr_messages : Z;
  rr_notes : list bytes;
}.

(** src/client/messaging_engine.cpp 1971-1981 rebuild_direct_chat *)
Definition rebuild_direct_chat (conversation_id : bytes) : E bool :=
  do contact <- look (fun e => head (filter (fun c =>
      conversation_id_for me.(my_fp) <$> hex_to_bytes c.(co_fingerprint) = Some conversation_id)
      (omap (load_contact e.(e_keys)) (list_contacts e.(e_keys)))));
  match contact with
  | None => eret false
  | Some contact =>
      do now <- unix_now;
      do _ <- hist (fun db => ensure_conversation db conversation_id contact.(co_fingerprint) now);
      eret true
  end.

(** The record an archive of a group starts with; the reason if there is none.
    src/client/messaging_engine.cpp 1984-2013 rebuild_group_chat *)
Definition creation_record (conversation_id : bytes) (records : list ArchivedRecord) : bytes + (SignedRecord * ConversationInfo) :=
  match (let? first := head records in
         if negb (first.(ar_number) =? 1) || is_empty first.(ar_record) then None else
         let? sr := parse_record first.(ar_record) in
         if bool_decide (sr.(sr_record).(mr_type) = RT_Conversation) && bool_decide (sr.(sr_record).(mr_conversation_id) = conversation_id)
         then Some sr else None) with
  | None => inl (str "its archive does not start with the group's record")
  | Some sr =>
      match conversation_from_record sr with
      | None => inl (str "the group's record is not valid")
      | Some info => inr (sr, info)
      end
  end.

(** Whether the creator signed it.
    src/client/messaging_engine.cpp 1984-2013 rebuild_group_chat *)
Definition creator_verified (e : Engine) (conversation_id : bytes) (sr : SignedRecord) : bool :=
  if bool_decide (sr.(sr_record).(mr_sender) = me.(my_fp)) then verify_record sr (load_public_dsa e.(e_keys)) else
  match resolve_peer e (bytes_to_hex sr.(sr_record).(mr_sender)) conversation_id with
  | Some creator => verify_record sr creator.(p_pub_dsa)
  | None => false
  end.

(** src/client/messaging_engine.cpp 1984-2013 rebuild_group_chat *)
Definition rebuild_group_chat (conversation_id : bytes) (records : list ArchivedRecord) : E (bytes + unit) :=
  match creation_record conversation_id records with
  | inl why => fail why
  | inr (sr, info) =>
      do verified <- look (fun e => creator_verified e conversation_id sr);
      if negb verified then fail (str "the group's creator could not be verified (they may not be in your contacts)") else
      let others := map bytes_to_hex (filter (fun m => m <> me.(my_fp)) info.(ci_members)) in
      if negb (bool_decide (me.(my_fp) ∈ info.(ci_members))) || (size others =? 0) then fail (str "you are not one of the group's members") else
      need _ <- or_error (hist (fun db => create_group db conversation_id info.(ci_title) (bytes_to_hex sr.(sr_record).(mr_sender)) Saved 0
                                            info.(ci_previous_id) others Active (i64 sr.(sr_record).(mr_sent_at))));
      ok tt
  end.

(** Who may have written the record, and whether they did.
    src/client/messaging_engine.cpp 2016-2054 restore_records *)
Definition restorable (e : Engine) (conversation_id : bytes) (ctx : ArchiveContext) (sr : SignedRecord) : bool :=
  let sender_hex := bytes_to_hex sr.(sr_record).(mr_sender) in
  if bool_decide (sr.(sr_record).(mr_sender) = me.(my_fp)) then verify_record sr (load_public_dsa e.(e_keys))
  else bool_decide (sender_hex ∈ ctx.(ctx_others))
       && match resolve_peer e sender_hex conversation_id with
          | Some peer => verify_record sr peer.(p_pub_dsa)
          | None => false
          end.

(** The message it becomes: what we sent is sent, what we received is read.
    src/client/messaging_engine.cpp 2016-2054 restore_records *)
Definition restored_message (conversation_id : bytes) (sr : SignedRecord) (record : bytes) : Message :=
  let r := sr.(sr_record) in
  let mine := bool_decide (r.(mr_sender) = me.(my_fp)) in
  let sent_at := i64 r.(mr_sent_at) in
  mkMessage 0 conversation_id r.(mr_message_id) mine sent_at sent_at (if mine then StatusSent else 1) false sr.(sr_entry_hash) record false.

(** Whether a message was added.
    src/client/messaging_engine.cpp 2016-2054 restore_records *)
Definition restore_record (conversation_id : bytes) (ctx : ArchiveContext) (ar : ArchivedRecord) : E bool :=
  match (if is_empty ar.(ar_record) then None else parse_record ar.(ar_record)) with
  | None => eret false
  | Some sr =>
      let r := sr.(sr_record) in
      if negb (bool_decide (r.(mr_conversation_id) = conversation_id))
         || negb (bool_decide (r.(mr_recipients_hash) = ctx.(ctx_recipients_hash))) then eret false else
      do checked <- look (fun e => restorable e conversation_id ctx sr);
      if negb checked then eret false else
      if bool_decide (r.(mr_type) = RT_Checkpoint) then
        if bool_decide (r.(mr_sender) = me.(my_fp)) then eret false else
        do _ <- process_checkpoint me conversation_id sr (bytes_to_hex r.(mr_sender));
        eret false
      else
      let is_attachment := bool_decide (r.(mr_type) = RT_Attachment) in
      if negb (bool_decide (r.(mr_type) = RT_Text) || bool_decide (r.(mr_type) = RT_Conversation) || is_attachment) then eret false else
      if is_attachment && match parse_attachment_payload r.(mr_payload) with Some _ => false | None => true end then eret false else
      do added <- store_message w (restored_message conversation_id sr ar.(ar_record));
      do _ <- when_ (added && is_attachment) (note_incoming_attachment me w sr []);
      eret added
  end.

(** src/client/messaging_engine.cpp 2016-2054 restore_records *)
Fixpoint restore_each (conversation_id : bytes) (ctx : ArchiveContext) (records : list ArchivedRecord) : E Z :=
  match records with
  | [] => eret 0
  | ar :: records =>
      do added <- restore_record conversation_id ctx ar;
      do rest <- restore_each conversation_id ctx records;
      eret (if added : bool then rest + 1 else rest)
  end.

(** src/client/messaging_engine.cpp 2016-2054 restore_records *)
Definition restore_records (conversation_id : bytes) (records : list ArchivedRecord) : E Z :=
  do ctx <- look (fun e => archive_context me e conversation_id);
  match ctx with
  | None => eret 0
  | Some ctx => restore_each conversation_id ctx records
  end.

(** A chat that could not be read or rebuilt. *)
Definition skipped (report : RestoreReport) (name note : bytes) : RestoreReport :=
  mkRestoreReport report.(rr_found) report.(rr_archives) report.(rr_chats_restored) (report.(rr_chats_skipped) + 1) report.(rr_messages)
    (report.(rr_notes) ++ [str "Chat " ++ name ++ note]).

(** One chat: read its archive, rebuild the chat, read the messages back.
    src/client/messaging_engine.cpp 2104-2129 restore_from_relay *)
Definition restore_chat (fuel : nat) (report : RestoreReport) (a : ArchiveItem) : E RestoreReport :=
  let id := a.(ai_conversation_id) in
  let hex := bytes_to_hex id in
  let name := ztake 8 hex in
  if negb (a.(ai_state) =? ArchiveJoined)
  then eret (skipped report name (str ": this device had not finished joining its archive, so there is nothing to read yet.")) else
  do r <- archive_sync w fuel hex;
  match r with
  | inl err => eret (skipped report name (str ": its archive could not be read: " ++ err))
  | inr records =>
      do have <- look (fun e => match hs_conversation e.(e_history) id with Some _ => true | None => false end);
      do rebuilt <- (if have : bool then ok tt else
                     do direct <- rebuild_direct_chat id;
                     if direct : bool then ok tt else rebuild_group_chat id records);
      match rebuilt with
      | inl why => eret (skipped report name (str ": could not be rebuilt: " ++ why ++ str "."))
      | inr _ =>
          do added <- restore_records id records;
          eret (mkRestoreReport report.(rr_found) report.(rr_archives) (report.(rr_chats_restored) + 1) report.(rr_chats_skipped)
                  (report.(rr_messages) + added) report.(rr_notes))
      end
  end.

(** src/client/messaging_engine.cpp 2056-2135 restore_from_relay *)
Fixpoint restore_chats (fuel : nat) (report : RestoreReport) (archives : list ArchiveItem) : E RestoreReport :=
  match archives with
  | [] => eret report
  | a :: archives => do report <- restore_chat fuel report a; restore_chats fuel report archives
  end.

(** The archives the keyring names, with their keys; how many are new here.
    src/client/messaging_engine.cpp 2088-2101 restore_from_relay *)
Fixpoint restore_archives (now : Z) (archives : list ArchiveItem) : E Z :=
  match archives with
  | [] => eret 0
  | a :: archives =>
      do n1 <- nonce w;
      do n2 <- nonce w;
      do n3 <- nonce w;
      do added <- hist (fun db => hs_add_archive n1 n2 n3 db
        (mkHArchive a.(ai_conversation_id) a.(ai_relay_address) a.(ai_relay_id) a.(ai_role) a.(ai_state) a.(ai_archive_key)
           a.(ai_chat_public_key) a.(ai_chat_private_key) a.(ai_join_token) 0 [] now [] 0 0 0 []));
      do rest <- restore_archives now archives;
      eret (if added : bool then rest + 1 else rest)
  end.

(** The small facts that cannot be rebuilt from archives.
    src/client/messaging_engine.cpp 2080-2087 restore_from_relay *)
Definition restore_facts (contents : Contents) (now : Z) : E unit :=
  do _ <- for_each contents.(kc_verified) (fun fp => hist_do (fun db => set_verified db fp true now));
  do _ <- for_each contents.(kc_member_tokens) (fun t =>
    do n <- nonce w;
    hist_try (fun db => save_member_token n db t.(mt_conversation_id) t.(mt_member_fp) t.(mt_token) now));
  do _ <- for_each contents.(kc_introduced) (fun i =>
    hist_do (fun db => save_introduced db i.(in_fp) i.(in_bundle) i.(in_issued_at) i.(in_introduced_by) i.(in_first_seen)));
  for_each contents.(kc_issued_tokens) (fun t =>
    do known <- look (fun e => find_issued_token e.(e_history) t.(Keyring.it_hash));
    do _ <- match known with
            | Some _ => eret tt
            | None => hist_do (fun db => add_issued_token db t.(Keyring.it_hash) t.(Keyring.it_label) t.(Keyring.it_bound_fp) t.(Keyring.it_created_at))
            end;
    when_ t.(Keyring.it_revoked) (hist_do (fun db => mark_token_revoked db t.(Keyring.it_hash)))).

(** The keyring on the relay, opened.
    src/client/messaging_engine.cpp 2058-2077 restore_from_relay *)
Definition fetch_keyring : E (bytes + Contents) :=
  do config <- look (fun e => load_mailbox_config e.(e_keys));
  match config with
  | None => fail (str "Set up messaging first")
  | Some config =>
      need _ <- connect_authenticated w;
      need blob <- relay_call GetKeyring;
      match blob with
      | None => fail (str "The relay holds no saved keyring for this mailbox. It was never saved, or this isn't the mailbox your chats used.")
      | Some blob =>
          do key <- look (fun e => derive_local_key e.(e_keys) (str "archive keyring"));
          do key <- of_exc key;
          match (if size key =? 32 then open_keyring key config.(mc_mailbox_id) blob else None) with
          | None => fail (str "The saved keyring could not be opened. Your keys must be the ones this mailbox was set up with.")
          | Some plain =>
              match parse_keyring plain with
              | None => fail (str "The saved keyring is damaged, or was made by a newer version of this app")
              | Some contents => ok contents
              end
          end
      end
  end.

(** src/client/messaging_engine.cpp 2056-2135 restore_from_relay *)
Definition restore_from_relay (fuel : nat) : E (bytes + RestoreReport) :=
  need contents <- fetch_keyring;
  do now <- unix_now;
  do _ <- restore_facts contents now;
  do archives <- restore_archives now contents.(kc_archives);
  do report <- restore_chats fuel (mkRestoreReport true archives 0 0 0 []) contents.(kc_archives);
  do _ <- for_each contents.(kc_receipts) (fun r =>
    do have <- look (fun e => hs_conversation e.(e_history) r.(rc_conversation_id));
    match have with
    | Some _ => hist_do (fun db => set_receipt_settings db r.(rc_conversation_id) r.(rc_delivery) r.(rc_read))
    | None => eret tt
    end);
  do _ <- change (set_keyring_hash []);
  do _ <- bump;
  ok report.
End engine.
