(* ===== verification/EngineSend.v ===== *)
(** * The messaging engine: what this user writes

    Texts to a contact and to a group, read receipts, message requests, making a
    group, answering an invitation, and the send tokens members give one another. *)

From Stdlib Require Import ZArith Lia.
From stdpp Require Import base list strings gmap.
From S2P Require Import Prelude Wire Text Protocol RelayProtocol Crypto Prekey Envelope MessageRecord RecordPayloads IdentityBundle KeyStore Sharing Sql PrekeyVault HistoryTables HistoryStore HistoryRecords HistoryQueues Engine EngineDeletions EngineReceive.
#[local] Open Scope Z_scope.
#[local] Open Scope wire_scope.
#[local] Open Scope engine_scope.

Section engine.
Context `{P : Primitives} (me : Self) (w : World).

Abbreviation unix_now := (unix_now w).
Abbreviation random_bytes := (random_bytes w).
Abbreviation enqueue := (enqueue w).
Abbreviation sign_own := (sign_own me w).
Abbreviation store_message := (store_message w).
Abbreviation queue_archive_entry := (queue_archive_entry w).

(** ** A signed message, kept and queued *)

(** A message of this user's, as it is kept.
    src/client/messaging_engine.cpp 514-522 send_text *)
Definition outgoing_message (conversation_id message_id : bytes) (now : Z) (sr : SignedRecord) : Message :=
  mkMessage 0 conversation_id message_id true now now StatusQueued false sr.(sr_entry_hash) sr.(sr_raw) false.

(** Sign a record and read it back, as every message is.
    src/client/messaging_engine.cpp 504-512 send_text *)
Definition sign_and_parse (conversation_id message_id recipients_hash : bytes) (now : Z) (t : RecordType) (payload : exc bytes)
    (own_prev : bytes) (seen : list bytes) (what : string) : E (bytes + SignedRecord) :=
  do raw <- or_error (
    do p <- of_exc payload;
    sign_own conversation_id message_id recipients_hash (u64 now) t p own_prev seen);
  match raw with
  | inl err => fail err
  | inr raw => match parse_record raw with None => fail (str what) | Some sr => ok sr end
  end.

Definition too_long : bytes := str "That message is too long (32 KiB at most)".

(** src/client/messaging_engine.cpp 479-527 send_text *)
Definition send_text (contact_fp text : bytes) : E (bytes + unit) :=
  if is_empty text then fail (str "There is nothing to send") else
  if MAX_TEXT_BYTES <? size text then fail too_long else
  do contact <- look (fun e => find_contact e contact_fp);
  match contact with
  | None => fail (str "That contact isn't in your list")
  | Some contact =>
      if negb contact.(kem_verified) then fail (str "Their encryption key isn't verified. Ask them for a new contact card.") else
      if negb (can_message contact) then fail (str "You don't have their messaging address yet. Ask them for a new contact card.") else
      match hex_to_bytes contact_fp with
      | None => fail (str "That contact isn't valid")
      | Some their_fp =>
          if negb (size their_fp =? 32) then fail (str "That contact isn't valid") else
          do now <- unix_now;
          do conv <- hist (fun db => ensure_conversation db (conversation_id_for me.(my_fp) their_fp) contact_fp now);
          let id := conv.(Conv_id) in
          do message_id <- random_bytes ID_BYTES;
          do own_prev <- look (fun e => default [] (last_entry_hash e.(e_history) id true));
          do seen <- look (fun e => match last_entry_hash e.(e_history) id false with Some h => [h] | None => [] end);
          do signed <- sign_and_parse id message_id (recipients_hash_for [me.(my_fp); their_fp]) now RT_Text (Ret text) own_prev seen
                         "Could not sign the message";
          match signed with
          | inl err => fail err
          | inr sr =>
              do _ <- store_message (outgoing_message id message_id now sr);
              do _ <- enqueue contact_fp OUTBOX_KIND_MESSAGE message_id [sr.(sr_raw)] now now;
              do _ <- queue_archive_entry id sr.(sr_raw) message_id;
              do _ <- bump;
              ok tt
          end
      end
  end.

(** src/client/messaging_engine.cpp 566-573 mark_read *)
Definition mark_read (contact_fp : bytes) : E unit :=
  do conv <- look (fun e => conversation_for e.(e_history) contact_fp);
  match conv with
  | None => eret tt
  | Some conv =>
      do ids <- hist (fun db => Ret (mark_all_read db conv.(Conv_id)));
      if no_items ids then eret tt else
      do _ <- when_ conv.(Conv_send_read_receipts) (enqueue_receipt me w contact_fp ReadReceipt ids false);
      bump
  end.

(** src/client/messaging_engine.cpp 463-468 receipts_enabled *)
Definition receipts_enabled (e : Engine) (contact_fp : bytes) : bool * bool * bool :=
  match conversation_for e.(e_history) contact_fp with
  | Some conv => (true, conv.(Conv_send_delivery_receipts), conv.(Conv_send_read_receipts))
  | None => (false, true, true)
  end.

(** src/client/messaging_engine.cpp 470-475 set_receipts *)
Definition set_receipts (contact_fp : bytes) (delivery read : bool) : E unit :=
  match hex_to_bytes contact_fp with
  | None => eret tt
  | Some fp =>
      if negb (size fp =? 32) then eret tt else
      do now <- unix_now;
      do conv <- hist (fun db => ensure_conversation db (conversation_id_for me.(my_fp) fp) contact_fp now);
      hist_do (fun db => set_receipt_settings db conv.(Conv_id) delivery read)
  end.

(** ** Message requests *)

(** What a request holds, handled as if it had just arrived.
    src/client/messaging_engine.cpp 831-837 accept_request *)
Definition deliver_held (contact : Contact) (introduced_ : list bytes) (raw : bytes) : E unit :=
  match parse_record raw with
  | None => eret tt
  | Some sr =>
      if negb (verify_record sr contact.(co_pub_dsa)) then eret tt else
      if bool_decide (sr.(sr_record).(mr_type) = RT_Conversation)
      then do _ <- receive_group_invite me w contact sr introduced_; eret tt
      else do _ <- handle_record me w contact sr true; eret tt
  end.

(** src/client/messaging_engine.cpp 802-841 accept_request *)
Definition accept_request (sender_fp contact_name : bytes) : E (bytes + unit) :=
  do rows <- look (fun e => filter (fun r => r.(Req_sender_fp) = sender_fp) (hs_requests e.(e_history)));
  match rows with
  | [] => fail (str "That request is no longer there")
  | first :: _ =>
      match speaks_for (parsed first.(Req_bundle)) sender_fp with
      | None => fail (str "Their identity bundle is not valid")
      | Some bundle =>
          if negb (is_valid_contact_name contact_name)
          then fail (str "Please use 1-64 letters, digits, spaces, '-', '_' or '.' for the name") else
          do taken <- look (fun e => load_contact e.(e_keys) contact_name);
          if match taken with Some c => negb (bool_decide (c.(co_fingerprint) = sender_fp)) | None => false end
          then fail (str "You already have a different contact with that name") else
          do saved <- or_error (on_keys (save_contact_bundle contact_name bundle));
          match saved with
          | inl err => fail err
          | inr _ =>
              do contact <- look (fun e => load_contact e.(e_keys) contact_name);
              match contact with
              | None => fail (str "Could not save the contact")
              | Some contact =>
                  do now <- unix_now;
                  do _ <- hist_do (fun db => set_verified db sender_fp true now);
                  let raws := concat (map Req_records rows) in
                  let introduced_ := filter (fun raw => parse_record raw = None) raws in
                  do _ <- for_each raws (deliver_held contact introduced_);
                  do _ <- hist_do (fun db => delete_requests db sender_fp);
                  do _ <- bump;
                  ok tt
              end
          end
      end
  end.

(** src/client/messaging_engine.cpp 843-846 decline_request *)
Definition decline_request (sender_fp : bytes) : E unit :=
  do _ <- hist_do (fun db => delete_requests db sender_fp);
  bump.

(** ** Groups *)

(** Newest first, with the members still to be seen.
    src/client/messaging_engine.cpp 855-860 latest_heads *)
Fixpoint take_heads (messages : list Message) (remaining out : list bytes) : list bytes :=
  match messages with
  | [] => out
  | m :: messages =>
      match remaining with
      | [] => out
      | _ =>
          if MAX_SEEN <=? size out then out else
          if m.(Msg_outgoing) then take_heads messages remaining out else
          match parse_record m.(Msg_record) with
          | None => take_heads messages remaining out
          | Some sr =>
              let sender := bytes_to_hex sr.(sr_record).(mr_sender) in
              if bool_decide (sender ∈ remaining)
              then take_heads messages (filter (fun fp => fp <> sender) remaining) (out ++ [m.(Msg_entry_hash)])
              else take_heads messages remaining out
          end
      end
  end.

(** src/client/messaging_engine.cpp 851-862 latest_heads *)
Definition latest_heads (e : Engine) (conversation_id : bytes) (members : list bytes) : list bytes :=
  take_heads (reverse (hs_messages e.(e_history) conversation_id 200)) members [].

(** src/client/messaging_engine.cpp 865-876 prune_introduced *)
Definition prune_introduced : E unit :=
  do keep <- look (fun e =>
    concat (map Conv_members (filter (fun c => c.(Conv_kind) = Group) (hs_conversations e.(e_history))))
    ++ concat (map (fun invite => match invite_info invite with Some info => map bytes_to_hex info.(ci_members) | None => [] end)
                 (hs_group_invites e.(e_history))));
  hist_do (fun db => delete_introduced_except db keep).

(** What is wrong with a list of people, or their fingerprints and bundles.
    src/client/messaging_engine.cpp 913-925 create_group *)
Fixpoint gather_members (e : Engine) (fps others raws bundles : list bytes) : bytes + (list bytes * list bytes * list bytes) :=
  match fps with
  | [] => inr (others, raws, bundles)
  | fp :: fps =>
      match hex_to_bytes fp with
      | None => inl (str "One of those isn't a valid contact")
      | Some raw =>
          if negb (size raw =? 32) then inl (str "One of those isn't a valid contact") else
          if bool_decide (fp = me.(my_fp_hex)) then inl (str "You are already in the group") else
          if bool_decide (fp ∈ others) then inl (str "Someone is listed twice") else
          match find_contact e fp with
          | None => inl (str "One of those people isn't in your contacts")
          | Some contact =>
              if negb (can_message contact) then inl (contact.(co_name) ++ str " can't be messaged yet. Ask them for a new contact card.") else
              match load_contact_bundle_raw e.(e_keys) contact.(co_name) with
              | None => inl (str "You don't have a signed identity bundle for " ++ contact.(co_name) ++ str ". Ask them for a new contact card.")
              | Some bundle => gather_members e fps (others ++ [fp]) (raws ++ [raw]) (bundles ++ [bundle])
              end
          end
      end
  end.

(** The invitation of one member: the record, and the others' bundles over as
    many envelopes as it takes; at least one.
    src/client/messaging_engine.cpp 968-977 create_group *)
Definition introductions (raw_record : bytes) (bundles : list bytes) (i : nat) : list (list bytes) :=
  let to_introduce := take i bundles ++ drop (S i) bundles in
  map (cons raw_record)
    (match to_introduce with [] => [[]] | _ => chunks (length to_introduce) INTRODUCED_PER_ENVELOPE to_introduce end).

(** src/client/messaging_engine.cpp 902-983 create_group *)
Definition engine_create_group (title : bytes) (member_fps : list bytes) : E (bytes + bytes) :=
  do set_up <- look is_set_up;
  if negb set_up then fail (str "Set up messaging first") else
  if MAX_TITLE_BYTES <? size title then fail (str "The group name is too long (64 bytes at most)") else
  if size member_fps =? 0 then fail (str "Choose at least one person to invite") else
  if MAX_GROUP_MEMBERS - 1 <? size member_fps then fail (str "A group can have at most 16 people, including you") else
  do gathered <- look (fun e => gather_members e member_fps [] [] []);
  match gathered with
  | inl err => fail err
  | inr (others, raws, bundles) =>
      do now <- unix_now;
      do id <- random_bytes ID_BYTES;
      do message_id <- random_bytes ID_BYTES;
      let members := me.(my_fp) :: raws in
      do signed <- sign_and_parse id message_id (recipients_hash_for members) now RT_Conversation
                     (conversation_payload (mkConversationInfo title MODE_SAVED 0 [] members)) [] [] "Could not sign the invitation";
      match signed with
      | inl err => fail err
      | inr sr =>
          do made <- or_error (hist (fun db => create_group db id title me.(my_fp_hex) Saved 0 [] others Active now));
          match made with
          | inl err => fail err
          | inr _ =>
              do _ <- store_message (outgoing_message id message_id now sr);
              do _ <- for_each (zip (seq 0 (length others)) others) (fun '(i, fp) =>
                for_each (introductions sr.(sr_raw) bundles i) (fun payload => enqueue fp OUTBOX_KIND_MESSAGE message_id payload now now));
              do _ <- bump;
              ok (bytes_to_hex id)
          end
      end
  end.

Definition find_group (e : Engine) (group_id : bytes) : option Conversation :=
  let? id := hex_to_bytes group_id in
  let? conv := hs_conversation e.(e_history) id in
  if conv.(Conv_kind) =? Group then Some conv else None.

(** src/client/messaging_engine.cpp 1039-1090 send_group_text *)
Definition send_group_text (group_id text : bytes) : E (bytes + unit) :=
  if is_empty text then fail (str "There is nothing to send") else
  if MAX_TEXT_BYTES <? size text then fail too_long else
  do conv <- look (fun e => find_group e group_id);
  match conv with
  | None => fail (str "That group isn't in your list")
  | Some conv =>
      match all_hex conv.(Conv_members) with
      | None => fail (str "That group is damaged")
      | Some everyone =>
          let id := conv.(Conv_id) in
          do now <- unix_now;
          do message_id <- random_bytes ID_BYTES;
          do own_prev <- look (fun e => default [] (last_entry_hash e.(e_history) id true));
          do seen <- look (fun e => latest_heads e id conv.(Conv_members));
          do signed <- sign_and_parse id message_id (recipients_hash_for (me.(my_fp) :: everyone)) now RT_Text (Ret text) own_prev seen
                         "Could not sign the message";
          match signed with
          | inl err => fail err
          | inr sr =>
              do _ <- store_message (outgoing_message id message_id now sr);
              do _ <- for_each conv.(Conv_members) (fun fp => enqueue fp OUTBOX_KIND_MESSAGE message_id [sr.(sr_raw)] now now);
              do _ <- queue_archive_entry id sr.(sr_raw) message_id;
              do _ <- bump;
              ok tt
          end
      end
  end.

(** Who wrote each of the messages, by author in order.
    src/client/messaging_engine.cpp 1104-1109 mark_group_read *)
Definition by_author (e : Engine) (conv_id : bytes) (ids : list bytes) : list (bytes * list bytes) :=
  let pairs := omap (fun mid => let? m := find_message e.(e_history) conv_id mid in
                                let? sr := parse_record m.(Msg_record) in
                                Some (bytes_to_hex sr.(sr_record).(mr_sender), mid)) ids in
  map (fun author => (author, map snd (filter (fun p => p.1 = author) pairs)))
    (sort_by bytes_leb (remove_dups (map fst pairs))).

(** src/client/messaging_engine.cpp 1092-1114 mark_group_read *)
Definition mark_group_read (group_id : bytes) : E unit :=
  do conv <- look (fun e => find_group e group_id);
  match conv with
  | None => eret tt
  | Some conv =>
      let id := conv.(Conv_id) in
      do ids <- hist (fun db => Ret (mark_all_read db id));
      if no_items ids then eret tt else
      do _ <- when_ conv.(Conv_send_read_receipts) (
        let recipients := recipients_hash_for (me.(my_fp) :: omap hex_to_bytes conv.(Conv_members)) in
        do authors <- look (fun e => by_author e id ids);
        for_each authors (fun '(author, author_ids) => enqueue_receipt_in me w id recipients author ReadReceipt author_ids false));
      bump
  end.

(** src/client/messaging_engine.cpp 1116-1121 set_group_receipts *)
Definition set_group_receipts (group_id : bytes) (delivery read : bool) : E unit :=
  do conv <- look (fun e => find_group e group_id);
  match conv with
  | None => eret tt
  | Some conv => hist_do (fun db => set_receipt_settings db conv.(Conv_id) delivery read)
  end.

(** src/client/messaging_engine.cpp 1123-1130 group_receipts_enabled *)
Definition group_receipts_enabled (e : Engine) (group_id : bytes) : bool * bool * bool :=
  match find_group e group_id with
  | Some conv => (true, conv.(Conv_send_delivery_receipts), conv.(Conv_send_read_receipts))
  | None => (false, true, true)
  end.

(** ** Answering an invitation *)

(** Who still needs a token from us.
    src/client/messaging_engine.cpp 1374-1382 queue_group_grants *)
Definition grant_targets (e : Engine) (creator_fp : bytes) (others : list bytes) : list bytes :=
  let issued := issued_tokens e.(e_history) in
  omap (fun fp =>
    if bool_decide (fp = creator_fp) then None else
    let? raw := hex_to_bytes fp in
    if negb (size raw =? 32) then None else
    let can_already :=
      match find_contact e fp with
      | Some _ => existsb (fun t => bool_decide (t.(it_bound_fp) = fp) && negb t.(it_revoked)) issued
      | None => false
      end in
    if can_already then None else Some raw) others.

(** src/client/messaging_engine.cpp 1370-1388 queue_group_grants *)
Definition queue_group_grants (conversation_id creator_fp : bytes) (others : list bytes) : E unit :=
  do targets <- look (fun e => grant_targets e creator_fp others);
  if no_items targets then eret tt else
  let job := foldl (++) (write_u32 conversation_id (u32 (size targets))) targets in
  do now <- unix_now;
  do id <- random_bytes ID_BYTES;
  enqueue creator_fp OUTBOX_KIND_GRANTS id [job] now now.

(** What arrived while the invitation waited.
    src/client/messaging_engine.cpp 1344-1350 accept_group_invite *)
Definition release_held (raw : bytes) : E unit :=
  match parse_record raw with
  | None => eret tt
  | Some held =>
      do sender <- look (fun e => resolve_peer e (bytes_to_hex held.(sr_record).(mr_sender)) []);
      match sender with
      | None => eret tt
      | Some sender =>
          if negb (verify_record held sender.(p_pub_dsa)) then eret tt else
          do _ <- handle_group_record me w sender held true;
          eret tt
      end
  end.

(** src/client/messaging_engine.cpp 1304-1356 accept_group_invite *)
Definition accept_group_invite (group_id : bytes) : E (bytes + unit) :=
  do found <- look (fun e => let? id := hex_to_bytes group_id in let? invite := group_invite e.(e_history) id in Some (id, invite));
  match found with
  | None => fail (str "That invitation is no longer there")
  | Some (id, invite) =>
      do creator <- look (fun e => find_contact e invite.(Invite_creator_fp));
      match creator with
      | None => fail (str "The person who invited you is no longer one of your contacts")
      | Some creator =>
          match (let? raw := head invite.(Invite_records) in let? sr := parse_record raw in
                 let? info := conversation_from_record sr in
                 if verify_record sr creator.(co_pub_dsa) then Some (sr, info) else None) with
          | None => fail (str "That invitation is not valid")
          | Some (sr, info) =>
              let others := map bytes_to_hex (filter (fun m => m <> me.(my_fp)) info.(ci_members)) in
              do ready <- look (fun e => forallb (fun fp => match resolve_peer e fp [] with Some p => p.(p_can_send) | None => false end) others);
              do now <- unix_now;
              do made <- or_error (hist (fun db => create_group db id info.(ci_title) invite.(Invite_creator_fp) Saved 0 info.(ci_previous_id)
                                                     others (if ready then Active else SettingUp) now));
              match made with
              | inl err => fail err
              | inr _ =>
                  let r := sr.(sr_record) in
                  do _ <- store_message (mkMessage 0 id r.(mr_message_id) false (i64 r.(mr_sent_at)) now 1 false sr.(sr_entry_hash) sr.(sr_raw) false);
                  do _ <- for_each (tail invite.(Invite_records)) release_held;
                  do _ <- hist_do (fun db => delete_group_invite db id);
                  do _ <- prune_introduced;
                  do _ <- queue_group_grants id invite.(Invite_creator_fp) others;
                  do _ <- bump;
                  ok tt
              end
          end
      end
  end.

(** src/client/messaging_engine.cpp 1358-1364 decline_group_invite *)
Definition decline_group_invite (group_id : bytes) : E unit :=
  match hex_to_bytes group_id with
  | None => eret tt
  | Some id =>
      do _ <- hist_do (fun db => delete_group_invite db id);
      do _ <- prune_introduced;
      bump
  end.
End engine.
