(* ===== verification/EngineAttachments.v ===== *)
(** * The messaging engine: attachments

    Sending a file: its record is signed and stored, the file is uploaded by the
    transfer thread, and only then is each recipient told. Fetching one: chunk by
    chunk into a folder, checked whole before it is saved. [transfer_step] is one
    round of the transfer thread. *)

From Stdlib Require Import ZArith Lia.
From stdpp Require Import base list strings gmap numbers.
From S2P Require Import Prelude Wire Text Protocol RelayProtocol Crypto Prekey Envelope Attachment MessageRecord RecordPayloads IdentityBundle KeyStore Sharing Sql PrekeyVault HistoryTables HistoryStore HistoryRecords HistoryQueues RelayClient Engine EngineAccount EngineDeletions EngineReceive EngineArchives EngineSend.
#[local] Open Scope Z_scope.
#[local] Open Scope wire_scope.
#[local] Open Scope engine_scope.

(** src/client/messaging_engine.h 156-168 AttachmentView *)
Record AttachmentView := mkAttachmentView {
  av_file_id : bytes;
  av_name : bytes;
  av_size : Z;
  av_caption : bytes;
  av_state : Z;
  av_expires_at : Z;
  av_outgoing : bool;
  av_recipients : Z;
  av_redeemed : Z;
  av_saved_path : bytes;
  av_note : bytes;
}.

(** The state as shown: what the relay no longer holds has expired. *)
Definition shown_state (state expires_at now : Z) : Z :=
  if ((state =? AttachAvailable) || (state =? AttachUploading)) && (expires_at <=? now) then AttachExpired else state.

(** [file.filename()]: what follows the last slash. *)
Definition filename (path : bytes) : bytes :=
  match rfind_char (chr 47) path with Some i => zdrop (i + 1) path | None => path end.

(** [directory / name]. *)
Definition path_join (directory name : bytes) : bytes :=
  match list.last directory with
  | Some c => if bool_decide (c = chr 47) then directory ++ name else directory ++ [chr 47] ++ name
  | None => name
  end.

Section engine.
Context `{P : Primitives} (me : Self) (w : World).

Abbreviation unix_now := (unix_now w).
Abbreviation random_bytes := (random_bytes w).
Abbreviation relay_call := (relay_call w).
Abbreviation enqueue := (enqueue w).
Abbreviation ask_world := (@ask_world _).

(** src/client/messaging_engine.cpp 2488-2507 attachment_view *)
Definition attachment_view (e : Engine) (now : Z) (info : AttachmentInfo) : AttachmentView :=
  let expires := i64 info.(RecordPayloads.at_expires_at) in
  let view state outgoing recipients redeemed path note :=
    mkAttachmentView (bytes_to_hex info.(RecordPayloads.at_file_id)) info.(RecordPayloads.at_name) info.(RecordPayloads.at_size)
      info.(at_caption) (shown_state state expires now) expires outgoing recipients redeemed path note in
  match hs_attachment e.(e_history) info.(RecordPayloads.at_file_id) with
  | Some a => view a.(Att_state) a.(Att_outgoing) a.(Att_recipients) a.(Att_redeemed) (if a.(Att_outgoing) then [] else a.(Att_path)) a.(Att_note)
  | None => view AttachUnavailable false 0 0 [] []
  end.

(** src/client/messaging_engine.cpp 2806-2823 attachment *)
Definition attachment (e : Engine) (now : Z) (file_id : bytes) : option AttachmentView :=
  let? id := hex_to_bytes file_id in
  let? a := hs_attachment e.(e_history) id in
  Some (mkAttachmentView file_id a.(Att_name) a.(Att_size) [] (shown_state a.(Att_state) a.(Att_expires_at) now) a.(Att_expires_at)
          a.(Att_outgoing) a.(Att_recipients) a.(Att_redeemed) (if a.(Att_outgoing) then [] else a.(Att_path)) a.(Att_note)).

(** ** Sending *)

(** One random token per recipient. *)
Fixpoint file_tokens (recipients : list bytes) : E (list (bytes * bytes)) :=
  match recipients with
  | [] => eret []
  | fp :: recipients => do token <- random_bytes FILE_TOKEN_BYTES; do rest <- file_tokens recipients; eret ((fp, token) :: rest)
  end.

(** The file as it is now: its size and fingerprint, or why it cannot be sent.
    src/client/messaging_engine.cpp 2558-2642 start_attachment_send *)
Definition inspect_file (file : bytes) (recipients : list bytes) (days : Z) : E (bytes + (MailboxConfig * Z * bytes)) :=
  do is_file <- ask_world (fun n => w.(w_is_file) n file);
  if negb is_file then fail (str "That isn't a file") else
  do sz <- ask_world (fun n => w.(w_file_size) n file);
  match sz with
  | None => fail (str "That file could not be read")
  | Some sz =>
      if (me.(options).(max_attachment_bytes) <? sz) || (MAX_PLAINTEXT_BYTES <? sz) then
        fail (str "That file is too large (" ++ to_string (Z.min me.(options).(max_attachment_bytes) MAX_PLAINTEXT_BYTES / (1024 * 1024))
              ++ str " MiB at most)")
      else
      if (days <? 1) || (30 <? days) then fail (str "Choose how long to keep it: 1 to 30 days") else
      if no_items recipients || (MAX_FILE_TOKENS <? size recipients) then fail (str "There is no one to send it to") else
      do config <- look (fun e => load_mailbox_config e.(e_keys));
      match config with
      | None => fail (str "Set up messaging first")
      | Some config =>
          do content <- ask_world (fun n => w.(w_file) n file);
          do bad <- ask_world w.(w_bad_read);
          match fingerprint_file content bad with
          | inl what => fail (str what)
          | inr (sz, sha) => ok (config, sz, sha)
          end
      end
  end.

(** Sign the record, and read it back.
    src/client/messaging_engine.cpp 2596-2605 start_attachment_send *)
Definition sign_attachment (conversation_id message_id recipients_hash : bytes) (now : Z) (info : AttachmentInfo) (own_prev : bytes)
    (seen : list bytes) : E (bytes + SignedRecord) :=
  do raw <- or_error (do p <- of_exc (attachment_payload info);
                      sign_own me w conversation_id message_id recipients_hash (u64 now) RT_Attachment p own_prev seen);
  match raw with
  | inl err => fail (str "That can't be sent: " ++ err)
  | inr raw => match parse_record raw with None => fail (str "Could not sign the message") | Some sr => ok sr end
  end.

(** src/client/messaging_engine.cpp 2558-2642 start_attachment_send *)
Definition start_attachment_send (conversation_id : bytes) (recipients : list bytes) (recipients_hash : bytes) (seen : list bytes)
    (file caption : bytes) (days : Z) : E (bytes + unit) :=
  need (config, sz, sha) <- inspect_file file recipients days;
  do now <- unix_now;
  do file_id <- random_bytes FILE_ID_BYTES;
  let name := sanitize_filename (filename file) in
  let expires := u64 (now + days * 86400) in
  let address := format_server_address (mkServerAddress config.(mc_host) config.(mc_port)) in
  let info := mkAttachmentInfo file_id name sz sha expires address config.(mc_relay_id) caption in
  do message_id <- random_bytes ID_BYTES;
  do own_prev <- look (fun e => default [] (last_entry_hash e.(e_history) conversation_id true));
  need sr <- sign_attachment conversation_id message_id recipients_hash now info own_prev seen;
  do key <- random_bytes ATT_KEY_BYTES;
  do tokens <- file_tokens recipients;
  do path <- ask_world (fun n => w.(w_absolute) n file);
  do _ <- store_message w (outgoing_message conversation_id message_id now sr);
  do n <- nonce w;
  do _ <- hist (fun db => add_attachment n db
    (mkAttachment file_id conversation_id message_id true name sz sha (i64 expires) address config.(mc_relay_id) AttachUploading key []
       tokens path [] (u32 (size recipients)) 0 now));
  do _ <- enqueue (bytes_to_hex file_id) OUTBOX_KIND_UPLOAD message_id [sr.(sr_raw)] now now;
  do _ <- queue_archive_entry w conversation_id sr.(sr_raw) message_id;
  do _ <- bump;
  ok tt.

(** src/client/messaging_engine.cpp 2644-2655 send_attachment *)
Definition send_attachment (contact_fp file caption : bytes) (days : Z) : E (bytes + unit) :=
  do contact <- look (fun e => find_contact e contact_fp);
  match contact with
  | None => fail (str "That contact isn't in your list")
  | Some contact =>
      if negb contact.(kem_verified) then fail (str "Their encryption key isn't verified. Ask them for a new contact card.") else
      if negb (can_message contact) then fail (str "You don't have their messaging address yet. Ask them for a new contact card.") else
      match hex_to_bytes contact_fp with
      | None => fail (str "That contact isn't valid")
      | Some their_fp =>
          if negb (size their_fp =? 32) then fail (str "That contact isn't valid") else
          do now <- unix_now;
          do conv <- hist (fun db => ensure_conversation db (conversation_id_for me.(my_fp) their_fp) contact_fp now);
          do last_received <- look (fun e => last_entry_hash e.(e_history) conv.(Conv_id) false);
          start_attachment_send conv.(Conv_id) [contact_fp] (recipients_hash_for [me.(my_fp); their_fp])
            (match last_received with Some h => [h] | None => [] end) file caption days
      end
  end.

(** src/client/messaging_engine.cpp 2657-2668 send_group_attachment *)
Definition send_group_attachment (group_id file caption : bytes) (days : Z) : E (bytes + unit) :=
  do conv <- look (fun e => find_group e group_id);
  match conv with
  | None => fail (str "That group isn't in your list")
  | Some conv =>
      match all_hex conv.(Conv_members) with
      | None => fail (str "That group is damaged")
      | Some others =>
          do heads <- look (fun e => latest_heads e conv.(Conv_id) conv.(Conv_members));
          start_attachment_send conv.(Conv_id) conv.(Conv_members) (recipients_hash_for (me.(my_fp) :: others)) heads file caption days
      end
  end.

(** ** Uploading *)

Definition note_progress (file_id : bytes) (done_ total : Z) : E unit :=
  change (fun e => set_progress (<[bytes_to_hex file_id := (done_, total)]> e.(e_back).(b_progress)) e).

(** The chunks from [i] on, [n] of them: what it comes to, and what went wrong with
    the file itself. The file is read as it is when its chunk is sent; a call covers
    a chunk and the confirmation after it.
    src/client/messaging_engine.cpp 2763-2769 run_upload *)
Fixpoint upload_chunks (n : nat) (i : Z) (begin_ : FileBegin) (enc : Encryptor) (path : bytes) : E ((bytes + unit) * bytes) :=
  match n with
  | O => eret (inr tt, [])
  | S n =>
      do stopping <- ask_world w.(w_stopping);
      if stopping : bool then eret (inl (str "The file could not be read"), []) else
      do content <- ask_world (fun k => w.(w_file) k path);
      match encryptor_chunk enc content i with
      | inl what => eret (inl (str "The file could not be read"), str what)
      | inr chunk =>
          do _ <- note_progress begin_.(FileBegin_file_id)
                    (Z.min begin_.(FileBegin_total_size) (u64 (u32 (i + 1) * begin_.(FileBegin_chunk_size)))) begin_.(FileBegin_total_size);
          do r <- relay_call (UploadChunk i chunk);
          match r with
          | inl err => eret (inl err, [])
          | inr _ => upload_chunks n (i + 1) begin_ enc path
          end
      end
  end.

(** The whole upload; a file the relay already has complete will do.
    src/client/messaging_engine.cpp 2762-2776 run_upload *)
Definition upload_whole (begin_ : FileBegin) (enc : Encryptor) (path : bytes) : E ((bytes + unit) * bytes) :=
  do r <- relay_call (UploadBegin begin_);
  do (r, source_error) <- match r with
                          | inl err => eret (inl err, [])
                          | inr _ => upload_chunks (Z.to_nat begin_.(FileBegin_chunk_count)) 0 begin_ enc path
                          end;
  match r with
  | inr _ => eret (r, source_error)
  | inl err =>
      if negb (mentions err "already exists") then eret (r, source_error) else
      do check <- (need _ <- connect_authenticated w; relay_call (AskFile begin_.(FileBegin_file_id)));
      match check with
      | inr status => if status.(FileStatus_ready) then eret (inr tt, source_error) else eret (r, source_error)
      | inl _ => eret (r, source_error)
      end
  end.

Definition finish_queue_entry (job : TransferJob) : E unit :=
  when_ (negb (job.(tj_outbox_id) =? 0)) (hist_do (fun db => outbox_done db job.(tj_outbox_id))).
Definition retry_upload (job : TransferJob) (now : Z) : E unit :=
  when_ (negb (job.(tj_outbox_id) =? 0))
    (hist_do (fun db => outbox_failed db job.(tj_outbox_id) (now + Z.max 1 me.(options).(retry_base_seconds) * 4))).

(** src/client/messaging_engine.cpp 2732-2736 run_upload *)
Definition abandon (job : TransferJob) (why : bytes) : E unit :=
  do _ <- hist_do (fun db => set_attachment_state db job.(tj_file_id) AttachFailed why);
  do _ <- finish_queue_entry job;
  notify (str "An attachment could not be sent: " ++ why).

(** It did not get there.
    src/client/messaging_engine.cpp 2777-2785 run_upload *)
Definition upload_failed (job : TransferJob) (now : Z) (err source_error : bytes) : E unit :=
  do stopping <- ask_world w.(w_stopping);
  if stopping : bool then eret tt else
  if negb (is_empty source_error) then abandon job source_error else
  if mentions err "larger than this relay allows" || mentions err "would go over this relay's limit" || mentions err "expiry must be"
  then abandon job err else retry_upload job now.

(** It is on the relay: taken down again if it was withdrawn meanwhile; otherwise
    each recipient is told, in their own envelope.
    src/client/messaging_engine.cpp 2787-2804 run_upload *)
Definition upload_done (job : TransferJob) (a : Attachment) (now : Z) : E unit :=
  do latest <- look (fun e => hs_attachment e.(e_history) job.(tj_file_id));
  if negb (match latest with Some latest => latest.(Att_state) =? AttachUploading | None => false end) then
    do _ <- (need _ <- connect_authenticated w; relay_call (CancelFile job.(tj_file_id)));
    finish_queue_entry job
  else
  do message <- look (fun e => find_message e.(e_history) a.(Att_conversation_id) a.(Att_message_id));
  match message with
  | None => abandon job (str "the message is gone")
  | Some message =>
      do _ <- for_each a.(Att_recipient_tokens) (fun '(fp, token) =>
        enqueue fp OUTBOX_KIND_ATTACHMENT a.(Att_message_id) [message.(Msg_record); encode_grant a.(Att_file_id) a.(Att_key) token] now now);
      do _ <- hist_do (fun db => set_attachment_state db job.(tj_file_id) AttachAvailable []);
      do _ <- hist_do (fun db => drop_attachment_secrets db job.(tj_file_id));
      finish_queue_entry job
  end.

(** src/client/messaging_engine.cpp 2727-2804 run_upload *)
Definition run_upload (job : TransferJob) : E unit :=
  do a <- look (fun e => hs_attachment e.(e_history) job.(tj_file_id));
  do now <- unix_now;
  match a with
  | None => finish_queue_entry job
  | Some a =>
      if negb a.(Att_outgoing) || negb (a.(Att_state) =? AttachUploading) then finish_queue_entry job else
      if a.(Att_expires_at) <=? now + 60
      then abandon job (str "it took too long to upload, and its time on the relay has run out") else
      do content <- ask_world (fun n => w.(w_file) n a.(Att_path));
      do bad <- ask_world w.(w_bad_read);
      match fingerprint_file content bad with
      | inl what => abandon job (str what)
      | inr (sz, sha) =>
          if negb (sz =? a.(Att_size)) || negb (bool_decide (sha = a.(Att_sha256)))
          then abandon job (str "the file changed after it was attached") else
          do plan <- of_exc (plan_for a.(Att_size));
          let enc := mkEncryptor a.(Att_key) a.(Att_file_id) a.(Att_size) plan in
          let begin_ := mkFileBegin a.(Att_file_id) plan.(ciphertext_size) plan.(chunk_size) plan.(chunk_count) (u64 a.(Att_expires_at))
                          (map (fun t => sha256 t.2) a.(Att_recipient_tokens)) in
          do signed_in <- connect_authenticated w;
          match signed_in with
          | inl _ => retry_upload job now
          | inr _ =>
              do _ <- note_progress job.(tj_file_id) 0 begin_.(FileBegin_total_size);
              do (r, source_error) <- upload_whole begin_ enc a.(Att_path);
              match r with
              | inl err => upload_failed job now err source_error
              | inr _ => upload_done job a now
              end
          end
      end
  end.

(** ** Downloading *)

Definition refused_download (a : Attachment) : option bytes :=
  let s := a.(Att_state) in
  if s =? AttachAvailable then None else
  Some (if s =? AttachDownloading then str "It is already being downloaded"
        else if s =? AttachTransferred then str "You have already downloaded it"
        else if s =? AttachExpired then str "It has expired: the relay no longer holds it"
        else if s =? AttachWithdrawn then str "The sender took it back"
        else if bool_decide (ztake 7 a.(Att_note) = str "Waiting") then str "It isn't ready yet: the sender is still uploading it. Try again in a moment."
        else str "It can't be downloaded: it reached you without the key it needs").

(** src/client/messaging_engine.cpp 2825-2855 download_attachment *)
Definition download_attachment (file_id directory : bytes) : E (bytes + unit) :=
  do found <- look (fun e => let? id := hex_to_bytes file_id in let? a := hs_attachment e.(e_history) id in
                             if a.(Att_outgoing) then None else Some (id, a));
  match found with
  | None => fail (str "That attachment isn't one you can download")
  | Some (id, a) =>
      match refused_download a with
      | Some why => fail why
      | None =>
          do now <- unix_now;
          if a.(Att_expires_at) <=? now then
            do _ <- hist_do (fun db => set_attachment_state db id AttachExpired []);
            fail (str "It has expired: the relay no longer holds it")
          else
          do is_directory <- ask_world (fun n => w.(w_directory) n directory);
          if negb is_directory then fail (str "That folder doesn't exist") else
          do _ <- hist_do (fun db => set_attachment_state db id AttachDownloading []);
          do _ <- change (fun e => set_progress (<[file_id := (0, a.(Att_size))]> e.(e_back).(b_progress)) e);
          do _ <- queue_transfer (mkTransferJob Download id 0 directory);
          do _ <- bump;
          ok tt
      end
  end.

(** A step of the receiving side in its folder. *)
Definition in_folder {A} (directory : bytes) (f : Folder -> A * Decryptor * Folder) : E (A * Decryptor) :=
  fun e =>
    let '(a, d, dir) := f (default ∅ (e.(e_back).(b_folders) !! directory)) in
    (Returned (a, d), set_folders (<[directory := dir]> e.(e_back).(b_folders)) e).

(** Throw the partial file away. *)
Definition abort_download (directory : bytes) (d : Decryptor) : E unit :=
  do _ <- in_folder directory (fun dir => let '(d, dir) := decryptor_abort d dir in (tt, d, dir)); eret tt.

(** The chunks that arrive, until the end: what it comes to, what went wrong with
    the file itself, and the receiving side. A chunk past the last never fits, so
    one round more than there are chunks is enough.
    src/client/messaging_engine.cpp 2879-2885 run_download *)
Fixpoint download_chunks (n : nat) (info : FileInfo) (expected : Z) (a : Attachment) (directory : bytes) (d : Decryptor)
    : E ((bytes + unit) * bytes * Decryptor) :=
  match n with
  | O => unfinished
  | S n =>
      do r <- relay_call DownloadNext;
      match r with
      | inl err => eret (inl err, [], d)
      | inr None =>
          if expected =? info.(FileInfo_chunk_count) then eret (inr tt, [], d)
          else eret (inl (str "The relay stopped sending before the end of the file"), [], d)
      | inr (Some chunk) =>
          if negb (Client.chunk_fits info expected chunk) then eret (inl (str "The relay sent a chunk that doesn't fit"), [], d) else
          let index := chunk.(RelayFileChunk_index) in
          do stopping <- ask_world w.(w_stopping);
          if stopping : bool then eret (inl (str "The download was stopped"), str "interrupted", d) else
          do wrote <- ask_world w.(w_wrote);
          do (taken, d) <- in_folder directory (fun dir => decryptor_accept wrote d dir index chunk.(RelayFileChunk_data));
          match taken with
          | Failed what => eret (inl (str "The download was stopped"), str what, d)
          | Done =>
              do _ <- note_progress a.(Att_file_id) (Z.min a.(Att_size) (u64 (u32 (index + 1) * CHUNK_PLAINTEXT_BYTES))) a.(Att_size);
              download_chunks n info (u32 (expected + 1)) a directory d
          end
      end
  end.

(** What is left to fetch, if anything is.
    src/client/messaging_engine.cpp 2875-2886 run_download *)
Definition download_rest (a : Attachment) (directory : bytes) (d : Decryptor) : E ((bytes + unit) * bytes * Decryptor) :=
  if negb (d.(de_next) <? d.(de_plan).(chunk_count)) then eret (inr tt, [], d) else
  do r <- relay_call (DownloadBegin a.(Att_file_id) a.(Att_token) d.(de_next));
  match r with
  | inl err => eret (inl err, [], d)
  | inr info =>
      if info.(FileInfo_chunk_count) <=? d.(de_next) then eret (inl (str "The relay sent an invalid answer"), [], d) else
      download_chunks (S (Z.to_nat (info.(FileInfo_chunk_count) - d.(de_next)))) info d.(de_next) a directory d
  end.

Definition back_to_available (job : TransferJob) (why : bytes) : E unit :=
  hist_do (fun db => set_attachment_state db job.(tj_file_id) AttachAvailable why).

(** src/client/messaging_engine.cpp 2887-2903 run_download *)
Definition download_failed (job : TransferJob) (a : Attachment) (d : Decryptor) (err sink_error : bytes) : E unit :=
  let dir := job.(tj_directory) in
  let gone state note := do _ <- abort_download dir d; hist_do (fun db => set_attachment_state db job.(tj_file_id) state note) in
  do stopping <- ask_world w.(w_stopping);
  if stopping : bool then back_to_available job (str "The download was interrupted; start it again to carry on") else
  if negb (is_empty sink_error) then
    do _ <- abort_download dir d;
    back_to_available job (str "The file could not be received intact (" ++ sink_error ++ str "); try again")
  else if mentions err "expired" then gone AttachExpired []
  else if mentions err "already downloaded" then gone AttachTransferred (str "It was already downloaded with this token, before")
  else if mentions err "No such file" then
    do now <- unix_now;
    gone (if a.(Att_expires_at) <=? now then AttachExpired else AttachWithdrawn) []
  else back_to_available job (str "Could not download it: " ++ err).

(** Every chunk opened: the whole is checked against the fingerprint, saved, and only
    then is the token used up.
    src/client/messaging_engine.cpp 2905-2918 run_download *)
Definition download_done (job : TransferJob) (a : Attachment) (address : ServerAddress) (d : Decryptor) : E unit :=
  do (lost, renamed) <- ask_world w.(w_finish);
  do (saved, _) <- in_folder job.(tj_directory) (decryptor_finish lost renamed d);
  match saved with
  | inl what => back_to_available job (str what)
  | inr target =>
      let path := path_join job.(tj_directory) target in
      do redeemed <- relay_call (RedeemFile a.(Att_file_id) a.(Att_token));
      do _ <- match redeemed with
              | inr _ => ok tt
              | inl _ => need _ <- relay_call (Connect address.(sa_host) address.(sa_port) a.(Att_relay_id));
                         relay_call (RedeemFile a.(Att_file_id) a.(Att_token))
              end;
      do _ <- hist_do (fun db => set_attachment_path db job.(tj_file_id) path);
      do _ <- hist_do (fun db => set_attachment_state db job.(tj_file_id) AttachTransferred []);
      notify (str "Saved " ++ a.(Att_name) ++ str " to " ++ path)
  end.

(** src/client/messaging_engine.cpp 2857-2918 run_download *)
Definition run_download (job : TransferJob) : E unit :=
  do a <- look (fun e => hs_attachment e.(e_history) job.(tj_file_id));
  match a with
  | None => eret tt
  | Some a =>
      if a.(Att_outgoing) || negb (a.(Att_state) =? AttachDownloading) then eret tt else
      match parse_server_address a.(Att_relay_address) with
      | None => hist_do (fun db => set_attachment_state db job.(tj_file_id) AttachUnavailable (str "The relay's address isn't valid"))
      | Some address =>
          do d <- of_exc (new_decryptor a.(Att_name) a.(Att_key) a.(Att_file_id) a.(Att_size) a.(Att_sha256));
          do answers <- ask_world w.(w_begin);
          do (begun, d) <- in_folder job.(tj_directory) (fun dir => decryptor_begin answers d dir true);
          match begun with
          | Failed what => back_to_available job (str what)
          | Done =>
              do _ <- note_progress job.(tj_file_id) (Z.min a.(Att_size) (u64 (d.(de_next) * CHUNK_PLAINTEXT_BYTES))) a.(Att_size);
              do connected <- relay_call (Connect address.(sa_host) address.(sa_port) a.(Att_relay_id));
              match connected with
              | inl err => back_to_available job (str "Could not reach the relay: " ++ err)
              | inr _ =>
                  do (r, sink_error, d) <- download_rest a job.(tj_directory) d;
                  match r with
                  | inl err => download_failed job a d err sink_error
                  | inr _ => download_done job a address d
                  end
              end
          end
      end
  end.

(** ** The transfer thread *)

(** One round: the next job, whatever goes wrong with it.
    src/client/messaging_engine.cpp 2682-2706 transfer_loop *)
Definition transfer_step : E unit :=
  do jobs <- look e_transfers;
  match jobs with
  | [] => eret tt
  | job :: jobs =>
      do _ <- change (fun e => set_transfers jobs e.(e_active) e);
      do _ <- try_catch (match job.(tj_kind) with Upload => run_upload job | Download => run_download job end)
                (fun what => match job.(tj_kind) with
                             | Download => back_to_available job (str "The download failed: " ++ str what)
                             | Upload => eret tt
                             end);
      let key := (match job.(tj_kind) with Upload => str "u:" | Download => str "d:" end) ++ bytes_to_hex job.(tj_file_id) in
      do _ <- change (fun e => set_transfers e.(e_transfers) (e.(e_active) ∖ {[key]}) e);
      do _ <- change (fun e => set_progress (delete (bytes_to_hex job.(tj_file_id)) e.(e_back).(b_progress)) e);
      bump
  end.

(** src/client/messaging_engine.cpp 2718-2725 attachment_progress *)
Definition attachment_progress (e : Engine) (file_id : bytes) : option (Z * Z) := e.(e_back).(b_progress) !! file_id.

(** ** Taking a file back, and looking after files *)

(** src/client/messaging_engine.cpp 2920-2941 withdraw_attachment *)
Definition withdraw_attachment (file_id : bytes) : E (bytes + unit) :=
  do found <- look (fun e => let? id := hex_to_bytes file_id in let? a := hs_attachment e.(e_history) id in
                             if a.(Att_outgoing) then Some (id, a) else None);
  match found with
  | None => fail (str "That isn't an attachment you sent")
  | Some (id, a) =>
      let withdraw := do _ <- hist_do (fun db => set_attachment_state db id AttachWithdrawn []); do _ <- bump; ok tt in
      if a.(Att_state) =? AttachUploading then withdraw else
      if negb (a.(Att_state) =? AttachAvailable) then fail (str "It is no longer on the relay") else
      need _ <- connect_authenticated w;
      do r <- relay_call (CancelFile id);
      match r with
      | inl err => if mentions err "isn't one of your files" then withdraw else fail err
      | inr _ => withdraw
      end
  end.

(** What the loop over the files keeps: whether one of ours is recent, whether one is
    ours, whether signing in was tried, and whether the connection is usable. *)
Record Looked := mkLooked { lk_recent : bool; lk_outgoing : bool; lk_tried : bool; lk_connected : bool }.

(** One file that is on a relay.
    src/client/messaging_engine.cpp 2946-2988 check_attachments *)
Definition check_attachment (wall : Z) (a : Attachment) (k : Looked) : E Looked :=
  let id := a.(Att_file_id) in
  if a.(Att_expires_at) <=? wall then
    do _ <- hist_do (fun db => set_attachment_state db id AttachExpired []);
    do _ <- bump;
    eret k
  else
  if negb a.(Att_outgoing) then eret k else
  let recent := k.(lk_recent) || (wall - a.(Att_created_at) <? 900) in
  do connected <- (if k.(lk_tried) then eret k.(lk_connected) else
                   do r <- connect_authenticated w; eret (match r with inr _ => true | inl _ => false end));
  if negb connected then eret (mkLooked recent true true false) else
  do r <- relay_call (AskFile id);
  match r with
  | inr status =>
      do _ <- when_ (negb (status.(FileStatus_tokens_redeemed) =? a.(Att_redeemed)))
                (do _ <- hist_do (fun db => set_attachment_redeemed db id status.(FileStatus_tokens_redeemed)); bump);
      eret (mkLooked recent true true true)
  | inl err =>
      if mentions err "isn't one of your files" then
        do _ <- hist_do (fun db => set_attachment_redeemed db id a.(Att_recipients));
        do _ <- hist_do (fun db => set_attachment_state db id AttachTransferred []);
        do _ <- bump;
        eret (mkLooked recent true true true)
      else eret (mkLooked recent true true false)
  end.

(** src/client/messaging_engine.cpp 2946-2988 check_attachments *)
Fixpoint check_each (wall : Z) (files : list Attachment) (k : Looked) : E Looked :=
  match files with
  | [] => eret k
  | a :: files => do k <- check_attachment wall a k; check_each wall files k
  end.

(** src/client/messaging_engine.cpp 2946-2988 check_attachments *)
Definition check_attachments : E unit :=
  do now <- steady_now w;
  do next <- look (fun e => e.(e_back).(b_timers).(t_check) AttachmentCheck);
  if now <? next then eret tt else
  do wall <- unix_now;
  do files <- look (fun e => attachments_in_state e.(e_history) AttachAvailable);
  do k <- check_each wall files (mkLooked false false false false);
  let fast := k.(lk_recent) || negb k.(lk_outgoing) in
  let seconds := if fast then me.(options).(attachment_status_fast_seconds) else me.(options).(attachment_status_slow_seconds) in
  change (fun e => let t := e.(e_back).(b_timers) in
    set_timers (mkTimers (fun c => if bool_decide (c = AttachmentCheck) then later now seconds else t.(t_check) c) t.(t_join) t.(t_create) t.(t_sync)) e).
End engine.
