(* ===== verification/EngineViews.v ===== *)
(** * The messaging engine: what the user sees

    The lists the interface shows: chats, messages, groups, requests, invitations,
    deliveries and deletions. Two of them tidy up on the way: [groups] notes
    whether a group is ready, [requests] drops those of people who are contacts by
    now. *)

From Stdlib Require Import ZArith Lia.
From stdpp Require Import base list strings gmap.
From S2P Require Import Prelude Wire Text Protocol RelayProtocol Crypto Prekey Envelope MessageRecord RecordPayloads IdentityBundle KeyStore Sharing Sql PrekeyVault HistoryTables HistoryStore HistoryRecords HistoryQueues RelayClient Engine EngineDeletions EngineReceive EngineSend EngineAttachments.
#[local] Open Scope Z_scope.
#[local] Open Scope wire_scope.
#[local] Open Scope engine_scope.

Section views.
Context `{P : Primitives} (me : Self).

(** src/client/messaging_engine.h 135-143 ChatSummary *)
Record ChatSummary := mkChatSummary {
  cs_name : bytes;
  cs_fp : bytes;
  cs_unread : Z;
  cs_last_activity : Z;
  cs_can_send : bool;
  cs_verified : bool;
  cs_cannot_send_reason : bytes;
}.

(** src/client/messaging_engine.cpp 408-410 chats *)
Definition cannot_send_reason (c : Contact) : bytes :=
  if negb c.(kem_verified) then str "Their encryption key isn't verified. Ask them for a new contact card."
  else if is_empty c.(co_relay_address) then str "They haven't shared a messaging address. Ask them for a new contact card."
  else if negb (size c.(co_send_token) =? 32) then str "You don't have permission to message them yet. Ask them for a new contact card."
  else [].

(** src/client/messaging_engine.cpp 400-416 chats *)
Definition chat_summary (e : Engine) (name : bytes) : option ChatSummary :=
  let? c := load_contact e.(e_keys) name in
  let '(unread, last_activity) :=
    match conversation_for e.(e_history) c.(co_fingerprint) with
    | Some conv => (unread_count e.(e_history) conv.(Conv_id), conv.(Conv_last_activity))
    | None => (0, 0)
    end in
  Some (mkChatSummary name c.(co_fingerprint) unread last_activity (can_message c) (is_verified e.(e_history) c.(co_fingerprint))
          (cannot_send_reason c)).

(** The most recent first, then by name. *)
Definition chat_before (a b : ChatSummary) : bool :=
  if a.(cs_last_activity) =? b.(cs_last_activity) then bytes_leb a.(cs_name) b.(cs_name) else b.(cs_last_activity) <? a.(cs_last_activity).

(** src/client/messaging_engine.cpp 398-422 chats *)
Definition chats (e : Engine) : list ChatSummary :=
  sort_by chat_before (omap (chat_summary e) (list_contacts e.(e_keys))).

(** src/client/messaging_engine.h 169-179 ChatMessage *)
Record ChatMessage := mkChatMessage {
  cm_row : Z;
  cm_outgoing : bool;
  cm_sent_at : Z;
  cm_text : bytes;
  cm_status : Z;
  cm_gap : bool;
  cm_deleted : bool;
  cm_attachment : option AttachmentView;
}.

(** Only texts and attachments are shown; of a deleted message, its place.
    src/client/messaging_engine.cpp 424-461 messages *)
Definition chat_message (e : Engine) (now : Z) (m : Message) : option ChatMessage :=
  let shown text attachment := Some (mkChatMessage m.(Msg_row) m.(Msg_outgoing) m.(Msg_sent_at) text m.(Msg_status) m.(Msg_gap) false attachment) in
  if m.(Msg_deleted) then Some (mkChatMessage m.(Msg_row) m.(Msg_outgoing) m.(Msg_sent_at) [] m.(Msg_status) false true None) else
  let? sr := parse_record m.(Msg_record) in
  match sr.(sr_record).(mr_type) with
  | RT_Text => shown sr.(sr_record).(mr_payload) None
  | RT_Attachment =>
      let? info := parse_attachment_payload sr.(sr_record).(mr_payload) in
      shown info.(at_caption) (Some (attachment_view e now info))
  | _ => None
  end.

(** By time, then in the order of the history. *)
Definition sent_before (sent_at row sent_at' row' : Z) : bool := if sent_at =? sent_at' then row <=? row' else sent_at <? sent_at'.

(** src/client/messaging_engine.cpp 424-461 messages *)
Definition messages (e : Engine) (now : Z) (contact_fp : bytes) (limit : Z) : list ChatMessage :=
  match conversation_for e.(e_history) contact_fp with
  | None => []
  | Some conv =>
      sort_by (fun a b => sent_before a.(cm_sent_at) a.(cm_row) b.(cm_sent_at) b.(cm_row))
        (omap (chat_message e now) (hs_messages e.(e_history) conv.(Conv_id) limit))
  end.

(** ** Groups *)

(** src/client/messaging_engine.h 226-235 GroupSummary *)
Record GroupSummary := mkGroupSummary {
  gs_id : bytes;
  gs_title : bytes;
  gs_creator_fp : bytes;
  gs_created_by_me : bool;
  gs_members : list GroupMember;
  gs_unread : Z;
  gs_last_activity : Z;
  gs_ready : bool;
}.

(** src/client/messaging_engine.cpp 878-900 groups *)
Definition group_summary (e : Engine) (conv : Conversation) : GroupSummary :=
  let members := map (fun fp => member_info e fp conv.(Conv_id)) conv.(Conv_members) in
  mkGroupSummary (bytes_to_hex conv.(Conv_id)) conv.(Conv_title) conv.(Conv_creator_fp) (bool_decide (conv.(Conv_creator_fp) = me.(my_fp_hex)))
    members (unread_count e.(e_history) conv.(Conv_id)) conv.(Conv_last_activity) (forallb gm_can_send members).

(** src/client/messaging_engine.cpp 878-900 groups *)
Fixpoint list_groups (convs : list Conversation) : E (list GroupSummary) :=
  match convs with
  | [] => eret []
  | conv :: convs =>
      do g <- look (fun e => group_summary e conv);
      let wanted := if g.(gs_ready) then Active else SettingUp in
      do _ <- (if conv.(Conv_state) =? wanted then eret tt else hist_try (fun db => set_conversation_state db conv.(Conv_id) wanted));
      do rest <- list_groups convs;
      eret (g :: rest)
  end.

(** src/client/messaging_engine.cpp 878-900 groups *)
Definition groups : E (list GroupSummary) :=
  do convs <- look (fun e => filter (fun c => c.(Conv_kind) = Group) (hs_conversations e.(e_history)));
  list_groups convs.

(** src/client/messaging_engine.h 242-255 GroupMessage *)
Record GroupMessage := mkGroupMessage {
  gmsg_id : bytes;
  gmsg_sender_fp : bytes;
  gmsg_sender_name : bytes;
  gmsg_shown : ChatMessage;
}.

(** src/client/messaging_engine.cpp 985-1028 group_messages *)
Definition group_message (e : Engine) (now : Z) (m : Message) : option GroupMessage :=
  let? shown := chat_message e now m in
  let id := bytes_to_hex m.(Msg_message_id) in
  if m.(Msg_deleted) then Some (mkGroupMessage id [] [] shown) else
  let? sr := parse_record m.(Msg_record) in
  let fp := bytes_to_hex sr.(sr_record).(mr_sender) in
  Some (mkGroupMessage id fp (if m.(Msg_outgoing) then [] else (member_info e fp []).(gm_name)) shown).

(** src/client/messaging_engine.cpp 985-1028 group_messages *)
Definition group_messages (e : Engine) (now : Z) (group_id : bytes) (limit : Z) : list GroupMessage :=
  match find_group e group_id with
  | None => []
  | Some conv =>
      sort_by (fun a b => sent_before a.(gmsg_shown).(cm_sent_at) a.(gmsg_shown).(cm_row) b.(gmsg_shown).(cm_sent_at) b.(gmsg_shown).(cm_row))
        (omap (group_message e now) (hs_messages e.(e_history) conv.(Conv_id) limit))
  end.

(** src/client/messaging_engine.cpp 1030-1037 group_delivery *)
Definition group_delivery (e : Engine) (group_id message_id : bytes) : list (bytes * bytes * Z) :=
  match hex_to_bytes group_id, hex_to_bytes message_id with
  | Some id, Some mid => map (fun d => (d.1, (member_info e d.1 []).(gm_name), d.2)) (hs_deliveries e.(e_history) id mid)
  | _, _ => []
  end.

(** src/client/messaging_engine.h 273-281 GroupInvite *)
Record InviteView := mkInviteView {
  iv_id : bytes;
  iv_title : bytes;
  iv_creator_fp : bytes;
  iv_creator_name : bytes;
  iv_members : list GroupMember;
  iv_received_at : Z;
  iv_held_messages : Z;
}.

Definition is_text (raw : bytes) : bool :=
  match parse_record raw with Some sr => bool_decide (sr.(sr_record).(mr_type) = RT_Text) | None => false end.

(** src/client/messaging_engine.cpp 1281-1302 group_invites *)
Definition group_invites (e : Engine) : list InviteView :=
  omap (fun invite =>
    let? info := invite_info invite in
    Some (mkInviteView (bytes_to_hex invite.(Invite_conversation_id)) info.(ci_title) invite.(Invite_creator_fp)
            (member_info e invite.(Invite_creator_fp) []).(gm_name)
            (map (fun m => member_info e (bytes_to_hex m) []) (filter (fun m => m <> me.(my_fp)) info.(ci_members)))
            invite.(Invite_received_at) (size (filter (fun raw => is_text raw = true) (tail invite.(Invite_records))))))
    (hs_group_invites e.(e_history)).

(** ** Requests and deletions *)

(** src/client/messaging_engine.h 190-196 Request *)
Record RequestView := mkRequestView {
  rv_sender_fp : bytes;
  rv_display_name : bytes;
  rv_received_at : Z;
  rv_message_count : Z;
  rv_first_text : bytes;
}.

(** The texts among what a stranger sent. *)
Definition texts (records : list bytes) : list bytes :=
  omap (fun raw => let? sr := parse_record raw in
                   if bool_decide (sr.(sr_record).(mr_type) = RT_Text) then Some sr.(sr_record).(mr_payload) else None) records.

(** src/client/messaging_engine.cpp 792-797 requests *)
Definition add_texts (records : list bytes) (r : RequestView) : RequestView :=
  foldl (fun r text => mkRequestView r.(rv_sender_fp) r.(rv_display_name) r.(rv_received_at) (r.(rv_message_count) + 1)
                         (if is_empty r.(rv_first_text) then text else r.(rv_first_text))) r (texts records).

(** One row joins the request of its sender, or starts one.
    src/client/messaging_engine.cpp 783-797 requests *)
Definition join_request (row : Request) (out : list RequestView) : list RequestView :=
  let fp := row.(Req_sender_fp) in
  if bool_decide (fp ∈ map rv_sender_fp out)
  then map (fun r => if bool_decide (r.(rv_sender_fp) = fp) then add_texts row.(Req_records) r else r) out
  else out ++ [add_texts row.(Req_records)
                 (mkRequestView fp (match parsed row.(Req_bundle) with Some b => b.(ib_display_name) | None => [] end) row.(Req_received_at) 0 [])].

(** src/client/messaging_engine.cpp 776-800 requests *)
Fixpoint list_requests (rows : list Request) (out : list RequestView) : E (list RequestView) :=
  match rows with
  | [] => eret out
  | row :: rows =>
      do known <- look (fun e => find_contact e row.(Req_sender_fp));
      match known with
      | Some _ => do _ <- hist_do (fun db => delete_requests db row.(Req_sender_fp)); list_requests rows out
      | None => list_requests rows (join_request row out)
      end
  end.

(** src/client/messaging_engine.cpp 776-800 requests *)
Definition requests : E (list RequestView) :=
  do rows <- look (fun e => hs_requests e.(e_history)); list_requests rows [].

(** src/client/messaging_engine.h 328-340 DeletionInfo *)
Record DeletionInfo := mkDeletionInfo {
  di_op_id : bytes;
  di_conversation_id : bytes;
  di_whole_chat : bool;
  di_entries : Z;
  di_requester_fp : bytes;
  di_requester_name : bytes;
  di_mine : bool;
  di_expires_at : Z;
  di_state : Z;
  di_accepted : Z;
  di_members : Z;
}.

(** src/client/messaging_engine.cpp 2220-2238 deletions *)
Definition deletions (e : Engine) : list DeletionInfo :=
  map (fun d =>
    let mine := bool_decide (d.(Del_requester_fp) = me.(my_fp_hex)) in
    mkDeletionInfo (bytes_to_hex d.(Del_op_id)) (bytes_to_hex d.(Del_conversation_id)) (d.(Del_scope) =? 1) (size d.(Del_entries))
      d.(Del_requester_fp) (if mine then str "You" else person_name e d.(Del_requester_fp)) mine d.(Del_expires_at) d.(Del_state)
      (size (hs_deletion_accepts e.(e_history) d.(Del_op_id)))
      (match archive_context me e d.(Del_conversation_id) with Some ctx => size ctx.(ctx_others) + 1 | None => 0 end))
    (hs_deletions e.(e_history)).
End views.
