(* ===== verification/EnginePump.v ===== *)
(** * The messaging engine: the pump

    One round of the worker thread: connect if need be, handle what the relay has
    delivered, tell it what is safely stored, then send, sync and look after
    everything else. The next event on the receiving connection, and whether that
    connection is open, are answers of the world; waiting is left out. *)

From Stdlib Require Import ZArith Lia.
From stdpp Require Import base list strings gmap.
From S2P Require Import Prelude Wire Text Protocol RelayProtocol Crypto Prekey Envelope MessageRecord RecordPayloads IdentityBundle KeyStore Sharing Sql PrekeyVault HistoryTables HistoryStore HistoryRecords HistoryQueues RelayClient Engine EngineAccount EngineDeletions EngineReceive EngineArchives EngineOutbox EngineRestore EngineSend EngineAttachments.
#[local] Open Scope Z_scope.
#[local] Open Scope wire_scope.
#[local] Open Scope engine_scope.

Section engine.
Context `{P : Primitives} (me : Self) (w : World).

Abbreviation relay_call := (relay_call w).
Abbreviation steady_now := (steady_now w).

Definition owner_connected : E bool := ask_world (w_connected w).
Definition next_event : E Event := ask_world (w_event w).

Definition change_link (f : Link -> Link) : E unit := change (fun e => set_link (f e.(e_back).(b_link)) e).

(** src/client/messaging_engine.cpp 3164-3183 try_connect_owner *)
Definition try_connect_owner : E bool :=
  do config <- look (fun e => load_mailbox_config e.(e_keys));
  match config with
  | None => eret false
  | Some _ =>
      do r <- (need _ <- connect_authenticated w; relay_call Collect);
      do now <- steady_now;
      match r with
      | inr _ =>
          do _ <- change_link (fun l => mkLink (str "Connected") true 0 l.(l_next_attempt) now);
          do _ <- bump;
          eret true
      | inl err =>
          do _ <- change_link (fun l =>
            let backoff := if l.(l_backoff) =? 0 then me.(options).(reconnect_min_seconds)
                           else Z.min (l.(l_backoff) * 2) me.(options).(reconnect_max_seconds) in
            mkLink (str "Can't reach the relay: " ++ err) l.(l_connected) backoff (now + backoff * 1000000000) l.(l_last_ping));
          eret false
      end
  end.

(** An envelope: acknowledged once it is handled and stored; the one-time prekey it
    was sealed to is then deleted.
    src/client/messaging_engine.cpp 3205-3215 pump *)
Definition pump_envelope (envelope : StoredEnvelope) : E (list bytes) :=
  try_catch
    (do handled <- process_envelope me w envelope;
     if negb handled then eret [] else
     do used <- look e_last_prekey;
     do _ <- when_ (negb (is_empty used)) (vault_do (fun v => (erase_one_time v used).1));
     eret [envelope.(StoredEnvelope_id)])
    (fun what => do _ <- notify (str "Could not process a message: " ++ str what); eret []).

(** The connection ended.
    src/client/messaging_engine.cpp 3216-3223 pump *)
Definition pump_closed (text : bytes) : E unit :=
  do now <- steady_now;
  do _ <- change_link (fun l => mkLink (str "Disconnected: " ++ text) false me.(options).(reconnect_min_seconds)
                                  (now + me.(options).(reconnect_min_seconds) * 1000000000) l.(l_last_ping));
  bump.

(** [for (int handled = 0; handled < 32; handled++)]: what is to be acknowledged.
    src/client/messaging_engine.cpp 3204-3227 pump *)
Fixpoint handle_events (rounds : nat) (event : Event) (to_ack : list bytes) : E (list bytes) :=
  match rounds with
  | O => eret to_ack
  | S rounds =>
      match event with
      | Timeout => eret to_ack
      | Closed text => do _ <- pump_closed text; eret to_ack
      | CollectEnd => do event <- next_event; handle_events rounds event to_ack
      | RelayClient.Envelope envelope =>
          do acked <- pump_envelope envelope;
          do event <- next_event;
          handle_events rounds event (to_ack ++ acked)
      end
  end.

(** Everything that is sent and looked after while the connection is open.
    src/client/messaging_engine.cpp 3239-3248 pump *)
Definition pump_chores (fuel : nat) : E unit :=
  do _ <- flush_outbox me w fuel;
  do _ <- join_pending_archives me w;
  do _ <- ensure_archives me w;
  do _ <- sync_archives me w fuel;
  do _ <- check_deletions me w;
  do _ <- check_attachments me w;
  do _ <- maintain_keyring me w;
  maintain_prekeys me w.

(** What is stored is acknowledged; then a ping if one is due, then the chores.
    src/client/messaging_engine.cpp 3228-3249 pump *)
Definition pump_connected (fuel : nat) (to_ack : list bytes) : E unit :=
  do open_ <- owner_connected;
  do _ <- (if no_items to_ack || negb open_ then eret tt else
           do r <- relay_call (Acknowledge to_ack);
           match r with inl err => set_status (str "Disconnected: " ++ err) | inr _ => eret tt end);
  do open_ <- owner_connected;
  if negb open_ then eret tt else
  do now <- steady_now;
  do last <- look (fun e => e.(e_back).(b_link).(l_last_ping));
  do _ <- (if me.(options).(ping_seconds) * 1000000000 <? now - last then
             do now <- steady_now;
             do _ <- change_link (fun l => mkLink l.(l_status) l.(l_connected) l.(l_backoff) l.(l_next_attempt) now);
             do r <- relay_call Ping;
             match r with inl err => set_status (str "Disconnected: " ++ err) | inr _ => eret tt end
           else eret tt);
  do open_ <- owner_connected;
  when_ open_ (pump_chores fuel).

(** Connect if need be; whether the receiving connection is open.
    src/client/messaging_engine.cpp 3192-3199 pump *)
Definition ensure_connected : E bool :=
  do open_ <- owner_connected;
  if open_ : bool then eret true else
  do was <- look (fun e => e.(e_back).(b_link).(l_connected));
  do _ <- change_link (fun l => mkLink l.(l_status) false l.(l_backoff) l.(l_next_attempt) l.(l_last_ping));
  do _ <- when_ was bump;
  do now <- steady_now;
  do next <- look (fun e => e.(e_back).(b_link).(l_next_attempt));
  do _ <- when_ (next <=? now) (do _ <- try_connect_owner; eret tt);
  owner_connected.

(** src/client/messaging_engine.cpp 3185-3249 pump *)
Definition pump (fuel : nat) : E unit :=
  do ready <- look is_set_up;
  if negb ready then set_status (str "Messaging is not set up") else
  do open_ <- ensure_connected;
  if negb open_ then eret tt else
  do event <- next_event;
  do to_ack <- handle_events 32 event [];
  pump_connected fuel to_ack.
End engine.
