(* ===== verification/EngineExamples.v ===== *)
(** * Two engines that write to one another

    Ada and Bob, with toy primitives, each a contact of the other; the witnesses of
    the engine's theorems run on them. *)

From Stdlib Require Import ZArith Lia.
From stdpp Require Import base list strings gmap.
From S2P Require Import Prelude Wire Text Protocol RelayProtocol Crypto Prekey Envelope Attachment MessageRecord RecordPayloads IdentityBundle KeyStore Sharing Sql PrekeyVault HistoryTables HistoryStore HistoryRecords HistoryQueues RelayClient Engine EngineAccount EngineDeletions EngineReceive EngineArchives EngineOutbox EngineRestore EngineSend EngineAttachments EngineViews EnginePump.
#[local] Open Scope Z_scope.
#[local] Open Scope engine_scope.

#[local] Existing Instance toy.
#[local] Existing Instance toy_laws.

(** A calm world: the time stands still, every file operation goes well, the [n]th
    random bytes are [n]s, and no relay hands out anything it is not asked to keep. *)
Definition example_reply (c : RelayCall) : bytes + reply c :=
  match c return bytes + reply c with
  | TakePrekey _ _ => inl (str "The mailbox has no prekeys")
  | FetchEntries _ _ | AppendEntry _ _ _ | CreateInvite | ListInvites | PrekeysHeld | PutPrekeys _ | GetKeyring
  | DownloadBegin _ _ _ | DownloadNext | AskFile _ => inl (str "Not here")
  | _ => inr tt
  end.

Definition example_world : World := {|
  w_clock := fun _ => 1000000;
  w_steady := fun _ => 5;
  w_random := fun n k => replicate (Z.to_nat k) (byte_of_Z (Z.of_nat n mod 256));
  w_relay := fun _ => example_reply;
  w_connected := fun _ => true;
  w_event := fun _ => Timeout;
  w_stopping := fun _ => false;
  w_is_file := fun _ _ => false;
  w_file_size := fun _ _ => None;
  w_file := fun _ _ => None;
  w_bad_read := fun _ => false;
  w_directory := fun _ _ => false;
  w_absolute := fun _ p => p;
  w_begin := fun _ => mkBeginAnswers false true true true true;
  w_wrote := fun _ => None;
  w_finish := fun _ => (0, true);
|}.

(** The bundle of the person with this seed. *)
Definition person_raw (seed : byte) : bytes :=
  match create_identity_bundle [] (generate_sig_keypair [seed]).1 (generate_kem_keypair [seed]).1 (str "Ada")
    (mkBundleAddress (str "relay:7000") (replicate 32 Byte.x01) (replicate 16 seed)) 5 (generate_sig_keypair [seed]).2 with
  | Ret raw => raw
  | Throw _ => []
  end.
Definition person_bundle (seed : byte) : IdentityBundle :=
  default (mkIdentityBundle 0 [] [] [] [] [] [] []) (parsed (person_raw seed)).
Definition person_fp (seed : byte) : bytes := fingerprint (generate_sig_keypair [seed]).1.

(** The key store of the person with this seed; with the other one as a contact. *)
Definition own_store (seed : byte) : KeyStore :=
  (initialize_keys [seed] [seed] (mkSalts [] [] [] []) [] [] (mkKeyStore ∅ ∅ ∅ [] [] 12)).2.
Definition person_store (seed other : byte) (name : bytes) : KeyStore :=
  let ks := (save_contact_bundle name (person_bundle other) [] (own_store seed)).2 in
  (save_contact_token name (replicate 32 Byte.x07) [] ks).2.

Definition opened (ks : KeyStore) : Self * Engine :=
  match open_engine ks NewFile None default_options [] 0 with
  | Ret r => r
  | Throw _ => (mkSelf [] [] [] [] default_options,
                mkEngine ks (empty_history []) (mkVault [] None false []) [] [] [] ∅ ∅ ∅ [] [] 0 0 [] [] ∅ (first_background default_options 0))
  end.

Lemma opened_opens ks :
  match open_engine ks NewFile None default_options [] 0 with Ret _ => true | Throw _ => false end = true ->
  open_engine ks NewFile None default_options [] 0 = Ret ((opened ks).1, (opened ks).2).
Proof. unfold opened. by destruct (open_engine _ _ _ _ _ _) as [[a b]|]. Qed.

Definition ada_self : Self := (opened (person_store Byte.x03 Byte.x04 (str "Bob"))).1.
Definition ada : Engine := (opened (person_store Byte.x03 Byte.x04 (str "Bob"))).2.
Definition bob_self : Self := (opened (person_store Byte.x04 Byte.x03 (str "Ada"))).1.
Definition bob : Engine := (opened (person_store Byte.x04 Byte.x03 (str "Ada"))).2.

(** What was put into mailboxes, in order. *)
Definition deposited (e : Engine) : list StoredEnvelope :=
  omap (fun c => match c with Deposit _ _ envelope _ => Some (mkStoredEnvelope [] 0 (sha256 (replicate 32 Byte.x07)) envelope) | _ => None end) e.(e_calls).

(** Ada writes, and her outbox is emptied. *)
Definition ada_wrote : Engine :=
  ((do _ <- send_text ada_self example_world (person_fp Byte.x04) (str "hello");
   flush_outbox ada_self example_world 5) ada).2.

(** The envelope she put into Bob's mailbox. *)
Definition from_ada : StoredEnvelope := default (mkStoredEnvelope [] 0 [] []) (head (deposited ada_wrote)).
Definition ada_and_bob : bytes := conversation_id_for bob_self.(my_fp) ada_self.(my_fp).

Lemma bob_opens : open_engine (person_store Byte.x04 Byte.x03 (str "Ada")) NewFile None default_options [] 0 = Ret (bob_self, bob).
Proof. apply opened_opens. vm_compute. reflexivity. Qed.

(** Bob before he knew anyone. *)
Definition lone_self : Self := (opened (own_store Byte.x04)).1.
Definition lone : Engine := (opened (own_store Byte.x04)).2.

Lemma lone_opens : open_engine (own_store Byte.x04) NewFile None default_options [] 0 = Ret (lone_self, lone).
Proof. apply opened_opens. vm_compute. reflexivity. Qed.

(** Her message comes to Bob as it is. *)
Example ada_reaches_bob :
  let db := (process_envelope bob_self example_world from_ada bob).2.(e_history) in
  map (fun m => (m.(Msg_outgoing), (fun sr => sr.(sr_record).(mr_payload)) <$> parse_record m.(Msg_record))) (hs_messages db ada_and_bob 10)
  = [(false, Some (str "hello"))].
Proof. vm_compute. reflexivity. Qed.
