(* ===== verification/EngineInv.v ===== *)
(** * What an operation of the engine does to the history

    [within R m]: started where the rules hold, [m] changes the history only by a
    sequence of its methods, each permitted where it is called. Every method of the
    history has an instance that names it, and the rules below follow the shape of a
    program. *)

From Stdlib Require Import ZArith Lia.
From stdpp Require Import base list strings gmap.
From S2P Require Import Prelude Wire Text Protocol RelayProtocol Crypto Prekey Envelope MessageRecord RecordPayloads IdentityBundle KeyStore Sharing Sql PrekeyVault HistoryTables HistoryStore HistoryRecords HistoryQueues HistoryInv HistoryProps Engine EngineAccount.
#[local] Open Scope Z_scope.
#[local] Open Scope engine_scope.

(** A function on the history is one of its methods. *)
Class HistOp `{P : Primitives} {A} (f : History -> exc (A * History)) (op : hist_op) :=
  hist_op_is : forall db, kept db snd (f db) = hist_step db op.
Class HistTry `{P : Primitives} (f : History -> exc History) (op : hist_op) :=
  hist_try_is : forall db, kept db (fun d => d) (f db) = hist_step db op.
Class HistDo `{P : Primitives} (f : History -> History) (op : hist_op) :=
  hist_do_is : forall db, f db = hist_step db op.

(** The methods are told apart by name, never unfolded. *)
#[export] Hint Opaque ensure_conversation create_group set_conversation_state set_receipt_settings add_message mark_all_read
  raise_delivery erase_message erase_conversation_messages add_group_invite hold_for_invite delete_group_invite save_introduced
  delete_introduced_except hs_add_archive set_archive_joined set_archive_failed add_archive_activity note_checkpoint_posted
  note_checkpoint_seen set_archive_warning set_archive_head save_archive_hashes note_peer_prekeys add_attachment
  set_attachment_state set_attachment_path set_attachment_redeemed grant_attachment drop_attachment_secrets hs_add_deletion
  set_deletion_state add_deletion_accept save_archive_message mark_archive_redacted hs_remove_archive set_verified
  save_member_token hs_enqueue update_outbox_records outbox_failed outbox_done add_request delete_requests add_issued_token
  bind_issued_token mark_token_revoked set_bundle_sent : typeclass_instances.

Section methods.
Context `{P : Primitives}.

#[export] Instance is_ensure_conversation id fp now : HistOp (fun db => ensure_conversation db id fp now) (EnsureConversation id fp now).
Proof. done. Qed.
#[export] Instance is_create_group id t c m s p l st now : HistOp (fun db => create_group db id t c m s p l st now) (CreateGroup id t c m s p l st now).
Proof. done. Qed.
#[export] Instance is_set_state id s : HistTry (fun db => set_conversation_state db id s) (SetConversationState id s).
Proof. done. Qed.
#[export] Instance is_receipt_settings id d r : HistDo (fun db => set_receipt_settings db id d r) (SetReceiptSettings id d r).
Proof. done. Qed.
#[export] Instance is_add_message n m : HistOp (fun db => add_message n db m) (AddMessage n m).
Proof. done. Qed.
#[export] Instance is_mark_all_read c : HistOp (fun db => Ret (mark_all_read db c)) (MarkAllRead c).
Proof. done. Qed.
#[export] Instance is_raise_delivery c i f s : HistOp (fun db => Ret (raise_delivery db c i f s)) (RaiseDelivery c i f s).
Proof. done. Qed.
#[export] Instance is_raise_delivery_do c i f s : HistDo (fun db => (raise_delivery db c i f s).2) (RaiseDelivery c i f s).
Proof. done. Qed.
#[export] Instance is_erase_message c i : HistDo (fun db => (erase_message db c i).2) (EraseMessage c i).
Proof. done. Qed.
#[export] Instance is_erase_conversation c : HistDo (fun db => erase_conversation_messages db c) (EraseConversationMessages c).
Proof. done. Qed.
#[export] Instance is_add_invite n c f r now : HistOp (fun db => add_group_invite n db c f r now) (AddGroupInvite n c f r now).
Proof. done. Qed.
#[export] Instance is_hold n c r : HistOp (fun db => hold_for_invite n db c r) (HoldForInvite n c r).
Proof. done. Qed.
#[export] Instance is_delete_invite c : HistDo (fun db => delete_group_invite db c) (DeleteGroupInvite c).
Proof. done. Qed.
#[export] Instance is_save_introduced f b i by_ now : HistDo (fun db => save_introduced db f b i by_ now) (SaveIntroduced f b i by_ now).
Proof. done. Qed.
#[export] Instance is_delete_introduced k : HistDo (fun db => delete_introduced_except db k) (DeleteIntroducedExcept k).
Proof. done. Qed.
#[export] Instance is_add_archive n1 n2 n3 a : HistOp (fun db => hs_add_archive n1 n2 n3 db a) (AddArchive n1 n2 n3 a).
Proof. done. Qed.
#[export] Instance is_archive_joined c : HistDo (fun db => set_archive_joined db c) (SetArchiveJoined c).
Proof. done. Qed.
#[export] Instance is_archive_failed c n : HistDo (fun db => set_archive_failed db c n) (SetArchiveFailed c n).
Proof. done. Qed.
#[export] Instance is_archive_activity c n : HistDo (fun db => add_archive_activity db c n) (AddArchiveActivity c n).
Proof. done. Qed.
#[export] Instance is_checkpoint_posted c n : HistDo (fun db => note_checkpoint_posted db c n) (NoteCheckpointPosted c n).
Proof. done. Qed.
#[export] Instance is_checkpoint_seen c n : HistDo (fun db => note_checkpoint_seen db c n) (NoteCheckpointSeen c n).
Proof. done. Qed.
#[export] Instance is_archive_warning c w : HistDo (fun db => set_archive_warning db c w) (SetArchiveWarning c w).
Proof. done. Qed.
#[export] Instance is_archive_head c n h : HistDo (fun db => set_archive_head db c n h) (SetArchiveHead c n h).
Proof. done. Qed.
#[export] Instance is_archive_hashes c l : HistDo (fun db => save_archive_hashes db c l) (SaveArchiveHashes c l).
Proof. done. Qed.
#[export] Instance is_peer_prekeys f n : HistDo (fun db => note_peer_prekeys db f n) (NotePeerPrekeys f n).
Proof. done. Qed.
#[export] Instance is_add_attachment n a : HistOp (fun db => add_attachment n db a) (AddAttachment n a).
Proof. done. Qed.
#[export] Instance is_attachment_state f s n : HistDo (fun db => set_attachment_state db f s n) (SetAttachmentState f s n).
Proof. done. Qed.
#[export] Instance is_attachment_path f p : HistDo (fun db => set_attachment_path db f p) (SetAttachmentPath f p).
Proof. done. Qed.
#[export] Instance is_attachment_redeemed f n : HistDo (fun db => set_attachment_redeemed db f n) (SetAttachmentRedeemed f n).
Proof. done. Qed.
#[export] Instance is_grant_attachment n f k t s note : HistTry (fun db => grant_attachment n db f k t s note) (GrantAttachment n f k t s note).
Proof. done. Qed.
#[export] Instance is_drop_secrets f : HistDo (fun db => drop_attachment_secrets db f) (DropAttachmentSecrets f).
Proof. done. Qed.
#[export] Instance is_add_deletion d : HistOp (fun db => Ret (hs_add_deletion db d)) (AddDeletion d).
Proof. done. Qed.
#[export] Instance is_deletion_state o s : HistDo (fun db => set_deletion_state db o s) (SetDeletionState o s).
Proof. done. Qed.
#[export] Instance is_deletion_accept o k s m : HistDo (fun db => add_deletion_accept db o k s m) (AddDeletionAccept o k s m).
Proof. done. Qed.
#[export] Instance is_archive_message c i n : HistDo (fun db => save_archive_message db c i n) (SaveArchiveMessage c i n).
Proof. done. Qed.
#[export] Instance is_redacted c n : HistDo (fun db => mark_archive_redacted db c n) (MarkArchiveRedacted c n).
Proof. done. Qed.
#[export] Instance is_remove_archive c : HistDo (fun db => hs_remove_archive db c) (RemoveArchive c).
Proof. done. Qed.
#[export] Instance is_set_verified f v now : HistDo (fun db => set_verified db f v now) (SetVerified f v now).
Proof. done. Qed.
#[export] Instance is_member_token n c f t now : HistTry (fun db => save_member_token n db c f t now) (SaveMemberToken n c f t now).
Proof. done. Qed.
#[export] Instance is_enqueue n f k i l due now : HistOp (fun db => hs_enqueue n db f k i l due now) (Enqueue n f k i l due now).
Proof. done. Qed.
#[export] Instance is_update_outbox n i l : HistTry (fun db => update_outbox_records n db i l) (UpdateOutboxRecords n i l).
Proof. done. Qed.
#[export] Instance is_outbox_failed i d : HistDo (fun db => outbox_failed db i d) (OutboxFailed i d).
Proof. done. Qed.
#[export] Instance is_outbox_done i : HistDo (fun db => outbox_done db i) (OutboxDone i).
Proof. done. Qed.
#[export] Instance is_add_request n f b l now : HistTry (fun db => add_request n db f b l now) (AddRequest n f b l now).
Proof. done. Qed.
#[export] Instance is_delete_requests f : HistDo (fun db => delete_requests db f) (DeleteRequests f).
Proof. done. Qed.
#[export] Instance is_issued_token h l b now : HistDo (fun db => add_issued_token db h l b now) (AddIssuedToken h l b now).
Proof. done. Qed.
#[export] Instance is_bind_token h f : HistDo (fun db => bind_issued_token db h f) (BindIssuedToken h f).
Proof. done. Qed.
#[export] Instance is_revoked h : HistDo (fun db => mark_token_revoked db h) (MarkTokenRevoked h).
Proof. done. Qed.
#[export] Instance is_bundle_sent f : HistDo (fun db => set_bundle_sent db f) (SetBundleSent f).
Proof. done. Qed.
End methods.

(** ** The rules *)

(** ** What the methods leave alone *)

Section frame.
Context `{P : Primitives}.

(** The methods that add to the tables an invariant is about. *)
Definition framed (op : hist_op) : bool :=
  match op with
  | AddMessage _ _ | AddRequest _ _ _ _ _ | AddGroupInvite _ _ _ _ _ | AddDeletion _ | SetDeletionState _ _ => false
  | _ => true
  end.

(** The methods that change or remove messages. *)
Definition updates (op : hist_op) : bool :=
  match op with
  | RaiseStatus _ _ _ | MarkAllRead _ | RaiseDelivery _ _ _ _ | EraseMessage _ _ | EraseConversationMessages _ => true
  | _ => false
  end.

Definition same_frame (db db' : History) : Prop :=
  db'.(h_key) = db.(h_key) /\ db'.(h_messages_seq) = db.(h_messages_seq) /\ db'.(h_deletions) = db.(h_deletions) /\
  size db'.(h_requests) <= size db.(h_requests) /\ size db'.(h_group_invites) <= size db.(h_group_invites).

#[export] Instance same_frame_refl : Reflexive same_frame.
Proof. intros db. unfold same_frame. split_and!; done || lia. Qed.

Lemma size_delete_rows {A} (Q : A -> Prop) `{HQ : !forall x, Decision (Q x)} t : size (delete_rows Q t) <= size t.
Proof. unfold size. pose proof (sublist_length _ _ (delete_rows_sublist Q t)). lia. Qed.

Lemma kept_frame {A} (db : History) (f : A -> History) (x : exc A) (T : History -> Prop) :
  T db -> (forall a, x = Ret a -> T (f a)) -> T (kept db f x).
Proof. intros H1 H2. destruct x; simpl; auto. Qed.

Lemma size_update_rows {A} (Q : A -> Prop) `{HQ : !forall x, Decision (Q x)} f t : size (update_rows Q f t) = size t.
Proof. unfold update_rows, size. by rewrite length_map. Qed.

Ltac frame_done :=
  intros ? Heq; revert Heq;
  repeat match goal with
  | |- context [exc_bind ?e _] => destruct e eqn:?; cbn [exc_bind]; try done
  end;
  intros [= <-]; first [done|unfold same_frame; simpl; rewrite ?size_update_rows; split_and!; done || lia].

Lemma raise_delivery_frame db conv id fp status : same_frame db (raise_delivery db conv id fp status).2.
Proof.
  unfold raise_delivery. destruct (negb _); [done|]. destruct (negb _); [done|].
  destruct (select_first _ _) as [d|]; [destruct (_ <? _)|]; done.
Qed.

Lemma hist_step_frame db op :
  framed op = true -> same_frame db (hist_step db op) /\ (updates op = false -> (hist_step db op).(h_messages) = db.(h_messages)).
Proof.
  destruct op; cbn [hist_step framed updates]; intros Ha; try done; clear Ha.
  - apply kept_frame; [done|]. intros [c db'] E. unfold ensure_conversation in E. destruct (select_first _ _); [|done].
    destruct (hs_conversation _ _); [|done]. by injection E as _ <-.
  - apply kept_frame; [done|]. intros [c db'] E. unfold create_group in E. revert E. do 6 (case_match; [done|]).
    destruct (check_members _ _); [|done]. simpl. destruct (hs_conversation db id); [by intros [= _ <-]|].
    destruct (insert_row _ _ _); [|done]. destruct (insert_members _ _ _ _); [|done]. simpl.
    destruct (hs_conversation _ _); [|done]. by intros [= _ <-].
  - apply kept_frame; [done|]. unfold set_conversation_state. intros db'. case_match; [done|]. by intros [= <-].
  - split; [apply raise_delivery_frame|done].
  - unfold hold_for_invite. destruct (select_first _ _) as [row|]; [|done].
    destruct (let? plain := _ in unpack plain) as [[|r0 records]|]; [done| |done].
    case_match; [done|]. case_match; [done|]. apply kept_frame; [done|frame_done].
  - unfold same_frame. split_and!; try done. apply size_delete_rows.
  - unfold hs_add_archive. apply kept_frame; [done|frame_done].
  - unfold add_attachment. apply kept_frame; [done|frame_done].
  - unfold grant_attachment. apply kept_frame; [done|frame_done].
  - unfold set_verified. by destruct verified.
  - unfold save_member_token. apply kept_frame; [done|frame_done].
  - unfold hs_enqueue. apply kept_frame; [done|frame_done].
  - unfold update_outbox_records. destruct (select_first _ _) as [row|]; [|done]. apply kept_frame; [done|frame_done].
  - unfold same_frame. split_and!; try done. apply size_delete_rows.
Qed.
(** The others, one by one. *)
Lemma add_message_frame nonce db m b db' :
  add_message nonce db m = Ret (b, db') ->
  db'.(h_key) = db.(h_key) /\ db'.(h_deletions) = db.(h_deletions) /\ db'.(h_requests) = db.(h_requests) /\ db'.(h_group_invites) = db.(h_group_invites).
Proof.
  unfold add_message. destruct (exists_row _ _); [by intros [= _ <-]|]. destruct (hs_seal _ _ _ _); [|done]. simpl.
  destruct (next_rowid _); [|done]. simpl. destruct (references _ _ _); [|done]. simpl. destruct (insert_row _ _ _); [|done].
  by intros [= _ <-].
Qed.

Lemma add_request_frame nonce db fp bundle records now db' :
  add_request nonce db fp bundle records now = Ret db' ->
  db'.(h_key) = db.(h_key) /\ db'.(h_messages_seq) = db.(h_messages_seq) /\ db'.(h_deletions) = db.(h_deletions) /\
  size db'.(h_requests) = size db.(h_requests) + 1 /\ db'.(h_group_invites) = db.(h_group_invites).
Proof.
  unfold add_request. destruct (hs_seal _ _ _ _); [|done]. simpl. destruct (next_rowid _); [|done]. simpl. intros [= <-].
  simpl. by rewrite size_app.
Qed.

Lemma add_invite_frame nonce db conv creator record now b db' :
  add_group_invite nonce db conv creator record now = Ret (b, db') ->
  db'.(h_key) = db.(h_key) /\ db'.(h_messages_seq) = db.(h_messages_seq) /\ db'.(h_deletions) = db.(h_deletions) /\
  db'.(h_requests) = db.(h_requests) /\ size db'.(h_group_invites) <= size db.(h_group_invites) + 1.
Proof.
  unfold add_group_invite. destruct (hs_seal _ _ _ _); [|done]. simpl. intros [= _ <-]. simpl. split_and!; try done.
  unfold insert_or_ignore. case_decide; [lia|]. rewrite size_app. unfold size. simpl. lia.
Qed.

(** Only [add_message] takes a new row number; the key never changes. *)
Definition adds (op : hist_op) : bool := match op with AddMessage _ _ => true | _ => false end.

Lemma hist_step_seq db op : adds op = false -> (hist_step db op).(h_messages_seq) = db.(h_messages_seq).
Proof.
  intros Ha. destruct (framed op) eqn:Ef; [by destruct (hist_step_frame db op Ef) as ((_ & -> & _) & _)|].
  destruct op; try done; simpl; apply (kept_frame _ _ _ (fun d => d.(h_messages_seq) = db.(h_messages_seq))); try done.
  - intros [b db'] E. apply add_invite_frame in E as (_ & E & _). exact E.
  - intros db' E. apply add_request_frame in E as (_ & E & _). exact E.
Qed.

(** A message stays, with its content, unless it is erased. *)
Definition stays (r : MessageRow) (db : History) : Prop :=
  exists r', r' ∈ db.(h_messages) /\ advanced r r' /\ r'.(ms_sealed) = r.(ms_sealed).

Definition erases (conv : bytes) (op : hist_op) : Prop :=
  match op with EraseMessage c _ | EraseConversationMessages c => c = conv | _ => False end.

Lemma stays_here r db : r ∈ db.(h_messages) -> stays r db.
Proof. intros Hr. by exists r. Qed.

Lemma stays_update (Q : MessageRow -> Prop) `{HQ : !forall m, Decision (Q m)} f r (db db' : History) :
  db'.(h_messages) = update_rows Q f db.(h_messages) ->
  (Q r -> advanced r (f r) /\ (f r).(ms_sealed) = r.(ms_sealed)) -> r ∈ db.(h_messages) -> stays r db'.
Proof.
  intros E Hf Hr. exists (if decide (Q r) then f r else r). rewrite E. split; [apply list_elem_of_fmap; by exists r|].
  case_decide; [by apply Hf|done].
Qed.

Lemma raise_status_stays db conv id status r : r ∈ db.(h_messages) -> stays r (raise_status db conv id status).2.
Proof.
  intros Hr. eapply stays_update; [done| |exact Hr]. intros (_ & _ & ?). unfold advanced. simpl. split_and!; auto. lia.
Qed.

Lemma raise_delivery_stays db conv id fp status r : r ∈ db.(h_messages) -> stays r (raise_delivery db conv id fp status).2.
Proof.
  intros Hr. unfold raise_delivery. destruct (negb _); [by apply stays_here|]. destruct (negb _); [by apply stays_here|].
  match goal with |- stays _ (let '(_, _) := ?e in _).2 => assert (r ∈ e.2.(h_messages)) as Hr'; [|destruct e as [ch db1]] end.
  { by destruct (select_first _ _); [case_match|]. }
  pose proof (raise_status_stays db1 conv id (lowest_delivery db1 conv id) r Hr') as Hs. by destruct (raise_status _ _ _ _).
Qed.

Lemma hist_step_stays db op r : ~ erases r.(ms_conv_id) op -> r ∈ db.(h_messages) -> stays r (hist_step db op).
Proof.
  intros He Hr. destruct (framed op && negb (updates op)) eqn:Ef.
  { apply andb_prop in Ef as [Ef Eu]. apply negb_true_iff in Eu. destruct (hist_step_frame db op Ef) as [_ Em].
    apply stays_here. by rewrite Em. }
  destruct op; try done; cbn [hist_step erases] in *.
  - apply (kept_frame _ _ _ (stays r)); [by apply stays_here|]. intros [b db'] E. unfold add_message in E. revert E.
    destruct (exists_row _ _); [by intros [= _ <-]; apply stays_here|]. destruct (hs_seal _ _ _ _); [|done]. simpl.
    destruct (next_rowid _); [|done]. simpl. destruct (references _ _ _); [|done]. simpl. destruct (insert_row _ _ _) as [t|] eqn:Ei; [|done].
    intros [= _ <-]. apply insert_row_Some in Ei as [_ ->]. apply stays_here. simpl. apply elem_of_app. by left.
  - by apply raise_status_stays.
  - eapply stays_update; [done| |exact Hr]. intros (_ & _ & ?). unfold advanced. simpl. split_and!; auto. lia.
  - by apply raise_delivery_stays.
  - eapply stays_update; [done| |exact Hr]. intros [Hk _]. injection Hk as Hk _. by destruct He.
  - apply stays_here. simpl. apply elem_of_delete_rows. split; [|done]. intros Hk. by destruct He.
  - apply stays_here. revert Hr. apply (kept_frame _ _ _ (fun d => r ∈ db.(h_messages) -> r ∈ d.(h_messages))); [done|]. intros [b db'] E. revert E.
    unfold add_group_invite. destruct (hs_seal _ _ _ _); [|done]. by intros [= _ <-].
  - by apply stays_here.
  - by apply stays_here.
  - apply stays_here. revert Hr. apply (kept_frame _ _ _ (fun d => r ∈ db.(h_messages) -> r ∈ d.(h_messages))); [done|]. intros db' E. revert E.
    unfold add_request. destruct (hs_seal _ _ _ _); [|done]. simpl. destruct (next_rowid _); [|done]. by intros [= <-].
Qed.

Lemma hist_step_key db op : (hist_step db op).(h_key) = db.(h_key).
Proof.
  destruct (framed op) eqn:Ef; [by destruct (hist_step_frame db op Ef) as ((-> & _) & _)|].
  destruct op; try done; simpl; apply (kept_frame _ _ _ (fun d => d.(h_key) = db.(h_key))); try done.
  - intros [b db'] E. apply add_message_frame in E as (E & _). exact E.
  - intros [b db'] E. apply add_invite_frame in E as (E & _). exact E.
  - intros db' E. apply add_request_frame in E as (E & _). exact E.
Qed.
End frame.

(** What is to hold of the history, and the methods that may be called on it then. *)
Record Rules `{P : Primitives} := mkRules {
  holds : History -> Prop;
  permits : History -> hist_op -> Prop;
  kept_by : forall db op, holds db -> permits db op -> holds (hist_step db op);
}.

Section within.
Context `{P : Primitives} (R : Rules).

(** Methods called one after another, each permitted where it is called. *)
Inductive moves : History -> History -> Prop :=
  | moves_refl db : moves db db
  | moves_step db op db' : R.(permits) db op -> moves (hist_step db op) db' -> moves db db'.

Definition within {A} (m : E A) : Prop := forall e, R.(holds) e.(e_history) -> moves e.(e_history) (m e).2.(e_history).

Lemma moves_trans a b c : moves a b -> moves b c -> moves a c.
Proof. induction 1; intros; [done|]. eapply moves_step; eauto. Qed.

Lemma moves_one db op : R.(permits) db op -> moves db (hist_step db op).
Proof. intros Hq. eapply moves_step; [exact Hq|constructor]. Qed.

Lemma moves_hold db db' : moves db db' -> R.(holds) db -> R.(holds) db'.
Proof. induction 1 as [|db op db' Hq Hm IH]; intros Hh; [done|]. apply IH. by apply kept_by. Qed.

(** Operations that leave the history alone. *)
Definition quiet {A} (m : E A) : Prop := forall e, (m e).2.(e_history) = e.(e_history).

Lemma within_quiet {A} (m : E A) : quiet m -> within m.
Proof. intros Hm e _. rewrite Hm. constructor. Qed.

Lemma within_bind {A B} (m : E A) (k : A -> E B) : within m -> (forall a, within (k a)) -> within (ebind m k).
Proof.
  intros Hm Hk e Hh. unfold ebind. specialize (Hm e Hh). destruct (m e) as [[a|what|] e']; simpl in *; [|done..].
  eapply moves_trans; [exact Hm|]. apply Hk. by eapply moves_hold.
Qed.

(** What an operation returns, when it does. *)
Definition returns {A} (m : E A) (T : A -> Prop) : Prop :=
  forall e, match (m e).1 with Returned a => T a | _ => True end.

Lemma within_bind_post {A B} (m : E A) (k : A -> E B) (T : A -> Prop) :
  within m -> returns m T -> (forall a, T a -> within (k a)) -> within (ebind m k).
Proof.
  intros Hm Hr Hk e Hh. unfold ebind. specialize (Hm e Hh). specialize (Hr e). destruct (m e) as [[a|what|] e']; simpl in *; [|done..].
  eapply moves_trans; [exact Hm|]. apply Hk; [done|]. by eapply moves_hold.
Qed.

Lemma returns_ret {A} (a : A) (T : A -> Prop) : T a -> returns (eret a) T.
Proof. by intros Ha e. Qed.

Lemma returns_bind {A B} (m : E A) (k : A -> E B) T : (forall a, returns (k a) T) -> returns (ebind m k) T.
Proof. intros Hk e. unfold ebind. destruct (m e) as [[a|what|] e']; simpl; [apply Hk|done..]. Qed.

Lemma returns_look {A B} (f : Engine -> A) (k : A -> E B) T :
  (forall e a, a = f e -> returns (k a) T) -> returns (ebind (look f) k) T.
Proof. intros Hk e. by apply (Hk e (f e)). Qed.

Lemma within_look {A B} (f : Engine -> A) (k : A -> E B) :
  (forall e a, R.(holds) e.(e_history) -> a = f e -> within (k a)) -> within (ebind (look f) k).
Proof. intros Hk e Hh. by apply (Hk e (f e)). Qed.

(** *** From a history that is known *)

Definition from (db : History) {A} (m : E A) : Prop := forall e, e.(e_history) = db -> R.(holds) db -> moves db (m e).2.(e_history).

Lemma within_from {A} (m : E A) : (forall db, from db m) -> within m.
Proof. intros Hm e Hh. by apply Hm. Qed.

Lemma from_within db {A} (m : E A) : within m -> from db m.
Proof. intros Hm e <- Hh. by apply Hm. Qed.

Lemma from_quiet_bind db {A B} (m : E A) (k : A -> E B) : quiet m -> (forall a, from db (k a)) -> from db (ebind m k).
Proof.
  intros Hm Hk e He Hh. unfold ebind. specialize (Hm e). destruct (m e) as [[a|what|] e']; simpl in *; subst db; rewrite ?Hm; [|constructor..].
  by apply Hk.
Qed.

Lemma from_look db {A B} (f : Engine -> A) (k : A -> E B) :
  (forall e, e.(e_history) = db -> R.(holds) db -> from db (k (f e))) -> from db (ebind (look f) k).
Proof. intros Hk e He Hh. by apply Hk. Qed.

Lemma from_hist db {A} (f : History -> exc (A * History)) op `{!HistOp f op} : (R.(holds) db -> R.(permits) db op) -> from db (hist f).
Proof.
  intros Hq e <- Hh. unfold hist. pose proof (moves_one (e_history e) op (Hq Hh)) as Hm. rewrite <- hist_op_is in Hm.
  by destruct (f (e_history e)) as [[a db]|].
Qed.

Lemma from_hist_try db f op `{Ht : !HistTry f op} : (R.(holds) db -> R.(permits) db op) -> from db (hist_try f).
Proof.
  intros Hq e <- Hh. unfold hist_try, hist. pose proof (moves_one (e_history e) op (Hq Hh)) as Hm. rewrite <- hist_try_is in Hm.
  by destruct (f (e_history e)) as [db|].
Qed.

Lemma from_bind db {A B} (m : E A) (k : A -> E B) : from db m -> (forall a, within (k a)) -> from db (ebind m k).
Proof.
  intros Hm Hk e He Hh. unfold ebind. specialize (Hm e He Hh). destruct (m e) as [[a|what|] e']; simpl in *; [|done..].
  eapply moves_trans; [exact Hm|]. apply Hk. by eapply moves_hold.
Qed.

(** A method that cannot fail: what it makes of the history is known. *)
Lemma from_hist_do db f op `{Ht : !HistDo f op} {B} (k : unit -> E B) :
  (R.(holds) db -> R.(permits) db op) -> (forall a, from (f db) (k a)) -> from db (ebind (hist_do f) k).
Proof.
  intros Hq Hk e He Hh. unfold ebind, hist_do, hist. rewrite He. pose proof (moves_one db op (Hq Hh)) as Hm.
  pose proof (kept_by R db op Hh (Hq Hh)) as Hh'. rewrite <- hist_do_is in Hm, Hh'. eapply moves_trans; [exact Hm|by apply Hk].
Qed.

(** *** The other rules *)

Lemma within_hist {A} (f : History -> exc (A * History)) op `{!HistOp f op} :
  (forall db, R.(holds) db -> R.(permits) db op) -> within (hist f).
Proof. intros Hq. apply within_from. intros db. apply (from_hist db f op), Hq. Qed.

Lemma within_hist_try f op `{Ht : !HistTry f op} : (forall db, R.(holds) db -> R.(permits) db op) -> within (hist_try f).
Proof. intros Hq. apply within_from. intros db. apply (from_hist_try db f op), Hq. Qed.

Lemma within_hist_do f op `{Ht : !HistDo f op} : (forall db, R.(holds) db -> R.(permits) db op) -> within (hist_do f).
Proof.
  intros Hq e Hh. unfold hist_do, hist. simpl. rewrite (hist_do_is (e_history e)). apply moves_one. by apply Hq.
Qed.

Lemma within_try {A} (m : E A) h : within m -> (forall what, within (h what)) -> within (try_catch m h).
Proof.
  intros Hm Hh e He. unfold try_catch. specialize (Hm e He). destruct (m e) as [[a|what|] e']; simpl in *; [done| |done].
  eapply moves_trans; [exact Hm|]. apply Hh. by eapply moves_hold.
Qed.

Lemma within_finally {A} (m : E A) f : within m -> (forall e, (f e).(e_history) = e.(e_history)) -> within (finally m f).
Proof. intros Hm Hf e Hh. unfold finally. specialize (Hm e Hh). destruct (m e) as [r e']. simpl in *. by rewrite Hf. Qed.

Lemma within_for_each {A} (l : list A) body : (forall x, x ∈ l -> within (body x)) -> within (for_each l body).
Proof.
  induction l as [|x l IH]; intros Hb; [by apply within_quiet|]. simpl. apply within_bind; [apply Hb; left|].
  intros _. apply IH. intros y Hy. apply Hb. by right.
Qed.

Lemma within_for_any {A} (l : list A) body : (forall x, x ∈ l -> within (body x)) -> within (for_any l body).
Proof.
  induction l as [|x l IH]; intros Hb; [by apply within_quiet|]. simpl. apply within_bind; [apply Hb; left|].
  intros b. apply within_bind; [apply IH; intros y Hy; apply Hb; by right|]. intros c. by apply within_quiet.
Qed.

Lemma within_any_of {A} (l : list A) body : (forall x, x ∈ l -> within (body x)) -> within (any_of l body).
Proof.
  induction l as [|x l IH]; intros Hb; [by apply within_quiet|]. simpl. apply within_bind; [apply Hb; left|].
  intros []; [by apply within_quiet|]. apply IH. intros y Hy. apply Hb. by right.
Qed.

Lemma within_when b m : (b = true -> within m) -> within (when_ b m).
Proof. intros Hm. destruct b; [by apply Hm|by apply within_quiet]. Qed.

Lemma within_or_error {A} (m : E A) : within m -> within (or_error m).
Proof. intros Hm. apply within_try; [apply within_bind; [done|]|]; intros; by apply within_quiet. Qed.

Lemma within_need {A B} (m : E (bytes + A)) (k : A -> E (bytes + B)) : within m -> (forall a, within (k a)) -> within (need_ m k).
Proof. intros Hm Hk. apply within_bind; [done|]. intros [err|a]; [by apply within_quiet|apply Hk]. Qed.
End within.

(** ** Operations that leave the history alone *)

Lemma quiet_ret {A} (a : A) : quiet (eret a).
Proof. done. Qed.
Lemma quiet_throw {A} what : quiet (ethrow (A := A) what).
Proof. done. Qed.
Lemma quiet_of_exc {A} (x : exc A) : quiet (of_exc x).
Proof. by destruct x. Qed.
Lemma quiet_look {A} (f : Engine -> A) : quiet (look f).
Proof. done. Qed.
Lemma quiet_keys {A} (m : M A) : quiet (on_keys m).
Proof. intros e. unfold on_keys. by destruct (m _ _) as [[r a] k]. Qed.
Lemma quiet_clock w : quiet (unix_now w).
Proof. done. Qed.
Lemma quiet_random w n : quiet (random_bytes w n).
Proof. done. Qed.
Lemma quiet_nonce w : quiet (nonce w).
Proof. done. Qed.
Lemma quiet_relay w c : quiet (relay_call w c).
Proof. done. Qed.
Lemma quiet_bump : quiet bump.
Proof. done. Qed.
Lemma quiet_notify line : quiet (notify line).
Proof. done. Qed.
Lemma quiet_tell key : quiet (tell_once key).
Proof. done. Qed.
Lemma quiet_fail {A} err : quiet (fail (A := A) err).
Proof. done. Qed.
Lemma quiet_ok {A} (a : A) : quiet (ok a).
Proof. done. Qed.
Lemma quiet_change f : (forall e, (f e).(e_history) = e.(e_history)) -> quiet (change f).
Proof. intros Hf e. apply Hf. Qed.
Lemma quiet_bind {A B} (m : E A) (k : A -> E B) : quiet m -> (forall a, quiet (k a)) -> quiet (ebind m k).
Proof.
  intros Hm Hk e. unfold ebind. specialize (Hm e). destruct (m e) as [[a|what|] e']; simpl in *; [|done..]. by rewrite Hk.
Qed.
Lemma quiet_or_error {A} (m : E A) : quiet m -> quiet (or_error m).
Proof. intros Hm e. unfold or_error, try_catch, ebind. specialize (Hm e). by destruct (m e) as [[a|what|] e']. Qed.
Lemma quiet_seal_random w : quiet (seal_random w).
Proof. done. Qed.
Lemma quiet_queue_transfer job : quiet (queue_transfer job).
Proof. intros e. unfold queue_transfer. case_match; [done|]. unfold change. simpl. by case_match. Qed.
Lemma quiet_sign_own `{P : Primitives} me w c i h t ty p o s : quiet (sign_own me w c i h t ty p o s).
Proof. unfold sign_own. apply quiet_bind; [apply quiet_random|]. intros. apply quiet_of_exc. Qed.

Lemma quiet_steady w : quiet (steady_now w).
Proof. done. Qed.
Lemma quiet_ask {A} (f : nat -> A) : quiet (ask_world f).
Proof. done. Qed.
Lemma quiet_status text : quiet (set_status text).
Proof. done. Qed.
Lemma quiet_unfinished {A} : quiet (unfinished (A := A)).
Proof. done. Qed.
Lemma quiet_vault_do f : quiet (vault_do f).
Proof. done. Qed.
Lemma quiet_vault_try f : quiet (vault_try f).
Proof. intros e. unfold vault_try. by case_match. Qed.
Lemma quiet_vault_run {A} (f : Vault -> Vault * exc A) : quiet (vault_run f).
Proof. intros e. unfold vault_run. by destruct (f _). Qed.

Create HintDb quiet.
#[export] Hint Resolve quiet_ret quiet_throw quiet_of_exc quiet_look quiet_keys quiet_clock quiet_random quiet_nonce quiet_relay
  quiet_bump quiet_notify quiet_tell quiet_fail quiet_ok quiet_seal_random quiet_queue_transfer quiet_sign_own
  quiet_steady quiet_ask quiet_status quiet_unfinished quiet_vault_do quiet_vault_try quiet_vault_run : quiet.
#[export] Hint Extern 1 (quiet (change _)) => (apply quiet_change; intros; reflexivity) : quiet.

(** The lemma of each operation, once proved. *)
Create HintDb within.

(** Follow the program; the side conditions [permits] are left, and what cannot be
    taken apart. *)
Ltac within_step :=
  lazymatch goal with
  | |- forall _, _ => intro
  | |- within _ (ebind (look _) _) => apply within_look; intros ? ? ? ?
  | |- within _ (ebind _ _) => apply within_bind
  | |- within _ (need_ _ _) => apply within_need
  | |- within _ (hist _) => eapply within_hist; [apply _|]
  | |- within _ (hist_try _) => eapply within_hist_try; [apply _|]
  | |- within _ (hist_do _) => eapply within_hist_do; [apply _|]
  | |- within _ (try_catch _ _) => apply within_try
  | |- within _ (or_error _) => apply within_or_error
  | |- within _ (finally _ _) => apply within_finally; [|reflexivity]
  | |- within _ (for_each _ _) => apply within_for_each; intros ? ?
  | |- within _ (for_any _ _) => apply within_for_any; intros ? ?
  | |- within _ (any_of _ _) => apply within_any_of; intros ? ?
  | |- within _ (when_ _ _) => apply within_when; intros ?
  | |- within _ (let '(_, _) := ?x in _) => destruct x eqn:?
  | |- within _ (match ?x with _ => _ end) => tryif is_var x then destruct x else destruct x eqn:?
  | |- within _ _ => solve [eauto with within] || (apply within_quiet; solve [eauto with quiet])
  end; cbv zeta.
Ltac within := repeat within_step.

Lemma within_enqueue `{P : Primitives} (R : Rules) w fp kind id records due now :
  (forall n db, R.(holds) db -> R.(permits) db (Enqueue n fp kind id records due now)) -> within R (enqueue w fp kind id records due now).
Proof. intros Hq. unfold enqueue. within. by apply Hq. Qed.

Lemma within_store_message `{P : Primitives} (R : Rules) w m :
  (forall n db, R.(holds) db -> R.(permits) db (AddMessage n m)) -> within R (store_message w m).
Proof. intros Hq. unfold store_message. within. by apply Hq. Qed.
