(* ===== verification/EngineAuth.v ===== *)
(** * Whose messages are in the history

    Every operation of the engine that adds a message which is not this user's own
    adds a record signed by the person it names, bound to this conversation, this
    message ID and a list of people that includes them both. *)

From Stdlib Require Import ZArith Lia.
From stdpp Require Import base list strings gmap.
From S2P Require Import Prelude Wire Text Protocol RelayProtocol Crypto Prekey Envelope MessageRecord RecordPayloads IdentityBundle KeyStore Sharing Sql PrekeyVault HistoryTables HistoryStore HistoryRecords HistoryQueues HistoryInv HistoryProps Engine EngineDeletions EngineReceive EngineSend EngineInv.
#[local] Open Scope Z_scope.
#[local] Open Scope engine_scope.

Section auth.
Context `{P : Primitives} (me : Self) (w : World).

(** A message that carries what its sender signed. The creation record of a group
    we joined names everyone in it; any other message was meant for this user. *)
Definition genuine (m : Message) : Prop :=
  exists sr pk everyone,
    parse_record m.(Msg_record) = Some sr /\ verify_record sr pk = true /\
    let r := sr.(sr_record) in
    m.(Msg_message_id) = r.(mr_message_id) /\
    m.(Msg_sent_at) = i64 r.(mr_sent_at) /\ m.(Msg_entry_hash) = sr.(sr_entry_hash) /\
    r.(mr_sender) ∈ everyone /\ r.(mr_recipients_hash) = recipients_hash_for everyone /\
    (r.(mr_type) = RT_Conversation \/ (m.(Msg_conversation_id) = r.(mr_conversation_id) /\ me.(my_fp) ∈ everyone)).

(** ** People and their keys *)

Lemma parse_record_raw raw sr : parse_record raw = Some sr -> sr.(sr_raw) = raw.
Proof.
  unfold parse_record. case_match; [done|]. destruct (read_blob raw 0 _) as [[body|] off]; [|by destruct (read_blob _ _ _)].
  destruct (read_blob raw off _) as [[signature|] off']; simpl; [|done]. case_match; [done|].
  destruct (parse_body body); simpl; [|done]. by intros [= <-].
Qed.

Definition key_of (fp pk : bytes) : Prop := fp = fingerprint pk.

Lemma load_contact_key ks name c : load_contact ks name = Some c -> key_of c.(co_fingerprint) c.(co_pub_dsa).
Proof.
  unfold load_contact. destruct (contact_dir name); simpl; [|done]. case_match; [done|].
  destruct (if is_empty _ then None else matching_bundle _ _ _) as [b|]; [destruct (has_mailbox b)|]; by intros [= <-].
Qed.

Lemma find_contact_key e fp c : find_contact e fp = Some c -> c.(co_fingerprint) = fp /\ key_of fp c.(co_pub_dsa).
Proof.
  unfold find_contact, find_contact_by_fingerprint. intros Hh%head_Some_elem_of.
  apply list_elem_of_filter in Hh as [Hf Hin]. apply list_elem_of_omap in Hin as (name & _ & Hl).
  apply load_contact_key in Hl. split; [done|]. by rewrite <- Hf.
Qed.

Lemma resolve_peer_key e fp conv p : resolve_peer e fp conv = Some p -> p.(p_fp) = fp /\ key_of fp p.(p_pub_dsa).
Proof.
  unfold resolve_peer.
  set (found := match find_contact e fp with Some c => Some (peer_from_contact c) | None => introduced_peer e fp end).
  assert (forall q, found = Some q -> q.(p_fp) = fp /\ key_of fp q.(p_pub_dsa)) as Hf.
  { intros q. unfold found. destruct (find_contact e fp) as [c|] eqn:Ec.
    - intros [= <-]. apply find_contact_key in Ec. done.
    - unfold introduced_peer. destruct (introduced _ fp); simpl; [|done]. destruct (parsed _) as [b|]; simpl; [|done].
      case_bool_decide as Eb; [|done]. destruct (has_mailbox b); intros [= <-]; done. }
  destruct found as [q|]; simpl; [|done]. specialize (Hf q eq_refl).
  case_match; [|by intros [= <-]]. destruct (member_token _ conv fp) as [token|]; [|by intros [= <-]].
  case_match; by intros [= <-].
Qed.

(** A record this person signed. *)
Definition signed_by (fp pk : bytes) (sr : SignedRecord) : Prop :=
  parse_record sr.(sr_raw) = Some sr /\ key_of fp pk /\ verify_record sr pk = true.

Lemma signed_by_fp fp pk sr : signed_by fp pk sr -> fp = bytes_to_hex sr.(sr_record).(mr_sender).
Proof.
  intros (_ & -> & Hv). unfold verify_record in Hv. by case_bool_decide.
Qed.

Lemma all_hex_elem fps everyone fp raw : all_hex fps = Some everyone -> fp ∈ fps -> hex_to_bytes fp = Some raw -> raw ∈ everyone.
Proof.
  revert everyone. induction fps as [|x fps IH]; intros everyone; simpl; [by intros _ ?%elem_of_nil|].
  destruct (hex_to_bytes x) as [r|] eqn:Ex; simpl; [|done]. destruct (all_hex fps) as [l|]; simpl; [|done].
  intros [= <-] [->|Hin]%elem_of_cons Hr; [rewrite Hr in Ex; injection Ex as ->; left|right; by apply IH].
Qed.

Lemma genuine_incoming sr fp pk everyone now gap :
  signed_by fp pk sr -> sr.(sr_record).(mr_sender) ∈ everyone -> me.(my_fp) ∈ everyone ->
  sr.(sr_record).(mr_recipients_hash) = recipients_hash_for everyone -> genuine (incoming_message sr now gap).
Proof. intros (Hp & _ & Hv) H1 H2 H3. exists sr, pk, everyone. simpl. split_and!; auto. Qed.
End auth.

(** ** The rules of the engine *)

Section rules.
Context `{P : Primitives} (me : Self) (consent : bytes -> Prop).

(** Between the engine's operations: no deletion is carried out in a chat where this
    user did not agree to one, and what others can make the engine keep is bounded. *)
Definition well_kept (db : History) : Prop :=
  history_ok db /\
  (forall r, r ∈ db.(h_deletions) -> r.(dn_state) = DeletionAccepted -> consent r.(dn_conv_id)) /\
  request_count db <= MAX_PENDING_REQUESTS /\ group_invite_count db <= MAX_PENDING_GROUP_INVITES.

(** What the engine may do to the history: add messages of its own and genuine ones,
    keep a request or an invitation when there is room, erase in a chat where this
    user agreed. *)
Definition allows (db : History) (op : hist_op) : Prop :=
  match op with
  | AddMessage _ m => m.(Msg_outgoing) = true \/ genuine me m
  | AddRequest _ _ _ _ _ => request_count db < MAX_PENDING_REQUESTS
  | AddGroupInvite _ _ _ _ _ => group_invite_count db < MAX_PENDING_GROUP_INVITES
  | EraseMessage conv _ | EraseConversationMessages conv => consent conv
  | AddDeletion d => d.(Del_state) = DeletionAccepted -> consent d.(Del_conversation_id)
  | SetDeletionState op_id state =>
      state = DeletionAccepted -> forall r, r ∈ db.(h_deletions) -> r.(dn_op_id) = op_id -> consent r.(dn_conv_id)
  | _ => True
  end.

Lemma well_kept_step db op : well_kept db -> allows db op -> well_kept (hist_step db op).
Proof.
  intros (Hok & Hd & Hr & Hi) Ha. split; [by apply hist_step_ok|]. clear Hok. destruct (framed op) eqn:Ef.
  { destruct (hist_step_frame db op Ef) as [(_ & _ & Ed & Er & Ei) _]. unfold request_count, group_invite_count in *. rewrite Ed. split_and!; [done|lia..]. }
  unfold request_count, group_invite_count in *.
  destruct op; try done; cbn [hist_step allows] in *.
  - apply kept_frame; [done|]. intros [b db'] E. simpl. by apply add_message_frame in E as (_ & -> & -> & ->).
  - apply kept_frame; [done|]. intros [b db'] E. simpl. apply add_invite_frame in E as (_ & _ & -> & -> & Hs).
    unfold group_invite_count in Ha. split_and!; [done..|lia].
  - split_and!; try done. simpl. intros r. unfold insert_or_ignore. case_decide; [apply Hd|].
    intros [Hin| ->%list_elem_of_singleton]%elem_of_app; [by apply Hd|]. done.
  - split_and!; try done. simpl. unfold update_rows. intros r (r0 & -> & Hin)%list_elem_of_fmap. case_decide as Hop; [|by apply Hd].
    simpl. intros Hs. by apply (Ha Hs).
  - apply kept_frame; [done|]. intros db' E. simpl. apply add_request_frame in E as (_ & _ & -> & -> & ->).
    unfold request_count in Ha. split_and!; [done|lia|done].
Qed.

Definition engine_rules : Rules := mkRules _ well_kept allows well_kept_step.

(** A deletion this user accepted is one in a chat where they agreed. *)
Lemma accepted_consent db d :
  well_kept db -> d ∈ hs_deletions db -> d.(Del_state) = DeletionAccepted -> consent d.(Del_conversation_id).
Proof.
  intros (_ & Hd & _) Hin. unfold hs_deletions in Hin. rewrite reverse_Permutation, sort_by_perm in Hin.
  apply list_elem_of_fmap in Hin as (r & -> & Hin).
  unfold read_deletion. destruct (read_u32 _ _) as [n off]. by apply Hd.
Qed.

Lemma hs_deletion_elem db op d : hs_deletion db op = Some d -> d ∈ hs_deletions db.
Proof.
  unfold hs_deletion, hs_deletions. rewrite reverse_Permutation, sort_by_perm.
  destruct (select_first _ _) as [r|] eqn:Es; [|done]. intros [= <-]. apply select_first_Some in Es as [Hin _].
  by apply list_elem_of_fmap_2.
Qed.
End rules.


(** ** Operation by operation *)

Section steps.
Context `{P : Primitives} (me : Self) (consent : bytes -> Prop) (w : World).

Abbreviation lawful := (within (engine_rules me consent)).
Ltac lawful := within; first [exact I|discriminate|idtac].

Lemma lawful_enqueue fp kind id records due now : lawful (enqueue w fp kind id records due now).
Proof. by apply within_enqueue. Qed.
#[local] Hint Resolve lawful_enqueue : within.

Lemma lawful_own m : m.(Msg_outgoing) = true -> lawful (store_message w m).
Proof. intros Hm. apply within_store_message. intros n. by left. Qed.

Lemma lawful_theirs m : genuine me m -> lawful (store_message w m).
Proof. intros Hm. apply within_store_message. intros n. by right. Qed.

Lemma lawful_token_use h fp : lawful (note_token_use h fp).
Proof. unfold note_token_use. lawful. Qed.

Lemma lawful_archive_entry conv record id : lawful (queue_archive_entry w conv record id).
Proof. unfold queue_archive_entry. lawful. Qed.
#[local] Hint Resolve lawful_token_use lawful_archive_entry : within.

Lemma lawful_warn conv what : lawful (warn_archive conv what).
Proof. unfold warn_archive. lawful. Qed.

Lemma lawful_grant sender sr : lawful (receive_archive_grant me w sender sr).
Proof. unfold receive_archive_grant. lawful. Qed.

Lemma quiet_session a : quiet (open_archive_session w a).
Proof.
  unfold open_archive_session. destruct (negb _); [auto with quiet|]. destruct (parse_server_address _); [|auto with quiet].
  apply quiet_bind; [auto with quiet|]. intros []; auto with quiet.
Qed.
#[local] Hint Resolve quiet_session : quiet.
#[local] Hint Resolve lawful_warn lawful_grant : within.

Lemma lawful_checkpoint conv sr fp : lawful (process_checkpoint me conv sr fp).
Proof. unfold process_checkpoint. lawful. Qed.

Lemma lawful_apply_deletion d : consent d.(Del_conversation_id) -> lawful (apply_deletion_locally d).
Proof. intros Hc. unfold apply_deletion_locally. lawful; exact Hc. Qed.

Lemma lawful_submit op : lawful (try_submit_deletion w op).
Proof.
  unfold try_submit_deletion. lawful.
  match goal with H : negb _ = false |- _ => apply negb_false_iff, Z.eqb_eq in H end.
  apply lawful_apply_deletion.
  match goal with Hd : Some d = hs_deletion ?db _ |- _ => by apply (accepted_consent _ db); [|apply (hs_deletion_elem _ op)|] end.
Qed.
#[local] Hint Resolve lawful_submit : within.

Lemma lawful_deletion_request sender sr : lawful (receive_deletion_request me w sender sr).
Proof. unfold receive_deletion_request. lawful. Qed.

Lemma lawful_deletion_accept sender sr : lawful (receive_deletion_accept me w sender sr).
Proof. unfold receive_deletion_accept. lawful. Qed.
#[local] Hint Resolve lawful_deletion_request lawful_deletion_accept lawful_checkpoint : within.

Lemma lawful_receipt_to conv hash to kind ids delayed : lawful (enqueue_receipt_in me w conv hash to kind ids delayed).
Proof. unfold enqueue_receipt_in, send_receipt. lawful. Qed.
#[local] Hint Resolve lawful_receipt_to : within.

Lemma lawful_receipt fp kind ids delayed : lawful (enqueue_receipt me w fp kind ids delayed).
Proof. unfold enqueue_receipt. lawful. Qed.

Lemma lawful_apply_receipt conv from payload : lawful (apply_receipt conv from payload).
Proof. unfold apply_receipt. lawful. Qed.

Lemma lawful_attachment sr grants : lawful (note_incoming_attachment me w sr grants).
Proof. unfold note_incoming_attachment. lawful. Qed.
#[local] Hint Resolve lawful_receipt lawful_apply_receipt lawful_attachment : within.

Lemma lawful_receive sr now : (forall gap, genuine me (incoming_message sr now gap)) -> lawful (receive_message me w sr now).
Proof. intros Hg. unfold receive_message. within. by apply lawful_theirs. Qed.

Lemma lawful_member_record sender sr delayed conv pk :
  signed_by sender.(p_fp) pk sr -> lawful (handle_member_record me w sender sr delayed conv).
Proof.
  intros Hs. unfold handle_member_record.
  destruct (negb (bool_decide (p_fp sender ∈ _))) eqn:Em; [within|]. apply negb_false_iff, bool_decide_eq_true in Em.
  destruct (all_hex _) as [everyone|] eqn:Eh; [|within].
  destruct (negb (bool_decide (mr_recipients_hash _ = _))) eqn:Er; [within|]. apply negb_false_iff, bool_decide_eq_true in Er.
  assert (forall now gap, genuine me (incoming_message sr now gap)) as Hg.
  { intros now gap. eapply genuine_incoming; [exact Hs| | |exact Er]; [|left]. right.
    eapply all_hex_elem; [exact Eh|exact Em|]. rewrite (signed_by_fp _ _ _ Hs). apply hex_to_bytes_of_hex. }
  lawful; by apply lawful_receive.
Qed.
#[local] Hint Resolve lawful_member_record : within.

Lemma lawful_group_record sender sr delayed pk :
  signed_by sender.(p_fp) pk sr -> lawful (handle_group_record me w sender sr delayed).
Proof. intros Hs. unfold handle_group_record, hold_record. lawful. Qed.

Lemma lawful_record contact sr delayed pk :
  signed_by contact.(co_fingerprint) pk sr -> lawful (handle_record me w contact sr delayed).
Proof.
  intros Hs. unfold handle_record. destruct (hex_to_bytes _) as [their_fp|]; [|within].
  destruct (_ || _) eqn:Es; [within|]. apply orb_false_iff in Es as [_ Es]. apply negb_false_iff, bool_decide_eq_true in Es.
  cbv zeta. destruct (negb _); [by apply (lawful_group_record _ _ _ pk)|].
  destruct (negb (bool_decide (mr_recipients_hash _ = _))) eqn:Er; [within|]. apply negb_false_iff, bool_decide_eq_true in Er.
  assert (forall now gap, genuine me (incoming_message sr now gap)) as Hg.
  { intros now gap. eapply genuine_incoming; [exact Hs| | |exact Er]; rewrite ?Es; set_solver. }
  lawful; by apply lawful_receive.
Qed.

#[local] Hint Resolve lawful_group_record lawful_record : within.

(** There is room for an invitation that is kept. *)
Lemma lawful_keep_invite id creator_fp raw now : lawful (keep_invite w id creator_fp raw now).
Proof.
  unfold keep_invite. apply within_from. intros db. apply from_look. intros e He _. rewrite He. destruct (_ <=? _) eqn:Ec.
  - apply from_within. lawful.
  - apply from_quiet_bind; [auto with quiet|]. intros n. eapply from_hist; [apply _|]. intros _. by apply Z.leb_gt.
Qed.
#[local] Hint Resolve lawful_keep_invite : within.

Lemma lawful_invite creator sr introduced_ : lawful (receive_group_invite me w creator sr introduced_).
Proof. unfold receive_group_invite, save_introduction. lawful. Qed.
#[local] Hint Resolve lawful_invite : within.

(** *** Envelopes *)

Definition known_as (fp : bytes) (c : Contact) : Prop := c.(co_fingerprint) = fp /\ key_of fp c.(co_pub_dsa).

Lemma refresh_contact_known c bundle fp : known_as fp c -> returns (refresh_contact c bundle fp) (known_as fp).
Proof.
  intros Hc. unfold refresh_contact. destruct (speaks_for _ _) as [b|]; [|by apply returns_ret].
  apply returns_bind. intros imported. destruct (bi_result imported); try by apply returns_ret.
  apply returns_look. intros e [c'|] Hf; [|done]. apply returns_bind. intros _. apply returns_ret.
  by apply find_contact_key with e.
Qed.

Lemma refresh_member_known m bundle fp :
  (m.(p_fp) = fp /\ key_of fp m.(p_pub_dsa)) ->
  returns (refresh_member w m bundle fp) (fun found => forall m', found = Some m' -> m'.(p_fp) = fp /\ key_of fp m'.(p_pub_dsa)).
Proof.
  intros Hm. unfold refresh_member. destruct (speaks_for _ _) as [b|]; [|apply returns_ret; by intros ? [= <-]].
  apply returns_bind. intros now. apply returns_bind. intros _. apply returns_look. intros e found Hf.
  apply returns_bind. intros _. apply returns_ret. intros m' ->. symmetry in Hf. by apply resolve_peer_key in Hf.
Qed.

(** Records as they come out of an envelope. *)
Definition as_parsed (records : list SignedRecord) : Prop := Forall (fun sr => parse_record sr.(sr_raw) = Some sr) records.

Lemma parsed_records raws : as_parsed (omap parse_record raws).
Proof.
  apply Forall_forall. intros sr (raw & _ & Hp)%list_elem_of_omap. by rewrite (parse_record_raw _ _ Hp).
Qed.

Lemma signed_in records sr fp pk :
  as_parsed records -> sr ∈ records -> key_of fp pk -> negb (verify_record sr pk) = false -> signed_by fp pk sr.
Proof.
  intros Hr Hin Hk Hv. split; [|split; [done|by apply negb_false_iff]]. unfold as_parsed in Hr. rewrite Forall_forall in Hr.
  by apply Hr.
Qed.

Lemma lawful_from_contact c bundle sender records introduced_ token_hash :
  known_as (bytes_to_hex sender) c -> as_parsed records ->
  lawful (from_contact me w c bundle sender records introduced_ token_hash).
Proof.
  intros Hc Hr. unfold from_contact. eapply within_bind_post; [|by apply refresh_contact_known|].
  { unfold refresh_contact. lawful. }
  intros c' [Hfp Hk]. lawful. eapply lawful_record, signed_in; [done..| |done]. by rewrite Hfp.
Qed.

Lemma lawful_from_member m bundle sender records token_hash :
  m.(p_fp) = bytes_to_hex sender /\ key_of (bytes_to_hex sender) m.(p_pub_dsa) -> as_parsed records ->
  lawful (from_member me w m bundle sender records token_hash).
Proof.
  intros Hm Hr. unfold from_member. eapply within_bind_post; [|by apply refresh_member_known|].
  { unfold refresh_member. lawful. }
  intros [m'|] Hk; [|lawful]. destruct (Hk m' eq_refl) as [Hfp Hkey]. lawful. eapply lawful_group_record, signed_in; [done..| |done]. by rewrite Hfp.
Qed.

Lemma lawful_from_stranger bundle sender records introduced_ token_hash :
  lawful (from_stranger w bundle sender records introduced_ token_hash).
Proof.
  unfold from_stranger. destruct (speaks_for _ _) as [b|]; [|lawful]. cbv zeta. destruct (no_items _); [lawful|].
  apply within_from. intros db. apply from_look. intros e He _. rewrite He. destruct (_ <=? _) eqn:Ec; [apply from_within; lawful|].
  apply from_quiet_bind; [auto with quiet|]. intros now. apply from_quiet_bind; [auto with quiet|]. intros n.
  apply from_bind; [|lawful]. eapply from_hist_try; [apply _|]. intros _. by apply Z.leb_gt.
Qed.

Lemma lawful_envelope envelope : lawful (process_envelope me w envelope).
Proof.
  unfold process_envelope. within. unfold process_inner. pose proof (parsed_records (Inner_records i)) as Hp.
  destruct (omap _ _) as [|first records] eqn:Er; [lawful|]. rewrite <- Er in Hp |- *. clear Er. lawful.
  - apply lawful_from_contact; [|done]. by apply find_contact_key with e0.
  - destruct (resolve_peer e1 _ []) as [q|] eqn:Eq; simpl in *; [|congruence].
    apply lawful_from_member; [|done]. destruct (for_a_group _ _); simplify_eq. by apply resolve_peer_key in Eq.
  - apply lawful_from_stranger.
Qed.

Lemma lawful_archived conv records : lawful (handle_archived_records me w conv records).
Proof.
  unfold handle_archived_records, handle_archived_record. lawful.
  all: match goal with Hp : parse_record _ = Some ?sr, Hv : negb (verify_record ?sr ?pk) = false |- _ =>
    pose proof (parse_record_raw _ _ Hp) as Hraw; rewrite <- Hraw in Hp; apply negb_false_iff in Hv end.
  all: match goal with H : Some _ = resolve_peer _ _ _ |- _ =>
    symmetry in H; apply resolve_peer_key in H as [Hfp Hk] end.
  all: try match goal with H : Some _ = find_contact _ _ |- _ => symmetry in H; apply find_contact_key in H as [Hc _] end.
  all: first [eapply lawful_record; rewrite Hc|eapply lawful_group_record; rewrite Hfp]; by split_and!.
Qed.

(** *** What this user does *)

Lemma quiet_sign_and_parse c i h n t p o s what : quiet (sign_and_parse me w c i h n t p o s what).
Proof.
  unfold sign_and_parse. apply quiet_bind; [|intros [|raw]; [|destruct (parse_record raw)]; auto with quiet].
  apply quiet_or_error, quiet_bind; auto with quiet.
Qed.
#[local] Hint Resolve quiet_sign_and_parse : quiet.
#[local] Hint Resolve lawful_archived lawful_own : within.

Lemma lawful_send_text fp text : lawful (send_text me w fp text).
Proof. unfold send_text. lawful; by apply lawful_own. Qed.

Lemma lawful_mark_read fp : lawful (mark_read me w fp).
Proof. unfold mark_read. lawful. Qed.

Lemma lawful_set_receipts fp d r : lawful (set_receipts me w fp d r).
Proof. unfold set_receipts. lawful. Qed.

Lemma lawful_accept_request fp name : lawful (accept_request me w fp name).
Proof.
  unfold accept_request, deliver_held. lawful.
  all: match goal with Hp : parse_record ?raw = Some ?sr |- _ => pose proof (parse_record_raw _ _ Hp) as Hraw; rewrite <- Hraw in Hp end.
  eapply lawful_record. split; [done|]. split; [|by apply negb_false_iff]. eapply load_contact_key. done.
Qed.

Lemma lawful_create_group title fps : lawful (engine_create_group me w title fps).
Proof. unfold engine_create_group. lawful. Qed.

Lemma lawful_send_group_text id text : lawful (send_group_text me w id text).
Proof. unfold send_group_text. lawful. Qed.

Lemma lawful_mark_group_read id : lawful (mark_group_read me w id).
Proof. unfold mark_group_read. lawful. Qed.

(** A creation record whose signature the creator's key verifies. *)
Lemma creation_genuine sr info pk id now :
  parse_record sr.(sr_raw) = Some sr -> conversation_from_record sr = Some info -> verify_record sr pk = true ->
  genuine me (mkMessage 0 id sr.(sr_record).(mr_message_id) false (i64 sr.(sr_record).(mr_sent_at)) now 1 false
                sr.(sr_entry_hash) sr.(sr_raw) false).
Proof.
  intros Hp Hi Hv. unfold conversation_from_record in Hi.
  destruct (bool_decide (mr_type _ = _)) eqn:Et; simpl in Hi; [|done]. destruct (parse_conversation_payload _) as [i|]; simpl in Hi; [|done].
  destruct (bool_decide (_ ∈ _)) eqn:Em; simpl in Hi; [|done]. destruct (bool_decide (mr_recipients_hash _ = _)) eqn:Er; simpl in Hi; [|done].
  rewrite bool_decide_eq_true in Et, Em, Er. exists sr, pk, (ci_members i). simpl. split_and!; auto.
Qed.

Lemma lawful_accept_invite id : lawful (accept_group_invite me w id).
Proof.
  unfold accept_group_invite, prune_introduced, queue_group_grants, release_held. lawful.
  - apply lawful_theirs. destruct (head _) as [raw|]; simpl in *; [|done]. destruct (parse_record raw) as [sr|] eqn:Ep; simpl in *; [|done].
    destruct (conversation_from_record sr) as [info|] eqn:Ei; simpl in *; [|done]. destruct (verify_record sr _) eqn:Ev; simplify_eq.
    eapply creation_genuine; [|done..]. by rewrite (parse_record_raw _ _ Ep).
  - match goal with H : Some ?p = resolve_peer _ _ _ |- _ => symmetry in H; apply resolve_peer_key in H as [Hfp Hk] end.
    match goal with H : parse_record _ = Some _ |- _ => rewrite <- (parse_record_raw _ _ H) in H end.
    eapply lawful_group_record. rewrite Hfp. split_and!; [done..|]. by apply negb_false_iff.
Qed.

(** This user asks for a deletion, or agrees to one. *)
Lemma lawful_start_deletion conv scope entries : consent conv -> lawful (start_deletion me w conv scope entries).
Proof. intros Hc. unfold start_deletion, already_asked. lawful. intros _. exact Hc. Qed.

Lemma from_accept_deletion db op :
  (forall o d, hex_to_bytes op = Some o -> hs_deletion db o = Some d -> consent d.(Del_conversation_id)) ->
  from (engine_rules me consent) db (accept_deletion me w op).
Proof.
  intros Hc. unfold accept_deletion. apply from_look. intros e He Hh. rewrite He.
  destruct (hex_to_bytes op) as [o|] eqn:Eo; simpl; [|apply from_within; lawful].
  destruct (hs_deletion db o) as [d|] eqn:Ed; [|apply from_within; lawful]. specialize (Hc o d eq_refl Ed).
  destruct (negb _); [apply from_within; lawful|]. apply from_quiet_bind; [auto with quiet|]. intros now0.
  destruct (_ <=? _); [apply from_within; lawful|]. cbv zeta. apply from_look. intros e1 He1 _. apply from_look. intros e2 He2 _.
  destruct (hs_archive _ _) as [a|]; [|apply from_within; lawful]. destruct (archive_context _ _ _) as [ctx|]; [|apply from_within; lawful].
  destruct (negb _); [apply from_within; lawful|]. do 2 (apply from_quiet_bind; [auto with quiet|]; intros ?).
  apply from_quiet_bind; [apply quiet_or_error; repeat (apply quiet_bind; [auto with quiet|intros ?]); auto with quiet|].
  intros [err|[signature accept_raw]]; [apply from_within; lawful|].
  eapply from_hist_do; [apply _|by intros|]. intros _. eapply from_hist_do; [apply _| |intros _; apply from_within; lawful].
  intros _ _ r Hr Hop. destruct Hh as (Hok & _). unfold hs_deletion in Ed.
  destruct (select_first _ _) as [r0|] eqn:Es; [|done]. injection Ed as <-. apply select_first_Some in Es as [Hin _].
  revert Hc Hop. unfold read_deletion. destruct (read_u32 _ _) as [n off]. simpl. intros Hc Hop.
  by rewrite (unique_key_inj dn_op_id _ r r0 (ok_deletions _ Hok) Hr Hin Hop).
Qed.
End steps.
