(* ===== verification/EngineLawful.v ===== *)
(** * Whose messages are in the history, for the rest of the engine

    The operations of [EngineAuth] and these are all the engine has: archives, the
    outbox, restoring, attachments, the account, the views and the pump. *)

From Stdlib Require Import ZArith Lia.
From stdpp Require Import base list strings gmap.
From S2P Require Import Prelude Wire Text Protocol RelayProtocol Crypto Prekey Envelope Attachment MessageRecord RecordPayloads IdentityBundle KeyStore Sharing Sql PrekeyVault HistoryTables HistoryStore HistoryRecords HistoryQueues HistoryInv HistoryProps RelayClient Engine EngineAccount EngineDeletions EngineReceive EngineArchives EngineOutbox EngineRestore EngineSend EngineAttachments EngineViews EnginePump EngineInv EngineAuth.
#[local] Open Scope Z_scope.
#[local] Open Scope engine_scope.

Section lawful.
Context `{P : Primitives} (me : Self) (consent : bytes -> Prop) (w : World).

Abbreviation lawful := (within (engine_rules me consent)).
Ltac lawful := within; first [exact I|discriminate|idtac].

#[local] Hint Resolve lawful_enqueue lawful_token_use lawful_archive_entry lawful_warn lawful_grant lawful_checkpoint
  lawful_submit lawful_attachment lawful_archived lawful_own lawful_envelope : within.
#[local] Hint Resolve quiet_session : quiet.

(** ** The account *)

Lemma lawful_connect : lawful (connect_authenticated w).
Proof. unfold connect_authenticated. lawful. Qed.
#[local] Hint Resolve lawful_connect : within.

Lemma lawful_due c n : lawful (due w c n).
Proof. unfold due. lawful. Qed.
#[local] Hint Resolve lawful_due : within.

Lemma lawful_setup invite : lawful (setup w invite).
Proof. unfold setup. lawful. Qed.

Lemma lawful_card label : lawful (make_card w label).
Proof. unfold make_card. lawful. Qed.

Lemma lawful_revoke hash : lawful (engine_revoke_token w hash).
Proof. unfold engine_revoke_token. lawful. Qed.

Lemma lawful_revoke_all tokens n : lawful (revoke_all w tokens n).
Proof. revert n. induction tokens as [|t tokens IH]; intros n; simpl; lawful; apply IH. Qed.
#[local] Hint Resolve lawful_revoke_all : within.

Lemma lawful_revoke_for fp : lawful (revoke_tokens_for w fp).
Proof. unfold revoke_tokens_for. lawful. Qed.

Lemma lawful_add_prekey last wall : lawful (add_prekey me w last wall).
Proof. unfold add_prekey. lawful. Qed.
#[local] Hint Resolve lawful_add_prekey : within.

Lemma lawful_upload_prekeys batches replace generation wall status : lawful (upload_prekeys w batches replace generation wall status).
Proof. revert replace status. induction batches as [|b batches IH]; intros replace status; simpl; lawful; apply IH. Qed.
#[local] Hint Resolve lawful_upload_prekeys : within.

Lemma lawful_prekeys : lawful (maintain_prekeys me w).
Proof. unfold maintain_prekeys, replace_pool, top_up_pool, add_prekeys. lawful. Qed.

(** ** Archives *)

Lemma lawful_archive_grants id hash address relay key now people : lawful (queue_archive_grants me w id hash address relay key now people).
Proof. induction people as [|[fp token] people IH]; simpl; lawful; apply IH. Qed.

Lemma lawful_fresh_tokens people : lawful (fresh_tokens w people).
Proof. induction people as [|fp people IH]; simpl; lawful; apply IH. Qed.
#[local] Hint Resolve lawful_archive_grants lawful_fresh_tokens : within.

Lemma lawful_create_archive id : lawful (engine_create_archive me w id).
Proof. unfold engine_create_archive, queue_creation_record. lawful. Qed.
#[local] Hint Resolve lawful_create_archive : within.

Lemma lawful_join_all : lawful (join_pending_archives me w).
Proof. unfold join_pending_archives, join_archive_of, set_join_retry. lawful. Qed.

Lemma lawful_take_entries a entries : lawful (take_entries a entries).
Proof. induction entries as [|x entries IH]; simpl; unfold take_entry; lawful; apply IH. Qed.
#[local] Hint Resolve lawful_take_entries : within.

Lemma lawful_catch_up fuel a head fresh : lawful (archive_catch_up w fuel a head fresh).
Proof. revert head fresh. induction fuel as [|fuel IH]; intros head fresh; simpl; unfold take_page; lawful; apply IH. Qed.
#[local] Hint Resolve lawful_catch_up : within.

Lemma lawful_sync fuel id : lawful (archive_sync w fuel id).
Proof. unfold archive_sync. lawful. Qed.

Lemma lawful_attempts attempts fuel a head others record : lawful (append_attempts w attempts fuel a head others record).
Proof. revert head others. induction attempts as [|n IH]; intros head others; simpl; unfold appended; lawful; apply IH. Qed.
#[local] Hint Resolve lawful_sync lawful_attempts : within.

Lemma lawful_archive_item fuel item now : lawful (flush_archive_item me w fuel item now).
Proof. unfold flush_archive_item, archive_append. lawful. Qed.

Lemma lawful_ensure : lawful (ensure_archives me w).
Proof. unfold ensure_archives, ensure_archive, set_create_retry. lawful. Qed.

Lemma lawful_sync_all fuel : lawful (sync_archives me w fuel).
Proof. unfold sync_archives, sync_one_archive, set_next_sync, maybe_post_checkpoint. lawful. Qed.

Lemma lawful_all_redacted conv entries : lawful (all_redacted w conv entries).
Proof. induction entries as [|h entries IH]; simpl; lawful; apply IH. Qed.
#[local] Hint Resolve lawful_archive_item lawful_all_redacted : within.

Lemma lawful_check_deletions : lawful (check_deletions me w).
Proof.
  unfold check_deletions, check_deletion. lawful.
  all: match goal with Hd : ?x ∈ ?l, Hl : ?l = hs_deletions ?db |- within _ (apply_deletion_locally ?x) =>
    rewrite Hl in Hd; apply lawful_apply_deletion, (accepted_consent _ db); [done..|] end.
  all: match goal with H : negb _ = false |- _ => by apply negb_false_iff, Z.eqb_eq in H end.
Qed.

(** ** The outbox *)

Lemma lawful_grant_each conv title hash now targets forwards : lawful (grant_each me w conv title hash now targets forwards).
Proof. revert forwards. induction targets as [|t targets IH]; intros forwards; simpl; unfold sealed_grant; lawful; apply IH. Qed.
#[local] Hint Resolve lawful_grant_each : within.

Lemma lawful_flush fuel : lawful (flush_outbox me w fuel).
Proof.
  unfold flush_outbox, flush_item, relay_item, envelope_item, expand_grants, build_grant_forwards, add_first_grant, deposit_item,
    take_one_time, item_sent, retry_item, try_later, finish_item. lawful.
Qed.

(** ** Restoring *)

Lemma lawful_store_keyring plain : lawful (store_keyring w plain).
Proof. unfold store_keyring. lawful. Qed.
#[local] Hint Resolve lawful_store_keyring : within.

Lemma lawful_save_keyring : lawful (save_keyring w).
Proof. unfold save_keyring. lawful. Qed.

Lemma lawful_keyring : lawful (maintain_keyring me w).
Proof. unfold maintain_keyring. lawful. Qed.

(** A record read back by [restore_records] is one this user may have. *)
Lemma restored_allowed e conv ctx sr raw nonce :
  parse_record raw = Some sr -> archive_context me e conv = Some ctx -> sr.(sr_record).(mr_conversation_id) = conv ->
  sr.(sr_record).(mr_recipients_hash) = ctx.(ctx_recipients_hash) ->
  (exists e', restorable me e' conv ctx sr = true) ->
  forall db, allows me consent db (AddMessage nonce (restored_message me conv sr raw)).
Proof.
  intros Hp Hctx Hc Hr [e' Hv] db. unfold allows, restored_message. simpl. case_bool_decide as Hmine; [by left|right].
  unfold restorable in Hv. rewrite bool_decide_eq_false_2 in Hv by done. apply andb_prop in Hv as [Ho Hv].
  apply bool_decide_eq_true in Ho. destruct (resolve_peer e' _ conv) as [peer|]; [|done].
  unfold archive_context in Hctx. destruct (hs_conversation _ conv) as [c|]; simpl in Hctx; [|done].
  destruct (all_hex _) as [everyone|] eqn:Eh; simpl in Hctx; [|done].
  exists sr, (p_pub_dsa peer), (my_fp me :: everyone). simpl. split_and!; try done.
  - right. assert (bytes_to_hex (mr_sender (sr_record sr)) ∈ Conv_members c) as Hin.
    { destruct (Conv_kind c =? Direct); [destruct (Conv_members c) as [|o [|]]|]; simplify_eq; done. }
    eapply all_hex_elem; [exact Eh|exact Hin|]. apply hex_to_bytes_of_hex.
  - rewrite Hr. destruct (Conv_kind c =? Direct); [destruct (Conv_members c) as [|o [|]]|]; by simplify_eq.
  - right. split; [done|left].
Qed.

Lemma lawful_restore_record e conv ctx ar : archive_context me e conv = Some ctx -> lawful (restore_record me w conv ctx ar).
Proof.
  intros Hctx. unfold restore_record. lawful. apply within_store_message. intros n db _.
  eapply restored_allowed; [|exact Hctx|..].
  - by destruct (is_empty _).
  - match goal with H : _ || _ = false |- _ => apply orb_false_iff in H as [H _]; apply negb_false_iff in H; by apply bool_decide_eq_true in H end.
  - match goal with H : _ || _ = false |- _ => apply orb_false_iff in H as [_ H]; apply negb_false_iff in H; by apply bool_decide_eq_true in H end.
  - match goal with H : negb ?b = false, H' : ?b = restorable _ ?e' _ _ _ |- _ => exists e'; rewrite <- H'; by apply negb_false_iff end.
Qed.

Lemma lawful_restore_each e conv ctx records : archive_context me e conv = Some ctx -> lawful (restore_each me w conv ctx records).
Proof. intros Hctx. induction records as [|ar records IH]; simpl; lawful; by eapply lawful_restore_record. Qed.

Lemma lawful_restore_records conv records : lawful (restore_records me w conv records).
Proof. unfold restore_records. lawful. by eapply lawful_restore_each. Qed.
#[local] Hint Resolve lawful_restore_records : within.

Lemma lawful_restore_chat fuel report a : lawful (restore_chat me w fuel report a).
Proof. unfold restore_chat, rebuild_direct_chat, rebuild_group_chat. lawful. Qed.

Lemma lawful_restore_chats fuel report archives : lawful (restore_chats me w fuel report archives).
Proof. revert report. induction archives as [|a archives IH]; intros report; simpl; lawful; apply lawful_restore_chat. Qed.

Lemma lawful_restore_archives now archives : lawful (restore_archives w now archives).
Proof. induction archives as [|a archives IH]; simpl; lawful; apply IH. Qed.
#[local] Hint Resolve lawful_restore_chats lawful_restore_archives : within.

Lemma lawful_restore fuel : lawful (restore_from_relay me w fuel).
Proof. unfold restore_from_relay, fetch_keyring, restore_facts. lawful. Qed.

(** ** Attachments *)

Lemma lawful_file_tokens recipients : lawful (file_tokens w recipients).
Proof. induction recipients as [|fp recipients IH]; simpl; lawful; apply IH. Qed.
#[local] Hint Resolve lawful_file_tokens : within.

Lemma lawful_start_send conv recipients hash seen file caption days : lawful (start_attachment_send me w conv recipients hash seen file caption days).
Proof. unfold start_attachment_send, inspect_file, sign_attachment. lawful. Qed.
#[local] Hint Resolve lawful_start_send : within.

Lemma lawful_send_attachment fp file caption days : lawful (send_attachment me w fp file caption days).
Proof. unfold send_attachment. lawful. Qed.

Lemma lawful_send_group_attachment id file caption days : lawful (send_group_attachment me w id file caption days).
Proof. unfold send_group_attachment. lawful. Qed.

Lemma lawful_upload_chunks n i b enc path : lawful (upload_chunks w n i b enc path).
Proof. revert i. induction n as [|n IH]; intros i; simpl; unfold note_progress; lawful; apply IH. Qed.
#[local] Hint Resolve lawful_upload_chunks : within.

Lemma lawful_upload job : lawful (run_upload me w job).
Proof. unfold run_upload, upload_whole, upload_failed, upload_done, abandon, retry_upload, finish_queue_entry, note_progress. lawful. Qed.

Lemma quiet_in_folder {A} (dir : bytes) (f : Folder -> A * Decryptor * Folder) : quiet (in_folder dir f).
Proof. intros e. unfold in_folder. by destruct (f _) as [[a d] dir']. Qed.
#[local] Hint Resolve quiet_in_folder : quiet.

Lemma lawful_download_chunks n info expected a dir d : lawful (download_chunks w n info expected a dir d).
Proof. revert expected d. induction n as [|n IH]; intros expected d; simpl; unfold note_progress; lawful; apply IH. Qed.
#[local] Hint Resolve lawful_download_chunks : within.

Lemma lawful_download job : lawful (run_download w job).
Proof.
  unfold run_download, download_rest, download_failed, download_done, abort_download, back_to_available, note_progress. lawful.
Qed.

Lemma lawful_transfer : lawful (transfer_step me w).
Proof. unfold transfer_step, back_to_available. lawful; [apply lawful_upload|apply lawful_download]. Qed.

Lemma lawful_start_download id dir : lawful (download_attachment w id dir).
Proof. unfold download_attachment. lawful. Qed.

Lemma lawful_withdraw id : lawful (withdraw_attachment w id).
Proof. unfold withdraw_attachment. lawful. Qed.

Lemma lawful_check_each wall files k : lawful (check_each w wall files k).
Proof. revert k. induction files as [|a files IH]; intros k; simpl; unfold check_attachment; lawful; apply IH. Qed.
#[local] Hint Resolve lawful_check_each : within.

Lemma lawful_check_attachments : lawful (check_attachments me w).
Proof. unfold check_attachments. lawful. Qed.

(** ** The views that tidy up, and the pump *)

Lemma lawful_groups : lawful (groups me).
Proof.
  unfold groups. lawful. generalize a. intros l. clear. induction l as [|conv l IH]; simpl; lawful; apply IH.
Qed.

Lemma lawful_requests : lawful requests.
Proof.
  unfold requests. lawful. generalize (@nil RequestView). generalize a. intros l. clear. induction l as [|row l IH]; intros out; simpl; lawful; apply IH.
Qed.

#[local] Hint Resolve lawful_flush lawful_join_all lawful_ensure lawful_sync_all lawful_check_deletions lawful_check_attachments lawful_keyring
  lawful_prekeys : within.

Lemma lawful_events rounds event acks : lawful (handle_events me w rounds event acks).
Proof.
  revert event acks. induction rounds as [|n IH]; intros event acks; simpl; unfold pump_envelope, pump_closed, change_link, next_event; lawful;
    apply IH.
Qed.
#[local] Hint Resolve lawful_events : within.

Lemma lawful_pump fuel : lawful (pump me w fuel).
Proof.
  unfold pump, ensure_connected, try_connect_owner, pump_connected, pump_chores, change_link, next_event, owner_connected. lawful.
Qed.
End lawful.
