(* ===== verification/EngineInbox.v ===== *)
(** * The inbox: what this user can be shown as someone else's message

    [engine_op] has a constructor for every operation of the engine that changes its
    state; whatever operations run, in whatever world, every message in the history
    that is not this user's own is one its sender signed for this chat. *)

From Stdlib Require Import ZArith Lia.
From stdpp Require Import base list strings gmap.
From S2P Require Import Prelude Wire Text Protocol RelayProtocol Crypto Prekey Envelope Attachment MessageRecord RecordPayloads IdentityBundle KeyStore Sharing Sql PrekeyVault HistoryTables HistoryStore HistoryRecords HistoryQueues HistoryInv HistoryProps RelayClient Engine EngineAccount EngineDeletions EngineReceive EngineArchives EngineOutbox EngineRestore EngineSend EngineAttachments EngineViews EnginePump EngineExamples EngineInv EngineAuth EngineLawful.
#[local] Open Scope Z_scope.
#[local] Open Scope engine_scope.

(** ** Every operation *)

Inductive engine_op :=
  | OpPump (fuel : nat)
  | OpTransfer
  | OpEnvelope (envelope : StoredEnvelope)
  | OpArchived (conv : bytes) (records : list ArchivedRecord)
  | OpSetup (invite : RelayInvite)
  | OpCreateRelayInvite
  | OpRelayInviteStatus
  | OpCancelRelayInvite (id : bytes)
  | OpSetDisplayName (name : bytes)
  | OpTakeNotices
  | OpMakeCard (label : bytes)
  | OpRevokeToken (hash : bytes)
  | OpRevokeTokensFor (fp : bytes)
  | OpSetVerified (fp : bytes) (verified : bool)
  | OpSendText (fp text : bytes)
  | OpMarkRead (fp : bytes)
  | OpSetReceipts (fp : bytes) (delivery read : bool)
  | OpAcceptRequest (fp name : bytes)
  | OpDeclineRequest (fp : bytes)
  | OpRequests
  | OpCreateGroup (title : bytes) (fps : list bytes)
  | OpGroups
  | OpSendGroupText (id text : bytes)
  | OpMarkGroupRead (id : bytes)
  | OpSetGroupReceipts (id : bytes) (delivery read : bool)
  | OpAcceptInvite (id : bytes)
  | OpDeclineInvite (id : bytes)
  | OpCreateArchive (conv : bytes)
  | OpArchiveSync (fuel : nat) (conv : bytes)
  | OpArchiveAppend (fuel : nat) (conv record : bytes)
  | OpRequestChatDeletion (conv : bytes)
  | OpRequestMessageDeletion (conv : bytes) (ids : list bytes)
  | OpAcceptDeletion (op : bytes)
  | OpDeclineDeletion (op : bytes)
  | OpSaveKeyring
  | OpRestore (fuel : nat)
  | OpSendAttachment (fp file caption : bytes) (days : Z)
  | OpSendGroupAttachment (id file caption : bytes) (days : Z)
  | OpDownload (id dir : bytes)
  | OpWithdraw (id : bytes).

(** What an operation hands back is not looked at. *)
Definition run_only {A} (m : E A) : E unit := do _ <- m; eret tt.

Section inbox.
Context `{P : Primitives} (me : Self).

Definition perform (w : World) (op : engine_op) : E unit :=
  match op with
  | OpPump fuel => pump me w fuel
  | OpTransfer => transfer_step me w
  | OpEnvelope env => run_only (process_envelope me w env)
  | OpArchived conv records => run_only (handle_archived_records me w conv records)
  | OpSetup invite => run_only (setup w invite)
  | OpCreateRelayInvite => run_only (create_relay_invite w)
  | OpRelayInviteStatus => run_only (relay_invite_status w)
  | OpCancelRelayInvite id => run_only (cancel_relay_invite w id)
  | OpSetDisplayName name => set_display_name name
  | OpTakeNotices => run_only take_notices
  | OpMakeCard label => run_only (make_card w label)
  | OpRevokeToken hash => run_only (engine_revoke_token w hash)
  | OpRevokeTokensFor fp => run_only (revoke_tokens_for w fp)
  | OpSetVerified fp v => run_only (engine_set_verified w fp v)
  | OpSendText fp text => run_only (send_text me w fp text)
  | OpMarkRead fp => mark_read me w fp
  | OpSetReceipts fp d r => set_receipts me w fp d r
  | OpAcceptRequest fp name => run_only (accept_request me w fp name)
  | OpDeclineRequest fp => decline_request fp
  | OpRequests => run_only requests
  | OpCreateGroup title fps => run_only (engine_create_group me w title fps)
  | OpGroups => run_only (groups me)
  | OpSendGroupText id text => run_only (send_group_text me w id text)
  | OpMarkGroupRead id => mark_group_read me w id
  | OpSetGroupReceipts id d r => set_group_receipts id d r
  | OpAcceptInvite id => run_only (accept_group_invite me w id)
  | OpDeclineInvite id => decline_group_invite id
  | OpCreateArchive conv => run_only (engine_create_archive me w conv)
  | OpArchiveSync fuel conv => run_only (archive_sync w fuel conv)
  | OpArchiveAppend fuel conv record => run_only (archive_append w fuel conv record)
  | OpRequestChatDeletion conv => run_only (request_chat_deletion me w conv)
  | OpRequestMessageDeletion conv ids => run_only (request_message_deletion me w conv ids)
  | OpAcceptDeletion op => run_only (accept_deletion me w op)
  | OpDeclineDeletion op => run_only (decline_deletion op)
  | OpSaveKeyring => run_only (save_keyring w)
  | OpRestore fuel => run_only (restore_from_relay me w fuel)
  | OpSendAttachment fp file caption days => run_only (send_attachment me w fp file caption days)
  | OpSendGroupAttachment id file caption days => run_only (send_group_attachment me w id file caption days)
  | OpDownload id dir => run_only (download_attachment w id dir)
  | OpWithdraw id => run_only (withdraw_attachment w id)
  end.

(** The state after operations, each in a world of its own, whether they return,
    throw or are stopped. *)
Definition engine_run : Engine -> list (World * engine_op) -> Engine := foldl (fun e wo => (perform wo.1 wo.2 e).2).

(** The user asks for a deletion in a chat, or agrees to one. *)
Definition agrees (e : Engine) (op : engine_op) (conv : bytes) : Prop :=
  match op with
  | OpRequestChatDeletion c | OpRequestMessageDeletion c _ => hex_to_bytes c = Some conv
  | OpAcceptDeletion o => exists op_id d, hex_to_bytes o = Some op_id /\ hs_deletion e.(e_history) op_id = Some d /\ d.(Del_conversation_id) = conv
  | _ => False
  end.

(** The user did, at some point. *)
Fixpoint agreed (e : Engine) (ops : list (World * engine_op)) (conv : bytes) : Prop :=
  match ops with
  | [] => False
  | (w, op) :: ops => agrees e op conv \/ agreed (perform w op e).2 ops conv
  end.

Section perform.
Context (consent : bytes -> Prop).
Abbreviation lawful := (within (engine_rules me consent)).
Ltac lawful := within; first [exact I|discriminate|idtac].

#[local] Hint Resolve lawful_pump lawful_transfer lawful_envelope lawful_archived lawful_setup lawful_connect lawful_card lawful_revoke
  lawful_revoke_for lawful_send_text lawful_mark_read lawful_set_receipts lawful_accept_request lawful_requests lawful_create_group
  lawful_groups lawful_send_group_text lawful_mark_group_read lawful_accept_invite lawful_create_archive lawful_sync lawful_attempts
  lawful_save_keyring lawful_restore lawful_send_attachment lawful_send_group_attachment
  lawful_start_download lawful_withdraw : within.
#[local] Hint Resolve quiet_session : quiet.

Lemma moves_perform w op e :
  (forall conv, agrees e op conv -> consent conv) -> well_kept consent e.(e_history) ->
  moves (engine_rules me consent) e.(e_history) (perform w op e).2.(e_history).
Proof.
  intros Hc Hk. destruct op; cbn [perform agrees] in *;
    try (match goal with |- moves ?R _ (?m _).2.(e_history) => assert (within R m) as Hl; [|exact (Hl e Hk)] end;
      unfold run_only, create_relay_invite, relay_invite_status, cancel_relay_invite, set_display_name, take_notices,
      engine_set_verified, decline_request, set_group_receipts, decline_group_invite, prune_introduced, archive_append, decline_deletion; solve [lawful]).
  - unfold run_only, request_chat_deletion. destruct (hex_to_bytes conv) as [c|]; [|constructor].
    assert (consent c) by auto. pose proof (lawful_start_deletion me consent w c DELETE_SCOPE_CHAT [] ltac:(auto)) as Hl.
    assert (lawful (do _ <- start_deletion me w c DELETE_SCOPE_CHAT []; eret tt)) as Hl' by lawful. exact (Hl' e Hk).
  - unfold run_only, request_message_deletion. destruct (hex_to_bytes conv) as [c|]; [|constructor].
    assert (consent c) by auto. pose proof (fun entries => lawful_start_deletion me consent w c DELETE_SCOPE_ENTRIES entries ltac:(auto)) as Hl.
    match goal with |- moves ?R _ (?m _).2.(e_history) => assert (within R m) as Hl'; [|exact (Hl' e Hk)] end. lawful.
  - unfold run_only. apply (from_bind (engine_rules me consent) e.(e_history)); [|lawful|done..].
    apply from_accept_deletion. intros o d Ho Hd. apply Hc. by exists o, d.
Qed.

Lemma run_moves ops e :
  (forall conv, agreed e ops conv -> consent conv) -> well_kept consent e.(e_history) ->
  moves (engine_rules me consent) e.(e_history) (engine_run e ops).(e_history).
Proof.
  revert e. induction ops as [|[w op] ops IH]; intros e Hc Hk; [constructor|]. simpl in *.
  pose proof (moves_perform w op e ltac:(auto) Hk) as Hm. eapply moves_trans; [exact Hm|]. apply IH; [auto|].
  by eapply (moves_hold (engine_rules me consent)).
Qed.
End perform.
End inbox.

(** ** Rows and what they hold *)

Section authentic.
Context `{L : PrimitiveLaws} (me : Self).

(** What is read is what was sealed. *)
Lemma unseal_sealed nonce key p q aad sealed : hs_seal nonce key p aad = Ret sealed -> hs_unseal key sealed aad = Some q -> q = p.
Proof.
  unfold hs_seal. destruct (encrypt _ _ _ _) as [ct|] eqn:Ee; [|done]. simpl. intros [= <-] Hu.
  assert (size nonce = 12) as Hn.
  { unfold encrypt, check_aead_inputs in Ee. repeat case_match; try done. bool_prop. done. }
  apply encrypt_ret in Ee. apply hs_unseal_only in Hu. rewrite <- Hn, ztake_app, zdrop_app in Hu. subst ct.
  assert (Some q = Some p) as E; [|by injection E].
  by rewrite <- (gcm_open_seal key nonce q aad), <- Hu, gcm_open_seal.
Qed.

(** The fields of a message that say what it is. *)
Definition same_message (m m' : Message) : Prop :=
  m'.(Msg_conversation_id) = m.(Msg_conversation_id) /\ m'.(Msg_message_id) = m.(Msg_message_id) /\ m'.(Msg_outgoing) = m.(Msg_outgoing) /\
  m'.(Msg_sent_at) = m.(Msg_sent_at) /\ m'.(Msg_entry_hash) = m.(Msg_entry_hash) /\ m'.(Msg_record) = m.(Msg_record).

Lemma genuine_same m m' : same_message m m' -> genuine me m -> genuine me m'.
Proof. intros (E1 & E2 & _ & E3 & E4 & E5) Hg. unfold genuine. rewrite E1, E2, E3, E4, E5. exact Hg. Qed.

Lemma read_advanced db db' r r' m' :
  db'.(h_key) = db.(h_key) -> advanced r r' -> read_message db' r' = Some m' -> m'.(Msg_deleted) = false ->
  exists m, read_message db r = Some m /\ m.(Msg_deleted) = false /\ same_message m m'.
Proof.
  intros Hk (_ & Hkey & Ho & Hs & _ & _ & He & _ & Hsealed). unfold read_message. rewrite Hk.
  destruct (is_empty (ms_sealed r')) eqn:Es; [by intros [= <-]|]. injection Hkey as Hc Hi.
  destruct Hsealed as [Hsealed|Hsealed]; rewrite Hsealed in *; [|done]. rewrite Es, Hc, Hi.
  destruct (hs_unseal _ _ _) as [plain|]; simpl; [|done]. intros [= <-] _.
  eexists. split; [done|]. split; [done|]. unfold same_message. simpl. auto 10.
Qed.

Lemma added_row nonce db m b db' r' :
  add_message nonce db m = Ret (b, db') -> r' ∈ db'.(h_messages) ->
  r' ∈ db.(h_messages) \/ forall m', read_message db' r' = Some m' -> m'.(Msg_deleted) = false -> same_message m m'.
Proof.
  unfold add_message. destruct (exists_row _ _); [intros [= _ <-]; by left|].
  destruct (hs_seal _ _ _ _) as [sealed|] eqn:Es; [|done]. simpl. destruct (next_rowid _) as [row|]; [|done]. simpl.
  destruct (references _ _ _); [|done]. simpl. destruct (insert_row _ _ _) as [t|] eqn:Ei; [|done].
  intros [= _ <-]. apply insert_row_Some in Ei as [_ ->]. simpl.
  intros [Hm| ->%list_elem_of_singleton]%elem_of_app; [by left|right].
  intros m'. unfold read_message. simpl. destruct (is_empty sealed); [by intros [= <-]|].
  destruct (hs_unseal _ _ _) as [plain|] eqn:Eu; simpl; [|done]. intros [= <-] _.
  apply (unseal_sealed _ _ _ _ _ _ Es) in Eu as ->. unfold same_message. simpl. auto 10.
Qed.

(** ** The invariant *)

Definition authentic (db : History) : Prop :=
  forall r m, r ∈ db.(h_messages) -> read_message db r = Some m -> m.(Msg_outgoing) = false -> m.(Msg_deleted) = false -> genuine me m.

Lemma hist_step_authentic consent db op : history_ok db -> allows me consent db op -> authentic db -> authentic (hist_step db op).
Proof.
  intros Hok Ha Hauth r' m' Hin Hread Ho Hd.
  assert (forall r, r ∈ db.(h_messages) -> advanced r r' -> genuine me m') as Hold.
  { intros r Hr Hadv. destruct (read_advanced db _ r r' m' (hist_step_key db op) Hadv Hread Hd) as (m & Hm & Hdm & Hs).
    eapply genuine_same; [exact Hs|]. apply (Hauth r m); [done..| |done]. destruct Hs as (_ & _ & <- & _). done. }
  destruct (adds op) eqn:Ea.
  - destruct op as [| | | |nonce m| | | | | | | | | | | | | | | | | | | | | | | | | | | | | | | | | | | | | | | | | | | | |]; try done.
    simpl in *. destruct (add_message nonce db m) as [[b db']|] eqn:Eadd; simpl in *; [|by apply (Hold r')].
    destruct (added_row nonce db m b db' r' Eadd Hin) as [Hr|Hr]; [by apply (Hold r')|].
    specialize (Hr m' Hread Hd). destruct Ha as [Ha|Ha]; [|by eapply genuine_same].
    destruct Hr as (_ & _ & E & _). congruence.
  - pose proof (hist_step_seq db op Ea) as Hseq. destruct (hist_step_advances db op) as [_ Hadv].
    destruct (Hadv r' Hin) as (r & Hr & Hra); [|by apply (Hold r)].
    pose proof (hist_step_ok db op Hok) as [_ [_ (_ & Hrows & _) _ _ _]]. rewrite Forall_forall in Hrows.
    rewrite <- Hseq. apply Hrows. by apply list_elem_of_fmap_2.
Qed.

Lemma moves_authentic consent db db' : moves (engine_rules me consent) db db' -> well_kept consent db -> authentic db -> authentic db'.
Proof.
  induction 1 as [|db op db' Hq _ IH]; intros Hk Hauth; [done|]. apply IH; [by apply (kept_by (engine_rules me consent))|].
  apply (hist_step_authentic consent); [by destruct Hk|done..].
Qed.

Lemma elem_of_sql_limit {A} (x : A) n l : x ∈ sql_limit n l -> x ∈ l.
Proof. unfold sql_limit, ztake. case_match; [done|]. intros (i & Hi & _)%elem_of_take. by apply list_elem_of_lookup_2 in Hi. Qed.

(** The engine opened on a history that does not exist yet. *)
Lemma open_engine_new keys prekeys opts answers steady e consent :
  open_engine keys NewFile prekeys opts answers steady = Ret (me, e) ->
  well_kept consent e.(e_history) /\ authentic e.(e_history).
Proof.
  unfold open_engine. case_match; [done|]. case_match; [done|]. destruct (derive_local_key _ _) as [key|]; simpl; [|done].
  destruct (is_empty key); [done|]. unfold open_history. destruct (negb (size key =? 32)); [done|]. simpl.
  destruct (derive_local_key _ _) as [vkey|]; simpl; [|done]. destruct (open_vault _ _); simpl; [|done].
  destruct (hex_to_bytes _); [|done]. case_match; [done|]. intros [= _ <-]. simpl. split.
  - split; [apply (hist_step_ok (empty_history key) ResetDownloading), empty_history_ok|]. split; [by intros r ?%elem_of_nil|done].
  - by intros r m ?%elem_of_nil.
Qed.

(** Whatever happened, the history is in order. *)
Lemma run_well_kept keys prekeys opts answers steady e ops (consent : bytes -> Prop) :
  open_engine keys NewFile prekeys opts answers steady = Ret (me, e) ->
  (forall conv, agreed me e ops conv -> consent conv) ->
  well_kept consent (engine_run me e ops).(e_history) /\ authentic (engine_run me e ops).(e_history).
Proof.
  intros Ho Hc. destruct (open_engine_new _ _ _ _ _ _ consent Ho) as [Hk Ha].
  pose proof (run_moves me consent ops e Hc Hk) as Hm. split; [by eapply (moves_hold (engine_rules me consent))|].
  by eapply moves_authentic.
Qed.


(** C23: what others can make the engine keep is bounded: however many strangers
    write and however many invitations arrive, never more than 100 message requests
    and 50 group invitations are held, and every table of the history keeps its
    keys, references and growing row numbers. *)
Theorem pending_bounded keys prekeys opts answers steady e ops :
  open_engine keys NewFile prekeys opts answers steady = Ret (me, e) ->
  let db := (engine_run me e ops).(e_history) in
  request_count db <= 100 /\ group_invite_count db <= 50 /\ history_ok db.
Proof. intros Ho. by destruct (run_well_kept _ _ _ _ _ _ ops (fun _ => True) Ho) as [(Hok & _ & Hr & Hi) _]. Qed.

Lemma moves_stay consent db db' r :
  moves (engine_rules me consent) db db' -> ~ consent r.(ms_conv_id) -> r ∈ db.(h_messages) ->
  stays r db' /\ db'.(h_key) = db.(h_key).
Proof.
  intros Hm. revert r. induction Hm as [|db op db' Hq _ IH]; intros r Hc Hr; [split; [by apply stays_here|done]|].
  assert (~ erases r.(ms_conv_id) op) as He.
  { intros He. apply Hc. destruct op; try done; simpl in *; by subst. }
  destruct (hist_step_stays db op r He Hr) as (r1 & Hr1 & Ha1 & Hs1).
  assert (ms_conv_id r1 = ms_conv_id r) as Ec by (destruct Ha1 as (_ & Ek & _); by injection Ek).
  destruct (IH r1) as [(r2 & Hr2 & Ha2 & Hs2) Hk]; [by rewrite Ec|done|].
  rewrite (hist_step_key db op) in Hk. split; [|done]. exists r2. split; [done|]. split; [by etrans|congruence].
Qed.

(** The message's content is still the same; its status may have grown. *)
Definition still_there (m m' : Message) : Prop :=
  same_message m m' /\ m'.(Msg_deleted) = m.(Msg_deleted) /\ m'.(Msg_received_at) = m.(Msg_received_at) /\
  m'.(Msg_gap) = m.(Msg_gap) /\ m.(Msg_status) <= m'.(Msg_status).

Lemma read_still_there db db' r r' m :
  db'.(h_key) = db.(h_key) -> advanced r r' -> r'.(ms_sealed) = r.(ms_sealed) -> read_message db r = Some m ->
  exists m', read_message db' r' = Some m' /\ still_there m m'.
Proof.
  intros Hk (_ & Hkey & Ho & Hsent & Hrec & Hgap & He & Hst & _) Hs. injection Hkey as Hc Hi. unfold read_message. rewrite Hk, Hs, Hc, Hi.
  destruct (is_empty _).
  - intros [= <-]. eexists. split; [done|]. unfold still_there, same_message. simpl. auto 12.
  - destruct (hs_unseal _ _ _) as [plain|]; simpl; [|done]. intros [= <-]. eexists. split; [done|].
    unfold still_there, same_message. simpl. auto 12.
Qed.

(** C2: nothing is deleted for this user without this user. In a chat where they
    neither asked for a deletion nor agreed to one, whatever requests, acceptances,
    relay answers and expiries arrive, every message that was there is there with the
    same content, and its status has not gone down. *)
Theorem nothing_erased_unasked keys prekeys opts answers steady e ops1 ops2 conv id m :
  open_engine keys NewFile prekeys opts answers steady = Ret (me, e) ->
  ~ agreed me e (ops1 ++ ops2) conv ->
  find_message (engine_run me e ops1).(e_history) conv id = Some m ->
  exists m', find_message (engine_run me e (ops1 ++ ops2)).(e_history) conv id = Some m' /\ still_there m m'.
Proof.
  intros Ho Hn Hm.
  assert (forall c, agreed me e ops1 c -> agreed me e (ops1 ++ ops2) c) as Hpre.
  { intros c. clear. revert e. induction ops1 as [|[w op] ops IH]; intros e; simpl; [done|]. intros [Ha|Ha]; auto. }
  assert (forall c, agreed me (engine_run me e ops1) ops2 c -> agreed me e (ops1 ++ ops2) c) as Hpost.
  { intros c. clear. revert e. induction ops1 as [|[w op] ops IH]; intros e; simpl; [done|]. intros Ha. right. by apply IH. }
  destruct (run_well_kept _ _ _ _ _ _ ops1 (agreed me e (ops1 ++ ops2)) Ho Hpre) as [Hk _].
  pose proof (run_moves me _ ops2 _ Hpost Hk) as Hmoves. pose proof (moves_hold (engine_rules me _) _ _ Hmoves Hk) as (Hok' & _).
  replace (engine_run me (engine_run me e ops1) ops2) with (engine_run me e (ops1 ++ ops2)) in * by (unfold engine_run; by rewrite foldl_app).
  unfold find_message in *. destruct (select_first _ _) as [r|] eqn:Es; [|done]. simpl in Hm.
  apply select_first_Some in Es as [Hin Hkey]. assert (ms_conv_id r = conv) as Ec by (by injection Hkey).
  destruct (moves_stay _ _ _ r Hmoves) as [(r' & Hin' & Hadv & Hs) Hk']; [by rewrite Ec|done|].
  assert (ms_key r' = (conv, id)) as Hkey'. { destruct Hadv as (_ & Ek & _). congruence. }
  rewrite <- Hkey', (select_first_unique ms_key _ r' (ok_message_keys _ _ _ _ (ok_messages _ Hok')) Hin'). simpl.
  by apply (read_still_there (engine_run me e ops1).(e_history) _ r).
Qed.
End authentic.

(** ** The promises at work *)

Section examples.
#[local] Existing Instance toy.
#[local] Existing Instance toy_laws.

Definition bob_run : list (World * engine_op) := [(example_world, OpEnvelope from_ada)].


(** Bob does not know Ada yet: there is a request. *)
Lemma pending_bounded_witness :
  let db := (engine_run lone_self lone bob_run).(e_history) in
  request_count db = 1 /\ request_count db <= 100 /\ group_invite_count db <= 50 /\ history_ok db.
Proof.
  split; [vm_compute; reflexivity|].
  exact (pending_bounded lone_self (own_store Byte.x04) None default_options [] 0 lone bob_run lone_opens).
Defined.

(** After Ada's message Bob reads it, and it is still there. *)
Lemma nothing_erased_unasked_witness :
  exists m m', find_message (engine_run bob_self bob bob_run).(e_history) ada_and_bob (replicate 16 Byte.x01) = Some m /\
    find_message (engine_run bob_self bob (bob_run ++ [(example_world, OpMarkRead (person_fp Byte.x03))])).(e_history) ada_and_bob (replicate 16 Byte.x01) = Some m' /\
    still_there m m'.
Proof.
  destruct (find_message (engine_run bob_self bob bob_run).(e_history) ada_and_bob (replicate 16 Byte.x01)) as [m|] eqn:E; [|vm_compute in E; done].
  destruct (nothing_erased_unasked bob_self (person_store Byte.x04 Byte.x03 (str "Ada")) None default_options [] 0 bob bob_run
    [(example_world, OpMarkRead (person_fp Byte.x03))] ada_and_bob (replicate 16 Byte.x01) m bob_opens) as (m' & Hm' & Hs).
  - by intros [[]|[[]|[]]].
  - exact E.
  - exists m, m'. split; [exact eq_refl|]. split; [exact Hm'|exact Hs].
Defined.
End examples.
