(* ===== verification/EngineSync.v ===== *)
(** * Catching up on a chat's archive

    [archive_catch_up] ends, and what it hands to the chat is exactly what the
    entries of a verified chain hold: the chain starts where this device was and ends
    where it now is. *)

From Stdlib Require Import ZArith Lia.
From stdpp Require Import base list strings gmap numbers.
From S2P Require Import Prelude Wire Text Protocol RelayProtocol Crypto Archive Prekey Envelope MessageRecord RecordPayloads IdentityBundle KeyStore Sharing Sql PrekeyVault HistoryTables HistoryStore HistoryRecords HistoryQueues RelayClient Engine EngineAccount EngineDeletions EngineReceive EngineArchives EngineExamples.
#[local] Open Scope Z_scope.
#[local] Open Scope wire_scope.
#[local] Open Scope engine_scope.

Section sync.
Context `{P : Primitives} (w : World) (a : HArchive).

Abbreviation conv := a.(HA_conversation_id).

(** What an entry holds, for this device. *)
Definition record_of (x : ArchiveEntry) : ArchivedRecord :=
  mkArchivedRecord x.(ArchiveEntry_number)
    (if x.(ArchiveEntry_tombstone) then []
     else default [] (open_entry a.(HA_archive_key) conv x.(ArchiveEntry_number) x.(ArchiveEntry_ciphertext))).

(** Operations that always return, and what they return. *)
Definition gives {A} (m : E A) (T : A -> Prop) : Prop := forall e, exists x e', m e = (Returned x, e') /\ T x.

Lemma gives_ret {A} (x : A) (T : A -> Prop) : T x -> gives (eret x) T.
Proof. intros Hx e. by exists x, e. Qed.

Lemma gives_bind {A B} (m : E A) (k : A -> E B) (S : A -> Prop) (T : B -> Prop) :
  gives m S -> (forall x, S x -> gives (k x) T) -> gives (ebind m k) T.
Proof. intros Hm Hk e. unfold ebind. destruct (Hm e) as (x & e' & -> & Hx). by apply Hk. Qed.

Lemma gives_hist_do f : gives (hist_do f) (fun _ => True).
Proof. intros e. unfold hist_do, hist. by eexists _, _. Qed.

Lemma gives_when b m : gives m (fun _ => True) -> gives (when_ b m) (fun _ => True).
Proof. intros Hm. destruct b; [done|by apply gives_ret]. Qed.

Lemma gives_take_entry x : gives (take_entry a x) (fun r => r.1 = record_of x).
Proof.
  unfold take_entry, record_of. destruct (ArchiveEntry_tombstone x).
  - eapply gives_bind; [apply gives_hist_do|]. intros _ _. by apply gives_ret.
  - eapply gives_bind; [|intros _ _; by apply gives_ret].
    match goal with |- gives (match ?p with _ => _ end) _ => destruct p as [sr|] end; [apply gives_when, gives_hist_do|by apply gives_ret].
Qed.

Lemma gives_take_entries l : gives (take_entries a l) (fun r => r.1 = map record_of l).
Proof.
  induction l as [|x l IH]; simpl; [by apply gives_ret|].
  eapply gives_bind; [apply gives_take_entry|]. intros [r active] Hr. eapply gives_bind; [exact IH|]. intros [rest n] Hl.
  simpl in *. subst. by apply gives_ret.
Qed.

Lemma gives_take_page l next : gives (take_page a l next) (fun r => r = map record_of l).
Proof.
  unfold take_page. eapply gives_bind; [apply gives_take_entries|]. intros [records n] Hr. simpl in Hr. subst records.
  eapply gives_bind; [apply gives_hist_do|]. intros _ _. eapply gives_bind; [apply gives_when, gives_hist_do|]. intros _ _.
  eapply gives_bind; [apply gives_hist_do|]. intros _ _. by apply gives_ret.
Qed.

Lemma gives_warn c what : gives (warn_archive c what) (fun _ => True).
Proof.
  intros e. unfold warn_archive, ebind, look. destruct (hs_archive _ _) as [x|]; [|by eexists _, _].
  destruct (negb _); by eexists _, _.
Qed.

Lemma relay_asked c e : exists n e', relay_call w c e = (Returned (w.(w_relay) n c), e').
Proof. by eexists _, _. Qed.

(** The answers a relay can give: fewer than 2^63 entries, and an end before [bound]. *)
Definition pages_within (bound : Z) : Prop :=
  forall n from_number limit l h, w.(w_relay) n (FetchEntries from_number limit) = inr (l, h) -> size l < 2 ^ 63 /\ h.(ArchiveHead_number) <= bound.

(** The relay said that the archive ends here. *)
Definition relay_ends_at (h : Head) : Prop :=
  exists n from_number l rh, w.(w_relay) n (FetchEntries from_number 100) = inr (l, rh) /\
    rh.(ArchiveHead_number) = h.(Head_number) /\ rh.(ArchiveHead_hash) = h.(Head_hash).

(** C24: catching up on an archive always ends, after at most as many pages as there
    are entries to come, whatever the relay answers and in whatever pieces, as long
    as the numbers stay in the range of a signed 64-bit integer: the device's own
    head and the ends the relay names are below 2^63. The
    records it returns are what the entries of one verified chain hold, in order,
    also when it fails half-way; that chain starts at the device's own head and ends
    at the head it returns, and on success the relay itself named that end. *)
Theorem catch_up_ends bound fuel head fresh e :
  pages_within bound -> bound < 2 ^ 63 -> 0 <= head.(Head_number) < 2 ^ 63 ->
  Z.max 0 (bound - head.(Head_number)) < Z.of_nat fuel ->
  exists r next entries e',
    archive_catch_up w fuel a head fresh e = (Returned (r, next, fresh ++ map record_of entries), e') /\
    verify_chain conv head entries = Some next /\ (r = inr tt -> relay_ends_at next).
Proof.
  intros Hp Hb. revert head fresh e. induction fuel as [|fuel IH]; intros head fresh e Hh Hf; [lia|].
  simpl. unfold ebind at 1. destruct (relay_asked (FetchEntries (u64 (head.(Head_number) + 1)) 100) e) as (n & e1 & ->).
  destruct (w.(w_relay) n (FetchEntries (u64 (head.(Head_number) + 1)) 100)) as [err|[l rh]] eqn:Er.
  { exists (inl err), head, [], e1. rewrite app_nil_r. split; [done|]. by split. }
  destruct (Hp _ _ _ _ _ Er) as [Hl Hrh]. destruct (verify_chain conv head l) as [next|] eqn:Ev.
  2: { unfold ebind. destruct (gives_warn conv altered e1) as (u & e2 & -> & _).
       exists (inl altered), head, [], e2. rewrite app_nil_r. split; [done|]. by split. }
  unfold ebind at 1. destruct (gives_take_page l next e1) as (page & e2 & -> & ->).
  pose proof (verify_chain_number _ _ _ _ Ev ltac:(lia) ltac:(lia)) as Hn. pose proof (size_nonneg l).
  destruct ((size l =? 0) || _) eqn:Eend.
  - destruct (negb _ || negb _) eqn:Ediff.
    + unfold ebind. destruct (gives_warn conv other_end e2) as (u & e3 & -> & _). by exists (inl other_end), next, l, e3.
    + exists (inr tt), next, l, e2. split; [done|]. split; [done|]. intros _. bool_prop. by eexists _, _, l, rh.
  - bool_prop. destruct (IH next (fresh ++ map record_of l) e2) as (r & next' & entries & e3 & -> & Hv & Hr); [lia..|].
    exists r, next', (l ++ entries), e3. rewrite <- app_assoc, map_app, verify_chain_app, Ev. done.
Qed.
End sync.

(** ** An archive of three entries, in two pages *)

Section examples.
#[local] Existing Instance toy.

Definition shared_key : bytes := replicate 32 Byte.x05.
Definition an_archive : HArchive :=
  mkHArchive ada_and_bob (str "relay:7000") (replicate 32 Byte.x01) ArchiveMember ArchiveJoined shared_key [] [] [] 0 [] 0 [] 0 0 0 [].

Definition an_entry (prev : Head) (text : bytes) : ArchiveEntry :=
  let number := prev.(Head_number) + 1 in
  let ct := match seal_entry (replicate 12 Byte.x02) shared_key ada_and_bob number text with Ret ct => ct | Throw _ => [] end in
  mkArchiveEntry number (entry_hash ada_and_bob number prev.(Head_hash) ct) ct false.
Definition after (x : ArchiveEntry) : Head := mkHead x.(ArchiveEntry_number) x.(ArchiveEntry_hash).

Definition start : Head := mkHead 0 (genesis_hash ada_and_bob).
Definition entry1 : ArchiveEntry := an_entry start (str "one").
Definition entry2 : ArchiveEntry := an_entry (after entry1) (str "two").
Definition entry3 : ArchiveEntry := an_entry (after entry2) (str "three").

(** A relay that hands out two entries and then one. *)
Definition paging_reply (c : RelayCall) : bytes + reply c :=
  match c return bytes + reply c with
  | FetchEntries from_number _ =>
      inr (if from_number =? 1 then [entry1; entry2] else [entry3], mkArchiveHead 3 entry3.(ArchiveEntry_hash))
  | c => example_reply c
  end.
Definition paging_world : World := {|
  w_clock := w_clock example_world; w_steady := w_steady example_world; w_random := w_random example_world; w_relay := fun _ => paging_reply;
  w_connected := w_connected example_world; w_event := w_event example_world; w_stopping := w_stopping example_world;
  w_is_file := w_is_file example_world; w_file_size := w_file_size example_world; w_file := w_file example_world;
  w_bad_read := w_bad_read example_world; w_directory := w_directory example_world; w_absolute := w_absolute example_world;
  w_begin := w_begin example_world; w_wrote := w_wrote example_world; w_finish := w_finish example_world;
|}.

Lemma catch_up_ends_witness :
  exists r next entries e',
    archive_catch_up paging_world 4 an_archive start [] bob = (Returned (r, next, map (record_of an_archive) entries), e') /\
    verify_chain ada_and_bob start entries = Some next /\ (r = inr tt -> relay_ends_at paging_world next) /\
    next.(Head_number) = 3 /\ map (fun x => ar_record (record_of an_archive x)) entries = [str "one"; str "two"; str "three"].
Proof.
  destruct (catch_up_ends paging_world an_archive 3 4 start [] bob) as (r & next & entries & e' & E & Hv & Hr).
  - intros n from_number limit l h. simpl. intros [= <- <-]. split; [by destruct (_ =? _)|done].
  - lia.
  - simpl. lia.
  - simpl. lia.
  - exists r, next, entries, e'. split; [exact E|]. split; [exact Hv|]. split; [exact Hr|].
    assert ((archive_catch_up paging_world 4 an_archive start [] bob).1 =
      Returned (inr tt, after entry3, map (record_of an_archive) [entry1; entry2; entry3])) as E' by (vm_compute; reflexivity).
    rewrite E in E'. injection E' as _ -> Hrec. split; [reflexivity|].
    transitivity (map ar_record (map (record_of an_archive) entries)); [by rewrite map_map|]. simpl in Hrec. rewrite Hrec.
    vm_compute. reflexivity.
Defined.
End examples.
