(* ===== verification/RelayStore.v ===== *)
(** * The relay's store: server/relay_store.h and relay_store.cpp

    The state is the SQLite database, one list of rows per table; the methods of
    [RelayStore] are functions of it. Every method holds the store's mutex for its
    whole body, so a method is one atomic step. [None] is a thrown
    [std::runtime_error]: the transaction is rolled back and the caller keeps the
    database it had. A method that returns from inside a transaction without
    [commit] is rolled back too, and returns the database unchanged. Queries
    without [ORDER BY] are answered in rowid order. The schema upgrades of older
    databases in the constructor are not modelled. *)

From Stdlib Require Import ZArith Lia.
From stdpp Require Import base list strings.
From S2P Require Import Prelude Sql RelayProtocol.
#[local] Open Scope Z_scope.

(** ** Tables *)

(** src/server/relay_store.cpp 28-31 invites *)
Record InviteRow := mkInviteRow {
  inv_hash : bytes;
  inv_expires_at : Z;
  inv_issued_by : option bytes;
}.

(** src/server/relay_store.cpp 32-36 mailboxes *)
Record MailboxRow := mkMailboxRow {
  mb_id : bytes;
  mb_access_public_key : bytes;
  mb_created_at : Z;
  mb_invited_by : option bytes;
}.

(** src/server/relay_store.cpp 37-41 tokens *)
Record TokenRow := mkTokenRow {
  tok_mailbox_id : bytes;
  tok_hash : bytes;
  tok_created_at : Z;
}.
Definition tok_key (t : TokenRow) : bytes * bytes := (t.(tok_mailbox_id), t.(tok_hash)).

(** src/server/relay_store.cpp 42-50 envelopes *)
Record EnvelopeRow := mkEnvelopeRow {
  env_seq : Z;
  env_id : bytes;
  env_mailbox_id : bytes;
  env_size : Z;
  env_envelope : bytes;
  env_deposited_at : Z;
  env_expires_at : Z;
  env_token_hash : option bytes;
}.

(** src/server/relay_store.cpp 54-55 prekey_pools *)
Record PoolRow := mkPoolRow {
  pool_mailbox_id : bytes;
  pool_generation : bytes;
}.

(** src/server/relay_store.cpp 56-58 prekeys *)
Record PrekeyRow := mkPrekeyRow {
  pk_mailbox_id : bytes;
  pk_id : bytes;
  pk_blob : bytes;
  pk_last_resort : bool;
  pk_created_at : Z;
}.
Definition pk_key (p : PrekeyRow) : bytes * bytes := (p.(pk_mailbox_id), p.(pk_id)).

(** src/server/relay_store.cpp 59-59 prekey_takes *)
Record TakeRow := mkTakeRow {
  take_token_hash : bytes;
  take_hour : Z;
  take_count : Z;
}.
Definition take_key (t : TakeRow) : bytes * Z := (t.(take_token_hash), t.(take_hour)).

(** src/server/relay_store.cpp 61-65 files *)
Record FileRow := mkFileRow {
  file_id : bytes;
  file_owner : bytes;
  file_total_size : Z;
  file_chunk_size : Z;
  file_chunk_count : Z;
  file_expires_at : Z;
  file_created_at : Z;
  file_ready : bool;
}.

(** src/server/relay_store.cpp 66-69 file_tokens *)
Record FileTokenRow := mkFileTokenRow {
  ft_file_id : bytes;
  ft_token_hash : bytes;
  ft_redeemed : bool;
}.
Definition ft_key (t : FileTokenRow) : bytes * bytes := (t.(ft_file_id), t.(ft_token_hash)).

(** src/server/relay_store.cpp 71-74 keyrings *)
Record KeyringRow := mkKeyringRow {
  kr_mailbox_id : bytes;
  kr_blob : bytes;
  kr_updated_at : Z;
}.

(** src/server/relay_store.cpp 76-84 archives *)
Record ArchiveRow := mkArchiveRow {
  ar_id : bytes;
  ar_member_count : Z;
  ar_created_at : Z;
  ar_closes_at : Z;
  ar_head_number : Z;
  ar_head_hash : bytes;
  ar_bytes : Z;
  ar_last_activity : Z;
}.

(** src/server/relay_store.cpp 85-88 archive_join_tokens *)
Record JoinTokenRow := mkJoinTokenRow {
  jt_archive_id : bytes;
  jt_token_hash : bytes;
}.
Definition jt_key (t : JoinTokenRow) : bytes * bytes := (t.(jt_archive_id), t.(jt_token_hash)).

(** src/server/relay_store.cpp 89-94 archive_keys *)
Record ArchiveKeyRow := mkArchiveKeyRow {
  ak_archive_id : bytes;
  ak_key_hash : bytes;
  ak_public_key : bytes;
  ak_joined_at : Z;
}.
Definition ak_key (k : ArchiveKeyRow) : bytes * bytes := (k.(ak_archive_id), k.(ak_key_hash)).

(** src/server/relay_store.cpp 95-102 archive_entries *)
Record EntryRow := mkEntryRow {
  en_archive_id : bytes;
  en_number : Z;
  en_hash : bytes;
  en_ciphertext : bytes;
  en_appended_at : Z;
  en_redacted : bool;
}.
Definition en_key (e : EntryRow) : bytes * Z := (e.(en_archive_id), e.(en_number)).

(** The database; [envelope_seq] is the AUTOINCREMENT counter of [envelopes].
    src/server/relay_store.cpp 27-102 RelayStore *)
Record DB := mkDB {
  invites : list InviteRow;
  mailboxes : list MailboxRow;
  tokens : list TokenRow;
  envelopes : list EnvelopeRow;
  envelope_seq : Z;
  prekey_pools : list PoolRow;
  prekeys : list PrekeyRow;
  prekey_takes : list TakeRow;
  files : list FileRow;
  file_tokens : list FileTokenRow;
  keyrings : list KeyringRow;
  archives : list ArchiveRow;
  archive_join_tokens : list JoinTokenRow;
  archive_keys : list ArchiveKeyRow;
  archive_entries : list EntryRow;
}.

(** Assignment to one table. *)
Definition set_invites (x : list InviteRow) (db : DB) : DB :=
  mkDB x db.(mailboxes) db.(tokens) db.(envelopes) db.(envelope_seq) db.(prekey_pools) db.(prekeys) db.(prekey_takes) db.(files) db.(file_tokens) db.(keyrings) db.(archives) db.(archive_join_tokens) db.(archive_keys) db.(archive_entries).
Definition set_mailboxes (x : list MailboxRow) (db : DB) : DB :=
  mkDB db.(invites) x db.(tokens) db.(envelopes) db.(envelope_seq) db.(prekey_pools) db.(prekeys) db.(prekey_takes) db.(files) db.(file_tokens) db.(keyrings) db.(archives) db.(archive_join_tokens) db.(archive_keys) db.(archive_entries).
Definition set_tokens (x : list TokenRow) (db : DB) : DB :=
  mkDB db.(invites) db.(mailboxes) x db.(envelopes) db.(envelope_seq) db.(prekey_pools) db.(prekeys) db.(prekey_takes) db.(files) db.(file_tokens) db.(keyrings) db.(archives) db.(archive_join_tokens) db.(archive_keys) db.(archive_entries).
Definition set_envelopes (x : list EnvelopeRow) (db : DB) : DB :=
  mkDB db.(invites) db.(mailboxes) db.(tokens) x db.(envelope_seq) db.(prekey_pools) db.(prekeys) db.(prekey_takes) db.(files) db.(file_tokens) db.(keyrings) db.(archives) db.(archive_join_tokens) db.(archive_keys) db.(archive_entries).
Definition set_envelope_seq (x : Z) (db : DB) : DB :=
  mkDB db.(invites) db.(mailboxes) db.(tokens) db.(envelopes) x db.(prekey_pools) db.(prekeys) db.(prekey_takes) db.(files) db.(file_tokens) db.(keyrings) db.(archives) db.(archive_join_tokens) db.(archive_keys) db.(archive_entries).
Definition set_prekey_pools (x : list PoolRow) (db : DB) : DB :=
  mkDB db.(invites) db.(mailboxes) db.(tokens) db.(envelopes) db.(envelope_seq) x db.(prekeys) db.(prekey_takes) db.(files) db.(file_tokens) db.(keyrings) db.(archives) db.(archive_join_tokens) db.(archive_keys) db.(archive_entries).
Definition set_prekeys (x : list PrekeyRow) (db : DB) : DB :=
  mkDB db.(invites) db.(mailboxes) db.(tokens) db.(envelopes) db.(envelope_seq) db.(prekey_pools) x db.(prekey_takes) db.(files) db.(file_tokens) db.(keyrings) db.(archives) db.(archive_join_tokens) db.(archive_keys) db.(archive_entries).
Definition set_prekey_takes (x : list TakeRow) (db : DB) : DB :=
  mkDB db.(invites) db.(mailboxes) db.(tokens) db.(envelopes) db.(envelope_seq) db.(prekey_pools) db.(prekeys) x db.(files) db.(file_tokens) db.(keyrings) db.(archives) db.(archive_join_tokens) db.(archive_keys) db.(archive_entries).
Definition set_files (x : list FileRow) (db : DB) : DB :=
  mkDB db.(invites) db.(mailboxes) db.(tokens) db.(envelopes) db.(envelope_seq) db.(prekey_pools) db.(prekeys) db.(prekey_takes) x db.(file_tokens) db.(keyrings) db.(archives) db.(archive_join_tokens) db.(archive_keys) db.(archive_entries).
Definition set_file_tokens (x : list FileTokenRow) (db : DB) : DB :=
  mkDB db.(invites) db.(mailboxes) db.(tokens) db.(envelopes) db.(envelope_seq) db.(prekey_pools) db.(prekeys) db.(prekey_takes) db.(files) x db.(keyrings) db.(archives) db.(archive_join_tokens) db.(archive_keys) db.(archive_entries).
Definition set_keyrings (x : list KeyringRow) (db : DB) : DB :=
  mkDB db.(invites) db.(mailboxes) db.(tokens) db.(envelopes) db.(envelope_seq) db.(prekey_pools) db.(prekeys) db.(prekey_takes) db.(files) db.(file_tokens) x db.(archives) db.(archive_join_tokens) db.(archive_keys) db.(archive_entries).
Definition set_archives (x : list ArchiveRow) (db : DB) : DB :=
  mkDB db.(invites) db.(mailboxes) db.(tokens) db.(envelopes) db.(envelope_seq) db.(prekey_pools) db.(prekeys) db.(prekey_takes) db.(files) db.(file_tokens) db.(keyrings) x db.(archive_join_tokens) db.(archive_keys) db.(archive_entries).
Definition set_archive_join_tokens (x : list JoinTokenRow) (db : DB) : DB :=
  mkDB db.(invites) db.(mailboxes) db.(tokens) db.(envelopes) db.(envelope_seq) db.(prekey_pools) db.(prekeys) db.(prekey_takes) db.(files) db.(file_tokens) db.(keyrings) db.(archives) x db.(archive_keys) db.(archive_entries).
Definition set_archive_keys (x : list ArchiveKeyRow) (db : DB) : DB :=
  mkDB db.(invites) db.(mailboxes) db.(tokens) db.(envelopes) db.(envelope_seq) db.(prekey_pools) db.(prekeys) db.(prekey_takes) db.(files) db.(file_tokens) db.(keyrings) db.(archives) db.(archive_join_tokens) x db.(archive_entries).
Definition set_archive_entries (x : list EntryRow) (db : DB) : DB :=
  mkDB db.(invites) db.(mailboxes) db.(tokens) db.(envelopes) db.(envelope_seq) db.(prekey_pools) db.(prekeys) db.(prekey_takes) db.(files) db.(file_tokens) db.(keyrings) db.(archives) db.(archive_join_tokens) db.(archive_keys) x.

(** A new database. src/server/relay_store.cpp 15-119 RelayStore *)
Definition empty_db : DB := mkDB [] [] [] [] 0 [] [] [] [] [] [] [] [] [] [].

(** ** Rows that go with another one (ON DELETE CASCADE) *)

(** [DELETE FROM files WHERE P]: the tokens of a deleted file go with it.
    src/server/relay_store.cpp 66-69 file_tokens *)
Definition delete_files (P : FileRow -> Prop) `{!forall x, Decision (P x)} (db : DB) : DB :=
  let gone := map file_id (filter P db.(files)) in
  set_file_tokens (delete_rows (fun t => t.(ft_file_id) ∈ gone) db.(file_tokens))
    (set_files (delete_rows P db.(files)) db).

(** [DELETE FROM archives WHERE P]: entries, keys and unspent tokens go too.
    src/server/relay_store.cpp 85-102 archive_entries *)
Definition delete_archives (P : ArchiveRow -> Prop) `{!forall x, Decision (P x)} (db : DB) : DB :=
  let gone := map ar_id (filter P db.(archives)) in
  set_archive_join_tokens (delete_rows (fun t => t.(jt_archive_id) ∈ gone) db.(archive_join_tokens))
    (set_archive_keys (delete_rows (fun k => k.(ak_archive_id) ∈ gone) db.(archive_keys))
      (set_archive_entries (delete_rows (fun e => e.(en_archive_id) ∈ gone) db.(archive_entries))
        (set_archives (delete_rows P db.(archives)) db))).

(** [DELETE FROM mailboxes WHERE id = ?]: its tokens, envelopes, prekeys, files
    and keyring go with it. src/server/relay_store.cpp 37-74 mailboxes *)
Definition delete_mailbox_row (id : bytes) (db : DB) : DB :=
  let db := set_tokens (delete_rows (fun t => t.(tok_mailbox_id) = id) db.(tokens)) db in
  let db := set_envelopes (delete_rows (fun e => e.(env_mailbox_id) = id) db.(envelopes)) db in
  let db := set_prekey_pools (delete_rows (fun p => p.(pool_mailbox_id) = id) db.(prekey_pools)) db in
  let db := set_prekeys (delete_rows (fun p => p.(pk_mailbox_id) = id) db.(prekeys)) db in
  let db := set_keyrings (delete_rows (fun k => k.(kr_mailbox_id) = id) db.(keyrings)) db in
  let db := delete_files (fun f => f.(file_owner) = id) db in
  set_mailboxes (delete_rows (fun m => m.(mb_id) = id) db.(mailboxes)) db.

(** Insertions, with the constraints of the schema. *)
Definition insert_invite (r : InviteRow) (db : DB) : option DB :=
  let? t := insert_row inv_hash r db.(invites) in Some (set_invites t db).
Definition insert_mailbox (r : MailboxRow) (db : DB) : option DB :=
  let? t := insert_row mb_id r db.(mailboxes) in Some (set_mailboxes t db).
Definition insert_token (r : TokenRow) (db : DB) : option DB :=
  if references mb_id r.(tok_mailbox_id) db.(mailboxes)
  then let? t := insert_row tok_key r db.(tokens) in Some (set_tokens t db) else None.
Definition insert_prekey (r : PrekeyRow) (db : DB) : option DB :=
  if references mb_id r.(pk_mailbox_id) db.(mailboxes)
  then let? t := insert_row pk_key r db.(prekeys) in Some (set_prekeys t db) else None.
Definition insert_file (r : FileRow) (db : DB) : option DB :=
  if references mb_id r.(file_owner) db.(mailboxes)
  then let? t := insert_row file_id r db.(files) in Some (set_files t db) else None.
Definition insert_file_token (r : FileTokenRow) (db : DB) : option DB :=
  if references file_id r.(ft_file_id) db.(files)
  then let? t := insert_row ft_key r db.(file_tokens) in Some (set_file_tokens t db) else None.
Definition insert_archive (r : ArchiveRow) (db : DB) : option DB :=
  let? t := insert_row ar_id r db.(archives) in Some (set_archives t db).
Definition insert_archive_key (r : ArchiveKeyRow) (db : DB) : option DB :=
  if references ar_id r.(ak_archive_id) db.(archives)
  then let? t := insert_row ak_key r db.(archive_keys) in Some (set_archive_keys t db) else None.
Definition insert_entry (r : EntryRow) (db : DB) : option DB :=
  if references ar_id r.(en_archive_id) db.(archives)
  then let? t := insert_row en_key r db.(archive_entries) in Some (set_archive_entries t db) else None.

(** The sequence number is the counter plus one; SQLite refuses the insertion
    when the counter is exhausted. src/server/relay_store.cpp 304-306 deposit *)
Definition insert_envelope (id mailbox_id : bytes) (sz : Z) (envelope : bytes) (deposited_at expires_at : Z)
    (token_hash : bytes) (db : DB) : option DB :=
  if 2 ^ 63 - 1 <=? db.(envelope_seq) then None else
  if references mb_id mailbox_id db.(mailboxes) then
    let seq := db.(envelope_seq) + 1 in
    let? t := insert_row env_id
                (mkEnvelopeRow seq id mailbox_id sz envelope deposited_at expires_at (Some token_hash))
                db.(envelopes) in
    Some (set_envelope_seq seq (set_envelopes t db))
  else None.

(** A loop of statements that may fail. *)
Fixpoint fold_db {A} (f : A -> DB -> option DB) (l : list A) (db : DB) : option DB :=
  match l with
  | [] => Some db
  | x :: l => let? db := f x db in fold_db f l db
  end.

(** ** Invites *)

(** src/server/relay_store.cpp 123-126 add_invite *)
Definition add_invite (db : DB) (invite_hash : bytes) (expires_at : Z) : option (unit * DB) :=
  let? db := insert_invite (mkInviteRow invite_hash expires_at None) db in Some (tt, db).

(** src/server/relay_store.h 64-64 RegisterResult *)
Inductive RegisterResult := Register_Ok | Register_BadInvite | Register_MailboxExists | Register_LimitReached.

(** src/server/relay_store.cpp 128-162 register_mailbox *)
Definition register_mailbox (db : DB) (invite_hash mailbox_id access_public_key token_hash : bytes)
    (now max_mailboxes : Z) : option (RegisterResult * DB) :=
  match select_first (fun i => i.(inv_hash) = invite_hash) db.(invites) with
  | None => Some (Register_BadInvite, db)
  | Some invite =>
      if invite.(inv_expires_at) <=? now then Some (Register_BadInvite, db) else
      let issued_by := column_blob invite.(inv_issued_by) in
      if max_mailboxes <=? size db.(mailboxes) then Some (Register_LimitReached, db) else
      if exists_row (fun m => m.(mb_id) = mailbox_id) db.(mailboxes) then Some (Register_MailboxExists, db) else
      let invited_by := match issued_by with [] => None | _ => Some issued_by end in
      let? tx := insert_mailbox (mkMailboxRow mailbox_id access_public_key now invited_by) db in
      let? tx := insert_token (mkTokenRow mailbox_id token_hash now) tx in
      let tx := set_invites (delete_rows (fun i => i.(inv_hash) = invite_hash) tx.(invites)) tx in
      Some (Register_Ok, tx)
  end.

(** src/server/relay_store.h 32-32 IssueResult *)
Inductive IssueResult := Issue_Ok | Issue_NoSuchMailbox | Issue_TooManyOutstanding | Issue_TooManyIssued.

(** src/server/relay_store.cpp 164-190 add_member_invite *)
Definition add_member_invite (db : DB) (issuer_mailbox invite_hash : bytes)
    (now expires_at max_outstanding max_total : Z) : option (IssueResult * DB) :=
  if negb (exists_row (fun m => m.(mb_id) = issuer_mailbox) db.(mailboxes)) then Some (Issue_NoSuchMailbox, db) else
  let outstanding :=
    count_rows (fun i => i.(inv_issued_by) = Some issuer_mailbox /\ now < i.(inv_expires_at)) db.(invites) in
  let used := count_rows (fun m => m.(mb_invited_by) = Some issuer_mailbox) db.(mailboxes) in
  if max_outstanding <=? outstanding then Some (Issue_TooManyOutstanding, db) else
  if max_total <=? outstanding + used then Some (Issue_TooManyIssued, db) else
  let? tx := insert_invite (mkInviteRow invite_hash expires_at (Some issuer_mailbox)) db in
  Some (Issue_Ok, tx).

(** [ORDER BY a, b] on an integer column and then a blob. *)
Definition order_by {A} (num : A -> Z) (key : A -> bytes) (x y : A) : bool :=
  (num x <? num y) || ((num x =? num y) && bytes_leb (key x) (key y)).

(** src/server/relay_store.cpp 192-199 unused_invites *)
Definition unused_invites (db : DB) (issuer_mailbox : bytes) (now : Z) : list (bytes * Z) :=
  map (fun i => (i.(inv_hash), i.(inv_expires_at)))
    (sort_by (order_by inv_expires_at inv_hash)
      (filter (fun i => i.(inv_issued_by) = Some issuer_mailbox /\ now < i.(inv_expires_at)) db.(invites))).

(** src/server/relay_store.cpp 201-208 joined_through *)
Definition joined_through (db : DB) (issuer_mailbox : bytes) : list (bytes * Z) :=
  map (fun m => (m.(mb_id), m.(mb_created_at)))
    (sort_by (order_by mb_created_at mb_id)
      (filter (fun m => m.(mb_invited_by) = Some issuer_mailbox) db.(mailboxes))).

(** src/server/relay_store.cpp 210-214 cancel_member_invite *)
Definition cancel_member_invite (db : DB) (issuer_mailbox invite_hash : bytes) : bool * DB :=
  let P := fun i => i.(inv_hash) = invite_hash /\ i.(inv_issued_by) = Some issuer_mailbox in
  (0 <? count_rows P db.(invites), set_invites (delete_rows P db.(invites)) db).

(** src/server/relay_store.h 52-57 Member *)
Record Member := mkMember {
  Member_id : bytes;
  Member_created_at : Z;
  Member_invited_by : bytes;
  Member_envelopes : Z;
}.

(** src/server/relay_store.cpp 216-230 members *)
Definition members (db : DB) : list Member :=
  map (fun m => mkMember m.(mb_id) m.(mb_created_at) (column_blob m.(mb_invited_by))
                  (count_rows (fun e => e.(env_mailbox_id) = m.(mb_id)) db.(envelopes)))
    (sort_by (order_by mb_created_at mb_id) db.(mailboxes)).

(** ** Mailboxes and send tokens *)

(** src/server/relay_store.cpp 232-240 delete_mailbox *)
Definition delete_mailbox (db : DB) (mailbox_id : bytes) : bool * DB :=
  let tx := set_invites (delete_rows (fun i => i.(inv_issued_by) = Some mailbox_id) db.(invites)) db in
  let existed := 0 <? count_rows (fun m => m.(mb_id) = mailbox_id) tx.(mailboxes) in
  (existed, delete_mailbox_row mailbox_id tx).

(** src/server/relay_store.cpp 242-248 access_key *)
Definition access_key (db : DB) (mailbox_id : bytes) : option bytes :=
  mb_access_public_key <$> select_first (fun m => m.(mb_id) = mailbox_id) db.(mailboxes).

(** src/server/relay_store.cpp 250-254 mailbox_count *)
Definition mailbox_count (db : DB) : Z := size db.(mailboxes).

(** src/server/relay_store.cpp 256-261 token_valid *)
Definition token_valid (db : DB) (mailbox_id token_hash : bytes) : bool :=
  exists_row (fun t => t.(tok_mailbox_id) = mailbox_id /\ t.(tok_hash) = token_hash) db.(tokens).

(** src/server/relay_store.h 75-75 TokenResult *)
Inductive TokenResult := Token_Ok | Token_NoSuchMailbox | Token_LimitReached.

(** src/server/relay_store.cpp 263-286 add_token *)
Definition add_token (db : DB) (mailbox_id token_hash : bytes) (now max_tokens : Z) : option (TokenResult * DB) :=
  if negb (exists_row (fun m => m.(mb_id) = mailbox_id) db.(mailboxes)) then Some (Token_NoSuchMailbox, db) else
  if exists_row (fun t => t.(tok_mailbox_id) = mailbox_id /\ t.(tok_hash) = token_hash) db.(tokens)
  then Some (Token_Ok, db) else
  if max_tokens <=? count_rows (fun t => t.(tok_mailbox_id) = mailbox_id) db.(tokens)
  then Some (Token_LimitReached, db) else
  let? tx := insert_token (mkTokenRow mailbox_id token_hash now) db in
  Some (Token_Ok, tx).

(** src/server/relay_store.cpp 288-292 revoke_token *)
Definition revoke_token (db : DB) (mailbox_id token_hash : bytes) : bool * DB :=
  let P := fun t => t.(tok_mailbox_id) = mailbox_id /\ t.(tok_hash) = token_hash in
  (0 <? count_rows P db.(tokens), set_tokens (delete_rows P db.(tokens)) db).

(** ** Envelopes *)

(** src/server/relay_store.h 80-80 DepositResult *)
Inductive DepositResult := Deposit_Ok | Deposit_MailboxFull.

(** src/server/relay_store.cpp 294-309 deposit *)
Definition deposit (db : DB) (mailbox_id envelope_id envelope token_hash : bytes)
    (now ttl_seconds quota_bytes : Z) : option (DepositResult * DB) :=
  let? used := sql_sum env_size
    (filter (fun e => e.(env_mailbox_id) = mailbox_id /\ now < e.(env_expires_at)) db.(envelopes)) in
  let used := u64 used in
  if quota_bytes <? u64 (used + size envelope) then Some (Deposit_MailboxFull, db) else
  let? tx := insert_envelope envelope_id mailbox_id (i64 (size envelope)) envelope now
               (i64 (now + ttl_seconds)) token_hash db in
  Some (Deposit_Ok, tx).

(** src/server/relay_store.h 87-93 Stored *)
Record Stored := mkStored {
  Stored_seq : Z;
  Stored_id : bytes;
  Stored_deposited_at : Z;
  Stored_token_hash : bytes;
  Stored_envelope : bytes;
}.

(** The hash of the token a deposit came through; zeros if it was not recorded.
    src/server/relay_store.cpp 318-320 fetch *)
Definition stored_of (e : EnvelopeRow) : Stored :=
  let token_hash := column_blob e.(env_token_hash) in
  let token_hash := if size token_hash =? 32 then token_hash else replicate 32 Byte.x00 in
  mkStored e.(env_seq) e.(env_id) e.(env_deposited_at) token_hash e.(env_envelope).

Definition by_seq (x y : EnvelopeRow) : bool := x.(env_seq) <=? y.(env_seq).

(** src/server/relay_store.cpp 311-323 fetch *)
Definition fetch (db : DB) (mailbox_id : bytes) (after_seq now limit : Z) : list Stored :=
  map stored_of
    (sql_limit limit
      (sort_by by_seq
        (filter (fun e => e.(env_mailbox_id) = mailbox_id /\ after_seq < e.(env_seq) /\ now < e.(env_expires_at))
          db.(envelopes)))).

(** One iteration of [ack]. *)
Definition ack_one (mailbox_id : bytes) (st : Z * DB) (id : bytes) : Z * DB :=
  let '(deleted, db) := st in
  let P := fun e => e.(env_mailbox_id) = mailbox_id /\ e.(env_id) = id in
  (deleted + count_rows P db.(envelopes), set_envelopes (delete_rows P db.(envelopes)) db).

(** src/server/relay_store.cpp 325-335 ack *)
Definition ack (db : DB) (mailbox_id : bytes) (envelope_ids : list bytes) : Z * DB :=
  foldl (ack_one mailbox_id) (0, db) envelope_ids.

(** src/server/relay_store.cpp 337-342 envelope_count *)
Definition envelope_count (db : DB) (mailbox_id : bytes) : Z :=
  count_rows (fun e => e.(env_mailbox_id) = mailbox_id) db.(envelopes).

(** ** Prekeys *)

(** src/server/relay_store.h 101-101 PrekeyPutResult *)
Inductive PrekeyPutResult := Put_Ok | Put_WrongGeneration | Put_TooMany | Put_Duplicate | Put_NoSuchMailbox.

(** The body of the loop that stores the prekeys of a put: a new last-resort
    prekey replaces the old one. src/server/relay_store.cpp 381-385 put_prekeys *)
Definition store_prekey (mailbox_id : bytes) (now : Z) (p : PrekeyEntry) (tx : DB) : option DB :=
  let tx :=
    if p.(PrekeyEntry_last_resort)
    then set_prekeys (delete_rows (fun r => r.(pk_mailbox_id) = mailbox_id /\ r.(pk_last_resort) = true)
                        tx.(prekeys)) tx
    else tx in
  insert_prekey (mkPrekeyRow mailbox_id p.(PrekeyEntry_id) p.(PrekeyEntry_blob) p.(PrekeyEntry_last_resort) now) tx.

(** The pool of a put, before its prekeys are stored: emptied if it is replaced,
    and of the given generation. src/server/relay_store.cpp 361-367 put_prekeys *)
Definition start_pool (db : DB) (mailbox_id : bytes) (replace : bool) (generation : bytes) : DB :=
  let tx :=
    if replace then set_prekeys (delete_rows (fun r => r.(pk_mailbox_id) = mailbox_id) db.(prekeys)) db else db in
  set_prekey_pools
    (upsert_row pool_mailbox_id (mkPoolRow mailbox_id generation)
      (fun g => mkPoolRow g.(pool_mailbox_id) generation) tx.(prekey_pools)) tx.

(** src/server/relay_store.cpp 346-388 put_prekeys *)
Definition put_prekeys (db : DB) (mailbox_id : bytes) (replace : bool) (generation : bytes)
    (entries : list PrekeyEntry) (now max_one_time : Z) : option (PrekeyPutResult * DB) :=
  if negb (exists_row (fun m => m.(mb_id) = mailbox_id) db.(mailboxes)) then Some (Put_NoSuchMailbox, db) else
  let current := pool_generation <$> select_first (fun g => g.(pool_mailbox_id) = mailbox_id) db.(prekey_pools) in
  if negb replace && match current with Some g => negb (bool_decide (g = generation)) | None => false end
  then Some (Put_WrongGeneration, db) else
  let tx := start_pool db mailbox_id replace generation in
  let one_time := count_rows (fun r => r.(pk_mailbox_id) = mailbox_id /\ r.(pk_last_resort) = false) tx.(prekeys) in
  let one_time := one_time + count_rows (fun p => PrekeyEntry_last_resort p = false) entries in
  if max_one_time <? one_time then Some (Put_TooMany, db) else
  if existsb (fun p => exists_row (fun r => r.(pk_mailbox_id) = mailbox_id /\ r.(pk_id) = p.(PrekeyEntry_id)) tx.(prekeys))
       entries
  then Some (Put_Duplicate, db) else
  let? tx := fold_db (store_prekey mailbox_id now) entries tx in
  Some (Put_Ok, tx).

(** src/server/relay_store.h 112-112 PrekeyTakeResult *)
Inductive PrekeyTakeResult := Take_Ok (blob : bytes) (last_resort : bool) | Take_Empty | Take_RateLimited.

Definition by_created (x y : PrekeyRow) : bool := x.(pk_created_at) <=? y.(pk_created_at).

(** The oldest one-time prekey: [ORDER BY created_at, rowid LIMIT 1]. *)
Definition oldest_one_time (db : DB) (mailbox_id : bytes) : option PrekeyRow :=
  head (sort_by by_created
    (filter (fun r => r.(pk_mailbox_id) = mailbox_id /\ r.(pk_last_resort) = false) db.(prekeys))).

Definition last_resort_of (db : DB) (mailbox_id : bytes) : option PrekeyRow :=
  select_first (fun r => r.(pk_mailbox_id) = mailbox_id /\ r.(pk_last_resort) = true) db.(prekeys).

(** src/server/relay_store.cpp 390-436 take_prekey *)
Definition take_prekey (db : DB) (mailbox_id token_hash : bytes) (now per_hour : Z) : PrekeyTakeResult * DB :=
  let hour := Z.quot now 3600 in
  let taken :=
    match select_first (fun t => t.(take_token_hash) = token_hash /\ t.(take_hour) = hour) db.(prekey_takes) with
    | Some t => t.(take_count)
    | None => 0
    end in
  if per_hour <=? taken then
    match last_resort_of db mailbox_id with
    | None => (Take_RateLimited, db)
    | Some l => (Take_Ok l.(pk_blob) true, db)
    end
  else
    let tx :=
      set_prekey_takes
        (upsert_row take_key (mkTakeRow token_hash hour 1)
          (fun t => mkTakeRow t.(take_token_hash) t.(take_hour) (t.(take_count) + 1)) db.(prekey_takes)) db in
    match oldest_one_time tx mailbox_id with
    | Some o =>
        (Take_Ok o.(pk_blob) false,
         set_prekeys (delete_rows (fun r => r.(pk_mailbox_id) = mailbox_id /\ r.(pk_id) = o.(pk_id)) tx.(prekeys)) tx)
    | None =>
        match last_resort_of tx mailbox_id with
        | Some l => (Take_Ok l.(pk_blob) true, tx)
        | None => (Take_Empty, tx)
        end
    end.

(** src/server/relay_store.h 116-120 PrekeyPoolStatus *)
Record PrekeyPoolStatus := mkPrekeyPoolStatus {
  PoolStatus_one_time : Z;
  PoolStatus_last_resort : bool;
  PoolStatus_generation : bytes;
}.

(** src/server/relay_store.cpp 438-453 prekey_status *)
Definition prekey_status (db : DB) (mailbox_id : bytes) : PrekeyPoolStatus :=
  mkPrekeyPoolStatus
    (u32 (count_rows (fun r => r.(pk_mailbox_id) = mailbox_id /\ r.(pk_last_resort) = false) db.(prekeys)))
    (0 <? count_rows (fun r => r.(pk_mailbox_id) = mailbox_id /\ r.(pk_last_resort) = true) db.(prekeys))
    (match select_first (fun g => g.(pool_mailbox_id) = mailbox_id) db.(prekey_pools) with
     | Some g => g.(pool_generation)
     | None => []
     end).

(** src/server/relay_store.cpp 455-458 sweep_prekey_takes *)
Definition sweep_prekey_takes (db : DB) (now : Z) : DB :=
  set_prekey_takes (delete_rows (fun t => t.(take_hour) < Z.quot now 3600) db.(prekey_takes)) db.

(** ** Attachments *)

(** src/server/relay_store.h 137-137 BeginFileResult *)
Inductive BeginFileResult := Begin_Ok | Begin_Exists | Begin_QuotaExceeded | Begin_NoSuchMailbox.

(** src/server/relay_store.cpp 460-486 begin_file *)
Definition begin_file (db : DB) (owner fid : bytes) (total_size chunk_size chunk_count expires_at : Z)
    (token_hashes : list bytes) (now quota_bytes : Z) : option (BeginFileResult * DB) :=
  if negb (exists_row (fun m => m.(mb_id) = owner) db.(mailboxes)) then Some (Begin_NoSuchMailbox, db) else
  if exists_row (fun f => f.(file_id) = fid) db.(files) then Some (Begin_Exists, db) else
  let? stored := sql_sum file_total_size (filter (fun f => f.(file_owner) = owner) db.(files)) in
  if quota_bytes <? u64 (u64 stored + total_size) then Some (Begin_QuotaExceeded, db) else
  let? tx := insert_file (mkFileRow fid owner (i64 total_size) chunk_size chunk_count expires_at now false) db in
  let? tx := fold_db (fun h tx => insert_file_token (mkFileTokenRow fid h false) tx) token_hashes tx in
  Some (Begin_Ok, tx).

(** src/server/relay_store.cpp 488-491 finish_file *)
Definition finish_file (db : DB) (fid : bytes) : DB :=
  set_files
    (update_rows (fun f => f.(file_id) = fid)
      (fun f => mkFileRow f.(file_id) f.(file_owner) f.(file_total_size) f.(file_chunk_size) f.(file_chunk_count)
                  f.(file_expires_at) f.(file_created_at) true)
      db.(files)) db.

(** src/server/relay_store.h 126-136 FileMeta *)
Record FileMeta := mkFileMeta {
  FileMeta_id : bytes;
  FileMeta_owner : bytes;
  FileMeta_total_size : Z;
  FileMeta_chunk_size : Z;
  FileMeta_chunk_count : Z;
  FileMeta_expires_at : Z;
  FileMeta_ready : bool;
  FileMeta_tokens_total : Z;
  FileMeta_tokens_redeemed : Z;
}.

(** src/server/relay_store.cpp 493-511 file *)
Definition file (db : DB) (fid : bytes) : option FileMeta :=
  let? f := select_first (fun f => f.(file_id) = fid) db.(files) in
  Some (mkFileMeta fid f.(file_owner) (u64 f.(file_total_size)) (u32 f.(file_chunk_size)) (u32 f.(file_chunk_count))
          f.(file_expires_at) f.(file_ready)
          (u32 (count_rows (fun t => t.(ft_file_id) = f.(file_id)) db.(file_tokens)))
          (u32 (count_rows (fun t => t.(ft_file_id) = f.(file_id) /\ t.(ft_redeemed) = true) db.(file_tokens)))).

(** src/server/relay_store.h 143-143 TokenCheck *)
Inductive TokenCheck := Check_Ok | Check_NoSuchFile | Check_NotReady | Check_Expired | Check_BadToken | Check_AlreadyRedeemed.

(** src/server/relay_store.cpp 513-530 check_file_token *)
Definition check_file_token (db : DB) (fid token_hash : bytes) (now : Z) : TokenCheck :=
  match select_first (fun f => f.(file_id) = fid) db.(files) with
  | None => Check_NoSuchFile
  | Some f =>
      match select_first (fun t => t.(ft_file_id) = fid /\ t.(ft_token_hash) = token_hash) db.(file_tokens) with
      | None => Check_BadToken
      | Some t =>
          if t.(ft_redeemed) then Check_AlreadyRedeemed else
          if negb f.(file_ready) then Check_NotReady else
          if f.(file_expires_at) <=? now then Check_Expired else
          Check_Ok
      end
  end.

(** src/server/relay_store.h 145-145 RedeemResult *)
Inductive RedeemResult := Redeem_Ok | Redeem_NoSuchFile | Redeem_BadToken | Redeem_AlreadyRedeemed.

(** The second component is [*all_redeemed].
    src/server/relay_store.cpp 532-560 redeem_file_token *)
Definition redeem_file_token (db : DB) (fid token_hash : bytes) : RedeemResult * bool * DB :=
  if negb (exists_row (fun f => f.(file_id) = fid) db.(files)) then (Redeem_NoSuchFile, false, db) else
  match select_first (fun t => t.(ft_file_id) = fid /\ t.(ft_token_hash) = token_hash) db.(file_tokens) with
  | None => (Redeem_BadToken, false, db)
  | Some t =>
      if t.(ft_redeemed) then (Redeem_AlreadyRedeemed, false, db) else
      let tx :=
        set_file_tokens
          (update_rows (fun t => t.(ft_file_id) = fid /\ t.(ft_token_hash) = token_hash)
            (fun t => mkFileTokenRow t.(ft_file_id) t.(ft_token_hash) true) db.(file_tokens)) db in
      let left := count_rows (fun t => t.(ft_file_id) = fid /\ t.(ft_redeemed) = false) tx.(file_tokens) in
      if left =? 0 then (Redeem_Ok, true, delete_files (fun f => f.(file_id) = fid) tx)
      else (Redeem_Ok, false, tx)
  end.

(** src/server/relay_store.cpp 562-567 delete_file *)
Definition delete_file (db : DB) (fid owner : bytes) : bool * DB :=
  match owner with
  | [] =>
      let P := fun f => f.(file_id) = fid in
      (0 <? count_rows P db.(files), delete_files P db)
  | _ =>
      let P := fun f => f.(file_id) = fid /\ f.(file_owner) = owner in
      (0 <? count_rows P db.(files), delete_files P db)
  end.

(** src/server/relay_store.cpp 569-581 sweep_files *)
Definition sweep_files (db : DB) (now abandoned_before : Z) : list bytes * DB :=
  let gone :=
    map file_id
      (filter (fun f => f.(file_expires_at) <= now \/ (f.(file_ready) = false /\ f.(file_created_at) <= abandoned_before))
        db.(files)) in
  (gone, foldl (fun tx id => delete_files (fun f => f.(file_id) = id) tx) db gone).

(** src/server/relay_store.cpp 583-589 all_file_ids *)
Definition all_file_ids (db : DB) : list bytes := map file_id db.(files).

(** src/server/relay_store.cpp 591-596 owner_file_bytes *)
Definition owner_file_bytes (db : DB) (owner : bytes) : option Z :=
  let? s := sql_sum file_total_size (filter (fun f => f.(file_owner) = owner) db.(files)) in
  Some (u64 s).

(** ** Keyrings *)

(** [INSERT OR REPLACE]; the mailbox must exist.
    src/server/relay_store.cpp 598-601 put_keyring *)
Definition put_keyring (db : DB) (mailbox_id blob : bytes) (now : Z) : option (unit * DB) :=
  if references mb_id mailbox_id db.(mailboxes)
  then Some (tt, set_keyrings (insert_or_replace kr_mailbox_id (mkKeyringRow mailbox_id blob now) db.(keyrings)) db)
  else None.

(** src/server/relay_store.cpp 603-609 get_keyring *)
Definition get_keyring (db : DB) (mailbox_id : bytes) : option bytes :=
  kr_blob <$> select_first (fun k => k.(kr_mailbox_id) = mailbox_id) db.(keyrings).

(** ** Chat archives *)

(** src/server/relay_store.h 176-176 CreateArchiveResult *)
Inductive CreateArchiveResult := Create_Ok | Create_Exists | Create_LimitReached.

(** [INSERT OR IGNORE INTO archive_join_tokens]. *)
Definition add_join_token (archive_id : bytes) (tx : DB) (h : bytes) : DB :=
  set_archive_join_tokens (insert_or_ignore jt_key (mkJoinTokenRow archive_id h) tx.(archive_join_tokens)) tx.

(** src/server/relay_store.cpp 611-630 create_archive *)
Definition create_archive (db : DB) (archive_id : bytes) (join_token_hashes : list bytes) (genesis_hash : bytes)
    (now closes_at max_archives : Z) : option (CreateArchiveResult * DB) :=
  if exists_row (fun a => a.(ar_id) = archive_id) db.(archives) then Some (Create_Exists, db) else
  if max_archives <=? size db.(archives) then Some (Create_LimitReached, db) else
  let? tx := insert_archive
               (mkArchiveRow archive_id (size join_token_hashes) now closes_at 0 genesis_hash 0 now) db in
  Some (Create_Ok, foldl (add_join_token archive_id) tx join_token_hashes).

(** src/server/relay_store.h 181-181 JoinResult *)
Inductive JoinResult := Join_Ok | Join_NoSuchArchive | Join_BadToken | Join_Closed | Join_KeyExists.

(** src/server/relay_store.cpp 632-666 join_archive *)
Definition join_archive (db : DB) (archive_id token_hash key_hash public_key : bytes) (now : Z)
    : option (JoinResult * DB) :=
  match select_first (fun a => a.(ar_id) = archive_id) db.(archives) with
  | None => Some (Join_NoSuchArchive, db)
  | Some a =>
      if negb (exists_row (fun t => t.(jt_archive_id) = archive_id /\ t.(jt_token_hash) = token_hash)
                 db.(archive_join_tokens))
      then Some (Join_BadToken, db) else
      let joined := count_rows (fun k => k.(ak_archive_id) = archive_id) db.(archive_keys) in
      if (a.(ar_member_count) <=? joined) || (a.(ar_closes_at) <=? now) then Some (Join_Closed, db) else
      if exists_row (fun k => k.(ak_archive_id) = archive_id /\ k.(ak_key_hash) = key_hash) db.(archive_keys)
      then Some (Join_KeyExists, db) else
      let? tx := insert_archive_key (mkArchiveKeyRow archive_id key_hash public_key now) db in
      let tx :=
        set_archive_join_tokens
          (delete_rows (fun t => t.(jt_archive_id) = archive_id /\ t.(jt_token_hash) = token_hash)
            tx.(archive_join_tokens)) tx in
      Some (Join_Ok, tx)
  end.

(** src/server/relay_store.cpp 668-674 archive_member_key *)
Definition archive_member_key (db : DB) (archive_id key_hash : bytes) : option bytes :=
  ak_public_key <$>
    select_first (fun k => k.(ak_archive_id) = archive_id /\ k.(ak_key_hash) = key_hash) db.(archive_keys).

(** src/server/relay_store.h 165-168 ArchiveState *)
Record ArchiveState := mkArchiveState { ArchiveState_number : Z; ArchiveState_hash : bytes }.

(** src/server/relay_store.h 169-175 ArchiveInfo *)
Record ArchiveInfo := mkArchiveInfo {
  ArchiveInfo_member_count : Z;
  ArchiveInfo_joined : Z;
  ArchiveInfo_registration_open : bool;
  ArchiveInfo_head : ArchiveState;
  ArchiveInfo_bytes : Z;
}.

(** src/server/relay_store.cpp 676-692 archive_info *)
Definition archive_info (db : DB) (archive_id : bytes) (now : Z) : option ArchiveInfo :=
  let? a := select_first (fun a => a.(ar_id) = archive_id) db.(archives) in
  let joined := count_rows (fun k => k.(ak_archive_id) = archive_id) db.(archive_keys) in
  Some (mkArchiveInfo (u64 a.(ar_member_count)) joined
          ((joined <? u64 a.(ar_member_count)) && (now <? a.(ar_closes_at)))
          (mkArchiveState (u64 a.(ar_head_number)) a.(ar_head_hash)) (u64 a.(ar_bytes))).

(** src/server/relay_store.cpp 694-698 archive_count *)
Definition archive_count (db : DB) : Z := size db.(archives).

(** src/server/relay_store.h 187-187 AppendResult *)
Inductive AppendResult := Append_Ok | Append_Stale | Append_ArchiveFull | Append_NoSuchArchive.

(** The second component is [*head]: untouched ([None]) if there is no archive.
    src/server/relay_store.cpp 700-731 append_entry *)
Definition append_entry (db : DB) (archive_id : bytes) (expected_number : Z) (expected_hash new_hash ciphertext : bytes)
    (now quota_bytes : Z) : option (AppendResult * option ArchiveState * DB) :=
  match select_first (fun a => a.(ar_id) = archive_id) db.(archives) with
  | None => Some (Append_NoSuchArchive, None, db)
  | Some a =>
      let current := mkArchiveState (u64 a.(ar_head_number)) a.(ar_head_hash) in
      let bytes_ := u64 a.(ar_bytes) in
      if negb (current.(ArchiveState_number) =? expected_number)
         || negb (bool_decide (current.(ArchiveState_hash) = expected_hash))
      then Some (Append_Stale, Some current, db) else
      if quota_bytes <? u64 (bytes_ + size ciphertext) then Some (Append_ArchiveFull, Some current, db) else
      let number := u64 (current.(ArchiveState_number) + 1) in
      let? tx := insert_entry (mkEntryRow archive_id (i64 number) new_hash ciphertext now false) db in
      let tx :=
        set_archives
          (update_rows (fun a => a.(ar_id) = archive_id)
            (fun a => mkArchiveRow a.(ar_id) a.(ar_member_count) a.(ar_created_at) a.(ar_closes_at)
                        (i64 number) new_hash (i64 (u64 (bytes_ + size ciphertext))) now)
            tx.(archives)) tx in
      Some (Append_Ok, Some (mkArchiveState number new_hash), tx)
  end.

(** src/server/relay_store.cpp 733-740 archive_member_keys *)
Definition archive_member_keys (db : DB) (archive_id : bytes) : list (bytes * bytes) :=
  map (fun k => (k.(ak_key_hash), k.(ak_public_key)))
    (sort_by (order_by ak_joined_at ak_key_hash)
      (filter (fun k => k.(ak_archive_id) = archive_id) db.(archive_keys))).

(** src/server/relay_store.cpp 742-746 delete_archive *)
Definition delete_archive (db : DB) (archive_id : bytes) : bool * DB :=
  let P := fun a => a.(ar_id) = archive_id in
  (0 <? count_rows P db.(archives), delete_archives P db).

(** src/server/relay_store.h 206-206 RedactResult *)
Inductive RedactResult := Redact_Ok | Redact_NoSuchArchive | Redact_UnknownEntry.

(** One iteration of the redaction loop: [None] if the hash is not an entry's.
    src/server/relay_store.cpp 757-768 redact_entries *)
Definition redact_one (archive_id hash : bytes) (st : Z * DB) : option (Z * DB) :=
  let '(freed, tx) := st in
  let P := fun e => e.(en_archive_id) = archive_id /\ e.(en_hash) = hash in
  match select_first P tx.(archive_entries) with
  | None => None
  | Some e =>
      Some (freed + size e.(en_ciphertext),
            set_archive_entries
              (update_rows P (fun e => mkEntryRow e.(en_archive_id) e.(en_number) e.(en_hash) [] e.(en_appended_at) true)
                tx.(archive_entries)) tx)
  end.

Fixpoint redact_loop (archive_id : bytes) (entry_hashes : list bytes) (st : Z * DB) : option (Z * DB) :=
  match entry_hashes with
  | [] => Some st
  | h :: hs => let? st := redact_one archive_id h st in redact_loop archive_id hs st
  end.

(** src/server/relay_store.cpp 748-772 redact_entries *)
Definition redact_entries (db : DB) (archive_id : bytes) (entry_hashes : list bytes) : RedactResult * DB :=
  if negb (exists_row (fun a => a.(ar_id) = archive_id) db.(archives)) then (Redact_NoSuchArchive, db) else
  match redact_loop archive_id entry_hashes (0, db) with
  | None => (Redact_UnknownEntry, db)
  | Some (freed, tx) =>
      (Redact_Ok,
       set_archives
         (update_rows (fun a => a.(ar_id) = archive_id)
           (fun a => mkArchiveRow a.(ar_id) a.(ar_member_count) a.(ar_created_at) a.(ar_closes_at)
                       a.(ar_head_number) a.(ar_head_hash) (a.(ar_bytes) - freed) a.(ar_last_activity))
           tx.(archives)) tx)
  end.

(** src/server/relay_store.h 193-198 StoredEntry *)
Record StoredEntry := mkStoredEntry {
  StoredEntry_number : Z;
  StoredEntry_hash : bytes;
  StoredEntry_ciphertext : bytes;
  StoredEntry_redacted : bool;
}.

Definition by_number (x y : EntryRow) : bool := x.(en_number) <=? y.(en_number).

Definition stored_entry_of (e : EntryRow) : StoredEntry :=
  mkStoredEntry (u64 e.(en_number)) e.(en_hash) e.(en_ciphertext) e.(en_redacted).

(** src/server/relay_store.cpp 774-781 fetch_entries *)
Definition fetch_entries (db : DB) (archive_id : bytes) (from_number limit : Z) : list StoredEntry :=
  map stored_entry_of
    (sql_limit limit
      (sort_by by_number
        (filter (fun e => e.(en_archive_id) = archive_id /\ i64 from_number <= e.(en_number)) db.(archive_entries)))).

(** ** Sweeping *)

(** src/server/relay_store.h 214-218 Swept *)
Record Swept := mkSwept { Swept_envelopes : Z; Swept_invites : Z; Swept_archives : Z }.

(** An archive whose registration closed with nobody in it. *)
Definition abandoned (db : DB) (now : Z) (a : ArchiveRow) : Prop :=
  a.(ar_closes_at) <= now /\ exists_row (fun k => k.(ak_archive_id) = a.(ar_id)) db.(archive_keys) = false.
#[global] Instance abandoned_dec db now a : Decision (abandoned db now a).
Proof. unfold abandoned. apply _. Defined.

(** src/server/relay_store.cpp 783-795 sweep *)
Definition sweep (db : DB) (now : Z) : Swept * DB :=
  let expired_e := fun e => e.(env_expires_at) <= now in
  let expired_i := fun i => i.(inv_expires_at) <= now in
  let envelopes_swept := count_rows expired_e db.(envelopes) in
  let db := set_envelopes (delete_rows expired_e db.(envelopes)) db in
  let invites_swept := count_rows expired_i db.(invites) in
  let db := set_invites (delete_rows expired_i db.(invites)) db in
  let archives_swept := count_rows (abandoned db now) db.(archives) in
  (mkSwept envelopes_swept invites_swept archives_swept, delete_archives (abandoned db now) db).
