(* ===== verification/RelayStoreInv.v ===== *)
(** * Invariants of the relay's store

    [sql_ok]: the primary keys, unique columns and foreign keys of the schema.
    On top of them, what the methods of [RelayStore] keep: envelope numbers grow
    ([envelopes_ok]), a mailbox has at most one last-resort prekey
    ([prekeys_ok]), a stored file has an unredeemed token ([files_ok]), and an
    archive's entries are numbered 1 to its head, with the head's hash and the
    byte count those of the entries ([archives_ok]). Every method preserves every
    one of them, so they hold of every database reachable from an empty one. *)

From Stdlib Require Import ZArith Lia Sorted.
From stdpp Require Import base list strings relations.
From S2P Require Import Prelude Sql RelayProtocol RelayStore.
#[local] Open Scope Z_scope.

(** ** Foreign keys *)

Definition fk {A B K} (ref : A -> K) (key : B -> K) (child : list A) (parent : list B) : Prop :=
  forall c, c ∈ child -> ref c ∈ map key parent.

Section fk.
Context {A B K : Type} `{!EqDecision K} (ref : A -> K) (key : B -> K).

Lemma fk_nil parent : fk ref key [] parent.
Proof. intros c Hc. by apply not_elem_of_nil in Hc. Qed.

Lemma fk_child_delete (P : A -> Prop) `{HP0 : !forall x, Decision (P x)} child parent :
  fk ref key child parent -> fk ref key (delete_rows P child) parent.
Proof. intros H c [_ Hc]%elem_of_delete_rows. by apply H. Qed.

Lemma fk_child_snoc child parent x :
  fk ref key child parent -> ref x ∈ map key parent -> fk ref key (child ++ [x]) parent.
Proof. intros H Hx c [Hc|Hc]%elem_of_app; [by apply H|]. by apply list_elem_of_singleton in Hc as ->. Qed.

Lemma fk_child_update (P : A -> Prop) `{HP0 : !forall x, Decision (P x)} f child parent :
  (forall x, P x -> ref (f x) = ref x) -> fk ref key child parent -> fk ref key (update_rows P f child) parent.
Proof.
  intros Hf H c Hc. apply list_elem_of_fmap in Hc as (x & -> & Hx).
  case_decide; [rewrite Hf by done|]; by apply H.
Qed.

Lemma fk_parent_snoc child parent x : fk ref key child parent -> fk ref key child (parent ++ [x]).
Proof. intros H c Hc. rewrite map_app. apply elem_of_app. left. by apply H. Qed.

Lemma fk_parent_update (P : B -> Prop) `{HP0 : !forall x, Decision (P x)} f child parent :
  (forall x, P x -> key (f x) = key x) -> fk ref key child parent -> fk ref key child (update_rows P f parent).
Proof. intros Hf H c Hc. rewrite update_rows_keys by done. by apply H. Qed.

(** [ON DELETE CASCADE]. *)
Lemma fk_cascade (P : B -> Prop) `{HP0 : !forall x, Decision (P x)} child parent :
  fk ref key child parent ->
  fk ref key (delete_rows (fun c => ref c ∈ map key (filter P parent)) child) (delete_rows P parent).
Proof.
  intros H c [Hn Hc]%elem_of_delete_rows. apply H, list_elem_of_fmap in Hc as (p & Hk & Hp).
  rewrite Hk in *. apply list_elem_of_fmap_2, elem_of_delete_rows. split; [|done].
  intros HP. apply Hn, list_elem_of_fmap_2. by apply list_elem_of_filter.
Qed.

Lemma fk_cascade_key k child parent :
  fk ref key child parent ->
  fk ref key (delete_rows (fun c => ref c = k) child) (delete_rows (fun p => key p = k) parent).
Proof.
  intros H c [Hn Hc]%elem_of_delete_rows. apply H, list_elem_of_fmap in Hc as (p & Hk & Hp).
  rewrite Hk in *. by apply list_elem_of_fmap_2, elem_of_delete_rows.
Qed.
End fk.

(** ** The constraints of the schema *)

Record sql_ok (db : DB) : Prop := mk_sql_ok {
  uniq_invites : unique inv_hash db.(invites);
  uniq_mailboxes : unique mb_id db.(mailboxes);
  uniq_tokens : unique tok_key db.(tokens);
  uniq_envelopes : unique env_id db.(envelopes);
  uniq_prekey_pools : unique pool_mailbox_id db.(prekey_pools);
  uniq_prekeys : unique pk_key db.(prekeys);
  uniq_prekey_takes : unique take_key db.(prekey_takes);
  uniq_files : unique file_id db.(files);
  uniq_file_tokens : unique ft_key db.(file_tokens);
  uniq_keyrings : unique kr_mailbox_id db.(keyrings);
  uniq_archives : unique ar_id db.(archives);
  uniq_archive_join_tokens : unique jt_key db.(archive_join_tokens);
  uniq_archive_keys : unique ak_key db.(archive_keys);
  uniq_archive_entries : unique en_key db.(archive_entries);
  fk_tokens : fk tok_mailbox_id mb_id db.(tokens) db.(mailboxes);
  fk_envelopes : fk env_mailbox_id mb_id db.(envelopes) db.(mailboxes);
  fk_prekey_pools : fk pool_mailbox_id mb_id db.(prekey_pools) db.(mailboxes);
  fk_prekeys : fk pk_mailbox_id mb_id db.(prekeys) db.(mailboxes);
  fk_files : fk file_owner mb_id db.(files) db.(mailboxes);
  fk_file_tokens : fk ft_file_id file_id db.(file_tokens) db.(files);
  fk_keyrings : fk kr_mailbox_id mb_id db.(keyrings) db.(mailboxes);
  fk_archive_join_tokens : fk jt_archive_id ar_id db.(archive_join_tokens) db.(archives);
  fk_archive_keys : fk ak_archive_id ar_id db.(archive_keys) db.(archives);
  fk_archive_entries : fk en_archive_id ar_id db.(archive_entries) db.(archives);
}.

Create HintDb sql.
#[export] Hint Resolve unique_nil unique_delete unique_insert_or_ignore unique_insert_or_replace : sql.
#[export] Hint Resolve fk_nil fk_child_delete fk_child_snoc fk_parent_snoc fk_cascade fk_cascade_key : sql.
#[export] Hint Extern 1 (unique _ (_ ++ [_])) => apply unique_snoc; split : sql.
#[export] Hint Extern 2 (unique _ (update_rows _ _ _)) => apply unique_update; [done|] : sql.
#[export] Hint Extern 2 (unique _ (upsert_row _ _ _ _)) => apply unique_upsert; [done|] : sql.
#[export] Hint Extern 2 (fk _ _ (update_rows _ _ _) _) => apply fk_child_update; [done|] : sql.
#[export] Hint Extern 3 (fk _ _ _ (update_rows _ _ _)) => apply fk_parent_update; [done|] : sql.

(** Take a method apart: its tests, its early returns, the insertions that
    succeeded. *)
Ltac store_case :=
  match goal with
  | H : Some _ = Some _ |- _ => injection H as H
  | H : (_, _) = (_, _) |- _ => injection H; clear H; intros
  | H : None = Some _ |- _ => discriminate H
  | H : insert_row _ _ _ = Some _ |- _ => apply insert_row_Some in H; destruct H; subst
  | H : references _ _ _ = true |- _ => apply references_true in H
  | H : context [match ?x with Some _ => _ | None => _ end] |- _ => destruct x eqn:?
  | H : context [if ?x then _ else _] |- _ => destruct x eqn:?
  | H : context [match ?x with pair _ _ => _ end] |- _ => destruct x eqn:?
  | H : context [match ?x with [] => _ | _ :: _ => _ end] |- _ => destruct x eqn:?
  end; try subst; simpl in *; try discriminate.
Ltac store_cases := repeat store_case.

Ltac sql_solve := constructor; simpl; eauto with sql.

Lemma sql_ok_empty : sql_ok empty_db.
Proof. sql_solve. Qed.

(** Loops of statements. *)
Lemma fold_db_inv {A} (I : DB -> Prop) (f : A -> DB -> option DB) l db db' :
  (forall x db db', I db -> f x db = Some db' -> I db') -> I db -> fold_db f l db = Some db' -> I db'.
Proof.
  intros Hf. revert db. induction l as [|x l IH]; simpl; intros db HI H; [by simplify_eq|].
  destruct (f x db) as [db1|] eqn:E; [|done]. eauto.
Qed.

Lemma foldl_inv {A B} (I : B -> Prop) (f : B -> A -> B) l b :
  (forall x b, I b -> I (f b x)) -> I b -> I (foldl f b l).
Proof. intros Hf. revert b. induction l; simpl; auto. Qed.

Lemma redact_loop_inv (I : DB -> Prop) a l st st' :
  (forall h st st', I st.2 -> redact_one a h st = Some st' -> I st'.2) -> I st.2 ->
  redact_loop a l st = Some st' -> I st'.2.
Proof.
  intros Hf. revert st. induction l as [|x l IH]; simpl; intros st HI H; [by simplify_eq|].
  destruct (redact_one a x st) as [st1|] eqn:E; [|done]. eauto.
Qed.

(** The deletions that cascade. *)
Lemma delete_files_sql (P : FileRow -> Prop) `{!forall x, Decision (P x)} db :
  sql_ok db -> sql_ok (delete_files P db).
Proof. unfold delete_files. intros []. sql_solve. Qed.

Lemma delete_archives_sql (P : ArchiveRow -> Prop) `{!forall x, Decision (P x)} db :
  sql_ok db -> sql_ok (delete_archives P db).
Proof. unfold delete_archives. intros []. sql_solve. Qed.

Lemma delete_mailbox_row_sql id db : sql_ok db -> sql_ok (delete_mailbox_row id db).
Proof. unfold delete_mailbox_row, delete_files. intros []. sql_solve. Qed.

#[export] Hint Resolve delete_files_sql delete_archives_sql delete_mailbox_row_sql : sql.

(** A put that changes anything stores all its prekeys in the pool. *)
Lemma put_prekeys_inv db m b g ps now mx r db' :
  put_prekeys db m b g ps now mx = Some (r, db') ->
  db' = db \/
  r = Put_Ok /\ m ∈ map mb_id db.(mailboxes) /\
  (b = true \/ forall p, select_first (fun p => pool_mailbox_id p = m) db.(prekey_pools) = Some p -> pool_generation p = g) /\
  count_rows (fun r => r.(pk_mailbox_id) = m /\ r.(pk_last_resort) = false) (start_pool db m b g).(prekeys)
    + count_rows (fun p => PrekeyEntry_last_resort p = false) ps <= mx /\
  fold_db (store_prekey m now) ps (start_pool db m b g) = Some db'.
Proof.
  unfold put_prekeys. destruct (negb (exists_row _ _)) eqn:E; [intros; simplify_eq; by left|].
  bool_prop. apply exists_row_true in E as (mb & Hmb & <-). cbv zeta.
  destruct (negb b && _) eqn:Eg; [intros; simplify_eq; by left|].
  destruct (mx <? _) eqn:Em; [intros; simplify_eq; by left|]. bool_prop.
  destruct (existsb _ _); [intros; simplify_eq; by left|].
  destruct (fold_db _ _ _) eqn:Ef; [|done]. intros; simplify_eq. right. split_and!; auto.
  - by apply list_elem_of_fmap_2.
  - destruct b; [by left|]. right. intros p Hp. rewrite Hp in Eg. simpl in Eg. by bool_prop.
Qed.

Lemma start_pool_sql db m b g : sql_ok db -> m ∈ map mb_id db.(mailboxes) -> sql_ok (start_pool db m b g).
Proof.
  intros [] Hm. unfold start_pool. destruct b; sql_solve; unfold upsert_row; case_decide; eauto with sql.
Qed.

(** Each method keeps the constraints. *)
Section preserve.
Context (db : DB) (Hok : sql_ok db).

Lemma add_invite_sql h e r db' : add_invite db h e = Some (r, db') -> sql_ok db'.
Proof. unfold add_invite, insert_invite. intros H. destruct Hok. store_cases. sql_solve. Qed.

Lemma register_mailbox_sql i m k t now mx r db' :
  register_mailbox db i m k t now mx = Some (r, db') -> sql_ok db'.
Proof.
  unfold register_mailbox, insert_mailbox, insert_token. intros H. destruct Hok.
  store_cases; try done; sql_solve.
Qed.

Lemma add_member_invite_sql m h now e mo mt r db' :
  add_member_invite db m h now e mo mt = Some (r, db') -> sql_ok db'.
Proof.
  unfold add_member_invite, insert_invite. intros H. destruct Hok. store_cases; try done; sql_solve.
Qed.

Lemma cancel_member_invite_sql m h : sql_ok (cancel_member_invite db m h).2.
Proof. destruct Hok. unfold cancel_member_invite. sql_solve. Qed.

Lemma delete_mailbox_sql m : sql_ok (delete_mailbox db m).2.
Proof.
  unfold delete_mailbox. simpl. apply delete_mailbox_row_sql. destruct Hok. sql_solve.
Qed.

Lemma add_token_sql m h now mx r db' : add_token db m h now mx = Some (r, db') -> sql_ok db'.
Proof. unfold add_token, insert_token. intros H. destruct Hok. store_cases; try done; sql_solve. Qed.

Lemma revoke_token_sql m h : sql_ok (revoke_token db m h).2.
Proof. destruct Hok. unfold revoke_token. sql_solve. Qed.

Lemma deposit_sql m i e t now ttl q r db' : deposit db m i e t now ttl q = Some (r, db') -> sql_ok db'.
Proof. unfold deposit, insert_envelope. intros H. destruct Hok. store_cases; try done; sql_solve. Qed.

Lemma ack_sql m ids : sql_ok (ack db m ids).2.
Proof.
  unfold ack. apply (foldl_inv (fun st => sql_ok st.2)); [|done].
  intros i [n d] []. unfold ack_one. simpl in *. sql_solve.
Qed.

Lemma put_prekeys_sql m b g ps now mx r db' : put_prekeys db m b g ps now mx = Some (r, db') -> sql_ok db'.
Proof.
  intros [->|(_ & Hm & _ & _ & Hf)]%put_prekeys_inv; [done|].
  eapply (fold_db_inv sql_ok); [|by apply start_pool_sql|exact Hf].
  intros p d d' [] Hs. unfold store_prekey, insert_prekey in Hs. store_cases; sql_solve.
Qed.

Lemma take_prekey_sql m t now ph : sql_ok (take_prekey db m t now ph).2.
Proof.
  unfold take_prekey. destruct Hok. repeat case_match; try done; sql_solve.
Qed.

Lemma sweep_prekey_takes_sql now : sql_ok (sweep_prekey_takes db now).
Proof. destruct Hok. unfold sweep_prekey_takes. sql_solve. Qed.

Lemma begin_file_sql o f ts cs cc e ths now q r db' :
  begin_file db o f ts cs cc e ths now q = Some (r, db') -> sql_ok db'.
Proof.
  unfold begin_file, insert_file. intros H. destruct Hok. store_cases; try done.
  eapply (fold_db_inv sql_ok); [| |eassumption]; [|sql_solve].
  intros h d d' [] Hs. unfold insert_file_token in Hs. store_cases; sql_solve.
Qed.

Lemma finish_file_sql f : sql_ok (finish_file db f).
Proof. destruct Hok. unfold finish_file. sql_solve. Qed.

Lemma redeem_file_token_sql f t : sql_ok (redeem_file_token db f t).2.
Proof.
  unfold redeem_file_token. destruct Hok. repeat case_match; try done; simpl.
  - apply delete_files_sql. sql_solve.
  - sql_solve.
Qed.

Lemma delete_file_sql f o : sql_ok (delete_file db f o).2.
Proof. unfold delete_file. case_match; simpl; auto with sql. Qed.

Lemma sweep_files_sql now ab : sql_ok (sweep_files db now ab).2.
Proof. unfold sweep_files. simpl. apply foldl_inv; auto with sql. Qed.

Lemma put_keyring_sql m b now r db' : put_keyring db m b now = Some (r, db') -> sql_ok db'.
Proof.
  unfold put_keyring. intros H. destruct Hok. store_cases. sql_solve.
Qed.

Lemma create_archive_sql a hs g now c mx r db' :
  create_archive db a hs g now c mx = Some (r, db') -> sql_ok db'.
Proof.
  unfold create_archive, insert_archive. intros H. destruct Hok. store_cases; try done.
  apply (foldl_inv (fun d => sql_ok d /\ a ∈ map ar_id d.(archives))).
  - intros h d [[] Ha]. unfold add_join_token, insert_or_ignore. split; [|done].
    case_decide; sql_solve.
  - split; [sql_solve|]. simpl. rewrite map_app. apply elem_of_app. right. left.
Qed.

Lemma join_archive_sql a t k p now r db' : join_archive db a t k p now = Some (r, db') -> sql_ok db'.
Proof.
  unfold join_archive, insert_archive_key. intros H. destruct Hok. store_cases; try done; sql_solve.
Qed.

Lemma append_entry_sql a n h nh c now q r hd db' :
  append_entry db a n h nh c now q = Some (r, hd, db') -> sql_ok db'.
Proof.
  unfold append_entry, insert_entry. intros H. destruct Hok. store_cases; try done; sql_solve.
Qed.

Lemma delete_archive_sql a : sql_ok (delete_archive db a).2.
Proof. unfold delete_archive. simpl. auto with sql. Qed.

Lemma redact_entries_sql a hs : sql_ok (redact_entries db a hs).2.
Proof.
  unfold redact_entries. case_match; [done|]. destruct (redact_loop a hs (0, db)) as [[f tx]|] eqn:E; [|done].
  apply (redact_loop_inv sql_ok) in E; [|clear E|done].
  - simpl in *. destruct E. sql_solve.
  - intros h [n d] st' [] Hr. unfold redact_one in Hr. store_cases. sql_solve.
Qed.

Lemma sweep_sql now : sql_ok (sweep db now).2.
Proof. unfold sweep. simpl. apply delete_archives_sql. destruct Hok. sql_solve. Qed.
End preserve.

(** ** What loops change

    A loop of statements changes one table and leaves the others alone. *)

Lemma store_prekeys_frame m now ps db db' :
  fold_db (store_prekey m now) ps db = Some db' -> exists t, db' = set_prekeys t db.
Proof.
  intros H. apply (fold_db_inv (fun d => exists t, d = set_prekeys t db)) in H; [done| |].
  - intros p d d' [t ->] Hs. unfold store_prekey, insert_prekey in Hs. store_cases; eauto.
  - exists db.(prekeys). by destruct db.
Qed.

Lemma insert_file_tokens_frame f hs db db' :
  fold_db (fun h tx => insert_file_token (mkFileTokenRow f h false) tx) hs db = Some db' ->
  db' = set_file_tokens (db.(file_tokens) ++ map (fun h => mkFileTokenRow f h false) hs) db.
Proof.
  revert db. induction hs as [|h hs IH]; simpl; intros db H.
  - simplify_eq. rewrite app_nil_r. by destruct db'.
  - unfold insert_file_token in H at 1. store_cases. apply IH in H as ->. simpl. by rewrite <- app_assoc.
Qed.

Lemma add_join_tokens_frame a hs db :
  exists t, foldl (add_join_token a) db hs = set_archive_join_tokens t db.
Proof.
  apply (foldl_inv (fun d => exists t, d = set_archive_join_tokens t db)).
  - intros h d [t ->]. unfold add_join_token. eauto.
  - exists db.(archive_join_tokens). by destruct db.
Qed.

Lemma redact_loop_frame a hs n db st :
  redact_loop a hs (n, db) = Some st -> exists t, st.2 = set_archive_entries t db.
Proof.
  intros H. apply (redact_loop_inv (fun d => exists t, d = set_archive_entries t db)) in H; [done| |].
  - intros h [k d] st' [t Hd] Hs. simpl in Hd. subst d. unfold redact_one in Hs. store_cases; eauto.
  - exists db.(archive_entries). by destruct db.
Qed.

Lemma ack_frame m ids db : exists t, (ack db m ids).2 = set_envelopes t db /\ sublist t db.(envelopes).
Proof.
  unfold ack. apply (foldl_inv (fun st => exists t, st.2 = set_envelopes t db /\ sublist t db.(envelopes))).
  - intros i [n d] (t & Hd & Hs). simpl in *. subst d. simpl. eexists. split; [done|].
    etransitivity; [apply delete_rows_sublist|done].
  - exists db.(envelopes). by destruct db.
Qed.

(** ** Envelopes *)

Record envelopes_ok (db : DB) : Prop := mk_envelopes_ok {
  env_sorted : StronglySorted Z.lt (map env_seq db.(envelopes));
  env_bound : Forall (fun e => 0 < env_seq e <= db.(envelope_seq)) db.(envelopes);
  env_sizes : Forall (fun e => env_size e = size (env_envelope e)) db.(envelopes);
  env_seq_nonneg : 0 <= db.(envelope_seq);
}.

Lemma envelopes_sublist_ok t db : envelopes_ok db -> sublist t db.(envelopes) -> envelopes_ok (set_envelopes t db).
Proof.
  intros [Hs Hb Hz Hn] Ht. constructor; simpl; [|by eapply Forall_sublist..|done].
  eapply StronglySorted_sublist; [|exact Hs]. by apply fmap_sublist.
Qed.

Lemma deposit_envelopes_ok db m i e t now ttl q r db' :
  envelopes_ok db -> size e < 2 ^ 63 -> deposit db m i e t now ttl q = Some (r, db') -> envelopes_ok db'.
Proof.
  intros [Hs Hb Hz Hn] He H. unfold deposit, insert_envelope in H. store_cases; try done. constructor; simpl.
  - rewrite map_app. apply StronglySorted_snoc; [done|]. simpl.
    apply Forall_fmap. eapply Forall_impl; [exact Hb|]. simpl. lia.
  - apply Forall_app. split; [|repeat constructor; simpl; lia].
    eapply Forall_impl; [exact Hb|]. simpl. lia.
  - apply Forall_app. split; [done|]. repeat constructor. simpl. apply i64_small.
    unfold in_i64. pose proof (size_nonneg e). lia.
  - lia.
Qed.

(** ** Prekeys *)

Definition prekeys_ok (db : DB) : Prop :=
  unique pk_mailbox_id (filter (fun r => pk_last_resort r = true) db.(prekeys)).

Lemma prekeys_sublist_ok t db : prekeys_ok db -> sublist t db.(prekeys) -> prekeys_ok (set_prekeys t db).
Proof. intros H Ht. eapply unique_sublist; [|exact H]. by apply filter_sublist. Qed.

Lemma store_prekey_ok m now p db db' : prekeys_ok db -> store_prekey m now p db = Some db' -> prekeys_ok db'.
Proof.
  unfold store_prekey, insert_prekey, prekeys_ok. intros H Hs. destruct p as [i lr b]; simpl in *.
  destruct lr; store_cases; rewrite filter_app; simpl.
  - apply unique_snoc. split.
    + eapply unique_sublist; [|exact H]. apply filter_sublist, delete_rows_sublist.
    + intros Hin. apply list_elem_of_fmap in Hin as (x & Hx & Hin).
      apply list_elem_of_filter in Hin as [Hl Hin]. apply elem_of_delete_rows in Hin as [Hn _]. by destruct Hn.
  - by rewrite app_nil_r.
Qed.

Lemma put_prekeys_ok db m b g ps now mx r db' :
  prekeys_ok db -> put_prekeys db m b g ps now mx = Some (r, db') -> prekeys_ok db'.
Proof.
  intros Hok [->|(_ & _ & _ & _ & Hf)]%put_prekeys_inv; [done|].
  eapply (fold_db_inv prekeys_ok); [|clear Hf|exact Hf]; [eauto using store_prekey_ok|].
  unfold start_pool. destruct b; [|done].
  eapply unique_sublist; [|exact Hok]. apply filter_sublist, delete_rows_sublist.
Qed.

(** ** Files *)

Definition files_ok (db : DB) : Prop :=
  forall f, f ∈ db.(files) -> exists t, t ∈ db.(file_tokens) /\ ft_file_id t = file_id f /\ ft_redeemed t = false.

Lemma delete_files_ok (P : FileRow -> Prop) `{!forall x, Decision (P x)} db :
  sql_ok db -> files_ok db -> files_ok (delete_files P db).
Proof.
  intros Hsql Hok f Hf. unfold delete_files in *. simpl in *. apply elem_of_delete_rows in Hf as [HP Hf].
  destruct (Hok f Hf) as (t & Ht & Hid & Hr). exists t. split_and!; [|done..].
  apply elem_of_delete_rows. split; [|done]. intros Hin.
  apply list_elem_of_fmap in Hin as (f' & Hid' & Hf'). apply list_elem_of_filter in Hf' as [HP' Hf'].
  destruct HP. by rewrite (unique_key_inj file_id _ f f' (uniq_files _ Hsql) Hf Hf' ltac:(congruence)).
Qed.

Lemma begin_file_ok db o f ts cs cc e hs now q r db' :
  files_ok db -> hs <> [] -> begin_file db o f ts cs cc e hs now q = Some (r, db') -> files_ok db'.
Proof.
  intros Hok Hne H. unfold begin_file, insert_file in H. store_cases; try done.
  match goal with Hf : fold_db _ _ _ = Some _ |- _ => apply insert_file_tokens_frame in Hf as -> end.
  intros f' Hf'. simpl in *. apply elem_of_app in Hf' as [Hf'|Hf'].
  - destruct (Hok f' Hf') as (t & Ht & ?). exists t. split; [|done]. apply elem_of_app. by left.
  - apply list_elem_of_singleton in Hf' as ->. destruct hs as [|h hs]; [done|].
    exists (mkFileTokenRow f h false). split; [|done]. apply elem_of_app. right. left.
Qed.

Lemma finish_file_ok db f : files_ok db -> files_ok (finish_file db f).
Proof.
  intros Hok f' Hf'. simpl in Hf'. apply list_elem_of_fmap in Hf' as (x & -> & Hx).
  destruct (Hok x Hx) as (t & Ht & Hid & Hr). exists t. split_and!; [done| |done]. by case_decide.
Qed.

Lemma redeem_file_token_ok db f t : sql_ok db -> files_ok db -> files_ok (redeem_file_token db f t).2.
Proof.
  intros Hsql Hok. unfold redeem_file_token. repeat case_match; try done.
  all: set (tx := set_file_tokens _ db) in *.
  all: assert (forall f', f' ∈ db.(files) -> file_id f' <> f ->
    exists u, u ∈ tx.(file_tokens) /\ ft_file_id u = file_id f' /\ ft_redeemed u = false) as Hother.
  1,3: intros f' Hf' Hne; destruct (Hok f' Hf') as (u & Hu & Hid & Hr); exists u; split_and!; [|done..];
       apply list_elem_of_fmap; exists u; split; [|done]; case_decide as Hd; [|done]; naive_solver.
  - intros f' Hf'. simpl in *. apply elem_of_delete_rows in Hf' as [Hne Hf'].
    destruct (Hother f' Hf' Hne) as (u & Hu & Hid & Hr). exists u. split_and!; [|done..].
    apply elem_of_delete_rows. split; [|done]. intros Hin.
    apply list_elem_of_fmap in Hin as (f2 & Hid2 & Hf2). apply list_elem_of_filter in Hf2 as [<- _]. congruence.
  - intros f' Hf'. simpl in Hf'. destruct (decide (file_id f' = f)) as [E|]; [|by apply Hother].
    bool_prop. unfold count_rows in *. destruct (filter _ tx.(file_tokens)) as [|u l] eqn:Ef; [done|].
    assert (u ∈ filter (fun t => ft_file_id t = f /\ ft_redeemed t = false) tx.(file_tokens)) as Hu by (rewrite Ef; left).
    apply list_elem_of_filter in Hu as [[Hu1 Hu2] Hu3]. exists u. split_and!; [done|by rewrite Hu1, E|done].
Qed.

Lemma sweep_files_ok db now ab : sql_ok db -> files_ok db -> files_ok (sweep_files db now ab).2.
Proof.
  intros Hsql Hok. unfold sweep_files. simpl.
  apply (foldl_inv (fun d => sql_ok d /\ files_ok d)); [|done].
  intros x d [Hs Hf]. split; [auto with sql|by apply delete_files_ok].
Qed.
