(* ===== verification/RelayArchive.v ===== *)
(** * The archives the relay keeps

    The invariant of the archive tables: what the relay stores for an archive is
    a chain that a member's [verify_chain] accepts, from the genesis hash to the
    archive's head, with entries numbered 1, 2, 3, ... and redacted ones kept as
    tombstones; the byte counter bounds what is stored; and the registered keys
    with the unspent join tokens are never more than the members. Each method of
    the store that touches an archive preserves it. *)

From Stdlib Require Import ZArith Lia.
From stdpp Require Import base list strings.
From S2P Require Import Prelude Wire RelayProtocol RelayProtocolSpec Crypto Archive Sql RelayStore RelayStoreInv.
#[local] Open Scope Z_scope.

(** ** Counting rows *)

Section counting.
Context {A : Type} (Q : A -> Prop) `{HQ : !forall x, Decision (Q x)}.

Lemma count_rows_app t k : count_rows Q (t ++ k) = count_rows Q t + count_rows Q k.
Proof. unfold count_rows. by rewrite filter_app, size_app. Qed.

Lemma count_rows_nonneg t : 0 <= count_rows Q t.
Proof. apply size_nonneg. Qed.

Lemma count_rows_single x : count_rows Q [x] = if decide (Q x) then 1 else 0.
Proof. unfold count_rows. rewrite filter_cons, filter_nil. by case_decide. Qed.

Lemma count_rows_none t : (forall x, x ∈ t -> ~ Q x) -> count_rows Q t = 0.
Proof.
  intros Hn. unfold count_rows. apply size_zero_iff. destruct (filter Q t) as [|x l] eqn:E; [done|].
  assert (x ∈ filter Q t) as Hx by (rewrite E; left). apply list_elem_of_filter in Hx as [? ?]. by destruct (Hn x).
Qed.

Lemma count_rows_sublist t k : sublist t k -> count_rows Q t <= count_rows Q k.
Proof. intros Hs. unfold count_rows, size. apply (filter_sublist Q), sublist_length in Hs. lia. Qed.

Lemma filter_delete_other (R : A -> Prop) `{HR : !forall x, Decision (R x)} t :
  (forall x, Q x -> ~ R x) -> filter Q (delete_rows R t) = filter Q t.
Proof.
  intros Hd. unfold delete_rows. rewrite list_filter_filter. apply list_filter_iff. naive_solver.
Qed.

(** Deleting a row that counts lowers the count. *)
Lemma count_rows_delete_lt (R : A -> Prop) `{HR : !forall x, Decision (R x)} t x :
  x ∈ t -> R x -> Q x -> count_rows Q (delete_rows R t) + 1 <= count_rows Q t.
Proof.
  intros Hx HRx HQx. induction t as [|y t IH]; [by apply not_elem_of_nil in Hx|].
  unfold count_rows, delete_rows in *. rewrite !filter_cons.
  pose proof (sublist_length _ _ (filter_sublist Q _ _ (sublist_filter (fun x => ~ R x) t))) as Hle.
  apply elem_of_cons in Hx as [<-|Hx].
  - rewrite decide_False by tauto. rewrite (decide_True _ _ HQx). autorewrite with size. unfold size. lia.
  - specialize (IH Hx). repeat case_decide; rewrite ?filter_cons; repeat case_decide; autorewrite with size; tauto || lia.
Qed.
End counting.

(** ** The invariant *)

Section archives.
Context `{P : Primitives}.

Definition entries_of (db : DB) (id : bytes) : list EntryRow :=
  filter (fun e => e.(en_archive_id) = id) db.(archive_entries).

(** A stored entry as it is sent to a member. *)
Definition wire_entry (e : EntryRow) : ArchiveEntry :=
  mkArchiveEntry (u64 e.(en_number)) e.(en_hash) e.(en_ciphertext) e.(en_redacted).

Record archive_ok (db : DB) (a : ArchiveRow) : Prop := mk_archive_ok {
  ao_chain :
    verify_chain a.(ar_id) (mkHead 0 (genesis_hash a.(ar_id))) (map wire_entry (entries_of db a.(ar_id)))
    = Some (mkHead a.(ar_head_number) a.(ar_head_hash));
  ao_numbers : map en_number (entries_of db a.(ar_id)) = seqZ 1 a.(ar_head_number);
  ao_range : 0 <= a.(ar_head_number) < 2 ^ 63;
  ao_bytes : sum_by (fun e => size e.(en_ciphertext)) (entries_of db a.(ar_id)) <= a.(ar_bytes) < 2 ^ 63;
  ao_redacted : Forall (fun e => is_empty e.(en_ciphertext) = e.(en_redacted)) (entries_of db a.(ar_id));
  ao_members :
    count_rows (fun k => k.(ak_archive_id) = a.(ar_id)) db.(archive_keys)
    + count_rows (fun t => t.(jt_archive_id) = a.(ar_id)) db.(archive_join_tokens) <= a.(ar_member_count);
}.

Definition archives_ok (db : DB) : Prop := forall a, a ∈ db.(archives) -> archive_ok db a.

(** [archive_ok] looks at four tables only, and only at the rows of its archive. *)
Lemma archive_ok_ext db db' a :
  archive_ok db a ->
  entries_of db' a.(ar_id) = entries_of db a.(ar_id) ->
  count_rows (fun k => k.(ak_archive_id) = a.(ar_id)) db'.(archive_keys)
    + count_rows (fun t => t.(jt_archive_id) = a.(ar_id)) db'.(archive_join_tokens)
  <= count_rows (fun k => k.(ak_archive_id) = a.(ar_id)) db.(archive_keys)
    + count_rows (fun t => t.(jt_archive_id) = a.(ar_id)) db.(archive_join_tokens) ->
  archive_ok db' a.
Proof. intros [] He Hc. constructor; rewrite ?He; auto. lia. Qed.

(** ** Creating *)

Lemma add_join_tokens_self a hs db :
  count_rows (fun t => t.(jt_archive_id) = a) (foldl (add_join_token a) db hs).(archive_join_tokens)
  <= count_rows (fun t => t.(jt_archive_id) = a) db.(archive_join_tokens) + size hs.
Proof.
  revert db. induction hs as [|h hs IH]; intros db; simpl; [rewrite size_nil; lia|].
  etransitivity; [apply IH|]. rewrite size_cons. unfold add_join_token, insert_or_ignore. simpl.
  case_decide; [lia|]. rewrite count_rows_app, count_rows_single. case_decide; lia.
Qed.

Lemma add_join_tokens_other a b hs db : b <> a ->
  count_rows (fun t => t.(jt_archive_id) = b) (foldl (add_join_token a) db hs).(archive_join_tokens)
  = count_rows (fun t => t.(jt_archive_id) = b) db.(archive_join_tokens).
Proof.
  intros Hne. revert db. induction hs as [|h hs IH]; intros db; simpl; [done|].
  rewrite IH. unfold add_join_token, insert_or_ignore. simpl.
  case_decide; [done|]. rewrite count_rows_app, count_rows_single, decide_False by (simpl; congruence). lia.
Qed.

(** Rows that refer to an archive that is not there: none. *)
Lemma no_children {B} (ref : B -> bytes) child db id :
  fk ref ar_id child db.(archives) -> id ∉ map ar_id db.(archives) -> forall c, c ∈ child -> ~ ref c = id.
Proof. intros Hfk Hn c Hc <-. by apply Hn, Hfk. Qed.

Lemma create_archive_archives db id hs now closes mx r db' :
  sql_ok db -> archives_ok db ->
  create_archive db id hs (genesis_hash id) now closes mx = Some (r, db') -> archives_ok db'.
Proof.
  intros Hsql Hok H. unfold create_archive, insert_archive in H. store_cases; try done.
  set (row := mkArchiveRow _ _ _ _ _ _ _ _) in *. set (db1 := set_archives _ db) in *.
  destruct (add_join_tokens_frame id hs db1) as [t Ht].
  intros a Ha. assert (a ∈ db.(archives) ++ [row]) as Ha' by (by rewrite Ht in Ha). clear Ha.
  apply elem_of_app in Ha' as [Ha|Ha].
  - assert (ar_id a <> id) as Hne.
    { intros <-. match goal with Hn : _ ∉ map ar_id _ |- _ => apply Hn end. by apply list_elem_of_fmap_2. }
    apply (archive_ok_ext db); [by apply Hok|by rewrite Ht|]. rewrite add_join_tokens_other by done.
    by rewrite Ht.
  - apply list_elem_of_singleton in Ha as ->.
    assert (entries_of (foldl (add_join_token id) db1 hs) id = []) as He.
    { apply size_zero_iff. rewrite Ht. apply (count_rows_none (fun e => en_archive_id e = id)).
      exact (no_children en_archive_id _ db id (fk_archive_entries _ Hsql) H0). }
    assert (count_rows (fun k => ak_archive_id k = id) (foldl (add_join_token id) db1 hs).(archive_keys) = 0) as Hk.
    { rewrite Ht. apply count_rows_none. exact (no_children ak_archive_id _ db id (fk_archive_keys _ Hsql) H0). }
    assert (count_rows (fun k => jt_archive_id k = id) db1.(archive_join_tokens) = 0) as Hj.
    { apply count_rows_none. exact (no_children jt_archive_id _ db id (fk_archive_join_tokens _ Hsql) H0). }
    pose proof (add_join_tokens_self id hs db1) as Hs.
    constructor; cbn [ar_id ar_head_number ar_head_hash ar_bytes ar_member_count row];
      rewrite ?He; simpl; try done; try lia.
Qed.

(** ** Joining *)

Lemma join_archive_archives db id th kh pk now r db' :
  archives_ok db -> join_archive db id th kh pk now = Some (r, db') -> archives_ok db'.
Proof.
  intros Hok H. unfold join_archive, insert_archive_key in H. store_cases; try done.
  match goal with He : negb (exists_row _ _) = false |- _ =>
    apply negb_false_iff, exists_row_true in He as (t & Ht & Hid & Hth) end.
  intros a' Ha. apply (archive_ok_ext db); [by apply Hok|done|]. simpl.
  rewrite count_rows_app, count_rows_single. simpl. case_decide as Hd.
  - pose proof (count_rows_delete_lt (fun t => jt_archive_id t = ar_id a')
      (fun t => jt_archive_id t = id /\ jt_token_hash t = th) _ t Ht ltac:(done) ltac:(congruence)). lia.
  - pose proof (count_rows_sublist (fun t => jt_archive_id t = ar_id a') _ _
      (delete_rows_sublist (fun t => jt_archive_id t = id /\ jt_token_hash t = th) db.(archive_join_tokens))). lia.
Qed.

(** ** Appending *)

Definition append_row (id : bytes) (n : Z) (nh ct : bytes) (now : Z) : EntryRow :=
  mkEntryRow id (n + 1) nh ct now false.

(** What a successful append does, for a head in range. *)
Lemma append_entry_Ok db id n h nh ct now q r hd db' :
  sql_ok db -> archives_ok db -> n < 2 ^ 63 - 1 -> size ct < 2 ^ 63 -> q < 2 ^ 63 ->
  append_entry db id n h nh ct now q = Some (r, hd, db') ->
  db' = db \/
  exists a, a ∈ db.(archives) /\ ar_id a = id /\ ar_head_number a = n /\ ar_head_hash a = h /\
    r = Append_Ok /\ hd = Some (mkArchiveState (n + 1) nh) /\ ar_bytes a + size ct <= q /\
    db' = set_archives
            (update_rows (fun x => ar_id x = id)
              (fun x => mkArchiveRow (ar_id x) (ar_member_count x) (ar_created_at x) (ar_closes_at x)
                          (n + 1) nh (ar_bytes a + size ct) now) db.(archives))
            (set_archive_entries (db.(archive_entries) ++ [append_row id n nh ct now]) db).
Proof.
  intros Hsql Hok Hn Hct Hq H. unfold append_entry in H.
  destruct (select_first _ _) as [a|] eqn:Ea; [|simplify_eq; by left].
  apply select_first_Some in Ea as [Ha Hid]. pose proof (Hok a Ha) as [_ _ Hr Hb _ _].
  pose proof (sum_by_nonneg (fun e => size (en_ciphertext e)) (entries_of db (ar_id a))
    (fun _ _ => size_nonneg _)) as Hs0.
  pose proof (size_nonneg ct). cbv zeta in H. cbn [ArchiveState_number ArchiveState_hash] in H.
  rewrite !(u64_small (ar_head_number a)), !(u64_small (ar_bytes a)) in H by (unfold in_u64; lia).
  destruct (negb (ar_head_number a =? n) || _) eqn:Est; [simplify_eq; by left|]. bool_prop. subst n h.
  rewrite !(u64_small (ar_bytes a + size ct)), !(u64_small (ar_head_number a + 1)) in H by (unfold in_u64; lia).
  destruct (q <? _) eqn:Eq; [simplify_eq; by left|]. bool_prop.
  rewrite !(i64_small (ar_bytes a + size ct)), !(i64_small (ar_head_number a + 1)) in H by (unfold in_i64; lia).
  unfold insert_entry in H. store_cases. right. exists a. by split_and!.
Qed.

Lemma entries_of_app db id t :
  entries_of (set_archive_entries (db.(archive_entries) ++ t) db) id
  = entries_of db id ++ filter (fun e => e.(en_archive_id) = id) t.
Proof. apply filter_app. Qed.

Lemma append_entry_archives db id n h ct now q r hd db' :
  sql_ok db -> archives_ok db -> n < 2 ^ 63 - 1 -> 0 < size ct < 2 ^ 63 -> q < 2 ^ 63 ->
  append_entry db id n h (entry_hash id (u64 (n + 1)) h ct) ct now q = Some (r, hd, db') -> archives_ok db'.
Proof.
  intros Hsql Hok Hn Hct Hq H.
  apply append_entry_Ok in H as [->|(a & Ha & Hid & Hhn & Hhh & _ & _ & Hle & ->)]; [done| |done..|lia|done].
  pose proof (Hok a Ha) as Hoka. pose proof (ao_range _ _ Hoka) as Hr.
  set (row := append_row _ _ _ _ _). intros a' Ha'. simpl in Ha'.
  apply list_elem_of_fmap in Ha' as (x & -> & Hx). case_decide as Hd; cycle 1.
  { apply (archive_ok_ext db); [by apply Hok| |done].
    change (entries_of (set_archive_entries (db.(archive_entries) ++ [row]) db) (ar_id x) = entries_of db (ar_id x)).
    rewrite entries_of_app, filter_cons, decide_False by (simpl; congruence). by rewrite filter_nil, app_nil_r. }
  assert (x = a) as -> by (apply (unique_key_inj ar_id db.(archives)); [apply uniq_archives|..]; congruence).
  set (db' := set_archives _ _).
  assert (entries_of db' id = entries_of db id ++ [row]) as He.
  { change (entries_of (set_archive_entries (db.(archive_entries) ++ [row]) db) id = entries_of db id ++ [row]).
    by rewrite entries_of_app, filter_cons, decide_True. }
  destruct Hoka as [Hch Hnum _ Hb Hred Hmem]. rewrite Hid in *.
  constructor; cbn [ar_id ar_head_number ar_head_hash ar_bytes ar_member_count]; rewrite ?He, ?map_app, ?sum_by_app.
  - apply verify_chain_snoc. exists (mkHead (ar_head_number a) (ar_head_hash a)).
    cbn [wire_entry ArchiveEntry_number ArchiveEntry_hash ArchiveEntry_ciphertext row append_row en_number en_hash
         en_ciphertext Head_number Head_hash].
    subst n h. split_and!; [done|done|done|]. by rewrite u64_small by (unfold in_u64; lia).
  - rewrite Hnum, Hhn, seqZ_app by lia. simpl. by rewrite (Z.add_comm 1).
  - lia.
  - simpl. lia.
  - apply Forall_app. split; [done|]. repeat constructor. simpl. apply is_empty_false. lia.
  - done.
Qed.

(** ** Redacting *)

(** One iteration: the entries of the archive with that hash become tombstones. *)
Definition redacted (e : EntryRow) : EntryRow :=
  mkEntryRow e.(en_archive_id) e.(en_number) e.(en_hash) [] e.(en_appended_at) true.

(** What stays the same, and what shrinks, when entries of an archive are
    redacted: [freed] bytes at least. *)
Record redaction (id : bytes) (freed : Z) (es es' : list EntryRow) : Prop := mk_redaction {
  rd_nonneg : 0 <= freed;
  rd_other b : b <> id -> filter (fun e => e.(en_archive_id) = b) es' = filter (fun e => e.(en_archive_id) = b) es;
  rd_some : exists R : EntryRow -> bool,
    filter (fun e => e.(en_archive_id) = id) es'
    = map (fun e => if R e then redacted e else e) (filter (fun e => e.(en_archive_id) = id) es);
  rd_freed :
    sum_by (fun e => size e.(en_ciphertext)) (filter (fun e => e.(en_archive_id) = id) es') + freed
    <= sum_by (fun e => size e.(en_ciphertext)) (filter (fun e => e.(en_archive_id) = id) es);
}.

Lemma filter_map_key {A K} `{!EqDecision K} (key : A -> K) (f : A -> A) k l :
  (forall x, key (f x) = key x) -> filter (fun x => key x = k) (map f l) = map f (filter (fun x => key x = k) l).
Proof.
  intros Hf. induction l as [|x l IH]; [done|]. simpl. rewrite !filter_cons, Hf, IH. by case_decide.
Qed.

Lemma sum_by_map_le {A} (g : A -> Z) (f : A -> A) l :
  (forall x, g (f x) <= g x) -> sum_by g (map f l) <= sum_by g l.
Proof. intros Hf. induction l as [|x l IH]; simpl; [lia|]. specialize (Hf x). lia. Qed.

Lemma sum_by_map_drop {A} (g : A -> Z) (f : A -> A) l x :
  (forall x, g (f x) <= g x) -> x ∈ l -> sum_by g (map f l) + (g x - g (f x)) <= sum_by g l.
Proof.
  intros Hf Hx. induction l as [|y l IH]; [by apply not_elem_of_nil in Hx|]. simpl.
  pose proof (sum_by_map_le g f l Hf). apply elem_of_cons in Hx as [->|Hx]; [lia|].
  specialize (IH Hx). specialize (Hf y). lia.
Qed.

Lemma redact_one_redaction id h n db n' db' :
  redact_one id h (n, db) = Some (n', db') ->
  exists k, n' = n + k /\ redaction id k db.(archive_entries) db'.(archive_entries) /\
    db' = set_archive_entries db'.(archive_entries) db.
Proof.
  unfold redact_one. intros H. destruct (select_first _ _) as [e|] eqn:E; [|done]. injection H as <- <-.
  apply select_first_Some in E as [He [Hid Hh]]. exists (size (en_ciphertext e)). split_and!; [done| |done]. simpl.
  set (f := fun x => if decide (en_archive_id x = id /\ en_hash x = h) then redacted x else x).
  change (update_rows _ _ db.(archive_entries)) with (map f db.(archive_entries)).
  assert (forall x, en_archive_id (f x) = en_archive_id x) as Hf by (intros x; unfold f; by case_decide).
  constructor; [apply size_nonneg| | |].
  - intros b Hb. rewrite filter_map_key by done. rewrite <- (map_id (filter _ _)) at 2. apply map_ext_in.
    intros x Hx. apply list_elem_of_In, list_elem_of_filter in Hx as [Hx _]. unfold f. by rewrite decide_False by naive_solver.
  - exists (fun e => bool_decide (en_archive_id e = id /\ en_hash e = h)). rewrite filter_map_key by done.
    apply map_ext. intros x. unfold f.
    destruct (decide (en_archive_id x = id /\ en_hash x = h)); [by rewrite bool_decide_eq_true_2|by rewrite bool_decide_eq_false_2].
  - rewrite filter_map_key by done.
    assert (size (en_ciphertext (f e)) = 0) as H0 by (unfold f; by rewrite decide_True).
    pose proof (sum_by_map_drop (fun e => size (en_ciphertext e)) f
      (filter (fun e => en_archive_id e = id) db.(archive_entries)) e) as Hs. simpl in Hs. rewrite H0, Z.sub_0_r in Hs.
    apply Hs; [|by apply list_elem_of_filter].
    intros x. unfold f. case_decide; [|done]. simpl. rewrite size_nil. apply size_nonneg.
Qed.

Lemma redaction_refl id es : redaction id 0 es es.
Proof. constructor; [done|done| |lia]. exists (fun _ => false). by rewrite map_id. Qed.

Lemma redaction_trans id k1 k2 es1 es2 es3 :
  redaction id k1 es1 es2 -> redaction id k2 es2 es3 -> redaction id (k1 + k2) es1 es3.
Proof.
  intros [Hp1 Ho1 [R1 Hs1] Hf1] [Hp2 Ho2 [R2 Hs2] Hf2]. constructor; [lia| |clear Hf1 Hf2|lia].
  - intros b Hb. by rewrite Ho2, Ho1.
  - exists (fun e => R1 e || R2 (if R1 e then redacted e else e)). rewrite Hs2, Hs1, map_map. apply map_ext.
    intros e. destruct (R1 e); simpl; [|done]. by destruct (R2 _).
Qed.

Lemma redact_loop_redaction id hs n db n' db' :
  redact_loop id hs (n, db) = Some (n', db') ->
  exists k, n' = n + k /\ redaction id k db.(archive_entries) db'.(archive_entries) /\
    db' = set_archive_entries db'.(archive_entries) db.
Proof.
  revert n db. induction hs as [|h hs IH]; intros n db; cbn [redact_loop].
  - intros [= <- <-]. exists 0. split_and!; [lia|apply redaction_refl|by destruct db].
  - destruct (redact_one id h (n, db)) as [[n1 db1]|] eqn:E; [|done]. intros H.
    apply redact_one_redaction in E as (k1 & -> & Hr1 & E1). apply IH in H as (k2 & -> & Hr2 & E2).
    exists (k1 + k2). split_and!; [lia|by eapply redaction_trans|]. rewrite E1 in E2. exact E2.
Qed.

(** Tombstones keep an archive's chain, its numbers and its head. *)
Lemma redaction_ok db db' a freed :
  archive_ok db a -> redaction (ar_id a) freed db.(archive_entries) db'.(archive_entries) ->
  db' = set_archive_entries db'.(archive_entries) db ->
  archive_ok db' (mkArchiveRow a.(ar_id) a.(ar_member_count) a.(ar_created_at) a.(ar_closes_at)
                    a.(ar_head_number) a.(ar_head_hash) (a.(ar_bytes) - freed) a.(ar_last_activity)).
Proof.
  intros [Hch Hnum Hr Hb Hred Hmem] [Hp _ [R Hs] Hf] E. unfold entries_of in *.
  constructor; cbn [ar_id ar_head_number ar_head_hash ar_bytes ar_member_count]; unfold entries_of.
  - rewrite Hs, map_map. eapply verify_chain_redact; [|exact Hch].
    apply Forall2_fmap_2, Forall_Forall2_diag, Forall_true. intros e. destruct (R e); [by right|by left].
  - rewrite Hs, map_map, <- Hnum. apply map_ext. intros e. by destruct (R e).
  - done.
  - lia.
  - rewrite Hs. apply Forall_fmap. eapply Forall_impl; [exact Hred|]. intros e He. simpl. by destruct (R e).
  - by rewrite E.
Qed.

Lemma redact_entries_archives db id hs : sql_ok db -> archives_ok db -> archives_ok (redact_entries db id hs).2.
Proof.
  intros Hsql Hok. unfold redact_entries. destruct (negb _); [done|].
  destruct (redact_loop id hs (0, db)) as [[freed tx]|] eqn:El; [|done].
  apply redact_loop_redaction in El as (k & -> & Hr & E). rewrite Z.add_0_l. intros a' Ha'. simpl in Ha'.
  apply list_elem_of_fmap in Ha' as (a & -> & Ha). rewrite E in Ha. simpl in Ha. case_decide as Hd.
  - subst id. apply (redaction_ok db tx a k (Hok a Ha) Hr) in E. by apply (archive_ok_ext tx).
  - apply (archive_ok_ext db); [by apply Hok|by apply (rd_other _ _ _ _ Hr)|by rewrite E].
Qed.

(** ** Deleting *)

Lemma delete_archives_archives (Q : ArchiveRow -> Prop) `{HQ : !forall x, Decision (Q x)} db :
  sql_ok db -> archives_ok db -> archives_ok (delete_archives Q db).
Proof.
  intros Hsql Hok a Ha. simpl in Ha. apply elem_of_delete_rows in Ha as [Hn Ha].
  assert (ar_id a ∉ map ar_id (filter Q db.(archives))) as Hgone.
  { intros Hin. apply list_elem_of_fmap in Hin as (b & Hid & Hb). apply list_elem_of_filter in Hb as [HQb Hb].
    by rewrite (unique_key_inj ar_id _ a b (uniq_archives _ Hsql) Ha Hb Hid) in Hn. }
  apply (archive_ok_ext db); [by apply Hok| |]; unfold delete_archives, entries_of, count_rows; simpl.
  - apply filter_delete_other. intros e -> . done.
  - rewrite !filter_delete_other; [done|intros x ->; done..].
Qed.
End archives.
