(* ===== verification/RelayReach.v ===== *)
(** * Reachable states of the relay's store

    [store_step] has one rule per method of [RelayStore] that changes the
    database, with the arguments the service can pass: sizes the decoders
    enforce, chain hashes the service computes, configured limits below 2^63.
    Since every method runs under the store's mutex, any interleaving of
    sessions is a sequence of such steps. [store_ok] collects the invariants;
    they hold of every database reachable from an empty one. *)

From Stdlib Require Import ZArith Lia Sorted.
From stdpp Require Import base list strings relations.
From S2P Require Import Prelude Wire RelayProtocol RelayProtocolSpec Crypto Archive Sql RelayStore RelayStoreInv RelayArchive.
#[local] Open Scope Z_scope.

Section reach.
Context `{P : Primitives}.

Inductive store_step : DB -> DB -> Prop :=
  | step_add_invite db h e r db' : add_invite db h e = Some (r, db') -> store_step db db'
  | step_register db i m k t now mx r db' :
      register_mailbox db i m k t now mx = Some (r, db') -> store_step db db'
  | step_member_invite db m h now e mo mt r db' :
      add_member_invite db m h now e mo mt = Some (r, db') -> store_step db db'
  | step_cancel_invite db m h : store_step db (cancel_member_invite db m h).2
  | step_delete_mailbox db m : store_step db (delete_mailbox db m).2
  | step_add_token db m h now mx r db' : add_token db m h now mx = Some (r, db') -> store_step db db'
  | step_revoke_token db m h : store_step db (revoke_token db m h).2
  | step_deposit db m i e t now ttl q r db' :
      size e <= MAX_ENVELOPE_BYTES -> deposit db m i e t now ttl q = Some (r, db') -> store_step db db'
  | step_ack db m ids : store_step db (ack db m ids).2
  | step_put_prekeys db m b g ps now mx r db' :
      put_prekeys db m b g ps now mx = Some (r, db') -> store_step db db'
  | step_take_prekey db m t now ph : store_step db (take_prekey db m t now ph).2
  | step_sweep_takes db now : store_step db (sweep_prekey_takes db now)
  | step_begin_file db o f ts cs cc e hs now q r db' :
      hs <> [] -> begin_file db o f ts cs cc e hs now q = Some (r, db') -> store_step db db'
  | step_finish_file db f : store_step db (finish_file db f)
  | step_redeem db f t : store_step db (redeem_file_token db f t).2
  | step_delete_file db f o : store_step db (delete_file db f o).2
  | step_sweep_files db now ab : store_step db (sweep_files db now ab).2
  | step_put_keyring db m b now r db' : put_keyring db m b now = Some (r, db') -> store_step db db'
  | step_create_archive db id hs now closes mx r db' :
      create_archive db id hs (genesis_hash id) now closes mx = Some (r, db') -> store_step db db'
  | step_join_archive db id t k p now r db' :
      join_archive db id t k p now = Some (r, db') -> store_step db db'
  | step_append db id n h ct now q r hd db' :
      n < 2 ^ 63 - 1 -> 0 < size ct <= MAX_ARCHIVE_ENTRY_BYTES -> q < 2 ^ 63 ->
      append_entry db id n h (entry_hash id (u64 (n + 1)) h ct) ct now q = Some (r, hd, db') -> store_step db db'
  | step_delete_archive db id : store_step db (delete_archive db id).2
  | step_redact db id hs : store_step db (redact_entries db id hs).2
  | step_sweep db now : store_step db (sweep db now).2.

Definition reachable (db : DB) : Prop := rtc store_step empty_db db.

Record store_ok (db : DB) : Prop := mk_store_ok {
  so_sql : sql_ok db;
  so_envelopes : envelopes_ok db;
  so_prekeys : prekeys_ok db;
  so_files : files_ok db;
  so_archives : archives_ok db;
}.

(** An invariant survives changes to tables it does not mention. *)
Lemma envelopes_ok_ext db db' :
  envelopes_ok db -> db'.(envelopes) = db.(envelopes) -> db'.(envelope_seq) = db.(envelope_seq) -> envelopes_ok db'.
Proof. intros [] He Hs. constructor; rewrite ?He, ?Hs; done. Qed.

Lemma archives_ok_ext db db' :
  archives_ok db -> db'.(archives) = db.(archives) -> db'.(archive_entries) = db.(archive_entries) ->
  db'.(archive_keys) = db.(archive_keys) -> db'.(archive_join_tokens) = db.(archive_join_tokens) -> archives_ok db'.
Proof.
  intros Hok Ha He Hk Ht a Hin. rewrite Ha in Hin. apply (archive_ok_ext db); [by apply Hok| |].
  - unfold entries_of. by rewrite He.
  - by rewrite Hk, Ht.
Qed.

Lemma files_ok_ext db db' :
  files_ok db -> db'.(files) = db.(files) -> db'.(file_tokens) = db.(file_tokens) -> files_ok db'.
Proof. unfold files_ok. intros Hok Hf Ht. by rewrite Hf, Ht. Qed.

Lemma store_ok_empty : store_ok empty_db.
Proof.
  constructor; [apply sql_ok_empty| | | |].
  - constructor; simpl; try constructor; lia.
  - apply unique_nil.
  - intros f Hf. by apply not_elem_of_nil in Hf.
  - intros a Ha. by apply not_elem_of_nil in Ha.
Qed.

(** Parts of the invariant about tables that did not change. *)
Ltac frame_part :=
  match goal with
  | H : envelopes_ok ?db |- envelopes_ok _ => apply (envelopes_ok_ext db _ H); reflexivity
  | H : files_ok ?db |- files_ok _ => apply (files_ok_ext db _ H); reflexivity
  | H : archives_ok ?db |- archives_ok _ => apply (archives_ok_ext db _ H); reflexivity
  | H : prekeys_ok ?db |- prekeys_ok _ => exact H
  end.
Ltac frame_all := try solve [frame_part].

Lemma register_mailbox_ok db db' r (i m k t : bytes) now mx :
  store_ok db -> register_mailbox db i m k t now mx = Some (r, db') -> store_ok db'.
Proof.
  intros [Hs He Hp Hf Ha] H. constructor; [by eapply register_mailbox_sql| | | |];
    unfold register_mailbox, insert_mailbox, insert_token in H; store_cases; frame_all.
Qed.

Lemma delete_mailbox_ok db m : store_ok db -> store_ok (delete_mailbox db m).2.
Proof.
  intros [Hs He Hp Hf Ha]. unfold delete_mailbox. simpl.
  set (db1 := set_invites _ db). assert (sql_ok db1) as Hs1 by (destruct Hs; sql_solve).
  constructor; [by apply delete_mailbox_row_sql| | | |].
  - by apply (envelopes_ok_ext _ _ (envelopes_sublist_ok _ db He
      (delete_rows_sublist (fun e => env_mailbox_id e = m) db.(envelopes)))).
  - eapply unique_sublist; [|exact Hp]. apply filter_sublist, delete_rows_sublist.
  - by apply (files_ok_ext _ _ (delete_files_ok (fun f => f.(file_owner) = m) db Hs Hf)).
  - by apply (archives_ok_ext db _ Ha).
Qed.

Lemma put_prekeys_store_ok db m b g ps now mx r db' :
  store_ok db -> put_prekeys db m b g ps now mx = Some (r, db') -> store_ok db'.
Proof.
  intros Hok H. pose proof Hok as [Hs He Hp Hf Ha]. pose proof (put_prekeys_sql _ Hs _ _ _ _ _ _ _ _ H) as Hs'.
  pose proof (put_prekeys_ok _ _ _ _ _ _ _ _ _ Hp H) as Hp'.
  apply put_prekeys_inv in H as [->|(_ & _ & _ & _ & [t ->]%store_prekeys_frame)]; [done|].
  constructor; [done| |done| |]; unfold start_pool; destruct b; frame_all.
Qed.

Lemma delete_files_store_ok (Q : FileRow -> Prop) `{!forall x, Decision (Q x)} db :
  store_ok db -> store_ok (delete_files Q db).
Proof.
  intros [Hs He Hp Hf Ha].
  constructor; [by apply delete_files_sql|frame_part|exact Hp|by apply delete_files_ok|frame_part].
Qed.

Lemma delete_archives_store_ok (Q : ArchiveRow -> Prop) `{!forall x, Decision (Q x)} db :
  store_ok db -> store_ok (delete_archives Q db).
Proof.
  intros [Hs He Hp Hf Ha].
  constructor; [by apply delete_archives_sql|frame_part|exact Hp|frame_part|by apply delete_archives_archives].
Qed.

Lemma sweep_files_store_ok db now ab : store_ok db -> store_ok (sweep_files db now ab).2.
Proof. intros Hok. unfold sweep_files. simpl. apply foldl_inv; [|done]. intros. by apply delete_files_store_ok. Qed.

Lemma sweep_store_ok db now : store_ok db -> store_ok (sweep db now).2.
Proof.
  intros [Hs He Hp Hf Ha]. unfold sweep. simpl. apply delete_archives_store_ok.
  constructor; [destruct Hs; sql_solve| |exact Hp|frame_part|frame_part].
  by apply (envelopes_ok_ext _ _ (envelopes_sublist_ok _ db He (delete_rows_sublist (fun e => env_expires_at e <= now) _))).
Qed.

(** Every step of the store preserves the invariants. *)
Lemma store_step_ok db db' : store_ok db -> store_step db db' -> store_ok db'.
Proof.
  intros Hok Hstep. pose proof Hok as [Hs He Hp Hf Ha]. destruct Hstep.
  - constructor; [by eapply add_invite_sql|..]; unfold add_invite, insert_invite in *; store_cases; frame_all.
  - by eapply register_mailbox_ok.
  - constructor; [by eapply add_member_invite_sql|..]; unfold add_member_invite, insert_invite in *; store_cases; frame_all.
  - constructor; [by apply cancel_member_invite_sql|..]; frame_all.
  - by apply delete_mailbox_ok.
  - constructor; [by eapply add_token_sql|..]; unfold add_token, insert_token in *; store_cases; frame_all.
  - constructor; [by apply revoke_token_sql|..]; frame_all.
  - assert (MAX_ENVELOPE_BYTES < 2 ^ 63) by done.
    constructor; [by eapply deposit_sql|eapply deposit_envelopes_ok; [exact He| |eassumption]; lia|..];
      unfold deposit, insert_envelope in *; store_cases; frame_all.
  - destruct (ack_frame m ids db) as (t & E & Ht). pose proof (ack_sql db Hs m ids) as Hs'. rewrite E in *.
    constructor; [done|by apply envelopes_sublist_ok|..]; frame_all.
  - by eapply put_prekeys_store_ok.
  - pose proof (take_prekey_sql db Hs m t now ph) as Hs'. unfold take_prekey in *.
    constructor; [done|..]; clear Hs'; repeat case_match; simpl; frame_all; try done;
      (eapply unique_sublist; [|exact Hp]; apply filter_sublist, delete_rows_sublist).
  - constructor; [by apply sweep_prekey_takes_sql|..]; frame_all.
  - constructor; [by eapply begin_file_sql| | |by eapply begin_file_ok|]; unfold begin_file, insert_file in *;
      store_cases; frame_all; try done;
      match goal with H : fold_db _ _ _ = Some _ |- _ => apply insert_file_tokens_frame in H as -> end; frame_all.
  - constructor; [by apply finish_file_sql|frame_part|exact Hp|by apply finish_file_ok|frame_part].
  - pose proof (redeem_file_token_sql db Hs f t). pose proof (redeem_file_token_ok db f t Hs Hf).
    constructor; try done; unfold redeem_file_token in *; repeat case_match; simpl; frame_all; done.
  - unfold delete_file. case_match; by apply delete_files_store_ok.
  - by apply sweep_files_store_ok.
  - constructor; [by eapply put_keyring_sql|..]; unfold put_keyring in *; store_cases; frame_all.
  - constructor; [by eapply create_archive_sql|..|by eapply create_archive_archives];
      unfold create_archive, insert_archive in *; store_cases; frame_all; try done;
      match goal with |- context [foldl (add_join_token ?a) ?d ?l] =>
        destruct (add_join_tokens_frame a l d) as [? E]; rewrite E end; frame_all.
  - constructor; [by eapply join_archive_sql|..|by eapply join_archive_archives];
      unfold join_archive, insert_archive_key in *; store_cases; frame_all.
  - assert (MAX_ARCHIVE_ENTRY_BYTES < 2 ^ 63) by done.
    constructor; [by eapply append_entry_sql|..|eapply append_entry_archives; [exact Hs|exact Ha|..|eassumption]; lia];
      unfold append_entry, insert_entry in *; store_cases; frame_all.
  - unfold delete_archive. by apply delete_archives_store_ok.
  - pose proof (redact_entries_sql db Hs id hs). pose proof (redact_entries_archives db id hs Hs Ha).
    constructor; try done; unfold redact_entries in *; destruct (negb _); simpl; frame_all;
      destruct (redact_loop id hs (0, db)) as [[n tx]|] eqn:E; simpl; frame_all;
      apply redact_loop_frame in E as [t E]; simpl in E; subst tx; frame_all.
  - by apply sweep_store_ok.
Qed.

Lemma reachable_ok db : reachable db -> store_ok db.
Proof.
  unfold reachable. intros H. assert (store_ok empty_db) as Hok by apply store_ok_empty.
  revert Hok. generalize empty_db H. clear H. intros db0 H.
  induction H as [|x y z Hstep _ IH]; [done|]. intros Hok. by eapply IH, store_step_ok.
Qed.

(** C4: whatever the clients do, and however their requests interleave, the
    store's state keeps its integrity: unique keys and no dangling references,
    strictly increasing envelope numbers with the recorded sizes true, at most one
    last-resort prekey per mailbox, an unredeemed token for every stored file, and
    for every archive a hash chain that a member's [verify_chain] accepts from the
    genesis hash up to the recorded head, entries numbered from 1 without gaps, a
    byte count that bounds what is stored, tombstones exactly where content was
    redacted, and never more registered keys and unspent tokens than members. *)
Theorem relay_store_invariant db : reachable db -> store_ok db.
Proof. apply reachable_ok. Qed.
End reach.

(** A database with a mailbox, and an archive with one member and one entry. *)
Definition after {R} (o : option (R * DB)) : DB := match o with Some (_, db) => db | None => empty_db end.
Definition sample_id : bytes := replicate 16 Byte.x05.
Definition sample1 : DB := after (add_invite empty_db [Byte.x01] 1000).
Definition sample2 : DB := after (register_mailbox sample1 [Byte.x01] [Byte.x02] [Byte.x03] [Byte.x04] 10 100).
Definition sample3 : DB := after (create_archive sample2 sample_id [[Byte.x06]] (genesis_hash sample_id) 11 500 10).
Definition sample4 : DB := after (join_archive sample3 sample_id [Byte.x06] [Byte.x07] [Byte.x08] 12).
Definition sample5 : DB :=
  after (append_entry sample4 sample_id 0 (genesis_hash sample_id)
           (entry_hash sample_id (u64 (0 + 1)) (genesis_hash sample_id) [Byte.x09]) [Byte.x09] 13 1000).

Lemma sample2_reachable : reachable sample2.
Proof.
  apply (rtc_l _ _ sample1).
  { apply (step_add_invite empty_db [Byte.x01] 1000 tt sample1). vm_compute. reflexivity. }
  apply (rtc_l _ _ sample2).
  { apply (step_register sample1 [Byte.x01] [Byte.x02] [Byte.x03] [Byte.x04] 10 100 Register_Ok). vm_compute. reflexivity. }
  apply rtc_refl.
Qed.

Lemma sample_reachable : reachable sample5.
Proof.
  unfold reachable. transitivity sample2; [apply sample2_reachable|]. apply (rtc_l _ _ sample3).
  { apply (step_create_archive sample2 sample_id [[Byte.x06]] 11 500 10 Create_Ok). vm_compute. reflexivity. }
  apply (rtc_l _ _ sample4).
  { apply (step_join_archive sample3 sample_id [Byte.x06] [Byte.x07] [Byte.x08] 12 Join_Ok). vm_compute. reflexivity. }
  apply (rtc_l _ _ sample5); [|apply rtc_refl].
  apply (step_append sample4 sample_id 0 (genesis_hash sample_id) [Byte.x09] 13 1000 Append_Ok
    (Some (mkArchiveState 1 (entry_hash sample_id 1 (genesis_hash sample_id) [Byte.x09]))));
    [lia|vm_compute; intuition discriminate|lia|vm_compute; reflexivity].
Qed.

Lemma relay_store_invariant_witness : size sample5.(archive_entries) = 1 /\ store_ok sample5.
Proof. split; [reflexivity|]. apply relay_store_invariant, sample_reachable. Defined.
