(* ===== verification/RelayStoreProps.v ===== *)
(** * What the store's methods do

    The behaviour of the methods of [RelayStore] on a database that satisfies
    the invariants of [RelayReach]: invites, send tokens, prekeys and file tokens
    are used once, quotas hold, envelopes come out in order, archives are fetched
    as verifiable pages, and a refused request changes nothing. *)

From Stdlib Require Import ZArith Lia Sorted.
From stdpp Require Import base list strings relations.
From S2P Require Import Prelude Wire RelayProtocol RelayProtocolSpec Crypto Archive Sql RelayStore RelayStoreInv RelayArchive RelayReach.
#[local] Open Scope Z_scope.

(** ** Sorting what is already in order *)

Lemma insert_by_le {A} (leb : A -> A -> bool) x l :
  (forall y, y ∈ l -> leb x y = true) -> insert_by leb x l = x :: l.
Proof. destruct l as [|y l]; simpl; [done|]. intros H. by rewrite (H y) by left. Qed.

Lemma sort_by_strongly_sorted {A} (leb : A -> A -> bool) l :
  StronglySorted (fun x y => leb x y = true) l -> sort_by leb l = l.
Proof.
  induction 1 as [|x l _ IH Hx]; simpl; [done|]. rewrite IH. apply insert_by_le.
  intros y Hy. eapply Forall_forall in Hx; [exact Hx|done].
Qed.

Lemma StronglySorted_map_inv {A B} (f : A -> B) (R : B -> B -> Prop) l :
  StronglySorted R (map f l) -> StronglySorted (fun x y => R (f x) (f y)) l.
Proof.
  induction l as [|x l IH]; simpl; intros H; [constructor|]. inversion H as [|? ? Hl Hx]; subst.
  constructor; [by apply IH|]. apply Forall_forall. intros y Hy.
  eapply Forall_forall in Hx; [exact Hx|]. by apply list_elem_of_fmap_2.
Qed.

Lemma StronglySorted_impl {A} (R S : A -> A -> Prop) l :
  (forall x y, R x y -> S x y) -> StronglySorted R l -> StronglySorted S l.
Proof.
  intros HRS. induction 1 as [|x l _ IH Hx]; constructor; [done|]. eapply Forall_impl; [exact Hx|]. apply HRS.
Qed.

Lemma StronglySorted_filter {A} (R : A -> A -> Prop) (Q : A -> Prop) `{!forall x, Decision (Q x)} (l : list A) :
  StronglySorted R l -> StronglySorted R (filter Q l).
Proof. apply StronglySorted_sublist, sublist_filter. Qed.

Lemma filter_iff_in {A} (Q R : A -> Prop) `{!forall x, Decision (Q x), !forall x, Decision (R x)} (l : list A) :
  (forall x, x ∈ l -> Q x <-> R x) -> filter Q l = filter R l.
Proof.
  induction l as [|x l IH]; intros HQR; [done|]. rewrite !filter_cons.
  rewrite IH by (intros y Hy; apply HQR; by right). pose proof (HQR x ltac:(left)). repeat case_decide; tauto.
Qed.

Lemma ztake_le {A} (l : list A) n : size l <= n -> ztake n l = l.
Proof. unfold size, ztake. intros. apply take_ge. lia. Qed.

Lemma filter_count {A} (Q : A -> Prop) `{!forall x, Decision (Q x)} (l : list A) :
  size (filter Q l) + size (filter (fun x => ~ Q x) l) = size l.
Proof.
  induction l as [|x l IH]; [done|]. rewrite !filter_cons, size_cons. repeat case_decide; rewrite ?size_cons; tauto || lia.
Qed.

(** ** Envelopes *)

(** What the owner of a mailbox can still collect after number [after]. *)
Definition pending (db : DB) (mailbox : bytes) (after now : Z) : list EnvelopeRow :=
  filter (fun e => e.(env_mailbox_id) = mailbox /\ after < e.(env_seq) /\ now < e.(env_expires_at)) db.(envelopes).

Lemma pending_sorted db m after now :
  envelopes_ok db -> StronglySorted (fun x y => env_seq x < env_seq y) (pending db m after now).
Proof. intros [Hs _ _ _]. by apply StronglySorted_filter, StronglySorted_map_inv. Qed.

Lemma fetch_pending db m after now limit :
  envelopes_ok db -> 0 <= limit < 2 ^ 63 -> fetch db m after now limit = map stored_of (ztake limit (pending db m after now)).
Proof.
  intros Hok Hl. unfold fetch. fold (pending db m after now).
  rewrite sort_by_strongly_sorted; cycle 1.
  { eapply StronglySorted_impl; [|by apply pending_sorted]. intros x y Hxy. apply Z.leb_le. simpl in Hxy. lia. }
  unfold sql_limit. rewrite i64_small by (unfold in_i64; lia). by rewrite (proj2 (Z.ltb_ge _ _)) by lia.
Qed.

(** A successful deposit is queued: the envelope is the last one its
    mailbox's owner will fetch, under a number higher than every earlier one, with
    the content, time and token hash it was deposited with; nothing else in the
    mailbox or in any other one changes; and the mailbox's unexpired envelopes
    together stay within the quota. *)
Theorem deposit_queues db m i e t now ttl q db' :
  envelopes_ok db -> size e <= MAX_ENVELOPE_BYTES -> in_i64 (now + ttl) -> size t = HASH_BYTES ->
  deposit db m i e t now ttl q = Some (Deposit_Ok, db') ->
  exists row, db'.(envelopes) = db.(envelopes) ++ [row] /\
    stored_of row = mkStored (db.(envelope_seq) + 1) i now t e /\
    row.(env_mailbox_id) = m /\ row.(env_expires_at) = now + ttl /\
    Forall (fun x => x.(env_seq) < row.(env_seq)) db.(envelopes) /\
    sum_by env_size (pending db' m 0 now) <= q.
Proof.
  intros Hok He Htime Ht H. pose proof (env_bound _ Hok) as Hb. pose proof (env_sizes _ Hok) as Hz.
  assert (MAX_ENVELOPE_BYTES < 2 ^ 63) by done. pose proof (size_nonneg e).
  assert (filter (fun e => env_mailbox_id e = m /\ now < env_expires_at e) db.(envelopes) = pending db m 0 now) as Hpend.
  { apply filter_iff_in. intros x Hx. eapply Forall_forall in Hb; [|exact Hx]. simpl in Hb. naive_solver lia. }
  assert (0 <= sum_by env_size (pending db m 0 now)) as Hnn.
  { apply sum_by_nonneg. intros x [_ Hx]%list_elem_of_filter. eapply Forall_forall in Hz; [|exact Hx]. simpl in Hz.
    rewrite Hz. apply size_nonneg. }
  unfold deposit, insert_envelope in H. rewrite Hpend in H.
  rewrite (i64_small (now + ttl)), (i64_small (size e)) in H by (done || unfold in_i64; lia). store_cases.
  match goal with Hsum : sql_sum _ _ = Some _ |- _ => apply sql_sum_Some in Hsum as [-> [? ?]] end. bool_prop.
  rewrite (u64_small (sum_by _ _)), u64_small in * by (try rewrite u64_small; unfold in_u64; lia).
  eexists. split; [done|]. split_and!.
  - unfold stored_of. simpl. by rewrite Ht.
  - done.
  - done.
  - eapply Forall_impl; [exact Hb|]. simpl. lia.
  - unfold pending in *. simpl. rewrite filter_app, sum_by_app, filter_cons, filter_nil. case_decide; simpl; lia.
Qed.

(** One envelope deposited in an empty mailbox. *)
Lemma deposit_queues_witness :
  let t := replicate 32 Byte.x04 in
  exists db', deposit sample2 [Byte.x02] [Byte.x0a] [Byte.x0b; Byte.x0c] t 20 60 1000 = Some (Deposit_Ok, db') /\
    sum_by env_size (pending db' [Byte.x02] 0 20) <= 1000.
Proof.
  intros t. eexists. split; [vm_compute; reflexivity|].
  edestruct (deposit_queues sample2 [Byte.x02] [Byte.x0a] [Byte.x0b; Byte.x0c] t 20 60 1000) as (row & _ & _ & _ & _ & _ & Hq);
    [| | | | |exact Hq].
  - constructor; vm_compute; repeat constructor; discriminate.
  - vm_compute. discriminate.
  - unfold in_i64. lia.
  - reflexivity.
  - vm_compute. reflexivity.
Defined.

(** ** Invites *)

(** An invite creates one mailbox. A registration that succeeds found the
    invite unexpired, makes the mailbox with its key, its first send token and the
    member who vouched, and uses the invite up, so that the same invite is refused
    from then on; a registration that fails changes nothing. *)
Theorem register_uses_invite db i m k t now mx r db' :
  register_mailbox db i m k t now mx = Some (r, db') ->
  (r <> Register_Ok /\ db' = db) \/
  (r = Register_Ok /\
   (exists inv, inv ∈ db.(invites) /\ inv.(inv_hash) = i /\ now < inv.(inv_expires_at) /\
      db'.(mailboxes) = db.(mailboxes) ++
        [mkMailboxRow m k now (match column_blob inv.(inv_issued_by) with [] => None | b => Some b end)]) /\
   access_key db m = None /\ access_key db' m = Some k /\ token_valid db' m t = true /\
   size db'.(mailboxes) <= mx /\
   forall m2 k2 t2 now2 mx2, register_mailbox db' i m2 k2 t2 now2 mx2 = Some (Register_BadInvite, db')).
Proof.
  intros H. unfold register_mailbox in H.
  destruct (select_first _ _) as [inv|] eqn:Ei; [|left; by simplify_eq].
  apply select_first_Some in Ei as [Hinv Hi].
  destruct (_ <=? now) eqn:Ee; [left; by simplify_eq|]. cbv zeta in H.
  destruct (mx <=? _) eqn:Em; [left; by simplify_eq|].
  destruct (exists_row _ _) eqn:Ex; [left; by simplify_eq|]. bool_prop. right.
  unfold insert_mailbox, insert_token in H.
  set (row := mkMailboxRow _ _ _ _) in *. store_cases. rewrite exists_row_false in Ex.
  split; [done|]. split; [exists inv; split_and!; try done; destruct (column_blob (inv_issued_by inv)); done|].
  assert (forall x, x ∈ db.(mailboxes) -> mb_id x <> m) as Hnew by auto. split_and!.
  - unfold access_key. by rewrite (proj2 (select_first_None _ _)).
  - unfold access_key, select_first. simpl. rewrite filter_app.
    replace (filter (fun m0 => mb_id m0 = m) db.(mailboxes)) with (@nil MailboxRow); cycle 1.
    { symmetry. apply size_zero_iff. by apply (count_rows_none (fun m0 => mb_id m0 = m)). }
    rewrite filter_cons, decide_True by done. done.
  - apply exists_row_true. eexists. simpl. split; [apply elem_of_app; right; left|done].
  - simpl. rewrite size_app. unfold size at 2. simpl. lia.
  - intros. unfold register_mailbox. simpl. rewrite (proj2 (select_first_None _ _)); [done|].
    intros x [Hn _]%elem_of_delete_rows. congruence.
Qed.

(** An operator's invite, used. *)
Lemma register_uses_invite_witness :
  register_mailbox sample1 [Byte.x01] [Byte.x02] [Byte.x03] [Byte.x04] 10 100 = Some (Register_Ok, sample2) /\
  access_key sample2 [Byte.x02] = Some [Byte.x03].
Proof.
  assert (register_mailbox sample1 [Byte.x01] [Byte.x02] [Byte.x03] [Byte.x04] 10 100 = Some (Register_Ok, sample2)) as E
    by (vm_compute; reflexivity).
  split; [exact E|]. destruct (register_uses_invite _ _ _ _ _ _ _ _ _ E) as [[Hne _]|(_ & _ & _ & Hk & _)]; [by destruct Hne|exact Hk].
Defined.

(** ** Prekeys *)

Lemma head_sort_in {A} (leb : A -> A -> bool) l x : head (sort_by leb l) = Some x -> x ∈ l.
Proof.
  intros H. rewrite <- (sort_by_perm leb l). destruct (sort_by leb l); simplify_eq/=. left.
Qed.

Lemma insert_by_head {A} (leb : A -> A -> bool) x l :
  head (insert_by leb x l) = Some x \/ exists y, head l = Some y /\ leb x y = false /\ head (insert_by leb x l) = Some y.
Proof. destruct l as [|y l]; simpl; [by left|]. destruct (leb x y) eqn:E; [by left|right; eauto]. Qed.

Lemma head_sort_least l x y :
  head (sort_by by_created l) = Some x -> y ∈ l -> pk_created_at x <= pk_created_at y.
Proof.
  revert x. induction l as [|z l IH]; intros x; [done|]. simpl. intros Hh Hy.
  destruct (insert_by_head by_created z (sort_by by_created l)) as [E|(w & Hw & Hl & E)]; rewrite E in Hh; simplify_eq.
  - apply elem_of_cons in Hy as [->|Hy]; [done|]. destruct (sort_by by_created l) as [|w k] eqn:Es.
    + apply (sort_by_perm by_created) in Hy || idtac. rewrite <- (sort_by_perm by_created l), Es in Hy. by apply not_elem_of_nil in Hy.
    + simpl in E. destruct (by_created x w) eqn:Exw; simpl in E; [|].
      * apply Z.leb_le in Exw. specialize (IH w eq_refl Hy). lia.
      * simplify_eq. specialize (IH x eq_refl Hy). lia.
  - apply Z.leb_gt in Hl. apply elem_of_cons in Hy as [->|Hy]; [lia|]. by apply IH.
Qed.

(** A one-time prekey goes to one sender. A take that hands one out gives
    the mailbox's oldest and removes it (no row with its ID is left, everything
    else stays); a take that hands out the last-resort prekey keeps it; a take
    never touches another mailbox's prekeys; and a token that has had its
    allowance for the hour gets no one-time prekey. *)
Theorem take_prekey_once db m t now ph res db' :
  sql_ok db -> take_prekey db m t now ph = (res, db') ->
  match res with
  | Take_Ok b false =>
      exists p, p ∈ db.(prekeys) /\ pk_mailbox_id p = m /\ pk_blob p = b /\ pk_last_resort p = false /\
        (forall p2, p2 ∈ db.(prekeys) -> pk_mailbox_id p2 = m -> pk_last_resort p2 = false ->
           pk_created_at p <= pk_created_at p2) /\
        (forall x, x ∈ db'.(prekeys) <-> x ∈ db.(prekeys) /\ x <> p) /\
        (forall tk, tk ∈ db.(prekey_takes) -> take_token_hash tk = t -> take_hour tk = Z.quot now 3600 ->
           take_count tk < ph)
  | Take_Ok b true =>
      exists p, p ∈ db.(prekeys) /\ pk_mailbox_id p = m /\ pk_blob p = b /\ pk_last_resort p = true /\
        db'.(prekeys) = db.(prekeys)
  | Take_Empty | Take_RateLimited => db'.(prekeys) = db.(prekeys)
  end.
Proof.
  intros Hsql H. unfold take_prekey in H. cbv zeta in H.
  assert (forall d, last_resort_of (set_prekey_takes d db) m = last_resort_of db m) as Hlr by done.
  destruct (ph <=? _) eqn:Ep.
  { destruct (last_resort_of db m) as [l|] eqn:El; simplify_eq; [|done].
    apply select_first_Some in El as [? [? ?]]. eauto 6. }
  destruct (oldest_one_time _ m) as [o|] eqn:Eo; cycle 1.
  { rewrite Hlr in H. destruct (last_resort_of db m) as [l|] eqn:El; simplify_eq; [|done].
    apply select_first_Some in El as [? [? ?]]. eauto 6. }
  simplify_eq. unfold oldest_one_time in Eo. simpl in Eo.
  pose proof (head_sort_in _ _ _ Eo) as Ho. apply list_elem_of_filter in Ho as [[Hm Hl] Hin].
  exists o. split_and!; try done.
  - intros p2 Hp2 Hm2 Hl2. eapply head_sort_least; [exact Eo|]. by apply list_elem_of_filter.
  - intros x. simpl. rewrite elem_of_delete_rows. split; intros [Hx1 Hx2].
    + split; [done|]. intros ->. by apply Hx1.
    + split; [|done]. intros [Hxm Hxi]. apply Hx2.
      apply (unique_key_inj pk_key db.(prekeys)); [apply Hsql|done|done|]. unfold pk_key. congruence.
  - intros tk Htk Ht Hh. destruct (select_first _ _) as [tk2|] eqn:Es; bool_prop.
    + apply select_first_Some in Es as [Htk2 [Ht2 Hh2]].
      rewrite (unique_key_inj take_key db.(prekey_takes) tk tk2); [done|apply Hsql|done|done|]. unfold take_key. congruence.
    + rewrite select_first_None in Es. by destruct (Es tk Htk).
Qed.

Definition sample_prekey : PrekeyEntry := mkPrekeyEntry [Byte.x11] false [Byte.x12].
Definition sample_pool : DB := after (put_prekeys sample2 [Byte.x02] true [Byte.x13] [sample_prekey] 20 10).

(** A pool of one prekey, taken. *)
Lemma take_prekey_once_witness :
  exists db', take_prekey sample_pool [Byte.x02] [Byte.x04] 30 5 = (Take_Ok [Byte.x12] false, db') /\
    exists p, p ∈ sample_pool.(prekeys) /\ pk_blob p = [Byte.x12].
Proof.
  assert (sql_ok sample_pool) as Hs.
  { apply (put_prekeys_sql sample2 (so_sql _ (reachable_ok _ sample2_reachable))
      [Byte.x02] true [Byte.x13] [sample_prekey] 20 10 Put_Ok). vm_compute. reflexivity. }
  eexists. split; [vm_compute; reflexivity|].
  edestruct (take_prekey_once sample_pool [Byte.x02] [Byte.x04] 30 5 (Take_Ok [Byte.x12] false)) as (p & Hp & _ & Hb & _);
    [exact Hs|vm_compute; reflexivity|]. exists p. split; [exact Hp|exact Hb].
Defined.

(** ** Attachments *)

(** The tokens once one of them is marked as redeemed. *)
Definition mark_redeemed (f t : bytes) (db : DB) : DB :=
  set_file_tokens
    (update_rows (fun x => ft_file_id x = f /\ ft_token_hash x = t)
      (fun x => mkFileTokenRow (ft_file_id x) (ft_token_hash x) true) db.(file_tokens)) db.

Lemma elem_of_mark_redeemed f t db x :
  x ∈ (mark_redeemed f t db).(file_tokens) <->
  exists y, y ∈ db.(file_tokens) /\
    x = if decide (ft_file_id y = f /\ ft_token_hash y = t) then mkFileTokenRow (ft_file_id y) (ft_token_hash y) true else y.
Proof. unfold mark_redeemed, update_rows. simpl. rewrite list_elem_of_fmap. naive_solver. Qed.

Lemma left_after_redeem f t db :
  count_rows (fun x => ft_file_id x = f /\ ft_redeemed x = false) (mark_redeemed f t db).(file_tokens) = 0 <->
  forall x, x ∈ db.(file_tokens) -> ft_file_id x = f -> ft_redeemed x = false -> ft_token_hash x = t.
Proof.
  split.
  - intros Hc x Hx Hxf Hxr. destruct (decide (ft_token_hash x = t)) as [|Hne]; [done|]. exfalso.
    unfold count_rows in Hc. apply size_zero_iff in Hc.
    assert (x ∈ filter (fun x => ft_file_id x = f /\ ft_redeemed x = false) (mark_redeemed f t db).(file_tokens)) as Hfx.
    { apply list_elem_of_filter. split; [done|]. apply elem_of_mark_redeemed. exists x.
      split; [done|]. by rewrite decide_False by (intros [_ ?]; congruence). }
    rewrite Hc in Hfx. by apply not_elem_of_nil in Hfx.
  - intros Hall. apply count_rows_none. intros x Hx [Hxf Hxr]. apply elem_of_mark_redeemed in Hx as (y & Hy & ->).
    case_decide as Hd; simpl in *; [done|]. apply Hd. split; [done|]. by apply Hall.
Qed.

(** A token that is marked is not redeemed again. *)
Lemma redeem_marked f t db : (redeem_file_token (mark_redeemed f t db) f t).1.1 <> Redeem_Ok.
Proof.
  unfold redeem_file_token. destruct (negb _); [done|].
  destruct (select_first _ _) as [x|] eqn:E; [|done]. apply select_first_Some in E as [Hx [Hf Ht]].
  apply elem_of_mark_redeemed in Hx as (y & _ & ->). case_decide as Hd; simpl in *; [done|]. by destruct Hd.
Qed.

(** A recipient's download token is good for one redemption. A redemption
    that succeeds was of an unredeemed token of a stored file; redeeming it again
    never succeeds; the other recipients' tokens are untouched as long as the file
    is kept; and the file's record goes exactly when no other unredeemed token of
    it is left, which is when the caller is told to delete the bytes. *)
Theorem redeem_once db f t all db' :
  redeem_file_token db f t = (Redeem_Ok, all, db') ->
  (exists tok, tok ∈ db.(file_tokens) /\ ft_file_id tok = f /\ ft_token_hash tok = t /\ ft_redeemed tok = false) /\
  (redeem_file_token db' f t).1.1 <> Redeem_Ok /\
  (all = true <-> forall tok, tok ∈ db.(file_tokens) -> ft_file_id tok = f -> ft_redeemed tok = false -> ft_token_hash tok = t) /\
  (all = true -> forall x, x ∈ db'.(files) <-> x ∈ db.(files) /\ file_id x <> f) /\
  (all = false -> db'.(files) = db.(files) /\
     forall tok, ft_file_id tok <> f \/ ft_token_hash tok <> t -> tok ∈ db'.(file_tokens) <-> tok ∈ db.(file_tokens)).
Proof.
  intros H. unfold redeem_file_token in H.
  destruct (negb _) eqn:Ef; [done|]. bool_prop. apply exists_row_true in Ef as (fr & Hfr & Hfid).
  destruct (select_first _ _) as [tok|] eqn:Et; [|done]. apply select_first_Some in Et as [Hin [Htf Hth]].
  destruct (ft_redeemed tok) eqn:Er; [done|]. cbv zeta in H. fold (mark_redeemed f t db) in H.
  split; [eauto|]. rewrite <- left_after_redeem. destruct (_ =? 0) eqn:El; bool_prop; simplify_eq.
  - split_and!; [|done| |done].
    + unfold redeem_file_token. rewrite (proj2 (exists_row_false _ _)); [done|].
      intros x [Hn _]%elem_of_delete_rows. done.
    + intros _ x. simpl. rewrite elem_of_delete_rows. naive_solver.
  - split_and!; [apply redeem_marked|done|done|]. intros _. split; [done|]. intros x Hx.
    rewrite elem_of_mark_redeemed. split.
    + intros (y & Hy & ->). case_decide as Hd; simpl in *; [naive_solver|done].
    + intros Hxin. exists x. split; [done|]. by rewrite decide_False by naive_solver.
Qed.

Definition sample_file : DB :=
  after (begin_file sample2 [Byte.x02] [Byte.x21] 5000 4096 2 900 [[Byte.x22]; [Byte.x23]] 20 100000).

(** One of two tokens redeemed. *)
Lemma redeem_once_witness :
  exists db', redeem_file_token sample_file [Byte.x21] [Byte.x22] = (Redeem_Ok, false, db') /\
    (redeem_file_token db' [Byte.x21] [Byte.x22]).1.1 <> Redeem_Ok.
Proof.
  eexists. split; [vm_compute; reflexivity|].
  edestruct (redeem_once sample_file [Byte.x21] [Byte.x22] false) as (_ & Hr & _); [vm_compute; reflexivity|exact Hr].
Defined.

(** ** Archives *)

Section archives.
Context `{P : Primitives}.

(** Entries numbered [k], [k+1], ...: those from [from] on, in order. *)
Lemma numbered_sorted es k n :
  map en_number es = seqZ k n -> StronglySorted (fun x y => by_number x y = true) es /\ Forall (fun e => k <= en_number e) es.
Proof.
  revert k n. induction es as [|e es IH]; intros k n H; [split; constructor|]. simpl in H.
  destruct (decide (0 < n)) as [Hn|Hn]; [|by rewrite seqZ_nil in H by lia].
  rewrite seqZ_cons in H by lia. injection H as Hk H. apply IH in H as [Hs Hf].
  split; [constructor; [done|]|constructor; [lia|]]; (eapply Forall_impl; [exact Hf|]); simpl; intros x Hx; [|lia].
  apply Z.leb_le. lia.
Qed.

Lemma filter_true_in {A} (Q : A -> Prop) `{!forall x, Decision (Q x)} (l : list A) : Forall Q l -> filter Q l = l.
Proof. induction 1 as [|x l Hx _ IH]; [done|]. by rewrite filter_cons, decide_True, IH. Qed.

Lemma numbered_from es k n from :
  map en_number es = seqZ k n -> k <= from -> filter (fun e => from <= en_number e) es = zdrop (from - k) es.
Proof.
  revert k n. induction es as [|e es IH]; intros k n H Hk; [by unfold zdrop; rewrite drop_nil|]. pose proof H as H'. simpl in H.
  destruct (decide (0 < n)) as [Hn|Hn]; [|by rewrite seqZ_nil in H by lia].
  rewrite seqZ_cons in H by lia. injection H as He H. rewrite filter_cons. case_decide as Hd.
  - replace (from - k) with 0 by lia. rewrite zdrop_0. f_equal. apply filter_true_in.
    apply numbered_sorted in H as [_ Hf]. eapply Forall_impl; [exact Hf|]. simpl. lia.
  - rewrite (IH _ _ H) by lia. unfold zdrop. replace (Z.to_nat (from - k)) with (S (Z.to_nat (from - (Z.succ k)))) by lia. done.
Qed.

(** A page of an archive: the stored entries from number [from] on. *)
Lemma fetch_entries_page db a from limit :
  archive_ok db a -> 1 <= from < 2 ^ 63 -> 0 <= limit < 2 ^ 63 ->
  fetch_entries db a.(ar_id) from limit
  = map stored_entry_of (ztake limit (zdrop (from - 1) (entries_of db a.(ar_id)))).
Proof.
  intros Hok Hf Hl. unfold fetch_entries. rewrite (i64_small from) by (unfold in_i64; lia).
  replace (filter (fun e => en_archive_id e = ar_id a /\ from <= en_number e) db.(archive_entries))
    with (filter (fun e => from <= en_number e) (entries_of db (ar_id a))); cycle 1.
  { unfold entries_of. rewrite list_filter_filter. apply list_filter_iff. naive_solver. }
  rewrite sort_by_strongly_sorted; cycle 1.
  { apply StronglySorted_filter. apply (proj1 (numbered_sorted _ _ _ (ao_numbers _ _ Hok))). }
  rewrite (numbered_from _ _ _ _ (ao_numbers _ _ Hok)) by lia.
  unfold sql_limit. rewrite i64_small by (unfold in_i64; lia). by rewrite (proj2 (Z.ltb_ge _ _)) by lia.
Qed.

(** An entry of a page, as the service sends it. *)
Definition sent_entry (e : StoredEntry) : ArchiveEntry :=
  mkArchiveEntry e.(StoredEntry_number) e.(StoredEntry_hash) e.(StoredEntry_ciphertext) e.(StoredEntry_redacted).

Lemma sent_page (l : list EntryRow) : map sent_entry (map stored_entry_of l) = map wire_entry l.
Proof. by rewrite map_map. Qed.

(** C18: a member who has checked an archive up to entry [k] and fetches the
    next page gets entries that carry on from there: [verify_chain] accepts the
    page, whatever was appended or redacted, and leads to number [k + limit], or
    to the archive's head when the page reaches the end. So paging from the genesis
    hash verifies the whole archive. *)
Theorem pages_verify db a k limit :
  reachable db -> a ∈ db.(archives) -> 0 <= k <= a.(ar_head_number) -> k < 2 ^ 63 - 1 -> 0 <= limit < 2 ^ 63 ->
  exists hk hk',
    verify_chain a.(ar_id) (mkHead 0 (genesis_hash a.(ar_id)))
      (map wire_entry (ztake k (entries_of db a.(ar_id)))) = Some hk /\ hk.(Head_number) = k /\
    verify_chain a.(ar_id) hk (map sent_entry (fetch_entries db a.(ar_id) (k + 1) limit)) = Some hk' /\
    hk'.(Head_number) = Z.min (k + limit) a.(ar_head_number) /\
    (a.(ar_head_number) <= k + limit -> hk' = mkHead a.(ar_head_number) a.(ar_head_hash)).
Proof.
  intros Hr Ha Hk Hk63 Hl. pose proof (so_archives _ (reachable_ok _ Hr) a Ha) as Hok.
  pose proof (ao_range _ _ Hok) as Hrange.
  rewrite (fetch_entries_page _ _ _ _ Hok), sent_page by lia. replace (k + 1 - 1) with k by lia.
  set (es := entries_of db (ar_id a)). pose proof (ao_chain _ _ Hok) as Hch.
  pose proof (ao_numbers _ _ Hok) as Hnum. fold es in Hch, Hnum.
  assert (size es = ar_head_number a) as Hsz.
  { unfold size. rewrite <- (length_map en_number), Hnum, length_seqZ. lia. }
  rewrite <- (ztake_zdrop es k) in Hch. rewrite <- (ztake_zdrop (zdrop k es) limit) in Hch.
  rewrite !map_app, verify_chain_app in Hch.
  destruct (verify_chain _ _ (map wire_entry (ztake k es))) as [hk|] eqn:E1; [|done].
  rewrite verify_chain_app in Hch. destruct (verify_chain _ hk _) as [hk'|] eqn:E2; [|done].
  pose proof (verify_chain_number _ _ _ _ E1) as N1. rewrite size_map, size_ztake in N1 by lia. simpl in N1.
  specialize (N1 ltac:(lia) ltac:(lia)).
  assert (size (ztake limit (zdrop k es)) = Z.min limit (ar_head_number a - k)) as Hp.
  { unfold size, ztake, zdrop. rewrite length_take, length_drop. unfold size in Hsz. lia. }
  pose proof (verify_chain_number _ _ _ _ E2) as N2. rewrite size_map, Hp in N2. specialize (N2 ltac:(lia) ltac:(lia)).
  exists hk, hk'. split_and!; [done|lia|done|lia|]. intros Hend.
  replace (zdrop limit (zdrop k es)) with (@nil EntryRow) in Hch; [by injection Hch|].
  symmetry. apply size_zero_iff. unfold size, zdrop. rewrite !length_drop. unfold size in Hsz. lia.
Qed.
End archives.

(** The one entry of the sample archive. *)
Lemma pages_verify_witness :
  exists a hk hk', a ∈ sample5.(archives) /\
    verify_chain a.(ar_id) hk (map sent_entry (fetch_entries sample5 a.(ar_id) (0 + 1) 10)) = Some hk' /\
    hk' = mkHead a.(ar_head_number) a.(ar_head_hash).
Proof.
  destruct sample5.(archives) as [|a l] eqn:E; [vm_compute in E; discriminate E|].
  assert (a ∈ sample5.(archives)) as Ha by (rewrite E; left). assert (a.(ar_head_number) = 1) as H1.
  { vm_compute in E. injection E as <- _. reflexivity. }
  destruct (pages_verify sample5 a 0 10 sample_reachable Ha) as (hk & hk' & _ & _ & Hv & _ & He); [lia|lia|lia|].
  exists a, hk, hk'. rewrite <- E. split; [exact Ha|]. split; [exact Hv|]. apply He. lia.
Defined.

Section append.
Context `{P : Primitives}.

(** The database with one more entry at the head of archive [a]. *)
Definition appended (db : DB) (a : ArchiveRow) (nh ct : bytes) (now : Z) : DB :=
  set_archives
    (update_rows (fun x => ar_id x = ar_id a)
      (fun x => mkArchiveRow (ar_id x) (ar_member_count x) (ar_created_at x) (ar_closes_at x)
                  (ar_head_number a + 1) nh (ar_bytes a + size ct) now) db.(archives))
    (set_archive_entries
      (db.(archive_entries) ++ [append_row (ar_id a) (ar_head_number a) nh ct now]) db).

(** The next number of an archive is free. *)
Lemma next_number_free db a nh ct now :
  archive_ok db a -> en_key (append_row (ar_id a) (ar_head_number a) nh ct now) ∉ map en_key db.(archive_entries).
Proof.
  intros Hok Hin. apply list_elem_of_fmap in Hin as (e & [= Hid Hn] & He).
  assert (en_number e ∈ map en_number (entries_of db (ar_id a))) as Hm.
  { apply list_elem_of_fmap_2. by apply list_elem_of_filter. }
  rewrite (ao_numbers _ _ Hok) in Hm. apply elem_of_seqZ in Hm. lia.
Qed.

(** C35: appending to an archive is a compare-and-swap on its head. The append
    is refused as stale, with the current head, unless the sender named that head;
    it is refused if the archive is full; otherwise exactly one entry is added
    after the others and the head moves to it. It never fails in another way, and
    once it has succeeded, another append that named the same old head is stale
    and is told the new one. *)
Theorem append_compare_and_swap db a n h nh ct now q :
  reachable db -> a ∈ db.(archives) -> a.(ar_head_number) < 2 ^ 63 - 1 -> size ct <= MAX_ARCHIVE_ENTRY_BYTES -> q < 2 ^ 63 ->
  let head := mkArchiveState a.(ar_head_number) a.(ar_head_hash) in
  let new_head := mkArchiveState (a.(ar_head_number) + 1) nh in
  append_entry db a.(ar_id) n h nh ct now q =
    (if decide (n = a.(ar_head_number) /\ h = a.(ar_head_hash)) then
       if q <? a.(ar_bytes) + size ct then Some (Append_ArchiveFull, Some head, db)
       else Some (Append_Ok, Some new_head, appended db a nh ct now)
     else Some (Append_Stale, Some head, db)) /\
  entries_of (appended db a nh ct now) a.(ar_id)
    = entries_of db a.(ar_id) ++ [append_row a.(ar_id) a.(ar_head_number) nh ct now] /\
  forall nh2 ct2 now2 q2,
    append_entry (appended db a nh ct now) a.(ar_id) a.(ar_head_number) a.(ar_head_hash) nh2 ct2 now2 q2
    = Some (Append_Stale, Some new_head, appended db a nh ct now).
Proof.
  intros Hr Ha Hn Hct Hq head new_head. pose proof (reachable_ok _ Hr) as [Hsql _ _ _ Harch].
  pose proof (Harch a Ha) as Hok. pose proof (ao_range _ _ Hok) as Hrange. pose proof (ao_bytes _ _ Hok) as Hb.
  pose proof (sum_by_nonneg (fun e => size (en_ciphertext e)) (entries_of db (ar_id a)) (fun _ _ => size_nonneg _)) as Hs0.
  assert (MAX_ARCHIVE_ENTRY_BYTES < 2 ^ 63) by done. pose proof (size_nonneg ct). split_and!.
  - unfold append_entry. rewrite (select_first_unique ar_id _ _ (uniq_archives _ Hsql) Ha).
    cbn [ArchiveState_number ArchiveState_hash]. rewrite !(u64_small (ar_head_number a)), !(u64_small (ar_bytes a)),
      !(u64_small (ar_head_number a + 1)), !(u64_small (ar_bytes a + size ct)) by (unfold in_u64; lia).
    rewrite (i64_small (ar_head_number a + 1)) by (unfold in_i64; lia).
    case_decide as Hd; cycle 1.
    { destruct (ar_head_number a =? n) eqn:E1; simpl; bool_prop; [|done].
      by rewrite bool_decide_eq_false_2 by naive_solver. }
    destruct Hd as [-> ->]. rewrite Z.eqb_refl, bool_decide_eq_true_2 by done. simpl.
    destruct (q <? _) eqn:Eq; [done|]. bool_prop. unfold insert_entry.
    cbn [en_archive_id]. rewrite (proj2 (references_true ar_id (ar_id a) db.(archives)) (list_elem_of_fmap_2 ar_id _ _ Ha)).
    rewrite (proj2 (insert_row_Some en_key _ _ _) (conj (next_number_free db a nh ct now Hok) eq_refl)).
    unfold appended. by rewrite (i64_small (ar_bytes a + size ct)) by (unfold in_i64; lia).
  - change (entries_of (set_archive_entries
      (db.(archive_entries) ++ [append_row (ar_id a) (ar_head_number a) nh ct now]) db) (ar_id a)
      = entries_of db (ar_id a) ++ [append_row (ar_id a) (ar_head_number a) nh ct now]).
    by rewrite entries_of_app, filter_cons, decide_True.
  - intros. unfold append_entry. destruct (select_first _ _) as [b|] eqn:Eb; cycle 1.
    { rewrite select_first_None in Eb. edestruct (Eb _ (list_elem_of_fmap_2 _ _ _ Ha)). by rewrite decide_True. }
    apply select_first_Some in Eb as [Hin Hid]. apply list_elem_of_fmap in Hin as (c & -> & Hc).
    case_decide; [|by destruct Hid]. simpl. rewrite u64_small by (unfold in_u64; lia).
    rewrite (proj2 (Z.eqb_neq _ _)) by lia. done.
Qed.
End append.

(** The head of the sample archive before its entry was appended. *)
Lemma append_compare_and_swap_witness :
  exists a, a ∈ sample5.(archives) /\ forall ct2,
    append_entry (appended sample5 a [Byte.x31] [Byte.x32] 40) a.(ar_id) a.(ar_head_number) a.(ar_head_hash) [Byte.x33] ct2 41 100
    = Some (Append_Stale, Some (mkArchiveState (a.(ar_head_number) + 1) [Byte.x31]), appended sample5 a [Byte.x31] [Byte.x32] 40).
Proof.
  destruct sample5.(archives) as [|a l] eqn:E; [vm_compute in E; discriminate E|].
  assert (a ∈ sample5.(archives)) as Ha by (rewrite E; left). assert (a.(ar_head_number) = 1) as H1.
  { vm_compute in E. injection E as <- _. reflexivity. }
  exists a. rewrite <- E. split; [exact Ha|]. intros ct2.
  destruct (append_compare_and_swap sample5 a 1 [] [Byte.x31] [Byte.x32] 40 100 sample_reachable Ha) as (_ & _ & Hs);
    [lia|vm_compute; discriminate|lia|]. apply Hs.
Defined.

(** ** Acknowledging *)

Lemma ack_from m ids n db :
  foldl (ack_one m) (n, db) ids =
  (n + (size db.(envelopes) - size (delete_rows (fun e => env_mailbox_id e = m /\ env_id e ∈ ids) db.(envelopes))),
   set_envelopes (delete_rows (fun e => env_mailbox_id e = m /\ env_id e ∈ ids) db.(envelopes)) db).
Proof.
  revert n db. induction ids as [|i ids IH]; intros n db.
  - simpl. assert (delete_rows (fun e => env_mailbox_id e = m /\ env_id e ∈ []) db.(envelopes) = db.(envelopes)) as ->.
    { apply filter_true_in, Forall_forall. intros x _ [_ Hx]. by apply not_elem_of_nil in Hx. }
    f_equal; [lia|by destruct db].
  - cbn [foldl]. unfold ack_one at 2. rewrite IH. simpl.
    assert (delete_rows (fun e => env_mailbox_id e = m /\ env_id e ∈ ids)
        (delete_rows (fun e => env_mailbox_id e = m /\ env_id e = i) db.(envelopes))
      = delete_rows (fun e => env_mailbox_id e = m /\ env_id e ∈ i :: ids) db.(envelopes)) as ->.
    { unfold delete_rows. rewrite list_filter_filter. apply list_filter_iff. intros x. rewrite elem_of_cons. naive_solver. }
    f_equal. rewrite <- Z.add_assoc. f_equal. unfold count_rows.
    pose proof (filter_count (fun e => env_mailbox_id e = m /\ env_id e = i) db.(envelopes)). unfold delete_rows in *. lia.
Qed.

(** Acknowledging removes exactly the named envelopes of the signed-in
    mailbox, and nothing of any other mailbox, even under the same IDs; the count
    returned is how many went. *)
Theorem ack_exact db m ids :
  (forall e, e ∈ (ack db m ids).2.(envelopes) <-> e ∈ db.(envelopes) /\ ~ (env_mailbox_id e = m /\ env_id e ∈ ids)) /\
  (ack db m ids).1 = size db.(envelopes) - size (ack db m ids).2.(envelopes) /\
  (ack db m ids).2 = set_envelopes (ack db m ids).2.(envelopes) db.
Proof.
  unfold ack. rewrite ack_from. simpl. split_and!; [|lia|done].
  intros e. rewrite elem_of_delete_rows. tauto.
Qed.
