(* ===== verification/RelayState.v ===== *)
(** * The relay service's state: server/relay_service.h and the small parts of relay_service.cpp

    What every session shares ([Service]: the store, the rate limiter, the table
    of owner connections, the folder of attachments, the clock and the entropy
    source) and what one session keeps ([Session]: the local variables of
    [handle_session], what it has sent). The code of a session is a [prog]: a
    sequence of atomic actions, each of which is one call made under a mutex, one
    file operation, one send or one access to local variables. [run] executes a
    program without interruption ([RelayConcurrent] lets other sessions act between
    any two actions). A thrown exception ends a program and keeps the state it had
    reached. Logging is not modelled. *)

From Stdlib Require Import ZArith Lia.
From stdpp Require Import base list strings gmap pretty.
From S2P Require Import Prelude Threads Wire Protocol RelayProtocol Sql RelayStore.
#[local] Open Scope Z_scope.

(** ** Configuration *)

(** src/server/relay_service.h 20-46 RelayLimits *)
Record RelayLimits := mkRelayLimits {
  mailbox_quota_bytes : Z;
  max_mailboxes : Z;
  max_tokens_per_mailbox : Z;
  rate_limit_per_minute : Z;
  sweep_seconds : Z;
  invite_lifetime_seconds : Z;
  member_invites_outstanding : Z;
  member_invites_total : Z;
  max_archives : Z;
  archive_quota_bytes : Z;
  archive_join_window_seconds : Z;
  keyring_max_bytes : Z;
  max_prekeys : Z;
  prekey_takes_per_hour : Z;
  max_attachment_bytes : Z;
  attachment_quota_bytes : Z;
  attachment_max_seconds : Z;
  abandoned_upload_seconds : Z;
  idle_timeout_seconds : Z;
  poll_millis : Z;
}.

(** The defaults. src/server/relay_service.h 20-46 RelayLimits *)
Definition default_limits : RelayLimits := {|
  mailbox_quota_bytes := 64 * 1024 * 1024;
  max_mailboxes := 1000;
  max_tokens_per_mailbox := 1024;
  rate_limit_per_minute := 120;
  sweep_seconds := 60;
  invite_lifetime_seconds := 14 * 24 * 3600;
  member_invites_outstanding := 3;
  member_invites_total := 10;
  max_archives := 1000;
  archive_quota_bytes := 512 * 1024 * 1024;
  archive_join_window_seconds := 30 * 24 * 3600;
  keyring_max_bytes := 4 * 1024 * 1024;
  max_prekeys := 200;
  prekey_takes_per_hour := 60;
  max_attachment_bytes := 1024 * 1024 * 1024;
  attachment_quota_bytes := 4096 * 1024 * 1024;
  attachment_max_seconds := 30 * 24 * 3600;
  abandoned_upload_seconds := 3600;
  idle_timeout_seconds := 180;
  poll_millis := 250;
|}.

(** ** The rate limiter *)

Module RateLimiter.
(** src/server/relay_service.h 104-104 Window *)
Record Window := mkWindow { start : Z; count : Z }.

(** [windows_]. *)
Abbreviation windows := (gmap bytes Window).

(** [windows_[key]] creates an empty window for a new key; an old one starts over.
    src/server/relay_service.cpp 62-70 RelayService::RateLimiter::allow *)
Definition allow (ws : windows) (key : bytes) (limit now : Z) : bool * windows :=
  let w := default (mkWindow 0 0) (ws !! key) in
  let w := if 60 <=? now - w.(start) then mkWindow now 0 else w in
  let w := mkWindow w.(start) (w.(count) + 1) in
  (w.(count) <=? limit, <[key := w]> ws).

(** src/server/relay_service.cpp 72-78 RelayService::RateLimiter::prune *)
Definition prune (ws : windows) (now : Z) : windows :=
  filter (fun kw => ~ 300 <= now - kw.2.(start)) ws.
End RateLimiter.

(** ** Owners: one connection per mailbox *)

Module Owners.
(** A [kick] flag is the [std::atomic<bool>] a session allocates: [kicked] holds
    the flags that are set. *)
Record t := mk { slots : gmap bytes nat; kicked : gset nat }.

(** src/server/relay_service.cpp 238-243 RelayService::install_owner *)
Definition install_owner (o : t) (mailbox : bytes) (kick : nat) : t :=
  let key := bytes_to_hex mailbox in
  let kicked' := match o.(slots) !! key with Some old => {[ old ]} ∪ o.(kicked) | None => o.(kicked) end in
  mk (<[key := kick]> o.(slots)) kicked'.

(** src/server/relay_service.cpp 245-249 RelayService::release_owner *)
Definition release_owner (o : t) (mailbox : bytes) (kick : nat) : t :=
  let key := bytes_to_hex mailbox in
  if decide (o.(slots) !! key = Some kick) then mk (delete key o.(slots)) o.(kicked) else o.
End Owners.

(** ** The folder of attachments *)

Module Disk.
(** Names of the folder, the contents of files (a file stays readable and
    writable through an open stream after its name is gone), and the next
    unused inode. *)
Record t := mk { names : gmap bytes nat; contents : gmap nat bytes; fresh : nat }.

(** [std::ofstream::open] with [std::ios::trunc]. *)
Definition create (d : t) (name : bytes) : nat * t :=
  match d.(names) !! name with
  | Some i => (i, mk d.(names) (<[i := []]> d.(contents)) d.(fresh))
  | None => (d.(fresh), mk (<[name := d.(fresh)]> d.(names)) (<[d.(fresh) := []]> d.(contents)) (S d.(fresh)))
  end.

(** [std::ofstream::write]. *)
Definition append (d : t) (i : nat) (data : bytes) : t :=
  mk d.(names) (<[i := default [] (d.(contents) !! i) ++ data]> d.(contents)) d.(fresh).

(** [std::filesystem::remove]: no error if there is no such file. *)
Definition remove (d : t) (name : bytes) : t := mk (delete name d.(names)) d.(contents) d.(fresh).

(** [std::filesystem::rename]: replaces the target; fails if there is no source. *)
Definition rename (d : t) (from to : bytes) : option t :=
  match d.(names) !! from with
  | None => None
  | Some i => Some (mk (<[to := i]> (delete from d.(names))) d.(contents) d.(fresh))
  end.

(** What [std::ifstream] opens. *)
Definition read (d : t) (name : bytes) : option bytes :=
  match d.(names) !! name with Some i => Some (default [] (d.(contents) !! i)) | None => None end.

(** [path::stem]: the name without what follows its last dot, unless the dot comes first. *)
Fixpoint before_last_dot (s : bytes) : option bytes :=
  match s with
  | [] => None
  | c :: s =>
      match before_last_dot s with
      | Some p => Some (c :: p)
      | None => if decide (c = Byte.x2e) then Some [] else None
      end
  end.
Definition stem (name : bytes) : bytes :=
  match before_last_dot name with Some (c :: p) => c :: p | _ => name end.
End Disk.

(** ** What sessions share, and what a session keeps *)

(** src/server/relay_service.h 98-132 RelayService *)
Record Service := mkService {
  store : DB;
  rate : gmap bytes RateLimiter.Window;
  owners : Owners.t;
  disk : Disk.t;
  clock : Z;
  entropy : bytes;
}.

Definition set_store (x : DB) (v : Service) : Service :=
  mkService x v.(rate) v.(owners) v.(disk) v.(clock) v.(entropy).
Definition set_rate (x : gmap bytes RateLimiter.Window) (v : Service) : Service :=
  mkService v.(store) x v.(owners) v.(disk) v.(clock) v.(entropy).
Definition set_owners (x : Owners.t) (v : Service) : Service :=
  mkService v.(store) v.(rate) x v.(disk) v.(clock) v.(entropy).
Definition set_disk (x : Disk.t) (v : Service) : Service :=
  mkService v.(store) v.(rate) v.(owners) x v.(clock) v.(entropy).
Definition set_entropy (x : bytes) (v : Service) : Service :=
  mkService v.(store) v.(rate) v.(owners) v.(disk) v.(clock) x.

(** [up_out] is the file the stream writes to.
    src/server/relay_service.cpp 285-292 FileUploadState *)
Record FileUploadState := mkUpload {
  up_active : bool;
  up_id : bytes;
  up_count : Z;
  up_next : Z;
  up_chunk_size : Z;
  up_total : Z;
  up_out : nat;
  up_part : bytes;
}.
Definition no_upload : FileUploadState := mkUpload false [] 0 0 0 0 0%nat [].

(** src/server/relay_service.cpp 302-306 KeyringUpload *)
Record KeyringUpload := mkKeyringUpload {
  ku_active : bool;
  ku_total : Z;
  ku_count : Z;
  ku_next : Z;
  ku_buffer : bytes;
}.
Definition no_keyring_upload : KeyringUpload := mkKeyringUpload false 0 0 0 [].

(** The local variables of [handle_session]; [sent] is what went out on the
    socket, [peer_reads] how many more messages the peer takes before the
    connection fails ([None]: any number), and [disk_faults] the outcomes of the
    coming file operations ([true]: it fails; none left: they succeed).
    src/server/relay_service.cpp 281-309 RelayService::handle_session *)
Record Session := mkSession {
  challenge : bytes;
  peer_ip : bytes;
  kick : nat;
  mailbox : option bytes;
  challenge_used : bool;
  collecting : bool;
  is_owner : bool;
  archive_session : option (bytes * bytes);
  upload : FileUploadState;
  keyring_upload : KeyringUpload;
  last_seq : Z;
  sent : list (MessageType * bytes);
  peer_reads : option nat;
  disk_faults : list bool;
}.

Definition set_challenge (x : bytes) (s : Session) : Session :=
  mkSession x s.(peer_ip) s.(kick) s.(mailbox) s.(challenge_used) s.(collecting) s.(is_owner) s.(archive_session) s.(upload) s.(keyring_upload) s.(last_seq) s.(sent) s.(peer_reads) s.(disk_faults).
Definition set_mailbox (x : option bytes) (s : Session) : Session :=
  mkSession s.(challenge) s.(peer_ip) s.(kick) x s.(challenge_used) s.(collecting) s.(is_owner) s.(archive_session) s.(upload) s.(keyring_upload) s.(last_seq) s.(sent) s.(peer_reads) s.(disk_faults).
Definition set_challenge_used (x : bool) (s : Session) : Session :=
  mkSession s.(challenge) s.(peer_ip) s.(kick) s.(mailbox) x s.(collecting) s.(is_owner) s.(archive_session) s.(upload) s.(keyring_upload) s.(last_seq) s.(sent) s.(peer_reads) s.(disk_faults).
Definition set_collecting (x : bool) (s : Session) : Session :=
  mkSession s.(challenge) s.(peer_ip) s.(kick) s.(mailbox) s.(challenge_used) x s.(is_owner) s.(archive_session) s.(upload) s.(keyring_upload) s.(last_seq) s.(sent) s.(peer_reads) s.(disk_faults).
Definition set_is_owner (x : bool) (s : Session) : Session :=
  mkSession s.(challenge) s.(peer_ip) s.(kick) s.(mailbox) s.(challenge_used) s.(collecting) x s.(archive_session) s.(upload) s.(keyring_upload) s.(last_seq) s.(sent) s.(peer_reads) s.(disk_faults).
Definition set_archive_session (x : option (bytes * bytes)) (s : Session) : Session :=
  mkSession s.(challenge) s.(peer_ip) s.(kick) s.(mailbox) s.(challenge_used) s.(collecting) s.(is_owner) x s.(upload) s.(keyring_upload) s.(last_seq) s.(sent) s.(peer_reads) s.(disk_faults).
Definition set_upload (x : FileUploadState) (s : Session) : Session :=
  mkSession s.(challenge) s.(peer_ip) s.(kick) s.(mailbox) s.(challenge_used) s.(collecting) s.(is_owner) s.(archive_session) x s.(keyring_upload) s.(last_seq) s.(sent) s.(peer_reads) s.(disk_faults).
Definition set_keyring_upload (x : KeyringUpload) (s : Session) : Session :=
  mkSession s.(challenge) s.(peer_ip) s.(kick) s.(mailbox) s.(challenge_used) s.(collecting) s.(is_owner) s.(archive_session) s.(upload) x s.(last_seq) s.(sent) s.(peer_reads) s.(disk_faults).
Definition set_last_seq (x : Z) (s : Session) : Session :=
  mkSession s.(challenge) s.(peer_ip) s.(kick) s.(mailbox) s.(challenge_used) s.(collecting) s.(is_owner) s.(archive_session) s.(upload) s.(keyring_upload) x s.(sent) s.(peer_reads) s.(disk_faults).
Definition set_sent (x : list (MessageType * bytes)) (s : Session) : Session :=
  mkSession s.(challenge) s.(peer_ip) s.(kick) s.(mailbox) s.(challenge_used) s.(collecting) s.(is_owner) s.(archive_session) s.(upload) s.(keyring_upload) s.(last_seq) x s.(peer_reads) s.(disk_faults).
Definition set_peer_reads (x : option nat) (s : Session) : Session :=
  mkSession s.(challenge) s.(peer_ip) s.(kick) s.(mailbox) s.(challenge_used) s.(collecting) s.(is_owner) s.(archive_session) s.(upload) s.(keyring_upload) s.(last_seq) s.(sent) x s.(disk_faults).
Definition set_disk_faults (x : list bool) (s : Session) : Session :=
  mkSession s.(challenge) s.(peer_ip) s.(kick) s.(mailbox) s.(challenge_used) s.(collecting) s.(is_owner) s.(archive_session) s.(upload) s.(keyring_upload) s.(last_seq) s.(sent) s.(peer_reads) x.

(** ** Programs *)

(** One action returns a value, or throws ([None]). *)
Abbreviation action := (@Threads.action Service Session).
Abbreviation prog := (Threads.prog Service Session).

(** ** The actions *)

(** A call of a method of the store: [None] if it throws. *)
Definition on_store {R} (f : DB -> option (R * DB)) : prog R :=
  act (fun v s => match f v.(store) with Some (r, db) => Some (r, set_store db v, s) | None => None end).
(** One that does not throw, or only reads. *)
Definition on_store_ret {R} (f : DB -> R * DB) : prog R := on_store (fun db => Some (f db)).
Definition query {R} (f : DB -> R) : prog R := act (fun v s => Some (f v.(store), v, s)).

Definition rate_allow (key : bytes) (limit now : Z) : prog bool :=
  act (fun v s => let '(b, ws) := RateLimiter.allow v.(rate) key limit now in Some (b, set_rate ws v, s)).

Definition on_owners (f : Owners.t -> Owners.t) : prog unit :=
  act (fun v s => Some (tt, set_owners (f v.(owners)) v, s)).

Definition on_disk {R} (f : Disk.t -> R * Disk.t) : prog R :=
  act (fun v s => let '(r, d) := f v.(disk) in Some (r, set_disk d v, s)).

(** A file operation that may fail, and then does nothing. *)
Definition try_disk {R} (f : Disk.t -> option (R * Disk.t)) : prog (option R) :=
  act (fun v s =>
    let fails := match s.(disk_faults) with b :: _ => b | [] => false end in
    let s := set_disk_faults (tail s.(disk_faults)) s in
    if fails then Some (None, v, s) else
    match f v.(disk) with
    | Some (r, d) => Some (Some r, set_disk d v, s)
    | None => Some (None, v, s)
    end).

Definition unix_now : prog Z := act (fun v s => Some (v.(clock), v, s)).

(** [CryptoEngine::random_bytes]; throws if there is no entropy. *)
Definition random_bytes (n : Z) : prog bytes :=
  act (fun v s =>
    if size v.(entropy) <? n then None
    else Some (ztake n v.(entropy), set_entropy (zdrop n v.(entropy)) v, s)).

Definition get : prog Session := act (fun v s => Some (s, v, s)).
Definition modify (f : Session -> Session) : prog unit := act (fun v s => Some (tt, v, f s)).
Definition kicked : prog bool := act (fun v s => Some (bool_decide (s.(kick) ∈ v.(owners).(Owners.kicked)), v, s)).

(** [send_message]: false if the connection has failed (see [Protocol.send_message]
    for the bytes of one message). *)
Definition send_msg (t : MessageType) (payload : bytes) : prog bool :=
  act (fun v s =>
    match s.(peer_reads) with
    | Some O => Some (false, v, s)
    | Some (S n) => Some (true, v, set_peer_reads (Some n) (set_sent (s.(sent) ++ [(t, payload)]) s))
    | None => Some (true, v, set_sent (s.(sent) ++ [(t, payload)]) s)
    end).

(** ** Errors and texts *)

(** [std::to_string]. *)
Definition to_string (z : Z) : bytes := str (pretty z).

(** How a case of the switch ends: [break], [continue] or [return]. *)
Inductive flow := Break | Continue | Return.

(** src/server/relay_service.cpp 31-31 send_error *)
Definition send_error (text : bytes) : prog unit :=
  bind (send_msg ERROR_MSG text) (fun _ => Done tt).

(** [{ send_error(...); break; }], [continue] and [return]. *)
Definition refuse (text : string) : prog flow := bind (send_error (str text)) (fun _ => Done Break).
Definition refuse_text (text : bytes) : prog flow := bind (send_error text) (fun _ => Done Break).
Definition refuse_next (text : string) : prog flow := bind (send_error (str text)) (fun _ => Done Continue).
Definition hang_up (text : string) : prog flow := bind (send_error (str text)) (fun _ => Done Return).

(** [if (!send_message(...)) return; break;]. *)
Definition reply (t : MessageType) (payload : bytes) : prog flow :=
  bind (send_msg t payload) (fun ok : bool => Done (if ok then Break else Return)).

(** ** Running *)

(** Whether the connection takes another message, and the session after it. *)
Definition live (s : Session) : bool := match s.(peer_reads) with Some O => false | _ => true end.
Definition push_sent (m : MessageType * bytes) (s : Session) : Session :=
  set_peer_reads (Nat.pred <$> s.(peer_reads)) (set_sent (s.(sent) ++ [m]) s).

Lemma run_send {B} t p (k : bool -> prog B) v s :
  run (bind (send_msg t p) k) v s =
  if live s then run (k true) v (push_sent (t, p) s) else run (k false) v s.
Proof.
  unfold send_msg, live, push_sent. simpl. destruct (peer_reads s) as [[|r]|] eqn:E; [done..|].
  unfold set_peer_reads, set_sent. simpl. by rewrite E.
Qed.

Lemma run_reply t p v s :
  run (reply t p) v s = if live s then (Some Break, v, push_sent (t, p) s) else (Some Return, v, s).
Proof. unfold reply. rewrite run_send. by destruct (live s). Qed.

(** The session after an error message. *)
Definition after_error (text : bytes) (s : Session) : Session :=
  if live s then push_sent (ERROR_MSG, text) s else s.

Lemma run_send_error text v s : run (send_error text) v s = (Some tt, v, after_error text s).
Proof. unfold send_error, after_error. rewrite run_send. by destruct (live s). Qed.

Lemma run_refuse text v s : run (refuse text) v s = (Some Break, v, after_error (str text) s).
Proof. unfold refuse. by rewrite run_bind, run_send_error. Qed.
Lemma run_refuse_text text v s : run (refuse_text text) v s = (Some Break, v, after_error text s).
Proof. unfold refuse_text. by rewrite run_bind, run_send_error. Qed.
Lemma run_refuse_next text v s : run (refuse_next text) v s = (Some Continue, v, after_error (str text) s).
Proof. unfold refuse_next. by rewrite run_bind, run_send_error. Qed.
Lemma run_hang_up text v s : run (hang_up text) v s = (Some Return, v, after_error (str text) s).
Proof. unfold hang_up. by rewrite run_bind, run_send_error. Qed.

Section running.
Context {B : Type}.
Lemma run_on_store {R} f (k : R -> prog B) v s :
  run (bind (on_store f) k) v s =
  match f v.(store) with Some (r, db) => run (k r) (set_store db v) s | None => (None, v, s) end.
Proof. unfold on_store. simpl. by destruct (f (store v)) as [[r db]|]. Qed.
Lemma run_on_store_ret {R} f (k : R -> prog B) v s :
  run (bind (on_store_ret f) k) v s = let '(r, db) := f v.(store) in run (k r) (set_store db v) s.
Proof. unfold on_store_ret. rewrite run_on_store. by destruct (f (store v)). Qed.
Lemma run_query {R} f (k : R -> prog B) v s : run (bind (query f) k) v s = run (k (f v.(store))) v s.
Proof. done. Qed.
Lemma run_rate key limit now (k : bool -> prog B) v s :
  run (bind (rate_allow key limit now) k) v s =
  run (k (RateLimiter.allow v.(rate) key limit now).1) (set_rate (RateLimiter.allow v.(rate) key limit now).2 v) s.
Proof. unfold rate_allow. simpl. by destruct (RateLimiter.allow (rate v) key limit now). Qed.
Lemma run_owners f (k : unit -> prog B) v s :
  run (bind (on_owners f) k) v s = run (k tt) (set_owners (f v.(owners)) v) s.
Proof. done. Qed.
Lemma run_disk {R} f (k : R -> prog B) v s :
  run (bind (on_disk f) k) v s = run (k (f v.(disk)).1) (set_disk (f v.(disk)).2 v) s.
Proof. unfold on_disk. simpl. by destruct (f (disk v)). Qed.
Lemma run_now (k : Z -> prog B) v s : run (bind unix_now k) v s = run (k v.(clock)) v s.
Proof. done. Qed.
Lemma run_random n (k : bytes -> prog B) v s :
  run (bind (random_bytes n) k) v s =
  if size v.(entropy) <? n then (None, v, s)
  else run (k (ztake n v.(entropy))) (set_entropy (zdrop n v.(entropy)) v) s.
Proof. unfold random_bytes. simpl. by destruct (_ <? _). Qed.
Lemma run_get (k : Session -> prog B) v s : run (bind get k) v s = run (k s) v s.
Proof. done. Qed.
Lemma run_modify f (k : unit -> prog B) v s : run (bind (modify f) k) v s = run (k tt) v (f s).
Proof. done. Qed.
Lemma run_kicked (k : bool -> prog B) v s :
  run (bind kicked k) v s = run (k (bool_decide (s.(kick) ∈ v.(owners).(Owners.kicked)))) v s.
Proof. done. Qed.
Lemma run_done (a : B) (v : Service) (s : Session) : run (Done a) v s = (Some a, v, s).
Proof. done. Qed.

(** A file operation when the disk does not fail. *)
Lemma run_try_disk {R} f (k : option R -> prog B) v s :
  s.(disk_faults) = [] ->
  run (bind (try_disk f) k) v s =
  match f v.(disk) with Some (r, d) => run (k (Some r)) (set_disk d v) s | None => run (k None) v s end.
Proof.
  intros H. unfold try_disk. simpl. rewrite H.
  assert (set_disk_faults (tail []) s = s) as -> by (destruct s; simpl in *; by subst).
  by destruct (f (disk v)) as [[r d]|].
Qed.
End running.

Create Rewrite HintDb run.
#[export] Hint Rewrite @run_send @run_reply @run_send_error @run_refuse @run_refuse_text @run_refuse_next @run_hang_up
  @run_on_store @run_on_store_ret @run_query @run_rate @run_owners @run_disk @run_now @run_random @run_get @run_modify
  @run_kicked @run_done : run.

(** The errors and replies leave everything but what was sent. *)
Lemma after_error_sent text s :
  after_error text s = set_peer_reads (after_error text s).(peer_reads) (set_sent (after_error text s).(sent) s).
Proof. unfold after_error. destruct (live s); [done|]. by destruct s. Qed.
