(* ===== verification/RelayService.v ===== *)
(** * The relay service: server/relay_service.cpp

    One definition per case of the switch in [handle_session], with its checks in
    the order of the source, and around them the loop, the hello, the guards that
    run when a session ends, and the maintenance operations. The signing key and
    the limits are the parameters of the section. *)

From Stdlib Require Import ZArith Lia.
From stdpp Require Import base list strings gmap.
From S2P Require Import Prelude Threads Wire Protocol RelayProtocol Crypto Sql RelayStore RelayState.
#[local] Open Scope Z_scope.
#[local] Open Scope prog_scope.

(** src/server/relay_service.cpp 28-28 hex_of *)
Definition hex_of (b : bytes) : bytes := bytes_to_hex b.

(** src/server/relay_service.cpp 128-128 RelayService::file_path *)
Definition file_path (fid : bytes) (extension : string) : bytes := bytes_to_hex fid ++ str extension.

(** src/server/relay_service.cpp 130-134 RelayService::remove_file_bytes *)
Definition remove_file_bytes (fid : bytes) : prog unit :=
  let* _ := on_disk (fun d => (tt, Disk.remove d (file_path fid ".bin"))) in
  on_disk (fun d => (tt, Disk.remove d (file_path fid ".part"))).

Section service.
Context `{P : Primitives}.
Variable limits : RelayLimits.
Variables (public_key private_key relay_id : bytes).

(** ** The connection's two guards *)

(** src/server/relay_service.cpp 293-300 abort_upload *)
Definition abort_upload : prog unit :=
  let* s := get in
  if negb s.(upload).(up_active) then Done tt else
  let* _ := on_disk (fun d => (tt, Disk.remove d s.(upload).(up_part))) in
  let* _ := on_store_ret (fun db => delete_file db s.(upload).(up_id) []) in
  modify (fun s => let u := s.(upload) in
    set_upload (mkUpload false u.(up_id) u.(up_count) u.(up_next) u.(up_chunk_size) u.(up_total) u.(up_out) u.(up_part)) s).

(** src/server/relay_service.cpp 307-307 release *)
Definition release : prog unit :=
  let* s := get in
  match s.(mailbox) with
  | Some mb => if s.(is_owner) then on_owners (fun o => Owners.release_owner o mb s.(kick)) else Done tt
  | None => Done tt
  end.

(** ** Deliveries *)

(** The messages of one batch. src/server/relay_service.cpp 256-260 RelayService::push_pending *)
Fixpoint push_batch (batch : list Stored) : prog bool :=
  match batch with
  | [] => Done true
  | e :: batch =>
      let out := mkStoredEnvelope e.(Stored_id) (u64 e.(Stored_deposited_at)) e.(Stored_token_hash) e.(Stored_envelope) in
      let* ok := send_msg RELAY_ENVELOPE (encode_StoredEnvelope out) in
      if negb ok then Done false else
      let* _ := modify (set_last_seq e.(Stored_seq)) in
      push_batch batch
  end.

(** [None] if the loop needs more than [fuel] rounds.
    src/server/relay_service.cpp 252-262 RelayService::push_pending *)
Fixpoint push_pending (fuel : nat) (mb : bytes) : prog (option bool) :=
  match fuel with
  | O => Done None
  | S fuel =>
      let* s := get in
      let* now := unix_now in
      let* batch := query (fun db => fetch db mb s.(last_seq) now 32) in
      match batch with
      | [] => Done (Some true)
      | _ =>
          let* ok := push_batch batch in
          if negb ok then Done (Some false) else push_pending fuel mb
      end
  end.

(** ** Mailboxes *)

(** src/server/relay_service.cpp 329-351 RelayService::handle_session *)
Definition handle_register (payload : bytes) (now : Z) : prog flow :=
  match decode_register payload with
  | None => hang_up "Malformed register request"
  | Some m =>
      let* s := get in
      let* allowed := rate_allow (str "reg:" ++ s.(peer_ip)) 10 now in
      if negb allowed then refuse "Too many attempts, try again later" else
      if negb (size m.(Register_access_public_key) =? sig_public_key_size) then refuse "Invalid access key" else
      if negb (verify (register_signing_input relay_id m.(Register_mailbox_id) m.(Register_access_public_key)
                         m.(Register_send_token_hash))
                 m.(Register_signature) m.(Register_access_public_key))
      then refuse "Invalid proof of key ownership" else
      let* r := on_store (fun db =>
        register_mailbox db (sha256 m.(Register_invite)) m.(Register_mailbox_id) m.(Register_access_public_key)
          m.(Register_send_token_hash) now limits.(max_mailboxes)) in
      match r with
      | Register_Ok => reply RELAY_REGISTER_OK []
      | Register_BadInvite => refuse "Invalid, used or expired invite"
      | Register_MailboxExists => refuse "That mailbox already exists"
      | Register_LimitReached => refuse "This relay is full"
      end
  end.

(** src/server/relay_service.cpp 353-368 RelayService::handle_session *)
Definition handle_auth (payload : bytes) : prog flow :=
  match decode_auth payload with
  | None => hang_up "Malformed auth request"
  | Some m =>
      let* s := get in
      if s.(challenge_used) then hang_up "Reconnect to authenticate again" else
      let* _ := modify (set_challenge_used true) in
      let* key := query (fun db => access_key db m.(Auth_mailbox_id)) in
      let ok :=
        match key with
        | Some key => verify (auth_signing_input s.(challenge) relay_id m.(Auth_mailbox_id)) m.(Auth_signature) key
        | None => false
        end in
      if negb ok then hang_up "Authentication failed" else
      let* _ := modify (set_mailbox (Some m.(Auth_mailbox_id))) in
      reply RELAY_AUTH_OK []
  end.

(** src/server/relay_service.cpp 370-389 RelayService::handle_session *)
Definition handle_deposit (payload : bytes) (now : Z) : prog flow :=
  match decode_deposit payload with
  | None => hang_up "Malformed deposit"
  | Some m =>
      if m.(Deposit_ttl_seconds) <? MIN_TTL_SECONDS then refuse "Invalid lifetime" else
      let* s := get in
      let* allowed := rate_allow (str "dep-ip:" ++ s.(peer_ip)) limits.(rate_limit_per_minute) now in
      if negb allowed then refuse "Too many deposits, slow down" else
      let token_hash := sha256 m.(Deposit_send_token) in
      let* valid := query (fun db => token_valid db m.(Deposit_mailbox_id) token_hash) in
      if negb valid then refuse "Unknown mailbox or token" else
      let* allowed := rate_allow (str "dep-tok:" ++ hex_of token_hash) limits.(rate_limit_per_minute) now in
      if negb allowed then refuse "Too many deposits with this token" else
      let* envelope_id := random_bytes ENVELOPE_ID_BYTES in
      let ttl := if MAX_TTL_SECONDS <? m.(Deposit_ttl_seconds) then MAX_TTL_SECONDS else m.(Deposit_ttl_seconds) in
      let* r := on_store (fun db =>
        deposit db m.(Deposit_mailbox_id) envelope_id m.(Deposit_envelope) token_hash now ttl
          limits.(mailbox_quota_bytes)) in
      match r with
      | Deposit_MailboxFull => refuse "Mailbox is full"
      | Deposit_Ok => reply RELAY_DEPOSIT_OK (encode_IdList (mkIdList [envelope_id]))
      end
  end.

(** [None]: the deliveries need more rounds than [fuel].
    src/server/relay_service.cpp 391-400 RelayService::handle_session *)
Definition handle_collect (fuel : nat) : prog (option flow) :=
  let* s := get in
  match s.(mailbox) with
  | None => let* f := refuse "Sign in first" in Done (Some f)
  | Some mb =>
      let* _ :=
        (if negb s.(is_owner)
         then let* _ := on_owners (fun o => Owners.install_owner o mb s.(kick)) in modify (set_is_owner true)
         else Done tt) in
      let* _ := modify (set_collecting true) in
      let* _ := modify (set_last_seq 0) in
      let* ok := push_pending fuel mb in
      match ok with
      | None => Done None
      | Some false => Done (Some Return)
      | Some true => let* f := reply RELAY_COLLECT_END [] in Done (Some f)
      end
  end.

(** src/server/relay_service.cpp 402-410 RelayService::handle_session *)
Definition handle_ack (payload : bytes) : prog flow :=
  let* s := get in
  match s.(mailbox) with
  | None => refuse "Sign in first"
  | Some mb =>
      match decode_id_list payload with
      | None => hang_up "Malformed acknowledgement"
      | Some m =>
          let* n := on_store_ret (fun db => ack db mb m.(IdList_ids)) in
          reply RELAY_ACK_OK (write_u32 [] (u32 n))
      end
  end.

(** src/server/relay_service.cpp 412-434 RelayService::handle_session *)
Definition handle_invite_create (now : Z) : prog flow :=
  let* s := get in
  match s.(mailbox) with
  | None => refuse "Sign in first"
  | Some mb =>
      if limits.(member_invites_outstanding) =? 0 then refuse "This relay doesn't let members make invites" else
      let* allowed := rate_allow (str "invite:" ++ hex_of mb) 10 now in
      if negb allowed then refuse "Too many requests, try again later" else
      let* invite := random_bytes INVITE_BYTES in
      let* r := on_store (fun db =>
        add_member_invite db mb (sha256 invite) now (now + limits.(invite_lifetime_seconds))
          limits.(member_invites_outstanding) limits.(member_invites_total)) in
      match r with
      | Issue_Ok => reply RELAY_INVITE_OK invite
      | Issue_TooManyOutstanding =>
          refuse_text (str "You already have " ++ to_string limits.(member_invites_outstanding) ++
                       str " unused invites. Wait until a friend uses one or it expires.")
      | Issue_TooManyIssued => refuse "You have reached the limit of people you can invite to this relay"
      | Issue_NoSuchMailbox => refuse "Unknown mailbox"
      end
  end.

(** src/server/relay_service.cpp 800-810 RelayService::handle_session *)
Definition handle_invite_list (now : Z) : prog flow :=
  let* s := get in
  match s.(mailbox) with
  | None => refuse "Sign in first"
  | Some mb =>
      if limits.(member_invites_outstanding) =? 0 then refuse "This relay doesn't let members make invites" else
      let* unused := query (fun db => unused_invites db mb now) in
      let* joined := query (fun db => joined_through db mb) in
      let status :=
        mkInviteStatus (u32 limits.(member_invites_outstanding)) (u32 limits.(member_invites_total))
          (map (fun '(h, e) => mkUnused h (u64 e)) unused) (map (fun '(m, j) => mkJoined m (u64 j)) joined) in
      reply RELAY_INVITE_LIST_OK (encode_InviteStatus status)
  end.

(** src/server/relay_service.cpp 812-821 RelayService::handle_session *)
Definition handle_invite_cancel (payload : bytes) : prog flow :=
  let* s := get in
  match s.(mailbox) with
  | None => refuse "Sign in first"
  | Some mb =>
      match decode_hash_op payload with
      | None => hang_up "Malformed request"
      | Some m =>
          let* ok := on_store_ret (fun db => cancel_member_invite db mb m.(HashOp_token_hash)) in
          if negb ok then refuse "That isn't one of your unused invites" else
          reply RELAY_INVITE_CANCEL_OK []
      end
  end.

(** [add]: whether the message is RELAY_TOKEN_ADD.
    src/server/relay_service.cpp 823-839 RelayService::handle_session *)
Definition handle_token (add : bool) (payload : bytes) (now : Z) : prog flow :=
  let* s := get in
  match s.(mailbox) with
  | None => refuse "Sign in first"
  | Some mb =>
      match decode_hash_op payload with
      | None => hang_up "Malformed token request"
      | Some m =>
          if add then
            let* r := on_store (fun db => add_token db mb m.(HashOp_token_hash) now limits.(max_tokens_per_mailbox)) in
            match r with
            | Token_Ok => reply RELAY_TOKEN_OK []
            | _ => refuse "Too many send tokens on this mailbox"
            end
          else
            let* _ := on_store_ret (fun db => revoke_token db mb m.(HashOp_token_hash)) in
            reply RELAY_TOKEN_OK []
      end
  end.

(** ** Chat archives *)

(** src/server/relay_service.cpp 436-453 RelayService::handle_session *)
Definition handle_archive_create (payload : bytes) (now : Z) : prog flow :=
  let* s := get in
  match s.(mailbox) with
  | None => refuse "Sign in first"
  | Some mb =>
      match decode_archive_create payload with
      | None => hang_up "Malformed archive request"
      | Some m =>
          let* allowed := rate_allow (str "archive-create:" ++ hex_of mb) 10 now in
          if negb allowed then refuse "Too many requests, try again later" else
          let* r := on_store (fun db =>
            create_archive db m.(ArchiveCreate_archive_id) m.(ArchiveCreate_join_token_hashes)
              (sha256 (archive_genesis_input m.(ArchiveCreate_archive_id))) now
              (now + limits.(archive_join_window_seconds)) limits.(max_archives)) in
          match r with
          | Create_Ok => reply ARCHIVE_CREATE_OK []
          | Create_Exists => refuse "That archive already exists"
          | Create_LimitReached => refuse "This relay can't hold more archives"
          end
      end
  end.

(** src/server/relay_service.cpp 455-478 RelayService::handle_session *)
Definition handle_archive_join (payload : bytes) (now : Z) : prog flow :=
  match decode_archive_join payload with
  | None => hang_up "Malformed archive request"
  | Some m =>
      let* s := get in
      let* allowed := rate_allow (str "archive-join:" ++ s.(peer_ip)) 30 now in
      if negb allowed then refuse "Too many attempts, try again later" else
      if negb (size m.(ArchiveJoin_public_key) =? sig_public_key_size) then refuse "Invalid key" else
      let token_hash := sha256 m.(ArchiveJoin_join_token) in
      if negb (verify (archive_join_signing_input relay_id m.(ArchiveJoin_archive_id) m.(ArchiveJoin_public_key) token_hash)
                 m.(ArchiveJoin_signature) m.(ArchiveJoin_public_key))
      then refuse "Invalid proof of key ownership" else
      let* r := on_store (fun db =>
        join_archive db m.(ArchiveJoin_archive_id) token_hash (sha256 m.(ArchiveJoin_public_key))
          m.(ArchiveJoin_public_key) now) in
      match r with
      | Join_Ok => reply ARCHIVE_JOIN_OK []
      | Join_NoSuchArchive | Join_BadToken => refuse "Unknown archive or join token"
      | Join_Closed => refuse "Registration for this archive is closed"
      | Join_KeyExists => refuse "That key is already registered"
      end
  end.

(** src/server/relay_service.cpp 480-495 RelayService::handle_session *)
Definition handle_archive_auth (payload : bytes) : prog flow :=
  match decode_archive_auth payload with
  | None => hang_up "Malformed archive request"
  | Some m =>
      let* s := get in
      if s.(challenge_used) then hang_up "Reconnect to authenticate again" else
      let* _ := modify (set_challenge_used true) in
      let* key := query (fun db => archive_member_key db m.(ArchiveAuth_archive_id) m.(ArchiveAuth_key_hash)) in
      let ok :=
        match key with
        | Some key =>
            verify (archive_auth_signing_input s.(challenge) relay_id m.(ArchiveAuth_archive_id) m.(ArchiveAuth_key_hash))
              m.(ArchiveAuth_signature) key
        | None => false
        end in
      if negb ok then hang_up "Authentication failed" else
      let* _ := modify (set_archive_session (Some (m.(ArchiveAuth_archive_id), m.(ArchiveAuth_key_hash)))) in
      reply ARCHIVE_AUTH_OK []
  end.

(** src/server/relay_service.cpp 497-518 RelayService::handle_session *)
Definition handle_archive_append (payload : bytes) (now : Z) : prog flow :=
  let* s := get in
  match s.(archive_session) with
  | None => refuse "Sign in to an archive first"
  | Some (archive_id, _) =>
      match decode_archive_append payload with
      | None => hang_up "Malformed archive request"
      | Some m =>
          if m.(ArchiveAppend_expected_number) =? 2 ^ 64 - 1 then hang_up "Malformed archive request" else
          let* allowed := rate_allow (str "archive:" ++ hex_of archive_id) limits.(rate_limit_per_minute) now in
          if negb allowed then refuse "Too many requests, slow down" else
          let new_hash :=
            sha256 (archive_entry_hash_input archive_id (u64 (m.(ArchiveAppend_expected_number) + 1))
                      m.(ArchiveAppend_expected_hash) m.(ArchiveAppend_ciphertext)) in
          let* r := on_store (fun db =>
            append_entry db archive_id m.(ArchiveAppend_expected_number) m.(ArchiveAppend_expected_hash) new_hash
              m.(ArchiveAppend_ciphertext) now limits.(archive_quota_bytes)) in
          let '(r, head) := r in
          let head := default (mkArchiveState 0 []) head in
          let head := encode_ArchiveHead (mkArchiveHead head.(ArchiveState_number) head.(ArchiveState_hash)) in
          match r with
          | Append_Ok => reply ARCHIVE_APPEND_OK head
          | Append_Stale => reply ARCHIVE_STALE head
          | Append_ArchiveFull => refuse "This archive is full"
          | Append_NoSuchArchive => refuse "Unknown archive"
          end
      end
  end.

(** The last signature of the order by that key; the loop keeps overwriting [mine].
    src/server/relay_service.cpp 535-536 RelayService::handle_session *)
Definition signature_of (signatures : list ArchiveSignature) (key_hash : bytes) : option ArchiveSignature :=
  foldl (fun mine sig => if decide (sig.(ArchiveSignature_key_hash) = key_hash) then Some sig else mine) None signatures.

(** How the loop over the members' keys ends. *)
Inductive agreement := Agreed | NotAgreed | NotValid.

(** src/server/relay_service.cpp 533-539 RelayService::handle_session *)
Fixpoint check_agreement (signed_input : bytes) (signatures : list ArchiveSignature) (keys : list (bytes * bytes)) : agreement :=
  match keys with
  | [] => Agreed
  | (key_hash, public_key) :: keys =>
      match signature_of signatures key_hash with
      | None => NotAgreed
      | Some mine =>
          if negb (verify signed_input mine.(ArchiveSignature_signature) public_key) then NotValid
          else check_agreement signed_input signatures keys
      end
  end.

(** src/server/relay_service.cpp 520-554 RelayService::handle_session *)
Definition handle_archive_delete (payload : bytes) (now : Z) : prog flow :=
  let* s := get in
  match s.(archive_session) with
  | None => refuse "Sign in to an archive first"
  | Some (archive_id, _) =>
      match decode_archive_delete payload with
      | None => hang_up "Malformed archive request"
      | Some m =>
          let* allowed := rate_allow (str "archive:" ++ hex_of archive_id) limits.(rate_limit_per_minute) now in
          if negb allowed then refuse "Too many requests, slow down" else
          if m.(ArchiveDelete_expires_at) <? u64 now then refuse "That deletion order has expired" else
          let* info := query (fun db => archive_info db archive_id now) in
          match info with
          | None => refuse "Unknown archive"
          | Some info =>
              if info.(ArchiveInfo_registration_open)
              then refuse "Not everyone has joined this chat's archive yet, so it can't be deleted" else
              let signed_input :=
                archive_delete_signing_input relay_id archive_id m.(ArchiveDelete_scope) m.(ArchiveDelete_op_id)
                  m.(ArchiveDelete_expires_at) m.(ArchiveDelete_entry_hashes) in
              let* keys := query (fun db => archive_member_keys db archive_id) in
              match check_agreement signed_input m.(ArchiveDelete_signatures) keys with
              | NotAgreed => refuse "Not every member has agreed to this deletion"
              | NotValid => refuse "A member's signature on this deletion is not valid"
              | Agreed =>
                  if m.(ArchiveDelete_scope) =? DELETE_SCOPE_CHAT then
                    let* _ := on_store_ret (fun db => delete_archive db archive_id) in
                    reply ARCHIVE_DELETE_OK []
                  else
                    let* r := on_store_ret (fun db => redact_entries db archive_id m.(ArchiveDelete_entry_hashes)) in
                    match r with
                    | Redact_Ok => reply ARCHIVE_DELETE_OK []
                    | Redact_UnknownEntry => refuse_next "One of those entries isn't in this archive"
                    | Redact_NoSuchArchive => refuse_next "Unknown archive"
                    end
              end
          end
      end
  end.

(** [for (...) if (!send_message(...)) return;]: false if a send failed. *)
Fixpoint send_all (msgs : list (MessageType * bytes)) : prog bool :=
  match msgs with
  | [] => Done true
  | (t, payload) :: msgs =>
      let* ok := send_msg t payload in
      if negb ok then Done false else send_all msgs
  end.

(** src/server/relay_service.cpp 562-563 RelayService::handle_session *)
Definition entry_message (e : StoredEntry) : MessageType * bytes :=
  (ARCHIVE_ENTRY, encode_ArchiveEntry (mkArchiveEntry e.(StoredEntry_number) e.(StoredEntry_hash)
                                         e.(StoredEntry_ciphertext) e.(StoredEntry_redacted))).

(** src/server/relay_service.cpp 556-568 RelayService::handle_session *)
Definition handle_archive_fetch (payload : bytes) (now : Z) : prog flow :=
  let* s := get in
  match s.(archive_session) with
  | None => refuse "Sign in to an archive first"
  | Some (archive_id, _) =>
      match decode_archive_fetch payload with
      | None => hang_up "Malformed archive request"
      | Some m =>
          let* allowed := rate_allow (str "archive:" ++ hex_of archive_id) limits.(rate_limit_per_minute) now in
          if negb allowed then refuse "Too many requests, slow down" else
          let* entries := query (fun db => fetch_entries db archive_id m.(ArchiveFetch_from_number) m.(ArchiveFetch_limit)) in
          let* ok := send_all (map entry_message entries) in
          if negb ok then Done Return else
          let* info := query (fun db => archive_info db archive_id now) in
          match info with
          | None => refuse "Unknown archive"
          | Some info =>
              reply ARCHIVE_FETCH_END
                (encode_ArchiveHead (mkArchiveHead info.(ArchiveInfo_head).(ArchiveState_number)
                                       info.(ArchiveInfo_head).(ArchiveState_hash)))
          end
      end
  end.

(** ** Prekeys *)

(** src/server/relay_service.cpp 612-612 RelayService::handle_session *)
Definition status_message (st : PrekeyPoolStatus) : bytes :=
  encode_PrekeyStatus (mkPrekeyStatus st.(PoolStatus_one_time) st.(PoolStatus_last_resort) st.(PoolStatus_generation)).

(** src/server/relay_service.cpp 570-588 RelayService::handle_session *)
Definition handle_prekey_put (payload : bytes) (now : Z) : prog flow :=
  let* s := get in
  match s.(mailbox) with
  | None => refuse "Sign in first"
  | Some mb =>
      match decode_prekey_put payload with
      | None => hang_up "Malformed prekey request"
      | Some m =>
          let* r := on_store (fun db =>
            put_prekeys db mb m.(PrekeyPut_replace) m.(PrekeyPut_generation) m.(PrekeyPut_prekeys) now
              limits.(max_prekeys)) in
          match r with
          | Put_Ok =>
              let* st := query (fun db => prekey_status db mb) in
              reply PREKEY_PUT_OK (status_message st)
          | Put_WrongGeneration => refuse "The relay holds a different set of prekeys for you: replace them"
          | Put_TooMany =>
              refuse_text (str "Too many prekeys (this relay keeps at most " ++ to_string limits.(max_prekeys) ++ str ")")
          | Put_Duplicate => refuse "That prekey is already there"
          | Put_NoSuchMailbox => refuse "Unknown mailbox"
          end
      end
  end.

(** src/server/relay_service.cpp 590-607 RelayService::handle_session *)
Definition handle_prekey_take (payload : bytes) (now : Z) : prog flow :=
  match decode_prekey_take payload with
  | None => hang_up "Malformed prekey request"
  | Some m =>
      let* s := get in
      let* allowed := rate_allow (str "dep-ip:" ++ s.(peer_ip)) limits.(rate_limit_per_minute) now in
      if negb allowed then refuse "Too many requests, slow down" else
      let token_hash := sha256 m.(PrekeyTake_send_token) in
      let* valid := query (fun db => token_valid db m.(PrekeyTake_mailbox_id) token_hash) in
      if negb valid then refuse "Unknown mailbox or token" else
      let* r := on_store_ret (fun db =>
        take_prekey db m.(PrekeyTake_mailbox_id) token_hash now limits.(prekey_takes_per_hour)) in
      match r with
      | Take_Ok blob last_resort => reply PREKEY_DATA (encode_PrekeyData (mkPrekeyData last_resort blob))
      | Take_RateLimited => refuse "Too many prekeys taken with this token; try again later"
      | Take_Empty => refuse "That mailbox has no prekeys"
      end
  end.

(** src/server/relay_service.cpp 609-614 RelayService::handle_session *)
Definition handle_prekey_status : prog flow :=
  let* s := get in
  match s.(mailbox) with
  | None => refuse "Sign in first"
  | Some mb =>
      let* st := query (fun db => prekey_status db mb) in
      reply PREKEY_STATUS_OK (status_message st)
  end.

(** ** Attachments *)

(** src/server/relay_service.cpp 616-653 RelayService::handle_session *)
Definition handle_file_begin (payload : bytes) (now : Z) : prog flow :=
  let* s := get in
  match s.(mailbox) with
  | None => refuse "Sign in first"
  | Some mb =>
      match decode_file_begin payload with
      | None => hang_up "Malformed file request"
      | Some m =>
          let* _ := abort_upload in
          let* allowed := rate_allow (str "file-up:" ++ hex_of mb) 30 now in
          if negb allowed then refuse "Too many requests, try again later" else
          if limits.(max_attachment_bytes) <? m.(FileBegin_total_size) then
            refuse_text (str "That file is larger than this relay allows (" ++
                         to_string (limits.(max_attachment_bytes) / (1024 * 1024)) ++ str " MiB)") else
          let expires_at := i64 m.(FileBegin_expires_at) in
          if (expires_at <? now + 60) || (now + limits.(attachment_max_seconds) <? expires_at) then
            refuse_text (str "A file's expiry must be between a minute and " ++
                         to_string (Z.quot limits.(attachment_max_seconds) 86400) ++ str " days from now") else
          let* began := on_store (fun db =>
            begin_file db mb m.(FileBegin_file_id) m.(FileBegin_total_size) m.(FileBegin_chunk_size)
              m.(FileBegin_chunk_count) expires_at m.(FileBegin_token_hashes) now limits.(attachment_quota_bytes)) in
          match began with
          | Begin_Exists => refuse "That file already exists"
          | Begin_QuotaExceeded =>
              refuse_text (str "Your stored attachments would go over this relay's limit (" ++
                           to_string (limits.(attachment_quota_bytes) / (1024 * 1024)) ++ str " MiB)")
          | Begin_NoSuchMailbox => refuse "Unknown mailbox"
          | Begin_Ok =>
              let part := file_path m.(FileBegin_file_id) ".part" in
              let* _ := modify (set_upload (mkUpload false m.(FileBegin_file_id) m.(FileBegin_chunk_count) 0
                                              m.(FileBegin_chunk_size) m.(FileBegin_total_size) 0%nat part)) in
              let* out := try_disk (fun d => Some (Disk.create d part)) in
              match out with
              | None =>
                  let* _ := on_store_ret (fun db => delete_file db m.(FileBegin_file_id) []) in
                  refuse "The relay can't store files right now"
              | Some out =>
                  let* _ := modify (set_upload (mkUpload true m.(FileBegin_file_id) m.(FileBegin_chunk_count) 0
                                                  m.(FileBegin_chunk_size) m.(FileBegin_total_size) out part)) in
                  reply FILE_UPLOAD_OK []
              end
          end
      end
  end.

(** The size the next chunk must have. src/server/relay_service.cpp 659-659 RelayService::handle_session *)
Definition expected_size (u : FileUploadState) : Z :=
  if u32 (u.(up_next) + 1) <? u.(up_count) then u.(up_chunk_size)
  else u64 (u.(up_total) - u64 (u.(up_chunk_size) * u32 (u.(up_count) - 1))).

Definition set_next (n : Z) (u : FileUploadState) : FileUploadState :=
  mkUpload u.(up_active) u.(up_id) u.(up_count) n u.(up_chunk_size) u.(up_total) u.(up_out) u.(up_part).
Definition set_inactive (u : FileUploadState) : FileUploadState :=
  mkUpload false u.(up_id) u.(up_count) u.(up_next) u.(up_chunk_size) u.(up_total) u.(up_out) u.(up_part).

(** src/server/relay_service.cpp 655-684 RelayService::handle_session *)
Definition handle_file_chunk (payload : bytes) : prog flow :=
  let* s := get in
  let u := s.(upload) in
  if negb u.(up_active) then refuse "No upload in progress" else
  match decode_file_chunk payload with
  | None => let* _ := abort_upload in hang_up "Malformed file request"
  | Some m =>
      let expected := expected_size u in
      if negb (m.(RelayFileChunk_index) =? u.(up_next)) || negb (size m.(RelayFileChunk_data) =? expected) then
        let* _ := abort_upload in refuse "File chunks out of order, or of the wrong size" else
      let* written := try_disk (fun d => Some (tt, Disk.append d u.(up_out) m.(RelayFileChunk_data))) in
      match written with
      | None => let* _ := abort_upload in refuse "The relay can't store files right now"
      | Some _ =>
          let next := u32 (u.(up_next) + 1) in
          let* _ := modify (fun s => set_upload (set_next next s.(upload)) s) in
          let last := next =? u.(up_count) in
          let* failed :=
            (if last then
               let* renamed := try_disk (fun d => let? d := Disk.rename d u.(up_part) (file_path u.(up_id) ".bin") in Some (tt, d)) in
               match renamed with
               | None => let* _ := abort_upload in Done true
               | Some _ =>
                   let* _ := on_store_ret (fun db => (tt, finish_file db u.(up_id))) in
                   let* _ := modify (fun s => set_upload (set_inactive s.(upload)) s) in
                   Done false
               end
             else Done false) in
          if failed : bool then refuse "The relay can't store files right now" else
          if last || (next mod FILE_ACK_WINDOW =? 0) then
            reply FILE_CHUNK_OK (write_u32 [] (if last then u32 (m.(RelayFileChunk_index) + 1) else next))
          else Done Break
      end
  end.

(** The chunks of a download from number [i] on; [None] if the file is too short
    for one of them, and the messages before it have been sent.
    src/server/relay_service.cpp 703-711 RelayService::handle_session *)
Fixpoint send_chunks (inode : nat) (total_size chunk_size : Z) (i : Z) (n : nat) : prog (option bool) :=
  match n with
  | O => Done (Some true)
  | S n =>
      let offset := u64 (i * chunk_size) in
      let sz := Z.min chunk_size (u64 (total_size - offset)) in
      let* content := on_disk (fun d => (default [] (d.(Disk.contents) !! inode), d)) in
      let data := ztake sz (zdrop offset content) in
      if negb (size data =? sz) then Done None else
      let* ok := send_msg FILE_DATA (encode_RelayFileChunk (mkRelayFileChunk i data)) in
      if negb ok then Done (Some false) else send_chunks inode total_size chunk_size (i + 1) n
  end.

(** src/server/relay_service.cpp 686-714 RelayService::handle_session *)
Definition handle_file_download (payload : bytes) (now : Z) : prog flow :=
  match decode_file_download payload with
  | None => hang_up "Malformed file request"
  | Some m =>
      let* s := get in
      let* allowed := rate_allow (str "file-dl:" ++ s.(peer_ip)) limits.(rate_limit_per_minute) now in
      if negb allowed then refuse "Too many attempts, try again later" else
      let* check := query (fun db => check_file_token db m.(FileDownload_file_id) (sha256 m.(FileDownload_token)) now) in
      match check with
      | Check_Expired => refuse_next "That file has expired"
      | Check_AlreadyRedeemed => refuse_next "That file was already downloaded with this token"
      | Check_NotReady => refuse_next "That file isn't ready yet"
      | Check_NoSuchFile | Check_BadToken => refuse_next "No such file, or that token isn't valid"
      | Check_Ok =>
          let* meta := query (fun db => file db m.(FileDownload_file_id)) in
          match meta with
          | None => refuse "No such file, or that token isn't valid"
          | Some meta =>
              if meta.(FileMeta_chunk_count) <=? m.(FileDownload_from_chunk)
              then refuse "No such file, or that token isn't valid" else
              let* inode := on_disk (fun d => (d.(Disk.names) !! file_path m.(FileDownload_file_id) ".bin", d)) in
              match inode with
              | None => refuse "That file is no longer available"
              | Some inode =>
                  let* ok := send_msg FILE_INFO (encode_FileInfo (mkFileInfo meta.(FileMeta_total_size)
                               meta.(FileMeta_chunk_size) meta.(FileMeta_chunk_count) (u64 meta.(FileMeta_expires_at)))) in
                  if negb ok then Done Return else
                  let* ok := send_chunks inode meta.(FileMeta_total_size) meta.(FileMeta_chunk_size)
                               m.(FileDownload_from_chunk)
                               (Z.to_nat (meta.(FileMeta_chunk_count) - m.(FileDownload_from_chunk))) in
                  match ok with
                  | None => hang_up "That file is no longer available"
                  | Some false => Done Return
                  | Some true => reply FILE_DOWNLOAD_END []
                  end
              end
          end
      end
  end.

(** src/server/relay_service.cpp 716-730 RelayService::handle_session *)
Definition handle_file_redeem (payload : bytes) (now : Z) : prog flow :=
  match decode_file_redeem payload with
  | None => hang_up "Malformed file request"
  | Some m =>
      let* s := get in
      let* allowed := rate_allow (str "file-dl:" ++ s.(peer_ip)) limits.(rate_limit_per_minute) now in
      if negb allowed then refuse "Too many attempts, try again later" else
      let* r := on_store_ret (fun db => redeem_file_token db m.(FileRedeem_file_id) (sha256 m.(FileRedeem_token))) in
      let '(r, all_done) := r in
      match r with
      | Redeem_Ok =>
          let* _ := (if all_done : bool then remove_file_bytes m.(FileRedeem_file_id) else Done tt) in
          reply FILE_REDEEM_OK []
      | Redeem_AlreadyRedeemed => refuse "That token was already used"
      | Redeem_NoSuchFile | Redeem_BadToken => refuse "No such file, or that token isn't valid"
      end
  end.

(** src/server/relay_service.cpp 732-741 RelayService::handle_session *)
Definition handle_file_cancel (payload : bytes) : prog flow :=
  let* s := get in
  match s.(mailbox) with
  | None => refuse "Sign in first"
  | Some mb =>
      match decode_file_ref payload with
      | None => hang_up "Malformed file request"
      | Some m =>
          let* deleted := on_store_ret (fun db => delete_file db m.(FileRef_file_id) mb) in
          if negb deleted then refuse "That isn't one of your files" else
          let* _ := remove_file_bytes m.(FileRef_file_id) in
          reply FILE_CANCEL_OK []
      end
  end.

(** src/server/relay_service.cpp 743-751 RelayService::handle_session *)
Definition handle_file_status (payload : bytes) : prog flow :=
  let* s := get in
  match s.(mailbox) with
  | None => refuse "Sign in first"
  | Some mb =>
      match decode_file_ref payload with
      | None => hang_up "Malformed file request"
      | Some m =>
          let* meta := query (fun db => file db m.(FileRef_file_id)) in
          match meta with
          | None => refuse "That isn't one of your files"
          | Some meta =>
              if negb (bool_decide (meta.(FileMeta_owner) = mb)) then refuse "That isn't one of your files" else
              reply FILE_STATUS_OK (encode_FileStatus (mkFileStatus meta.(FileMeta_tokens_total)
                meta.(FileMeta_tokens_redeemed) (u64 meta.(FileMeta_expires_at)) meta.(FileMeta_ready)))
          end
      end
  end.

(** ** Keyrings *)

(** What follows a chunk that is in order: it is added to the buffer, and the
    last one stores it. src/server/relay_service.cpp 772-780 RelayService::handle_session *)
Definition add_keyring_chunk (mb : bytes) (ku : KeyringUpload) (data : bytes) (now : Z) : prog flow :=
  let ku := mkKeyringUpload ku.(ku_active) ku.(ku_total) ku.(ku_count) (u32 (ku.(ku_next) + 1)) (ku.(ku_buffer) ++ data) in
  let* _ := modify (set_keyring_upload ku) in
  let* _ :=
    (if ku.(ku_next) =? ku.(ku_count) then
       let* _ := on_store (fun db => put_keyring db mb ku.(ku_buffer) now) in
       modify (set_keyring_upload no_keyring_upload)
     else Done tt) in
  reply KEYRING_PUT_OK [].

(** src/server/relay_service.cpp 753-781 RelayService::handle_session *)
Definition handle_keyring_put (payload : bytes) (now : Z) : prog flow :=
  let* s := get in
  match s.(mailbox) with
  | None => refuse "Sign in first"
  | Some mb =>
      match decode_keyring_chunk payload with
      | None => hang_up "Malformed keyring request"
      | Some m =>
          if m.(KeyringChunk_count) =? 0 then hang_up "Malformed keyring request" else
          if m.(KeyringChunk_index) =? 0 then
            let* allowed := rate_allow (str "keyring:" ++ hex_of mb) 20 now in
            if negb allowed then refuse "Too many requests, try again later" else
            let* _ := modify (set_keyring_upload no_keyring_upload) in
            if limits.(keyring_max_bytes) <? m.(KeyringChunk_total_size) then
              refuse_text (str "Your keyring is larger than this relay allows (" ++
                           to_string (limits.(keyring_max_bytes) / 1024) ++ str " KiB)") else
            add_keyring_chunk mb (mkKeyringUpload true m.(KeyringChunk_total_size) m.(KeyringChunk_count) 0 [])
              m.(KeyringChunk_data) now
          else
            let ku := s.(keyring_upload) in
            if negb ku.(ku_active) || negb (m.(KeyringChunk_index) =? ku.(ku_next))
               || negb (m.(KeyringChunk_total_size) =? ku.(ku_total)) || negb (m.(KeyringChunk_count) =? ku.(ku_count)) then
              let* _ := modify (set_keyring_upload no_keyring_upload) in
              refuse "Keyring chunks out of order" else
            add_keyring_chunk mb ku m.(KeyringChunk_data) now
      end
  end.

(** src/server/relay_service.cpp 792-795 RelayService::handle_session *)
Definition keyring_message (blob : bytes) (count : Z) (i : Z) : MessageType * bytes :=
  let from := i * KEYRING_CHUNK_BYTES in
  let to := Z.min (size blob) (from + KEYRING_CHUNK_BYTES) in
  (KEYRING_DATA, encode_KeyringChunk (mkKeyringChunk (u32 (size blob)) i count (ztake (to - from) (zdrop from blob)))).

(** src/server/relay_service.cpp 783-798 RelayService::handle_session *)
Definition handle_keyring_get : prog flow :=
  let* s := get in
  match s.(mailbox) with
  | None => refuse "Sign in first"
  | Some mb =>
      let* blob := query (fun db => get_keyring db mb) in
      match blob with
      | None => reply KEYRING_DATA (encode_KeyringChunk (mkKeyringChunk 0 0 0 []))
      | Some blob =>
          let count := u32 (u64 (u64 (size blob + KEYRING_CHUNK_BYTES) - 1) / KEYRING_CHUNK_BYTES) in
          let* ok := send_all (map (keyring_message blob count) (seqZ 0 count)) in
          Done (if ok : bool then Break else Return)
      end
  end.

(** ** One session *)

(** The switch on the type of a message; [None] if the deliveries of a collect
    need more rounds than [fuel]. src/server/relay_service.cpp 324-844 RelayService::handle_session *)
Definition handle_message (fuel : nat) (t : MessageType) (payload : bytes) (now : Z) : prog (option flow) :=
  let some (p : prog flow) := let* f := p in Done (Some f) in
  match t with
  | RELAY_PING => some (reply RELAY_PONG [])
  | RELAY_REGISTER => some (handle_register payload now)
  | RELAY_AUTH => some (handle_auth payload)
  | RELAY_DEPOSIT => some (handle_deposit payload now)
  | RELAY_COLLECT => handle_collect fuel
  | RELAY_ACK => some (handle_ack payload)
  | RELAY_INVITE_CREATE => some (handle_invite_create now)
  | ARCHIVE_CREATE => some (handle_archive_create payload now)
  | ARCHIVE_JOIN => some (handle_archive_join payload now)
  | ARCHIVE_AUTH => some (handle_archive_auth payload)
  | ARCHIVE_APPEND => some (handle_archive_append payload now)
  | ARCHIVE_DELETE => some (handle_archive_delete payload now)
  | ARCHIVE_FETCH => some (handle_archive_fetch payload now)
  | PREKEY_PUT => some (handle_prekey_put payload now)
  | PREKEY_TAKE => some (handle_prekey_take payload now)
  | PREKEY_STATUS => some handle_prekey_status
  | FILE_UPLOAD_BEGIN => some (handle_file_begin payload now)
  | FILE_CHUNK => some (handle_file_chunk payload)
  | FILE_DOWNLOAD => some (handle_file_download payload now)
  | FILE_REDEEM => some (handle_file_redeem payload now)
  | FILE_CANCEL => some (handle_file_cancel payload)
  | FILE_STATUS => some (handle_file_status payload)
  | KEYRING_PUT => some (handle_keyring_put payload now)
  | KEYRING_GET => some handle_keyring_get
  | RELAY_INVITE_LIST => some (handle_invite_list now)
  | RELAY_INVITE_CANCEL => some (handle_invite_cancel payload)
  | RELAY_TOKEN_ADD => some (handle_token true payload now)
  | RELAY_TOKEN_REVOKE => some (handle_token false payload now)
  | _ => some (hang_up "Unexpected message")
  end.

(** What one poll of the socket finds: nothing, a message, or a connection that
    has gone or been idle for too long. *)
Inductive input := NoMessage | Received (t : MessageType) (payload : bytes) | Gone.

(** The end of the loop body: deliveries to a collecting owner.
    src/server/relay_service.cpp 847-848 RelayService::handle_session *)
Definition push_new (fuel : nat) : prog (option flow) :=
  let* s := get in
  match s.(mailbox) with
  | Some mb =>
      if s.(collecting) then
        let* ok := push_pending fuel mb in
        Done ((fun ok : bool => if ok then Break else Return) <$> ok)
      else Done (Some Break)
  | None => Done (Some Break)
  end.

(** The body of the loop; [Return] ends the session.
    src/server/relay_service.cpp 311-849 RelayService::handle_session *)
Definition session_round (fuel : nat) (i : input) : prog (option flow) :=
  let* kicked_out := kicked in
  if kicked_out : bool then let* f := hang_up "Another client signed in to this mailbox" in Done (Some f) else
  match i with
  | Gone => Done (Some Return)
  | NoMessage => push_new fuel
  | Received t payload =>
      let* now := unix_now in
      let* f := handle_message fuel t payload now in
      match f with
      | Some Break => push_new fuel
      | _ => Done f
      end
  end.

(** The loop, on what the coming polls find; the connection is gone after them. *)
Fixpoint session_loop (fuel : nat) (inputs : list input) : prog (option unit) :=
  match inputs with
  | [] => Done (Some tt)
  | i :: inputs =>
      let* f := session_round fuel i in
      match f with
      | None => Done None
      | Some Return => Done (Some tt)
      | Some _ => session_loop fuel inputs
      end
  end.

(** A session at its start: the address of the peer, its own kick flag, and how
    the connection and the disk will behave. src/server/relay_service.cpp 281-309 RelayService::handle_session *)
Definition new_session (ip : bytes) (kick : nat) (reads : option nat) (faults : list bool) : Session :=
  mkSession [] ip kick None false false false None no_upload no_keyring_upload 0 [] reads faults.

(** The hello: the relay proves that it holds its key.
    src/server/relay_service.cpp 266-279 RelayService::handle_session *)
Definition session_hello (hello_payload sign_rand : bytes) : prog bool :=
  match decode_hello hello_payload with
  | None =>
      let* _ := send_error (str "Unsupported or malformed hello (this relay speaks protocol version 3)") in Done false
  | Some hello =>
      if negb (hello.(Hello_version) =? WIRE_VERSION) then
        let* _ := send_error (str "Unsupported or malformed hello (this relay speaks protocol version 3)") in Done false
      else
      let* challenge := random_bytes NONCE_BYTES in
      let* signature := act (fun v s =>
        match sign sign_rand (hello_signing_input hello.(Hello_client_nonce) relay_id WIRE_VERSION challenge) private_key with
        | Ret sig => Some (sig, v, s)
        | Throw _ => None
        end) in
      let* ok := send_msg RELAY_HELLO_REPLY (encode_HelloReply (mkHelloReply public_key signature challenge)) in
      if negb ok then Done false else
      let* _ := modify (set_challenge challenge) in
      Done true
  end.

(** Everything but the guards; true if the session got past its hello. *)
Definition session_body (fuel : nat) (hello_payload sign_rand : bytes) (inputs : list input) : prog (option unit) :=
  let* ok := session_hello hello_payload sign_rand in
  if ok : bool then session_loop fuel inputs else Done (Some tt).

(** The scope guards, in the order in which they are destroyed. *)
Definition session_guards : prog unit :=
  let* _ := release in abort_upload.

(** A session from its hello to its end, however it ends: [None] inside is an
    exception, after which the guards run too.
    src/server/relay_service.cpp 266-850 RelayService::handle_session *)
Definition handle_session (fuel : nat) (hello_payload sign_rand : bytes) (inputs : list input) (v : Service) (s : Session)
    : option (option unit) * Service * Session :=
  let '(o, v, s) := run (session_body fuel hello_payload sign_rand inputs) v s in
  let '(_, v, s) := run session_guards v s in
  (o, v, s).

(** ** The operator's tools and maintenance *)

(** src/server/relay_service.cpp 186-190 RelayService::create_invite *)
Definition create_invite : prog bytes :=
  let* invite := random_bytes INVITE_BYTES in
  let* now := unix_now in
  let* _ := on_store (fun db => add_invite db (sha256 invite) (now + limits.(invite_lifetime_seconds))) in
  Done (hex_of invite).

(** src/server/relay_service.cpp 194-217 RelayService::sweep_once *)
Definition sweep_once : prog Z :=
  let* now := unix_now in
  let* swept := on_store_ret (fun db => sweep db now) in
  let* now := unix_now in
  let* _ := act (fun v s => Some (tt, set_rate (RateLimiter.prune v.(rate) now) v, s)) in
  let* now := unix_now in
  let* _ := on_store_ret (fun db => (tt, sweep_prekey_takes db now)) in
  let* now := unix_now in
  let* now' := unix_now in
  let* gone := on_store_ret (fun db => sweep_files db now (now' - limits.(abandoned_upload_seconds))) in
  let* _ := foldr (fun id p => let* _ := remove_file_bytes id in p) (Done tt) gone in
  let* ids := query all_file_ids in
  let known := map bytes_to_hex ids in
  let* _ := on_disk (fun d =>
    (tt, Disk.mk (filter (fun nf => Disk.stem nf.1 ∈ known) d.(Disk.names)) d.(Disk.contents) d.(Disk.fresh))) in
  Done swept.(Swept_envelopes).
End service.

(** One pass of the inner loop: the members invited by [inviter] who are not
    doomed yet. src/server/relay_service.cpp 177-178 RelayService::remove_mailbox *)
Definition doom_invitees (all : list Member) (inviter : bytes) (doomed : list bytes) : list bytes :=
  foldl (fun doomed m =>
    if bool_decide (m.(Member_invited_by) = inviter) && negb (bool_decide (m.(Member_id) ∈ doomed))
    then doomed ++ [m.(Member_id)] else doomed) doomed all.

(** The outer loop, over a list that grows; [None] if it needs more than [fuel]
    rounds. src/server/relay_service.cpp 176-178 RelayService::remove_mailbox *)
Fixpoint doom_loop (fuel : nat) (all : list Member) (i : nat) (doomed : list bytes) : option (list bytes) :=
  match doomed !! i with
  | None => Some doomed
  | Some id =>
      match fuel with
      | O => None
      | S fuel => doom_loop fuel all (S i) (doom_invitees all id doomed)
      end
  end.

(** [if (store_->delete_mailbox(id)) removed++]. *)
Fixpoint delete_mailboxes (doomed : list bytes) (removed : Z) : prog Z :=
  match doomed with
  | [] => Done removed
  | id :: doomed =>
      bind (on_store_ret (fun db => delete_mailbox db id))
        (fun existed : bool => delete_mailboxes doomed (if existed then removed + 1 else removed))
  end.

(** The outer loop ends within one round per member and one for the mailbox
    itself. src/server/relay_service.cpp 171-184 RelayService::remove_mailbox *)
Definition remove_mailbox (mailbox_id : bytes) (with_invitees : bool) : prog (option Z) :=
  if with_invitees then
    let* all := query members in
    match doom_loop (S (length all)) all 0 [mailbox_id] with
    | None => Done None
    | Some doomed => let* n := delete_mailboxes doomed 0 in Done (Some n)
    end
  else let* n := delete_mailboxes [mailbox_id] 0 in Done (Some n).

(** The key files as found ([None]: there is no such file) to the key pair, the
    relay's ID and whether they are new; a new pair is written to the files.
    src/server/relay_service.cpp 143-169 RelayService::load_or_create_identity *)
Definition load_or_create_identity `{Primitives} (data_dir : string) (pub priv : option bytes) (seed : bytes)
    : exc (bytes * bytes * bytes * bool * (option bytes * option bytes)) :=
  match pub, priv with
  | Some public_key, Some private_key =>
      if negb (size public_key =? sig_public_key_size) || negb (size private_key =? sig_secret_key_size)
      then Throw ("The relay's key files in " +:+ data_dir +:+ " are damaged")
      else Ret (public_key, private_key, sha256 public_key, false, (pub, priv))
  | None, None =>
      let '(public_key, private_key) := generate_sig_keypair seed in
      Ret (public_key, private_key, sha256 public_key, true, (Some public_key, Some private_key))
  | _, _ => Throw ("Only one of the relay's key files exists in " +:+ data_dir +:+
                   ". Restore the missing file from a backup. Not generating a new identity.")
  end.
