(* ===== verification/RelayConcurrent.v ===== *)
(** * Many sessions at once

    The relay runs every connection in its own thread, besides the sweeper and
    the operator's tools. A [System] is the shared state with the threads that are
    running; one step is one action of one thread, so that any interleaving of
    the mutex-protected calls is a sequence of steps. What every action does to
    the store is one of the store's steps ([store_safe]), whatever the messages;
    so the store's invariants hold in every state the system can reach. *)

From Stdlib Require Import ZArith Lia.
From stdpp Require Import base list strings gmap relations.
From S2P Require Import Prelude Threads Wire Protocol RelayProtocol RelayProtocolSpec Crypto Archive Sql RelayStore RelayStoreInv RelayArchive RelayReach RelayState RelayService.
#[local] Open Scope Z_scope.

Section concurrent.
Context `{P : Primitives}.

(** Archives have room for another number. *)
Definition room (db : DB) : Prop := forall a, a ∈ db.(archives) -> a.(ar_head_number) < 2 ^ 63 - 1.

(** An action only takes the store through steps of the store. *)
Definition store_safe (R : Type) (f : action R) : Prop :=
  forall v s r v' s', store_ok v.(store) -> room v.(store) -> f v s = Some (r, v', s') ->
    rtc store_step v.(store) v'.(store).

(** ** The actions *)

Lemma safe_on_store {R} (f : DB -> option (R * DB)) :
  (forall db r db', store_ok db -> room db -> f db = Some (r, db') -> rtc store_step db db') -> acts store_safe (on_store f).
Proof.
  intros Hf. split; [|done]. intros v s r v' s' Hok Hroom H.
  destruct (f (store v)) as [[r0 db]|] eqn:E; [|done]. simplify_eq. simpl. by eapply Hf.
Qed.

Lemma safe_step {R} (f : DB -> option (R * DB)) :
  (forall db r db', f db = Some (r, db') -> store_step db db') -> acts store_safe (on_store f).
Proof. intros Hf. apply safe_on_store. intros. by eapply rtc_once, Hf. Qed.

Lemma safe_on_store_ret {R} (f : DB -> R * DB) :
  (forall db, store_step db (f db).2) -> acts store_safe (on_store_ret f).
Proof. intros Hf. apply safe_step. intros db r db' [= E]. specialize (Hf db). by rewrite E in Hf. Qed.

(** An action that leaves the store alone. *)
Lemma safe_idle {R} (f : action R) :
  (forall v s r v' s', f v s = Some (r, v', s') -> v'.(store) = v.(store)) -> acts store_safe (act f).
Proof. intros Hf. split; [|done]. intros v s r v' s' _ _ H. by rewrite (Hf _ _ _ _ _ H). Qed.

Ltac idle := apply safe_idle; intros ????? H; cbv zeta in H; repeat (case_match || simplify_eq); reflexivity.

Lemma safe_query {R} (f : DB -> R) : acts store_safe (query f).
Proof. idle. Qed.
Lemma safe_rate key limit now : acts store_safe (rate_allow key limit now).
Proof. idle. Qed.
Lemma safe_owners f : acts store_safe (on_owners f).
Proof. idle. Qed.
Lemma safe_disk {R} (f : Disk.t -> R * Disk.t) : acts store_safe (on_disk f).
Proof. idle. Qed.
Lemma safe_try_disk {R} (f : Disk.t -> option (R * Disk.t)) : acts store_safe (try_disk f).
Proof. idle. Qed.
Lemma safe_now : acts store_safe unix_now.
Proof. idle. Qed.
Lemma safe_random n : acts store_safe (random_bytes n).
Proof. idle. Qed.
Lemma safe_get : acts store_safe get.
Proof. idle. Qed.
Lemma safe_modify f : acts store_safe (modify f).
Proof. idle. Qed.
Lemma safe_kicked : acts store_safe kicked.
Proof. idle. Qed.
Lemma safe_send t p : acts store_safe (send_msg t p).
Proof. idle. Qed.
Lemma safe_done {A} (a : A) : acts store_safe (Done a).
Proof. done. Qed.
End concurrent.

Create HintDb acts.
#[export] Hint Resolve safe_query safe_rate safe_owners safe_disk safe_try_disk safe_now safe_random safe_get
  safe_modify safe_kicked safe_send safe_done : acts.

(** Goes through a program: at each store call the step it is remains. *)
Ltac safe_call :=
  first [apply safe_on_store_ret; intros; by econstructor | apply safe_step; intros; by econstructor].
Ltac safe_prog :=
  repeat (first
    [ solve [auto with acts nocore]
    | apply acts_bind; [|intros]
    | safe_call
    | progress unfold refuse, refuse_text, refuse_next, hang_up, reply, send_error
    | case_match ]).

Section handlers.
Context `{P : Primitives}.
Variable limits : RelayLimits.
Variables (public_key private_key relay_id : bytes).

Lemma safe_remove_file_bytes fid : acts store_safe (remove_file_bytes fid).
Proof. unfold remove_file_bytes. safe_prog. Qed.
#[local] Hint Resolve safe_remove_file_bytes : acts.

Lemma safe_abort_upload : acts store_safe abort_upload.
Proof. unfold abort_upload. safe_prog. Qed.
#[local] Hint Resolve safe_abort_upload : acts.

Lemma safe_release : acts store_safe release.
Proof. unfold release. safe_prog. Qed.
#[local] Hint Resolve safe_release : acts.

Lemma safe_push_batch batch : acts store_safe (push_batch batch).
Proof. induction batch; cbn [push_batch]; cbv zeta; safe_prog. Qed.
#[local] Hint Resolve safe_push_batch : acts.

Lemma safe_push_pending fuel mb : acts store_safe (push_pending fuel mb).
Proof. induction fuel; cbn [push_pending]; safe_prog. Qed.
#[local] Hint Resolve safe_push_pending : acts.

Lemma safe_send_all msgs : acts store_safe (send_all msgs).
Proof. induction msgs as [|[t p] msgs IH]; cbn [send_all]; safe_prog. Qed.
#[local] Hint Resolve safe_send_all : acts.

Lemma safe_send_chunks inode ts cs i n : acts store_safe (send_chunks inode ts cs i n).
Proof. revert i. induction n; intros i; cbn [send_chunks]; cbv zeta; safe_prog. Qed.
#[local] Hint Resolve safe_send_chunks : acts.

Lemma safe_add_keyring_chunk mb ku data now : acts store_safe (add_keyring_chunk mb ku data now).
Proof. unfold add_keyring_chunk. cbv zeta. safe_prog. Qed.
#[local] Hint Resolve safe_add_keyring_chunk : acts.

Lemma safe_deposit payload now : acts store_safe (handle_deposit limits payload now).
Proof.
  unfold handle_deposit. destruct (decode_deposit payload) as [m|] eqn:E; [|safe_prog].
  apply decode_deposit_spec in E as [Hwf _]. destruct Hwf as (_ & _ & Hsz & _).
  cbv zeta. safe_prog.
Qed.
#[local] Hint Resolve safe_deposit : acts.

(** The chain hash the service computes is the one the store's step asks for; a
    number past the range is never the head's. *)
Lemma safe_append payload now : limits.(archive_quota_bytes) < 2 ^ 63 -> acts store_safe (handle_archive_append limits payload now).
Proof.
  intros Hq. unfold handle_archive_append. apply acts_bind; [auto with acts nocore|]. intros s.
  destruct (archive_session s) as [[id k]|]; [|safe_prog].
  destruct (decode_archive_append payload) as [m|] eqn:E; [|safe_prog].
  apply decode_archive_append_spec in E as [(Hn & _ & Hct & Hne) _]. apply is_empty_false in Hne.
  case_match; [safe_prog|]. apply acts_bind; [auto with acts nocore|]. intros allowed.
  case_match; [safe_prog|]. cbv zeta. apply acts_bind; [|intros; safe_prog].
  apply safe_on_store. intros db [r hd] db' Hok Hroom H2.
  destruct (decide (ArchiveAppend_expected_number m < 2 ^ 63 - 1)) as [Hlt|Hge].
  - apply rtc_once. eapply step_append; [exact Hlt| |exact Hq|exact H2]. lia.
  - assert (db' = db) as ->; [|done]. unfold append_entry in H2.
    destruct (select_first _ _) as [a|] eqn:Ea; [|by simplify_eq].
    apply select_first_Some in Ea as [Ha _]. specialize (Hroom a Ha).
    pose proof (ao_range _ _ (so_archives _ Hok a Ha)). cbv zeta in H2. cbn [ArchiveState_number] in H2.
    rewrite !(u64_small (ar_head_number a)) in H2 by (unfold in_u64; lia).
    rewrite (proj2 (Z.eqb_neq (ar_head_number a) _)) in H2 by lia. by simplify_eq/=.
Qed.

Lemma safe_file_begin payload now : acts store_safe (handle_file_begin limits payload now).
Proof.
  unfold handle_file_begin. apply acts_bind; [auto with acts nocore|]. intros s.
  destruct (mailbox s) as [mb|]; [|safe_prog].
  destruct (decode_file_begin payload) as [m|] eqn:E; [|safe_prog].
  apply decode_file_begin_spec in E as [(_ & _ & _ & _ & _ & _ & Hts & _) _]. cbv zeta. safe_prog.
  apply safe_step. intros. eapply step_begin_file; [|eassumption]. intros Hnil. rewrite Hnil in Hts.
  rewrite size_nil in Hts. lia.
Qed.
#[local] Hint Resolve safe_file_begin : acts.

Lemma safe_file_chunk payload : acts store_safe (handle_file_chunk payload).
Proof. unfold handle_file_chunk. cbv zeta. safe_prog. Qed.
#[local] Hint Resolve safe_file_chunk : acts.

Lemma safe_redeem fid t : acts store_safe (on_store_ret (fun db => redeem_file_token db fid t)).
Proof. apply safe_on_store_ret. intros. apply step_redeem. Qed.
#[local] Hint Resolve safe_redeem : acts.

Ltac handler := cbv zeta; safe_prog.

Lemma safe_handle_register payload now : acts store_safe (handle_register limits relay_id payload now).
Proof. unfold handle_register. handler. Qed.

Lemma safe_handle_auth payload : acts store_safe (handle_auth relay_id payload).
Proof. unfold handle_auth. handler. Qed.

Lemma safe_handle_collect fuel : acts store_safe (handle_collect fuel).
Proof. unfold handle_collect. handler. Qed.

Lemma safe_handle_ack payload : acts store_safe (handle_ack payload).
Proof. unfold handle_ack. handler. Qed.

Lemma safe_handle_invite_create now : acts store_safe (handle_invite_create limits now).
Proof. unfold handle_invite_create. handler. Qed.

Lemma safe_handle_invite_list now : acts store_safe (handle_invite_list limits now).
Proof. unfold handle_invite_list. handler. Qed.

Lemma safe_handle_invite_cancel payload : acts store_safe (handle_invite_cancel payload).
Proof. unfold handle_invite_cancel. handler. Qed.

Lemma safe_handle_token add payload now : acts store_safe (handle_token limits add payload now).
Proof. unfold handle_token. handler. Qed.

Lemma safe_handle_archive_create payload now : acts store_safe (handle_archive_create limits payload now).
Proof. unfold handle_archive_create. handler. Qed.

Lemma safe_handle_archive_join payload now : acts store_safe (handle_archive_join relay_id payload now).
Proof. unfold handle_archive_join. handler. Qed.

Lemma safe_handle_archive_auth payload : acts store_safe (handle_archive_auth relay_id payload).
Proof. unfold handle_archive_auth. handler. Qed.

Lemma safe_handle_archive_delete payload now : acts store_safe (handle_archive_delete limits relay_id payload now).
Proof. unfold handle_archive_delete. handler. Qed.

Lemma safe_handle_archive_fetch payload now : acts store_safe (handle_archive_fetch limits payload now).
Proof. unfold handle_archive_fetch. handler. Qed.

Lemma safe_handle_prekey_put payload now : acts store_safe (handle_prekey_put limits payload now).
Proof. unfold handle_prekey_put. handler. Qed.

Lemma safe_handle_prekey_take payload now : acts store_safe (handle_prekey_take limits payload now).
Proof. unfold handle_prekey_take. handler. Qed.

Lemma safe_handle_prekey_status : acts store_safe (handle_prekey_status).
Proof. unfold handle_prekey_status. handler. Qed.

Lemma safe_handle_file_download payload now : acts store_safe (handle_file_download limits payload now).
Proof. unfold handle_file_download. handler. Qed.

Lemma safe_handle_file_redeem payload now : acts store_safe (handle_file_redeem limits payload now).
Proof. unfold handle_file_redeem. handler. Qed.

Lemma safe_handle_file_cancel payload : acts store_safe (handle_file_cancel payload).
Proof. unfold handle_file_cancel. handler. Qed.

Lemma safe_handle_file_status payload : acts store_safe (handle_file_status payload).
Proof. unfold handle_file_status. handler. Qed.

Lemma safe_handle_keyring_put payload now : acts store_safe (handle_keyring_put limits payload now).
Proof. unfold handle_keyring_put. handler. Qed.

Lemma safe_handle_keyring_get : acts store_safe (handle_keyring_get).
Proof. unfold handle_keyring_get. handler. Qed.

#[local] Hint Resolve safe_handle_register safe_handle_auth safe_handle_collect safe_handle_ack safe_handle_invite_create
  safe_handle_invite_list safe_handle_invite_cancel safe_handle_token safe_handle_archive_create
  safe_handle_archive_join safe_handle_archive_auth safe_handle_archive_delete safe_handle_archive_fetch
  safe_handle_prekey_put safe_handle_prekey_take safe_handle_prekey_status safe_handle_file_download
  safe_handle_file_redeem safe_handle_file_cancel safe_handle_file_status safe_handle_keyring_put
  safe_handle_keyring_get : acts.

Hypothesis quota_ok : limits.(archive_quota_bytes) < 2 ^ 63.

Lemma safe_handle_message fuel t payload now : acts store_safe (handle_message limits relay_id fuel t payload now).
Proof. pose proof (safe_append payload now quota_ok). unfold handle_message. cbv zeta. destruct t; safe_prog. Qed.
#[local] Hint Resolve safe_handle_message : acts.

Lemma safe_push_new fuel : acts store_safe (push_new fuel).
Proof. unfold push_new. safe_prog. Qed.
#[local] Hint Resolve safe_push_new : acts.

Lemma safe_session_loop fuel inputs : acts store_safe (session_loop limits relay_id fuel inputs).
Proof. induction inputs; cbn [session_loop]; unfold session_round; safe_prog. Qed.
#[local] Hint Resolve safe_session_loop : acts.

Lemma safe_session_body fuel hello rand inputs :
  acts store_safe (session_body limits public_key private_key relay_id fuel hello rand inputs).
Proof. unfold session_body, session_hello. safe_prog; apply safe_idle; intros; by simplify_eq. Qed.

Lemma safe_session_guards : acts store_safe session_guards.
Proof. unfold session_guards. safe_prog. Qed.

Lemma safe_create_invite : acts store_safe (create_invite limits).
Proof. unfold create_invite. safe_prog. Qed.

Lemma safe_sweep now : acts store_safe (on_store_ret (fun db => sweep db now)).
Proof. apply safe_on_store_ret. intros. apply step_sweep. Qed.
Lemma safe_sweep_takes now : acts store_safe (on_store_ret (fun db => (tt, sweep_prekey_takes db now))).
Proof. apply safe_on_store_ret. intros. apply step_sweep_takes. Qed.
Lemma safe_sweep_files now ab : acts store_safe (on_store_ret (fun db => sweep_files db now ab)).
Proof. apply safe_on_store_ret. intros. apply step_sweep_files. Qed.
#[local] Hint Resolve safe_sweep safe_sweep_takes safe_sweep_files : acts.

Lemma safe_sweep_once : acts store_safe (sweep_once limits).
Proof.
  unfold sweep_once. cbv zeta. repeat first [solve [auto with acts nocore] | apply acts_bind; [|intros]].
  - apply safe_idle. intros. by simplify_eq.
  - match goal with |- acts _ (foldr _ _ ?l) => induction l end; cbn [foldr]; safe_prog.
Qed.

Lemma safe_delete_mailboxes l n : acts store_safe (delete_mailboxes l n).
Proof. revert n. induction l; intros n; cbn [delete_mailboxes]; safe_prog. Qed.

Lemma safe_remove_mailbox mb w : acts store_safe (remove_mailbox mb w).
Proof. pose proof safe_delete_mailboxes. unfold remove_mailbox. safe_prog. Qed.

(** ** The system *)

(** A thread: what it still has to do, its local variables, and the guards that
    run when it ends or throws. *)
Record thread := mkThread { th_prog : prog unit; th_session : Session; th_guards : prog unit }.

Definition System : Type := Service * list thread.

(** The programs of the relay, with their results dropped. *)
Definition ignore {A} (p : prog A) : prog unit := bind p (fun _ => Done tt).

(** A thread the relay starts: a connection (anything may arrive on it), the
    sweeper, or one of the operator's tools. *)
Inductive starts : thread -> Prop :=
  | starts_session fuel hello rand inputs ip kick reads faults :
      starts (mkThread (ignore (session_body limits public_key private_key relay_id fuel hello rand inputs))
                (new_session ip kick reads faults) session_guards)
  | starts_sweep s : starts (mkThread (ignore (sweep_once limits)) s (Done tt))
  | starts_invite s : starts (mkThread (ignore (create_invite limits)) s (Done tt))
  | starts_remove mb w s : starts (mkThread (ignore (remove_mailbox mb w)) s (Done tt)).

(** One action of one thread, a thread that starts, one that goes on to its
    guards, or time that passes. *)
Inductive system_step : System -> System -> Prop :=
  | sys_start v ts t : starts t -> system_step (v, ts) (v, ts ++ [t])
  | sys_act v ts i R (f : action R) k s g r v' s' :
      ts !! i = Some (mkThread (Act f k) s g) -> room v.(store) -> f v s = Some (r, v', s') ->
      system_step (v, ts) (v', <[i := mkThread (k r) s' g]> ts)
  | sys_throw v ts i R (f : action R) k s g :
      ts !! i = Some (mkThread (Act f k) s g) -> f v s = None ->
      system_step (v, ts) (v, <[i := mkThread g s (Done tt)]> ts)
  | sys_end v ts i a s g :
      ts !! i = Some (mkThread (Done a) s g) ->
      system_step (v, ts) (v, <[i := mkThread g s (Done tt)]> ts)
  | sys_time v ts t e : v.(clock) <= t ->
      system_step (v, ts) (mkService v.(store) v.(rate) v.(owners) v.(disk) t e, ts).

(** The relay as it starts. *)
Definition initial (v : Service) : Prop := v.(store) = empty_db.

Definition thread_safe (t : thread) : Prop := acts store_safe t.(th_prog) /\ acts store_safe t.(th_guards).

Lemma starts_safe t : starts t -> thread_safe t.
Proof.
  intros []; (split; [apply acts_bind; [|done]|]); cbn [th_prog th_guards]; auto with acts nocore.
  - apply safe_session_body.
  - apply safe_session_guards.
  - apply safe_sweep_once.
  - apply safe_create_invite.
  - apply safe_remove_mailbox.
Qed.

Lemma system_step_safe v ts v' ts' :
  system_step (v, ts) (v', ts') -> reachable v.(store) -> Forall thread_safe ts ->
  reachable v'.(store) /\ Forall thread_safe ts'.
Proof.
  intros Hstep Hr Hts. inversion Hstep; subst; clear Hstep.
  - split; [done|]. apply Forall_app. split; [done|]. by apply Forall_singleton, starts_safe.
  - match goal with Hi : ts !! _ = Some _ |- _ => pose proof (Forall_lookup_1 _ _ _ _ Hts Hi) as [Hp Hg] end.
    simpl in Hp, Hg. destruct Hp as [Hf Hk]. split.
    + unfold reachable. etransitivity; [exact Hr|]. eapply Hf; [by apply reachable_ok|done|eassumption].
    + apply Forall_insert; [done|]. split; [apply Hk|done].
  - match goal with Hi : ts !! _ = Some _ |- _ => pose proof (Forall_lookup_1 _ _ _ _ Hts Hi) as [Hp Hg] end.
    split; [done|]. apply Forall_insert; [done|]. by split.
  - match goal with Hi : ts !! _ = Some _ |- _ => pose proof (Forall_lookup_1 _ _ _ _ Hts Hi) as [Hp Hg] end.
    split; [done|]. apply Forall_insert; [done|]. by split.
  - done.
Qed.

(** C5: the store keeps its integrity in every state the running relay can
    reach: for any connections, any bytes they send, any order in which the
    threads' calls interleave, connections that drop, exceptions and failing file
    operations, the sweeper and the operator's tools included, every action's
    effect on the store is a step of the store, and so the invariants of C9
    hold. *)
Theorem running_relay_keeps_store v ts v0 :
  initial v0 -> rtc system_step (v0, []) (v, ts) -> reachable v.(store) /\ store_ok v.(store).
Proof.
  intros Hi H. assert (reachable v.(store) /\ Forall thread_safe ts) as [Hr _].
  { assert (reachable v0.(store) /\ Forall thread_safe []) as H0 by (rewrite Hi; split; [apply rtc_refl|constructor]).
    revert H0. remember (v0, []) as x eqn:Ex. remember (v, ts) as y eqn:Ey. revert Ey.
    generalize (@nil thread) v0 Ex. clear Ex Hi v0. intros ts0 v0 Ex. revert ts0 v0 Ex.
    induction H as [|x [v1 ts1] y Hs _ IH]; intros ts0 v0 -> Ey [Hr Hts]; [by simplify_eq|].
    eapply IH; [done|done|]. by eapply system_step_safe. }
  split; [done|by apply reachable_ok].
Qed.
End handlers.

(** A relay on which a connection has started and received its first action. *)
Definition sample_service : Service :=
  mkService empty_db ∅ (Owners.mk ∅ ∅) (Disk.mk ∅ ∅ 0%nat) 1000 (replicate 200 Byte.x5a).

Lemma room_empty : room empty_db.
Proof. intros a Ha. by apply not_elem_of_nil in Ha. Qed.

Lemma running_relay_keeps_store_witness :
  exists v ts, rtc (system_step default_limits [] [] []) (sample_service, []) (v, ts) /\
    size v.(store).(invites) = 1 /\ store_ok v.(store).
Proof.
  set (s := new_session [] 0%nat None []).
  set (p0 := ignore (create_invite default_limits)).
  set (v1 := set_entropy (zdrop INVITE_BYTES (entropy sample_service)) sample_service).
  set (inv := ztake INVITE_BYTES (entropy sample_service)).
  set (v2 := set_store (after (add_invite empty_db (sha256 inv) (1000 + 14 * 24 * 3600))) v1).
  set (fin := mkThread (Done tt) s (Done tt)).
  assert (rtc (system_step default_limits [] [] []) (sample_service, []) (v2, [fin])) as Hr.
  { eapply rtc_l; [apply (sys_start _ _ _ _ _ []), (starts_invite _ _ _ _ s)|].
    eapply rtc_l; [eapply (sys_act _ _ _ _ _ _ 0); [reflexivity|exact room_empty|reflexivity]|].
    eapply rtc_l; [eapply (sys_act _ _ _ _ _ _ 0); [reflexivity|exact room_empty|reflexivity]|].
    eapply rtc_l; [eapply (sys_act _ _ _ _ _ _ 0); [reflexivity|exact room_empty|reflexivity]|].
    apply rtc_refl. }
  exists v2, [fin]. split; [exact Hr|]. split; [reflexivity|].
  apply (running_relay_keeps_store default_limits [] [] [] ltac:(reflexivity) v2 [fin] sample_service); [reflexivity|exact Hr].
Defined.
