(* ===== verification/RelaySession.v ===== *)
(** * What a session does

    Theorems about the cases of [handle_session]: deliveries, signing in, what a
    connection that has not signed in can do, deletion by agreement, keyrings and
    attachments in chunks, and what is left when a connection ends. A handler is
    run without interruption ([run]); what does not depend on that is in
    [RelayConcurrent]. *)

From Stdlib Require Import ZArith Lia Sorted.
From stdpp Require Import base list strings gmap relations sorting.
From S2P Require Import Prelude Threads Wire Protocol RelayProtocol RelayProtocolSpec Crypto Archive Sql RelayStore RelayStoreInv RelayArchive RelayReach RelayStoreProps RelayState RelayService RelayConcurrent.
#[local] Open Scope Z_scope.

(** ** Deliveries *)

(** The message that delivers an envelope. *)
Definition delivery (e : EnvelopeRow) : MessageType * bytes :=
  let st := stored_of e in
  (RELAY_ENVELOPE, encode_StoredEnvelope (mkStoredEnvelope st.(Stored_id) (u64 st.(Stored_deposited_at))
                                            st.(Stored_token_hash) st.(Stored_envelope))).

Arguments delivery : simpl never.

(** How many of [n] messages the connection takes. *)
Definition accepted (s : Session) (n : nat) : nat :=
  match s.(peer_reads) with Some r => Nat.min r n | None => n end.

(** The session after the delivery of [es]. *)
Definition after_push (es : list EnvelopeRow) (s : Session) : Session :=
  mkSession s.(challenge) s.(peer_ip) s.(kick) s.(mailbox) s.(challenge_used) s.(collecting) s.(is_owner)
    s.(archive_session) s.(upload) s.(keyring_upload) (default s.(last_seq) (env_seq <$> last es))
    (s.(sent) ++ map delivery es) ((fun r => (r - length es)%nat) <$> s.(peer_reads)) s.(disk_faults).

Lemma after_push_nil s : after_push [] s = s.
Proof.
  destruct s as [? ? ? ? ? ? ? ? ? ? ? ? [r|] ?]; unfold after_push; simpl; rewrite app_nil_r; [|done].
  by rewrite Nat.sub_0_r.
Qed.

Lemma after_push_app a b s : after_push (a ++ b) s = after_push b (after_push a s).
Proof.
  unfold after_push. simpl. rewrite map_app, app_assoc, length_app. f_equal.
  - destruct b as [|x b _] using rev_ind; [by rewrite app_nil_r|]. by rewrite app_assoc, !last_snoc.
  - destruct (peer_reads s); simpl; [|done]. f_equal. lia.
Qed.

Lemma after_push_cons e es s : after_push (e :: es) s = after_push es (after_push [e] s).
Proof. apply (after_push_app [e]). Qed.

Lemma push_sent_delivery e s : set_last_seq (env_seq e) (push_sent (delivery e) s) = after_push [e] s.
Proof.
  destruct s as [? ? ? ? ? ? ? ? ? ? ? ? [[|r]|] ?]; [done| |done].
  unfold after_push. simpl. by rewrite Nat.sub_0_r.
Qed.

Lemma accepted_after e s n : live s = true -> accepted s (S n) = S (accepted (after_push [e] s) n).
Proof. unfold live, accepted. simpl. destruct (peer_reads s) as [[|r]|]; simpl; try done. by rewrite Nat.sub_0_r. Qed.

Lemma run_push_batch es v s :
  run (push_batch (map stored_of es)) v s =
  (Some (bool_decide (accepted s (length es) = length es)), v, after_push (take (accepted s (length es)) es) s).
Proof.
  revert s. induction es as [|e es IH]; intros s.
  - simpl. unfold accepted. rewrite take_nil, after_push_nil. destruct (peer_reads s); simpl; by rewrite ?Nat.min_0_r.
  - cbn [map push_batch length]. cbv zeta. rewrite run_send. destruct (live s) eqn:El.
    + cbn [negb]. rewrite run_modify.
      change (set_last_seq _ _) with (set_last_seq (env_seq e) (push_sent (delivery e) s)).
      rewrite push_sent_delivery, IH, (accepted_after e) by done. cbn [take].
      rewrite (after_push_cons e (take _ _)). do 3 f_equal. apply bool_decide_ext. lia.
    + unfold live in El. destruct (peer_reads s) as [[|r]|] eqn:E; try done. unfold accepted. rewrite E.
      cbn [negb]. by rewrite Nat.min_0_l, take_0, after_push_nil.
Qed.

(** What is pending after the first [n] have been delivered. *)
Lemma pending_drop db mb after now n e :
  envelopes_ok db -> last (take n (pending db mb after now)) = Some e ->
  pending db mb (env_seq e) now = drop n (pending db mb after now).
Proof.
  intros Hok Hl. pose proof (pending_sorted db mb after now Hok) as Hs.
  assert (pending db mb (env_seq e) now = filter (fun x => env_seq e < env_seq x) (pending db mb after now)) as ->.
  { assert (after < env_seq e) as Ha.
    { apply last_Some_elem_of, elem_of_take in Hl as (i & Hi & _).
      apply list_elem_of_lookup_2, list_elem_of_filter in Hi. tauto. }
    unfold pending. rewrite list_filter_filter. apply list_filter_iff. intros x.
    split; [intros (? & ? & ?); split_and!; [done..|lia|done]|tauto]. }
  set (p := pending db mb after now) in *.
  rewrite <- (take_drop n p) in Hs at 1. rewrite <- (take_drop n p) at 1. rewrite filter_app.
  apply last_Some in Hl as [l Hl]. rewrite Hl in *. apply StronglySorted_app in Hs as (Hlt & H1 & H2).
  assert (filter (fun x => env_seq e < env_seq x) (l ++ [e]) = []) as ->.
  { apply StronglySorted_app in H1 as (Hle & _). apply size_zero_iff, (count_rows_none (fun x => env_seq e < env_seq x)). intros x Hx.
    apply elem_of_app in Hx as [Hx|Hx]; [|apply list_elem_of_singleton in Hx as ->; lia].
    specialize (Hle x e Hx ltac:(by left)). simpl in Hle. lia. }
  simpl. apply filter_true_in, Forall_forall. intros x Hx. apply Hlt; [|done].
  apply elem_of_app. right. by left.
Qed.

Lemma pending_nil_last db mb after now : pending db mb after now = [] -> fetch db mb after now 32 = [].
Proof. intros H. unfold fetch. fold (pending db mb after now). by rewrite H. Qed.

Lemma accepted_split s (es : list EnvelopeRow) n :
  accepted s (length (take n es)) = length (take n es) ->
  accepted s (length es) = (length (take n es) + accepted (after_push (take n es) s) (length (drop n es)))%nat.
Proof.
  intros H. pose proof (f_equal length (take_drop n es)) as Hl. rewrite length_app in Hl. unfold accepted in *. simpl.
  destruct (peer_reads s) as [r|]; simpl; lia.
Qed.

Lemma accepted_le s n : (accepted s n <= n)%nat.
Proof. unfold accepted. case_match; lia. Qed.

(** C22: a collect delivers exactly what is queued. Of the envelopes that have
    not expired and are newer than the last one delivered, [push_pending] sends
    each once, in the order they were deposited, and stops when none is left; if
    the connection takes only some of them, exactly those are the first ones, the
    loop reports the failure, and [last_seq] is the number of the last one sent. It
    needs at most one round more than there are envelopes, and does not touch the
    store: nothing is removed until it is acknowledged. *)
Theorem push_pending_delivers fuel v s mb :
  envelopes_ok v.(store) ->
  (length (pending v.(store) mb s.(last_seq) v.(clock)) < fuel)%nat ->
  let es := pending v.(store) mb s.(last_seq) v.(clock) in
  let n := accepted s (length es) in
  run (push_pending fuel mb) v s = (Some (Some (bool_decide (n = length es))), v, after_push (take n es) s).
Proof.
  intros Hok. revert s. induction fuel as [|fuel IH]; intros s Hf; [lia|]. cbv zeta.
  cbn [push_pending]. rewrite run_get, run_now, run_query, fetch_pending by (done || lia).
  change (ztake 32 ?l) with (take 32 l).
  destruct (pending _ _ _ _) as [|e es] eqn:Ep.
  - rewrite !take_nil, after_push_nil, bool_decide_eq_true_2; [done|].
    pose proof (accepted_le s (length (@nil EnvelopeRow))). simpl in *. lia.
  - set (p := e :: es) in *. assert (exists x xs, map stored_of (take 32 p) = x :: xs) as (x & xs & Hx) by (by eexists _, _).
    assert (take 32 p <> []) as Hne by done. assert (0 < length p)%nat as Hpos by (simpl; lia). clearbody p.
    rewrite Hx. rewrite run_bind, <- Hx, run_push_batch.
    destruct (decide (accepted s (length (take 32 p)) = length (take 32 p))) as [Ha|Ha].
    + rewrite bool_decide_eq_true_2 by done. rewrite Ha, firstn_all. cbn [negb].
      assert (exists y, last (take 32 p) = Some y) as [y Hy].
      { destruct (last (take 32 p)) eqn:El; [by eexists|]. by apply last_None in El. }
      assert (pending (store v) mb (last_seq (after_push (take 32 p) s)) (clock v) = drop 32 p) as Hd.
      { unfold after_push. cbn [last_seq]. rewrite Hy. simpl. rewrite <- Ep in Hy |- *. by apply pending_drop. }
      rewrite IH, Hd; cycle 1. { rewrite Hd, length_drop. lia. }
      rewrite (accepted_split s p 32) by done. rewrite <- after_push_app.
      set (k := accepted _ _).
      assert (take (length (take 32 p) + k) p = take 32 p ++ take k (drop 32 p)) as ->.
      { rewrite <- (take_drop 32 p) at 2. apply take_app_add. }
      do 4 f_equal. apply bool_decide_ext.
      pose proof (f_equal length (take_drop 32 p)) as Hl. rewrite length_app in Hl. lia.
    + rewrite bool_decide_eq_false_2 by done. cbn [negb]. rewrite run_done.
      assert (accepted s (length p) = accepted s (length (take 32 p)) /\ (accepted s (length p) < length (take 32 p))%nat) as [E Hlt].
      { rewrite length_take in Ha |- *. unfold accepted in *. destruct (peer_reads s); lia. }
      assert (length (take 32 p) <= length p /\ length (take 32 p) <= 32)%nat as [] by (rewrite length_take; lia).
      rewrite E in *. rewrite bool_decide_eq_false_2 by lia. by rewrite take_take, Nat.min_l by lia.
Qed.

(** A mailbox with one queued envelope. *)
Definition sample_queued : DB :=
  after (deposit sample2 [Byte.x02] [Byte.x0a] [Byte.x0b; Byte.x0c] [Byte.x04] 20 100 1000).
Definition sample_queued_service : Service :=
  mkService sample_queued ∅ (Owners.mk ∅ ∅) (Disk.mk ∅ ∅ 0%nat) 50 (replicate 200 Byte.x5a).

Lemma sample_queued_reachable : reachable sample_queued.
Proof.
  unfold reachable. transitivity sample2; [apply sample2_reachable|]. apply rtc_once.
  apply (step_deposit sample2 [Byte.x02] [Byte.x0a] [Byte.x0b; Byte.x0c] [Byte.x04] 20 100 1000 Deposit_Ok);
    [vm_compute; discriminate|vm_compute; reflexivity].
Qed.

Lemma push_pending_delivers_witness :
  exists s', run (push_pending 2 [Byte.x02]) sample_queued_service (new_session [] 0%nat None [])
    = (Some (Some true), sample_queued_service, s') /\ length s'.(sent) = 1%nat.
Proof.
  pose proof (push_pending_delivers 2 sample_queued_service (new_session [] 0%nat None []) [Byte.x02]
    (so_envelopes _ (reachable_ok _ sample_queued_reachable)) ltac:(vm_compute; lia)) as H.
  eexists. split; [exact H|]. vm_compute. reflexivity.
Defined.

(** ** What an action may change *)

(** The part of a session that says who is at the other end. *)
Definition login (s : Session) : bytes * option bytes * bool * option (bytes * bytes) :=
  (s.(challenge), s.(mailbox), s.(challenge_used), s.(archive_session)).

Definition keeps_login (R : Type) (f : action R) : Prop :=
  forall v s r v' s', f v s = Some (r, v', s') -> login s' = login s.
Definition keeps_store (R : Type) (f : action R) : Prop :=
  forall v s r v' s', f v s = Some (r, v', s') -> v'.(store) = v.(store).

Lemma run_keeps_login {A} (p : prog A) v s o v' s' :
  acts keeps_login p -> run p v s = (o, v', s') -> login s' = login s.
Proof.
  revert v s. induction p as [a|R f k IH]; intros v s; simpl; [by intros _ [= <- <- <-]|]. intros [Hf Hk].
  destruct (f v s) as [[[r v1] s1]|] eqn:E; [|by intros [= <- <- <-]]. intros H.
  rewrite (IH _ _ _ (Hk r) H). by eapply Hf.
Qed.

Lemma run_keeps_store {A} (p : prog A) v s o v' s' :
  acts keeps_store p -> run p v s = (o, v', s') -> v'.(store) = v.(store).
Proof.
  revert v s. induction p as [a|R f k IH]; intros v s; simpl; [by intros _ [= <- <- <-]|]. intros [Hf Hk].
  destruct (f v s) as [[[r v1] s1]|] eqn:E; [|by intros [= <- <- <-]]. intros H.
  rewrite (IH _ _ _ (Hk r) H). by eapply Hf.
Qed.

Ltac one_action :=
  split; [|done]; intros ????? H; cbv zeta in H; repeat (case_match || simplify_eq); reflexivity.

Section keep.
Context {R : Type}.
Lemma login_on_store (f : DB -> option (R * DB)) : acts keeps_login (on_store f).
Proof. one_action. Qed.
Lemma login_on_store_ret (f : DB -> R * DB) : acts keeps_login (on_store_ret f).
Proof. apply login_on_store. Qed.
Lemma login_query (f : DB -> R) : acts keeps_login (query f).
Proof. one_action. Qed.
Lemma login_disk (f : Disk.t -> R * Disk.t) : acts keeps_login (on_disk f).
Proof. one_action. Qed.
Lemma login_try_disk (f : Disk.t -> option (R * Disk.t)) : acts keeps_login (try_disk f).
Proof. one_action. Qed.
Lemma login_rate key limit now : acts keeps_login (rate_allow key limit now).
Proof. one_action. Qed.
Lemma login_owners f : acts keeps_login (on_owners f).
Proof. one_action. Qed.
Lemma login_now : acts keeps_login unix_now.
Proof. one_action. Qed.
Lemma login_random n : acts keeps_login (random_bytes n).
Proof. one_action. Qed.
Lemma login_get : acts keeps_login get.
Proof. one_action. Qed.
Lemma login_kicked : acts keeps_login kicked.
Proof. one_action. Qed.
Lemma login_send t p : acts keeps_login (send_msg t p).
Proof. one_action. Qed.
Lemma login_modify f : (forall s, login (f s) = login s) -> acts keeps_login (modify f).
Proof. intros Hf. split; [|done]. intros ????? [= <- <- <-]. apply Hf. Qed.

Lemma store_query (f : DB -> R) : acts keeps_store (query f).
Proof. one_action. Qed.
Lemma store_disk (f : Disk.t -> R * Disk.t) : acts keeps_store (on_disk f).
Proof. one_action. Qed.
Lemma store_rate key limit now : acts keeps_store (rate_allow key limit now).
Proof. one_action. Qed.
Lemma store_owners f : acts keeps_store (on_owners f).
Proof. one_action. Qed.
Lemma store_now : acts keeps_store unix_now.
Proof. one_action. Qed.
Lemma store_get : acts keeps_store get.
Proof. one_action. Qed.
Lemma store_send t p : acts keeps_store (send_msg t p).
Proof. one_action. Qed.
Lemma store_modify f : acts keeps_store (modify f).
Proof. one_action. Qed.
End keep.

#[export] Hint Resolve login_on_store login_on_store_ret login_query login_disk login_try_disk login_rate login_owners
  login_now login_random login_get login_kicked login_send store_query store_disk store_rate store_owners store_now
  store_get store_send store_modify : acts.
#[export] Hint Extern 1 (acts _ (Done _)) => exact I : acts.
#[export] Hint Extern 1 (acts keeps_login (modify _)) => apply login_modify; intros; reflexivity : acts.

(** Goes through a program, action by action. *)
Ltac acts_prog :=
  cbv zeta;
  repeat (first
    [ solve [auto with acts nocore]
    | apply acts_bind; [|intros]
    | progress unfold refuse, refuse_text, refuse_next, hang_up, reply, send_error
    | case_match ]).

Section sessions.
Context `{P : Primitives}.
Variable limits : RelayLimits.
Variables (public_key private_key relay_id : bytes).

Lemma login_push_batch batch : acts keeps_login (push_batch batch).
Proof. induction batch; cbn [push_batch]; acts_prog. Qed.
Lemma login_push_pending fuel mb : acts keeps_login (push_pending fuel mb).
Proof. pose proof login_push_batch. induction fuel; cbn [push_pending]; acts_prog. Qed.
Lemma login_send_all msgs : acts keeps_login (send_all msgs).
Proof. induction msgs as [|[t p] msgs IH]; cbn [send_all]; acts_prog. Qed.
Lemma login_send_chunks inode ts cs i n : acts keeps_login (send_chunks inode ts cs i n).
Proof. revert i. induction n; intros i; cbn [send_chunks]; acts_prog. Qed.
Lemma store_send_chunks inode ts cs i n : acts keeps_store (send_chunks inode ts cs i n).
Proof. revert i. induction n; intros i; cbn [send_chunks]; acts_prog. Qed.
Lemma login_remove_file_bytes fid : acts keeps_login (remove_file_bytes fid).
Proof. unfold remove_file_bytes. acts_prog. Qed.
Lemma login_abort_upload : acts keeps_login abort_upload.
Proof. unfold abort_upload. acts_prog. Qed.
Lemma login_add_keyring_chunk mb ku data now : acts keeps_login (add_keyring_chunk mb ku data now).
Proof. unfold add_keyring_chunk. acts_prog. Qed.
#[local] Hint Resolve login_push_pending login_send_all login_send_chunks store_send_chunks login_remove_file_bytes
  login_abort_upload login_add_keyring_chunk : acts.

(** Every message but the two sign-ins leaves the login alone. *)
Lemma login_handle_message fuel t payload now :
  t <> RELAY_AUTH -> t <> ARCHIVE_AUTH -> acts keeps_login (handle_message limits relay_id fuel t payload now).
Proof.
  intros H1 H2. destruct t; try done; unfold handle_message;
    unfold handle_register, handle_deposit, handle_collect, handle_ack, handle_invite_create, handle_archive_create,
      handle_archive_join, handle_archive_append, handle_archive_delete, handle_archive_fetch, handle_prekey_put,
      handle_prekey_take, handle_prekey_status, handle_file_begin, handle_file_chunk, handle_file_download,
      handle_file_redeem, handle_file_cancel, handle_file_status, handle_keyring_put, handle_keyring_get,
      handle_invite_list, handle_invite_cancel, handle_token; acts_prog.
Qed.

(** ** Signing in *)

(** Who signs in, to what: the two requests that use the session's challenge. *)
Definition signs_in (t : MessageType) (payload challenge : bytes) (db : DB)
    (before after : option bytes * option (bytes * bytes)) : Prop :=
  match t with
  | RELAY_AUTH => exists m key, decode_auth payload = Some m /\ access_key db m.(Auth_mailbox_id) = Some key /\
      verify (auth_signing_input challenge relay_id m.(Auth_mailbox_id)) m.(Auth_signature) key = true /\
      after = (Some m.(Auth_mailbox_id), before.2)
  | ARCHIVE_AUTH => exists m key, decode_archive_auth payload = Some m /\
      archive_member_key db m.(ArchiveAuth_archive_id) m.(ArchiveAuth_key_hash) = Some key /\
      verify (archive_auth_signing_input challenge relay_id m.(ArchiveAuth_archive_id) m.(ArchiveAuth_key_hash))
        m.(ArchiveAuth_signature) key = true /\
      after = (before.1, Some (m.(ArchiveAuth_archive_id), m.(ArchiveAuth_key_hash)))
  | _ => False
  end.

(** Splits the run of a sign-in at the end of an attempt. *)
Ltac attempt_ends H :=
  rewrite ?run_modify, ?run_hang_up, ?run_reply in H; unfold after_error in H;
  destruct (live _) in H; simplify_eq/=; split_and!; eauto 6.

Lemma login_after_error text s : login (after_error text s) = login s.
Proof. unfold after_error. by destruct (live s). Qed.

(** C9: signing in takes the private key, and a connection has one attempt. A
    message changes who a session is signed in as only if it is a sign-in, the
    session's challenge was still unused, the mailbox (or the archive's member
    key) is registered, and the signature verifies under the registered public key
    over this session's challenge, this relay and that mailbox or archive. A
    failed attempt spends the challenge too and ends the session, a further one is
    refused, and the challenge itself never changes. *)
Theorem sign_in_proves_key fuel t payload now v s o v' s' :
  run (handle_message limits relay_id fuel t payload now) v s = (o, v', s') ->
  login s' = login s \/
  (s.(challenge_used) = false /\ s'.(challenge_used) = true /\ s'.(challenge) = s.(challenge) /\
   (((s'.(mailbox), s'.(archive_session)) = (s.(mailbox), s.(archive_session)) /\ o = Some (Some Return)) \/
    signs_in t payload s.(challenge) v.(store) (s.(mailbox), s.(archive_session)) (s'.(mailbox), s'.(archive_session)))).
Proof.
  intros H. destruct (decide (t = RELAY_AUTH)) as [->|H1].
  - unfold handle_message, handle_auth in H. rewrite run_bind in H.
    destruct (decode_auth payload) as [m|] eqn:Em; [|rewrite run_hang_up in H; simplify_eq/=; left; apply login_after_error].
    rewrite run_get in H. destruct (challenge_used s) eqn:Eu; [rewrite run_hang_up in H; simplify_eq/=; left; apply login_after_error|].
    right. rewrite run_modify, run_query in H. cbv zeta in H.
    destruct (access_key _ _) as [key|] eqn:Ek; [destruct (verify _ _ key) eqn:Ev|]; cbn [negb] in H.
    all: attempt_ends H; right; by exists m, key.
  - destruct (decide (t = ARCHIVE_AUTH)) as [->|H2]; [|left; eapply run_keeps_login; [|exact H]; by apply login_handle_message].
    unfold handle_message, handle_archive_auth in H. rewrite run_bind in H.
    destruct (decode_archive_auth payload) as [m|] eqn:Em; [|rewrite run_hang_up in H; simplify_eq/=; left; apply login_after_error].
    rewrite run_get in H. destruct (challenge_used s) eqn:Eu; [rewrite run_hang_up in H; simplify_eq/=; left; apply login_after_error|].
    right. rewrite run_modify, run_query in H. cbv zeta in H.
    destruct (archive_member_key _ _ _) as [key|] eqn:Ek; [destruct (verify _ _ key) eqn:Ev|]; cbn [negb] in H.
    all: attempt_ends H; right; by exists m, key.
Qed.

(** ** A connection that has not signed in *)

Definition anonymous (s : Session) : Prop :=
  s.(mailbox) = None /\ s.(archive_session) = None /\ s.(upload).(up_active) = false.

(** What such a connection can change, and what it must show for it. *)
Inductive anonymous_effect (now : Z) (db : DB) : DB -> Prop :=
  | anon_nothing : anonymous_effect now db db
  | anon_register m r db' :
      verify (register_signing_input relay_id m.(Register_mailbox_id) m.(Register_access_public_key) m.(Register_send_token_hash))
        m.(Register_signature) m.(Register_access_public_key) = true ->
      register_mailbox db (sha256 m.(Register_invite)) m.(Register_mailbox_id) m.(Register_access_public_key)
        m.(Register_send_token_hash) now limits.(max_mailboxes) = Some (r, db') ->
      anonymous_effect now db db'
  | anon_deposit m id r db' :
      token_valid db m.(Deposit_mailbox_id) (sha256 m.(Deposit_send_token)) = true ->
      MIN_TTL_SECONDS <= m.(Deposit_ttl_seconds) -> size m.(Deposit_envelope) <= MAX_ENVELOPE_BYTES ->
      deposit db m.(Deposit_mailbox_id) id m.(Deposit_envelope) (sha256 m.(Deposit_send_token)) now
        (Z.min m.(Deposit_ttl_seconds) MAX_TTL_SECONDS) limits.(mailbox_quota_bytes) = Some (r, db') ->
      anonymous_effect now db db'
  | anon_join m r db' :
      verify (archive_join_signing_input relay_id m.(ArchiveJoin_archive_id) m.(ArchiveJoin_public_key) (sha256 m.(ArchiveJoin_join_token)))
        m.(ArchiveJoin_signature) m.(ArchiveJoin_public_key) = true ->
      join_archive db m.(ArchiveJoin_archive_id) (sha256 m.(ArchiveJoin_join_token)) (sha256 m.(ArchiveJoin_public_key))
        m.(ArchiveJoin_public_key) now = Some (r, db') ->
      anonymous_effect now db db'
  | anon_take m :
      token_valid db m.(PrekeyTake_mailbox_id) (sha256 m.(PrekeyTake_send_token)) = true ->
      anonymous_effect now db
        (take_prekey db m.(PrekeyTake_mailbox_id) (sha256 m.(PrekeyTake_send_token)) now limits.(prekey_takes_per_hour)).2
  | anon_redeem m :
      anonymous_effect now db (redeem_file_token db m.(FileRedeem_file_id) (sha256 m.(FileRedeem_token))).2.

(** Runs a program whose remaining actions leave the store alone. *)
Ltac rest_idle H :=
  match type of H with run ?p ?v ?s = _ =>
    let E := fresh in assert (acts keeps_store p) as E by acts_prog;
    apply (run_keeps_store _ _ _ _ _ _ E) in H; rewrite H; clear E end.

Lemma anonymous_register payload now v s o v' s' :
  run (handle_register limits relay_id payload now) v s = (o, v', s') -> anonymous_effect now v.(store) v'.(store).
Proof.
  intros H. unfold handle_register in H. destruct (decode_register payload) as [m|]; [|rest_idle H; constructor].
  rewrite run_get, run_rate in H. case_match; [rest_idle H; constructor|]. case_match; [rest_idle H; constructor|].
  destruct (verify _ _ _) eqn:Ev; cbn [negb] in H; [|rest_idle H; constructor]. rewrite run_on_store in H. cbn [set_rate store] in H.
  destruct (register_mailbox _ _ _ _ _ _ _) as [[r db]|] eqn:Er; [|simplify_eq/=; constructor].
  rest_idle H. by eapply anon_register.
Qed.

Lemma anonymous_deposit payload now v s o v' s' :
  run (handle_deposit limits payload now) v s = (o, v', s') -> anonymous_effect now v.(store) v'.(store).
Proof.
  intros H. unfold handle_deposit in H. destruct (decode_deposit payload) as [m|] eqn:Em; [|rest_idle H; constructor].
  apply decode_deposit_spec in Em as [(_ & _ & Hsz & _) _].
  destruct (_ <? MIN_TTL_SECONDS) eqn:Et; [rest_idle H; constructor|]. bool_prop.
  rewrite run_get, run_rate in H. case_match; [rest_idle H; constructor|]. cbv zeta in H.
  rewrite run_query in H. cbn [set_rate store] in H. destruct (token_valid _ _ _) eqn:Ev; cbn [negb] in H; [|rest_idle H; constructor].
  rewrite run_rate in H. case_match; [rest_idle H; constructor|]. rewrite run_random in H.
  case_match; [by simplify_eq/=; constructor|]. rewrite run_on_store in H. cbn [set_rate set_entropy store] in H.
  destruct (deposit _ _ _ _ _ _ _ _) as [[r db]|] eqn:Er; [|simplify_eq/=; constructor].
  rest_idle H. assert ((if MAX_TTL_SECONDS <? Deposit_ttl_seconds m then MAX_TTL_SECONDS else Deposit_ttl_seconds m)
    = Z.min (Deposit_ttl_seconds m) MAX_TTL_SECONDS) as E by (case_match; bool_prop; lia).
  rewrite E in Er. by eapply anon_deposit.
Qed.

Lemma anonymous_join payload now v s o v' s' :
  run (handle_archive_join relay_id payload now) v s = (o, v', s') -> anonymous_effect now v.(store) v'.(store).
Proof.
  intros H. unfold handle_archive_join in H. destruct (decode_archive_join payload) as [m|]; [|rest_idle H; constructor].
  rewrite run_get, run_rate in H. case_match; [rest_idle H; constructor|]. case_match; [rest_idle H; constructor|]. cbv zeta in H.
  destruct (verify _ _ _) eqn:Ev; cbn [negb] in H; [|rest_idle H; constructor]. rewrite run_on_store in H. cbn [set_rate store] in H.
  destruct (join_archive _ _ _ _ _ _) as [[r db]|] eqn:Er; [|simplify_eq/=; constructor].
  rest_idle H. by eapply anon_join.
Qed.

Lemma anonymous_take payload now v s o v' s' :
  run (handle_prekey_take limits payload now) v s = (o, v', s') -> anonymous_effect now v.(store) v'.(store).
Proof.
  intros H. unfold handle_prekey_take in H. destruct (decode_prekey_take payload) as [m|]; [|rest_idle H; constructor].
  rewrite run_get, run_rate in H. case_match; [rest_idle H; constructor|]. cbv zeta in H.
  rewrite run_query in H. cbn [set_rate store] in H. destruct (token_valid _ _ _) eqn:Ev; cbn [negb] in H; [|rest_idle H; constructor].
  rewrite run_on_store_ret in H. cbn [set_rate store] in H. destruct (take_prekey _ _ _ _ _) as [r db] eqn:Er.
  rest_idle H. cbn [set_store store]. pose proof (anon_take now _ m Ev) as Ha. by rewrite Er in Ha.
Qed.

Lemma anonymous_redeem payload now v s o v' s' :
  run (handle_file_redeem limits payload now) v s = (o, v', s') -> anonymous_effect now v.(store) v'.(store).
Proof.
  intros H. unfold handle_file_redeem in H. destruct (decode_file_redeem payload) as [m|]; [|rest_idle H; constructor].
  rewrite run_get, run_rate in H. case_match; [rest_idle H; constructor|].
  rewrite run_on_store_ret in H. cbn [set_rate store] in H. destruct (redeem_file_token _ _ _) as [[r all] db] eqn:Er.
  assert (store v' = db) as ->; [|pose proof (anon_redeem now (store v) m) as Ha; by rewrite Er in Ha].
  unfold remove_file_bytes in H. rest_idle H. reflexivity.
Qed.

Lemma run_some {A} (p : prog A) v s o v' s' :
  run (bind p (fun f => Done (Some f))) v s = (o, v', s') -> exists o1, run p v s = (o1, v', s').
Proof. rewrite run_bind. intros H. destruct (run p v s) as [[[f|] v1] s1]; simplify_eq/=; eauto. Qed.

(** C11: a connection that has not signed in can register a mailbox with an
    invite and a proof that it holds the access key, deposit an envelope or take a
    prekey with a send token that is valid for that mailbox (the lifetime capped
    at the protocol's maximum), register an archive key with a join token and a
    proof of that key, and redeem a file token; whatever else it sends, the store
    is as before. *)
Theorem anonymous_only fuel t payload now v s o v' s' :
  anonymous s -> run (handle_message limits relay_id fuel t payload now) v s = (o, v', s') ->
  anonymous_effect now v.(store) v'.(store).
Proof.
  intros (Hm & Ha & Hu) H.
  unfold handle_message in H. cbv beta zeta in H.
  destruct t; try (rest_idle H; constructor); try (apply run_some in H as [o1 H]);
    eauto using anonymous_register, anonymous_deposit, anonymous_join, anonymous_take, anonymous_redeem;
    unfold handle_collect, handle_ack, handle_invite_create, handle_archive_create, handle_archive_append,
      handle_archive_delete, handle_archive_fetch, handle_prekey_put, handle_prekey_status, handle_file_begin,
      handle_file_chunk, handle_file_cancel, handle_file_status, handle_keyring_put, handle_keyring_get,
      handle_invite_list, handle_invite_cancel, handle_token, handle_file_download, handle_auth, handle_archive_auth in H;
    rewrite ?run_get, ?Hm, ?Ha, ?Hu in H; cbn [negb] in H; rest_idle H; constructor.
Qed.

(** ** Deletion by agreement *)

Lemma signature_of_Some sigs kh sig :
  signature_of sigs kh = Some sig -> sig ∈ sigs /\ sig.(ArchiveSignature_key_hash) = kh.
Proof.
  unfold signature_of. intros H. assert (forall acc, foldl (fun mine sig =>
    if decide (ArchiveSignature_key_hash sig = kh) then Some sig else mine) acc sigs = Some sig ->
    acc = Some sig \/ (sig ∈ sigs /\ ArchiveSignature_key_hash sig = kh)) as Hf.
  { clear H. induction sigs as [|x sigs IH]; simpl; [auto|]. intros acc [Hd|[Hin Hk]]%IH.
    - case_decide; simplify_eq; [right; split; [left|done]|by left].
    - right. split; [by right|done]. }
  by apply Hf in H as [?|?].
Qed.

Lemma check_agreement_all signed sigs keys :
  check_agreement signed sigs keys = Agreed ->
  Forall (fun k => exists sig, sig ∈ sigs /\ sig.(ArchiveSignature_key_hash) = k.1 /\
                     verify signed sig.(ArchiveSignature_signature) k.2 = true) keys.
Proof.
  induction keys as [|[kh pk] keys IH]; simpl; intros H; [constructor|].
  destruct (signature_of sigs kh) as [sig|] eqn:Es; [|done]. apply signature_of_Some in Es as [Hin Hk].
  destruct (verify _ _ pk) eqn:Ev; [|done]. constructor; [by exists sig|auto].
Qed.

(** C12: an archive, or entries of it, go only by everyone's agreement. If an
    ARCHIVE_DELETE request changes the store, the session is signed in to that
    archive, its registration is closed, the order has not expired, and every key
    registered for the archive has a signature in the order that verifies under
    it, over this relay, this archive, the order's scope, number, expiry and the
    exact list of entries; and the change is the deletion of that archive or the
    redaction of those entries. *)
Theorem deletion_needs_everyone payload now v s o v' s' :
  run (handle_archive_delete limits relay_id payload now) v s = (o, v', s') -> v'.(store) <> v.(store) ->
  exists id kh m info, s.(archive_session) = Some (id, kh) /\ decode_archive_delete payload = Some m /\
    archive_info v.(store) id now = Some info /\ info.(ArchiveInfo_registration_open) = false /\
    u64 now <= m.(ArchiveDelete_expires_at) /\
    (forall k, k ∈ v.(store).(archive_keys) -> k.(ak_archive_id) = id ->
       exists sig, sig ∈ m.(ArchiveDelete_signatures) /\ sig.(ArchiveSignature_key_hash) = k.(ak_key_hash) /\
         verify (archive_delete_signing_input relay_id id m.(ArchiveDelete_scope) m.(ArchiveDelete_op_id)
                   m.(ArchiveDelete_expires_at) m.(ArchiveDelete_entry_hashes))
           sig.(ArchiveSignature_signature) k.(ak_public_key) = true) /\
    v'.(store) = if m.(ArchiveDelete_scope) =? DELETE_SCOPE_CHAT then (delete_archive v.(store) id).2
                 else (redact_entries v.(store) id m.(ArchiveDelete_entry_hashes)).2.
Proof.
  intros H Hne. unfold handle_archive_delete in H. rewrite run_get in H.
  destruct (archive_session s) as [[id kh]|]; [|rest_idle H; done].
  destruct (decode_archive_delete payload) as [m|]; [|rest_idle H; done].
  rewrite run_rate in H. case_match; [rest_idle H; done|].
  destruct (_ <? u64 now) eqn:Ex; [rest_idle H; done|]. bool_prop. rewrite run_query in H. cbn [set_rate store] in H.
  destruct (archive_info _ id now) as [info|] eqn:Ei; [|rest_idle H; done].
  destruct (ArchiveInfo_registration_open info) eqn:Eo; [rest_idle H; done|]. cbv zeta in H.
  rewrite run_query in H. cbn [set_rate store] in H.
  destruct (check_agreement _ _ _) eqn:Ea; [|rest_idle H; done..].
  exists id, kh, m, info. split_and!; try done.
  - intros k Hk Hid. apply check_agreement_all in Ea. rewrite Forall_forall in Ea.
    destruct (Ea (ak_key_hash k, ak_public_key k)) as (sig & ? & ? & ?); [|by exists sig].
    unfold archive_member_keys. apply list_elem_of_fmap. exists k. split; [done|].
    rewrite sort_by_perm. by apply list_elem_of_filter.
  - case_match; rewrite run_on_store_ret in H; cbn [set_rate store] in H.
    + destruct (delete_archive _ id) as [b db] eqn:Ed. rest_idle H. done.
    + destruct (redact_entries _ id _) as [r db] eqn:Ed. rest_idle H. done.
Qed.
End sessions.

(** ** A relay at work

    A member registers with an invite, signs in, makes an archive; its only
    member joins, signs in on a second connection, appends and deletes. *)
Definition ex_relay : bytes := replicate 32 Byte.x22.
Definition ex_key : bytes := replicate 8 Byte.x11.
Definition ex_invite : bytes := replicate 16 Byte.x33.
Definition ex_mailbox : bytes := replicate 16 Byte.x44.
Definition ex_token : bytes := replicate 32 Byte.x55.
Definition ex_join_token : bytes := replicate 32 Byte.x57.
Definition ex_archive : bytes := replicate 16 Byte.x58.
Definition ex_session : Session := set_challenge (replicate 32 Byte.x66) (new_session (str "10.0.0.1") 0%nat None []).
Definition ex_start : Service :=
  mkService (after (add_invite empty_db (sha256 ex_invite) 5000)) ∅ (Owners.mk ∅ ∅) (Disk.mk ∅ ∅ 0%nat) 1000 (replicate 200 Byte.x5a).
Definition ex_sign (m : bytes) : bytes := prim_sign [] m ex_key.

Definition ex_step (t : MessageType) (payload : bytes) (v : Service) (s : Session) : Service * Session :=
  let '(_, v, s) := run (handle_message default_limits ex_relay 5 t payload 1000) v s in (v, s).

Definition ex_register : bytes :=
  encode_Register (mkRegister ex_invite ex_mailbox ex_key (sha256 ex_token)
    (ex_sign (register_signing_input ex_relay ex_mailbox ex_key (sha256 ex_token)))).
Definition ex_registered : Service * Session := ex_step RELAY_REGISTER ex_register ex_start ex_session.
Definition ex_auth : bytes :=
  encode_Auth (mkAuth ex_mailbox (ex_sign (auth_signing_input (challenge ex_session) ex_relay ex_mailbox))).
Definition ex_signed_in : Service * Session := ex_step RELAY_AUTH ex_auth ex_registered.1 ex_registered.2.
Definition ex_created : Service * Session :=
  ex_step ARCHIVE_CREATE (encode_ArchiveCreate (mkArchiveCreate ex_archive [sha256 ex_join_token])) ex_signed_in.1 ex_signed_in.2.
Definition ex_joined : Service * Session :=
  ex_step ARCHIVE_JOIN (encode_ArchiveJoin (mkArchiveJoin ex_archive ex_join_token ex_key
    (ex_sign (archive_join_signing_input ex_relay ex_archive ex_key (sha256 ex_join_token))))) ex_created.1 ex_session.
Definition ex_member : Service * Session :=
  ex_step ARCHIVE_AUTH (encode_ArchiveAuth (mkArchiveAuth ex_archive (sha256 ex_key)
    (ex_sign (archive_auth_signing_input (challenge ex_session) ex_relay ex_archive (sha256 ex_key))))) ex_joined.1 ex_joined.2.
Definition ex_delete : bytes :=
  encode_ArchiveDelete (mkArchiveDelete DELETE_SCOPE_CHAT (replicate 16 Byte.x59) 2000 []
    [mkArchiveSignature (sha256 ex_key)
       (ex_sign (archive_delete_signing_input ex_relay ex_archive DELETE_SCOPE_CHAT (replicate 16 Byte.x59) 2000 []))]).

Lemma sign_in_proves_key_witness :
  exists o v' s', run (handle_message default_limits ex_relay 5 RELAY_AUTH ex_auth 1000) ex_registered.1 ex_registered.2 = (o, v', s') /\
    s'.(mailbox) = Some ex_mailbox /\ login s' <> login ex_registered.2 /\
    (login s' = login ex_registered.2 \/ s'.(challenge_used) = true).
Proof.
  destruct (run (handle_message default_limits ex_relay 5 RELAY_AUTH ex_auth 1000) ex_registered.1 ex_registered.2)
    as [[o v'] s'] eqn:E.
  assert (mailbox s' = Some ex_mailbox) as Hm.
  { change s' with ((o, v', s').2). rewrite <- E. vm_compute. reflexivity. }
  exists o, v', s'. split; [reflexivity|]. split; [exact Hm|]. split.
  - intros Hl. apply (f_equal (fun x => x.1.1.2)) in Hl. unfold login in Hl. cbn [fst snd] in Hl. rewrite Hm in Hl.
    vm_compute in Hl. discriminate Hl.
  - apply sign_in_proves_key in E as [?|(_ & ? & _)]; [by left|by right].
Defined.

Lemma ex_session_anonymous : anonymous ex_session.
Proof. vm_compute. auto. Qed.

Lemma anonymous_only_witness :
  anonymous ex_session /\ exists o v' s', run (handle_message default_limits ex_relay 5 RELAY_REGISTER ex_register 1000) ex_start ex_session = (o, v', s') /\
    size v'.(store).(mailboxes) = 1 /\ anonymous_effect default_limits ex_relay 1000 ex_start.(store) v'.(store).
Proof.
  split; [exact ex_session_anonymous|].
  destruct (run (handle_message default_limits ex_relay 5 RELAY_REGISTER ex_register 1000) ex_start ex_session)
    as [[o v'] s'] eqn:E.
  exists o, v', s'. split; [reflexivity|]. split.
  - change v' with ((o, v', s').1.2). rewrite <- E. vm_compute. reflexivity.
  - apply (anonymous_only default_limits ex_relay 5 RELAY_REGISTER ex_register 1000 ex_start ex_session o v' s'); [exact ex_session_anonymous|exact E].
Defined.

Lemma deletion_needs_everyone_witness :
  exists o v' s', run (handle_archive_delete default_limits ex_relay ex_delete 1000) ex_member.1 ex_member.2 = (o, v', s') /\
    size ex_member.1.(store).(archives) = 1 /\ v'.(store).(archives) = [] /\
    exists id kh, ex_member.2.(archive_session) = Some (id, kh).
Proof.
  destruct (run (handle_archive_delete default_limits ex_relay ex_delete 1000) ex_member.1 ex_member.2)
    as [[o v'] s'] eqn:E.
  assert (archives (store v') = []) as Ha.
  { change v' with ((o, v', s').1.2). rewrite <- E. vm_compute. reflexivity. }
  exists o, v', s'. split; [reflexivity|]. split; [vm_compute; reflexivity|]. split; [exact Ha|].
  destruct (deletion_needs_everyone default_limits ex_relay ex_delete 1000 ex_member.1 ex_member.2 o v' s') as (id & kh & m & info & Hs & _).
  - exact E.
  - intros Heq. rewrite Heq in Ha. vm_compute in Ha. discriminate Ha.
  - by exists id, kh.
Defined.
