(* ===== verification/RelayAdmin.v ===== *)
(** * The rate limiter, owners, invitation trees and the relay's identity

    Parts of the service that do not depend on what is stored: how many requests
    the limiter lets through, that a mailbox has one live owner connection, which
    mailboxes go with one that is removed, and that the relay keeps its key. *)

From Stdlib Require Import ZArith Lia Sorted.
From stdpp Require Import base list strings gmap relations.
From S2P Require Import Prelude Threads Wire Protocol RelayProtocol Crypto Sql RelayStore RelayStoreInv RelayArchive RelayReach RelayState RelayService.
#[local] Open Scope Z_scope.

(** ** The rate limiter *)

Module Limiter.
Import RateLimiter.

Inductive event := Call (key : bytes) (limit now : Z) | Prune (now : Z).
Definition time (e : event) : Z := match e with Call _ _ now => now | Prune now => now end.

(** The times of the calls for [key] that were allowed. *)
Fixpoint allowed_times (key : bytes) (es : list event) (ws : windows) : list Z :=
  match es with
  | [] => []
  | Call k limit now :: es =>
      (if (allow ws k limit now).1 && bool_decide (k = key) then [now] else [])
      ++ allowed_times key es (allow ws k limit now).2
  | Prune now :: es => allowed_times key es (prune ws now)
  end.

Lemma count_rows_impl {A} (Q R : A -> Prop) `{!forall x, Decision (Q x), !forall x, Decision (R x)} (l : list A) :
  (forall x, x ∈ l -> Q x -> R x) -> count_rows Q l <= count_rows R l.
Proof.
  unfold count_rows. induction l as [|x l IH]; intros Hi; [done|]. rewrite !filter_cons.
  assert (size (filter Q l) <= size (filter R l)) by (apply IH; intros; apply Hi; [by right|done]).
  pose proof (Hi x ltac:(left)). repeat case_decide; rewrite ?size_cons; tauto || lia.
Qed.

Lemma count_rows_or {A} (Q R S : A -> Prop)
    `{!forall x, Decision (Q x), !forall x, Decision (R x), !forall x, Decision (S x)} (l : list A) :
  (forall x, x ∈ l -> Q x -> R x \/ S x) -> count_rows Q l <= count_rows R l + count_rows S l.
Proof.
  unfold count_rows. induction l as [|x l IH]; intros Hi; [done|]. rewrite !filter_cons.
  assert (size (filter Q l) <= size (filter R l) + size (filter S l)) by (apply IH; intros; apply Hi; [by right|done]).
  pose proof (Hi x ltac:(left)). repeat case_decide; rewrite ?size_cons; tauto || lia.
Qed.

Section bound.
Variables (key : bytes) (limit : Z).
Hypothesis limit_pos : 0 <= limit.

(** The allowed calls of an interval. *)
Abbreviation within a b := (count_rows (fun x => a <= x < b)).

(** What holds of the allowed calls [A] and the key's window at time [last]. *)
Definition window_ok (A : list Z) (w : Window) (last : Z) : Prop :=
  0 <= w.(start) <= last /\ (forall a, a ∈ A -> a < w.(start) + 60) /\
  count_rows (fun x => w.(start) <= x) A <= Z.min w.(count) limit /\
  count_rows (fun x => w.(start) - 60 < x < w.(start)) A <= limit.

Definition limiter_ok (A : list Z) (w : option Window) (last : Z) : Prop :=
  0 <= last /\ (forall a, a ∈ A -> 0 <= a <= last) /\ (forall t, within t (t + 60) A <= 2 * limit) /\
  match w with Some w => window_ok A w last | None => forall a, a ∈ A -> a + 60 <= last end.

Lemma limiter_ok_later A w last now : limiter_ok A w last -> last <= now -> limiter_ok A w now.
Proof.
  unfold limiter_ok, window_ok. intros (? & H1 & H2 & H3) Hn. split_and!; [lia|intros a Ha; specialize (H1 a Ha); lia|done|].
  destruct w as [w|]; [|intros a Ha; specialize (H3 a Ha); lia]. destruct H3 as (? & ? & ? & ?). split_and!; try done; lia.
Qed.

(** The window that a call at [now] counts in. *)
Lemma window_at_call A w now :
  limiter_ok A w now ->
  let w0 := default (mkWindow 0 0) w in
  window_ok A (if 60 <=? now - w0.(start) then mkWindow now 0 else w0) now.
Proof.
  intros (H0 & H1 & _ & H3). cbv zeta. destruct w as [w|]; simpl from_option.
  - destruct (60 <=? _) eqn:E; [|done]. bool_prop. destruct H3 as (Hs & Hlt & Hc & Hp). unfold window_ok. cbn [start count].
    split_and!; [lia|lia|intros a Ha; specialize (Hlt a Ha); lia| |].
    + rewrite count_rows_none; [lia|]. intros a Ha. specialize (Hlt a Ha). lia.
    + etransitivity; [apply (count_rows_impl _ (fun x => start w <= x))|lia]. intros a Ha. lia.
  - destruct (60 <=? _) eqn:E; cbn [start] in E; bool_prop; unfold window_ok; cbn [start count]; split_and!; try lia.
    all: first [intros a Ha; specialize (H3 a Ha); specialize (H1 a Ha); lia
               |rewrite count_rows_none; [lia|]; intros a Ha; specialize (H3 a Ha); specialize (H1 a Ha); lia].
Qed.

(** A call keeps the invariant. *)
Lemma limiter_ok_call A w now :
  limiter_ok A w now ->
  let w0 := default (mkWindow 0 0) w in
  let w1 := if 60 <=? now - w0.(start) then mkWindow now 0 else w0 in
  let w2 := mkWindow w1.(start) (w1.(count) + 1) in
  limiter_ok (A ++ if w2.(count) <=? limit then [now] else []) (Some w2) now.
Proof.
  intros Hok. pose proof (window_at_call A w now Hok) as Hw. cbv zeta in *. set (w1 := if 60 <=? _ then _ else _ : Window) in *.
  destruct Hok as (H0 & H1 & H2 & _). destruct Hw as (Hs & Hlt & Hc & Hp). cbn [count].
  assert (now < start w1 + 60) as Hnow.
  { unfold w1. destruct (60 <=? _) eqn:E; bool_prop; cbn [start]; lia. }
  assert (0 <= count w1) as Hpos by (pose proof (size_nonneg (filter (fun x => start w1 <= x) A)); unfold count_rows in Hc; lia).
  destruct (count w1 + 1 <=? limit) eqn:E; bool_prop.
  - split_and!; [done| | |].
    + intros a Ha; apply elem_of_app in Ha as [Ha|Ha]; [|apply list_elem_of_singleton in Ha as ->]; [by apply H1|lia].
    + intros t. destruct (decide (t + 60 <= start w1)) as [Ht|Ht].
      * rewrite count_rows_app, count_rows_single, decide_False by lia. specialize (H2 t). lia.
      * etransitivity; [apply (count_rows_or _ (fun x => start w1 - 60 < x < start w1) (fun x => start w1 <= x))|].
        { intros x _ Hx. lia. }
        rewrite !count_rows_app, !count_rows_single, decide_False, decide_True by lia. lia.
    + unfold window_ok. cbn [start count]. split_and!; try lia.
      * intros a Ha; apply elem_of_app in Ha as [Ha|Ha]; [|apply list_elem_of_singleton in Ha as ->]; [by apply Hlt|done].
      * rewrite count_rows_app, count_rows_single, decide_True by lia. lia.
      * rewrite count_rows_app, count_rows_single, decide_False by lia. lia.
  - rewrite app_nil_r. split_and!; [done..|]. unfold window_ok. cbn [start count]. split_and!; try lia. done.
Qed.

Lemma allow_eq ws k l now :
  let w0 := default (mkWindow 0 0) (ws !! k) in
  let w1 := if 60 <=? now - w0.(start) then mkWindow now 0 else w0 in
  allow ws k l now = (w1.(count) + 1 <=? l, <[k := mkWindow w1.(start) (w1.(count) + 1)]> ws).
Proof. done. Qed.

(** Pruning forgets a window only when its calls are long past. *)
Lemma limiter_ok_prune (A : list Z) (ws : windows) (now : Z) :
  limiter_ok A (ws !! key) now -> limiter_ok A (prune ws now !! key) now.
Proof.
  intros Hok. unfold prune. destruct (ws !! key) as [w|] eqn:E; cycle 1.
  { rewrite map_lookup_filter_None_2; [done|]. by left. }
  destruct (decide (300 <= now - start w)) as [Hold|Hnew].
  - rewrite map_lookup_filter_None_2; [|right; intros w' Hw'; simplify_eq; simpl; tauto].
    destruct Hok as (? & ? & ? & (? & Hlt & _)). split_and!; [done..|]. intros a Ha. specialize (Hlt a Ha). lia.
  - by rewrite (map_lookup_filter_Some_2 _ _ _ w).
Qed.

Lemma allowed_bound es : forall A ws last,
  limiter_ok A (ws !! key) last -> Sorted Z.le (last :: map time es) ->
  Forall (fun e => match e with Call k l _ => k = key -> l = limit | Prune _ => True end) es ->
  forall t, within t (t + 60) (A ++ allowed_times key es ws) <= 2 * limit.
Proof.
  induction es as [|e es IH]; intros A ws last Hok Hs Hl t.
  - simpl. rewrite app_nil_r. apply Hok.
  - cbn [map] in Hs. inversion Hs as [|? ? Hs' Hhd]; subst. inversion Hhd as [|? ? Hle]; subst.
    inversion Hl as [|? ? He Hl']; subst. pose proof (limiter_ok_later _ _ _ _ Hok Hle) as Hok'.
    destruct e as [k l now|now]; cbn [allowed_times time] in *; [|apply (IH _ _ now); [by apply limiter_ok_prune|done..]].
    rewrite app_assoc. apply (IH _ _ now); [|done..]. rewrite allow_eq. cbv zeta. cbn [fst snd].
    destruct (decide (k = key)) as [->|Hk].
    + rewrite He by done. rewrite (bool_decide_eq_true_2 (key = key)), andb_true_r, lookup_insert_eq by done.
      exact (limiter_ok_call _ _ _ Hok').
    + rewrite (bool_decide_eq_false_2 (k = key)), andb_false_r, app_nil_r, lookup_insert_ne by done. done.
Qed.
End bound.
End Limiter.

(** The rate limiter does limit. For any sequence of calls and prunings in
    the order of time, whatever else is asked of the limiter, the calls for one key
    that it lets through in any sixty seconds are at most twice the limit (two
    fixed windows can meet in such an interval); pruning never gives a key more. *)
Theorem rate_limit_bounds key limit es t :
  0 <= limit -> Sorted Z.le (0 :: map Limiter.time es) ->
  Forall (fun e => match e with Limiter.Call k l _ => k = key -> l = limit | Limiter.Prune _ => True end) es ->
  count_rows (fun x => t <= x < t + 60) (Limiter.allowed_times key es ∅) <= 2 * limit.
Proof.
  intros Hl Hs Hf. apply (Limiter.allowed_bound key limit Hl es [] ∅ 0); [|done..].
  rewrite lookup_empty. split_and!; [done|by intros a Ha%not_elem_of_nil| |by intros a Ha%not_elem_of_nil].
  intros t'. unfold count_rows. rewrite filter_nil, size_nil. lia.
Qed.

Lemma rate_limit_bounds_witness :
  count_rows (fun x => 159 <= x < 159 + 60)
    (Limiter.allowed_times [Byte.x01]
      (map (fun now => Limiter.Call [Byte.x01] 2 now) [100; 158; 159; 159; 160; 161]) ∅) <= 2 * 2.
Proof.
  apply rate_limit_bounds; [lia| |repeat constructor].
  repeat (apply Sorted_cons || apply HdRel_cons || apply Sorted_nil || apply HdRel_nil); simpl; lia.
Defined.

(** ** Owners *)

Module OwnerTable.
Import Owners.

Inductive event := Install (mailbox : bytes) (kick : nat) | Release (mailbox : bytes) (kick : nat).

Definition apply_event (o : t) (e : event) : t :=
  match e with
  | Install mb k => install_owner o mb k
  | Release mb k => release_owner o mb k
  end.
Definition replay (es : list event) : t := foldl apply_event (mk ∅ ∅) es.

(** The flags in the order in which they were installed. *)
Definition installed (es : list event) : list (bytes * nat) :=
  omap (fun e => match e with Install mb k => Some (mb, k) | Release _ _ => None end) es.

(** A flag that is installed and neither set nor released. *)
Definition live_owner (es : list event) (mb : bytes) (k : nat) : Prop :=
  (mb, k) ∈ installed es /\ k ∉ (replay es).(kicked) /\ Release mb k ∉ es.

Record owners_ok (es : list event) : Prop := {
  ok_live mb k : live_owner es mb k -> (replay es).(slots) !! bytes_to_hex mb = Some k;
  ok_slot key k : (replay es).(slots) !! key = Some k -> k ∈ (installed es).*2 /\ k ∉ (replay es).(kicked);
  ok_unique key1 key2 k : (replay es).(slots) !! key1 = Some k -> (replay es).(slots) !! key2 = Some k -> key1 = key2;
  ok_kicked k : k ∈ (replay es).(kicked) -> k ∈ (installed es).*2;
}.

Lemma replay_snoc es e : replay (es ++ [e]) = apply_event (replay es) e.
Proof. unfold replay. by rewrite foldl_app. Qed.

Lemma installed_snoc es e :
  installed (es ++ [e]) = installed es ++ match e with Install mb k => [(mb, k)] | Release _ _ => [] end.
Proof. unfold installed. rewrite omap_app. by destruct e. Qed.

Lemma install_ok es mb k :
  owners_ok es -> k ∉ (installed es).*2 -> owners_ok (es ++ [Install mb k]).
Proof.
  intros [Hl Hs Hu Hk] Hfresh.
  assert (k ∉ kicked (replay es)) as Hnk by (intros H; by apply Hk in H).
  assert (forall key, slots (replay es) !! key <> Some k) as Hns by (intros key H; by apply Hs in H as [? _]).
  constructor.
  - intros mb' k' (Hin & Hn & Hr). rewrite replay_snoc in *. rewrite installed_snoc in Hin. simpl in *.
    apply elem_of_app in Hin as [Hin|Hin]; [|apply list_elem_of_singleton in Hin; simplify_eq; apply lookup_insert_eq].
    assert (slots (replay es) !! bytes_to_hex mb' = Some k') as Hold.
    { apply Hl. split_and!; [done| |intros H; apply Hr, elem_of_app; by left]. intros H. apply Hn. case_match; set_solver. }
    destruct (decide (bytes_to_hex mb' = bytes_to_hex mb)) as [E|E]; [|by rewrite lookup_insert_ne].
    rewrite E in Hold. rewrite Hold in Hn. set_solver.
  - intros key k'. rewrite replay_snoc, installed_snoc, fmap_app. simpl. intros H.
    apply lookup_insert_Some in H as [[<- <-]|[Hne H]].
    + split; [set_solver|]. case_match eqn:E; [|done]. intros [->%elem_of_singleton|]%elem_of_union; [by apply Hns in E|done].
    + apply Hs in H as H'. destruct H' as [Hin Hn]. split; [set_solver|]. case_match eqn:E; [|done].
      intros [->%elem_of_singleton|]%elem_of_union; [|done]. apply Hne. by eapply Hu.
  - intros key1 key2 k'. rewrite replay_snoc. simpl. intros H1 H2.
    apply lookup_insert_Some in H1 as [[<- <-]|[? H1]]; apply lookup_insert_Some in H2 as [[? ?]|[? H2]]; simplify_eq;
      [done|by apply Hns in H2|by apply Hns in H1|by eapply Hu].
  - intros k'. rewrite replay_snoc, installed_snoc, fmap_app. simpl. case_match eqn:E.
    + intros [->%elem_of_singleton|Hin]%elem_of_union; [apply Hs in E as [? _]; set_solver|apply Hk in Hin; set_solver].
    + intros Hin%Hk. set_solver.
Qed.

Lemma release_ok es mb k : owners_ok es -> owners_ok (es ++ [Release mb k]).
Proof.
  intros [Hl Hs Hu Hk]. constructor.
  - intros mb' k' (Hin & Hn & Hr). rewrite replay_snoc in *. rewrite installed_snoc, app_nil_r in Hin. simpl in *.
    unfold release_owner in *.
    assert (slots (replay es) !! bytes_to_hex mb' = Some k') as Hold.
    { apply Hl. split_and!; [done|by case_decide|intros H; apply Hr, elem_of_app; by left]. }
    case_decide as E; [|done]. simpl. rewrite lookup_delete_ne; [done|]. intros Eh. rewrite <- Eh in Hold.
    apply bytes_to_hex_inj in Eh as ->. apply Hr. simplify_eq. apply elem_of_app. right. left.
  - intros key k'. rewrite replay_snoc, installed_snoc, app_nil_r. simpl. unfold release_owner.
    case_decide; simpl; [|apply Hs]. intros [? Hd]%lookup_delete_Some. by apply Hs in Hd.
  - intros key1 key2 k'. rewrite replay_snoc. simpl. unfold release_owner.
    case_decide; simpl; [|apply Hu]. intros [_ H1]%lookup_delete_Some [_ H2]%lookup_delete_Some. by eapply Hu.
  - intros k'. rewrite replay_snoc, installed_snoc, app_nil_r. simpl. unfold release_owner. case_decide; apply Hk.
Qed.

Lemma replay_ok es : NoDup (installed es).*2 -> owners_ok es.
Proof.
  induction es as [|e es IH] using rev_ind; intros Hnd.
  - constructor; simpl.
    + intros mb k (Hin & _). by apply not_elem_of_nil in Hin.
    + intros key k. by rewrite lookup_empty.
    + intros key1 key2 k. by rewrite lookup_empty.
    + set_solver.
  - rewrite installed_snoc, fmap_app in Hnd. apply NoDup_app in Hnd as (Hnd & Hdis & _).
    destruct e as [mb k|mb k]; [|by apply release_ok, IH]. apply install_ok; [by apply IH|].
    intros Hin. apply (Hdis k Hin). left.
Qed.
End OwnerTable.

(** A mailbox has one live owner connection, the newest. For any sequence
    of connections starting to collect and ending, each with its own flag, two
    connections that collect for the same mailbox and have neither been told that
    they were replaced nor ended are the same, and the one that started last has
    not been told so. *)
Theorem one_live_owner es mb k1 k2 :
  NoDup (OwnerTable.installed es).*2 ->
  OwnerTable.live_owner es mb k1 -> (OwnerTable.live_owner es mb k2 -> k1 = k2) /\
  (forall es' k, es = es' ++ [OwnerTable.Install mb k] -> k1 = k /\ k ∉ (OwnerTable.replay es).(Owners.kicked)).
Proof.
  intros Hnd H1. pose proof (OwnerTable.replay_ok es Hnd) as Hok. pose proof (OwnerTable.ok_live _ Hok _ _ H1) as E1. split.
  - intros H2. pose proof (OwnerTable.ok_live _ Hok _ _ H2) as E2. congruence.
  - intros es' k ->. rewrite OwnerTable.replay_snoc in E1. simpl in E1. rewrite lookup_insert_eq in E1. simplify_eq.
    split; [done|]. apply H1.
Qed.

Definition sample_owners : list OwnerTable.event := [OwnerTable.Install [Byte.x01] 1; OwnerTable.Install [Byte.x01] 2].

Lemma one_live_owner_witness :
  OwnerTable.live_owner sample_owners [Byte.x01] 2 /\ 2%nat ∉ (OwnerTable.replay sample_owners).(Owners.kicked).
Proof.
  assert (OwnerTable.live_owner sample_owners [Byte.x01] 2) as H.
  { split_and!; [apply (bool_decide_unpack _); vm_compute; exact I..|]. unfold sample_owners. intros Hin. set_solver. }
  split; [exact H|].
  assert (NoDup (OwnerTable.installed sample_owners).*2) as Hnd by (apply (bool_decide_unpack _); vm_compute; exact I).
  destruct (one_live_owner sample_owners [Byte.x01] 2 2 Hnd H) as [_ Hl].
  by destruct (Hl [OwnerTable.Install [Byte.x01] 1] 2%nat eq_refl) as [_ ?].
Defined.

(** ** Removing a mailbox with everyone it invited *)

Section doom.
Variable all : list Member.

(** [y] was invited by [x]. *)
Definition invited (x y : bytes) : Prop := exists m, m ∈ all /\ m.(Member_id) = y /\ m.(Member_invited_by) = x.

Lemma doom_invitees_spec inviter doomed :
  NoDup doomed ->
  NoDup (doom_invitees all inviter doomed) /\
  (exists new, doom_invitees all inviter doomed = doomed ++ new) /\
  forall y, y ∈ doom_invitees all inviter doomed <-> y ∈ doomed \/ invited inviter y.
Proof.
  intros Hnd. unfold doom_invitees, invited.
  assert (forall l d, NoDup d ->
    let r := foldl (fun d m => if bool_decide (Member_invited_by m = inviter) && negb (bool_decide (Member_id m ∈ d))
                               then d ++ [Member_id m] else d) d l in
    NoDup r /\ (exists new, r = d ++ new) /\
    forall y, y ∈ r <-> y ∈ d \/ exists m, m ∈ l /\ Member_id m = y /\ Member_invited_by m = inviter) as Hf; [|by apply Hf].
  clear doomed Hnd. induction l as [|m l IH]; intros d Hnd; simpl.
  - split_and!; [done|by exists []; rewrite app_nil_r|]. intros y. split; [by left|]. intros [?|(m & Hm & _)]; [done|].
    by apply not_elem_of_nil in Hm.
  - set (d' := if bool_decide _ && _ then _ else _). assert (NoDup d' /\ (exists new, d' = d ++ new) /\
      forall y, y ∈ d' <-> y ∈ d \/ (Member_id m = y /\ Member_invited_by m = inviter)) as (Hnd' & [n1 Hn1] & Hd').
    { unfold d'. destruct (bool_decide _) eqn:E1; [destruct (bool_decide (Member_id m ∈ d)) eqn:E2|]; simpl; bool_prop.
      - split_and!; [done|by exists []; rewrite app_nil_r|]. intros y. split; [by left|]. by intros [?|[<- _]].
      - split_and!; [|by eexists|].
        + apply NoDup_app. split_and!; [done| |apply NoDup_singleton].
          intros x Hx Hx'. apply list_elem_of_singleton in Hx' as ->. done.
        + intros y. rewrite elem_of_app, list_elem_of_singleton. naive_solver.
      - split_and!; [done|by exists []; rewrite app_nil_r|]. intros y. naive_solver. }
    destruct (IH d' Hnd') as (H1 & [n2 H2] & H3). split_and!; [done| |].
    + exists (n1 ++ n2). by rewrite H2, Hn1, app_assoc.
    + intros y. rewrite H3, Hd'. setoid_rewrite elem_of_cons. naive_solver.
Qed.

(** The loop's invariant at index [i]. *)
Record doom_ok (root : bytes) (i : nat) (doomed : list bytes) : Prop := {
  dk_nodup : NoDup doomed;
  dk_root : root ∈ doomed;
  dk_sound y : y ∈ doomed -> rtc invited root y;
  dk_closed j x y : (j < i)%nat -> doomed !! j = Some x -> invited x y -> y ∈ doomed;
}.

Lemma doom_length root i doomed : doom_ok root i doomed -> (length doomed <= S (length all))%nat.
Proof.
  intros [Hnd Hr Hs _]. assert (doomed ⊆ root :: map Member_id all) as Hsub.
  { intros y Hy. apply Hs in Hy. apply rtc_inv_r in Hy as [->|(x & _ & (m & Hm & <- & _))]; [left|].
    right. by apply list_elem_of_fmap_2. }
  apply NoDup_submseteq, submseteq_length in Hsub; [|done]. simpl in Hsub. rewrite length_map in Hsub. lia.
Qed.

Lemma doom_ok_step root i doomed x :
  doom_ok root i doomed -> doomed !! i = Some x -> doom_ok root (S i) (doom_invitees all x doomed).
Proof.
  intros [Hnd Hr Hs Hc] Hx. destruct (doom_invitees_spec x doomed Hnd) as (Hnd' & [new Hnew] & Hd).
  constructor; [done|apply Hd; by left| |].
  - intros y [Hy|Hy]%Hd; [by apply Hs|]. eapply rtc_r; [|exact Hy]. apply Hs. by eapply list_elem_of_lookup_2.
  - intros j z y Hj Hz Hy. rewrite Hnew in Hz. rewrite lookup_app_l in Hz.
    + destruct (decide (j = i)) as [->|]; [simplify_eq; apply Hd; by right|]. apply Hd. left. eapply Hc; [|done..]. lia.
    + apply lookup_lt_Some in Hx. lia.
Qed.

(** At the end of the list everything reachable is in it. *)
Lemma doom_done root i doomed :
  doom_ok root i doomed -> doomed !! i = None -> forall y, y ∈ doomed <-> rtc invited root y.
Proof.
  intros [_ Hr Hs Hc] E y. split; [apply Hs|]. revert y.
  apply rtc_ind_r; [done|]. intros y z _ Hyz Hy. apply list_elem_of_lookup in Hy as [j Hj].
  eapply Hc; [|exact Hj|exact Hyz]. apply lookup_lt_Some in Hj. apply lookup_ge_None in E. lia.
Qed.

Lemma doom_loop_spec root fuel i doomed :
  doom_ok root i doomed -> (S (length all) <= i + fuel)%nat ->
  exists result, doom_loop fuel all i doomed = Some result /\ NoDup result /\ forall y, y ∈ result <-> rtc invited root y.
Proof.
  revert i doomed. induction fuel as [|fuel IH]; intros i doomed Hok Hf;
    cbn [doom_loop]; destruct (doomed !! i) as [x|] eqn:E.
  - apply lookup_lt_Some in E. pose proof (doom_length _ _ _ Hok). lia.
  - exists doomed. split_and!; [done|apply Hok|by eapply doom_done].
  - apply IH; [by apply doom_ok_step|lia].
  - exists doomed. split_and!; [done|apply Hok|by eapply doom_done].
Qed.
End doom.

Lemma unique_count k l : unique mb_id l -> count_rows (fun m => m.(mb_id) = k) l <= 1.
Proof.
  unfold unique, count_rows. induction l as [|m l IH]; simpl; intros Hu; [done|]. apply NoDup_cons in Hu as [Hm Hu].
  rewrite filter_cons. case_decide as E; [|by apply IH]. rewrite size_cons.
  change (size (filter (fun m => mb_id m = k) l)) with (count_rows (fun m => mb_id m = k) l).
  rewrite count_rows_none; [lia|]. intros x Hx Hk. apply Hm. rewrite E, <- Hk. by apply list_elem_of_fmap_2.
Qed.

Lemma count_rows_cons_key id doomed (l : list MailboxRow) :
  id ∉ doomed ->
  count_rows (fun m => m.(mb_id) ∈ id :: doomed) l =
  count_rows (fun m => m.(mb_id) = id) l + count_rows (fun m => m.(mb_id) ∈ doomed) (delete_rows (fun m => m.(mb_id) = id) l).
Proof.
  intros Hid. unfold count_rows, delete_rows. rewrite list_filter_filter.
  induction l as [|m l IH]; [done|]. rewrite !filter_cons. pose proof (elem_of_cons doomed (mb_id m) id).
  repeat case_decide; rewrite ?size_cons; try tauto; try lia; naive_solver.
Qed.

(** What the deletions leave of the mailboxes, and how many they removed. *)
Lemma run_delete_mailboxes doomed n v s :
  unique mb_id v.(store).(mailboxes) -> NoDup doomed ->
  exists v', run (delete_mailboxes doomed n) v s = (Some (n + count_rows (fun m => m.(mb_id) ∈ doomed) v.(store).(mailboxes)), v', s) /\
    v'.(store).(mailboxes) = filter (fun m => m.(mb_id) ∉ doomed) v.(store).(mailboxes).
Proof.
  revert n v. induction doomed as [|id doomed IH]; intros n v Hu Hnd; cbn [delete_mailboxes].
  - exists v. split.
    + rewrite count_rows_none; [by rewrite Z.add_0_r|]. intros m _ Hm. by apply not_elem_of_nil in Hm.
    + symmetry. induction (mailboxes (store v)) as [|m l IHl]; [done|]. rewrite filter_cons, decide_True by (apply not_elem_of_nil).
      f_equal. apply IHl. by inversion Hu.
  - rewrite run_on_store_ret. unfold delete_mailbox. cbv zeta. set (db' := delete_mailbox_row id _). cbv iota.
    apply NoDup_cons in Hnd as [Hid Hnd].
    assert (mailboxes db' = delete_rows (fun m => mb_id m = id) (mailboxes (store v))) as Hm by done. clearbody db'.
    match goal with |- context [delete_mailboxes doomed ?n'] => set (n1 := n') end.
    destruct (IH n1 (set_store db' v)) as (v' & Hr & Hm'); [simpl; rewrite Hm; by apply unique_delete|done|].
    exists v'. rewrite Hr. cbn [set_store store] in *. rewrite Hm in *. split.
    + rewrite count_rows_cons_key by done. do 3 f_equal. unfold n1. simpl.
      pose proof (unique_count id _ Hu). pose proof (count_rows_nonneg (fun m => mb_id m = id) (mailboxes (store v))).
      clear Hr Hm'. revert H H0. generalize (count_rows (fun m => mb_id m = id) (mailboxes (store v))).
      intros c Hc1 Hc0. destruct (Z.ltb_spec 0 c); lia.
    + rewrite Hm'. unfold delete_rows. rewrite list_filter_filter. apply list_filter_iff. intros m.
      rewrite elem_of_cons. naive_solver.
Qed.

(** Removing a mailbox with everyone it invited removes exactly its
    invitation tree. The search over "invited by" ends within the rounds the model
    gives it, for any invitations, cycles included; the mailboxes that go are those
    reachable from the named one, each deleted once, every other one stays, and
    the number reported is the number of mailboxes removed. *)
Theorem remove_mailbox_tree mb v s :
  sql_ok v.(store) ->
  exists doomed v', NoDup doomed /\ (forall y, y ∈ doomed <-> rtc (invited (members v.(store))) mb y) /\
    run (remove_mailbox mb true) v s =
      (Some (Some (count_rows (fun m => m.(mb_id) ∈ doomed) v.(store).(mailboxes))), v', s) /\
    v'.(store).(mailboxes) = filter (fun m => m.(mb_id) ∉ doomed) v.(store).(mailboxes).
Proof.
  intros Hsql. unfold remove_mailbox. rewrite run_query. set (all := members (store v)).
  destruct (doom_loop_spec all mb (S (length all)) 0 [mb]) as (doomed & Hd & Hnd & Hiff); [|lia|].
  { constructor; [apply NoDup_singleton|left| |].
    - intros y Hy. apply list_elem_of_singleton in Hy as ->. apply rtc_refl.
    - intros j x y Hj. lia. }
  rewrite Hd. destruct (run_delete_mailboxes doomed 0 v s (uniq_mailboxes _ Hsql) Hnd) as (v' & Hr & Hm).
  exists doomed, v'. split_and!; [done|done| |done]. by rewrite run_bind, Hr.
Qed.

(** A mailbox, one it invited, and one it did not. *)
Definition sample_tree : DB :=
  set_mailboxes [mkMailboxRow [Byte.x01] [] 1 None; mkMailboxRow [Byte.x02] [] 2 (Some [Byte.x01]);
                 mkMailboxRow [Byte.x03] [] 3 None] empty_db.

Lemma remove_mailbox_tree_witness :
  exists (doomed : list bytes) v', [Byte.x02] ∈ doomed /\
    run (remove_mailbox [Byte.x01] true) (mkService sample_tree ∅ (Owners.mk ∅ ∅) (Disk.mk ∅ ∅ 0%nat) 0 [])
      (new_session [] 0%nat None []) =
    (Some (Some (count_rows (fun m => m.(mb_id) ∈ doomed) sample_tree.(mailboxes))), v', new_session [] 0%nat None []).
Proof.
  destruct (remove_mailbox_tree [Byte.x01] (mkService sample_tree ∅ (Owners.mk ∅ ∅) (Disk.mk ∅ ∅ 0%nat) 0 [])
    (new_session [] 0%nat None [])) as (doomed & v' & _ & Hd & Hr & _).
  { constructor; simpl; try (intros x Hx; by apply not_elem_of_nil in Hx); try apply unique_nil.
    unfold unique. simpl. apply (bool_decide_unpack _). vm_compute. exact I. }
  exists doomed, v'. split; [|exact Hr]. apply Hd, rtc_once.
  exists (mkMember [Byte.x02] 2 [Byte.x01] 0). split; [|done]. vm_compute. right. left.
Defined.

(** ** The relay's identity *)

(** The relay keeps its key. Started on storage with no key it makes one and
    stores it; started again on what it stored, with whatever new randomness, it
    has the same key pair and the same ID and says that nothing was created; with
    one file missing, or a file of the wrong size, it refuses to start and makes
    no new identity. *)
Theorem identity_persists `{PrimitiveLaws} dir seed :
  exists pub priv, load_or_create_identity dir None None seed = Ret (pub, priv, sha256 pub, true, (Some pub, Some priv)) /\
    (forall seed', load_or_create_identity dir (Some pub) (Some priv) seed' = Ret (pub, priv, sha256 pub, false, (Some pub, Some priv))) /\
    (forall seed' f, (exists w, load_or_create_identity dir (Some f) None seed' = Throw w) /\
                     (exists w, load_or_create_identity dir None (Some f) seed' = Throw w)) /\
    (forall seed' p q, size p <> sig_public_key_size \/ size q <> sig_secret_key_size ->
       exists w, load_or_create_identity dir (Some p) (Some q) seed' = Throw w).
Proof.
  exists (prim_sig_keypair seed).1, (prim_sig_keypair seed).2.
  destruct (sig_sizes seed [] [] []) as (Hp & Hs & _). unfold load_or_create_identity, generate_sig_keypair. split_and!.
  - by destruct (prim_sig_keypair seed).
  - intros seed'. by rewrite Hp, Hs, !Z.eqb_refl.
  - intros seed' f. split; by eexists.
  - intros seed' p q Hne. destruct (_ || _) eqn:E; [by eexists|]. bool_prop. by destruct Hne.
Qed.

Lemma identity_persists_witness :
  exists pub priv, load_or_create_identity "/srv/relay" None None [Byte.x07] = Ret (pub, priv, sha256 pub, true, (Some pub, Some priv)).
Proof. destruct (identity_persists "/srv/relay" [Byte.x07]) as (pub & priv & H & _). by exists pub, priv. Defined.
