(* ===== verification/RelayTransfers.v ===== *)
(** * Keyrings and attachments in chunks

    What arrives in chunks is stored whole or not at all, and comes back in
    chunks that put together are what was stored: the keyring of a mailbox, and
    the attachments, from FILE_UPLOAD_BEGIN over the chunks to a download. What a
    connection leaves behind when it ends. *)

From Stdlib Require Import ZArith Lia.
From stdpp Require Import base list strings gmap.
From S2P Require Import Prelude Threads Wire Protocol RelayProtocol RelayProtocolSpec Crypto Sql RelayStore RelayStoreInv RelayArchive RelayReach RelayStoreProps RelayState RelayService RelayConcurrent RelaySession.
#[local] Open Scope Z_scope.

(** ** Keyrings *)

(** The number of chunks of a keyring, and the chunks. *)
Definition keyring_count (blob : bytes) : Z := (size blob + KEYRING_CHUNK_BYTES - 1) / KEYRING_CHUNK_BYTES.
Definition keyring_chunk (blob : bytes) (i : Z) : KeyringChunk :=
  mkKeyringChunk (size blob) i (keyring_count blob) (piece KEYRING_CHUNK_BYTES i blob).

Section keyring.
Variable blob : bytes.
Hypothesis blob_size : 0 < size blob <= MAX_KEYRING_BYTES.

Lemma keyring_count_bounds :
  1 <= keyring_count blob <= 2 ^ 10 /\
  KEYRING_CHUNK_BYTES * (keyring_count blob - 1) < size blob <= KEYRING_CHUNK_BYTES * keyring_count blob.
Proof.
  unfold keyring_count, KEYRING_CHUNK_BYTES. unfold MAX_KEYRING_BYTES in blob_size. Zlia.
Qed.

Lemma keyring_count_code :
  u32 (u64 (u64 (size blob + KEYRING_CHUNK_BYTES) - 1) / KEYRING_CHUNK_BYTES) = keyring_count blob.
Proof.
  pose proof keyring_count_bounds as [Hc _]. unfold MAX_KEYRING_BYTES in blob_size.
  rewrite (u64_small (_ + _)), u64_small by (unfold in_u64, KEYRING_CHUNK_BYTES; lia).
  replace (size blob + KEYRING_CHUNK_BYTES - 1) with (size blob + KEYRING_CHUNK_BYTES - 1) by lia.
  rewrite u32_small; [done|]. unfold keyring_count in Hc. unfold in_u32. lia.
Qed.

Lemma keyring_piece_size i : 0 <= i < keyring_count blob ->
  0 <= i * KEYRING_CHUNK_BYTES < size blob /\
  size (piece KEYRING_CHUNK_BYTES i blob) =
    if i + 1 <? keyring_count blob then KEYRING_CHUNK_BYTES else size blob - KEYRING_CHUNK_BYTES * (keyring_count blob - 1).
Proof.
  intros Hi. pose proof keyring_count_bounds as [_ Hb]. unfold KEYRING_CHUNK_BYTES in *.
  rewrite size_piece by lia. split; [lia|]. destruct (Z.ltb_spec (i + 1) (keyring_count blob)); lia.
Qed.

(** A chunk passes the checks of the decoder. *)
Lemma keyring_chunk_wf i : 0 <= i < keyring_count blob -> wf_KeyringChunk (keyring_chunk blob i).
Proof.
  intros Hi. pose proof keyring_count_bounds as [Hc Hb]. pose proof (keyring_piece_size i Hi) as [Ho Hs].
  pose proof keyring_count_code as Hcode. unfold MAX_KEYRING_BYTES in *.
  assert (in_u32 (size blob)) by (unfold in_u32; lia).
  unfold wf_KeyringChunk, keyring_chunk. cbn [KeyringChunk_total_size KeyringChunk_index KeyringChunk_count KeyringChunk_data].
  split_and!; [done|unfold in_u32; lia|unfold in_u32; lia|unfold KEYRING_CHUNK_BYTES in *; case_match; lia|].
  unfold keyring_chunk_ok. cbn [KeyringChunk_total_size KeyringChunk_index KeyringChunk_count KeyringChunk_data].
  unfold MAX_KEYRING_BYTES. rewrite (proj2 (Z.eqb_neq _ _)), (proj2 (Z.ltb_ge _ _)), Hcode by lia.
  rewrite Z.eqb_refl, (proj2 (Z.leb_gt _ _)) by lia. cbn [negb orb]. rewrite Hs.
  rewrite (u32_small (i + 1)), (u32_small (keyring_count blob - 1)) by (unfold in_u32; lia).
  destruct (i + 1 <? _); [apply Z.eqb_refl|].
  rewrite (u64_small (KEYRING_CHUNK_BYTES * _)) by (unfold in_u64, KEYRING_CHUNK_BYTES in *; lia).
  rewrite u64_small by (unfold in_u64, KEYRING_CHUNK_BYTES in *; lia). apply Z.eqb_refl.
Qed.

(** KEYRING_GET sends the same chunks. *)
Lemma keyring_message_chunk i : 0 <= i < keyring_count blob ->
  keyring_message blob (keyring_count blob) i = (KEYRING_DATA, encode_KeyringChunk (keyring_chunk blob i)).
Proof.
  intros Hi. pose proof (keyring_piece_size i Hi) as [Ho _]. unfold MAX_KEYRING_BYTES in blob_size.
  unfold keyring_message, keyring_chunk. rewrite u32_small by (unfold in_u32; lia). do 3 f_equal.
  unfold piece. rewrite <- (ztake_min KEYRING_CHUNK_BYTES). f_equal. rewrite size_zdrop by lia. lia.
Qed.
End keyring.

Section transfers.
Context `{P : Primitives}.
Variable limits : RelayLimits.

(** The chunks of a keyring, put one after the other. *)
Fixpoint put_chunks (payloads : list bytes) (now : Z) : prog unit :=
  match payloads with
  | [] => Done tt
  | p :: ps => bind (handle_keyring_put limits p now) (fun _ => put_chunks ps now)
  end.

Definition keyring_payloads (blob : bytes) (n : Z) : list bytes :=
  map (fun i => encode_KeyringChunk (keyring_chunk blob i)) (seqZ 0 n).

(** A session in the middle of an upload: [i] chunks are in. *)
Definition keyring_at (blob : bytes) (i : Z) (s : Session) : Prop :=
  if i =? 0 then True
  else s.(keyring_upload) = mkKeyringUpload true (size blob) (keyring_count blob) i (ztake (i * KEYRING_CHUNK_BYTES) blob).

Definition keyring_rate_ok (v : Service) (mb : bytes) (now : Z) : Prop :=
  (RateLimiter.allow v.(rate) (str "keyring:" ++ hex_of mb) 20 now).1 = true.

(** One chunk in order: kept apart, or stored if it is the last. *)
Lemma put_one blob mb i now v s :
  0 < size blob <= MAX_KEYRING_BYTES -> size blob <= limits.(keyring_max_bytes) -> 0 <= i < keyring_count blob ->
  s.(mailbox) = Some mb -> s.(peer_reads) = None -> references mb_id mb v.(store).(mailboxes) = true ->
  (i = 0 -> keyring_rate_ok v mb now) -> keyring_at blob i s ->
  exists o v' s', run (handle_keyring_put limits (encode_KeyringChunk (keyring_chunk blob i)) now) v s = (o, v', s') /\
    s'.(mailbox) = Some mb /\ s'.(peer_reads) = None /\ o = Some Break /\ s'.(sent) = s.(sent) ++ [(KEYRING_PUT_OK, [])] /\
    if i + 1 <? keyring_count blob
    then v'.(store) = v.(store) /\ keyring_at blob (i + 1) s'
    else put_keyring v.(store) mb blob now = Some (tt, v'.(store)) /\ s'.(keyring_upload) = no_keyring_upload.
Proof.
  intros Hb Hmax Hi Hm Hp Href Hrate Hat. unfold handle_keyring_put.
  rewrite (proj2 (decode_keyring_chunk_spec _ (keyring_chunk blob i))) by (split; [by apply keyring_chunk_wf|done]).
  rewrite run_get, Hm. pose proof (keyring_count_bounds blob Hb) as [Hc Hbb].
  cbn [keyring_chunk KeyringChunk_total_size KeyringChunk_index KeyringChunk_count KeyringChunk_data].
  rewrite (proj2 (Z.eqb_neq (keyring_count blob) 0)) by lia.
  set (u := mkKeyringUpload true (size blob) (keyring_count blob) i (ztake (i * KEYRING_CHUNK_BYTES) blob)).
  assert (forall v0 s0, v0.(store) = v.(store) -> s0.(mailbox) = Some mb -> s0.(peer_reads) = None -> s0.(sent) = s.(sent) ->
    exists o v' s', run (add_keyring_chunk mb u (piece KEYRING_CHUNK_BYTES i blob) now) v0 s0 = (o, v', s') /\
      s'.(mailbox) = Some mb /\ s'.(peer_reads) = None /\ o = Some Break /\ s'.(sent) = s.(sent) ++ [(KEYRING_PUT_OK, [])] /\
      if i + 1 <? keyring_count blob
      then v'.(store) = v.(store) /\ keyring_at blob (i + 1) s'
      else put_keyring v.(store) mb blob now = Some (tt, v'.(store)) /\ s'.(keyring_upload) = no_keyring_upload) as Hadd.
  { intros v0 s0 Hv0 Hm0 Hp0 Hs0. unfold add_keyring_chunk, u. cbv zeta. cbn [ku_active ku_total ku_count ku_next ku_buffer].
    assert (0 <= KEYRING_CHUNK_BYTES) by done. rewrite ztake_piece, (u32_small (i + 1)) by (unfold in_u32; lia).
    rewrite run_modify, run_bind. destruct (Z.eqb_spec (i + 1) (keyring_count blob)) as [E|E].
    - rewrite run_on_store. unfold put_keyring. rewrite Hv0, Href. unfold modify. cbn [act run]. rewrite run_reply.
      unfold live. cbn [set_keyring_upload peer_reads]. rewrite Hp0. do 3 eexists. split; [reflexivity|].
      rewrite (proj2 (Z.ltb_ge _ _)) by lia. cbn. rewrite Hp0, Hs0. split_and!; try done.
      rewrite ztake_ge; [done|]. lia.
    - cbn [run]. rewrite run_reply. unfold live. cbn [set_keyring_upload peer_reads]. rewrite Hp0.
      do 3 eexists. split; [reflexivity|]. rewrite (proj2 (Z.ltb_lt _ _)) by lia. cbn. rewrite Hp0, Hs0. split_and!; try done.
      unfold keyring_at. by rewrite (proj2 (Z.eqb_neq _ _)) by lia. }
  destruct (Z.eqb_spec i 0) as [->|Hne].
  - rewrite run_rate, (Hrate eq_refl). cbn [negb]. rewrite run_modify, (proj2 (Z.ltb_ge _ _)) by done.
    by apply (Hadd (set_rate _ v)).
  - unfold keyring_at in Hat. rewrite (proj2 (Z.eqb_neq _ _)) in Hat by done. rewrite Hat.
    cbn [ku_active ku_total ku_count ku_next]. rewrite !Z.eqb_refl. cbn [negb orb]. by apply Hadd.
Qed.

Lemma put_from blob mb now (n : nat) : forall i v s,
  0 < size blob <= MAX_KEYRING_BYTES -> size blob <= limits.(keyring_max_bytes) ->
  0 <= i -> i + Z.of_nat n <= keyring_count blob -> i < keyring_count blob ->
  s.(mailbox) = Some mb -> s.(peer_reads) = None -> references mb_id mb v.(store).(mailboxes) = true ->
  (i = 0 -> keyring_rate_ok v mb now) -> keyring_at blob i s ->
  exists v' s', run (put_chunks (map (fun i => encode_KeyringChunk (keyring_chunk blob i)) (seqZ i (Z.of_nat n))) now) v s
      = (Some tt, v', s') /\ s'.(mailbox) = Some mb /\ s'.(peer_reads) = None /\
    s'.(sent) = s.(sent) ++ replicate n (KEYRING_PUT_OK, []) /\
    if i + Z.of_nat n <? keyring_count blob
    then v'.(store) = v.(store)
    else put_keyring v.(store) mb blob now = Some (tt, v'.(store)) /\ s'.(keyring_upload) = no_keyring_upload.
Proof.
  induction n as [|n IH]; intros i v s Hb Hmax Hi Hn Hlt Hm Hp Href Hrate Hat.
  - exists v, s. split_and!; [done..|by rewrite app_nil_r|]. by rewrite (proj2 (Z.ltb_lt _ _)) by lia.
  - rewrite seqZ_cons by lia. cbn [map put_chunks].
    destruct (put_one blob mb i now v s Hb Hmax ltac:(lia) Hm Hp Href Hrate Hat)
      as (o & v1 & s1 & Hr & Hm1 & Hp1 & -> & Hsent & Hres).
    rewrite run_bind, Hr. replace (Z.pred (Z.of_nat (S n))) with (Z.of_nat n) by lia.
    destruct (Z.ltb_spec (i + 1) (keyring_count blob)) as [Hl|Hl].
    + destruct Hres as [Hst Hat1].
      destruct (IH (Z.succ i) v1 s1 Hb Hmax ltac:(lia) ltac:(lia) ltac:(lia) Hm1 Hp1) as (v' & s' & Hr' & Hm' & Hp' & Hs' & Hres');
        [by rewrite Hst|lia|done|].
      exists v', s'. split_and!; [done..|by rewrite Hs', Hsent, <- app_assoc|]. rewrite Hst in Hres'.
      replace (i + Z.of_nat (S n)) with (Z.succ i + Z.of_nat n) by lia. done.
    + assert (n = 0%nat) as -> by lia. exists v1, s1. split_and!; [done..|]. by rewrite (proj2 (Z.ltb_ge _ _)) by lia.
Qed.

Lemma run_send_all msgs v s :
  s.(peer_reads) = None -> exists s', run (send_all msgs) v s = (Some true, v, s') /\ s'.(sent) = s.(sent) ++ msgs.
Proof.
  revert s. induction msgs as [|[t p] msgs IH]; intros s Hp; cbn [send_all].
  - exists s. by rewrite app_nil_r.
  - rewrite run_send. unfold live. rewrite Hp. cbn [negb].
    destruct (IH (push_sent (t, p) s)) as (s' & Hr & Hs); [unfold push_sent; cbn; by rewrite Hp|].
    exists s'. split; [done|]. rewrite Hs. unfold push_sent. cbn. by rewrite <- app_assoc.
Qed.

Lemma get_put_keyring db mb blob now db' : put_keyring db mb blob now = Some (tt, db') -> get_keyring db' mb = Some blob.
Proof.
  unfold put_keyring, get_keyring. case_match; [|done]. intros [= <-]. simpl. unfold insert_or_replace, select_first. simpl.
  rewrite filter_app. replace (filter _ (delete_rows _ _)) with (@nil KeyringRow); [by rewrite filter_cons, decide_True|].
  symmetry. apply size_zero_iff, (count_rows_none (fun k => kr_mailbox_id k = mb)). intros x Hx. by apply elem_of_delete_rows in Hx as [? _].
Qed.

(** A keyring is stored whole or not at all, and comes back as it was. For
    any keyring within the limits of the protocol and of this relay, a signed-in
    owner who puts its chunks in order has it stored exactly when the last chunk is
    in; after any smaller number of chunks the store is as it was before; and a
    following KEYRING_GET sends the very chunks that were put. *)
Theorem keyring_roundtrip blob mb now v s :
  0 < size blob <= MAX_KEYRING_BYTES -> size blob <= limits.(keyring_max_bytes) ->
  s.(mailbox) = Some mb -> s.(peer_reads) = None -> references mb_id mb v.(store).(mailboxes) = true ->
  keyring_rate_ok v mb now ->
  (forall k v' s' o, 0 <= k < keyring_count blob -> run (put_chunks (keyring_payloads blob k) now) v s = (o, v', s') ->
     v'.(store) = v.(store)) /\
  (exists v' s' s'', run (put_chunks (keyring_payloads blob (keyring_count blob)) now) v s = (Some tt, v', s') /\
     get_keyring v'.(store) mb = Some blob /\ run handle_keyring_get v' s' = (Some Break, v', s'') /\
     s''.(sent) = s'.(sent) ++ map (fun p => (KEYRING_DATA, p)) (keyring_payloads blob (keyring_count blob))).
Proof.
  intros Hb Hmax Hm Hp Href Hrate. pose proof (keyring_count_bounds blob Hb) as [Hc _]. unfold keyring_payloads. split.
  - intros k v' s' o Hk Hr.
    destruct (put_from blob mb now (Z.to_nat k) 0 v s) as (v1 & s1 & Hr1 & _ & _ & _ & Hres); try done; try lia.
    rewrite Z2Nat.id in * by lia. rewrite Hr1 in Hr. simplify_eq. by rewrite (proj2 (Z.ltb_lt _ _)) in Hres by lia.
  - destruct (put_from blob mb now (Z.to_nat (keyring_count blob)) 0 v s) as (v1 & s1 & Hr1 & Hm1 & Hp1 & _ & Hres); try done; try lia.
    rewrite Z2Nat.id in * by lia. rewrite (proj2 (Z.ltb_ge _ _)) in Hres by lia. destruct Hres as [Hput _].
    pose proof (get_put_keyring _ _ _ _ _ Hput) as Hget.
    destruct (run_send_all (map (keyring_message blob (keyring_count blob)) (seqZ 0 (keyring_count blob))) v1 s1 Hp1) as (s2 & Hr2 & Hs2).
    exists v1, s1, s2. split_and!; [done|done| |].
    + unfold handle_keyring_get. rewrite run_get, Hm1, run_query, Hget. cbv zeta. rewrite keyring_count_code by done.
      by rewrite run_bind, Hr2.
    + rewrite Hs2, map_map. f_equal. apply map_ext_in. intros i Hi. apply list_elem_of_In, elem_of_seqZ in Hi.
      apply keyring_message_chunk; [done|lia].
Qed.
End transfers.

Lemma keyring_roundtrip_witness :
  exists v' s', run (put_chunks default_limits (keyring_payloads (str "keys") (keyring_count (str "keys"))) 1000)
    ex_signed_in.1 ex_signed_in.2 = (Some tt, v', s') /\ get_keyring v'.(store) ex_mailbox = Some (str "keys").
Proof.
  destruct (keyring_roundtrip default_limits (str "keys") ex_mailbox 1000 ex_signed_in.1 ex_signed_in.2)
    as [_ (v' & s' & s'' & Hr & Hg & _)]; [vm_compute; split; [reflexivity|discriminate]|vm_compute; discriminate|vm_compute; reflexivity..|].
  exists v', s'. split; [exact Hr|exact Hg].
Defined.

(** ** Attachments: uploading *)

Lemma file_count_bounds total c count :
  wf_file_numbers total c count -> 1 <= count /\ c * (count - 1) < total <= c * count /\ count < 2 ^ 32.
Proof.
  intros ((? & ?) & (? & ?) & -> & Hsmall). unfold MAX_FILE_BYTES, MAX_FILE_CHUNK_BYTES, MIN_FILE_CHUNK_BYTES in *.
  assert (c * ((total + c - 1) / c) <= total + c - 1 < c * ((total + c - 1) / c) + c) as [Hlo Hhi].
  { pose proof (Z.div_mod (total + c - 1) c ltac:(lia)). pose proof (Z.mod_pos_bound (total + c - 1) c ltac:(lia)). lia. }
  assert (1 <= (total + c - 1) / c) by (apply Z.div_le_lower_bound; lia). split_and!; [lia|lia|lia|].
  destruct Hsmall as [Hs| ->]; [|lia]. nia.
Qed.

Lemma file_piece_size c count (data : bytes) i :
  wf_file_numbers (size data) c count -> 0 <= i < count ->
  0 <= i * c < size data /\
  size (piece c i data) = if i + 1 <? count then c else size data - c * (count - 1).
Proof.
  intros Hwf Hi. pose proof (file_count_bounds _ _ _ Hwf) as (_ & Hb & _). destruct Hwf as (_ & (Hc & _) & _).
  assert (0 <= i * c <= c * (count - 1)) by nia. rewrite size_piece by lia. split; [lia|].
  destruct (Z.ltb_spec (i + 1) count); [|assert (i = count - 1) as -> by lia; lia].
  assert (i * c + c <= c * (count - 1)) by nia. lia.
Qed.

(** The upload of [data] under [id]: [i] chunks have been written. *)
Record uploading (id data : bytes) (c count i : Z) (v : Service) (s : Session) : Prop := {
  ul_active : s.(upload).(up_active) = true;
  ul_id : s.(upload).(up_id) = id;
  ul_count : s.(upload).(up_count) = count;
  ul_next : s.(upload).(up_next) = i;
  ul_chunk : s.(upload).(up_chunk_size) = c;
  ul_total : s.(upload).(up_total) = size data;
  ul_part : s.(upload).(up_part) = file_path id ".part";
  ul_name : v.(disk).(Disk.names) !! file_path id ".part" = Some s.(upload).(up_out);
  ul_content : v.(disk).(Disk.contents) !! s.(upload).(up_out) = Some (ztake (i * c) data);
  ul_no_faults : s.(disk_faults) = [];
  ul_reads : s.(peer_reads) = None;
}.

Definition file_chunk (data : bytes) (c i : Z) : bytes := encode_RelayFileChunk (mkRelayFileChunk i (piece c i data)).

(** The size that the code expects is the size of the piece. *)
Lemma expected_size_piece id data c count i v s :
  wf_file_numbers (size data) c count -> 0 <= i < count -> uploading id data c count i v s ->
  size (piece c i data) = expected_size s.(upload).
Proof.
  intros Hwf Hi Hu. pose proof (file_piece_size c count data i Hwf Hi) as [Ho ->].
  pose proof (file_count_bounds _ _ _ Hwf) as (? & ? & ?). destruct Hwf as ((? & ?) & (? & ?) & _).
  unfold expected_size. destruct Hu as [_ _ -> -> -> -> _ _ _ _ _].
  unfold MAX_FILE_BYTES, MAX_FILE_CHUNK_BYTES in *.
  rewrite (u32_small (i + 1)), (u32_small (count - 1)) by (unfold in_u32; lia).
  assert (0 <= c * (count - 1)) by nia.
  destruct (i + 1 <? count); [done|]. rewrite (u64_small (c * _)), u64_small; [done|unfold in_u64; lia..].
Qed.

Lemma decode_file_chunk_piece c count data i :
  wf_file_numbers (size data) c count -> 0 <= i < count ->
  decode_file_chunk (file_chunk data c i) = Some (mkRelayFileChunk i (piece c i data)).
Proof.
  intros Hwf Hi. pose proof (file_piece_size c count data i Hwf Hi) as [Ho Hs].
  pose proof (file_count_bounds _ _ _ Hwf) as (? & ? & ?). destruct Hwf as (_ & (? & ?) & _).
  apply decode_file_chunk_spec. split; [|done]. split_and!; cbn [RelayFileChunk_index RelayFileChunk_data].
  - unfold in_u32. lia.
  - rewrite Hs. case_match; bool_prop; lia.
  - apply is_empty_false. rewrite Hs. case_match; bool_prop; lia.
Qed.

(** What the relay says after chunk [i]: every so many chunks, and after the last. *)
Definition chunk_ack (count i : Z) : list (MessageType * bytes) :=
  if (i + 1 =? count) || ((i + 1) mod FILE_ACK_WINDOW =? 0) then [(FILE_CHUNK_OK, write_u32 [] (i + 1))] else [].

(** One chunk in order: written, and the last one makes the file fetchable. *)
Lemma upload_one id data c count i v s :
  wf_file_numbers (size data) c count -> 0 <= i < count -> uploading id data c count i v s ->
  exists v' s', run (handle_file_chunk (file_chunk data c i)) v s = (Some Break, v', s') /\ s'.(sent) = s.(sent) ++ chunk_ack count i /\
    if i + 1 <? count
    then v'.(store) = v.(store) /\ uploading id data c count (i + 1) v' s'
    else v'.(store) = finish_file v.(store) id /\ Disk.read v'.(disk) (file_path id ".bin") = Some data /\
         s'.(upload).(up_active) = false /\ s'.(peer_reads) = None.
Proof.
  intros Hwf Hi Hu. pose proof (expected_size_piece id data c count i v s Hwf Hi Hu) as Hexp.
  pose proof (file_count_bounds _ _ _ Hwf) as (Hc1 & Hb & Hc2). pose proof Hwf as (_ & (Hc & _) & _).
  destruct Hu as [Ha Hid Hcnt Hnext Hchunk Htot Hpart Hname Hcont Hnf Hreads].
  unfold handle_file_chunk. rewrite run_get. cbv zeta. rewrite Ha. cbn [negb].
  rewrite (decode_file_chunk_piece c count) by done. cbn [RelayFileChunk_index RelayFileChunk_data].
  rewrite Hnext, Z.eqb_refl, Hexp, Z.eqb_refl. cbn [negb orb].
  rewrite run_try_disk by done. rewrite run_modify.
  rewrite (u32_small (i + 1)) by (unfold in_u32; lia). rewrite Hcnt.
  set (v1 := set_disk _ v). set (s1 := set_upload _ s).
  assert (Disk.contents (disk v1) !! up_out (upload s) = Some (ztake ((i + 1) * c) data)) as Hcont1.
  { unfold v1. cbn [set_disk disk Disk.append Disk.contents]. rewrite lookup_insert_eq, Hcont. simpl. by rewrite ztake_piece by lia. }
  assert (disk_faults s1 = []) as Hnf1 by done. assert (peer_reads s1 = None) as Hr1 by done.
  destruct (Z.eqb_spec (i + 1) count) as [E|E].
  - rewrite (proj2 (Z.ltb_ge _ _)) by lia. rewrite run_bind, run_try_disk by done.
    unfold Disk.rename. rewrite Hpart, Hid. change (Disk.names (disk v1)) with (Disk.names (disk v)). rewrite Hname. cbv iota.
    rewrite run_on_store_ret, run_modify, run_done. cbn [orb].
    rewrite run_reply. unfold live. cbn [set_upload peer_reads]. rewrite Hr1. do 2 eexists. split; [reflexivity|].
    split; [by unfold chunk_ack; rewrite (proj2 (Z.eqb_eq _ _) E)|]. split_and!; [done| |done|unfold push_sent; cbn; by rewrite Hreads].
    unfold Disk.read. cbn [set_store set_disk disk Disk.names Disk.contents]. rewrite lookup_insert_eq.
    rewrite Hcont1. simpl. rewrite ztake_ge by lia. done.
  - rewrite (proj2 (Z.ltb_lt _ _)) by lia. rewrite run_bind, run_done. cbn [orb].
    unfold chunk_ack. rewrite (proj2 (Z.eqb_neq _ _) E). cbn [orb]. destruct (_ =? 0).
    + rewrite run_reply. unfold live. rewrite Hr1. do 2 eexists. split; [reflexivity|]. split; [done|]. split; [done|].
      constructor; cbn; rewrite ?Hreads; try done.
    + rewrite run_done. do 2 eexists. split; [reflexivity|]. split; [by rewrite app_nil_r|]. split; [done|]. constructor; cbn; try done.
Qed.

(** The chunks of a file, one after the other. *)
Fixpoint upload_chunks (payloads : list bytes) : prog unit :=
  match payloads with
  | [] => Done tt
  | p :: ps => bind (handle_file_chunk p) (fun _ => upload_chunks ps)
  end.

Definition file_payloads (data : bytes) (c n : Z) : list bytes := map (file_chunk data c) (seqZ 0 n).

Lemma upload_from id data c count (n : nat) : forall i v s,
  wf_file_numbers (size data) c count -> 0 <= i -> i + Z.of_nat n <= count -> i < count -> uploading id data c count i v s ->
  exists v' s', run (upload_chunks (map (file_chunk data c) (seqZ i (Z.of_nat n)))) v s = (Some tt, v', s') /\
    s'.(sent) = s.(sent) ++ concat (map (chunk_ack count) (seqZ i (Z.of_nat n))) /\
    if i + Z.of_nat n <? count
    then v'.(store) = v.(store) /\ s'.(upload).(up_active) = true
    else v'.(store) = finish_file v.(store) id /\ Disk.read v'.(disk) (file_path id ".bin") = Some data /\
         s'.(upload).(up_active) = false /\ s'.(peer_reads) = None.
Proof.
  induction n as [|n IH]; intros i v s Hwf Hi Hn Hlt Hu.
  - exists v, s. split; [done|]. rewrite (proj2 (Z.ltb_lt _ _)) by lia. split; [by rewrite app_nil_r|]. split; [done|apply Hu].
  - rewrite seqZ_cons by lia. cbn [map concat upload_chunks].
    destruct (upload_one id data c count i v s Hwf ltac:(lia) Hu) as (v1 & s1 & Hr & Hsent & Hres).
    rewrite run_bind, Hr. replace (Z.pred (Z.of_nat (S n))) with (Z.of_nat n) by lia.
    destruct (Z.ltb_spec (i + 1) count) as [Hl|Hl].
    + destruct Hres as [Hst Hu1].
      destruct (IH (Z.succ i) v1 s1 Hwf ltac:(lia) ltac:(lia) ltac:(lia) Hu1) as (v' & s' & Hr' & Hs' & Hres').
      exists v', s'. split; [done|]. split; [by rewrite Hs', Hsent, <- app_assoc|]. rewrite Hst in Hres'.
      replace (i + Z.of_nat (S n)) with (Z.succ i + Z.of_nat n) by lia. done.
    + assert (n = 0%nat) as -> by lia. exists v1, s1. split; [done|]. split; [by rewrite Hsent, app_nil_r|].
      by rewrite (proj2 (Z.ltb_ge _ _)) by lia.
Qed.

(** Ending an upload: its file is gone, its record too. *)
Definition without_upload (v : Service) (s : Session) : Service :=
  if s.(upload).(up_active)
  then set_store (delete_file v.(store) s.(upload).(up_id) []).2
         (set_disk (Disk.remove v.(disk) s.(upload).(up_part)) v)
  else v.

Lemma run_abort_upload {B} (k : unit -> prog B) v s :
  run (bind abort_upload k) v s =
  run (k tt) (without_upload v s) (if s.(upload).(up_active) then set_upload (set_inactive s.(upload)) s else s).
Proof.
  unfold abort_upload, without_upload. rewrite run_bind, run_get. destruct (up_active (upload s)); cbn [negb]; [|done].
  rewrite run_disk, run_on_store_ret. cbn [fst snd set_disk store]. by destruct (delete_file _ _ _).
Qed.

Section attachments.
Context `{P : Primitives}.
Variable limits : RelayLimits.

Lemma after_error_last text s : s.(peer_reads) = None -> last (after_error text s).(sent) = Some (ERROR_MSG, text).
Proof. intros Hp. unfold after_error, live. rewrite Hp. unfold push_sent. cbn. apply last_snoc. Qed.

(** A refusal is not the reply that was asked for. *)
Ltac refused H Hl :=
  rewrite ?run_refuse, ?run_refuse_text, ?run_hang_up in H; simplify_eq/=; rewrite after_error_last in Hl by done; done.

(** What an accepted FILE_UPLOAD_BEGIN sets up. *)
Lemma begin_accepted payload now v s v1 s1 :
  run (handle_file_begin limits payload now) v s = (Some Break, v1, s1) -> last s1.(sent) = Some (FILE_UPLOAD_OK, []) ->
  s.(disk_faults) = [] -> s.(peer_reads) = None ->
  exists m mb, decode_file_begin payload = Some m /\ s.(mailbox) = Some mb /\
    begin_file (without_upload v s).(store) mb m.(FileBegin_file_id) m.(FileBegin_total_size) m.(FileBegin_chunk_size)
      m.(FileBegin_chunk_count) (i64 m.(FileBegin_expires_at)) m.(FileBegin_token_hashes) now limits.(attachment_quota_bytes)
      = Some (Begin_Ok, v1.(store)) /\
    now + 60 <= i64 m.(FileBegin_expires_at) <= now + limits.(attachment_max_seconds) /\
    m.(FileBegin_total_size) <= limits.(max_attachment_bytes) /\
    s1.(sent) = s.(sent) ++ [(FILE_UPLOAD_OK, [])] /\
    forall data, size data = m.(FileBegin_total_size) ->
      uploading m.(FileBegin_file_id) data m.(FileBegin_chunk_size) m.(FileBegin_chunk_count) 0 v1 s1.
Proof.
  intros H Hl Hnf Hp. unfold handle_file_begin in H. rewrite run_get in H.
  destruct (mailbox s) as [mb|]; [|refused H Hl]. destruct (decode_file_begin payload) as [m|]; [|refused H Hl].
  rewrite run_abort_upload in H. set (s0 := if up_active (upload s) then _ else s) in H.
  assert (disk_faults s0 = [] /\ peer_reads s0 = None /\ sent s0 = sent s) as (Hnf0 & Hp0 & Hs0) by (unfold s0; by destruct (up_active _)).
  clearbody s0. rewrite run_rate in H. case_match; [refused H Hl|].
  destruct (_ <? FileBegin_total_size m) eqn:Emax; [refused H Hl|]. cbv zeta in H.
  destruct (_ || _) eqn:Eexp; [refused H Hl|]. bool_prop. rewrite run_on_store in H. cbn [set_rate store] in H.
  destruct (begin_file _ _ _ _ _ _ _ _ _ _) as [[r db]|] eqn:Eb; [|done]. destruct r; [|refused H Hl..].
  rewrite run_modify, run_try_disk in H by done. cbn [set_store set_rate disk] in H.
  destruct (Disk.create (disk (without_upload v s)) (file_path (FileBegin_file_id m) ".part")) as [i d] eqn:Ec.
  rewrite run_modify, run_reply in H. unfold live in H. cbn [set_upload peer_reads] in H. rewrite Hp0 in H.
  assert (Disk.names d !! file_path (FileBegin_file_id m) ".part" = Some i /\ Disk.contents d !! i = Some []) as [Hn Hc].
  { unfold Disk.create in Ec. case_match eqn:En; simplify_eq; cbn; rewrite ?lookup_insert_eq; by split. }
  exists m, mb. simplify_eq. split_and!; try done; try lia; [unfold push_sent; cbn; by rewrite Hs0|].
  intros data Hd. constructor; cbn; by rewrite ?Hp0.
Qed.

(** The record of a file that was begun, and then finished. *)
Lemma begin_file_row db mb id total c count e hs now q db' :
  0 <= total < 2 ^ 63 ->
  begin_file db mb id total c count e hs now q = Some (Begin_Ok, db') ->
  select_first (fun f => f.(file_id) = id) db'.(files) = Some (mkFileRow id mb total c count e now false) /\
  select_first (fun f => f.(file_id) = id) (finish_file db' id).(files) = Some (mkFileRow id mb total c count e now true).
Proof.
  intros Ht H. unfold begin_file, insert_file in H. store_cases.
  match goal with Hf : fold_db _ _ _ = Some _ |- _ => apply insert_file_tokens_frame in Hf as -> end. cbn [set_file_tokens set_files files].
  match goal with He : exists_row _ _ = false |- _ => rename He into Hex end. rewrite exists_row_false in Hex.
  assert (filter (fun f => file_id f = id) (files db) = []) as Hnil.
  { apply size_zero_iff, (count_rows_none (fun f => file_id f = id)). done. }
  rewrite i64_small by (unfold in_i64; lia). unfold select_first, finish_file. cbn [set_files files]. split.
  - by rewrite filter_app, Hnil, filter_cons, decide_True.
  - unfold update_rows. rewrite filter_map_key by (intros x; by case_decide).
    rewrite filter_app, Hnil, filter_cons, decide_True by done. simpl. by rewrite decide_True.
Qed.

(** The whole file: what is stored then, and what the relay said. *)
Lemma upload_whole payload now v s v1 s1 m data :
  run (handle_file_begin limits payload now) v s = (Some Break, v1, s1) -> last s1.(sent) = Some (FILE_UPLOAD_OK, []) ->
  s.(disk_faults) = [] -> s.(peer_reads) = None -> decode_file_begin payload = Some m -> size data = m.(FileBegin_total_size) ->
  let id := m.(FileBegin_file_id) in
  let c := m.(FileBegin_chunk_size) in
  let count := m.(FileBegin_chunk_count) in
  exists v2 s2, run (upload_chunks (file_payloads data c count)) v1 s1 = (Some tt, v2, s2) /\
    Disk.read v2.(disk) (file_path id ".bin") = Some data /\ s2.(upload).(up_active) = false /\ s2.(peer_reads) = None /\
    s2.(sent) = s1.(sent) ++ concat (map (chunk_ack count) (seqZ 0 count)) /\
    exists mb, s.(mailbox) = Some mb /\
      select_first (fun f => f.(file_id) = id) v2.(store).(files)
      = Some (mkFileRow id mb (size data) c count (i64 m.(FileBegin_expires_at)) now true).
Proof.
  intros H Hl Hnf Hp Hm Hd. destruct (begin_accepted _ _ _ _ _ _ H Hl Hnf Hp) as (m' & mb & Hm' & Hmb & Hbegin & _ & _ & _ & Hup).
  rewrite Hm in Hm'. simplify_eq. pose proof Hm as Hwf. apply decode_file_begin_spec in Hwf as [(_ & _ & _ & _ & _ & Hwf & _) _].
  specialize (Hup data Hd). rewrite <- Hd in *. pose proof (file_count_bounds _ _ _ Hwf) as (Hc & _).
  assert (0 <= size data < 2 ^ 63) as Ht by (destruct Hwf as ((? & ?) & _); unfold MAX_FILE_BYTES in *; lia).
  destruct (begin_file_row _ _ _ _ _ _ _ _ _ _ _ Ht Hbegin) as [Hrow0 Hrow1]. cbv zeta. unfold file_payloads.
  destruct (upload_from (FileBegin_file_id m') data _ _ (Z.to_nat (FileBegin_chunk_count m')) 0 v1 s1 Hwf) as (v2 & s2 & Hr & Hsent & Hres); try done; try lia.
  rewrite Z2Nat.id in * by lia. rewrite (proj2 (Z.ltb_ge _ _)) in Hres by lia. destruct Hres as (Hst & Hread & Hact & Hpr).
  exists v2, s2. split_and!; [done..|]. exists mb. split; [done|]. by rewrite Hst.
Qed.

(** An upload stores the file as it was sent, and nothing can be fetched
    before it is complete. After a FILE_UPLOAD_BEGIN that was accepted for [m], a
    client that sends the chunks of a file of the announced size in order has,
    when the disk does not fail, exactly those bytes under the file's name and its
    record marked ready with the announced numbers when the last chunk is in;
    after any smaller number of chunks the record is as it was begun, not ready. *)
Theorem upload_stores_file payload now v s v1 s1 m data :
  run (handle_file_begin limits payload now) v s = (Some Break, v1, s1) -> last s1.(sent) = Some (FILE_UPLOAD_OK, []) ->
  s.(disk_faults) = [] -> s.(peer_reads) = None -> decode_file_begin payload = Some m -> size data = m.(FileBegin_total_size) ->
  let id := m.(FileBegin_file_id) in
  let c := m.(FileBegin_chunk_size) in
  let count := m.(FileBegin_chunk_count) in
  (forall k, 0 <= k < count -> exists v2 s2, run (upload_chunks (file_payloads data c k)) v1 s1 = (Some tt, v2, s2) /\
     exists f, select_first (fun f => f.(file_id) = id) v2.(store).(files) = Some f /\ f.(file_ready) = false) /\
  (exists v2 s2, run (upload_chunks (file_payloads data c count)) v1 s1 = (Some tt, v2, s2) /\
     Disk.read v2.(disk) (file_path id ".bin") = Some data /\ s2.(upload).(up_active) = false /\
     exists mb, s.(mailbox) = Some mb /\
       select_first (fun f => f.(file_id) = id) v2.(store).(files)
       = Some (mkFileRow id mb (size data) c count (i64 m.(FileBegin_expires_at)) now true)).
Proof.
  intros H Hl Hnf Hp Hm Hd. destruct (begin_accepted _ _ _ _ _ _ H Hl Hnf Hp) as (m' & mb & Hm' & Hmb & Hbegin & _ & _ & _ & Hup).
  rewrite Hm in Hm'. simplify_eq. pose proof Hm as Hwf. apply decode_file_begin_spec in Hwf as [(_ & _ & _ & _ & _ & Hwf & _) _].
  specialize (Hup data Hd). rewrite <- Hd in *. pose proof (file_count_bounds _ _ _ Hwf) as (Hc & _).
  assert (0 <= size data < 2 ^ 63) as Ht by (destruct Hwf as ((? & ?) & _); unfold MAX_FILE_BYTES in *; lia).
  destruct (begin_file_row _ _ _ _ _ _ _ _ _ _ _ Ht Hbegin) as [Hrow0 Hrow1]. cbv zeta. unfold file_payloads. split.
  - intros k Hk. destruct (upload_from (FileBegin_file_id m') data _ _ (Z.to_nat k) 0 v1 s1 Hwf) as (v2 & s2 & Hr & _ & Hres); try done; try lia.
    rewrite Z2Nat.id in * by lia. rewrite (proj2 (Z.ltb_lt _ _)) in Hres by lia. exists v2, s2. split; [done|].
    destruct Hres as [-> _]. by eexists.
  - destruct (upload_whole payload now v s v1 s1 m' data H Hl Hnf Hp Hm ltac:(done)) as (v2 & s2 & Hr & Hread & Hact & _ & _ & Hrow).
    exists v2, s2. split_and!; [done..|]. exact Hrow.
Qed.

(** ** Attachments: downloading *)

Definition data_message (data : bytes) (c i : Z) : MessageType * bytes := (FILE_DATA, file_chunk data c i).

Lemma run_send_chunks inode data c count (n : nat) : forall i v s,
  wf_file_numbers (size data) c count -> 0 <= i -> i + Z.of_nat n = count ->
  v.(disk).(Disk.contents) !! inode = Some data -> s.(peer_reads) = None ->
  exists s', run (send_chunks inode (size data) c i n) v s = (Some (Some true), v, s') /\ s'.(peer_reads) = None /\
    s'.(sent) = s.(sent) ++ map (data_message data c) (seqZ i (Z.of_nat n)).
Proof.
  induction n as [|n IH]; intros i v s Hwf Hi Hn Hc Hp; cbn [send_chunks]; cbv zeta.
  - exists s. rewrite run_done. split_and!; [done..|]. by rewrite app_nil_r.
  - pose proof (file_piece_size c count data i Hwf ltac:(lia)) as [Ho _].
    pose proof Hwf as ((_ & Hmax) & (Hc1 & Hc2) & _). unfold MAX_FILE_BYTES, MAX_FILE_CHUNK_BYTES in *.
    rewrite (u64_small (i * c)), u64_small by (unfold in_u64; lia).
    rewrite run_disk. cbn [fst snd]. rewrite Hc. cbn [from_option]. unfold id.
    assert (ztake (Z.min c (size data - i * c)) (zdrop (i * c) data) = piece c i data) as ->.
    { unfold piece. rewrite <- (ztake_min c), size_zdrop by lia. done. }
    rewrite size_piece, Z.eqb_refl by lia. cbn [negb]. rewrite run_send. unfold live. rewrite Hp. cbn [negb].
    assert (set_disk (disk v) v = v) as -> by (by destruct v).
    destruct (IH (i + 1) v (push_sent (FILE_DATA, encode_RelayFileChunk (mkRelayFileChunk i (piece c i data))) s) Hwf)
      as (s' & Hr & Hp' & Hs); [lia|lia|done|unfold push_sent; cbn; by rewrite Hp|].
    exists s'. split_and!; [done..|]. rewrite Hs. unfold push_sent. cbn [set_peer_reads set_sent sent].
    rewrite (seqZ_cons i (Z.of_nat (S n))) by lia. cbn [map]. rewrite <- app_assoc. replace (Z.pred (Z.of_nat (S n))) with (Z.of_nat n) by lia. done.
Qed.

(** The pieces from number [i] on, put together. *)
Lemma pieces_concat {A} (data : list A) c (n : nat) : forall i, 0 <= c -> 0 <= i -> size data <= (i + Z.of_nat n) * c ->
  concat (map (fun i => piece c i data) (seqZ i (Z.of_nat n))) = zdrop (i * c) data.
Proof.
  induction n as [|n IH]; intros i Hc Hi Hs.
  - simpl. symmetry. apply size_zero_iff. unfold zdrop, size in *. rewrite length_drop. lia.
  - rewrite seqZ_cons by lia. cbn [map concat]. replace (Z.pred (Z.of_nat (S n))) with (Z.of_nat n) by lia.
    rewrite IH by lia. unfold piece. replace (Z.succ i * c) with (i * c + c) by lia.
    rewrite <- zdrop_zdrop by lia. apply ztake_zdrop.
Qed.

(** All that a download sends. *)
Lemma download_whole m f data now v s :
  wf_FileDownload m -> s.(peer_reads) = None ->
  (RateLimiter.allow v.(rate) (str "file-dl:" ++ s.(peer_ip)) limits.(rate_limit_per_minute) now).1 = true ->
  check_file_token v.(store) m.(FileDownload_file_id) (sha256 m.(FileDownload_token)) now = Check_Ok ->
  select_first (fun f => f.(file_id) = m.(FileDownload_file_id)) v.(store).(files) = Some f ->
  wf_file_numbers f.(file_total_size) f.(file_chunk_size) f.(file_chunk_count) ->
  0 <= m.(FileDownload_from_chunk) < f.(file_chunk_count) ->
  Disk.read v.(disk) (file_path m.(FileDownload_file_id) ".bin") = Some data -> size data = f.(file_total_size) ->
  let c := f.(file_chunk_size) in
  let chunks := seqZ m.(FileDownload_from_chunk) (f.(file_chunk_count) - m.(FileDownload_from_chunk)) in
  exists v' s', run (handle_file_download limits (encode_FileDownload m) now) v s = (Some Break, v', s') /\
    v'.(store) = v.(store) /\
    s'.(sent) = s.(sent) ++ [(FILE_INFO, encode_FileInfo (mkFileInfo f.(file_total_size) c f.(file_chunk_count) (u64 f.(file_expires_at))))]
                ++ map (data_message data c) chunks ++ [(FILE_DOWNLOAD_END, [])] /\
    concat (map (fun i => piece c i data) chunks) = zdrop (m.(FileDownload_from_chunk) * c) data.
Proof.
  intros Hm Hp Hrate Hcheck Hsel Hwf Hfrom Hread Hsize. cbv zeta.
  pose proof (file_count_bounds _ _ _ Hwf) as (Hc1 & Hcb & Hc2).
  unfold handle_file_download. rewrite (proj2 (decode_file_download_spec _ m)) by done.
  rewrite run_get, run_rate, Hrate. cbn [negb]. rewrite run_query. cbn [set_rate store]. rewrite Hcheck.
  rewrite run_query. cbn [set_rate store]. unfold file. rewrite Hsel.
  cbn [FileMeta_chunk_count FileMeta_total_size FileMeta_chunk_size FileMeta_expires_at].
  assert (u32 (file_chunk_count f) = file_chunk_count f /\ u32 (file_chunk_size f) = file_chunk_size f /\
          u64 (file_total_size f) = file_total_size f) as (-> & -> & ->).
  { destruct Hwf as ((? & ?) & (? & ?) & _). unfold MAX_FILE_BYTES, MAX_FILE_CHUNK_BYTES in *.
    rewrite !u32_small, u64_small by (unfold in_u32, in_u64; lia). done. }
  rewrite (proj2 (Z.leb_gt _ _)) by lia. rewrite run_disk. cbn [fst snd set_rate disk].
  unfold Disk.read in Hread. destruct (Disk.names (disk v) !! _) as [inode|] eqn:En; [|done]. injection Hread as Hread.
  rewrite run_send. unfold live. rewrite Hp. cbn [negb]. rewrite run_bind.
  set (v1 := set_disk (disk v) _). set (s1 := push_sent _ s).
  assert (Disk.contents (disk v1) !! inode = Some data \/ data = []) as [Hcont|Hnil].
  { unfold v1. cbn. destruct (Disk.contents (disk v) !! inode); simpl in Hread; [left; congruence|by right]. }
  - destruct (run_send_chunks inode data (file_chunk_size f) (file_chunk_count f)
      (Z.to_nat (file_chunk_count f - FileDownload_from_chunk m)) (FileDownload_from_chunk m) v1 s1) as (s2 & Hr & Hp2 & Hs2);
      [by rewrite Hsize|lia|lia|done|unfold s1, push_sent; cbn; by rewrite Hp|].
    rewrite <- Hsize, Hr, run_reply. unfold live. rewrite Hp2. do 2 eexists. split; [reflexivity|]. split_and!.
    + done.
    + unfold push_sent at 1. cbn [set_peer_reads set_sent sent]. rewrite Hs2, Z2Nat.id by lia.
      unfold s1, push_sent. cbn [set_peer_reads set_sent sent]. by rewrite Hsize, <- !app_assoc.
    + rewrite <- (Z2Nat.id (file_chunk_count f - _)) by lia. destruct Hwf as (_ & (? & _) & _).
      rewrite pieces_concat; [done|lia|lia|]. rewrite Z2Nat.id by lia. lia.
  - pose proof (f_equal size Hnil) as E. rewrite size_nil in E. destruct Hwf as ((? & _) & _). lia.
Qed.

(** A download sends the file. With a token that is good for it, for a file
    whose stored bytes have the recorded size, a FILE_DOWNLOAD from chunk [from]
    answers with the file's numbers, then the chunks from [from] to the last in
    order, each with its number and its bytes, then the end; put together they are
    the file from that chunk on, so a download that was broken off can be resumed
    at any chunk. The store is not changed: only a redemption spends the token. *)
Theorem download_sends_file m f data now v s :
  wf_FileDownload m -> s.(peer_reads) = None ->
  (RateLimiter.allow v.(rate) (str "file-dl:" ++ s.(peer_ip)) limits.(rate_limit_per_minute) now).1 = true ->
  check_file_token v.(store) m.(FileDownload_file_id) (sha256 m.(FileDownload_token)) now = Check_Ok ->
  select_first (fun f => f.(file_id) = m.(FileDownload_file_id)) v.(store).(files) = Some f ->
  wf_file_numbers f.(file_total_size) f.(file_chunk_size) f.(file_chunk_count) ->
  0 <= m.(FileDownload_from_chunk) < f.(file_chunk_count) ->
  Disk.read v.(disk) (file_path m.(FileDownload_file_id) ".bin") = Some data -> size data = f.(file_total_size) ->
  let c := f.(file_chunk_size) in
  let chunks := seqZ m.(FileDownload_from_chunk) (f.(file_chunk_count) - m.(FileDownload_from_chunk)) in
  exists v' s', run (handle_file_download limits (encode_FileDownload m) now) v s = (Some Break, v', s') /\
    v'.(store) = v.(store) /\
    s'.(sent) = s.(sent) ++ [(FILE_INFO, encode_FileInfo (mkFileInfo f.(file_total_size) c f.(file_chunk_count) (u64 f.(file_expires_at))))]
                ++ map (data_message data c) chunks ++ [(FILE_DOWNLOAD_END, [])] /\
    concat (map (fun i => piece c i data) chunks) = zdrop (m.(FileDownload_from_chunk) * c) data.
Proof. apply download_whole. Qed.
End attachments.

(** ** The end of a session *)

(** A connection that ends leaves nothing half done. However a session ends
    (closed by either side, replaced, refused, or by an exception), when its
    guards have run no upload is in progress: an upload that was not complete is
    gone with its record and its partial file, other files and the store otherwise
    are untouched; and the session no longer holds the owner's place of its mailbox,
    while a connection that has replaced it keeps it. *)
Theorem session_end_cleans v s :
  exists v' s', run session_guards v s = (Some tt, v', s') /\ s'.(upload).(up_active) = false /\
    (s.(upload).(up_active) = true ->
       (forall f, f ∈ v'.(store).(files) <-> f ∈ v.(store).(files) /\ f.(file_id) <> s.(upload).(up_id)) /\
       Disk.read v'.(disk) s.(upload).(up_part) = None) /\
    (s.(upload).(up_active) = false -> v'.(store) = v.(store) /\ v'.(disk) = v.(disk)) /\
    (forall mb, s.(mailbox) = Some mb -> s.(is_owner) = true ->
       forall key k, v'.(owners).(Owners.slots) !! key = Some k <->
         v.(owners).(Owners.slots) !! key = Some k /\ ~ (key = bytes_to_hex mb /\ k = s.(kick))).
Proof.
  unfold session_guards. rewrite run_bind.
  assert (exists v1, run release v s = (Some tt, v1, s) /\ v1.(store) = v.(store) /\ v1.(disk) = v.(disk) /\
    (forall mb, s.(mailbox) = Some mb -> s.(is_owner) = true -> v1.(owners) = Owners.release_owner v.(owners) mb s.(kick)))
    as (v1 & Hr & Hst & Hdk & Hown).
  { unfold release. rewrite run_get. destruct (mailbox s) as [mb|]; [|by exists v].
    destruct (is_owner s); [|by exists v]. eexists. split; [reflexivity|]. split_and!; [done..|]. by intros ? [= ->] _. }
  rewrite Hr.
  assert (run abort_upload v1 s = (Some tt, without_upload v1 s,
    if s.(upload).(up_active) then set_upload (set_inactive s.(upload)) s else s)) as Ha.
  { pose proof (run_abort_upload (fun _ => Done tt) v1 s) as E. rewrite run_bind in E.
    unfold abort_upload in *. rewrite run_get in *. destruct (up_active (upload s)); cbn [negb] in *; [|done].
    rewrite run_disk, run_on_store_ret in *. cbn [fst snd set_disk store] in *. by destruct (delete_file _ _ _). }
  rewrite Ha. do 2 eexists. split; [reflexivity|]. unfold without_upload.
  destruct (up_active (upload s)) eqn:E; split_and!; try done.
  - intros _. split.
    + intros f. cbn [set_store store]. rewrite Hst. unfold delete_file. cbn [snd].
      change (files (delete_files ?P ?db)) with (delete_rows P (files db)). rewrite elem_of_delete_rows. tauto.
    + unfold Disk.read. cbn. by rewrite lookup_delete_eq.
  - intros mb Hmb Hio key k. cbn [set_store set_disk owners]. rewrite (Hown mb Hmb Hio). unfold Owners.release_owner.
    case_decide as Hd; cbn [Owners.slots]; [rewrite lookup_delete_Some|]; naive_solver.
  - intros mb Hmb Hio key k. rewrite (Hown mb Hmb Hio). unfold Owners.release_owner.
    case_decide as Hd; cbn [Owners.slots]; [rewrite lookup_delete_Some|]; naive_solver.
Qed.

(** ** The relay of [RelaySession], storing and sending a file *)

Lemma run_eta {A} (r : option A * Service * Session) a : r.1.1 = Some a -> r = (Some a, r.1.2, r.2).
Proof. destruct r as [[o v] s]. simpl. by intros ->. Qed.

Definition ex_file : bytes := replicate 16 Byte.x61.
Definition ex_file_token : bytes := replicate 32 Byte.x62.
Definition ex_begin : FileBegin := mkFileBegin ex_file 5 5 1 4600 [sha256 ex_file_token].
Definition ex_begun : option flow * Service * Session :=
  run (handle_file_begin default_limits (encode_FileBegin ex_begin) 1000) ex_signed_in.1 ex_signed_in.2.

Lemma upload_stores_file_witness :
  exists v2 s2, run (upload_chunks (file_payloads (str "hello") 5 1)) ex_begun.1.2 ex_begun.2 = (Some tt, v2, s2) /\
    Disk.read v2.(disk) (file_path ex_file ".bin") = Some (str "hello").
Proof.
  destruct (upload_stores_file default_limits (encode_FileBegin ex_begin) 1000 ex_signed_in.1 ex_signed_in.2
    ex_begun.1.2 ex_begun.2 ex_begin (str "hello")) as [_ (v2 & s2 & Hr & Hread & _)].
  - apply run_eta. vm_compute. reflexivity.
  - vm_compute. reflexivity.
  - vm_compute. reflexivity.
  - vm_compute. reflexivity.
  - vm_compute. reflexivity.
  - vm_compute. reflexivity.
  - exists v2, s2. split; [exact Hr|exact Hread].
Defined.

Definition ex_stored : option unit * Service * Session :=
  run (upload_chunks (file_payloads (str "hello") 5 1)) ex_begun.1.2 ex_begun.2.
Definition ex_download : FileDownload := mkFileDownload ex_file ex_file_token 0.

Lemma download_sends_file_witness :
  exists v' s', run (handle_file_download default_limits (encode_FileDownload ex_download) 1000) ex_stored.1.2 ex_session
    = (Some Break, v', s') /\ length s'.(sent) = 3%nat.
Proof.
  destruct (download_sends_file default_limits ex_download (mkFileRow ex_file ex_mailbox 5 5 1 4600 1000 true) (str "hello") 1000
    ex_stored.1.2 ex_session) as (v' & s' & Hr & _ & Hs & _).
  - split_and!; vm_compute; intuition discriminate.
  - reflexivity.
  - vm_compute. reflexivity.
  - vm_compute. reflexivity.
  - vm_compute. reflexivity.
  - split_and!; vm_compute; try intuition discriminate.
  - vm_compute. intuition discriminate.
  - vm_compute. reflexivity.
  - vm_compute. reflexivity.
  - exists v', s'. split; [exact Hr|]. rewrite Hs. reflexivity.
Defined.
