(* ===== verification/RelayLink.v ===== *)
(** * A client and a relay on one connection

    The requests of [RelayClient] run against the session of [RelayService]: given
    what the relay sends, the client sends what the relay was given. The socket of
    the one is the log of the other, so these are statements about both programs at
    once, about keyrings and about files; [RelaySignIn] has what comes before. *)

From Stdlib Require Import ZArith Lia.
From stdpp Require Import base list strings gmap.
From S2P Require Import Prelude Threads Wire Text Protocol RelayProtocol RelayProtocolSpec Crypto RelayClient Sql RelayStore RelayStoreInv RelayArchive RelayReach RelayState RelayService RelayConcurrent RelaySession RelayTransfers.
#[local] Open Scope Z_scope.
#[local] Open Scope prog_scope.

(** ** The client on a connection that stays up *)

(** A client whose socket has these messages to come and has sent those. *)
Definition on (ins out : list (MessageType * bytes)) (c : Client.RelayClient) : Client.RelayClient :=
  Client.set_sock (Some (Client.mkSocket ins None out)) c.

Lemma on_on ins out ins' out' c : on ins out (on ins' out' c) = on ins out c.
Proof. done. Qed.

Lemma ask_on t p expected r ins out c :
  Client.ask t p expected (on ((expected, r) :: ins) out c) = (inr r, on ins (out ++ [(t, p)]) c).
Proof.
  unfold Client.ask, Client.cbind, Client.send_request. simpl. unfold Client.read_reply, Client.read_reply_either, Client.cbind. simpl.
  by rewrite bool_decide_true.
Qed.

Lemma send_on t p ins out c : Client.send_request t p (on ins out c) = (inr tt, on ins (out ++ [(t, p)]) c).
Proof. done. Qed.

Lemma reply_on expected r ins out c : Client.read_reply expected (on ((expected, r) :: ins) out c) = (inr r, on ins out c).
Proof. unfold Client.read_reply, Client.read_reply_either, Client.cbind. simpl. by rewrite bool_decide_true. Qed.

(** ** The relay's loop, one request after another *)

Section loop.
Context `{P : Primitives}.
Variable limits : RelayLimits.
Variable relay_id : bytes.

Definition bystanders (v : Service) (s : Session) : bool * nat * Z * Owners.t := (s.(collecting), s.(kick), v.(clock), v.(owners)).
Definition keeps_calm (R : Type) (f : action R) : Prop :=
  forall v s r v' s', f v s = Some (r, v', s') -> bystanders v' s' = bystanders v s.

Lemma run_keeps_calm {A} (p : prog A) v s o v' s' : acts keeps_calm p -> run p v s = (o, v', s') -> bystanders v' s' = bystanders v s.
Proof.
  revert v s. induction p as [a|R f k IH]; intros v s; simpl; [by intros _ [= <- <- <-]|]. intros [Hf Hk].
  destruct (f v s) as [[[r v1] s1]|] eqn:E; [|by intros [= <- <- <-]]. intros H.
  rewrite (IH _ _ _ (Hk r) H). by eapply Hf.
Qed.

Section keep.
Context {R : Type}.
Lemma calm_on_store (f : DB -> option (R * DB)) : acts keeps_calm (on_store f).
Proof. one_action. Qed.
Lemma calm_on_store_ret (f : DB -> R * DB) : acts keeps_calm (on_store_ret f).
Proof. apply calm_on_store. Qed.
Lemma calm_query (f : DB -> R) : acts keeps_calm (query f).
Proof. one_action. Qed.
Lemma calm_disk (f : Disk.t -> R * Disk.t) : acts keeps_calm (on_disk f).
Proof. one_action. Qed.
Lemma calm_try_disk (f : Disk.t -> option (R * Disk.t)) : acts keeps_calm (try_disk f).
Proof. one_action. Qed.
Lemma calm_rate key limit now : acts keeps_calm (rate_allow key limit now).
Proof. one_action. Qed.
Lemma calm_random n : acts keeps_calm (random_bytes n).
Proof. one_action. Qed.
Lemma calm_get : acts keeps_calm get.
Proof. one_action. Qed.
Lemma calm_send t p : acts keeps_calm (send_msg t p).
Proof. one_action. Qed.
Lemma calm_modify f : (forall s, (f s).(collecting) = s.(collecting) /\ (f s).(kick) = s.(kick)) -> acts keeps_calm (modify f).
Proof. intros Hf. split; [|done]. intros v s r v' s' [= <- <- <-]. unfold bystanders. by destruct (Hf s) as [-> ->]. Qed.
End keep.
#[local] Hint Resolve calm_on_store calm_on_store_ret calm_query calm_disk calm_try_disk calm_rate calm_random calm_get calm_send : acts.
#[local] Hint Extern 1 (acts keeps_calm (modify _)) => (apply calm_modify; intros; done) : acts.

Lemma calm_send_all msgs : acts keeps_calm (send_all msgs).
Proof. induction msgs as [|[t p] msgs IH]; cbn [send_all]; acts_prog. Qed.
Lemma calm_send_chunks inode ts cs i n : acts keeps_calm (send_chunks inode ts cs i n).
Proof. revert i. induction n; intros i; cbn [send_chunks]; acts_prog. Qed.
Lemma calm_remove_file_bytes fid : acts keeps_calm (remove_file_bytes fid).
Proof. unfold remove_file_bytes. acts_prog. Qed.
Lemma calm_abort_upload : acts keeps_calm abort_upload.
Proof. unfold abort_upload. acts_prog. Qed.
Lemma calm_add_keyring_chunk mb ku data now : acts keeps_calm (add_keyring_chunk mb ku data now).
Proof. unfold add_keyring_chunk. acts_prog. Qed.
#[local] Hint Resolve calm_send_all calm_send_chunks calm_remove_file_bytes calm_abort_upload calm_add_keyring_chunk : acts.

(** Every request but collecting leaves the other connections and the clock alone. *)
Lemma calm_handle_message fuel t payload now : t <> RELAY_COLLECT -> acts keeps_calm (handle_message limits relay_id fuel t payload now).
Proof.
  intros Ht. destruct t; try done; unfold handle_message;
    unfold handle_register, handle_auth, handle_deposit, handle_ack, handle_invite_create, handle_archive_create,
      handle_archive_join, handle_archive_auth, handle_archive_append, handle_archive_delete, handle_archive_fetch, handle_prekey_put,
      handle_prekey_take, handle_prekey_status, handle_file_begin, handle_file_chunk, handle_file_download,
      handle_file_redeem, handle_file_cancel, handle_file_status, handle_keyring_put, handle_keyring_get,
      handle_invite_list, handle_invite_cancel, handle_token; acts_prog.
Qed.

(** No other client has taken this one's place, and it is not collecting. *)
Definition calm (v : Service) (s : Session) : Prop := s.(collecting) = false /\ s.(kick) ∉ v.(owners).(Owners.kicked).

Definition received (m : MessageType * bytes) : input := Received m.1 m.2.

Lemma loop_round fuel t payload inputs v s v' s' :
  calm v s -> t <> RELAY_COLLECT ->
  run (handle_message limits relay_id fuel t payload v.(clock)) v s = (Some (Some Break), v', s') ->
  run (session_loop limits relay_id fuel (received (t, payload) :: inputs)) v s = run (session_loop limits relay_id fuel inputs) v' s' /\
  calm v' s' /\ v'.(clock) = v.(clock).
Proof.
  intros [Hc Hk] Ht Hr. pose proof (run_keeps_calm _ _ _ _ _ _ (calm_handle_message fuel t payload v.(clock) Ht) Hr) as Hb.
  unfold bystanders in Hb. injection Hb as Ec Ek Et Eo. split; [|split; [split; congruence|done]].
  cbn [session_loop]. rewrite run_bind. unfold session_round. rewrite run_kicked, bool_decide_false by done. unfold received. cbn [fst snd].
  rewrite run_now, run_bind, Hr. unfold push_new. rewrite run_get. destruct (mailbox s'); [|by rewrite run_done]. by rewrite Ec, Hc.
Qed.
End loop.

(** ** Keyrings *)

Section keyring_link.
Context `{P : Primitives}.
Variable limits : RelayLimits.
Variable relay_id : bytes.

Definition put_request (blob : bytes) (i : Z) : MessageType * bytes := (KEYRING_PUT, encode_KeyringChunk (keyring_chunk blob i)).
Definition data_reply (blob : bytes) (i : Z) : MessageType * bytes := (KEYRING_DATA, encode_KeyringChunk (keyring_chunk blob i)).

(** The relay's side: the chunks are acknowledged one by one, and the keyring is there. *)
Lemma loop_puts fuel blob mb inputs (n : nat) : forall i v s,
  0 < size blob <= MAX_KEYRING_BYTES -> size blob <= limits.(keyring_max_bytes) ->
  0 <= i -> i < keyring_count blob -> i + Z.of_nat n = keyring_count blob ->
  calm v s -> s.(mailbox) = Some mb -> s.(peer_reads) = None -> references mb_id mb v.(store).(mailboxes) = true ->
  (i = 0 -> keyring_rate_ok v mb v.(clock)) -> keyring_at blob i s ->
  exists v' s', run (session_loop limits relay_id fuel (map (fun i => received (put_request blob i)) (seqZ i (Z.of_nat n)) ++ inputs)) v s
      = run (session_loop limits relay_id fuel inputs) v' s' /\
    calm v' s' /\ s'.(mailbox) = Some mb /\ s'.(peer_reads) = None /\ s'.(sent) = s.(sent) ++ replicate n (KEYRING_PUT_OK, []) /\
    get_keyring v'.(store) mb = Some blob.
Proof.
  induction n as [|n IH]; intros i v s Hb Hmax Hi Hlt Hn Hcalm Hm Hp Href Hrate Hat; [lia|].
  rewrite seqZ_cons by lia. cbn [map app]. replace (Z.pred (Z.of_nat (S n))) with (Z.of_nat n) by lia.
  destruct (put_one limits blob mb i v.(clock) v s Hb Hmax ltac:(lia) Hm Hp Href Hrate Hat) as (o & v1 & s1 & Hr & Hm1 & Hp1 & -> & Hsent & Hres).
  assert (run (handle_message limits relay_id fuel KEYRING_PUT (encode_KeyringChunk (keyring_chunk blob i)) v.(clock)) v s
          = (Some (Some Break), v1, s1)) as Hh by (unfold handle_message; by rewrite run_bind, Hr).
  destruct (loop_round limits relay_id fuel KEYRING_PUT _ (map (fun i => received (put_request blob i)) (seqZ (Z.succ i) (Z.of_nat n)) ++ inputs)
    v s v1 s1 Hcalm ltac:(done) Hh) as (Hloop & Hcalm1 & Hclock).
  unfold put_request at 1. rewrite Hloop. destruct (Z.ltb_spec (i + 1) (keyring_count blob)) as [Hl|Hl].
  - destruct Hres as [Hst Hat1].
    destruct (IH (Z.succ i) v1 s1 Hb Hmax ltac:(lia) ltac:(lia) ltac:(lia) Hcalm1 Hm1 Hp1)
      as (v' & s' & Hr' & Hc' & Hm' & Hp' & Hs' & Hget); [by rewrite Hst|lia|done|].
    exists v', s'. repeat (split; [done|]). split; [by rewrite Hs', Hsent, <- app_assoc|done].
  - assert (n = 0%nat) as -> by lia. destruct Hres as [Hput _]. exists v1, s1. repeat (split; [done|]).
    by eapply get_put_keyring.
Qed.

(** And it is sent back. *)
Lemma loop_get fuel blob mb inputs v s :
  0 < size blob <= MAX_KEYRING_BYTES -> calm v s -> s.(mailbox) = Some mb -> s.(peer_reads) = None -> get_keyring v.(store) mb = Some blob ->
  exists s', run (session_loop limits relay_id fuel (received (KEYRING_GET, []) :: inputs)) v s
      = run (session_loop limits relay_id fuel inputs) v s' /\
    s'.(sent) = s.(sent) ++ map (data_reply blob) (seqZ 0 (keyring_count blob)).
Proof.
  intros Hb Hcalm Hm Hp Hget.
  destruct (run_send_all (map (keyring_message blob (keyring_count blob)) (seqZ 0 (keyring_count blob))) v s Hp) as (s2 & Hr2 & Hs2).
  assert (run (handle_message limits relay_id fuel KEYRING_GET [] v.(clock)) v s = (Some (Some Break), v, s2)) as Hh.
  { unfold handle_message. rewrite run_bind. unfold handle_keyring_get. rewrite run_get, Hm, run_query, Hget. cbv zeta.
    rewrite keyring_count_code by done. by rewrite run_bind, Hr2. }
  destruct (loop_round limits relay_id fuel KEYRING_GET _ inputs v s v s2 Hcalm ltac:(done) Hh) as (Hloop & _).
  exists s2. split; [done|]. rewrite Hs2. f_equal. apply map_ext_in. intros i Hi. apply list_elem_of_In, elem_of_seqZ in Hi.
  apply keyring_message_chunk; [done|lia].
Qed.

(** The client's side of putting. *)
Lemma client_puts blob ins c (n : nat) : forall i out,
  0 < size blob <= MAX_KEYRING_BYTES -> 0 <= i ->
  Client.put_keyring_chunks n i (keyring_count blob) blob (on (replicate n (KEYRING_PUT_OK, []) ++ ins) out c) =
  (inr tt, on ins (out ++ map (put_request blob) (seqZ i (Z.of_nat n))) c).
Proof.
  induction n as [|n IH]; intros i out Hb Hi; [simpl; by rewrite app_nil_r|].
  cbn [Client.put_keyring_chunks replicate app]. unfold Client.cbind at 1. rewrite ask_on, IH by lia.
  rewrite (seqZ_cons i) by lia. replace (Z.pred (Z.of_nat (S n))) with (Z.of_nat n) by lia. cbn [map]. rewrite <- app_assoc.
  unfold MAX_KEYRING_BYTES in Hb. rewrite u32_small by (unfold in_u32; lia). replace (Z.succ i) with (i + 1) by lia. done.
Qed.

Lemma client_put blob ins out c :
  0 < size blob <= MAX_KEYRING_BYTES ->
  Client.put_keyring blob (on (replicate (Z.to_nat (keyring_count blob)) (KEYRING_PUT_OK, []) ++ ins) out c) =
  (inr tt, on ins (out ++ map (put_request blob) (seqZ 0 (keyring_count blob))) c).
Proof.
  intros Hb. unfold Client.put_keyring. pose proof (keyring_count_bounds blob Hb) as [Hc _].
  rewrite (proj2 (Z.ltb_ge _ _)), orb_false_r by lia. rewrite (proj2 (is_empty_false blob)) by lia. cbv zeta.
  assert (u32 ((size blob + KEYRING_CHUNK_BYTES - 1) / KEYRING_CHUNK_BYTES) = keyring_count blob) as ->
    by (apply u32_small; fold (keyring_count blob); unfold in_u32; lia).
  rewrite client_puts by lia. by rewrite Z2Nat.id by lia.
Qed.

(** And of getting: the pieces are put together. *)
Lemma client_gets blob ins c (n : nat) : forall fuel i total count out,
  0 < size blob <= MAX_KEYRING_BYTES -> 0 <= i -> i < keyring_count blob -> i + Z.of_nat n = keyring_count blob -> (n <= fuel)%nat ->
  (i = 0 \/ total = size blob /\ count = keyring_count blob) ->
  Client.get_keyring_loop fuel total count i (ztake (i * KEYRING_CHUNK_BYTES) blob)
    (on (map (data_reply blob) (seqZ i (Z.of_nat n)) ++ ins) out c) = (inr (Some blob), on ins out c).
Proof.
  induction n as [|n IH]; intros fuel i total count out Hb Hi Hlt Hn Hf Hfirst; [lia|].
  destruct fuel as [|fuel]; [lia|]. rewrite seqZ_cons by lia. replace (Z.pred (Z.of_nat (S n))) with (Z.of_nat n) by lia.
  pose proof (keyring_count_bounds blob Hb) as [Hc Hbb].
  cbn [map app Client.get_keyring_loop]. unfold Client.cbind. unfold data_reply at 1. rewrite reply_on.
  rewrite (proj2 (decode_keyring_chunk_spec _ (keyring_chunk blob i))) by (split; [by apply keyring_chunk_wf|done]).
  cbn [keyring_chunk KeyringChunk_total_size KeyringChunk_index KeyringChunk_count KeyringChunk_data].
  rewrite (proj2 (Z.eqb_neq (keyring_count blob) 0)) by lia.
  assert ((if i =? 0 then (size blob, keyring_count blob) else (total, count)) = (size blob, keyring_count blob)) as ->.
  { destruct (Z.eqb_spec i 0); [done|]. destruct Hfirst as [?|[-> ->]]; [lia|done]. }
  rewrite !Z.eqb_refl. cbn [negb orb]. assert (0 <= KEYRING_CHUNK_BYTES) by done. rewrite ztake_piece, (u32_small (i + 1)) by (unfold in_u32; lia).
  destruct (Z.eqb_spec (i + 1) (keyring_count blob)) as [E|E].
  - assert (n = 0%nat) as -> by lia. rewrite ztake_ge by lia. done.
  - replace (Z.succ i) with (i + 1) by lia. apply IH; lia || auto.
Qed.

Lemma client_get blob ins out c :
  0 < size blob <= MAX_KEYRING_BYTES ->
  Client.get_keyring (on (map (data_reply blob) (seqZ 0 (keyring_count blob)) ++ ins) out c) =
  (inr (Some blob), on ins (out ++ [(KEYRING_GET, [])]) c).
Proof.
  intros Hb. unfold Client.get_keyring, Client.cbind. rewrite send_on. pose proof (keyring_count_bounds blob Hb) as [Hc _].
  pose proof (client_gets blob ins c (Z.to_nat (keyring_count blob))
    (S (Client.to_come (on (map (data_reply blob) (seqZ 0 (keyring_count blob)) ++ ins) (out ++ [(KEYRING_GET, [])]) c))) 0 0 0
    (out ++ [(KEYRING_GET, [])]) Hb) as Hg.
  rewrite Z2Nat.id in Hg by lia. apply Hg; [lia..| |by left].
  unfold Client.to_come, on. cbn [Client.rc_sock Client.set_sock Client.so_in]. rewrite length_app, length_map, length_seqZ. lia.
Qed.

(** A keyring goes to the relay and comes back, through the client's and the
    relay's own loops. When an owner who is signed in puts a keyring and asks for it,
    the requests the client sends, given to the session one after another, make it
    store the keyring whole and answer with messages that, given to the client, make
    both of its calls succeed and return the very same bytes; nothing else is sent or
    left unread. *)
Theorem keyring_over_the_wire fuel blob mb v s :
  0 < size blob <= MAX_KEYRING_BYTES -> size blob <= limits.(keyring_max_bytes) ->
  calm v s -> s.(mailbox) = Some mb -> s.(peer_reads) = None -> references mb_id mb v.(store).(mailboxes) = true ->
  keyring_rate_ok v mb v.(clock) ->
  exists requests answers v' s',
    run (session_loop limits relay_id fuel (map received requests)) v s = (Some (Some tt), v', s') /\
    s'.(sent) = s.(sent) ++ answers /\ get_keyring v'.(store) mb = Some blob /\
    forall c ins out, exists c1, Client.put_keyring blob (on (answers ++ ins) out c) = (inr tt, c1) /\
      Client.get_keyring c1 = (inr (Some blob), on ins (out ++ requests) c).
Proof.
  intros Hb Hmax Hcalm Hm Hp Href Hrate. pose proof (keyring_count_bounds blob Hb) as [Hc _].
  destruct (loop_puts fuel blob mb [received (KEYRING_GET, [])] (Z.to_nat (keyring_count blob)) 0 v s)
    as (v1 & s1 & Hr1 & Hcalm1 & Hm1 & Hp1 & Hs1 & Hget1); try done; try lia.
  destruct (loop_get fuel blob mb [] v1 s1 Hb Hcalm1 Hm1 Hp1 Hget1) as (s2 & Hr2 & Hs2). rewrite Z2Nat.id in Hr1 by lia.
  exists (map (put_request blob) (seqZ 0 (keyring_count blob)) ++ [(KEYRING_GET, [])]),
    (replicate (Z.to_nat (keyring_count blob)) (KEYRING_PUT_OK, []) ++ map (data_reply blob) (seqZ 0 (keyring_count blob))), v1, s2.
  split; [|split; [by rewrite Hs2, Hs1, <- app_assoc|split; [done|]]].
  - rewrite map_app, map_map. etrans; [exact Hr1|]. by rewrite Hr2.
  - intros c ins out. eexists. split; [rewrite <- app_assoc; by apply client_put|]. rewrite client_get by done. by rewrite <- app_assoc.
Qed.
End keyring_link.

Lemma keyring_over_the_wire_witness :
  exists requests answers v' s',
    run (session_loop default_limits ex_relay 5 (map received requests)) ex_signed_in.1 ex_signed_in.2 = (Some (Some tt), v', s') /\
    s'.(sent) = ex_signed_in.2.(sent) ++ answers /\ get_keyring v'.(store) ex_mailbox = Some (str "keys").
Proof.
  destruct (keyring_over_the_wire default_limits ex_relay 5 (str "keys") ex_mailbox ex_signed_in.1 ex_signed_in.2)
    as (requests & answers & v' & s' & Hr & Hs & Hget & _).
  - vm_compute. split; [reflexivity|discriminate].
  - vm_compute. discriminate.
  - split; [vm_compute; reflexivity|intros H; vm_compute in H; discriminate].
  - vm_compute. reflexivity.
  - vm_compute. reflexivity.
  - vm_compute. reflexivity.
  - vm_compute. reflexivity.
  - exists requests, answers, v', s'. split; [exact Hr|]. split; [exact Hs|exact Hget].
Defined.

(** ** Files *)

(** A token that was named when the file was begun is good when it is complete. *)
Lemma begun_token_good db mb id total c count e hs now q db' h now' :
  sql_ok db -> 0 <= total < 2 ^ 63 ->
  begin_file db mb id total c count e hs now q = Some (Begin_Ok, db') -> h ∈ hs -> now' < e ->
  check_file_token (finish_file db' id) id h now' = Check_Ok.
Proof.
  intros Hok Ht Hb Hh He. unfold check_file_token. destruct (begin_file_row _ _ _ _ _ _ _ _ _ _ _ Ht Hb) as [_ ->].
  assert (file_tokens (finish_file db' id) = file_tokens db ++ map (fun h => mkFileTokenRow id h false) hs) as ->.
  { unfold begin_file, insert_file in Hb. store_cases.
    match goal with Hf : fold_db _ _ _ = Some _ |- _ => apply insert_file_tokens_frame in Hf as -> end. done. }
  assert (forall t, t ∈ file_tokens db -> ft_file_id t <> id) as Hnone.
  { intros t Hin <-. pose proof (fk_file_tokens _ Hok t Hin) as (f & Hf & Hfin)%list_elem_of_fmap.
    unfold begin_file in Hb. store_cases.
    match goal with Hx : exists_row _ _ = false |- _ => rewrite exists_row_false in Hx; by apply (Hx f) end. }
  destruct (select_first _ _) as [t|] eqn:E.
  - apply select_first_Some in E as [[Hin|Hin]%elem_of_app [Hid _]]; [by apply Hnone in Hin|].
    apply list_elem_of_In, in_map_iff in Hin as (? & <- & _). cbn [ft_redeemed file_ready file_expires_at negb].
    by rewrite (proj2 (Z.leb_gt _ _)).
  - exfalso. eapply (proj1 (select_first_None _ _) E (mkFileTokenRow id h false)); [|done].
    apply elem_of_app. right. apply list_elem_of_In, in_map_iff. exists h. split; [done|]. by apply list_elem_of_In.
Qed.

Section file_link.
Context `{P : Primitives}.
Variable limits : RelayLimits.
Variable relay_id : bytes.

Definition chunk_request (data : bytes) (c i : Z) : MessageType * bytes := (FILE_CHUNK, file_chunk data c i).
Definition info_of (f : FileRow) : FileInfo := mkFileInfo f.(file_total_size) f.(file_chunk_size) f.(file_chunk_count) (u64 f.(file_expires_at)).

(** The relay's side of an upload: every chunk is stored, the last makes the file. *)
Lemma loop_chunks fuel id data c count inputs (n : nat) : forall i v s,
  wf_file_numbers (size data) c count -> 0 <= i -> i < count -> i + Z.of_nat n = count -> calm v s -> uploading id data c count i v s ->
  exists v' s', run (session_loop limits relay_id fuel (map (fun i => received (chunk_request data c i)) (seqZ i (Z.of_nat n)) ++ inputs)) v s
      = run (session_loop limits relay_id fuel inputs) v' s' /\
    v'.(clock) = v.(clock) /\ s'.(sent) = s.(sent) ++ concat (map (chunk_ack count) (seqZ i (Z.of_nat n))) /\
    v'.(store) = finish_file v.(store) id /\ Disk.read v'.(disk) (file_path id ".bin") = Some data.
Proof.
  induction n as [|n IH]; intros i v s Hwf Hi Hlt Hn Hcalm Hu; [lia|].
  rewrite seqZ_cons by lia. cbn [map app concat]. replace (Z.pred (Z.of_nat (S n))) with (Z.of_nat n) by lia.
  destruct (upload_one id data c count i v s Hwf ltac:(lia) Hu) as (v1 & s1 & Hr & Hsent & Hres).
  assert (run (handle_message limits relay_id fuel FILE_CHUNK (file_chunk data c i) v.(clock)) v s = (Some (Some Break), v1, s1)) as Hh
    by (unfold handle_message; by rewrite run_bind, Hr).
  destruct (loop_round limits relay_id fuel FILE_CHUNK _ (map (fun i => received (chunk_request data c i)) (seqZ (Z.succ i) (Z.of_nat n)) ++ inputs)
    v s v1 s1 Hcalm ltac:(done) Hh) as (Hloop & Hcalm1 & Hclock).
  unfold chunk_request at 1. rewrite Hloop. destruct (Z.ltb_spec (i + 1) count) as [Hl|Hl].
  - destruct Hres as [Hst Hu1].
    destruct (IH (Z.succ i) v1 s1 Hwf ltac:(lia) ltac:(lia) ltac:(lia) Hcalm1 Hu1) as (v' & s' & Hr' & Hc' & Hs' & Hst' & Hread).
    exists v', s'. split_and!; [done|congruence|by rewrite Hs', Hsent, <- app_assoc|congruence|done].
  - assert (n = 0%nat) as -> by lia. destruct Hres as (Hst & Hread & _). exists v1, s1.
    split_and!; [done..|by rewrite Hsent, app_nil_r|done|done].
Qed.

(** The client's side: it reads an acknowledgement where the relay sends one. *)
Lemma client_chunks data c count ins cl (n : nat) : forall i out,
  wf_file_numbers (size data) c count -> 0 <= i -> i + Z.of_nat n = count ->
  Client.upload_chunks n i count (fun i => Some (piece c i data))
    (on (concat (map (chunk_ack count) (seqZ i (Z.of_nat n))) ++ ins) out cl) =
  (inr tt, on ins (out ++ map (chunk_request data c) (seqZ i (Z.of_nat n))) cl).
Proof.
  induction n as [|n IH]; intros i out Hwf Hi Hn; [simpl; by rewrite app_nil_r|].
  pose proof (file_count_bounds _ _ _ Hwf) as (_ & _ & Hmax).
  rewrite seqZ_cons by lia. replace (Z.pred (Z.of_nat (S n))) with (Z.of_nat n) by lia.
  cbn [map concat Client.upload_chunks]. unfold Client.cbind at 1. rewrite send_on. unfold Client.cbind at 1.
  rewrite (u32_small (i + 1)) by (unfold in_u32; lia). rewrite orb_comm. unfold chunk_ack at 1.
  destruct (_ || _) eqn:E; cbn [app].
  - unfold Client.cbind at 1. rewrite reply_on, write_u32_eq. cbn [app].
    rewrite (read_u32_fwd _ 0 (i + 1) []) by (rewrite ?app_nil_r; apply at_off_0 || (unfold in_u32; lia)).
    cbn [fst]. rewrite Z.eqb_refl. unfold Client.cret. replace (i + 1) with (Z.succ i) by lia. rewrite IH by (done || lia). by rewrite <- app_assoc.
  - unfold Client.cret. replace (i + 1) with (Z.succ i) by lia. rewrite IH by (done || lia). by rewrite <- app_assoc.
Qed.

(** The client's side of a download: it takes every chunk where it expects it. *)
Definition gather (i : Z) (chunk got : bytes) : bool * bytes := (true, got ++ chunk).

Lemma piece_fits data c count e i :
  wf_file_numbers (size data) c count -> 0 <= i < count ->
  Client.chunk_fits (mkFileInfo (size data) c count e) i (mkRelayFileChunk i (piece c i data)) = true.
Proof.
  intros Hwf Hi. pose proof (file_count_bounds _ _ _ Hwf) as (_ & _ & Hmax).
  pose proof (file_piece_size c count data i Hwf Hi) as [Ho Hs]. pose proof Hwf as ((_ & ?) & (? & ?) & _).
  unfold MAX_FILE_BYTES, MAX_FILE_CHUNK_BYTES in *.
  unfold Client.chunk_fits. cbn [RelayFileChunk_index RelayFileChunk_data FileInfo_total_size FileInfo_chunk_size FileInfo_chunk_count].
  rewrite (u64_small (i * c)), (u32_small (i + 1)), Hs, Z.eqb_refl by (unfold in_u64, in_u32; lia).
  rewrite (proj2 (Z.ltb_lt i count)), andb_true_r by lia. cbn [andb]. apply Z.eqb_eq.
  destruct (Z.ltb_spec (i + 1) count); [done|]. assert (i = count - 1) as -> by lia. rewrite u64_small by (unfold in_u64; lia). lia.
Qed.

Lemma client_downloads data c count e ins cl out (n : nat) : forall fuel i got,
  wf_file_numbers (size data) c count -> 0 <= i -> i + Z.of_nat n = count -> (n < fuel)%nat ->
  Client.download_loop fuel (mkFileInfo (size data) c count e) i gather got
    (on (map (data_message data c) (seqZ i (Z.of_nat n)) ++ (FILE_DOWNLOAD_END, []) :: ins) out cl) =
  (inr tt, got ++ concat (map (fun i => piece c i data) (seqZ i (Z.of_nat n))), on ins out cl).
Proof.
  induction n as [|n IH]; intros fuel i got Hwf Hi Hn Hf; (destruct fuel as [|fuel]; [lia|]).
  - cbn. assert (i = count) as -> by lia. by rewrite Z.eqb_refl, app_nil_r.
  - pose proof (file_count_bounds _ _ _ Hwf) as (_ & _ & Hmax).
    rewrite seqZ_cons by lia. replace (Z.pred (Z.of_nat (S n))) with (Z.of_nat n) by lia.
    cbn [map app concat Client.download_loop]. unfold data_message at 1. cbn [Client.receive on Client.rc_sock Client.set_sock Client.so_in].
    rewrite (decode_file_chunk_piece c count) by (done || lia). rewrite piece_fits by (done || lia). cbn [negb].
    unfold gather at 1. cbn [RelayFileChunk_index RelayFileChunk_data]. rewrite (u32_small (i + 1)) by (unfold in_u32; lia).
    replace (i + 1) with (Z.succ i) by lia.
    etrans; [apply (IH fuel (Z.succ i) (got ++ piece c i data)); (done || lia)|]. by rewrite <- app_assoc.
Qed.

Lemma client_download id token from data c count e ins out cl :
  wf_file_numbers (size data) c count -> in_u64 e -> 0 <= from < count ->
  Client.download_file id token from gather []
    (on ((FILE_INFO, encode_FileInfo (mkFileInfo (size data) c count e)) :: map (data_message data c) (seqZ from (count - from))
         ++ (FILE_DOWNLOAD_END, []) :: ins) out cl) =
  (inr (mkFileInfo (size data) c count e), concat (map (fun i => piece c i data) (seqZ from (count - from))),
   on ins (out ++ [(FILE_DOWNLOAD, encode_FileDownload (mkFileDownload id token from))]) cl).
Proof.
  intros Hwf He Hfrom. pose proof (file_count_bounds _ _ _ Hwf) as (_ & _ & Hmax). pose proof Hwf as (Hts & Hcs & Hcount & _).
  unfold Client.download_file, Client.cbind. rewrite ask_on, (proj2 (decode_file_info_spec _ (mkFileInfo (size data) c count e))).
  2:{ split; [|done]. unfold wf_FileInfo. cbn [FileInfo_total_size FileInfo_chunk_size FileInfo_chunk_count FileInfo_expires_at].
      rewrite file_count_ceil by done. unfold MAX_FILE_BYTES, MAX_FILE_CHUNK_BYTES in *. unfold in_u64, in_u32 in *.
      split_and!; lia || done. }
  cbn [FileInfo_chunk_count]. rewrite (proj2 (Z.leb_gt _ _)) by lia. unfold Client.cret.
  replace (count - from) with (Z.of_nat (Z.to_nat (count - from))) by lia.
  rewrite client_downloads; [done|done|lia|lia|].
  unfold Client.to_come. cbn [on Client.rc_sock Client.set_sock Client.so_in]. rewrite length_app, length_map, length_seqZ. simpl. lia.
Qed.

(** The whole upload. *)
Lemma client_upload m data ins out cl :
  wf_FileBegin m -> size data = m.(FileBegin_total_size) ->
  let c := m.(FileBegin_chunk_size) in
  let chunks := seqZ 0 m.(FileBegin_chunk_count) in
  Client.upload_file m (fun i => Some (piece c i data))
    (on ((FILE_UPLOAD_OK, []) :: concat (map (chunk_ack m.(FileBegin_chunk_count)) chunks) ++ ins) out cl) =
  (inr tt, on ins (out ++ (FILE_UPLOAD_BEGIN, encode_FileBegin m) :: map (chunk_request data c) chunks) cl).
Proof.
  intros (_ & _ & _ & _ & _ & Hwf & _) Hd. cbv zeta. rewrite <- Hd in Hwf. pose proof (file_count_bounds _ _ _ Hwf) as (Hc1 & _).
  unfold Client.upload_file, Client.cbind. rewrite ask_on. set (count := FileBegin_chunk_count m) in *.
  replace (seqZ 0 count) with (seqZ 0 (Z.of_nat (Z.to_nat count))) by (f_equal; lia).
  rewrite client_chunks by (done || lia). by rewrite <- app_assoc.
Qed.

(** What is there afterwards: the bytes, a complete record, and the tokens. *)
Definition file_there (m : FileBegin) (data : bytes) (v : Service) : Prop :=
  Disk.read v.(disk) (file_path m.(FileBegin_file_id) ".bin") = Some data /\
  (exists mb, select_first (fun f => f.(file_id) = m.(FileBegin_file_id)) v.(store).(files)
     = Some (mkFileRow m.(FileBegin_file_id) mb (size data) m.(FileBegin_chunk_size) m.(FileBegin_chunk_count) (i64 m.(FileBegin_expires_at)) v.(clock) true)) /\
  forall h, h ∈ m.(FileBegin_token_hashes) -> check_file_token v.(store) m.(FileBegin_file_id) h v.(clock) = Check_Ok.

Lemma loop_upload fuel m data v s v1 s1 :
  sql_ok v.(store) -> calm v s -> s.(disk_faults) = [] -> s.(peer_reads) = None ->
  wf_FileBegin m -> size data = m.(FileBegin_total_size) ->
  run (handle_file_begin limits (encode_FileBegin m) v.(clock)) v s = (Some Break, v1, s1) -> last s1.(sent) = Some (FILE_UPLOAD_OK, []) ->
  let chunks := seqZ 0 m.(FileBegin_chunk_count) in
  exists v2 s2,
    run (session_loop limits relay_id fuel (map received
      ((FILE_UPLOAD_BEGIN, encode_FileBegin m) :: map (chunk_request data m.(FileBegin_chunk_size)) chunks))) v s = (Some (Some tt), v2, s2) /\
    s2.(sent) = s.(sent) ++ (FILE_UPLOAD_OK, []) :: concat (map (chunk_ack m.(FileBegin_chunk_count)) chunks) /\ file_there m data v2.
Proof.
  intros Hok Hcalm Hnf Hp Hwfm Hd Hr Hl. cbv zeta. assert (decode_file_begin (encode_FileBegin m) = Some m) as Hdec by (by apply decode_file_begin_spec).
  destruct (begin_accepted limits _ _ _ _ _ _ Hr Hl Hnf Hp) as (m' & mb & Hm' & Hmb & Hbegin & Hexp & _ & Hs1 & Hup).
  rewrite Hdec in Hm'. injection Hm' as <-. specialize (Hup data Hd).
  pose proof Hwfm as (_ & _ & _ & _ & _ & Hwf & _). rewrite <- Hd in Hwf, Hbegin.
  pose proof (file_count_bounds _ _ _ Hwf) as (Hc1 & _). pose proof Hwf as ((Ht1 & Ht2) & _).
  assert (0 <= size data < 2 ^ 63) as Ht by (unfold MAX_FILE_BYTES in *; lia).
  assert (run (handle_message limits relay_id fuel FILE_UPLOAD_BEGIN (encode_FileBegin m) v.(clock)) v s = (Some (Some Break), v1, s1)) as Hh
    by (unfold handle_message; by rewrite run_bind, Hr).
  set (count := FileBegin_chunk_count m) in *.
  destruct (loop_round limits relay_id fuel FILE_UPLOAD_BEGIN _ (map (fun i => received (chunk_request data (FileBegin_chunk_size m) i)) (seqZ 0 count))
    v s v1 s1 Hcalm ltac:(done) Hh) as (Hloop & Hcalm1 & Hclock1).
  destruct (loop_chunks fuel (FileBegin_file_id m) data (FileBegin_chunk_size m) count [] (Z.to_nat count) 0 v1 s1 Hwf ltac:(lia) ltac:(lia) ltac:(lia) Hcalm1 Hup)
    as (v2 & s2 & Hr2 & Hclock2 & Hs2 & Hst2 & Hread2). rewrite Z2Nat.id, app_nil_r in Hr2 by lia. rewrite Z2Nat.id in Hs2 by lia.
  exists v2, s2. split; [cbn [map]; rewrite map_map, Hloop; by rewrite Hr2|]. split; [by rewrite Hs2, Hs1, <- app_assoc|].
  rewrite <- Hclock1, <- Hclock2 in *. split; [done|]. rewrite Hst2. split.
  - exists mb. by destruct (begin_file_row _ _ _ _ _ _ _ _ _ _ _ Ht Hbegin) as [_ Hrow].
  - intros h Hh'. eapply begun_token_good; [|exact Ht|exact Hbegin|exact Hh'|lia].
    unfold without_upload. destruct (up_active _); [by apply delete_file_sql|done].
Qed.

(** The relay's side of a download, for a token that was announced. *)
Lemma loop_download fuel m data token from v s :
  wf_FileBegin m -> size data = m.(FileBegin_total_size) -> file_there m data v ->
  sha256 token ∈ m.(FileBegin_token_hashes) -> size token = FILE_TOKEN_BYTES -> 0 <= from < m.(FileBegin_chunk_count) ->
  calm v s -> s.(peer_reads) = None ->
  (RateLimiter.allow v.(rate) (str "file-dl:" ++ s.(peer_ip)) limits.(rate_limit_per_minute) v.(clock)).1 = true ->
  let c := m.(FileBegin_chunk_size) in
  let chunks := seqZ from (m.(FileBegin_chunk_count) - from) in
  exists v' s' e, in_u64 e /\
    run (session_loop limits relay_id fuel [received (FILE_DOWNLOAD, encode_FileDownload (mkFileDownload m.(FileBegin_file_id) token from))]) v s
      = (Some (Some tt), v', s') /\
    s'.(sent) = s.(sent) ++ (FILE_INFO, encode_FileInfo (mkFileInfo (size data) c m.(FileBegin_chunk_count) e)) ::
                map (data_message data c) chunks ++ [(FILE_DOWNLOAD_END, [])] /\
    concat (map (fun i => piece c i data) chunks) = zdrop (from * c) data.
Proof.
  intros (Hid & _ & _ & _ & _ & Hwf & _) Hd (Hread & (mb & Hrow) & Hcheck) Htok Hsize Hfrom Hcalm Hp Hrate. rewrite <- Hd in Hwf.
  pose proof (file_count_bounds _ _ _ Hwf) as (_ & _ & Hmax).
  destruct (download_whole limits (mkFileDownload (FileBegin_file_id m) token from) _ data v.(clock) v s
    ltac:(split_and!; [exact Hid|exact Hsize|unfold in_u32; simpl; lia]) Hp Hrate (Hcheck _ Htok) Hrow Hwf Hfrom Hread eq_refl)
    as (v' & s' & Hr & _ & Hs & Hcat).
  assert (run (handle_message limits relay_id fuel FILE_DOWNLOAD (encode_FileDownload (mkFileDownload (FileBegin_file_id m) token from)) v.(clock)) v s
          = (Some (Some Break), v', s')) as Hh by (unfold handle_message; by rewrite run_bind, Hr).
  destruct (loop_round limits relay_id fuel FILE_DOWNLOAD _ [] v s v' s' Hcalm ltac:(done) Hh) as (Hloop & _).
  cbv zeta. do 3 eexists. split; [|split; [exact Hloop|split; [exact Hs|exact Hcat]]]. unfold in_u64, u64. Zlia.
Qed.

(** C8: a file goes to the relay and comes to whoever holds a token for it. When
    the relay accepts the announcement of a file from a signed-in owner, the requests
    that the client's upload sends make the relay's loop store the file and answer so
    that the upload succeeds; and then any other connection that downloads it from any
    chunk on, with a token whose hash was announced and within the limit on downloads,
    gets exactly the bytes of the file from that chunk on, again by the client's own
    method against the relay's own loop. *)
Theorem file_over_the_wire fuel m data v s v1 s1 :
  reachable v.(store) -> calm v s -> s.(disk_faults) = [] -> s.(peer_reads) = None ->
  wf_FileBegin m -> size data = m.(FileBegin_total_size) ->
  run (handle_file_begin limits (encode_FileBegin m) v.(clock)) v s = (Some Break, v1, s1) -> last s1.(sent) = Some (FILE_UPLOAD_OK, []) ->
  let c := m.(FileBegin_chunk_size) in
  exists requests answers v' s',
    run (session_loop limits relay_id fuel (map received requests)) v s = (Some (Some tt), v', s') /\ s'.(sent) = s.(sent) ++ answers /\
    (forall cl ins out, Client.upload_file m (fun i => Some (piece c i data)) (on (answers ++ ins) out cl) = (inr tt, on ins (out ++ requests) cl)) /\
    forall token from peer,
      sha256 token ∈ m.(FileBegin_token_hashes) -> size token = FILE_TOKEN_BYTES -> 0 <= from < m.(FileBegin_chunk_count) ->
      calm v' peer -> peer.(peer_reads) = None ->
      (RateLimiter.allow v'.(rate) (str "file-dl:" ++ peer.(peer_ip)) limits.(rate_limit_per_minute) v'.(clock)).1 = true ->
      exists request replies v'' peer' info,
        run (session_loop limits relay_id fuel [received request]) v' peer = (Some (Some tt), v'', peer') /\
        peer'.(sent) = peer.(sent) ++ replies /\
        forall cl ins out, Client.download_file m.(FileBegin_file_id) token from gather [] (on (replies ++ ins) out cl)
          = (inr info, zdrop (from * c) data, on ins (out ++ [request]) cl).
Proof.
  intros Hreach Hcalm Hnf Hp Hwf Hd Hr Hl. cbv zeta. apply reachable_ok in Hreach as [Hok _ _ _ _].
  destruct (loop_upload fuel m data v s v1 s1 Hok Hcalm Hnf Hp Hwf Hd Hr Hl) as (v2 & s2 & Hloop & Hsent & Hthere).
  do 2 eexists. exists v2, s2. split; [exact Hloop|]. split; [exact Hsent|]. split; [intros; by apply client_upload|].
  intros token from peer Htok Hsize Hfrom Hcalmp Hreads Hrate.
  destruct (loop_download fuel m data token from v2 peer Hwf Hd Hthere Htok Hsize Hfrom Hcalmp Hreads Hrate)
    as (v3 & s3 & e & He & Hr3 & Hs3 & <-).
  do 5 eexists. split; [exact Hr3|]. split; [exact Hs3|]. intros cl ins out. cbn [app]. rewrite <- app_assoc.
  apply client_download; [|done|done]. rewrite Hd. apply Hwf.
Qed.
End file_link.

Lemma ex_signed_in_reachable : reachable ex_signed_in.1.(store).
Proof.
  apply (rtc_l _ _ ex_start.(store)).
  { apply (step_add_invite empty_db (sha256 ex_invite) 5000 tt ex_start.(store)). vm_compute. reflexivity. }
  apply rtc_once, (step_register ex_start.(store) (sha256 ex_invite) ex_mailbox ex_key (sha256 ex_token) 1000 (max_mailboxes default_limits) Register_Ok).
  vm_compute. reflexivity.
Qed.

Lemma file_over_the_wire_witness :
  exists requests answers v' s',
    run (session_loop default_limits ex_relay 5 (map received requests)) ex_signed_in.1 ex_signed_in.2 = (Some (Some tt), v', s') /\
    Client.upload_file ex_begin (fun i => Some (piece 5 i (str "hello"))) (on answers [] (Client.mkRelayClient None [] [] [] ∅))
      = (inr tt, on [] requests (Client.mkRelayClient None [] [] [] ∅)).
Proof.
  destruct (file_over_the_wire default_limits ex_relay 5 ex_begin (str "hello") ex_signed_in.1 ex_signed_in.2 ex_begun.1.2 ex_begun.2)
    as (requests & answers & v' & s' & Hr & _ & Hup & _).
  - exact ex_signed_in_reachable.
  - split; [vm_compute; reflexivity|intros H; vm_compute in H; discriminate].
  - vm_compute. reflexivity.
  - vm_compute. reflexivity.
  - apply (decode_file_begin_spec (encode_FileBegin ex_begin)). vm_compute. reflexivity.
  - vm_compute. reflexivity.
  - apply run_eta. vm_compute. reflexivity.
  - vm_compute. reflexivity.
  - exists requests, answers, v', s'. split; [exact Hr|].
    pose proof (Hup (Client.mkRelayClient None [] [] [] ∅) [] []) as H. rewrite app_nil_r in H. exact H.
Defined.
