(* ===== verification/RelaySignIn.v ===== *)
(** * Getting in: the relay's proof and the owner's

    [RelayClient.connect] and [authenticate] against the hello and the first request
    of [RelayService.session_body]: the relay proves its key to the client, the client
    proves the mailbox's key to the relay, and nobody else can do either. *)

From Stdlib Require Import ZArith Lia.
From stdpp Require Import base list strings gmap.
From S2P Require Import Prelude Threads Wire Text Protocol RelayProtocol RelayProtocolSpec Crypto RelayClient Sql RelayStore RelayStoreInv RelayArchive RelayReach RelayState RelayService RelayConcurrent RelaySession RelayTransfers RelayLink.
#[local] Open Scope Z_scope.
#[local] Open Scope prog_scope.

(** ** Signing in *)

Section sign_in_link.
Context `{PL : PrimitiveLaws}.
Variable limits : RelayLimits.

(** A key pair signs, and the signature is accepted and fits. *)
Lemma signs seed rand m :
  let pair := prim_sig_keypair seed in
  let signature := prim_sign rand m pair.2 in
  sign rand m pair.2 = Ret signature /\ verify m signature pair.1 = true /\
  size pair.1 = sig_public_key_size /\ size pair.1 <= MAX_KEY_BLOB /\ size signature <= MAX_KEY_BLOB.
Proof.
  cbv zeta. pose proof (sig_correct seed rand m) as Hv. destruct (sig_sizes seed rand m (prim_sig_keypair seed).2) as (Hp & Hs & Hl).
  pose proof algorithm_sizes as (_ & _ & _ & Hmax). pose proof sig_public_size_bound as Hpub.
  destruct (prim_sig_keypair seed) as [pk sk]. cbn [fst snd] in *. unfold MAX_KEY_BLOB.
  split_and!; [|unfold verify|done|lia|lia].
  - unfold sign, require_size. by rewrite Hs, Z.eqb_refl.
  - rewrite Hp, Z.eqb_refl, (proj2 (is_empty_false _)), (proj2 (Z.ltb_ge _ _)) by lia. done.
Qed.

Definition hello_of (nonce : bytes) : bytes := encode_Hello (mkHello WIRE_VERSION nonce).
Definition reply_of (seed rand nonce challenge : bytes) : HelloReply :=
  let pair := prim_sig_keypair seed in
  mkHelloReply pair.1 (prim_sign rand (hello_signing_input nonce (sha256 pair.1) WIRE_VERSION challenge) pair.2) challenge.
Definition auth_of (key_seed rand challenge relay_id mb : bytes) : bytes :=
  encode_Auth (mkAuth mb (prim_sign rand (auth_signing_input challenge relay_id mb) (prim_sig_keypair key_seed).2)).

Lemma reply_decodes seed rand nonce challenge :
  size challenge = NONCE_BYTES -> decode_hello_reply (encode_HelloReply (reply_of seed rand nonce challenge)) = Some (reply_of seed rand nonce challenge).
Proof.
  intros Hc. apply decode_hello_reply_spec. split; [|done].
  by destruct (signs seed rand (hello_signing_input nonce (sha256 (prim_sig_keypair seed).1) WIRE_VERSION challenge)) as (_ & _ & _ & ? & ?).
Qed.

(** The relay says hello with a fresh challenge. *)
Lemma relay_hello seed rand nonce v s :
  let pair := prim_sig_keypair seed in
  size nonce = NONCE_BYTES -> NONCE_BYTES <= size v.(entropy) -> s.(peer_reads) = None ->
  let challenge := ztake NONCE_BYTES v.(entropy) in
  run (session_hello pair.1 pair.2 (sha256 pair.1) (hello_of nonce) rand) v s =
  (Some true, set_entropy (zdrop NONCE_BYTES v.(entropy)) v,
   set_challenge challenge (push_sent (RELAY_HELLO_REPLY, encode_HelloReply (reply_of seed rand nonce challenge)) s)).
Proof.
  intros pair Hn He Hp challenge. unfold session_hello, hello_of.
  rewrite (proj2 (decode_hello_spec _ (mkHello WIRE_VERSION nonce))) by (split; [by split|done]).
  cbn [Hello_version Hello_client_nonce]. rewrite Z.eqb_refl. cbn [negb]. rewrite run_random, (proj2 (Z.ltb_ge _ _)) by done.
  fold challenge. destruct (signs seed rand (hello_signing_input nonce (sha256 pair.1) WIRE_VERSION challenge)) as (Hs & _).
  fold pair in Hs. unfold act. cbn [bind run]. rewrite Hs. rewrite run_send. unfold live. rewrite Hp. cbn [negb]. by rewrite run_modify.
Qed.

(** And accepts what the holder of the mailbox's key signs with it. *)
Lemma relay_auth relay_id key_seed rand mb v s :
  access_key v.(store) mb = Some (prim_sig_keypair key_seed).1 -> size mb = MAILBOX_ID_BYTES ->
  s.(challenge_used) = false -> s.(peer_reads) = None ->
  run (handle_auth relay_id (auth_of key_seed rand s.(challenge) relay_id mb)) v s =
  (Some Break, v, push_sent (RELAY_AUTH_OK, []) (set_mailbox (Some mb) (set_challenge_used true s))).
Proof.
  intros Hk Hmb Hu Hp. destruct (signs key_seed rand (auth_signing_input s.(challenge) relay_id mb)) as (_ & Hv & _ & _ & Hsz).
  unfold handle_auth, auth_of. rewrite (proj2 (decode_auth_spec _ (mkAuth mb _))) by (split; [by split|done]).
  rewrite run_get, Hu, run_modify, run_query. cbn [Auth_mailbox_id Auth_signature]. rewrite Hk, Hv. cbn [negb].
  rewrite run_modify, run_reply. unfold live. cbn. by rewrite Hp.
Qed.

(** The client accepts that hello, whether it has pinned the relay or not. *)
Lemma client_connect seed rand nonce challenge expected ins out cl :
  let relay_id := sha256 (prim_sig_keypair seed).1 in
  size challenge = NONCE_BYTES -> expected = [] \/ expected = relay_id ->
  Client.connect (inr (Client.mkSocket ((RELAY_HELLO_REPLY, encode_HelloReply (reply_of seed rand nonce challenge)) :: ins) None out)) nonce expected cl =
  (inr tt, Client.mkRelayClient (Some (Client.mkSocket ins None (out ++ [(RELAY_HELLO, hello_of nonce)]))) relay_id challenge [] ∅).
Proof.
  intros relay_id Hc Hexp. destruct (signs seed rand (hello_signing_input nonce relay_id WIRE_VERSION challenge)) as (_ & Hv & Hsz & _).
  pose proof (reply_decodes seed rand nonce challenge Hc) as Hdec.
  unfold Client.connect, Client.cbind, Client.send_request, Client.receive.
  cbn [Client.close Client.set_sock Client.rc_sock Client.so_takes Client.so_in Client.so_sent fmap option_fmap option_map].
  unfold Client.check_hello. rewrite bool_decide_false, bool_decide_true, Hdec by done.
  cbn [reply_of HelloReply_relay_public_key HelloReply_signature HelloReply_auth_challenge]. rewrite Hsz, Z.eqb_refl. cbn [negb]. fold relay_id.
  assert (negb (is_empty expected) && negb (bool_decide (relay_id = expected)) = false) as ->.
  { destruct Hexp as [-> | ->]; [done|]. rewrite bool_decide_true by done. by destruct (is_empty relay_id). }
  rewrite Hv. done.
Qed.

Lemma client_authenticate key_seed rand challenge relay_id mb ins out :
  Client.authenticate rand mb (prim_sig_keypair key_seed).2
    (Client.mkRelayClient (Some (Client.mkSocket ((RELAY_AUTH_OK, []) :: ins) None out)) relay_id challenge [] ∅) =
  (inr tt, Client.mkRelayClient (Some (Client.mkSocket ins None (out ++ [(RELAY_AUTH, auth_of key_seed rand challenge relay_id mb)]))) relay_id challenge [] ∅).
Proof.
  destruct (signs key_seed rand (auth_signing_input challenge relay_id mb)) as (Hs & _).
  unfold Client.authenticate, Client.cbind. cbn [Client.rc_challenge Client.rc_relay_id]. by rewrite Hs.
Qed.

(** C13: an owner gets in. Against a relay with the key pair whose hash the client
    has pinned (or with no pin), which has randomness left for a challenge, the
    client's connect and authenticate with the private key of the mailbox both succeed:
    the requests they send make the relay's session prove its key, check the owner's
    signature of its own fresh challenge, and hold the mailbox as signed in. *)
Theorem sign_in_over_the_wire fuel seed key_seed rand key_rand nonce expected mb v s :
  let relay_id := sha256 (prim_sig_keypair seed).1 in
  size nonce = NONCE_BYTES -> size mb = MAILBOX_ID_BYTES -> expected = [] \/ expected = relay_id ->
  access_key v.(store) mb = Some (prim_sig_keypair key_seed).1 -> NONCE_BYTES <= size v.(entropy) ->
  calm v s -> s.(peer_reads) = None -> s.(challenge_used) = false ->
  exists hello auth answers v' s',
    run (session_body limits (prim_sig_keypair seed).1 (prim_sig_keypair seed).2 relay_id fuel hello rand [received (RELAY_AUTH, auth)]) v s
      = (Some (Some tt), v', s') /\
    s'.(mailbox) = Some mb /\ s'.(sent) = s.(sent) ++ answers /\ v'.(store) = v.(store) /\
    forall cl ins out, exists c1 c2, Client.connect (inr (Client.mkSocket (answers ++ ins) None out)) nonce expected cl = (inr tt, c1) /\
      Client.authenticate key_rand mb (prim_sig_keypair key_seed).2 c1 = (inr tt, c2) /\ c2.(Client.rc_relay_id) = relay_id /\
      c2.(Client.rc_sock) = Some (Client.mkSocket ins None (out ++ [(RELAY_HELLO, hello); (RELAY_AUTH, auth)])).
Proof.
  intros relay_id Hn Hmb Hexp Hk He Hcalm Hp Hu. set (challenge := ztake NONCE_BYTES v.(entropy)).
  assert (size challenge = NONCE_BYTES) as Hc by (unfold challenge; rewrite size_ztake; unfold NONCE_BYTES in *; lia).
  pose proof (relay_hello seed rand nonce v s Hn He Hp) as Hr1. cbv zeta in Hr1. fold relay_id challenge in Hr1.
  set (v1 := set_entropy _ v) in Hr1. set (s1 := set_challenge _ _) in Hr1.
  assert (s1.(peer_reads) = None /\ s1.(sent) = s.(sent) ++ [(RELAY_HELLO_REPLY, encode_HelloReply (reply_of seed rand nonce challenge))]) as [Hp1 Hs1]
    by (split; [cbn; by rewrite Hp|done]).
  pose proof (relay_auth relay_id key_seed key_rand mb v1 s1 Hk Hmb Hu Hp1) as Hr2. change (RelayState.challenge s1) with challenge in Hr2.
  assert (run (handle_message limits relay_id fuel RELAY_AUTH (auth_of key_seed key_rand challenge relay_id mb) v1.(clock)) v1 s1
          = (Some (Some Break), v1, push_sent (RELAY_AUTH_OK, []) (set_mailbox (Some mb) (set_challenge_used true s1)))) as Hh
    by (unfold handle_message; by rewrite run_bind, Hr2).
  destruct (loop_round limits relay_id fuel RELAY_AUTH _ [] v1 s1 _ _ Hcalm ltac:(done) Hh) as (Hloop & _).
  eexists (hello_of nonce), _, [_; (RELAY_AUTH_OK, [])], v1, _.
  split; [unfold session_body; rewrite run_bind, Hr1; exact Hloop|]. split; [done|].
  split; [cbn [push_sent set_peer_reads set_sent sent set_mailbox set_challenge_used]; rewrite Hs1; by rewrite <- app_assoc|]. split; [done|].
  intros cl ins out. do 2 eexists. split; [by apply client_connect|]. split; [apply client_authenticate|]. split; [done|]. cbn. by rewrite <- app_assoc.
Qed.
End sign_in_link.

Lemma sign_in_over_the_wire_witness :
  exists hello auth v' s', run (session_body default_limits (prim_sig_keypair ex_relay).1 (prim_sig_keypair ex_relay).2
      (sha256 (prim_sig_keypair ex_relay).1) 5 hello [] [received (RELAY_AUTH, auth)]) ex_registered.1 ex_session = (Some (Some tt), v', s') /\
    s'.(mailbox) = Some ex_mailbox /\
    exists answers c1 c2, Client.connect (inr (Client.mkSocket (answers ++ []) None [])) (replicate 32 Byte.x77) (sha256 (prim_sig_keypair ex_relay).1)
        (Client.mkRelayClient None [] [] [] ∅) = (inr tt, c1) /\ Client.authenticate [] ex_mailbox (prim_sig_keypair ex_key).2 c1 = (inr tt, c2).
Proof.
  destruct (sign_in_over_the_wire default_limits 5 ex_relay ex_key [] [] (replicate 32 Byte.x77) (sha256 (prim_sig_keypair ex_relay).1) ex_mailbox
    ex_registered.1 ex_session) as (hello & auth & answers & v' & s' & Hr & Hm & _ & _ & Hcl).
  - reflexivity.
  - reflexivity.
  - right. reflexivity.
  - vm_compute. reflexivity.
  - vm_compute. discriminate.
  - split; [vm_compute; reflexivity|intros H; vm_compute in H; discriminate].
  - reflexivity.
  - reflexivity.
  - destruct (Hcl (Client.mkRelayClient None [] [] [] ∅) [] []) as (c1 & c2 & H1 & H2 & _).
    exists hello, auth, v', s'. split; [exact Hr|]. split; [exact Hm|]. exists answers, c1, c2. split; [exact H1|exact H2].
Defined.

(** C10: nobody can pose as the relay. With a pinned relay identity, the client's
    connect succeeds exactly when the first message on the socket is a hello reply
    with a public key of the right size, whose hash is the pinned identity, and a
    signature by that key of this client's own nonce and the challenge; what the client
    keeps then is that identity and challenge, and nothing that an earlier connection
    left. Whatever else comes, or nothing, the call fails and the socket is closed. *)
Theorem connect_pins_relay `{P : Primitives} sock nonce expected c :
  expected <> [] -> sock.(Client.so_takes) <> Some O ->
  let proves reply :=
    size reply.(HelloReply_relay_public_key) = sig_public_key_size /\ sha256 reply.(HelloReply_relay_public_key) = expected /\
    verify (hello_signing_input nonce expected WIRE_VERSION reply.(HelloReply_auth_challenge)) reply.(HelloReply_signature)
      reply.(HelloReply_relay_public_key) = true in
  let '(result, c') := Client.connect (inr sock) nonce expected c in
  ((exists u, result = inr u) <->
     exists payload rest reply, sock.(Client.so_in) = (RELAY_HELLO_REPLY, payload) :: rest /\ decode_hello_reply payload = Some reply /\ proves reply) /\
  match result with
  | inr _ => exists reply, proves reply /\ c'.(Client.rc_relay_id) = expected /\ c'.(Client.rc_challenge) = reply.(HelloReply_auth_challenge) /\
      c'.(Client.rc_queue) = [] /\ c'.(Client.rc_seen) = ∅
  | inl _ => Client.connected c' = false
  end.
Proof.
  intros Hexp Htakes proves. destruct sock as [ins takes out]. cbn [Client.so_takes Client.so_in] in *.
  assert (is_empty expected = false) as He by (by destruct expected).
  unfold Client.connect, Client.cbind, Client.send_request, Client.receive. cbn.
  replace (match takes with Some O => _ | _ => _ end) with
    (@inr bytes unit tt, Client.set_sock (Some (Client.mkSocket ins (Nat.pred <$> takes) (out ++ [(RELAY_HELLO, encode_Hello (mkHello WIRE_VERSION nonce))]))) (Client.close c))
    by (by destruct takes as [[|n]|]).
  cbn. destruct ins as [|[t payload] ins]; [split; [|done]; split; [by intros [? ?]|by intros (? & ? & ? & ? & _)]|].
  unfold Client.check_hello. case_bool_decide as Herr; [subst t; split; [|done]; split; [by intros [? ?]|by intros (? & ? & ? & ? & _)]|].
  case_bool_decide as Ht; [subst t|split; [|done]; split; [by intros [? ?]|intros (? & ? & ? & [= ? _] & _); congruence]].
  destruct (decode_hello_reply payload) as [reply|] eqn:Hd; [|split; [|done]; split; [by intros [? ?]|intros (? & ? & ? & [= <- _] & ? & _); congruence]].
  assert ((exists payload' rest reply', (RELAY_HELLO_REPLY, payload) :: ins = (RELAY_HELLO_REPLY, payload') :: rest /\
    decode_hello_reply payload' = Some reply' /\ proves reply') <-> proves reply) as Hiff.
  { split; [intros (? & ? & ? & [= <- _] & Hd' & ?); congruence|eauto 8]. }
  rewrite He. destruct (Z.eqb_spec (size (HelloReply_relay_public_key reply)) sig_public_key_size) as [Hs|Hs]; cbn [negb andb];
    [|split; [|done]; rewrite Hiff; split; [by intros [? ?]|by intros [? _]]].
  case_bool_decide as Hid; cbn [negb]; [|split; [|done]; rewrite Hiff; split; [by intros [? ?]|by intros (_ & ? & _)]].
  rewrite Hid. destruct (verify _ _ _) eqn:Hv; cbn [negb]; [|split; [|done]; rewrite Hiff; split; [by intros [? ?]|intros (_ & _ & ?); congruence]].
  split; [rewrite Hiff; split; [done|eauto]|]. exists reply. done.
Qed.

Definition ex_hello_socket : Client.Socket :=
  Client.mkSocket [(RELAY_HELLO_REPLY, encode_HelloReply (reply_of ex_relay [] (replicate 32 Byte.x77) (replicate 32 Byte.x5a)))] None [].

Lemma connect_pins_relay_witness :
  exists u, (Client.connect (inr ex_hello_socket) (replicate 32 Byte.x77) (sha256 (prim_sig_keypair ex_relay).1)
    (Client.mkRelayClient None [] [] [] ∅)).1 = inr u.
Proof.
  assert (sha256 (prim_sig_keypair ex_relay).1 <> []) as Hid by (intros E; vm_compute in E; discriminate E).
  assert (Client.so_takes ex_hello_socket <> Some O) as Htakes by discriminate.
  pose proof (connect_pins_relay ex_hello_socket (replicate 32 Byte.x77) _ (Client.mkRelayClient None [] [] [] ∅) Hid Htakes) as H.
  destruct (Client.connect _ _ _ _) as [result c']. cbv zeta in H. destruct H as [H _]. apply H.
  exists (encode_HelloReply (reply_of ex_relay [] (replicate 32 Byte.x77) (replicate 32 Byte.x5a))), [],
    (reply_of ex_relay [] (replicate 32 Byte.x77) (replicate 32 Byte.x5a)).
  split; [reflexivity|]. split; [apply reply_decodes; reflexivity|]. split; [reflexivity|]. split; [reflexivity|]. vm_compute. reflexivity.
Defined.
