(* ===== verification/TransferServer.v ===== *)
(** * Transfers of protocol v2 on the server: the first half of server/main.cpp

    Complete uploads are kept in a table, their bytes in a folder each; a transfer is
    handed to whoever presents its ID, and deleted when the receiver confirms. Every
    connection runs in a thread of its own: what happens while the mutex is held is one
    action, and so is every call on a file, a folder or the socket. The folders are those
    in the storage folder, by name. What the file system answers, the messages that come
    and how many are taken, are part of a connection. The log is left out. Times are in
    nanoseconds. *)

From Stdlib Require Import ZArith Lia.
From stdpp Require Import base list strings gmap.
From S2P Require Import Prelude Threads Wire Text Protocol.
#[local] Open Scope Z_scope.
#[local] Open Scope prog_scope.

(** src/server/main.cpp 39-39 MAX_CONNECTIONS *)
Definition MAX_CONNECTIONS : Z := 64.
(** src/server/main.cpp 41-41 TRANSFER_TTL *)
Definition TRANSFER_TTL : Z := 24 * 3600 * 10 ^ 9.
(** src/server/main.cpp 43-43 DEFAULT_QUOTA_GB *)
Definition DEFAULT_QUOTA_GB : Z := 50.

(** ** State *)

(** A file: its bytes and when it was last written. *)
Record File := mkFile { f_data : bytes; f_written : Z }.
Abbreviation Dir := (gmap bytes File).

(** src/server/main.cpp 50-56 StoredTransfer *)
Record StoredTransfer := mkStoredTransfer {
  st_header : FileHeader;
  st_dir : bytes;
  st_created : Z;
  st_reserved_bytes : Z;
  st_downloading : bool;
}.

(** The steady clock and that of the file system; the random bytes to come; the relay
    of protocol v3 is apart.
    src/server/main.cpp 58-64 g_transfers *)
Record Server := mkServer {
  g_transfers : gmap bytes StoredTransfer;
  g_reserved_bytes : Z;
  g_storage_quota : Z;
  g_active_connections : Z;
  storage : gmap bytes Dir;
  steady_now : Z;
  file_now : Z;
  random : bytes;
}.

(** What the file system answers: it does what it is asked; it does nothing; or it
    fails after writing that many bytes. *)
Inductive answer :=
  | Fine
  | Refused
  | Broken (wrote : Z).

(** A connection: the messages still to come on it, how many more it takes, what was
    sent; the answers of the file system; and what the scope guards of its handler would
    do: give back reserved space and remove a folder, make a transfer free again. [leaving]
    are folders that it is about to remove. *)
Record Conn := mkConn {
  inbox : list (MessageType * bytes);
  takes : option nat;
  outbox : list (MessageType * bytes);
  answers : list answer;
  reserving : option Z;
  own_dir : option bytes;
  claimed : option bytes;
  leaving : list bytes;
}.

Definition new_conn (ins : list (MessageType * bytes)) (takes : option nat) (answers : list answer) : Conn :=
  mkConn ins takes [] answers None None None [].

Definition with_table (t : gmap bytes StoredTransfer) (reserved : Z) (v : Server) : Server :=
  mkServer t reserved v.(g_storage_quota) v.(g_active_connections) v.(storage) v.(steady_now) v.(file_now) v.(random).
Definition with_storage (d : gmap bytes Dir) (v : Server) : Server :=
  mkServer v.(g_transfers) v.(g_reserved_bytes) v.(g_storage_quota) v.(g_active_connections) d v.(steady_now) v.(file_now) v.(random).
Definition with_connections (n : Z) (v : Server) : Server :=
  mkServer v.(g_transfers) v.(g_reserved_bytes) v.(g_storage_quota) n v.(storage) v.(steady_now) v.(file_now) v.(random).
Definition with_random (r : bytes) (v : Server) : Server :=
  mkServer v.(g_transfers) v.(g_reserved_bytes) v.(g_storage_quota) v.(g_active_connections) v.(storage) v.(steady_now) v.(file_now) r.

Definition with_socket (ins : list (MessageType * bytes)) (n : option nat) (out : list (MessageType * bytes)) (c : Conn) : Conn :=
  mkConn ins n out c.(answers) c.(reserving) c.(own_dir) c.(claimed) c.(leaving).
Definition with_answers (a : list answer) (c : Conn) : Conn :=
  mkConn c.(inbox) c.(takes) c.(outbox) a c.(reserving) c.(own_dir) c.(claimed) c.(leaving).
Definition with_reserving (r : option Z) (d : option bytes) (c : Conn) : Conn :=
  mkConn c.(inbox) c.(takes) c.(outbox) c.(answers) r d c.(claimed) c.(leaving).
Definition with_claimed (id : option bytes) (c : Conn) : Conn :=
  mkConn c.(inbox) c.(takes) c.(outbox) c.(answers) c.(reserving) c.(own_dir) id c.(leaving).
Definition with_leaving (l : list bytes) (c : Conn) : Conn :=
  mkConn c.(inbox) c.(takes) c.(outbox) c.(answers) c.(reserving) c.(own_dir) c.(claimed) l.

Abbreviation prog := (Threads.prog Server Conn).

Definition get : prog Conn := act (fun v c => Some (c, v, c)).

(** ** The socket *)

(** [send_message]: false if the connection has failed. *)
Definition pushed (t : MessageType) (payload : bytes) (c : Conn) : bool * Conn :=
  match c.(takes) with
  | Some O => (false, c)
  | n => (true, with_socket c.(inbox) (Nat.pred <$> n) (c.(outbox) ++ [(t, payload)]) c)
  end.
Definition send_message (t : MessageType) (payload : bytes) : prog bool :=
  act (fun v c => let '(ok, c) := pushed t payload c in Some (ok, v, c)).

(** src/server/main.cpp 88-90 send_error *)
Definition send_error (message : bytes) : prog unit := let* _ := send_message ERROR_MSG message in Done tt.
Abbreviation error text := (send_error (str text)).

(** Nothing more comes, or something too large: nothing is returned. *)
Definition recv_message (max_payload : Z) : prog (option (MessageType * bytes)) :=
  act (fun v c =>
    match c.(inbox) with
    | [] => Some (None, v, c)
    | m :: rest => Some (if max_payload <? size m.2 then None else Some m, v, with_socket rest c.(takes) c.(outbox) c)
    end).

(** ** Files and folders *)

(** [std::snprintf(buf, sizeof(buf), "chunk_%08u.bin", index)].
    src/server/main.cpp 92-96 chunk_filename *)
Definition chunk_filename (index : Z) : bytes :=
  let n := to_string index in str "chunk_" ++ replicate (8 - length n) (chr 48) ++ n ++ str ".bin".

Definition HEADER_FILE : bytes := str "header.bin".

Definition next_answer (c : Conn) : answer * Conn :=
  match c.(answers) with [] => (Fine, c) | a :: rest => (a, with_answers rest c) end.

(** [write_whole_file(dir / name, ...)]: what is there when it fails is the beginning,
    or what was there before if it could not be opened.
    src/server/main.cpp 98-104 write_whole_file *)
Definition write_whole_file (dir name data : bytes) : prog bool :=
  act (fun v c =>
    let '(a, c) := next_answer c in
    match a, v.(storage) !! dir with
    | Refused, _ | _, None => Some (false, v, c)
    | Fine, Some d => Some (true, with_storage (<[dir := <[name := mkFile data v.(file_now)]> d]> v.(storage)) v, c)
    | Broken n, Some d => Some (false, with_storage (<[dir := <[name := mkFile (ztake n data) v.(file_now)]> d]> v.(storage)) v, c)
    end).

Definition file_in (v : Server) (dir name : bytes) : option File := let? d := v.(storage) !! dir in d !! name.

(** src/server/main.cpp 106-116 read_whole_file *)
Definition read_whole_file (dir name : bytes) (max_size : Z) : prog (option bytes) :=
  act (fun v c =>
    let '(a, c) := next_answer c in
    Some (match a, file_in v dir name with
          | Fine, Some f => if max_size <? size f.(f_data) then None else Some f.(f_data)
          | _, _ => None
          end, v, c)).

(** [fs::file_size(path, ec)]. *)
Definition file_size (dir name : bytes) : prog (option Z) :=
  act (fun v c =>
    let '(a, c) := next_answer c in
    Some (match a, file_in v dir name with Fine, Some f => Some (size f.(f_data)) | _, _ => None end, v, c)).

(** What is left of a folder that could not be removed is not modelled: it goes, or
    everything stays.
    src/server/main.cpp 118-121 remove_dir_quietly *)
Definition removed (dir : bytes) (v : Server) (c : Conn) : Server * Conn :=
  let '(a, c) := next_answer c in
  (match a with Fine => with_storage (delete dir v.(storage)) v | _ => v end, c).

(** A folder on the way out is removed, and no longer on the way out. *)
Definition remove_leaving (dir : bytes) : prog unit :=
  act (fun v c => let '(v, c) := removed dir v c in Some (tt, v, with_leaving (list_difference c.(leaving) [dir]) c)).

(** src/server/main.cpp 124-126 storage_cost *)
Definition storage_cost (h : FileHeader) (header_bytes : Z) : Z :=
  u64 (u64 (h.(FileHeader_file_size) + u64 (h.(FileHeader_total_chunks) * AEAD_TAG_SIZE)) + header_bytes).

(** src/server/main.cpp 131-138 transfer_age_on_disk *)
Definition transfer_age_on_disk (dir name : bytes) : prog Z :=
  act (fun v c =>
    let '(a, c) := next_answer c in
    Some (match a, file_in v dir name with
          | Fine, Some f => Z.max 0 (v.(file_now) - f.(f_written))
          | _, _ => 0
          end, v, c)).

(** ** Upload *)

(** [RAND_bytes] can fail.
    src/server/main.cpp 82-86 generate_transfer_id *)
Definition generate_transfer_id : prog (option bytes) :=
  act (fun v c =>
    if size v.(random) <? TRANSFER_ID_BYTES then Some (None, v, c)
    else Some (Some (bytes_to_hex (ztake TRANSFER_ID_BYTES v.(random))), with_random (zdrop TRANSFER_ID_BYTES v.(random)) v, c)).

(** Under the mutex, with the error sent while it is held; from then on the guard
    gives the space back.
    src/server/main.cpp 155-163 handle_upload *)
Definition reserve_space (reserve : Z) : prog bool :=
  act (fun v c =>
    if v.(g_storage_quota) <? u64 (v.(g_reserved_bytes) + reserve)
    then Some (false, v, (pushed ERROR_MSG (str "Relay server storage is full, try again later") c).2)
    else Some (true, with_table v.(g_transfers) (u64 (v.(g_reserved_bytes) + reserve)) v, with_reserving (Some reserve) None c)).

(** [fs::create_directory] says false for a folder that is there; then [dir = candidate].
    src/server/main.cpp 179-184 handle_upload *)
Definition create_directory (id : bytes) : prog bool :=
  act (fun v c =>
    let '(a, c) := next_answer c in
    match a, v.(storage) !! id with
    | Fine, None => Some (true, with_storage (<[id := ∅]> v.(storage)) v, with_reserving c.(reserving) (Some id) c)
    | _, _ => Some (false, v, c)
    end).

(** The loop: [None] when the handler returns from it. A round takes a message, so
    there are at most as many rounds as messages to come.
    src/server/main.cpp 195-231 handle_upload *)
Fixpoint receive_chunks (fuel : nat) (header : FileHeader) (dir : bytes) (received : gset Z) : prog (option (gset Z)) :=
  match fuel with
  | O => Done None
  | S fuel =>
      let* msg := recv_message MAX_CHUNK_MESSAGE in
      match msg with
      | None => Done None
      | Some (UPLOAD_DONE, _) => Done (Some received)
      | Some (UPLOAD_CHUNK, payload) =>
          match deserialize_file_chunk payload with
          | None => let* _ := error "Malformed chunk" in Done None
          | Some chunk =>
              let idx := chunk.(FileChunk_chunk_index) in
              if (header.(FileHeader_total_chunks) <=? idx) || bool_decide (idx ∈ received) then
                let* _ := send_error (str "Invalid or duplicate chunk index " ++ to_string idx) in Done None else
              let expected := u64 (expected_chunk_plaintext_size header idx + AEAD_TAG_SIZE) in
              if negb (size chunk.(FileChunk_data) =? expected) then
                let* _ := send_error (str "Chunk " ++ to_string idx ++ str " has an unexpected size") in Done None else
              let* written := write_whole_file dir (chunk_filename idx) chunk.(FileChunk_data) in
              if negb written then let* _ := error "Server storage error" in Done None else
              receive_chunks fuel header dir ({[idx]} ∪ received)
          end
      | Some _ => let* _ := error "Unexpected message during upload" in Done None
      end
  end.

(** Under the mutex; then the guard is dismissed.
    src/server/main.cpp 239-243 handle_upload *)
Definition publish (id : bytes) (header : FileHeader) (reserve : Z) : prog unit :=
  act (fun v c =>
    Some (tt, with_table (<[id := mkStoredTransfer header id v.(steady_now) reserve false]> v.(g_transfers)) v.(g_reserved_bytes) v,
          with_reserving None None c)).

(** src/server/main.cpp 142-247 handle_upload *)
Definition handle_upload (header_bytes : bytes) : prog unit :=
  match deserialize_file_header header_bytes with
  | None => error "Malformed file header (client and server versions may not match)"
  | Some header =>
      let problem := validate_file_header header in
      if negb (bool_decide (problem = ""%string)) then error problem else
      let reserve := storage_cost header (size header_bytes) in
      let* room := reserve_space reserve in
      if negb room then Done tt else
      let* id := generate_transfer_id in
      match id with
      | None => error "Server could not generate a transfer ID"
      | Some id =>
          let* made := create_directory id in
          if negb made then error "Server storage error" else
          let* written := write_whole_file id HEADER_FILE header_bytes in
          if negb written then error "Server storage error" else
          let* sent := send_message ACK id in
          if negb sent then Done tt else
          let* c := get in
          let* received := receive_chunks (S (length c.(inbox))) header id ∅ in
          match received with
          | None => Done tt
          | Some received =>
              let received_count := Z.of_nat (stdpp.base.size received) in
              if negb (received_count =? header.(FileHeader_total_chunks)) then
                send_error (str "Upload incomplete: received " ++ to_string received_count ++ str " of "
                            ++ to_string header.(FileHeader_total_chunks) ++ str " chunks")
              else
                let* _ := publish id header reserve in
                let* _ := send_message ACK (str "UPLOAD_COMPLETE") in
                Done tt
          end
      end
  end.

(** The guard of an upload: it runs under the mutex.
    src/server/main.cpp 166-170 handle_upload *)
Definition upload_guard : prog unit :=
  act (fun v c =>
    match c.(reserving) with
    | None => Some (tt, v, c)
    | Some reserve =>
        let v := with_table v.(g_transfers) (u64 (v.(g_reserved_bytes) - reserve)) v in
        let '(v, c) := match c.(own_dir) with Some dir => removed dir v c | None => (v, c) end in
        Some (tt, v, with_reserving None None c)
    end).

(** ** Download *)

Inductive claim :=
  | NotFound
  | Busy
  | Claimed (transfer : StoredTransfer).

(** What the handler finds when it stops waiting, because the transfer is free or gone
    or ten seconds have passed.
    src/server/main.cpp 259-278 handle_download *)
Definition claim_transfer (id : bytes) : prog claim :=
  act (fun v c =>
    match v.(g_transfers) !! id with
    | None => Some (NotFound, v, c)
    | Some t =>
        if t.(st_downloading) then Some (Busy, v, c) else
        let t := mkStoredTransfer t.(st_header) t.(st_dir) t.(st_created) t.(st_reserved_bytes) true in
        Some (Claimed t, with_table (<[id := t]> v.(g_transfers)) v.(g_reserved_bytes) v, with_claimed (Some id) c)
    end).

(** The chunks from [i] on, [n] of them; false when the handler returns.
    src/server/main.cpp 299-311 handle_download *)
Fixpoint send_chunks (n : nat) (i : Z) (dir : bytes) : prog bool :=
  match n with
  | O => Done true
  | S n =>
      let* data := read_whole_file dir (chunk_filename i) (MAX_CHUNK_SIZE + AEAD_TAG_SIZE) in
      match data with
      | None => let* _ := error "Server storage error" in Done false
      | Some data =>
          let* sent := send_message DOWNLOAD_CHUNK (serialize_file_chunk (mkFileChunk i data)) in
          if negb sent then Done false else send_chunks n (u32 (i + 1)) dir
      end
  end.

(** Under the mutex; then the guard is dismissed and the folder is on its way out.
    src/server/main.cpp 323-332 handle_download *)
Definition forget_transfer (id dir : bytes) : prog unit :=
  act (fun v c =>
    let v := match v.(g_transfers) !! id with
             | Some t => with_table (delete id v.(g_transfers)) (u64 (v.(g_reserved_bytes) - t.(st_reserved_bytes))) v
             | None => v
             end in
    Some (tt, v, with_leaving (dir :: c.(leaving)) (with_claimed None c))).

(** src/server/main.cpp 251-335 handle_download *)
Definition handle_download (payload : bytes) : prog unit :=
  let id := payload in
  let not_found := "Transfer not found (it may have expired or already been received)" in
  if negb (is_lower_hex id TRANSFER_ID_HEX_LEN) then error not_found else
  let* found := claim_transfer id in
  match found with
  | NotFound => error not_found
  | Busy => error "This transfer is already being downloaded"
  | Claimed transfer =>
      let* header_bytes := read_whole_file transfer.(st_dir) HEADER_FILE MAX_HEADER_MESSAGE in
      match header_bytes with
      | None => error "Server storage error"
      | Some header_bytes =>
          let* sent := send_message DOWNLOAD_HEADER header_bytes in
          if negb sent then Done tt else
          let* sent := send_chunks (Z.to_nat transfer.(st_header).(FileHeader_total_chunks)) 0 transfer.(st_dir) in
          if negb sent then Done tt else
          let* sent := send_message DOWNLOAD_DONE [] in
          if negb sent then Done tt else
          let* confirm := recv_message MAX_CONTROL_MESSAGE in
          match confirm with
          | Some (ACK, _) =>
              let* _ := forget_transfer id transfer.(st_dir) in
              remove_leaving transfer.(st_dir)
          | _ => Done tt
          end
      end
  end.

(** The guard of a download: it runs under the mutex.
    src/server/main.cpp 283-288 handle_download *)
Definition download_guard : prog unit :=
  act (fun v c =>
    match c.(claimed) with
    | None => Some (tt, v, c)
    | Some id =>
        let v := match v.(g_transfers) !! id with
                 | Some t => with_table (<[id := mkStoredTransfer t.(st_header) t.(st_dir) t.(st_created) t.(st_reserved_bytes) false]>
                                          v.(g_transfers)) v.(g_reserved_bytes) v
                 | None => v
                 end in
        Some (tt, v, with_claimed None c)
    end).

(** ** Connections *)

Section relay.
(** The session of protocol v3 is in [RelayService], with a state of its own: here it is
    what it does on this connection. *)
Variable handle_session : bytes -> prog unit.

(** src/server/main.cpp 348-369 handle_client *)
Definition handle_client : prog unit :=
  let* first := recv_message MAX_HEADER_MESSAGE in
  match first with
  | None => Done tt
  | Some (UPLOAD_REQUEST, payload) => handle_upload payload
  | Some (DOWNLOAD_REQUEST, payload) => handle_download payload
  | Some (RELAY_HELLO, payload) => handle_session payload
  | Some _ => error "Unexpected first message"
  end.
End relay.

(** The guards, from the innermost: those of the handlers, and that of the connection.
    src/server/main.cpp 340-343 handle_client *)
Definition client_guards : prog unit :=
  let* _ := upload_guard in
  let* _ := download_guard in
  act (fun v c => Some (tt, with_connections (v.(g_active_connections) - 1) v, c)).

(** A connection is taken, unless there are too many.
    src/server/main.cpp 775-781 main *)
Definition accept_connection (v : Server) : option Server :=
  if MAX_CONNECTIONS <=? v.(g_active_connections) then None else Some (with_connections (v.(g_active_connections) + 1) v).

(** ** What runs besides *)

Definition expired (v : Server) (t : StoredTransfer) : Prop :=
  t.(st_downloading) = false /\ TRANSFER_TTL < v.(steady_now) - t.(st_created).
#[global] Instance expired_dec v t : Decision (expired v t).
Proof. unfold expired. apply _. Defined.

(** Under the mutex: the transfers that are too old go from the table.
    src/server/main.cpp 377-390 cleanup_loop *)
Definition drop_expired : prog (list bytes) :=
  act (fun v c =>
    let old := filter (fun e => expired v e.2) (map_to_list v.(g_transfers)) in
    let dirs := map (fun e => e.2.(st_dir)) old in
    let reserved := foldl (fun r e => u64 (r - e.2.(st_reserved_bytes))) v.(g_reserved_bytes) old in
    let table := filter (fun e => ~ expired v e.2) v.(g_transfers) in
    Some (dirs, with_table table reserved v, with_leaving (dirs ++ c.(leaving)) c)).

Fixpoint remove_all (dirs : list bytes) : prog unit :=
  match dirs with
  | [] => Done tt
  | d :: dirs => let* _ := remove_leaving d in remove_all dirs
  end.

(** One round of the loop.
    src/server/main.cpp 373-394 cleanup_loop *)
Definition cleanup_round : prog unit :=
  let* dirs := drop_expired in remove_all dirs.

(** ** Starting *)

(** The chunks from [i] on, [n] of them.
    src/server/main.cpp 451-455 restore_transfers *)
Fixpoint chunks_complete (n : nat) (i : Z) (header : FileHeader) (dir : bytes) : prog bool :=
  match n with
  | O => Done true
  | S n =>
      let* size := file_size dir (chunk_filename i) in
      match size with
      | Some size =>
          if size =? u64 (expected_chunk_plaintext_size header i + AEAD_TAG_SIZE)
          then chunks_complete n (u32 (i + 1)) header dir else Done false
      | None => Done false
      end
  end.

Definition remove_dir_quietly (dir : bytes) : prog unit := act (fun v c => let '(v, c) := removed dir v c in Some (tt, v, c)).

Inductive kept := Restored | Removed | Expired.

(** One folder.
    src/server/main.cpp 445-472 restore_transfers *)
Definition restore_dir (id : bytes) : prog kept :=
  let* bytes := read_whole_file id HEADER_FILE MAX_HEADER_MESSAGE in
  let header := let? bytes := bytes in deserialize_file_header bytes in
  let* complete :=
    match header with
    | Some header =>
        if bool_decide (validate_file_header header = ""%string)
        then chunks_complete (Z.to_nat header.(FileHeader_total_chunks)) 0 header id else Done false
    | None => Done false
    end in
  match bytes, header, complete with
  | Some bytes, Some header, true =>
      let* age := transfer_age_on_disk id HEADER_FILE in
      if TRANSFER_TTL <? age then let* _ := remove_dir_quietly id in Done Expired else
      let cost := storage_cost header (size bytes) in
      act (fun v c =>
        Some (Restored, with_table (<[id := mkStoredTransfer header id (v.(steady_now) - age) cost false]> v.(g_transfers))
                          (u64 (v.(g_reserved_bytes) + cost)) v, c))
  | _, _, _ => let* _ := remove_dir_quietly id in Done Removed
  end.

Fixpoint restore_dirs (ids : list bytes) : prog unit :=
  match ids with
  | [] => Done tt
  | id :: ids => let* _ := restore_dir id in restore_dirs ids
  end.

(** The folders of the storage folder, in some order.
    src/server/main.cpp 436-476 restore_transfers *)
Definition restore_transfers (entries : list bytes) : prog unit :=
  restore_dirs (filter (fun name => is_lower_hex name TRANSFER_ID_HEX_LEN = true) entries).
