(* ===== verification/TransferServerInv.v ===== *)
(** * What holds in every state of the transfer server

    Uploads, downloads and the cleanup run in any order, with messages, answers of the
    file system and exceptions of any kind. [server_inv] is what holds all the same: the
    space is accounted for, what is in the table is complete on disk, a transfer is
    downloaded by one connection at a time, and no thread touches another's folder. Each
    action keeps it; [Threads.System_invariant] does the rest. *)

From Stdlib Require Import ZArith Lia.
From stdpp Require Import base list strings gmap relations.
From S2P Require Import Prelude Threads Wire Text Protocol TransferServer.
#[local] Open Scope Z_scope.
#[local] Open Scope prog_scope.

(** ** The invariant *)

(** A folder with a whole transfer. *)
Record complete (h : FileHeader) (d : Dir) (cost : Z) : Prop := {
  co_header : exists f, d !! HEADER_FILE = Some f /\ deserialize_file_header f.(f_data) = Some h /\ cost = storage_cost h (size f.(f_data));
  co_valid : validate_file_header h = ""%string;
  co_chunks : forall i, 0 <= i < h.(FileHeader_total_chunks) ->
    exists f, d !! chunk_filename i = Some f /\ size f.(f_data) = expected_chunk_plaintext_size h i + AEAD_TAG_SIZE;
}.

Definition table_sum (t : gmap bytes StoredTransfer) : Z := sum_by (fun e => e.2.(st_reserved_bytes)) (map_to_list t).
Definition space (c : Conn) : Z := default 0 c.(reserving).
(** The folders that are a thread's own. *)
Definition held (c : Conn) : list bytes := match c.(own_dir) with Some d => d :: c.(leaving) | None => c.(leaving) end.

Section invariant.
(** What the reserved space never exceeds. *)
Variable bound : Z.

Record server_inv (v : Server) (cs : list Conn) : Prop := {
  si_space : v.(g_reserved_bytes) = table_sum v.(g_transfers) + sum_by space cs;
  si_positive : forall c, c ∈ cs -> 0 <= space c;
  si_bound : v.(g_storage_quota) <= bound /\ v.(g_reserved_bytes) <= bound;
  si_table : forall id t, v.(g_transfers) !! id = Some t ->
    t.(st_dir) = id /\ exists d, v.(storage) !! id = Some d /\ complete t.(st_header) d t.(st_reserved_bytes);
  si_claimed_once : NoDup (omap claimed cs);
  si_claims : forall id, id ∈ omap claimed cs <-> exists t, v.(g_transfers) !! id = Some t /\ t.(st_downloading) = true;
  si_held_once : NoDup (concat (map held cs));
  si_held : forall d, d ∈ concat (map held cs) -> v.(g_transfers) !! d = None /\ is_Some (v.(storage) !! d);
}.

(** What a thread relies on: nobody else changes its own folder. *)
Definition stable (c : Conn) (v v' : Server) : Prop := forall id, c.(own_dir) = Some id -> v'.(storage) !! id = v.(storage) !! id.

Lemma stable_refl c v : stable c v v.
Proof. done. Qed.
Lemma stable_trans c v1 v2 v3 : stable c v1 v2 -> stable c v2 v3 -> stable c v1 v3.
Proof. intros H1 H2 id Hid. by rewrite H2, H1. Qed.

Lemma sum_by_perm {A} (f : A -> Z) l l' : l ≡ₚ l' -> sum_by f l = sum_by f l'.
Proof. induction 1; simpl; lia. Qed.

Lemma sum_by_cons {A} (f : A -> Z) x l : sum_by f (x :: l) = f x + sum_by f l.
Proof. done. Qed.

Lemma concat_map_perm {A B} (f : A -> list B) l l' : l ≡ₚ l' -> concat (map f l) ≡ₚ concat (map f l').
Proof.
  induction 1; simpl; [done|by apply Permutation_app_head| |by etrans].
  rewrite !app_assoc. apply Permutation_app_tail, Permutation_app_comm.
Qed.

Lemma elem_of_concat_map {A B} (f : A -> list B) l x : x ∈ concat (map f l) <-> exists a, a ∈ l /\ x ∈ f a.
Proof.
  induction l as [|y l IH]; simpl; [split; [by intros ?%not_elem_of_nil|by intros (? & ?%not_elem_of_nil & _)]|].
  rewrite elem_of_app, IH. setoid_rewrite elem_of_cons. naive_solver.
Qed.

Lemma server_inv_perm v cs cs' : cs ≡ₚ cs' -> server_inv v cs -> server_inv v cs'.
Proof.
  intros Hp [H1 H2 H3 H4 H5 H6 H7 H8]. constructor; try done.
  - by rewrite <- (sum_by_perm _ _ _ Hp).
  - intros c Hc. apply H2. by rewrite Hp.
  - by rewrite <- Hp.
  - intros id. by rewrite <- Hp.
  - by rewrite <- (concat_map_perm held _ _ Hp).
  - intros d Hd. apply H8. by rewrite (concat_map_perm held _ _ Hp).
Qed.

Abbreviation good := (Threads.good server_inv stable).

(** ** Actions that do not touch what the invariant is about *)

Definition same_server (v v' : Server) : Prop :=
  v'.(g_transfers) = v.(g_transfers) /\ v'.(g_reserved_bytes) = v.(g_reserved_bytes) /\
  v'.(g_storage_quota) = v.(g_storage_quota) /\ v'.(storage) = v.(storage).
Definition same_guards (c c' : Conn) : Prop :=
  c'.(reserving) = c.(reserving) /\ c'.(own_dir) = c.(own_dir) /\ c'.(claimed) = c.(claimed) /\ c'.(leaving) = c.(leaving).

Lemma same_guards_refl c : same_guards c c.
Proof. done. Qed.
Lemma same_guards_trans c1 c2 c3 : same_guards c1 c2 -> same_guards c2 c3 -> same_guards c1 c3.
Proof. unfold same_guards. intros (-> & -> & -> & ->) (-> & -> & -> & ->). done. Qed.

Lemma held_same c c' : same_guards c c' -> held c' = held c.
Proof. unfold held. by intros (_ & -> & _ & ->). Qed.

Lemma inv_same v v' c c' others : same_server v v' -> same_guards c c' -> server_inv v (c :: others) -> server_inv v' (c' :: others).
Proof.
  intros (E1 & E2 & E3 & E4) Hg [H1 H2 H3 H4 H5 H6 H7 H8]. pose proof (held_same _ _ Hg) as Hh. destruct Hg as (G1 & G2 & G3 & G4).
  assert (space c' = space c) as Hs by (unfold space; by rewrite G1).
  constructor; rewrite ?E1, ?E2, ?E3, ?E4; try done.
  - simpl. rewrite Hs. exact H1.
  - intros x [-> |Hx]%elem_of_cons; [rewrite Hs; apply H2; by left|apply H2; by right].
  - simpl. by rewrite G3.
  - intros id. simpl. rewrite G3. apply H6.
  - simpl. by rewrite Hh.
  - intros d. simpl. rewrite Hh. apply H8.
Qed.

Definition idle (R : Type) (f : action R) : Prop :=
  forall v c r v' c', f v c = Some (r, v', c') -> same_server v v' /\ same_guards c c'.

(** After them a thread knows what it knew. *)
Definition unchanged {R} (v : Server) (c : Conn) : R -> Server -> Conn -> Prop := fun _ v' c' => stable c v v' /\ same_guards c c'.

Lemma good_idle_from {A} (p : prog A) v0 c0 v c : acts idle p -> stable c0 v0 v -> same_guards c0 c -> good (unchanged v0 c0) p v c.
Proof.
  revert v c. induction p as [a|R f k IH]; intros v c Hp Hst Hg; [by split|]. destruct Hp as [Hf Hk].
  intros v1 others Hst1 HI. destruct (f v1 c) as [[[r v2] c2]|] eqn:E; [|done]. destruct (Hf _ _ _ _ _ E) as [Hs Hg2].
  split; [by eapply inv_same|]. split; [intros t _ id _; by destruct Hs as (_ & _ & _ & ->)|]. apply IH; [apply Hk| |by eapply same_guards_trans].
  intros id Hid. destruct Hs as (_ & _ & _ & ->). rewrite (Hst1 id); [by apply Hst|]. by destruct Hg as (_ & -> & _).
Qed.

Lemma good_idle {A} (p : prog A) v c : acts idle p -> good (unchanged v c) p v c.
Proof. intros Hp. by apply good_idle_from. Qed.

Ltac idle_action := split; [|done]; intros ????? H; cbv zeta in H; repeat case_match; simplify_eq/=; done.

Lemma pushed_guards t p c : same_guards c (pushed t p c).2.
Proof. unfold pushed. by repeat case_match. Qed.
Lemma next_answer_guards c : same_guards c (next_answer c).2.
Proof. unfold next_answer. by repeat case_match. Qed.

Lemma idle_get : acts idle get.
Proof. idle_action. Qed.
Lemma idle_send t p : acts idle (send_message t p).
Proof. split; [|done]. intros v c r v' c' H. pose proof (pushed_guards t p c). destruct (pushed t p c). by simplify_eq/=. Qed.
Lemma idle_recv n : acts idle (recv_message n).
Proof. idle_action. Qed.
Ltac idle_file := split; [|done]; intros v c ? ? ? H; pose proof (next_answer_guards c); destruct (next_answer c); by simplify_eq/=.
Lemma idle_read dir name n : acts idle (read_whole_file dir name n).
Proof. unfold read_whole_file. idle_file. Qed.
Lemma idle_id : acts idle generate_transfer_id.
Proof. idle_action. Qed.

(** ** The sum over the table *)

Lemma table_sum_fresh T id t : T !! id = None -> table_sum (<[id := t]> T) = t.(st_reserved_bytes) + table_sum T.
Proof. intros H. unfold table_sum. by rewrite (sum_by_perm _ _ _ (map_to_list_insert T id t H)). Qed.
Lemma table_sum_delete T id t : T !! id = Some t -> table_sum (delete id T) = table_sum T - t.(st_reserved_bytes).
Proof. intros H. unfold table_sum. rewrite <- (sum_by_perm _ _ _ (map_to_list_delete T id t H)). simpl. lia. Qed.
Lemma table_sum_update T id t t' :
  T !! id = Some t -> t'.(st_reserved_bytes) = t.(st_reserved_bytes) -> table_sum (<[id := t']> T) = table_sum T.
Proof.
  intros H E. rewrite <- insert_delete_eq, table_sum_fresh by apply lookup_delete_eq. rewrite (table_sum_delete _ _ _ H). lia.
Qed.

Lemma storage_cost_range h n : 0 <= storage_cost h n < 2 ^ 64.
Proof. unfold storage_cost, u64. Zlia. Qed.

Lemma table_costs v cs id t : server_inv v cs -> v.(g_transfers) !! id = Some t -> 0 <= t.(st_reserved_bytes) < 2 ^ 64.
Proof.
  intros HI Ht. destruct (si_table _ _ HI id t Ht) as (_ & d & _ & [(f & _ & _ & ->) _ _]). apply storage_cost_range.
Qed.
Lemma table_sum_nonneg v cs : server_inv v cs -> 0 <= table_sum v.(g_transfers).
Proof.
  intros HI. apply sum_by_nonneg. intros [id t] Hin%elem_of_map_to_list. cbn. by destruct (table_costs v cs id t HI Hin).
Qed.
Lemma spaces_nonneg v c others : server_inv v (c :: others) -> 0 <= space c /\ 0 <= sum_by space others.
Proof. intros HI. split; [apply (si_positive _ _ HI); left|]. apply sum_by_nonneg. intros x Hx. apply (si_positive _ _ HI). by right. Qed.

(** ** Folders of one's own *)

Lemma held_apart v c others d :
  server_inv v (c :: others) -> d ∈ held c ->
  v.(g_transfers) !! d = None /\ is_Some (v.(storage) !! d) /\ forall t, t ∈ others -> d ∉ held t.
Proof.
  intros HI Hd. destruct (si_held _ _ HI d) as [H1 H2]; [apply elem_of_app; by left|]. split_and!; [done..|].
  intros t Ht Hdt. pose proof (si_held_once _ _ HI) as Hn. cbn [map concat] in Hn. apply NoDup_app in Hn as (_ & Hn & _).
  apply (Hn d Hd), elem_of_concat_map. eauto.
Qed.

Lemma own_is_held c d : c.(own_dir) = Some d -> d ∈ held c.
Proof. unfold held. intros ->. by left. Qed.

(** A thread changes, or removes, a folder of its own. *)
Lemma inv_own_folder v c c' others d s' :
  server_inv v (c :: others) -> d ∈ held c -> (forall x, x <> d -> s' !! x = v.(storage) !! x) ->
  space c' = space c -> c'.(claimed) = c.(claimed) -> sublist (held c') (held c) -> (d ∈ held c' -> is_Some (s' !! d)) ->
  server_inv (with_storage s' v) (c' :: others) /\ forall t, t ∈ others -> stable t v (with_storage s' v).
Proof.
  intros HI Hd Hs Hsp Hcl Hsub Hsome. destruct (held_apart _ _ _ _ HI Hd) as (Htab & _ & Hoth). split.
  - destruct HI as [H1 H2 H3 H4 H5 H6 H7 H8]. constructor; cbn [with_storage g_transfers g_reserved_bytes g_storage_quota storage] in *; try done.
    + cbn in *. by rewrite Hsp.
    + intros x [-> |Hx]%elem_of_cons; [rewrite Hsp; apply H2; by left|apply H2; by right].
    + intros id t Ht. destruct (H4 id t Ht) as (Hdir & d' & Hd' & Hco). split; [done|]. exists d'. split; [|done].
      rewrite Hs; [done|]. intros ->. congruence.
    + cbn. rewrite Hcl. exact H5.
    + intros id. cbn. rewrite Hcl. apply H6.
    + cbn. cbn in H7. apply NoDup_app in H7 as (Hn1 & Hn2 & Hn3). apply NoDup_app. split_and!; [eapply sublist_NoDup; [exact Hn1|exact Hsub]|intros x Hx; apply Hn2; eapply elem_of_sublist; [exact Hx|exact Hsub]|done].
    + intros x Hx. cbn in Hx, H8. assert (x ∈ held c ++ concat (map held others)) as Hx'.
      { apply elem_of_app in Hx as [Hx|Hx]; apply elem_of_app; [left; by eapply elem_of_sublist|by right]. }
      destruct (H8 x Hx') as [H8a H8b]. split; [done|]. destruct (decide (x = d)) as [->|Hne]; [|by rewrite Hs].
      apply elem_of_app in Hx as [Hx|Hx]; [by apply Hsome|]. exfalso.
      apply elem_of_concat_map in Hx as (t & Ht & Hx). by apply (Hoth t).
  - intros t Ht id Hid. cbn. apply Hs. intros ->. by apply (Hoth t Ht), own_is_held.
Qed.

(** Space is taken, or given back. *)
Lemma inv_account v c c' others r :
  server_inv v (c :: others) -> 0 <= space c' -> r = v.(g_reserved_bytes) + space c' - space c -> r <= bound ->
  same_guards c (with_reserving c.(reserving) c'.(own_dir) c') ->
  server_inv (with_table v.(g_transfers) r v) (c' :: others).
Proof.
  intros [H1 H2 H3 H4 H5 H6 H7 H8] Hsp -> Hr (_ & Ho & Hc & Hl). cbn in Ho, Hc, Hl.
  assert (held c' = held c) as Hh by (unfold held; by rewrite Ho, Hl).
  constructor; cbn in *; try done; rewrite ?Hh, ?Hc; try done; try lia.
  - intros x [-> |Hx]%elem_of_cons; [done|apply H2; by right].
Qed.

(** ** The actions of an upload *)

Hypothesis bound_small : bound < 2 ^ 63.

Lemma good_reserve r v c :
  0 <= r < 2 ^ 63 -> c.(reserving) = None -> c.(own_dir) = None ->
  good (fun ok _ c' => c'.(own_dir) = None /\ (ok = true -> c'.(reserving) = Some r)) (reserve_space r) v c.
Proof.
  intros Hr Hres Hown v1 others _ HI. destruct (si_bound _ _ HI) as [Hq Hb].
  pose proof (table_sum_nonneg _ _ HI) as Ht. destruct (spaces_nonneg _ _ _ HI) as [_ Ho]. pose proof (si_space _ _ HI) as Hs.
  assert (space c = 0) as Hc0 by (unfold space; by rewrite Hres). rewrite sum_by_cons, Hc0 in Hs.
  rewrite u64_small by (unfold in_u64; lia). destruct (Z.ltb_spec (g_storage_quota v1) (g_reserved_bytes v1 + r)) as [Hlt|Hge].
  - pose proof (pushed_guards ERROR_MSG (str "Relay server storage is full, try again later") c) as Hg.
    split_and!; [by eapply inv_same|done|]. destruct Hg as (_ & Ho' & _). split; [by rewrite Ho'|done].
  - split_and!; [|done|by cbn].
    assert (space (with_reserving (Some r) None c) = r) as Hsr by done.
    apply (inv_account v1 c); rewrite ?Hsr, ?Hc0; [done|lia..|]. unfold same_guards. cbn. by rewrite Hown.
Qed.

(** The thread's own folder, and what is in it. *)
Definition mine (id : bytes) (d : Dir) (v : Server) (c : Conn) : Prop := c.(own_dir) = Some id /\ v.(storage) !! id = Some d.

Lemma mine_stable id d v v' c c' : mine id d v c -> stable c v v' -> same_guards c c' -> mine id d v' c'.
Proof. intros [H1 H2] Hst (_ & Ho & _). split; [by rewrite Ho|]. by rewrite (Hst id H1). Qed.

Lemma good_create id v c r :
  c.(reserving) = Some r -> c.(own_dir) = None ->
  good (fun ok v' c' => c'.(reserving) = Some r /\ if ok : bool then mine id ∅ v' c' else True) (create_directory id) v c.
Proof.
  intros Hres Hown v1 others _ HI. pose proof (next_answer_guards c) as Hg. unfold Threads.good. destruct (next_answer c) as [a c1]. cbn [snd] in Hg.
  assert (good (fun ok v' c' => c'.(reserving) = Some r /\ if ok : bool then mine id ∅ v' c' else True) (Done false) v1 c1) as Hno
    by (split; [destruct Hg as (-> & _); done|done]).
  destruct a; try (split; [by eapply inv_same|split; [done|exact Hno]]).
  destruct (storage v1 !! id) as [d|] eqn:Ed; [split; [by eapply inv_same|split; [done|exact Hno]]|].
  assert (reserving c1 = Some r /\ own_dir c1 = None) as [Hres1 Hown1] by (destruct Hg as (-> & -> & _); done).
  apply (inv_same v1 v1 c c1 others ltac:(done) Hg) in HI. clear Hg Hno c Hres Hown.
  assert (id ∉ concat (map held (c1 :: others))) as Hfresh.
  { intros Hin. destruct (si_held _ _ HI _ Hin) as [_ [? ?]]. congruence. }
  split; [|split; [intros t Ht x Hx|]].
  - assert (held (with_reserving (reserving c1) (Some id) c1) = id :: held c1) as Hh by (unfold held; by rewrite Hown1).
    destruct HI as [H1 H2 H3 H4 H5 H6 H7 H8]. constructor; cbn [with_storage g_transfers g_reserved_bytes g_storage_quota storage] in *; try done.
    + intros x [-> |Hx]%elem_of_cons; [apply (H2 c1); left|apply H2; by right].
    + intros x t Ht. destruct (H4 x t Ht) as (Hdir & d & Hd & Hco). split; [done|]. exists d. split; [|done].
      rewrite lookup_insert_ne; [done|]. congruence.
    + cbn [map concat]. rewrite Hh. by constructor.
    + intros x. cbn [map concat]. rewrite Hh. intros [-> |Hx]%elem_of_cons.
      * split; [|rewrite lookup_insert_eq; by eexists]. destruct (g_transfers v1 !! id) as [t|] eqn:Et; [|done].
        destruct (H4 _ _ Et) as (_ & d & Hd & _). congruence.
      * destruct (H8 x Hx) as [? Hsome]. split; [done|]. rewrite lookup_insert_ne; [done|]. intros ->. by apply Hfresh.
  - cbn. apply lookup_insert_ne. intros ->. apply Hfresh, elem_of_concat_map. exists t. split; [by right|by apply own_is_held].
  - cbn. split; [done|]. split; [done|]. cbn. by rewrite lookup_insert_eq.
Qed.

Lemma good_write id d name data v c :
  mine id d v c ->
  good (fun ok v' c' => c'.(reserving) = c.(reserving) /\
          exists t d', mine id d' v' c' /\ if ok : bool then d' = <[name := mkFile data t]> d else True)
    (write_whole_file id name data) v c.
Proof.
  intros [Hown Hd] v1 others Hst HI. specialize (Hst id Hown). rewrite Hd in Hst. rename Hst into Hd1. rewrite Hd1.
  pose proof (next_answer_guards c) as Hg. destruct (next_answer c) as [a c1]. cbn [snd] in Hg.
  apply (inv_same v1 v1 c c1 others ltac:(done) Hg) in HI. destruct Hg as (Hres & Hown1 & _). rewrite Hown in Hown1.
  assert (forall s (ok : bool), (forall x, x <> id -> s !! x = v1.(storage) !! x) -> is_Some (s !! id) ->
    server_inv (with_storage s v1) (c1 :: others) /\ forall t, t ∈ others -> stable t v1 (with_storage s v1)) as Hput.
  { intros s _ Hs Hsome. eapply inv_own_folder; [exact HI|by apply own_is_held|exact Hs|done..]. }
  destruct a as [| |n].
  - destruct (Hput (<[id := <[name := mkFile data v1.(file_now)]> d]> v1.(storage)) true) as [HI' Hst'];
      [intros; by apply lookup_insert_ne|rewrite lookup_insert_eq; by eexists|].
    split_and!; [done..|]. cbn. split; [done|]. do 2 eexists. split; [split; [done|cbn; apply lookup_insert_eq]|done].
  - split_and!; [done..|]. cbn. split; [done|]. exists 0, d. by split.
  - destruct (Hput (<[id := <[name := mkFile (ztake n data) v1.(file_now)]> d]> v1.(storage)) false) as [HI' Hst'];
      [intros; by apply lookup_insert_ne|rewrite lookup_insert_eq; by eexists|].
    split_and!; [done..|]. cbn. split; [done|]. exists 0. eexists. split; [split; [done|cbn; apply lookup_insert_eq]|done].
Qed.

Lemma good_publish id h r d v c :
  mine id d v c -> c.(reserving) = Some r -> complete h d r -> good (fun _ _ _ => True) (publish id h r) v c.
Proof.
  intros [Hown Hd] Hres Hco v1 others Hst HI. specialize (Hst id Hown). rewrite Hd in Hst.
  destruct (held_apart _ _ _ _ HI (own_is_held _ _ Hown)) as (Hfree & _ & Hoth).
  assert (held c = id :: leaving c) as Hh by (unfold held; by rewrite Hown).
  assert (space c = r) as Hsp by (unfold space; by rewrite Hres).
  pose proof (spaces_nonneg _ _ _ HI) as [Hr _]. rewrite Hsp in Hr.
  destruct HI as [H1 H2 H3 H4 H5 H6 H7 H8]. split; [|split; [|done]].
  - constructor; cbn [with_table g_transfers g_reserved_bytes g_storage_quota storage]; try done.
    + rewrite table_sum_fresh by done. rewrite sum_by_cons, Hsp in H1. rewrite sum_by_cons. unfold space at 1. cbn. lia.
    + intros x [-> |Hx]%elem_of_cons; [done|apply H2; by right].
    + intros x t [[<- <-]|[Hne Ht]]%lookup_insert_Some; [|by apply H4]. cbn. split; [done|]. by exists d.
    + intros x. rewrite (H6 x : x ∈ omap claimed (with_reserving None None c :: others) <-> _). split.
      * intros (t & Ht & Hdl). exists t. split; [|done]. rewrite lookup_insert_ne; [done|]. congruence.
      * intros (t & [[_ <-]|[_ Ht]]%lookup_insert_Some & Hdl); [done|]. by exists t.
    + cbn [map concat] in *. rewrite Hh in H7. by inversion H7.
    + intros x Hx. cbn [map concat] in *. rewrite Hh in H8, H7. destruct (H8 x) as [Hx1 Hx2]; [by right|]. split; [|done].
      rewrite lookup_insert_ne; [done|]. intros ->. inversion H7; subst. done.
  - done.
Qed.

Lemma removed_cases dir v c v' c' :
  removed dir v c = (v', c') -> same_guards c c' /\ (v' = v \/ v' = with_storage (delete dir v.(storage)) v).
Proof.
  unfold removed. intros H. pose proof (next_answer_guards c) as Hg. destruct (next_answer c) as [a c1]. injection H as <- <-.
  split; [exact Hg|]. destruct a; auto.
Qed.

(** A folder of one's own is removed, or not, and no longer held. *)
Lemma inv_removed v c c' others d v' :
  server_inv v (c :: others) -> d ∈ held c -> v' = v \/ v' = with_storage (delete d v.(storage)) v ->
  space c' = space c -> c'.(claimed) = c.(claimed) -> sublist (held c') (held c) -> d ∉ held c' ->
  server_inv v' (c' :: others) /\ forall t, t ∈ others -> stable t v v'.
Proof.
  intros HI Hd Hv Hsp Hcl Hsub Hnot.
  assert (exists s', v' = with_storage s' v /\ forall x, x <> d -> s' !! x = v.(storage) !! x) as (s' & -> & Hs').
  { destruct Hv as [-> | ->]; [exists v.(storage); by destruct v|exists (delete d v.(storage))].
    split; [done|]. intros x Hx. by apply lookup_delete_ne. }
  by eapply inv_own_folder.
Qed.

Lemma good_upload_guard v c : good (fun _ _ _ => True) upload_guard v c.
Proof.
  intros v1 others _ HI. destruct (reserving c) as [r|] eqn:Hres; [|by split_and!].
  pose proof (spaces_nonneg _ _ _ HI) as [Hr Ho]. pose proof (table_sum_nonneg _ _ HI) as Ht. pose proof (si_space _ _ HI) as Hs.
  assert (space c = r) as Hsp by (unfold space; by rewrite Hres). rewrite sum_by_cons, Hsp in Hs. rewrite Hsp in Hr.
  destruct (si_bound _ _ HI) as [_ Hb]. rewrite u64_small by (unfold in_u64; lia).
  set (v2 := with_table _ _ v1). set (c0 := with_reserving None (own_dir c) c).
  assert (server_inv v2 (c0 :: others)) as HI2.
  { assert (space c0 = 0) as Hs0 by done. apply (inv_account v1 c); rewrite ?Hs0, ?Hsp; done || lia. }
  destruct (own_dir c) as [d|] eqn:Hown.
  - destruct (removed d v2 c) as [v3 c1] eqn:E. destruct (removed_cases _ _ _ _ _ E) as [Hg Hv].
    assert (held c0 = d :: leaving c) as Hh0 by done.
    assert (held (with_reserving None None c1) = leaving c) as Hh1 by (cbn; apply Hg).
    destruct (inv_removed v2 c0 (with_reserving None None c1) others d v3 HI2) as [HI3 Hst].
    + rewrite Hh0. by left.
    + done.
    + done.
    + cbn. by destruct Hg as (_ & _ & -> & _).
    + rewrite Hh0, Hh1. by constructor.
    + rewrite Hh1. pose proof (si_held_once _ _ HI2) as Hn. cbn [map concat] in Hn. rewrite Hh0 in Hn.
      cbn [app] in Hn. apply NoDup_cons in Hn as [Hn _]. intros Hin. apply Hn, elem_of_app. by left.
    + cbv zeta. rewrite E. split; [done|]. split; [|done]. intros t Hin x Hx. by rewrite (Hst t Hin x Hx).
  - cbv zeta. by split_and!.
Qed.

(** ** The actions of a download *)

Lemma good_claim id v c :
  c.(claimed) = None ->
  good (fun r _ c' => match r with Claimed t => t.(st_dir) = id /\ c'.(claimed) = Some id | _ => True end) (claim_transfer id) v c.
Proof.
  intros Hcl v1 others _ HI. destruct (g_transfers v1 !! id) as [t|] eqn:Et; [|by split_and!].
  destruct (st_downloading t) eqn:Edl; [by split_and!|].
  destruct (si_table _ _ HI _ _ Et) as [Hdir _]. split; [|split; [done|by cbn]].
  destruct HI as [H1 H2 H3 H4 H5 H6 H7 H8]. constructor; cbn [with_table g_transfers g_reserved_bytes g_storage_quota storage]; try done.
  - by rewrite (table_sum_update _ _ t).
  - intros x [-> |Hx]%elem_of_cons; [apply (H2 c); left|apply H2; by right].
  - intros x u [[<- <-]|[Hne Hu]]%lookup_insert_Some; [|by apply H4]. by apply (H4 id t).
  - cbn. cbn in H5. rewrite Hcl in H5. constructor; [|done]. intros Hin. assert (id ∈ omap claimed (c :: others)) as Hin' by (cbn; by rewrite Hcl).
    apply H6 in Hin' as (u & Hu & Hdl). congruence.
  - intros x. cbn. rewrite elem_of_cons. specialize (H6 x). cbn in H6. rewrite Hcl in H6. rewrite H6. split.
    + intros [-> |(u & Hu & Hdl)]; [rewrite lookup_insert_eq; by eexists|]. exists u. split; [|done]. rewrite lookup_insert_ne; [done|]. congruence.
    + intros (u & [[<- _]|[_ Hu]]%lookup_insert_Some & Hdl); [by left|right; by exists u].
  - intros x Hx. destruct (H8 x Hx) as [Hx1 Hx2]. split; [|done]. rewrite lookup_insert_ne; [done|]. congruence.
Qed.

(** What a claimed transfer is. *)
Lemma claimed_there v c others id :
  server_inv v (c :: others) -> c.(claimed) = Some id ->
  (exists t, v.(g_transfers) !! id = Some t /\ t.(st_downloading) = true) /\ id ∉ omap claimed others.
Proof.
  intros HI Hc. split.
  - apply (si_claims _ _ HI). cbn. rewrite Hc. by left.
  - pose proof (si_claimed_once _ _ HI) as Hn. cbn in Hn. rewrite Hc in Hn. by apply NoDup_cons in Hn as [? _].
Qed.

Lemma good_download_guard v c : good (fun _ _ _ => True) download_guard v c.
Proof.
  intros v1 others _ HI. destruct (claimed c) as [id|] eqn:Hcl; [|by split_and!].
  destruct (claimed_there _ _ _ _ HI Hcl) as [(t & Et & Edl) Hno]. rewrite Et. split; [|by split].
  destruct HI as [H1 H2 H3 H4 H5 H6 H7 H8]. constructor; cbn [with_table g_transfers g_reserved_bytes g_storage_quota storage]; try done.
  - by rewrite (table_sum_update _ _ t).
  - intros x [-> |Hx]%elem_of_cons; [apply (H2 c); left|apply H2; by right].
  - intros x u [[<- <-]|[Hne Hu]]%lookup_insert_Some; [|by apply H4]. by apply (H4 id t).
  - cbn. cbn in H5. rewrite Hcl in H5. by apply NoDup_cons in H5 as [_ ?].
  - intros x. cbn. specialize (H6 x). cbn in H6. rewrite Hcl, elem_of_cons in H6. split.
    + intros Hx. destruct (proj1 H6 (or_intror Hx)) as (u & Hu & Hdl). exists u. split; [|done]. rewrite lookup_insert_ne; [done|]. congruence.
    + intros (u & [[_ <-]|[Hne Hu]]%lookup_insert_Some & Hdl); [done|]. destruct (proj2 H6 (ex_intro _ u (conj Hu Hdl))) as [<-|?]; done.
  - intros x Hx. destruct (H8 x Hx) as [Hx1 Hx2]. split; [|done]. rewrite lookup_insert_ne; [done|]. congruence.
Qed.

Lemma good_forget id v c :
  c.(claimed) = Some id -> good (fun _ _ c' => id ∈ c'.(leaving) /\ c'.(own_dir) = c.(own_dir)) (forget_transfer id id) v c.
Proof.
  intros Hcl v1 others _ HI. destruct (claimed_there _ _ _ _ HI Hcl) as [(t & Et & Edl) Hno]. rewrite Et.
  pose proof (table_costs _ _ _ _ HI Et) as Hcost. pose proof (table_sum_delete _ _ _ Et) as Hdel.
  assert (0 <= table_sum (delete id v1.(g_transfers))) as Hrest.
  { apply sum_by_nonneg. intros [x u] [_ Hu]%elem_of_map_to_list%lookup_delete_Some. cbn. by destruct (table_costs _ _ _ _ HI Hu). }
  destruct (spaces_nonneg _ _ _ HI) as [Hs1 Hs2]. pose proof (si_space _ _ HI) as Hsum. rewrite sum_by_cons in Hsum.
  destruct (si_bound _ _ HI) as [_ Hb]. rewrite u64_small by (unfold in_u64; lia).
  destruct HI as [H1 H2 H3 H4 H5 H6 H7 H8]. destruct (H4 _ _ Et) as (_ & d & Hd & _).
  set (c' := with_leaving (id :: leaving c) (with_claimed None c)).
  assert (held c' ≡ₚ id :: held c) as Hh by (unfold held, c'; cbn; destruct (own_dir c); [apply Permutation_swap|done]).
  assert (id ∉ concat (map held (c :: others))) as Hfresh by (intros Hin; destruct (H8 _ Hin) as [? _]; congruence).
  split; [|split; [done|cbn; split; [by left|done]]].
  constructor; cbn [with_table g_transfers g_reserved_bytes g_storage_quota storage]; try done.
  - rewrite Hdel, sum_by_cons. change (space c') with (space c). lia.
  - intros x [-> |Hx]%elem_of_cons; [apply (H2 c); left|apply H2; by right].
  - destruct H3. lia.
  - intros x u [_ Hu]%lookup_delete_Some. by apply H4.
  - cbn. cbn in H5. rewrite Hcl in H5. by apply NoDup_cons in H5 as [_ ?].
  - intros x. cbn. specialize (H6 x). cbn in H6. rewrite Hcl, elem_of_cons in H6. split.
    + intros Hx. destruct (proj1 H6 (or_intror Hx)) as (u & Hu & Hdl). exists u. split; [|done]. rewrite lookup_delete_ne; [done|]. congruence.
    + intros (u & [Hne Hu]%lookup_delete_Some & Hdl). destruct (proj2 H6 (ex_intro _ u (conj Hu Hdl))) as [<-|?]; done.
  - cbn [map concat] in *. rewrite Hh. by constructor.
  - intros x Hx. cbn [map concat] in *. rewrite Hh in Hx. rewrite lookup_delete_None.
    apply elem_of_cons in Hx as [-> |Hx]; [split; [by left|by eexists]|]. destruct (H8 x Hx) as [? ?]. split; [by right|done].
Qed.

Lemma good_remove_leaving d v c :
  d ∈ c.(leaving) -> good (fun _ _ c' => c'.(leaving) = list_difference c.(leaving) [d]) (remove_leaving d) v c.
Proof.
  intros Hd v1 others _ HI. destruct (removed d v1 c) as [v2 c1] eqn:E. destruct (removed_cases _ _ _ _ _ E) as [Hg Hv].
  assert (d ∈ held c) as Hdh by (unfold held; destruct (own_dir c); [by right|done]).
  set (c' := with_leaving (list_difference (leaving c1) [d]) c1).
  pose proof (si_held_once _ _ HI) as Hn. cbn [map concat] in Hn. apply NoDup_app in Hn as [Hn _].
  destruct Hg as (Hg1 & Hg2 & Hg3 & Hg4).
  assert (sublist (list_difference (leaving c) [d]) (leaving c)) as Hsub.
  { generalize (leaving c). intros l. induction l as [|x l IH]; [constructor|]. cbn. case_decide; [by constructor 3|by constructor 2]. }
  destruct (inv_removed v1 c c' others d v2 HI Hdh Hv) as [HI2 Hst].
  - unfold space. cbn. by rewrite Hg1.
  - done.
  - unfold held, c'. cbn. rewrite Hg2, Hg4. destruct (own_dir c); [by constructor 2|done].
  - unfold held, c'. cbn. rewrite Hg2, Hg4. unfold held in Hn. destruct (own_dir c) as [o|].
    + apply NoDup_cons in Hn as [Hno _]. rewrite elem_of_cons, list_elem_of_difference, list_elem_of_singleton. intros [-> |[_ ?]]; done.
    + rewrite list_elem_of_difference, list_elem_of_singleton. by intros [_ ?].
  - split_and!; [done..|]. cbn. by rewrite Hg4.
Qed.

(** ** The actions of the cleanup *)

Lemma filtered_perm (T : gmap bytes StoredTransfer) (Q : bytes * StoredTransfer -> Prop) `{!forall e, Decision (Q e)} :
  map_to_list (filter Q T) ≡ₚ filter Q (map_to_list T).
Proof.
  rewrite map_filter_alt. apply map_to_list_to_map.
  eapply sublist_NoDup; [apply (NoDup_fst_map_to_list T)|]. apply (fmap_sublist fst), sublist_filter.
Qed.

Lemma sum_split {A} (f : A -> Z) (Q : A -> Prop) `{!forall e, Decision (Q e)} (l : list A) :
  sum_by f l = sum_by f (filter Q l) + sum_by f (filter (fun x => ~ Q x) l).
Proof.
  induction l as [|x l IH]; [done|]. rewrite !filter_cons. destruct (decide (Q x)) as [HQ|HQ].
  - rewrite (decide_False (P := ~ Q x)) by tauto. rewrite !sum_by_cons, IH. lia.
  - rewrite (decide_True (P := ~ Q x)) by done. rewrite !sum_by_cons, IH. lia.
Qed.

Lemma give_back (old : list (bytes * StoredTransfer)) r :
  (forall e, e ∈ old -> 0 <= e.2.(st_reserved_bytes)) -> sum_by (fun e => e.2.(st_reserved_bytes)) old <= r < 2 ^ 64 ->
  foldl (fun r e => u64 (r - e.2.(st_reserved_bytes))) r old = r - sum_by (fun e => e.2.(st_reserved_bytes)) old.
Proof.
  revert r. induction old as [|e old IH]; intros r Hpos Hr; [simpl; lia|]. rewrite sum_by_cons in *. cbn [foldl].
  pose proof (Hpos e ltac:(left)). assert (0 <= sum_by (fun e : bytes * StoredTransfer => e.2.(st_reserved_bytes)) old) as Hn.
  { apply sum_by_nonneg. intros x Hx. apply Hpos. by right. }
  rewrite u64_small by (unfold in_u64; lia). rewrite IH; [lia| |lia]. intros x Hx. apply Hpos. by right.
Qed.

Lemma good_drop_expired v c :
  good (fun dirs _ c' => NoDup dirs /\ forall d, d ∈ dirs -> d ∈ c'.(leaving)) drop_expired v c.
Proof.
  intros v1 others _ HI. set (T := g_transfers v1). set (old := filter (fun e => expired v1 e.2) (map_to_list T)).
  assert (forall e, e ∈ old -> T !! e.1 = Some e.2 /\ expired v1 e.2) as Hold.
  { intros [x t] [He Hin]%list_elem_of_filter. split; [by apply elem_of_map_to_list|done]. }
  assert (map (fun e => e.2.(st_dir)) old = map fst old) as Hdirs.
  { apply map_ext_in. intros e He%list_elem_of_In. destruct (Hold e He) as [He1 _]. by destruct (si_table _ _ HI _ _ He1). }
  assert (NoDup (map fst old)) as Hnd.
  { eapply sublist_NoDup; [apply (NoDup_fst_map_to_list T)|]. apply (fmap_sublist fst), sublist_filter. }
  pose proof (sum_split (fun e => st_reserved_bytes e.2) (fun e => expired v1 e.2) (map_to_list T)) as Hsum. fold old in Hsum.
  rewrite <- (sum_by_perm _ _ _ (filtered_perm T (fun e => ~ expired v1 e.2))) in Hsum.
  assert (forall e, e ∈ map_to_list T -> 0 <= st_reserved_bytes e.2) as Hpos.
  { intros [x t] Hin%elem_of_map_to_list. cbn. by destruct (table_costs _ _ _ _ HI Hin). }
  pose proof (table_sum_nonneg _ _ HI) as Ht. destruct (spaces_nonneg _ _ _ HI) as [Hs1 Hs2].
  pose proof (si_space _ _ HI) as Hsp. rewrite sum_by_cons in Hsp. destruct (si_bound _ _ HI) as [_ Hb].
  assert (0 <= sum_by (fun e => st_reserved_bytes e.2) (map_to_list (filter (fun e => ~ expired v1 e.2) T))) as Hrest.
  { apply sum_by_nonneg. intros [x t] [Hin _]%elem_of_map_to_list%map_lookup_filter_Some. apply (Hpos (x, t)). by apply elem_of_map_to_list. }
  assert (0 <= sum_by (fun e => st_reserved_bytes e.2) old) as Holdsum.
  { apply sum_by_nonneg. intros e He. destruct (Hold e He) as [He1 _]. by destruct (table_costs _ _ _ _ HI He1). }
  unfold table_sum in Hsp, Ht. fold T in Hsp, Ht. unfold Threads.good. cbv zeta. fold T old. rewrite Hdirs.
  rewrite give_back; [| |lia]; [|intros e He; destruct (Hold e He) as [He1 _]; by destruct (table_costs _ _ _ _ HI He1)].
  set (c' := with_leaving (map fst old ++ leaving c) c).
  assert (held c' ≡ₚ map fst old ++ held c) as Hh.
  { unfold held, c'. cbn. destruct (own_dir c); [|done]. apply Permutation_middle. }
  destruct HI as [H1 H2 H3 H4 H5 H6 H7 H8].
  assert (forall x, x ∈ map fst old -> exists t, T !! x = Some t /\ expired v1 t) as Hin_old.
  { intros x ([y t] & -> & Hin)%list_elem_of_fmap. destruct (Hold _ Hin). by exists t. }
  split; [|split; [done|split; [done|cbn; intros d Hd; apply elem_of_app; by left]]].
  constructor; cbn [with_table g_transfers g_reserved_bytes g_storage_quota storage]; try done.
  - rewrite sum_by_cons. change (space c') with (space c). unfold table_sum. lia.
  - intros x [-> |Hx]%elem_of_cons; [apply (H2 c); left|apply H2; by right].
  - destruct H3. lia.
  - intros x u [Hu _]%map_lookup_filter_Some. by apply H4.
  - intros x. rewrite (H6 x : x ∈ omap claimed (c' :: others) <-> _). split.
    + intros (t & Hx & Hdl). exists t. split; [|done]. apply map_lookup_filter_Some. split; [done|]. intros [? _]. cbn in *. congruence.
    + intros (t & [Hx _]%map_lookup_filter_Some & Hdl). by exists t.
  - cbn [map concat] in *. rewrite Hh, <- app_assoc. apply NoDup_app. split_and!; [done| |done].
    intros x Hx Hx'. destruct (Hin_old x Hx) as (t & Ht' & _). destruct (H8 x Hx') as [? _]. unfold T in Ht'. congruence.
  - intros x Hx. cbn [map concat] in *. rewrite Hh, <- app_assoc in Hx. rewrite map_lookup_filter_None.
    apply elem_of_app in Hx as [Hx|Hx].
    + destruct (Hin_old x Hx) as (t & Ht' & Hex). destruct (H4 _ _ Ht') as (_ & d & Hd & _). split; [|by eexists].
      right. intros u Hu Hneg. apply Hneg. pose proof (eq_trans (eq_sym Hu) Ht') as [= ->]. exact Hex.
    + destruct (H8 x Hx) as [? ?]. split; [by left|done].
Qed.

Lemma good_remove_all dirs : forall v c,
  NoDup dirs -> (forall d, d ∈ dirs -> d ∈ c.(leaving)) -> good (fun _ _ _ => True) (remove_all dirs) v c.
Proof.
  induction dirs as [|d dirs IH]; intros v c Hn Hd; [done|]. apply NoDup_cons in Hn as [Hno Hn].
  eapply good_bind; [apply good_remove_leaving, Hd; by left|]. intros u v' c' Hl. apply IH; [done|].
  intros x Hx. rewrite Hl, list_elem_of_difference, list_elem_of_singleton. split; [apply Hd; by right|]. congruence.
Qed.

Lemma good_cleanup v c : good (fun _ _ _ => True) cleanup_round v c.
Proof. eapply good_bind; [apply good_drop_expired|]. intros dirs v' c' [Hn Hd]. by apply good_remove_all. Qed.
End invariant.
