(* ===== verification/TransferServerProps.v ===== *)
(** * Any number of transfers at once

    The handlers, action by action, keep the invariant of [TransferServerInv], so it
    holds in every state the server can reach: [transfers_kept]. *)

From Stdlib Require Import ZArith Lia.
From stdpp Require Import base list strings gmap relations fin_sets.
From S2P Require Import Prelude Threads Wire Text Protocol TransferServer TransferServerInv.
#[local] Open Scope Z_scope.
#[local] Open Scope prog_scope.

(** ** The names of the files *)

Lemma stoul_zeros n s : stoul (replicate n (chr 48) ++ s) = stoul s.
Proof. unfold stoul. induction n as [|n IH]; [done|]. exact IH. Qed.

Lemma chunk_filename_inj i j : 0 <= i < 2 ^ 32 -> 0 <= j < 2 ^ 32 -> chunk_filename i = chunk_filename j -> i = j.
Proof.
  intros Hi Hj H. unfold chunk_filename in H. apply app_inv_head in H. rewrite !app_assoc in H. apply app_inv_tail in H.
  apply (f_equal stoul) in H. rewrite !stoul_zeros in H.
  destruct (to_string_spec i ltac:(lia)) as [Ei _], (to_string_spec j ltac:(lia)) as [Ej _]. congruence.
Qed.

Lemma chunk_not_header i : chunk_filename i <> HEADER_FILE.
Proof. unfold chunk_filename, HEADER_FILE. done. Qed.

(** ** What a valid header says *)

Lemma valid_header_numbers hb h :
  deserialize_file_header hb = Some h -> validate_file_header h = ""%string ->
  1 <= h.(FileHeader_total_chunks) < 2 ^ 32 /\ 0 <= h.(FileHeader_file_size) <= MAX_FILE_SIZE /\ size hb <= MAX_HEADER_MESSAGE /\
  forall i, 0 <= i < h.(FileHeader_total_chunks) -> 0 <= expected_chunk_plaintext_size h i <= MAX_CHUNK_SIZE.
Proof.
  intros Hd Hv. apply deserialize_file_header_spec in Hd as [(Hfs & Hcs & Htc & Hk & Hn & Hs) Hser].
  destruct (validate_file_header_ok h Hv) as (Hc & Hmax & Htot & _).
  pose proof (expected_total_chunks_cover _ _ Hc (conj (proj1 Hfs) Hmax)) as Hcov. cbv zeta in Hcov. rewrite <- Htot in Hcov.
  split_and!; [lia..|destruct Hfs; lia|done| |].
  - rewrite Hser. unfold serialize_file_header, write_public_fields. rewrite !write_blob_eq, !write_u64_eq, !write_u32_eq.
    rewrite !size_app, !size_blob, !size_be32, !size_be64, size_nil.
    unfold MAX_KEM_CIPHERTEXT_SIZE, NONCE_SIZE, MAX_SEALED_METADATA_SIZE, MAX_HEADER_MESSAGE in *. lia.
  - intros i Hi. unfold expected_chunk_plaintext_size. destruct (Z.leb_spec (FileHeader_file_size h) (u64 (i * FileHeader_chunk_size h))); unfold MAX_CHUNK_SIZE in *; lia.
Qed.

Lemma reserve_small hb h :
  deserialize_file_header hb = Some h -> validate_file_header h = ""%string -> 0 <= storage_cost h (size hb) < 2 ^ 63.
Proof.
  intros Hd Hv. destruct (valid_header_numbers hb h Hd Hv) as (Ht & Hf & Hs & _). pose proof (size_nonneg hb).
  unfold storage_cost, MAX_FILE_SIZE, MAX_HEADER_MESSAGE, AEAD_TAG_SIZE in *.
  rewrite (u64_small (_ * _)) by (unfold in_u64; lia). rewrite (u64_small (_ + _ * _)) by (unfold in_u64; lia). rewrite u64_small by (unfold in_u64; lia). lia.
Qed.

Lemma NoDup_omap_lookup {A B} (f : A -> option B) (l : list A) i j x y b :
  NoDup (omap f l) -> l !! i = Some x -> l !! j = Some y -> f x = Some b -> f y = Some b -> i = j.
Proof.
  assert (forall (l : list A) i x b, l !! i = Some x -> f x = Some b -> b ∈ omap f l) as Hin.
  { intros k n z c Hn Hz. apply list_elem_of_omap. exists z. split; [|done]. by eapply list_elem_of_lookup_2. }
  revert i j. induction l as [|z l IH]; intros i j Hn Hi Hj Hx Hy; [done|]. cbn in Hn.
  destruct i as [|i], j as [|j]; cbn in Hi, Hj; simplify_eq; [done| | |].
  - rewrite Hx in Hn. apply NoDup_cons in Hn as [Hno _]. exfalso. by apply Hno, (Hin l j y).
  - rewrite Hy in Hn. apply NoDup_cons in Hn as [Hno _]. exfalso. by apply Hno, (Hin l i x).
  - f_equal. eapply IH; try done. destruct (f z); [by apply NoDup_cons in Hn as [_ ?]|done].
Qed.

Section transfers.
Variable bound : Z.
Hypothesis bound_small : bound < 2 ^ 63.
Abbreviation good := (Threads.good (server_inv bound) stable).
Abbreviation anything := (Threads.anything (V := Server) (S := Conn)).

Lemma idle_error m : acts idle (send_error m).
Proof. apply acts_bind; [apply idle_send|done]. Qed.
Lemma good_error m v c : good anything (send_error m) v c.
Proof. eapply good_anything, good_idle, idle_error. Qed.

(** ** Uploading *)

(** The header and these chunks are in the folder. *)
Definition has_chunks (h : FileHeader) (hb : bytes) (d : Dir) (received : gset Z) : Prop :=
  (exists f, d !! HEADER_FILE = Some f /\ f.(f_data) = hb) /\
  forall i, i ∈ received -> 0 <= i < h.(FileHeader_total_chunks) /\
    exists f, d !! chunk_filename i = Some f /\ size f.(f_data) = expected_chunk_plaintext_size h i + AEAD_TAG_SIZE.

Lemma has_chunks_insert h hb d received i f :
  1 <= h.(FileHeader_total_chunks) < 2 ^ 32 -> has_chunks h hb d received -> 0 <= i < h.(FileHeader_total_chunks) ->
  size f.(f_data) = expected_chunk_plaintext_size h i + AEAD_TAG_SIZE ->
  has_chunks h hb (<[chunk_filename i := f]> d) ({[i]} ∪ received).
Proof.
  intros Ht [(g & Hg & Hgd) Hall] Hi Hf. split.
  - exists g. split; [|done]. rewrite lookup_insert_ne; [done|]. apply chunk_not_header.
  - intros j Hj. destruct (decide (j = i)) as [->|Hne]; [split; [done|]; exists f; by rewrite lookup_insert_eq|].
    assert (j ∈ received) as Hjr by set_solver. destruct (Hall j Hjr) as [Hj1 (f' & Hf' & Hs)]. split; [done|].
    exists f'. split; [|done]. rewrite lookup_insert_ne; [done|]. intros E%chunk_filename_inj; lia.
Qed.

(** All of them: the folder is complete. *)
Lemma has_chunks_complete h hb d received :
  deserialize_file_header hb = Some h -> validate_file_header h = ""%string -> has_chunks h hb d received ->
  Z.of_nat (stdpp.base.size received) = h.(FileHeader_total_chunks) -> complete h d (storage_cost h (size hb)).
Proof.
  intros Hd Hv [(f & Hf & Hfd) Hall] Hn. constructor; [exists f; by rewrite Hfd|done|].
  assert (received = list_to_set (seqZ 0 h.(FileHeader_total_chunks))) as E.
  { apply set_subseteq_size_eq.
    - intros i Hi. apply elem_of_list_to_set, elem_of_seqZ. destruct (Hall i Hi). lia.
    - rewrite size_list_to_set by apply NoDup_seqZ. rewrite length_seqZ. lia. }
  intros i Hi. apply Hall. rewrite E. apply elem_of_list_to_set, elem_of_seqZ. lia.
Qed.

Lemma good_receive id h hb r fuel : forall received d v c,
  deserialize_file_header hb = Some h -> validate_file_header h = ""%string ->
  mine id d v c -> c.(reserving) = Some r -> has_chunks h hb d received ->
  good (fun res v c => match res with
                       | Some received => exists d, mine id d v c /\ c.(reserving) = Some r /\ has_chunks h hb d received
                       | None => True
                       end) (receive_chunks fuel h id received) v c.
Proof.
  induction fuel as [|fuel IH]; intros received d v c Hd Hv Hm Hres Hhas; [done|].
  destruct (valid_header_numbers hb h Hd Hv) as (Htot & _ & _ & Hsizes).
  assert (forall m v c, good (fun res v c => match res with
      | Some received => exists d, mine id d v c /\ c.(reserving) = Some r /\ has_chunks h hb d received
      | None => True end) (bind (send_error m) (fun _ => Done None)) v c) as Herr
    by (intros; eapply good_bind; [apply good_error|done]).
  cbn [receive_chunks]. eapply good_bind; [apply good_idle, idle_recv|]. intros msg v1 c1 [Hst Hg]. pose proof (mine_stable _ _ _ _ _ _ Hm Hst Hg) as Hm1.
  assert (reserving c1 = Some r) as Hres1 by (destruct Hg as (-> & _); done).
  destruct msg as [[t payload]|]; [|done].
  destruct t; try apply Herr; [|by exists d].
  destruct (deserialize_file_chunk payload) as [chunk|] eqn:Hchunk; [|apply Herr]. cbv zeta.
  destruct (_ || _) eqn:Eidx; [apply Herr|]. bool_prop. destruct (negb _) eqn:Esize; [apply Herr|]. bool_prop.
  set (i := FileChunk_chunk_index chunk) in *.
  assert (0 <= i < FileHeader_total_chunks h) as Hi.
  { apply deserialize_file_chunk_spec in Hchunk as [[[? ?] _] _]. lia. }
  specialize (Hsizes i Hi). unfold MAX_CHUNK_SIZE in Hsizes.
  rewrite u64_small in Esize by (unfold in_u64, AEAD_TAG_SIZE; lia).
  eapply good_bind; [by eapply good_write|]. intros written v2 c2 (Hres2 & t & d' & Hm2 & Hd').
  destruct written; cbn [negb]; [|apply Herr]. rewrite Hd' in Hm2.
  eapply IH; [done|done|exact Hm2|congruence|]. by apply has_chunks_insert.
Qed.

Lemma good_upload hb v c : c.(reserving) = None -> c.(own_dir) = None -> good anything (handle_upload hb) v c.
Proof.
  intros Hres Hown. unfold handle_upload. destruct (deserialize_file_header hb) as [h|] eqn:Hd; [|apply good_error]. cbv zeta.
  case_bool_decide as Hv; cbn [negb]; [|apply good_error].
  eapply good_bind; [apply good_reserve; [exact bound_small|by apply reserve_small|done..]|].
  intros room v1 c1 [Hown1 Hres1]. destruct room; cbn [negb]; [|done]. specialize (Hres1 eq_refl).
  eapply good_bind; [apply good_idle, idle_id|]. intros id v2 c2 [_ Hg]. assert (reserving c2 = Some (storage_cost h (size hb)) /\ own_dir c2 = None) as [Hres2 Hown2]
    by (destruct Hg as (-> & -> & _); done).
  destruct id as [id|]; [|apply good_error].
  eapply good_bind; [by apply good_create|]. intros made v3 c3 [Hres3 Hm3]. destruct made; cbn [negb]; [|apply good_error].
  eapply good_bind; [by eapply good_write|]. intros written v4 c4 (Hres4 & t & d & Hm4 & Hd4). destruct written; cbn [negb]; [|apply good_error].
  eapply good_bind; [apply good_idle, idle_send|]. intros sent v5 c5 [Hst5 Hg5]. destruct sent; cbn [negb]; [|done].
  eapply good_bind; [apply good_idle, idle_get|]. intros c6' v6 c6 [Hst6 Hg6].
  pose proof (mine_stable _ _ _ _ _ _ (mine_stable _ _ _ _ _ _ Hm4 Hst5 Hg5) Hst6 Hg6) as Hm6.
  assert (reserving c6 = Some (storage_cost h (size hb))) as Hres6 by (destruct Hg5 as (E5 & _), Hg6 as (E6 & _); congruence).
  eapply good_bind; [eapply good_receive; [exact Hd|exact Hv|exact Hm6|exact Hres6|]|].
  - rewrite Hd4. split; [rewrite lookup_insert_eq; by eexists|]. intros i Hi. set_solver.
  - intros [received|] v7 c7; [|done]. intros (d7 & Hm7 & Hres7 & Hhas). cbv zeta. destruct (Z.eqb_spec (Z.of_nat (stdpp.base.size received)) (FileHeader_total_chunks h)) as [E|E];
      cbn [negb]; [|apply good_error].
    eapply good_bind; [eapply good_publish; [exact Hm7|exact Hres7|by eapply has_chunks_complete]|].
    intros _ v8 c8 _. eapply good_bind; [apply good_idle, idle_send|done].
Qed.

(** ** Downloading *)

Lemma idle_send_chunks dir n : forall i, acts idle (send_chunks n i dir).
Proof.
  induction n as [|n IH]; intros i; [done|]. cbn [send_chunks]. apply acts_bind; [apply idle_read|]. intros [data|].
  - apply acts_bind; [apply idle_send|]. intros []; [apply IH|done].
  - apply acts_bind; [apply idle_error|done].
Qed.

(** Sending the transfer, and reading the confirmation: the rest touches the table. *)
Lemma good_download id v c : c.(claimed) = None -> good anything (handle_download id) v c.
Proof.
  intros Hcl. unfold handle_download. cbv zeta. destruct (negb _); [apply good_error|].
  eapply good_bind; [by apply good_claim|]. intros [| |t] v1 c1 H; [apply good_error..|]. destruct H as [Hdir Hcl1]. rewrite Hdir.
  eapply good_bind; [apply good_idle, idle_read|]. intros data v2 c2 [_ Hg2]. destruct data as [data|]; [|apply good_error].
  eapply good_bind; [apply good_idle, idle_send|]. intros sent v3 c3 [_ Hg3]. destruct sent; cbn [negb]; [|done].
  eapply good_bind; [apply good_idle, idle_send_chunks|]. intros sent v4 c4 [_ Hg4]. destruct sent; cbn [negb]; [|done].
  eapply good_bind; [apply good_idle, idle_send|]. intros sent v5 c5 [_ Hg5]. destruct sent; cbn [negb]; [|done].
  eapply good_bind; [apply good_idle, idle_recv|]. intros confirm v6 c6 [_ Hg6]. destruct confirm as [[[] payload]|]; try done.
  pose proof (same_guards_trans _ _ _ Hg2 (same_guards_trans _ _ _ Hg3 (same_guards_trans _ _ _ Hg4 (same_guards_trans _ _ _ Hg5 Hg6)))) as Hg.
  eapply good_bind; [apply good_forget; [exact bound_small|]; destruct Hg as (_ & _ & -> & _); exact Hcl1|]. intros u v7 c7 [Hl _].
  eapply good_anything, good_remove_leaving, Hl.
Qed.

(** ** The threads *)

Section system.
(** The sessions of protocol v3 leave the transfers alone. *)
Variable handle_session : bytes -> prog unit.
Hypothesis session_idle : forall payload, acts idle (handle_session payload).

Lemma good_client v c : c.(reserving) = None -> c.(own_dir) = None -> c.(claimed) = None -> good anything (handle_client handle_session) v c.
Proof.
  intros Hres Hown Hcl. eapply good_bind; [apply good_idle, idle_recv|]. intros first v1 c1 [_ (G1 & G2 & G3 & _)].
  destruct first as [[t payload]|]; [|done]. destruct t; try apply good_error.
  - apply good_upload; congruence.
  - apply good_download; congruence.
  - eapply good_anything, good_idle, session_idle.
Qed.

Lemma good_client_guards v c : good anything client_guards v c.
Proof.
  eapply good_bind; [by apply good_upload_guard|]. intros _ v1 c1 _. eapply good_bind; [apply good_download_guard|]. intros _ v2 c2 _.
  eapply good_anything, good_idle. split; [|done]. by intros ????? [= <- <- <-].
Qed.

(** A connection that is taken, a round of the cleanup, or time that passes and random
    bytes that come: a thread that does nothing. *)
Inductive server_starts : Server -> thread Server Conn -> Server -> Prop :=
  | starts_client v v' ins takes answers :
      accept_connection v = Some v' ->
      server_starts v (mkThread (handle_client handle_session) (new_conn ins takes answers) client_guards) v'
  | starts_cleanup v answers :
      server_starts v (mkThread cleanup_round (new_conn [] None answers) (Done tt)) v
  | starts_time v now fnow rnd :
      server_starts v (mkThread (Done tt) (new_conn [] None []) (Done tt))
        (mkServer v.(g_transfers) v.(g_reserved_bytes) v.(g_storage_quota) v.(g_active_connections) v.(storage) now fnow rnd).

Lemma inv_new_conn v v' cs ins takes answers :
  server_inv bound v cs -> same_server v v' -> server_inv bound v' (cs ++ [new_conn ins takes answers]).
Proof.
  intros HI Hs. eapply server_inv_perm; [apply Permutation_cons_append|]. destruct Hs as (E1 & E2 & E3 & E4).
  destruct HI as [H1 H2 H3 H4 H5 H6 H7 H8]. constructor; rewrite ?E1, ?E2, ?E3, ?E4; try done.
  intros x [-> |Hx]%elem_of_cons; [done|by apply H2].
Qed.

Lemma server_start_ok v ts t v' :
  System_ok (server_inv bound) stable (v, ts) -> server_starts v t v' ->
  server_inv bound v' (states (ts ++ [t])) /\ thread_good (server_inv bound) stable v' t /\ forall u, u ∈ ts -> stable u.(th_state) v v'.
Proof.
  intros [HI _] Hstart. unfold states in *. rewrite map_app. cbn [fst snd map] in *. destruct Hstart as [v v' ins takes answers Ha|v answers|v now fnow rnd]; cbn [th_state].
  - assert (same_server v v') as Hs by (unfold accept_connection in Ha; case_match; by simplify_eq).
    split; [by eapply inv_new_conn|]. split; [split; [by apply good_client|apply good_client_guards]|]. intros u _ x _. by destruct Hs as (_ & _ & _ & ->).
  - split; [by apply (inv_new_conn v v)|]. split; [split; [apply good_cleanup, bound_small|done]|done].
  - split; [by apply (inv_new_conn v)|]. split; [by split|done].
Qed.

(** A server that has just started: nobody is connected. *)
Definition starting (v : Server) : Prop := server_inv bound v [].

Lemma starting_ok v : starting v -> System_ok (server_inv bound) stable (v, []).
Proof. intros H. split; [exact H|constructor]. Qed.

Lemma server_system_ok v v' ts :
  starting v -> rtc (system_step server_starts) (v, []) (v', ts) -> server_inv bound v' (states ts).
Proof.
  intros Hv Hr. apply starting_ok in Hv.
  eapply (System_invariant server_starts (server_inv bound) stable) in Hr as [HI _]; [done|apply server_inv_perm|apply stable_refl|apply stable_trans|apply server_start_ok|done].
Qed.
End system.
End transfers.

(** C6: transfers are kept whole, and the space is accounted for, whatever happens at
    once. From a server that has started, in every state that any interleaving of
    connections (whatever they send, wherever they break off, whatever files fail and
    whatever is thrown), cleanup rounds and the passing of time can reach: the reserved
    space is that of the stored transfers and of the uploads under way, and within the
    bound; every transfer in the table has on disk the header it was uploaded with and
    every chunk in its full size; and a transfer is marked as being downloaded exactly
    when one connection, and only one, is downloading it. So when no connection is in
    the middle of something, no space and no transfer is held by anyone. *)
Theorem transfers_kept bound handle_session v v' ts :
  bound < 2 ^ 63 -> (forall payload, acts idle (handle_session payload)) -> starting bound v ->
  rtc (system_step (server_starts handle_session)) (v, []) (v', ts) ->
  let conns := states ts in
  v'.(g_reserved_bytes) = table_sum v'.(g_transfers) + sum_by space conns /\ v'.(g_reserved_bytes) <= bound /\
  (forall id t, v'.(g_transfers) !! id = Some t ->
     (exists d, v'.(storage) !! id = Some d /\ complete t.(st_header) d t.(st_reserved_bytes)) /\
     (t.(st_downloading) = true <-> exists i c, conns !! i = Some c /\ c.(claimed) = Some id)) /\
  (forall i j c c' id, conns !! i = Some c -> conns !! j = Some c' -> c.(claimed) = Some id -> c'.(claimed) = Some id -> i = j) /\
  ((forall c, c ∈ conns -> c.(reserving) = None /\ c.(claimed) = None) ->
     v'.(g_reserved_bytes) = table_sum v'.(g_transfers) /\ forall id t, v'.(g_transfers) !! id = Some t -> t.(st_downloading) = false).
Proof.
  intros Hb Hsess Hv Hr. pose proof (server_system_ok bound Hb handle_session Hsess v v' ts Hv Hr) as HI. cbv zeta.
  set (conns := states ts) in *. clearbody conns.
  assert (forall id, id ∈ omap claimed conns <-> exists i c, conns !! i = Some c /\ c.(claimed) = Some id) as Hcl.
  { intros id. rewrite list_elem_of_omap. setoid_rewrite list_elem_of_lookup. naive_solver. }
  split; [apply (si_space _ _ _ HI)|]. split; [apply (si_bound _ _ _ HI)|]. split; [|split].
  - intros id t Ht. destruct (si_table _ _ _ HI id t Ht) as (_ & d & Hd & Hco). split; [by exists d|].
    rewrite <- Hcl, (si_claims _ _ _ HI). split; [intros; by exists t|]. intros (u & Hu & Hdl). congruence.
  - intros i j c c' id Hi Hj Hc Hc'. pose proof (si_claimed_once _ _ _ HI) as Hn. by eapply NoDup_omap_lookup.
  - intros Hnone. split.
    + rewrite (si_space _ _ _ HI). assert (sum_by space conns = 0) as ->; [|lia].
      clear - Hnone. induction conns as [|c conns IH]; [done|]. rewrite sum_by_cons, IH by (intros; apply Hnone; by right).
      unfold space. by destruct (Hnone c ltac:(left)) as [-> _].
    + intros id t Ht. destruct (st_downloading t) eqn:E; [|done]. exfalso.
      assert (id ∈ omap claimed conns) as Hin by (apply (si_claims _ _ _ HI); by exists t).
      apply list_elem_of_omap in Hin as (c & Hc & Hid). destruct (Hnone c Hc). congruence.
Qed.
