(* ===== verification/TransferEngine.v ===== *)
(** * The client's half of a transfer: client/transfer_engine.h and transfer_engine.cpp

    One upload or download of protocol v2: the file is sealed chunk by chunk for the
    recipient, its name, sender and signature travel in the sealed metadata; the receiver
    checks who it is from before anything is written, writes to a temporary file, and
    gives it its name when everything has been opened. A transfer has the socket, what
    every look at the cancel flag finds, the folder it saves in with what the file system
    answers, and the callbacks it has made. Resolving and connecting to addresses, and the
    texts of the system's errors, are inputs; paths in the texts are left out. *)

From Stdlib Require Import ZArith Lia.
From stdpp Require Import base list strings gmap.
From S2P Require Import Prelude Wire Text Protocol Crypto Attachment KeyStore.
#[local] Open Scope Z_scope.
#[local] Open Scope wire_scope.

(** ** Formats *)

(** src/client/transfer_engine.cpp 20-20 SIGNATURE_CONTEXT *)
Definition SIGNATURE_CONTEXT : bytes := str "pq-file-transfer v2 header signature".
(** src/client/transfer_engine.cpp 21-21 METADATA_AAD *)
Definition METADATA_AAD : bytes := str "pq-file-transfer v2 metadata".
(** src/client/transfer_engine.cpp 22-22 CHUNK_AAD *)
Definition CHUNK_AAD : bytes := str "pq-file-transfer v2 chunk".

(** src/client/transfer_engine.cpp 31-40 build_signing_payload *)
Definition build_signing_payload (public_fields filename sender_fingerprint : bytes) : bytes :=
  let p := write_string [] SIGNATURE_CONTEXT in
  let p := write_blob p public_fields in
  let p := write_string p filename in
  write_string p sender_fingerprint.

(** src/client/transfer_engine.cpp 42-44 metadata_aad *)
Definition metadata_aad : bytes := METADATA_AAD.

(** src/client/transfer_engine.cpp 48-53 chunk_aad *)
Definition transfer_chunk_aad (index : Z) (is_last : bool) : bytes :=
  write_u32 CHUNK_AAD index ++ [if is_last then Byte.x01 else Byte.x00].

Definition xor_at (i : nat) (z : Z) (nonce : bytes) : bytes :=
  alter (fun b => byte_of_Z (Z.lxor (Z_of_byte b) (z mod 256))) i nonce.

(** src/client/transfer_engine.cpp 56-63 chunk_nonce *)
Definition transfer_chunk_nonce (base : bytes) (index : Z) : bytes :=
  let nonce := xor_at 8 (Z.shiftr index 24) base in
  let nonce := xor_at 9 (Z.shiftr index 16) nonce in
  let nonce := xor_at 10 (Z.shiftr index 8) nonce in
  xor_at 11 index nonce.

(** src/client/transfer_engine.cpp 66-73 clean_server_text *)
Definition clean_server_text (payload : bytes) : bytes :=
  let out := map (fun b => if (32 <=? Z_of_byte b) && negb (Z_of_byte b =? 127) then b else chr 32) (ztake 200 payload) in
  if is_empty out then str "unknown error" else out.

(** ** Names *)

(** How many bytes the UTF-8 character at the beginning of [s] has; nothing if there is
    no valid one.
    src/client/transfer_engine.cpp 86-97 sanitize_utf8 *)
Definition utf8_length (s : bytes) : option Z :=
  let at_ k := byte_at s k in
  let c := at_ 0 in
  let n := if c <? 0x80 then 1 else if Z.shiftr c 5 =? 0x6 then 2 else if Z.shiftr c 4 =? 0xE then 3
           else if Z.shiftr c 3 =? 0x1E then 4 else 0 in
  let valid := negb (n =? 0) && (n <=? size s) in
  let valid := valid && forallb (fun k => Z.land (at_ k) 0xC0 =? 0x80) (seqZ 1 (n - 1)) in
  let valid := if valid && (n =? 2) then 0xC2 <=? c else valid in
  let valid := if valid && (n =? 3) then negb ((c =? 0xE0) && (at_ 1 <? 0xA0)) && negb ((c =? 0xED) && (0xA0 <=? at_ 1)) else valid in
  let valid := if valid && (n =? 4) then negb ((c =? 0xF0) && (at_ 1 <? 0x90)) && (c <=? 0xF4) && negb ((c =? 0xF4) && (0x90 <=? at_ 1))
               else valid in
  if valid then Some n else None.

(** [s] is what is left of the input: every round takes at least one byte.
    src/client/transfer_engine.cpp 82-105 sanitize_utf8 *)
Fixpoint sanitize_utf8_loop (fuel : nat) (s : bytes) : bytes :=
  match fuel, s with
  | O, _ | _, [] => []
  | S fuel, _ =>
      match utf8_length s with
      | Some n => ztake n s ++ sanitize_utf8_loop fuel (zdrop n s)
      | None => chr 95 :: sanitize_utf8_loop fuel (zdrop 1 s)
      end
  end.

(** src/client/transfer_engine.cpp 82-105 sanitize_utf8 *)
Definition sanitize_utf8 (input : bytes) : bytes := sanitize_utf8_loop (length input) input.

(** [name.find_last_of] of slash and backslash. *)
Definition is_slash (c : byte) : bool := bool_decide (c = chr 47) || bool_decide (c = chr 92).
Fixpoint find_last_slash (s : bytes) : option Z :=
  match s with
  | [] => None
  | c :: s => match find_last_slash s with Some i => Some (i + 1) | None => if is_slash c then Some 0 else None end
  end.
Definition after_slash (name : bytes) : bytes := match find_last_slash name with Some i => zdrop (i + 1) name | None => name end.

(** The forbidden characters are less, greater, colon, quote, bar, question mark and star.
    src/client/transfer_engine.cpp 114-119 sanitize_filename *)
Definition bad_char (ch : byte) : bool :=
  let u := Z_of_byte ch in (u <? 0x20) || (u =? 0x7F) || bool_decide (u ∈ [60; 62; 58; 34; 124; 63; 42]).

(** [while (cut > 0 && (cleaned[cut] & 0xC0) == 0x80) cut--]. *)
Fixpoint cut_back (cut : nat) (s : bytes) : nat :=
  match cut with
  | O => O
  | S k => if Z.land (byte_at s (Z.of_nat cut)) 0xC0 =? 0x80 then cut_back k s else cut
  end.

(** src/client/transfer_engine.cpp 132-135 sanitize_filename *)
Definition reserved_names : list bytes :=
  map str ["con"; "prn"; "aux"; "nul"; "com1"; "com2"; "com3"; "com4"; "com5"; "com6"; "com7"; "com8"; "com9";
           "lpt1"; "lpt2"; "lpt3"; "lpt4"; "lpt5"; "lpt6"; "lpt7"; "lpt8"; "lpt9"]%string.

(** src/client/transfer_engine.cpp 109-139 sanitize_filename *)
Definition sanitize_received_name (raw : bytes) : bytes :=
  let name := after_slash (sanitize_utf8 raw) in
  let cleaned := map (fun ch => if bad_char ch then chr 95 else ch) name in
  let cleaned := drop_back space_or_dot (drop_front space_or_dot cleaned) in
  let cleaned := if 200 <? size cleaned then take (cut_back 200 cleaned) cleaned else cleaned in
  if is_empty cleaned then str "received_file" else
  let base := match find_char (chr 46) cleaned with Some i => ztake i cleaned | None => cleaned end in
  if bool_decide (map to_lower base ∈ reserved_names) then chr 95 :: cleaned else cleaned.

(** src/client/transfer_engine.cpp 141-145 part_path_for *)
Definition part_path_for (p : bytes) : bytes := p ++ str ".part".

(** [stem()] and [extension()] of a name that does not begin with a dot. *)
Definition stem_and_extension (name : bytes) : bytes * bytes :=
  match rfind_char (chr 46) name with
  | Some dot => if 0 <? dot then (ztake dot name, zdrop dot name) else (name, [])
  | None => (name, [])
  end.

Definition candidate (name : bytes) (n : nat) : bytes :=
  match n with
  | O => name
  | _ => let '(stem, ext) := stem_and_extension name in stem ++ str " (" ++ to_string (Z.of_nat n) ++ str ")" ++ ext
  end.

Definition free_name (dir : Folder) (p : bytes) : bool :=
  match dir !! p, dir !! part_path_for p with None, None => true | _, _ => false end.

(** src/client/transfer_engine.cpp 148-159 unique_output_path *)
Definition unique_output_path (dir : Folder) (name : bytes) : option bytes :=
  candidate name <$> head (filter (fun n => free_name dir (candidate name n) = true) (seq 0 10000)).

(** ** A transfer *)

(** What the callbacks are told; a fraction is a numerator and a denominator.
    src/client/transfer_engine.h 42-46 on_progress *)
Inductive Event :=
  | OnProgress (done total : Z)
  | OnStatus (msg : bytes)
  | OnError (error : bytes)
  | OnComplete (filepath : bytes)
  | OnTransferId (transfer_id : bytes).

(** What the file system answers: it works, or it fails, in a write after that many
    bytes. *)
Inductive disk_answer :=
  | Works
  | Fails (wrote : Z).

(** src/client/transfer_engine.h 49-66 TransferEngine *)
Record Transfer := mkTransfer {
  tr_in : list (MessageType * bytes);
  tr_takes : option nat;
  tr_out : list (MessageType * bytes);
  tr_cancelled : list bool;
  tr_dir : Folder;
  tr_disk : list disk_answer;
  tr_events : list Event;
}.

(** src/client/transfer_engine.cpp 24-27 TransferError *)
Inductive thrown :=
  | TransferError (what : bytes)
  | TransferCancelled.

Definition T (A : Type) : Type := Transfer -> (thrown + A) * Transfer.

Definition tret {A} (a : A) : T A := fun t => (inr a, t).
Definition tbind {A B} (m : T A) (k : A -> T B) : T B := fun t => match m t with (inr a, t) => k a t | (inl e, t) => (inl e, t) end.
Definition tfail {A} (what : bytes) : T A := fun t => (inl (TransferError what), t).
Abbreviation fail text := (tfail (str text)).
Definition texc {A} (x : exc A) : T A := match x with Ret a => tret a | Throw what => tfail (str what) end.

Declare Scope transfer_scope.
Delimit Scope transfer_scope with transfer.
Notation "'do' x <- m ; k" := (tbind m (fun x => k)) (at level 100, x pattern, m at next level, k at level 200, right associativity) : transfer_scope.
#[local] Open Scope transfer_scope.

Definition tell (e : Event) : T unit := fun t =>
  (inr tt, mkTransfer t.(tr_in) t.(tr_takes) t.(tr_out) t.(tr_cancelled) t.(tr_dir) t.(tr_disk) (t.(tr_events) ++ [e])).
(** src/client/transfer_engine.cpp 204-206 status *)
Definition status (msg : bytes) : T unit := tell (OnStatus msg).
(** src/client/transfer_engine.cpp 208-210 progress *)
Definition progress (done total : Z) : T unit := tell (OnProgress done total).

(** src/client/transfer_engine.cpp 212-214 check_cancelled *)
Definition check_cancelled : T unit := fun t =>
  let '(found, rest) := match t.(tr_cancelled) with b :: rest => (b, rest) | [] => (false, []) end in
  (if found then inl TransferCancelled else inr tt,
   mkTransfer t.(tr_in) t.(tr_takes) t.(tr_out) rest t.(tr_dir) t.(tr_disk) t.(tr_events)).

(** [send_message]: false if the connection has failed. *)
Definition tsend (type : MessageType) (payload : bytes) : T bool := fun t =>
  match t.(tr_takes) with
  | Some O => (inr false, t)
  | n => (inr true, mkTransfer t.(tr_in) (Nat.pred <$> n) (t.(tr_out) ++ [(type, payload)]) t.(tr_cancelled) t.(tr_dir) t.(tr_disk) t.(tr_events))
  end.

(** [recv_message]: nothing if no more comes, or something too large. *)
Definition trecv (max_payload : Z) : T (option (MessageType * bytes)) := fun t =>
  match t.(tr_in) with
  | [] => (inr None, t)
  | m :: rest =>
      (inr (if max_payload <? size m.2 then None else Some m),
       mkTransfer rest t.(tr_takes) t.(tr_out) t.(tr_cancelled) t.(tr_dir) t.(tr_disk) t.(tr_events))
  end.

Definition disk : T disk_answer := fun t =>
  let '(a, rest) := match t.(tr_disk) with a :: rest => (a, rest) | [] => (Works, []) end in
  (inr a, mkTransfer t.(tr_in) t.(tr_takes) t.(tr_out) t.(tr_cancelled) t.(tr_dir) rest t.(tr_events)).
Definition in_dir (f : Folder -> Folder) : T unit := fun t =>
  (inr tt, mkTransfer t.(tr_in) t.(tr_takes) t.(tr_out) t.(tr_cancelled) (f t.(tr_dir)) t.(tr_disk) t.(tr_events)).
Definition the_dir : T Folder := fun t => (inr t.(tr_dir), t).

(** src/client/transfer_engine.cpp 75-79 throw_server_error *)
Definition throw_server_error {A} (msg : option (MessageType * bytes)) (context : string) : T A :=
  match msg with
  | Some (ERROR_MSG, payload) => tfail (str "Server: " ++ clean_server_text payload)
  | _ => fail context
  end.

(** [attempts]: for each address, whether connecting to it works; nothing when the name
    is not resolved. [failure]: the text for the last failure. *)
Record Network := mkNetwork { nw_host : bytes; nw_attempts : option (list bool); nw_failure : bytes }.

(** src/client/transfer_engine.cpp 229-244 connect_to_server *)
Fixpoint connect_loop (attempts : list bool) (failure : bytes) : T unit :=
  match attempts with
  | [] => do _ <- check_cancelled; tfail failure
  | works :: attempts => do _ <- check_cancelled; if works : bool then tret tt else connect_loop attempts failure
  end.

(** src/client/transfer_engine.cpp 216-245 connect_to_server *)
Definition connect_to_server (net : Network) : T unit :=
  match net.(nw_attempts) with
  | None => tfail (str "Could not resolve server address " ++ [chr 34] ++ net.(nw_host) ++ [chr 34])
  | Some attempts => connect_loop attempts net.(nw_failure)
  end.

Section engine.
Context `{P : Primitives}.

(** ** Upload *)

(** The file to send: whether it is a regular file, its size, its name, whether it can be
    opened, and what reading it gives.
    src/client/transfer_engine.cpp 266-279 upload_impl *)
Record Source := mkSource { so_path : bytes; so_regular : bool; so_size : option Z; so_name : bytes; so_opens : bool; so_content : bytes }.

(** The random bytes of an upload. *)
Record Randomness := mkRandomness { rn_nonce : bytes; rn_kem : bytes; rn_sign : bytes }.

(** What is sent first, and what the chunks are sealed with.
    src/client/transfer_engine.cpp 282-305 upload_impl *)
Definition make_header (r : Randomness) (recipient : Contact) (pub_dsa priv_dsa filename : bytes) (file_size : Z)
    : exc (FileHeader * SessionKeys) :=
  let chunks := expected_total_chunks file_size DEFAULT_CHUNK_SIZE in
  let! (ciphertext, shared_secret) := encapsulate r.(rn_kem) recipient.(co_pub_kem) in
  let header := mkFileHeader file_size DEFAULT_CHUNK_SIZE chunks ciphertext r.(rn_nonce) [] in
  let public_fields := serialize_header_public_fields header in
  let! keys := derive_session_keys shared_secret (sha256 public_fields) in
  let sender_fingerprint := fingerprint pub_dsa in
  let! signature := sign r.(rn_sign) (build_signing_payload public_fields filename sender_fingerprint) priv_dsa in
  let meta := mkFileMetadata filename sender_fingerprint signature in
  let! sealed := encrypt keys.(metadata_key) r.(rn_nonce) (serialize_file_metadata meta) metadata_aad in
  Ret (mkFileHeader file_size DEFAULT_CHUNK_SIZE chunks ciphertext r.(rn_nonce) sealed, keys).

(** The chunks from [i] on, [n] of them; [bytes_sent] are behind.
    src/client/transfer_engine.cpp 325-352 upload_impl *)
Fixpoint send_file (n : nat) (i : Z) (header : FileHeader) (keys : SessionKeys) (content : bytes) (bytes_sent : Z) : T Z :=
  match n with
  | O => tret bytes_sent
  | S n =>
      do _ <- check_cancelled;
      let expected := expected_chunk_plaintext_size header i in
      let buffer := ztake expected (zdrop bytes_sent content) in
      if (0 <? expected) && negb (size buffer =? expected) then fail "The file changed while it was being sent" else
      do data <- texc (encrypt keys.(data_key) (transfer_chunk_nonce header.(FileHeader_nonce) i) buffer
                         (transfer_chunk_aad i (u32 (i + 1) =? header.(FileHeader_total_chunks))));
      do sent <- tsend UPLOAD_CHUNK (serialize_file_chunk (mkFileChunk i data));
      if negb sent then
        do _ <- check_cancelled;
        do msg <- trecv MAX_CONTROL_MESSAGE;
        throw_server_error msg "Connection lost while uploading"
      else
        let bytes_sent := u64 (bytes_sent + expected) in
        let file_size := header.(FileHeader_file_size) in
        do _ <- (if file_size =? 0 then progress 1 1 else progress bytes_sent file_size);
        send_file n (u32 (i + 1)) header keys content bytes_sent
  end.

(** src/client/transfer_engine.cpp 255-370 upload_impl *)
Definition upload_impl (r : Randomness) (keystore : KeyStore) (source : Source) (net : Network) (recipient : Contact) : T unit :=
  do _ <- status (str "Loading keys...");
  if private_keys_locked keystore then fail "Your keys are locked. Unlock them first" else
  let priv_dsa := load_private_dsa keystore in
  let pub_dsa := load_public_dsa keystore in
  if is_empty priv_dsa || is_empty pub_dsa then fail "Your signing keys could not be loaded" else
  if negb source.(so_regular) then tfail (str "Not a regular file: " ++ source.(so_path)) else
  match source.(so_size) with
  | None => tfail (str "Cannot read file size: " ++ source.(so_path))
  | Some file_size =>
      if MAX_FILE_SIZE <? file_size then fail "File is larger than the 16 GiB limit" else
      let filename := source.(so_name) in
      if MAX_FILENAME_BYTES <? size filename then fail "File name is too long" else
      if negb source.(so_opens) then tfail (str "Cannot open file: " ++ source.(so_path)) else
      do _ <- status (str "Encrypting for " ++ recipient.(co_name) ++ str "...");
      do (header, keys) <- texc (make_header r recipient pub_dsa priv_dsa filename file_size);
      do _ <- status (str "Connecting to server...");
      do _ <- connect_to_server net;
      do sent <- tsend UPLOAD_REQUEST (serialize_file_header header);
      if negb sent then do _ <- check_cancelled; fail "Failed to send file header" else
      do ack <- trecv MAX_CONTROL_MESSAGE;
      do _ <- check_cancelled;
      match ack with
      | Some (ACK, transfer_id) =>
          if negb (is_lower_hex transfer_id TRANSFER_ID_HEX_LEN) then fail "Server sent an invalid transfer ID" else
          do _ <- tell (OnTransferId transfer_id);
          do _ <- status (str "Encrypting and uploading " ++ filename ++ str "...");
          do bytes_sent <- send_file (Z.to_nat header.(FileHeader_total_chunks)) 0 header keys source.(so_content) 0;
          if negb (is_empty (zdrop bytes_sent source.(so_content))) then fail "The file changed while it was being sent" else
          do sent <- tsend UPLOAD_DONE [];
          if negb sent then do _ <- check_cancelled; fail "Failed to finalize upload" else
          do final_ack <- trecv MAX_CONTROL_MESSAGE;
          do _ <- check_cancelled;
          match final_ack with
          | Some (ACK, _) =>
              do _ <- progress 1 1;
              do _ <- status (str "Uploaded " ++ filename ++ str " for " ++ recipient.(co_name)
                                ++ str ". Send them the transfer ID. It works once and expires in 24 hours.");
              tell (OnComplete source.(so_path))
          | _ => throw_server_error final_ack "Server did not confirm the upload"
          end
      | _ => throw_server_error ack "Server rejected the upload"
      end
  end.

(** ** Download *)

(** White space is dropped, capitals are made small.
    src/client/transfer_engine.cpp 376-381 download_impl *)
Definition clean_transfer_id (raw_id : bytes) : bytes :=
  map to_lower (filter (fun c => ~ (c = chr 32 \/ c = chr 9 \/ c = chr 10 \/ c = chr 13)) raw_id).

(** What the header and the metadata say, once they have been opened. *)
Record Opened := mkOpened { op_header : FileHeader; op_keys : SessionKeys; op_meta : FileMetadata }.

(** src/client/transfer_engine.cpp 408-413 download_impl *)
Definition check_header (payload : bytes) : exc FileHeader :=
  match deserialize_file_header payload with
  | None => Throw "Malformed file header (the sender may be using a different version)"
  | Some header =>
      let problem := validate_file_header header in
      if negb (bool_decide (problem = ""%string)) then Throw ("Invalid file header: " +:+ problem) else
      if negb (size header.(FileHeader_kem_ciphertext) =? kem_ciphertext_size) then Throw "Invalid file header: bad key encapsulation size" else
      Ret header
  end.

(** src/client/transfer_engine.cpp 415-429 download_impl *)
Definition open_metadata (header : FileHeader) (priv_kem : bytes) : exc Opened :=
  let public_fields := serialize_header_public_fields header in
  let! shared_secret := decapsulate header.(FileHeader_kem_ciphertext) priv_kem in
  let! keys := derive_session_keys shared_secret (sha256 public_fields) in
  let! meta_bytes := decrypt keys.(metadata_key) header.(FileHeader_nonce) header.(FileHeader_sealed_metadata) metadata_aad in
  match meta_bytes with
  | None => Throw "This transfer was not encrypted for your keys, or it was tampered with"
  | Some meta_bytes =>
      match deserialize_file_metadata meta_bytes with
      | None => Throw "Malformed transfer metadata"
      | Some meta => Ret (mkOpened header keys meta)
      end
  end.

(** Who it is from: a name and a public key.
    src/client/transfer_engine.cpp 432-444 download_impl *)
Definition sender_of (keystore : KeyStore) (own_pub_dsa sender_fingerprint : bytes) : option (bytes * bytes) :=
  if bool_decide (sender_fingerprint = fingerprint own_pub_dsa) then Some (str "yourself", own_pub_dsa) else
  let? contact := find_contact_by_fingerprint keystore sender_fingerprint in Some (contact.(co_name), contact.(co_pub_dsa)).

(** src/client/transfer_engine.cpp 446-447 download_impl *)
Definition signed_by (opened : Opened) (sender_pub_dsa : bytes) : bool :=
  let meta := opened.(op_meta) in
  verify (build_signing_payload (serialize_header_public_fields opened.(op_header)) meta.(FileMetadata_filename)
            meta.(FileMetadata_sender_fingerprint)) meta.(FileMetadata_signature) sender_pub_dsa.

(** The chunks from [i] on, [n] of them, written to [part].
    src/client/transfer_engine.cpp 470-495 download_impl *)
Fixpoint receive_file (n : nat) (i : Z) (opened : Opened) (part : bytes) (bytes_written : Z) : T Z :=
  match n with
  | O => tret bytes_written
  | S n =>
      let header := opened.(op_header) in
      do _ <- check_cancelled;
      do msg <- trecv MAX_CHUNK_MESSAGE;
      do _ <- check_cancelled;
      match msg with
      | Some (DOWNLOAD_CHUNK, payload) =>
          match deserialize_file_chunk payload with
          | None => fail "Malformed chunk from server"
          | Some chunk =>
              if negb (chunk.(FileChunk_chunk_index) =? i) then fail "Chunks arrived out of order" else
              do plain <- texc (decrypt opened.(op_keys).(data_key) (transfer_chunk_nonce header.(FileHeader_nonce) i) chunk.(FileChunk_data)
                                  (transfer_chunk_aad i (u32 (i + 1) =? header.(FileHeader_total_chunks))));
              match plain with
              | None => tfail (str "Chunk " ++ to_string i ++ str " failed authentication. Data was tampered with")
              | Some plain =>
                  if negb (size plain =? expected_chunk_plaintext_size header i)
                  then tfail (str "Chunk " ++ to_string i ++ str " has an unexpected size") else
                  do _ <- (if is_empty plain then tret tt else
                             do a <- disk;
                             match a with
                             | Works => in_dir (alter (fun b => b ++ plain) part)
                             | Fails k => do _ <- in_dir (alter (fun b => b ++ ztake k plain) part); fail "Failed writing to disk (is it full?)"
                             end);
                  let bytes_written := u64 (bytes_written + size plain) in
                  do _ <- (if header.(FileHeader_file_size) =? 0 then progress 1 1 else progress bytes_written header.(FileHeader_file_size));
                  receive_file n (u32 (i + 1)) opened part bytes_written
              end
          end
      | _ => throw_server_error msg "Connection lost during download"
      end
  end.

(** The guard: when [m] throws, the temporary file is removed, if it can be.
    src/client/transfer_engine.cpp 464-468 download_impl *)
Definition or_remove {A} (part : bytes) (m : T A) : T A := fun t =>
  match m t with
  | (inl e, t) => (inl e, ((do a <- disk; match a with Works => in_dir (delete part) | Fails _ => tret tt end) t).2)
  | r => r
  end.

(** From the first chunk to the name of the file. [meanwhile]: what others do to the
    folder; [os_error]: the text for a failed renaming. Closing can fail, and then the
    end of the file is lost.
    src/client/transfer_engine.cpp 470-508 download_impl *)
Definition save_file (meanwhile : Folder -> Folder) (os_error safe_name final_path : bytes) (opened : Opened) : T bytes :=
  let part := part_path_for final_path in
  let header := opened.(op_header) in
  do bytes_written <- receive_file (Z.to_nat header.(FileHeader_total_chunks)) 0 opened part 0;
  do done <- trecv MAX_CONTROL_MESSAGE;
  do _ <- check_cancelled;
  match done with
  | Some (DOWNLOAD_DONE, _) =>
      do a <- disk;
      do _ <- match a with Works => tret tt | Fails k => in_dir (alter (ztake k) part) end;
      if match a with Works => false | Fails _ => true end || negb (bytes_written =? header.(FileHeader_file_size))
      then fail "Failed writing to disk" else
      do _ <- in_dir meanwhile;
      do dir <- the_dir;
      do final_path <- match dir !! final_path with
                       | None => tret final_path
                       | Some _ => match unique_output_path dir safe_name with
                                   | Some p => tret p
                                   | None => fail "Could not find a free file name"
                                   end
                       end;
      do a <- disk;
      match a, dir !! part with
      | Works, Some content => do _ <- in_dir (fun dir => <[final_path := content]> (delete part dir)); tret final_path
      | _, _ => tfail (str "Cannot save file: " ++ os_error)
      end
  | _ => throw_server_error done "Server did not finish the transfer"
  end.

(** src/client/transfer_engine.cpp 374-516 download_impl *)
Definition download_impl (meanwhile : Folder -> Folder) (os_error : bytes) (keystore : KeyStore) (raw_id : bytes) (net : Network) : T unit :=
  let transfer_id := clean_transfer_id raw_id in
  if negb (is_lower_hex transfer_id TRANSFER_ID_HEX_LEN)
  then fail "That doesn't look like a transfer ID (expected 32 hex characters)" else
  if private_keys_locked keystore then fail "Your keys are locked. Unlock them first" else
  let priv_kem := load_private_kem keystore in
  let own_pub_dsa := load_public_dsa keystore in
  if is_empty priv_kem || is_empty own_pub_dsa then fail "Your keys could not be loaded" else
  do _ <- status (str "Connecting to server...");
  do _ <- connect_to_server net;
  do sent <- tsend DOWNLOAD_REQUEST transfer_id;
  if negb sent then do _ <- check_cancelled; fail "Failed to send download request" else
  do _ <- status (str "Receiving file header...");
  do header_msg <- trecv MAX_HEADER_MESSAGE;
  do _ <- check_cancelled;
  match header_msg with
  | Some (DOWNLOAD_HEADER, payload) =>
      do header <- texc (check_header payload);
      do _ <- status (str "Decrypting...");
      do opened <- texc (open_metadata header priv_kem);
      do _ <- status (str "Verifying sender...");
      let fp := opened.(op_meta).(FileMetadata_sender_fingerprint) in
      match sender_of keystore own_pub_dsa fp with
      | None => tfail (str "The sender is not in your contacts (fingerprint " ++ ztake 16 fp
                         ++ str "...). Add them, after verifying their fingerprint, then try again.")
      | Some (sender_name, sender_pub_dsa) =>
          if negb (signed_by opened sender_pub_dsa)
          then fail "Signature verification FAILED. The transfer may be forged or tampered with" else
          let safe_name := sanitize_received_name opened.(op_meta).(FileMetadata_filename) in
          do _ <- status (str "Signature verified, from " ++ sender_name ++ str ". Receiving " ++ safe_name ++ str "...");
          do a <- disk;
          match a with
          | Fails _ => tfail (str "Cannot create download folder: " ++ os_error)
          | Works =>
              do dir <- the_dir;
              match unique_output_path dir safe_name with
              | None => fail "Could not find a free file name"
              | Some final_path =>
                  do a <- disk;
                  match a with
                  | Fails _ => fail "Cannot create output file"
                  | Works =>
                      do _ <- in_dir <[part_path_for final_path := []]>;
                      do final_path <- or_remove (part_path_for final_path) (save_file meanwhile os_error safe_name final_path opened);
                      do _ <- tsend ACK [];
                      do _ <- progress 1 1;
                      do _ <- status (str "Received " ++ final_path ++ str " from " ++ sender_name);
                      tell (OnComplete final_path)
                  end
              end
          end
      end
  | _ => throw_server_error header_msg "Server did not send a file header"
  end.

(** ** The entry points: nothing is thrown *)

(** src/client/transfer_engine.cpp 165-187 upload_file *)
Definition reported (m : T unit) (t : Transfer) : Transfer :=
  match m t with
  | (inr _, t) => t
  | (inl TransferCancelled, t) => (tell (OnError (str "Transfer cancelled")) t).2
  | (inl (TransferError what), t) => (tell (OnError what) t).2
  end.

(** src/client/transfer_engine.cpp 165-175 upload_file *)
Definition upload_file (r : Randomness) (keystore : KeyStore) (source : Source) (net : Network) (recipient : Contact) : Transfer -> Transfer :=
  reported (upload_impl r keystore source net recipient).

(** src/client/transfer_engine.cpp 177-187 download_file *)
Definition download_file (meanwhile : Folder -> Folder) (os_error : bytes) (keystore : KeyStore) (raw_id : bytes) (net : Network) : Transfer -> Transfer :=
  reported (download_impl meanwhile os_error keystore raw_id net).
End engine.
