(* ===== verification/TransferServerRuns.v ===== *)
(** * One transfer on the server, from the first message to the last

    What [handle_client] does when a sender uploads a whole file, when a receiver
    downloads and confirms it, and what a server that is started again finds. *)

From Stdlib Require Import ZArith Lia.
From stdpp Require Import base list strings gmap fin_sets.
From S2P Require Import Prelude Threads Wire Text Protocol TransferServer TransferServerInv TransferServerProps.
#[local] Open Scope Z_scope.
#[local] Open Scope prog_scope.

(** ** Running actions *)

Lemma run_say {B} t p (k : bool -> prog B) v c :
  c.(takes) = None -> run (bind (send_message t p) k) v c = run (k true) v (with_socket c.(inbox) None (c.(outbox) ++ [(t, p)]) c).
Proof. intros Ht. unfold send_message, pushed. cbn. by rewrite Ht. Qed.

Lemma run_hear {B} m rest max (k : option (MessageType * bytes) -> prog B) v c :
  c.(inbox) = m :: rest -> size m.2 <= max ->
  run (bind (recv_message max) k) v c = run (k (Some m)) v (with_socket rest c.(takes) c.(outbox) c).
Proof. intros Hi Hs. unfold recv_message. cbn. rewrite Hi. by rewrite (proj2 (Z.ltb_ge _ _)). Qed.

Lemma run_write {B} dir name data d (k : bool -> prog B) v c :
  c.(answers) = [] -> v.(storage) !! dir = Some d ->
  run (bind (write_whole_file dir name data) k) v c =
  run (k true) (with_storage (<[dir := <[name := mkFile data v.(file_now)]> d]> v.(storage)) v) c.
Proof. intros Ha Hd. unfold write_whole_file, next_answer. cbn. by rewrite Ha, Hd. Qed.

Lemma run_read_file {B} dir name max d f (k : option bytes -> prog B) v c :
  c.(answers) = [] -> v.(storage) !! dir = Some d -> d !! name = Some f -> size f.(f_data) <= max ->
  run (bind (read_whole_file dir name max) k) v c = run (k (Some f.(f_data))) v c.
Proof. intros Ha Hd Hf Hs. unfold read_whole_file, next_answer, file_in. cbn. rewrite Ha, Hd, Hf. by rewrite (proj2 (Z.ltb_ge _ _)). Qed.

(** ** Uploading *)

Section one_transfer.
Variable h : FileHeader.
Variable hb : bytes.
Hypothesis header_there : deserialize_file_header hb = Some h.
Hypothesis header_valid : validate_file_header h = ""%string.
(** The chunks, sealed. *)
Variable data : Z -> bytes.
Hypothesis data_size : forall i, 0 <= i < h.(FileHeader_total_chunks) -> size (data i) = expected_chunk_plaintext_size h i + AEAD_TAG_SIZE.

Abbreviation total := h.(FileHeader_total_chunks).
Definition chunk_payload (i : Z) : bytes := serialize_file_chunk (mkFileChunk i (data i)).
Definition upload_chunk (i : Z) : MessageType * bytes := (UPLOAD_CHUNK, chunk_payload i).
Definition download_chunk (i : Z) : MessageType * bytes := (DOWNLOAD_CHUNK, chunk_payload i).

Lemma chunk_decodes i : 0 <= i < total -> deserialize_file_chunk (chunk_payload i) = Some (mkFileChunk i (data i)) /\ size (chunk_payload i) <= MAX_CHUNK_MESSAGE.
Proof.
  intros Hi. destruct (valid_header_numbers hb h header_there header_valid) as (Ht & _ & _ & Hsz). specialize (Hsz i Hi). pose proof (data_size i Hi) as Hd.
  unfold AEAD_TAG_SIZE, MAX_CHUNK_SIZE in *. split.
  - apply deserialize_file_chunk_spec. split; [|done]. split; cbn; [unfold in_u32; lia|]. unfold MAX_CHUNK_SIZE, AEAD_TAG_SIZE. lia.
  - unfold chunk_payload, serialize_file_chunk. rewrite write_blob_eq, write_u32_eq. cbn [app FileChunk_chunk_index FileChunk_data].
    rewrite size_app, size_be32, size_blob, Hd. unfold MAX_CHUNK_MESSAGE, MAX_CHUNK_SIZE, AEAD_TAG_SIZE. lia.
Qed.

(** The chunks from [i] on, [n] of them, put in a folder. *)
Fixpoint put_all (n : nat) (i now : Z) (d : Dir) : Dir :=
  match n with
  | O => d
  | S n => put_all n (i + 1) now (<[chunk_filename i := mkFile (data i) now]> d)
  end.

Lemma put_all_other n name now : forall i d, (forall j, i <= j < i + Z.of_nat n -> name <> chunk_filename j) -> put_all n i now d !! name = d !! name.
Proof.
  induction n as [|n IH]; intros i d Hn; [done|]. cbn [put_all]. rewrite IH by (intros; apply Hn; lia).
  apply lookup_insert_ne. intros E. apply (Hn i); [lia|done].
Qed.

Lemma put_all_chunk n now j : forall i d, 0 <= i -> i + Z.of_nat n <= 2 ^ 32 -> i <= j < i + Z.of_nat n ->
  put_all n i now d !! chunk_filename j = Some (mkFile (data j) now).
Proof.
  induction n as [|n IH]; intros i d Hi Hn Hj; [lia|]. cbn [put_all]. destruct (decide (j = i)) as [->|Hne]; [|apply IH; lia].
  rewrite put_all_other, lookup_insert_eq; [done|]. intros k Hk E%chunk_filename_inj; lia.
Qed.

Lemma run_receive id (n : nat) : forall fuel i received d v c rest,
  0 <= i -> i + Z.of_nat n = total -> (n < fuel)%nat -> (forall j, j ∈ received <-> 0 <= j < i) ->
  c.(inbox) = map upload_chunk (seqZ i (Z.of_nat n)) ++ (UPLOAD_DONE, []) :: rest -> c.(answers) = [] -> v.(storage) !! id = Some d ->
  exists received', run (receive_chunks fuel h id received) v c =
    (Some (Some received'), with_storage (<[id := put_all n i v.(file_now) d]> v.(storage)) v, with_socket rest c.(takes) c.(outbox) c) /\
    Z.of_nat (stdpp.base.size received') = total.
Proof.
  destruct (valid_header_numbers hb h header_there header_valid) as (Ht & _ & _ & Hsz).
  induction n as [|n IH]; intros fuel i received d v c rest Hi Hn Hf Hrec Hin Ha Hd; (destruct fuel as [|fuel]; [lia|]).
  - cbn [seqZ map app receive_chunks] in *. rewrite (run_hear _ _ _ _ _ _ Hin) by done. cbn [run]. exists received. split.
    + cbn [put_all]. rewrite insert_id by done. by destruct v.
    + assert (received = list_to_set (seqZ 0 total)) as ->.
      { apply set_eq. intros j. rewrite Hrec, elem_of_list_to_set, elem_of_seqZ. lia. }
      rewrite size_list_to_set by apply NoDup_seqZ. rewrite length_seqZ. lia.
  - rewrite seqZ_cons in Hin by lia. replace (Z.pred (Z.of_nat (S n))) with (Z.of_nat n) in Hin by lia. cbn [map app] in Hin.
    destruct (chunk_decodes i ltac:(lia)) as [Hdec Hsmall]. cbn [receive_chunks]. rewrite (run_hear _ _ _ _ _ _ Hin) by done.
    unfold upload_chunk at 1. rewrite Hdec. cbn [FileChunk_chunk_index FileChunk_data]. specialize (Hsz i ltac:(lia)).
    rewrite (proj2 (Z.leb_gt _ _)), bool_decide_false by (try rewrite Hrec; lia). cbn [orb]. rewrite (data_size i) by lia.
    unfold MAX_CHUNK_SIZE in Hsz. rewrite u64_small, Z.eqb_refl by (unfold in_u64, AEAD_TAG_SIZE; lia). cbn [negb].
    rewrite (run_write _ _ _ d) by done. cbn [negb].
    destruct (IH fuel (i + 1) ({[i]} ∪ received) (<[chunk_filename i := mkFile (data i) v.(file_now)]> d)
      (with_storage (<[id := <[chunk_filename i := mkFile (data i) v.(file_now)]> d]> v.(storage)) v)
      (with_socket (map upload_chunk (seqZ (Z.succ i) (Z.of_nat n)) ++ (UPLOAD_DONE, []) :: rest) c.(takes) c.(outbox) c) rest)
      as (received' & Hr & Hsize); [lia|lia|lia| |by replace (Z.succ i) with (i + 1) by lia|done|cbn; apply lookup_insert_eq|].
    + intros j. rewrite elem_of_union, elem_of_singleton, Hrec. lia.
    + exists received'. split; [|done]. rewrite Hr. cbn. by rewrite insert_insert_eq.
Qed.

(** What is stored. *)
Definition stored_dir (now : Z) : Dir := put_all (Z.to_nat total) 0 now {[HEADER_FILE := mkFile hb now]}.

(** The whole upload. *)
Lemma run_upload v c rest :
  let id := bytes_to_hex (ztake TRANSFER_ID_BYTES v.(random)) in
  let cost := storage_cost h (size hb) in
  0 <= v.(g_reserved_bytes) -> v.(g_reserved_bytes) + cost <= v.(g_storage_quota) < 2 ^ 63 -> TRANSFER_ID_BYTES <= size v.(random) ->
  v.(storage) !! id = None -> c.(takes) = None -> c.(answers) = [] ->
  c.(inbox) = map upload_chunk (seqZ 0 total) ++ (UPLOAD_DONE, []) :: rest ->
  run (handle_upload hb) v c =
  (Some tt,
   mkServer (<[id := mkStoredTransfer h id v.(steady_now) cost false]> v.(g_transfers)) (v.(g_reserved_bytes) + cost) v.(g_storage_quota)
     v.(g_active_connections) (<[id := stored_dir v.(file_now)]> v.(storage)) v.(steady_now) v.(file_now) (zdrop TRANSFER_ID_BYTES v.(random)),
   with_reserving None None (with_socket rest None (c.(outbox) ++ [(ACK, id); (ACK, str "UPLOAD_COMPLETE")]) c)).
Proof.
  intros id cost Hres Hq Hrand Hfree Htakes Hans Hin. destruct (valid_header_numbers hb h header_there header_valid) as (Ht & _ & _ & _).
  pose proof (reserve_small hb h header_there header_valid) as Hcost. fold cost in Hcost.
  unfold handle_upload. rewrite header_there. cbv zeta. rewrite bool_decide_true by done. cbn [negb]. fold cost.
  unfold reserve_space. cbn [bind act run]. rewrite u64_small by (unfold in_u64; lia). rewrite (proj2 (Z.ltb_ge _ _)) by lia. cbn [negb].
  unfold generate_transfer_id. cbn [bind act run with_table random]. rewrite (proj2 (Z.ltb_ge _ _)) by done. fold id.
  unfold create_directory, next_answer. cbn [bind act run with_reserving answers with_random with_table storage]. rewrite Hans, Hfree. cbn [negb].
  rewrite (run_write _ _ _ ∅) by (done || cbn; apply lookup_insert_eq). cbn [negb]. rewrite run_say by done. cbn [negb get bind act run].
  match goal with |- run _ ?v1 ?c1 = _ => set (v0 := v1); set (c0 := c1) end. set (fuel := S (length (inbox c0))).
  destruct (run_receive id (Z.to_nat total) fuel 0 ∅ {[HEADER_FILE := mkFile hb v.(file_now)]} v0 c0 rest) as (received & Hr & Hsize).
  - lia.
  - lia.
  - unfold fuel. cbn. rewrite Hin, length_app, length_map, length_seqZ. simpl. lia.
  - intros j. set_solver by lia.
  - cbn. rewrite Hin. do 2 f_equal. f_equal. lia.
  - done.
  - cbn. rewrite lookup_insert_eq. by rewrite insert_empty.
  - rewrite run_bind, Hr. cbv zeta. rewrite Hsize, Z.eqb_refl. cbn [negb]. unfold publish. cbn [bind act run].
    rewrite run_say by done. cbn. rewrite !insert_insert_eq, <- app_assoc. done.
Qed.

Lemma stored_header now : stored_dir now !! HEADER_FILE = Some (mkFile hb now).
Proof. unfold stored_dir. rewrite put_all_other; [apply lookup_insert_eq|]. intros j _ E. by apply (chunk_not_header j). Qed.

Lemma stored_chunk now j : 0 <= j < total -> stored_dir now !! chunk_filename j = Some (mkFile (data j) now).
Proof.
  intros Hj. destruct (valid_header_numbers hb h header_there header_valid) as (Ht & _). apply put_all_chunk; lia.
Qed.

Lemma stored_complete now : complete h (stored_dir now) (storage_cost h (size hb)).
Proof.
  constructor; [|done|].
  - exists (mkFile hb now). split_and!; [apply stored_header|done..].
  - intros i Hi. exists (mkFile (data i) now). split; [by apply stored_chunk|by apply data_size].
Qed.

(** ** Downloading *)

Lemma run_send_stored dir d now (n : nat) : forall i v c,
  0 <= i -> i + Z.of_nat n = total -> c.(takes) = None -> c.(answers) = [] -> v.(storage) !! dir = Some d ->
  (forall j, 0 <= j < total -> d !! chunk_filename j = Some (mkFile (data j) now)) ->
  run (send_chunks n i dir) v c = (Some true, v, with_socket c.(inbox) None (c.(outbox) ++ map download_chunk (seqZ i (Z.of_nat n))) c).
Proof.
  destruct (valid_header_numbers hb h header_there header_valid) as (Ht & _ & _ & Hsz).
  induction n as [|n IH]; intros i v c Hi Hn Htk Ha Hd Hall.
  - cbn. rewrite app_nil_r, <- Htk. by destruct c.
  - cbn [send_chunks]. pose proof (Hsz i ltac:(lia)) as Hs. rewrite (run_read_file _ _ _ d (mkFile (data i) now)); [|done|done|apply Hall; lia|].
    2:{ cbn. rewrite data_size by lia. unfold AEAD_TAG_SIZE. lia. }
    cbn [f_data]. rewrite run_say by done. cbn [negb]. rewrite u32_small by (unfold in_u32; lia). rewrite IH; [|lia|lia|done|done|done|done].
    cbn. rewrite (seqZ_cons i) by lia. replace (Z.pred (Z.of_nat (S n))) with (Z.of_nat n) by lia. cbn [map]. rewrite <- app_assoc.
    replace (Z.succ i) with (i + 1) by lia. done.
Qed.

(** The whole download of a transfer in the table, with its confirmation. *)
Lemma run_download id t now v c rest :
  v.(g_transfers) !! id = Some t -> t.(st_header) = h -> t.(st_dir) = id -> t.(st_downloading) = false -> is_lower_hex id TRANSFER_ID_HEX_LEN = true ->
  v.(storage) !! id = Some (stored_dir now) -> 0 <= t.(st_reserved_bytes) <= v.(g_reserved_bytes) -> v.(g_reserved_bytes) < 2 ^ 64 ->
  c.(takes) = None -> c.(answers) = [] -> c.(leaving) = [] -> c.(inbox) = (ACK, []) :: rest ->
  run (handle_download id) v c =
  (Some tt,
   mkServer (delete id v.(g_transfers)) (v.(g_reserved_bytes) - t.(st_reserved_bytes)) v.(g_storage_quota) v.(g_active_connections)
     (delete id v.(storage)) v.(steady_now) v.(file_now) v.(random),
   with_claimed None (with_socket rest None (c.(outbox) ++ (DOWNLOAD_HEADER, hb) :: map download_chunk (seqZ 0 total) ++ [(DOWNLOAD_DONE, [])]) c)).
Proof.
  intros Ht Hth Htd Htf Hid Hst Hcost Hmax Htk Ha Hl Hin. destruct (valid_header_numbers hb h header_there header_valid) as (Hn & _ & Hhb & _).
  unfold handle_download. cbv zeta. rewrite Hid. cbn [negb]. unfold claim_transfer. cbn [bind act run]. rewrite Ht, Htf.
  cbn [st_dir st_header]. rewrite Htd, Hth.
  rewrite (run_read_file _ _ _ (stored_dir now) (mkFile hb now)) by (done || apply stored_header). cbn [f_data]. rewrite run_say by done. cbn [negb].
  rewrite run_bind, (run_send_stored id (stored_dir now) now) by (done || lia || (intros; by apply stored_chunk)). cbn [negb].
  rewrite run_say by done. cbn [negb]. rewrite (run_hear (ACK, []) rest) by (done || cbn; rewrite Hin; done).
  unfold forget_transfer. cbn [bind act run]. cbn [with_table g_transfers]. rewrite lookup_insert_eq.
  unfold remove_leaving, removed, next_answer. cbn. rewrite Ha. cbn. rewrite Hl. cbn. destruct (decide_rel _ id [id]) as [_|[]]; [|by left].
  rewrite delete_insert_eq, u64_small by (unfold in_u64; lia). rewrite Z2Nat.id by lia. rewrite <- !app_assoc. cbn.
  unfold with_storage, with_table, with_leaving, with_claimed, with_socket. cbn. by rewrite Hl.
Qed.
End one_transfer.

(** ** As a connection *)

Lemma run_client session first rest v c :
  size first.2 <= MAX_HEADER_MESSAGE -> c.(inbox) = first :: rest ->
  run (handle_client session) v c =
  run (match first with
       | (UPLOAD_REQUEST, payload) => handle_upload payload
       | (DOWNLOAD_REQUEST, payload) => handle_download payload
       | (RELAY_HELLO, payload) => session payload
       | _ => error "Unexpected first message"
       end) v (with_socket rest c.(takes) c.(outbox) c).
Proof. intros Hs Hin. unfold handle_client. by rewrite (run_hear _ _ _ _ _ _ Hin Hs). Qed.

(** ** A transfer that is there *)

Definition ex_header : FileHeader := mkFileHeader 0 4096 1 [Byte.x01] (replicate 12 Byte.x02) (replicate 16 Byte.x03).
Definition ex_server : Server := mkServer ∅ 0 1000 0 ∅ 0 0 (replicate 16 Byte.x04).
Definition ex_messages : list (MessageType * bytes) :=
  [(UPLOAD_REQUEST, serialize_file_header ex_header); (UPLOAD_CHUNK, serialize_file_chunk (mkFileChunk 0 (replicate 16 Byte.x05)));
   (UPLOAD_DONE, [])].
Definition ex_session (payload : bytes) : prog unit := Done tt.

Lemma empty_inv quota bound now fnow rnd : quota <= bound -> 0 <= bound -> server_inv bound (mkServer ∅ 0 quota 0 ∅ now fnow rnd) [].
Proof.
  intros Hq Hb. constructor; cbn; try done; try constructor; try (by intros ? ?%not_elem_of_nil).
  - by intros ?%not_elem_of_nil.
  - intros (t & Ht & _). by rewrite lookup_empty in Ht.
  - by apply lookup_empty.
  - by apply not_elem_of_nil in H.
Qed.

Definition ex_run : option unit * Server * Conn := run (handle_client ex_session) (with_connections 1 ex_server) (new_conn ex_messages None []).

Lemma transfers_kept_witness :
  exists v' ts, rtc (system_step (server_starts ex_session)) (ex_server, []) (v', ts) /\
    v'.(g_reserved_bytes) = table_sum v'.(g_transfers) + sum_by space (states ts) /\ length (map_to_list v'.(g_transfers)) = 1%nat.
Proof.
  assert (ex_run = (Some tt, ex_run.1.2, ex_run.2)) as E.
  { assert (ex_run.1.1 = Some tt) as <- by (vm_compute; reflexivity). by destruct ex_run as [[? ?] ?]. }
  assert (rtc (system_step (server_starts ex_session)) (ex_server, []) (ex_run.1.2, [] ++ [mkThread (Done tt) ex_run.2 client_guards])) as Hr.
  { eapply rtc_l; [apply sys_start, (starts_client ex_session _ (with_connections 1 ex_server) ex_messages None []); by vm_compute|].
    apply run_reaches. exact E. }
  exists ex_run.1.2. eexists. split; [exact Hr|]. split; [|by vm_compute].
  apply (transfers_kept 1000 ex_session ex_server ex_run.1.2); [lia|done|by apply empty_inv|exact Hr].
Defined.
