(* ===== verification/TransferRestore.v ===== *)
(** * What a server that is started again finds

    [restore_transfers] puts the transfers whose files are whole and not too old back in
    the table, and removes the folders of the others: uploads that were cut off,
    transfers that have expired. *)

From Stdlib Require Import ZArith Lia.
From stdpp Require Import base list strings gmap.
From S2P Require Import Prelude Threads Wire Text Protocol TransferServer TransferServerInv TransferServerProps TransferServerRuns.
#[local] Open Scope Z_scope.
#[local] Open Scope prog_scope.

(** A folder that holds a whole transfer, not too old, and what it is in the table. *)
Definition restorable (v : Server) (id : bytes) (t : StoredTransfer) : Prop :=
  exists d f, v.(storage) !! id = Some d /\ d !! HEADER_FILE = Some f /\ complete t.(st_header) d t.(st_reserved_bytes) /\
    let age := Z.max 0 (v.(file_now) - f.(f_written)) in
    age <= TRANSFER_TTL /\ t = mkStoredTransfer t.(st_header) id (v.(steady_now) - age) t.(st_reserved_bytes) false.

Lemma restorable_unique v id t t' : restorable v id t -> restorable v id t' -> t = t'.
Proof.
  intros (d & f & Hd & Hf & [(g & Hg & Hh & Hc) _ _] & _ & Ht) (d' & f' & Hd' & Hf' & [(g' & Hg' & Hh' & Hc') _ _] & _ & Ht').
  etrans; [exact Ht|]. etrans; [|symmetry; exact Ht']. simplify_eq. f_equal; congruence.
Qed.

Lemma run_file_size {B} dir name d (k : option Z -> prog B) v c :
  c.(answers) = [] -> v.(storage) !! dir = Some d -> run (bind (file_size dir name) k) v c = run (k ((fun f => size f.(f_data)) <$> d !! name)) v c.
Proof. intros Ha Hd. unfold file_size, next_answer, file_in. cbn. rewrite Ha, Hd. cbn. by destruct (d !! name). Qed.

(** The chunks from [i] on, [n] of them, are there in their full size. *)
Definition has_sizes (h : FileHeader) (d : Dir) (i : Z) (n : nat) : Prop :=
  forall j, i <= j < i + Z.of_nat n -> exists f, d !! chunk_filename j = Some f /\ size f.(f_data) = expected_chunk_plaintext_size h j + AEAD_TAG_SIZE.

Lemma run_chunks_complete hb h id d v c :
  deserialize_file_header hb = Some h -> validate_file_header h = ""%string -> c.(answers) = [] -> v.(storage) !! id = Some d ->
  forall n i, 0 <= i -> i + Z.of_nat n = h.(FileHeader_total_chunks) ->
  exists b : bool, run (chunks_complete n i h id) v c = (Some b, v, c) /\ (b = true <-> has_sizes h d i n).
Proof.
  intros Hdes Hval Ha Hd. destruct (valid_header_numbers hb h Hdes Hval) as (Ht & _ & _ & Hp).
  induction n as [|n IH]; intros i Hi Hn; [exists true; split; [done|]; split; [intros _ j Hj; lia|done]|].
  cbn [chunks_complete]. rewrite (run_file_size _ _ d) by done. specialize (Hp i ltac:(lia)). unfold MAX_CHUNK_SIZE in Hp.
  rewrite u64_small by (unfold in_u64, AEAD_TAG_SIZE; lia). rewrite u32_small by (unfold in_u32; lia).
  destruct (d !! chunk_filename i) as [f|] eqn:Ef; cbn [fmap option_fmap option_map].
  - destruct (Z.eqb_spec (size (f_data f)) (expected_chunk_plaintext_size h i + AEAD_TAG_SIZE)) as [E|E].
    + destruct (IH (i + 1) ltac:(lia) ltac:(lia)) as (b & Hr & Hb). exists b. split; [done|]. rewrite Hb. split; intros H j Hj.
      * destruct (decide (j = i)) as [->|]; [by exists f|apply H; lia].
      * apply H. lia.
    + exists false. split; [done|]. split; [done|]. intros H. destruct (H i ltac:(lia)) as (g & Hg & Hs). congruence.
  - exists false. split; [done|]. split; [done|]. intros H. destruct (H i ltac:(lia)) as (g & Hg & _). congruence.
Qed.

(** What happens to one folder. *)
Definition one_restored (id : bytes) (v v' : Server) : Prop :=
  (exists t, restorable v id t /\ v' = with_table (<[id := t]> v.(g_transfers)) (u64 (v.(g_reserved_bytes) + t.(st_reserved_bytes))) v) \/
  ((forall t, ~ restorable v id t) /\ v' = with_storage (delete id v.(storage)) v).

Lemma run_removed id v c (k : kept) : c.(answers) = [] ->
  run (let* _ := remove_dir_quietly id in Done k) v c = (Some k, with_storage (delete id v.(storage)) v, c).
Proof. intros Ha. unfold remove_dir_quietly, removed, next_answer. cbn. by rewrite Ha. Qed.

Lemma run_restore_dir id d v c :
  c.(answers) = [] -> v.(storage) !! id = Some d ->
  exists k v', run (restore_dir id) v c = (Some k, v', c) /\ one_restored id v v'.
Proof.
  intros Ha Hd. unfold restore_dir, read_whole_file at 1, next_answer, file_in. cbn [bind act run]. rewrite Ha, Hd.
  destruct (d !! HEADER_FILE) as [f|] eqn:Ef.
  2:{ cbn [bind run]. rewrite run_removed by done. exists Removed. eexists. split; [done|]. right. split; [|done]. intros t (d' & g & Hd' & Hg & _). congruence. }
  destruct (Z.ltb_spec MAX_HEADER_MESSAGE (size (f_data f))) as [Hbig|Hsmall].
  { cbn [bind run]. rewrite run_removed by done. exists Removed. eexists. split; [done|]. right. split; [|done].
    intros t (d' & g & Hd' & Hg & [(g' & Hg' & Hh & _) Hv _] & _). simplify_eq.
    destruct (valid_header_numbers _ _ Hh Hv) as (_ & _ & ? & _). lia. }
  destruct (deserialize_file_header (f_data f)) as [h|] eqn:Hdes.
  2:{ cbn [bind run]. rewrite run_removed by done. exists Removed. eexists. split; [done|]. right. split; [|done].
      intros t (d' & g & Hd' & Hg & [(g' & Hg' & Hh & _) _ _] & _). simplify_eq. }
  case_bool_decide as Hval.
  2:{ cbn [bind run]. rewrite run_removed by done. exists Removed. eexists. split; [done|]. right. split; [|done].
      intros t (d' & g & Hd' & Hg & [(g' & Hg' & Hh & _) Hv _] & _). simplify_eq. }
  destruct (valid_header_numbers _ _ Hdes Hval) as (Ht & _).
  destruct (run_chunks_complete (f_data f) h id d v c Hdes Hval Ha Hd (Z.to_nat h.(FileHeader_total_chunks)) 0 ltac:(done) ltac:(lia)) as (b & Hr & Hb).
  rewrite run_bind, Hr. unfold has_sizes in Hb. rewrite Z2Nat.id, Z.add_0_l in Hb by lia. destruct b.
  2:{ rewrite run_removed by done. exists Removed. eexists. split; [done|]. right. split; [|done].
      intros t (d' & g & Hd' & Hg & [(g' & Hg' & Hh & _) _ Hch] & _). simplify_eq. by apply Hb in Hch. }
  assert (complete h d (storage_cost h (size (f_data f)))) as Hco by (constructor; [by exists f|done|by apply Hb]).
  unfold transfer_age_on_disk, next_answer, file_in. cbn [bind act run]. rewrite Ha, Hd. cbn [mbind option_bind]. rewrite Ef.
  destruct (Z.ltb_spec TRANSFER_TTL (Z.max 0 (file_now v - f_written f))) as [Hold|Hnew].
  - rewrite run_removed by done. exists Expired. eexists. split; [done|]. right. split; [|done].
    intros t (d' & g & Hd' & Hg & _ & Hage & _). simplify_eq. lia.
  - cbn [run]. exists Restored. eexists. split; [done|]. left. eexists (mkStoredTransfer h id _ (storage_cost h (size (f_data f))) false). split; [|done].
    exists d, f. split_and!; [done..|]. by split.
Qed.

(** ** All the folders *)

Lemma restorable_elsewhere v v' id t :
  v'.(storage) !! id = v.(storage) !! id -> v'.(file_now) = v.(file_now) -> v'.(steady_now) = v.(steady_now) -> restorable v id t -> restorable v' id t.
Proof. unfold restorable. by intros -> -> ->. Qed.

(** What the table and the folders have become after those of [ids] were looked at. *)
Record all_restored (ids : list bytes) (v v' : Server) : Prop := {
  ar_kept : forall id t, id ∈ ids -> v'.(g_transfers) !! id = Some t <-> restorable v id t;
  ar_folder : forall id, id ∈ ids -> v'.(storage) !! id = match v'.(g_transfers) !! id with Some _ => v.(storage) !! id | None => None end;
  ar_others : forall id, id ∉ ids -> v'.(g_transfers) !! id = v.(g_transfers) !! id /\ v'.(storage) !! id = v.(storage) !! id;
  ar_space : v'.(g_reserved_bytes) = u64 (v.(g_reserved_bytes) + table_sum v'.(g_transfers) - table_sum v.(g_transfers));
  ar_rest : v'.(g_storage_quota) = v.(g_storage_quota) /\ v'.(g_active_connections) = v.(g_active_connections) /\
    v'.(steady_now) = v.(steady_now) /\ v'.(file_now) = v.(file_now) /\ v'.(random) = v.(random);
}.

Lemma run_restore_dirs ids : forall v c,
  c.(answers) = [] -> NoDup ids -> in_u64 v.(g_reserved_bytes) ->
  (forall id, id ∈ ids -> is_Some (v.(storage) !! id) /\ v.(g_transfers) !! id = None) ->
  exists v', run (restore_dirs ids) v c = (Some tt, v', c) /\ all_restored ids v v'.
Proof.
  induction ids as [|id ids IH]; intros v c Ha Hn Hres Hids.
  - exists v. split; [done|]. constructor; try done; [by intros ?? ?%not_elem_of_nil|by intros ? ?%not_elem_of_nil|].
    rewrite u64_small by (unfold in_u64 in *; lia). lia.
  - apply NoDup_cons in Hn as [Hid Hn]. destruct (Hids id ltac:(left)) as [[d Hd] Hfree].
    cbn [restore_dirs]. destruct (run_restore_dir id d v c Ha Hd) as (k & v1 & Hr & Hone). rewrite run_bind, Hr.
    assert (forall x, x <> id -> v1.(storage) !! x = v.(storage) !! x /\ v1.(g_transfers) !! x = v.(g_transfers) !! x) as Hoth.
    { intros x Hx. destruct Hone as [(t & _ & ->)|[_ ->]]; cbn; split; try done; [by apply lookup_insert_ne|by apply lookup_delete_ne]. }
    assert (v1.(g_storage_quota) = v.(g_storage_quota) /\ v1.(g_active_connections) = v.(g_active_connections) /\
      v1.(steady_now) = v.(steady_now) /\ v1.(file_now) = v.(file_now) /\ v1.(random) = v.(random)) as (R1 & R2 & R3 & R4 & R5) by (by destruct Hone as [(t & _ & ->)|[_ ->]]).
    assert (v1.(g_reserved_bytes) = u64 (v.(g_reserved_bytes) + table_sum v1.(g_transfers) - table_sum v.(g_transfers))) as Hsum.
    { destruct Hone as [(t & _ & ->)|[_ ->]]; cbn; [rewrite table_sum_fresh by done; f_equal; lia|]. rewrite u64_small by (unfold in_u64 in *; lia). lia. }
    destruct (IH v1 c Ha Hn) as (v' & Hr' & [K F O S R]).
    { rewrite Hsum. unfold in_u64, u64. Zlia. }
    { intros x Hx. assert (x <> id) by congruence. destruct (Hoth x) as [-> ->]; [done|]. apply Hids. by right. }
    exists v'. split; [done|]. destruct (O id Hid) as [Ot Of]. constructor.
    + intros x t [-> |Hx]%elem_of_cons.
      * rewrite Ot. destruct Hone as [(u & Hu & ->)|[Hno ->]]; cbn.
        -- rewrite lookup_insert_eq. split; [by intros [= <-]|]. intros Ht. f_equal. by eapply restorable_unique.
        -- rewrite Hfree. split; [done|]. intros Ht. by apply Hno in Ht.
      * assert (x <> id) by congruence. rewrite (K x t Hx). destruct (Hoth x) as [E _]; [done|]. split; by apply restorable_elsewhere.
    + intros x [-> |Hx]%elem_of_cons.
      * rewrite Of, Ot. destruct Hone as [(u & Hu & ->)|[Hno ->]]; cbn; [by rewrite lookup_insert_eq|]. rewrite Hfree. apply lookup_delete_eq.
      * assert (x <> id) by congruence. rewrite (F x Hx). destruct (Hoth x) as [-> _]; done.
    + intros x [Hx1 Hx2]%not_elem_of_cons. destruct (O x Hx2) as [-> ->]. destruct (Hoth x) as [-> ->]; done.
    + rewrite S, Hsum, <- Z.add_sub_assoc. unfold u64. rewrite Zplus_mod_idemp_l. f_equal. lia.
    + destruct R as (-> & -> & -> & -> & ->). done.
Qed.

(** C33: a server that is started again has what it had stored. When it starts with an
    empty table on a folder that a server has left at any moment, with the disk working:
    afterwards the table has exactly the transfers whose folder has a valid header and
    every chunk in its full size and that are not older than a day, each with the age its
    header file has and none being downloaded; every other folder whose name is that of a
    transfer, left by an upload that was cut off or by one that has expired, is gone;
    folders with other names are as they were. The space reserved is that of the
    transfers, so the server starts in the invariant, if that space is below the bound. *)
Theorem restart_restores v c entries bound :
  c.(answers) = [] -> v.(g_transfers) = ∅ -> v.(g_reserved_bytes) = 0 ->
  NoDup entries -> (forall id, id ∈ entries <-> is_Some (v.(storage) !! id)) ->
  exists v', run (restore_transfers entries) v c = (Some tt, v', c) /\
    (forall id t, v'.(g_transfers) !! id = Some t <-> is_lower_hex id TRANSFER_ID_HEX_LEN = true /\ restorable v id t) /\
    (forall id, v'.(storage) !! id =
       if decide (is_lower_hex id TRANSFER_ID_HEX_LEN = true /\ v'.(g_transfers) !! id = None) then None else v.(storage) !! id) /\
    v'.(g_reserved_bytes) = u64 (table_sum v'.(g_transfers)) /\
    (table_sum v'.(g_transfers) <= bound < 2 ^ 64 -> v.(g_storage_quota) <= bound -> server_inv bound v' []).
Proof.
  intros Ha Ht Hr Hn Hin. unfold restore_transfers. set (ids := filter _ entries).
  assert (forall id, id ∈ ids <-> is_lower_hex id TRANSFER_ID_HEX_LEN = true /\ is_Some (v.(storage) !! id)) as Hids
    by (intros id; unfold ids; by rewrite list_elem_of_filter, Hin).
  destruct (run_restore_dirs ids v c Ha) as (v' & Hrun & [K F O S (R1 & R2 & R3 & R4 & R5)]).
  { by apply NoDup_filter. }
  { by rewrite Hr. }
  { intros id Hid. split; [by apply Hids|]. by rewrite Ht. }
  assert (forall id t, v'.(g_transfers) !! id = Some t <-> is_lower_hex id TRANSFER_ID_HEX_LEN = true /\ restorable v id t) as Htable.
  { intros id t. destruct (decide (id ∈ ids)) as [Hid|Hid].
    - rewrite (K id t Hid). apply Hids in Hid as [Hhex _]. by intuition.
    - destruct (O id Hid) as [-> _]. rewrite Ht, lookup_empty. split; [done|]. intros [Hhex (d & f & Hd & _)]. exfalso. apply Hid, Hids. split; [done|by exists d]. }
  exists v'. split; [done|]. split; [done|]. split; [|split].
  - intros id. destruct (decide (id ∈ ids)) as [Hid|Hid].
    + rewrite (F id Hid). apply Hids in Hid as [Hhex _]. destruct (g_transfers v' !! id); [rewrite decide_False by (by intros [_ ?])|rewrite decide_True by done]; done.
    + destruct (O id Hid) as [_ ->]. case_decide as Hcase; [|done]. destruct Hcase as [Hhex _]. destruct (storage v !! id) as [d|] eqn:E; [|done].
      exfalso. apply Hid, Hids. split; [done|by exists d].
  - rewrite S, Hr, Ht. f_equal. unfold table_sum at 2. rewrite map_to_list_empty. cbn. lia.
  - intros Hb Hq. assert (v'.(g_reserved_bytes) = table_sum v'.(g_transfers)) as Hspace.
    { rewrite S, Hr, Ht. unfold table_sum at 2. rewrite map_to_list_empty. cbn. rewrite u64_small; [lia|]. unfold in_u64. split; [|lia].
      assert (0 <= table_sum v'.(g_transfers)); [|lia]. apply sum_by_nonneg. intros [id t] Hx%elem_of_map_to_list. cbn.
      apply Htable in Hx as (_ & d & f & _ & _ & [(g & _ & _ & ->) _ _] & _). by destruct (storage_cost_range t.(st_header) (size g.(f_data))). }
    constructor; cbn; try constructor; try (by intros ? ?%not_elem_of_nil).
    + lia.
    + rewrite R1. lia.
    + rewrite Hspace. lia.
    + apply Htable in H as (_ & d & f & _ & _ & _ & _ & ->). done.
    + pose proof (proj1 (Htable id t) H) as (Hhex & d & f & Hd & Hf & Hco & _). exists d. split; [|done].
      assert (id ∈ ids) as Hid by (apply Hids; split; [done|by exists d]). by rewrite (F id Hid), H.
    + by intros ?%not_elem_of_nil.
    + intros (t & Hx & Hdl). apply Htable in Hx as (_ & d & f & _ & _ & _ & _ & Hx). by rewrite Hx in Hdl.
    + by apply not_elem_of_nil in H.
    + by apply not_elem_of_nil in H.
Qed.

(** A whole transfer, the beginning of another, and a folder of something else. *)
Section left_behind.
Variables a b other : bytes.
Definition ex_left : Server :=
  mkServer ∅ 0 1000 0
    (<[a := stored_dir ex_header (serialize_file_header ex_header) (fun _ => replicate 16 Byte.x05) 7]>
      (<[b := {[HEADER_FILE := mkFile (serialize_file_header ex_header) 7]}]> {[other := ∅]})) 100 9 [].

Lemma ex_whole : exists t, restorable ex_left a t.
Proof.
  eexists (mkStoredTransfer ex_header _ _ (storage_cost ex_header (size (serialize_file_header ex_header))) false).
  eexists _, (mkFile (serialize_file_header ex_header) 7). split; [unfold ex_left; cbn [storage]; apply lookup_insert_eq|].
  split; [apply stored_header|]. split; [apply (stored_complete ex_header); [vm_compute; reflexivity|vm_compute; reflexivity|]|by split].
  intros i Hi. assert (i = 0) as -> by (cbn in Hi; lia). vm_compute. reflexivity.
Qed.

Lemma ex_begun t : a <> b -> ~ restorable ex_left b t.
Proof.
  intros Hne (d & f & Hd & Hf & [(g & Hg & Hh & _) _ Hch] & _).
  unfold ex_left in Hd. cbn [storage] in Hd. rewrite lookup_insert_ne, lookup_insert_eq in Hd by done. injection Hd as <-.
  rewrite lookup_singleton_eq in Hg. injection Hg as <-. cbn [f_data] in Hh.
  assert (deserialize_file_header (serialize_file_header ex_header) = Some ex_header) as E by (by vm_compute). rewrite E in Hh. injection Hh as Hh.
  destruct (Hch 0) as (g & Hg & _); [rewrite <- Hh; cbn; lia|]. by rewrite lookup_singleton_ne in Hg by (intros Eq; by apply (chunk_not_header 0)).
Qed.

Lemma ex_folders id : id ∈ [other; b; a] <-> is_Some (ex_left.(storage) !! id).
Proof.
  unfold ex_left. cbn [storage]. rewrite !elem_of_cons, !lookup_insert_is_Some, lookup_singleton_is_Some. split.
  - intros H. destruct (decide (a = id)); [by left|]. right. split; [done|]. destruct (decide (b = id)); [by left|]. right. split; [done|].
    destruct H as [->|[->|[->|?%not_elem_of_nil]]]; done.
  - intros [<-|[_ [<-|[_ <-]]]]; auto.
Qed.
End left_behind.

Definition ex_a : bytes := bytes_to_hex (replicate 16 Byte.x01).
Definition ex_b : bytes := bytes_to_hex (replicate 16 Byte.x02).

Lemma restart_restores_witness :
  exists v', run (restore_transfers [str "other"; ex_b; ex_a]) (ex_left ex_a ex_b (str "other")) (new_conn [] None []) = (Some tt, v', new_conn [] None []) /\
    (exists t, v'.(g_transfers) !! ex_a = Some t) /\ v'.(storage) !! ex_b = None.
Proof.
  destruct (restart_restores (ex_left ex_a ex_b (str "other")) (new_conn [] None []) [str "other"; ex_b; ex_a] 1000) as (v' & Hr & Ht & Hs & _);
    [reflexivity|reflexivity|reflexivity| |apply ex_folders|].
  - apply (bool_decide_unpack _). vm_compute. exact I.
  - exists v'. split; [exact Hr|].
    assert (is_lower_hex ex_a TRANSFER_ID_HEX_LEN = true) as Ha by (vm_compute; reflexivity).
    assert (is_lower_hex ex_b TRANSFER_ID_HEX_LEN = true) as Hb by (vm_compute; reflexivity).
    assert (ex_a <> ex_b) as Hne by (apply (bool_decide_unpack _); vm_compute; exact I).
    split; [destruct (ex_whole ex_a ex_b (str "other")) as [t H]; exists t; apply Ht; by split|].
    rewrite Hs, decide_True; [reflexivity|]. split; [exact Hb|]. destruct (g_transfers v' !! ex_b) as [t|] eqn:E; [|reflexivity].
    apply Ht in E as [_ E]. destruct (ex_begun ex_a ex_b (str "other") t Hne E).
Defined.
