(* ===== verification/TransferNames.v ===== *)
(** * The names a transfer can get

    The name comes from the sender: whatever it is, the file stays in the folder, and
    is neither hidden nor a device. *)

From Stdlib Require Import ZArith Lia.
From stdpp Require Import base list strings.
From S2P Require Import Prelude Wire Text Attachment TransferEngine.
#[local] Open Scope Z_scope.

Lemma find_last_slash_None s : find_last_slash s = None -> Forall (fun c => is_slash c = false) s.
Proof.
  induction s as [|c s IH]; cbn; [constructor|]. destruct (find_last_slash s); [done|]. destruct (is_slash c) eqn:E; [done|].
  intros _. by constructor; [|apply IH].
Qed.

Lemma find_last_slash_rest s : forall i, find_last_slash s = Some i -> 0 <= i /\ Forall (fun c => is_slash c = false) (zdrop (i + 1) s).
Proof.
  induction s as [|c s IH]; cbn; [done|]. intros i. destruct (find_last_slash s) as [j|] eqn:E.
  - intros [= <-]. destruct (IH j eq_refl) as [Hj Hrest]. split; [lia|]. unfold zdrop in *. replace (Z.to_nat (j + 1 + 1)) with (S (Z.to_nat (j + 1))) by lia. done.
  - destruct (is_slash c); [|done]. intros [= <-]. split; [done|]. unfold zdrop. cbn. by apply find_last_slash_None.
Qed.

Lemma after_slash_clean name : Forall (fun c => is_slash c = false) (after_slash name).
Proof.
  unfold after_slash. destruct (find_last_slash name) as [i|] eqn:E; [by eapply find_last_slash_rest|by apply find_last_slash_None].
Qed.

(** A character that a file name may have. *)
Definition good_char (c : byte) : Prop := bad_char c = false /\ is_slash c = false.

Lemma replaced_good c : is_slash c = false -> good_char (if bad_char c then chr 95 else c).
Proof. intros H. destruct (bad_char c) eqn:E; by split. Qed.

Lemma Forall_drop_ends (Q : byte -> Prop) P s : Forall Q s -> Forall Q (drop_back P (drop_front P s)).
Proof.
  intros H. destruct (drop_front_suffix P s) as (a & Ha & _). rewrite Ha in H. apply Forall_app in H as [_ H].
  destruct (drop_back_prefix P (drop_front P s)) as (b & Hb & _). rewrite Hb in H. by apply Forall_app in H as [H _].
Qed.

(** The first character is kept by whatever is dropped behind. *)
Lemma drop_ends_first P s c rest : drop_back P (drop_front P s) = c :: rest -> P c = false.
Proof.
  intros H. destruct (drop_back_prefix P (drop_front P s)) as (b & Hb & _). rewrite H in Hb. cbn [app] in Hb. by apply drop_front_head in Hb.
Qed.

Lemma cut_back_le n s : (cut_back n s <= n)%nat.
Proof. induction n as [|n IH]; cbn [cut_back]; [done|]. case_match; lia. Qed.

(** The part of a name before its first dot. *)
Definition base_of (name : bytes) : bytes := match find_char (chr 46) name with Some i => ztake i name | None => name end.

(** What is left before devices are looked for: it may be empty. *)
Definition nearly (raw : bytes) : bytes :=
  let cleaned := drop_back space_or_dot (drop_front space_or_dot (map (fun ch => if bad_char ch then chr 95 else ch) (after_slash (sanitize_utf8 raw)))) in
  if 200 <? size cleaned then take (cut_back 200 cleaned) cleaned else cleaned.

Lemma nearly_good raw :
  Forall good_char (nearly raw) /\ size (nearly raw) <= 200 /\ forall c rest, nearly raw = c :: rest -> space_or_dot c = false.
Proof.
  unfold nearly. cbv zeta. set (s := map _ _). assert (Forall good_char s) as Hs.
  { unfold s. apply Forall_map. eapply Forall_impl; [apply after_slash_clean|]. intros c Hc. by apply replaced_good. }
  apply (Forall_drop_ends _ space_or_dot) in Hs. pose proof (drop_ends_first space_or_dot s) as Hfirst.
  set (t := drop_back _ _) in *. destruct (Z.ltb_spec 200 (size t)) as [Hlt|Hle]; [|done]. split_and!.
  - by apply Forall_take.
  - pose proof (cut_back_le 200 t). unfold size. rewrite length_take. lia.
  - intros c rest E. destruct t as [|x t]; [by rewrite take_nil in E|]. destruct (cut_back 200 (x :: t)); [done|]. cbn in E. injection E as <- _. by eapply Hfirst.
Qed.

Lemma find_char_cons_ne x c s : x <> c -> find_char c (x :: s) = Z.succ <$> find_char c s.
Proof. intros H. cbn. by destruct (decide (x = c)). Qed.

Lemma underscore_base s : base_of (chr 95 :: s) = chr 95 :: base_of s.
Proof.
  unfold base_of. rewrite find_char_cons_ne by (by vm_compute). destruct (find_char (chr 46) s) as [i|] eqn:E; [|done]. cbn.
  assert (0 <= i) as Hi. { revert i E. induction s as [|x s IH]; cbn; [done|]. intros i. destruct (decide _); [intros [= <-]; lia|].
    destruct (find_char _ s) as [j|]; [|done]. cbn. intros [= <-]. specialize (IH j eq_refl). lia. }
  unfold ztake. by replace (Z.to_nat (Z.succ i)) with (S (Z.to_nat i)) by lia.
Qed.

Lemma candidate_clean name n : Z.of_nat n < 10000 -> Forall (fun c => is_slash c = false) name -> Forall (fun c => is_slash c = false) (candidate name n).
Proof.
  intros Hn H. unfold candidate. destruct n as [|n]; [done|]. destruct (stem_and_extension name) as [stem ext] eqn:E.
  assert (Forall (fun c => is_slash c = false) stem /\ Forall (fun c => is_slash c = false) ext) as [Hs He].
  { unfold stem_and_extension in E. destruct (rfind_char _ _) as [d|]; [|injection E as <- <-; by split].
    destruct (0 <? d); injection E as <- <-; [|by split]. split; [by apply Forall_take|by apply Forall_drop]. }
  destruct (to_string_spec (Z.of_nat (S n)) ltac:(lia)) as (_ & Hd & _).
  repeat (apply Forall_app; split); try done; try (by repeat constructor). eapply Forall_impl; [exact Hd|].
  intros c Hc. unfold is_slash. by rewrite !bool_decide_false by (intros ->; by vm_compute in Hc).
Qed.

(** The name that comes with a transfer is made safe, whatever bytes it is. It is
    not empty, has at most 201 bytes, none of them a control character, a separator or
    one that Windows forbids; it does not begin with a dot or a space, and what is
    before its first dot is not the name of a device, in any case of letters. So are the
    names with a number that are tried when it is taken: none has a separator. *)
Theorem received_name_safe raw :
  let name := sanitize_received_name raw in
  name <> [] /\ size name <= 201 /\ Forall good_char name /\ (forall c rest, name = c :: rest -> space_or_dot c = false) /\
  map to_lower (base_of name) ∉ reserved_names /\ forall n, Z.of_nat n < 10000 -> Forall (fun c => is_slash c = false) (candidate name n).
Proof.
  cbv zeta. destruct (nearly_good raw) as (Hgood & Hsize & Hfirst).
  assert (sanitize_received_name raw = if is_empty (nearly raw) then str "received_file" else
            if bool_decide (map to_lower (base_of (nearly raw)) ∈ reserved_names) then chr 95 :: nearly raw else nearly raw) as -> by done.
  assert (forall s, Forall good_char s -> forall n, Z.of_nat n < 10000 -> Forall (fun c => is_slash c = false) (candidate s n)) as Hcand.
  { intros s Hs n Hn. apply candidate_clean; [done|]. eapply Forall_impl; [exact Hs|]. by intros c [_ Hc]. }
  destruct (nearly raw) as [|c s] eqn:E; cbn [is_empty].
  - assert (Forall good_char (str "received_file")) as Hr by (repeat constructor).
    split_and!; [done|done|done| | |by apply Hcand]; [intros c rest [= <- _]; by vm_compute|].
    apply (bool_decide_unpack _). by vm_compute.
  - rewrite <- E in *. case_bool_decide as Hdev.
    + assert (Forall good_char (chr 95 :: nearly raw)) as Hu by (constructor; [split; vm_compute; reflexivity|exact Hgood]).
      split_and!; [discriminate|rewrite size_cons; lia|exact Hu|intros x rest [= <- _]; vm_compute; reflexivity| |apply Hcand, Hu].
      rewrite underscore_base. cbn [map]. intros Hin.
      assert (Forall (fun r : bytes => head r <> Some (to_lower (chr 95))) reserved_names) as Hall by (apply (bool_decide_unpack _); vm_compute; exact I).
      by apply (proj1 (Forall_forall _ _) Hall _ Hin).
    + split_and!; [rewrite E; discriminate|lia|exact Hgood|exact Hfirst|exact Hdev|apply Hcand, Hgood].
Qed.
