(* ===== verification/TransferEngineProps.v ===== *)
(** * What a transfer of the client guarantees

    Whatever the server sends: a download that is reported as complete has saved exactly
    what a known sender signed and sealed for this receiver, under a name that was free,
    and one that fails leaves the folder as it was. *)

From Stdlib Require Import ZArith Lia.
From stdpp Require Import base list strings gmap.
From S2P Require Import Prelude Wire Text Protocol Crypto Attachment KeyStore TransferEngine TransferServerProps.
#[local] Open Scope Z_scope.
#[local] Open Scope transfer_scope.

(** ** Going back from what was returned *)

Lemma tbind_returns {A B} (m : T A) (k : A -> T B) t b t' :
  tbind m k t = (inr b, t') -> exists a t1, m t = (inr a, t1) /\ k a t1 = (inr b, t').
Proof. unfold tbind. destruct (m t) as [[e|a] t1] eqn:E; [done|]. eauto. Qed.

Lemma texc_returns {A} (x : exc A) t a t' : texc x t = (inr a, t') -> x = Ret a /\ t' = t.
Proof. destruct x; [|done]. by intros [= -> ->]. Qed.

(** An action that neither takes messages nor touches the folder. *)
Definition still {A} (m : T A) : Prop := forall t, (m t).2.(tr_in) = t.(tr_in) /\ (m t).2.(tr_dir) = t.(tr_dir).

Lemma still_returns {A B} (m : T A) (k : A -> T B) t b t' :
  still m -> tbind m k t = (inr b, t') ->
  exists a t1, m t = (inr a, t1) /\ t1.(tr_in) = t.(tr_in) /\ t1.(tr_dir) = t.(tr_dir) /\ k a t1 = (inr b, t').
Proof.
  intros Hq (a & t1 & Hm & Hk)%tbind_returns. destruct (Hq t) as [H1 H2]. rewrite Hm in H1, H2. by exists a, t1.
Qed.

Lemma still_ret {A} (a : A) : still (tret a).
Proof. done. Qed.
Lemma still_fail {A} what : still (@tfail A what).
Proof. done. Qed.
Lemma still_bind {A B} (m : T A) (k : A -> T B) : still m -> (forall a, still (k a)) -> still (tbind m k).
Proof.
  intros Hm Hk t. unfold tbind. destruct (Hm t) as [H1 H2]. destruct (m t) as [[e|a] t1]; [done|].
  destruct (Hk a t1) as [-> ->]. done.
Qed.
Lemma still_tell e : still (tell e).
Proof. done. Qed.
Lemma still_cancelled : still check_cancelled.
Proof. intros t. unfold check_cancelled. by destruct (tr_cancelled t). Qed.
Lemma still_send ty p : still (tsend ty p).
Proof. intros t. unfold tsend. by destruct (tr_takes t) as [[|n]|]. Qed.
Lemma still_disk : still disk.
Proof. intros t. unfold disk. by destruct (tr_disk t). Qed.
Lemma still_exc {A} (x : exc A) : still (texc x).
Proof. by destruct x. Qed.
Lemma still_dir : still the_dir.
Proof. done. Qed.
Lemma still_server_error {A} msg context : still (@throw_server_error A msg context).
Proof. unfold throw_server_error. by repeat case_match. Qed.
Lemma still_connect net : still (connect_to_server net).
Proof.
  unfold connect_to_server. destruct (nw_attempts net) as [l|]; [|apply still_fail]. induction l as [|b l IH]; cbn [connect_loop];
    (apply still_bind; [apply still_cancelled|intros _]); [apply still_fail|]. by destruct b.
Qed.

Create HintDb transfers.
#[export] Hint Resolve still_ret still_fail still_tell still_cancelled still_send still_disk still_exc still_dir still_server_error still_connect : transfers.
#[export] Hint Unfold status progress : transfers.

Lemma recv_returns max t msg t' :
  trecv max t = (inr msg, t') -> t'.(tr_dir) = t.(tr_dir) /\ forall m, msg = Some m -> t.(tr_in) = m :: t'.(tr_in).
Proof.
  unfold trecv. destruct (tr_in t) as [|m rest]; intros [= <- <-]; [done|]. split; [done|]. intros x. case_match; [done|].
  by intros [= ->].
Qed.

(** The next action of what returned: a still one, and another. *)
Ltac back_still H :=
  let a := fresh "a" in let t1 := fresh "t1" in let Hm := fresh "Hm" in let Hi := fresh "Hi" in let Hd := fresh "Hd" in
  apply still_returns in H as (a & t1 & Hm & Hi & Hd & H); [|by auto with transfers].
Ltac back H :=
  let a := fresh "a" in let t1 := fresh "t1" in let Hm := fresh "Hm" in apply tbind_returns in H as (a & t1 & Hm & H).

(** What still actions left as it was. *)
Ltac same_before :=
  repeat match goal with
  | h : tr_in ?a = tr_in _ |- _ => rewrite ?h in *; clear h
  | h : tr_dir ?a = tr_dir _ |- _ => rewrite ?h in *; clear h
  end.

Section engine.
Context `{P : Primitives}.

(** ** A download that is complete *)

(** A chunk as it came, opened: its place, and whether it is the last, are part of what
    was sealed. *)
Definition opens (o : Opened) (i : Z) (payload plain : bytes) : Prop :=
  exists sealed, deserialize_file_chunk payload = Some (mkFileChunk i sealed) /\
    decrypt o.(op_keys).(data_key) (transfer_chunk_nonce o.(op_header).(FileHeader_nonce) i) sealed
      (transfer_chunk_aad i (i + 1 =? o.(op_header).(FileHeader_total_chunks))) = Ret (Some plain) /\
    size plain = expected_chunk_plaintext_size o.(op_header) i.

Fixpoint opens_from (o : Opened) (i : Z) (payloads plains : list bytes) : Prop :=
  match payloads, plains with
  | [], [] => True
  | p :: payloads, x :: plains => opens o i p x /\ opens_from o (i + 1) payloads plains
  | _, _ => False
  end.

Lemma receive_file_returns o part n : forall i w t w' t',
  0 <= i -> i + Z.of_nat n = o.(op_header).(FileHeader_total_chunks) -> o.(op_header).(FileHeader_total_chunks) < 2 ^ 32 -> 0 <= w < 2 ^ 64 ->
  receive_file n i o part w t = (inr w', t') ->
  exists payloads plains, length payloads = n /\ opens_from o i payloads plains /\
    t.(tr_in) = map (pair DOWNLOAD_CHUNK) payloads ++ t'.(tr_in) /\
    t'.(tr_dir) = alter (fun b => b ++ concat plains) part t.(tr_dir) /\ w' = u64 (w + size (concat plains)).
Proof.
  induction n as [|n IH]; intros i w t w' t' Hi Hn Htot Hw H.
  - injection H as <- <-. exists [], []. split_and!; [done..| |].
    + cbn. symmetry. rewrite <- (alter_id (fun b => b ++ []) (tr_dir t) part) at 2; [done|]. intros. by rewrite app_nil_r.
    + cbn [concat]. replace (w + size []) with w by (unfold size; cbn; lia). by rewrite u64_small.
  - cbn [receive_file] in H. back_still H. back H. apply recv_returns in Hm0 as [Hd1 Hmsg]. back_still H.
    destruct a0 as [[ty payload]|]; [|done]. specialize (Hmsg _ eq_refl). destruct ty; try done; try (by destruct b).
    destruct (deserialize_file_chunk payload) as [[idx sealed]|] eqn:Edec; [|done]. cbn [FileChunk_chunk_index FileChunk_data] in H.
    destruct (Z.eqb_spec idx i) as [-> |]; [|done]. cbn [negb] in H. back H. apply texc_returns in Hm1 as [Hdecr ->].
    destruct a0 as [plain|]; [|done]. destruct (Z.eqb_spec (size plain) (expected_chunk_plaintext_size (op_header o) i)) as [Hsz|]; [|done].
    cbn [negb] in H.
    assert (forall t1 t2 (u : unit), (if is_empty plain then tret tt else
        do a <- disk; match a with
                      | Works => in_dir (alter (fun b => b ++ plain) part)
                      | Fails k => do _ <- in_dir (alter (fun b => b ++ ztake k plain) part); fail "Failed writing to disk (is it full?)"
                      end) t1 = (inr u, t2) -> t2.(tr_in) = t1.(tr_in) /\ t2.(tr_dir) = alter (fun b => b ++ plain) part t1.(tr_dir)) as Hwrite.
    { intros u1 u2 u Hu. destruct plain as [|b plain]; cbn [is_empty] in Hu.
      - injection Hu as _ <-. split; [done|]. symmetry. apply alter_id. intros. by rewrite app_nil_r.
      - back_still Hu. destruct a0; [|done]. injection Hu as _ <-. cbn. by rewrite Hi2, Hd2. }
    back H. apply Hwrite in Hm1 as [Hi2 Hd2]. clear Hwrite.
    apply still_returns in H as (u & t5 & _ & Hi3 & Hd3 & H); [|case_match; auto with transfers].
    rewrite u32_small in H, Hdecr by (unfold in_u32; lia).
    apply IH in H as (payloads & plains & Hlen & Hop & Hin & Hdir & ->); [|lia|lia|done|unfold u64; Zlia].
    exists (payload :: payloads), (plain :: plains). split_and!.
    + cbn. by rewrite Hlen.
    + cbn. split; [|done]. by exists sealed.
    + cbn. rewrite <- Hin, Hi3, Hi2, Hi1, <- Hi0. done.
    + rewrite Hdir, Hd3, Hd2, Hd0, Hd1, Hd. rewrite alter_alter_eq. apply alter_ext. intros. cbn. by rewrite <- app_assoc.
    + cbn [concat]. rewrite size_app. unfold u64. rewrite Zplus_mod_idemp_l. f_equal. lia.
Qed.


Lemma check_header_returns payload header :
  check_header payload = Ret header ->
  deserialize_file_header payload = Some header /\ validate_file_header header = ""%string /\ size header.(FileHeader_kem_ciphertext) = kem_ciphertext_size.
Proof.
  unfold check_header. destruct (deserialize_file_header payload) as [h|] eqn:E; [|done]. cbv zeta. case_bool_decide as Hv; [|done]. cbn [negb].
  destruct (Z.eqb_spec (size (FileHeader_kem_ciphertext h)) kem_ciphertext_size); [|done]. by intros [= <-].
Qed.

Lemma open_metadata_returns header priv o : open_metadata header priv = Ret o -> o.(op_header) = header.
Proof.
  unfold open_metadata, exc_bind. repeat case_match; try done. by intros [= <-].
Qed.

Lemma unique_output_path_free dir name p :
  unique_output_path dir name = Some p -> (exists n, p = candidate name n) /\ dir !! p = None /\ dir !! part_path_for p = None.
Proof.
  unfold unique_output_path. intros (n & Hn & ->)%fmap_Some. apply head_Some_elem_of, list_elem_of_filter in Hn as [Hfree _].
  unfold free_name in Hfree. split; [by exists n|]. by repeat case_match.
Qed.

(** What a complete download was: the messages that came, who they are from, and what
    they were opened to. *)
Record downloaded (ks : KeyStore) (t t' : Transfer) (opened : Opened) (content : bytes) : Prop := {
  dl_header : exists payload payloads plains x,
    t.(tr_in) = (DOWNLOAD_HEADER, payload) :: map (pair DOWNLOAD_CHUNK) payloads ++ (DOWNLOAD_DONE, x) :: t'.(tr_in) /\
    check_header payload = Ret opened.(op_header) /\ open_metadata opened.(op_header) (load_private_kem ks) = Ret opened /\
    Z.of_nat (length payloads) = opened.(op_header).(FileHeader_total_chunks) /\ opens_from opened 0 payloads plains /\ content = concat plains;
  dl_sender : exists name pub,
    sender_of ks (load_public_dsa ks) opened.(op_meta).(FileMetadata_sender_fingerprint) = Some (name, pub) /\ signed_by opened pub = true;
  dl_size : size content = opened.(op_header).(FileHeader_file_size);
}.

Lemma save_file_returns meanwhile os_error safe_name p0 o t p t' :
  (forall d n, meanwhile d !! part_path_for n = d !! part_path_for n) ->
  1 <= o.(op_header).(FileHeader_total_chunks) < 2 ^ 32 ->
  t.(tr_dir) !! part_path_for p0 = Some [] ->
  save_file meanwhile os_error safe_name p0 o t = (inr p, t') ->
  exists payloads plains x d, Z.of_nat (length payloads) = o.(op_header).(FileHeader_total_chunks) /\ opens_from o 0 payloads plains /\
    t.(tr_in) = map (pair DOWNLOAD_CHUNK) payloads ++ (DOWNLOAD_DONE, x) :: t'.(tr_in) /\
    d = meanwhile (<[part_path_for p0 := concat plains]> t.(tr_dir)) /\
    (p = p0 \/ exists n, p = candidate safe_name n) /\ d !! p = None /\
    t'.(tr_dir) = <[p := concat plains]> (delete (part_path_for p0) d) /\
    u64 (size (concat plains)) = o.(op_header).(FileHeader_file_size).
Proof.
  intros Hmean Htot Hpart H. unfold save_file in H. cbv zeta in H. back H.
  apply receive_file_returns in Hm as (payloads & plains & Hlen & Hop & Hin & Hdir & ->); [|lia..].
  assert (t1.(tr_dir) = <[part_path_for p0 := concat plains]> t.(tr_dir)) as Hdir1.
  { rewrite Hdir. rewrite <- (insert_id _ _ _ Hpart) at 1. by rewrite alter_insert_eq. }
  clear Hdir. back H. apply recv_returns in Hm as [Hd1 Hmsg]. back_still H.
  destruct a as [[ty x]|]; [|done]. specialize (Hmsg _ eq_refl). destruct ty; try done; try (by destruct b).
  back_still H. destruct a as [|k]; [|back H; by cbn in H]. cbn [orb] in H. back_still H.
  destruct (Z.eqb_spec (u64 (0 + size (concat plains))) (FileHeader_file_size (op_header o))) as [Hsz|]; [|done]. cbn [negb] in H.
  back H. cbn in Hm2. injection Hm2 as _ <-. back_still H. injection Hm2 as <- <-. cbn [tr_dir tr_in] in *.
  set (d := meanwhile _) in *.
  assert (d = meanwhile (<[part_path_for p0 := concat plains]> t.(tr_dir))) as Hd5 by (unfold d; congruence).
  assert (d !! part_path_for p0 = Some (concat plains)) as Hdp by (rewrite Hd5, Hmean; apply lookup_insert_eq).
  rewrite Hdp in H.
  assert (forall (m : T bytes) u1 u2 (f : bytes), m = match d !! p0 with None => tret p0 | Some _ => match unique_output_path d safe_name with
              Some p => tret p | None => fail "Could not find a free file name" end end -> m u1 = (inr f, u2) ->
            u2 = u1 /\ (f = p0 \/ exists n, f = candidate safe_name n) /\ d !! f = None) as Hname.
  { intros m u1 u2 f ->. destruct (d !! p0) eqn:E; [|intros [= <- <-]; auto].
    destruct (unique_output_path d safe_name) as [q|] eqn:Eu; [|done]. apply unique_output_path_free in Eu as (Hc & Hfree & _).
    intros [= <- <-]. auto. }
  back H. specialize (Hname _ _ _ _ eq_refl Hm2) as (-> & Hcand & Hfree). back_still H.
  match goal with b : disk_answer |- _ => destruct b; [|done] end. cbn in H. injection H as <- <-. cbn in *.
  exists payloads, plains, x, d. split_and!; [lia|done| |done..| |done].
  - rewrite Hin, Hmsg. congruence.
  - congruence.
Qed.

Lemma opens_from_small o (bound : Z) : (forall i, 0 <= i < o.(op_header).(FileHeader_total_chunks) -> expected_chunk_plaintext_size o.(op_header) i <= bound) ->
  forall payloads plains i, 0 <= i -> i + Z.of_nat (length payloads) <= o.(op_header).(FileHeader_total_chunks) -> opens_from o i payloads plains ->
  size (concat plains) <= Z.of_nat (length payloads) * bound.
Proof.
  intros Hb. induction payloads as [|p payloads IH]; intros [|x plains] i Hi Hn H; try done. cbn [length opens_from concat] in *.
  destruct H as [(sealed & _ & _ & Hsz) H]. specialize (IH _ (i + 1) ltac:(lia) ltac:(lia) H). rewrite size_app, Hsz. specialize (Hb i ltac:(lia)). lia.
Qed.

(** C14: a download that is reported as complete saved exactly what a known sender
    signed for this receiver, and overwrote nothing. Whatever the server sent and however
    the disk behaved: the header is valid and was opened with the receiver's own key; the
    metadata's sender is the receiver or a contact, whose key verifies the signature over
    the header, the file name and the sender; every chunk that came was opened with its
    own position and with whether it is the last; and the folder, as others left it
    meanwhile, has one more file, under a name that was free, made from the signed name,
    with exactly those chunks, of the size the header says; the temporary file is gone. *)
Theorem download_saves_only_signed meanwhile os_error ks raw_id net t t' :
  (forall d n, meanwhile d !! part_path_for n = d !! part_path_for n) ->
  download_impl meanwhile os_error ks raw_id net t = (inr tt, t') ->
  exists opened content p0 p d, downloaded ks t t' opened content /\
    let name := sanitize_received_name opened.(op_meta).(FileMetadata_filename) in
    (exists n, p0 = candidate name n) /\ (exists n, p = candidate name n) /\
    d = meanwhile (<[part_path_for p0 := content]> t.(tr_dir)) /\ d !! p = None /\
    t'.(tr_dir) = <[p := content]> (delete (part_path_for p0) d).
Proof.
  intros Hmean H. unfold download_impl in H. cbv zeta in H.
  destruct (is_lower_hex _ _); [|done]. cbn [negb] in H. destruct (private_keys_locked ks); [done|].
  destruct (is_empty (load_private_kem ks) || is_empty (load_public_dsa ks)); [done|].
  do 3 back_still H. destruct a1; [|by back_still H]. cbn [negb] in H. back_still H. back H. apply recv_returns in Hm3 as [Hdr Hmsg]. back_still H.
  destruct a2 as [[ty payload]|]; [|done]. specialize (Hmsg _ eq_refl). destruct ty; try done; try (by destruct b).
  back H. apply texc_returns in Hm4 as [Hch ->]. back_still H. back H. apply texc_returns in Hm5 as [Hop ->]. back_still H.
  rename a2 into header, a5 into opened. pose proof (open_metadata_returns _ _ _ Hop) as Hhd. subst header.
  destruct (sender_of _ _ _) as [[who pub]|] eqn:Es; [|done]. destruct (signed_by opened pub) eqn:Eg; [|done]. cbn [negb] in H.
  do 2 back_still H. match goal with b : disk_answer |- _ => destruct b; [|done] end. back_still H.
  match goal with h : the_dir _ = _ |- _ => injection h as <- <- end.
  destruct (unique_output_path _ _) as [p0|] eqn:Eu; [|done]. apply unique_output_path_free in Eu as (Hcand & Hfree & Hfp).
  back_still H. match goal with b : disk_answer |- _ => destruct b; [|done] end. back H.
  match goal with h : in_dir _ _ = _ |- _ => injection h as _ <- end.
  back H. match goal with h : or_remove _ _ _ = _ |- _ => rename h into Hsave end. unfold or_remove in Hsave. destruct (save_file _ _ _ _ _ _) as [[e|p] t_end] eqn:Esave; [done|]. injection Hsave as <- <-.
  destruct (check_header_returns _ _ Hch) as (Hdes & Hval & _). destruct (valid_header_numbers _ _ Hdes Hval) as (Htot & Hfs & _ & Hpieces).
  apply save_file_returns in Esave as (payloads & plains & x & d & Hlen & Hopen & Hin & Hdd & Hp & Hpfree & Hdir & Hsize);
    [|done|done|cbn; apply lookup_insert_eq]. cbn [tr_in tr_dir] in *. rewrite insert_insert_eq in Hdd.
  do 3 back_still H. cbn in H. injection H as <-. cbn [tr_in tr_dir].
  pose proof (opens_from_small opened MAX_CHUNK_SIZE ltac:(intros; by apply Hpieces) payloads plains 0 ltac:(done) ltac:(lia) Hopen) as Hsmall.
  rewrite u64_small in Hsize by (pose proof (size_nonneg (concat plains)); unfold in_u64, MAX_CHUNK_SIZE in *; lia).
  same_before. exists opened, (concat plains), p0, p, d. split; [constructor; [|by exists who, pub|done]|].
  - exists payload, payloads, plains, x. split_and!; [|done..|lia|done|done]. by rewrite Hmsg, Hin.
  - split_and!; [done|by destruct Hp as [-> |]|done..].
Qed.

(** ** A download that fails *)

(** What an action does to the transfer, whatever it returns. *)
Definition within (R : Transfer -> Transfer -> Prop) {A} (m : T A) : Prop := forall t, R t (m t).2.

(** The disk that has always worked still does; the folder is as it was, or except for
    one file. *)
Definition calm_disk (t t' : Transfer) : Prop := t.(tr_disk) = [] -> t'.(tr_disk) = [].
Definition same_dir (t t' : Transfer) : Prop := t'.(tr_dir) = t.(tr_dir) /\ calm_disk t t'.
Definition only_part (part : bytes) (t t' : Transfer) : Prop :=
  (exists x, t'.(tr_dir) = <[part := x]> t.(tr_dir)) /\ calm_disk t t'.
Definition in_part (part : bytes) (t t' : Transfer) : Prop := is_Some (t.(tr_dir) !! part) -> only_part part t t'.

Lemma same_dir_trans t1 t2 t3 : same_dir t1 t2 -> same_dir t2 t3 -> same_dir t1 t3.
Proof. intros [E1 H1] [E2 H2]. split; [congruence|]. intros H. by apply H2, H1. Qed.
Lemma in_part_trans part t1 t2 t3 : in_part part t1 t2 -> in_part part t2 t3 -> in_part part t1 t3.
Proof.
  intros H1 H2 Hs. destruct (H1 Hs) as [[x Ex] C1]. destruct H2 as [[y Ey] C2]; [rewrite Ex, lookup_insert_eq; by eexists|].
  split; [|intros H; by apply C2, C1]. exists y. by rewrite Ey, Ex, insert_insert_eq.
Qed.
Lemma same_in_part part t t' : same_dir t t' -> in_part part t t'.
Proof. intros [E C] [x Hx]. split; [|done]. exists x. by rewrite E, insert_id. Qed.

Lemma within_seq R {A B} (m : T A) (k : A -> T B) :
  (forall t1 t2 t3, R t1 t2 -> R t2 t3 -> R t1 t3) -> within R m -> (forall a, within R (k a)) -> within R (tbind m k).
Proof.
  intros HR Hm Hk t. specialize (Hm t). unfold tbind. destruct (m t) as [[e|a] t1]; [done|]. cbn [snd] in Hm. eapply HR; [done|apply Hk].
Qed.

Lemma tbind_fails R {A B} (m : T A) (k : A -> T B) t e t' :
  within R m -> tbind m k t = (inl e, t') -> R t t' \/ exists a t1, R t t1 /\ m t = (inr a, t1) /\ k a t1 = (inl e, t').
Proof.
  intros Hm. specialize (Hm t). unfold tbind. destruct (m t) as [[e1|a] t1]; [intros [= -> ->]; by left|]. right. by exists a, t1.
Qed.

Lemma same_dir_refl t : same_dir t t.
Proof. split; [done|by intros H]. Qed.

Lemma within_step R {A} (m : T A) t r : within R m -> m t = r -> R t r.2.
Proof. intros Hm <-. apply Hm. Qed.

Lemma within_ret {A} (a : A) : within same_dir (tret a).
Proof. intros t. apply same_dir_refl. Qed.
Lemma within_fail {A} what : within same_dir (@tfail A what).
Proof. intros t. apply same_dir_refl. Qed.
Lemma within_tell e : within same_dir (tell e).
Proof. intros t. split; [done|by intros H]. Qed.
Lemma within_cancelled : within same_dir check_cancelled.
Proof. intros t. unfold check_cancelled. destruct (tr_cancelled t); split; try done; by intros H. Qed.
Lemma within_send ty p : within same_dir (tsend ty p).
Proof. intros t. unfold tsend. destruct (tr_takes t) as [[|n]|]; split; try done; by intros H. Qed.
Lemma within_recv n : within same_dir (trecv n).
Proof. intros t. unfold trecv. destruct (tr_in t); split; try done; by intros H. Qed.
Lemma within_disk : within same_dir disk.
Proof. intros t. unfold disk. destruct (tr_disk t) eqn:E; (split; [done|]); intros H; [done|congruence]. Qed.
Lemma within_exc {A} (x : exc A) : within same_dir (texc x).
Proof. intros t. destruct x; apply same_dir_refl. Qed.
Lemma within_dir : within same_dir the_dir.
Proof. intros t. apply same_dir_refl. Qed.
Lemma within_server_error {A} msg context : within same_dir (@throw_server_error A msg context).
Proof. unfold throw_server_error. intros t. repeat case_match; apply same_dir_refl. Qed.
Lemma within_connect net : within same_dir (connect_to_server net).
Proof.
  unfold connect_to_server. destruct (nw_attempts net) as [l|]; [|apply within_fail]. induction l as [|b l IH]; cbn [connect_loop];
    (apply within_seq; [apply same_dir_trans|apply within_cancelled|intros _]); [apply within_fail|]. destruct b; [apply within_ret|exact IH].
Qed.
#[local] Hint Resolve same_dir_trans in_part_trans within_ret within_fail within_tell within_cancelled within_send within_recv within_disk
  within_exc within_dir within_server_error within_connect : transfers.

Lemma within_in_part part {A} (m : T A) : within same_dir m -> within (in_part part) m.
Proof. intros H t. apply same_in_part, H. Qed.
Lemma within_write part f : within (in_part part) (in_dir (alter f part)).
Proof. intros t [x Hx]. split; [|by intros H]. exists (f x). cbn. rewrite <- (insert_id _ _ _ Hx) at 1. by rewrite alter_insert_eq. Qed.

#[local] Hint Resolve within_in_part within_write : transfers.
#[local] Hint Extern 1 (within _ (status _)) => apply within_tell : transfers.
#[local] Hint Extern 1 (within _ (progress _ _)) => apply within_tell : transfers.

(** All that is done with the temporary file. *)
Lemma within_receive_file o part n : forall i w, within (in_part part) (receive_file n i o part w).
Proof.
  pose proof (in_part_trans part) as Htr.
  induction n as [|n IH]; intros i w; cbn [receive_file]; [auto with transfers|].
  do 3 (apply within_seq; [exact Htr|auto with transfers|intros ?]).
  destruct a0 as [[ty payload]|]; [|auto with transfers]. destruct ty; try (by auto with transfers).
  destruct (deserialize_file_chunk payload) as [chunk|]; [|auto with transfers].
  case_match; [auto with transfers|]. apply within_seq; [exact Htr|auto with transfers|intros plain].
  destruct plain as [plain|]; [|auto with transfers]. case_match; [auto with transfers|].
  apply within_seq; [exact Htr| |].
  { case_match; [auto with transfers|]. apply within_seq; [exact Htr|auto with transfers|].
    intros [|k]; [auto with transfers|]. apply within_seq; [exact Htr|auto with transfers|auto with transfers]. }
  intros _. apply within_seq; [exact Htr| |auto]. case_match; auto with transfers.
Qed.

Lemma save_file_fails meanwhile os_error safe_name p0 o t e t' :
  is_Some (t.(tr_dir) !! part_path_for p0) -> save_file meanwhile os_error safe_name p0 o t = (inl e, t') ->
  exists x d, (d = <[part_path_for p0 := x]> t.(tr_dir) \/ d = meanwhile (<[part_path_for p0 := x]> t.(tr_dir))) /\
    t'.(tr_dir) = d /\ calm_disk t t'.
Proof.
  intros Hs H. set (part := part_path_for p0) in *. unfold save_file in H. cbv zeta in H. fold part in H.
  assert (in_part part t t' -> exists x d, (d = <[part := x]> t.(tr_dir) \/ d = meanwhile (<[part := x]> t.(tr_dir))) /\
    t'.(tr_dir) = d /\ calm_disk t t') as Hearly by (intros Ht; destruct (Ht Hs) as [[x Hx] Hc]; eauto 6).
  pose proof (in_part_trans part) as Htr.
  apply (tbind_fails (in_part part)) in H as [H|(w & t1 & H1 & _ & H)]; [by eauto| |apply within_receive_file].
  apply (tbind_fails (in_part part)) in H as [H|(msg & t2 & H2 & _ & H)]; [by eauto| |auto with transfers].
  apply (tbind_fails (in_part part)) in H as [H|([] & t3 & H3 & _ & H)]; [by eauto| |auto with transfers].
  assert (in_part part t t3) as Hto by eauto. clear H1 H2 H3 t1 t2.
  assert (forall m : T bytes, within (in_part part) m -> m t3 = (inl e, t') -> in_part part t t') as Hstop.
  { intros m Hm Hrun. eapply Htr; [exact Hto|]. exact (within_step _ _ _ _ Hm Hrun). }
  destruct msg as [[ty x]|]; [|apply Hearly; eapply Hstop; [|exact H]; auto with transfers].
  destruct ty; try (apply Hearly; eapply Hstop; [|exact H]; by auto with transfers). clear Hstop.
  apply (tbind_fails (in_part part)) in H as [H|(a & t4 & H4 & _ & H)]; [by eauto| |auto with transfers].
  apply (tbind_fails (in_part part)) in H as [H|([] & t5 & H5 & _ & H)]; [by eauto| |destruct a; auto with transfers].
  assert (in_part part t t5) as Hto5 by eauto. clear Hto H4 H5 t3 t4.
  destruct (_ || _); [injection H as _ <-; auto|].
  destruct (Hto5 Hs) as [[y Hy] Hc]. cbn [tbind in_dir the_dir] in H. unfold tbind at 1, in_dir at 1 in H. unfold tbind at 1, the_dir in H. cbn [tr_dir] in H.
  rewrite Hy in H. set (d := meanwhile _) in *. set (t6 := mkTransfer _ _ _ _ _ _ _) in H.
  assert (same_dir t6 t') as [Hd Hc'].
  { apply (tbind_fails same_dir) in H as [H|(p & t7 & H7 & _ & H)]; [done| |].
    2:{ destruct (d !! p0); [|auto with transfers]. destruct (unique_output_path d safe_name); auto with transfers. }
    apply (tbind_fails same_dir) in H as [H|(b & t8 & H8 & _ & H)]; [by eapply same_dir_trans| |auto with transfers].
    assert (t8 = t') as <- by (destruct b; [destruct (d !! part); [done|]|]; by injection H). by eapply same_dir_trans. }
  exists y, d. split; [by right|]. split; [exact Hd|]. intros Hn. apply Hc'. by apply Hc.
Qed.

(** The next action of what failed: it is where it failed, or it did not. *)
Ltac past H Hto :=
  let a := fresh "a" in let t1 := fresh "t1" in let H1 := fresh "H1" in let Hm := fresh "Hm" in
  apply (tbind_fails same_dir) in H as [H|(a & t1 & H1 & Hm & H)];
    [left; apply (same_dir_trans _ _ _ Hto H)|apply (same_dir_trans _ _ _ Hto) in H1; clear Hto; rename H1 into Hto|by auto with transfers].
Ltac stops H Hto := left; refine (proj1 (same_dir_trans _ _ _ Hto (within_step _ _ _ _ _ H))); by auto with transfers.

(** C34: a download that fails, for whatever reason and at whatever point, leaves no
    file behind: the folder is as it was, or as others have changed it meanwhile, but for
    one temporary file under a name that was free; and that is removed too, unless the
    disk refuses. *)
Theorem failed_download_leaves_nothing meanwhile os_error ks raw_id net t e t' :
  download_impl meanwhile os_error ks raw_id net t = (inl e, t') ->
  t'.(tr_dir) = t.(tr_dir) \/
  exists p0 x d, t.(tr_dir) !! p0 = None /\ t.(tr_dir) !! part_path_for p0 = None /\
    (d = <[part_path_for p0 := x]> t.(tr_dir) \/ d = meanwhile (<[part_path_for p0 := x]> t.(tr_dir))) /\
    (t'.(tr_dir) = d \/ t'.(tr_dir) = delete (part_path_for p0) d) /\
    (t.(tr_disk) = [] -> t'.(tr_dir) = delete (part_path_for p0) d).
Proof.
  intros H. unfold download_impl in H. cbv zeta in H.
  pose proof (same_dir_refl t) as Hto.
  case_match; [stops H Hto|]. case_match; [stops H Hto|]. case_match; [stops H Hto|].
  past H Hto. past H Hto. past H Hto. destruct a1; [|past H Hto; stops H Hto]. cbn [negb] in H. do 3 past H Hto.
  destruct a2 as [[ty payload]|]; [|stops H Hto]. destruct ty; try (stops H Hto).
  do 4 past H Hto. destruct (sender_of _ _ _) as [[who pub]|]; [|stops H Hto]. case_match; [stops H Hto|].
  do 2 past H Hto. match goal with b : disk_answer |- _ => destruct b; [|stops H Hto] end.
  past H Hto. match goal with h : the_dir _ = _ |- _ => injection h as <- <- end.
  destruct (unique_output_path _ _) as [p0|] eqn:Eu; [|stops H Hto]. apply unique_output_path_free in Eu as (_ & Hfree & Hfp).
  rewrite (proj1 Hto) in Hfree, Hfp. past H Hto. match goal with b : disk_answer |- _ => destruct b; [|stops H Hto] end. destruct Hto as [Hd Hc].
  right. unfold tbind at 1, in_dir at 1 in H. cbn [tr_dir] in H. set (t_open := mkTransfer _ _ _ _ _ _ _) in H.
  unfold tbind at 1, or_remove in H. destruct (save_file _ _ _ _ _ _) as [[e1|p] t_end] eqn:Esave.
  2:{ exfalso. revert H. clear. unfold tbind, tsend, progress, status, tell. by destruct (tr_takes t_end) as [[|k]|]. }
  injection H as _ <-. apply save_file_fails in Esave as (x & d & Hdd & Hend & Hcalm); [|cbn; rewrite lookup_insert_eq; by eexists].
  exists p0, x, d. unfold t_open in Hdd. cbn [tr_dir] in Hdd.
  rewrite insert_insert_eq, Hd in Hdd. split_and!; [done..| |].
  - clear - Hend. unfold tbind, disk. destruct (tr_disk t_end) as [|[|k] l]; cbn; rewrite Hend; auto.
  - intros Hn. assert (tr_disk t_end = []) as E by (apply Hcalm, Hc, Hn). unfold tbind, disk. rewrite E. cbn. by rewrite Hend.
Qed.
End engine.
