(* ===== verification/TransferLink.v ===== *)
(** * A file goes from one client to another through the server

    The client's upload and download run against the server's handlers: what one sends
    is what the other receives. *)

From Stdlib Require Import ZArith Lia.
From stdpp Require Import base list strings gmap.
From S2P Require Import Prelude Threads Wire Text Protocol Crypto Envelope Attachment KeyStore TransferServer TransferServerInv TransferServerProps TransferServerRuns TransferEngine TransferEngineProps.
#[local] Open Scope Z_scope.
#[local] Open Scope transfer_scope.

(** ** A transfer in which nothing fails *)

Definition ready (ins out : list (MessageType * bytes)) (dir : Folder) (events : list Event) : Transfer :=
  mkTransfer ins None out [] dir [] events.

Section steps.
Context {B : Type}.
Variables (ins out : list (MessageType * bytes)) (dir : Folder) (ev : list Event).

Lemma step_tell e (k : unit -> T B) : tbind (tell e) k (ready ins out dir ev) = k tt (ready ins out dir (ev ++ [e])).
Proof. done. Qed.
Lemma step_cancelled (k : unit -> T B) : tbind check_cancelled k (ready ins out dir ev) = k tt (ready ins out dir ev).
Proof. done. Qed.
Lemma step_send ty p (k : bool -> T B) : tbind (tsend ty p) k (ready ins out dir ev) = k true (ready ins (out ++ [(ty, p)]) dir ev).
Proof. done. Qed.
Lemma step_recv m max (k : option (MessageType * bytes) -> T B) :
  size m.2 <= max -> tbind (trecv max) k (ready (m :: ins) out dir ev) = k (Some m) (ready ins out dir ev).
Proof. intros Hs. unfold tbind, trecv. cbn. by rewrite (proj2 (Z.ltb_ge _ _)). Qed.
Lemma step_disk (k : disk_answer -> T B) : tbind disk k (ready ins out dir ev) = k Works (ready ins out dir ev).
Proof. done. Qed.
Lemma step_in_dir f (k : unit -> T B) : tbind (in_dir f) k (ready ins out dir ev) = k tt (ready ins out (f dir) ev).
Proof. done. Qed.
Lemma step_the_dir (k : Folder -> T B) : tbind the_dir k (ready ins out dir ev) = k dir (ready ins out dir ev).
Proof. done. Qed.
Lemma step_exc {A} (x : exc A) a t (k : A -> T B) : x = Ret a -> tbind (texc x) k t = k a t.
Proof. by intros ->. Qed.
Lemma step_run {A} (m : T A) a t t1 (k : A -> T B) : m t = (inr a, t1) -> tbind m k t = k a t1.
Proof. intros H. unfold tbind. by rewrite H. Qed.

(** Some address works. *)
Definition connects (net : Network) : Prop := exists l, net.(nw_attempts) = Some l /\ true ∈ l.

Lemma step_connect net (k : unit -> T B) : connects net -> tbind (connect_to_server net) k (ready ins out dir ev) = k tt (ready ins out dir ev).
Proof.
  intros (l & Hl & Hin). apply step_run. unfold connect_to_server. rewrite Hl. clear Hl. induction l as [|b l IH]; [by apply not_elem_of_nil in Hin|].
  trans ((if b then tret tt else connect_loop l net.(nw_failure)) (ready ins out dir ev)); [done|]. destruct b; [done|]. apply IH. set_solver.
Qed.
End steps.

(** ** The file in pieces *)

Section pieces.
Variable h : FileHeader.
Variable content : bytes.
Hypothesis header_there : deserialize_file_header (serialize_file_header h) = Some h.
Hypothesis header_valid : validate_file_header h = ""%string.
Hypothesis content_size : size content = h.(FileHeader_file_size).

Abbreviation total := h.(FileHeader_total_chunks).
(** Where a chunk begins, and what is in it. *)
Definition chunk_start (i : Z) : Z := Z.min h.(FileHeader_file_size) (i * h.(FileHeader_chunk_size)).
Definition chunk_plain (i : Z) : bytes := ztake (expected_chunk_plaintext_size h i) (zdrop (chunk_start i) content).

Lemma chunk_step i : 0 <= i < total ->
  0 <= chunk_start i <= size content /\ chunk_start i + expected_chunk_plaintext_size h i = chunk_start (i + 1) /\ chunk_start (i + 1) <= size content /\
  0 <= expected_chunk_plaintext_size h i <= MAX_CHUNK_SIZE.
Proof.
  intros Hi. destruct (valid_header_numbers _ _ header_there header_valid) as (Ht & Hfs & _ & Hp). specialize (Hp i Hi).
  destruct (validate_file_header_ok h header_valid) as (Hc & _). unfold MIN_CHUNK_SIZE, MAX_CHUNK_SIZE in *.
  unfold chunk_start. rewrite content_size. split; [nia|]. split; [|lia]. unfold expected_chunk_plaintext_size in *.
  rewrite u64_small in * by (unfold in_u64; nia). destruct (Z.leb_spec (FileHeader_file_size h) (i * FileHeader_chunk_size h)); nia.
Qed.

Lemma size_chunk_plain i : 0 <= i < total -> size (chunk_plain i) = expected_chunk_plaintext_size h i.
Proof. intros Hi. destruct (chunk_step i Hi) as (H1 & H2 & H3 & H4). unfold chunk_plain. rewrite size_ztake; [done|]. rewrite size_zdrop; lia. Qed.

Lemma chunk_next i : 0 <= i < total -> ztake (chunk_start i) content ++ chunk_plain i = ztake (chunk_start (i + 1)) content.
Proof.
  intros Hi. destruct (chunk_step i Hi) as (H1 & H2 & H3 & H4). unfold chunk_plain, ztake, zdrop. rewrite take_take_drop. f_equal. lia.
Qed.

Lemma chunk_start_end : chunk_start total = size content.
Proof.
  destruct (valid_header_numbers _ _ header_there header_valid) as (Ht & Hfs & _). destruct (validate_file_header_ok h header_valid) as (Hc & Hm & Htot & _).
  pose proof (expected_total_chunks_cover _ _ Hc (conj (proj1 Hfs) Hm)) as Hcov. cbv zeta in Hcov. rewrite <- Htot in Hcov.
  unfold chunk_start. lia.
Qed.
End pieces.

(** ** Sealing and opening *)

Section engine.
Context `{PL : PrimitiveLaws}.

(** A client that can sign, and one that can open what is sealed for a public key. *)
Definition signs_with (ks : KeyStore) : Prop :=
  private_keys_locked ks = false /\ load_public_dsa ks <> [] /\ exists seed, prim_sig_keypair seed = (load_public_dsa ks, load_private_dsa ks).
Definition opens_with (ks : KeyStore) (pub_kem : bytes) : Prop :=
  private_keys_locked ks = false /\ load_public_dsa ks <> [] /\ exists seed, prim_kem_keypair seed = (pub_kem, load_private_kem ks).

Lemma not_empty (b : bytes) : b <> [] -> is_empty b = false.
Proof. by destruct b. Qed.

Lemma session_keys_ok ss salt : size ss = 32 -> size salt = 32 ->
  exists keys, derive_session_keys ss salt = Ret keys /\ size keys.(data_key) = 32 /\ size keys.(metadata_key) = 32.
Proof.
  intros Hs Hsalt. unfold derive_session_keys. rewrite !(proj2 (is_empty_false _)) by lia. cbn [orb]. eexists. split; [done|]. cbn [data_key metadata_key].
  pose proof (hkdf_size ss salt HKDF_INFO (2 * AES_KEY_SIZE) ltac:(done)) as Hk. unfold AES_KEY_SIZE in *. split; [apply size_ztake|rewrite size_zdrop]; lia.
Qed.

(** What a sender made is what its receiver opens. *)
Record made (r : Randomness) (ks_s ks_r : KeyStore) (recipient : Contact) (filename : bytes) (fs : Z) (o : Opened) : Prop := {
  md_made : make_header r recipient (load_public_dsa ks_s) (load_private_dsa ks_s) filename fs = Ret (o.(op_header), o.(op_keys));
  md_there : deserialize_file_header (serialize_file_header o.(op_header)) = Some o.(op_header);
  md_valid : validate_file_header o.(op_header) = ""%string;
  md_size : o.(op_header).(FileHeader_file_size) = fs;
  md_chunks : o.(op_header).(FileHeader_total_chunks) = expected_total_chunks fs DEFAULT_CHUNK_SIZE;
  md_kem : size o.(op_header).(FileHeader_kem_ciphertext) = kem_ciphertext_size;
  md_open : open_metadata o.(op_header) (load_private_kem ks_r) = Ret o;
  md_signed : signed_by o (load_public_dsa ks_s) = true;
  md_from : o.(op_meta).(FileMetadata_filename) = filename /\ o.(op_meta).(FileMetadata_sender_fingerprint) = fingerprint (load_public_dsa ks_s);
  md_key : size o.(op_keys).(data_key) = 32 /\ size o.(op_header).(FileHeader_nonce) = 12;
}.

Lemma make_header_ok r ks_s ks_r recipient filename fs :
  size r.(rn_nonce) = 12 -> signs_with ks_s -> opens_with ks_r recipient.(co_pub_kem) -> 0 <= fs <= MAX_FILE_SIZE -> size filename <= MAX_FILENAME_BYTES ->
  exists o, made r ks_s ks_r recipient filename fs o.
Proof.
  intros Hnonce (_ & _ & seed & Hsig) (_ & _ & kseed & Hkem) Hfs Hname.
  destruct (encapsulate_pair r.(rn_kem) kseed recipient.(co_pub_kem) (load_private_kem ks_r) ltac:(done)) as (ct & ss & Henc & Hdec & Hct & Hss & _).
  set (pub := load_public_dsa ks_s) in *. set (priv := load_private_dsa ks_s) in *.
  set (chunks := expected_total_chunks fs DEFAULT_CHUNK_SIZE).
  set (public_fields := serialize_header_public_fields (mkFileHeader fs DEFAULT_CHUNK_SIZE chunks ct r.(rn_nonce) [])).
  destruct (session_keys_ok ss (sha256 public_fields) Hss ltac:(apply sha256_size)) as (keys & Hkeys & Hdk & Hmk).
  destruct (sig_sizes seed r.(rn_sign) (build_signing_payload public_fields filename (fingerprint pub)) priv) as (Hpubs & Hprivs & Hsigs).
  rewrite Hsig in Hpubs, Hprivs. cbn [fst snd] in Hpubs, Hprivs.
  set (signature := prim_sign r.(rn_sign) (build_signing_payload public_fields filename (fingerprint pub)) priv) in *.
  set (meta := mkFileMetadata filename (fingerprint pub) signature).
  assert (size (fingerprint pub) = 64) as Hfp by (unfold fingerprint; rewrite size_bytes_to_hex; unfold sha256; by rewrite sha256_size).
  destruct algorithm_sizes as (_ & _ & Hctmax & Hsigmax). destruct kem_sizes_pos as [_ Hctpos].
  assert (wf_FileMetadata meta) as Hwfm.
  { unfold wf_FileMetadata, meta. cbn. unfold MAX_FINGERPRINT_CHARS, MAX_SIGNATURE_SIZE. lia. }
  assert (size (serialize_file_metadata meta) = 4 + size filename + 4 + 64 + 4 + size signature) as Hms.
  { unfold serialize_file_metadata, meta. cbn [FileMetadata_filename FileMetadata_sender_fingerprint FileMetadata_signature]. encode_norm. rewrite !size_app, !size_blob, Hfp. lia. }
  set (sealed := prim_gcm_seal keys.(metadata_key) r.(rn_nonce) (serialize_file_metadata meta) metadata_aad).
  assert (size sealed = size (serialize_file_metadata meta) + 16) as Hsealed by apply gcm_seal_size.
  unfold MAX_FILENAME_BYTES in Hname. pose proof (size_nonneg filename) as Hn0.
  set (h := mkFileHeader fs DEFAULT_CHUNK_SIZE chunks ct r.(rn_nonce) sealed).
  pose proof (expected_total_chunks_cover fs DEFAULT_CHUNK_SIZE ltac:(done) Hfs) as Hcov. cbv zeta in Hcov. fold chunks in Hcov.
  exists (mkOpened h keys meta). constructor; cbn [op_header op_keys op_meta].
  - unfold make_header. fold chunks. rewrite Henc. cbn [exc_bind]. fold public_fields. rewrite Hkeys. cbn [exc_bind].
    unfold sign, require_size. fold pub priv. rewrite Hprivs, Z.eqb_refl. cbn [negb exc_bind]. fold signature meta.
    rewrite encrypt_ok; [done|done|done|unfold INT_MAX; lia|done].
  - apply deserialize_file_header_spec. split; [|done]. unfold wf_FileHeader, h. cbn.
    unfold MAX_KEM_CIPHERTEXT_SIZE, NONCE_SIZE, MAX_SEALED_METADATA_SIZE, in_u64, in_u32, MAX_FILE_SIZE, DEFAULT_CHUNK_SIZE in *. lia.
  - unfold validate_file_header, h. cbn [FileHeader_chunk_size FileHeader_file_size FileHeader_total_chunks FileHeader_nonce FileHeader_kem_ciphertext FileHeader_sealed_metadata].
    fold chunks. rewrite Hnonce, Hct, Hsealed, Z.eqb_refl. change ((DEFAULT_CHUNK_SIZE <? MIN_CHUNK_SIZE) || (MAX_CHUNK_SIZE <? DEFAULT_CHUNK_SIZE)) with false.
    rewrite (proj2 (Z.ltb_ge _ fs)) by lia.
    cbn [negb]. rewrite (proj2 (Z.eqb_neq _ 0)) by lia. rewrite (proj2 (Z.ltb_ge _ _)) by (unfold AEAD_TAG_SIZE; lia). done.
  - done.
  - done.
  - done.
  - unfold open_metadata. change (serialize_header_public_fields h) with public_fields. unfold h. cbn [FileHeader_kem_ciphertext FileHeader_nonce FileHeader_sealed_metadata].
    rewrite Hdec. cbn [exc_bind]. rewrite Hkeys. cbn [exc_bind]. rewrite decrypt_ok; [|done|done|unfold INT_MAX; lia|done].
    unfold sealed. rewrite gcm_open_seal. cbn [exc_bind]. by rewrite (proj2 (deserialize_file_metadata_spec _ meta)).
  - unfold signed_by, verify. cbn [op_meta op_header]. fold pub. rewrite Hpubs, Z.eqb_refl. cbn [negb]. unfold meta. cbn [FileMetadata_signature FileMetadata_filename FileMetadata_sender_fingerprint].
    rewrite (proj2 (is_empty_false _)), (proj2 (Z.ltb_ge _ _)) by lia. cbn [orb]. change (serialize_header_public_fields h) with public_fields.
    pose proof (sig_correct seed r.(rn_sign) (build_signing_payload public_fields filename (fingerprint pub))) as Hv. by rewrite Hsig in Hv.
  - done.
  - done.
Qed.

(** ** The client's loops *)

Section transfer.
Variables (r : Randomness) (ks_s ks_r : KeyStore) (recipient : Contact) (filename content : bytes) (o : Opened).
Hypothesis o_made : made r ks_s ks_r recipient filename (size content) o.

Abbreviation h := o.(op_header).
(** The chunks as they travel. *)
Definition sealed_chunk (i : Z) : bytes :=
  prim_gcm_seal o.(op_keys).(data_key) (transfer_chunk_nonce h.(FileHeader_nonce) i) (chunk_plain h content i)
    (transfer_chunk_aad i (i + 1 =? h.(FileHeader_total_chunks))).

Lemma size_xor_at i z n : size (xor_at i z n) = size n.
Proof. unfold xor_at, size. by rewrite length_alter. Qed.
Lemma size_transfer_chunk_nonce n i : size (transfer_chunk_nonce n i) = size n.
Proof. unfold transfer_chunk_nonce. by rewrite !size_xor_at. Qed.
Lemma size_transfer_chunk_aad i b : size (transfer_chunk_aad i b) <= 100.
Proof. unfold transfer_chunk_aad. encode_norm. rewrite !size_app, size_be32. done. Qed.

Lemma numbers : 1 <= h.(FileHeader_total_chunks) < 2 ^ 32 /\ 0 <= h.(FileHeader_file_size) <= MAX_FILE_SIZE /\ size (serialize_file_header h) <= MAX_HEADER_MESSAGE.
Proof. destruct (valid_header_numbers _ _ (md_there _ _ _ _ _ _ _ o_made) (md_valid _ _ _ _ _ _ _ o_made)) as (? & ? & ? & _). auto. Qed.

Lemma step i : 0 <= i < h.(FileHeader_total_chunks) ->
  0 <= chunk_start h i <= size content /\ chunk_start h i + expected_chunk_plaintext_size h i = chunk_start h (i + 1) /\ chunk_start h (i + 1) <= size content /\
  0 <= expected_chunk_plaintext_size h i <= MAX_CHUNK_SIZE.
Proof. apply chunk_step; [apply o_made..|symmetry; apply o_made]. Qed.

Lemma size_plain i : 0 <= i < h.(FileHeader_total_chunks) -> size (chunk_plain h content i) = expected_chunk_plaintext_size h i.
Proof. apply size_chunk_plain; [apply o_made..|symmetry; apply o_made]. Qed.

Lemma size_sealed i : 0 <= i < h.(FileHeader_total_chunks) -> size (sealed_chunk i) = expected_chunk_plaintext_size h i + AEAD_TAG_SIZE.
Proof. intros Hi. unfold sealed_chunk. by rewrite gcm_seal_size, size_plain. Qed.

Lemma encrypt_chunk i : 0 <= i < h.(FileHeader_total_chunks) ->
  encrypt o.(op_keys).(data_key) (transfer_chunk_nonce h.(FileHeader_nonce) i) (chunk_plain h content i)
    (transfer_chunk_aad i (u32 (i + 1) =? h.(FileHeader_total_chunks))) = Ret (sealed_chunk i).
Proof.
  intros Hi. destruct (md_key _ _ _ _ _ _ _ o_made) as [Hk Hn]. destruct numbers as (Ht & _). rewrite u32_small by (unfold in_u32; lia).
  pose proof (step i Hi) as (_ & _ & _ & Hp). pose proof (size_transfer_chunk_aad i (i + 1 =? h.(FileHeader_total_chunks))). unfold MAX_CHUNK_SIZE in Hp.
  apply encrypt_ok; [done|by rewrite size_transfer_chunk_nonce|rewrite size_plain by done; unfold INT_MAX; lia|unfold INT_MAX; lia].
Qed.

Lemma decrypt_chunk i : 0 <= i < h.(FileHeader_total_chunks) ->
  decrypt o.(op_keys).(data_key) (transfer_chunk_nonce h.(FileHeader_nonce) i) (sealed_chunk i)
    (transfer_chunk_aad i (u32 (i + 1) =? h.(FileHeader_total_chunks))) = Ret (Some (chunk_plain h content i)).
Proof.
  intros Hi. destruct (md_key _ _ _ _ _ _ _ o_made) as [Hk Hn]. destruct numbers as (Ht & _). rewrite u32_small by (unfold in_u32; lia).
  pose proof (step i Hi) as (_ & _ & _ & Hp). pose proof (size_transfer_chunk_aad i (i + 1 =? h.(FileHeader_total_chunks))).
  pose proof (size_sealed i Hi) as Hs. unfold MAX_CHUNK_SIZE, AEAD_TAG_SIZE in *.
  rewrite decrypt_ok; [|done|by rewrite size_transfer_chunk_nonce|unfold INT_MAX; lia|unfold INT_MAX; lia].
  unfold sealed_chunk. by rewrite gcm_open_seal.
Qed.

Lemma chunk_payload_ok i : 0 <= i < h.(FileHeader_total_chunks) ->
  deserialize_file_chunk (chunk_payload sealed_chunk i) = Some (mkFileChunk i (sealed_chunk i)) /\ size (chunk_payload sealed_chunk i) <= MAX_CHUNK_MESSAGE.
Proof. apply (chunk_decodes h _ (md_there _ _ _ _ _ _ _ o_made) (md_valid _ _ _ _ _ _ _ o_made)), size_sealed. Qed.

Lemma run_send_file ins dir n : forall i out ev,
  0 <= i -> i + Z.of_nat n = h.(FileHeader_total_chunks) ->
  exists ev', send_file n i h o.(op_keys) content (chunk_start h i) (ready ins out dir ev) =
    (inr (chunk_start h (i + Z.of_nat n)), ready ins (out ++ map (upload_chunk sealed_chunk) (seqZ i (Z.of_nat n))) dir (ev ++ ev')).
Proof.
  destruct numbers as (Ht & Hfs & _). unfold MAX_FILE_SIZE in Hfs.
  induction n as [|n IH]; intros i out ev Hi Hn.
  - exists []. cbn. by rewrite Z.add_0_r, !app_nil_r.
  - cbn [send_file]. rewrite step_cancelled. cbv zeta. pose proof (step i ltac:(lia)) as (Hs1 & Hs2 & Hs3 & Hs4).
    fold (chunk_plain h content i). rewrite size_plain, Z.eqb_refl, andb_false_r by lia.
    rewrite (step_exc _ (sealed_chunk i)) by (apply encrypt_chunk; lia). rewrite step_send. cbn [negb].
    rewrite Hs2. rewrite u64_small by (rewrite (md_size _ _ _ _ _ _ _ o_made) in Hfs; unfold in_u64; lia). rewrite u32_small by (unfold in_u32; lia).
    assert (forall k : unit -> T Z, exists e, tbind (if FileHeader_file_size h =? 0 then progress 1 1 else progress (chunk_start h (i + 1)) (FileHeader_file_size h)) k
      (ready ins (out ++ [(UPLOAD_CHUNK, serialize_file_chunk (mkFileChunk i (sealed_chunk i)))]) dir ev) =
      k tt (ready ins (out ++ [upload_chunk sealed_chunk i]) dir (ev ++ [e]))) as Hprog by (intros k; case_match; eexists; apply step_tell).
    destruct (Hprog (fun _ => send_file n (i + 1) h (op_keys o) content (chunk_start h (i + 1)))) as [e ->].
    destruct (IH (i + 1) (out ++ [upload_chunk sealed_chunk i]) (ev ++ [e]) ltac:(lia) ltac:(lia)) as [ev' ->]. exists (e :: ev').
    rewrite (seqZ_cons i) by lia. replace (Z.pred (Z.of_nat (S n))) with (Z.of_nat n) by lia. replace (Z.succ i) with (i + 1) by lia.
    cbn [map]. rewrite <- !app_assoc. cbn [app]. do 3 f_equal. lia.
Qed.

Lemma run_receive_file ins out part n : forall i dir ev,
  0 <= i -> i + Z.of_nat n = h.(FileHeader_total_chunks) -> dir !! part = Some (ztake (chunk_start h i) content) ->
  exists ev', receive_file n i o part (chunk_start h i) (ready (map (download_chunk sealed_chunk) (seqZ i (Z.of_nat n)) ++ ins) out dir ev) =
    (inr (chunk_start h (i + Z.of_nat n)), ready ins out (<[part := ztake (chunk_start h (i + Z.of_nat n)) content]> dir) (ev ++ ev')).
Proof.
  destruct numbers as (Ht & Hfs & _). unfold MAX_FILE_SIZE in Hfs.
  induction n as [|n IH]; intros i dir ev Hi Hn Hd.
  - exists []. cbn. by rewrite Z.add_0_r, app_nil_r, insert_id.
  - rewrite (seqZ_cons i) by lia. replace (Z.pred (Z.of_nat (S n))) with (Z.of_nat n) by lia. replace (Z.succ i) with (i + 1) by lia.
    cbn [receive_file map app]. pose proof (step i ltac:(lia)) as (Hs1 & Hs2 & Hs3 & Hs4). destruct (chunk_payload_ok i ltac:(lia)) as [Hdec Hsmall].
    rewrite step_cancelled, step_recv, step_cancelled by done. unfold download_chunk at 1. rewrite Hdec. cbn [FileChunk_chunk_index FileChunk_data].
    rewrite Z.eqb_refl. cbn [negb]. rewrite (step_exc _ (Some (chunk_plain h content i))) by (apply decrypt_chunk; lia).
    rewrite size_plain, Z.eqb_refl by lia. cbn [negb].
    set (dir1 := <[part := ztake (chunk_start h (i + 1)) content]> dir).
    assert (forall ins1 (k : unit -> T Z), tbind (if is_empty (chunk_plain h content i) then tret tt else
         do a <- disk; match a with
                       | Works => in_dir (alter (fun b => b ++ chunk_plain h content i) part)
                       | Fails n1 => do _ <- in_dir (alter (fun b => b ++ ztake n1 (chunk_plain h content i)) part); fail "Failed writing to disk (is it full?)"
                       end) k (ready ins1 out dir ev) = k tt (ready ins1 out dir1 ev)) as Hwrite.
    { intros ins1 k. apply step_run. unfold dir1. rewrite <- (chunk_next h content) by (apply o_made || (symmetry; apply o_made) || lia).
      destruct (chunk_plain h content i) as [|b l] eqn:E; cbn [is_empty].
      - by rewrite app_nil_r, insert_id.
      - rewrite step_disk. unfold in_dir, ready. cbn. do 2 f_equal. rewrite <- (insert_id _ _ _ Hd) at 1. by rewrite alter_insert_eq. }
    rewrite Hwrite. rewrite Hs2. rewrite u64_small by (rewrite (md_size _ _ _ _ _ _ _ o_made) in Hfs; unfold in_u64; lia). rewrite u32_small by (unfold in_u32; lia).
    assert (forall ins1 (k : unit -> T Z), exists e, tbind (if FileHeader_file_size h =? 0 then progress 1 1 else progress (chunk_start h (i + 1)) (FileHeader_file_size h)) k
      (ready ins1 out dir1 ev) = k tt (ready ins1 out dir1 (ev ++ [e]))) as Hprog by (intros; destruct (FileHeader_file_size h =? 0); eexists; apply step_tell).
    cbv zeta. destruct (Hprog (map (download_chunk sealed_chunk) (seqZ (i + 1) (Z.of_nat n)) ++ ins) (fun _ => receive_file n (i + 1) o part (chunk_start h (i + 1)))) as [e ->].
    destruct (IH (i + 1) dir1 (ev ++ [e]) ltac:(lia) ltac:(lia) ltac:(apply lookup_insert_eq)) as [ev' ->]. exists (e :: ev').
    rewrite <- app_assoc. unfold dir1. rewrite insert_insert_eq. replace (i + Z.of_nat (S n)) with (i + 1 + Z.of_nat n) by lia. done.
Qed.

(** ** The client's half, from end to end *)

(** A file that can be read. *)
Definition readable (source : Source) : Prop :=
  source.(so_regular) = true /\ source.(so_size) = Some (size content) /\ source.(so_name) = filename /\ source.(so_opens) = true /\
  source.(so_content) = content /\ size content <= MAX_FILE_SIZE /\ size filename <= MAX_FILENAME_BYTES.

Definition upload_requests : list (MessageType * bytes) :=
  (UPLOAD_REQUEST, serialize_file_header h) :: map (upload_chunk sealed_chunk) (seqZ 0 h.(FileHeader_total_chunks)) ++ [(UPLOAD_DONE, [])].

Lemma run_upload_impl source net id ins out dir ev :
  readable source -> signs_with ks_s -> connects net -> is_lower_hex id TRANSFER_ID_HEX_LEN = true ->
  exists ev', upload_impl r ks_s source net recipient (ready ((ACK, id) :: (ACK, str "UPLOAD_COMPLETE") :: ins) out dir ev) =
    (inr tt, ready ins (out ++ upload_requests) dir (ev ++ ev')) /\ OnTransferId id ∈ ev' /\ OnComplete source.(so_path) ∈ ev'.
Proof.
  intros (Hreg & Hsize & Hname & Hopen & Hc & Hmax & Hnmax) (Hlock & Hpub & seed & Hsig) Hnet Hid. destruct numbers as (Ht & Hfs & Hhs).
  assert (load_private_dsa ks_s <> []) as Hpriv.
  { destruct (sig_sizes seed [] [] []) as (_ & Hp & _). rewrite Hsig in Hp. cbn in Hp. destruct secret_sizes as [_ Hpos]. intros E. rewrite E in Hp. unfold size in Hp. cbn in Hp. lia. }
  assert (size id <= MAX_CONTROL_MESSAGE) as Hids.
  { unfold is_lower_hex in Hid. destruct (Z.eqb_spec (size id) TRANSFER_ID_HEX_LEN) as [->|]; done. }
  unfold upload_impl, status. rewrite step_tell, Hlock. cbv zeta. rewrite !not_empty, Hreg, Hsize by done. cbn [orb negb].
  rewrite Hname, Hopen, !(proj2 (Z.ltb_ge _ _)) by done. cbn [negb]. rewrite step_tell.
  rewrite (step_exc _ (h, o.(op_keys))) by apply o_made. rewrite step_tell, step_connect, step_send by done. cbn [negb].
  rewrite step_recv by done. rewrite step_cancelled, Hid. cbn [negb]. rewrite !step_tell, Hc.
  match goal with |- context [ready _ (out ++ ?l1) _ ?ev1] => destruct (run_send_file ((ACK, str "UPLOAD_COMPLETE") :: ins) dir (Z.to_nat h.(FileHeader_total_chunks)) 0 (out ++ l1) ev1 ltac:(done) ltac:(lia)) as [ev' Hsend] end.
  assert (chunk_start h 0 = 0) as E0 by (unfold chunk_start; lia). rewrite E0 in Hsend.
  rewrite Z2Nat.id, Z.add_0_l in Hsend by lia. rewrite (step_run _ _ _ _ _ Hsend). clear Hsend.
  rewrite (chunk_start_end h content) by (apply o_made || (symmetry; apply o_made)). unfold zdrop at 1. rewrite drop_ge by (unfold size; lia). cbn [is_empty negb].
  rewrite step_send. cbn [negb]. rewrite step_recv by done. rewrite step_cancelled. unfold progress. rewrite !step_tell.
  eexists. split; [|split].
  - unfold tell, upload_requests, ready. cbn [tr_in tr_takes tr_out tr_cancelled tr_dir tr_disk tr_events]. rewrite <- !app_assoc. cbn [app]. done.
  - set_solver.
  - set_solver.
Qed.

(** The receiver knows the sender. *)
Definition knows (ks_r ks_s : KeyStore) : Prop :=
  exists name, sender_of ks_r (load_public_dsa ks_r) (fingerprint (load_public_dsa ks_s)) = Some (name, load_public_dsa ks_s).

Definition download_replies : list (MessageType * bytes) :=
  (DOWNLOAD_HEADER, serialize_file_header h) :: map (download_chunk sealed_chunk) (seqZ 0 h.(FileHeader_total_chunks)) ++ [(DOWNLOAD_DONE, [])].

Lemma run_download_impl os_error raw net id p ins out dir ev :
  opens_with ks_r recipient.(co_pub_kem) -> knows ks_r ks_s -> connects net ->
  clean_transfer_id raw = id -> is_lower_hex id TRANSFER_ID_HEX_LEN = true -> unique_output_path dir (sanitize_received_name filename) = Some p ->
  exists ev', download_impl (fun d => d) os_error ks_r raw net (ready (download_replies ++ ins) out dir ev) =
    (inr tt, ready ins (out ++ [(DOWNLOAD_REQUEST, id); (ACK, [])]) (<[p := content]> dir) (ev ++ ev')) /\ OnComplete p ∈ ev'.
Proof.
  intros (Hlock & Hpub & seed & Hkem) (who & Hwho) Hnet Hclean Hid Hp. destruct numbers as (Ht & Hfs & Hhs).
  assert (load_private_kem ks_r <> []) as Hpriv.
  { destruct (kem_sizes seed [] []) as (_ & Hk & _). rewrite Hkem in Hk. cbn in Hk. destruct secret_sizes as [Hpos _]. intros E. rewrite E in Hk. unfold size in Hk. cbn in Hk. lia. }
  unfold download_impl, status. rewrite Hclean. cbv zeta. rewrite Hid, Hlock, !not_empty by done. cbn [orb negb].
  rewrite step_tell, step_connect, step_send by done. cbn [negb]. rewrite step_tell. unfold download_replies. cbn [app]. rewrite step_recv by done.
  rewrite step_cancelled. rewrite (step_exc _ h).
  2:{ unfold check_header. rewrite (md_there _ _ _ _ _ _ _ o_made). cbv zeta. rewrite bool_decide_true by apply o_made. cbn [negb].
      by rewrite (md_kem _ _ _ _ _ _ _ o_made), Z.eqb_refl. }
  rewrite step_tell, (step_exc _ o) by apply o_made. rewrite step_tell. destruct (md_from _ _ _ _ _ _ _ o_made) as [-> ->].
  rewrite Hwho, (md_signed _ _ _ _ _ _ _ o_made). cbn [negb]. rewrite step_tell, step_disk, step_the_dir, Hp, step_disk, step_in_dir.
  apply unique_output_path_free in Hp as (_ & Hfree & Hpart).
  set (part := part_path_for p) in *.
  match goal with |- context [tbind (or_remove part _) _ (ready _ ?o1 ?d1 ?e1)] =>
    destruct (run_receive_file ((DOWNLOAD_DONE, []) :: ins) o1 part (Z.to_nat h.(FileHeader_total_chunks)) 0 d1 e1 ltac:(done) ltac:(lia)) as [ev' Hrecv] end.
  { assert (chunk_start h 0 = 0) as -> by (unfold chunk_start; lia). apply lookup_insert_eq. }
  assert (chunk_start h 0 = 0) as E0 by (unfold chunk_start; lia). rewrite E0 in Hrecv.
  rewrite Z2Nat.id, Z.add_0_l, insert_insert_eq in Hrecv by lia. rewrite <- app_assoc. cbn [app].
  rewrite (chunk_start_end h content) in Hrecv by (apply o_made || (symmetry; apply o_made)). rewrite ztake_all in Hrecv.
  assert (part <> p) as Hne by (unfold part, part_path_for; intros E%(f_equal length); rewrite length_app in E; cbn in E; lia).
  match type of Hrecv with _ = (_, ?t1) => rewrite (step_run (or_remove part _) p _ (ready ins (tr_out t1) (<[p := content]> dir) (tr_events t1))) end.
  2:{ unfold or_remove, save_file. fold part. rewrite (step_run _ _ _ _ _ Hrecv), step_recv, step_cancelled, step_disk by done.
      rewrite (step_run _ tt _ (ready ins _ _ _)) by done. cbn [orb]. rewrite (md_size _ _ _ _ _ _ _ o_made), Z.eqb_refl. cbn [negb].
      rewrite step_in_dir, step_the_dir, lookup_insert_ne, Hfree by done. rewrite (step_run _ p _ (ready ins _ _ _)) by done.
      rewrite step_disk, lookup_insert_eq, step_in_dir. cbn [tret]. unfold tret, ready. cbn [tr_out tr_events]. do 2 f_equal.
      by rewrite delete_insert_id. }
  cbn [tr_out tr_events]. rewrite step_send. unfold progress. rewrite !step_tell. eexists. split.
  - unfold tell, ready. cbn [tr_in tr_takes tr_out tr_cancelled tr_dir tr_disk tr_events]. rewrite <- !app_assoc. cbn [app]. done.
  - set_solver.
Qed.

(** ** The server's half *)

(** A connection's thread, with its guards. *)
Definition served (session : bytes -> prog unit) : prog unit := bind (handle_client session) (fun _ => client_guards).

Lemma run_guards v c : c.(reserving) = None -> c.(claimed) = None ->
  run client_guards v c = (Some tt, with_connections (v.(g_active_connections) - 1) v, with_claimed None c).
Proof.
  intros Hr Hc. unfold client_guards, upload_guard, download_guard. cbn. rewrite Hr. cbn. rewrite Hc. by destruct c; cbn in *; subst.
Qed.

Definition stored_cost : Z := storage_cost h (size (serialize_file_header h)).

Lemma serve_upload session v bound cs :
  bound < 2 ^ 63 -> server_inv bound v cs -> TRANSFER_ID_BYTES <= size v.(random) ->
  let id := bytes_to_hex (ztake TRANSFER_ID_BYTES v.(random)) in
  v.(storage) !! id = None ->
  v.(g_reserved_bytes) + size content + expected_total_chunks (size content) DEFAULT_CHUNK_SIZE * AEAD_TAG_SIZE + MAX_HEADER_MESSAGE <= v.(g_storage_quota) ->
  exists v1 c1, run (served session) v (new_conn upload_requests None []) = (Some tt, v1, c1) /\
    c1.(outbox) = [(ACK, id); (ACK, str "UPLOAD_COMPLETE")] /\
    v1.(g_transfers) !! id = Some (mkStoredTransfer h id v.(steady_now) stored_cost false) /\
    v1.(storage) !! id = Some (stored_dir h (serialize_file_header h) sealed_chunk v.(file_now)).
Proof.
  intros Hb HI Hrand id Hfree Hroom. destruct numbers as (Ht & Hfs & Hhs). rewrite (md_size _ _ _ _ _ _ _ o_made) in Hfs.
  pose proof (table_sum_nonneg bound v cs HI) as H0. pose proof (si_space _ _ _ HI) as H1. destruct (si_bound _ _ _ HI) as [H2 _].
  assert (0 <= sum_by space cs) as H3 by (apply sum_by_nonneg; apply (si_positive _ _ _ HI)).
  assert (stored_cost = size content + h.(FileHeader_total_chunks) * AEAD_TAG_SIZE + size (serialize_file_header h)) as Hcost.
  { unfold stored_cost, storage_cost. rewrite (md_size _ _ _ _ _ _ _ o_made). pose proof (size_nonneg (serialize_file_header h)).
    unfold MAX_FILE_SIZE, AEAD_TAG_SIZE, MAX_HEADER_MESSAGE in *. rewrite (u64_small (_ * _)) by (unfold in_u64; lia).
    rewrite (u64_small (_ + _ * _)) by (unfold in_u64; lia). by rewrite u64_small by (unfold in_u64; lia). }
  rewrite <- (md_chunks _ _ _ _ _ _ _ o_made) in Hroom.
  do 2 eexists. split; [|split; [|split]].
  - unfold served. rewrite run_bind, (run_client session (UPLOAD_REQUEST, serialize_file_header h) _ v (new_conn upload_requests None []) Hhs eq_refl).
    rewrite (run_upload h (serialize_file_header h)) with (data := sealed_chunk) (rest := []); first apply run_guards; try done.
    + apply o_made.
    + apply o_made.
    + apply size_sealed.
    + lia.
    + fold stored_cost. lia.
  - done.
  - cbn. apply lookup_insert_eq.
  - cbn. apply lookup_insert_eq.
Qed.

Lemma serve_download session v bound cs id created now :
  bound < 2 ^ 63 -> server_inv bound v cs -> is_lower_hex id TRANSFER_ID_HEX_LEN = true ->
  v.(g_transfers) !! id = Some (mkStoredTransfer h id created stored_cost false) ->
  v.(storage) !! id = Some (stored_dir h (serialize_file_header h) sealed_chunk now) ->
  exists v1 c1, run (served session) v (new_conn [(DOWNLOAD_REQUEST, id); (ACK, [])] None []) = (Some tt, v1, c1) /\
    c1.(outbox) = download_replies /\ v1.(g_transfers) = delete id v.(g_transfers) /\ v1.(storage) = delete id v.(storage) /\
    v1.(g_reserved_bytes) = v.(g_reserved_bytes) - stored_cost.
Proof.
  intros Hb HI Hid Ht Hst. destruct numbers as (Hn & _).
  pose proof (table_sum_nonneg bound v cs HI) as H0. pose proof (si_space _ _ _ HI) as H1. destruct (si_bound _ _ _ HI) as [_ H2].
  assert (0 <= sum_by space cs) as H3 by (apply sum_by_nonneg; apply (si_positive _ _ _ HI)).
  assert (0 <= table_sum (delete id v.(g_transfers))) as H4.
  { apply sum_by_nonneg. intros [x t] Hin%elem_of_map_to_list. apply lookup_delete_Some in Hin as [_ Hx]. cbn.
    by destruct (table_costs bound v cs x t HI Hx). }
  rewrite (table_sum_delete _ _ _ Ht) in H4. cbn [st_reserved_bytes] in H4. destruct (table_costs bound v cs id _ HI Ht) as [H5 _]. cbn [st_reserved_bytes] in H5.
  do 2 eexists. split; [|split; [|split; [|split]]].
  - unfold served. assert (size id <= MAX_HEADER_MESSAGE) as Hs.
    { unfold is_lower_hex in Hid. destruct (Z.eqb_spec (size id) TRANSFER_ID_HEX_LEN) as [->|]; done. }
    rewrite run_bind, (run_client session (DOWNLOAD_REQUEST, id) [(ACK, [])] v (new_conn [(DOWNLOAD_REQUEST, id); (ACK, [])] None []) Hs eq_refl).
    rewrite (run_download h (serialize_file_header h)) with (data := sealed_chunk) (t := mkStoredTransfer h id created stored_cost false) (now := now) (rest := []);
      first apply run_guards; try done.
    + apply o_made.
    + apply o_made.
    + apply size_sealed.
    + cbn. lia.
    + lia.
  - done.
  - done.
  - done.
  - done.
Qed.
End transfer.

(** C7: a file arrives. A sender whose keys are unlocked uploads a readable file for a
    recipient, to a server with room for it, in any state the server can be in; then the
    client reports the transfer ID that the server chose, and completion, and the thread
    of the server ends with the transfer in its table. Whatever else the server does
    until then, as long as that transfer is still there and nobody else has claimed it: a
    receiver that has the recipient's private key, knows the sender and asks for that ID
    in any spelling of it, saves exactly the sender's bytes under the name it makes safe,
    reports completion, and the server has forgotten the transfer and its files. Both
    clients are the client's own code, run on what the server's own code answers, and the
    other way round. *)
Theorem transfer_arrives session bound r ks_s ks_r source content recipient net_s v cs :
  size r.(rn_nonce) = 12 -> signs_with ks_s -> opens_with ks_r recipient.(co_pub_kem) -> knows ks_r ks_s ->
  readable source.(so_name) content source -> connects net_s ->
  bound < 2 ^ 63 -> server_inv bound v cs -> TRANSFER_ID_BYTES <= size v.(random) ->
  let id := bytes_to_hex (ztake TRANSFER_ID_BYTES v.(random)) in
  v.(storage) !! id = None ->
  v.(g_reserved_bytes) + size content + expected_total_chunks (size content) DEFAULT_CHUNK_SIZE * AEAD_TAG_SIZE + MAX_HEADER_MESSAGE <= v.(g_storage_quota) ->
  exists requests answers v1 c1,
    (forall ins out dir ev, exists ev',
       upload_impl r ks_s source net_s recipient (ready (answers ++ ins) out dir ev) = (inr tt, ready ins (out ++ requests) dir (ev ++ ev')) /\
       OnTransferId id ∈ ev' /\ OnComplete source.(so_path) ∈ ev') /\
    run (served session) v (new_conn requests None []) = (Some tt, v1, c1) /\ c1.(outbox) = answers /\
    forall v2 cs2, server_inv bound v2 cs2 -> v2.(g_transfers) !! id = v1.(g_transfers) !! id -> v2.(storage) !! id = v1.(storage) !! id ->
    exists asks replies v3 c3,
      run (served session) v2 (new_conn asks None []) = (Some tt, v3, c3) /\ c3.(outbox) = replies /\
      v3.(g_transfers) = delete id v2.(g_transfers) /\ v3.(storage) = delete id v2.(storage) /\
      forall os_error raw net_r dir p ins out ev,
        clean_transfer_id raw = id -> connects net_r -> unique_output_path dir (sanitize_received_name source.(so_name)) = Some p ->
        exists ev', download_impl (fun d => d) os_error ks_r raw net_r (ready (replies ++ ins) out dir ev) =
                      (inr tt, ready ins (out ++ asks) (<[p := content]> dir) (ev ++ ev')) /\ OnComplete p ∈ ev'.
Proof.
  intros Hnonce Hsig Hopen Hknows Hread Hnet Hb HI Hrand id Hfree Hroom.
  assert (is_lower_hex id TRANSFER_ID_HEX_LEN = true) as Hid.
  { pose proof (bytes_to_hex_lower (ztake TRANSFER_ID_BYTES v.(random))) as Hl. rewrite size_ztake in Hl; [exact Hl|]. split; [done|exact Hrand]. }
  pose proof Hread as (_ & _ & _ & _ & _ & Hmax & Hname).
  destruct (make_header_ok r ks_s ks_r recipient source.(so_name) (size content) Hnonce Hsig Hopen (conj (size_nonneg _) Hmax) Hname) as [o Ho].
  destruct (serve_upload r ks_s ks_r recipient source.(so_name) content o Ho session v bound cs Hb HI Hrand Hfree Hroom) as (v1 & c1 & Hr1 & Hout1 & Ht1 & Hs1). fold id in Hout1, Ht1, Hs1.
  exists (upload_requests content o). do 3 eexists. split; [|split; [exact Hr1|split; [exact Hout1|]]].
  - intros ins out dir ev. cbn [app]. by apply (run_upload_impl r ks_s ks_r recipient source.(so_name) content o Ho).
  - intros v2 cs2 HI2 Ht2 Hs2. rewrite Ht1 in Ht2. rewrite Hs1 in Hs2.
    destruct (serve_download r ks_s ks_r recipient source.(so_name) content o Ho session v2 bound cs2 id _ _ Hb HI2 Hid Ht2 Hs2) as (v3 & c3 & Hr3 & Hout3 & Hd & Hsd & _).
    do 4 eexists. split; [exact Hr3|]. split; [exact Hout3|]. split; [exact Hd|]. split; [exact Hsd|].
    intros os_error raw net_r dir p ins out ev Hraw Hnetr Hp. by eapply (run_download_impl r ks_s ks_r recipient source.(so_name) content o Ho).
Qed.
End engine.

(** ** An example *)

Definition ex_key : bytes := toy_pad 8 (str "k").
Definition ex_keys : KeyStore :=
  mkKeyStore ∅ (<[PUBLIC_KEM := ex_key]> (<[PRIVATE_KEM := ex_key]> (<[PUBLIC_DSA := ex_key]> (<[PRIVATE_DSA := ex_key]> ∅)))) ∅ [] [] 17.
Definition ex_self : Contact := mkContact (str "me") ex_key ex_key (fingerprint ex_key) true 0 [] [] [] [].
Definition ex_source : Source := mkSource (str "/tmp/a.txt") true (Some 5) (str "a.txt") true (str "hello").
Definition ex_net : Network := mkNetwork (str "host") (Some [false; true]) [].
Definition ex_random : Randomness := mkRandomness (replicate 12 Byte.x02) (str "r") (str "s").
Definition ex_roomy : Server := mkServer ∅ 0 100000 0 ∅ 0 0 (replicate 16 Byte.x04).

(** A thread that ran alone leaves the invariant. *)
Lemma served_inv bound v ins v' c' :
  bound < 2 ^ 63 -> server_inv bound v [] -> run (served ex_session) v (new_conn ins None []) = (Some tt, v', c') -> server_inv bound v' [c'].
Proof.
  intros Hb HI Hr.
  assert (server_inv bound v [new_conn ins None []]) as HI1 by (apply (inv_new_conn bound v v []); done).
  eapply (good_run (server_inv bound) stable) in Hr as [H _]; [done|by apply stable_refl| |exact HI1].
  eapply good_bind; [apply good_client; done|]. intros _ v1 c1 _. by apply good_client_guards.
Qed.

Lemma transfer_arrives_witness :
  exists requests replies dir,
    (exists v1 c1, run (served ex_session) ex_roomy (new_conn requests None []) = (Some tt, v1, c1)) /\
    (exists ev, download_impl (fun d => d) [] ex_keys (str " 04040404040404040404040404040404") ex_net (ready replies [] ∅ []) =
       (inr tt, ready [] dir (<[str "a.txt" := str "hello"]> ∅) ev)).
Proof.
  destruct (transfer_arrives ex_session 100000 ex_random ex_keys ex_keys ex_source (str "hello") ex_self ex_net ex_roomy [])
    as (requests & answers & v1 & c1 & _ & Hr & _ & Hdown).
  - by vm_compute.
  - split_and!; [by vm_compute|by vm_compute|]. exists (str "k"). by vm_compute.
  - split_and!; [by vm_compute|by vm_compute|]. exists (str "k"). by vm_compute.
  - exists (str "yourself"). by vm_compute.
  - repeat split; by vm_compute.
  - exists [false; true]. split; [done|set_solver].
  - done.
  - by apply empty_inv.
  - by vm_compute.
  - by vm_compute.
  - by vm_compute.
  - destruct (Hdown v1 [c1]) as (asks & replies & v3 & c3 & _ & _ & _ & _ & Hget); [by eapply served_inv; [| |exact Hr]; [done|apply empty_inv]|done..|].
    destruct (Hget [] (str " 04040404040404040404040404040404") ex_net ∅ (str "a.txt") [] [] []) as (ev & Hg & _);
      [by vm_compute|exists [false; true]; split; [done|set_solver]|by vm_compute|].
    rewrite app_nil_r in Hg. exists requests, replies, asks. split; [by exists v1, c1|]. by exists ev.
Defined.

Definition ex_id : bytes := str "04040404040404040404040404040404".
Definition ex_requests : list (MessageType * bytes) :=
  (upload_impl ex_random ex_keys ex_source ex_net ex_self (ready [(ACK, ex_id); (ACK, str "UPLOAD_COMPLETE")] [] ∅ [])).2.(tr_out).
(** What the server answers to the download of what [ex_requests] has uploaded. *)
Definition ex_replies : list (MessageType * bytes) :=
  let '(_, v, _) := run (served ex_session) ex_roomy (new_conn ex_requests None []) in
  let '(_, _, c) := run (served ex_session) v (new_conn [(DOWNLOAD_REQUEST, ex_id); (ACK, [])] None []) in c.(outbox).
(** While it runs, another program writes a file of the name that the download chose. *)
Definition ex_meanwhile (d : Folder) : Folder := <[str "a.txt" := str "other"]> d.

Lemma ex_meanwhile_parts d n : ex_meanwhile d !! part_path_for n = d !! part_path_for n.
Proof.
  unfold ex_meanwhile. apply lookup_insert_ne. intros H. unfold part_path_for in H.
  by apply (f_equal reverse) in H; rewrite reverse_app in H.
Qed.

Lemma download_saves_only_signed_witness :
  exists t' opened content p,
    download_impl ex_meanwhile [] ex_keys ex_id ex_net (ready ex_replies [] ∅ []) = (inr tt, t') /\
    downloaded ex_keys (ready ex_replies [] ∅ []) t' opened content /\
    t'.(tr_dir) !! str "a.txt" = Some (str "other") /\ t'.(tr_dir) !! p = Some content.
Proof.
  destruct (download_impl ex_meanwhile [] ex_keys ex_id ex_net (ready ex_replies [] ∅ [])) as [r t'] eqn:E.
  assert (r = inr tt) as -> by (replace r with (r, t').1 by done; rewrite <- E; by vm_compute).
  destruct (download_saves_only_signed _ _ _ _ _ _ _ ex_meanwhile_parts E) as (opened & content & p0 & p & d & Hd & _ & _ & Hdd & Hp & Hdir).
  exists t', opened, content, p. split; [done|]. split; [exact Hd|]. split; [|rewrite Hdir; apply lookup_insert_eq].
  change t' with (inr tt : thrown + unit, t').2. rewrite <- E. by vm_compute.
Defined.

(** The connection is lost after the only chunk: the temporary file is removed. *)
Lemma failed_download_leaves_nothing_witness :
  let t := ready (take 2 ex_replies) [] {[str "a.txt" := str "mine"]} [] in
  exists e t', download_impl ex_meanwhile [] ex_keys ex_id ex_net t = (inl e, t') /\ ((t'.(tr_dir) = t.(tr_dir)) \/
    exists p0 x d, (d = <[part_path_for p0 := x]> t.(tr_dir) \/ d = ex_meanwhile (<[part_path_for p0 := x]> t.(tr_dir))) /\
      t'.(tr_dir) = delete (part_path_for p0) d).
Proof.
  intros t. destruct (download_impl ex_meanwhile [] ex_keys ex_id ex_net t) as [[e|[]] t'] eqn:E.
  2:{ exfalso. assert (match (download_impl ex_meanwhile [] ex_keys ex_id ex_net t).1 with inl _ => true | inr _ => false end = true) as H by (by vm_compute). by rewrite E in H. }
  exists e, t'. split; [done|]. destruct (failed_download_leaves_nothing _ _ _ _ _ _ _ _ E) as [H|(p0 & x & d & _ & _ & Hd & _ & H)]; [by left|].
  right. exists p0, x, d. split; [exact Hd|]. by apply H.
Defined.
