(* ===== verification/ServerMain.v ===== *)
(** * The server's entry point: the second half of server/main.cpp

    The command line, the folder for the storage, the operator's tools (an invite, the
    list of the mailboxes, removing one), and what is decided before the server listens.
    The relay is that of [RelayState]; what the system answers (the environment, folders,
    the network) is the record [Machine]. What goes to the error output, the usage and
    the notes printed before listening are left out. *)

From Stdlib Require Import ZArith Lia.
From stdpp Require Import base list strings.
From S2P Require Import Prelude Threads Wire Text Protocol Crypto RelayStore RelayState RelayService.
#[local] Open Scope Z_scope.
#[local] Open Scope prog_scope.

(** src/server/main.cpp 37-37 DEFAULT_PORT *)
Definition DEFAULT_PORT : Z := 9000.
(** src/server/main.cpp 62-62 g_storage_quota *)
Definition DEFAULT_QUOTA : Z := 50 * 1024 * 1024 * 1024.

(** ** Numbers on the command line *)

Fixpoint take_digits (s : bytes) : bytes :=
  match s with
  | c :: s => if is_digit c then c :: take_digits s else []
  | [] => []
  end.

(** What [std::stoull] and its like read: white space, a sign, digits, and whatever
    follows; nothing without a digit. *)
Definition std_number (s : bytes) : option (bool * Z) :=
  let s := drop_front is_space s in
  let '(neg, s) := match s with
                   | c :: rest => if decide (c = chr 45) then (true, rest) else if decide (c = chr 43) then (false, rest) else (false, s)
                   | [] => (false, [])
                   end in
  let ds := take_digits s in
  if is_empty ds then None else Some (neg, Text.stoul ds).

(** [std::stoul] and [std::stoull], where both have 64 bits: the size is checked, then
    the sign is applied modulo 2^64. *)
Definition std_stoull (s : bytes) : option Z :=
  let? (neg, n) := std_number s in
  if 2 ^ 64 <=? n then None else Some (if neg : bool then u64 (- n) else n).
(** [std::stoi]. *)
Definition std_stoi (s : bytes) : option Z :=
  let? (neg, n) := std_number s in
  let n := if neg : bool then - n else n in
  if (- 2 ^ 31 <=? n) && (n <? 2 ^ 31) then Some n else None.

(** ** Options *)

Definition set_max_archives (z : Z) (l : RelayLimits) : RelayLimits :=
  mkRelayLimits l.(mailbox_quota_bytes) l.(max_mailboxes) l.(max_tokens_per_mailbox) l.(rate_limit_per_minute) l.(sweep_seconds)
    l.(invite_lifetime_seconds) l.(member_invites_outstanding) l.(member_invites_total) z l.(archive_quota_bytes)
    l.(archive_join_window_seconds) l.(keyring_max_bytes) l.(max_prekeys) l.(prekey_takes_per_hour) l.(max_attachment_bytes)
    l.(attachment_quota_bytes) l.(attachment_max_seconds) l.(abandoned_upload_seconds) l.(idle_timeout_seconds) l.(poll_millis).
Definition set_max_prekeys (z : Z) (l : RelayLimits) : RelayLimits :=
  mkRelayLimits l.(mailbox_quota_bytes) l.(max_mailboxes) l.(max_tokens_per_mailbox) l.(rate_limit_per_minute) l.(sweep_seconds)
    l.(invite_lifetime_seconds) l.(member_invites_outstanding) l.(member_invites_total) l.(max_archives) l.(archive_quota_bytes)
    l.(archive_join_window_seconds) l.(keyring_max_bytes) z l.(prekey_takes_per_hour) l.(max_attachment_bytes)
    l.(attachment_quota_bytes) l.(attachment_max_seconds) l.(abandoned_upload_seconds) l.(idle_timeout_seconds) l.(poll_millis).
Definition set_prekey_takes_per_hour (z : Z) (l : RelayLimits) : RelayLimits :=
  mkRelayLimits l.(mailbox_quota_bytes) l.(max_mailboxes) l.(max_tokens_per_mailbox) l.(rate_limit_per_minute) l.(sweep_seconds)
    l.(invite_lifetime_seconds) l.(member_invites_outstanding) l.(member_invites_total) l.(max_archives) l.(archive_quota_bytes)
    l.(archive_join_window_seconds) l.(keyring_max_bytes) l.(max_prekeys) z l.(max_attachment_bytes) l.(attachment_quota_bytes)
    l.(attachment_max_seconds) l.(abandoned_upload_seconds) l.(idle_timeout_seconds) l.(poll_millis).
Definition set_max_attachment_bytes (z : Z) (l : RelayLimits) : RelayLimits :=
  mkRelayLimits l.(mailbox_quota_bytes) l.(max_mailboxes) l.(max_tokens_per_mailbox) l.(rate_limit_per_minute) l.(sweep_seconds)
    l.(invite_lifetime_seconds) l.(member_invites_outstanding) l.(member_invites_total) l.(max_archives) l.(archive_quota_bytes)
    l.(archive_join_window_seconds) l.(keyring_max_bytes) l.(max_prekeys) l.(prekey_takes_per_hour) z l.(attachment_quota_bytes)
    l.(attachment_max_seconds) l.(abandoned_upload_seconds) l.(idle_timeout_seconds) l.(poll_millis).
Definition set_attachment_quota_bytes (z : Z) (l : RelayLimits) : RelayLimits :=
  mkRelayLimits l.(mailbox_quota_bytes) l.(max_mailboxes) l.(max_tokens_per_mailbox) l.(rate_limit_per_minute) l.(sweep_seconds)
    l.(invite_lifetime_seconds) l.(member_invites_outstanding) l.(member_invites_total) l.(max_archives) l.(archive_quota_bytes)
    l.(archive_join_window_seconds) l.(keyring_max_bytes) l.(max_prekeys) l.(prekey_takes_per_hour) l.(max_attachment_bytes) z
    l.(attachment_max_seconds) l.(abandoned_upload_seconds) l.(idle_timeout_seconds) l.(poll_millis).
Definition set_attachment_max_seconds (z : Z) (l : RelayLimits) : RelayLimits :=
  mkRelayLimits l.(mailbox_quota_bytes) l.(max_mailboxes) l.(max_tokens_per_mailbox) l.(rate_limit_per_minute) l.(sweep_seconds)
    l.(invite_lifetime_seconds) l.(member_invites_outstanding) l.(member_invites_total) l.(max_archives) l.(archive_quota_bytes)
    l.(archive_join_window_seconds) l.(keyring_max_bytes) l.(max_prekeys) l.(prekey_takes_per_hour) l.(max_attachment_bytes)
    l.(attachment_quota_bytes) z l.(abandoned_upload_seconds) l.(idle_timeout_seconds) l.(poll_millis).
Definition set_keyring_max_bytes (z : Z) (l : RelayLimits) : RelayLimits :=
  mkRelayLimits l.(mailbox_quota_bytes) l.(max_mailboxes) l.(max_tokens_per_mailbox) l.(rate_limit_per_minute) l.(sweep_seconds)
    l.(invite_lifetime_seconds) l.(member_invites_outstanding) l.(member_invites_total) l.(max_archives) l.(archive_quota_bytes)
    l.(archive_join_window_seconds) z l.(max_prekeys) l.(prekey_takes_per_hour) l.(max_attachment_bytes) l.(attachment_quota_bytes)
    l.(attachment_max_seconds) l.(abandoned_upload_seconds) l.(idle_timeout_seconds) l.(poll_millis).
Definition set_archive_quota_bytes (z : Z) (l : RelayLimits) : RelayLimits :=
  mkRelayLimits l.(mailbox_quota_bytes) l.(max_mailboxes) l.(max_tokens_per_mailbox) l.(rate_limit_per_minute) l.(sweep_seconds)
    l.(invite_lifetime_seconds) l.(member_invites_outstanding) l.(member_invites_total) l.(max_archives) z
    l.(archive_join_window_seconds) l.(keyring_max_bytes) l.(max_prekeys) l.(prekey_takes_per_hour) l.(max_attachment_bytes)
    l.(attachment_quota_bytes) l.(attachment_max_seconds) l.(abandoned_upload_seconds) l.(idle_timeout_seconds) l.(poll_millis).
Definition set_member_invites_outstanding (z : Z) (l : RelayLimits) : RelayLimits :=
  mkRelayLimits l.(mailbox_quota_bytes) l.(max_mailboxes) l.(max_tokens_per_mailbox) l.(rate_limit_per_minute) l.(sweep_seconds)
    l.(invite_lifetime_seconds) z l.(member_invites_total) l.(max_archives) l.(archive_quota_bytes) l.(archive_join_window_seconds)
    l.(keyring_max_bytes) l.(max_prekeys) l.(prekey_takes_per_hour) l.(max_attachment_bytes) l.(attachment_quota_bytes)
    l.(attachment_max_seconds) l.(abandoned_upload_seconds) l.(idle_timeout_seconds) l.(poll_millis).
Definition set_member_invites_total (z : Z) (l : RelayLimits) : RelayLimits :=
  mkRelayLimits l.(mailbox_quota_bytes) l.(max_mailboxes) l.(max_tokens_per_mailbox) l.(rate_limit_per_minute) l.(sweep_seconds)
    l.(invite_lifetime_seconds) l.(member_invites_outstanding) z l.(max_archives) l.(archive_quota_bytes)
    l.(archive_join_window_seconds) l.(keyring_max_bytes) l.(max_prekeys) l.(prekey_takes_per_hour) l.(max_attachment_bytes)
    l.(attachment_quota_bytes) l.(attachment_max_seconds) l.(abandoned_upload_seconds) l.(idle_timeout_seconds) l.(poll_millis).
Definition set_mailbox_quota_bytes (z : Z) (l : RelayLimits) : RelayLimits :=
  mkRelayLimits z l.(max_mailboxes) l.(max_tokens_per_mailbox) l.(rate_limit_per_minute) l.(sweep_seconds)
    l.(invite_lifetime_seconds) l.(member_invites_outstanding) l.(member_invites_total) l.(max_archives) l.(archive_quota_bytes)
    l.(archive_join_window_seconds) l.(keyring_max_bytes) l.(max_prekeys) l.(prekey_takes_per_hour) l.(max_attachment_bytes)
    l.(attachment_quota_bytes) l.(attachment_max_seconds) l.(abandoned_upload_seconds) l.(idle_timeout_seconds) l.(poll_millis).
Definition set_rate_limit_per_minute (z : Z) (l : RelayLimits) : RelayLimits :=
  mkRelayLimits l.(mailbox_quota_bytes) l.(max_mailboxes) l.(max_tokens_per_mailbox) z l.(sweep_seconds) l.(invite_lifetime_seconds)
    l.(member_invites_outstanding) l.(member_invites_total) l.(max_archives) l.(archive_quota_bytes) l.(archive_join_window_seconds)
    l.(keyring_max_bytes) l.(max_prekeys) l.(prekey_takes_per_hour) l.(max_attachment_bytes) l.(attachment_quota_bytes)
    l.(attachment_max_seconds) l.(abandoned_upload_seconds) l.(idle_timeout_seconds) l.(poll_millis).
Definition set_sweep_seconds (z : Z) (l : RelayLimits) : RelayLimits :=
  mkRelayLimits l.(mailbox_quota_bytes) l.(max_mailboxes) l.(max_tokens_per_mailbox) l.(rate_limit_per_minute) z
    l.(invite_lifetime_seconds) l.(member_invites_outstanding) l.(member_invites_total) l.(max_archives) l.(archive_quota_bytes)
    l.(archive_join_window_seconds) l.(keyring_max_bytes) l.(max_prekeys) l.(prekey_takes_per_hour) l.(max_attachment_bytes)
    l.(attachment_quota_bytes) l.(attachment_max_seconds) l.(abandoned_upload_seconds) l.(idle_timeout_seconds) l.(poll_millis).

(** src/server/main.cpp 541-553 main *)
Record Options := mkOptions {
  op_port : Z;
  op_limits : RelayLimits;
  op_create_invite : bool;
  op_public_address : bytes;
  op_bind_text : bytes;
  op_bind_addr : Z;
  op_storage : bytes;
  op_storage_explicit : bool;
  op_allow_new_identity : bool;
  op_list_mailboxes : bool;
  op_with_invitees : bool;
  op_remove_prefix : bytes;
  op_quota : Z;
}.

Definition on_limits (f : RelayLimits -> RelayLimits) (o : Options) : Options :=
  mkOptions o.(op_port) (f o.(op_limits)) o.(op_create_invite) o.(op_public_address) o.(op_bind_text) o.(op_bind_addr) o.(op_storage)
    o.(op_storage_explicit) o.(op_allow_new_identity) o.(op_list_mailboxes) o.(op_with_invitees) o.(op_remove_prefix) o.(op_quota).

(** An option that takes no value.
    src/server/main.cpp 567-576 main *)
Definition flag (arg : bytes) (o : Options) : option Options :=
  if bool_decide (arg = str "--create-invite") then
    Some (mkOptions o.(op_port) o.(op_limits) true o.(op_public_address) o.(op_bind_text) o.(op_bind_addr) o.(op_storage)
            o.(op_storage_explicit) o.(op_allow_new_identity) o.(op_list_mailboxes) o.(op_with_invitees) o.(op_remove_prefix) o.(op_quota))
  else if bool_decide (arg = str "--allow-new-identity") then
    Some (mkOptions o.(op_port) o.(op_limits) o.(op_create_invite) o.(op_public_address) o.(op_bind_text) o.(op_bind_addr) o.(op_storage)
            o.(op_storage_explicit) true o.(op_list_mailboxes) o.(op_with_invitees) o.(op_remove_prefix) o.(op_quota))
  else if bool_decide (arg = str "--list-mailboxes") then
    Some (mkOptions o.(op_port) o.(op_limits) o.(op_create_invite) o.(op_public_address) o.(op_bind_text) o.(op_bind_addr) o.(op_storage)
            o.(op_storage_explicit) o.(op_allow_new_identity) true o.(op_with_invitees) o.(op_remove_prefix) o.(op_quota))
  else if bool_decide (arg = str "--with-invitees") then
    Some (mkOptions o.(op_port) o.(op_limits) o.(op_create_invite) o.(op_public_address) o.(op_bind_text) o.(op_bind_addr) o.(op_storage)
            o.(op_storage_explicit) o.(op_allow_new_identity) o.(op_list_mailboxes) true o.(op_remove_prefix) o.(op_quota))
  else None.

Section parsing.
(** [inet_pton(AF_INET, ...)]. *)
Variable inet_pton : bytes -> option Z.

(** An option with its value; the inner [None] is an exception, whose option is named as
    invalid. A product past the end of a 64-bit number wraps; the days are a signed
    number, for which the language leaves that open.
    src/server/main.cpp 559-610 main *)
Definition option_value (arg value : bytes) (o : Options) : option (option Options) :=
  let number (k : Z -> Options) := Some (k <$> std_stoull value) in
  let limit (set : Z -> RelayLimits -> RelayLimits) (unit : Z) := number (fun n => on_limits (set (u64 (n * unit))) o) in
  let named text := bool_decide (arg = str text) in
  if named "--port" then
    Some (let? p := std_stoull value in
          if (p =? 0) || (65535 <? p) then None else
          Some (mkOptions p o.(op_limits) o.(op_create_invite) o.(op_public_address) o.(op_bind_text) o.(op_bind_addr) o.(op_storage)
                  o.(op_storage_explicit) o.(op_allow_new_identity) o.(op_list_mailboxes) o.(op_with_invitees) o.(op_remove_prefix) o.(op_quota)))
  else if named "--bind" then
    Some (let? a := inet_pton value in
          Some (mkOptions o.(op_port) o.(op_limits) o.(op_create_invite) o.(op_public_address) value a o.(op_storage)
                  o.(op_storage_explicit) o.(op_allow_new_identity) o.(op_list_mailboxes) o.(op_with_invitees) o.(op_remove_prefix) o.(op_quota)))
  else if named "--remove-mailbox" then
    Some (Some (mkOptions o.(op_port) o.(op_limits) o.(op_create_invite) o.(op_public_address) o.(op_bind_text) o.(op_bind_addr) o.(op_storage)
                  o.(op_storage_explicit) o.(op_allow_new_identity) o.(op_list_mailboxes) o.(op_with_invitees) value o.(op_quota)))
  else if named "--max-archives" then limit set_max_archives 1
  else if named "--max-prekeys" then number (fun n => on_limits (set_max_prekeys (u32 n)) o)
  else if named "--prekey-takes-per-hour" then number (fun n => on_limits (set_prekey_takes_per_hour (u32 n)) o)
  else if named "--max-attachment-mib" then limit set_max_attachment_bytes (1024 * 1024)
  else if named "--attachment-quota-mib" then limit set_attachment_quota_bytes (1024 * 1024)
  else if named "--attachment-max-days" then number (fun n => on_limits (set_attachment_max_seconds (i64 (i64 n * 86400))) o)
  else if named "--keyring-max-kib" then limit set_keyring_max_bytes 1024
  else if named "--archive-quota-mib" then limit set_archive_quota_bytes (1024 * 1024)
  else if named "--member-invites" then limit set_member_invites_outstanding 1
  else if named "--member-invites-total" then limit set_member_invites_total 1
  else if named "--public-address" then
    Some (Some (mkOptions o.(op_port) o.(op_limits) o.(op_create_invite) value o.(op_bind_text) o.(op_bind_addr) o.(op_storage)
                  o.(op_storage_explicit) o.(op_allow_new_identity) o.(op_list_mailboxes) o.(op_with_invitees) o.(op_remove_prefix) o.(op_quota)))
  else if named "--mailbox-quota-kib" then limit set_mailbox_quota_bytes 1024
  else if named "--rate-limit" then Some ((fun n => on_limits (set_rate_limit_per_minute n) o) <$> std_stoi value)
  else if named "--sweep-seconds" then
    Some (let? n := std_stoi value in if n <? 1 then None else Some (on_limits (set_sweep_seconds n) o))
  else if named "--storage" then
    Some (Some (mkOptions o.(op_port) o.(op_limits) o.(op_create_invite) o.(op_public_address) o.(op_bind_text) o.(op_bind_addr) value
                  true o.(op_allow_new_identity) o.(op_list_mailboxes) o.(op_with_invitees) o.(op_remove_prefix) o.(op_quota)))
  else if named "--quota-gb" then
    number (fun n => mkOptions o.(op_port) o.(op_limits) o.(op_create_invite) o.(op_public_address) o.(op_bind_text) o.(op_bind_addr) o.(op_storage)
                       o.(op_storage_explicit) o.(op_allow_new_identity) o.(op_list_mailboxes) o.(op_with_invitees) o.(op_remove_prefix)
                       (u64 (u64 (u64 (n * 1024) * 1024) * 1024)))
  else None.

(** The arguments, or what the process ends with: 0 for help, 1 for what is not
    understood. An argument that is not an option with its value, nor one without, is
    answered with the usage.
    src/server/main.cpp 555-619 main *)
Fixpoint parse_args (args : list bytes) (o : Options) : Z + Options :=
  match args with
  | [] => inr o
  | arg :: rest =>
      let unknown := inl (if bool_decide (arg = str "--help") || bool_decide (arg = str "-h") then 0 else 1) in
      match flag arg o with
      | Some o => parse_args rest o
      | None =>
          match rest with
          | [] => unknown
          | value :: rest =>
              match option_value arg value o with
              | None => unknown
              | Some None => inl 1
              | Some (Some o) => parse_args rest o
              end
          end
      end
  end.
End parsing.

(** ** Texts *)

(** A number of at least [width] digits, as of [%0*lld]. *)
Definition zero_padded (width : nat) (n : Z) : bytes :=
  if n <? 0 then let ds := Text.to_string (- n) in chr 45 :: replicate (width - 1 - length ds) (chr 48) ++ ds
  else let ds := Text.to_string n in replicate (width - length ds) (chr 48) ++ ds.

(** Year, month and day of a day after 1970-01-01; the language divides towards zero.
    src/server/main.cpp 521-528 format_time *)
Definition civil_date (days : Z) : Z * Z * Z :=
  let days := days + 719468 in
  let era := Z.quot (if 0 <=? days then days else days - 146096) 146097 in
  let doe := days - era * 146097 in
  let yoe := Z.quot (doe - Z.quot doe 1460 + Z.quot doe 36524 - Z.quot doe 146096) 365 in
  let doy := doe - (365 * yoe + Z.quot yoe 4 - Z.quot yoe 100) in
  let mp := Z.quot (5 * doy + 2) 153 in
  let day := doy - Z.quot (153 * mp + 2) 5 + 1 in
  let month := if mp <? 10 then mp + 3 else mp - 9 in
  let year := yoe + era * 400 + (if month <=? 2 then 1 else 0) in
  (year, month, day).

(** src/server/main.cpp 517-534 format_time *)
Definition format_time (t : Z) : bytes :=
  let days := Z.quot t 86400 in
  let secs := Z.rem t 86400 in
  let '(days, secs) := if secs <? 0 then (days - 1, secs + 86400) else (days, secs) in
  let '(year, month, day) := civil_date days in
  zero_padded 4 year ++ str "-" ++ zero_padded 2 month ++ str "-" ++ zero_padded 2 day ++ str " " ++
  zero_padded 2 (Z.quot secs 3600) ++ str ":" ++ zero_padded 2 (Z.quot (Z.rem secs 3600) 60).

(** src/server/main.cpp 536-538 short_mailbox *)
Definition short_mailbox (id : bytes) : bytes := ztake 12 (bytes_to_hex id).

(** ** The operator's tools *)

(** Who vouched for a mailbox.
    src/server/main.cpp 674-680 main *)
Definition invited_by_text (all : list Member) (m : Member) : bytes :=
  if is_empty m.(Member_invited_by) then str "operator" else
  let by_ := short_mailbox m.(Member_invited_by) in
  if existsb (fun other => bool_decide (other.(Member_id) = m.(Member_invited_by))) all then by_ else by_ ++ str "*".

(** src/server/main.cpp 673-683 main *)
Definition member_line (all : list Member) (m : Member) : bytes :=
  let by_ := invited_by_text all m in
  let by_padded := by_ ++ (if size by_ <? 12 then replicate (12 - length by_) (chr 32) else []) in
  str "  " ++ short_mailbox m.(Member_id) ++ str "  " ++ format_time m.(Member_created_at) ++ str "  " ++ by_padded ++ str "  "
  ++ Text.to_string m.(Member_envelopes).

(** The lines that are printed.
    src/server/main.cpp 668-686 main *)
Definition list_mailboxes : prog (list bytes) :=
  let* all := query members in
  let first := str "Mailboxes on this relay: " ++ Text.to_string (Z.of_nat (length all)) in
  if bool_decide (all = []) then Done [first] else
  Done ([first; str "  ID            Created           Invited by    Queued"] ++ map (member_line all) all ++
        [str "(* = the mailbox that vouched for this one has been removed)"]).

(** [hex.rfind(prefix, 0) == 0]. *)
Definition begins_with (prefix s : bytes) : bool := bool_decide (take (length prefix) s = prefix).

(** What the process ends with, and the lines that are printed. The inner [None]
    is that of [RelayService.remove_mailbox].
    src/server/main.cpp 687-706 main *)
Definition remove_by_prefix (remove_prefix : bytes) (with_invitees : bool) : prog (option (Z * list bytes)) :=
  let prefix := map to_lower remove_prefix in
  if size prefix <? 8 then Done (Some (1, [])) else
  let* all := query members in
  match filter (fun m => begins_with prefix (bytes_to_hex m.(Member_id)) = true) all with
  | [m] =>
      let found := m.(Member_id) in
      let* all := query members in
      let invited := Z.of_nat (length (filter (fun m => m.(Member_invited_by) = found) all)) in
      let* removed := remove_mailbox found with_invitees in
      Done (let? removed := removed in
        Some (0, (str "Removed " ++ Text.to_string removed ++ str " mailbox(es). Their owners can no longer sign in, and anything queued for them is gone.") ::
          if negb with_invitees && negb (invited =? 0)
          then [Text.to_string invited ++ str " mailbox(es) it invited were left alone; add --with-invitees to remove those too."] else []))
  | _ => Done (Some (1, []))
  end.

(** [code] in groups of four.
    src/server/main.cpp 709-710 main *)
Fixpoint grouped_loop (fuel : nat) (code : bytes) : bytes :=
  match fuel, code with
  | O, _ | _, [] => []
  | S fuel, _ => ztake 4 code ++ match zdrop 4 code with [] => [] | rest => chr 45 :: grouped_loop fuel rest end
  end.
Definition grouped (code : bytes) : bytes := grouped_loop (length code) code.

(** src/server/main.cpp 707-720 main *)
Definition print_invite `{Primitives} (limits : RelayLimits) (relay_id relay_dir public_address : bytes) : prog (list bytes) :=
  let* code := create_invite limits in
  Done ([str "Invite code:  " ++ grouped code;
         str "Relay ID:     " ++ bytes_to_hex relay_id;
         str "Relay state:  " ++ relay_dir] ++
        if negb (is_empty public_address)
        then [str "Invite string (give this to the person; it works once and expires in 14 days):";
              str "  pqft-relay://" ++ public_address ++ str "/" ++ bytes_to_hex relay_id ++ str "/" ++ code]
        else [str "Add --public-address HOST:PORT to also print a ready-to-paste invite string."]).

(** ** The folder *)

(** [base / name]. *)
Definition joined (base name : bytes) : bytes :=
  match last base with Some c => if decide (c = chr 47) then base ++ name else base ++ chr 47 :: name | None => name end.

(** src/server/main.cpp 398-408 default_storage_dir *)
Definition default_storage_dir (tmpdir : option bytes) (euid : Z) : bytes :=
  let base := match tmpdir with Some (c :: tmp) => c :: tmp | _ => str "/tmp" end in
  joined base (str "pq-transfer-" ++ Text.to_string euid).

(** What the system says of the folder: whether it is a symbolic link, whether it was
    created or there, what [lstat] finds (a folder or not, and its owner), and whether
    its permissions could be set. *)
Record FolderAnswers := mkFolderAnswers { fo_symlink : bool; fo_created : bool; fo_stat : option (bool * Z); fo_chmod : bool }.

(** src/server/main.cpp 410-433 prepare_storage_dir *)
Definition prepare_storage_dir (a : FolderAnswers) (euid : Z) : bool :=
  if a.(fo_symlink) then false else
  if negb a.(fo_created) then false else
  match a.(fo_stat) with
  | Some (is_dir, uid) => if negb is_dir || negb (uid =? euid) then false else a.(fo_chmod)
  | None => false
  end.

(** ** From the start to the listening *)

(** [ma_relay]: whether the relay starts, with its ID. *)
Record Machine := mkMachine {
  ma_env_dir : option bytes;
  ma_tmpdir : option bytes;
  ma_euid : Z;
  ma_network : bool;
  ma_absolute : bytes -> option bytes;
  ma_folder : bytes -> FolderAnswers;
  ma_identity : bytes -> bool;
  ma_relay : bytes -> option bytes;
  ma_inet_pton : bytes -> option Z;
}.

(** The process ends, having printed some lines; or it goes on to listen. *)
Inductive ending :=
  | Exits (code : Z) (printed : list bytes)
  | Listens (o : Options).

(** src/server/main.cpp 541-553 main *)
Definition start_options (ma : Machine) : Options :=
  let explicit := match ma.(ma_env_dir) with Some (_ :: _) => true | _ => false end in
  mkOptions DEFAULT_PORT default_limits false [] (str "0.0.0.0") 0
    (match ma.(ma_env_dir) with Some (c :: dir) => c :: dir | _ => default_storage_dir ma.(ma_tmpdir) ma.(ma_euid) end)
    explicit false false false [] DEFAULT_QUOTA.

(** [None] as in [remove_by_prefix].
    src/server/main.cpp 621-720 main *)
Definition server_main `{Primitives} (ma : Machine) (argv : list bytes) : prog (option ending) :=
  match parse_args ma.(ma_inet_pton) argv (start_options ma) with
  | inl code => Done (Some (Exits code []))
  | inr o =>
      let fails := Done (Some (Exits 1 [])) in
      if negb ma.(ma_network) then fails else
      let dir := match ma.(ma_absolute) o.(op_storage) with Some dir => dir | None => o.(op_storage) end in
      if negb (prepare_storage_dir (ma.(ma_folder) dir) ma.(ma_euid)) then fails else
      let relay_dir := joined dir (str "v3") in
      if (o.(op_list_mailboxes) || negb (is_empty o.(op_remove_prefix))) && negb (ma.(ma_identity) relay_dir) then fails else
      if o.(op_create_invite) && negb o.(op_allow_new_identity) && negb (ma.(ma_identity) relay_dir) then fails else
      match ma.(ma_relay) relay_dir with
      | None => fails
      | Some relay_id =>
          if o.(op_list_mailboxes) then let* lines := list_mailboxes in Done (Some (Exits 0 lines)) else
          if negb (is_empty o.(op_remove_prefix)) then
            let* r := remove_by_prefix o.(op_remove_prefix) o.(op_with_invitees) in
            Done (let? (code, lines) := r in Some (Exits code lines))
          else if o.(op_create_invite) then
            let* lines := print_invite o.(op_limits) relay_id relay_dir o.(op_public_address) in
            Done (Some (Exits 0 lines))
          else Done (Some (Listens o))
      end
  end.
