(* ===== verification/ServerMainProps.v ===== *)
(** * The operator's tools

    The dates they print are those of the calendar, the invite they print is one that
    the relay holds and a client reads, and a mailbox is removed only when the prefix
    names it alone. *)

From Stdlib Require Import ZArith Lia.
From stdpp Require Import base list strings relations.
From S2P Require Import Prelude Threads Wire Text Protocol RelayProtocol Crypto Sql RelayStore RelayStoreInv RelayState RelayService RelayAdmin Sharing SharingProps ServerMain.
#[local] Open Scope Z_scope.
#[local] Open Scope prog_scope.

(** ** The calendar *)

Definition leap (y : Z) : bool := (y mod 4 =? 0) && (negb (y mod 100 =? 0) || (y mod 400 =? 0)).
Definition days_in_month (y m : Z) : Z :=
  if m =? 2 then (if leap y then 29 else 28) else if bool_decide (m ∈ [4; 6; 9; 11]) then 30 else 31.
Definition next_day (date : Z * Z * Z) : Z * Z * Z :=
  let '(y, m, d) := date in
  if d <? days_in_month y m then (y, m, d + 1) else if m <? 12 then (y, m + 1, 1) else (y + 1, 1, 1).

(** The same date that many times four hundred years later. *)
Definition eras_later (k : Z) (date : Z * Z * Z) : Z * Z * Z := let '(y, m, d) := date in (y + 400 * k, m, d).

Lemma leap_era y k : leap (y + 400 * k) = leap y.
Proof.
  unfold leap. replace (y + 400 * k) with (y + (100 * k) * 4) at 1 by lia. rewrite Z_mod_plus_full.
  replace (y + 400 * k) with (y + (4 * k) * 100) at 1 by lia. rewrite Z_mod_plus_full.
  replace (y + 400 * k) with (y + k * 400) by lia. by rewrite Z_mod_plus_full.
Qed.

Lemma next_day_era k date : next_day (eras_later k date) = eras_later k (next_day date).
Proof.
  destruct date as [[y m] d]. cbn [eras_later next_day]. unfold days_in_month. rewrite leap_era.
  destruct (_ <? _); [done|]. destruct (m <? 12); [done|]. cbn. do 2 f_equal. lia.
Qed.

(** The date of a day of an era, in which the divisions are of numbers that are not
    negative. *)
Definition era_date (doe : Z) : Z * Z * Z :=
  let yoe := (doe - doe / 1460 + doe / 36524 - doe / 146096) / 365 in
  let doy := doe - (365 * yoe + yoe / 4 - yoe / 100) in
  let mp := (5 * doy + 2) / 153 in
  let month := if mp <? 10 then mp + 3 else mp - 9 in
  (yoe + (if month <=? 2 then 1 else 0), month, doy - (153 * mp + 2) / 5 + 1).

(** Checking the numbers below a bound one by one. *)
Lemma all_below (P : Z -> bool) n i : forallb P (seqZ 0 n) = true -> 0 <= i < n -> P i = true.
Proof. intros H Hi. rewrite forallb_forall in H. apply H, list_elem_of_In, elem_of_seqZ. lia. Qed.

(** The day of an era on which its years begin, in March; the number that the code
    divides by 365 to find the year. *)
Definition year_start (y : Z) : Z := 365 * y + y / 4 - y / 100 + y / 400.
Definition scaled (doe : Z) : Z := doe - doe / 1460 + doe / 36524 - doe / 146096.

Lemma years_ok y : 0 <= y < 400 ->
  scaled (year_start y) / 365 = y /\ scaled (year_start (y + 1) - 1) / 365 = y /\ 0 <= scaled (year_start y) /\
  year_start (y + 1) = year_start y + (if leap (y + 1) then 366 else 365) /\ year_start y = 365 * y + y / 4 - y / 100.
Proof.
  intros Hy.
  assert (((scaled (year_start y) / 365 =? y) && (scaled (year_start (y + 1) - 1) / 365 =? y) && (0 <=? scaled (year_start y)) &&
    (year_start (y + 1) =? year_start y + (if leap (y + 1) then 366 else 365)) && (year_start y =? 365 * y + y / 4 - y / 100)) = true) as H.
  { apply (all_below (fun y => (scaled (year_start y) / 365 =? y) && (scaled (year_start (y + 1) - 1) / 365 =? y) && (0 <=? scaled (year_start y)) &&
      (year_start (y + 1) =? year_start y + (if leap (y + 1) then 366 else 365)) && (year_start y =? 365 * y + y / 4 - y / 100)) 400); [vm_compute; reflexivity|done]. }
  rewrite !andb_true_iff, !Z.eqb_eq, Z.leb_le in H. tauto.
Qed.

Lemma div_step d k : 0 < k -> d / k <= (d + 1) / k <= d / k + 1.
Proof.
  intros Hk. split; [apply Z.div_le_mono; lia|]. replace (d / k + 1) with ((d + 1 * k) / k) by (rewrite Z.div_add; lia). apply Z.div_le_mono; lia.
Qed.

(** It only grows, but for the last day. *)
Lemma scaled_mono a b : 0 <= a <= b -> b < 146096 -> scaled a <= scaled b.
Proof.
  intros [Ha Hab]. revert Hab. apply (Z.le_ind (fun x => x < 146096 -> scaled a <= scaled x)); [by intros ?? ->|lia|].
  intros x Hx IH Hlt. specialize (IH ltac:(lia)). unfold scaled in *. pose proof (div_step x 1460 ltac:(lia)). pose proof (div_step x 36524 ltac:(lia)).
  rewrite (Z.div_small x 146096), ?(Z.div_small (Z.succ x) 146096) in * by lia. unfold Z.succ in *. lia.
Qed.

(** The year that a day is in. *)
Lemma year_of doe : 0 <= doe < 146097 -> exists y, 0 <= y < 400 /\ year_start y <= doe < year_start (y + 1).
Proof.
  intros Hd. assert (forall n : nat, (n <= 400)%nat -> doe < year_start (Z.of_nat n) -> exists y, 0 <= y < Z.of_nat n /\ year_start y <= doe < year_start (y + 1)) as H.
  { induction n as [|n IH]; intros Hn Hlt; [change (year_start (Z.of_nat 0)) with 0 in Hlt; lia|].
    destruct (Z_lt_le_dec doe (year_start (Z.of_nat n))) as [H|H].
    - destruct (IH ltac:(lia) H) as (y & Hy & Hin). exists y. split; [lia|done].
    - exists (Z.of_nat n). split; [lia|]. by replace (Z.of_nat n + 1) with (Z.of_nat (S n)) by lia. }
  destruct (H 400%nat ltac:(lia)) as (y & Hy & Hin); [change (year_start (Z.of_nat 400)) with 146097; lia|]. by exists y.
Qed.

Lemma scaled_year doe y : 0 <= y < 400 -> year_start y <= doe < year_start (y + 1) -> scaled doe / 365 = y /\ 0 <= scaled doe.
Proof.
  intros Hy Hd. destruct (years_ok y Hy) as (H1 & H2 & H3 & _). assert (0 <= year_start y) as H0 by (unfold year_start; Zlia).
  assert (year_start (y + 1) <= 146097) as H400.
  { assert (forall n : nat, y + 1 + Z.of_nat n <= 400 -> year_start (y + 1) <= year_start (y + 1 + Z.of_nat n)) as Hup.
    { induction n as [|n IH]; intros Hn; [by rewrite Z.add_0_r|]. destruct (years_ok (y + 1 + Z.of_nat n) ltac:(lia)) as (_ & _ & _ & E & _).
      replace (y + 1 + Z.of_nat (S n)) with (y + 1 + Z.of_nat n + 1) by lia. specialize (IH ltac:(lia)). destruct (leap _); lia. }
    specialize (Hup (Z.to_nat (400 - (y + 1))) ltac:(lia)). replace (y + 1 + _) with 400 in Hup by lia. change (year_start 400) with 146097 in Hup. lia. }
  destruct (decide (doe = year_start (y + 1) - 1)) as [->|Hne].
  { split; [done|]. destruct (Z_lt_le_dec (scaled (year_start (y + 1) - 1)) 0); [|done].
    assert (scaled (year_start (y + 1) - 1) / 365 < 0) by (apply Z.div_lt_upper_bound; lia). lia. }
  pose proof (scaled_mono (year_start y) doe ltac:(lia) ltac:(lia)). split; [|lia].
  assert (y <= scaled doe / 365) by (rewrite <- H1; apply Z.div_le_mono; lia).
  destruct (decide (year_start (y + 1) = 146097)) as [E|E].
  - assert (scaled doe < 365 * 400) as Hlt; [|pose proof (Z.div_lt_upper_bound (scaled doe) 365 400 ltac:(lia) Hlt)].
    { pose proof (scaled_mono doe 146095 ltac:(lia) ltac:(lia)). change (scaled 146095) with 145998 in *. lia. }
    destruct (decide (y = 399)) as [->|]; [lia|]. exfalso.
    destruct (years_ok (y + 1) ltac:(lia)) as (HH & _). rewrite E in HH. change (scaled 146097 / 365) with 400 in HH. lia.
  - pose proof (scaled_mono doe (year_start (y + 1) - 1) ltac:(lia) ltac:(lia)) as Hm. apply (Z.div_le_mono _ _ 365) in Hm; lia.
Qed.

(** Month and day of a day of the year, which begins in March. *)
Definition month_day (doy : Z) : Z * Z :=
  let mp := (5 * doy + 2) / 153 in (if mp <? 10 then mp + 3 else mp - 9, doy - (153 * mp + 2) / 5 + 1).

Definition in_march_year (y : Z) (md : Z * Z) : Z * Z * Z := (y + (if md.1 <=? 2 then 1 else 0), md.1, md.2).

Lemma era_date_year doe y : 0 <= y < 400 -> year_start y <= doe < year_start (y + 1) ->
  era_date doe = in_march_year y (month_day (doe - year_start y)).
Proof.
  intros Hy Hd. destruct (scaled_year doe y Hy Hd) as [Hs _]. destruct (years_ok y Hy) as (_ & _ & _ & _ & E).
  unfold era_date. fold (scaled doe). rewrite Hs. cbv zeta. by rewrite <- E.
Qed.

(** The next day within a year, whatever the year. *)
Lemma month_day_next y doy : 0 <= doy < 364 -> next_day (in_march_year y (month_day doy)) = in_march_year y (month_day (doy + 1)).
Proof.
  intros Hd. set (dim m := if m =? 2 then 28 else if bool_decide (m ∈ [4; 6; 9; 11]) then 30 else 31).
  assert (let '(m, d) := month_day doy in let '(m', d') := month_day (doy + 1) in
    (if d <? dim m then (m' =? m) && (d' =? d + 1) && (negb (m =? 2) || (d <? 28))
     else (d' =? 1) && negb (m =? 2) && (if m <? 12 then (m' =? m + 1) && Bool.eqb (m' <=? 2) (m <=? 2) else (m' =? 1) && negb (m <=? 2))) = true) as H.
  { apply (all_below (fun doy => let '(m, d) := month_day doy in let '(m', d') := month_day (doy + 1) in
      if d <? dim m then (m' =? m) && (d' =? d + 1) && (negb (m =? 2) || (d <? 28))
      else (d' =? 1) && negb (m =? 2) && (if m <? 12 then (m' =? m + 1) && Bool.eqb (m' <=? 2) (m <=? 2) else (m' =? 1) && negb (m <=? 2))) 364);
      [vm_compute; reflexivity|done]. }
  destruct (month_day doy) as [m d], (month_day (doy + 1)) as [m' d']. unfold in_march_year, next_day. cbn [fst snd].
  assert (days_in_month (y + (if m <=? 2 then 1 else 0)) m = dim m \/ m = 2 /\ dim m <= days_in_month (y + (if m <=? 2 then 1 else 0)) m) as Hdim.
  { unfold days_in_month, dim. destruct (m =? 2) eqn:E2; [|by left]. bool_prop. right. split; [done|]. destruct (leap _); lia. }
  destruct (d <? dim m) eqn:Ed.
  - rewrite !andb_true_iff, orb_true_iff in H. destruct H as [[H1 H2] _]. bool_prop. subst m' d'. rewrite (proj2 (Z.ltb_lt _ _)) by lia. done.
  - rewrite !andb_true_iff in H. destruct H as [[H1 H2] H3]. bool_prop. subst d'. destruct Hdim as [E|[E _]]; [|lia]. rewrite E, (proj2 (Z.ltb_ge _ _)) by lia.
    destruct (m <? 12) eqn:E12; rewrite !andb_true_iff in H3; destruct H3 as [H3 H4].
    + bool_prop. subst m'. apply Bool.eqb_prop in H4. by rewrite H4.
    + bool_prop. subst m'. rewrite (proj2 (Z.leb_gt m 2)) by lia. change (1 <=? 2) with true. do 2 f_equal. lia.
Qed.

(** The next day of an era, in every year of it; after its last day comes the first of
    the next. *)
Lemma era_date_next doe : 0 <= doe < 146097 ->
  next_day (era_date doe) = if doe =? 146096 then eras_later 1 (era_date 0) else era_date (doe + 1).
Proof.
  intros Hd. destruct (year_of doe Hd) as (y & Hy & Hin). destruct (years_ok y Hy) as (_ & _ & _ & Hlen & _).
  rewrite (era_date_year doe y Hy Hin). set (doy := doe - year_start y).
  assert (doe = 146096 -> doy = 365) as Hlast.
  { intros ->. destruct (scaled_year _ y Hy Hin) as [HH _]. change (scaled 146096 / 365) with 399 in HH. subst y. by vm_compute. }
  assert (forall k, k = year_start (y + 1) -> doe + 1 = k -> (if doe =? 146096 then eras_later 1 (era_date 0) else era_date (doe + 1)) = (y + 1, 3, 1)) as Hnew.
  { intros k -> E. destruct (Z.eqb_spec doe 146096) as [->|Hne].
    - destruct (decide (y = 399)) as [->|]; [by vm_compute|]. exfalso. destruct (years_ok (y + 1) ltac:(lia)) as (HH & _).
      rewrite <- E in HH. change (scaled (146096 + 1) / 365) with 400 in HH. lia.
    - destruct (decide (y = 399)) as [->|Hy']; [change (year_start (399 + 1)) with 146097 in E; lia|].
      rewrite (era_date_year (doe + 1) (y + 1)); [|lia|destruct (years_ok (y + 1) ltac:(lia)) as (_ & _ & _ & Hl & _); destruct (leap (y + 1 + 1)); lia].
      rewrite E, Z.sub_diag. vm_compute (month_day 0). unfold in_march_year. cbn. by rewrite Z.add_0_r. }
  destruct (decide (doy < 364)) as [Hlt|Hge].
  - rewrite month_day_next by (unfold doy in *; lia). rewrite (proj2 (Z.eqb_neq doe 146096)).
    2:{ intros E. apply Hlast in E. lia. }
    rewrite (era_date_year (doe + 1) y); [do 2 f_equal; unfold doy; lia|done|]. unfold doy in Hlt. destruct (leap (y + 1)); lia.
  - assert (doy = 364 \/ doy = 365) as [E|E] by (unfold doy in *; destruct (leap (y + 1)); lia); rewrite E.
    + change (month_day 364) with (2, 28). unfold in_march_year, next_day. cbn [fst snd]. change (2 <=? 2) with true. unfold days_in_month. change (2 =? 2) with true.
      destruct (leap (y + 1)) eqn:El; cbn [Z.ltb]; [change (28 <? 29) with true|change (28 <? 28) with false; change (2 <? 12) with true].
      * rewrite (proj2 (Z.eqb_neq doe 146096)) by (intros E'; apply Hlast in E'; lia).
        rewrite (era_date_year (doe + 1) y) by (unfold doy in E; lia). replace (doe + 1 - year_start y) with 365 by (unfold doy in E; lia). done.
      * rewrite (Hnew (doe + 1)) by (unfold doy in E; lia). done.
    + change (month_day 365) with (2, 29). unfold in_march_year, next_day. cbn [fst snd]. change (2 <=? 2) with true. unfold days_in_month. change (2 =? 2) with true.
      destruct (leap (y + 1)) eqn:El; [|unfold doy in E; lia]. change (29 <? 29) with false. change (2 <? 12) with true.
      rewrite (Hnew (doe + 1)) by (unfold doy in E; lia). done.
Qed.

(** Dividing towards zero, as the code does, is dividing down here. *)
Lemma floor_era n : Z.quot (if 0 <=? n then n else n - 146096) 146097 = n / 146097.
Proof.
  destruct (Z.leb_spec 0 n) as [H|H]; [by apply Z.quot_div_nonneg|].
  pose proof (Z.div_mod n 146097 ltac:(lia)) as Hd. pose proof (Z.mod_pos_bound n 146097 ltac:(lia)) as Hm.
  replace (n - 146096) with (- (146096 - n)) by lia. rewrite Z.quot_opp_l, Z.quot_div_nonneg by lia.
  assert ((146096 - n) / 146097 = - (n / 146097)) as ->; [|lia]. symmetry. apply (Z.div_unique_pos _ _ _ (146096 - n mod 146097)); lia.
Qed.

Lemma civil_date_era n : civil_date n = eras_later ((n + 719468) / 146097) (era_date ((n + 719468) mod 146097)).
Proof.
  unfold civil_date. cbv zeta. rewrite floor_era. set (d := n + 719468). set (era := d / 146097).
  pose proof (Z.div_mod d 146097 ltac:(lia)) as Hd. pose proof (Z.mod_pos_bound d 146097 ltac:(lia)) as Hm.
  assert (d - era * 146097 = d mod 146097) as -> by (unfold era; lia). set (doe := d mod 146097) in *.
  destruct (year_of doe Hm) as (y & Hy & Hin). destruct (scaled_year doe y Hy Hin) as [Hs H0]. destruct (years_ok y Hy) as (_ & _ & _ & Hlen & Hst).
  unfold era_date, eras_later. fold (scaled doe) in *.
  rewrite (Z.quot_div_nonneg doe 1460), (Z.quot_div_nonneg doe 36524), (Z.quot_div_nonneg doe 146096) by lia. fold (scaled doe).
  rewrite (Z.quot_div_nonneg _ 365), Hs, (Z.quot_div_nonneg y 4), (Z.quot_div_nonneg y 100) by lia. rewrite <- Hst. cbv zeta.
  assert (0 <= doe - year_start y) as Hdoy by lia. rewrite (Z.quot_div_nonneg _ 153) by lia.
  assert (0 <= (5 * (doe - year_start y) + 2) / 153) as Hmp by (apply Z.div_pos; lia). rewrite (Z.quot_div_nonneg _ 5) by lia. do 2 f_equal. lia.
Qed.

Lemma next_civil_date n : civil_date (n + 1) = next_day (civil_date n).
Proof.
  rewrite !civil_date_era, next_day_era. set (d := n + 719468). replace (n + 1 + 719468) with (d + 1) by (unfold d; lia).
  pose proof (Z.div_mod d 146097 ltac:(lia)) as Hd. pose proof (Z.mod_pos_bound d 146097 ltac:(lia)) as Hm. rewrite era_date_next by done.
  destruct (Z.eqb_spec (d mod 146097) 146096) as [E|E].
  - assert ((d + 1) / 146097 = d / 146097 + 1) as -> by (symmetry; apply (Z.div_unique_pos _ _ _ 0); lia).
    assert ((d + 1) mod 146097 = 0) as -> by (symmetry; apply (Z.mod_unique_pos _ _ (d / 146097 + 1)); lia).
    destruct (era_date 0) as [[y m] dd]. cbn. do 2 f_equal. lia.
  - assert ((d + 1) / 146097 = d / 146097) as -> by (symmetry; apply (Z.div_unique_pos _ _ _ (d mod 146097 + 1)); lia).
    by assert ((d + 1) mod 146097 = d mod 146097 + 1) as -> by (symmetry; apply (Z.mod_unique_pos _ _ (d / 146097)); lia).
Qed.

(** Hours and minutes are of the day that the time is in, before 1970 too. *)
Lemma day_and_second t :
  (if Z.rem t 86400 <? 0 then (Z.quot t 86400 - 1, Z.rem t 86400 + 86400) else (Z.quot t 86400, Z.rem t 86400)) = (t / 86400, t mod 86400).
Proof.
  pose proof (Z.quot_rem t 86400 ltac:(lia)) as H. pose proof (Z.div_mod t 86400 ltac:(lia)) as Hd. pose proof (Z.mod_pos_bound t 86400 ltac:(lia)) as Hm.
  pose proof (Z.rem_bound_abs t 86400 ltac:(lia)) as Hr. destruct (Z.ltb_spec (Z.rem t 86400) 0); f_equal; lia.
Qed.

(** The times that the operator sees are right. The dates are those of the calendar:
    the day the clock counts from is the first of January 1970, and after each day, as
    far as one counts in either direction, comes the next of a month with its length,
    leap years included. A time is shown as the date of the day it is in and its hour
    and minute in that day, also for times before 1970. *)
Theorem format_time_calendar t :
  civil_date 0 = (1970, 1, 1) /\ (forall n, civil_date (n + 1) = next_day (civil_date n)) /\
  let '(year, month, day) := civil_date (t / 86400) in
  format_time t = zero_padded 4 year ++ str "-" ++ zero_padded 2 month ++ str "-" ++ zero_padded 2 day ++ str " " ++
    zero_padded 2 (t mod 86400 / 3600) ++ str ":" ++ zero_padded 2 (t mod 3600 / 60).
Proof.
  split; [by vm_compute|]. split; [apply next_civil_date|]. unfold format_time. cbv zeta. rewrite day_and_second.
  destruct (civil_date (t / 86400)) as [[y m] d]. pose proof (Z.mod_pos_bound t 86400 ltac:(lia)).
  assert (Z.rem (t mod 86400) 3600 = t mod 3600) as ->.
  { rewrite Z.rem_mod_nonneg by lia. apply Z.mod_mod_divide. by exists 24. }
  rewrite !Z.quot_div_nonneg by (try apply Z.mod_pos_bound; lia). done.
Qed.

(** ** Removing a mailbox *)

(** C39: the operator's tool removes what it was told to, or nothing. On a store in order
    it always ends. It ends with 0 only when the prefix has eight characters and is, in
    small letters, the beginning of the ID of exactly one member; then the mailboxes that
    are gone are that one, or with --with-invitees exactly those that the chain of
    vouching reaches from it, and the others stay. In every other case it ends with 1 and
    nothing at all has changed. *)
Theorem remove_by_prefix_exact prefix with_invitees v s :
  sql_ok v.(store) ->
  let fits := filter (fun m => begins_with (map to_lower prefix) (bytes_to_hex m.(Member_id)) = true) (members v.(store)) in
  exists code lines v', run (remove_by_prefix prefix with_invitees) v s = (Some (Some (code, lines)), v', s) /\
    ((code = 1 /\ v' = v /\ (size prefix < 8 \/ length fits <> 1%nat)) \/
     (code = 0 /\ 8 <= size prefix /\ exists m (doomed : list bytes), fits = [m] /\
        (forall y, y ∈ doomed <-> if with_invitees : bool then rtc (invited (members v.(store))) m.(Member_id) y else y = m.(Member_id)) /\
        v'.(store).(mailboxes) = filter (fun r => r.(mb_id) ∉ doomed) v.(store).(mailboxes))).
Proof.
  intros Hsql fits. unfold remove_by_prefix. cbv zeta. assert (size (map to_lower prefix) = size prefix) as -> by (unfold size; by rewrite length_map).
  destruct (Z.ltb_spec (size prefix) 8) as [Hlt|Hge]; [exists 1, [], v; split; [done|]; by left; auto|].
  rewrite run_query. fold fits. destruct fits as [|m [|m2 l]] eqn:Ef; [exists 1, [], v; split; [done|]; left; auto| |exists 1, [], v; split; [done|]; left; auto].
  rewrite run_query. set (n := Z.of_nat _).
  assert (exists removed (doomed : list bytes) v', run (remove_mailbox m.(Member_id) with_invitees) v s = (Some (Some removed), v', s) /\
    (forall y, y ∈ doomed <-> if with_invitees : bool then rtc (invited (members v.(store))) m.(Member_id) y else y = m.(Member_id)) /\
    v'.(store).(mailboxes) = filter (fun r => r.(mb_id) ∉ doomed) v.(store).(mailboxes)) as (removed & doomed & v' & Hr & Hd & Hm).
  { destruct with_invitees.
    - destruct (remove_mailbox_tree m.(Member_id) v s Hsql) as (doomed & v' & _ & Hd & Hr & Hm). by exists (count_rows (fun r => r.(mb_id) ∈ doomed) v.(store).(mailboxes)), doomed, v'.
    - destruct (run_delete_mailboxes [m.(Member_id)] 0 v s (uniq_mailboxes _ Hsql) ltac:(apply NoDup_singleton)) as (v' & Hr & Hm).
      eexists _, [m.(Member_id)], v'. split; [unfold remove_mailbox; rewrite run_bind, Hr; done|]. split; [by intros y; rewrite list_elem_of_singleton|done]. }
  rewrite run_bind, Hr. eexists 0, _, v'. split; [done|]. right. split; [done|]. split; [done|]. by exists m, doomed.
Qed.

(** Two mailboxes whose IDs begin alike. *)
Definition ex_members : DB :=
  set_mailboxes [mkMailboxRow (replicate 4 Byte.x01 ++ [Byte.x02]) [] 1 None; mkMailboxRow (replicate 4 Byte.x01 ++ [Byte.x03]) [] 2 None] empty_db.
Definition ex_service : Service := mkService ex_members ∅ (Owners.mk ∅ ∅) (Disk.mk ∅ ∅ 0%nat) 0 [].
Definition ex_operator : Session := new_session [] 0%nat None [].

Lemma ex_members_ok : sql_ok ex_members.
Proof.
  constructor; simpl; try (intros x Hx; by apply not_elem_of_nil in Hx); try apply unique_nil.
  unfold unique. simpl. apply (bool_decide_unpack _). vm_compute. exact I.
Qed.

Lemma remove_by_prefix_exact_witness :
  exists code lines v', run (remove_by_prefix (str "01010101") false) ex_service ex_operator = (Some (Some (code, lines)), v', ex_operator) /\ v' = ex_service.
Proof.
  destruct (remove_by_prefix_exact (str "01010101") false ex_service ex_operator ex_members_ok)
    as (code & lines & v' & Hr & [(_ & Hv & _)|(_ & _ & m & _ & Hm & _)]).
  - exists code, lines, v'. split; [exact Hr|exact Hv].
  - apply (f_equal length) in Hm. vm_compute in Hm. discriminate.
Defined.

(** ** The printed invite *)

Lemma grouped_code n : forall code : bytes, (length code <= n)%nat -> chr 45 ∉ code -> filter (fun c => c <> chr 45) (grouped_loop n code) = code.
Proof.
  assert (forall l : bytes, chr 45 ∉ l -> filter (fun c => c <> chr 45) l = l) as Hid.
  { intros l Hl. induction l as [|c l IH]; [done|]. apply not_elem_of_cons in Hl as [H1 H2]. rewrite filter_cons_True by congruence. f_equal. by apply IH. }
  induction n as [|n IH]; intros code Hn Hc; [by destruct code; [|cbn in Hn; lia]|]. destruct code as [|c code]; [done|]. cbn [grouped_loop].
  rewrite <- (ztake_zdrop (c :: code) 4) in Hc at 1. apply not_elem_of_app in Hc as [H1 H2]. rewrite filter_app, (Hid _ H1).
  destruct (zdrop 4 (c :: code)) as [|x rest] eqn:E.
  - cbn. rewrite <- (ztake_zdrop (c :: code) 4) at 2. by rewrite E.
  - rewrite filter_cons_False by (intros H; by apply H). rewrite IH; [by rewrite <- E, ztake_zdrop| |done].
    apply (f_equal length) in E. unfold zdrop in E. rewrite length_drop in E. cbn in E, Hn. cbn. lia.
Qed.

Lemma hex_no_dash b : chr 45 ∉ bytes_to_hex b.
Proof.
  intros H. destruct (lower_hex_chars _ _ _ (bytes_to_hex_lower b) H) as (_ & _ & _ & _ & Hn). by apply Hn.
Qed.

Lemma select_first_snoc {A} (Q : A -> Prop) `{forall x, Decision (Q x)} l x : (forall y, y ∈ l -> ~ Q y) -> Q x -> select_first Q (l ++ [x]) = Some x.
Proof.
  intros Hl Hx. unfold select_first. induction l as [|y l IH]; cbn [app]; [by rewrite filter_cons_True|].
  rewrite filter_cons_False by (apply Hl; left). apply IH. intros z Hz. apply Hl. by right.
Qed.

(** C40: the invite that the operator prints lets one person in. With an address that the
    client accepts, the string that is printed is read by the client, behind its leading
    spaces, as that address, this relay's ID and a code of 16 bytes, which is the code of
    the first line without its dashes; and until the lifetime of an invite is over, a
    registration with that code, of a new mailbox on a relay with room, succeeds, with
    nobody to vouch for it. *)
Theorem printed_invite_registers `{PrimitiveLaws} limits relay_id relay_dir a v s :
  addr_ok a -> size relay_id = 32 -> INVITE_BYTES <= size v.(entropy) -> sql_ok v.(store) ->
  let invite := ztake INVITE_BYTES v.(entropy) in
  sha256 invite ∉ map inv_hash v.(store).(invites) ->
  exists lines code v', run (print_invite limits relay_id relay_dir (format_server_address a)) v s = (Some lines, v', s) /\
    head lines = Some (str "Invite code:  " ++ code) /\ filter (fun c => c <> chr 45) code = bytes_to_hex invite /\
    (exists text, last lines = Some text /\ parse_relay_invite text = Some (mkRelayInvite a relay_id invite)) /\
    forall mb key token now max_mailboxes,
      now < v.(clock) + limits.(invite_lifetime_seconds) -> size v.(store).(mailboxes) < max_mailboxes -> mb ∉ map mb_id v.(store).(mailboxes) ->
      exists db', register_mailbox v'.(store) (sha256 invite) mb key token now max_mailboxes = Some (Register_Ok, db') /\
        db'.(mailboxes) = v.(store).(mailboxes) ++ [mkMailboxRow mb key now None] /\ sha256 invite ∉ map inv_hash db'.(invites).
Proof.
  intros Ha Hid Hent Hsql invite Hnew.
  set (db1 := set_invites (v.(store).(invites) ++ [mkInviteRow (sha256 invite) (v.(clock) + limits.(invite_lifetime_seconds)) None]) v.(store)).
  assert (size invite = 16) as Hsize by (apply size_ztake; unfold INVITE_BYTES in *; lia).
  eexists _, (grouped (bytes_to_hex invite)), (set_store db1 (set_entropy (zdrop INVITE_BYTES v.(entropy)) v)). split; [|split; [|split; [|split]]].
  - unfold print_invite, create_invite, random_bytes, unix_now, on_store. cbn [bind act run]. rewrite (proj2 (Z.ltb_ge _ _)) by done. fold invite.
    cbn [set_entropy clock store]. unfold add_invite, insert_invite, insert_row. rewrite decide_False by done. done.
  - done.
  - apply grouped_code; [done|apply hex_no_dash].
  - assert (is_empty (format_server_address a) = false) as ->.
    { destruct (format_server_address a) eqn:E; [|done]. pose proof (split_format a Ha) as Hs. rewrite E in Hs. apply (f_equal (fun x => match x with Some y => y.1 | None => [] end)) in Hs.
      change (split_address []) with (Some (@nil byte, @None bytes)) in Hs. cbn [fst] in Hs. destruct Ha as [Hh _]. rewrite <- Hs in Hh. by vm_compute in Hh. }
    cbn [negb]. eexists. split; [by rewrite last_app|]. apply relay_invite_back; [done..|].
    exists (str "  "), [], [], []. split_and!; [|intros c Hc|by intros c ?%not_elem_of_nil..].
    2:{ change (str "  ") with [Byte.x20; Byte.x20] in Hc. by apply elem_of_cons in Hc as [->|Hc]; [|apply list_elem_of_singleton in Hc as ->]. }
    unfold build_relay_invite, hex_of. rewrite !app_nil_r. done.
  - intros mb key token now mx Hnow Hroom Hmb. unfold register_mailbox. cbn [set_store store].
    assert (select_first (fun i => i.(inv_hash) = sha256 invite) db1.(invites) = Some (mkInviteRow (sha256 invite) (v.(clock) + limits.(invite_lifetime_seconds)) None)) as ->.
    { apply select_first_snoc; [|done]. intros x Hx E. apply Hnew. rewrite <- E. by apply list_elem_of_fmap_2. }
    cbn [inv_expires_at inv_issued_by]. rewrite (proj2 (Z.leb_gt _ _)) by lia. unfold db1. cbn [set_invites mailboxes].
    rewrite (proj2 (Z.leb_gt _ _)) by lia. rewrite (proj2 (exists_row_false _ _)) by (intros x Hx E; apply Hmb; rewrite <- E; by apply list_elem_of_fmap_2).
    unfold column_blob. cbn [default from_option]. unfold insert_mailbox, insert_row. cbn [set_invites mailboxes mb_id]. rewrite decide_False by done.
    unfold insert_token, references, insert_row. cbn [set_mailboxes set_invites mailboxes tokens tok_mailbox_id].
    rewrite bool_decide_true by (rewrite map_app; apply elem_of_app; right; left). rewrite decide_False.
    2:{ intros (x & E & Hx)%list_elem_of_fmap. apply Hmb. pose proof (fk_tokens _ Hsql x Hx) as Hfk.
        unfold tok_key in E. cbn in E. injection E as -> _. exact Hfk. }
    eexists. split; [done|]. cbn [set_tokens set_mailboxes set_invites mailboxes invites]. split; [done|].
    intros (x & E & Hx)%list_elem_of_fmap. apply elem_of_delete_rows in Hx as [Hx _]. by apply Hx.
Qed.

Definition ex_address : ServerAddress := mkServerAddress (str "relay.example.org") 9000.
Definition ex_fresh : Service := mkService empty_db ∅ (Owners.mk ∅ ∅) (Disk.mk ∅ ∅ 0%nat) 100 (replicate 16 Byte.x07).

Lemma printed_invite_registers_witness :
  exists lines code v', run (print_invite default_limits (replicate 32 Byte.x01) (str "/srv/v3") (format_server_address ex_address)) ex_fresh ex_operator = (Some lines, v', ex_operator) /\
    head lines = Some (str "Invite code:  " ++ code) /\
    exists db', register_mailbox v'.(store) (sha256 (ztake INVITE_BYTES (replicate 16 Byte.x07))) [Byte.x09] [] [] 200 10 = Some (Register_Ok, db').
Proof.
  destruct (printed_invite_registers default_limits (replicate 32 Byte.x01) (str "/srv/v3") ex_address ex_fresh ex_operator)
    as (lines & code & v' & Hr & Hh & _ & _ & Hreg).
  - split; [by vm_compute|]. cbn. lia.
  - reflexivity.
  - reflexivity.
  - exact sql_ok_empty.
  - apply not_elem_of_nil.
  - exists lines, code, v'. split; [exact Hr|]. split; [exact Hh|].
    destruct (Hreg [Byte.x09] [] [] 200 10) as (db' & Hd & _); [by vm_compute|by vm_compute|apply not_elem_of_nil|]. exists db'. exact Hd.
Defined.

(** ** The command line *)

(** Limits within the widths of their types; what a relay needs of them. *)
Definition limits_ok (l : RelayLimits) : Prop :=
  in_u64 l.(max_archives) /\ in_u64 l.(max_attachment_bytes) /\ in_u64 l.(attachment_quota_bytes) /\ in_u64 l.(keyring_max_bytes) /\
  in_u64 l.(archive_quota_bytes) /\ in_u64 l.(member_invites_outstanding) /\ in_u64 l.(member_invites_total) /\ in_u64 l.(mailbox_quota_bytes) /\
  in_u32 l.(max_prekeys) /\ in_u32 l.(prekey_takes_per_hour) /\ in_i64 l.(attachment_max_seconds) /\
  - 2 ^ 31 <= l.(rate_limit_per_minute) < 2 ^ 31 /\ 1 <= l.(sweep_seconds) < 2 ^ 31.

Definition options_ok (o : Options) : Prop := limits_ok o.(op_limits) /\ 1 <= o.(op_port) <= 65535 /\ in_u64 o.(op_quota).

Lemma u64_in z : in_u64 (u64 z).
Proof. unfold in_u64, u64. Zlia. Qed.
Lemma u32_in z : in_u32 (u32 z).
Proof. unfold in_u32, u32. Zlia. Qed.
Lemma i64_in z : in_i64 (i64 z).
Proof. unfold in_i64, i64. Zlia. Qed.

Lemma stoi_range s n : std_stoi s = Some n -> - 2 ^ 31 <= n < 2 ^ 31.
Proof.
  unfold std_stoi. destruct (std_number s) as [[neg k]|]; [|done]. cbn. destruct (_ && _) eqn:E; [|done]. intros [= <-]. bool_prop. lia.
Qed.

Lemma digits_nonneg ds : forall acc, 0 <= acc -> 0 <= foldl (fun v c => v * 10 + (Z_of_byte c - 48)) acc (take_digits ds).
Proof.
  induction ds as [|c ds IH]; intros acc Ha; [done|]. cbn [take_digits]. destruct (is_digit c) eqn:E; [|done]. cbn [foldl]. apply IH.
  unfold is_digit in E. bool_prop. lia.
Qed.

Lemma stoull_range s n : std_stoull s = Some n -> in_u64 n.
Proof.
  unfold std_stoull, std_number. cbv zeta. destruct (match drop_front is_space s with [] => _ | _ => _ end) as [neg s'].
  destruct (is_empty (take_digits s')); [done|]. cbn [mbind option_bind]. pose proof (digits_nonneg s' 0 ltac:(done)) as H0. fold (Text.stoul (take_digits s')) in H0.
  destruct (Z.leb_spec (2 ^ 64) (Text.stoul (take_digits s'))); [done|]. intros [= <-]. destruct neg; [apply u64_in|]. unfold in_u64. lia.
Qed.

Lemma flag_ok arg o o' : flag arg o = Some o' -> options_ok o -> options_ok o'.
Proof. unfold flag. repeat case_match; intros [= <-]; done. Qed.

Lemma number_inv (k : Z -> Options) (x : option Z) o : Some (k <$> x) = Some (Some o) -> exists n, x = Some n /\ o = k n.
Proof. intros H. apply Some_inj in H. destruct x as [n|]; [|done]. apply Some_inj in H. by exists n. Qed.

Ltac limits_done := unfold limits_ok in *; cbn [on_limits op_limits set_max_archives set_max_prekeys set_prekey_takes_per_hour
  set_max_attachment_bytes set_attachment_quota_bytes set_attachment_max_seconds set_keyring_max_bytes set_archive_quota_bytes
  set_member_invites_outstanding set_member_invites_total set_mailbox_quota_bytes set_rate_limit_per_minute set_sweep_seconds
  max_archives max_attachment_bytes attachment_quota_bytes keyring_max_bytes archive_quota_bytes member_invites_outstanding member_invites_total
  mailbox_quota_bytes max_prekeys prekey_takes_per_hour attachment_max_seconds rate_limit_per_minute sweep_seconds];
  intuition (auto using u64_in, u32_in, i64_in).

Lemma option_value_ok pton arg value o o' : option_value pton arg value o = Some (Some o') -> options_ok o -> options_ok o'.
Proof.
  intros H (Hl & Hp & Hq). unfold option_value in H. cbv zeta in H.
  destruct (bool_decide _) in H.
  { apply Some_inj in H. destruct (std_stoull value) as [p|] eqn:Ep; [|discriminate H]. apply stoull_range in Ep. cbn [mbind option_bind] in H. destruct (_ || _) eqn:E in H; [discriminate H|].
    apply Some_inj in H. subst o'. bool_prop. unfold in_u64 in Ep. split_and!; cbn [op_limits op_port op_quota]; try done; lia. }
  destruct (bool_decide _) in H.
  { apply Some_inj in H. destruct (pton value); [|discriminate H]. apply Some_inj in H. by subst o'. }
  repeat (destruct (bool_decide _) in H;
    [first [ apply number_inv in H as (n & Hn & ->); try apply stoi_range in Hn; split; [|split]; [by limits_done|exact Hp|by first [exact Hq|apply u64_in]]
           | apply Some_inj, Some_inj in H; by subst o'
           | apply Some_inj in H; destruct (std_stoi value) as [n|] eqn:Hn; [|discriminate H]; apply stoi_range in Hn; cbn [mbind option_bind] in H;
             destruct (n <? 1) eqn:E; [discriminate H|]; apply Some_inj in H; subst o'; bool_prop; split; [|split]; [limits_done; lia|exact Hp|exact Hq] ]|]);
    discriminate H.
Qed.

(** Whatever is on the command line, a server that goes on has options it can
    work with: a port from 1 to 65535, the storage limit and every limit of the relay
    within the width of its type, and a positive time between sweeps. *)
Theorem parsed_options_ok ma args o :
  parse_args ma.(ma_inet_pton) args (start_options ma) = inr o -> options_ok o.
Proof.
  assert (options_ok (start_options ma)) as Hstart by (repeat split; by vm_compute).
  generalize dependent (start_options ma). remember (length args) as n eqn:E.
  revert args E. induction (lt_wf n) as [n _ IH]. intros args -> o1 H1 H. destruct args as [|arg rest]; cbn [parse_args] in H; [by injection H as <-|].
  destruct (flag arg o1) as [o2|] eqn:Ef; [eapply (IH (length rest)); [|done| |exact H]; [cbn; lia|by eapply flag_ok]|].
  destruct rest as [|value rest]; [done|]. destruct (option_value _ arg value o1) as [[o2|]|] eqn:Ev; [|done..].
  eapply (IH (length rest)); [|done| |exact H]; [cbn; lia|by eapply option_value_ok].
Qed.

Definition ex_machine : Machine :=
  mkMachine None None 1000 true Some (fun _ => mkFolderAnswers false true (Some (true, 1000)) true) (fun _ => true) (fun _ => Some []) (fun _ => Some 0).

Lemma parsed_options_ok_witness :
  exists o, parse_args ex_machine.(ma_inet_pton) [str "--port"; str "9001"; str "--quota-gb"; str "99999999999"] (start_options ex_machine) = inr o /\
    o.(op_port) = 9001 /\ options_ok o.
Proof.
  eexists. split; [vm_compute; reflexivity|]. split; [reflexivity|].
  eapply (parsed_options_ok ex_machine [str "--port"; str "9001"; str "--quota-gb"; str "99999999999"]). vm_compute. reflexivity.
Defined.
