(* ===== verification/Window.v ===== *)
(** * The client's window: client/main_window.cpp, key_dialogs.cpp and keychain.cpp

    What the window decides: how the keys are set up, unlocked and protected, with the
    passphrase the system's keychain may remember; how contacts are added; where
    transfers go. What the user does with each dialog, and what the disk and the keychain
    answer, are inputs; when they run out, dialogs are closed and the rest works. What is
    shown is a list; layout, texts of dialogs and the engine's thread are left out.
    An exception that no handler of the window catches is the result of the operation. *)

From Stdlib Require Import ZArith Lia.
From stdpp Require Import base list strings gmap.
From S2P Require Import Prelude Wire Text Protocol Crypto MessageRecord IdentityBundle Attachment KeyStore Sharing.
#[local] Open Scope Z_scope.

(** ** The passphrase dialogs *)

(** src/client/key_dialogs.h 9-9 DialogOutcome *)
Inductive DialogOutcome := Cancelled | Accepted | Skipped.
#[global] Instance DialogOutcome_eq_dec : EqDecision DialogOutcome.
Proof. solve_decision. Defined.

(** src/client/key_dialogs.h 11-15 PassphraseChoice *)
Record PassphraseChoice := mkPassphraseChoice { pc_outcome : DialogOutcome; pc_passphrase : bytes; pc_remember : bool }.
Definition no_choice : PassphraseChoice := mkPassphraseChoice Cancelled [] false.

(** A button that is pressed, with what is in the fields by then. *)
Inductive press :=
  | PressOk (field confirm : bytes) (ticked : bool)
  | PressSkip
  | PressCancel.

(** What the user does with a dialog: the passphrase dialogs take presses until one
    closes them, and are closed after the last. *)
Inductive response :=
  | Presses (ps : list press)
  | Answers (yes : bool)
  | Types (text : bytes)
  | Picks (button : nat)
  | Chooses (path content : bytes).

(** ** The state *)

Inductive question :=
  | AskReplace (name : bytes)
  | AskOldCard
  | AskFingerprint (fp : bytes)
  | AskServer (suggested : ServerAddress)
  | AskRemove (name : bytes)
  | AskUnverified (name : bytes)
  | AskUnprotect.

Inductive job :=
  | Upload (path host : bytes) (port : Z) (contact : Contact)
  | Download (id host : bytes) (port : Z).

Inductive shown :=
  | Warned
  | Status (msg : bytes)
  | ShowError (msg : bytes)
  | KeysProtected (yes : bool)
  | Asked (q : question) (yes : bool)
  | AskedServer (link : ServerAddress) (used_link : option bool)
  | MarkVerified (fp : bytes)
  | Copied (text : bytes)
  | Runs (j : job).

Record Inputs := mkInputs { in_disk : list answer; in_chain : list bool; in_user : list response }.
Record Settings := mkSettings { key_protection_decided : bool; server_setting : option bytes; display_name : option bytes }.

(** The widgets that later operations read, and what they keep.
    src/client/main_window.h 34-58 MainWindow *)
Record Form := mkForm {
  server_edit : bytes;
  combo_items : list (bytes * bytes);
  combo_data : bytes;
  busy : bool;
  last_server : ServerAddress;
  current_transfer_id : bytes;
  current_share_link : bytes;
}.

Record Window := mkWindow {
  wn_store : KeyStore;
  wn_chain : gmap bytes bytes;
  wn_settings : Settings;
  wn_form : Form;
  wn_in : Inputs;
  wn_shown : list shown;
}.

Definition W (A : Type) : Type := Window -> result A * Window.
Definition wret {A} (a : A) : W A := fun w => (Returned a, w).
Definition wbind {A B} (m : W A) (k : A -> W B) : W B := fun w =>
  match m w with
  | (Returned a, w) => k a w
  | (Threw what, w) => (Threw what, w)
  | (Stopped, w) => (Stopped, w)
  end.
(** [try] and [catch (const std::exception&)]. *)
Definition wtry {A} (m : W A) (handler : string -> W A) : W A := fun w =>
  match m w with
  | (Threw what, w) => handler what w
  | r => r
  end.

Declare Scope window_scope.
Delimit Scope window_scope with window.
Notation "'do' x <- m ; k" := (wbind m (fun x => k)) (at level 100, x pattern, m at next level, k at level 200, right associativity) : window_scope.
#[local] Open Scope window_scope.

Definition from_store {A} (m : M A) : W A := fun w =>
  let '(r, disk, ks) := m w.(wn_in).(in_disk) w.(wn_store) in
  (r, mkWindow ks w.(wn_chain) w.(wn_settings) w.(wn_form) (mkInputs disk w.(wn_in).(in_chain) w.(wn_in).(in_user)) w.(wn_shown)).
Definition the_store : W KeyStore := fun w => (Returned w.(wn_store), w).
Definition the_form : W Form := fun w => (Returned w.(wn_form), w).
Definition the_settings : W Settings := fun w => (Returned w.(wn_settings), w).
Definition show (s : shown) : W unit := fun w =>
  (Returned tt, mkWindow w.(wn_store) w.(wn_chain) w.(wn_settings) w.(wn_form) w.(wn_in) (w.(wn_shown) ++ [s])).
Definition set_form (f : Form -> Form) : W unit := fun w =>
  (Returned tt, mkWindow w.(wn_store) w.(wn_chain) w.(wn_settings) (f w.(wn_form)) w.(wn_in) w.(wn_shown)).
Definition set_settings (f : Settings -> Settings) : W unit := fun w =>
  (Returned tt, mkWindow w.(wn_store) w.(wn_chain) (f w.(wn_settings)) w.(wn_form) w.(wn_in) w.(wn_shown)).

(** What the user does with the next dialog; nothing more: it is closed. *)
Definition next_response : W (option response) := fun w =>
  match w.(wn_in).(in_user) with
  | [] => (Returned None, w)
  | r :: rest => (Returned (Some r), mkWindow w.(wn_store) w.(wn_chain) w.(wn_settings) w.(wn_form)
                                       (mkInputs w.(wn_in).(in_disk) w.(wn_in).(in_chain) rest) w.(wn_shown))
  end.

(** A question with Yes and No. *)
Definition ask_user (q : question) : W bool :=
  do r <- next_response;
  let yes := match r with Some (Answers yes) => yes | _ => false end in
  do _ <- show (Asked q yes);
  wret yes.

(** A job of the keychain: whether it works, and what it does then. *)
Definition chain_job (f : gmap bytes bytes -> gmap bytes bytes) : W bool := fun w =>
  let '(works, rest) := match w.(wn_in).(in_chain) with b :: rest => (b, rest) | [] => (true, []) end in
  (Returned works, mkWindow w.(wn_store) (if works : bool then f w.(wn_chain) else w.(wn_chain)) w.(wn_settings) w.(wn_form)
                     (mkInputs w.(wn_in).(in_disk) rest w.(wn_in).(in_user)) w.(wn_shown)).
Definition the_chain : W (gmap bytes bytes) := fun w => (Returned w.(wn_chain), w).

Definition decided (s : Settings) : Settings := mkSettings true s.(server_setting) s.(display_name).

Section window.
Context `{P : Primitives}.
(** Whether the program was built with QtKeychain; [QString]'s [normalized] and
    [trimmed], on UTF-8. *)
Context (has_keychain : bool) (nfc trimmed : bytes -> bytes).

(** ** keychain.cpp *)

(** src/client/keychain.cpp 31-31 available *)
Definition available : bool := has_keychain.

(** src/client/keychain.cpp 33-41 load *)
Definition chain_load (account : bytes) : W (option bytes) :=
  if negb has_keychain then wret None else
  do works <- chain_job id;
  do chain <- the_chain;
  wret (if negb works then None else match chain !! account with Some (c :: text) => Some (c :: text) | _ => None end).

(** src/client/keychain.cpp 43-49 store *)
Definition chain_store (account secret : bytes) : W bool :=
  if negb has_keychain then wret false else chain_job <[account := secret]>.

(** An entry that is not there is no failure.
    src/client/keychain.cpp 51-57 remove *)
Definition chain_remove (account : bytes) : W bool :=
  if negb has_keychain then wret true else chain_job (delete account).

(** ** key_dialogs.cpp *)

(** src/client/key_dialogs.cpp 45-47 to_passphrase *)
Definition to_passphrase (text : bytes) : bytes := nfc text.

(** src/client/key_dialogs.cpp 51-115 ask_new_passphrase *)
Fixpoint new_passphrase_dialog (allow_skip : bool) (ps : list press) : PassphraseChoice :=
  match ps with
  | [] => no_choice
  | PressOk field confirm ticked :: ps =>
      let typed := to_passphrase field in
      if negb (is_acceptable_passphrase typed) then new_passphrase_dialog allow_skip ps else
      if negb (bool_decide (typed = to_passphrase confirm)) then new_passphrase_dialog allow_skip ps else
      mkPassphraseChoice Accepted typed (available && ticked)
  | PressSkip :: ps => if allow_skip then mkPassphraseChoice Skipped [] false else new_passphrase_dialog allow_skip ps
  | PressCancel :: ps => if allow_skip then new_passphrase_dialog allow_skip ps else no_choice
  end.

(** src/client/key_dialogs.cpp 117-155 ask_existing_passphrase *)
Fixpoint existing_passphrase_dialog (offer_remember : bool) (ps : list press) : PassphraseChoice :=
  match ps with
  | [] => no_choice
  | PressOk field _ ticked :: ps =>
      if is_empty field then existing_passphrase_dialog offer_remember ps else
      mkPassphraseChoice Accepted (to_passphrase field) (offer_remember && available && ticked)
  | PressSkip :: ps => existing_passphrase_dialog offer_remember ps
  | PressCancel :: _ => no_choice
  end.

Definition ask_new_passphrase (allow_skip : bool) : W PassphraseChoice :=
  do r <- next_response;
  wret (match r with Some (Presses ps) => new_passphrase_dialog allow_skip ps | _ => no_choice end).
Definition ask_existing_passphrase (offer_remember : bool) : W PassphraseChoice :=
  do r <- next_response;
  wret (match r with Some (Presses ps) => existing_passphrase_dialog offer_remember ps | _ => no_choice end).

(** ** Key protection *)

(** src/client/main_window.cpp 294-297 keychain_account *)
Definition keychain_account (ks : KeyStore) : bytes := str "key-passphrase-" ++ ztake 16 (own_fingerprint ks).

(** src/client/main_window.cpp 299-306 remember_passphrase *)
Definition remember_passphrase (passphrase : bytes) : W unit :=
  do ks <- the_store;
  do stored <- chain_store (keychain_account ks) passphrase;
  if stored then wret tt else show Warned.

(** [while (true)]: every round takes what the user does with a dialog, and a dialog
    that is only closed ends the loop.
    src/client/main_window.cpp 368-386 unlock_keys *)
Fixpoint unlock_loop (fuel : nat) (r : Salts) : W (option bytes) :=
  let locked := str "Your keys are locked. Restart the app and enter your passphrase to continue." in
  match fuel with
  | O => wret (Some locked)
  | S fuel =>
      do choice <- ask_existing_passphrase true;
      if negb (bool_decide (choice.(pc_outcome) = Accepted)) then wret (Some locked) else
      do unlocked <- wtry (do ok <- from_store (unlock r choice.(pc_passphrase)); wret (inr ok)) (fun what => wret (inl what));
      match unlocked with
      | inl what => wret (Some (str what))
      | inr true => do _ <- (if choice.(pc_remember) then remember_passphrase choice.(pc_passphrase) else wret tt); wret None
      | inr false => unlock_loop fuel r
      end
  end.

(** The problem, if there is one.
    src/client/main_window.cpp 355-387 unlock_keys *)
Definition unlock_keys (r : Salts) : W (option bytes) :=
  do ks <- the_store;
  let account := keychain_account ks in
  let ask_for_it : W (option bytes) := fun w => unlock_loop (S (length w.(wn_in).(in_user))) r w in
  do saved <- chain_load account;
  match saved with
  | Some saved =>
      do unlocked <- wtry (do ok <- from_store (unlock r saved); wret (inr ok)) (fun what => wret (inl what));
      match unlocked with
      | inl what => wret (Some (str what))
      | inr true => wret None
      | inr false => do _ <- chain_remove account; ask_for_it
      end
  | None => ask_for_it
  end.

(** src/client/main_window.cpp 309-353 setup_keys *)
Definition setup_keys (kem_seed sig_seed : bytes) (r : Salts) : W (option bytes) :=
  do ks <- the_store;
  if negb (keys_exist ks) then
    do choice <- ask_new_passphrase true;
    if bool_decide (choice.(pc_outcome) = Cancelled)
    then wret (Some (str "Setup was cancelled. Restart the app to set up your keys.")) else
    let protect := bool_decide (choice.(pc_outcome) = Accepted) in
    do _ <- from_store (initialize_keys kem_seed sig_seed r (if protect then choice.(pc_passphrase) else []));
    do _ <- set_settings decided;
    do _ <- (if protect && choice.(pc_remember) then remember_passphrase choice.(pc_passphrase) else wret tt);
    wret None
  else
  do _ <- from_store (initialize_keys kem_seed sig_seed r []);
  do ks <- the_store;
  if private_keys_locked ks then unlock_keys r else
  do settings <- the_settings;
  if negb (private_keys_protected ks) && negb settings.(key_protection_decided) then
    do choice <- ask_new_passphrase true;
    match choice.(pc_outcome) with
    | Accepted =>
        do done_ <- wtry (do _ <- from_store (set_passphrase r choice.(pc_passphrase)); wret true) (fun _ => do _ <- show Warned; wret false);
        if negb done_ then wret None else
        do _ <- set_settings decided;
        do _ <- (if choice.(pc_remember) then remember_passphrase choice.(pc_passphrase) else wret tt);
        wret None
    | Skipped => do _ <- set_settings decided; wret None
    | Cancelled => wret None
    end
  else wret None.

(** src/client/main_window.cpp 389-397 update_key_status *)
Definition update_key_status : W unit :=
  do ks <- the_store; show (KeysProtected (private_keys_protected ks)).

(** src/client/main_window.cpp 399-413 set_passphrase_action *)
Definition set_passphrase_action (r : Salts) : W unit :=
  do choice <- ask_new_passphrase false;
  if negb (bool_decide (choice.(pc_outcome) = Accepted)) then wret tt else
  do done_ <- wtry (do _ <- from_store (set_passphrase r choice.(pc_passphrase)); wret true) (fun _ => do _ <- show Warned; wret false);
  if negb done_ then wret tt else
  do _ <- set_settings decided;
  do _ <- (if choice.(pc_remember) then remember_passphrase choice.(pc_passphrase) else wret tt);
  do _ <- update_key_status;
  show (Status (str "Your keys are now protected by a passphrase")).

(** [verify_passphrase], whose exceptions the actions do not catch. *)
Definition verified (passphrase : bytes) : W bool :=
  do ks <- the_store; from_store (of_exc (verify_passphrase ks passphrase)).

(** src/client/main_window.cpp 415-436 change_passphrase_action *)
Definition change_passphrase_action (r : Salts) : W unit :=
  do current <- ask_existing_passphrase false;
  if negb (bool_decide (current.(pc_outcome) = Accepted)) then wret tt else
  do genuine <- verified current.(pc_passphrase);
  if negb genuine then show Warned else
  do fresh <- ask_new_passphrase false;
  if negb (bool_decide (fresh.(pc_outcome) = Accepted)) then wret tt else
  do done_ <- wtry (do _ <- from_store (set_passphrase r fresh.(pc_passphrase)); wret true) (fun _ => do _ <- show Warned; wret false);
  if negb done_ then wret tt else
  do _ <- (if available then
             if fresh.(pc_remember) then remember_passphrase fresh.(pc_passphrase)
             else do ks <- the_store; do _ <- chain_remove (keychain_account ks); wret tt
           else wret tt);
  do _ <- update_key_status;
  show (Status (str "Passphrase changed")).

(** src/client/main_window.cpp 438-465 remove_passphrase_action *)
Definition remove_passphrase_action : W unit :=
  do sure <- ask_user AskUnprotect;
  if negb sure then wret tt else
  do current <- ask_existing_passphrase false;
  if negb (bool_decide (current.(pc_outcome) = Accepted)) then wret tt else
  do genuine <- verified current.(pc_passphrase);
  if negb genuine then show Warned else
  do done_ <- wtry (do _ <- from_store remove_passphrase; wret true) (fun _ => do _ <- show Warned; wret false);
  if negb done_ then wret tt else
  do ks <- the_store;
  do _ <- chain_remove (keychain_account ks);
  do _ <- set_settings decided;
  do _ <- update_key_status;
  show (Status (str "The passphrase was removed. Your keys are stored without protection")).

(** src/client/main_window.cpp 467-470 forget_saved_passphrase *)
Definition forget_saved_passphrase : W unit :=
  do ks <- the_store;
  do _ <- chain_remove (keychain_account ks);
  show (Status (str "Saved passphrase removed. You will be asked for it next time you start the app")).

Inductive key_action :=
  | SetPassphrase (r : Salts)
  | ChangePassphrase (r : Salts)
  | RemovePassphrase
  | ForgetSaved.

(** The menu behind a button that is disabled while a transfer runs; its entries are
    enabled as it is opened.
    src/client/main_window.cpp 155-165 MainWindow *)
Definition key_menu (a : key_action) : W unit :=
  do form <- the_form;
  if form.(busy) then wret tt else
  do ks <- the_store;
  let protected_keys := private_keys_protected ks in
  match a with
  | SetPassphrase r => if negb protected_keys then set_passphrase_action r else wret tt
  | ChangePassphrase r => if protected_keys then change_passphrase_action r else wret tt
  | RemovePassphrase => if protected_keys then remove_passphrase_action else wret tt
  | ForgetSaved => if protected_keys && available then forget_saved_passphrase else wret tt
  end.

(** ** Contacts *)

(** src/client/main_window.cpp 36-36 DEFAULT_SERVER *)
Definition DEFAULT_SERVER : bytes := str "127.0.0.1:9000".

(** What is chosen in the combo box stays chosen if it is still there; the first entry
    is "send to myself", with no name.
    src/client/main_window.cpp 474-499 refresh_contacts *)
Definition refresh_contacts : W unit :=
  do ks <- the_store;
  let label name :=
    name ++ match load_contact ks name with
            | None => str " (invalid keys)"
            | Some c => if negb c.(kem_verified) then str " (key not verified)" else []
            end in
  let items := (str "Myself (test)", []) :: map (fun name => (label name, name)) (list_contacts ks) in
  set_form (fun f =>
    let data := if bool_decide (f.(combo_data) ∈ items.*2) then f.(combo_data) else [] in
    mkForm f.(server_edit) items data f.(busy) f.(last_server) f.(current_transfer_id) f.(current_share_link)).

(** [setCurrentIndex(findData(data))]. *)
Definition select (data : bytes) : W unit :=
  set_form (fun f =>
    mkForm f.(server_edit) f.(combo_items) (if bool_decide (data ∈ f.(combo_items).*2) then data else f.(combo_data))
      f.(busy) f.(last_server) f.(current_transfer_id) f.(current_share_link)).
Definition set_server_edit (text : bytes) : W unit :=
  set_form (fun f => mkForm text f.(combo_items) f.(combo_data) f.(busy) f.(last_server) f.(current_transfer_id) f.(current_share_link)).

(** src/client/main_window.cpp 782-784 save_server_setting *)
Definition save_server_setting : W unit :=
  do form <- the_form;
  set_settings (fun s => mkSettings s.(key_protection_decided) (Some (trimmed form.(server_edit))) s.(display_name)).

(** src/client/main_window.cpp 52-54 configured_server *)
Definition configured_server (f : Form) : option ServerAddress := parse_server_address f.(server_edit).

(** [QInputDialog]: what was typed, unless it was cancelled. *)
Definition get_text : W (option bytes) :=
  do r <- next_response; wret (match r with Some (Types text) => Some text | _ => None end).
(** [QFileDialog]: the path that was chosen, if any, and what is in the file. *)
Definition get_file : W (option (bytes * bytes)) :=
  do r <- next_response;
  wret (match r with Some (Chooses path content) => if is_empty path then None else Some (path, content) | _ => None end).

(** src/client/main_window.cpp 514-538 ask_contact_name *)
Definition ask_contact_name : W (option bytes) :=
  do text <- get_text;
  match trimmed <$> text with
  | None | Some [] => wret None
  | Some name =>
      if negb (is_valid_contact_name name) then do _ <- show Warned; wret None else
      do ks <- the_store;
      if negb (contact_exists ks name) then wret (Some name) else
      do yes <- ask_user (AskReplace name);
      wret (if yes : bool then Some name else None)
  end.

(** What is saved once the fingerprint is confirmed.
    src/client/main_window.cpp 666-671 finish_add_contact *)
Definition save_new_contact (name pub_kem pub_dsa : bytes) (bundle : option IdentityBundle) (send_token : bytes) : M unit :=
  match bundle with
  | Some b => mbind (save_contact_bundle name b) (fun _ => if size send_token =? 32 then save_contact_token name send_token else ret tt)
  | None => save_contact name pub_kem pub_dsa
  end.

(** A server that a card suggests is used only if the user says so.
    src/client/main_window.cpp 685-700 finish_add_contact *)
Definition suggest_server (card_server : bytes) : W unit :=
  match parse_server_address card_server with
  | None => wret tt
  | Some suggested =>
      do form <- the_form;
      if match configured_server form with Some current => same_server current suggested | None => false end then wret tt else
      do yes <- ask_user (AskServer suggested);
      if yes : bool then do _ <- set_server_edit (format_server_address suggested); save_server_setting else wret tt
  end.

(** src/client/main_window.cpp 631-701 finish_add_contact *)
Definition finish_add_contact (name pub_kem pub_dsa card_server : bytes) (bundle : option IdentityBundle) (send_token : bytes) : W unit :=
  let fp := fingerprint pub_dsa in
  do ks <- the_store;
  if bool_decide (fp = own_fingerprint ks) then show Warned else
  if match find_contact_by_fingerprint ks fp with Some existing => negb (bool_decide (existing.(co_name) = name)) | None => false end
  then show Warned else
  do yes <- ask_user (AskFingerprint fp);
  if negb yes then wret tt else
  do saved <- wtry (do _ <- from_store (save_new_contact name pub_kem pub_dsa bundle send_token); wret true)
                (fun _ => do _ <- show Warned; wret false);
  if negb saved then wret tt else
  do _ <- show (MarkVerified fp);
  do _ <- refresh_contacts;
  do _ <- select name;
  do _ <- show (Status (str "Contact added: " ++ name));
  suggest_server card_server.

(** The result of importing a card of someone known.
    src/client/main_window.cpp 561-584 add_contact_from_card *)
Definition report_import (bundle : IdentityBundle) (send_token : bytes) (outcome : BundleImport) : W unit :=
  let who := outcome.(bi_contact_name) in
  match outcome.(bi_result) with
  | Updated =>
      do _ <- show (Status (str "Updated " ++ who ++ str "'s contact card."
                      ++ (if outcome.(was_unverified) then str " Their encryption key is now verified." else [])
                      ++ (if has_mailbox bundle && negb (is_empty send_token) then str " You can message them." else [])));
      if outcome.(was_unverified) && outcome.(encryption_key_changed) then show Warned else wret tt
  | Unchanged => show (Status (str "You already have this contact card for " ++ who))
  | _ => show Warned
  end.

(** The import is outside of any handler.
    src/client/main_window.cpp 540-603 add_contact_from_card *)
Definition add_contact_from_card : W unit :=
  do text <- get_text;
  match text with
  | None => wret tt
  | Some text =>
      if is_empty (trimmed text) then wret tt else
      match decode_any_contact_card text with
      | inl _ => show Warned
      | inr card =>
          let add_new :=
            do name <- ask_contact_name;
            match name with
            | None => wret tt
            | Some name =>
                finish_add_contact name card.(ic_pub_kem) card.(ic_pub_dsa) card.(ic_server) card.(ic_bundle) card.(ic_send_token)
            end in
          match card.(ic_bundle) with
          | Some bundle =>
              do outcome <- from_store (import_bundle_for_known_identity bundle card.(ic_send_token));
              match outcome.(bi_result) with
              | UnknownIdentity => add_new
              | _ => do _ <- refresh_contacts; report_import bundle card.(ic_send_token) outcome
              end
          | None =>
              do anyway <- ask_user AskOldCard;
              if anyway : bool then add_new else wret tt
          end
      end
  end.

(** src/client/main_window.cpp 44-49 read_small_file *)
Definition read_small_file (content : bytes) (max_size : Z) : bytes :=
  if (size content <=? 0) || (max_size <? size content) then [] else content.

(** src/client/main_window.cpp 605-628 add_contact_from_files *)
Definition add_contact_from_files : W unit :=
  do name <- ask_contact_name;
  match name with
  | None => wret tt
  | Some name =>
      do kem_file <- get_file;
      match kem_file with
      | None => wret tt
      | Some (_, kem_content) =>
          do dsa_file <- get_file;
          match dsa_file with
          | None => wret tt
          | Some (_, dsa_content) =>
              let pub_kem := read_small_file kem_content (64 * 1024) in
              let pub_dsa := read_small_file dsa_content (64 * 1024) in
              let '(pub_kem, pub_dsa) :=
                if (size pub_kem =? sig_public_key_size) && (size pub_dsa =? kem_public_key_size) then (pub_dsa, pub_kem) else (pub_kem, pub_dsa) in
              if negb (size pub_kem =? kem_public_key_size) || negb (size pub_dsa =? sig_public_key_size) then show Warned else
              finish_add_contact name pub_kem pub_dsa [] None []
          end
      end
  end.

(** src/client/main_window.cpp 501-511 add_contact *)
Definition add_contact : W unit :=
  do form <- the_form;
  if form.(busy) then wret tt else
  do r <- next_response;
  match r with
  | Some (Picks O) => add_contact_from_card
  | Some (Picks 1) => add_contact_from_files
  | _ => wret tt
  end.

(** src/client/main_window.cpp 703-716 remove_contact *)
Definition remove_contact (remains : bytes -> bool) : W unit :=
  do form <- the_form;
  if form.(busy) || is_empty form.(combo_data) then wret tt else
  let name := form.(combo_data) in
  do yes <- ask_user (AskRemove name);
  if negb yes then wret tt else
  do removed <- wtry (do _ <- from_store (delete_contact remains name); wret true) (fun _ => do _ <- show Warned; wret false);
  if negb removed then wret tt else
  do _ <- refresh_contacts;
  show (Status (str "Contact removed: " ++ name)).

(** While messaging is not set up: then the Chats tab makes the card.
    src/client/main_window.cpp 724-759 copy_contact_card *)
Definition copy_contact_card (rand : bytes) (now : Z) : W unit :=
  do form <- the_form;
  if form.(busy) then wret tt else
  do text <- get_text;
  match trimmed <$> text with
  | None | Some [] => wret tt
  | Some name =>
      if 64 <? size name then show Warned else
      do _ <- set_settings (fun s => mkSettings s.(key_protection_decided) s.(server_setting) (Some name));
      let relay_hint := match configured_server form with Some server => format_server_address server | None => [] end in
      do ks <- the_store;
      match make_own_bundle_hint rand now ks name relay_hint with
      | Throw _ => show Warned
      | Ret bundle =>
          do _ <- show (Copied (encode_contact_card_v2 bundle));
          show (Status (str "Contact card copied to clipboard"))
      end
  end.

(** ** Transfers *)

(** A transfer begins: the job, and the buttons that are disabled meanwhile.
    src/client/main_window.cpp 893-908 run_in_background *)
Definition run_in_background (j : job) : W unit :=
  do _ <- set_form (fun f => mkForm f.(server_edit) f.(combo_items) f.(combo_data) true f.(last_server) f.(current_transfer_id) f.(current_share_link));
  do _ <- show (Status (str "Working..."));
  show (Runs j).

(** src/client/main_window.cpp 786-832 start_send *)
Definition start_send : W unit :=
  do form <- the_form;
  if form.(busy) then wret tt else
  match configured_server form with
  | None => show Warned
  | Some server =>
      do ks <- the_store;
      let contact_name := form.(combo_data) in
      match (if is_empty contact_name then Some (self_contact ks) else load_contact ks contact_name) with
      | None => show Warned
      | Some recipient =>
          do send <- (if negb recipient.(kem_verified) then ask_user (AskUnverified contact_name) else wret true);
          if negb send then wret tt else
          do file <- get_file;
          match file with
          | None => wret tt
          | Some (filepath, _) =>
              do _ <- save_server_setting;
              do _ <- set_form (fun f => mkForm f.(server_edit) f.(combo_items) f.(combo_data) f.(busy) server [] []);
              run_in_background (Upload filepath server.(sa_host) server.(sa_port) recipient)
          end
      end
  end.

(** Which server a link is downloaded from: the one that is set, or the link's if the
    user picks it; nothing when the question is cancelled.
    src/client/main_window.cpp 858-879 start_receive *)
Definition choose_server (server : ServerAddress) (link : ShareLink) : W (option ServerAddress) :=
  if same_server link.(sl_server) server then wret (Some server) else
  do r <- next_response;
  let used_link := match r with Some (Picks O) => Some true | Some (Picks 1) => Some false | _ => None end in
  do _ <- show (AskedServer link.(sl_server) used_link);
  wret (match used_link with Some true => Some link.(sl_server) | Some false => Some server | None => None end).

(** [startsWith("pqft://", Qt::CaseInsensitive)]. *)
Definition is_link (input : bytes) : bool := bool_decide (map to_lower (ztake 7 input) = LINK_PREFIX).

(** src/client/main_window.cpp 834-891 start_receive *)
Definition start_receive : W unit :=
  do form <- the_form;
  if form.(busy) then wret tt else
  match configured_server form with
  | None => show Warned
  | Some server =>
      do text <- get_text;
      match trimmed <$> text with
      | None | Some [] => wret tt
      | Some input =>
          let begin (id : bytes) (server : ServerAddress) :=
            do _ <- save_server_setting;
            run_in_background (Download id server.(sa_host) server.(sa_port)) in
          if negb (is_link input) then begin input server else
          match parse_share_link input with
          | None => show Warned
          | Some link =>
              do chosen <- choose_server server link;
              match chosen with
              | None => wret tt
              | Some server => begin link.(sl_transfer_id) server
              end
          end
      end
  end.

(** The end of the job.
    src/client/main_window.cpp 910-922 set_busy *)
Definition job_ends : W unit :=
  set_form (fun f => mkForm f.(server_edit) f.(combo_items) f.(combo_data) false f.(last_server) f.(current_transfer_id) f.(current_share_link)).

(** src/client/main_window.cpp 966-973 show_transfer_id *)
Definition show_transfer_id (id : bytes) : W unit :=
  set_form (fun f => mkForm f.(server_edit) f.(combo_items) f.(combo_data) f.(busy) f.(last_server) id (build_share_link f.(last_server) id)).

(** src/client/main_window.cpp 924-928 copy_share_link *)
Definition copy_share_link : W unit :=
  do form <- the_form;
  if is_empty form.(current_share_link) then wret tt else
  do _ <- show (Copied form.(current_share_link)); show (Status (str "Share link copied to clipboard")).

(** src/client/main_window.cpp 930-934 copy_transfer_id *)
Definition copy_transfer_id : W unit :=
  do form <- the_form;
  if is_empty form.(current_transfer_id) then wret tt else
  do _ <- show (Copied form.(current_transfer_id)); show (Status (str "Transfer ID copied to clipboard")).

(** ** The whole *)

(** The program starts with the keys locked in memory and a new form. True if the
    window is usable.
    src/client/main_window.cpp 108-124 MainWindow *)
Definition start (kem_seed sig_seed : bytes) (r : Salts) : W bool := fun w =>
  (do problem <- wtry (setup_keys kem_seed sig_seed r) (fun what => wret (Some (str "Key setup failed: " ++ str what)));
   match problem with
   | Some problem => do _ <- show (ShowError problem); wret false
   | None => do _ <- update_key_status; do _ <- refresh_contacts; wret true
   end)
  (mkWindow (lock w.(wn_store)) w.(wn_chain) w.(wn_settings)
     (mkForm (default DEFAULT_SERVER w.(wn_settings).(server_setting)) [] [] false (mkServerAddress [] DEFAULT_RELAY_PORT) [] [])
     w.(wn_in) w.(wn_shown)).

(** What a user, or the transfer engine, does with the window. *)
Inductive window_op :=
  | Start (kem_seed sig_seed : bytes) (r : Salts)
  | KeyMenu (a : key_action)
  | AddContact
  | RemoveContact (remains : bytes -> bool)
  | CopyCard (rand : bytes) (now : Z)
  | EditServer (text : bytes)
  | SelectContact (name : bytes)
  | Send
  | Receive
  | JobEnds
  | TransferId (id : bytes)
  | CopyLink
  | CopyId.

(** Widgets that are disabled while a transfer runs. *)
Definition unless_busy (m : W unit) : W unit := do form <- the_form; if form.(busy) then wret tt else m.

Definition forget {A} (m : W A) : W unit := do _ <- m; wret tt.
Definition run_window (o : window_op) : W unit :=
  match o with
  | Start kem_seed sig_seed r => forget (start kem_seed sig_seed r)
  | KeyMenu a => key_menu a
  | AddContact => add_contact
  | RemoveContact remains => remove_contact remains
  | CopyCard rand now => copy_contact_card rand now
  | EditServer text => unless_busy (do _ <- set_server_edit text; save_server_setting)
  | SelectContact name => unless_busy (select name)
  | Send => start_send
  | Receive => start_receive
  | JobEnds => job_ends
  | TransferId id => show_transfer_id id
  | CopyLink => copy_share_link
  | CopyId => copy_transfer_id
  end.

(** A step, with what the user does with its dialogs and what the disk and the keychain
    answer; what was shown before is no matter. *)
Definition step_window (w : Window) (s : window_op * Inputs) : Window :=
  (run_window s.1 (mkWindow w.(wn_store) w.(wn_chain) w.(wn_settings) w.(wn_form) s.2 [])).2.
End window.
