(* ===== verification/WindowProps.v ===== *)
(** * What the window lets happen

    The keys stay protected as long as nobody types the passphrase, a passphrase that is
    remembered opens them at the next start, contacts change only when the user confirmed
    a fingerprint or a known person signed, and transfers go where the user said. *)

From Stdlib Require Import ZArith Lia.
From stdpp Require Import base list strings gmap.
From S2P Require Import Prelude Wire Text Protocol Crypto MessageRecord IdentityBundle Attachment KeyStore KeyStoreProps KeyStoreContacts Sharing Window.
#[local] Open Scope Z_scope.
#[local] Open Scope window_scope.

(** ** What every operation keeps *)

(** However [m] ends, [I] holds afterwards as before, and [Q] of what it returns. *)
Definition keeping {A} (I : Window -> Prop) (m : W A) (Q : A -> Prop) : Prop :=
  forall w r w', I w -> m w = (r, w') -> I w' /\ match r with Returned a => Q a | _ => True end.

Section logic.
Variable I : Window -> Prop.

Lemma keeping_ret {A} (a : A) (Q : A -> Prop) : Q a -> keeping I (wret a) Q.
Proof. by intros HQ w r w' HI [= <- <-]. Qed.
Lemma keeping_bind {A B} (m : W A) (k : A -> W B) Q R :
  keeping I m Q -> (forall a, Q a -> keeping I (k a) R) -> keeping I (wbind m k) R.
Proof.
  intros Hm Hk w r w' HI. unfold wbind. destruct (m w) as [[a|what|] w1] eqn:E; destruct (Hm _ _ _ HI E) as [H1 HQ].
  - by apply Hk.
  - by intros [= <- <-].
  - by intros [= <- <-].
Qed.
Lemma keeping_any {A} (m : W A) Q : keeping I m Q -> keeping I m (fun _ => True).
Proof. intros Hm w r w' HI E. destruct (Hm w r w' HI E). by destruct r. Qed.
Lemma keeping_try {A} (m : W A) h Q : keeping I m Q -> (forall what, keeping I (h what) Q) -> keeping I (wtry m h) Q.
Proof.
  intros Hm Hh w r w' HI. unfold wtry. destruct (m w) as [[a|what|] w1] eqn:E; destruct (Hm _ _ _ HI E) as [H1 HQ].
  - by intros [= <- <-].
  - by apply Hh.
  - by intros [= <- <-].
Qed.
Lemma keeping_if {A} (b : bool) (m1 m2 : W A) Q :
  (b = true -> keeping I m1 Q) -> (b = false -> keeping I m2 Q) -> keeping I (if b then m1 else m2) Q.
Proof. destruct b; auto. Qed.

Lemma keeping_the_store : keeping I the_store (fun ks => exists w, I w /\ ks = w.(wn_store)).
Proof. intros w r w' HI [= <- <-]. eauto. Qed.
Lemma keeping_the_form : keeping I the_form (fun _ => True).
Proof. by intros w r w' HI [= <- <-]. Qed.
Lemma keeping_the_settings : keeping I the_settings (fun _ => True).
Proof. by intros w r w' HI [= <- <-]. Qed.
End logic.

(** An invariant of the store, of what the user is still to do, and of what was shown. *)
Definition of_store (J : KeyStore -> Prop) (U : list response -> Prop) (V : list shown -> Prop) (w : Window) : Prop :=
  J w.(wn_store) /\ U w.(wn_in).(in_user) /\ V w.(wn_shown).
Definition goes_on (U : list response -> Prop) : Prop := forall r rest, U (r :: rest) -> U rest.
Definition grows (V : list shown -> Prop) : Prop := forall s l, V l -> V (l ++ [s]).

Section store_logic.
Variables (J : KeyStore -> Prop) (U : list response -> Prop) (V : list shown -> Prop).
Hypothesis Htail : goes_on U.
Hypothesis Hmore : grows V.
Abbreviation I := (of_store J U V).

Lemma keeping_store {A} (m : M A) (Q : A -> Prop) :
  (forall d ks r d' ks', J ks -> m d ks = (r, d', ks') -> J ks' /\ match r with Returned a => Q a | _ => True end) ->
  keeping I (from_store m) Q.
Proof.
  intros Hm w r w' [HJ HU]. unfold from_store. destruct (m _ _) as [[r1 d] ks] eqn:E. intros [= <- <-].
  destruct (Hm _ _ _ _ _ HJ E). done.
Qed.
Lemma keeping_show s : keeping I (show s) (fun _ => True).
Proof. intros w r w' (HJ & HU & HV) [= <- <-]. split; [|done]. split_and!; [done..|by apply Hmore]. Qed.
Lemma keeping_set_form f : keeping I (set_form f) (fun _ => True).
Proof. by intros w r w' HI [= <- <-]. Qed.
Lemma keeping_set_settings f : keeping I (set_settings f) (fun _ => True).
Proof. by intros w r w' HI [= <- <-]. Qed.
Lemma keeping_next_response : keeping I next_response (fun r => match r with Some r => exists rest, U (r :: rest) | None => True end).
Proof.
  intros w r w' (HJ & HU & HV). unfold next_response. destruct (in_user (wn_in w)) as [|x rest] eqn:E; intros [= <- <-].
  - split; [|done]. split_and!; [done|by rewrite E|done].
  - split; [|eauto]. split_and!; [done|by eapply Htail|done].
Qed.
Lemma keeping_chain_job f : keeping I (chain_job f) (fun _ => True).
Proof. intros w r w' (HJ & HU & HV). unfold chain_job. by destruct (in_chain (wn_in w)); intros [= <- <-]. Qed.
Lemma keeping_the_chain : keeping I the_chain (fun _ => True).
Proof. by intros w r w' HI [= <- <-]. Qed.
Lemma keeping_ask_user q : keeping I (ask_user q) (fun _ => True).
Proof.
  unfold ask_user. eapply keeping_bind; [apply keeping_next_response|]. intros r _. cbv zeta.
  eapply keeping_bind; [apply keeping_show|]. intros _ _. by apply keeping_ret.
Qed.
Lemma keeping_get_text : keeping I get_text (fun _ => True).
Proof. unfold get_text. eapply keeping_bind; [apply keeping_next_response|]. intros r _. by apply keeping_ret. Qed.
Lemma keeping_get_file : keeping I get_file (fun _ => True).
Proof. unfold get_file. eapply keeping_bind; [apply keeping_next_response|]. intros r _. by apply keeping_ret. Qed.
End store_logic.

Create HintDb window.
#[export] Hint Resolve keeping_the_form keeping_the_settings keeping_the_chain keeping_show keeping_set_form
  keeping_set_settings keeping_chain_job keeping_ask_user keeping_get_text keeping_get_file : window.

(** The pieces of an operation, one after another. *)
Ltac keeps_on :=
  repeat first
    [ progress cbv zeta
    | lazymatch goal with
      | |- keeping _ (wret _) _ => apply keeping_ret; exact Logic.I
      | |- keeping _ (wtry _ _) _ => apply keeping_try; [|intros ?]
      | |- keeping _ (if _ then _ else _) _ => first [apply keeping_if; intros ?|case_match]
      | |- keeping _ (match _ with _ => _ end) _ => case_match
      | |- keeping _ (wbind _ _) _ => first [eapply keeping_bind; [solve [eauto 3 with window]|intros ? ?; cbv beta in *]
                                          |apply keeping_bind with (Q := fun _ => True); [|intros ? _]]
      end
    | solve [eapply keeping_any; eauto 3 with window] ].

(** What the contacts and the transfers share leaves the store alone. *)
Section shared.
Context `{P : Primitives} (trimmed : bytes -> bytes).
Variables (J : KeyStore -> Prop) (U : list response -> Prop) (V : list shown -> Prop).
Hypothesis Htail : goes_on U.
Hypothesis Hmore : grows V.
#[local] Hint Resolve Htail Hmore : window.
Abbreviation I := (of_store J U V).

Lemma keeping_store_any : keeping I the_store (fun _ => True).
Proof. eapply keeping_any, keeping_the_store. Qed.
#[local] Hint Resolve keeping_store_any : window.
Lemma keeping_response : keeping I next_response (fun _ => True).
Proof. by eapply keeping_any, keeping_next_response. Qed.
Lemma keeping_refresh : keeping I refresh_contacts (fun _ => True).
Proof. unfold refresh_contacts. keeps_on. Qed.
Lemma keeping_select name : keeping I (select name) (fun _ => True).
Proof. unfold select. keeps_on. Qed.
Lemma keeping_save_server : keeping I (save_server_setting trimmed) (fun _ => True).
Proof. unfold save_server_setting. keeps_on. Qed.
#[local] Hint Resolve keeping_save_server : window.
Lemma keeping_contact_name : keeping I (ask_contact_name trimmed) (fun n => match n with Some name => is_valid_contact_name name = true | None => True end).
Proof.
  unfold ask_contact_name. keeps_on.
  all: match goal with Hv : negb (is_valid_contact_name _) = false |- _ => apply negb_false_iff in Hv end.
  all: apply keeping_ret; by repeat case_match; simplify_eq.
Qed.
Lemma keeping_suggest server : keeping I (suggest_server trimmed server) (fun _ => True).
Proof. unfold suggest_server, set_server_edit. keeps_on. Qed.
End shared.
#[export] Hint Resolve keeping_response keeping_refresh keeping_select keeping_save_server keeping_contact_name keeping_suggest : window.

(** ** The keys *)

Section window.
Context `{PL : PrimitiveLaws} (has_keychain : bool) (nfc trimmed : bytes -> bytes).

(** Writing a file of a contact leaves the keys alone. *)
Definition spares {A} (m : M A) : Prop := forall d ks r d' ks', m d ks = (r, d', ks') -> ks'.(ks_keys) = ks.(ks_keys).

Lemma spares_ret {A} (a : A) : spares (ret a).
Proof. by intros d ks r d' ks' [= _ _ <-]. Qed.
Lemma spares_throw {A} what : spares (@throw A what).
Proof. by intros d ks r d' ks' [= _ _ <-]. Qed.
Lemma spares_get : spares get.
Proof. by intros d ks r d' ks' [= _ _ <-]. Qed.
Lemma spares_bind {A B} (m : M A) (k : A -> M B) : spares m -> (forall a, spares (k a)) -> spares (mbind m k).
Proof.
  intros Hm Hk d ks r d' ks'. unfold mbind. destruct (m d ks) as [[[a|what|] d1] ks1] eqn:E; pose proof (Hm _ _ _ _ _ E) as H1.
  - intros H2%Hk. congruence.
  - by intros [= _ _ <-].
  - by intros [= _ _ <-].
Qed.
Lemma spares_write n name data : spares (write_file_atomic (Contact_ n) name data).
Proof. by intros d ks r d' ks' (g & -> & _)%write_spec. Qed.
Lemma spares_create f what : (forall ks, (f ks).(ks_keys) = ks.(ks_keys)) -> spares (create_directories f what).
Proof. intros Hf d ks r d' ks'. unfold create_directories, mbind, ask, modify, throw, stop. destruct d as [|[] d]; intros [= _ _ <-]; auto. Qed.
Lemma spares_remove n name : spares (remove_quietly (Contact_ n) name).
Proof. intros d ks r d' ks'. unfold remove_quietly, mbind, ask, modify, ret, stop. by destruct d as [|[] d]; intros [= _ _ <-]. Qed.
Lemma spares_folder n ks : (make_contact_folder n ks).(ks_keys) = ks.(ks_keys).
Proof. unfold make_contact_folder. by destruct (_ !! _). Qed.
Lemma contact_dir_is name dir : contact_dir name = Some dir -> dir = Contact_ name.
Proof. unfold contact_dir. by destruct (_ || _); intros [= <-]. Qed.
#[local] Hint Resolve spares_ret spares_throw spares_get spares_write spares_remove spares_folder : core.

Ltac spare := repeat first [solve [auto]|apply spares_create; solve [auto]|case_match|apply spares_bind; [|intros ?]].

Lemma spares_save_token name token : spares (save_contact_token name token).
Proof. unfold save_contact_token. case_match; [done|]. apply spares_bind; [done|intros ks]. destruct (contact_dir name) eqn:E; [|done]. apply contact_dir_is in E as ->. by case_match. Qed.
Lemma spares_save_bundle name b : spares (save_contact_bundle name b).
Proof. unfold save_contact_bundle. spare. Qed.
Lemma spares_save_contact name k d : spares (save_contact name k d).
Proof. unfold save_contact. spare. Qed.
#[local] Hint Resolve spares_save_token spares_save_bundle spares_save_contact : core.
Lemma spares_save_new name k d b token : spares (save_new_contact name k d b token).
Proof. unfold save_new_contact. spare. Qed.
Lemma spares_import b token : spares (import_bundle_for_known_identity b token).
Proof. unfold import_bundle_for_known_identity. spare. Qed.
Lemma spares_delete remains name : spares (delete_contact remains name).
Proof.
  unfold delete_contact. destruct (contact_dir name) eqn:E; [|done]. apply contact_dir_is in E as ->.
  intros d ks r d' ks'. unfold mbind, ask, modify, throw, stop. by destruct d as [|[] d]; intros [= _ _ <-].
Qed.
(** With key files there, opening the store writes nothing. *)
Lemma initialize_spares kem_seed sig_seed r p d ks res d' ks' :
  is_Some (ks.(ks_keys) !! PRIVATE_KEM) -> initialize_keys kem_seed sig_seed r p d ks = (res, d', ks') -> ks' = ks.
Proof.
  intros [x Hx]. unfold initialize_keys, mbind at 1. destruct (create_directories _ _ d ks) as [[r1 d1] ks1] eqn:E1.
  apply create_directories_id in E1 as ->. destruct r1; [|by intros [= _ _ <-]..].
  unfold mbind at 1. destruct (create_directories _ _ d1 ks) as [[r2 d2] ks2] eqn:E2. apply create_directories_id in E2 as ->.
  destruct r2; [|by intros [= _ _ <-]..]. unfold mbind at 1, get. cbv zeta.
  destruct (_ =? 4); [by case_match; intros [= _ _ <-]|].
  destruct (Z.eqb_spec (size (filter (fun f => exists_in (ks_keys ks) f = true) [PUBLIC_KEM; PRIVATE_KEM; PUBLIC_DSA; PRIVATE_DSA])) 0) as [E|];
    [|by intros [= _ _ <-]].
  assert (PRIVATE_KEM ∈ key_names) as Hn by (unfold key_names; set_solver). by rewrite (none_present ks E _ Hn) in Hx.
Qed.

Definition both_protected (keys : Folder) : Prop :=
  is_protected_blob (read_file_bytes (keys !! PRIVATE_KEM)) = true /\ is_protected_blob (read_file_bytes (keys !! PRIVATE_DSA)) = true.

Lemma protected_is_there (f : option bytes) : is_protected_blob (read_file_bytes f) = true -> is_Some f.
Proof. destruct f; [eauto|]. by vm_compute. Qed.

Lemma read_item_protected ks p path label n o b :
  read_private_item ks p path label n = Ret (Some (o, b)) -> b = is_protected_blob (read_file_bytes (ks.(ks_keys) !! path)).
Proof.
  unfold read_private_item. destruct (is_empty _); [done|]. destruct (is_protected_blob _).
  - destruct (unprotect_secret _ _ _) as [[x|]|]; cbn [exc_bind]; [|done..]. case_match; by intros [= _ <-].
  - cbn [exc_bind]. case_match; by intros [= _ <-].
Qed.

(** Unlocking protected keys writes nothing: there is no interrupted protection. *)
Lemma unlock_spares r p d ks res d' ks' :
  both_protected ks.(ks_keys) -> unlock r p d ks = (res, d', ks') -> ks'.(ks_keys) = ks.(ks_keys).
Proof.
  intros [Hk Hd]. unfold unlock. destruct (is_empty p); [by intros [= _ _ <-]|]. unfold mbind at 1, get, read_private_keys, mbind at 1.
  destruct (read_private_item ks p PRIVATE_KEM _ _) as [[[kem b1]|]|] eqn:E1; cbn [exc_bind of_exc ret throw]; [|by intros [= _ _ <-]..].
  destruct (read_private_item ks p PRIVATE_DSA _ _) as [[[dsa b2]|]|] eqn:E2; cbn [exc_bind of_exc ret throw]; [|by intros [= _ _ <-]..].
  apply read_item_protected in E1 as ->. apply read_item_protected in E2 as ->. rewrite Hk, Hd. cbn. by intros [= _ _ <-].
Qed.

Lemma verify_same ks ks' p : ks'.(ks_keys) = ks.(ks_keys) -> verify_passphrase ks' p = verify_passphrase ks p.
Proof. intros E. unfold verify_passphrase, read_private_keys, read_private_item. by rewrite E. Qed.

(** Nothing that is typed is the passphrase. *)
Definition typed (r : response) (field : bytes) : Prop := exists ps confirm ticked, r = Presses ps /\ PressOk field confirm ticked ∈ ps.

Section ignorant.
Variable ks0 : KeyStore.
Hypothesis Hprot : both_protected ks0.(ks_keys).

Definition ignorant (rs : list response) : Prop :=
  forall r field, r ∈ rs -> typed r field -> verify_passphrase ks0 (to_passphrase nfc field) <> Ret true.
Definition as_it_was : Window -> Prop := of_store (fun ks => ks.(ks_keys) = ks0.(ks_keys)) ignorant (fun _ => True).

Lemma ignorant_tail : goes_on ignorant.
Proof. intros r rest Hi x f Hx. apply Hi. by apply elem_of_cons; right. Qed.
Lemma all_grow : grows (fun _ => True).
Proof. done. Qed.
#[local] Hint Resolve ignorant_tail all_grow : window.

Lemma as_it_was_store {A} (m : M A) : spares m -> keeping as_it_was (from_store m) (fun _ => True).
Proof. intros Hm. apply keeping_store. intros d ks r d' ks' HJ E. rewrite (Hm _ _ _ _ _ E). by destruct r. Qed.

Lemma existing_dialog_typed offer ps :
  (existing_passphrase_dialog has_keychain nfc offer ps).(pc_outcome) = Accepted ->
  exists field confirm ticked, PressOk field confirm ticked ∈ ps /\
    (existing_passphrase_dialog has_keychain nfc offer ps).(pc_passphrase) = to_passphrase nfc field.
Proof.
  induction ps as [|[field confirm ticked| |] ps IH]; cbn; [done| | |done].
  - destruct (is_empty field).
    + intros (f & c & t & Hin & E)%IH. exists f, c, t. split; [by apply elem_of_cons; right|done].
    + intros _. exists field, confirm, ticked. split; [by apply elem_of_cons; left|done].
  - intros (f & c & t & Hin & E)%IH. exists f, c, t. split; [by apply elem_of_cons; right|done].
Qed.

Lemma keeping_existing offer :
  keeping as_it_was (ask_existing_passphrase has_keychain nfc offer)
    (fun c => c.(pc_outcome) = Accepted -> verify_passphrase ks0 c.(pc_passphrase) <> Ret true).
Proof.
  unfold ask_existing_passphrase. eapply keeping_bind; [apply keeping_next_response; exact ignorant_tail|]. intros r Hr. apply keeping_ret.
  destruct r as [[ps| | | |]|]; try done. intros (f & c & t & Hin & E)%existing_dialog_typed. destruct Hr as [rest Hr]. rewrite E.
  eapply Hr; [by apply elem_of_cons; left|]. by exists ps, c, t.
Qed.
Lemma keeping_new skip : keeping as_it_was (ask_new_passphrase has_keychain nfc skip) (fun _ => True).
Proof. unfold ask_new_passphrase. eapply keeping_bind; [apply keeping_next_response; exact ignorant_tail|]. intros r _. by apply keeping_ret. Qed.
Lemma protected_now w : as_it_was w -> both_protected (w.(wn_store)).(ks_keys).
Proof. intros [E _]. unfold both_protected. by rewrite E. Qed.
Lemma keeping_protected : keeping as_it_was the_store (fun ks => ks.(ks_keys) = ks0.(ks_keys)).
Proof. intros w r w' HI [= <- <-]. split; [exact HI|apply HI]. Qed.
Lemma keeping_unlock r p : keeping as_it_was (from_store (unlock r p)) (fun _ => True).
Proof.
  apply keeping_store. intros d ks res d' ks' HJ E. rewrite (unlock_spares _ _ _ _ _ _ _ ltac:(by rewrite HJ) E). by destruct res.
Qed.
Lemma keeping_chain_load account : keeping as_it_was (chain_load has_keychain account) (fun _ => True).
Proof. unfold chain_load. keeps_on. Qed.
Lemma keeping_chain_remove account : keeping as_it_was (chain_remove has_keychain account) (fun _ => True).
Proof. unfold chain_remove. keeps_on. Qed.
Lemma keeping_chain_store account p : keeping as_it_was (chain_store has_keychain account p) (fun _ => True).
Proof. unfold chain_store. keeps_on. Qed.
#[local] Hint Resolve keeping_protected keeping_unlock keeping_chain_load keeping_chain_remove keeping_chain_store keeping_existing keeping_new : window.
Lemma keeping_remember p : keeping as_it_was (remember_passphrase has_keychain p) (fun _ => True).
Proof. unfold remember_passphrase. keeps_on. Qed.
#[local] Hint Resolve keeping_remember : window.

Lemma keeping_try_unlock r p :
  keeping as_it_was (wtry (do ok <- from_store (unlock r p); wret (inr ok)) (fun what => wret (inl what))) (fun _ => True).
Proof. keeps_on. Qed.
#[local] Hint Resolve keeping_try_unlock : window.
Lemma keeping_unlock_loop fuel r : keeping as_it_was (unlock_loop has_keychain nfc fuel r) (fun _ => True).
Proof. induction fuel as [|fuel IH]; cbn [unlock_loop]; keeps_on; try exact IH. Qed.
Lemma keeping_unlock_keys r : keeping as_it_was (unlock_keys has_keychain nfc r) (fun _ => True).
Proof.
  assert (keeping as_it_was (fun w => unlock_loop has_keychain nfc (S (length (in_user (wn_in w)))) r w) (fun _ => True)) as Hloop
    by (intros w; apply keeping_unlock_loop).
  unfold unlock_keys. keeps_on; exact Hloop.
Qed.
#[local] Hint Resolve keeping_unlock_keys : window.
Lemma keeping_initialize kem_seed sig_seed r p : keeping as_it_was (from_store (initialize_keys kem_seed sig_seed r p)) (fun _ => True).
Proof.
  apply keeping_store. intros d ks res d' ks' HJ E. apply initialize_spares in E as ->; [by destruct res|].
  rewrite HJ. apply protected_is_there, Hprot.
Qed.
#[local] Hint Resolve keeping_initialize : window.
Lemma protected_keys ks : ks.(ks_keys) = ks0.(ks_keys) -> private_keys_protected ks = true.
Proof. intros E. unfold private_keys_protected. rewrite E. by rewrite (proj1 Hprot). Qed.

Lemma keeping_setup kem_seed sig_seed r : keeping as_it_was (setup_keys has_keychain nfc kem_seed sig_seed r) (fun _ => True).
Proof.
  unfold setup_keys. keeps_on. exfalso.
  match goal with Hk : ks_keys ?k = _, Hn : negb (private_keys_protected ?k) && _ = true |- _ => by rewrite (protected_keys _ Hk) in Hn end.
Qed.

(** The menu: setting a passphrase is disabled, and the others ask for the current one. *)
Lemma keeping_verified p : verify_passphrase ks0 p <> Ret true -> keeping as_it_was (verified p) (fun b => b = false).
Proof.
  intros Hp. unfold verified. eapply keeping_bind; [apply keeping_protected|]. intros ks Hk. apply keeping_store.
  rewrite (verify_same ks0 ks p) by done. intros d ks1 r d' ks' HJ. unfold of_exc, ret, throw.
  destruct (verify_passphrase ks0 p) as [[]|]; [done|..]; by intros [= <- _ <-].
Qed.
Lemma keeping_verified_choice c :
  (c.(pc_outcome) = Accepted -> verify_passphrase ks0 c.(pc_passphrase) <> Ret true) -> negb (bool_decide (c.(pc_outcome) = Accepted)) = false ->
  keeping as_it_was (verified c.(pc_passphrase)) (fun b => b = false).
Proof. intros Hc E%negb_false_iff%bool_decide_eq_true. by apply keeping_verified, Hc. Qed.
Lemma keeping_key_status : keeping as_it_was update_key_status (fun _ => True).
Proof. unfold update_key_status. keeps_on. Qed.
#[local] Hint Resolve keeping_setup keeping_verified_choice keeping_key_status : window.

Lemma keeping_menu a : keeping as_it_was (key_menu has_keychain nfc a) (fun _ => True).
Proof.
  unfold key_menu, change_passphrase_action, remove_passphrase_action, forget_saved_passphrase. keeps_on; exfalso; try (by simplify_eq).
  match goal with Hk : ks_keys ?k = _, Hn : negb (private_keys_protected ?k) = true |- _ => by rewrite (protected_keys _ Hk) in Hn end.
Qed.

(** Everything else is about contacts and transfers. *)
Lemma keeping_spares {A} (m : M A) : spares m -> keeping as_it_was (from_store m) (fun _ => True).
Proof. apply as_it_was_store. Qed.
#[local] Hint Resolve keeping_spares spares_save_new spares_import spares_delete : window.
Lemma keeping_finish name k d server b token : keeping as_it_was (finish_add_contact trimmed name k d server b token) (fun _ => True).
Proof. unfold finish_add_contact, select. keeps_on. Qed.
#[local] Hint Resolve keeping_finish : window.
Lemma keeping_add_contact : keeping as_it_was (add_contact trimmed) (fun _ => True).
Proof. unfold add_contact, add_contact_from_card, add_contact_from_files, report_import. keeps_on. Qed.
Lemma keeping_run j : keeping as_it_was (run_in_background j) (fun _ => True).
Proof. unfold run_in_background. keeps_on. Qed.
#[local] Hint Resolve keeping_run keeping_add_contact keeping_menu : window.

Lemma keeping_start kem_seed sig_seed r : keeping as_it_was (start has_keychain nfc kem_seed sig_seed r) (fun _ => True).
Proof.
  intros w res w' HI. unfold start. match goal with |- ?m _ = _ -> _ => assert (keeping as_it_was m (fun _ => True)) as Hm by keeps_on end.
  apply Hm. exact HI.
Qed.
#[local] Hint Resolve keeping_start : window.

Lemma keeping_op o : keeping as_it_was (run_window has_keychain nfc trimmed o) (fun _ => True).
Proof.
  destruct o; cbn [run_window]; unfold forget, remove_contact, copy_contact_card, start_send, start_receive, choose_server, job_ends,
    show_transfer_id, copy_share_link, copy_transfer_id, unless_busy, select, set_server_edit; keeps_on.
Qed.
End ignorant.

Lemma steps_keep ks0 steps : forall w,
  both_protected ks0.(ks_keys) -> w.(wn_store).(ks_keys) = ks0.(ks_keys) ->
  (forall s r field, s ∈ steps -> r ∈ s.2.(in_user) -> typed r field -> verify_passphrase ks0 (to_passphrase nfc field) <> Ret true) ->
  (foldl (step_window has_keychain nfc trimmed) w steps).(wn_store).(ks_keys) = ks0.(ks_keys).
Proof.
  induction steps as [|s steps IH]; [done|]. intros w Hprot E Hign. cbn [foldl]. apply IH; [done| |].
  - unfold step_window. destruct (run_window _ _ _ _ _) as [res w'] eqn:Er.
    eapply (keeping_op ks0 Hprot) in Er as [[HJ _] _]; [exact HJ|]. split; [exact E|split; [|done]].
    intros r field Hr Ht. eapply Hign; [by apply elem_of_cons; left|exact Hr|exact Ht].
  - intros s' r field Hs. apply Hign. by apply elem_of_cons; right.
Qed.

(** C15: the keys stay protected. With both private keys protected by a passphrase, let
    the window be used in any way and as long as one likes, and started again and again,
    with the disk and the keychain working or failing: as long as nothing that is typed
    into a passphrase dialog is a passphrase that verifies, the key files are, to the
    byte, what they were. So nobody at the computer takes the protection away, or puts
    another passphrase in its place, who does not know the one there is; that the keys
    may be unlocked at the time does not help. *)
Theorem protection_needs_passphrase w steps :
  both_protected w.(wn_store).(ks_keys) ->
  (forall s r field, s ∈ steps -> r ∈ s.2.(in_user) -> typed r field -> verify_passphrase w.(wn_store) (to_passphrase nfc field) <> Ret true) ->
  (foldl (step_window has_keychain nfc trimmed) w steps).(wn_store).(ks_keys) = w.(wn_store).(ks_keys).
Proof. intros Hprot Hign. by apply steps_keep. Qed.
End window.

(** ** A passphrase that is remembered *)

Section remembered.
Context `{PL : PrimitiveLaws} (nfc trimmed : bytes -> bytes).

Lemma accepted_acceptable has_keychain skip ps :
  (new_passphrase_dialog has_keychain nfc skip ps).(pc_outcome) = Accepted ->
  is_acceptable_passphrase (new_passphrase_dialog has_keychain nfc skip ps).(pc_passphrase) = true.
Proof.
  induction ps as [|[field confirm ticked| |] ps IH]; cbn; [done|..].
  - destruct (is_acceptable_passphrase (to_passphrase nfc field)) eqn:E; [|exact IH]. cbn [negb]. by case_bool_decide.
  - by destruct skip.
  - by destruct skip.
Qed.

Section keys.
Variables (kem dsa : bytes).
Hypothesis Hkem : key_ok kem kem_secret_key_size.
Hypothesis Hdsa : key_ok dsa sig_secret_key_size.

(** With the keys at hand and nothing going wrong, the passphrase is set. *)
Lemma set_passphrase_fine r fresh ks :
  salts_ok r -> is_acceptable_passphrase fresh = true -> MIN_SCRYPT_LOG2_N <= ks.(kdf_log2_n) <= MAX_SCRYPT_LOG2_N ->
  load_private_kem ks = kem -> load_private_dsa ks = dsa ->
  exists ks', set_passphrase r fresh [] ks = (Returned tt, [], ks') /\ files kem dsa fresh true true ks' /\
    ks'.(kdf_log2_n) = ks.(kdf_log2_n) /\
    forall n, n ∈ [PUBLIC_KEM; PUBLIC_DSA] -> ks'.(ks_keys) !! n = ks.(ks_keys) !! n.
Proof.
  intros (Hs1 & Hs2 & Hs3 & Hs4) Hp Hn Ek Ed. unfold set_passphrase. rewrite Hp. cbn [negb]. unfold mbind at 1, get. cbv zeta.
  rewrite Ek, Ed, (proj1 Hkem), (proj1 Hdsa), !Z.eqb_refl. cbn [negb orb].
  destruct (protect_key fresh Hp (salt_kem r, nonce_kem r) _ _ KEM_LABEL _ Hkem Hs1 Hs2 Hn) as (kb & Hkb & Hkf); [vm_compute; congruence|].
  destruct (protect_key fresh Hp (salt_dsa r, nonce_dsa r) _ _ DSA_LABEL _ Hdsa Hs3 Hs4 Hn) as (db & Hdb & Hdf); [vm_compute; congruence|].
  cbn [fst snd] in Hkb, Hdb. unfold write_protected, mbind at 1 2, get, of_exc. rewrite Hkb, Hdb. unfold mbind, ret.
  destruct (write_fine Keys PRIVATE_KEM kb ks) as [ks1 E1]. rewrite E1. destruct (write_fine Keys PRIVATE_DSA db ks1) as [ks2 E2]. rewrite E2.
  apply write_keys in E1 as (Ho1 & Hw1 & _ & _ & _ & _ & Hk1). apply write_keys in E2 as (Ho2 & Hw2 & _ & _ & _ & _ & Hk2).
  eexists. split; [reflexivity|]. cbn [set_cache ks_keys kdf_log2_n]. split; [split; cbn [set_cache ks_keys]|split; [congruence|]].
  - rewrite Ho2, Hw1; [exact Hkf|by vm_compute|by vm_compute].
  - by rewrite Hw2.
  - intros n Hin. rewrite Ho2, Ho1; [done|..]; set_unfold in Hin; destruct Hin as [->|[->|[]]]; by vm_compute.
Qed.

Lemma opened_keys p ks c :
  files kem dsa p c c ks -> ks.(cache_kem) = kem -> ks.(cache_dsa) = dsa -> load_private_kem ks = kem /\ load_private_dsa ks = dsa.
Proof.
  intros [Hfk Hfd] Ek Ed. unfold load_private_kem, load_private_dsa.
  rewrite (load_private_spec _ _ _ _ _ _ _ _ Hkem Hfk), (load_private_spec _ _ _ _ _ _ _ _ Hdsa Hfd), Ek, Ed. by destruct c.
Qed.

(** The next step of an operation. *)
Lemma wstep {A B} (m : W A) (k : A -> W B) w a w1 : m w = (Returned a, w1) -> wbind m k w = k a w1.
Proof. intros E. unfold wbind. by rewrite E. Qed.
Lemma wtry_fine {A} (m : W A) h w a w1 : m w = (Returned a, w1) -> wtry m h w = (Returned a, w1).
Proof. intros E. unfold wtry. by rewrite E. Qed.

Definition with_store (ks : KeyStore) (w : Window) : Window :=
  mkWindow ks w.(wn_chain) w.(wn_settings) w.(wn_form) w.(wn_in) w.(wn_shown).
Lemma from_store_fine {A} (m : M A) w a ks :
  w.(wn_in).(in_disk) = [] -> m [] w.(wn_store) = (Returned a, [], ks) -> from_store m w = (Returned a, with_store ks w).
Proof. intros Ed Em. unfold from_store. rewrite Ed, Em. unfold with_store. destruct w as [? ? ? ? [? ? ?] ?]. cbn in *. by subst. Qed.
Lemma with_store_same w : with_store w.(wn_store) w = w.
Proof. by destruct w. Qed.

(** A store that is there and in order is opened as it is. *)
Definition in_order (ks : KeyStore) : Prop :=
  keys_exist ks = true /\ size (load_public_kem ks) = kem_public_key_size /\ size (load_public_dsa ks) = sig_public_key_size.

Lemma key_file_ok p label secret expected b path ks :
  key_ok secret expected -> key_file p label secret b (ks.(ks_keys) !! path) -> private_ok ks path expected = true.
Proof.
  intros Hk Hf. destruct (key_file_read _ _ _ _ _ _ Hk Hf) as (raw & E & He & Hb & Hpl & _). unfold private_ok. rewrite E, He, Hb. cbn.
  destruct b; [done|]. rewrite (Hpl eq_refl). apply Z.eqb_eq, Hk.
Qed.
Lemma initialize_fine p a b kem_seed sig_seed r p' ks :
  in_order ks -> files kem dsa p a b ks -> initialize_keys kem_seed sig_seed r p' [] ks = (Returned tt, [], ks).
Proof.
  intros (He & Hk & Hd) [Hfk Hfd]. unfold initialize_keys, mbind, create_directories, mbind, ask, modify, get. cbn [id].
  assert (size (filter (fun f => exists_in (ks_keys ks) f = true) [PUBLIC_KEM; PRIVATE_KEM; PUBLIC_DSA; PRIVATE_DSA]) = 4) as ->.
  { unfold keys_exist in He. cbn [forallb] in He. rewrite !filter_cons, filter_nil.
    destruct (exists_in _ PUBLIC_KEM), (exists_in _ PRIVATE_KEM), (exists_in _ PUBLIC_DSA), (exists_in _ PRIVATE_DSA); by vm_compute in He. }
  cbn [Z.eqb Pos.eqb]. rewrite Hk, Hd, !Z.eqb_refl, (key_file_ok _ _ _ _ _ _ _ Hkem Hfk), (key_file_ok _ _ _ _ _ _ _ Hdsa Hfd). done.
Qed.

Lemma protected_locked p b ks : files kem dsa p true b ks -> private_keys_locked (lock ks) = true.
Proof.
  intros [Hfk _]. destruct (key_file_read _ _ _ _ _ _ Hkem Hfk) as (raw & E & _ & Hb & _). unfold private_keys_locked. change (ks_keys (lock ks)) with (ks_keys ks). by rewrite E, Hb.
Qed.

Lemma files_protected p ks : files kem dsa p true true ks -> both_protected ks.(ks_keys).
Proof.
  intros [Hfk Hfd]. destruct (key_file_read _ _ _ _ _ _ Hkem Hfk) as (? & <- & _ & ? & _). destruct (key_file_read _ _ _ _ _ _ Hdsa Hfd) as (? & <- & _ & ? & _).
  done.
Qed.

(** What is started with the right passphrase in the keychain opens without a question. *)
Lemma starts_with_saved p w kem_seed sig_seed r :
  is_acceptable_passphrase p = true -> salts_ok r -> in_order w.(wn_store) -> files kem dsa p true true w.(wn_store) ->
  MIN_SCRYPT_LOG2_N <= w.(wn_store).(kdf_log2_n) <= MAX_SCRYPT_LOG2_N ->
  w.(wn_chain) !! keychain_account w.(wn_store) = Some p -> w.(wn_in) = mkInputs [] [] [] ->
  exists w2, start true nfc kem_seed sig_seed r w = (Returned true, w2) /\
    load_private_kem w2.(wn_store) = kem /\ load_private_dsa w2.(wn_store) = dsa /\ w2.(wn_store).(ks_keys) = w.(wn_store).(ks_keys).
Proof.
  intros Hp Hr Hord Hf Hn Hch Hin. unfold start. set (w0 := mkWindow (lock _) _ _ _ _ _).
  assert (keeps kem dsa p (lock w.(wn_store))) as Hk by (split; [by exists true, true|by cbn; auto]).
  destruct (unlock_fine kem dsa p Hkem Hdsa Hp r _ Hr Hk) as (ks2 & c & Hu & Hf2 & Ek & Ed).
  destruct (opened_keys p ks2 c Hf2 Ek Ed) as [Hlk Hld].
  assert (from_store (initialize_keys kem_seed sig_seed r []) w0 = (Returned tt, w0)) as Hinit.
  { rewrite (from_store_fine _ _ tt (wn_store w0)); [by rewrite with_store_same|by cbn; rewrite Hin|]. apply (initialize_fine p true true); [exact Hord|exact Hf]. }
  assert (from_store (unlock r p) w0 = (Returned true, with_store ks2 w0)) as Hunl by (apply from_store_fine; [by cbn; rewrite Hin|exact Hu]).
  assert (setup_keys true nfc kem_seed sig_seed r w0 = (Returned None, with_store ks2 w0)) as Hsetup.
  { unfold setup_keys. rewrite (wstep the_store _ w0 (wn_store w0) w0) by done. change (keys_exist (wn_store w0)) with (keys_exist (wn_store w)).
    rewrite (proj1 Hord). cbn [negb]. rewrite (wstep _ _ _ _ _ Hinit), (wstep the_store _ w0 (wn_store w0) w0) by done.
    change (private_keys_locked (wn_store w0)) with (private_keys_locked (lock (wn_store w))). rewrite (protected_locked p true) by done. unfold unlock_keys. rewrite (wstep the_store _ w0 (wn_store w0) w0) by done. cbv zeta.
    rewrite (wstep (chain_load _ _) _ w0 (Some p) w0).
    - rewrite (wstep _ _ w0 (inr true) (with_store ks2 w0)); [reflexivity|]. apply wtry_fine. by rewrite (wstep _ _ _ _ _ Hunl).
    - unfold chain_load. cbn [negb]. rewrite (wstep (chain_job id) _ w0 true w0), (wstep the_chain _ w0 (wn_chain w) w0); [|done|].
      + change (keychain_account (wn_store w0)) with (keychain_account (wn_store w)). rewrite Hch. by destruct p.
      + unfold chain_job, w0. by rewrite Hin. }
  rewrite (wstep _ _ _ _ _ (wtry_fine _ _ _ _ _ Hsetup)). eexists. split; [reflexivity|]. cbn. split_and!; [done..|].
  apply (unlock_spares _ _ _ (lock w.(wn_store)) _ _ _) in Hu; [exact Hu|]. by apply (files_protected p).
Qed.

(** What the window does with a passphrase once it is set. *)
Lemma remembers p w :
  w.(wn_in).(in_chain) = [] -> exists w', remember_passphrase true p w = (Returned tt, w') /\ w'.(wn_store) = w.(wn_store) /\
    w'.(wn_chain) !! keychain_account w.(wn_store) = Some p.
Proof.
  intros Hc. unfold remember_passphrase. rewrite (wstep the_store _ w (wn_store w) w) by done.
  unfold chain_store, wbind, chain_job. cbn [negb]. rewrite Hc. cbn. eexists. split; [done|]. split; [done|]. apply lookup_insert_eq.
Qed.


Definition with_user (rs : list response) (w : Window) : Window :=
  mkWindow w.(wn_store) w.(wn_chain) w.(wn_settings) w.(wn_form) (mkInputs [] [] rs) w.(wn_shown).
Lemma asks_existing offer ps rest w :
  ask_existing_passphrase true nfc offer (with_user (Presses ps :: rest) w) = (Returned (existing_passphrase_dialog true nfc offer ps), with_user rest w).
Proof. done. Qed.
Lemma asks_new skip ps rest w :
  ask_new_passphrase true nfc skip (with_user (Presses ps :: rest) w) = (Returned (new_passphrase_dialog true nfc skip ps), with_user rest w).
Proof. done. Qed.

(** Setting a passphrase, and the reports when it is to be remembered. *)
Lemma sets r fresh ks' w :
  set_passphrase r fresh [] w.(wn_store) = (Returned tt, [], ks') ->
  wtry (do _ <- from_store (set_passphrase r fresh); wret true) (fun _ => do _ <- show Warned; wret false) (with_user [] w)
    = (Returned true, with_user [] (with_store ks' w)).
Proof. intros E. apply wtry_fine. by rewrite (wstep _ _ _ _ _ (from_store_fine _ (with_user [] w) tt ks' eq_refl E)). Qed.
Lemma reports fresh report w :
  w.(wn_in).(in_chain) = [] ->
  exists w', (do _ <- remember_passphrase true fresh; do _ <- update_key_status; show report) w = (Returned tt, w') /\
    w'.(wn_store) = w.(wn_store) /\ w'.(wn_chain) !! keychain_account w.(wn_store) = Some fresh.
Proof.
  intros Hc. destruct (remembers fresh w Hc) as (w' & Er & Hst & Hch). rewrite (wstep _ _ _ _ _ Er). unfold update_key_status.
  eexists. split; [reflexivity|]. cbn. by rewrite Hst.
Qed.

(** The two entries of the menu. *)
Lemma changes_to r old fresh ps1 ps2 b w ks' :
  private_keys_protected w.(wn_store) = true -> w.(wn_form).(busy) = false -> is_acceptable_passphrase old = true -> keeps kem dsa old w.(wn_store) ->
  existing_passphrase_dialog true nfc false ps1 = mkPassphraseChoice Accepted old b ->
  new_passphrase_dialog true nfc false ps2 = mkPassphraseChoice Accepted fresh true ->
  set_passphrase r fresh [] w.(wn_store) = (Returned tt, [], ks') ->
  exists w1, key_menu true nfc (ChangePassphrase r) (with_user [Presses ps1; Presses ps2] w) = (Returned tt, w1) /\
    w1.(wn_store) = ks' /\ w1.(wn_chain) !! keychain_account ks' = Some fresh.
Proof.
  intros Eprot Hbusy Hold Hk Hps1 Hps2 Hset. destruct (reports fresh (Status (str "Passphrase changed")) (with_user [] (with_store ks' w)) eq_refl)
    as (w1 & Hrep & Hst & Hch). exists w1. split; [|done].
  unfold key_menu. rewrite (wstep the_form _ _ (wn_form w) (with_user [Presses ps1; Presses ps2] w)), Hbusy by done.
  rewrite (wstep the_store _ _ (wn_store w) (with_user [Presses ps1; Presses ps2] w)) by done. cbv zeta. rewrite Eprot. unfold change_passphrase_action.
  rewrite (wstep _ _ _ _ _ (asks_existing false ps1 [Presses ps2] w)), Hps1. cbn [pc_outcome pc_passphrase]. rewrite bool_decide_true by done. cbn [negb].
  rewrite (wstep (verified old) _ (with_user [Presses ps2] w) true (with_user [Presses ps2] w)).
  - cbn [negb]. rewrite (wstep _ _ _ _ _ (asks_new false ps2 [] w)), Hps2. cbn [pc_outcome pc_passphrase pc_remember].
    rewrite bool_decide_true by done. cbn [negb]. rewrite (wstep _ _ _ _ _ (sets _ _ _ _ Hset)). exact Hrep.
  - unfold verified. rewrite (wstep the_store _ _ (wn_store w) (with_user [Presses ps2] w)) by done.
    destruct Hk as ((x & y & Hf0) & _). unfold verify_passphrase. rewrite (pass_is_empty old Hold), (read_keys_spec kem dsa old Hkem Hdsa _ x y Hf0).
    assert (x || y = true) as ->; [|done]. destruct Hf0 as [Hfk Hfd]. unfold private_keys_protected in Eprot.
    destruct (key_file_read _ _ _ _ _ _ Hkem Hfk) as (? & <- & _ & E1 & _). destruct (key_file_read _ _ _ _ _ _ Hdsa Hfd) as (? & <- & _ & E2 & _).
    by rewrite E1, E2 in Eprot.
Qed.

Lemma sets_to r fresh ps2 w ks' :
  private_keys_protected w.(wn_store) = false -> w.(wn_form).(busy) = false ->
  new_passphrase_dialog true nfc false ps2 = mkPassphraseChoice Accepted fresh true ->
  set_passphrase r fresh [] w.(wn_store) = (Returned tt, [], ks') ->
  exists w1, key_menu true nfc (SetPassphrase r) (with_user [Presses ps2] w) = (Returned tt, w1) /\
    w1.(wn_store) = ks' /\ w1.(wn_chain) !! keychain_account ks' = Some fresh.
Proof.
  intros Eprot Hbusy Hps2 Hset. destruct (set_settings decided (with_user [] (with_store ks' w))) as [r1 wd] eqn:Ewd. injection Ewd as <- Ewd.
  destruct (reports fresh (Status (str "Your keys are now protected by a passphrase")) wd) as (w1 & Hrep & Hst & Hch); [by subst wd|].
  subst wd. exists w1. split; [|done].
  unfold key_menu. rewrite (wstep the_form _ _ (wn_form w) (with_user [Presses ps2] w)), Hbusy by done.
  rewrite (wstep the_store _ _ (wn_store w) (with_user [Presses ps2] w)) by done. cbv zeta. rewrite Eprot. cbn [negb]. unfold set_passphrase_action.
  rewrite (wstep _ _ _ _ _ (asks_new false ps2 [] w)), Hps2. cbn [pc_outcome pc_passphrase pc_remember]. rewrite bool_decide_true by done. cbn [negb].
  rewrite (wstep _ _ _ _ _ (sets _ _ _ _ Hset)). exact Hrep.
Qed.

Lemma public_same ks ks' :
  (forall n, n ∈ [PUBLIC_KEM; PUBLIC_DSA] -> ks'.(ks_keys) !! n = ks.(ks_keys) !! n) ->
  load_public_kem ks' = load_public_kem ks /\ load_public_dsa ks' = load_public_dsa ks.
Proof. intros Hs. unfold load_public_kem, load_public_dsa. rewrite !Hs by set_solver. done. Qed.

Lemma order_kept p a b ks ks' :
  in_order ks -> files kem dsa p a b ks' -> (forall n, n ∈ [PUBLIC_KEM; PUBLIC_DSA] -> ks'.(ks_keys) !! n = ks.(ks_keys) !! n) -> in_order ks'.
Proof.
  intros (He & Hk & Hd) [Hfk Hfd] Hs. destruct (public_same ks ks' Hs) as [E1 E2]. unfold in_order. rewrite E1, E2. split; [|done].
  unfold keys_exist in *. cbn [forallb] in *. unfold exists_in in *. rewrite (Hs PUBLIC_KEM), (Hs PUBLIC_DSA) by set_solver.
  assert (is_Some (ks_keys ks' !! PRIVATE_KEM)) as [x ->] by (destruct a; [destruct Hfk as (? & ? & ? & ? & -> & _)|rewrite Hfk]; eauto).
  assert (is_Some (ks_keys ks' !! PRIVATE_DSA)) as [y ->] by (destruct b; [destruct Hfd as (? & ? & ? & ? & -> & _)|rewrite Hfd]; eauto).
  by destruct (ks_keys ks !! PUBLIC_KEM), (ks_keys ks !! PRIVATE_KEM), (ks_keys ks !! PUBLIC_DSA).
Qed.
End keys.

(** C32: a passphrase that is to be remembered opens the keys at the next start. The
    window has its keys open, in the clear or protected by the old passphrase; in the
    menu the user sets a passphrase or, giving the old one, changes it, types the new one
    twice the same and ticks the box; the disk and the keychain work. Then the new
    passphrase verifies, and when the program is started again it is ready without
    asking anything, with the same private keys open and the same identity. *)
Theorem remembered_passphrase_opens w kem dsa old fresh r r' kem_seed sig_seed ps1 ps2 b :
  key_ok kem kem_secret_key_size -> key_ok dsa sig_secret_key_size -> salts_ok r -> salts_ok r' ->
  in_order w.(wn_store) -> keeps kem dsa old w.(wn_store) -> is_acceptable_passphrase old = true ->
  load_private_kem w.(wn_store) = kem -> load_private_dsa w.(wn_store) = dsa -> w.(wn_form).(busy) = false ->
  existing_passphrase_dialog true nfc false ps1 = mkPassphraseChoice Accepted old b ->
  new_passphrase_dialog true nfc false ps2 = mkPassphraseChoice Accepted fresh true ->
  let (a, user) := if private_keys_protected w.(wn_store) then (ChangePassphrase r, [Presses ps1; Presses ps2])
                   else (SetPassphrase r, [Presses ps2]) in
  let w1 := step_window true nfc trimmed w (KeyMenu a, mkInputs [] [] user) in
  verify_passphrase w1.(wn_store) fresh = Ret true /\
  exists w2, start true nfc kem_seed sig_seed r' (with_user [] w1) = (Returned true, w2) /\
    load_private_kem w2.(wn_store) = kem /\ load_private_dsa w2.(wn_store) = dsa /\
    own_fingerprint w2.(wn_store) = own_fingerprint w.(wn_store).
Proof.
  intros Hkem Hdsa Hr Hr' Hord Hk Hold Ek Ed Hbusy Hps1 Hps2.
  pose proof (accepted_acceptable true false ps2 ltac:(by rewrite Hps2)) as Hp. rewrite Hps2 in Hp. cbn in Hp.
  assert (MIN_SCRYPT_LOG2_N <= w.(wn_store).(kdf_log2_n) <= MAX_SCRYPT_LOG2_N) as Hn by apply Hk.
  assert (forall ks' w1, files kem dsa fresh true true ks' -> ks'.(kdf_log2_n) = w.(wn_store).(kdf_log2_n) ->
            (forall n, n ∈ [PUBLIC_KEM; PUBLIC_DSA] -> ks'.(ks_keys) !! n = w.(wn_store).(ks_keys) !! n) ->
            w1.(wn_store) = ks' -> w1.(wn_chain) !! keychain_account ks' = Some fresh ->
            verify_passphrase w1.(wn_store) fresh = Ret true /\
            exists w2, start true nfc kem_seed sig_seed r' (with_user [] w1) = (Returned true, w2) /\
              load_private_kem w2.(wn_store) = kem /\ load_private_dsa w2.(wn_store) = dsa /\
              own_fingerprint w2.(wn_store) = own_fingerprint w.(wn_store)) as Hend.
  { intros ks' w1 Hf Hlog Hs <- Hch. split.
    - unfold verify_passphrase. rewrite (pass_is_empty fresh Hp), (read_keys_spec kem dsa fresh Hkem Hdsa _ true true Hf). done.
    - destruct (starts_with_saved kem dsa Hkem Hdsa fresh (with_user [] w1) kem_seed sig_seed r') as (w2 & E & Hk2 & Hd2 & Hkeys);
        [done..|by eapply order_kept|exact Hf|by cbn; rewrite Hlog|exact Hch|done|].
      exists w2. split_and!; [done..|]. unfold own_fingerprint, load_public_dsa. rewrite Hkeys. cbn [with_user wn_store]. by rewrite (Hs PUBLIC_DSA) by set_solver. }
  destruct (set_passphrase_fine kem dsa Hkem Hdsa r fresh _ Hr Hp Hn Ek Ed) as (ks' & Hset & Hf & Hlog & Hs).
  set (w0 := mkWindow (wn_store w) (wn_chain w) (wn_settings w) (wn_form w) (mkInputs [] [] []) []).
  destruct (private_keys_protected w.(wn_store)) eqn:Eprot; unfold step_window; cbv zeta; cbn [fst snd run_window].
  - destruct (changes_to kem dsa Hkem Hdsa r old fresh ps1 ps2 b w0 ks' Eprot Hbusy Hold Hk Hps1 Hps2 Hset) as (w1 & Hrun & Hst & Hch).
    change (mkWindow _ _ _ _ _ []) with (with_user [Presses ps1; Presses ps2] w0). rewrite Hrun. by apply (Hend ks').
  - destruct (sets_to r fresh ps2 w0 ks' Eprot Hbusy Hps2 Hset) as (w1 & Hrun & Hst & Hch).
    change (mkWindow _ _ _ _ _ []) with (with_user [Presses ps2] w0). rewrite Hrun. by apply (Hend ks').
Qed.
End remembered.

(** ** Where transfers go *)

Section transfers.
Context `{P : Primitives} (has_keychain : bool) (nfc trimmed : bytes -> bytes).

Ltac unfold_window := unfold ask_user, get_file, get_text, save_server_setting, run_in_background, choose_server, wbind, next_response, show,
  the_form, the_store, set_form, set_settings, wret.
Ltac nothing_runs := by intros [= _ <-] Hj; cbn in Hj; set_unfold in Hj; naive_solver.

Lemma send_as_chosen w r w' j :
  w.(wn_shown) = [] -> start_send trimmed w = (r, w') -> Runs j ∈ w'.(wn_shown) ->
  w.(wn_form).(busy) = false /\ w'.(wn_form).(busy) = true /\ w'.(wn_store) = w.(wn_store) /\
  exists path host port c, j = Upload path host port c /\ configured_server w.(wn_form) = Some (mkServerAddress host port) /\
    (if is_empty w.(wn_form).(combo_data) then Some (self_contact w.(wn_store)) else load_contact w.(wn_store) w.(wn_form).(combo_data)) = Some c /\
    (c.(kem_verified) = true \/ Asked (AskUnverified w.(wn_form).(combo_data)) true ∈ w'.(wn_shown)).
Proof.
  destruct w as [ks ch st form [d k user] sh]. cbn [wn_shown wn_form wn_store]. intros ->.
  unfold start_send, wbind at 1, the_form. cbn [wn_form]. destruct (busy form); [nothing_runs|].
  destruct (configured_server form) as [[host port]|]; [|nothing_runs]. unfold wbind at 1, the_store. cbv zeta. cbn [wn_store].
  destruct (if is_empty _ then _ else _) as [c|] eqn:Ec; [|nothing_runs].
  destruct (kem_verified c) eqn:Ev; cbn [negb]; unfold_window.
  - destruct user as [|[| | | |path content] rest]; cbn; try nothing_runs. destruct (is_empty path); cbn; [nothing_runs|].
    intros [= _ <-] Hj. cbn in *. split_and!; [done..|]. exists path, host, port, c. split; [set_unfold; naive_solver|auto].
  - destruct user as [|[| [] | | |] rest]; cbn; try nothing_runs.
    destruct rest as [|[| | | |path content] rest]; cbn; try nothing_runs. destruct (is_empty path); cbn; [nothing_runs|].
    intros [= _ <-] Hj. cbn in *. split_and!; [done..|]. exists path, host, port, c.
    split_and!; [set_unfold; naive_solver|done|done|right; set_solver].
Qed.

Lemma receive_as_chosen w r w' j :
  w.(wn_shown) = [] -> start_receive trimmed w = (r, w') -> Runs j ∈ w'.(wn_shown) ->
  w.(wn_form).(busy) = false /\ w'.(wn_form).(busy) = true /\ w'.(wn_store) = w.(wn_store) /\
  exists id host port server, j = Download id host port /\ configured_server w.(wn_form) = Some server /\
    (mkServerAddress host port = server \/
     same_server (mkServerAddress host port) server = false /\ AskedServer (mkServerAddress host port) (Some true) ∈ w'.(wn_shown)).
Proof.
  destruct w as [ks ch st form [d k user] sh]. cbn [wn_shown wn_form wn_store]. intros ->.
  unfold start_receive, wbind at 1, the_form. cbn [wn_form]. destruct (busy form); [nothing_runs|].
  destruct (configured_server form) as [[host port]|]; [|nothing_runs]. unfold_window.
  destruct user as [|[| |text| |] rest]; cbn; try nothing_runs. destruct (trimmed text) as [|x input]; cbn; [nothing_runs|].
  destruct (is_link _); cbn.
  - destruct (parse_share_link _) as [[[lh lp] id]|]; cbn; [|nothing_runs]. destruct (same_server _ _) eqn:Esame; cbn.
    + intros [= _ <-] Hj. cbn in *. split_and!; [done..|]. exists id, host, port, (mkServerAddress host port). split_and!; [set_unfold; naive_solver|done|by left].
    + destruct rest as [|[| | |[|[|]]|] rest]; cbn. 1-4, 7-8: nothing_runs.
      all: intros [= _ <-] Hj; cbn in Hj |- *; split_and!; [done..|].
      * exists id, lh, lp, (mkServerAddress host port). split_and!; [set_unfold; naive_solver|done|right]. split; [done|set_solver].
      * exists id, host, port, (mkServerAddress host port). split_and!; [set_unfold; naive_solver|done|by left].
  - intros [= _ <-] Hj. cbn in *. split_and!; [done..|]. exists (x :: input), host, port, (mkServerAddress host port). split_and!; [set_unfold; naive_solver|done|by left].
Qed.

(** Transfers go where the user said. A file is sent only while no other transfer
    runs, to the server that is set, for the contact that is chosen, as it is loaded, or
    oneself; and if nothing proves that the encryption key is that contact's, only after
    the user was asked and said yes. A file is fetched from the server that is set, or
    from another only if a link names that one and the user picked it when asked. *)
Theorem transfers_as_chosen w o inputs j :
  o ∈ [Send; Receive] ->
  let w' := step_window has_keychain nfc trimmed w (o, inputs) in
  Runs j ∈ w'.(wn_shown) ->
  w.(wn_form).(busy) = false /\ w'.(wn_form).(busy) = true /\ w'.(wn_store) = w.(wn_store) /\
  match j with
  | Upload path host port c =>
      o = Send /\ configured_server w.(wn_form) = Some (mkServerAddress host port) /\
      (if is_empty w.(wn_form).(combo_data) then Some (self_contact w.(wn_store)) else load_contact w.(wn_store) w.(wn_form).(combo_data)) = Some c /\
      (c.(kem_verified) = true \/ Asked (AskUnverified w.(wn_form).(combo_data)) true ∈ w'.(wn_shown))
  | Download id host port =>
      o = Receive /\ exists server, configured_server w.(wn_form) = Some server /\
      (mkServerAddress host port = server \/
       same_server (mkServerAddress host port) server = false /\ AskedServer (mkServerAddress host port) (Some true) ∈ w'.(wn_shown))
  end.
Proof.
  intros Ho. unfold step_window. cbn [fst snd]. destruct (run_window _ _ _ o _) as [r w'] eqn:E. cbn [snd]. cbv zeta. intros Hj.
  set_unfold in Ho. destruct Ho as [->|[->|[]]].
  - apply (send_as_chosen _ _ _ j) in E as (? & ? & ? & path & host & port & c & -> & ? & ? & ?); done.
  - apply (receive_as_chosen _ _ _ j) in E as (? & ? & ? & id & host & port & server & -> & ? & ?); [|done..]. split_and!; [done..|]. by exists server.
Qed.
End transfers.

(** ** Which contacts change *)

Section contacts.
Context `{PL : PrimitiveLaws} (has_keychain : bool) (nfc trimmed : bytes -> bytes).

(** An operation of the store that touches one contact. *)
Definition only {A} (n : bytes) (m : M A) : Prop := forall d ks r d' ks', m d ks = (r, d', ks') -> same_others n ks ks'.

Lemma only_still {A} n (m : M A) : (forall d ks r d' ks', m d ks = (r, d', ks') -> ks' = ks) -> only n m.
Proof. intros Hm d ks r d' ks' E. rewrite (Hm _ _ _ _ _ E). apply same_others_refl. Qed.
Lemma only_bind {A B} n (m : M A) (k : A -> M B) : only n m -> (forall a, only n (k a)) -> only n (mbind m k).
Proof.
  intros Hm Hk d ks r d' ks'. unfold mbind. destruct (m d ks) as [[[a|what|] d1] ks1] eqn:E; pose proof (Hm _ _ _ _ _ E) as H1.
  - intros H2%Hk. by eapply same_others_trans.
  - by intros [= _ _ <-].
  - by intros [= _ _ <-].
Qed.
Lemma only_folder n f ks : (forall m, m <> n -> (f ks).(ks_contacts) !! m = ks.(ks_contacts) !! m) -> (f ks).(ks_keys) = ks.(ks_keys) ->
  (f ks).(ks_app) = ks.(ks_app) -> (f ks).(cache_kem) = ks.(cache_kem) -> (f ks).(cache_dsa) = ks.(cache_dsa) -> same_others n ks (f ks).
Proof. intros. by split_and!. Qed.
Lemma only_in_folder n g ks : same_others n ks (in_folder (Contact_ n) g ks).
Proof. apply (only_folder n (in_folder (Contact_ n) g)); try done. intros m Hm. cbn. by rewrite lookup_alter_ne. Qed.
Lemma only_write n name data : only n (write_file_atomic (Contact_ n) name data).
Proof. intros d ks r d' ks' (g & -> & _)%write_spec. apply only_in_folder. Qed.
Lemma only_remove n name : only n (remove_quietly (Contact_ n) name).
Proof.
  intros d ks r d' ks'. unfold remove_quietly, mbind, ask, modify, ret, stop.
  destruct d as [|[] d]; intros [= _ _ <-]; first [apply only_in_folder|apply same_others_refl].
Qed.
Lemma only_make n what : only n (create_directories (make_contact_folder n) what).
Proof. intros d ks r d' ks' E. by apply make_folder_view in E as [E _]. Qed.
Lemma only_ret {A} n (a : A) : only n (ret a).
Proof. apply only_still. by intros d ks r d' ks' [= _ _ <-]. Qed.
Lemma only_throw {A} n what : only n (@throw A what).
Proof. apply only_still. by intros d ks r d' ks' [= _ _ <-]. Qed.
Lemma only_get n : only n get.
Proof. apply only_still. by intros d ks r d' ks' [= _ _ <-]. Qed.
#[local] Hint Resolve only_write only_remove only_make only_ret only_throw only_get : core.
Ltac only_on := repeat first [solve [auto]|case_match|apply only_bind; [|intros ?]].
Lemma only_token n token : only n (save_contact_token n token).
Proof.
  unfold save_contact_token. case_match; [auto|]. apply only_bind; [auto|intros ks]. destruct (contact_dir n) eqn:E; [|auto].
  apply contact_dir_is in E as ->. case_match; auto.
Qed.
#[local] Hint Resolve only_token : core.
Lemma only_save_new n k d b token : only n (save_new_contact n k d b token).
Proof. unfold save_new_contact, save_contact_bundle, save_contact. only_on. Qed.
Lemma only_import_known b token d ks c r d' ks' :
  find_contact_by_fingerprint ks (bundle_fingerprint b) = Some c -> import_bundle_for_known_identity b token d ks = (r, d', ks') ->
  same_others c.(co_name) ks ks'.
Proof.
  intros Hf. unfold import_bundle_for_known_identity, mbind at 1, get. rewrite Hf. cbv zeta.
  match goal with |- ?m d ks = _ -> _ => assert (only (co_name c) m) as Hm by (unfold save_contact_bundle; only_on) end. apply Hm.
Qed.

(** What is saved is loaded with the keys that were shown. *)
Lemma loads_some name k dk b t :
  size k = kem_public_key_size -> size dk = sig_public_key_size ->
  exists c, load_view name (mkView (Some k) (Some dk) b t) = Some c /\ c.(co_fingerprint) = fingerprint dk.
Proof.
  intros Hk Hd. destruct key_sizes. unfold load_view. cbn [v_kem v_dsa v_bundle v_token].
  rewrite (read_small k), (read_small dk), Hk, Hd, !Z.eqb_refl by lia. cbn [negb orb].
  destruct (if is_empty _ then None else _) as [x|]; [destruct (has_mailbox x)|]; by eexists.
Qed.
Lemma saved_plain name k dk d ks d' ks' :
  save_contact name k dk d ks = (Returned tt, d', ks') -> exists c, load_contact ks' name = Some c /\ c.(co_fingerprint) = fingerprint dk.
Proof.
  unfold save_contact. destruct (is_valid_contact_name name) eqn:Hn; [|done]. cbn [negb].
  destruct (Z.eqb_spec (size k) kem_public_key_size) as [Hk|]; [|done]. destruct (Z.eqb_spec (size dk) sig_public_key_size) as [Hd|]; [|done]. cbn [negb orb].
  unfold mbind at 1. destruct (create_directories _ _ d ks) as [[r1 d1] ks1] eqn:E1. apply make_folder_view in E1 as (_ & _ & Hv1).
  destruct r1 as [[]| |]; [|done..]. unfold mbind at 1. destruct (remove_quietly _ _ d1 ks1) as [[r2 d2] ks2] eqn:E2.
  assert (exists v, has_view name v ks2) as [v2 Hv2].
  { destruct Hv1 as (f & Hf & _). revert E2. unfold remove_quietly, mbind, ask, modify, ret, stop.
    destruct d1 as [|[] d1]; intros [= _ _ <-]; eexists; eexists; (split; [|reflexivity]); cbn; rewrite ?lookup_alter_eq, Hf; reflexivity. }
  destruct r2 as [[]| |]; [|done..]. unfold mbind at 1. destruct (write_file_atomic _ PUB_KEM _ d2 ks2) as [[r3 d3] ks3] eqn:E3.
  eapply write_contact in E3 as [_ Hv3]; [|set_solver|exact Hv2]. destruct r3 as [[]| |]; [|done..].
  intros E4. eapply write_contact in E4 as [_ Hv4]; [|set_solver|exact Hv3].
  rewrite (load_contact_view _ _ _ (valid_name_dir _ Hn) Hv4). by apply loads_some.
Qed.
Lemma saved_new name k dk b token d ks d' ks' :
  is_valid_contact_name name = true -> match b with Some b => parse_identity_bundle b.(ib_raw) = Ret b /\ dk = b.(ib_signing_key) | None => True end ->
  save_new_contact name k dk b token d ks = (Returned tt, d', ks') ->
  exists c, load_contact ks' name = Some c /\ c.(co_fingerprint) = fingerprint dk.
Proof.
  intros Hn Hb. destruct b as [b|]; [|by apply saved_plain]. destruct Hb as [Hp ->]. unfold save_new_contact, mbind.
  destruct (save_contact_bundle name b d ks) as [[r1 d1] ks1] eqn:E1. destruct r1 as [[]| |]; [|done..].
  pose proof (save_bundle_spec _ _ _ _ _ _ _ _ Hn Hp E1) as [_ Hv]. destruct (parsed_sizes _ _ Hp) as (_ & _ & Hd & Hk). cbn in Hv.
  destruct (Z.eqb_spec (size token) 32) as [Ht|].
  - intros E2. apply (save_token_spec name token _ _ _ _ _ _ (valid_name_dir _ Hn) Ht Hv) in E2 as [_ Hv2].
    rewrite (load_contact_view _ _ _ (valid_name_dir _ Hn) Hv2). by apply loads_some.
  - intros [= _ <-]. rewrite (load_contact_view _ _ _ (valid_name_dir _ Hn) Hv). by apply loads_some.
Qed.

Lemma card_bundle text card b :
  decode_any_contact_card text = inr card -> card.(ic_bundle) = Some b -> parse_identity_bundle b.(ib_raw) = Ret b /\ card.(ic_pub_dsa) = b.(ib_signing_key).
Proof.
  assert (forall raw token, card_of_bundle raw token = inr card -> card.(ic_bundle) = Some b ->
            parse_identity_bundle b.(ib_raw) = Ret b /\ card.(ic_pub_dsa) = b.(ib_signing_key)) as Hcard.
  { intros raw token. unfold card_of_bundle. destruct (parse_identity_bundle raw) as [b0|] eqn:Ep; [|done]. destruct (_ && _); [done|].
    intros [= <-] [= ->]. by rewrite (proj1 (parsed_sizes _ _ Ep)). }
  unfold decode_any_contact_card. cbv zeta. repeat (case_match; try done); try (by apply Hcard). by intros [= <-].
Qed.

(** How a contact may have changed. *)
Definition confirmed (ks ks' : KeyStore) (said : list shown) (n : bytes) : Prop :=
  exists fp before after, said = before ++ Asked (AskFingerprint fp) true :: after /\ fp <> own_fingerprint ks /\
    (forall c, find_contact_by_fingerprint ks fp = Some c -> c.(co_name) = n) /\
    (MarkVerified fp ∈ after -> exists c, load_contact ks' n = Some c /\ c.(co_fingerprint) = fp).
Definition updated (ks ks' : KeyStore) (n : bytes) : Prop :=
  exists b c, parse_identity_bundle b.(ib_raw) = Ret b /\ find_contact_by_fingerprint ks (bundle_fingerprint b) = Some c /\ c.(co_name) = n /\
    (c.(kem_verified) = true -> exists c', load_contact ks' n = Some c' /\ no_older c b c').
Definition allowed (ks : KeyStore) (w' : Window) : Prop :=
  w'.(wn_store) = ks \/
  exists n, same_others n ks w'.(wn_store) /\ (confirmed ks w'.(wn_store) w'.(wn_shown) n \/ updated ks w'.(wn_store) n).

(** Up to the point where something is saved, the store is what it was. *)
Definition untouched (ks : KeyStore) : Window -> Prop := of_store (fun k => k = ks) (fun _ => True) (fun _ => True).
Definition ending {A} (I : Window -> Prop) (m : W A) (G : Window -> Prop) : Prop := forall w r w', I w -> m w = (r, w') -> G w'.

Lemma ending_keeps {A} ks (m : W A) Q : keeping (untouched ks) m Q -> ending (untouched ks) m (allowed ks).
Proof. intros Hm w r w' HI E. left. by destruct (Hm w r w' HI E) as [(H1 & _) _]. Qed.
Lemma ending_bind {A B} ks (m : W A) (k : A -> W B) Q :
  keeping (untouched ks) m Q -> (forall a, Q a -> ending (untouched ks) (k a) (allowed ks)) -> ending (untouched ks) (wbind m k) (allowed ks).
Proof.
  intros Hm Hk w r w' HI. unfold wbind. destruct (m w) as [[a|what|] w1] eqn:E; destruct (Hm _ _ _ HI E) as [H1 HQ].
  - by apply (Hk a HQ).
  - intros [= _ <-]. left. apply H1.
  - intros [= _ <-]. left. apply H1.
Qed.
Lemma goes_on_any : goes_on (fun _ => True).
Proof. done. Qed.
Lemma grows_any : grows (fun _ => True).
Proof. done. Qed.
#[local] Hint Resolve goes_on_any grows_any : window.

(** After the fingerprint is confirmed. *)
Definition asked_then (fp : bytes) (l : list shown) : Prop := exists before after, l = before ++ Asked (AskFingerprint fp) true :: after.
Lemma asked_grows fp : grows (asked_then fp).
Proof. intros s l (b & a & ->). exists b, (a ++ [s]). by rewrite <- app_assoc. Qed.
#[local] Hint Resolve asked_grows : window.

Lemma keeping_reports ks fp name server :
  keeping (of_store (fun k => k = ks) (fun _ => True) (asked_then fp))
    (do _ <- show (MarkVerified fp); do _ <- refresh_contacts; do _ <- select name; do _ <- show (Status (str "Contact added: " ++ name));
     suggest_server trimmed server) (fun _ => True).
Proof. keeps_on. Qed.

Lemma finish_allowed ks name k dk server b token :
  is_valid_contact_name name = true -> match b with Some b => parse_identity_bundle b.(ib_raw) = Ret b /\ dk = b.(ib_signing_key) | None => True end ->
  ending (untouched ks) (finish_add_contact trimmed name k dk server b token) (allowed ks).
Proof.
  intros Hn Hb w r w' (HJ & _). cbn in HJ. unfold finish_add_contact. cbv zeta. unfold wbind at 1, the_store. rewrite HJ.
  case_bool_decide as Hown; [by intros [= _ <-]; left|].
  destruct (match find_contact_by_fingerprint ks (fingerprint dk) with Some _ => _ | None => false end) eqn:Et; [by intros [= _ <-]; left|].
  assert (forall c, find_contact_by_fingerprint ks (fingerprint dk) = Some c -> c.(co_name) = name) as Hfind.
  { intros c Hc. rewrite Hc in Et. by apply negb_false_iff, bool_decide_eq_true in Et. }
  unfold wbind at 1. destruct (ask_user (AskFingerprint (fingerprint dk)) w) as [[yes| |] w1] eqn:Ea.
  2, 3: exfalso; revert Ea; unfold ask_user, wbind, next_response, show, wret; by destruct (in_user (wn_in w)).
  assert (w1.(wn_store) = ks /\ (yes = true -> exists before, w1.(wn_shown) = before ++ [Asked (AskFingerprint (fingerprint dk)) true])) as [Hst Hsh].
  { revert Ea. unfold ask_user, wbind, next_response, show, wret. destruct (in_user (wn_in w)); intros [= <- <-]; cbn; (split; [done|]).
    - done.
    - intros ->. by eexists. }
  destruct yes; [|by intros [= _ <-]; left]. cbn [negb]. destruct (Hsh eq_refl) as [before Hbefore]. clear Hsh.
  unfold wbind at 1, wtry, wbind at 1, from_store. rewrite Hst.
  destruct (save_new_contact name k dk b token _ ks) as [[rs d1] ks1] eqn:Es. pose proof (only_save_new _ _ _ _ _ _ _ _ _ _ Es) as Ho.
  destruct rs as [[]|what|].
  - cbn [wret negb]. set (w2 := mkWindow _ _ _ _ _ _). intros Er.
    destruct (saved_new _ _ _ _ _ _ _ _ _ Hn Hb Es) as (c & Hl & Hfp).
    eapply keeping_reports in Er as [(HJ2 & _ & (be & af & Hs)) _]; [|split; [reflexivity|]; split; [done|]; exists before, []; exact Hbefore].
    cbn in HJ2. right. exists name. rewrite HJ2. split; [exact Ho|left]. exists (fingerprint dk), be, af. split_and!; [done..|]. intros _. by exists c.
  - cbn. intros [= _ <-]. right. exists name. split; [exact Ho|left]. exists (fingerprint dk), before, [Warned].
    cbn. rewrite Hbefore, <- app_assoc. split_and!; [done..|]. intros Hin. set_solver.
  - cbn. intros [= _ <-]. right. exists name. split; [exact Ho|left]. exists (fingerprint dk), before, []. cbn. split_and!; [done..|]. intros Hin. set_solver.
Qed.

(** A card of someone known changes that contact only, and never back. *)
Lemma import_cases b token d ks r d' ks' :
  parse_identity_bundle b.(ib_raw) = Ret b -> import_bundle_for_known_identity b token d ks = (r, d', ks') ->
  (ks' = ks /\ find_contact_by_fingerprint ks (bundle_fingerprint b) = None) \/
  exists c, same_others c.(co_name) ks ks' /\ updated ks ks' c.(co_name) /\ forall o, r = Returned o -> o.(bi_result) <> UnknownIdentity.
Proof.
  intros Hp E. destruct (find_contact_by_fingerprint ks (bundle_fingerprint b)) as [c|] eqn:Ef.
  2: { left. unfold import_bundle_for_known_identity, mbind at 1, get in E. rewrite Ef in E. by injection E as _ _ <-. }
  right. exists c. split; [by eapply only_import_known|]. split.
  - exists b, c. split_and!; [done..|]. intros Hver. destruct (import_verified _ _ _ _ _ _ _ _ _ Hp Ef Hver E) as (_ & c' & Hc' & Hno & _). by exists c'.
  - intros o ->. unfold import_bundle_for_known_identity, mbind at 1, get in E. rewrite Ef in E. cbv zeta in E. revert E.
    destruct (_ && (_ <=? _)); [destruct (_ && _)|].
    + unfold mbind. destruct (save_contact_token _ _ _ _) as [[[]?]?]; by intros [= <- _ _].
    + intros [= <- _ _]. cbn. by case_bool_decide.
    + unfold mbind. destruct (save_contact_bundle _ _ _ _) as [[[]?]?]; try done. destruct (_ =? 32); [|by intros [= <- _ _]].
      destruct (save_contact_token _ _ _ _) as [[[]?]?]; by intros [= <- _ _].
Qed.

Lemma keeping_after_import ks b token o :
  keeping (untouched ks) (do _ <- refresh_contacts; report_import b token o) (fun _ => True).
Proof. unfold report_import. keeps_on. Qed.

Ltac nothing_done := apply (ending_keeps _ _ (fun _ => True)); solve [keeps_on].

Lemma add_new_allowed ks k dk sv b token :
  match b with Some b => parse_identity_bundle b.(ib_raw) = Ret b /\ dk = b.(ib_signing_key) | None => True end ->
  ending (untouched ks) (do name <- ask_contact_name trimmed;
    match name with None => wret tt | Some name => finish_add_contact trimmed name k dk sv b token end) (allowed ks).
Proof.
  intros Hb. eapply ending_bind; [eauto with window|]. intros [name|] Hn; [by apply finish_allowed|].
  nothing_done.
Qed.

Lemma card_allowed ks : ending (untouched ks) (add_contact_from_card trimmed) (allowed ks).
Proof.
  unfold add_contact_from_card. eapply ending_bind; [eauto with window|]. intros [text|] _; [|nothing_done].
  destruct (is_empty _); [nothing_done|].
  destruct (decode_any_contact_card text) as [e|card] eqn:Ec; [nothing_done|]. cbv zeta.
  destruct (ic_bundle card) as [b|] eqn:Eb.
  - destruct (card_bundle _ _ _ Ec Eb) as [Hp Hdk]. intros w r w' HI. unfold wbind at 1, from_store.
    destruct (import_bundle_for_known_identity b _ _ _) as [[ri d] ks1] eqn:Ei. pose proof HI as (HJ & _). cbn in HJ. rewrite HJ in Ei.
    destruct (import_cases _ _ _ _ _ _ _ Hp Ei) as [[-> Hnone]|(c & Ho & Hup & Hres)].
    + destruct ri as [o| |]; [|intros [= _ <-]; by left..].
      assert (o.(bi_result) = UnknownIdentity) as ->.
      { unfold import_bundle_for_known_identity, mbind at 1, get in Ei. rewrite Hnone in Ei. by injection Ei as <-. }
      apply (add_new_allowed ks _ _ _ (Some b)); done.
    + destruct ri as [o| |].
      * specialize (Hres o eq_refl). set (w2 := mkWindow _ _ _ _ _ _). intros Er.
        assert ((do _ <- refresh_contacts; report_import b (ic_send_token card) o) w2 = (r, w')) as Er' by (by destruct (bi_result o)).
        eapply (keeping_after_import ks1) in Er' as [(HJ2 & _) _]; [|done]. right. exists c.(co_name). cbn in HJ2. rewrite HJ2. auto.
      * intros [= _ <-]. right. exists c.(co_name). auto.
      * intros [= _ <-]. right. exists c.(co_name). auto.
  - eapply ending_bind; [eauto with window|]. intros [] _; [by apply add_new_allowed|]. nothing_done.
Qed.

Lemma files_allowed ks : ending (untouched ks) (add_contact_from_files trimmed) (allowed ks).
Proof.
  assert (ending (untouched ks) (wret tt) (allowed ks)) as Hret by (nothing_done).
  unfold add_contact_from_files. eapply ending_bind; [eauto with window|]. intros [name|] Hn; [|done].
  eapply ending_bind; [eauto with window|]. intros [[? kc]|] _; [|done]. eapply ending_bind; [eauto with window|]. intros [[? dc]|] _; [|done].
  cbv zeta. destruct (if _ && _ then _ else _) as [k dk]. destruct (_ || _); [nothing_done|]. by apply finish_allowed.
Qed.

(** C16: contacts change only when the user confirmed a fingerprint, or a known person
    signed. Whatever the user does with the dialogs for adding a contact, whatever is
    pasted or chosen, and wherever the disk fails: afterwards the store is what it was,
    or exactly one contact has changed, and the user's keys and the other contacts have
    not. Then either the user was asked about a fingerprint and said yes, it is not
    their own, it is saved under no other name, and what is marked as verified is loaded
    with keys of that fingerprint; or the contact is one that was there, the change comes
    from a bundle signed with that contact's own key, and if it was verified its
    encryption key did not go back to an older one. *)
Theorem contacts_only_confirmed w inputs :
  let w' := step_window has_keychain nfc trimmed w (AddContact, inputs) in
  w'.(wn_store) = w.(wn_store) \/
  exists n, same_others n w.(wn_store) w'.(wn_store) /\
    (confirmed w.(wn_store) w'.(wn_store) w'.(wn_shown) n \/ updated w.(wn_store) w'.(wn_store) n).
Proof.
  assert (forall ks, ending (untouched ks) (add_contact trimmed) (allowed ks)) as Hadd.
  { intros ks. assert (ending (untouched ks) (wret tt) (allowed ks)) as Hret by (nothing_done).
    unfold add_contact. eapply ending_bind; [eauto with window|]. intros form _. destruct (busy form); [done|].
    eapply ending_bind; [eauto with window|]. intros [[| | |[|[|]]|]|] _; try done; [apply card_allowed|apply files_allowed]. }
  cbv zeta. unfold step_window. cbn [fst snd run_window]. destruct (add_contact trimmed _) as [r w'] eqn:E.
  eapply (Hadd w.(wn_store)) in E; [exact E|done].
Qed.
End contacts.

(** ** Examples *)

Definition ex_old : bytes := str "old passphrase".
Definition ex_kem : bytes := (@generate_kem_keypair keyed [Byte.x01]).2.
Definition ex_dsa : bytes := (@generate_sig_keypair keyed [Byte.x02]).2.
Definition ex_protected : KeyStore := (@initialize_keys keyed [Byte.x01] [Byte.x02] example_salts ex_old [] (mkKeyStore ∅ ∅ ∅ [] [] 12)).2.
Definition ex_window : Window :=
  mkWindow ex_protected ∅ (mkSettings true None None) (mkForm (str "relay:7000") [] [] false (mkServerAddress [] DEFAULT_RELAY_PORT) [] []) (mkInputs [] [] []) [].

(** Somebody who does not know the passphrase tries to take it away, and to start again. *)
Definition ex_guess : list response := [Answers true; Presses [PressOk (str "a wild guess") [] false]].
Lemma protection_needs_passphrase_witness :
  (foldl (@step_window keyed true id id) ex_window
     [(KeyMenu RemovePassphrase, mkInputs [] [] ex_guess); (Start [] [] example_salts, mkInputs [] [] (tail ex_guess))]).(wn_store).(ks_keys)
  = ex_protected.(ks_keys).
Proof.
  apply (@protection_needs_passphrase keyed keyed_laws true id id ex_window); [by vm_compute|].
  intros s r field Hs Hr (ps & c & t & -> & Hin). assert (Presses ps = Presses [PressOk (str "a wild guess") [] false]) as [= ->].
  { apply elem_of_cons in Hs as [->|[->|[]%not_elem_of_nil]%elem_of_cons]; cbn in Hr; set_solver. }
  apply list_elem_of_singleton in Hin as [= ->]. by vm_compute.
Defined.

Lemma remembered_passphrase_opens_witness :
  let choose p := Presses [PressOk (str p) (str p) true] in
  let w1 := @step_window keyed true id id ex_window (KeyMenu (ChangePassphrase example_salts), mkInputs [] [] [choose "old passphrase"%string; choose "new passphrase"%string]) in
  exists w2, @start keyed true id [] [] example_salts (with_user [] w1) = (Returned true, w2) /\ load_private_kem w2.(wn_store) = ex_kem.
Proof.
  assert (salts_ok example_salts) as Hr by (split_and!; reflexivity).
  assert (@keeps keyed ex_kem ex_dsa ex_old ex_protected) as Hk.
  { split; [exists true, true; split|split_and!; [right|right|..]; by vm_compute].
    - exists (salt_kem example_salts), (nonce_kem example_salts), 12. eexists. split_and!; [by vm_compute|by vm_compute..|by vm_compute].
    - exists (salt_dsa example_salts), (nonce_dsa example_salts), 12. eexists. split_and!; [by vm_compute|by vm_compute..|by vm_compute]. }
  assert (private_keys_protected (wn_store ex_window) = true) as Ep by (by vm_compute).
  pose proof (@remembered_passphrase_opens keyed keyed_laws id id ex_window ex_kem ex_dsa ex_old (str "new passphrase") example_salts example_salts [] []
    [PressOk (str "old passphrase") (str "old passphrase") true] [PressOk (str "new passphrase") (str "new passphrase") true] false) as Hopen.
  rewrite Ep in Hopen. destruct Hopen as [_ (w2 & E & Hl & _)].
  1, 2: split_and!; [by vm_compute..| |by vm_compute]; by vm_compute.
  1, 2: exact Hr.
  1: split_and!; by vm_compute.
  1: exact Hk.
  1-6: by vm_compute.
  exists w2. split; [exact E|exact Hl].
Defined.

Lemma transfers_as_chosen_witness :
  let w' := @step_window keyed true id id ex_window (Send, mkInputs [] [] [Chooses (str "/tmp/f") (str "x")]) in
  configured_server ex_window.(wn_form) = Some (mkServerAddress (str "relay") 7000) /\ w'.(wn_form).(busy) = true.
Proof.
  set (w' := step_window _ _ _ _ _). cbv zeta.
  destruct (@transfers_as_chosen keyed true id id ex_window Send (mkInputs [] [] [Chooses (str "/tmp/f") (str "x")])
    (Upload (str "/tmp/f") (str "relay") 7000 (self_contact ex_protected))) as (_ & Hb & _ & _ & Hs & _).
  - by apply elem_of_cons; left.
  - vm_compute. apply elem_of_cons; right. apply elem_of_cons; left. reflexivity.
  - split; [exact Hs|exact Hb].
Defined.

Definition ex_adds_ada : list response :=
  [Picks 1; Types (str "Ada"); Chooses (str "/tmp/k") (replicate 8 Byte.x07);
   Chooses (str "/tmp/d") (@generate_sig_keypair keyed [Byte.x05]).1; Answers true].
Lemma contacts_only_confirmed_witness :
  let w' := @step_window keyed true id id ex_window (AddContact, mkInputs [] [] ex_adds_ada) in
  exists n, same_others n ex_protected w'.(wn_store) /\
    (@confirmed keyed ex_protected w'.(wn_store) w'.(wn_shown) n \/ @updated keyed ex_protected w'.(wn_store) n).
Proof.
  destruct (@contacts_only_confirmed keyed keyed_laws true id id ex_window (mkInputs [] [] ex_adds_ada)) as [Hsame|H]; [exfalso|exact H].
  apply (f_equal (fun ks => bool_decide (is_Some (ks.(ks_contacts) !! str "Ada")))) in Hsame. by vm_compute in Hsame.
Defined.
